(* ===== verification/_CoqProject ===== *)
-Q . S2P
Prelude.v
Utf8.v
Heap.v
Steps.v
Double.v
JsonValue.v
JsonParse.v
JsonGrammar.v
JsonNumber.v
JsonSerialize.v
JsonApi.v
Schema.v
Message.v
Initialize.v
Validate.v
Builders.v
Tasks.v
Skills.v
Mrtr.v
UriTemplate.v
UriExpand.v
Sha256.v
Base64.v
MrtrState.v
Sha1.v
Sse.v
Timer.v
Queue.v
Session.v
Dispatcher.v
Lifecycle.v
Registry.v
Server.v
Routes.v
RouteLaws.v
Listing.v
Discover.v
Handlers.v
Routing.v
ToolCall.v
Serving.v
Transport.v
WsFrame.v
Ws.v
Client.v
Stdio.v
Exchange.v
Paging.v
Serve.v
EndToEnd.v
Content.v
Loose.v
Sampling.v
Manifest.v
Pkce.v
Forms.v
OAuth.v
ClientMeta.v
Apps.v
Http.v
HttpText.v
