(* ===== verification/Prelude.v ===== *)
(** * mcpkit-c: a verification development

    mcpkit-c is a C library for the Model Context Protocol: JSON-RPC 2.0
    messages between a client and a server that offers tools, resources and
    prompts.  This library models the program's own logic as executable
    definitions and proves what makes each part correct, from the bytes of
    a message up to a client and a server talking over one connection.

    ** The parts of the program and where they are modelled

    The data path, bottom up.  Each file names the lines it translates;
    definitions keep the names of the C functions.

    - Text and memory.  [Prelude] (bytes, C strings, tactics), [Utf8]
      (utf8_step, utf8_valid, utf8_encode of json/builtin.c), [Heap] (the
      allocator of a context with failure injection and a block count),
      [Double] (IEEE binary64, strtod, "%.17g").
    - JSON, json/builtin.c and json/api.c.  [JsonValue] (the node type and
      the container updates), [JsonParse] (the recursive-descent parser),
      [JsonGrammar] (RFC 8259 as inductive predicates), [JsonNumber],
      [JsonSerialize] (the serializer and a reference rendering), [JsonApi]
      (the backend table as a record with laws, the facade, deep copy).
      [Schema] is json/schema.c: builders and validator.
    - The protocol layer, protocol/*.c.  [Message] (message.c),
      [Initialize] (initialize.c), [Validate] (validate.c and
      method_table.h), [Builders] (the build-or-destroy pattern shared by
      all payload builders, as combinators with rules), [Tasks] (tasks.c),
      [Skills] (skills.c), [Mrtr] (mrtr.c), [Sha256], [Base64] and
      [MrtrState] (mrtr_state.c: digest, HMAC, base64url, signed state
      tokens), [UriTemplate] and [UriExpand] (uri_template.c).
    - The server, server/*.c.  [Queue] (queue.c), [Session] (session.c),
      [Dispatcher] (dispatcher.c over a [Router] interface), [Lifecycle] (a
      session as a step relation), [Registry] (registry.c), [Server]
      (server.c), [Routes] (routes.c, every handler); the laws of the
      handlers are in [RouteLaws], [Listing], [Discover], [Handlers],
      [Routing], [ToolCall], and [Serving] instantiates the dispatcher's
      theorems with the real handlers.
    - Transports and the client.  [Transport] (transport.c: the operation
      table and the class [TransportLaws]), [Stdio] (stdio.c, framing),
      [Serve] (stdio.c, the serve loop), [Client] (client.c), [Exchange]
      and [Paging] (what the client guarantees), [EndToEnd] (client and
      server composed).
    - WebSockets, event streams, timers.  [Sha1] (core/sha1.c), [WsFrame]
      and [Ws] (transport/ws.c: the frame codec, and the transport over a
      connected socket), [Sse] (transport/sse.c), [Timer]
      (runtime/timer.c); [Steps] has the block-count reasoning of code that
      never corrupts the heap.
    - HTTP, transport/http.c.  [Http] (parser, builders, serializers) and
      [HttpText] (the text of a request as a relation, and its theorems).
    - Payloads around the core.  [Content] (protocol/content.c), [Loose]
      (the stores whose status the code ignores, as combinators with rules),
      [Sampling] (protocol/sampling.c), [Manifest] (protocol/registry.c).
    - Authorization, core/auth.c.  [Pkce] (proof keys), [Forms] (token
      requests), [OAuth] (server metadata and token responses),
      [ClientMeta] (client metadata documents).
    - The Apps extension, apps/csp.c and apps/ui.c: [Apps].

    How they interact: a transport delivers a line; the serve loop parses
    it ([mcp_message_parse]), dispatches it ([mcp_server_dispatch]:
    validation, handshake gate, duplicate ids, routing), a handler builds
    the response over the JSON facade, and the loop serializes it and hands
    it to the transport.  Notifications go through the session and the
    outbox.  The client is the mirror image over the same transport table.

    ** How the code is represented

    A pointer that may be NULL is an option; a struct is a record; an enum
    an inductive type; a [char] buffer a list of bytes, and what string
    functions see of it is [cstr].  Fixed-width integers are [Z] with the
    wrap-around written out ([w32], [add64] and the like), a [double] its
    IEEE data.  Code that allocates runs in the state monad [M] of [Heap]:
    every malloc, calloc and realloc may fail, by an arbitrary policy, and
    every such failure path of the source is a path of the model.  [hstep]
    counts the blocks; the flag [corrupt] is set where the source frees a
    block twice or keeps a dangling pointer, and block-count statements are
    only made as long as it is not set ([ample]: memory never runs out).
    Mutation is state passing: an operation returns the object as it is
    afterwards, also when it fails.

    Loops and recursions that are not structural run on fuel computed from
    their input (the length of a text, the number of entries, the number of
    scripted reads); running out is a value of its own, and for each there
    is a theorem that it does not happen ([parse_terminates] for the
    parser, the [_ample] and [_spec] lemmas of the others), so no theorem
    is of the form "if it returns".  Bounds of the source are kept as they
    are (nesting depth 128, 1024 queued messages, 100 entries a page, 64
    captures, 5 hops of a multi-round-trip call).

    Code outside the repository is a parameter with a stated contract: the
    host's tool, resource, prompt and completion callbacks ([RouteLaws]),
    the client's callbacks, the clock, random bytes, the scripted results of
    read, write, recv and send.  Each theorem with such a hypothesis has a
    witness that instantiates it.

    ** What the theorems show

    - JSON: the parser accepts exactly the texts of the grammar and builds
      their denotation, ends on every input, leaks nothing; printing and
      parsing are inverse; UTF-8 acceptance is exact; numbers survive.
    - Schema validation decides declarative validity, and the error message
      names the offending path.
    - Messages: parsing is exact, and every builder's message survives the
      wire.  The id set refines a mathematical set; the queue a FIFO.
    - The server: every valid request is answered with its own id, no id is
      served twice, nothing is served before the handshake, a tool runs
      only for a session that may call it with arguments its schema admits,
      a failing tool is reported in the result, the list pages cover every
      visible tool once, the registries, tasks and subscriptions refine
      maps and sets, destroying a server frees all of it.
    - Tokens: SHA-256 and HMAC equal their reference definitions for every
      length and chunking; base64url decodes exactly what the alphabet
      admits; an unpacked state was signed with the key and is in time;
      packing and unpacking round-trip.
    - URI templates: matching is exact for a declarative reading, the
      expansion of a template is its reference text and matches it again.
    - Transports and client: the framing is independent of how the bytes
      arrive; the serve loop answers every line in order; a client request
      returns the answer the dispatcher computed, and no answer is taken for
      that of another request; multi-round-trip calls and page walks end
      within their bounds.
    - WebSockets: a frame survives encoding and parsing, the parser never
      reads past its buffer, what a client sends arrives whole however the
      socket cuts it (up to the carry limit of 4 MiB); the accept key is
      that of RFC 6455 over the reference SHA-1.
    - Event streams: feeding a text (without NUL or byte order mark) in any
      pieces emits the events the specification reads in the whole.  Timers:
      polling returns and fires what is due in the order of deadlines.
    - HTTP: the parser accepts every buffer that holds a request within the
      limits and, where NUL bytes, long request lines and signed or repeated
      lengths are left aside, no other; what the client serializes is read
      back.
    - Payloads: annotated content, sampling requests and manifests say what
      was put into them when they are read back.
    - Authorization: the challenge of a verifier is base64url of its
      SHA-256; the body of a token request decodes to its parameters; a
      token response is accepted exactly when its text is an object with
      the required members, and nothing leaks on any path; client metadata
      documents of UTF-8 texts survive printing and reading.
    - Apps: a ui:// resource serves its document with the policy in force
      and gives all its memory back.

    The findings of the manifest list where the code departs from its
    comments or its intent; most have a theorem that exhibits the case.

    ** Not modelled

    Threads, mutexes and condition variables (runtime/executor.c,
    threadpool.c, sync.c, loop.c, and the locks of the server: the model is
    one thread), epoll and sockets (runtime/reactor.c, transport/socket.c,
    async_server.c, and the connection set-up of transport/ws.c), TLS
    (transport/tls.c, I/O around a third-party library), the HTTP serve loop
    (transport/streamable_http.c); dlopen glue (plugin/plugin.c), the
    command-line tool and the examples; log lines and trace time stamps. *)
From stdpp Require Export base option list numbers strings sets.
From Stdlib Require Export ZArith Lia.
From Stdlib Require Export Strings.Byte.

#[global] Set Default Goal Selector "!".

(** ** Bytes

    A C [char] buffer is a [list byte]; arithmetic on a byte goes through
    its unsigned value [b2z], and a cast of an integer to [char] is [z2b],
    which wraps modulo 256. *)

Abbreviation bytes := (list byte).

#[export] Instance byte_eq_dec : EqDecision byte := Byte.byte_eq_dec.

Definition b2z (b : byte) : Z := Z.of_N (Byte.to_N b).

Definition z2b (z : Z) : byte :=
  default x00 (Byte.of_N (Z.to_N (z mod 256))).

(** The bytes of a C string literal (without its terminating NUL). *)
Definition cs (s : string) : bytes := String.list_byte_of_string s.

(** A JSON text written with single quotes for double quotes. *)
Definition js (s : string) : bytes := map (fun b => if Byte.eqb b x27 then x22 else b) (cs s).

(** What [strlen]/[strcmp] see of a buffer: the bytes before the first NUL. *)
Fixpoint cstr (s : bytes) : bytes :=
  match s with
  | [] => []
  | b :: s' => if Byte.eqb b x00 then [] else b :: cstr s'
  end.

(** [memchr(s, 0, n) != NULL]. *)
Definition has_nul (s : bytes) : bool := existsb (Byte.eqb x00) s.

(** [strcmp(a, b) == 0]. *)
Definition streq (a b : bytes) : bool := bool_decide (cstr a = cstr b).

(** ** Tactics *)

(** Destructs the scrutinee of the outermost matches of the goal or of the
    hypotheses, keeping the equations. *)
Ltac destruct_match :=
  match goal with
  | |- context [match ?x with _ => _ end] =>
      lazymatch x with context [match _ with _ => _ end] => fail | _ => destruct x eqn:? end
  end.

Ltac destruct_match_in H :=
  match type of H with
  | context [match ?x with _ => _ end] =>
      lazymatch x with context [match _ with _ => _ end] => fail | _ => destruct x eqn:? end
  end.

(** Turns the boolean facts of the context into propositions. *)
Ltac bool_props :=
  repeat match goal with
  | H : _ && _ = true |- _ => apply andb_true_iff in H; destruct H
  | H : _ || _ = false |- _ => apply orb_false_iff in H; destruct H
  | H : negb _ = true |- _ => apply negb_true_iff in H
  | H : negb _ = false |- _ => apply negb_false_iff in H
  | H : Z.leb _ _ = true |- _ => apply Z.leb_le in H
  | H : Z.leb _ _ = false |- _ => apply Z.leb_gt in H
  | H : Z.ltb _ _ = true |- _ => apply Z.ltb_lt in H
  | H : Z.ltb _ _ = false |- _ => apply Z.ltb_ge in H
  | H : Z.eqb _ _ = true |- _ => apply Z.eqb_eq in H
  | H : Z.eqb _ _ = false |- _ => apply Z.eqb_neq in H
  | H : Nat.eqb _ _ = true |- _ => apply Nat.eqb_eq in H
  | H : Nat.eqb _ _ = false |- _ => apply Nat.eqb_neq in H
  | H : Nat.ltb _ _ = true |- _ => apply Nat.ltb_lt in H
  | H : Nat.ltb _ _ = false |- _ => apply Nat.ltb_ge in H
  | H : Nat.leb _ _ = true |- _ => apply Nat.leb_le in H
  | H : Nat.leb _ _ = false |- _ => apply Nat.leb_gt in H
  | H : Byte.eqb _ _ = true |- _ => apply Byte.byte_dec_bl in H
  end.

(** [lia] with the division and modulo by constants spelled out. *)
Ltac dlia := Z.div_mod_to_equations; lia.

(** ** Byte lemmas *)

Lemma b2z_range b : (0 <= b2z b < 256)%Z.
Proof.
  unfold b2z. pose proof (Byte.to_N_bounded b). lia.
Qed.

Lemma z2b_b2z b : z2b (b2z b) = b.
Proof.
  unfold z2b. rewrite Z.mod_small by apply b2z_range.
  unfold b2z. rewrite N2Z.id, Byte.of_to_N. done.
Qed.

Lemma b2z_z2b z : (0 <= z < 256)%Z -> b2z (z2b z) = z.
Proof.
  intros Hz. unfold z2b. rewrite Z.mod_small by done.
  destruct (Byte.of_N (Z.to_N z)) as [b|] eqn:E; simpl.
  - apply Byte.to_of_N in E. unfold b2z. rewrite E. lia.
  - apply Byte.of_N_None_iff in E. lia.
Qed.

Lemma b2z_inj a b : b2z a = b2z b -> a = b.
Proof. intros H. rewrite <- (z2b_b2z a), <- (z2b_b2z b), H. done. Qed.

Lemma byte_eqb_eq a b : Byte.eqb a b = true <-> a = b.
Proof. split; [apply Byte.byte_dec_bl | apply Byte.byte_dec_lb]. Qed.

Lemma byte_eqb_refl a : Byte.eqb a a = true.
Proof. by apply byte_eqb_eq. Qed.

Lemma byte_eqb_neq a b : Byte.eqb a b = false <-> a <> b.
Proof. rewrite <- byte_eqb_eq. destruct (Byte.eqb a b); naive_solver. Qed.

(** Brute force over the 256 bytes: [forallb P all_bytes = true] is decided
    by computation. *)
Definition all_bytes : bytes := map (fun n => z2b (Z.of_nat n)) (seq 0 256).

Lemma in_all_bytes b : In b all_bytes.
Proof.
  unfold all_bytes. apply in_map_iff. exists (Z.to_nat (b2z b)).
  pose proof (b2z_range b). split.
  - rewrite Z2Nat.id by lia. apply z2b_b2z.
  - apply in_seq. lia.
Qed.

Lemma all_bytes_forall (P : byte -> bool) :
  forallb P all_bytes = true -> forall b, P b = true.
Proof. intros H b. by apply (proj1 (forallb_forall _ _) H b), in_all_bytes. Qed.

(** ** C strings *)

Lemma has_nul_cons b s : has_nul (b :: s) = Byte.eqb x00 b || has_nul s.
Proof. done. Qed.

Lemma has_nul_app s1 s2 : has_nul (s1 ++ s2) = has_nul s1 || has_nul s2.
Proof. apply existsb_app. Qed.

Lemma cstr_no_nul s : has_nul s = false -> cstr s = s.
Proof.
  induction s as [|b s IH]; simpl; [done|].
  destruct (Byte.eqb b x00) eqn:E.
  - apply byte_eqb_eq in E as ->. done.
  - intros [_ H]%orb_false_iff. by rewrite IH.
Qed.

Lemma has_nul_cstr s : has_nul (cstr s) = false.
Proof.
  induction s as [|b s IH]; simpl; [done|].
  destruct (Byte.eqb b x00) eqn:E; [done|]. simpl. rewrite IH.
  apply byte_eqb_neq in E. rewrite orb_false_r. apply byte_eqb_neq. congruence.
Qed.

Lemma cstr_idem s : cstr (cstr s) = cstr s.
Proof. apply cstr_no_nul, has_nul_cstr. Qed.

Lemma streq_no_nul a b :
  has_nul a = false -> has_nul b = false -> streq a b = bool_decide (a = b).
Proof. intros Ha Hb. unfold streq. by rewrite !cstr_no_nul. Qed.

(** [strchr] and [memchr]: the bytes before and after the first [c]. *)
Fixpoint cut (c : byte) (s : bytes) : option (bytes * bytes) :=
  match s with
  | [] => None
  | b :: s => if Byte.eqb b c then Some ([], s) else
      match cut c s with None => None | Some (p, r) => Some (b :: p, r) end
  end.

Lemma cut_some c s p r : cut c s = Some (p, r) <-> s = p ++ c :: r /\ c ∉ p.
Proof.
  revert p. induction s as [|b s IH]; intros p; cbn [cut].
  - split; [done|]. by destruct p; intros [? _].
  - destruct (Byte.eqb b c) eqn:E.
    + apply byte_eqb_eq in E as ->. split; [intros [= <- <-]; split; [done|set_solver]|].
      intros [H Hp]. destruct p as [|d p]; simplify_eq/=; [done|]. set_solver.
    + apply byte_eqb_neq in E. destruct (cut c s) as [[p' r']|] eqn:F.
      * split.
        -- intros [= <- <-]. destruct (proj1 (IH p') eq_refl) as [-> Hn]. split; [done|]. set_solver.
        -- intros [H Hp]. destruct p as [|d p]; simplify_eq/=. assert (Some (p', r') = Some (p, r)) as [= -> ->]; [|done].
           apply IH. split; [done|]. set_solver.
      * split; [done|]. intros [H Hp]. destruct p as [|d p]; simplify_eq/=.
        assert (None = Some (p, r)) by (apply IH; split; [done|set_solver]). done.
Qed.

Lemma cut_none c s : cut c s = None <-> c ∉ s.
Proof.
  induction s as [|b s IH]; cbn [cut]; [split; [set_solver|done]|].
  destruct (Byte.eqb b c) eqn:E.
  - apply byte_eqb_eq in E as ->. split; [done|set_solver].
  - apply byte_eqb_neq in E. destruct (cut c s) as [[p r]|]; split; try done; set_solver.
Qed.
