(* ===== verification/Utf8.v ===== *)
(** * UTF-8 validation and encoding (src/json/builtin.c)

    The Hoehrmann automaton [utf8_step]/[utf8_valid] over the table
    [k_utf8d] and the encoder [utf8_encode].  The main result is that the
    validator accepts exactly the byte sequences that the encoder produces
    from sequences of Unicode scalar values (RFC 3629). *)
From S2P Require Import Prelude.

Local Open Scope Z_scope.

(** The byte classes (first 256 entries) and the transition table. *)
Definition k_utf8d : list Z := [
  0;0;0;0;0;0;0;0;0;0;0;0;0;0;0;0;0;0;0;0;0;0;0;0;0;0;0;0;0;0;0;0;
  0;0;0;0;0;0;0;0;0;0;0;0;0;0;0;0;0;0;0;0;0;0;0;0;0;0;0;0;0;0;0;0;
  0;0;0;0;0;0;0;0;0;0;0;0;0;0;0;0;0;0;0;0;0;0;0;0;0;0;0;0;0;0;0;0;
  0;0;0;0;0;0;0;0;0;0;0;0;0;0;0;0;0;0;0;0;0;0;0;0;0;0;0;0;0;0;0;0;
  1;1;1;1;1;1;1;1;1;1;1;1;1;1;1;1;9;9;9;9;9;9;9;9;9;9;9;9;9;9;9;9;
  7;7;7;7;7;7;7;7;7;7;7;7;7;7;7;7;7;7;7;7;7;7;7;7;7;7;7;7;7;7;7;7;
  8;8;2;2;2;2;2;2;2;2;2;2;2;2;2;2;2;2;2;2;2;2;2;2;2;2;2;2;2;2;2;2;
  0xa;0x3;0x3;0x3;0x3;0x3;0x3;0x3;0x3;0x3;0x3;0x3;0x3;0x4;0x3;0x3;
  0xb;0x6;0x6;0x6;0x5;0x8;0x8;0x8;0x8;0x8;0x8;0x8;0x8;0x8;0x8;0x8;
  0x0;0x1;0x2;0x3;0x5;0x8;0x7;0x1;0x1;0x1;0x4;0x6;0x1;0x1;0x1;0x1;
  1;1;1;1;1;1;1;1;1;1;1;1;1;1;1;1;1;0;1;1;1;1;1;0;1;0;1;1;1;1;1;1;
  1;2;1;1;1;1;1;2;1;2;1;1;1;1;1;1;1;1;1;1;1;1;1;2;1;1;1;1;1;1;1;1;
  1;2;1;1;1;1;1;1;1;2;1;1;1;1;1;1;1;1;1;1;1;1;1;3;1;3;1;1;1;1;1;1;
  1;3;1;1;1;1;1;3;1;3;1;1;1;1;1;1;1;3;1;1;1;1;1;1;1;1;1;1;1;1;1;1 ].

Definition UTF8_ACCEPT : Z := 0.
Definition UTF8_REJECT : Z := 1.

Definition utf8_class (byte : byte) : Z := nth (Z.to_nat (b2z byte)) k_utf8d 0.

Definition utf8_step (state : Z) (byte : byte) : Z :=
  let type := utf8_class byte in
  nth (Z.to_nat (256 + state * 16 + type)) k_utf8d 0.

Arguments utf8_class : simpl never.
Arguments utf8_step : simpl never.

(** The loop of [utf8_valid]: it stops at the first byte that rejects. *)
Fixpoint utf8_valid_from (state : Z) (s : bytes) : bool :=
  match s with
  | [] => state =? UTF8_ACCEPT
  | b :: s' =>
      let state := utf8_step state b in
      if state =? UTF8_REJECT then false else utf8_valid_from state s'
  end.

Definition utf8_valid (s : bytes) : bool := utf8_valid_from UTF8_ACCEPT s.

(** [utf8_encode]: the bytes written to [out], whose number it returns. *)
Definition utf8_encode (cp : Z) : bytes :=
  if cp <? 0x80 then [z2b cp]
  else if cp <? 0x800 then
    [z2b (Z.lor 0xC0 (Z.shiftr cp 6)); z2b (Z.lor 0x80 (Z.land cp 0x3F))]
  else if cp <? 0x10000 then
    [z2b (Z.lor 0xE0 (Z.shiftr cp 12));
     z2b (Z.lor 0x80 (Z.land (Z.shiftr cp 6) 0x3F));
     z2b (Z.lor 0x80 (Z.land cp 0x3F))]
  else
    [z2b (Z.lor 0xF0 (Z.shiftr cp 18));
     z2b (Z.lor 0x80 (Z.land (Z.shiftr cp 12) 0x3F));
     z2b (Z.lor 0x80 (Z.land (Z.shiftr cp 6) 0x3F));
     z2b (Z.lor 0x80 (Z.land cp 0x3F))].

(** ** Specification *)

(** A Unicode scalar value: a code point that is not a surrogate. *)
Definition scalar (cp : Z) : Prop := 0 <= cp < 0xD800 \/ 0xE000 <= cp <= 0x10FFFF.

Definition utf8_text (s : bytes) : Prop :=
  exists cps, Forall scalar cps /\ s = concat (map utf8_encode cps).

(** ** The table, read as byte ranges

    [(lo, hi, st)] in [leads]: a byte in [lo, hi) takes the accepting state
    to [st].  [(st, lo, hi, st')] in [conts]: a byte in [lo, hi) takes [st]
    to [st'].  Every other byte rejects. *)
Definition leads : list (Z * Z * Z) :=
  [(0, 0x80, 0); (0xC2, 0xE0, 2); (0xE0, 0xE1, 4); (0xE1, 0xED, 3); (0xED, 0xEE, 5);
   (0xEE, 0xF0, 3); (0xF0, 0xF1, 6); (0xF1, 0xF4, 7); (0xF4, 0xF5, 8)].

Definition conts : list (Z * Z * Z * Z) :=
  [(2, 0x80, 0xC0, 0); (3, 0x80, 0xC0, 2); (4, 0xA0, 0xC0, 2); (5, 0x80, 0xA0, 2);
   (6, 0x90, 0xC0, 3); (7, 0x80, 0xC0, 3); (8, 0x80, 0x90, 3)].

Definition inb (lo hi z : Z) : bool := (lo <=? z) && (z <? hi).

Lemma inb_true lo hi z : lo <= z < hi -> inb lo hi z = true.
Proof. intros. unfold inb. apply andb_true_iff. lia. Qed.

Lemma inb_inv lo hi z : inb lo hi z = true -> lo <= z < hi.
Proof. unfold inb. intros [? ?]%andb_true_iff. lia. Qed.

Lemma leads_step_bool b :
  forallb (fun '(lo, hi, st) => implb (inb lo hi (b2z b)) (utf8_step 0 b =? st)) leads &&
  implb (negb (utf8_step 0 b =? 1)) (existsb (fun '(lo, hi, _) => inb lo hi (b2z b)) leads) = true.
Proof. revert b. apply all_bytes_forall. by vm_compute. Qed.

Lemma conts_step_bool b :
  forallb (fun '(st, lo, hi, st') =>
    utf8_step st b =? (if inb lo hi (b2z b) then st' else 1)) conts = true.
Proof. revert b. apply all_bytes_forall. by vm_compute. Qed.

(** A lead byte. *)
Lemma utf8_lead lo hi st z s :
  In (lo, hi, st) leads -> lo <= z < hi ->
  utf8_valid_from 0 (z2b z :: s) = utf8_valid_from st s.
Proof.
  intros Hin Hz.
  assert (0 <= z < 256) as Hz'.
  { assert (0 <= lo /\ hi <= 256); [|lia].
    simpl in Hin. destruct_or! Hin; simplify_eq; lia. }
  pose proof (leads_step_bool (z2b z)) as [Hall _]%andb_true_iff.
  pose proof (proj1 (forallb_forall _ _) Hall _ Hin) as H. cbn in H.
  rewrite b2z_z2b, inb_true in H by done. apply Z.eqb_eq in H.
  cbn [utf8_valid_from]. rewrite H.
  clear H Hall. simpl in Hin. destruct_or! Hin; simplify_eq; done.
Qed.

Lemma utf8_lead_inv b s :
  utf8_valid_from 0 (b :: s) = true ->
  exists lo hi st, In (lo, hi, st) leads /\ lo <= b2z b < hi /\ utf8_valid_from st s = true.
Proof.
  intros H. pose proof (leads_step_bool b) as [_ Hex]%andb_true_iff.
  cbn [utf8_valid_from] in H. unfold UTF8_REJECT in H.
  destruct (utf8_step 0 b =? 1) eqn:E; [done|]. simpl negb in Hex. cbn [implb] in Hex.
  apply existsb_exists in Hex as [[[lo hi] st] [Hin Hb%inb_inv]].
  exists lo, hi, st. split; [done|]. split; [done|].
  rewrite <- (z2b_b2z b) in H.
  assert (utf8_valid_from 0 (z2b (b2z b) :: s) = true) as H'.
  { cbn [utf8_valid_from]. unfold UTF8_REJECT. by rewrite z2b_b2z, E in *. }
  by rewrite (utf8_lead lo hi st) in H'.
Qed.

(** A continuation byte. *)
Lemma utf8_cont st lo hi st' b s :
  In (st, lo, hi, st') conts ->
  utf8_valid_from st (b :: s) = if inb lo hi (b2z b) then utf8_valid_from st' s else false.
Proof.
  intros Hin. pose proof (conts_step_bool b) as Hall.
  pose proof (proj1 (forallb_forall _ _) Hall _ Hin) as H. cbn in H. apply Z.eqb_eq in H.
  cbn [utf8_valid_from]. rewrite H. destruct (inb lo hi (b2z b)); [|done].
  clear H Hall. simpl in Hin. destruct_or! Hin; simplify_eq; done.
Qed.

Lemma utf8_cont_in st lo hi st' z s :
  In (st, lo, hi, st') conts -> lo <= z < hi ->
  utf8_valid_from st (z2b z :: s) = utf8_valid_from st' s.
Proof.
  intros Hin Hz. rewrite (utf8_cont st lo hi st') by done.
  rewrite b2z_z2b; [by rewrite inb_true|].
  simpl in Hin. destruct_or! Hin; simplify_eq; lia.
Qed.

Lemma utf8_cont_inv st lo hi st' s :
  In (st, lo, hi, st') conts -> utf8_valid_from st s = true ->
  exists b s', s = b :: s' /\ lo <= b2z b < hi /\ utf8_valid_from st' s' = true.
Proof.
  intros Hin H. destruct s as [|b s].
  - simpl in Hin. destruct_or! Hin; simplify_eq; done.
  - rewrite (utf8_cont st lo hi st') in H by done.
    destruct (inb lo hi (b2z b)) eqn:E; [|done]. apply inb_inv in E. eauto.
Qed.

(** ** Arithmetic form of the encoder *)

Lemma lor_add_disjoint k a z : 0 <= k -> 0 <= z < 2 ^ k -> Z.lor (Z.shiftl a k) z = a * 2 ^ k + z.
Proof.
  intros Hk Hz. assert (Z.land (Z.shiftl a k) z = 0) as Hd.
  - apply Z.bits_inj'; intros n Hn. rewrite Z.land_spec, Z.bits_0.
    destruct (decide (n < k)); [by rewrite Z.shiftl_spec_low|].
    destruct (decide (z = 0)) as [->|]; [by rewrite Z.bits_0, andb_false_r|].
    rewrite (Z.bits_above_log2 z n), ?andb_false_r; [done|lia|].
    apply Z.log2_lt_pow2; [lia|].
    apply Z.lt_le_trans with (2 ^ k); [lia|]. apply Z.pow_le_mono_r; lia.
  - rewrite <- Z.lxor_lor, <- Z.add_nocarry_lxor by done. by rewrite Z.shiftl_mul_pow2.
Qed.

Lemma lor_C0 z : 0 <= z < 32 -> Z.lor 0xC0 z = 0xC0 + z.
Proof. intros. change 0xC0 with (Z.shiftl 6 5) at 1. by rewrite lor_add_disjoint. Qed.

Lemma lor_E0 z : 0 <= z < 16 -> Z.lor 0xE0 z = 0xE0 + z.
Proof. intros. change 0xE0 with (Z.shiftl 14 4) at 1. by rewrite lor_add_disjoint. Qed.

Lemma lor_F0 z : 0 <= z < 16 -> Z.lor 0xF0 z = 0xF0 + z.
Proof. intros. change 0xF0 with (Z.shiftl 15 4) at 1. by rewrite lor_add_disjoint. Qed.

Lemma lor_80_land z : Z.lor 0x80 (Z.land z 0x3F) = 0x80 + z mod 64.
Proof.
  change 0x3F with (Z.ones 6). rewrite Z.land_ones by lia.
  change 0x80 with (Z.shiftl 2 6) at 1. rewrite lor_add_disjoint; [done|lia|].
  apply Z.mod_pos_bound. lia.
Qed.

Lemma utf8_encode_2 cp : 0x80 <= cp < 0x800 ->
  utf8_encode cp = [z2b (0xC0 + cp / 64); z2b (0x80 + cp mod 64)].
Proof.
  intros H. unfold utf8_encode. rewrite (proj2 (Z.ltb_ge cp 0x80)) by lia.
  rewrite (proj2 (Z.ltb_lt cp 0x800)) by lia.
  rewrite lor_80_land, Z.shiftr_div_pow2 by lia. change (2 ^ 6) with 64.
  rewrite lor_C0 by dlia. done.
Qed.

Lemma utf8_encode_3 cp : 0x800 <= cp < 0x10000 ->
  utf8_encode cp =
    [z2b (0xE0 + cp / 4096); z2b (0x80 + cp / 64 mod 64); z2b (0x80 + cp mod 64)].
Proof.
  intros H. unfold utf8_encode. rewrite (proj2 (Z.ltb_ge cp 0x80)) by lia.
  rewrite (proj2 (Z.ltb_ge cp 0x800)) by lia. rewrite (proj2 (Z.ltb_lt cp 0x10000)) by lia.
  rewrite !lor_80_land, !Z.shiftr_div_pow2 by lia.
  change (2 ^ 6) with 64. change (2 ^ 12) with 4096. rewrite lor_E0 by dlia. done.
Qed.

Lemma utf8_encode_4 cp : 0x10000 <= cp < 0x110000 ->
  utf8_encode cp =
    [z2b (0xF0 + cp / 262144); z2b (0x80 + cp / 4096 mod 64);
     z2b (0x80 + cp / 64 mod 64); z2b (0x80 + cp mod 64)].
Proof.
  intros H. unfold utf8_encode. rewrite (proj2 (Z.ltb_ge cp 0x80)) by lia.
  rewrite (proj2 (Z.ltb_ge cp 0x800)) by lia. rewrite (proj2 (Z.ltb_ge cp 0x10000)) by lia.
  rewrite !lor_80_land, !Z.shiftr_div_pow2 by lia.
  change (2 ^ 6) with 64. change (2 ^ 12) with 4096. change (2 ^ 18) with 262144.
  rewrite lor_F0 by dlia. done.
Qed.

(** ** Acceptance of encodings *)

Ltac in_table := simpl; tauto.

Lemma accept_encode_3 cp s :
  0x800 <= cp < 0x10000 -> scalar cp ->
  utf8_valid_from 0 (utf8_encode cp ++ s) = utf8_valid_from 0 s.
Proof.
  unfold scalar. intros H Hs. rewrite utf8_encode_3 by done. cbn [app].
  assert (cp / 4096 = 0 \/ 1 <= cp / 4096 < 13 \/ cp / 4096 = 13 \/ 14 <= cp / 4096 < 16)
    as Hq by dlia.
  assert (utf8_valid_from 2 (z2b (0x80 + cp mod 64) :: s) = utf8_valid_from 0 s) as Hlast
    by (apply (utf8_cont_in 2 0x80 0xC0 0); [in_table|dlia]).
  destruct_or! Hq.
  - rewrite (utf8_lead 0xE0 0xE1 4), (utf8_cont_in 4 0xA0 0xC0 2); [done|in_table|dlia|in_table|dlia].
  - rewrite (utf8_lead 0xE1 0xED 3), (utf8_cont_in 3 0x80 0xC0 2); [done|in_table|dlia|in_table|dlia].
  - rewrite (utf8_lead 0xED 0xEE 5), (utf8_cont_in 5 0x80 0xA0 2); [done|in_table|dlia|in_table|dlia].
  - rewrite (utf8_lead 0xEE 0xF0 3), (utf8_cont_in 3 0x80 0xC0 2); [done|in_table|dlia|in_table|dlia].
Qed.

Lemma accept_encode_4 cp s :
  0x10000 <= cp < 0x110000 ->
  utf8_valid_from 0 (utf8_encode cp ++ s) = utf8_valid_from 0 s.
Proof.
  intros H. rewrite utf8_encode_4 by done. cbn [app].
  assert (cp / 262144 = 0 \/ 1 <= cp / 262144 < 4 \/ cp / 262144 = 4) as Hq by dlia.
  assert (utf8_valid_from 3 (z2b (0x80 + cp / 64 mod 64) :: z2b (0x80 + cp mod 64) :: s)
          = utf8_valid_from 0 s) as Hlast.
  { rewrite (utf8_cont_in 3 0x80 0xC0 2), (utf8_cont_in 2 0x80 0xC0 0); [done|in_table|dlia|in_table|dlia]. }
  destruct_or! Hq.
  - rewrite (utf8_lead 0xF0 0xF1 6), (utf8_cont_in 6 0x90 0xC0 3); [done|in_table|dlia|in_table|dlia].
  - rewrite (utf8_lead 0xF1 0xF4 7), (utf8_cont_in 7 0x80 0xC0 3); [done|in_table|dlia|in_table|dlia].
  - rewrite (utf8_lead 0xF4 0xF5 8), (utf8_cont_in 8 0x80 0x90 3); [done|in_table|dlia|in_table|dlia].
Qed.

Lemma utf8_encode_accepted cp s :
  scalar cp -> utf8_valid (utf8_encode cp ++ s) = utf8_valid s.
Proof.
  unfold utf8_valid, UTF8_ACCEPT. intros Hs. unfold scalar in Hs.
  assert (0 <= cp < 0x80 \/ 0x80 <= cp < 0x800 \/ 0x800 <= cp < 0x10000 \/ 0x10000 <= cp < 0x110000)
    as Hc by lia.
  destruct_or! Hc.
  - unfold utf8_encode. rewrite (proj2 (Z.ltb_lt cp 0x80)) by lia.
    apply (utf8_lead 0 0x80 0); [in_table|lia].
  - rewrite utf8_encode_2 by done. cbn [app].
    rewrite (utf8_lead 0xC2 0xE0 2), (utf8_cont_in 2 0x80 0xC0 0); [done|in_table|dlia|in_table|dlia].
  - by apply accept_encode_3.
  - by apply accept_encode_4.
Qed.

(** ** Decoding of accepted text *)

(** Rebuilds the bytes of an encoding from their ranges. *)
Ltac same_bytes :=
  cbn [app]; repeat (apply f_equal2; [apply b2z_inj; rewrite b2z_z2b; dlia|]); done.

(** The three-byte and four-byte cases share one argument each: [lo] and
    [hi] bound the second byte. *)
Lemma decode_3 b lo hi st s :
  In (st, lo, hi, 2) conts ->
  (st = 4 /\ b2z b = 0xE0 \/ st = 3 /\ 0xE1 <= b2z b < 0xED \/ st = 5 /\ b2z b = 0xED \/
   st = 3 /\ 0xEE <= b2z b < 0xF0) ->
  utf8_valid_from st s = true ->
  exists cp s', scalar cp /\ b :: s = utf8_encode cp ++ s' /\ utf8_valid_from 0 s' = true.
Proof.
  unfold scalar. intros Hin Hb H.
  apply (utf8_cont_inv st lo hi 2) in H as (b2 & s2 & -> & H2 & H); [|done].
  apply (utf8_cont_inv 2 0x80 0xC0 0) in H as (b3 & s' & -> & H3 & H); [|in_table].
  exists ((b2z b - 0xE0) * 4096 + (b2z b2 - 0x80) * 64 + (b2z b3 - 0x80)), s'.
  simpl in Hin. destruct_or! Hin; simplify_eq; destruct_or! Hb; destruct_and! Hb; try done.
  all: rewrite utf8_encode_3 by lia; split; [lia|]; split; [same_bytes|done].
Qed.

Lemma decode_4 b lo hi st s :
  In (st, lo, hi, 3) conts ->
  (st = 6 /\ b2z b = 0xF0 \/ st = 7 /\ 0xF1 <= b2z b < 0xF4 \/ st = 8 /\ b2z b = 0xF4) ->
  utf8_valid_from st s = true ->
  exists cp s', scalar cp /\ b :: s = utf8_encode cp ++ s' /\ utf8_valid_from 0 s' = true.
Proof.
  unfold scalar. intros Hin Hb H.
  apply (utf8_cont_inv st lo hi 3) in H as (b2 & s2 & -> & H2 & H); [|done].
  apply (utf8_cont_inv 3 0x80 0xC0 2) in H as (b3 & s3 & -> & H3 & H); [|in_table].
  apply (utf8_cont_inv 2 0x80 0xC0 0) in H as (b4 & s' & -> & H4 & H); [|in_table].
  exists ((b2z b - 0xF0) * 262144 + (b2z b2 - 0x80) * 4096 + (b2z b3 - 0x80) * 64 + (b2z b4 - 0x80)), s'.
  simpl in Hin. destruct_or! Hin; simplify_eq; destruct_or! Hb; destruct_and! Hb; try done.
  all: rewrite utf8_encode_4 by lia; split; [lia|]; split; [same_bytes|done].
Qed.

Lemma utf8_valid_decode b s :
  utf8_valid (b :: s) = true ->
  exists cp s', scalar cp /\ b :: s = utf8_encode cp ++ s' /\ utf8_valid s' = true.
Proof.
  unfold utf8_valid, UTF8_ACCEPT. intros (lo & hi & st & Hin & Hb & H)%utf8_lead_inv.
  simpl in Hin. destruct_or! Hin; simplify_eq.
  - exists (b2z b), s. unfold utf8_encode, scalar. rewrite (proj2 (Z.ltb_lt (b2z b) 0x80)) by lia.
    rewrite z2b_b2z. split; [lia|done].
  - apply (utf8_cont_inv 2 0x80 0xC0 0) in H as (b2 & s' & -> & H2 & H); [|in_table].
    exists ((b2z b - 0xC0) * 64 + (b2z b2 - 0x80)), s'. unfold scalar. rewrite utf8_encode_2 by lia.
    split; [lia|]. split; [same_bytes|done].
  - apply (decode_3 b 0xA0 0xC0 4); [in_table|lia|done].
  - apply (decode_3 b 0x80 0xC0 3); [in_table|lia|done].
  - apply (decode_3 b 0x80 0xA0 5); [in_table|lia|done].
  - apply (decode_3 b 0x80 0xC0 3); [in_table|lia|done].
  - apply (decode_4 b 0x90 0xC0 6); [in_table|lia|done].
  - apply (decode_4 b 0x80 0xC0 7); [in_table|lia|done].
  - apply (decode_4 b 0x80 0x90 8); [in_table|lia|done].
Qed.

Lemma utf8_encode_length cp : (1 <= length (utf8_encode cp) <= 4)%nat.
Proof. unfold utf8_encode. repeat case_match; simpl; lia. Qed.

Lemma utf8_valid_text s : utf8_valid s = true -> utf8_text s.
Proof.
  remember (length s) as n eqn:Hn. revert s Hn.
  induction n as [n IH] using lt_wf_ind. intros s -> H.
  destruct s as [|b s]; [by exists []|].
  apply utf8_valid_decode in H as (cp & s' & Hcp & Heq & H).
  destruct (IH (length s')) with (s := s') as (cps & Hcps & ->); [|done..|].
  - rewrite Heq, length_app. pose proof (utf8_encode_length cp). lia.
  - exists (cp :: cps). split; [by constructor|]. by rewrite Heq.
Qed.

Lemma utf8_text_valid s : utf8_text s -> utf8_valid s = true.
Proof.
  intros (cps & Hcps & ->). induction Hcps as [|cp cps Hcp _ IH]; [done|].
  simpl. by rewrite utf8_encode_accepted.
Qed.

Lemma utf8_valid_app s1 s2 :
  utf8_valid s1 = true -> utf8_valid (s1 ++ s2) = utf8_valid s2.
Proof.
  intros (cps & Hcps & ->)%utf8_valid_text. induction Hcps as [|cp cps Hcp _ IH]; [done|].
  simpl. by rewrite <- app_assoc, utf8_encode_accepted.
Qed.

(** ** Claims *)

(** The validator accepts a byte sequence exactly when it is the
    concatenation of the encoder's output on Unicode scalar values: no
    overlong form, no surrogate, nothing beyond U+10FFFF, no truncated
    sequence is accepted, and everything else is. *)
Theorem utf8_valid_iff_text s : utf8_valid s = true <-> utf8_text s.
Proof. split; [apply utf8_valid_text | apply utf8_text_valid]. Qed.
