(* ===== verification/Heap.v ===== *)
(** * The context allocator (src/core/context.c, src/core/allocator.c)

    Every allocation of the SDK goes through the allocator bound to an
    [mcp_context_t].  The allocator is modelled as the unit tests use it: a
    counting allocator with failure injection.  [fails k] says whether the
    [k]-th request is refused, [calls] is the number of requests made so
    far, [live] the number of blocks handed out and not yet freed.  The
    flag [corrupt] records that an object was left with a dangling buffer
    (see [builtin_object_set]); from then on the block count means nothing,
    and the contracts below say nothing about it.

    Code that allocates is a function in the state monad [M]. *)
From S2P Require Import Prelude.

Local Open Scope Z_scope.

Record heap := Heap {
  fails : nat -> bool;
  calls : nat;
  live : Z;
  corrupt : bool;
}.

Definition M (A : Type) : Type := heap -> A * heap.

Definition ret {A} (a : A) : M A := fun h => (a, h).

Definition bind {A B} (m : M A) (f : A -> M B) : M B :=
  fun h => let (a, h') := m h in f a h'.

Declare Scope heap_scope.
Delimit Scope heap_scope with heap.
Notation "x <- m ;; k" := (bind m (fun x => k))
  (at level 100, m at next level, right associativity) : heap_scope.
Notation "m ;; k" := (bind m (fun _ => k))
  (at level 100, right associativity) : heap_scope.
#[global] Open Scope heap_scope.

(** [a->malloc_fn(n, a->userdata)] for [n > 0]: whether a block was returned. *)
Definition xmalloc : M bool := fun h =>
  if fails h (calls h)
  then (false, Heap (fails h) (S (calls h)) (live h) (corrupt h))
  else (true, Heap (fails h) (S (calls h)) (live h + 1) (corrupt h)).

(** [a->realloc_fn(p, n, a->userdata)]; [isnull] is [p == NULL].  On success
    the old block is consumed, on failure it is left alone. *)
Definition xrealloc (isnull : bool) : M bool := fun h =>
  if fails h (calls h)
  then (false, Heap (fails h) (S (calls h)) (live h) (corrupt h))
  else (true, Heap (fails h) (S (calls h)) (live h + (if isnull then 1 else 0)) (corrupt h)).

(** [xfree(ctx, p)]; [isnull] is [p == NULL], which frees nothing. *)
Definition xfree (isnull : bool) : M unit := fun h =>
  (tt, Heap (fails h) (calls h) (live h - (if isnull then 0 else 1)) (corrupt h)).

Definition mark_corrupt : M unit := fun h =>
  (tt, Heap (fails h) (calls h) (live h) true).

(** A heap that never refuses, before the first request. *)
Definition fresh_heap : heap := Heap (fun _ => false) 0 0 false.

(** ** Reasoning about the block count *)

(** No request of this allocator is ever refused. *)
Definition ample (h : heap) : Prop := forall k, fails h k = false.

Lemma fresh_ample : ample fresh_heap.
Proof. by intros k. Qed.

(** [hstep h h' d]: from [h] to [h'] the allocator policy is the same, and
    unless the heap became corrupt, exactly [d] more blocks are live. *)
Record hstep (h h' : heap) (d : Z) : Prop := HStep {
  hstep_fails : fails h' = fails h;
  hstep_live : corrupt h' = false -> corrupt h = false /\ live h' = live h + d;
  hstep_ample : ample h -> corrupt h' = corrupt h;
}.

Lemma hstep_refl h : hstep h h 0.
Proof. split; [done| |done]. intros ->. split; [done|lia]. Qed.

Lemma hstep_trans h1 h2 h3 d1 d2 d :
  hstep h1 h2 d1 -> hstep h2 h3 d2 -> d = d1 + d2 -> hstep h1 h3 d.
Proof.
  intros [F1 L1 A1] [F2 L2 A2] ->. split.
  - congruence.
  - intros [C ->]%L2. apply L1 in C as [-> ->]. split; [done|lia].
  - intros A. rewrite A2; [by apply A1|]. intros k. rewrite F1. apply A.
Qed.

Lemma hstep_eq h h' d d' : hstep h h' d -> d = d' -> hstep h h' d'.
Proof. by intros ? <-. Qed.

Lemma ample_hstep h h' d : hstep h h' d -> ample h -> ample h'.
Proof. intros [F _ _] A k. rewrite F. apply A. Qed.

Lemma xmalloc_hstep h b h' :
  xmalloc h = (b, h') -> hstep h h' (if b then 1 else 0).
Proof.
  unfold xmalloc. destruct (fails h (calls h)); intros; simplify_eq.
  all: split; simpl; [done| |done]; intros ->; split; [done|lia].
Qed.

Lemma xrealloc_hstep n h b h' :
  xrealloc n h = (b, h') -> hstep h h' (if b then if n then 1 else 0 else 0).
Proof.
  unfold xrealloc. destruct (fails h (calls h)); intros; simplify_eq.
  all: split; simpl; [done| |done]; intros ->; split; [done|lia].
Qed.

Lemma xfree_hstep n h u h' :
  xfree n h = (u, h') -> hstep h h' (if n then 0 else -1).
Proof.
  unfold xfree. intros; simplify_eq. split; simpl; [done| |done].
  intros ->. split; [done|]. destruct n; lia.
Qed.

Lemma xmalloc_ample h : ample h -> xmalloc h = (true, Heap (fails h) (S (calls h)) (live h + 1) (corrupt h)).
Proof. intros A. unfold xmalloc. by rewrite A. Qed.

Lemma xrealloc_ample n h : ample h ->
  xrealloc n h = (true, Heap (fails h) (S (calls h)) (live h + (if n then 1 else 0)) (corrupt h)).
Proof. intros A. unfold xrealloc. by rewrite A. Qed.

Lemma xmalloc_ample_inv h b h' : ample h -> xmalloc h = (b, h') -> b = true.
Proof. intros A. rewrite xmalloc_ample by done. congruence. Qed.

Lemma xrealloc_ample_inv n h b h' : ample h -> xrealloc n h = (b, h') -> b = true.
Proof. intros A. rewrite xrealloc_ample by done. congruence. Qed.

(** ** Automation

    [minv H] takes apart a run [m h = (r, h')] of a monadic program, one
    bind at a time, splitting on the conditions it meets. *)
Lemma bind_inv {A B} (m : M A) (f : A -> M B) h r h' :
  bind m f h = (r, h') -> exists a h1, m h = (a, h1) /\ f a h1 = (r, h').
Proof. unfold bind. destruct (m h) as [a h1] eqn:E. intros H. eauto. Qed.

Lemma ret_inv {A} (a : A) h r h' : ret a h = (r, h') -> r = a /\ h' = h.
Proof. unfold ret. intros; by simplify_eq. Qed.

Lemma bind_run {A B} (m : M A) (f : A -> M B) h a h1 :
  m h = (a, h1) -> bind m f h = f a h1.
Proof. unfold bind. by intros ->. Qed.

Ltac subst_lhs R := match type of R with ?x = _ => try (is_var x; subst x) end.

Ltac minv H :=
  lazymatch type of H with
  | bind _ _ _ = (_, _) =>
      let a := fresh "a" in let h := fresh "h" in let E := fresh "E" in
      apply bind_inv in H as (a & h & E & H); minv E; minv H
  | ret _ _ = (_, _) =>
      let R := fresh "R" in let Q := fresh "Q" in
      apply ret_inv in H as [R Q]; subst_lhs R; subst_lhs Q
  | (let _ := _ in _) = (_, _) => cbv zeta in H; minv H
  | (match ?x with _ => _ end) _ = (_, _) =>
      first [progress cbn iota in H | is_var x; destruct x | destruct x eqn:?]; cbn iota in H; minv H
  | _ => idtac
  end.

(** Chains the [hstep] facts of the context into the one of the goal. *)
Create HintDb heap.
#[export] Hint Resolve hstep_refl : heap.

Ltac hstep_facts :=
  repeat match goal with
  | H : xmalloc _ = (_, _) |- _ => apply xmalloc_hstep in H
  | H : xrealloc _ _ = (_, _) |- _ => apply xrealloc_hstep in H
  | H : xfree _ _ = (_, _) |- _ => apply xfree_hstep in H
  end.

Ltac hchain :=
  lazymatch goal with
  | |- hstep ?h ?h _ => eapply hstep_eq; [apply hstep_refl|]
  | H : hstep ?h ?h1 _ |- hstep ?h _ _ =>
      first [ eapply hstep_eq; [exact H|]
            | eapply hstep_trans; [exact H|clear H; hchain|] ]
  end.

(** Solves [hstep h h' d] from the chain of facts; the arithmetic of the
    deltas is left to [lia] after [simpl]. *)
Ltac hsolve := hstep_facts; hchain; simpl; try reflexivity; try lia.
