(* ===== verification/Steps.v ===== *)
(** * Code that keeps the heap sound

    [hstep] of Heap.v says nothing of the block count once the heap is
    corrupt.  Code that never frees twice and never writes past a block
    satisfies the stronger [cstep]: the flag is as it was, whatever the
    allocator refuses. *)
From S2P Require Import Prelude Heap.

Local Open Scope Z_scope.

Record cstep (h h' : heap) (d : Z) : Prop := CStep {
  cstep_hstep : hstep h h' d;
  cstep_corrupt : corrupt h' = corrupt h;
}.

Lemma cstep_refl h : cstep h h 0.
Proof. split; [apply hstep_refl|done]. Qed.

Lemma cstep_trans h1 h2 h3 d1 d2 d : cstep h1 h2 d1 -> cstep h2 h3 d2 -> d = d1 + d2 -> cstep h1 h3 d.
Proof. intros [S1 C1] [S2 C2] E. split; [by eapply hstep_trans|congruence]. Qed.

Lemma cstep_eq h h' d d' : cstep h h' d -> d = d' -> cstep h h' d'.
Proof. by intros ? <-. Qed.

Lemma ample_cstep h h' d : cstep h h' d -> ample h -> ample h'.
Proof. intros [S _] A. by eapply ample_hstep. Qed.

Lemma xmalloc_cstep h b h' : xmalloc h = (b, h') -> cstep h h' (if b then 1 else 0).
Proof. intros H. split; [by apply xmalloc_hstep|]. unfold xmalloc in H. by destruct (fails h _); simplify_eq. Qed.

Lemma xrealloc_cstep n h b h' : xrealloc n h = (b, h') -> cstep h h' (if b then if n then 1 else 0 else 0).
Proof. intros H. split; [by apply xrealloc_hstep|]. unfold xrealloc in H. by destruct (fails h _); simplify_eq. Qed.

Lemma xfree_cstep n h u h' : xfree n h = (u, h') -> cstep h h' (if n then 0 else -1).
Proof. intros H. split; [by eapply xfree_hstep|]. unfold xfree in H. by simplify_eq. Qed.

#[export] Hint Resolve cstep_refl : heap.

Ltac cstep_facts :=
  repeat match goal with
  | H : xmalloc _ = (_, _) |- _ => apply xmalloc_cstep in H
  | H : xrealloc _ _ = (_, _) |- _ => apply xrealloc_cstep in H
  | H : xfree _ _ = (_, _) |- _ => apply xfree_cstep in H
  end.

Ltac cchain :=
  lazymatch goal with
  | |- cstep ?h ?h _ => eapply cstep_eq; [apply cstep_refl|]
  | H : cstep ?h ?h1 _ |- cstep ?h _ _ =>
      first [ eapply cstep_eq; [exact H|]
            | eapply cstep_trans; [exact H|clear H; cchain|] ]
  end.

(** Solves [cstep h h' d] from the steps of the context. *)
Ltac csolve := cstep_facts; cchain; simpl; try reflexivity; try lia.

(** No change at all, or one the arithmetic cancels. *)
Ltac cstill := eapply cstep_eq; [apply cstep_refl|simpl; try reflexivity; try lia].
