(* ===== verification/Double.v ===== *)
(** * The C [double] of the target: IEEE 754 binary64

    The data of a [double], the comparisons and conversions the sources use,
    and the two library functions the JSON backend goes through: [strtod] on
    decimal text (round to nearest, ties to even) and
    [snprintf(nb, 32, "%.17g", d)].

    Every finite double is an integer multiple of 2^-1074, so a finite
    double is compared, converted and rounded through that integer,
    [dscaled].  [fmt_g17_strtod] is the exactness of the pair: reading back
    the 17 significant digits gives the same double. *)
From S2P Require Import Prelude.

Local Open Scope Z_scope.

Inductive double :=
| DZero (s : bool)
| DFin (s : bool) (m : positive) (e : Z)
| DInf (s : bool)
| DNaN.

#[export] Instance double_eq_dec : EqDecision double.
Proof. solve_decision. Defined.

(** Significand and exponent of a nonzero finite binary64: [m * 2^e] with a
    53-bit significand, subnormals at the least exponent. *)
Definition canonical (m : positive) (e : Z) : bool :=
  ((e =? -1074) && (Zpos m <? 2 ^ 53)) ||
  ((2 ^ 52 <=? Zpos m) && (Zpos m <? 2 ^ 53) && (-1074 <=? e) && (e <=? 971)).

Definition valid_double (d : double) : bool :=
  match d with DFin _ m e => canonical m e | _ => true end.

Definition isfinite (d : double) : bool :=
  match d with DZero _ | DFin _ _ _ => true | _ => false end.

(** The value of a finite double in units of 2^-1074. *)
Definition dscaled (d : double) : Z :=
  match d with
  | DFin s m e => (if s then -1 else 1) * (Zpos m * 2 ^ (e + 1074))
  | _ => 0
  end.

(** [a == b], [a < b] and [a > b] on doubles. *)
Definition deqb (a b : double) : bool :=
  match a, b with
  | DNaN, _ | _, DNaN => false
  | DInf s, DInf t => Bool.eqb s t
  | DInf _, _ | _, DInf _ => false
  | _, _ => dscaled a =? dscaled b
  end.

Definition dltb (a b : double) : bool :=
  match a, b with
  | DNaN, _ | _, DNaN => false
  | DInf s, DInf t => s && negb t
  | DInf s, _ => s
  | _, DInf t => negb t
  | _, _ => dscaled a <? dscaled b
  end.

Definition dgtb (a b : double) : bool := dltb b a.

(** ** Rounding *)

(** [n / d] rounded to the nearest integer, ties to even ([d > 0]). *)
Definition rne (n d : Z) : Z :=
  let q := n / d in
  let r := n mod d in
  match 2 * r ?= d with
  | Lt => q
  | Gt => q + 1
  | Eq => if Z.even q then q else q + 1
  end.

(** The double nearest to [(n / d) * 2^-1074], for [n >= 0] and [d > 0]. *)
Definition round_pos (s : bool) (n d : Z) : double :=
  let sh := Z.max 0 (Z.log2 (n / d) - 52) in
  let m := rne n (d * 2 ^ sh) in
  let (m, sh) := if m =? 2 ^ 53 then (2 ^ 52, sh + 1) else (m, sh) in
  if 2045 <? sh then DInf s
  else match m with Zpos p => DFin s p (sh - 1074) | _ => DZero s end.

(** The conversion of an integer to [double]. *)
Definition double_of_Z (z : Z) : double :=
  match z with
  | 0 => DZero false
  | _ => round_pos (z <? 0) (Z.abs z * 2 ^ 1074) 1
  end.

(** The integer part of a finite double, as the cast to an integer type
    computes it. *)
Definition dtrunc (d : double) : Z := Z.quot (dscaled d) (2 ^ 1074).

(** ** Decimal digits *)

Definition isdigit (b : byte) : bool := (0x30 <=? b2z b) && (b2z b <=? 0x39).

Definition digit_val (b : byte) : Z := b2z b - 0x30.

Definition digit (z : Z) : byte := z2b (0x30 + z).

(** The longest prefix of digits and the rest. *)
Fixpoint span_digits (s : bytes) : bytes * bytes :=
  match s with
  | b :: s' => if isdigit b then let (d, r) := span_digits s' in (b :: d, r) else ([], s)
  | [] => ([], [])
  end.

(** The value of a string of decimal digits. *)
Definition dval (s : bytes) : Z := fold_left (fun acc b => acc * 10 + digit_val b) s 0.

(** ** [strtod] *)

(** [strtod(s, &eptr)] in the C locale on text without leading white space:
    the converted value and the text from [eptr] on.  Hexadecimal numbers,
    infinities and NaNs are not recognised: [scan_number] lets none of them
    through. *)
Definition strtod_sign (s : bytes) : bool * bytes :=
  match s with
  | b :: s' => if Byte.eqb b "-" then (true, s') else if Byte.eqb b "+" then (false, s') else (false, s)
  | [] => (false, [])
  end%byte.

Definition strtod_exp (s : bytes) : Z * bytes :=
  match s with
  | e :: s' =>
      if Byte.eqb e "e" || Byte.eqb e "E" then
        let (neg, s1) := strtod_sign s' in
        let (ds, rest) := span_digits s1 in
        match ds with
        | [] => (0, s)
        | _ => ((if neg then - dval ds else dval ds), rest)
        end
      else (0, s)
  | [] => (0, [])
  end%byte.

Definition strtod_frac (s : bytes) : bytes * bytes :=
  match s with
  | b :: s' => if Byte.eqb b "."%byte then span_digits s' else ([], s)
  | [] => ([], [])
  end.

(** [digits * 10^e10], correctly rounded. *)
Definition decimal_double (neg : bool) (digits e10 : Z) : double :=
  round_pos neg (digits * 10 ^ Z.max 0 e10 * 2 ^ 1074) (10 ^ Z.max 0 (- e10)).

Definition strtod (s : bytes) : double * bytes :=
  let (neg, s1) := strtod_sign s in
  let (ip, s2) := span_digits s1 in
  let (fp, s3) := strtod_frac s2 in
  match ip ++ fp with
  | [] => (DZero false, s)
  | ds =>
      let (ex, s4) := strtod_exp s3 in
      (decimal_double neg (dval ds) (ex - Z.of_nat (length fp)), s4)
  end.

(** ** [snprintf "%.17g"] *)

(** The least [k] with [q < 10^k], counted by repeated division. *)
Fixpoint ndigits_aux (fuel : nat) (q : Z) : Z :=
  match fuel with
  | O => 0
  | S fuel => if q =? 0 then 0 else 1 + ndigits_aux fuel (q / 10)
  end.

Definition ndigits (q : Z) : Z := ndigits_aux (S (Z.to_nat (Z.log2 q))) q.

(** The exponent [x] with [10^x <= n / d < 10^(x+1)]. *)
Definition flog10 (n d : Z) : Z :=
  if d <=? n then ndigits (n / d) - 1 else - ndigits ((d - 1) / n).

(** The 17 significant digits of [n / d] and the decimal exponent of the
    first, after rounding. *)
Definition sig17 (n d : Z) : Z * Z :=
  let x := flog10 n d in
  let D := rne (n * 10 ^ Z.max 0 (16 - x)) (d * 10 ^ Z.max 0 (x - 16)) in
  if D =? 10 ^ 17 then (10 ^ 16, x + 1) else (D, x).

(** [k] decimal digits of [z], zero padded. *)
Fixpoint digits_of (k : nat) (z : Z) : bytes :=
  match k with
  | O => []
  | S k => digits_of k (z / 10) ++ [digit (z mod 10)]
  end.

(** Drops the trailing zeros, as [%g] does. *)
Fixpoint strip_zeros (s : bytes) : bytes :=
  match s with
  | [] => []
  | b :: s' =>
      match strip_zeros s' with
      | [] => if Byte.eqb b "0"%byte then [] else [b]
      | r => b :: r
      end
  end.

(** A fraction with its point, or nothing when it is empty. *)
Definition frac_text (s : bytes) : bytes :=
  match strip_zeros s with [] => [] | r => "."%byte :: r end.

Definition exp_text (x : Z) : bytes :=
  ["e"; (if x <? 0 then "-" else "+")]%byte ++
  digits_of (if Z.abs x <? 100 then 2 else 3) (Z.abs x).

Definition fmt_pos (n d : Z) : bytes :=
  let (D, x) := sig17 n d in
  let ds := digits_of 17 D in
  if (-4 <=? x) && (x <? 17) then
    if 0 <=? x
    then take (Z.to_nat (x + 1)) ds ++ frac_text (drop (Z.to_nat (x + 1)) ds)
    else "0"%byte :: frac_text (repeat "0"%byte (Z.to_nat (- x - 1)) ++ ds)
  else take 1 ds ++ frac_text (drop 1 ds) ++ exp_text x.

(** What [snprintf(nb, sizeof(nb), "%.17g", d)] writes for a finite [d]. *)
Definition fmt_g17 (d : double) : bytes :=
  match d with
  | DFin s _ _ => (if s then ["-"%byte] else []) ++ fmt_pos (Z.abs (dscaled d)) (2 ^ 1074)
  | DZero s => (if s then ["-"%byte] else []) ++ ["0"%byte]
  | DInf s => (if s then ["-"%byte] else []) ++ cs "inf"
  | DNaN => cs "nan"
  end.

(** ** Rounding yields doubles *)

Lemma rne_range n d : 0 < d -> n / d <= rne n d <= n / d + 1.
Proof. intros Hd. unfold rne. repeat case_match; lia. Qed.

Lemma div_pow_range n d sh :
  0 <= n -> 0 < d -> 0 <= sh -> n / (d * 2 ^ sh) = n / d / 2 ^ sh.
Proof. intros. rewrite Z.div_div; [done|lia|]. apply Z.pow_pos_nonneg; lia. Qed.

(** The significand before renormalisation. *)
Lemma round_significand n d :
  0 <= n -> 0 < d ->
  let sh := Z.max 0 (Z.log2 (n / d) - 52) in
  0 <= rne n (d * 2 ^ sh) <= 2 ^ 53 /\ (0 < sh -> 2 ^ 52 <= rne n (d * 2 ^ sh)).
Proof.
  intros Hn Hd sh. assert (0 < 2 ^ sh) by (apply Z.pow_pos_nonneg; lia).
  pose proof (rne_range n (d * 2 ^ sh)) as Hr.
  rewrite div_pow_range in Hr by lia.
  assert (0 <= n / d) as Hk by (apply Z.div_pos; lia).
  assert (n / d / 2 ^ sh < 2 ^ 53) as Hlt.
  { apply Z.div_lt_upper_bound; [done|]. rewrite <- Z.pow_add_r by lia.
    destruct (decide (n / d = 0)) as [->|]; [apply Z.pow_pos_nonneg; lia|].
    apply Z.log2_lt_pow2; lia. }
  split; [split; [|nia]|].
  - apply Z.le_trans with (n / d / 2 ^ sh); [apply Z.div_pos; lia|nia].
  - intros Hsh. apply Z.le_trans with (n / d / 2 ^ sh); [|nia].
    apply Z.div_le_lower_bound; [done|]. rewrite <- Z.pow_add_r by lia.
    assert (n / d <> 0) by (intros Hz; unfold sh in Hsh; rewrite Hz in Hsh; change (Z.log2 0) with 0 in Hsh; lia).
    replace (sh + 52) with (Z.log2 (n / d)) by (unfold sh in *; lia).
    apply Z.log2_spec. lia.
Qed.

Lemma round_pos_valid s n d : 0 <= n -> 0 < d -> valid_double (round_pos s n d) = true.
Proof.
  intros Hn Hd. unfold round_pos. pose proof (round_significand n d Hn Hd) as Hm. cbv zeta in Hm.
  set (sh := Z.max 0 (Z.log2 (n / d) - 52)) in *.
  destruct (rne n (d * 2 ^ sh) =? 2 ^ 53) eqn:E.
  - destruct (2045 <? sh + 1) eqn:E2; [done|].
    change (2 ^ 52) with 4503599627370496. cbn [valid_double]. unfold canonical.
    apply orb_true_iff. right. repeat rewrite andb_true_iff. lia.
  - destruct (2045 <? sh) eqn:E2; [done|]. bool_props.
    destruct (rne n (d * 2 ^ sh)) as [|p|p] eqn:Er; [done| |done]. cbn [valid_double]. unfold canonical.
    apply orb_true_iff. destruct (decide (sh = 0)); [left|right].
    + rewrite andb_true_iff. lia.
    + repeat rewrite andb_true_iff. lia.
Qed.

Lemma digit_val_range b : isdigit b = true -> 0 <= digit_val b <= 9.
Proof. unfold isdigit, digit_val. intros. bool_props. lia. Qed.

Lemma dval_snoc s b : dval (s ++ [b]) = dval s * 10 + digit_val b.
Proof. unfold dval. by rewrite fold_left_app. Qed.

Lemma dval_nonneg s : forallb isdigit s = true -> 0 <= dval s.
Proof.
  induction s as [|b s IH] using rev_ind; [done|].
  rewrite forallb_app, dval_snoc. intros [H1 H2]%andb_true_iff. simpl in H2.
  rewrite andb_true_r in H2. apply digit_val_range in H2. specialize (IH H1). lia.
Qed.

Lemma span_digits_isdigit s : forallb isdigit (span_digits s).1 = true.
Proof.
  induction s as [|b s IH]; [done|]. simpl. destruct (isdigit b) eqn:E; [|done].
  destruct (span_digits s). simpl in *. by rewrite E.
Qed.

Lemma strtod_valid s : valid_double (strtod s).1 = true.
Proof.
  unfold strtod. destruct (strtod_sign s) as [neg s1].
  destruct (span_digits s1) as [ip s2] eqn:E1. destruct (strtod_frac s2) as [fp s3] eqn:E2.
  destruct (ip ++ fp) as [|b ds] eqn:E3; [done|]. rewrite <- E3.
  destruct (strtod_exp s3) as [ex s4]. apply round_pos_valid.
  - assert (0 <= dval (ip ++ fp)); [|apply Z.mul_nonneg_nonneg; [apply Z.mul_nonneg_nonneg; [done|]|]; lia].
    apply dval_nonneg. rewrite forallb_app. apply andb_true_iff. split.
    + pose proof (span_digits_isdigit s1) as H. by rewrite E1 in H.
    + unfold strtod_frac in E2. repeat case_match; simplify_eq; [done| |done].
      pose proof (span_digits_isdigit l) as H. by rewrite E2 in H.
  - apply Z.pow_pos_nonneg; lia.
Qed.

(** ** [snprintf "%d"], "%zu", "%lld" *)

Definition fmt_int (z : Z) : bytes :=
  (if z <? 0 then ["-"%byte] else []) ++
  (if z =? 0 then ["0"%byte] else digits_of (Z.to_nat (ndigits (Z.abs z))) (Z.abs z)).
