(* ===== verification/JsonValue.v ===== *)
(** * The JSON DOM (src/json/builtin.c, "DOM core")

    The private node type [mcp_json_value], its constructors, accessors and
    the two operations that grow a container in place.  A pointer that may be
    [NULL] is an [option]; an operation that mutates a container returns the
    container as it is afterwards; allocation goes through the monad of
    Heap.v, so every out-of-memory path of the code is a path of the
    definitions. *)
From S2P Require Import Prelude Heap Utf8 Double.


Local Open Scope Z_scope.
Local Set Warnings "-register-all".

(** ** Status codes (include/mcpkit/core/error.h) *)
Inductive mcp_status_t :=
| MCP_OK | MCP_ERR_INVALID_ARGUMENT | MCP_ERR_NOMEM | MCP_ERR_IO | MCP_ERR_PROTOCOL
| MCP_ERR_TIMEOUT | MCP_ERR_CANCELLED | MCP_ERR_NOT_FOUND | MCP_ERR_ALREADY_EXISTS
| MCP_ERR_UNSUPPORTED | MCP_ERR_PERMISSION.

#[export] Instance mcp_status_eq_dec : EqDecision mcp_status_t.
Proof. solve_decision. Defined.

(** ** Node types (include/mcpkit/json/value.h) *)
Inductive mcp_json_type_t :=
| MCP_JSON_NULL | MCP_JSON_BOOL | MCP_JSON_NUMBER | MCP_JSON_STRING | MCP_JSON_ARRAY
| MCP_JSON_OBJECT.

#[export] Instance mcp_json_type_eq_dec : EqDecision mcp_json_type_t.
Proof. solve_decision. Defined.

(** A node with its payload.  A container carries the capacity of its
    backing arrays, which are [NULL] exactly when it is 0, and its elements
    [0..len-1] in order; the parallel arrays [keys] and [vals] of an object
    are one list of pairs. *)
Inductive value :=
| VNull
| VBool (boolean : bool)
| VNumber (number : double)
| VString (string : bytes)
| VArray (cap : nat) (items : list value)
| VObject (cap : nat) (members : list (bytes * value)).

Section value_ind.
Context (P : value -> Prop).
Context (Hnull : P VNull) (Hbool : forall b, P (VBool b)) (Hnum : forall d, P (VNumber d)).
Context (Hstr : forall s, P (VString s)).
Context (Harr : forall c l, Forall P l -> P (VArray c l)).
Context (Hobj : forall c l, Forall (fun kv => P kv.2) l -> P (VObject c l)).

Fixpoint value_ind' (v : value) : P v :=
  match v with
  | VNull => Hnull
  | VBool b => Hbool b
  | VNumber d => Hnum d
  | VString s => Hstr s
  | VArray c l =>
      Harr c l ((fix go l := match l return Forall P l with
                             | [] => Forall_nil_2 _
                             | x :: l' => Forall_cons_2 _ _ _ (value_ind' x) (go l')
                             end) l)
  | VObject c l =>
      Hobj c l ((fix go l := match l return Forall (fun kv => P kv.2) l with
                             | [] => Forall_nil_2 _
                             | x :: l' => Forall_cons_2 _ _ _ (value_ind' x.2) (go l')
                             end) l)
  end.
End value_ind.

(** ** Construction and destruction *)

(** [value_new]: one node, or NULL. *)
Definition value_new (v : value) : M (option value) :=
  ok <- xmalloc ;; ret (if ok then Some v else None).

Definition isnull0 (cap : nat) : bool := Nat.eqb cap 0.

(** [builtin_destroy] on a non-NULL node. *)
Fixpoint destroy (v : value) : M unit :=
  match v with
  | VString _ => xfree false ;; xfree false
  | VArray cap items =>
      (fix go (l : list value) : M unit :=
             match l with [] => ret tt | x :: l' => destroy x ;; go l' end) items ;;
      xfree (isnull0 cap) ;; xfree false
  | VObject cap members =>
      (fix go (l : list (bytes * value)) : M unit :=
             match l with
             | [] => ret tt
             | (_, x) :: l' => xfree false ;; destroy x ;; go l'
             end) members ;;
      xfree (isnull0 cap) ;; xfree (isnull0 cap) ;; xfree false
  | _ => xfree false
  end.

Definition builtin_destroy (v : option value) : M unit :=
  match v with None => ret tt | Some v => destroy v end.

Definition builtin_type_of (v : option value) : mcp_json_type_t :=
  match v with
  | None | Some VNull => MCP_JSON_NULL
  | Some (VBool _) => MCP_JSON_BOOL
  | Some (VNumber _) => MCP_JSON_NUMBER
  | Some (VString _) => MCP_JSON_STRING
  | Some (VArray _ _) => MCP_JSON_ARRAY
  | Some (VObject _ _) => MCP_JSON_OBJECT
  end.

(** The getters: the value written to [*out] on [MCP_OK], [None] on
    [MCP_ERR_INVALID_ARGUMENT] ([out] is never NULL in the sources). *)
Definition builtin_get_bool (v : option value) : option bool :=
  match v with Some (VBool b) => Some b | _ => None end.

Definition builtin_get_number (v : option value) : option double :=
  match v with Some (VNumber d) => Some d | _ => None end.

Definition builtin_get_string (v : option value) : option bytes :=
  match v with Some (VString s) => Some s | _ => None end.

Definition builtin_new_null : M (option value) := value_new VNull.

Definition builtin_new_bool (b : bool) : M (option value) := value_new (VBool b).

Definition builtin_new_number (d : double) : M (option value) :=
  if negb (isfinite d) then ret None else value_new (VNumber d).

(** [builtin_new_string_n(ctx, s, n)]: [s] is the [n] bytes of the buffer. *)
Definition builtin_new_string_n (s : option bytes) : M (option value) :=
  match s with
  | None => ret None
  | Some s =>
      if has_nul s || negb (utf8_valid s) then ret None else
      node <- xmalloc ;;
      if negb node then ret None else
      sbuf <- xmalloc ;;
      if negb sbuf then xfree false ;; ret None else
      ret (Some (VString s))
  end.

Definition builtin_new_array : M (option value) := value_new (VArray 0 []).

Definition builtin_new_object : M (option value) := value_new (VObject 0 []).

(** ** Objects *)

(** Index of the first member with this key ([strcmp] on the stored key). *)
Fixpoint find_key (key : bytes) (l : list (bytes * value)) : option nat :=
  match l with
  | [] => None
  | (k, _) :: l' => if streq k key then Some O else S <$> find_key key l'
  end.

Definition grow_cap (cap : nat) : nat := if Nat.eqb cap 0 then 4%nat else (cap * 2)%nat.

(** The growth of [keys] and [vals].  When the second [realloc] fails the
    code frees [nkeys] and stores [old_keys] back; if [keys] was not NULL,
    [old_keys] is the block the first [realloc] consumed, and the object is
    left pointing to freed memory. *)
Definition object_grow (cap : nat) (len : nat) : M (mcp_status_t * nat) :=
  if Nat.eqb len cap then
    nkeys <- xrealloc (isnull0 cap) ;;
    if negb nkeys then ret (MCP_ERR_NOMEM, cap) else
    nvals <- xrealloc (isnull0 cap) ;;
    if negb nvals then
      xfree false ;;
      (if isnull0 cap then ret tt else mark_corrupt) ;;
      ret (MCP_ERR_NOMEM, cap)
    else ret (MCP_OK, grow_cap cap)
  else ret (MCP_OK, cap).

(** [builtin_object_set]: the status and the object afterwards.  The key is
    a NUL-terminated string. *)
Definition builtin_object_set (obj : option value) (key : option bytes) (val : option value)
    : M (mcp_status_t * option value) :=
  match obj, key, val with
  | Some (VObject cap members), Some key, Some val =>
      let key := cstr key in
      if negb (utf8_valid key) then ret (MCP_ERR_INVALID_ARGUMENT, obj) else
      match find_key key members with
      | Some i =>
          builtin_destroy (snd <$> (members !! i)) ;;
          ret (MCP_OK, Some (VObject cap (alter (fun kv => (kv.1, val)) i members)))
      | None =>
          g <- object_grow cap (length members) ;;
          match g with
          | (MCP_OK, cap') =>
              kcopy <- xmalloc ;;
              if negb kcopy then ret (MCP_ERR_NOMEM, Some (VObject cap' members)) else
              ret (MCP_OK, Some (VObject cap' (members ++ [(key, val)])))
          | (st, _) => ret (st, obj)
          end
      end
  | _, _, _ => ret (MCP_ERR_INVALID_ARGUMENT, obj)
  end.

(** [builtin_object_get]: the borrowed member, or NULL. *)
Definition builtin_object_get (obj : option value) (key : option bytes) : option value :=
  match obj, key with
  | Some (VObject _ members), Some key =>
      if negb (utf8_valid (cstr key)) then None else
      match find_key key members with Some i => snd <$> (members !! i) | None => None end
  | _, _ => None
  end.

Definition builtin_object_has (obj : option value) (key : option bytes) : bool :=
  bool_decide (is_Some (builtin_object_get obj key)).

Definition builtin_object_size (obj : option value) : nat :=
  match obj with Some (VObject _ members) => length members | _ => O end.

Definition builtin_object_key_at (obj : option value) (i : nat) : option bytes :=
  match obj with Some (VObject _ members) => fst <$> (members !! i) | _ => None end.

(** ** Arrays *)

Definition builtin_array_append (arr : option value) (val : option value)
    : M (mcp_status_t * option value) :=
  match arr, val with
  | Some (VArray cap items), Some val =>
      if Nat.eqb (length items) cap then
        nitems <- xrealloc (isnull0 cap) ;;
        if negb nitems then ret (MCP_ERR_NOMEM, arr) else
        ret (MCP_OK, Some (VArray (grow_cap cap) (items ++ [val])))
      else ret (MCP_OK, Some (VArray cap (items ++ [val])))
  | _, _ => ret (MCP_ERR_INVALID_ARGUMENT, arr)
  end.

Definition builtin_array_get (arr : option value) (i : nat) : option value :=
  match arr with Some (VArray _ items) => items !! i | _ => None end.

Definition builtin_array_size (arr : option value) : nat :=
  match arr with Some (VArray _ items) => length items | _ => O end.

(** ** The abstract value

    What a node means: the tree without the capacities.  Operations are
    specified on it. *)
Inductive json :=
| JNull
| JBool (b : bool)
| JNumber (d : double)
| JString (s : bytes)
| JArray (l : list json)
| JObject (l : list (bytes * json)).

Fixpoint erase (v : value) : json :=
  match v with
  | VNull => JNull
  | VBool b => JBool b
  | VNumber d => JNumber d
  | VString s => JString s
  | VArray _ l => JArray (map erase l)
  | VObject _ l => JObject (map (fun kv => (kv.1, erase kv.2)) l)
  end.

(** Lookup and insertion on the members of an abstract object: the first
    member with the key is replaced in place, a new one goes last. *)
Fixpoint jlookup (key : bytes) (l : list (bytes * json)) : option json :=
  match l with
  | [] => None
  | (k, v) :: l' => if bool_decide (k = key) then Some v else jlookup key l'
  end.

Fixpoint jinsert (key : bytes) (v : json) (l : list (bytes * json)) : list (bytes * json) :=
  match l with
  | [] => [(key, v)]
  | (k, w) :: l' => if bool_decide (k = key) then (k, v) :: l' else (k, w) :: jinsert key v l'
  end.

(** ** The number of heap blocks of a node *)
Definition buffer (cap : nat) : Z := if isnull0 cap then 0 else 1.

Fixpoint blocks (v : value) : Z :=
  match v with
  | VString _ => 2
  | VArray cap l => 1 + buffer cap + foldr (fun x n => blocks x + n) 0 l
  | VObject cap l => 1 + 2 * buffer cap + foldr (fun kv n => 1 + blocks kv.2 + n) 0 l
  | _ => 1
  end.

Definition oblocks (v : option value) : Z := match v with None => 0 | Some v => blocks v end.

(** ** Well-formedness

    The invariant of every node the backend builds: numbers are finite
    doubles, strings and keys are NUL-free valid UTF-8, the keys of an
    object are distinct, and a container never holds more than its
    capacity. *)
Definition good_string (s : bytes) : Prop := has_nul s = false /\ utf8_valid s = true.

Fixpoint wf (v : value) : Prop :=
  match v with
  | VNull | VBool _ => True
  | VNumber d => isfinite d = true /\ valid_double d = true
  | VString s => good_string s
  | VArray cap l => (length l <= cap)%nat /\ foldr (fun x P => wf x /\ P) True l
  | VObject cap l =>
      (length l <= cap)%nat /\ NoDup (map fst l) /\
      foldr (fun kv P => good_string kv.1 /\ wf kv.2 /\ P) True l
  end.

Definition owf (v : option value) : Prop := match v with None => True | Some v => wf v end.

Lemma wf_array cap l :
  wf (VArray cap l) <-> (length l <= cap)%nat /\ Forall wf l.
Proof.
  cbn [wf]. split; intros [H1 H2]; split; try done.
  - induction l as [|x l IH]; [constructor|]. destruct H2. constructor; [done|]. apply IH; [simpl in *; lia|done].
  - clear H1. induction H2; simpl; auto.
Qed.

Definition wf_member (kv : bytes * value) : Prop := good_string kv.1 /\ wf kv.2.

Lemma wf_object cap l :
  wf (VObject cap l) <-> (length l <= cap)%nat /\ NoDup (map fst l) /\ Forall wf_member l.
Proof.
  cbn [wf]. split; intros (H1 & H2 & H3); (split; [done|split; [done|]]).
  - clear H1 H2. induction l as [|x l IH]; [constructor|]. destruct H3 as (?&?&?).
    constructor; [done|auto].
  - clear H1 H2. induction H3 as [|x l [? ?] ? IH]; simpl; auto.
Qed.

(** ** Destruction frees exactly the blocks of the node *)
Lemma destroy_hstep v : forall h u h', destroy v h = (u, h') -> hstep h h' (- blocks v).
Proof.
  induction v as [| | | |c l IH|c l IH] using value_ind'; intros h u h' H; cbn [destroy] in H.
  1-3: hstep_facts; done.
  - minv H. cbn [blocks]. hsolve.
  - minv H. cbn [blocks].
    assert (hstep h h0 (- foldr (fun x n => blocks x + n) 0 l)) as Hl.
    { clear H h' E0 h1. revert h h0 a E. induction IH as [|x l Hx _ IHl]; intros h h0 a E.
      - minv E. simpl. hsolve.
      - minv E. apply Hx in E0. apply IHl in E. simpl. hsolve. }
    clear E. unfold buffer. hstep_facts. destruct (isnull0 c); hsolve.
  - minv H. cbn [blocks].
    assert (hstep h h0 (- foldr (fun kv n => 1 + blocks kv.2 + n) 0 l)) as Hl.
    { clear - E IH. revert h h0 a E. induction IH as [|[k x] l Hx _ IHl]; intros h h0 a E.
      - minv E. simpl. hsolve.
      - minv E. apply Hx in E1. apply IHl in E. simpl in *. hsolve. }
    clear E. unfold buffer. hstep_facts. destruct (isnull0 c); hsolve.
Qed.

Lemma builtin_destroy_hstep v h u h' :
  builtin_destroy v h = (u, h') -> hstep h h' (- oblocks v).
Proof.
  destruct v; simpl; intros H; [by apply destroy_hstep in H|]. minv H. hsolve.
Qed.

Ltac destroy_facts :=
  repeat match goal with
  | H : builtin_destroy _ _ = (_, _) |- _ => apply builtin_destroy_hstep in H
  | H : destroy _ _ = (_, _) |- _ => apply destroy_hstep in H
  end.

(** ** Constructors *)

Lemma value_new_spec v h r h' :
  blocks v = 1 -> value_new v h = (r, h') ->
  hstep h h' (oblocks r) /\ (r = None \/ r = Some v) /\ (ample h -> r = Some v).
Proof.
  unfold value_new. intros Hb H. minv H. pose proof E as E'. split.
  - hstep_facts. destruct a; simpl; rewrite ?Hb; hsolve.
  - split; [destruct a; auto|]. intros A. by rewrite (xmalloc_ample_inv _ _ _ A E').
Qed.

Lemma new_number_spec d h r h' :
  builtin_new_number d h = (r, h') ->
  hstep h h' (oblocks r) /\ (r = None \/ r = Some (VNumber d) /\ isfinite d = true) /\
  (ample h -> isfinite d = true -> r = Some (VNumber d)).
Proof.
  unfold builtin_new_number. destruct (isfinite d) eqn:F; simpl; intros H.
  - apply value_new_spec in H as (? & Hr & ?); [|done]. destruct Hr; auto.
  - minv H. split; [hsolve|]. split; [auto|done].
Qed.

Lemma new_string_spec s h r h' :
  builtin_new_string_n (Some s) h = (r, h') ->
  hstep h h' (oblocks r) /\ (r = None \/ r = Some (VString s) /\ good_string s) /\
  (ample h -> good_string s -> r = Some (VString s)).
Proof.
  unfold builtin_new_string_n, good_string. intros H. minv H; bool_props; subst.
  - split; [hsolve|]. split; [auto|]. intros _ [Hn Hu]. by rewrite Hn, Hu in *.
  - pose proof E as E'. split; [simpl; hsolve|]. split; [auto|].
    intros A. apply (xmalloc_ample_inv _ _ _ A) in E'. done.
  - pose proof E as E'. pose proof E0 as E0'. split; [simpl; hsolve|]. split; [auto|].
    intros A. apply (ample_hstep _ _ _ (xmalloc_hstep _ _ _ E')) in A.
    apply (xmalloc_ample_inv _ _ _ A) in E0'. done.
  - split; [simpl; hsolve|]. split; auto.
Qed.

(** ** Objects *)

Lemma object_grow_spec cap len h st cap' h' :
  object_grow cap len h = ((st, cap'), h') ->
  hstep h h' (2 * buffer cap' - 2 * buffer cap) /\
  (st = MCP_OK \/ st = MCP_ERR_NOMEM /\ cap' = cap) /\
  ((len <= cap)%nat -> st = MCP_OK -> (len < cap')%nat) /\
  (ample h -> st = MCP_OK).
Proof.
  unfold object_grow, grow_cap, buffer, isnull0. intros H.
  destruct (Nat.eqb len cap) eqn:El; [apply Nat.eqb_eq in El; subst len|apply Nat.eqb_neq in El].
  2: { minv H. simplify_eq. split; [hsolve|]. split; [auto|]. split; [lia|auto]. }
  apply bind_inv in H as (ok1 & h1 & E1 & H). pose proof E1 as E1'.
  destruct ok1; simpl in H.
  2: { minv H. simplify_eq. split; [hsolve|]. split; [auto|]. split; [done|].
       intros A. by apply (xrealloc_ample_inv _ _ _ _ A) in E1'. }
  apply bind_inv in H as (ok2 & h2 & E2 & H). pose proof E2 as E2'.
  assert (ample h -> ok2 = true) as A2.
  { intros A. eapply xrealloc_ample_inv; [|done].
    eapply ample_hstep; [|done]. by eapply xrealloc_hstep. }
  destruct ok2; simpl in H.
  - minv H. simplify_eq. destruct (Nat.eqb cap 0) eqn:Ec; bool_props; simpl.
    + split; [hsolve|]. repeat split; auto. lia.
    + rewrite (proj2 (Nat.eqb_neq (cap * 2) 0)) by lia.
      split; [hsolve|]. repeat split; auto. lia.
  - clear E2'. split.
    + destruct (Nat.eqb cap 0) eqn:Ec; cbn iota in H; minv H; simplify_eq; rewrite Ec; [hsolve|].
      unfold mark_corrupt in E0. simplify_eq. split; simpl; [|done|].
      * hstep_facts. rewrite (hstep_fails _ _ _ E), (hstep_fails _ _ _ E2). by apply hstep_fails in E1.
      * intros A. by specialize (A2 A).
    + minv H; simplify_eq; (split; [auto|]; split; [done|]; intros A; by specialize (A2 A)).
Qed.

Definition emember (kv : bytes * value) : bytes * json := (kv.1, erase kv.2).

Lemma erase_object c l : erase (VObject c l) = JObject (map emember l).
Proof. done. Qed.

Lemma find_key_spec key l :
  has_nul key = false -> Forall wf_member l ->
  match find_key key l with
  | Some i =>
      (exists x, l !! i = Some (key, x)) /\
      jlookup key (map emember l) = ((erase ∘ snd) <$> (l !! i)) /\
      forall v, map emember (alter (fun kv => (kv.1, v)) i l) = jinsert key (erase v) (map emember l)
  | None =>
      (key ∉ map fst l) /\ jlookup key (map emember l) = None /\
      forall v, map emember (l ++ [(key, v)]) = jinsert key (erase v) (map emember l)
  end.
Proof.
  intros Hk Hl. induction Hl as [|[k x] l [[Hkn _] _] _ IH]; [simpl; split; [set_solver|done]|].
  simpl in *. rewrite streq_no_nul by done.
  destruct (bool_decide_reflect (k = key)) as [->|Hne].
  - simpl. split; [by eexists|]. split; done.
  - destruct (find_key key l) as [i|]; simpl.
    + destruct IH as (IH1 & IH2 & IH3). split; [done|]. split; [done|].
      intros v. f_equal. apply IH3.
    + destruct IH as (IH1 & IH2 & IH3). split; [set_solver|]. split; [done|].
      intros v. f_equal. apply IH3.
Qed.

Definition mblocks (l : list (bytes * value)) : Z := foldr (fun kv n => 1 + blocks kv.2 + n) 0 l.

Lemma mblocks_app l1 l2 : mblocks (l1 ++ l2) = mblocks l1 + mblocks l2.
Proof. unfold mblocks. induction l1 as [|x l1 IH]; simpl; [done|]. rewrite IH. lia. Qed.

Lemma mblocks_alter i l kv v :
  l !! i = Some kv ->
  mblocks (alter (fun kv => (kv.1, v)) i l) = mblocks l - blocks kv.2 + blocks v.
Proof.
  revert l. induction i as [|i IH]; intros [|y l] H; simplify_eq/=; [lia|].
  unfold mblocks in *. simpl. rewrite IH by done. lia.
Qed.

Lemma wf_alter c l i key x v :
  wf (VObject c l) -> l !! i = Some (key, x) -> wf v ->
  wf (VObject c (alter (fun kv => (kv.1, v)) i l)).
Proof.
  rewrite !wf_object. intros (H1 & H2 & H3) Hi Hv.
  assert (map fst (alter (fun kv => (kv.1, v)) i l) = map fst l) as Hf.
  { clear - Hi. revert l Hi. induction i as [|i IH]; intros [|y l] H; simplify_eq/=; [done|].
    f_equal. by apply IH. }
  rewrite length_alter, Hf. split; [done|]. split; [done|].
  apply Forall_alter; [done|]. intros y Hy [? ?]. split; done.
Qed.

Lemma wf_snoc c l key v :
  wf (VObject c l) -> (length l < c)%nat -> key ∉ map fst l -> good_string key -> wf v ->
  wf (VObject c (l ++ [(key, v)])).
Proof.
  rewrite !wf_object. intros (H1 & H2 & H3) Hlt Hk Hg Hv.
  rewrite length_app, map_app. simpl. split; [lia|]. split.
  - apply NoDup_app. split; [done|]. split; [|apply NoDup_singleton]. set_solver.
  - apply Forall_app. split; [done|]. by apply Forall_singleton.
Qed.

Lemma wf_cap c c' l : wf (VObject c l) -> (length l <= c')%nat -> wf (VObject c' l).
Proof. rewrite !wf_object. naive_solver. Qed.

(** [builtin_object_set] on an object: what happens to the blocks, the
    meaning and the invariant. *)
Lemma object_set_spec c l key val h st o h' :
  builtin_object_set (Some (VObject c l)) (Some key) (Some val) h = ((st, o), h') ->
  wf (VObject c l) -> wf val ->
  exists c' l', o = Some (VObject c' l') /\ wf (VObject c' l') /\
  hstep h h' (blocks (VObject c' l') - blocks (VObject c l)
              - (if decide (st = MCP_OK) then blocks val else 0)) /\
  map emember l' = (if decide (st = MCP_OK) then jinsert (cstr key) (erase val) (map emember l)
                    else map emember l) /\
  (ample h -> utf8_valid (cstr key) = true -> st = MCP_OK).
Proof.
  intros H Hwf Hval. unfold builtin_object_set in H. cbv zeta in H.
  destruct (utf8_valid (cstr key)) eqn:Hu; cbn [negb] in H.
  2: { minv H. simplify_eq. exists c, l. destruct (decide _); [done|].
       split; [done|]. split; [done|]. split; [hsolve|]. done. }
  pose proof (find_key_spec (cstr key) l (has_nul_cstr key)) as Hf.
  assert (Forall wf_member l) as Hml by (by apply wf_object in Hwf as (?&?&?)).
  specialize (Hf Hml). destruct (find_key (cstr key) l) as [i|].
  - destruct Hf as ((x & Hi) & _ & Hins). minv H. simplify_eq.
    exists c, (alter (fun kv => (kv.1, val)) i l). split; [done|].
    split; [by eapply wf_alter|]. destruct (decide _); [|done].
    split; [|done]. rewrite Hi in E. simpl in E. destroy_facts.
    cbn [blocks]. fold (mblocks (alter (fun kv => (kv.1, val)) i l)). fold (mblocks l).
    rewrite (mblocks_alter _ _ _ _ Hi). simpl. hsolve.
  - destruct Hf as (Hk & _ & Hins).
    apply bind_inv in H as ([st1 c1] & h1 & Hg & H).
    apply object_grow_spec in Hg as (Hg1 & Hst & Hlen & Ha).
    assert (length l <= c)%nat as Hle by (by apply wf_object in Hwf as (?&?&?)).
    destruct Hst as [->|[-> ->]].
    2: { minv H. simplify_eq. exists c, l. destruct (decide _); [done|].
         split; [done|]. split; [done|]. split; [hsolve|]. auto. }
    specialize (Hlen Hle eq_refl).
    assert (wf (VObject c1 l)) as Hwf1 by (eapply wf_cap; [done|lia]).
    apply bind_inv in H as (ok & h2 & E & H). destruct ok; cbn iota in H; simpl in H; minv H; simplify_eq.
    + exists c1, (l ++ [(cstr key, val)]). destruct (decide _); [|done].
      split; [done|]. split; [apply wf_snoc; [done..|split; [apply has_nul_cstr|done]|done]|].
      split; [|done]. hstep_facts. cbn [blocks].
      fold (mblocks (l ++ [(cstr key, val)])). fold (mblocks l).
      rewrite mblocks_app. simpl. hsolve.
    + exists c1, l. destruct (decide _); [done|]. split; [done|]. split; [done|].
      pose proof E as E'. split; [|split; [done|]].
      * hstep_facts. cbn [blocks]. hsolve.
      * intros A _. eapply ample_hstep in A; [|done]. by apply (xmalloc_ample_inv _ _ _ A) in E'.
Qed.

Lemma object_get_spec c l key :
  wf (VObject c l) -> utf8_valid (cstr key) = true ->
  erase <$> builtin_object_get (Some (VObject c l)) (Some key) =
    jlookup (cstr key) (map emember l).
Proof.
  intros (_ & _ & Hl)%wf_object Hu. cbn [builtin_object_get]. rewrite Hu. simpl.
  assert (find_key key l = find_key (cstr key) l) as ->.
  { clear. induction l as [|[k x] l IH]; [done|]. simpl. unfold streq. rewrite cstr_idem, IH. done. }
  pose proof (find_key_spec (cstr key) l (has_nul_cstr key) Hl) as Hf.
  destruct (find_key (cstr key) l) as [i|].
  - destruct Hf as (_ & -> & _). by destruct (l !! i).
  - by destruct Hf as (_ & -> & _).
Qed.

(** ** Arrays *)

Definition ablocks (l : list value) : Z := foldr (fun x n => blocks x + n) 0 l.

Lemma ablocks_app l1 l2 : ablocks (l1 ++ l2) = ablocks l1 + ablocks l2.
Proof. unfold ablocks. induction l1 as [|x l1 IH]; simpl; [done|]. rewrite IH. lia. Qed.

Lemma array_append_spec c l val h st o h' :
  builtin_array_append (Some (VArray c l)) (Some val) h = ((st, o), h') ->
  wf (VArray c l) -> wf val ->
  exists c' l', o = Some (VArray c' l') /\ wf (VArray c' l') /\
  hstep h h' (blocks (VArray c' l') - blocks (VArray c l)
              - (if decide (st = MCP_OK) then blocks val else 0)) /\
  l' = (if decide (st = MCP_OK) then l ++ [val] else l) /\
  (ample h -> st = MCP_OK).
Proof.
  intros H Hwf Hval. cbn [builtin_array_append] in H.
  pose proof Hwf as [Hle Hl]%wf_array.
  assert (forall c', (length l < c')%nat -> wf (VArray c' (l ++ [val]))) as Hwf'.
  { intros c' Hc. apply wf_array. rewrite length_app. simpl. split; [lia|].
    apply Forall_app. split; [done|by apply Forall_singleton]. }
  destruct (Nat.eqb (length l) c) eqn:Ec; bool_props.
  - apply bind_inv in H as (ok & h1 & E & H). pose proof E as E'.
    destruct ok; simpl in H; minv H; simplify_eq.
    + exists (grow_cap (length l)), (l ++ [val]). destruct (decide _); [|done].
      split; [done|]. split; [apply Hwf'; unfold grow_cap; case_match; bool_props; lia|].
      split; [|auto]. cbn [blocks]. fold (ablocks (l ++ [val])). fold (ablocks l).
      rewrite ablocks_app. hstep_facts. unfold buffer, isnull0, grow_cap in *.
      destruct (length l); simpl in *; hsolve.
    + exists (length l), l. destruct (decide _); [done|]. split; [done|]. split; [done|].
      split; [hsolve|]. split; [done|]. intros A. by apply (xrealloc_ample_inv _ _ _ _ A) in E'.
  - minv H. simplify_eq. exists c, (l ++ [val]). destruct (decide _); [|done].
    split; [done|]. split; [apply Hwf'; lia|]. split; [|auto].
    cbn [blocks]. fold (ablocks (l ++ [val])). fold (ablocks l). rewrite ablocks_app. simpl. hsolve.
Qed.

(** ** Claims *)

Lemma jlookup_jinsert key key' v l :
  jlookup key' (jinsert key v l) = if bool_decide (key = key') then Some v else jlookup key' l.
Proof.
  induction l as [|[k w] l IH]; simpl; [done|].
  destruct (bool_decide_reflect (k = key)) as [->|Hne]; simpl.
  - by destruct (bool_decide_reflect (key = key')).
  - destruct (bool_decide_reflect (k = key')) as [->|]; [|done].
    by rewrite bool_decide_false by congruence.
Qed.

(** [mcp_json_object_set] on an object, for every allocator: the object
    stays well formed; on success it takes over the blocks of the value and
    means the old object with the key bound to the value (replaced in place
    or added last); on failure it means what it meant and the caller still
    owns the value; with memory and a valid key it succeeds. *)
Theorem object_set_contract c l key val h st o h' :
  builtin_object_set (Some (VObject c l)) (Some key) (Some val) h = ((st, o), h') ->
  wf (VObject c l) -> wf val ->
  exists c' l', o = Some (VObject c' l') /\ wf (VObject c' l') /\
  hstep h h' (blocks (VObject c' l') - blocks (VObject c l)
              - (if decide (st = MCP_OK) then blocks val else 0)) /\
  map emember l' = (if decide (st = MCP_OK) then jinsert (cstr key) (erase val) (map emember l)
                    else map emember l) /\
  (ample h -> utf8_valid (cstr key) = true -> st = MCP_OK).
Proof. apply object_set_spec. Qed.

(** A lookup after a successful [mcp_json_object_set] finds the value
    just stored under its key, and under any other key what was there
    before. *)
Theorem object_set_get c l key val h o h' key' :
  wf (VObject c l) -> wf val -> utf8_valid (cstr key') = true ->
  builtin_object_set (Some (VObject c l)) (Some key) (Some val) h = ((MCP_OK, o), h') ->
  erase <$> builtin_object_get o (Some key') =
  if bool_decide (cstr key = cstr key') then Some (erase val)
  else erase <$> builtin_object_get (Some (VObject c l)) (Some key').
Proof.
  intros Hwf Hv Hu H. apply object_set_spec in H as (c' & l' & -> & Hwf' & _ & Hl & _); [|done..].
  simpl in Hl. rewrite !object_get_spec by done. by rewrite Hl, jlookup_jinsert.
Qed.

(** [mcp_json_array_append]: on success the value is appended at the end
    and its blocks belong to the array, on failure nothing changed hands. *)
Theorem array_append_contract c l val h st o h' :
  builtin_array_append (Some (VArray c l)) (Some val) h = ((st, o), h') ->
  wf (VArray c l) -> wf val ->
  exists c' l', o = Some (VArray c' l') /\ wf (VArray c' l') /\
  hstep h h' (blocks (VArray c' l') - blocks (VArray c l)
              - (if decide (st = MCP_OK) then blocks val else 0)) /\
  l' = (if decide (st = MCP_OK) then l ++ [val] else l) /\
  (ample h -> st = MCP_OK).
Proof. apply array_append_spec. Qed.

(** [mcp_json_destroy] frees exactly the blocks of the tree. *)
Theorem destroy_frees v h u h' :
  builtin_destroy v h = (u, h') -> hstep h h' (- oblocks v).
Proof. apply builtin_destroy_hstep. Qed.

(** An object of four members with its buffers full. *)
Definition full_members : list (bytes * value) :=
  [(cs "a", VNull); (cs "b", VNull); (cs "c", VNull); (cs "d", VNull)].

Lemma full_members_wf : wf (VObject 4 full_members).
Proof.
  apply wf_object. split; [simpl; lia|]. split; [|by repeat constructor].
  apply (bool_decide_unpack _). by vm_compute.
Qed.

(** The failure path the contract leaves out.  When an object whose
    buffers are full grows and the second of the two reallocations is
    refused, the code frees the new key buffer and stores back the old
    pointer, which the first reallocation has already given up: the call
    reports MCP_ERR_NOMEM and the object is left with a dangling buffer. *)
Theorem object_set_dangling :
  exists h st o h',
    corrupt h = false /\ wf (VObject 4 full_members) /\
    builtin_object_set (Some (VObject 4 full_members)) (Some (cs "e")) (Some VNull) h = ((st, o), h') /\
    st = MCP_ERR_NOMEM /\ corrupt h' = true.
Proof.
  exists (Heap (fun k => Nat.eqb k 1) 0 14 false). eexists _, _, _.
  split; [done|]. split; [apply full_members_wf|]. split; [vm_compute; reflexivity|done].
Qed.

Lemma object_set_contract_witness :
  exists c' l', Some (VObject 8 (full_members ++ [(cs "e", VNull)])) = Some (VObject c' l') /\
  wf (VObject c' l') /\
  hstep fresh_heap (Heap (fun _ => false) 3 1 false)
    (blocks (VObject c' l') - blocks (VObject 4 full_members)
     - (if decide (MCP_OK = MCP_OK) then blocks VNull else 0)) /\
  map emember l' = (if decide (MCP_OK = MCP_OK) then jinsert (cs "e") JNull (map emember full_members)
                    else map emember full_members) /\
  (ample fresh_heap -> utf8_valid (cs "e") = true -> MCP_OK = MCP_OK).
Proof.
  apply (object_set_contract 4 full_members (cs "e") VNull fresh_heap);
    [by vm_compute|apply full_members_wf|done].
Defined.

Lemma object_set_get_witness :
  erase <$> builtin_object_get (Some (VObject 8 (full_members ++ [(cs "e", VBool true)]))) (Some (cs "e")) =
  if bool_decide (cs "e" = cs "e") then Some (JBool true)
  else erase <$> builtin_object_get (Some (VObject 4 full_members)) (Some (cs "e")).
Proof.
  apply (object_set_get 4 full_members (cs "e") (VBool true) fresh_heap _
           (Heap (fun _ => false) 3 1 false)); [apply full_members_wf|done|by vm_compute..].
Defined.

Lemma array_append_contract_witness :
  exists c' l', Some (VArray 4 [VNull]) = Some (VArray c' l') /\ wf (VArray c' l') /\
  hstep fresh_heap (Heap (fun _ => false) 1 1 false) (blocks (VArray c' l') - blocks (VArray 0 [])
              - (if decide (MCP_OK = MCP_OK) then blocks VNull else 0)) /\
  l' = (if decide (MCP_OK = MCP_OK) then [] ++ [VNull] else []) /\
  (ample fresh_heap -> MCP_OK = MCP_OK).
Proof.
  apply (array_append_contract 0 [] VNull fresh_heap MCP_OK); [by vm_compute|by split|done].
Defined.

Lemma destroy_frees_witness :
  hstep (Heap (fun _ => false) 0 12 false) (Heap (fun _ => false) 0 1 false)
    (- oblocks (Some (VObject 4 full_members))).
Proof. apply (destroy_frees (Some (VObject 4 full_members)) _ tt). by vm_compute. Defined.
