(* ===== verification/JsonParse.v ===== *)
(** * The JSON parser (src/json/builtin.c, "Parser")

    The recursive-descent parser over the bytes from [ps->p] to [ps->end]:
    a function of the parser takes the remaining bytes and returns what it
    leaves.  [ps->depth] is passed down, the code restores it on every exit.
    The loops and the recursion run on fuel, and running out of it is a
    result of its own, [OutOfFuel], never a parse error; [builtin_parse]
    computes the fuel from the length of the text, and
    [parse_value_fuel] shows that it is enough. *)
From S2P Require Import Prelude Heap Utf8 Double JsonValue.

Local Open Scope Z_scope.

(** [NULL], or the result of the call. *)
Inductive presult (A : Type) :=
| OutOfFuel
| Null
| Got (a : A).
Arguments OutOfFuel {A}.
Arguments Null {A}.
Arguments Got {A} a.

Definition MCP_JSON_MAX_DEPTH : Z := 128.

(** ** Lexical helpers *)

Definition is_ws (b : byte) : bool :=
  Byte.eqb b x20 || Byte.eqb b x09 || Byte.eqb b x0a || Byte.eqb b x0d.

Fixpoint skip_ws (p : bytes) : bytes :=
  match p with
  | b :: p' => if is_ws b then skip_ws p' else p
  | [] => []
  end.

(** [match_lit]: the bytes after the literal, if the text starts with it. *)
Definition match_lit (p lit : bytes) : option bytes :=
  if bool_decide (take (length lit) p = lit) then Some (drop (length lit) p) else None.

(** [scan_number]: the length of the number the text starts with. *)
Definition scan_frac (s : bytes) : option bytes :=
  match s with
  | b :: f =>
      if Byte.eqb b "."%byte then
        let s := (span_digits f).2 in
        if Nat.eqb (length s) (length f) then None else Some s
      else Some s
  | [] => Some s
  end.

Definition scan_exp (s : bytes) : option bytes :=
  match s with
  | b :: s1 =>
      if Byte.eqb b "e"%byte || Byte.eqb b "E"%byte then
        let e := match s1 with
                 | c :: s2 => if Byte.eqb c "+"%byte || Byte.eqb c "-"%byte then s2 else s1
                 | [] => s1
                 end in
        let s := (span_digits e).2 in
        if Nat.eqb (length s) (length e) then None else Some s
      else Some s
  | [] => Some s
  end.

Definition scan_int (s : bytes) : option bytes :=
  match s with
  | b :: s' =>
      if Byte.eqb b "0"%byte then Some s'
      else if (0x31 <=? b2z b) && (b2z b <=? 0x39) then Some (span_digits s).2
      else None
  | [] => None
  end.

Definition scan_number (p : bytes) : option nat :=
  let s := match p with
           | b :: p' => if Byte.eqb b "-"%byte then p' else p
           | [] => p
           end in
  match scan_int s with
  | None => None
  | Some s =>
      match scan_frac s with
      | None => None
      | Some s =>
          match scan_exp s with
          | None => None
          | Some s => Some (length p - length s)%nat
          end
      end
  end.

Definition parse_number (p : bytes) : M (presult (value * bytes)) :=
  match scan_number p with
  | None => ret Null
  | Some len =>
      tmp <- xmalloc ;;
      if negb tmp then ret Null else
      let (d, eptr) := strtod (take len p) in
      let ok := bool_decide (eptr = []) && isfinite d in
      xfree false ;;
      if negb ok then ret Null else
      v <- builtin_new_number d ;;
      ret (match v with Some v => Got (v, drop len p) | None => Null end)
  end.

(** ** The growing buffer *)

(** [growbuf_t]: the [len] bytes written, the capacity (0 means that [data]
    is NULL) and the sticky success flag. *)
Record growbuf := GrowBuf { gdata : bytes; gcap : nat; gok : bool }.

(** [while (ncap < need) ncap *= 2]. *)
Fixpoint grow_loop (fuel : nat) (ncap need : nat) : nat :=
  if Nat.ltb ncap need then
    match fuel with O => ncap | S fuel => grow_loop fuel (ncap * 2)%nat need end
  else ncap.

Definition grow_append (b : growbuf) (s : bytes) : M growbuf :=
  if negb (gok b) then ret b else
  let need := (length (gdata b) + length s + 1)%nat in
  if Nat.ltb (gcap b) need then
    let ncap := grow_loop need (if Nat.eqb (gcap b) 0 then 32%nat else gcap b) need in
    nd <- xrealloc (isnull0 (gcap b)) ;;
    if negb nd then ret (GrowBuf (gdata b) (gcap b) false)
    else ret (GrowBuf (gdata b ++ s) ncap true)
  else ret (GrowBuf (gdata b ++ s) (gcap b) true).

Definition empty_buf : growbuf := GrowBuf [] 0 true.

(** ** Strings *)

Definition hex_val (c : byte) : option Z :=
  let z := b2z c in
  if (0x30 <=? z) && (z <=? 0x39) then Some (z - 0x30)
  else if (0x61 <=? z) && (z <=? 0x66) then Some (z - 0x61 + 10)
  else if (0x41 <=? z) && (z <=? 0x46) then Some (z - 0x41 + 10)
  else None.

(** The loop of [parse_hex4]: [v] after [n] more digits (32-bit). *)
Fixpoint hex_loop (n : nat) (v : Z) (p : bytes) : option (Z * bytes) :=
  match n with
  | O => Some (v, p)
  | S n =>
      match p with
      | [] => None
      | c :: p' =>
          match hex_val c with
          | None => None
          | Some x => hex_loop n (Z.lor (Z.shiftl v 4 mod 2 ^ 32) x) p'
          end
      end
  end.

Definition parse_hex4 (p : bytes) : option (Z * bytes) :=
  if Nat.ltb (length p) 4 then None else hex_loop 4 0 p.

(** The code point of a \u escape and the bytes after it. *)
Definition unicode_escape (p : bytes) : option (Z * bytes) :=
  match parse_hex4 p with
  | None => None
  | Some (hi, p) =>
      if (0xD800 <=? hi) && (hi <=? 0xDBFF) then
        match p with
        | b0 :: b1 :: p' =>
            if Nat.ltb (length p) 6 || negb (Byte.eqb b0 x5c) || negb (Byte.eqb b1 "u"%byte)
            then None
            else match parse_hex4 p' with
                 | None => None
                 | Some (lo, p'') =>
                     if (lo <? 0xDC00) || (0xDFFF <? lo) then None else
                     let cp := 0x10000 + Z.shiftl (hi - 0xD800) 10 + (lo - 0xDC00) in
                     if 0x10FFFF <? cp then None else Some (cp, p'')
                 end
        | _ => None
        end
      else if (0xDC00 <=? hi) && (hi <=? 0xDFFF) then None
      else if 0x10FFFF <? hi then None else Some (hi, p)
  end.

Definition parse_unicode_escape (p : bytes) (b : growbuf) : M (option bytes * growbuf) :=
  match unicode_escape p with
  | None => ret (None, b)
  | Some (cp, p') =>
      b <- grow_append b (utf8_encode cp) ;;
      ret (if gok b then Some p' else None, b)
  end.

(** The byte a one-letter escape stands for. *)
Definition simple_escape (e : byte) : option byte :=
  if Byte.eqb e x22 then Some x22
  else if Byte.eqb e x5c then Some x5c
  else if Byte.eqb e "/"%byte then Some "/"%byte
  else if Byte.eqb e "b"%byte then Some x08
  else if Byte.eqb e "f"%byte then Some x0c
  else if Byte.eqb e "n"%byte then Some x0a
  else if Byte.eqb e "r"%byte then Some x0d
  else if Byte.eqb e "t"%byte then Some x09
  else None.

(** The loop of [parse_string_raw]: [closed], the bytes left and the buffer
    at the label [done]; [None] when the fuel runs out. *)
Fixpoint string_loop (fuel : nat) (p : bytes) (b : growbuf) : M (option (bool * bytes * growbuf)) :=
  match fuel with
  | O => ret None
  | S fuel =>
      match p with
      | [] => ret (Some (false, p, b))
      | c :: p' =>
          if Byte.eqb c x22 then ret (Some (true, p', b))
          else if Byte.eqb c x5c then
            match p' with
            | [] => ret (Some (false, p', b))
            | e :: p'' =>
                if Byte.eqb e "u"%byte then
                  r <- parse_unicode_escape p'' b ;;
                  match r with
                  | (Some q, b) => string_loop fuel q b
                  | (None, b) => ret (Some (false, p'', b))
                  end
                else
                  match simple_escape e with
                  | None => ret (Some (false, p'', b))
                  | Some x =>
                      b <- grow_append b [x] ;;
                      if negb (gok b) then ret (Some (false, p'', b)) else string_loop fuel p'' b
                  end
            end
          else if b2z c <? 0x20 then ret (Some (false, p, b))
          else b <- grow_append b [c] ;; string_loop fuel p' b
      end
  end.

(** [parse_string_raw]; the text starts at the opening quote.  The result is
    the contents of the owned buffer. *)
Definition parse_string_raw (p : bytes) : M (presult (bytes * bytes)) :=
  r <- string_loop (S (length p)) (tail p) empty_buf ;;
  match r with
  | None => ret OutOfFuel
  | Some (closed, rest, b) =>
      if negb closed || negb (gok b) || negb (utf8_valid (gdata b)) then
        xfree (isnull0 (gcap b)) ;; ret Null
      else if isnull0 (gcap b) then
        data <- xmalloc ;;
        ret (if data then Got ([], rest) else Null)
      else ret (Got (gdata b, rest))
  end.

Definition head_is (p : bytes) (c : byte) : bool :=
  match p with b :: _ => Byte.eqb b c | [] => false end.

(** ** Values *)

Fixpoint parse_value (fuel : nat) (depth : Z) (p : bytes) : M (presult (value * bytes)) :=
  match fuel with
  | O => ret OutOfFuel
  | S fuel =>
      match p with
      | [] => ret Null
      | c :: _ =>
          if Byte.eqb c "n"%byte then
            match match_lit p (cs "null") with
            | Some p' => v <- builtin_new_null ;; ret (match v with Some v => Got (v, p') | None => Null end)
            | None => ret Null
            end
          else if Byte.eqb c "t"%byte then
            match match_lit p (cs "true") with
            | Some p' => v <- builtin_new_bool true ;; ret (match v with Some v => Got (v, p') | None => Null end)
            | None => ret Null
            end
          else if Byte.eqb c "f"%byte then
            match match_lit p (cs "false") with
            | Some p' => v <- builtin_new_bool false ;; ret (match v with Some v => Got (v, p') | None => Null end)
            | None => ret Null
            end
          else if Byte.eqb c x22 then
            r <- parse_string_raw p ;;
            match r with
            | OutOfFuel => ret OutOfFuel
            | Null => ret Null
            | Got (s, p') =>
                v <- builtin_new_string_n (Some (cstr s)) ;;
                xfree false ;;
                ret (match v with Some v => Got (v, p') | None => Null end)
            end
          else if Byte.eqb c "["%byte then parse_array fuel depth p
          else if Byte.eqb c "{"%byte then parse_object fuel depth p
          else parse_number p
      end
  end

with parse_array (fuel : nat) (depth : Z) (p : bytes) : M (presult (value * bytes)) :=
  match fuel with
  | O => ret OutOfFuel
  | S fuel =>
      let depth := depth + 1 in
      if MCP_JSON_MAX_DEPTH <? depth then ret Null else
      let p := tail p in
      arr <- builtin_new_array ;;
      match arr with
      | None => ret Null
      | Some arr =>
          let p := skip_ws p in
          if head_is p "]"%byte then ret (Got (arr, tail p))
          else array_loop fuel depth arr p
      end
  end

with array_loop (fuel : nat) (depth : Z) (arr : value) (p : bytes) : M (presult (value * bytes)) :=
  match fuel with
  | O => ret OutOfFuel
  | S fuel =>
      let p := skip_ws p in
      r <- parse_value fuel depth p ;;
      match r with
      | OutOfFuel => ret OutOfFuel
      | Null => builtin_destroy (Some arr) ;; ret Null
      | Got (item, p) =>
          a <- builtin_array_append (Some arr) (Some item) ;;
          match a with
          | (MCP_OK, Some arr) =>
              let p := skip_ws p in
              if head_is p ","%byte then array_loop fuel depth arr (tail p)
              else if head_is p "]"%byte then ret (Got (arr, tail p))
              else builtin_destroy (Some arr) ;; ret Null
          | (_, arr) => builtin_destroy (Some item) ;; builtin_destroy arr ;; ret Null
          end
      end
  end

with parse_object (fuel : nat) (depth : Z) (p : bytes) : M (presult (value * bytes)) :=
  match fuel with
  | O => ret OutOfFuel
  | S fuel =>
      let depth := depth + 1 in
      if MCP_JSON_MAX_DEPTH <? depth then ret Null else
      let p := tail p in
      obj <- builtin_new_object ;;
      match obj with
      | None => ret Null
      | Some obj =>
          let p := skip_ws p in
          if head_is p "}"%byte then ret (Got (obj, tail p))
          else object_loop fuel depth obj p
      end
  end

with object_loop (fuel : nat) (depth : Z) (obj : value) (p : bytes) : M (presult (value * bytes)) :=
  match fuel with
  | O => ret OutOfFuel
  | S fuel =>
      let p := skip_ws p in
      if negb (head_is p x22) then builtin_destroy (Some obj) ;; ret Null else
      k <- parse_string_raw p ;;
      match k with
      | OutOfFuel => ret OutOfFuel
      | Null => builtin_destroy (Some obj) ;; ret Null
      | Got (key, p) =>
          let p := skip_ws p in
          if negb (head_is p ":"%byte) then
            xfree false ;; builtin_destroy (Some obj) ;; ret Null
          else
          let p := skip_ws (tail p) in
          r <- parse_value fuel depth p ;;
          match r with
          | OutOfFuel => ret OutOfFuel
          | Null => xfree false ;; builtin_destroy (Some obj) ;; ret Null
          | Got (val, p) =>
              st <- builtin_object_set (Some obj) (Some key) (Some val) ;;
              xfree false ;;
              match st with
              | (MCP_OK, Some obj) =>
                  let p := skip_ws p in
                  if head_is p ","%byte then object_loop fuel depth obj (tail p)
                  else if head_is p "}"%byte then ret (Got (obj, tail p))
                  else builtin_destroy (Some obj) ;; ret Null
              | (_, obj) => builtin_destroy (Some val) ;; builtin_destroy obj ;; ret Null
              end
          end
      end
  end.

Definition parse_fuel (p : bytes) : nat := (3 * length p + 1)%nat.

Definition builtin_parse (text : option bytes) : M (presult value) :=
  match text with
  | None => ret Null
  | Some text =>
      if negb (utf8_valid text) then ret Null else
      let p := skip_ws text in
      r <- parse_value (parse_fuel p) 0 p ;;
      match r with
      | OutOfFuel => ret OutOfFuel
      | Null => ret Null
      | Got (v, p) =>
          match skip_ws p with
          | [] => ret (Got v)
          | _ => builtin_destroy (Some v) ;; ret Null
          end
      end
  end.

(** ** Lexical lemmas *)

Lemma skip_ws_length p : (length (skip_ws p) <= length p)%nat.
Proof. induction p as [|b p IH]; simpl; [lia|]. case_match; simpl; lia. Qed.

Lemma tail_length (p : bytes) : (length (tail p) <= length p)%nat.
Proof. destruct p; simpl; lia. Qed.

Lemma head_is_spec p c : head_is p c = true -> exists p', p = c :: p'.
Proof. destruct p as [|b p]; simpl; [done|]. intros ->%byte_eqb_eq. eauto. Qed.

Lemma span_digits_app s d r : span_digits s = (d, r) -> s = d ++ r.
Proof.
  revert d r. induction s as [|b s IH]; simpl; intros d r H; [by simplify_eq|].
  destruct (isdigit b); [|by simplify_eq].
  destruct (span_digits s) as [d' r']. simplify_eq. simpl. f_equal. by apply IH.
Qed.

Lemma span_digits_length s : (length (span_digits s).2 <= length s)%nat.
Proof.
  destruct (span_digits s) as [d r] eqn:E. apply span_digits_app in E as ->.
  rewrite length_app. simpl. lia.
Qed.

Lemma match_lit_length p lit p' :
  match_lit p lit = Some p' -> p = lit ++ p'.
Proof.
  unfold match_lit. case_bool_decide as H; [|done]. intros; simplify_eq.
  rewrite <- H at 1. by rewrite take_drop.
Qed.

Lemma scan_int_length s s' : scan_int s = Some s' -> (length s' < length s)%nat.
Proof.
  destruct s as [|b s]; cbn [scan_int]; [done|]. pose proof (span_digits_length s).
  destruct (Byte.eqb b "0"%byte); [intros; simplify_eq; simpl; lia|].
  destruct ((0x31 <=? b2z b) && (b2z b <=? 0x39)) eqn:E; [|done]. bool_props.
  cbn [span_digits]. replace (isdigit b) with true by (unfold isdigit; lia).
  destruct (span_digits s). simpl in *. intros; simplify_eq. lia.
Qed.

Lemma scan_frac_length s s' : scan_frac s = Some s' -> (length s' <= length s)%nat.
Proof.
  destruct s as [|b s]; simpl; [intros; simplify_eq; simpl; lia|].
  pose proof (span_digits_length s). repeat case_match; intros; simplify_eq; simpl; lia.
Qed.

Lemma scan_exp_length s s' : scan_exp s = Some s' -> (length s' <= length s)%nat.
Proof.
  destruct s as [|b s]; simpl; [intros; simplify_eq; simpl; lia|].
  case_match; [|intros; simplify_eq; simpl; lia].
  destruct s as [|c s]; [done|]. repeat case_match; intros; simplify_eq.
  - pose proof (span_digits_length s). simpl. lia.
  - pose proof (span_digits_length (c :: s)). simpl in *. lia.
Qed.

Lemma scan_number_length p n : scan_number p = Some n -> (0 < n <= length p)%nat.
Proof.
  unfold scan_number. intros H. repeat case_match; simplify_eq.
  all: repeat match goal with
       | H : scan_int _ = Some _ |- _ => apply scan_int_length in H
       | H : scan_frac _ = Some _ |- _ => apply scan_frac_length in H
       | H : scan_exp _ = Some _ |- _ => apply scan_exp_length in H
       end; simpl in *; lia.
Qed.

Lemma hex_loop_length n v p r p' : hex_loop n v p = Some (r, p') -> (length p = n + length p')%nat.
Proof.
  revert v p. induction n as [|n IH]; intros v p H; simpl in H; [by simplify_eq|].
  destruct p as [|c p]; [done|]. destruct (hex_val c); [|done]. apply IH in H. simpl. lia.
Qed.

Lemma unicode_escape_length p cp p' : unicode_escape p = Some (cp, p') -> (length p' < length p)%nat.
Proof.
  unfold unicode_escape, parse_hex4. intros H. repeat case_match; simplify_eq.
  all: repeat match goal with H : hex_loop _ _ _ = Some _ |- _ => apply hex_loop_length in H end.
  all: simpl in *; lia.
Qed.

(** ** The growing buffer *)

(** A buffer whose [data] is NULL has nothing in it. *)
Definition ginv (b : growbuf) : Prop := gcap b = O -> gdata b = [].

Lemma grow_loop_ge fuel n need : (n <= grow_loop fuel n need)%nat.
Proof.
  revert n. induction fuel as [|fuel IH]; intros n; simpl; case_match; try lia.
  specialize (IH (n * 2)%nat). lia.
Qed.

Lemma grow_loop_enough fuel n need :
  (1 <= n)%nat -> (need <= fuel + n)%nat -> (need <= grow_loop fuel n need)%nat.
Proof.
  revert n. induction fuel as [|fuel IH]; intros n Hn Hf; simpl; case_match; bool_props; try lia.
  apply IH; lia.
Qed.

Lemma grow_append_spec b s h b' h' :
  grow_append b s h = (b', h') -> ginv b ->
  hstep h h' (buffer (gcap b') - buffer (gcap b)) /\ ginv b' /\
  (gok b' = true -> gok b = true /\ gdata b' = gdata b ++ s) /\
  (ample h -> gok b = true -> gok b' = true).
Proof.
  unfold grow_append, ginv. intros H Hinv. destruct (gok b) eqn:Eok; simpl in H.
  2: { minv H. split; [hsolve|]. split; [done|]. split; [congruence|done]. }
  destruct (Nat.ltb (gcap b) _) eqn:El.
  2: { minv H. simpl. bool_props. split; [hsolve|]. split; [lia|]. done. }
  apply bind_inv in H as (ok & h1 & E & H). pose proof E as E'.
  destruct ok; simpl in H; minv H; simpl.
  - set (need := (length (gdata b) + length s + 1)%nat) in *.
    set (n0 := if Nat.eqb (gcap b) 0 then 32%nat else gcap b).
    assert (1 <= grow_loop need n0 need)%nat as Hn.
    { pose proof (grow_loop_ge need n0 need). unfold n0 in *. destruct (Nat.eqb (gcap b) 0) eqn:?; bool_props; lia. }
    split; [|split; [lia|done]]. hstep_facts. unfold buffer.
    replace (isnull0 (grow_loop need n0 need)) with false by (symmetry; apply Nat.eqb_neq; lia).
    destruct (isnull0 (gcap b)); hsolve.
  - split; [hsolve|]. split; [done|]. split; [done|].
    intros A. by apply (xrealloc_ample_inv _ _ _ _ A) in E'.
Qed.

(** The code's comment-free invariant behind [memcpy]: after an append that
    succeeds there is room for the bytes and the terminating NUL. *)
Lemma grow_append_room b s h b' h' :
  grow_append b s h = (b', h') -> gok b' = true ->
  (length (gdata b') + 1 <= gcap b')%nat.
Proof.
  unfold grow_append. intros H Hok. destruct (gok b) eqn:Eok; simpl in H; [|minv H; congruence].
  set (need := (length (gdata b) + length s + 1)%nat) in *.
  set (n0 := if Nat.eqb (gcap b) 0 then 32%nat else gcap b) in *.
  destruct (Nat.ltb (gcap b) need) eqn:El.
  - apply bind_inv in H as (ok & h1 & E & H). destruct ok; simpl in H; minv H; [|done].
    simpl. rewrite length_app. apply Nat.le_trans with need; [lia|].
    apply grow_loop_enough; [|lia]. unfold n0. destruct (Nat.eqb (gcap b) 0) eqn:?; bool_props; lia.
  - minv H. bool_props. simpl. rewrite length_app. lia.
Qed.

(** ** Strings: blocks and progress *)

Lemma parse_unicode_escape_spec p b h q b' h' :
  parse_unicode_escape p b h = ((q, b'), h') -> ginv b ->
  hstep h h' (buffer (gcap b') - buffer (gcap b)) /\ ginv b' /\
  match q with
  | Some p' => exists cp, unicode_escape p = Some (cp, p') /\ gok b = true /\ gok b' = true /\
                          gdata b' = gdata b ++ utf8_encode cp
  | None => True
  end /\
  (ample h -> gok b = true -> unicode_escape p <> None -> q <> None).
Proof.
  unfold parse_unicode_escape. intros H Hb. destruct (unicode_escape p) as [[cp p']|] eqn:E.
  - minv H. simplify_eq. apply grow_append_spec in E0 as (H1 & H2 & H3 & H4); [|done].
    split; [done|]. split; [done|]. split.
    + destruct (gok a) eqn:Ea; [|done]. destruct H3; [done|]. eauto 10.
    + intros A Hok _. by rewrite H4.
  - minv H. simplify_eq. split; [hsolve|]. done.
Qed.

Lemma string_loop_spec fuel p b h r h' :
  string_loop fuel p b h = (r, h') -> ginv b ->
  match r with
  | None => (fuel <= length p)%nat
  | Some (closed, rest, b') =>
      hstep h h' (buffer (gcap b') - buffer (gcap b)) /\ ginv b' /\
      (closed = true -> (length rest < length p)%nat)
  end.
Proof.
  revert p b h r h'. induction fuel as [|fuel IH]; intros p b h r h' H Hb; cbn [string_loop] in H.
  { minv H. lia. }
  destruct p as [|c p]; [minv H; split; [hsolve|done]|].
  destruct (Byte.eqb c x22); [minv H; split; [hsolve|]; split; [done|simpl; lia]|].
  assert (forall q b1 h1, (length q <= length p)%nat -> ginv b1 ->
            hstep h h1 (buffer (gcap b1) - buffer (gcap b)) ->
            string_loop fuel q b1 h1 = (r, h') ->
            match r with
            | None => (S fuel <= length (c :: p))%nat
            | Some (closed, rest, b') =>
                hstep h h' (buffer (gcap b') - buffer (gcap b)) /\ ginv b' /\
                (closed = true -> (length rest < length (c :: p))%nat)
            end) as Hrec.
  { intros q b1 h1 Hq Hb1 Hs Hr. apply IH in Hr; [|done].
    destruct r as [[[closed rest] b']|]; [|simpl; lia].
    destruct Hr as (? & ? & Hl). split; [hsolve|]. split; [done|]. intros Hc. specialize (Hl Hc). simpl. lia. }
  destruct (Byte.eqb c x5c).
  - destruct p as [|e p]; [minv H; split; [hsolve|done]|].
    destruct (Byte.eqb e "u"%byte).
    + apply bind_inv in H as ([q b1] & h1 & E & H).
      apply parse_unicode_escape_spec in E as (Hs & Hb1 & Hq & _); [|done].
      destruct q as [q|]; [|minv H; done].
      destruct Hq as (cp & Hu & _). apply unicode_escape_length in Hu.
      apply (Hrec q b1 h1); [simpl; lia|done..].
    + destruct (simple_escape e); [|minv H; split; [hsolve|done]].
      apply bind_inv in H as (b1 & h1 & E & H).
      apply grow_append_spec in E as (Hs & Hb1 & _); [|done].
      destruct (gok b1); simpl in H; [|minv H; done].
      apply (Hrec p b1 h1); [simpl; lia|done..].
  - destruct (b2z c <? 32); [minv H; split; [hsolve|done]|].
    apply bind_inv in H as (b1 & h1 & E & H).
    apply grow_append_spec in E as (Hs & Hb1 & _); [|done].
    by apply (Hrec p b1 h1).
Qed.

Lemma parse_string_raw_spec p h r h' :
  parse_string_raw p h = (r, h') -> p <> [] ->
  match r with
  | OutOfFuel => False
  | Null => hstep h h' 0
  | Got (s, rest) => hstep h h' 1 /\ utf8_valid s = true /\ (length rest < length p)%nat
  end.
Proof.
  unfold parse_string_raw. intros H Hp. apply bind_inv in H as (r1 & h1 & E & H).
  apply string_loop_spec in E; [|done]. destruct p as [|c p]; [done|]. simpl tail in E.
  destruct r1 as [[[closed rest] b]|]; [|simpl in E; lia].
  destruct E as (Hs & Hb & Hl). destruct closed; simpl in H; [specialize (Hl eq_refl)|].
  2: { minv H. hstep_facts. unfold buffer in Hs. simpl in *. destruct (isnull0 (gcap b)); hsolve. }
  destruct (negb (gok b) || negb (utf8_valid (gdata b))) eqn:Eu.
  { minv H. hstep_facts. unfold buffer in Hs. simpl in *. destruct (isnull0 (gcap b)); hsolve. }
  bool_props. unfold buffer in Hs. simpl in Hs.
  destruct (isnull0 (gcap b)) eqn:Ec; [|minv H; split; [hsolve|]; split; [done|simpl; lia]].
  apply bind_inv in H as (ok & h2 & E & H). minv H. destruct ok; [|hsolve].
  split; [hsolve|]. split; [done|simpl; lia].
Qed.

(** ** Values: blocks, the invariant and progress, for every allocator *)

(** The outcome of a parsing function entered with [b0] blocks in its
    charge: on NULL they have been given back, otherwise the result owns
    them and the new ones; the result is well formed and something was
    consumed. *)
Definition ppost (p : bytes) (b0 : Z) (h h' : heap) (r : presult (value * bytes)) : Prop :=
  match r with
  | OutOfFuel => True
  | Null => hstep h h' (- b0)
  | Got (v, rest) => hstep h h' (blocks v - b0) /\ wf v /\ (length rest < length p)%nat
  end.

Lemma parse_number_spec p h r h' :
  parse_number p h = (r, h') -> ppost p 0 h h' r /\ r <> OutOfFuel.
Proof.
  unfold parse_number. intros H. destruct (scan_number p) as [n|] eqn:En; [|minv H; split; [simpl; hsolve|done]].
  apply scan_number_length in En. apply bind_inv in H as (ok & h1 & E & H).
  destruct ok; simpl in H; [|minv H; split; [simpl; hsolve|done]].
  pose proof (strtod_valid (take n p)) as Hv. destruct (strtod (take n p)) as [d eptr].
  apply bind_inv in H as (u & h2 & E2 & H).
  destruct (bool_decide (eptr = []) && isfinite d) eqn:Eok; simpl in H;
    [|minv H; split; [simpl; hsolve|done]].
  apply bind_inv in H as (v & h3 & E3 & H). minv H. apply new_number_spec in E3 as (Hs & Hr & _).
  destruct Hr as [->|[-> Hf]]; (split; [|done]); simpl in *; [hsolve|].
  split; [hsolve|]. split; [done|]. rewrite length_drop. lia.
Qed.

Lemma cstr_valid s : utf8_valid s = true -> utf8_valid (cstr s) = true.
Proof.
  unfold utf8_valid. intros H.
  assert (forall st, utf8_valid_from st s = true -> In st [0;2;3;4;5;6;7;8] ->
            utf8_valid_from st (cstr s) = true) as Hgen; [|by apply Hgen; [|left]].
  clear H. induction s as [|b s IH]; intros st H Hst; [done|]. cbn [cstr].
  destruct (Byte.eqb b x00) eqn:Eb.
  - apply byte_eqb_eq in Eb as ->. cbn [utf8_valid_from] in *.
    simpl in Hst. destruct_or! Hst; subst; try done; vm_compute in H; done.
  - cbn [utf8_valid_from] in *. destruct (utf8_step st b =? UTF8_REJECT) eqn:Es; [done|].
    apply IH; [done|]. clear H IH Eb.
    assert (In (utf8_step st b) [1;0;2;3;4;5;6;7;8]) as Hin.
    { assert (forall b, forallb (fun st => existsb (Z.eqb (utf8_step st b)) [1;0;2;3;4;5;6;7;8])
                [0;2;3;4;5;6;7;8] = true) as Hall by (apply all_bytes_forall; by vm_compute).
      specialize (Hall b). apply (proj1 (forallb_forall _ _)) with (x := st) in Hall; [|done].
      apply existsb_exists in Hall as (y & Hy & ->%Z.eqb_eq). done. }
    destruct Hin as [Hin|Hin]; [|done]. rewrite <- Hin in Es. done.
Qed.

Lemma ppost_weaken p q b0 h h' r :
  (length q <= length p)%nat -> ppost q b0 h h' r -> ppost p b0 h h' r.
Proof.
  destruct r as [| |[v rest]]; simpl; try done. intros ? (?&?&?). split; [done|]. split; [done|lia].
Qed.

Lemma ppost_trans p b0 b1 h h1 h' r :
  hstep h h1 (b1 - b0) -> ppost p b1 h1 h' r -> ppost p b0 h h' r.
Proof.
  destruct r as [| |[v rest]]; simpl; try done; intros Hs H; [hsolve|].
  destruct H as (?&?&?). split; [hsolve|]. done.
Qed.

Lemma literal_spec p p' lit v h r h' :
  blocks v = 1 -> wf v -> lit <> [] -> match_lit p lit = Some p' ->
  (v <- value_new v ;; ret (match v with Some v => Got (v, p') | None => Null end)) h = (r, h') ->
  ppost p 0 h h' r /\ r <> OutOfFuel.
Proof.
  intros Hb Hwf Hl Hm H. apply bind_inv in H as (o & h1 & E & H). minv H.
  apply value_new_spec in E as (Hs & Ho & _); [|done]. apply match_lit_length in Hm as ->.
  destruct lit; [done|].
  destruct Ho as [->| ->]; (split; [|done]); simpl in *; [hsolve|]. split; [hsolve|].
  split; [done|]. rewrite length_app. lia.
Qed.

(** The string case of [parse_value]. *)
Lemma string_value_spec p h r h' :
  p <> [] ->
  (r <- parse_string_raw p ;;
   match r with
   | OutOfFuel => ret OutOfFuel
   | Null => ret Null
   | Got (s, p') =>
       v <- builtin_new_string_n (Some (cstr s)) ;;
       xfree false ;;
       ret (match v with Some v => Got (v, p') | None => Null end)
   end) h = (r, h') ->
  ppost p 0 h h' r /\ r <> OutOfFuel.
Proof.
  intros Hp H. apply bind_inv in H as (r1 & h1 & E & H).
  apply parse_string_raw_spec in E; [|done]. destruct r1 as [| |[s p']]; [done|minv H; split; [simpl; hsolve|done]|].
  destruct E as (Hs & Hu & Hl). minv H. apply new_string_spec in E as (Hs2 & Ho & _).
  destruct Ho as [->|[-> Hg]]; (split; [|done]); simpl in *; [hsolve|]. split; [hsolve|]. done.
Qed.

(** The part of the array loop after an item: append, then [,] or []]. *)
Lemma array_item_spec c l item h st o h1 :
  builtin_array_append (Some (VArray c l)) (Some item) h = ((st, o), h1) ->
  wf (VArray c l) -> wf item ->
  exists c' l', o = Some (VArray c' l') /\ wf (VArray c' l') /\
    hstep h h1 (blocks (VArray c' l') - blocks (VArray c l)
                - (if decide (st = MCP_OK) then blocks item else 0)).
Proof. intros H Hwf Hi. apply array_append_spec in H as (c' & l' & -> & ? & ? & _); eauto. Qed.

Definition parse_post_at (fuel : nat) : Prop :=
  (forall d p h r h', parse_value fuel d p h = (r, h') -> ppost p 0 h h' r) /\
  (forall d p h r h', parse_array fuel d p h = (r, h') -> p <> [] -> ppost p 0 h h' r) /\
  (forall d c l p h r h', array_loop fuel d (VArray c l) p h = (r, h') -> wf (VArray c l) ->
     ppost p (blocks (VArray c l)) h h' r) /\
  (forall d p h r h', parse_object fuel d p h = (r, h') -> p <> [] -> ppost p 0 h h' r) /\
  (forall d c l p h r h', object_loop fuel d (VObject c l) p h = (r, h') -> wf (VObject c l) ->
     ppost p (blocks (VObject c l)) h h' r).

Lemma array_loop_step fuel d c l p h r h' :
  parse_post_at fuel -> array_loop (S fuel) d (VArray c l) p h = (r, h') -> wf (VArray c l) ->
  ppost p (blocks (VArray c l)) h h' r.
Proof.
  intros (IHv & _ & IHl & _) H Hwf. cbn [array_loop] in H.
  pose proof (skip_ws_length p) as Hp. set (p1 := skip_ws p) in *.
  apply bind_inv in H as (r1 & h1 & E & H). apply IHv in E.
  destruct r1 as [| |[item p2]]; [minv H; done|minv H; destroy_facts; simpl in *; hsolve|].
  destruct E as (Hs & Hwi & Hl2). apply bind_inv in H as ([st o] & h2 & E & H).
  apply array_item_spec in E as (c' & l' & -> & Hwf' & Hs2); [|done..].
  destruct (decide (st = MCP_OK)) as [->|Hne].
  - set (p3 := skip_ws p2) in *. pose proof (skip_ws_length p2) as Hp3. fold p3 in Hp3.
    destruct (head_is p3 ","%byte).
    { apply IHl in H; [|done]. apply (ppost_weaken p) in H; [|pose proof (tail_length p3); lia].
      eapply ppost_trans; [|exact H]. hsolve. }
    destruct (head_is p3 "]"%byte).
    { minv H. simpl. split; [simpl in *; hsolve|]. split; [done|]. pose proof (tail_length p3). lia. }
    minv H. destroy_facts. simpl in *. hsolve.
  - destruct st; [done|..]; minv H; destroy_facts; simpl in *; hsolve.
Qed.

Lemma object_loop_step fuel d c l p h r h' :
  parse_post_at fuel -> object_loop (S fuel) d (VObject c l) p h = (r, h') -> wf (VObject c l) ->
  ppost p (blocks (VObject c l)) h h' r.
Proof.
  intros (IHv & _ & _ & _ & IHl) H Hwf. cbn [object_loop] in H.
  pose proof (skip_ws_length p) as Hp. set (p1 := skip_ws p) in *.
  destruct (head_is p1 x22) eqn:Eq; cbn [negb] in H; [|minv H; destroy_facts; simpl in *; hsolve].
  apply bind_inv in H as (r1 & h1 & E & H). apply parse_string_raw_spec in E; [|by destruct p1].
  destruct r1 as [| |[key p2]]; [done|minv H; destroy_facts; simpl in *; hsolve|].
  destruct E as (Hs1 & Hu & Hl2).
  set (p3 := skip_ws p2) in *. pose proof (skip_ws_length p2) as Hp3. fold p3 in Hp3.
  destruct (head_is p3 ":"%byte) eqn:Ec; cbn [negb] in H; [|minv H; destroy_facts; simpl in *; hsolve].
  set (p4 := skip_ws (tail p3)) in *.
  pose proof (skip_ws_length (tail p3)) as Hp4. fold p4 in Hp4. pose proof (tail_length p3) as Ht3.
  apply bind_inv in H as (r2 & h2 & E & H). apply IHv in E.
  destruct r2 as [| |[val p5]]; [minv H; done|minv H; destroy_facts; simpl in *; hsolve|].
  destruct E as (Hs2 & Hwv & Hl5). apply bind_inv in H as ([st o] & h3 & E & H).
  apply object_set_spec in E as (c' & l' & -> & Hwf' & Hs3 & _); [|done..].
  apply bind_inv in H as (u & h4 & E & H).
  destruct (decide (st = MCP_OK)) as [->|Hne].
  - set (p6 := skip_ws p5) in *. pose proof (skip_ws_length p5) as Hp6. fold p6 in Hp6.
    pose proof (tail_length p6) as Ht6.
    destruct (head_is p6 ","%byte).
    { apply IHl in H; [|done]. apply (ppost_weaken p) in H; [|lia].
      eapply ppost_trans; [|exact H]. hsolve. }
    destruct (head_is p6 "}"%byte).
    { minv H. simpl. split; [simpl in *; hsolve|]. split; [done|]. lia. }
    minv H. destroy_facts. simpl in *. hsolve.
  - destruct st; [done|..]; minv H; destroy_facts; simpl in *; hsolve.
Qed.

Lemma parse_value_post fuel : parse_post_at fuel.
Proof.
  induction fuel as [|fuel IH].
  { repeat split; intros; simpl in *; by minv H. }
  pose proof IH as (IHv & IHa & IHal & IHo & IHol).
  split; [|split; [|split; [|split]]].
  - intros d p h r h' H. cbn [parse_value] in H. destruct p as [|c p]; [minv H; simpl; hsolve|].
    set (p0 := c :: p) in *. assert (p0 <> []) as Hp0 by done.
    destruct (Byte.eqb c "n"%byte).
    { destruct (match_lit p0 _) eqn:Em; [|minv H; simpl; hsolve].
      by apply (literal_spec p0 _ (cs "null") VNull) in H as [? _]. }
    destruct (Byte.eqb c "t"%byte).
    { destruct (match_lit p0 _) eqn:Em; [|minv H; simpl; hsolve].
      by apply (literal_spec p0 _ (cs "true") (VBool true)) in H as [? _]. }
    destruct (Byte.eqb c "f"%byte).
    { destruct (match_lit p0 _) eqn:Em; [|minv H; simpl; hsolve].
      by apply (literal_spec p0 _ (cs "false") (VBool false)) in H as [? _]. }
    destruct (Byte.eqb c x22); [by apply string_value_spec in H as [? _]|].
    destruct (Byte.eqb c "["%byte); [by eapply IHa|].
    destruct (Byte.eqb c "{"%byte); [by eapply IHo|].
    by apply parse_number_spec in H as [? _].
  - intros d p h r h' H Hp. cbn [parse_array] in H. destruct p as [|c p]; [done|]. cbn [tail] in H.
    destruct (MCP_JSON_MAX_DEPTH <? d + 1); [minv H; simpl; hsolve|].
    apply bind_inv in H as (o & h1 & E & H). apply value_new_spec in E as (Hs & Ho & _); [|done].
    destruct Ho as [->| ->]; [minv H; simpl in *; hsolve|].
    pose proof (skip_ws_length p) as Hp1. set (p1 := skip_ws p) in *.
    destruct (head_is p1 "]"%byte).
    { minv H. simpl. split; [simpl in *; hsolve|]. split; [by split|]. pose proof (tail_length p1). lia. }
    apply IHal in H; [|by split]. apply (ppost_weaken (c :: p)) in H; [|simpl; lia].
    eapply ppost_trans; [|exact H]. simpl in *. hsolve.
  - intros d c l p h r h' H Hwf. by eapply array_loop_step.
  - intros d p h r h' H Hp. cbn [parse_object] in H. destruct p as [|c p]; [done|]. cbn [tail] in H.
    destruct (MCP_JSON_MAX_DEPTH <? d + 1); [minv H; simpl; hsolve|].
    apply bind_inv in H as (o & h1 & E & H). apply value_new_spec in E as (Hs & Ho & _); [|done].
    assert (wf (VObject 0 [])) as Hw0 by (apply wf_object; split; [done|]; split; constructor).
    destruct Ho as [->| ->]; [minv H; simpl in *; hsolve|].
    pose proof (skip_ws_length p) as Hp1. set (p1 := skip_ws p) in *.
    destruct (head_is p1 "}"%byte).
    { minv H. simpl. split; [simpl in *; hsolve|]. split; [done|]. pose proof (tail_length p1). lia. }
    apply IHol in H; [|done]. apply (ppost_weaken (c :: p)) in H; [|simpl; lia].
    eapply ppost_trans; [|exact H]. simpl in *. hsolve.
  - intros d c l p h r h' H Hwf. by eapply object_loop_step.
Qed.

(** ** Enough fuel *)

Lemma parse_value_progress fuel d p h v rest h' :
  parse_value fuel d p h = (Got (v, rest), h') -> (length rest < length p)%nat.
Proof. intros H. destruct (parse_value_post fuel) as (Hv & _). by apply Hv in H as (_ & _ & ?). Qed.

Definition parse_fuel_at (fuel : nat) : Prop :=
  (forall d p h r h', parse_value fuel d p h = (r, h') -> (3 * length p + 1 <= fuel)%nat -> r <> OutOfFuel) /\
  (forall d p h r h', parse_array fuel d p h = (r, h') -> p <> [] -> (3 * length p <= fuel)%nat -> r <> OutOfFuel) /\
  (forall d a p h r h', array_loop fuel d a p h = (r, h') -> (3 * length p + 2 <= fuel)%nat -> r <> OutOfFuel) /\
  (forall d p h r h', parse_object fuel d p h = (r, h') -> p <> [] -> (3 * length p <= fuel)%nat -> r <> OutOfFuel) /\
  (forall d o p h r h', object_loop fuel d o p h = (r, h') -> (3 * length p + 2 <= fuel)%nat -> r <> OutOfFuel).

Lemma array_loop_fuel fuel d a p h r h' :
  parse_fuel_at fuel -> array_loop (S fuel) d a p h = (r, h') ->
  (3 * length p + 2 <= S fuel)%nat -> r <> OutOfFuel.
Proof.
  intros (IHv & _ & IHl & _) H Hf. cbn [array_loop] in H.
  pose proof (skip_ws_length p) as Hp. set (p1 := skip_ws p) in *.
  apply bind_inv in H as (r1 & h1 & E & H). pose proof E as E'.
  apply IHv in E; [|lia]. destruct r1 as [| |[item p2]]; [done|by minv H|].
  apply parse_value_progress in E'. apply bind_inv in H as ([st o] & h2 & E2 & H).
  set (p3 := skip_ws p2) in *. pose proof (skip_ws_length p2) as Hp3. fold p3 in Hp3.
  pose proof (tail_length p3).
  destruct st, o; try (minv H; done).
  destruct (head_is p3 ","%byte); [apply IHl in H; [done|lia]|].
  destruct (head_is p3 "]"%byte); by minv H.
Qed.

Lemma object_loop_fuel fuel d o p h r h' :
  parse_fuel_at fuel -> object_loop (S fuel) d o p h = (r, h') ->
  (3 * length p + 2 <= S fuel)%nat -> r <> OutOfFuel.
Proof.
  intros (IHv & _ & _ & _ & IHl) H Hf. cbn [object_loop] in H.
  pose proof (skip_ws_length p) as Hp. set (p1 := skip_ws p) in *.
  destruct (head_is p1 x22) eqn:Eq; cbn [negb] in H; [|by minv H].
  apply bind_inv in H as (r1 & h1 & E & H). apply parse_string_raw_spec in E; [|by destruct p1].
  destruct r1 as [| |[key p2]]; [done|by minv H|]. destruct E as (_ & _ & Hl2).
  set (p3 := skip_ws p2) in *. pose proof (skip_ws_length p2) as Hp3. fold p3 in Hp3.
  destruct (head_is p3 ":"%byte) eqn:Ec; cbn [negb] in H; [|by minv H].
  set (p4 := skip_ws (tail p3)) in *.
  pose proof (skip_ws_length (tail p3)) as Hp4. fold p4 in Hp4. pose proof (tail_length p3) as Ht3.
  apply bind_inv in H as (r2 & h2 & E & H). pose proof E as E'.
  apply IHv in E; [|lia]. destruct r2 as [| |[val p5]]; [done|by minv H|].
  apply parse_value_progress in E'. apply bind_inv in H as ([st obj'] & h3 & E3 & H).
  apply bind_inv in H as (u & h4 & E4 & H).
  set (p6 := skip_ws p5) in *. pose proof (skip_ws_length p5) as Hp6. fold p6 in Hp6.
  pose proof (tail_length p6) as Ht6.
  destruct st, obj'; try (minv H; done).
  destruct (head_is p6 ","%byte); [apply IHl in H; [done|lia]|].
  destruct (head_is p6 "}"%byte); by minv H.
Qed.

Lemma parse_value_fuel fuel : parse_fuel_at fuel.
Proof.
  induction fuel as [|fuel IH].
  { split; [|split; [|split; [|split]]]; intros; try lia; destruct p; simpl in *; try done; lia. }
  pose proof IH as (IHv & IHa & IHal & IHo & IHol).
  split; [|split; [|split; [|split]]].
  - intros d p h r h' H Hf. cbn [parse_value] in H. destruct p as [|c p]; [by minv H|].
    set (p0 := c :: p) in *. assert (p0 <> []) as Hp0 by done.
    destruct (Byte.eqb c "n"%byte); [minv H; repeat case_match; done|].
    destruct (Byte.eqb c "t"%byte); [minv H; repeat case_match; done|].
    destruct (Byte.eqb c "f"%byte); [minv H; repeat case_match; done|].
    destruct (Byte.eqb c x22); [by apply string_value_spec in H as [_ ?]|].
    destruct (Byte.eqb c "["%byte); [eapply IHa; [done..|lia]|].
    destruct (Byte.eqb c "{"%byte); [eapply IHo; [done..|lia]|].
    by apply parse_number_spec in H as [_ ?].
  - intros d p h r h' H Hp Hf. cbn [parse_array] in H. destruct p as [|c p]; [done|]. cbn [tail] in H.
    destruct (MCP_JSON_MAX_DEPTH <? d + 1); [by minv H|].
    apply bind_inv in H as (o & h1 & E & H). destruct o; [|by minv H].
    pose proof (skip_ws_length p) as Hp1. set (p1 := skip_ws p) in *.
    destruct (head_is p1 "]"%byte); [by minv H|]. apply IHal in H; [done|]. simpl in Hf. lia.
  - intros. by eapply array_loop_fuel.
  - intros d p h r h' H Hp Hf. cbn [parse_object] in H. destruct p as [|c p]; [done|]. cbn [tail] in H.
    destruct (MCP_JSON_MAX_DEPTH <? d + 1); [by minv H|].
    apply bind_inv in H as (o & h1 & E & H). destruct o; [|by minv H].
    pose proof (skip_ws_length p) as Hp1. set (p1 := skip_ws p) in *.
    destruct (head_is p1 "}"%byte); [by minv H|]. apply IHol in H; [done|]. simpl in Hf. lia.
  - intros. by eapply object_loop_fuel.
Qed.

(** ** [builtin_parse] *)

Lemma builtin_parse_spec text h r h' :
  builtin_parse text h = (r, h') ->
  match r with
  | OutOfFuel => False
  | Null => hstep h h' 0
  | Got v => hstep h h' (blocks v) /\ wf v
  end.
Proof.
  unfold builtin_parse. intros H. destruct text as [text|]; [|minv H; hsolve].
  destruct (utf8_valid text); cbn [negb] in H; [|minv H; hsolve].
  apply bind_inv in H as (r1 & h1 & E & H). pose proof E as E'.
  destruct (parse_value_fuel (parse_fuel (skip_ws text))) as (Hfuel & _).
  apply Hfuel in E'; [|by unfold parse_fuel]. clear Hfuel.
  destruct (parse_value_post (parse_fuel (skip_ws text))) as (Hpost & _).
  apply Hpost in E. clear Hpost.
  destruct r1 as [| |[v rest]]; [done|minv H; simpl in *; hsolve|].
  destruct E as (Hs & Hwf & _). destruct (skip_ws rest); [minv H; split; [hsolve|done]|].
  minv H. destroy_facts. simpl in *. hsolve.
Qed.

(** The value of a text written with single quotes for double quotes, for
    the examples of the development. *)
Definition doc (text : string) : value :=
  match fst (builtin_parse (Some (js text)) fresh_heap) with Got v => v | _ => VNull end.

Lemma doc_wf text : wf (doc text).
Proof.
  unfold doc. destruct (builtin_parse (Some (js text)) fresh_heap) as [r h] eqn:E.
  apply builtin_parse_spec in E. destruct r; simpl; [done..|]. by destruct E.
Qed.

(** ** Claims *)

(** C24: The parser always returns: with the fuel computed from the length of
    the text it never runs out, whatever the text and whatever the
    allocator refuses. *)
Theorem parse_terminates text h : (builtin_parse text h).1 <> OutOfFuel.
Proof.
  destruct (builtin_parse text h) as [r h'] eqn:E. apply builtin_parse_spec in E. by destruct r.
Qed.

(** No allocation of the parser is leaked or freed twice: for every text
    and every pattern of allocation failures, when parsing fails all blocks
    it took are given back, and when it succeeds exactly the blocks of the
    returned tree are live (unless an object was left dangling by
    [builtin_object_set], the path of [object_set_dangling]). *)
Theorem parse_no_leak text h r h' :
  builtin_parse text h = (r, h') -> corrupt h' = false ->
  live h' = live h + match r with Got v => blocks v | _ => 0 end.
Proof.
  intros E%builtin_parse_spec Hc. destruct r as [| |v]; [done| |destruct E as [E _]].
  all: by apply (hstep_live _ _ _ E) in Hc as [_ ?].
Qed.

(** A run in which the fifth request, one inside the object, is refused. *)
Definition fifth_fails : heap := Heap (fun k => Nat.eqb k 4) 0 0 false.
Definition sample_text : bytes := js "[true, {'a':true}]".

Lemma parse_no_leak_witness :
  fst (builtin_parse (Some sample_text) fifth_fails) = Null /\
  live (snd (builtin_parse (Some sample_text) fifth_fails)) = 0.
Proof.
  split; [by vm_compute|].
  apply (parse_no_leak (Some sample_text) fifth_fails Null); by vm_compute.
Defined.

(** C40: Every tree the parser returns is well formed: finite numbers,
    NUL-free valid UTF-8 strings and keys, distinct keys in every object,
    no container over its capacity. *)
Theorem parse_wf text h :
  match (builtin_parse text h).1 with Got v => wf v | _ => True end.
Proof.
  destruct (builtin_parse text h) as [r h'] eqn:E. apply builtin_parse_spec in E.
  destruct r; simpl; [done..|]. by destruct E.
Qed.

(** A \u0000 escape is accepted inside a string, and everything after it
    is dropped from the value: the text "a\u0000b" parses to the string "a". *)
Theorem string_nul_truncated :
  fst (builtin_parse (Some (js "'a\u0000b'")) fresh_heap) = Got (VString (cs "a")).
Proof. by vm_compute. Qed.
