(* ===== verification/JsonGrammar.v ===== *)
(** * The JSON grammar and the parser (RFC 8259)

    The grammar as inductive predicates: [jvalue d src j] says that the
    bytes [src] are a JSON value nested at most [d] deep that denotes [j].
    The parser of JsonParse.v accepts exactly the texts of the grammar with
    nesting at most [MCP_JSON_MAX_DEPTH], and builds their denotation.
    A denotation keeps the two conventions of the code: the contents of a
    string end at the first NUL it contains ([cstr]), and a repeated key
    replaces the value of its first occurrence ([jinsert]). *)
From S2P Require Import Prelude Heap Utf8 Double JsonValue JsonParse.

Local Open Scope Z_scope.

(** ** Lexical grammar *)

Definition ws (s : bytes) : Prop := Forall (fun b => is_ws b = true) s.

Definition digits (s : bytes) : Prop := s <> [] /\ Forall (fun b => isdigit b = true) s.

(** int = zero / ( digit1-9 *DIGIT ) *)
Inductive jint : bytes -> Prop :=
| jint_zero : jint ["0"%byte]
| jint_pos b s : isdigit b = true -> b <> "0"%byte -> Forall (fun b => isdigit b = true) s -> jint (b :: s).

(** frac = decimal-point 1*DIGIT *)
Inductive jfrac : bytes -> Prop :=
| jfrac_none : jfrac []
| jfrac_some s : digits s -> jfrac ("."%byte :: s).

(** exp = e [ minus / plus ] 1*DIGIT *)
Inductive jexp : bytes -> Prop :=
| jexp_none : jexp []
| jexp_some e sg s :
    e = "e"%byte \/ e = "E"%byte -> sg = [] \/ sg = ["+"%byte] \/ sg = ["-"%byte] -> digits s ->
    jexp (e :: sg ++ s).

(** number = [ minus ] int [ frac ] [ exp ] *)
Inductive jnumber : bytes -> Prop :=
| jnumber_intro sg i f e :
    sg = [] \/ sg = ["-"%byte] -> jint i -> jfrac f -> jexp e -> jnumber (sg ++ i ++ f ++ e).

(** Four hexadecimal digits and their value. *)
Inductive hex4 : bytes -> Z -> Prop :=
| hex4_intro a b c d x y z w :
    hex_val a = Some x -> hex_val b = Some y -> hex_val c = Some z -> hex_val d = Some w ->
    hex4 [a; b; c; d] (((x * 16 + y) * 16 + z) * 16 + w).

(** The digits after \u and the scalar value they stand for. *)
Inductive ucode : bytes -> Z -> Prop :=
| ucode_bmp u v : hex4 u v -> ~ (0xD800 <= v <= 0xDFFF) -> ucode u v
| ucode_pair u1 u2 hi lo :
    hex4 u1 hi -> hex4 u2 lo -> 0xD800 <= hi <= 0xDBFF -> 0xDC00 <= lo <= 0xDFFF ->
    ucode (u1 ++ [x5c; "u"%byte] ++ u2) (0x10000 + (hi - 0xD800) * 0x400 + (lo - 0xDC00)).

(** The characters between the quotes and the bytes they decode to. *)
Inductive jchars : bytes -> bytes -> Prop :=
| jchars_nil : jchars [] []
| jchars_plain c s d :
    c <> x22 -> c <> x5c -> 0x20 <= b2z c -> jchars s d -> jchars (c :: s) (c :: d)
| jchars_esc e x s d :
    simple_escape e = Some x -> jchars s d -> jchars (x5c :: e :: s) (x :: d)
| jchars_u u cp s d :
    ucode u cp -> jchars s d -> jchars (x5c :: "u"%byte :: u ++ s) (utf8_encode cp ++ d).

(** ** Values *)

Inductive jvalue : Z -> bytes -> json -> Prop :=
| jv_null d : jvalue d (cs "null") JNull
| jv_true d : jvalue d (cs "true") (JBool true)
| jv_false d : jvalue d (cs "false") (JBool false)
| jv_number d t x :
    jnumber t -> (strtod t).1 = x -> isfinite x = true -> jvalue d t (JNumber x)
| jv_string d src s :
    jchars src s -> utf8_valid s = true -> jvalue d (x22 :: src ++ [x22]) (JString (cstr s))
| jv_array0 d w : 0 < d -> ws w -> jvalue d ("["%byte :: w ++ ["]"%byte]) (JArray [])
| jv_array d src l :
    0 < d -> jitems (d - 1) src l -> jvalue d ("["%byte :: src ++ ["]"%byte]) (JArray l)
| jv_object0 d w : 0 < d -> ws w -> jvalue d ("{"%byte :: w ++ ["}"%byte]) (JObject [])
| jv_object d src l :
    0 < d -> jmembers (d - 1) src l ->
    jvalue d ("{"%byte :: src ++ ["}"%byte])
      (JObject (foldl (fun acc kv => jinsert (cstr kv.1) kv.2 acc) [] l))

with jitems : Z -> bytes -> list json -> Prop :=
| ji_one d w1 src w2 j :
    ws w1 -> jvalue d src j -> ws w2 -> jitems d (w1 ++ src ++ w2) [j]
| ji_cons d w1 src w2 j rest l :
    ws w1 -> jvalue d src j -> ws w2 -> jitems d rest l ->
    jitems d (w1 ++ src ++ w2 ++ ","%byte :: rest) (j :: l)

with jmembers : Z -> bytes -> list (bytes * json) -> Prop :=
| jm_one d w1 ksrc key w2 w3 src w4 j :
    ws w1 -> jchars ksrc key -> utf8_valid key = true -> ws w2 -> ws w3 -> jvalue d src j -> ws w4 ->
    jmembers d (w1 ++ x22 :: ksrc ++ x22 :: w2 ++ ":"%byte :: w3 ++ src ++ w4) [(key, j)]
| jm_cons d w1 ksrc key w2 w3 src w4 j rest l :
    ws w1 -> jchars ksrc key -> utf8_valid key = true -> ws w2 -> ws w3 -> jvalue d src j -> ws w4 ->
    jmembers d rest l ->
    jmembers d (w1 ++ x22 :: ksrc ++ x22 :: w2 ++ ":"%byte :: w3 ++ src ++ w4 ++ ","%byte :: rest)
      ((key, j) :: l).

Scheme jvalue_mut := Minimality for jvalue Sort Prop
  with jitems_mut := Minimality for jitems Sort Prop
  with jmembers_mut := Minimality for jmembers Sort Prop.
Combined Scheme json_mut from jvalue_mut, jitems_mut, jmembers_mut.

(** A JSON text: a value surrounded by white space. *)
Definition jtext (d : Z) (text : bytes) (j : json) : Prop :=
  exists w1 src w2, ws w1 /\ ws w2 /\ text = w1 ++ src ++ w2 /\ jvalue d src j.

(** ** White space *)

Lemma skip_ws_app w p : ws w -> skip_ws (w ++ p) = skip_ws p.
Proof. induction 1 as [|b w Hb _ IH]; [done|]. simpl. by rewrite Hb. Qed.

Lemma skip_ws_split p : exists w, ws w /\ p = w ++ skip_ws p.
Proof.
  induction p as [|b p (w & Hw & IH)]; [exists []; by split; [constructor|]|].
  simpl. destruct (is_ws b) eqn:E.
  - exists (b :: w). split; [by constructor|]. simpl. by f_equal.
  - exists []. by split; [constructor|].
Qed.

Lemma skip_ws_nil p : skip_ws p = [] -> ws p.
Proof.
  intros H. destruct (skip_ws_split p) as (w & Hw & Heq). by rewrite Heq, H, app_nil_r.
Qed.

(** Text that no white space starts. *)
Definition nows (p : bytes) : Prop := match p with b :: _ => is_ws b = false | [] => True end.

Lemma skip_ws_nows p : nows p -> skip_ws p = p.
Proof. destruct p; simpl; [done|]. by intros ->. Qed.

(** ** Numbers *)

(** What may follow a number: anything the scanner cannot take for more of it. *)
Definition follow (rest : bytes) : Prop :=
  match rest with
  | b :: _ => isdigit b = false /\ b <> "."%byte /\ b <> "e"%byte /\ b <> "E"%byte
  | [] => True
  end.

Definition nodigit (rest : bytes) : Prop :=
  match rest with b :: _ => isdigit b = false | [] => True end.

Lemma span_digits_eq s rest :
  Forall (fun b => isdigit b = true) s -> nodigit rest -> span_digits (s ++ rest) = (s, rest).
Proof.
  intros Hs Hr. induction Hs as [|b s Hb _ IH]; simpl.
  - destruct rest as [|b rest]; [done|]. simpl in *. by rewrite Hr.
  - by rewrite Hb, IH.
Qed.

Lemma span_digits_Forall s : Forall (fun b => isdigit b = true) (span_digits s).1.
Proof.
  pose proof (span_digits_isdigit s) as H. apply Forall_forall. intros b Hb%list_elem_of_In.
  by apply (proj1 (forallb_forall _ _) H).
Qed.

Lemma follow_nodigit rest : follow rest -> nodigit rest.
Proof. destruct rest; simpl; naive_solver. Qed.

Lemma jint_nonempty i : jint i -> exists b s, i = b :: s /\ Forall (fun b => isdigit b = true) i.
Proof. destruct 1; eexists _, _; (split; [done|]); by repeat constructor. Qed.

Lemma jexp_nodigit e rest : jexp e -> follow rest -> nodigit (e ++ rest) /\ head (e ++ rest) <> Some "."%byte.
Proof.
  intros [|x sg s Hx _ _] Hr; simpl.
  - destruct rest; simpl in *; naive_solver.
  - destruct Hx as [-> | ->]; done.
Qed.

Lemma jfrac_nodigit f rest : jfrac f -> nodigit rest -> nodigit (f ++ rest).
Proof. by intros [|s Hs] Hr. Qed.

Lemma scan_int_sound s s' : scan_int s = Some s' -> exists i, s = i ++ s' /\ jint i.
Proof.
  destruct s as [|b s]; cbn [scan_int]; [done|].
  destruct (Byte.eqb b "0"%byte) eqn:E0.
  { apply byte_eqb_eq in E0 as ->. intros; simplify_eq. exists ["0"%byte]. split; [done|constructor]. }
  destruct ((0x31 <=? b2z b) && (b2z b <=? 0x39)) eqn:E1; [|done]. bool_props.
  assert (isdigit b = true) as Hb by (unfold isdigit; lia). cbn [span_digits]. rewrite Hb.
  pose proof (span_digits_Forall s) as Hs.
  destruct (span_digits s) as [d r] eqn:Es. apply span_digits_app in Es as ->. simpl in *.
  intros; simplify_eq. exists (b :: d). split; [done|].
  constructor; [done|by apply byte_eqb_neq|done].
Qed.

Lemma scan_int_complete i rest : jint i -> nodigit rest -> scan_int (i ++ rest) = Some rest.
Proof.
  intros [|b s Hb Hb0 Hs] Hr; [done|]. cbn [app scan_int].
  replace (Byte.eqb b "0"%byte) with false by (symmetry; by apply byte_eqb_neq).
  assert ((0x31 <=? b2z b) && (b2z b <=? 0x39) = true) as ->.
  { assert (b2z b <> 0x30) by (intros H; apply Hb0, b2z_inj; done). unfold isdigit in Hb. lia. }
  rewrite app_comm_cons, span_digits_eq; [done|by constructor|done].
Qed.

Lemma span_digits_none s : length (span_digits s).2 <> length s -> digits (span_digits s).1.
Proof.
  intros H. split; [|apply span_digits_Forall].
  destruct (span_digits s) as [d r] eqn:E. apply span_digits_app in E as ->. simpl in *.
  intros ->. done.
Qed.

Lemma scan_frac_sound s s' : scan_frac s = Some s' -> exists f, s = f ++ s' /\ jfrac f.
Proof.
  destruct s as [|b f]; cbn [scan_frac]; [intros; simplify_eq; by exists []; split; [|constructor]|].
  destruct (Byte.eqb b "."%byte) eqn:E; [|intros; simplify_eq; by exists []; split; [|constructor]].
  apply byte_eqb_eq in E as ->. destruct (Nat.eqb _ _) eqn:El; [done|]. bool_props.
  apply span_digits_none in El. destruct (span_digits f) as [d r] eqn:Ef.
  apply span_digits_app in Ef as ->. simpl in *. intros; simplify_eq.
  exists ("."%byte :: d). split; [done|]. by constructor.
Qed.

Lemma scan_frac_complete f rest :
  jfrac f -> nodigit rest -> head rest <> Some "."%byte -> scan_frac (f ++ rest) = Some rest.
Proof.
  intros [|s [Hne Hs]] Hr Hd; cbn [app scan_frac].
  - destruct rest as [|b rest]; [done|]. simpl.
    replace (Byte.eqb b "."%byte) with false; [done|]. symmetry. apply byte_eqb_neq. simpl in Hd. congruence.
  - rewrite byte_eqb_refl, span_digits_eq by done. simpl. rewrite length_app.
    destruct s; [done|]. simpl. replace (Nat.eqb _ _) with false; [done|].
    symmetry. apply Nat.eqb_neq. lia.
Qed.

Lemma scan_exp_sound s s' : scan_exp s = Some s' -> exists e, s = e ++ s' /\ jexp e.
Proof.
  destruct s as [|b s]; cbn [scan_exp]; [intros; simplify_eq; by exists []; split; [|constructor]|].
  destruct (Byte.eqb b "e"%byte || Byte.eqb b "E"%byte) eqn:E;
    [|intros; simplify_eq; by exists []; split; [|constructor]].
  assert (b = "e"%byte \/ b = "E"%byte) as Hb by (apply orb_true_iff in E as [E|E]; bool_props; auto).
  assert (exists sg t, s = sg ++ t /\ (sg = [] \/ sg = ["+"%byte] \/ sg = ["-"%byte]) /\
    match s with
    | c :: s2 => if Byte.eqb c "+"%byte || Byte.eqb c "-"%byte then s2 else s
    | [] => s
    end = t) as (sg & t & -> & Hsg & ->).
  { destruct s as [|c s]; [by exists [], []; auto|].
    destruct (Byte.eqb c "+"%byte || Byte.eqb c "-"%byte) eqn:Ec; [|by exists [], (c :: s); auto].
    exists [c], s. split; [done|]. split; [|done].
    apply orb_true_iff in Ec as [Ec|Ec]; bool_props; subst; auto. }
  destruct (Nat.eqb _ _) eqn:El; [done|]. bool_props. apply span_digits_none in El.
  destruct (span_digits t) as [d r] eqn:Et. apply span_digits_app in Et as ->. simpl in *.
  intros; simplify_eq. exists (b :: sg ++ d). split; [simpl; by rewrite app_assoc|]. by constructor.
Qed.

Lemma scan_exp_complete e rest : jexp e -> follow rest -> scan_exp (e ++ rest) = Some rest.
Proof.
  intros [|x sg s Hx Hsg [Hne Hs]] Hr; cbn [app scan_exp].
  - destruct rest as [|b rest]; [done|]. simpl in *. destruct Hr as (_ & _ & H1 & H2).
    apply byte_eqb_neq in H1 as ->, H2 as ->. done.
  - assert (Byte.eqb x "e"%byte || Byte.eqb x "E"%byte = true) as -> by (destruct Hx; by subst).
    assert (match (sg ++ s) ++ rest with
            | c :: s2 => if Byte.eqb c "+"%byte || Byte.eqb c "-"%byte then s2 else (sg ++ s) ++ rest
            | [] => (sg ++ s) ++ rest
            end = s ++ rest) as ->.
    { destruct_or! Hsg; subst; simpl; [|done..]. destruct s as [|c s]; [done|]. simpl.
      apply Forall_cons in Hs as [Hc _].
      replace (Byte.eqb c "+"%byte) with false; [replace (Byte.eqb c "-"%byte) with false; [done|]|].
      all: symmetry; apply byte_eqb_neq; intros ->; done. }
    rewrite span_digits_eq by (done || by apply follow_nodigit). simpl. rewrite length_app.
    destruct s; [done|]. simpl. replace (Nat.eqb _ _) with false; [done|].
    symmetry. apply Nat.eqb_neq. lia.
Qed.

Lemma scan_number_sound p n : scan_number p = Some n -> jnumber (take n p).
Proof.
  unfold scan_number. intros H.
  set (s := match p with b :: p' => if Byte.eqb b "-"%byte then p' else p | [] => p end) in *.
  assert (exists sg, p = sg ++ s /\ (sg = [] \/ sg = ["-"%byte])) as (sg & Hp & Hsg).
  { destruct p as [|b p]; [by exists []; auto|]. unfold s.
    destruct (Byte.eqb b "-"%byte) eqn:Eb; [|by exists []; auto].
    bool_props. subst. exists ["-"%byte]; auto. }
  destruct (scan_int s) as [s1|] eqn:E1; [|done]. destruct (scan_frac s1) as [s2|] eqn:E2; [|done].
  destruct (scan_exp s2) as [s3|] eqn:E3; [|done]. simplify_eq.
  apply scan_int_sound in E1 as (i & Hs & Hi). apply scan_frac_sound in E2 as (f & -> & Hf).
  apply scan_exp_sound in E3 as (e & -> & He). rewrite Hs in Hp.
  replace p with ((sg ++ i ++ f ++ e) ++ s3) by (rewrite Hp, <- !app_assoc; done).
  rewrite length_app, Nat.add_sub, take_app_length. by constructor.
Qed.

Lemma scan_number_complete t rest :
  jnumber t -> follow rest -> scan_number (t ++ rest) = Some (length t).
Proof.
  intros [sg i f e Hsg Hi Hf He] Hr. unfold scan_number.
  assert (match (sg ++ i ++ f ++ e) ++ rest with
          | b :: p' => if Byte.eqb b "-"%byte then p' else (sg ++ i ++ f ++ e) ++ rest
          | [] => (sg ++ i ++ f ++ e) ++ rest
          end = i ++ f ++ e ++ rest) as ->.
  { destruct Hsg as [-> | ->]; simpl; [|by rewrite <- !app_assoc].
    destruct (jint_nonempty i Hi) as (b & s & -> & [Hb _]%Forall_cons). simpl.
    replace (Byte.eqb b "-"%byte) with false; [by rewrite <- !app_assoc|].
    symmetry. apply byte_eqb_neq. intros ->. done. }
  destruct (jexp_nodigit e rest He Hr) as [Hd Hp].
  rewrite scan_int_complete by (done || by apply jfrac_nodigit).
  rewrite scan_frac_complete by done. rewrite scan_exp_complete by done.
  rewrite length_app. f_equal. lia.
Qed.

(** [strtod] on a JSON number consumes all of it. *)
Definition frac_digits (f : bytes) : bytes := tail f.

Definition exp_value (e : bytes) : Z := (strtod_exp e).1.

Lemma strtod_exp_all e : jexp e -> (strtod_exp e).2 = [].
Proof.
  intros [|x sg s Hx Hsg [Hne Hs]]; [done|]. cbn [strtod_exp].
  assert (Byte.eqb x "e"%byte || Byte.eqb x "E"%byte = true) as -> by (destruct Hx; by subst).
  assert ((strtod_sign (sg ++ s)).2 = s) as Hss.
  { destruct_or! Hsg; subst; simpl; [|done..]. destruct s as [|c s]; [done|]. simpl.
    apply Forall_cons in Hs as [Hc _].
    destruct (Byte.eqb c "-"%byte) eqn:E1; [bool_props; by subst|].
    destruct (Byte.eqb c "+"%byte) eqn:E2; [bool_props; by subst|]. done. }
  destruct (strtod_sign (sg ++ s)) as [neg s1]. simpl in Hss. subst s1.
  pose proof (span_digits_eq s [] Hs I) as Hsp. rewrite app_nil_r in Hsp. rewrite Hsp.
  by destruct s.
Qed.

Lemma strtod_number sg i f e :
  sg = [] \/ sg = ["-"%byte] -> jint i -> jfrac f -> jexp e ->
  strtod (sg ++ i ++ f ++ e) =
    (decimal_double (bool_decide (sg = ["-"%byte])) (dval (i ++ frac_digits f))
       (exp_value e - Z.of_nat (length (frac_digits f))), []).
Proof.
  intros Hsg Hi Hf He. unfold strtod.
  destruct (jint_nonempty i Hi) as (b & s & Hbs & Hid).
  assert (strtod_sign (sg ++ i ++ f ++ e) = (bool_decide (sg = ["-"%byte]), i ++ f ++ e)) as ->.
  { destruct Hsg as [-> | ->]; simpl; [|done]. subst i. simpl. apply Forall_cons in Hid as [Hb _].
    destruct (Byte.eqb b "-"%byte) eqn:E1; [bool_props; by subst|].
    destruct (Byte.eqb b "+"%byte) eqn:E2; [bool_props; by subst|]. done. }
  destruct (jexp_nodigit e [] He I) as [Hd Hp]. rewrite app_nil_r in Hd, Hp.
  rewrite span_digits_eq by (done || by apply jfrac_nodigit).
  assert (strtod_frac (f ++ e) = (frac_digits f, e)) as ->.
  { destruct Hf as [|s' [_ Hs']]; simpl.
    - destruct e as [|c e]; [done|]. simpl in *.
      destruct (Byte.eqb c "."%byte) eqn:E1; [bool_props; by subst|]. done.
    - by apply span_digits_eq. }
  unfold exp_value. pose proof (strtod_exp_all e He). destruct (strtod_exp e) as [ex rest].
  simpl in *. subst rest. destruct (i ++ frac_digits f) eqn:E; [by rewrite Hbs in E|done].
Qed.

Lemma strtod_number_rest t : jnumber t -> (strtod t).2 = [].
Proof. intros [sg i f e ? ? ? ?]. by rewrite strtod_number. Qed.

(** ** Strings *)

Lemma hex_val_range c x : hex_val c = Some x -> 0 <= x < 16.
Proof. unfold hex_val. intros H. repeat case_match; simplify_eq; bool_props; lia. Qed.

Lemma hex_shift v x : 0 <= v < 0x1000 -> 0 <= x < 16 ->
  Z.lor (Z.shiftl v 4 mod 2 ^ 32) x = v * 16 + x.
Proof.
  intros Hv Hx. rewrite Z.mod_small.
  - by rewrite lor_add_disjoint.
  - rewrite Z.shiftl_mul_pow2 by lia. lia.
Qed.

Lemma parse_hex4_iff p v p' :
  parse_hex4 p = Some (v, p') <-> exists u, p = u ++ p' /\ hex4 u v.
Proof.
  unfold parse_hex4. split.
  - destruct (Nat.ltb (length p) 4) eqn:El; [done|]. bool_props.
    destruct p as [|a [|b [|c [|d p]]]]; simpl in El; try lia. cbn [hex_loop].
    destruct (hex_val a) as [x|] eqn:Ea; [|done]. destruct (hex_val b) as [y|] eqn:Eb; [|done].
    destruct (hex_val c) as [z|] eqn:Ec; [|done]. destruct (hex_val d) as [w|] eqn:Ed; [|done].
    pose proof (hex_val_range _ _ Ea). pose proof (hex_val_range _ _ Eb).
    pose proof (hex_val_range _ _ Ec). pose proof (hex_val_range _ _ Ed).
    change (Z.shiftl 0 4 mod 2 ^ 32) with 0. rewrite Z.lor_0_l.
    rewrite (hex_shift x y), (hex_shift (x * 16 + y) z), (hex_shift ((x * 16 + y) * 16 + z) w) by lia.
    intros; simplify_eq. exists [a; b; c; d]. split; [done|]. by constructor.
  - intros (u & -> & [a b c d x y z w Ea Eb Ec Ed]). simpl.
    rewrite Ea, Eb, Ec, Ed.
    pose proof (hex_val_range _ _ Ea). pose proof (hex_val_range _ _ Eb).
    pose proof (hex_val_range _ _ Ec). pose proof (hex_val_range _ _ Ed).
    change (Z.shiftl 0 4 mod 2 ^ 32) with 0. rewrite Z.lor_0_l.
    by rewrite (hex_shift x y), (hex_shift (x * 16 + y) z), (hex_shift ((x * 16 + y) * 16 + z) w) by lia.
Qed.

Lemma hex4_range u v : hex4 u v -> 0 <= v < 0x10000 /\ length u = 4%nat.
Proof.
  intros [a b c d x y z w Ea Eb Ec Ed].
  pose proof (hex_val_range _ _ Ea). pose proof (hex_val_range _ _ Eb).
  pose proof (hex_val_range _ _ Ec). pose proof (hex_val_range _ _ Ed). split; [lia|done].
Qed.

Lemma unicode_escape_sound p cp p' :
  unicode_escape p = Some (cp, p') -> exists u, p = u ++ p' /\ ucode u cp.
Proof.
  unfold unicode_escape. intros H. destruct (parse_hex4 p) as [[hi q]|] eqn:E; [|done].
  apply parse_hex4_iff in E as (u & -> & Hu). pose proof (hex4_range _ _ Hu) as [Hr _].
  destruct ((0xD800 <=? hi) && (hi <=? 0xDBFF)) eqn:E1; bool_props.
  - destruct q as [|b0 [|b1 q']]; [done..|].
    destruct (Nat.ltb _ _ || _ || _) eqn:E2; [done|]. bool_props. subst.
    destruct (parse_hex4 q') as [[lo q2]|] eqn:E3; [|done].
    apply parse_hex4_iff in E3 as (u2 & -> & Hu2).
    destruct ((lo <? 0xDC00) || (0xDFFF <? lo)) eqn:E4; [done|]. bool_props.
    destruct (0x10FFFF <? _) eqn:E5; [done|]. simplify_eq.
    exists (u ++ [x5c; "u"%byte] ++ u2). split; [by rewrite <- !app_assoc|].
    rewrite Z.shiftl_mul_pow2 by lia. by constructor.
  - destruct ((0xDC00 <=? hi) && (hi <=? 0xDFFF)) eqn:E2; [done|].
    destruct (0x10FFFF <? hi); [done|]. simplify_eq.
    exists u. split; [done|]. constructor; [done|]. lia.
Qed.

Lemma unicode_escape_complete u cp p' :
  ucode u cp -> unicode_escape (u ++ p') = Some (cp, p').
Proof.
  unfold unicode_escape. intros [v w Hu Hn|u1 u2 hi lo H1 H2 Hhi Hlo].
  - pose proof (hex4_range _ _ Hu) as [Hr _].
    replace (parse_hex4 (v ++ p')) with (Some (w, p')) by (symmetry; apply parse_hex4_iff; eauto).
    replace ((0xD800 <=? w) && (w <=? 0xDBFF)) with false by lia.
    replace ((0xDC00 <=? w) && (w <=? 0xDFFF)) with false by lia.
    by replace (0x10FFFF <? w) with false by lia.
  - rewrite <- !app_assoc.
    replace (parse_hex4 (u1 ++ _)) with (Some (hi, [x5c; "u"%byte] ++ u2 ++ p'))
      by (symmetry; apply parse_hex4_iff; eauto).
    replace ((0xD800 <=? hi) && (hi <=? 0xDBFF)) with true by lia. cbn [app].
    replace (Nat.ltb _ 6) with false.
    2: { symmetry. apply Nat.ltb_ge. apply hex4_range in H2 as [_ H2]. simpl. rewrite length_app. lia. }
    rewrite !byte_eqb_refl. cbn [negb orb].
    replace (parse_hex4 (u2 ++ p')) with (Some (lo, p')) by (symmetry; apply parse_hex4_iff; eauto).
    replace ((lo <? 0xDC00) || (0xDFFF <? lo)) with false by lia.
    rewrite Z.shiftl_mul_pow2 by lia. change (2 ^ 10) with 0x400.
    by replace (0x10FFFF <? _) with false by lia.
Qed.

Lemma ucode_scalar u cp : ucode u cp -> scalar cp.
Proof.
  unfold scalar. intros [v w Hu Hn|u1 u2 hi lo H1 H2 Hhi Hlo]; [|lia].
  apply hex4_range in Hu as [? _]. lia.
Qed.

Lemma string_loop_sound fuel p b h rest b' h' :
  string_loop fuel p b h = (Some (true, rest, b'), h') -> ginv b -> gok b' = true ->
  gok b = true /\ exists src d, p = src ++ x22 :: rest /\ jchars src d /\ gdata b' = gdata b ++ d.
Proof.
  revert p b h. induction fuel as [|fuel IH]; intros p b h H Hb Hok; cbn [string_loop] in H; [by minv H|].
  destruct p as [|c p]; [by minv H|].
  destruct (Byte.eqb c x22) eqn:Eq.
  { bool_props. minv H. simplify_eq. split; [done|]. exists [], []. rewrite app_nil_r.
    split; [done|]. split; [constructor|done]. }
  apply byte_eqb_neq in Eq. destruct (Byte.eqb c x5c) eqn:Es.
  - bool_props. subst c. destruct p as [|e p]; [by minv H|].
    destruct (Byte.eqb e "u"%byte) eqn:Eu.
    + bool_props. subst e. apply bind_inv in H as ([q b1] & h1 & E & H).
      apply parse_unicode_escape_spec in E as (_ & Hb1 & Hq & _); [|done].
      destruct q as [q|]; [|by minv H]. destruct Hq as (cp & Hu & Hok0 & _ & Hd).
      apply unicode_escape_sound in Hu as (u & -> & Hu).
      apply IH in H as (_ & src & d & -> & Hsrc & Hd'); [|done..]. split; [done|].
      exists (x5c :: "u"%byte :: u ++ src), (utf8_encode cp ++ d).
      split; [simpl; by rewrite <- app_assoc|]. split; [by constructor|].
      by rewrite Hd', Hd, app_assoc.
    + destruct (simple_escape e) as [x|] eqn:Ee; [|by minv H].
      apply bind_inv in H as (b1 & h1 & E & H).
      apply grow_append_spec in E as (_ & Hb1 & Hd & _); [|done].
      destruct (gok b1) eqn:Eo; simpl in H; [|by minv H]. destruct Hd as [Hok0 Hd]; [done|].
      apply IH in H as (_ & src & d & -> & Hsrc & Hd'); [|done..]. split; [done|].
      exists (x5c :: e :: src), (x :: d). split; [done|]. split; [by constructor|].
      by rewrite Hd', Hd, <- app_assoc.
  - apply byte_eqb_neq in Es. destruct (b2z c <? 32) eqn:Ec; [by minv H|]. bool_props.
    apply bind_inv in H as (b1 & h1 & E & H).
    apply grow_append_spec in E as (_ & Hb1 & Hd & _); [|done].
    apply IH in H as (Hok1 & src & d & -> & Hsrc & Hd'); [|done..].
    destruct Hd as [Hok0 Hd]; [done|]. split; [done|].
    exists (c :: src), (c :: d). split; [done|]. split; [by constructor|].
    by rewrite Hd', Hd, <- app_assoc.
Qed.

Lemma parse_string_raw_sound c p h s rest h' :
  parse_string_raw (c :: p) h = (Got (s, rest), h') ->
  utf8_valid s = true /\ exists src, p = src ++ x22 :: rest /\ jchars src s.
Proof.
  intros H. pose proof H as Hp. apply parse_string_raw_spec in Hp as (_ & Hu & _); [|done].
  split; [done|]. unfold parse_string_raw in H. cbn [tail] in H.
  apply bind_inv in H as (r1 & h1 & E & H). pose proof E as Es. apply string_loop_spec in Es; [|done].
  destruct r1 as [[[closed r] b]|]; [|by minv H]. destruct Es as (_ & Hb & _).
  destruct closed; simpl in H; [|by minv H].
  destruct (negb (gok b) || negb (utf8_valid (gdata b))) eqn:Eu; [by minv H|]. bool_props.
  apply string_loop_sound in E as (_ & src & d & -> & Hsrc & Hd); [|done..]. simpl in Hd. subst d.
  unfold isnull0 in H. destruct (Nat.eqb (gcap b) 0) eqn:Ec; bool_props.
  - apply bind_inv in H as (ok & h2 & E2 & H). minv H. destruct ok; [|done]. simplify_eq.
    exists src. split; [done|]. by rewrite (Hb Ec) in Hsrc.
  - minv H. simplify_eq. eauto.
Qed.

(** ** Soundness: what is parsed is in the grammar *)

Lemma literal_sound d p p' lit v h w rest h' :
  match_lit p lit = Some p' -> blocks v = 1 ->
  (v <- value_new v ;; ret (match v with Some v => Got (v, p') | None => Null end)) h = (Got (w, rest), h') ->
  jvalue d lit (erase v) -> exists src, p = src ++ rest /\ jvalue d src (erase w).
Proof.
  intros Hm Hb H Hj. apply bind_inv in H as (o & h1 & E & H). minv H. apply match_lit_length in Hm.
  apply value_new_spec in E as (_ & [-> | ->] & _); [done| |done]. simplify_eq. eauto.
Qed.

Definition sound_at (fuel : nat) : Prop :=
  (forall d p h v rest h', parse_value fuel d p h = (Got (v, rest), h') ->
     exists src, p = src ++ rest /\ jvalue (MCP_JSON_MAX_DEPTH - d) src (erase v)) /\
  (forall d c p h v rest h', parse_array fuel d (c :: p) h = (Got (v, rest), h') ->
     exists src, p = src ++ rest /\ jvalue (MCP_JSON_MAX_DEPTH - d) ("["%byte :: src) (erase v)) /\
  (forall d c l p h v rest h', array_loop fuel d (VArray c l) p h = (Got (v, rest), h') ->
     wf (VArray c l) ->
     exists src l', p = src ++ "]"%byte :: rest /\ jitems (MCP_JSON_MAX_DEPTH - d) src l' /\
                    erase v = JArray (map erase l ++ l')) /\
  (forall d c p h v rest h', parse_object fuel d (c :: p) h = (Got (v, rest), h') ->
     exists src, p = src ++ rest /\ jvalue (MCP_JSON_MAX_DEPTH - d) ("{"%byte :: src) (erase v)) /\
  (forall d c l p h v rest h', object_loop fuel d (VObject c l) p h = (Got (v, rest), h') ->
     wf (VObject c l) ->
     exists src l', p = src ++ "}"%byte :: rest /\ jmembers (MCP_JSON_MAX_DEPTH - d) src l' /\
       erase v = JObject (foldl (fun acc kv => jinsert (cstr kv.1) kv.2 acc) (map emember l) l')).

Lemma parse_value_wf fuel d p h v rest h' :
  parse_value fuel d p h = (Got (v, rest), h') -> wf v.
Proof. intros H. destruct (parse_value_post fuel) as (Hv & _). by apply Hv in H as (_ & ? & _). Qed.

Lemma array_loop_sound fuel d c l p h v rest h' :
  sound_at fuel -> array_loop (S fuel) d (VArray c l) p h = (Got (v, rest), h') -> wf (VArray c l) ->
  exists src l', p = src ++ "]"%byte :: rest /\ jitems (MCP_JSON_MAX_DEPTH - d) src l' /\
                 erase v = JArray (map erase l ++ l').
Proof.
  intros (IHv & _ & IHl & _) H Hwf. cbn [array_loop] in H.
  destruct (skip_ws_split p) as (w1 & Hw1 & Hp). set (p1 := skip_ws p) in *.
  apply bind_inv in H as (r1 & h1 & E & H). destruct r1 as [| |[item p2]]; [by minv H|by minv H|].
  pose proof (parse_value_wf _ _ _ _ _ _ _ E) as Hwi. apply IHv in E as (src & Hp1 & Hj).
  apply bind_inv in H as ([st o] & h2 & E & H).
  apply array_append_spec in E as (c' & l' & -> & Hwf' & _ & Hl' & _); [|done..].
  destruct (skip_ws_split p2) as (w2 & Hw2 & Hp2). set (p3 := skip_ws p2) in *.
  destruct st; try (by minv H). destruct (decide (MCP_OK = MCP_OK)); [|done]. subst l'.
  destruct (head_is p3 ","%byte) eqn:Ec.
  - apply head_is_spec in Ec as (p4 & Hp3). rewrite Hp3 in H. cbn [tail] in H.
    apply IHl in H as (srcs & js & -> & Hjs & Hv); [|done].
    exists (w1 ++ src ++ w2 ++ ","%byte :: srcs), (erase item :: js). split.
    + rewrite Hp, Hp1, Hp2, Hp3. by rewrite <- !app_assoc.
    + split; [by constructor|]. rewrite Hv, map_app, <- app_assoc. done.
  - destruct (head_is p3 "]"%byte) eqn:Eb; [|by minv H]. apply head_is_spec in Eb as (p4 & Hp3).
    minv H. simplify_eq. exists (w1 ++ src ++ w2), [erase item]. rewrite Hp3. split.
    + rewrite Hp, Hp1, Hp2, Hp3. by rewrite <- !app_assoc.
    + split; [by constructor|]. simpl. by rewrite map_app.
Qed.

Lemma object_loop_sound fuel d c l p h v rest h' :
  sound_at fuel -> object_loop (S fuel) d (VObject c l) p h = (Got (v, rest), h') -> wf (VObject c l) ->
  exists src l', p = src ++ "}"%byte :: rest /\ jmembers (MCP_JSON_MAX_DEPTH - d) src l' /\
    erase v = JObject (foldl (fun acc kv => jinsert (cstr kv.1) kv.2 acc) (map emember l) l').
Proof.
  intros (IHv & _ & _ & _ & IHl) H Hwf. cbn [object_loop] in H.
  destruct (skip_ws_split p) as (w1 & Hw1 & Hp). set (p1 := skip_ws p) in *.
  destruct (head_is p1 x22) eqn:Eq; cbn [negb] in H; [|by minv H].
  apply head_is_spec in Eq as (p1' & Hp1). rewrite Hp1 in H.
  apply bind_inv in H as (r1 & h1 & E & H). destruct r1 as [| |[key p2]]; [by minv H|by minv H|].
  apply parse_string_raw_sound in E as (Hu & ksrc & Hp1' & Hk).
  destruct (skip_ws_split p2) as (w2 & Hw2 & Hp2). set (p3 := skip_ws p2) in *.
  destruct (head_is p3 ":"%byte) eqn:Ec; cbn [negb] in H; [|by minv H].
  apply head_is_spec in Ec as (p3' & Hp3). rewrite Hp3 in H. cbn [tail] in H.
  destruct (skip_ws_split p3') as (w3 & Hw3 & Hp3'). set (p4 := skip_ws p3') in *.
  apply bind_inv in H as (r2 & h2 & E & H). destruct r2 as [| |[val p5]]; [by minv H|by minv H|].
  pose proof (parse_value_wf _ _ _ _ _ _ _ E) as Hwv. apply IHv in E as (src & Hp4 & Hj).
  apply bind_inv in H as ([st o] & h3 & E & H).
  apply object_set_spec in E as (c' & l' & -> & Hwf' & _ & Hl' & _); [|done..].
  apply bind_inv in H as (u & h4 & _ & H).
  destruct (skip_ws_split p5) as (w4 & Hw4 & Hp5). set (p6 := skip_ws p5) in *.
  destruct st; try (by minv H). destruct (decide (MCP_OK = MCP_OK)); [|done].
  destruct (head_is p6 ","%byte) eqn:Eb.
  - apply head_is_spec in Eb as (p7 & Hp6). rewrite Hp6 in H. cbn [tail] in H.
    apply IHl in H as (srcs & ms & -> & Hms & Hv); [|done].
    exists (w1 ++ x22 :: ksrc ++ x22 :: w2 ++ ":"%byte :: w3 ++ src ++ w4 ++ ","%byte :: srcs),
      ((key, erase val) :: ms). split.
    + rewrite Hp, Hp1, Hp1', Hp2, Hp3, Hp3', Hp4, Hp5, Hp6. repeat (rewrite <- !app_assoc; cbn [app]). done.
    + split; [by constructor|]. rewrite Hv, Hl'. done.
  - destruct (head_is p6 "}"%byte) eqn:Eb'; [|by minv H]. apply head_is_spec in Eb' as (p7 & Hp6).
    minv H. simplify_eq. rewrite Hp6.
    exists (w1 ++ x22 :: ksrc ++ x22 :: w2 ++ ":"%byte :: w3 ++ src ++ w4), [(key, erase val)]. split.
    + rewrite Hp, Hp1, Hp2, Hp3, Hp3', Hp4, Hp5, Hp6. repeat (rewrite <- !app_assoc; cbn [app]). done.
    + split; [by constructor|]. rewrite erase_object, Hl'. done.
Qed.

Lemma ws_nil : ws [].
Proof. constructor. Qed.

Lemma parse_number_sound d p h v rest h' :
  parse_number p h = (Got (v, rest), h') -> exists src, p = src ++ rest /\ jvalue d src (erase v).
Proof.
  unfold parse_number. intros H. destruct (scan_number p) as [n|] eqn:En; [|by minv H].
  apply scan_number_sound in En. apply bind_inv in H as (ok & h1 & E & H).
  destruct ok; simpl in H; [|by minv H]. destruct (strtod (take n p)) as [x eptr] eqn:Es.
  apply bind_inv in H as (u & h2 & E2 & H).
  destruct (bool_decide (eptr = []) && isfinite x) eqn:Eok; simpl in H; [|by minv H]. bool_props.
  apply bind_inv in H as (o & h3 & E3 & H). minv H. apply new_number_spec in E3 as (_ & Hr & _).
  destruct Hr as [-> | [-> _]]; simplify_eq. exists (take n p). split; [by rewrite take_drop|].
  simpl. econstructor; [done| |done]. by rewrite Es.
Qed.

Lemma ws_app w1 w2 : ws w1 -> ws w2 -> ws (w1 ++ w2).
Proof. intros. by apply Forall_app. Qed.

Lemma jitems_ws d w src l : ws w -> jitems d src l -> jitems d (w ++ src) l.
Proof.
  intros Hw [w1 src0 w2 j|w1 src0 w2 j rest l0]; rewrite app_assoc; constructor; auto using ws_app.
Qed.

Lemma jmembers_ws d w src l : ws w -> jmembers d src l -> jmembers d (w ++ src) l.
Proof.
  intros Hw [|]; rewrite app_assoc; constructor; auto using ws_app.
Qed.

Lemma parse_array_sound fuel d c p h v rest h' :
  sound_at fuel -> parse_array (S fuel) d (c :: p) h = (Got (v, rest), h') ->
  exists src, p = src ++ rest /\ jvalue (MCP_JSON_MAX_DEPTH - d) ("["%byte :: src) (erase v).
Proof.
  intros (_ & _ & IHl & _) H. cbn [parse_array] in H. cbn [tail] in H.
  destruct (MCP_JSON_MAX_DEPTH <? d + 1) eqn:Ed; [by minv H|]. bool_props.
  apply bind_inv in H as (o & h1 & E & H). apply value_new_spec in E as (_ & [-> | ->] & _); [by minv H| |done].
  destruct (skip_ws_split p) as (w1 & Hw1 & Hp). set (p1 := skip_ws p) in *.
  destruct (head_is p1 "]"%byte) eqn:Eb.
  - apply head_is_spec in Eb as (p2 & Hp1). rewrite Hp1 in H. minv H. simplify_eq.
    exists (w1 ++ ["]"%byte]). split; [by rewrite Hp, Hp1, <- app_assoc|].
    simpl. constructor; [lia|done].
  - apply IHl in H as (src & l' & Hp1 & Hl' & Hv); [|by split].
    exists ((w1 ++ src) ++ ["]"%byte]). simpl in Hv. rewrite Hv.
    split; [rewrite Hp, Hp1; by rewrite <- !app_assoc|].
    constructor; [lia|]. apply jitems_ws; [done|].
    by replace (MCP_JSON_MAX_DEPTH - d - 1) with (MCP_JSON_MAX_DEPTH - (d + 1)) by lia.
Qed.

Lemma wf_empty_object : wf (VObject 0 []).
Proof. apply wf_object. split; [done|]. split; constructor. Qed.

Lemma parse_object_sound fuel d c p h v rest h' :
  sound_at fuel -> parse_object (S fuel) d (c :: p) h = (Got (v, rest), h') ->
  exists src, p = src ++ rest /\ jvalue (MCP_JSON_MAX_DEPTH - d) ("{"%byte :: src) (erase v).
Proof.
  intros (_ & _ & _ & _ & IHl) H. cbn [parse_object] in H. cbn [tail] in H.
  destruct (MCP_JSON_MAX_DEPTH <? d + 1) eqn:Ed; [by minv H|]. bool_props.
  apply bind_inv in H as (o & h1 & E & H). apply value_new_spec in E as (_ & [-> | ->] & _); [by minv H| |done].
  destruct (skip_ws_split p) as (w1 & Hw1 & Hp). set (p1 := skip_ws p) in *.
  destruct (head_is p1 "}"%byte) eqn:Eb.
  - apply head_is_spec in Eb as (p2 & Hp1). rewrite Hp1 in H. minv H. simplify_eq.
    exists (w1 ++ ["}"%byte]). split; [by rewrite Hp, Hp1, <- app_assoc|].
    simpl. constructor; [lia|done].
  - apply IHl in H as (src & l' & Hp1 & Hl' & Hv); [|apply wf_empty_object].
    exists ((w1 ++ src) ++ ["}"%byte]). simpl in Hv. rewrite Hv.
    split; [rewrite Hp, Hp1; by rewrite <- !app_assoc|].
    constructor; [lia|]. apply jmembers_ws; [done|].
    by replace (MCP_JSON_MAX_DEPTH - d - 1) with (MCP_JSON_MAX_DEPTH - (d + 1)) by lia.
Qed.

Lemma parse_value_sound fuel : sound_at fuel.
Proof.
  induction fuel as [|fuel IH].
  { split; [|split; [|split; [|split]]]; intros; simpl in H; by minv H. }
  pose proof IH as (IHv & IHa & IHal & IHo & IHol).
  split; [|split; [|split; [|split]]].
  - intros d p h v rest h' H. cbn [parse_value] in H. destruct p as [|c p]; [by minv H|].
    destruct (Byte.eqb c "n"%byte).
    { destruct (match_lit _ _) eqn:Em; [|by minv H].
      eapply (literal_sound _ _ _ _ VNull); [done|done|exact H|constructor]. }
    destruct (Byte.eqb c "t"%byte).
    { destruct (match_lit _ _) eqn:Em; [|by minv H].
      eapply (literal_sound _ _ _ _ (VBool true)); [done|done|exact H|constructor]. }
    destruct (Byte.eqb c "f"%byte).
    { destruct (match_lit _ _) eqn:Em; [|by minv H].
      eapply (literal_sound _ _ _ _ (VBool false)); [done|done|exact H|constructor]. }
    destruct (Byte.eqb c x22) eqn:Eq.
    { bool_props. subst c. apply bind_inv in H as (r1 & h1 & E & H).
      destruct r1 as [| |[s p']]; [by minv H|by minv H|].
      apply parse_string_raw_sound in E as (Hu & src & -> & Hs).
      apply bind_inv in H as (o & h2 & E & H). apply new_string_spec in E as (_ & Ho & _).
      minv H. destruct Ho as [-> | [-> _]]; simplify_eq.
      exists (x22 :: src ++ [x22]). split; [simpl; by rewrite <- app_assoc|]. by constructor. }
    destruct (Byte.eqb c "["%byte) eqn:Ea.
    { bool_props. subst c. apply IHa in H as (src & -> & Hj). by exists ("["%byte :: src). }
    destruct (Byte.eqb c "{"%byte) eqn:Eo.
    { bool_props. subst c. apply IHo in H as (src & -> & Hj). by exists ("{"%byte :: src). }
    by eapply parse_number_sound.
  - intros. by eapply parse_array_sound.
  - intros. by eapply array_loop_sound.
  - intros. by eapply parse_object_sound.
  - intros. by eapply object_loop_sound.
Qed.

Lemma builtin_parse_sound text h v h' :
  builtin_parse (Some text) h = (Got v, h') ->
  utf8_valid text = true /\ jtext MCP_JSON_MAX_DEPTH text (erase v).
Proof.
  unfold builtin_parse. destruct (utf8_valid text); cbn [negb]; intros H; [|by minv H].
  split; [done|]. destruct (skip_ws_split text) as (w1 & Hw1 & Ht). set (p := skip_ws text) in *.
  apply bind_inv in H as (r1 & h1 & E & H). destruct r1 as [| |[v1 rest]]; [by minv H|by minv H|].
  destruct (parse_value_sound (parse_fuel p)) as (Hs & _). apply Hs in E as (src & Hp & Hj).
  destruct (skip_ws rest) eqn:Er; [|by minv H]. apply skip_ws_nil in Er. minv H. simplify_eq.
  exists w1, src, rest. rewrite Ht, Hp. split; [done|]. split; [done|]. split; [done|].
  by replace (MCP_JSON_MAX_DEPTH - 0) with MCP_JSON_MAX_DEPTH in Hj by lia.
Qed.

(** ** Completeness: what is in the grammar is parsed *)

Lemma simple_escape_u e x : simple_escape e = Some x -> Byte.eqb e "u"%byte = false.
Proof.
  intros H. destruct (Byte.eqb e "u"%byte) eqn:E; [|done]. bool_props. subst. done.
Qed.

Lemma string_loop_complete src d :
  jchars src d -> forall fuel b h rest,
  ginv b -> gok b = true -> ample h -> (length src < fuel)%nat ->
  exists b' h', string_loop fuel (src ++ x22 :: rest) b h = (Some (true, rest, b'), h') /\
    gok b' = true /\ gdata b' = gdata b ++ d.
Proof.
  induction 1 as [|c s d Hc1 Hc2 Hc3 _ IH|e x s d He _ IH|u cp s d Hu _ IH];
    intros fuel b h rest Hb Hok Ha Hf; (destruct fuel as [|fuel]; [lia|]); cbn [app string_loop].
  - rewrite byte_eqb_refl. exists b, h. by rewrite app_nil_r.
  - apply byte_eqb_neq in Hc1 as ->, Hc2 as ->. rewrite (proj2 (Z.ltb_ge _ _)) by done.
    destruct (grow_append b [c] h) as [b1 h1] eqn:E. rewrite (bind_run _ _ _ _ _ E).
    apply grow_append_spec in E as (Hs & Hb1 & Hd & Hok1); [|done].
    specialize (Hok1 Ha Hok). destruct Hd as [_ Hd]; [done|]. simpl in Hf.
    destruct (IH fuel b1 h1 rest) as (b' & h' & -> & ? & Hd'); [done|done|by eapply ample_hstep|lia|].
    exists b', h'. by rewrite Hd', Hd, <- app_assoc.
  - simpl. rewrite (simple_escape_u _ _ He), He.
    destruct (grow_append b [x] h) as [b1 h1] eqn:E. rewrite (bind_run _ _ _ _ _ E).
    apply grow_append_spec in E as (Hs & Hb1 & Hd & Hok1); [|done].
    specialize (Hok1 Ha Hok). rewrite Hok1. destruct Hd as [_ Hd]; [done|]. simpl in *.
    destruct (IH fuel b1 h1 rest) as (b' & h' & -> & ? & Hd'); [done|done|by eapply ample_hstep|lia|].
    exists b', h'. by rewrite Hd', Hd, <- app_assoc.
  - simpl. rewrite <- app_assoc.
    destruct (parse_unicode_escape (u ++ s ++ x22 :: rest) b h) as [[q b1] h1] eqn:E.
    rewrite (bind_run _ _ _ _ _ E).
    apply parse_unicode_escape_spec in E as (Hs & Hb1 & Hq & Hnn); [|done].
    rewrite (unicode_escape_complete _ _ _ Hu) in *. specialize (Hnn Ha Hok ltac:(done)).
    destruct q as [q|]; [|done]. destruct Hq as (cp' & ? & _ & Hok1 & Hd). simplify_eq. simpl in Hf.
    rewrite length_app in Hf.
    destruct (IH fuel b1 h1 rest) as (b' & h' & -> & ? & Hd'); [done|done|by eapply ample_hstep|lia|].
    exists b', h'. by rewrite Hd', Hd, <- app_assoc.
Qed.

Lemma parse_string_raw_complete src s rest h :
  jchars src s -> utf8_valid s = true -> ample h ->
  exists h', parse_string_raw (x22 :: src ++ x22 :: rest) h = (Got (s, rest), h').
Proof.
  intros Hs Hu Ha. unfold parse_string_raw. cbn [tail].
  destruct (string_loop_complete src s Hs (S (length (x22 :: src ++ x22 :: rest))) empty_buf h rest)
    as (b' & h' & E & Hok & Hd); [done|done|done|simpl; rewrite length_app; lia|].
  rewrite (bind_run _ _ _ _ _ E). simpl in Hd. subst s. rewrite Hok, Hu. cbn [negb orb].
  apply string_loop_spec in E as (Hst & Hb & _); [|done].
  unfold isnull0. destruct (Nat.eqb (gcap b') 0) eqn:Ec; [|by eexists].
  bool_props. rewrite (Hb Ec). rewrite (bind_run _ _ _ _ _ (xmalloc_ample _ (ample_hstep _ _ _ Hst Ha))).
  by eexists.
Qed.

(** What may follow a value inside a text. *)
Definition delim (rest : bytes) : Prop :=
  match rest with
  | b :: _ => is_ws b = true \/ b = ","%byte \/ b = "]"%byte \/ b = "}"%byte
  | [] => True
  end.

Lemma delim_follow rest : delim rest -> follow rest.
Proof.
  destruct rest as [|b rest]; [done|]. simpl. intros H.
  assert (is_ws b = true -> isdigit b = false /\ b <> "."%byte /\ b <> "e"%byte /\ b <> "E"%byte) as Hws.
  { unfold is_ws. rewrite !orb_true_iff. intros Hb. destruct_or! Hb; bool_props; by subst. }
  destruct_or! H; [auto|by subst..].
Qed.

Lemma delim_ws w rest : ws w -> delim rest -> delim (w ++ rest).
Proof. intros [|b w' Hb _] Hr; simpl; auto. Qed.

(** The first byte of a value. *)
Definition vstart (c : byte) : bool :=
  negb (is_ws c) && negb (Byte.eqb c "]"%byte) && negb (Byte.eqb c "}"%byte).

Lemma isdigit_vstart c : isdigit c = true -> vstart c = true.
Proof.
  intros H. assert (implb (isdigit c) (vstart c) = true) as Hi; [|by rewrite H in Hi].
  clear H. revert c. apply all_bytes_forall. by vm_compute.
Qed.

Lemma jnumber_head t : jnumber t -> exists c s, t = c :: s /\ (c = "-"%byte \/ isdigit c = true).
Proof.
  intros [sg i f e Hsg Hi _ _]. destruct (jint_nonempty i Hi) as (b & s & -> & [Hb _]%Forall_cons).
  destruct Hsg as [-> | ->]; simpl; eauto.
Qed.

Lemma jvalue_head d src j : jvalue d src j -> exists c s, src = c :: s /\ vstart c = true.
Proof.
  destruct 1; try (eexists _, _; split; [reflexivity|done]).
  destruct (jnumber_head t) as (c & s & -> & [-> | Hc]); [done|by eexists _, _|].
  eexists _, _. split; [done|]. by apply isdigit_vstart.
Qed.

Lemma skip_ws_value w src rest d j :
  ws w -> jvalue d src j -> skip_ws (w ++ src ++ rest) = src ++ rest.
Proof.
  intros Hw (c & s & -> & Hc)%jvalue_head. rewrite skip_ws_app by done.
  apply skip_ws_nows. simpl. unfold vstart in Hc. bool_props. done.
Qed.

Lemma literal_run v (p' : bytes) h : ample h -> blocks v = 1 ->
  exists h', (v <- value_new v ;; ret (match v with Some v => Got (v, p') | None => Null end)) h
             = (Got (v, p'), h').
Proof.
  intros Ha Hb. destruct (value_new v h) as [o h1] eqn:E. rewrite (bind_run _ _ _ _ _ E).
  apply value_new_spec in E as (_ & _ & Ho); [|done]. rewrite (Ho Ha). by eexists.
Qed.

Lemma match_lit_app lit rest : match_lit (lit ++ rest) lit = Some rest.
Proof. unfold match_lit. rewrite take_app_length, drop_app_length. by rewrite bool_decide_true. Qed.

(** ** Completeness of values *)

Definition complete_value (d : Z) (src : bytes) (j : json) : Prop :=
  forall fuel h rest,
  ample h -> delim rest -> (3 * length (src ++ rest) + 1 <= fuel)%nat ->
  exists v h', parse_value fuel (MCP_JSON_MAX_DEPTH - d) (src ++ rest) h = (Got (v, rest), h') /\
    erase v = j.

Definition complete_items (d : Z) (src : bytes) (l : list json) : Prop :=
  forall fuel h c l0 rest,
  ample h -> wf (VArray c l0) -> (3 * length (src ++ "]"%byte :: rest) + 2 <= fuel)%nat ->
  exists v h', array_loop fuel (MCP_JSON_MAX_DEPTH - d) (VArray c l0) (src ++ "]"%byte :: rest) h
               = (Got (v, rest), h') /\
    erase v = JArray (map erase l0 ++ l).

Definition complete_members (d : Z) (src : bytes) (l : list (bytes * json)) : Prop :=
  forall fuel h c l0 rest,
  ample h -> wf (VObject c l0) -> (3 * length (src ++ "}"%byte :: rest) + 2 <= fuel)%nat ->
  exists v h', object_loop fuel (MCP_JSON_MAX_DEPTH - d) (VObject c l0) (src ++ "}"%byte :: rest) h
               = (Got (v, rest), h') /\
    erase v = JObject (foldl (fun acc kv => jinsert (cstr kv.1) kv.2 acc) (map emember l0) l).

Lemma parse_value_ample fuel d p h v rest h' :
  parse_value fuel d p h = (Got (v, rest), h') -> ample h -> ample h' /\ wf v.
Proof.
  intros H A. destruct (parse_value_post fuel) as (Hv & _). apply Hv in H as (Hs & Hw & _).
  split; [by eapply ample_hstep|done].
Qed.

Lemma complete_number d t x :
  jnumber t -> (strtod t).1 = x -> isfinite x = true -> complete_value d t (JNumber x).
Proof.
  intros Ht Hx Hfin fuel h rest Ha Hd Hf. destruct fuel as [|fuel]; [lia|].
  destruct (jnumber_head t Ht) as (c & s & -> & Hc). cbn [app parse_value].
  assert (Byte.eqb c "n"%byte = false /\ Byte.eqb c "t"%byte = false /\ Byte.eqb c "f"%byte = false /\
          Byte.eqb c x22 = false /\ Byte.eqb c "["%byte = false /\ Byte.eqb c "{"%byte = false)
    as (-> & -> & -> & -> & -> & ->).
  { destruct Hc as [-> | Hc]; [done|]. rewrite !byte_eqb_neq. repeat split; intros ->; done. }
  change (c :: s ++ rest) with ((c :: s) ++ rest). set (t := c :: s) in *.
  unfold parse_number. rewrite (scan_number_complete t rest Ht (delim_follow _ Hd)).
  rewrite (bind_run _ _ _ _ _ (xmalloc_ample h Ha)). cbn [negb].
  rewrite take_app_length, drop_app_length. pose proof (strtod_number_rest t Ht) as Hr.
  destruct (strtod t) as [x' r]. simpl in Hx, Hr. subst x' r. rewrite Hfin, bool_decide_true by done.
  cbn [andb negb]. set (h1 := Heap _ _ _ _). destruct (xfree false h1) as [u h2] eqn:E2.
  rewrite (bind_run _ _ _ _ _ E2). apply xfree_hstep in E2.
  assert (ample h2) as A2 by (eapply ample_hstep; [exact E2|exact Ha]).
  destruct (builtin_new_number x h2) as [o h3] eqn:E3. rewrite (bind_run _ _ _ _ _ E3).
  apply new_number_spec in E3 as (_ & _ & Ho). rewrite (Ho A2 Hfin). by eexists _, _.
Qed.

Lemma complete_string d src s :
  jchars src s -> utf8_valid s = true -> complete_value d (x22 :: src ++ [x22]) (JString (cstr s)).
Proof.
  intros Hs Hu fuel h rest Ha Hd Hf. destruct fuel as [|fuel]; [lia|]. cbn [app parse_value].
  cbn [Byte.eqb]. rewrite <- app_assoc. cbn [app].
  change (Byte.eqb x22 "n"%byte) with false. change (Byte.eqb x22 "t"%byte) with false.
  change (Byte.eqb x22 "f"%byte) with false. change (Byte.eqb x22 x22) with true. cbn iota.
  destruct (parse_string_raw_complete src s rest h Hs Hu Ha) as (h1 & E). rewrite (bind_run _ _ _ _ _ E).
  apply parse_string_raw_spec in E as (Hst & _); [|done].
  pose proof (ample_hstep _ _ _ Hst Ha) as A1.
  destruct (builtin_new_string_n (Some (cstr s)) h1) as [o h2] eqn:E2. rewrite (bind_run _ _ _ _ _ E2).
  apply new_string_spec in E2 as (_ & _ & Ho).
  rewrite (Ho A1) by (split; [apply has_nul_cstr|by apply cstr_valid]). by eexists _, _.
Qed.

Lemma parse_value_bracket fuel d p :
  parse_value (S fuel) d ("["%byte :: p) = parse_array fuel d ("["%byte :: p).
Proof. reflexivity. Qed.

Lemma parse_value_brace fuel d p :
  parse_value (S fuel) d ("{"%byte :: p) = parse_object fuel d ("{"%byte :: p).
Proof. reflexivity. Qed.

Lemma parse_array_open fuel d p h :
  ample h -> 0 < d -> 
  exists h1, ample h1 /\
  parse_array (S fuel) (MCP_JSON_MAX_DEPTH - d) ("["%byte :: p) h =
    (if head_is (skip_ws p) "]"%byte then ret (Got (VArray 0 [], tail (skip_ws p)))
     else array_loop fuel (MCP_JSON_MAX_DEPTH - (d - 1)) (VArray 0 []) (skip_ws p)) h1.
Proof.
  intros Ha Hd. cbn [parse_array]. rewrite (proj2 (Z.ltb_ge _ _)) by lia. cbn [tail].
  destruct (builtin_new_array h) as [o h1] eqn:E. rewrite (bind_run _ _ _ _ _ E).
  apply value_new_spec in E as (Hs & _ & Ho); [|done]. rewrite (Ho Ha).
  exists h1. split; [by eapply ample_hstep|].
  by replace (MCP_JSON_MAX_DEPTH - d + 1) with (MCP_JSON_MAX_DEPTH - (d - 1)) by lia.
Qed.

Lemma parse_object_open fuel d p h :
  ample h -> 0 < d ->
  exists h1, ample h1 /\
  parse_object (S fuel) (MCP_JSON_MAX_DEPTH - d) ("{"%byte :: p) h =
    (if head_is (skip_ws p) "}"%byte then ret (Got (VObject 0 [], tail (skip_ws p)))
     else object_loop fuel (MCP_JSON_MAX_DEPTH - (d - 1)) (VObject 0 []) (skip_ws p)) h1.
Proof.
  intros Ha Hd. cbn [parse_object]. rewrite (proj2 (Z.ltb_ge _ _)) by lia. cbn [tail].
  destruct (builtin_new_object h) as [o h1] eqn:E. rewrite (bind_run _ _ _ _ _ E).
  apply value_new_spec in E as (Hs & _ & Ho); [|done]. rewrite (Ho Ha).
  exists h1. split; [by eapply ample_hstep|].
  by replace (MCP_JSON_MAX_DEPTH - d + 1) with (MCP_JSON_MAX_DEPTH - (d - 1)) by lia.
Qed.

Lemma skip_ws_idem p : skip_ws (skip_ws p) = skip_ws p.
Proof. induction p as [|b p IH]; [done|]. simpl. destruct (is_ws b) eqn:E; [done|]. simpl. by rewrite E. Qed.

Lemma array_loop_ws fuel d arr p : array_loop fuel d arr (skip_ws p) = array_loop fuel d arr p.
Proof. destruct fuel; [done|]. cbn [array_loop]. by rewrite skip_ws_idem. Qed.

Lemma object_loop_ws fuel d obj p : object_loop fuel d obj (skip_ws p) = object_loop fuel d obj p.
Proof. destruct fuel; [done|]. cbn [object_loop]. by rewrite skip_ws_idem. Qed.

(** The items of an array do not start with a closing bracket. *)
Lemma jitems_head d src l rest c :
  jitems d src l -> (c = "]"%byte \/ c = "}"%byte) -> head_is (skip_ws (src ++ rest)) c = false.
Proof.
  intros [d0 w1 s w2 j Hw1 Hj _|d0 w1 s w2 j r l0 Hw1 Hj _ _] Hc; rewrite <- !app_assoc.
  all: rewrite (skip_ws_value _ _ _ _ _ Hw1 Hj); apply jvalue_head in Hj as (b & s' & -> & Hb).
  all: unfold vstart in Hb; bool_props; simpl; destruct Hc as [-> | ->]; done.
Qed.

Lemma jmembers_head d src l rest c :
  jmembers d src l -> c <> x22 -> head_is (skip_ws (src ++ rest)) c = false.
Proof.
  intros H Hc. assert (exists s, skip_ws (src ++ rest) = x22 :: s) as (s & ->).
  { destruct H; rewrite <- app_assoc, skip_ws_app by done; by eexists. }
  simpl. apply byte_eqb_neq. congruence.
Qed.

Lemma complete_array0 d w :
  0 < d -> ws w -> complete_value d ("["%byte :: w ++ ["]"%byte]) (JArray []).
Proof.
  intros Hd Hw fuel h rest Ha _ Hf. destruct fuel as [|[|fuel]]; [simpl in Hf; lia..|].
  cbn [app]. rewrite parse_value_bracket. rewrite <- app_assoc.
  destruct (parse_array_open fuel d (w ++ ["]"%byte] ++ rest) h Ha Hd) as (h1 & _ & E).
  rewrite skip_ws_app in E by done. rewrite E. by eexists _, _.
Qed.

Lemma complete_object0 d w :
  0 < d -> ws w -> complete_value d ("{"%byte :: w ++ ["}"%byte]) (JObject []).
Proof.
  intros Hd Hw fuel h rest Ha _ Hf. destruct fuel as [|[|fuel]]; [simpl in Hf; lia..|].
  cbn [app]. rewrite parse_value_brace. rewrite <- app_assoc.
  destruct (parse_object_open fuel d (w ++ ["}"%byte] ++ rest) h Ha Hd) as (h1 & _ & E).
  rewrite skip_ws_app in E by done. rewrite E. by eexists _, _.
Qed.

Lemma complete_array d src l :
  0 < d -> jitems (d - 1) src l -> complete_items (d - 1) src l ->
  complete_value d ("["%byte :: src ++ ["]"%byte]) (JArray l).
Proof.
  intros Hd Hi IH fuel h rest Ha _ Hf. destruct fuel as [|[|fuel]]; [simpl in Hf; lia..|].
  cbn [app]. rewrite parse_value_bracket. rewrite <- app_assoc in *.
  destruct (parse_array_open fuel d (src ++ ["]"%byte] ++ rest) h Ha Hd) as (h1 & A1 & E).
  rewrite (jitems_head _ _ _ _ _ Hi), array_loop_ws in E by auto.
  destruct (IH fuel h1 O [] rest A1) as (v & h' & E' & Hv); [by split| |].
  - simpl in Hf. rewrite <- app_assoc in Hf. cbn [app] in Hf. lia.
  - exists v, h'. split; [|done]. by rewrite E.
Qed.

Lemma complete_object d src l :
  0 < d -> jmembers (d - 1) src l -> complete_members (d - 1) src l ->
  complete_value d ("{"%byte :: src ++ ["}"%byte])
    (JObject (foldl (fun acc kv => jinsert (cstr kv.1) kv.2 acc) [] l)).
Proof.
  intros Hd Hi IH fuel h rest Ha _ Hf. destruct fuel as [|[|fuel]]; [simpl in Hf; lia..|].
  cbn [app]. rewrite parse_value_brace. rewrite <- app_assoc in *.
  destruct (parse_object_open fuel d (src ++ ["}"%byte] ++ rest) h Ha Hd) as (h1 & A1 & E).
  rewrite (jmembers_head _ _ _ _ _ Hi), object_loop_ws in E by done.
  destruct (IH fuel h1 O [] rest A1) as (v & h' & E' & Hv); [apply wf_empty_object| |].
  - simpl in Hf. rewrite <- app_assoc in Hf. cbn [app] in Hf. lia.
  - exists v, h'. split; [|done]. by rewrite E.
Qed.

(** One turn of the array loop up to the delimiter. *)
Lemma array_turn d w1 src w2 j next fuel h c l0 :
  ws w1 -> jvalue d src j -> complete_value d src j -> ws w2 -> delim next -> nows next ->
  ample h -> wf (VArray c l0) -> (3 * length (w1 ++ src ++ w2 ++ next) + 2 <= S fuel)%nat ->
  exists c' item h', ample h' /\ erase item = j /\ wf (VArray c' (l0 ++ [item])) /\
  array_loop (S fuel) (MCP_JSON_MAX_DEPTH - d) (VArray c l0) (w1 ++ src ++ w2 ++ next) h =
    (if head_is next ","%byte
     then array_loop fuel (MCP_JSON_MAX_DEPTH - d) (VArray c' (l0 ++ [item])) (tail next)
     else if head_is next "]"%byte then ret (Got (VArray c' (l0 ++ [item]), tail next))
     else builtin_destroy (Some (VArray c' (l0 ++ [item]))) ;; ret Null) h'.
Proof.
  intros Hw1 Hj IH Hw2 Hn Hnw Ha Hwf Hf. cbn [array_loop].
  rewrite (skip_ws_value _ _ _ _ _ Hw1 Hj).
  destruct (IH fuel h (w2 ++ next) Ha) as (item & h1 & E & Hitem); [by apply delim_ws| |].
  { rewrite !length_app in *. lia. }
  rewrite (bind_run _ _ _ _ _ E). apply parse_value_ample in E as [A1 Hwi]; [|done].
  destruct (builtin_array_append (Some (VArray c l0)) (Some item) h1) as [[st o] h2] eqn:E2.
  rewrite (bind_run _ _ _ _ _ E2).
  apply array_append_spec in E2 as (c' & l' & -> & Hwf' & Hs & Hl' & Hok); [|done..].
  rewrite (Hok A1) in *. destruct (decide (MCP_OK = MCP_OK)); [|done]. subst l'.
  rewrite skip_ws_app, skip_ws_nows by done.
  exists c', item, h2. split; [by eapply ample_hstep|]. done.
Qed.

Lemma complete_item_one d w1 src w2 j :
  ws w1 -> jvalue d src j -> complete_value d src j -> ws w2 ->
  complete_items d (w1 ++ src ++ w2) [j].
Proof.
  intros Hw1 Hj IH Hw2 fuel h c l0 rest Ha Hwf Hf. destruct fuel as [|fuel]; [lia|].
  rewrite <- !app_assoc in *.
  destruct (array_turn d w1 src w2 j ("]"%byte :: rest) fuel h c l0)
    as (c' & item & h' & _ & Hitem & _ & E); try done; [simpl; auto|].
  rewrite E. eexists _, _. split; [reflexivity|]. simpl. by rewrite map_app, <- Hitem.
Qed.

Lemma complete_item_cons d w1 src w2 j rest l :
  ws w1 -> jvalue d src j -> complete_value d src j -> ws w2 -> complete_items d rest l ->
  complete_items d (w1 ++ src ++ w2 ++ ","%byte :: rest) (j :: l).
Proof.
  intros Hw1 Hj IH Hw2 IHl fuel h c l0 rest' Ha Hwf Hf. destruct fuel as [|fuel]; [lia|].
  repeat (rewrite <- ?app_assoc in *; cbn [app] in *).
  destruct (array_turn d w1 src w2 j (","%byte :: rest ++ "]"%byte :: rest') fuel h c l0)
    as (c' & item & h1 & A1 & Hitem & Hwf' & E); try done; [simpl; auto|].
  cbn [head_is tail] in E. rewrite byte_eqb_refl in E. rewrite E.
  destruct (IHl fuel h1 c' (l0 ++ [item]) rest' A1 Hwf') as (v & h' & E' & Hv).
  { repeat (rewrite !length_app in *; cbn [length] in * ). lia. }
  exists v, h'. split; [done|]. by rewrite Hv, map_app, <- app_assoc, <- Hitem.
Qed.

(** One turn of the object loop up to the delimiter. *)
Lemma object_turn d w1 ksrc key w2 w3 src w4 j next fuel h c l0 :
  ws w1 -> jchars ksrc key -> utf8_valid key = true -> ws w2 -> ws w3 ->
  jvalue d src j -> complete_value d src j -> ws w4 -> delim next -> nows next ->
  ample h -> wf (VObject c l0) ->
  (3 * length (w1 ++ x22 :: ksrc ++ x22 :: w2 ++ ":"%byte :: w3 ++ src ++ w4 ++ next) + 2 <= S fuel)%nat ->
  exists c' l' h', ample h' /\ wf (VObject c' l') /\
  map emember l' = jinsert (cstr key) j (map emember l0) /\
  object_loop (S fuel) (MCP_JSON_MAX_DEPTH - d) (VObject c l0)
    (w1 ++ x22 :: ksrc ++ x22 :: w2 ++ ":"%byte :: w3 ++ src ++ w4 ++ next) h =
    (if head_is next ","%byte
     then object_loop fuel (MCP_JSON_MAX_DEPTH - d) (VObject c' l') (tail next)
     else if head_is next "}"%byte then ret (Got (VObject c' l', tail next))
     else builtin_destroy (Some (VObject c' l')) ;; ret Null) h'.
Proof.
  intros Hw1 Hk Hu Hw2 Hw3 Hj IH Hw4 Hn Hnw Ha Hwf Hf. cbn [object_loop].
  rewrite skip_ws_app, skip_ws_nows by done. cbn [head_is]. rewrite byte_eqb_refl. cbn [negb].
  destruct (parse_string_raw_complete ksrc key (w2 ++ ":"%byte :: w3 ++ src ++ w4 ++ next) h Hk Hu Ha)
    as (h1 & E). rewrite (bind_run _ _ _ _ _ E).
  apply parse_string_raw_spec in E as (Hs1 & _); [|done]. pose proof (ample_hstep _ _ _ Hs1 Ha) as A1.
  rewrite skip_ws_app, skip_ws_nows by done. cbn [head_is tail]. rewrite byte_eqb_refl. cbn [negb].
  rewrite (skip_ws_value _ _ _ _ _ Hw3 Hj).
  destruct (IH fuel h1 (w4 ++ next) A1) as (val & h2 & E & Hval); [by apply delim_ws| |].
  { repeat (rewrite !length_app in *; cbn [length] in * ). lia. }
  rewrite (bind_run _ _ _ _ _ E). apply parse_value_ample in E as [A2 Hwv]; [|done].
  destruct (builtin_object_set (Some (VObject c l0)) (Some key) (Some val) h2) as [[st o] h3] eqn:E2.
  rewrite (bind_run _ _ _ _ _ E2).
  apply object_set_spec in E2 as (c' & l' & -> & Hwf' & Hs & Hl' & Hok); [|done..].
  rewrite (Hok A2 (cstr_valid _ Hu)) in *. destruct (decide (MCP_OK = MCP_OK)); [|done].
  destruct (xfree false h3) as [u h4] eqn:E4. rewrite (bind_run _ _ _ _ _ E4). apply xfree_hstep in E4.
  rewrite skip_ws_app, skip_ws_nows by done.
  exists c', l', h4. split; [by eapply ample_hstep, ample_hstep|]. by rewrite <- Hval.
Qed.

Lemma complete_member_one d w1 ksrc key w2 w3 src w4 j :
  ws w1 -> jchars ksrc key -> utf8_valid key = true -> ws w2 -> ws w3 ->
  jvalue d src j -> complete_value d src j -> ws w4 ->
  complete_members d (w1 ++ x22 :: ksrc ++ x22 :: w2 ++ ":"%byte :: w3 ++ src ++ w4) [(key, j)].
Proof.
  intros Hw1 Hk Hu Hw2 Hw3 Hj IH Hw4 fuel h c l0 rest Ha Hwf Hf. destruct fuel as [|fuel]; [lia|].
  repeat (rewrite <- ?app_assoc in *; cbn [app] in * ).
  destruct (object_turn d w1 ksrc key w2 w3 src w4 j ("}"%byte :: rest) fuel h c l0)
    as (c' & l' & h' & _ & _ & Hl' & E); try done; [simpl; auto|].
  rewrite E. eexists _, _. split; [reflexivity|]. by rewrite erase_object, Hl'.
Qed.

Lemma complete_member_cons d w1 ksrc key w2 w3 src w4 j rest l :
  ws w1 -> jchars ksrc key -> utf8_valid key = true -> ws w2 -> ws w3 ->
  jvalue d src j -> complete_value d src j -> ws w4 -> complete_members d rest l ->
  complete_members d
    (w1 ++ x22 :: ksrc ++ x22 :: w2 ++ ":"%byte :: w3 ++ src ++ w4 ++ ","%byte :: rest) ((key, j) :: l).
Proof.
  intros Hw1 Hk Hu Hw2 Hw3 Hj IH Hw4 IHl fuel h c l0 rest' Ha Hwf Hf. destruct fuel as [|fuel]; [lia|].
  repeat (rewrite <- ?app_assoc in *; cbn [app] in * ).
  destruct (object_turn d w1 ksrc key w2 w3 src w4 j (","%byte :: rest ++ "}"%byte :: rest') fuel h c l0)
    as (c' & l' & h1 & A1 & Hwf' & Hl' & E); try done; [simpl; auto|].
  cbn [head_is tail] in E. rewrite byte_eqb_refl in E. rewrite E.
  destruct (IHl fuel h1 c' l' rest' A1 Hwf') as (v & h' & E' & Hv).
  { repeat (rewrite !length_app in *; cbn [length] in * ). lia. }
  exists v, h'. split; [done|]. by rewrite Hv, Hl'.
Qed.

Lemma parse_value_complete d src j : jvalue d src j -> complete_value d src j.
Proof.
  intros H. assert ((forall d src j, jvalue d src j -> jvalue d src j /\ complete_value d src j) /\
    (forall d src l, jitems d src l -> jitems d src l /\ complete_items d src l) /\
    (forall d src l, jmembers d src l -> jmembers d src l /\ complete_members d src l)) as (Hv & _);
    [|by apply Hv].
  clear d src j H. apply json_mut.
  1-3: intros d; split; [constructor|]; intros fuel h rest Ha _ Hf; (destruct fuel as [|fuel]; [lia|]).
  - destruct (literal_run VNull rest h Ha eq_refl) as (h' & E). by exists VNull, h'.
  - destruct (literal_run (VBool true) rest h Ha eq_refl) as (h' & E). by exists (VBool true), h'.
  - destruct (literal_run (VBool false) rest h Ha eq_refl) as (h' & E). by exists (VBool false), h'.
  - intros. split; [by econstructor|by apply complete_number].
  - intros. split; [by constructor|by apply complete_string].
  - intros. split; [by constructor|by apply complete_array0].
  - intros d src l Hd _ [Hi IH]. split; [by constructor|by apply complete_array].
  - intros. split; [by constructor|by apply complete_object0].
  - intros d src l Hd _ [Hi IH]. split; [by constructor|by apply complete_object].
  - intros d w1 src w2 j Hw1 _ [Hj IH] Hw2. split; [by constructor|by apply complete_item_one].
  - intros d w1 src w2 j rest l Hw1 _ [Hj IH] Hw2 _ [Hr IHr].
    split; [by constructor|by apply complete_item_cons].
  - intros d w1 ksrc key w2 w3 src w4 j Hw1 Hk Hu Hw2 Hw3 _ [Hj IH] Hw4.
    split; [by constructor|by apply complete_member_one].
  - intros d w1 ksrc key w2 w3 src w4 j rest l Hw1 Hk Hu Hw2 Hw3 _ [Hj IH] Hw4 _ [Hr IHr].
    split; [by constructor|by apply complete_member_cons].
Qed.

Lemma builtin_parse_complete text j h :
  ample h -> utf8_valid text = true -> jtext MCP_JSON_MAX_DEPTH text j ->
  exists v h', builtin_parse (Some text) h = (Got v, h') /\ erase v = j.
Proof.
  intros Ha Hu (w1 & src & w2 & Hw1 & Hw2 & -> & Hj). unfold builtin_parse. rewrite Hu. cbn [negb].
  rewrite (skip_ws_value _ _ _ _ _ Hw1 Hj). pose proof Hj as Hc. apply parse_value_complete in Hc.
  destruct (Hc (parse_fuel (src ++ w2)) h w2) as (v & h' & E & Hv); [done| |done|].
  { rewrite <- (app_nil_r w2). by apply delim_ws. }
  replace (MCP_JSON_MAX_DEPTH - MCP_JSON_MAX_DEPTH) with 0 in E by lia.
  rewrite (bind_run _ _ _ _ _ E). pose proof (skip_ws_app w2 [] Hw2) as Hs.
  rewrite app_nil_r in Hs. rewrite Hs. by exists v, h'.
Qed.

(** ** Claims *)

(** C1: Soundness of the parser: a text that parses is valid UTF-8 and is a
    JSON text of the RFC 8259 grammar nested at most 128 deep, and the tree
    returned is what the text denotes, for every allocator. *)
Theorem parse_sound text h v h' :
  builtin_parse (Some text) h = (Got v, h') ->
  utf8_valid text = true /\ jtext MCP_JSON_MAX_DEPTH text (erase v).
Proof. apply builtin_parse_sound. Qed.

(** C2: Completeness of the parser: with memory available, every valid UTF-8
    text of the grammar nested at most 128 deep parses, to its denotation. *)
Theorem parse_complete text j h :
  ample h -> utf8_valid text = true -> jtext MCP_JSON_MAX_DEPTH text j ->
  exists v h', builtin_parse (Some text) h = (Got v, h') /\ erase v = j.
Proof. apply builtin_parse_complete. Qed.

Lemma parse_sound_witness :
  exists v h', builtin_parse (Some (cs "[true, null]")) fresh_heap = (Got v, h') /\
  utf8_valid (cs "[true, null]") = true /\ jtext MCP_JSON_MAX_DEPTH (cs "[true, null]") (erase v).
Proof.
  eexists _, _. split; [vm_compute; reflexivity|].
  apply (parse_sound (cs "[true, null]") fresh_heap (VArray 4 [VBool true; VNull])
    (builtin_parse (Some (cs "[true, null]")) fresh_heap).2). by vm_compute.
Defined.

Lemma parse_complete_witness :
  exists v h', builtin_parse (Some (cs " [true]")) fresh_heap = (Got v, h') /\ erase v = JArray [JBool true].
Proof.
  apply (parse_complete (cs " [true]") (JArray [JBool true]) fresh_heap);
    [apply fresh_ample|by vm_compute|].
  exists (cs " "), (cs "[true]"), []. repeat split; [by repeat constructor..|].
  apply (jv_array _ (cs "true") [JBool true]); [done|].
  apply (ji_one _ [] (cs "true") []); repeat constructor.
Defined.
