(* ===== verification/JsonNumber.v ===== *)
(** * Numbers survive the round trip

    [snprintf "%.17g"] followed by [strtod] is the identity on finite
    doubles, and the text is a JSON number of at most 24 bytes. *)
From S2P Require Import Prelude Heap Utf8 Double JsonValue JsonParse JsonGrammar.

Local Open Scope Z_scope.

(** ** Rounding to the nearest double *)

Lemma rne_unique n d m : 0 < d -> 2 * Z.abs (n - m * d) < d -> rne n d = m.
Proof.
  intros Hd H. unfold rne. pose proof (Z.div_mod n d) as Hdm. pose proof (Z.mod_pos_bound n d Hd) as Hr.
  set (q := n / d) in *. set (r := n mod d) in *.
  assert (n = d * q + r) as Hn by lia. clear Hdm.
  assert (m = q \/ m = q + 1) as Hm by nia.
  destruct (Z.compare_spec (2 * r) d); destruct Hm; subst m; try lia; nia.
Qed.

(** The bound of rounding: half a unit. *)
Lemma rne_error n d : 0 < d -> 2 * Z.abs (n - rne n d * d) <= d.
Proof.
  intros Hd. unfold rne. pose proof (Z.div_mod n d) as Hdm. pose proof (Z.mod_pos_bound n d Hd) as Hr.
  set (q := n / d) in *. set (r := n mod d) in *. assert (n = d * q + r) as Hn by lia. clear Hdm.
  destruct (Z.compare_spec (2 * r) d); [destruct (Z.even q)|..]; nia.
Qed.

(** A rational within half the gap of a double rounds to it.  [n / d] is in
    units of 2^-1074 and [sh] is the exponent in those units; at a power of
    two the gap below is half as wide. *)
Lemma round_pos_nearest s n d m sh :
  0 <= n -> 0 < d -> 0 <= sh <= 2045 -> 0 < Zpos m < 2 ^ 53 -> (0 < sh -> 2 ^ 52 <= Zpos m) ->
  2 * Z.abs (n - Zpos m * 2 ^ sh * d) < 2 ^ sh * d ->
  (Zpos m = 2 ^ 52 -> 4 * (Zpos m * 2 ^ sh * d - n) < 2 ^ sh * d) ->
  round_pos s n d = DFin s m (sh - 1074).
Proof.
  intros Hn Hd Hsh Hm Hnorm Herr Hlow.
  assert (0 < 2 ^ sh) as HU by (apply Z.pow_pos_nonneg; lia).
  set (U := 2 ^ sh) in *. set (k := n / d).
  assert (d * k <= n < d * k + d) as Hk.
  { unfold k. pose proof (Z.div_mod n d). pose proof (Z.mod_pos_bound n d Hd). lia. }
  assert (0 <= k) as Hk0 by (apply Z.div_pos; lia).
  assert (k < 2 ^ 53 * U) as Hup by nia.
  (* the usual case: the binade of [n / d] is the one of [m] *)
  assert (Z.max 0 (Z.log2 k - 52) = sh -> round_pos s n d = DFin s m (sh - 1074)) as Husual.
  { intros Hs. unfold round_pos. fold k. rewrite Hs. fold U.
    rewrite (rne_unique n (d * U) (Zpos m)) by nia.
    replace (Zpos m =? 2 ^ 53) with false by lia. by replace (2045 <? sh) with false by lia. }
  destruct (decide (sh = 0)) as [->|Hs0].
  { apply Husual. subst U. change (2 ^ 0) with 1 in *.
    assert (Z.log2 k <= 52); [|lia].
    destruct (decide (k = 0)) as [->|]; [done|]. apply Z.lt_succ_r, Z.log2_lt_pow2; simpl; lia. }
  destruct (decide (2 ^ 52 * U <= k)) as [Hge|Hlt].
  { apply Husual. assert (Z.log2 k = 52 + sh) as ->; [|lia].
    apply Z.log2_unique; [lia|]. unfold U in *. rewrite <- Z.pow_add_r in Hge by lia.
    replace (Z.succ (52 + sh)) with (53 + sh) by lia. rewrite <- Z.pow_add_r in Hup by lia. lia. }
  (* just below a power of two: rounded up to it from the binade below *)
  assert (Zpos m = 2 ^ 52) as Hm52 by nia. specialize (Hlow Hm52).
  assert (U = 2 * 2 ^ (sh - 1)) as HU2.
  { unfold U. rewrite <- (Z.pow_succ_r 2 (sh - 1)) by lia. f_equal. lia. }
  assert (0 < 2 ^ (sh - 1)) as HV by (apply Z.pow_pos_nonneg; lia).
  set (V := 2 ^ (sh - 1)) in *.
  assert (2 ^ 52 * V <= k) as Hge by nia.
  assert (Z.log2 k = 52 + (sh - 1)) as Hlog.
  { apply Z.log2_unique; [lia|]. rewrite (Z.pow_add_r 2 52 (sh - 1)) by lia. fold V.
    replace (Z.succ (52 + (sh - 1))) with (52 + sh) by lia. rewrite (Z.pow_add_r 2 52 sh) by lia. fold U. lia. }
  unfold round_pos. fold k. rewrite Hlog. replace (Z.max 0 (52 + (sh - 1) - 52)) with (sh - 1) by lia.
  fold V. rewrite (rne_unique n (d * V) (2 ^ 53)) by nia.
  rewrite Z.eqb_refl. replace (2045 <? sh - 1 + 1) with false by lia.
  rewrite <- Hm52. f_equal. lia.
Qed.

(** ** The decimal exponent *)

Lemma ndigits_aux_spec fuel q :
  0 < q -> Z.log2 q < Z.of_nat fuel ->
  let k := ndigits_aux fuel q in 1 <= k /\ 10 ^ (k - 1) <= q < 10 ^ k.
Proof.
  revert q. induction fuel as [|fuel IH]; intros q Hq Hl; simpl.
  { pose proof (Z.log2_nonneg q). lia. }
  replace (q =? 0) with false by lia.
  destruct (decide (q < 10)) as [Hs|Hs].
  - rewrite (Z.div_small q 10) by lia. assert (ndigits_aux fuel 0 = 0) as -> by (by destruct fuel).
    simpl. lia.
  - assert (1 <= q / 10) as Hq1 by dlia.
    destruct (IH (q / 10)) as [Hk1 Hk]; [lia| |].
    { assert (Z.log2 (q / 10) < Z.log2 q); [|lia]. apply Z.log2_lt_pow2; [lia|].
      assert (q / 10 * 2 <= q) by dlia.
      pose proof (Z.log2_spec q Hq) as [_ Hu]. rewrite Z.pow_succ_r in Hu by apply Z.log2_nonneg. lia. }
    set (k := ndigits_aux fuel (q / 10)) in *. split; [lia|].
    replace (1 + k - 1) with k by lia. rewrite Z.pow_add_r by lia.
    assert (10 ^ k = 10 * 10 ^ (k - 1)) as Hp.
    { rewrite <- Z.pow_succ_r by lia. f_equal. lia. }
    simpl (10 ^ 1). dlia.
Qed.

Lemma ndigits_spec q : 0 < q -> 1 <= ndigits q /\ 10 ^ (ndigits q - 1) <= q < 10 ^ ndigits q.
Proof.
  intros Hq. apply ndigits_aux_spec; [done|]. pose proof (Z.log2_nonneg q). lia.
Qed.

Lemma pow10_pos k : 0 <= k -> 0 < 10 ^ k.
Proof. intros. apply Z.pow_pos_nonneg; lia. Qed.

Lemma flog10_spec n d :
  0 < n -> 0 < d ->
  let x := flog10 n d in
  d * 10 ^ Z.max 0 x <= n * 10 ^ Z.max 0 (- x) < d * 10 ^ Z.max 0 x * 10.
Proof.
  intros Hn Hd. unfold flog10. destruct (d <=? n) eqn:E; bool_props; cbv zeta.
  - assert (1 <= n / d) as Hq by (apply Z.div_le_lower_bound; lia).
    destruct (ndigits_spec (n / d)) as [H1 H2]; [lia|]. set (k := ndigits (n / d)) in *.
    rewrite (Z.max_r 0 (k - 1)), (Z.max_l 0 (- (k - 1))) by lia. rewrite Z.pow_0_r.
    assert (10 ^ k = 10 * 10 ^ (k - 1)) as Hp by (rewrite <- Z.pow_succ_r by lia; f_equal; lia).
    pose proof (Z.div_mod n d). pose proof (Z.mod_pos_bound n d Hd). nia.
  - assert (1 <= (d - 1) / n) as Hq by (apply Z.div_le_lower_bound; lia).
    destruct (ndigits_spec ((d - 1) / n)) as [H1 H2]; [lia|]. set (k := ndigits ((d - 1) / n)) in *.
    rewrite (Z.max_l 0 (- k)), (Z.max_r 0 (- - k)) by lia. rewrite Z.pow_0_r, Z.opp_involutive.
    assert (10 ^ k = 10 * 10 ^ (k - 1)) as Hp by (rewrite <- Z.pow_succ_r by lia; f_equal; lia).
    pose proof (Z.div_mod (d - 1) n). pose proof (Z.mod_pos_bound (d - 1) n Hn). nia.
Qed.

(** The digits: [x0] is the exponent before rounding, [D0] the rounded
    significand, equal to [D] times a power of ten when rounding carried. *)
Lemma sig17_spec n d D x :
  0 < n -> 0 < d -> sig17 n d = (D, x) ->
  10 ^ 16 <= D < 10 ^ 17 /\
  exists x0 k0, 0 <= k0 <= 1 /\ x = x0 + k0 /\
    let a := Z.max 0 (16 - x0) in let b := Z.max 0 (x0 - 16) in
    2 * Z.abs (n * 10 ^ a - D * 10 ^ k0 * (d * 10 ^ b)) <= d * 10 ^ b /\
    d * 10 ^ b * 10 ^ 16 <= n * 10 ^ a /\
    n * 10 ^ Z.max 0 (- x0) < d * 10 ^ Z.max 0 x0 * 10 /\
    d * 10 ^ Z.max 0 x0 <= n * 10 ^ Z.max 0 (- x0).
Proof.
  intros Hn Hd. unfold sig17. pose proof (flog10_spec n d Hn Hd) as Hx. cbv zeta in Hx.
  set (x0 := flog10 n d) in *. set (a := Z.max 0 (16 - x0)) in *. set (b := Z.max 0 (x0 - 16)) in *.
  assert (0 < 10 ^ a) as Ha by (apply pow10_pos; lia). assert (0 < 10 ^ b) as Hb by (apply pow10_pos; lia).
  assert (10 ^ b * 10 ^ 16 * 10 ^ Z.max 0 (- x0) = 10 ^ a * 10 ^ Z.max 0 x0) as Hpow.
  { rewrite <- !Z.pow_add_r by lia. f_equal. lia. }
  assert (0 < 10 ^ Z.max 0 (- x0)) as Hp1 by (apply pow10_pos; lia).
  assert (0 < 10 ^ Z.max 0 x0) as Hp2 by (apply pow10_pos; lia).
  assert (d * 10 ^ b * 10 ^ 16 <= n * 10 ^ a) as Hlo.
  { apply (Z.mul_le_mono_pos_r _ _ (10 ^ Z.max 0 (- x0))); [done|].
    replace (d * 10 ^ b * 10 ^ 16 * 10 ^ Z.max 0 (- x0)) with (d * 10 ^ Z.max 0 x0 * 10 ^ a) by nia.
    replace (n * 10 ^ a * 10 ^ Z.max 0 (- x0)) with (n * 10 ^ Z.max 0 (- x0) * 10 ^ a) by lia. nia. }
  assert (n * 10 ^ a < d * 10 ^ b * 10 ^ 17) as Hhi.
  { apply (Z.mul_lt_mono_pos_r (10 ^ Z.max 0 (- x0))); [done|].
    replace (10 ^ 17) with (10 ^ 16 * 10) by reflexivity.
    replace (d * 10 ^ b * (10 ^ 16 * 10) * 10 ^ Z.max 0 (- x0)) with (d * 10 ^ Z.max 0 x0 * 10 * 10 ^ a) by nia.
    replace (n * 10 ^ a * 10 ^ Z.max 0 (- x0)) with (n * 10 ^ Z.max 0 (- x0) * 10 ^ a) by lia. nia. }
  pose proof (rne_error (n * 10 ^ a) (d * 10 ^ b)) as He.
  set (D0 := rne (n * 10 ^ a) (d * 10 ^ b)) in *. assert (0 < d * 10 ^ b) as Hdb by nia.
  specialize (He Hdb). assert (10 ^ 16 <= D0 <= 10 ^ 17) as HD by nia.
  destruct (D0 =? 10 ^ 17) eqn:E; bool_props; intros Heq; injection Heq as <- <-.
  - split; [lia|]. exists x0, 1. split; [lia|]. split; [done|]. cbv zeta. fold a b.
    replace (10 ^ 16 * 10 ^ 1) with (10 ^ 17) by reflexivity. rewrite <- E.
    split; [exact He|]. split; [exact Hlo|]. lia.
  - split; [lia|]. exists x0, 0. split; [lia|]. split; [lia|]. cbv zeta. fold a b.
    rewrite Z.pow_0_r, Z.mul_1_r. split; [exact He|]. split; [exact Hlo|]. lia.
Qed.

(** ** Digit strings *)

Definition alldigits (s : bytes) : Prop := Forall (fun b => isdigit b = true) s.

Lemma digit_spec z : 0 <= z < 10 -> isdigit (digit z) = true /\ digit_val (digit z) = z.
Proof. intros H. unfold isdigit, digit_val, digit. rewrite b2z_z2b by lia. lia. Qed.

Lemma dval_app s t : dval (s ++ t) = dval s * 10 ^ Z.of_nat (length t) + dval t.
Proof.
  induction t as [|b t IH] using rev_ind.
  - rewrite app_nil_r. unfold dval at 3. simpl. lia.
  - rewrite app_assoc, !dval_snoc, IH, length_app. simpl.
    replace (Z.of_nat (length t + 1)) with (Z.succ (Z.of_nat (length t))) by lia.
    rewrite Z.pow_succ_r by lia. lia.
Qed.

Lemma digits_of_spec k z :
  0 <= z -> length (digits_of k z) = k /\ alldigits (digits_of k z) /\
  dval (digits_of k z) = z mod 10 ^ Z.of_nat k.
Proof.
  revert z. induction k as [|k IH]; intros z Hz; cbn [digits_of].
  - split; [done|]. split; [constructor|]. by rewrite Z.mod_1_r.
  - destruct (IH (z / 10)) as (H1 & H2 & H3); [dlia|].
    destruct (digit_spec (z mod 10)) as [Hd1 Hd2]; [dlia|].
    rewrite length_app, dval_snoc, H1, H3, Hd2. split; [simpl; lia|]. split.
    + apply Forall_app. split; [done|by apply Forall_singleton].
    + replace (Z.of_nat (S k)) with (Z.succ (Z.of_nat k)) by lia. rewrite Z.pow_succ_r by lia.
      pose proof (pow10_pos (Z.of_nat k) ltac:(lia)) as Hp.
      rewrite Z.rem_mul_r by lia. lia.
Qed.

(** The first digit of a full-width significand is not zero. *)
Lemma digits_of_head k z :
  10 ^ Z.of_nat k <= z < 10 ^ Z.of_nat (S k) ->
  exists b s, digits_of (S k) z = b :: s /\ isdigit b = true /\ b <> "0"%byte.
Proof.
  intros Hz. pose proof (pow10_pos (Z.of_nat k) ltac:(lia)) as Hp.
  destruct (digits_of_spec (S k) z) as (H1 & H2 & H3); [lia|].
  rewrite Z.mod_small in H3 by lia.
  destruct (digits_of (S k) z) as [|b s]; [done|]. apply Forall_cons in H2 as [Hb Hs].
  exists b, s. split; [done|]. split; [done|]. intros ->.
  change ("0"%byte :: s) with (["0"%byte] ++ s) in H3. rewrite dval_app in H3.
  change (dval ["0"%byte]) with 0 in H3.
  assert (dval s < 10 ^ Z.of_nat (length s)) as Hlt.
  { clear - Hs. induction s as [|b s IH] using rev_ind; [done|].
    apply Forall_app in Hs as [Hs Hb]. rewrite Forall_singleton in Hb. rewrite dval_snoc, length_app. simpl.
    replace (Z.of_nat (length s + 1)) with (Z.succ (Z.of_nat (length s))) by lia.
    rewrite Z.pow_succ_r by lia. apply digit_val_range in Hb. specialize (IH Hs). lia. }
  simpl in H1. replace (length s) with k in Hlt by lia. lia.
Qed.

Lemma dval_zeros k : dval (repeat "0"%byte k) = 0.
Proof.
  induction k as [|k IH]; [done|]. change (repeat "0"%byte (S k)) with (["0"%byte] ++ repeat "0"%byte k).
  rewrite dval_app, IH. done.
Qed.

Lemma strip_zeros_spec s : exists k, s = strip_zeros s ++ repeat "0"%byte k.
Proof.
  induction s as [|b s [k IH]]; [by exists O|]. simpl.
  destruct (strip_zeros s) as [|c r] eqn:E.
  - destruct (Byte.eqb b "0"%byte) eqn:Eb.
    + bool_props. subst b. exists (S k). simpl in *. by f_equal.
    + exists k. simpl in *. by f_equal.
  - exists k. simpl in *. by f_equal.
Qed.

Lemma frac_text_spec s : alldigits s ->
  jfrac (frac_text s) /\ frac_digits (frac_text s) = strip_zeros s /\
  (length (frac_text s) <= S (length s))%nat.
Proof.
  intros Hs. unfold frac_text. destruct (strip_zeros_spec s) as [k Hk].
  assert (alldigits (strip_zeros s)) as Hd.
  { rewrite Hk in Hs. by apply Forall_app in Hs as [? _]. }
  assert (length (strip_zeros s) <= length s)%nat as Hl by (rewrite Hk at 2; rewrite length_app; lia).
  destruct (strip_zeros s) as [|b r] eqn:E; simpl in *.
  - split; [constructor|]. split; [done|lia].
  - split; [by constructor|]. split; [done|lia].
Qed.

Lemma exp_text_spec x : -1000 < x < 1000 ->
  jexp (exp_text x) /\ exp_value (exp_text x) = x /\ (length (exp_text x) <= 5)%nat.
Proof.
  intros Hx. unfold exp_text. set (k := if Z.abs x <? 100 then 2%nat else 3%nat).
  destruct (digits_of_spec k (Z.abs x)) as (H1 & H2 & H3); [lia|].
  assert (dval (digits_of k (Z.abs x)) = Z.abs x) as Hv.
  { rewrite H3. apply Z.mod_small. unfold k. destruct (Z.abs x <? 100) eqn:E; bool_props; simpl; lia. }
  assert (digits (digits_of k (Z.abs x))) as Hd.
  { split; [|done]. intros Hn. rewrite Hn in H1. unfold k in H1. by destruct (Z.abs x <? 100). }
  set (ds := digits_of k (Z.abs x)) in *. set (sg := if x <? 0 then "-"%byte else "+"%byte).
  assert (jexp ("e"%byte :: [sg] ++ ds)) as Hj.
  { constructor; [auto| |done]. unfold sg. destruct (x <? 0); auto. }
  split; [done|]. split.
  - unfold exp_value. cbn [app strtod_exp]. rewrite byte_eqb_refl. cbn [orb].
    pose proof (span_digits_eq ds [] (proj2 Hd) I) as Hsp. rewrite app_nil_r in Hsp.
    destruct Hd as [Hne _]. unfold sg. destruct (x <? 0) eqn:E; bool_props; simpl; rewrite Hsp.
    all: destruct ds; [done|]; simpl in *; lia.
  - simpl. rewrite H1. unfold k. destruct (Z.abs x <? 100); lia.
Qed.

(** ** The text of a positive number *)

Definition number_text (t : bytes) (A E : Z) : Prop :=
  exists i f e, t = i ++ f ++ e /\ jint i /\ jfrac f /\ jexp e /\
    A = dval (i ++ frac_digits f) /\ E = exp_value e - Z.of_nat (length (frac_digits f)).

(** The digits [i] before the point and [fr] after it, zeros stripped, with
    exponent text [e]: the significand loses the [k] stripped zeros. *)
Lemma number_text_strip i fr e D ex :
  jint i -> alldigits fr -> jexp e -> exp_value e = ex -> dval (i ++ fr) = D ->
  exists A E k, number_text (i ++ frac_text fr ++ e) A E /\ 0 <= k /\ A * 10 ^ k = D /\
    E = ex - Z.of_nat (length fr) + k.
Proof.
  intros Hi Hfr He Hex HD. destruct (frac_text_spec fr Hfr) as (Hf & Hfd & _).
  destruct (strip_zeros_spec fr) as [k Hk].
  exists (dval (i ++ strip_zeros fr)), (exp_value e - Z.of_nat (length (strip_zeros fr))), (Z.of_nat k).
  split; [|split; [lia|split]].
  - exists i, (frac_text fr), e. by rewrite Hfd.
  - rewrite <- HD. rewrite Hk at 2. rewrite app_assoc, (dval_app (i ++ strip_zeros fr)), dval_zeros.
    rewrite repeat_length. lia.
  - rewrite Hex. rewrite Hk at 2. rewrite length_app, repeat_length. lia.
Qed.

Lemma fmt_pos_text n d D x :
  sig17 n d = (D, x) -> 10 ^ 16 <= D < 10 ^ 17 -> -1000 < x < 1000 ->
  (length (fmt_pos n d) <= 23)%nat /\
  exists A E k, number_text (fmt_pos n d) A E /\ 0 <= k /\ A * 10 ^ k = D /\ E = x - 16 + k.
Proof.
  intros Hsig HD Hx. unfold fmt_pos. rewrite Hsig.
  destruct (digits_of_spec 17 D) as (Hl & Had & Hv); [lia|]. rewrite Z.mod_small in Hv by (simpl; lia).
  destruct (digits_of_head 16 D) as (b & s & Hds & Hb & Hb0); [simpl; lia|].
  set (ds := digits_of 17 D) in *.
  assert (forall m, (0 < m <= 17)%nat -> jint (take m ds)) as Hint.
  { intros m Hm. rewrite Hds. destruct m as [|m]; [lia|]. simpl. constructor; [done..|].
    apply Forall_take. rewrite Hds in Had. by apply Forall_cons in Had as [_ ?]. }
  assert (forall m, alldigits (drop m ds)) as Hdrop by (intros; by apply Forall_drop).
  destruct ((-4 <=? x) && (x <? 17)) eqn:Ef; bool_props; [destruct (0 <=? x) eqn:E0; bool_props|].
  - set (m := Z.to_nat (x + 1)). split.
    + destruct (frac_text_spec (drop m ds) (Hdrop m)) as (_ & _ & Hlen).
      rewrite length_app, length_take. rewrite length_drop in Hlen. lia.
    + rewrite <- (app_nil_r (frac_text (drop m ds))).
      destruct (number_text_strip (take m ds) (drop m ds) [] D 0) as (A & E & k & H1 & H2 & H3 & H4);
        [apply Hint; lia|done|constructor|done|by rewrite take_drop|].
      exists A, E, k. split; [done|]. split; [done|]. split; [done|].
      rewrite length_drop, Hl in H4. lia.
  - set (z := repeat "0"%byte (Z.to_nat (- x - 1))).
    assert (alldigits (z ++ ds)) as Hz.
    { apply Forall_app. split; [|done]. unfold z. apply Forall_forall. intros y Hy%list_elem_of_In.
      apply repeat_spec in Hy. by rewrite Hy. }
    split.
    + destruct (frac_text_spec (z ++ ds) Hz) as (_ & _ & Hlen). simpl.
      rewrite length_app, Hl in Hlen. unfold z in *. rewrite repeat_length in Hlen. lia.
    + rewrite <- (app_nil_r (frac_text (z ++ ds))).
      destruct (number_text_strip ["0"%byte] (z ++ ds) [] D 0) as (A & E & k & H1 & H2 & H3 & H4);
        [constructor|done|constructor|done| |].
      { rewrite !dval_app. unfold z. rewrite dval_zeros. change (dval ["0"%byte]) with 0. lia. }
      exists A, E, k. split; [done|]. split; [done|]. split; [done|].
      rewrite length_app, Hl in H4. unfold z in H4. rewrite repeat_length in H4. lia.
  - destruct (exp_text_spec x Hx) as (He1 & He2 & He3). split.
    + destruct (frac_text_spec (drop 1 ds) (Hdrop 1%nat)) as (_ & _ & Hlen).
      rewrite !length_app, length_take. rewrite length_drop in Hlen. lia.
    + destruct (number_text_strip (take 1 ds) (drop 1 ds) (exp_text x) D x)
        as (A & E & k & H1 & H2 & H3 & H4); [apply Hint; lia|done|done|done|by rewrite take_drop|].
      exists A, E, k. split; [done|]. split; [done|]. split; [done|].
      rewrite length_drop, Hl in H4. lia.
Qed.

(** ** The round trip *)

(** The integer core: [N / dd = B / Q] is within [S / 2Q] of [n / Q], and
    [n = m * U] has at least 16 digits in units of [S / Q]. *)
Lemma gap_argument N n m U Q S B dd :
  0 < U -> 0 < Q -> 0 < dd -> 0 < S -> N * Q = B * dd -> 2 * Z.abs (n * Q - B) <= S ->
  10000000000000000 * S <= n * Q -> n = m * U -> 0 < m < 9007199254740992 ->
  2 * Z.abs (N - n * dd) < U * dd /\
  (m = 4503599627370496 -> 4 * (n * dd - N) < U * dd).
Proof.
  intros HU HQ Hdd HS HN Herr Hlo Hn Hm.
  assert (n * Q = m * (U * Q)) as HnQ by (subst n; ring).
  assert (0 < U * Q) as HW by nia. set (W := U * Q) in *.
  assert ((N - n * dd) * Q = - (dd * (n * Q - B))) as Hd by (rewrite Z.mul_sub_distr_r, HN; ring).
  assert (Z.abs (N - n * dd) * Q = dd * Z.abs (n * Q - B)) as Habs.
  { rewrite <- (Z.abs_eq Q) at 1 by lia. rewrite <- Z.abs_mul, Hd, Z.abs_opp, Z.abs_mul. lia. }
  assert (S < W) as Hgap by nia. set (X := Z.abs (n * Q - B)) in *.
  assert (U * dd * Q = dd * W) as HWd by (unfold W; ring).
  assert (dd * (2 * X) <= dd * S) as HdS by (apply Z.mul_le_mono_nonneg_l; lia).
  assert (dd * S < dd * W) as HdW by (apply Z.mul_lt_mono_pos_l; lia).
  split.
  - apply (Z.mul_lt_mono_pos_r Q); [done|]. rewrite HWd. lia.
  - intros Hm52. assert (2 * S < W) as Hgap2 by (subst m; lia).
    assert (dd * (2 * S) < dd * W) as HdW2 by (apply Z.mul_lt_mono_pos_l; lia).
    apply (Z.mul_lt_mono_pos_r Q); [done|]. rewrite HWd.
    replace (4 * (n * dd - N) * Q) with (4 * - ((N - n * dd) * Q)) by ring.
    assert (- ((N - n * dd) * Q) <= Z.abs (N - n * dd) * Q) by nia. lia.
Qed.

Lemma decimal_nearest s m e A E n D x0 k0 k :
  canonical m e = true -> n = Zpos m * 2 ^ (e + 1074) -> 0 <= k0 -> 0 <= k -> 0 <= A ->
  A * 10 ^ k = D -> E = x0 + k0 - 16 + k ->
  (let a := Z.max 0 (16 - x0) in let b := Z.max 0 (x0 - 16) in
   2 * Z.abs (n * 10 ^ a - D * 10 ^ k0 * (2 ^ 1074 * 10 ^ b)) <= 2 ^ 1074 * 10 ^ b /\
   2 ^ 1074 * 10 ^ b * 10 ^ 16 <= n * 10 ^ a) ->
  decimal_double s A E = DFin s m e.
Proof.
  intros Hc Hn Hk0 Hk HA HD HE [Herr Hlo]. unfold decimal_double.
  assert (-1074 <= e <= 971 /\ 0 < Zpos m < 2 ^ 53 /\ (-1074 < e -> 2 ^ 52 <= Zpos m)) as (He & Hm & Hnorm).
  { unfold canonical in Hc. apply orb_true_iff in Hc as [Hc|Hc]; bool_props; lia. }
  set (a := Z.max 0 (16 - x0)) in *. set (b := Z.max 0 (x0 - 16)) in *.
  set (P := 10 ^ Z.max 0 E). set (dd := 10 ^ Z.max 0 (- E)).
  assert (0 < 10 ^ a) as Ha by (apply pow10_pos; lia). assert (0 < 10 ^ b) as Hb by (apply pow10_pos; lia).
  assert (0 < P) as HP by (apply pow10_pos; lia). assert (0 < dd) as Hdd by (apply pow10_pos; lia).
  assert (A * P * 10 ^ a = D * 10 ^ k0 * 10 ^ b * dd) as Hid.
  { rewrite <- HD. replace (A * 10 ^ k * 10 ^ k0 * 10 ^ b * dd) with (A * (10 ^ k * 10 ^ k0 * 10 ^ b * dd)) by lia.
    unfold P, dd. rewrite <- Z.mul_assoc, <- !Z.pow_add_r by lia. do 2 f_equal. lia. }
  assert (0 < 2 ^ (e + 1074)) as HU by (apply Z.pow_pos_nonneg; lia).
  assert (0 < 2 ^ 1074) as HT by (apply Z.pow_pos_nonneg; lia).
  destruct (gap_argument (A * P * 2 ^ 1074) n (Zpos m) (2 ^ (e + 1074)) (10 ^ a) (2 ^ 1074 * 10 ^ b)
              (D * 10 ^ k0 * (2 ^ 1074 * 10 ^ b)) dd) as [G1 G2]; try done.
  - apply Z.mul_pos_pos; done.
  - transitivity (A * P * 10 ^ a * 2 ^ 1074); [ring|]. rewrite Hid. ring.
  - rewrite Z.mul_comm. exact Hlo.
  - replace e with (e + 1074 - 1074) at 1 by lia. rewrite Hn in G1, G2.
    apply round_pos_nearest; [|done|lia|done|intros; apply Hnorm; lia|exact G1|exact G2].
    apply Z.mul_nonneg_nonneg; [apply Z.mul_nonneg_nonneg|]; lia.
Qed.

(** The decimal exponent of a double fits the three digits of [%g]. *)
Lemma double_exponent n x0 :
  0 < n < 2 ^ 2098 -> 
  n * 10 ^ Z.max 0 (- x0) < 2 ^ 1074 * 10 ^ Z.max 0 x0 * 10 ->
  2 ^ 1074 * 10 ^ Z.max 0 x0 <= n * 10 ^ Z.max 0 (- x0) -> -400 < x0 < 400.
Proof.
  intros Hn H1 H2. split.
  - destruct (decide (-400 < x0)); [done|]. exfalso.
    rewrite (Z.max_l 0 x0), (Z.max_r 0 (- x0)) in H1 by lia.
    assert (10 ^ 400 <= 10 ^ (- x0)) by (apply Z.pow_le_mono_r; lia).
    assert (2 ^ 1074 * 10 ^ 0 * 10 < 10 ^ 400) by reflexivity. nia.
  - destruct (decide (x0 < 400)); [done|]. exfalso.
    rewrite (Z.max_r 0 x0), (Z.max_l 0 (- x0)) in H2 by lia.
    assert (10 ^ 400 <= 10 ^ x0) by (apply Z.pow_le_mono_r; lia).
    assert (2 ^ 2098 * 10 ^ 0 < 2 ^ 1074 * 10 ^ 400) by reflexivity.
    assert (0 < 2 ^ 1074) by reflexivity. nia.
Qed.

Lemma number_text_number s t A E :
  number_text t A E -> jnumber ((if s : bool then ["-"%byte] else []) ++ t) /\
  strtod ((if s then ["-"%byte] else []) ++ t) = (decimal_double s A E, []) /\ 0 <= A.
Proof.
  intros (i & f & e & -> & Hi & Hf & He & -> & ->).
  assert ((if s then ["-"%byte] else []) = [] \/ (if s then ["-"%byte] else []) = ["-"%byte]) as Hs
    by (destruct s; auto).
  split; [by constructor|]. split; [rewrite strtod_number by done; by destruct s|].
  apply dval_nonneg. rewrite forallb_app. apply andb_true_iff.
  assert (forall l, alldigits l -> forallb isdigit l = true) as Hall.
  { intros l Hl. apply forallb_forall. intros b Hb. apply (proj1 (Forall_forall _ _) Hl). by apply list_elem_of_In. }
  split; apply Hall; [by destruct (jint_nonempty i Hi) as (? & ? & -> & ?)|].
  destruct Hf as [|f [_ ?]]; [constructor|done].
Qed.

Lemma fmt_g17_spec d :
  isfinite d = true -> valid_double d = true ->
  jnumber (fmt_g17 d) /\ strtod (fmt_g17 d) = (d, []) /\ (length (fmt_g17 d) <= 24)%nat.
Proof.
  intros Hf Hv. destruct d as [s|s m e| |]; [| |done|done].
  - simpl. assert (number_text ["0"%byte] 0 0) as Ht.
    { exists ["0"%byte], [], []. repeat split; try done; constructor. }
    destruct (number_text_number s _ _ _ Ht) as (H1 & H2 & _). split; [done|]. rewrite H2.
    split; [by destruct s|]. destruct s; simpl; lia.
  - simpl in Hv. cbn [fmt_g17].
    assert (-1074 <= e <= 971 /\ 0 < Zpos m < 2 ^ 53) as (He & Hm).
    { unfold canonical in Hv. apply orb_true_iff in Hv as [Hc|Hc]; bool_props; lia. }
    assert (0 < 2 ^ (e + 1074)) as HU by (apply Z.pow_pos_nonneg; lia).
    assert (Z.abs (dscaled (DFin s m e)) = Zpos m * 2 ^ (e + 1074)) as ->.
    { unfold dscaled. destruct s; lia. }
    set (n := Zpos m * 2 ^ (e + 1074)).
    assert (0 < n < 2 ^ 2098) as Hn.
    { unfold n. split; [nia|].
      assert (2 ^ (e + 1074) <= 2 ^ 2045) by (apply Z.pow_le_mono_r; lia).
      replace (2 ^ 2098) with (2 ^ 53 * 2 ^ 2045) by reflexivity. nia. }
    destruct (sig17 n (2 ^ 1074)) as [D x] eqn:Es. pose proof Es as Es'.
    apply sig17_spec in Es as (HD & x0 & k0 & Hk0 & -> & Herr & Hlo & Hx1 & Hx2); [|lia|done].
    pose proof (double_exponent n x0 Hn Hx1 Hx2) as Hx.
    destruct (fmt_pos_text n (2 ^ 1074) D (x0 + k0) Es' HD) as (Hlen & A & E & k & Ht & Hk & HA & HE); [lia|].
    destruct (number_text_number s _ _ _ Ht) as (H1 & H2 & HA0). split; [done|]. split.
    + rewrite H2. f_equal. eapply (decimal_nearest s m e A E n D x0 k0 k); try done; lia.
    + rewrite length_app. destruct s; simpl; lia.
Qed.

(** ** Integers of at most 53 bits are doubles *)

Lemma double_of_Z_exact z :
  Z.abs z < 2 ^ 53 ->
  isfinite (double_of_Z z) = true /\ dscaled (double_of_Z z) = z * 2 ^ 1074.
Proof.
  intros Hz. destruct (decide (z = 0)) as [->|Hnz]; [done|].
  pose proof (Z.log2_spec (Z.abs z)) as Hl. set (k := Z.log2 (Z.abs z)) in *.
  assert (0 <= k) as Hk by apply Z.log2_nonneg.
  assert (k < 53) as Hk53 by (apply Z.log2_lt_pow2; lia).
  assert (0 < 2 ^ (52 - k)) as Hp by (apply Z.pow_pos_nonneg; lia).
  assert (2 ^ k * 2 ^ (52 - k) = 2 ^ 52) as H52 by (rewrite <- Z.pow_add_r by lia; f_equal; lia).
  assert (2 ^ (52 - k) * 2 ^ (1022 + k) = 2 ^ 1074) as Hs by (rewrite <- Z.pow_add_r by lia; f_equal; lia).
  destruct (Z.abs z * 2 ^ (52 - k)) as [|m|m] eqn:Em; [nia| |nia].
  rewrite Z.pow_succ_r in Hl by lia.
  assert (double_of_Z z = DFin (z <? 0) m (1022 + k - 1074)) as ->.
  { replace (double_of_Z z) with (round_pos (z <? 0) (Z.abs z * 2 ^ 1074) 1) by (by destruct z).
    assert (Zpos m * 2 ^ (1022 + k) = Z.abs z * 2 ^ 1074) as Hm by (rewrite <- Em, <- Hs; ring).
    assert (2 ^ 52 <= Zpos m < 2 ^ 53) as Hr.
    { rewrite <- Em, <- H52. change (2 ^ 53) with (2 * 2 ^ 52). rewrite <- H52. nia. }
    apply round_pos_nearest; rewrite ?Hm; lia. }
  split; [done|]. cbn [dscaled]. replace (1022 + k - 1074 + 1074) with (1022 + k) by lia.
  rewrite <- Em, <- Hs. destruct (z <? 0) eqn:E; bool_props; [rewrite Z.abs_neq by lia|rewrite Z.abs_eq by lia]; ring.
Qed.
