(* ===== verification/JsonSerialize.v ===== *)
(** * The JSON serializer (src/json/builtin.c, "Serializer")

    [ser_string]/[ser_value]/[builtin_serialize] over the growing buffer,
    a reference rendering [render] of abstract values, and the round trip
    through the parser. *)
From S2P Require Import Prelude Heap Utf8 Double JsonValue JsonParse JsonGrammar JsonNumber.

Local Open Scope Z_scope.

Definition k_hex : bytes := cs "0123456789abcdef".

Definition k_hex_at (i : Z) : byte := nth (Z.to_nat i) k_hex x00.

(** What the [switch] of [ser_string] appends for one byte. *)
Definition escape_byte (p : byte) : bytes :=
  if Byte.eqb p x22 then [x5c; x22]
  else if Byte.eqb p x5c then [x5c; x5c]
  else if Byte.eqb p x08 then [x5c; "b"%byte]
  else if Byte.eqb p x0c then [x5c; "f"%byte]
  else if Byte.eqb p x0a then [x5c; "n"%byte]
  else if Byte.eqb p x0d then [x5c; "r"%byte]
  else if Byte.eqb p x09 then [x5c; "t"%byte]
  else if b2z p <? 0x20 then
    [x5c; "u"; "0"; "0"; k_hex_at (Z.shiftr (b2z p) 4); k_hex_at (Z.land (b2z p) 0xF)]%byte
  else [p].

(** The loop over the bytes up to the terminating NUL; it returns early
    (without the closing quote) once an append has failed. *)
Fixpoint ser_chars (b : growbuf) (s : bytes) : M growbuf :=
  match s with
  | [] => grow_append b [x22]
  | p :: s' =>
      b <- grow_append b (escape_byte p) ;;
      if negb (gok b) then ret b else ser_chars b s'
  end.

Definition ser_string (b : growbuf) (s : bytes) : M growbuf :=
  b <- grow_append b [x22] ;; ser_chars b (cstr s).

(** [ser_value]; [nb] has room for 31 bytes and the NUL. *)
Fixpoint ser_value (b : growbuf) (v : value) : M growbuf :=
  if negb (gok b) then ret (GrowBuf (gdata b) (gcap b) false) else
  match v with
  | VNull => grow_append b (cs "null")
  | VBool x => grow_append b (if x then cs "true" else cs "false")
  | VNumber d => grow_append b (take 31 (fmt_g17 d))
  | VString s => ser_string b s
  | VArray _ items =>
      b <- grow_append b ["["%byte] ;;
      b <- (fix go (first : bool) (b : growbuf) (l : list value) : M growbuf :=
              match l with
              | [] => ret b
              | x :: l' =>
                  b <- (if first then ret b else grow_append b [","%byte]) ;;
                  b <- ser_value b x ;;
                  go false b l'
              end) true b items ;;
      grow_append b ["]"%byte]
  | VObject _ members =>
      b <- grow_append b ["{"%byte] ;;
      b <- (fix go (first : bool) (b : growbuf) (l : list (bytes * value)) : M growbuf :=
              match l with
              | [] => ret b
              | (k, x) :: l' =>
                  b <- (if first then ret b else grow_append b [","%byte]) ;;
                  b <- ser_string b k ;;
                  b <- grow_append b [":"%byte] ;;
                  b <- ser_value b x ;;
                  go false b l'
              end) true b members ;;
      grow_append b ["}"%byte]
  end.

Definition builtin_serialize (v : option value) : M (option bytes) :=
  match v with
  | None => ret None
  | Some v =>
      b <- ser_value empty_buf v ;;
      if negb (gok b) then xfree (isnull0 (gcap b)) ;; ret None
      else if isnull0 (gcap b) then
        data <- xmalloc ;; ret (if data then Some [] else None)
      else ret (Some (gdata b))
  end.

(** ** Reference rendering *)

Definition render_string (s : bytes) : bytes := x22 :: concat (map escape_byte s) ++ [x22].

Fixpoint sep (l : list bytes) : bytes :=
  match l with
  | [] => []
  | [x] => x
  | x :: l' => x ++ ","%byte :: sep l'
  end.

Fixpoint render (j : json) : bytes :=
  match j with
  | JNull => cs "null"
  | JBool b => if b then cs "true" else cs "false"
  | JNumber d => fmt_g17 d
  | JString s => render_string s
  | JArray l => "["%byte :: sep (map render l) ++ ["]"%byte]
  | JObject l => "{"%byte :: sep (map (fun kv => render_string kv.1 ++ ":"%byte :: render kv.2) l) ++ ["}"%byte]
  end.

(** ** The serializer appends the rendering *)

(** [writes m b s]: whatever the allocator does, [m] keeps the buffer
    invariant and the block count, has appended [s] if the buffer is still
    good, and the buffer is still good when memory is ample. *)
Definition writes (m : M growbuf) (b : growbuf) (s : bytes) : Prop :=
  forall h b' h', m h = (b', h') -> ginv b ->
  hstep h h' (buffer (gcap b') - buffer (gcap b)) /\ ginv b' /\
  (gok b' = true -> gok b = true /\ gdata b' = gdata b ++ s) /\
  (ample h -> gok b = true -> gok b' = true).

Lemma grow_append_writes b s : writes (grow_append b s) b s.
Proof. intros h b' h' H Hb. by apply grow_append_spec in H. Qed.

Lemma ret_writes b : writes (ret b) b [].
Proof.
  intros h b' h' H Hb. minv H. split; [hsolve|]. split; [done|]. rewrite app_nil_r. auto.
Qed.

Lemma bind_writes m b s1 f s2 :
  writes m b s1 -> (forall b1, writes (f b1) b1 s2) -> writes (bind m f) b (s1 ++ s2).
Proof.
  intros Hm Hf h b' h' H Hb. apply bind_inv in H as (b1 & h1 & E & H).
  destruct (Hm _ _ _ E Hb) as (Hs1 & Hb1 & Hd1 & Ha1).
  destruct (Hf _ _ _ _ H Hb1) as (Hs2 & Hb' & Hd2 & Ha2). clear E H.
  split; [hsolve|]. split; [done|]. split.
  - intros Hok. destruct (Hd2 Hok) as [Hok1 ->]. destruct (Hd1 Hok1) as [? ->]. by rewrite app_assoc.
  - intros A Hok. apply Ha2; [by eapply ample_hstep|auto].
Qed.

(** Skipping the work once the buffer has failed changes nothing. *)
Lemma guard_writes m b b0 s :
  writes m b s -> gcap b0 = gcap b -> gdata b0 = gdata b -> gok b0 = false ->
  writes (if negb (gok b) then ret b0 else m) b s.
Proof.
  intros Hm Hc Hd Ho h b' h' H Hb. destruct (gok b) eqn:E; simpl in H.
  - specialize (Hm h b' h' H Hb) as (H1 & H2 & H3 & H4). rewrite E in *. done.
  - minv H. split; [rewrite Hc; hsolve|]. split; [intros Hz; rewrite Hd; apply Hb; congruence|].
    split; [congruence|done].
Qed.

Lemma ser_chars_writes s : forall b, writes (ser_chars b s) b (concat (map escape_byte s) ++ [x22]).
Proof.
  induction s as [|p s IH]; intros b; cbn [ser_chars map concat]; [apply grow_append_writes|].
  rewrite <- app_assoc. apply bind_writes; [apply grow_append_writes|].
  intros b1 h b' h' H Hb. destruct (gok b1) eqn:E; simpl in H.
  - specialize (IH b1 h b' h' H Hb). by rewrite E in IH.
  - minv H. split; [hsolve|]. split; [done|]. split; [congruence|congruence].
Qed.

Lemma ser_string_writes b s : writes (ser_string b s) b (render_string (cstr s)).
Proof. apply (bind_writes _ _ [x22]); [apply grow_append_writes|]. intros. apply ser_chars_writes. Qed.

(** [sep] with a comma before every element but the first. *)
Definition commas (first : bool) (l : list bytes) : bytes :=
  match first, l with
  | false, _ :: _ => ","%byte :: sep l
  | _, _ => sep l
  end.

Lemma commas_cons first x l :
  commas first (x :: l) = (if first then [] else [","%byte]) ++ x ++ commas false l.
Proof. destruct first, l; simpl; by rewrite ?app_nil_r. Qed.

(** Well formed numbers fit [nb]. *)
Lemma ser_value_writes v : wf v -> forall b, writes (ser_value b v) b (render (erase v)).
Proof.
  induction v as [|x|d|s|c l IH|c l IH] using value_ind'; intros Hwf b; cbn [ser_value erase render];
    (apply guard_writes; [|done..]).
  - apply grow_append_writes.
  - apply grow_append_writes.
  - destruct Hwf as [Hf Hv]. destruct (fmt_g17_spec d Hf Hv) as (_ & _ & Hl).
    rewrite take_ge by lia. apply grow_append_writes.
  - destruct Hwf as [Hn _]. rewrite <- (cstr_no_nul s Hn) at 2. apply ser_string_writes.
  - apply (bind_writes _ _ ["["%byte]); [apply grow_append_writes|]. intros b1.
    apply bind_writes; [|intros; apply grow_append_writes].
    apply wf_array in Hwf as [_ Hwf]. change (sep _) with (commas true (map render (map erase l))).
    clear b. generalize true as first. revert b1. induction l as [|x l IHl]; intros b1 first.
    + destruct first; apply ret_writes.
    + apply Forall_cons in IH as [Hx IH]. apply Forall_cons in Hwf as [Hwx Hwf].
      cbn [map]. rewrite commas_cons. apply bind_writes; [destruct first; [apply ret_writes|apply grow_append_writes]|].
      intros b2. apply bind_writes; [by apply Hx|]. intros b3. by apply IHl.
  - apply (bind_writes _ _ ["{"%byte]); [apply grow_append_writes|]. intros b1.
    apply bind_writes; [|intros; apply grow_append_writes].
    apply wf_object in Hwf as (_ & _ & Hwf). change (sep ?x) with (commas true x).
    clear b. generalize true as first. revert b1. induction l as [|[k x] l IHl]; intros b1 first.
    + destruct first; apply ret_writes.
    + apply Forall_cons in IH as [Hx IH]. apply Forall_cons in Hwf as [[[Hkn _] Hwx] Hwf].
      cbn [map fst snd]. rewrite commas_cons.
      apply bind_writes; [destruct first; [apply ret_writes|apply grow_append_writes]|].
      intros b2. rewrite <- app_assoc. apply bind_writes.
      { simpl in Hkn. rewrite <- (cstr_no_nul k Hkn) at 2. apply ser_string_writes. }
      intros b3. apply (bind_writes _ _ [":"%byte]); [apply grow_append_writes|].
      intros b4. apply bind_writes; [by apply Hx|]. intros b5. by apply IHl.
Qed.

(** ** The rendering is in the grammar *)

(** How each byte is escaped, by computation over the 256 bytes. *)
Definition escape_ok (p : byte) : bool :=
  match escape_byte p with
  | [c] => Byte.eqb c p && negb (Byte.eqb p x22) && negb (Byte.eqb p x5c) && (0x20 <=? b2z p)
  | [b; e] => Byte.eqb b x5c && bool_decide (simple_escape e = Some p)
  | [b; u; h1; h2; h3; h4] =>
      Byte.eqb b x5c && Byte.eqb u "u"%byte &&
      match hex_val h1, hex_val h2, hex_val h3, hex_val h4 with
      | Some x, Some y, Some z, Some w =>
          let v := ((x * 16 + y) * 16 + z) * 16 + w in
          (v <? 0x80) && bool_decide (utf8_encode v = [p])
      | _, _, _, _ => false
      end
  | _ => false
  end.

Lemma escape_byte_ok p : escape_ok p = true.
Proof. revert p. apply all_bytes_forall. by vm_compute. Qed.

Lemma jchars_escape s : jchars (concat (map escape_byte s)) s.
Proof.
  induction s as [|p s IH]; [constructor|]. cbn [map concat]. pose proof (escape_byte_ok p) as H.
  unfold escape_ok in H. destruct (escape_byte p) as [|b [|e [|h1 [|h2 [|h3 [|h4 [|? ?]]]]]]]; try done.
  - bool_props. subst b. apply byte_eqb_neq in H2, H1. by constructor.
  - apply andb_true_iff in H as [Hb He]. apply bool_decide_eq_true in He. bool_props. subst b.
    by apply jchars_esc.
  - destruct (hex_val h1) as [x|] eqn:E1; [|by rewrite andb_false_r in H].
    destruct (hex_val h2) as [y|] eqn:E2; [|by rewrite andb_false_r in H].
    destruct (hex_val h3) as [z|] eqn:E3; [|by rewrite andb_false_r in H].
    destruct (hex_val h4) as [w|] eqn:E4; [|by rewrite andb_false_r in H].
    apply andb_true_iff in H as [H H']. cbv zeta in H'. apply andb_true_iff in H' as [Hv He].
    apply bool_decide_eq_true in He. bool_props. subst b e. change (p :: s) with ([p] ++ s). rewrite <- He.
    change ((x5c :: "u"%byte :: [h1; h2; h3; h4]) ++ concat (map escape_byte s))
      with (x5c :: "u"%byte :: [h1; h2; h3; h4] ++ concat (map escape_byte s)).
    constructor; [|done]. constructor; [by constructor|]. lia.
Qed.

(** The nesting depth of a value. *)
Fixpoint jdepth (j : json) : Z :=
  match j with
  | JArray l => 1 + foldr (fun x n => Z.max (jdepth x) n) 0 l
  | JObject l => 1 + foldr (fun kv n => Z.max (jdepth kv.2) n) 0 l
  | _ => 0
  end.

Lemma foldl_jinsert l acc :
  NoDup (map fst (acc ++ l)) -> Forall (fun kv => has_nul kv.1 = false) l ->
  foldl (fun acc kv => jinsert (cstr kv.1) kv.2 acc) acc l = acc ++ l.
Proof.
  revert acc. induction l as [|[k v] l IH]; intros acc Hnd Hn; simpl; [by rewrite app_nil_r|].
  apply Forall_cons in Hn as [Hk Hn]. simpl in Hk. rewrite cstr_no_nul by done.
  assert (jinsert k v acc = acc ++ [(k, v)]) as ->.
  { rewrite map_app in Hnd. apply NoDup_app in Hnd as (_ & Hd & _). clear IH.
    induction acc as [|[k' v'] acc IHa]; [done|]. simpl in *.
    rewrite bool_decide_false by (intros ->; apply (Hd k); set_solver).
    f_equal. apply IHa. set_solver. }
  rewrite IH; rewrite <- ?app_assoc; done.
Qed.

Lemma jitems_sep d l :
  l <> [] -> Forall (fun j => jvalue d (render j) j) l -> jitems d (sep (map render l)) l.
Proof.
  intros Hne H. induction H as [|j l Hj H IH]; [done|]. destruct l as [|j' l].
  - simpl. rewrite <- (app_nil_r (render j)). change (render j ++ []) with ([] ++ render j ++ []).
    constructor; [constructor|done|constructor].
  - change (sep (map render (j :: j' :: l))) with ([] ++ render j ++ [] ++ ","%byte :: sep (map render (j' :: l))).
    constructor; [constructor|done|constructor|]. by apply IH.
Qed.

Definition render_member (kv : bytes * json) : bytes := render_string kv.1 ++ ":"%byte :: render kv.2.

Lemma jmembers_sep d l :
  l <> [] -> Forall (fun kv => utf8_valid kv.1 = true /\ jvalue d (render kv.2) kv.2) l ->
  jmembers d (sep (map render_member l)) l.
Proof.
  intros Hne H. induction H as [|[k j] l [Hk Hj] H IH]; [done|]. simpl in Hk, Hj.
  destruct l as [|kv l].
  - change (sep (map render_member [(k, j)])) with (render_string k ++ ":"%byte :: render j).
    unfold render_string. rewrite <- (app_nil_r (render j)). cbn [app]. rewrite <- app_assoc.
    apply (jm_one d [] (concat (map escape_byte k)) k [] [] (render j) [] j);
      [constructor|apply jchars_escape|done|constructor|constructor|done|constructor].
  - change (sep (map render_member ((k, j) :: kv :: l)))
      with ((render_string k ++ ":"%byte :: render j) ++ ","%byte :: sep (map render_member (kv :: l))).
    unfold render_string. cbn [app]. rewrite <- !app_assoc. cbn [app].
    apply (jm_cons d [] (concat (map escape_byte k)) k [] [] (render j) [] j);
      [constructor|apply jchars_escape|done|constructor|constructor|done|constructor|].
    by apply IH.
Qed.

Lemma render_jvalue v : wf v -> forall d, jdepth (erase v) <= d -> jvalue d (render (erase v)) (erase v).
Proof.
  induction v as [|x|d|s|c l IH|c l IH] using value_ind'; intros Hwf dp Hd.
  - constructor.
  - destruct x; constructor.
  - destruct Hwf as [Hf Hv]. destruct (fmt_g17_spec d Hf Hv) as (Hn & Hs & _).
    simpl. econstructor; [done| |done]. by rewrite Hs.
  - destruct Hwf as [Hn Hu]. cbn [erase render]. rewrite <- (cstr_no_nul s Hn) at 2.
    constructor; [apply jchars_escape|done].
  - apply wf_array in Hwf as [_ Hwf]. cbn [erase render jdepth] in *.
    destruct l as [|x l]; [apply (jv_array0 dp []); [simpl in Hd; lia|constructor]|].
    assert (0 <= foldr (fun x n => Z.max (jdepth x) n) 0 (map erase (x :: l))).
    { generalize (map erase (x :: l)). intros m. induction m; simpl; lia. }
    constructor; [lia|]. apply jitems_sep; [done|].
    assert (foldr (fun x n => Z.max (jdepth x) n) 0 (map erase (x :: l)) <= dp - 1) as Hd' by lia.
    clear - IH Hwf Hd'. induction (x :: l) as [|y m IHm]; [constructor|].
    apply Forall_cons in IH as [Hy IH]. apply Forall_cons in Hwf as [Hwy Hwf]. simpl in *.
    constructor; [apply Hy; [done|lia]|]. apply IHm; [done..|lia].
  - pose proof Hwf as (_ & Hnd & Hwf')%wf_object. cbn [erase render jdepth] in *.
    destruct l as [|x l]; [apply (jv_object0 dp []); [simpl in Hd; lia|constructor]|].
    fold render_member. change (fun kv : bytes * value => (kv.1, erase kv.2)) with emember in *.
    set (m := map emember (x :: l)) in *.
    assert (0 <= foldr (fun kv n => Z.max (jdepth kv.2) n) 0 m).
    { generalize m. clear. intros m. induction m; simpl; lia. }
    assert (foldl (fun acc kv => jinsert (cstr kv.1) kv.2 acc) [] m = m) as Hm.
    { apply (foldl_jinsert m []).
      - simpl. unfold m. rewrite map_map. done.
      - unfold m. apply Forall_map. eapply Forall_impl; [exact Hwf'|]. by intros [? ?] [[? ?] ?]. }
    rewrite <- Hm at 2. change (fun kv => render_string kv.1 ++ ":"%byte :: render kv.2) with render_member.
    constructor; [lia|]. apply jmembers_sep; [done|].
    assert (foldr (fun kv n => Z.max (jdepth kv.2) n) 0 m <= dp - 1) as Hd' by lia.
    clear - IH Hwf' Hd'. unfold m in *. clear m. induction (x :: l) as [|[k y] m IHm]; [constructor|].
    apply Forall_cons in IH as [Hy IH]. apply Forall_cons in Hwf' as [[[_ Hu] Hwy] Hwf]. simpl in *.
    constructor; [split; [done|apply Hy; [done|lia]]|]. apply IHm; [done..|lia].
Qed.

(** ** The rendering is valid UTF-8 *)

Definition ascii (s : bytes) : Prop := Forall (fun b => b2z b < 0x80) s.

Lemma ascii_utf8 s : ascii s -> utf8_valid s = true.
Proof.
  intros H. apply utf8_text_valid. exists (map b2z s). split.
  - apply Forall_map. eapply Forall_impl; [exact H|]. intros b Hb. pose proof (b2z_range b).
    unfold scalar. simpl. lia.
  - induction H as [|b s Hb H IH]; [done|]. cbn [map concat]. rewrite <- IH.
    unfold utf8_encode. by rewrite (proj2 (Z.ltb_lt _ _) Hb), z2b_b2z.
Qed.

Lemma escape_utf8_bool p :
  (if b2z p <? 0x80 then forallb (fun b => b2z b <? 0x80) (escape_byte p)
   else bool_decide (escape_byte p = [p])) = true.
Proof. revert p. apply all_bytes_forall. by vm_compute. Qed.

Lemma escape_low p : b2z p < 0x80 -> ascii (escape_byte p).
Proof.
  intros Hp. pose proof (escape_utf8_bool p) as H. rewrite (proj2 (Z.ltb_lt _ _) Hp) in H.
  rewrite forallb_forall in H. apply Forall_forall. intros b Hb. apply Z.ltb_lt, H.
  by apply list_elem_of_In.
Qed.

Lemma escape_high p : 0x80 <= b2z p -> escape_byte p = [p].
Proof.
  intros Hp. pose proof (escape_utf8_bool p) as H. rewrite (proj2 (Z.ltb_ge _ _) Hp) in H.
  by apply bool_decide_eq_true in H.
Qed.

(** The bytes of a code point beyond ASCII are all beyond ASCII. *)
Lemma encode_high cp : scalar cp -> 0x80 <= cp -> Forall (fun b => 0x80 <= b2z b) (utf8_encode cp).
Proof.
  intros Hs Hc. unfold scalar in Hs.
  assert (0x80 <= cp < 0x800 \/ 0x800 <= cp < 0x10000 \/ 0x10000 <= cp < 0x110000) as H by lia.
  destruct_or! H; [rewrite utf8_encode_2 by lia|rewrite utf8_encode_3 by lia|rewrite utf8_encode_4 by lia];
    repeat constructor; rewrite b2z_z2b by dlia; dlia.
Qed.

Lemma escape_utf8 s : utf8_valid s = true -> utf8_valid (concat (map escape_byte s)) = true.
Proof.
  intros (cps & Hcps & ->)%utf8_valid_text. induction Hcps as [|cp cps Hcp _ IH]; [done|].
  cbn [map concat]. rewrite map_app, concat_app. destruct (decide (cp < 0x80)) as [Hlo|Hhi].
  - rewrite utf8_valid_app; [done|]. apply ascii_utf8. unfold scalar in Hcp. unfold utf8_encode.
    rewrite (proj2 (Z.ltb_lt _ _) Hlo). cbn [map concat]. rewrite app_nil_r. apply escape_low.
    rewrite b2z_z2b; lia.
  - assert (concat (map escape_byte (utf8_encode cp)) = utf8_encode cp) as ->;
      [|by rewrite utf8_encode_accepted].
    assert (Forall (fun b => 0x80 <= b2z b) (utf8_encode cp)) as H by (apply encode_high; [done|lia]).
    induction H as [|b l Hb _ IHl]; [done|]. cbn [map concat]. by rewrite IHl, escape_high.
Qed.

Lemma digit_ascii b : isdigit b = true -> b2z b < 0x80.
Proof. unfold isdigit. intros. bool_props. lia. Qed.

Lemma digits_ascii s : Forall (fun b => isdigit b = true) s -> ascii s.
Proof. intros H. eapply Forall_impl; [exact H|]. apply digit_ascii. Qed.

Lemma jnumber_ascii s : jnumber s -> ascii s.
Proof.
  intros [sg i f e Hs Hi Hf He]. unfold ascii. rewrite !Forall_app. split_and!.
  - destruct Hs as [-> | ->]; by repeat constructor.
  - destruct Hi; [by repeat constructor|]. constructor; [by apply digit_ascii|by apply digits_ascii].
  - destruct Hf as [|s' [_ H]]; [constructor|]. constructor; [done|by apply digits_ascii].
  - destruct He as [|x y z Hx Hy [_ H]]; [constructor|]. constructor; [by destruct Hx; subst|].
    apply Forall_app. split; [|by apply digits_ascii]. destruct_or! Hy; subst; by repeat constructor.
Qed.

Lemma sep_utf8 l : Forall (fun s => utf8_valid s = true) l -> utf8_valid (sep l) = true.
Proof.
  intros H. induction H as [|x l Hx H IH]; [done|]. destruct l as [|y l]; [done|].
  change (sep (x :: y :: l)) with (x ++ [","%byte] ++ sep (y :: l)). by rewrite !utf8_valid_app.
Qed.

Lemma render_string_utf8 s : utf8_valid s = true -> utf8_valid (render_string s) = true.
Proof.
  intros H. unfold render_string. change (x22 :: ?l ++ [x22]) with ([x22] ++ l ++ [x22]).
  rewrite !utf8_valid_app; [done|by apply escape_utf8|done].
Qed.

(** ** Decimal integers *)

Lemma fmt_int_digits n : 0 <= n -> alldigits (fmt_int n) /\ dval (fmt_int n) = n /\ fmt_int n <> [].
Proof.
  intros Hn. unfold fmt_int. rewrite (proj2 (Z.ltb_ge n 0)), Z.abs_eq by lia. cbn [app].
  destruct (Z.eqb_spec n 0) as [->|Hne]; [by split_and!; [repeat constructor| |]|].
  destruct (ndigits_spec n) as [Hk Hlt]; [lia|]. set (k := ndigits n) in *.
  destruct (digits_of_spec (Z.to_nat k) n Hn) as (Hl & Ha & Hd). split; [done|]. rewrite Hd, Z2Nat.id by lia.
  split; [apply Z.mod_small; lia|]. intros He. rewrite He in Hl. simpl in Hl. lia.
Qed.

Lemma digits_no_nul s : alldigits s -> has_nul s = false.
Proof.
  intros H. induction H as [|b s Hb _ IH]; [done|]. rewrite has_nul_cons, IH, orb_false_r.
  apply byte_eqb_neq. by intros <-.
Qed.

Lemma fmt_int_text n : 0 <= n -> has_nul (fmt_int n) = false /\ utf8_valid (fmt_int n) = true.
Proof.
  intros Hn. destruct (fmt_int_digits n Hn) as (Ha & _ & _). split; [by apply digits_no_nul|]. by apply ascii_utf8, digits_ascii.
Qed.

(** ** The text has no control characters

    So [strlen] measures it, and it is a line. *)

Definition printable (b : byte) : bool := 0x20 <=? b2z b.

Definition all_printable (s : bytes) : Prop := Forall (fun b => printable b = true) s.

Lemma printable_no_nul s : all_printable s -> has_nul s = false.
Proof.
  intros H. induction H as [|b s Hb _ IH]; [done|]. rewrite has_nul_cons, IH, orb_false_r. apply byte_eqb_neq. by intros <-.
Qed.

Lemma printable_not_in b s : printable b = false -> all_printable s -> b ∉ s.
Proof. unfold all_printable. intros Hb H Hin. rewrite Forall_forall in H. by rewrite (H _ Hin) in Hb. Qed.

Lemma escape_printable p : all_printable (escape_byte p).
Proof.
  apply Forall_forall. intros b Hb.
  assert (forallb printable (escape_byte p) = true) as H by exact (all_bytes_forall (fun p => forallb printable (escape_byte p)) ltac:(by vm_compute) p).
  rewrite forallb_forall in H. apply H. by apply list_elem_of_In.
Qed.

Lemma digits_printable s : alldigits s -> all_printable s.
Proof.
  intros H. eapply Forall_impl; [exact H|]. intros b Hb. cbn in Hb. unfold isdigit in Hb. apply andb_true_iff in Hb as [Hb _]. unfold printable. lia.
Qed.

Lemma render_string_printable s : all_printable (render_string s).
Proof.
  unfold render_string. constructor; [done|]. apply Forall_app. split; [|by repeat constructor].
  apply Forall_concat, Forall_map, Forall_true. intros p. apply escape_printable.
Qed.

Lemma sep_printable l : Forall all_printable l -> all_printable (sep l).
Proof.
  intros H. induction H as [|s l Hs H IH]; [constructor|]. destruct l as [|s' l]; [done|].
  change (sep (s :: s' :: l)) with (s ++ ","%byte :: sep (s' :: l)). apply Forall_app. split; [done|]. by constructor.
Qed.

Lemma jnumber_printable s : jnumber s -> all_printable s.
Proof.
  intros [sg i f e Hs Hi Hf He]. unfold all_printable. rewrite !Forall_app. split_and!.
  - destruct Hs; subst; by repeat constructor.
  - destruct Hi; [by repeat constructor|]. apply digits_printable. by constructor.
  - destruct Hf as [|s' [_ H]]; [constructor|]. constructor; [done|]. by apply digits_printable.
  - destruct He as [|y sg' s' Hx Hy [_ H]]; [constructor|]. constructor; [by destruct_or! Hx; subst|]. apply Forall_app.
    split; [|by apply digits_printable]. destruct_or! Hy; subst; by repeat constructor.
Qed.

Lemma render_printable v : wf v -> all_printable (render (erase v)).
Proof.
  induction v as [|x|d|s|c l IH|c l IH] using value_ind'; intros Hwf; cbn [erase render].
  - by repeat constructor.
  - destruct x; by repeat constructor.
  - destruct Hwf as [Hf Hv]. destruct (fmt_g17_spec d Hf Hv) as (Hn & _ & _). by apply jnumber_printable.
  - apply render_string_printable.
  - apply wf_array in Hwf as [_ Hwf]. constructor; [done|]. apply Forall_app. split; [|by repeat constructor].
    apply sep_printable. rewrite map_map. apply Forall_map.
    eapply Forall_impl; [apply Forall_and; split; [exact IH|exact Hwf]|]. intros x [H ?]. by apply H.
  - apply wf_object in Hwf as (_ & _ & Hwf). constructor; [done|]. apply Forall_app. split; [|by repeat constructor].
    apply sep_printable. rewrite map_map. apply Forall_map.
    eapply Forall_impl; [apply Forall_and; split; [exact IH|exact Hwf]|]. intros [k x] [H [[? ?] ?]]. cbn [fst snd] in *.
    apply Forall_app. split; [apply render_string_printable|]. constructor; [done|]. by apply H.
Qed.

Lemma render_no_nul v : wf v -> has_nul (render (erase v)) = false.
Proof. intros H. by apply printable_no_nul, render_printable. Qed.

Lemma render_utf8 v : wf v -> utf8_valid (render (erase v)) = true.
Proof.
  induction v as [|x|d|s|c l IH|c l IH] using value_ind'; intros Hwf; cbn [erase render].
  - done.
  - by destruct x.
  - destruct Hwf as [Hf Hv]. destruct (fmt_g17_spec d Hf Hv) as (Hn & _ & _).
    by apply ascii_utf8, jnumber_ascii.
  - destruct Hwf as [Hn Hu]. by apply render_string_utf8.
  - apply wf_array in Hwf as [_ Hwf]. change ("["%byte :: ?l ++ ?e) with (["["%byte] ++ l ++ e).
    rewrite !utf8_valid_app; [done| |done]. apply sep_utf8. rewrite map_map. apply Forall_map.
    eapply Forall_impl; [apply Forall_and; split; [exact IH|exact Hwf]|]. intros x [H ?]. by apply H.
  - apply wf_object in Hwf as (_ & _ & Hwf). change ("{"%byte :: ?l ++ ?e) with (["{"%byte] ++ l ++ e).
    rewrite !utf8_valid_app; [done| |done]. apply sep_utf8. rewrite map_map. apply Forall_map.
    eapply Forall_impl; [apply Forall_and; split; [exact IH|exact Hwf]|]. intros [k x] [H [[? ?] ?]].
    cbn [fst snd] in *. change (":"%byte :: ?l) with ([":"%byte] ++ l).
    rewrite !utf8_valid_app; [by apply H|done|by apply render_string_utf8].
Qed.

(** ** [builtin_serialize] *)

Lemma render_nonempty v : wf v -> render (erase v) <> [].
Proof.
  destruct v as [|[]|d|s|c l|c l]; intros Hwf; cbn; try done.
  destruct Hwf as [Hf Hv]. destruct (fmt_g17_spec d Hf Hv) as ([sg i f e _ Hi _ _] & _ & _).
  destruct Hi; by destruct sg.
Qed.

Lemma serialize_spec v h r h' :
  builtin_serialize (Some v) h = (r, h') -> wf v ->
  match r with
  | Some text => hstep h h' 1 /\ text = render (erase v)
  | None => hstep h h' 0 /\ ~ ample h
  end.
Proof.
  intros H Hwf. unfold builtin_serialize in H. apply bind_inv in H as (b & h1 & E & H).
  destruct (ser_value_writes v Hwf empty_buf h b h1 E) as (Hs & Hi & Hd & Ha); [done|].
  change (buffer (gcap empty_buf)) with 0 in Hs. destruct (gok b) eqn:Hok; cbn [negb] in H.
  - destruct (Hd eq_refl) as [_ Hd']. change (gdata empty_buf) with (@nil byte) in Hd'. simpl in Hd'.
    destruct (isnull0 (gcap b)) eqn:En.
    { exfalso. apply (render_nonempty v Hwf). rewrite <- Hd'. apply Hi. by apply Nat.eqb_eq. }
    minv H. split; [|done]. unfold buffer in Hs. rewrite En in Hs. hsolve.
  - minv H. split.
    + unfold buffer in *. destruct (isnull0 (gcap b)); hsolve.
    + intros A. by specialize (Ha A eq_refl).
Qed.

(** ** Claims *)

(** The serializer writes exactly the reference rendering of the value,
    in one block, or returns NULL having given every block back; it returns
    NULL only when an allocation was refused. *)
Theorem serialize_render v h :
  wf v ->
  match builtin_serialize (Some v) h with
  | (Some text, h') => hstep h h' 1 /\ text = render (erase v)
  | (None, h') => hstep h h' 0 /\ ~ ample h
  end.
Proof.
  intros Hwf. destruct (builtin_serialize (Some v) h) as [r h'] eqn:E.
  by apply serialize_spec in E; [destruct r|].
Qed.

(** C3: Round trip: with memory available, serializing a well formed tree
    nested at most 128 deep and parsing the text again gives back a tree with
    the same contents: the same numbers bit for bit, the same strings, the
    same members in the same order. *)
Theorem serialize_parse_roundtrip v h :
  ample h -> wf v -> jdepth (erase v) <= MCP_JSON_MAX_DEPTH ->
  exists text h1 v' h2,
    builtin_serialize (Some v) h = (Some text, h1) /\
    builtin_parse (Some text) h1 = (Got v', h2) /\
    erase v' = erase v.
Proof.
  intros Ha Hwf Hd. destruct (builtin_serialize (Some v) h) as [[text|] h1] eqn:E;
    apply serialize_spec in E; try done; destruct E as [Hs Ht]; [|done].
  destruct (builtin_parse_complete text (erase v) h1) as (v' & h2 & E2 & Hv').
  - by eapply ample_hstep.
  - subst. by apply render_utf8.
  - exists [], text, []. split; [constructor|]. split; [constructor|]. rewrite app_nil_r. split; [done|].
    subst. by apply render_jvalue.
  - by exists text, h1, v', h2.
Qed.

(** Numbers survive the text form: every finite double is printed with
    "%.17g" as a number of the JSON grammar of at most 24 bytes, so the
    32-byte buffer never truncates it, and [strtod] reads the same double
    back, bit for bit. *)
Theorem number_roundtrip d :
  isfinite d = true -> valid_double d = true ->
  jnumber (render (JNumber d)) /\ take 31 (fmt_g17 d) = render (JNumber d) /\
  strtod (render (JNumber d)) = (d, []) /\ (length (render (JNumber d)) <= 24)%nat.
Proof.
  intros Hf Hv. destruct (fmt_g17_spec d Hf Hv) as (Hj & Hs & Hl). cbn [render].
  split; [done|]. split; [by apply take_ge; lia|]. done.
Qed.

Definition sample : value := VArray 4 [VBool true; VString (cs "a"); VObject 4 [(cs "k", VNull)]].

Lemma sample_wf : wf sample.
Proof.
  apply wf_array. split; [simpl; lia|].
  repeat constructor; try done; try (simpl; lia). all: set_solver.
Qed.

Lemma serialize_render_witness :
  match builtin_serialize (Some sample) fresh_heap with
  | (Some text, h') => hstep fresh_heap h' 1 /\ text = render (erase sample)
  | (None, h') => hstep fresh_heap h' 0 /\ ~ ample fresh_heap
  end.
Proof. apply (serialize_render sample fresh_heap), sample_wf. Defined.

Lemma serialize_parse_roundtrip_witness :
  exists text h1 v' h2,
    builtin_serialize (Some sample) fresh_heap = (Some text, h1) /\
    builtin_parse (Some text) h1 = (Got v', h2) /\
    erase v' = erase sample.
Proof.
  apply (serialize_parse_roundtrip sample fresh_heap);
    [apply fresh_ample|apply sample_wf|by vm_compute].
Defined.

(** 0.1 *)
Definition tenth : double := (strtod (cs "0.1")).1.

Lemma number_roundtrip_witness :
  jnumber (render (JNumber tenth)) /\ take 31 (fmt_g17 tenth) = render (JNumber tenth) /\
  strtod (render (JNumber tenth)) = (tenth, []) /\ (length (render (JNumber tenth)) <= 24)%nat.
Proof. apply (number_roundtrip tenth); [by vm_compute|by vm_compute]. Defined.
