(* ===== verification/JsonApi.v ===== *)
(** * The public JSON API (src/json/api.c, include/mcpkit/json/json.h)

    The table of backend operations, what the table promises ([Lawful]), the
    dispatch through the context, and the two operations the API layer adds
    itself: [mcp_json_object_set_take] and the deep copy [mcp_json_clone].
    The copy is proved against the promises, for any backend that keeps
    them; the built-in backend is shown to keep them. *)
From S2P Require Import Prelude Heap Utf8 Double JsonValue JsonParse JsonGrammar JsonNumber JsonSerialize.

Local Open Scope Z_scope.

(** ** The operations table *)

Record backend := Backend {
  node : Type;
  ops_parse : option bytes -> M (option node);
  ops_serialize : option node -> M (option bytes);
  ops_free_string : option bytes -> M unit;
  ops_destroy : option node -> M unit;
  ops_type_of : option node -> mcp_json_type_t;
  ops_get_bool : option node -> option bool;
  ops_get_number : option node -> option double;
  ops_get_string : option node -> option bytes;
  ops_new_null : M (option node);
  ops_new_bool : bool -> M (option node);
  ops_new_number : double -> M (option node);
  ops_new_string_n : option bytes -> M (option node);
  ops_new_array : M (option node);
  ops_new_object : M (option node);
  ops_object_set : option node -> option bytes -> option node -> M (mcp_status_t * option node);
  ops_object_get : option node -> option bytes -> option node;
  ops_object_has : option node -> option bytes -> bool;
  ops_object_size : option node -> nat;
  ops_object_key_at : option node -> nat -> option bytes;
  ops_array_append : option node -> option node -> M (mcp_status_t * option node);
  ops_array_get : option node -> nat -> option node;
  ops_array_size : option node -> nat;
}.

(** [builtin_free_string]. *)
Definition builtin_free_string (s : option bytes) : M unit :=
  xfree (match s with None => true | Some _ => false end).

(** The pointer [builtin_parse] returns ([OutOfFuel] never happens,
    [parse_terminates]). *)
Definition parsed (r : presult value) : option value :=
  match r with Got v => Some v | _ => None end.

Definition mcp_json_builtin_backend : backend := {|
  node := value;
  ops_parse t := (r <- builtin_parse t ;; ret (parsed r));
  ops_serialize := builtin_serialize;
  ops_free_string := builtin_free_string;
  ops_destroy := builtin_destroy;
  ops_type_of := builtin_type_of;
  ops_get_bool := builtin_get_bool;
  ops_get_number := builtin_get_number;
  ops_get_string := builtin_get_string;
  ops_new_null := builtin_new_null;
  ops_new_bool := builtin_new_bool;
  ops_new_number := builtin_new_number;
  ops_new_string_n := builtin_new_string_n;
  ops_new_array := builtin_new_array;
  ops_new_object := builtin_new_object;
  ops_object_set := builtin_object_set;
  ops_object_get := builtin_object_get;
  ops_object_has := builtin_object_has;
  ops_object_size := builtin_object_size;
  ops_object_key_at := builtin_object_key_at;
  ops_array_append := builtin_array_append;
  ops_array_get := builtin_array_get;
  ops_array_size := builtin_array_size;
|}.

(** ** Dispatch: the JSON field of the context (src/core/context.c) *)

Record mcp_context_t := Context_ { json_backend : option backend }.

Definition mcp_context_json_backend (ctx : option mcp_context_t) : option backend :=
  match ctx with None => None | Some c => json_backend c end.

Definition mcp_context_set_json_backend (ctx : option mcp_context_t) (ops : option backend)
    : option mcp_context_t :=
  match ctx with None => None | Some _ => Some (Context_ ops) end.

Definition resolve (ctx : option mcp_context_t) : backend :=
  match ctx with
  | None => mcp_json_builtin_backend
  | Some _ =>
      match mcp_context_json_backend ctx with
      | Some ops => ops
      | None => mcp_json_builtin_backend
      end
  end.

Definition mcp_json_set_backend (ctx : option mcp_context_t) (ops : option backend)
    : option mcp_context_t :=
  match ctx with None => None | Some _ => mcp_context_set_json_backend ctx ops end.

(** ** Operations of the API layer *)

Section api.
Context (ctx : option mcp_context_t).
Notation B := (resolve ctx).
Notation V := (node B).

Definition mcp_json_parse (text : option bytes) : M (option V) := ops_parse B text.
Definition mcp_json_serialize (v : option V) : M (option bytes) := ops_serialize B v.
Definition mcp_json_free_string (s : option bytes) : M unit := ops_free_string B s.
Definition mcp_json_type (v : option V) : mcp_json_type_t := ops_type_of B v.
Definition mcp_json_destroy (v : option V) : M unit := ops_destroy B v.
Definition mcp_json_bool_value (v : option V) : option bool := ops_get_bool B v.
Definition mcp_json_number_value (v : option V) : option double := ops_get_number B v.
Definition mcp_json_string_value (v : option V) : option bytes := ops_get_string B v.
Definition mcp_json_null_new : M (option V) := ops_new_null B.
Definition mcp_json_bool_new (b : bool) : M (option V) := ops_new_bool B b.
Definition mcp_json_number_new (d : double) : M (option V) := ops_new_number B d.
Definition mcp_json_string_new_n (s : option bytes) : M (option V) := ops_new_string_n B s.
Definition mcp_json_array_new : M (option V) := ops_new_array B.
Definition mcp_json_object_new : M (option V) := ops_new_object B.
Definition mcp_json_object_set (obj : option V) (key : option bytes) (val : option V)
    : M (mcp_status_t * option V) := ops_object_set B obj key val.
Definition mcp_json_object_get (obj : option V) (key : option bytes) : option V :=
  ops_object_get B obj key.
Definition mcp_json_object_has (obj : option V) (key : option bytes) : bool :=
  ops_object_has B obj key.
Definition mcp_json_object_size (obj : option V) : nat := ops_object_size B obj.
Definition mcp_json_object_key_at (obj : option V) (i : nat) : option bytes :=
  ops_object_key_at B obj i.
Definition mcp_json_array_append (arr val : option V) : M (mcp_status_t * option V) :=
  ops_array_append B arr val.
Definition mcp_json_array_get (arr : option V) (i : nat) : option V := ops_array_get B arr i.
Definition mcp_json_array_size (arr : option V) : nat := ops_array_size B arr.

(** [mcp_json_string_new] measures the C string. *)
Definition mcp_json_string_new (s : option bytes) : M (option V) :=
  match s with None => ret None | Some s => mcp_json_string_new_n (Some (cstr s)) end.

(** [mcp_json_object_set_take]: the value is consumed either way. *)
Definition mcp_json_object_set_take (obj : option V) (key : option bytes) (val : option V)
    : M (mcp_status_t * option V) :=
  r <- mcp_json_object_set obj key val ;;
  match r.1 with
  | MCP_OK => ret r
  | _ => mcp_json_destroy val ;; ret r
  end.

(** The array case of [mcp_json_clone] from index [i] on, [k] items left. *)
Fixpoint clone_items (clone : option V -> M (option V)) (v : option V) (k i : nat) (out : option V)
    : M (option V) :=
  match k with
  | O => ret out
  | S k' =>
      item <- clone (mcp_json_array_get v i) ;;
      match item with
      | None => mcp_json_destroy None ;; mcp_json_destroy out ;; ret None
      | Some _ =>
          r <- mcp_json_array_append out item ;;
          match r with
          | (MCP_OK, out') => clone_items clone v k' (S i) out'
          | (_, out') => mcp_json_destroy item ;; mcp_json_destroy out' ;; ret None
          end
      end
  end.

(** The object case. *)
Fixpoint clone_members (clone : option V -> M (option V)) (v : option V) (k i : nat) (out : option V)
    : M (option V) :=
  match k with
  | O => ret out
  | S k' =>
      let key := mcp_json_object_key_at v i in
      item <- clone (mcp_json_object_get v key) ;;
      match key, item with
      | Some _, Some _ =>
          r <- mcp_json_object_set out key item ;;
          match r with
          | (MCP_OK, out') => clone_members clone v k' (S i) out'
          | (_, out') => mcp_json_destroy item ;; mcp_json_destroy out' ;; ret None
          end
      | _, _ => mcp_json_destroy item ;; mcp_json_destroy out ;; ret None
      end
  end.

(** [mcp_json_clone]; the fuel bounds the nesting. *)
Fixpoint mcp_json_clone (fuel : nat) (v : option V) : M (option V) :=
  match fuel, v with
  | O, _ | _, None => ret None
  | S fuel', Some _ =>
      match mcp_json_type v with
      | MCP_JSON_NULL => mcp_json_null_new
      | MCP_JSON_BOOL =>
          match mcp_json_bool_value v with None => ret None | Some b => mcp_json_bool_new b end
      | MCP_JSON_NUMBER =>
          match mcp_json_number_value v with None => ret None | Some d => mcp_json_number_new d end
      | MCP_JSON_STRING =>
          match mcp_json_string_value v with None => ret None | Some s => mcp_json_string_new (Some s) end
      | MCP_JSON_ARRAY =>
          out <- mcp_json_array_new ;;
          match out with
          | None => ret None
          | Some _ => clone_items (mcp_json_clone fuel') v (mcp_json_array_size v) 0 out
          end
      | MCP_JSON_OBJECT =>
          out <- mcp_json_object_new ;;
          match out with
          | None => ret None
          | Some _ => clone_members (mcp_json_clone fuel') v (mcp_json_object_size v) 0 out
          end
      end
  end.
End api.

(** ** What a backend promises

    [repr] is the value a node stands for, [inv] the backend's own
    invariant, [cost] the number of blocks of the node. *)

Definition jtype (j : json) : mcp_json_type_t :=
  match j with
  | JNull => MCP_JSON_NULL
  | JBool _ => MCP_JSON_BOOL
  | JNumber _ => MCP_JSON_NUMBER
  | JString _ => MCP_JSON_STRING
  | JArray _ => MCP_JSON_ARRAY
  | JObject _ => MCP_JSON_OBJECT
  end.

Section promises.
Context {A : Type} (repr : A -> json) (inv : A -> Prop) (cost : A -> Z).

Definition ocost (v : option A) : Z := match v with None => 0 | Some v => cost v end.

(** A constructor: a new node that stands for [j], or NULL when an
    allocation was refused; nothing else is left behind. *)
Definition makes (m : M (option A)) (j : json) : Prop :=
  forall h r h', m h = (r, h') ->
  hstep h h' (ocost r) /\
  match r with Some v => inv v /\ repr v = j | None => ~ ample h end.

(** A container operation on [o] that is given [val]: on [MCP_OK] the
    container stands for [j] and owns [val], otherwise it stands for what
    it stood for and [val] is still the caller's. *)
Definition stores (m : M (mcp_status_t * option A)) (o val : A) (j : json) : Prop :=
  forall h st r h', m h = ((st, r), h') ->
  exists o', r = Some o' /\ inv o' /\
  (ample h -> st = MCP_OK) /\
  match st with
  | MCP_OK => hstep h h' (cost o' - cost o - cost val) /\ repr o' = j
  | _ => hstep h h' (cost o' - cost o) /\ repr o' = repr o
  end.
End promises.

Class Lawful (B : backend) := {
  repr : node B -> json;
  inv : node B -> Prop;
  cost : node B -> Z;
  law_type v : ops_type_of B (Some v) = jtype (repr v);
  law_bool v b : repr v = JBool b -> ops_get_bool B (Some v) = Some b;
  law_number v d : repr v = JNumber d -> inv v -> ops_get_number B (Some v) = Some d /\ isfinite d = true;
  law_string v s : repr v = JString s -> inv v -> ops_get_string B (Some v) = Some s /\ good_string s;
  law_array v l : repr v = JArray l -> inv v ->
    ops_array_size B (Some v) = length l /\
    forall i, exists x, ops_array_get B (Some v) i = x /\ repr <$> x = l !! i /\ from_option inv True x;
  law_object v l : repr v = JObject l -> inv v ->
    NoDup (map fst l) /\ ops_object_size B (Some v) = length l /\
    (forall i, ops_object_key_at B (Some v) i = fst <$> l !! i) /\
    (forall k, k ∈ map fst l -> good_string k) /\
    forall k, good_string k ->
      exists x, ops_object_get B (Some v) (Some k) = x /\ repr <$> x = jlookup k l /\ from_option inv True x;
  law_new_null : makes repr inv cost (ops_new_null B) JNull;
  law_new_bool b : makes repr inv cost (ops_new_bool B b) (JBool b);
  law_new_number d : isfinite d = true -> valid_double d = true ->
    makes repr inv cost (ops_new_number B d) (JNumber d);
  law_number_valid v d : repr v = JNumber d -> inv v -> valid_double d = true;
  law_new_string s : good_string s -> makes repr inv cost (ops_new_string_n B (Some s)) (JString s);
  law_new_array : makes repr inv cost (ops_new_array B) (JArray []);
  law_new_object : makes repr inv cost (ops_new_object B) (JObject []);
  law_append o val l : repr o = JArray l -> inv o -> inv val ->
    stores repr inv cost (ops_array_append B (Some o) (Some val)) o val (JArray (l ++ [repr val]));
  law_set o key val l : repr o = JObject l -> inv o -> inv val -> good_string key ->
    stores repr inv cost (ops_object_set B (Some o) (Some key) (Some val)) o val
      (JObject (jinsert key (repr val) l));
  law_destroy v h u h' : ops_destroy B v h = (u, h') -> hstep h h' (- ocost cost v);
}.

(** ** Member lists without duplicates *)

Lemma jinsert_fresh key v (l : list (bytes * json)) : key ∉ map fst l -> jinsert key v l = l ++ [(key, v)].
Proof.
  induction l as [|[k w] l IH]; [done|]. simpl. intros Hk.
  rewrite bool_decide_false by set_solver. f_equal. apply IH. set_solver.
Qed.

Lemma jlookup_nodup (l : list (bytes * json)) i k (j : json) :
  NoDup (map fst l) -> l !! i = Some (k, j) -> jlookup k l = Some j.
Proof.
  revert i. induction l as [|[k' w] l IH]; intros i Hnd Hi; [done|]. simpl in Hnd.
  apply NoDup_cons in Hnd as [Hn Hnd]. destruct i as [|i]; simplify_eq/=.
  - by rewrite bool_decide_true.
  - rewrite bool_decide_false; [by eapply IH|]. intros ->. apply Hn.
    apply list_elem_of_fmap. exists (k, j). split; [done|]. by eapply list_elem_of_lookup_2.
Qed.

Lemma take_fresh (l : list (bytes * json)) i k (j : json) :
  NoDup (map fst l) -> l !! i = Some (k, j) -> k ∉ map fst (take i l).
Proof.
  intros Hnd Hi. rewrite <- (take_drop i l), map_app in Hnd. apply NoDup_app in Hnd as (_ & Hd & _).
  intros Hin. apply (Hd k Hin). rewrite (drop_S _ _ _ Hi). simpl. set_solver.
Qed.

Lemma jdepth_nonneg j : 0 <= jdepth j.
Proof.
  destruct j as [| | | |l|l]; simpl; try lia.
  all: assert (forall f : _ -> Z, 0 <= foldr (fun x n => Z.max (f x) n) 0 l) as H
         by (intros f; induction l; simpl; lia).
  - specialize (H jdepth). lia.
  - specialize (H (fun kv => jdepth kv.2)). simpl in H. lia.
Qed.

Lemma jdepth_item x l : x ∈ l -> jdepth x < jdepth (JArray l).
Proof.
  intros Hx. simpl. assert (jdepth x <= foldr (fun x n => Z.max (jdepth x) n) 0 l); [|lia].
  induction Hx; simpl; lia.
Qed.

Lemma jdepth_member kv l : kv ∈ l -> jdepth kv.2 < jdepth (JObject l).
Proof.
  intros Hx. simpl. assert (jdepth kv.2 <= foldr (fun kv n => Z.max (jdepth kv.2) n) 0 l); [|lia].
  induction Hx; simpl; lia.
Qed.

(** ** The deep copy, against the promises *)

Section clone.
Context {ctx : option mcp_context_t} {L : Lawful (resolve ctx)}.
Notation V := (node (resolve ctx)).
Notation makes := (makes repr inv cost).
Notation ocost := (ocost cost).

Lemma destroy_step v h u h' : mcp_json_destroy ctx v h = (u, h') -> hstep h h' (- ocost v).
Proof. apply law_destroy. Qed.

(** The two failing ends of a loop: what was built is given back. *)
Lemma clone_fail (item out r : option V) h h' :
  (mcp_json_destroy ctx item ;; mcp_json_destroy ctx out ;; ret None) h = (r, h') ->
  r = None /\ hstep h h' (- ocost item - ocost out).
Proof.
  intros H. minv H. apply destroy_step in E, E0. split; [done|]. hsolve.
Qed.

Lemma store_result (m : M (mcp_status_t * option V)) (out it : V) j h st o h' :
  stores repr inv cost m out it j -> m h = ((st, o), h') ->
  exists o', o = Some o' /\ inv o' /\
  ((st = MCP_OK /\ hstep h h' (cost o' - cost out - cost it) /\ repr o' = j) \/
   (st <> MCP_OK /\ (hstep h h' (cost o' - cost out) /\ repr o' = repr out) /\ ~ ample h)).
Proof.
  intros Hm H. destruct (Hm _ _ _ _ H) as (o' & -> & Io & Ha & Hst). exists o'.
  split; [done|]. split; [done|]. destruct (decide (st = MCP_OK)) as [->|Hn]; [left; naive_solver|].
  right. split; [done|]. split; [|naive_solver]. by destruct st.
Qed.

Definition copies (clone : option V -> M (option V)) (j : json) : Prop :=
  forall x, repr x = j -> inv x -> makes (clone (Some x)) j.

(** The copy loop for arrays adds the copies of the remaining items. *)
Lemma clone_items_spec clone (v : V) l :
  repr v = JArray l -> inv v -> Forall (copies clone) l ->
  forall k i (out : V) h r h',
  (i + k = length l)%nat -> repr out = JArray (take i l) -> inv out ->
  clone_items ctx clone (Some v) k i (Some out) h = (r, h') ->
  hstep h h' (ocost r - cost out) /\
  match r with Some o => inv o /\ repr o = JArray l | None => ~ ample h end.
Proof.
  intros Hv Iv Hl. induction k as [|k IH]; intros i out h r h' Hi Ho Io H.
  { simpl in H. minv H. simpl. split; [hsolve|]. split; [done|]. rewrite Ho, take_ge; [done|lia]. }
  destruct (law_array v l Hv Iv) as [_ Hget]. destruct (Hget i) as (x & Hx & Hrx & Ix).
  destruct (lookup_lt_is_Some_2 l i) as [j Hj]; [lia|]. rewrite Hj in Hrx.
  destruct x as [x|]; [|done]. simplify_eq/=.
  apply bind_inv in H as (item & h1 & E & H). unfold mcp_json_array_get in E. rewrite Hx in E.
  destruct (Forall_lookup_1 _ _ _ _ Hl Hj x eq_refl Ix h item h1 E) as [Hs1 Hr1].
  destruct item as [it|]; [|apply clone_fail in H as [-> Hs2]; split; [simpl in *; hsolve|done]].
  destruct Hr1 as [Iit Rit]. apply bind_inv in H as ([st o] & h2 & E2 & H).
  eapply store_result in E2 as (o' & -> & Io' & [(-> & Hs2 & Ro')|(Hst & [Hs2 _] & Hna)]);
    [| |by apply law_append].
  - eapply IH in H as [Hs3 Hr3]; [|lia| |done].
    + split; [simpl in *; hsolve|]. destruct r; [done|]. contradict Hr3.
      eapply ample_hstep; [exact Hs2|]. by eapply ample_hstep.
    + rewrite Ro', Rit. by rewrite (take_S_r _ _ _ Hj).
  - assert (r = None /\ hstep h2 h' (- cost it - cost o')) as [-> Hs3]
      by (destruct st; [done|by apply clone_fail in H..]).
    split; [simpl in *; hsolve|]. contradict Hna. by eapply ample_hstep.
Qed.

(** The copy loop for objects. *)
Lemma clone_members_spec clone (v : V) l :
  repr v = JObject l -> inv v -> Forall (copies clone ∘ snd) l ->
  forall k i (out : V) h r h',
  (i + k = length l)%nat -> repr out = JObject (take i l) -> inv out ->
  clone_members ctx clone (Some v) k i (Some out) h = (r, h') ->
  hstep h h' (ocost r - cost out) /\
  match r with Some o => inv o /\ repr o = JObject l | None => ~ ample h end.
Proof.
  intros Hv Iv Hl. destruct (law_object v l Hv Iv) as (Hnd & _ & Hkey & Hgood & Hget).
  induction k as [|k IH]; intros i out h r h' Hi Ho Io H.
  { simpl in H. minv H. simpl. split; [hsolve|]. split; [done|]. rewrite Ho, take_ge; [done|lia]. }
  destruct (lookup_lt_is_Some_2 l i) as [[key j] Hj]; [lia|].
  assert (good_string key) as Hg.
  { apply Hgood, list_elem_of_fmap. exists (key, j). split; [done|]. by eapply list_elem_of_lookup_2. }
  destruct (Hget key Hg) as (x & Hx & Hrx & Ix). rewrite (jlookup_nodup _ _ _ _ Hnd Hj) in Hrx.
  destruct x as [x|]; [|done]. simplify_eq/=.
  unfold mcp_json_object_key_at, mcp_json_object_get in H. rewrite Hkey, Hj in H. cbn [fmap option_fmap option_map fst] in H.
  rewrite Hx in H. apply bind_inv in H as (item & h1 & E & H).
  destruct (Forall_lookup_1 _ _ _ _ Hl Hj x eq_refl Ix h item h1 E) as [Hs1 Hr1].
  destruct item as [it|]; [|apply clone_fail in H as [-> Hs2]; split; [simpl in *; hsolve|done]].
  destruct Hr1 as [Iit Rit]. apply bind_inv in H as ([st o] & h2 & E2 & H).
  eapply store_result in E2 as (o' & -> & Io' & [(-> & Hs2 & Ro')|(Hst & [Hs2 _] & Hna)]);
    [| |by apply law_set].
  - eapply IH in H as [Hs3 Hr3]; [|lia| |done].
    + split; [simpl in *; hsolve|]. destruct r; [done|]. contradict Hr3.
      eapply ample_hstep; [exact Hs2|]. by eapply ample_hstep.
    + rewrite Ro', Rit, jinsert_fresh by (by eapply take_fresh). by rewrite (take_S_r _ _ _ Hj).
  - assert (r = None /\ hstep h2 h' (- cost it - cost o')) as [-> Hs3]
      by (destruct st; [done|by apply clone_fail in H..]).
    split; [simpl in *; hsolve|]. contradict Hna. by eapply ample_hstep.
Qed.

Lemma clone_spec fuel : forall j, (jdepth j < Z.of_nat fuel) -> copies (mcp_json_clone ctx fuel) j.
Proof.
  induction fuel as [|fuel IH]; intros j Hd v Hv Iv h r h' H.
  { pose proof (jdepth_nonneg j). lia. }
  cbn [mcp_json_clone] in H. unfold mcp_json_type in H. rewrite law_type, Hv in H.
  destruct j as [|b|d|s|l|l]; cbn [jtype] in H.
  - by apply law_new_null in H.
  - unfold mcp_json_bool_value in H. rewrite (law_bool v b Hv) in H. by apply law_new_bool in H.
  - unfold mcp_json_number_value in H. destruct (law_number v d Hv Iv) as [Hn Hf]. rewrite Hn in H.
    eapply law_new_number in H; [done..|by eapply law_number_valid].
  - unfold mcp_json_string_value in H. destruct (law_string v s Hv Iv) as [Hs Hg]. rewrite Hs in H.
    cbn [mcp_json_string_new] in H. unfold mcp_json_string_new_n in H.
    rewrite (cstr_no_nul s (proj1 Hg)) in H. by apply law_new_string in H.
  - apply bind_inv in H as (out & h1 & E & H). apply law_new_array in E as [Hs1 Ho].
    destruct out as [out|]; [|minv H; split; [simpl in *; hsolve|done]]. destruct Ho as [Io Ro].
    destruct (law_array v l Hv Iv) as [Hsz _]. unfold mcp_json_array_size in H. rewrite Hsz in H.
    eapply clone_items_spec in H as [Hs2 Hr]; [|done|done| |lia|done|done].
    + split; [simpl in *; hsolve|]. destruct r; [done|]. contradict Hr. by eapply ample_hstep.
    + apply Forall_forall. intros j Hj%jdepth_item. apply IH. lia.
  - apply bind_inv in H as (out & h1 & E & H). apply law_new_object in E as [Hs1 Ho].
    destruct out as [out|]; [|minv H; split; [simpl in *; hsolve|done]]. destruct Ho as [Io Ro].
    destruct (law_object v l Hv Iv) as (_ & Hsz & _). unfold mcp_json_object_size in H. rewrite Hsz in H.
    eapply clone_members_spec in H as [Hs2 Hr]; [|done|done| |lia|done|done].
    + split; [simpl in *; hsolve|]. destruct r; [done|]. contradict Hr. by eapply ample_hstep.
    + apply Forall_forall. intros kv Hj%jdepth_member. apply IH. simpl. lia.
Qed.
End clone.

(** ** The built-in backend keeps the promises *)

Lemma new_makes v m :
  m = value_new v -> blocks v = 1 -> wf v -> makes erase wf blocks m (erase v).
Proof.
  intros -> Hb Hw h r h' H. apply value_new_spec in H as (Hs & Hr & Ha); [|done].
  split; [done|]. destruct Hr as [-> | ->]; [|done]. intros A. by specialize (Ha A).
Qed.

Lemma string_makes s : good_string s -> makes erase wf blocks (builtin_new_string_n (Some s)) (JString s).
Proof.
  intros Hg h r h' H. apply new_string_spec in H as (Hs & Hr & Ha).
  split; [done|]. destruct Hr as [-> |[-> _]]; [|done]. intros A. by specialize (Ha A Hg).
Qed.

Lemma number_makes d :
  isfinite d = true -> valid_double d = true ->
  makes erase wf blocks (builtin_new_number d) (JNumber d).
Proof.
  intros Hf Hv. unfold builtin_new_number. rewrite Hf. cbn [negb].
  by apply (new_makes (VNumber d)).
Qed.

Lemma append_stores o val l :
  erase o = JArray l -> wf o -> wf val ->
  stores erase wf blocks (builtin_array_append (Some o) (Some val)) o val (JArray (l ++ [erase val])).
Proof.
  intros Ho Hw Hv h st r h' H. destruct o as [| | | |c items|]; try done. simplify_eq/=.
  apply array_append_spec in H as (c' & l' & -> & Hw' & Hs & Hl & Ha); [|done..].
  exists (VArray c' l'). split; [done|]. split; [done|]. split; [done|]. subst l'.
  destruct st; simpl in Hs |- *; (split; [eapply hstep_eq; [exact Hs|simpl; lia]|]); try done.
  by rewrite map_app.
Qed.

Lemma set_stores o key val l :
  erase o = JObject l -> wf o -> wf val -> good_string key ->
  stores erase wf blocks (builtin_object_set (Some o) (Some key) (Some val)) o val
    (JObject (jinsert key (erase val) l)).
Proof.
  intros Ho Hw Hv [Hn Hu] h st r h' H. destruct o as [| | | | |c members]; try done. rewrite erase_object in Ho.
  simplify_eq. apply object_set_spec in H as (c' & l' & -> & Hw' & Hs & Hl & Ha); [|done..].
  rewrite (cstr_no_nul key Hn) in *.
  exists (VObject c' l'). split; [done|]. split; [done|]. split; [auto|].
  rewrite !erase_object, Hl.
  destruct st; simpl in Hs |- *; (split; [eapply hstep_eq; [exact Hs|simpl; lia]|]); done.
Qed.

Lemma builtin_object_law v l :
  erase v = JObject l -> wf v ->
  NoDup (map fst l) /\ builtin_object_size (Some v) = length l /\
  (forall i, builtin_object_key_at (Some v) i = fst <$> l !! i) /\
  (forall k, k ∈ map fst l -> good_string k) /\
  forall k, good_string k ->
    exists x, builtin_object_get (Some v) (Some k) = x /\ erase <$> x = jlookup k l /\ from_option wf True x.
Proof.
  intros He Hw. destruct v as [| | | | |c m]; try done. rewrite erase_object in He. simplify_eq.
  pose proof Hw as (_ & Hnd & Hm)%wf_object. assert (map fst (map emember m) = map fst m) as Hf
    by (rewrite map_map; done).
  split; [by rewrite Hf|]. split; [simpl; by rewrite length_map|]. split.
  { intros i. simpl. change (map emember m) with (emember <$> m). rewrite list_lookup_fmap.
    by destruct (m !! i). }
  split.
  { rewrite Hf. intros k (kv & -> & Hin)%list_elem_of_fmap. rewrite Forall_forall in Hm.
    by apply Hm in Hin as [? _]. }
  intros k [Hn Hu]. eexists. split; [done|]. split.
  - rewrite object_get_spec; rewrite ?(cstr_no_nul k Hn); done.
  - cbn [builtin_object_get]. rewrite (cstr_no_nul k Hn), Hu. cbn [negb].
    destruct (find_key k m) as [i|]; [|done]. destruct (m !! i) as [kv|] eqn:E; [|done].
    apply (Forall_lookup_1 _ _ _ _ Hm) in E as [_ ?]. done.
Qed.

#[export] Instance builtin_lawful : Lawful mcp_json_builtin_backend.
Proof.
  refine {| repr := erase : node mcp_json_builtin_backend -> json;
            inv := wf : node mcp_json_builtin_backend -> Prop;
            cost := blocks : node mcp_json_builtin_backend -> Z |}.
  - by intros [].
  - by intros [] b; simpl; intros; simplify_eq.
  - by intros [] d; simpl; intros; simplify_eq; destruct_and!.
  - by intros [] s; simpl; intros; simplify_eq.
  - intros v l He Hw. destruct v as [| | | |c m|]; try done. simplify_eq/=. split; [by rewrite length_map|].
    intros i. eexists. split; [done|]. change (map erase m) with (erase <$> m). rewrite list_lookup_fmap.
    split; [done|]. pose proof Hw as [_ Hm]%wf_array. destruct (m !! i) eqn:E; [|done].
    by apply (Forall_lookup_1 _ _ _ _ Hm) in E.
  - apply builtin_object_law.
  - by apply (new_makes VNull).
  - intros b. by apply (new_makes (VBool b)).
  - apply number_makes.
  - by intros [] d; simpl; intros; simplify_eq; destruct_and!.
  - apply string_makes.
  - apply (new_makes (VArray 0 [])); [done|done|]. by split.
  - apply (new_makes (VObject 0 [])); [done|done|]. split; [done|]. split; [constructor|done].
  - apply append_stores.
  - apply set_stores.
  - intros v h u h' H. apply builtin_destroy_hstep in H. by destruct v.
Defined.

(** The backend a context without a custom one uses. *)
#[export] Instance default_lawful : Lawful (resolve None) := builtin_lawful.
#[export] Instance unset_lawful : Lawful (resolve (Some (Context_ None))) := builtin_lawful.

(** ** Claims *)

(** [mcp_json_clone] is a deep copy, whatever lawful backend the context
    selects: with a bound on the nesting, it returns a new tree that stands
    for the same value and owns its own blocks, or, only when an allocation
    was refused, NULL with every block given back. *)
Theorem clone_copies ctx (L : Lawful (resolve ctx)) (v : node (resolve ctx)) fuel h r h' :
  inv v -> jdepth (repr v) < Z.of_nat fuel ->
  mcp_json_clone ctx fuel (Some v) h = (r, h') ->
  hstep h h' (ocost cost r) /\
  match r with Some v' => inv v' /\ repr v' = repr v | None => ~ ample h end.
Proof. intros Iv Hd H. by eapply clone_spec in H. Qed.

(** [mcp_json_object_set_take] disposes of the value on every path: the
    blocks left live are those of the object, with the value inside it on
    success and destroyed on failure. *)
Theorem set_take_consumes ctx (L : Lawful (resolve ctx)) (o val : node (resolve ctx)) key l h st r h' :
  repr o = JObject l -> inv o -> inv val -> good_string key ->
  mcp_json_object_set_take ctx (Some o) (Some key) (Some val) h = ((st, r), h') ->
  exists o', r = Some o' /\ inv o' /\ hstep h h' (cost o' - cost o - cost val) /\
  repr o' = (if decide (st = MCP_OK) then JObject (jinsert key (repr val) l) else repr o) /\
  (ample h -> st = MCP_OK).
Proof.
  intros Ho Io Iv Hk H. unfold mcp_json_object_set_take in H.
  apply bind_inv in H as ([st1 r1] & h1 & E & H).
  eapply store_result in E as (o' & -> & Io' & [(-> & Hs & Hr)|(Hn & [Hs Hro] & Hna)]); [| |by apply law_set].
  - cbn [fst] in H. minv H. simplify_eq. exists o'. destruct (decide _); [|done]. done.
  - cbn [fst] in H. assert ((mcp_json_destroy ctx (Some val) ;; ret (st1, Some o')) h1 = ((st, r), h')) as H'
      by (by destruct st1).
    minv H'. simplify_eq. apply destroy_step in E. simpl in E. clear H.
    exists o'. destruct (decide _); [done|]. split; [done|]. split; [done|]. split; [hsolve|]. done.
Qed.

Lemma clone_copies_witness :
  exists r h', mcp_json_clone None 3 (Some sample) fresh_heap = (r, h') /\
  hstep fresh_heap h' (ocost blocks r) /\
  match r with Some v' => wf v' /\ erase v' = erase sample | None => ~ ample fresh_heap end.
Proof.
  eexists _, _. split; [apply surjective_pairing|].
  apply (clone_copies None default_lawful sample 3 fresh_heap);
    [apply sample_wf|by vm_compute|apply surjective_pairing].
Defined.

Lemma set_take_consumes_witness :
  exists st r h', mcp_json_object_set_take None (Some (VObject 4 full_members)) (Some (cs "e")) (Some VNull)
      (Heap (fun k => Nat.eqb k 0) 0 0 false) = ((st, r), h') /\
  exists o', r = Some o' /\ wf o' /\
  hstep (Heap (fun k => Nat.eqb k 0) 0 0 false) h' (blocks o' - blocks (VObject 4 full_members) - blocks VNull) /\
  erase o' = (if decide (st = MCP_OK) then JObject (jinsert (cs "e") JNull (map emember full_members))
              else erase (VObject 4 full_members)) /\
  (ample (Heap (fun k => Nat.eqb k 0) 0 0 false) -> st = MCP_OK).
Proof.
  eexists _, _, _. split; [vm_compute; reflexivity|].
  apply (set_take_consumes None default_lawful (VObject 4 full_members) VNull (cs "e") (map emember full_members));
    [done|apply full_members_wf|done|done|by vm_compute].
Defined.
