(* ===== verification/Schema.v ===== *)
(** * JSON Schema (src/json/schema.c)

    The builders, on the DOM and through the allocator, and the validator,
    with its dotted-path error message, against a declarative notion of
    validity. *)
From S2P Require Import Prelude Heap Utf8 Double JsonValue JsonParse JsonNumber JsonSerialize JsonApi.

Local Open Scope Z_scope.

Definition SCHEMA_MAX_PATH : nat := 256.

(** ** Builders *)

(** [mcp_json_string_new] of the built-in backend. *)
Definition string_new (s : bytes) : M (option value) := builtin_new_string_n (Some (cstr s)).

Definition typed_new (type : bytes) : M (option value) :=
  s <- builtin_new_object ;;
  match s with
  | None => ret None
  | Some o =>
      t <- string_new type ;;
      match t with
      | None => builtin_destroy s ;; ret None
      | Some _ =>
          r <- builtin_object_set s (Some (cs "type")) t ;;
          match r with
          | (MCP_OK, s') => ret s'
          | (_, s') => builtin_destroy s' ;; ret None
          end
      end
  end.

Definition mcp_schema_object_new : M (option value) := typed_new (cs "object").
Definition mcp_schema_string_new : M (option value) := typed_new (cs "string").
Definition mcp_schema_integer_new : M (option value) := typed_new (cs "integer").
Definition mcp_schema_number_new : M (option value) := typed_new (cs "number").
Definition mcp_schema_boolean_new : M (option value) := typed_new (cs "boolean").

Definition mcp_schema_array_new (items : option value) : M (option value) :=
  s <- typed_new (cs "array") ;;
  match s with
  | None => builtin_destroy items ;; ret None
  | Some _ =>
      match items with
      | None => ret s
      | Some _ =>
          r <- builtin_object_set s (Some (cs "items")) items ;;
          match r with
          | (MCP_OK, s') => ret s'
          | (_, s') => builtin_destroy items ;; builtin_destroy s' ;; ret None
          end
      end
  end.

(** The object after the node its member [key] points to was changed to
    [child] through that pointer. *)
Definition put_child (schema : option value) (key : bytes) (child : value) : option value :=
  match schema with
  | Some (VObject cap members) =>
      match find_key key members with
      | Some i => Some (VObject cap (alter (fun kv => (kv.1, child)) i members))
      | None => schema
      end
  | _ => schema
  end.

(** [ensure_child]: the child (a pointer into the schema) and the schema. *)
Definition ensure_child (schema : option value) (key : bytes) (want_array : bool)
    : M (option value * option value) :=
  match builtin_object_get schema (Some key) with
  | Some old =>
      let ok := if want_array then bool_decide (builtin_type_of (Some old) = MCP_JSON_ARRAY)
                else bool_decide (builtin_type_of (Some old) = MCP_JSON_OBJECT) in
      ret (if ok then Some old else None, schema)
  | None =>
      fresh <- (if want_array then builtin_new_array else builtin_new_object) ;;
      match fresh with
      | None => ret (None, schema)
      | Some _ =>
          r <- builtin_object_set schema (Some key) fresh ;;
          match r with
          | (MCP_OK, schema') => ret (fresh, schema')
          | (_, schema') => builtin_destroy fresh ;; ret (None, schema')
          end
      end
  end.

Definition is_object (v : option value) : bool :=
  match v with None => false | Some _ => bool_decide (builtin_type_of v = MCP_JSON_OBJECT) end.

Definition mcp_schema_add_property (schema : option value) (name : option bytes) (prop : option value)
    : M (mcp_status_t * option value) :=
  match name, prop with
  | Some _, Some _ =>
      if negb (is_object schema) then ret (MCP_ERR_INVALID_ARGUMENT, schema) else
      c <- ensure_child schema (cs "properties") false ;;
      match c with
      | (None, schema') => ret (MCP_ERR_INVALID_ARGUMENT, schema')
      | (Some props, schema') =>
          r <- builtin_object_set (Some props) name prop ;;
          match r with
          | (MCP_OK, Some props') => ret (MCP_OK, put_child schema' (cs "properties") props')
          | (_, Some props') =>
              ret (MCP_ERR_INVALID_ARGUMENT, put_child schema' (cs "properties") props')
          | (_, None) => ret (MCP_ERR_INVALID_ARGUMENT, schema')
          end
      end
  | _, _ => ret (MCP_ERR_INVALID_ARGUMENT, schema)
  end.

Definition mcp_schema_add_required (schema : option value) (name : option bytes)
    : M (mcp_status_t * option value) :=
  match name with
  | Some name =>
      if negb (is_object schema) then ret (MCP_ERR_INVALID_ARGUMENT, schema) else
      c <- ensure_child schema (cs "required") true ;;
      match c with
      | (None, schema') => ret (MCP_ERR_INVALID_ARGUMENT, schema')
      | (Some req, schema') =>
          s <- string_new name ;;
          match s with
          | None => ret (MCP_ERR_INVALID_ARGUMENT, schema')
          | Some _ =>
              r <- builtin_array_append (Some req) s ;;
              match r with
              | (MCP_OK, Some req') => ret (MCP_OK, put_child schema' (cs "required") req')
              | (_, Some req') =>
                  builtin_destroy s ;;
                  ret (MCP_ERR_INVALID_ARGUMENT, put_child schema' (cs "required") req')
              | (_, None) => builtin_destroy s ;; ret (MCP_ERR_INVALID_ARGUMENT, schema')
              end
          end
      end
  | None => ret (MCP_ERR_INVALID_ARGUMENT, schema)
  end.

Definition mcp_schema_add_enum (schema values : option value) : M (mcp_status_t * option value) :=
  if negb (is_object schema) then ret (MCP_ERR_INVALID_ARGUMENT, schema) else
  match values with
  | Some (VArray _ _) =>
      r <- builtin_object_set schema (Some (cs "enum")) values ;;
      match r with
      | (MCP_OK, schema') => ret (MCP_OK, schema')
      | (_, schema') => ret (MCP_ERR_INVALID_ARGUMENT, schema')
      end
  | _ => ret (MCP_ERR_INVALID_ARGUMENT, schema)
  end.

(** The tail of [set_bound] and [mcp_schema_set_description]. *)
Definition set_fresh (schema : option value) (key : bytes) (v : option value)
    : M (mcp_status_t * option value) :=
  match v with
  | None => ret (MCP_ERR_NOMEM, schema)
  | Some _ =>
      r <- builtin_object_set schema (Some key) v ;;
      match r with
      | (MCP_OK, schema') => ret (MCP_OK, schema')
      | (_, schema') => builtin_destroy v ;; ret (MCP_ERR_NOMEM, schema')
      end
  end.

Definition set_bound (schema : option value) (key : bytes) (b : double)
    : M (mcp_status_t * option value) :=
  if negb (is_object schema) || negb (isfinite b) then ret (MCP_ERR_INVALID_ARGUMENT, schema) else
  v <- builtin_new_number b ;; set_fresh schema key v.

Definition mcp_schema_set_minimum (schema : option value) (min : double) :=
  set_bound schema (cs "minimum") min.

Definition mcp_schema_set_maximum (schema : option value) (max : double) :=
  set_bound schema (cs "maximum") max.

Definition mcp_schema_set_description (schema : option value) (desc : option bytes)
    : M (mcp_status_t * option value) :=
  match desc with
  | None => ret (MCP_ERR_INVALID_ARGUMENT, schema)
  | Some desc =>
      if negb (is_object schema) then ret (MCP_ERR_INVALID_ARGUMENT, schema) else
      v <- string_new desc ;; set_fresh schema (cs "description") v
  end.

(** ** Validation *)

Definition is_integer_value (d : double) : bool :=
  if negb (isfinite d) || dltb d (double_of_Z (-9007199254740991)) || dgtb d (double_of_Z 9007199254740991)
  then false
  else deqb d (double_of_Z (dtrunc d)).

(** A loop [for (i = 0; i < n; i++) if (!f(i)) return false; return true;]
    whose body may run out of fuel ([None]). *)
Fixpoint all_loop (f : nat -> option bool) (k i : nat) : option bool :=
  match k with
  | O => Some true
  | S k' =>
      match f i with
      | Some true => all_loop f k' (S i)
      | r => r
      end
  end.

Fixpoint value_equal (fuel : nat) (a b : option value) : option bool :=
  match fuel with
  | O => None
  | S fuel' =>
      let ta := builtin_type_of a in
      if negb (bool_decide (ta = builtin_type_of b)) then Some false else
      match ta with
      | MCP_JSON_NULL => Some true
      | MCP_JSON_BOOL =>
          Some match builtin_get_bool a, builtin_get_bool b with
               | Some x, Some y => Bool.eqb x y
               | _, _ => false
               end
      | MCP_JSON_NUMBER =>
          Some match builtin_get_number a, builtin_get_number b with
               | Some x, Some y => deqb x y
               | _, _ => false
               end
      | MCP_JSON_STRING =>
          Some match builtin_get_string a, builtin_get_string b with
               | Some x, Some y => streq x y
               | _, _ => false
               end
      | MCP_JSON_ARRAY =>
          let n := builtin_array_size a in
          if negb (Nat.eqb n (builtin_array_size b)) then Some false else
          all_loop (fun i => value_equal fuel' (builtin_array_get a i) (builtin_array_get b i)) n 0
      | MCP_JSON_OBJECT =>
          let n := builtin_object_size a in
          if negb (Nat.eqb n (builtin_object_size b)) then Some false else
          all_loop (fun i =>
            let k := builtin_object_key_at a i in
            match builtin_object_get b k with
            | None => Some false
            | vb => value_equal fuel' (builtin_object_get a k) vb
            end) n 0
      end
  end.

(** The error buffer: NULL or of capacity 0, or its capacity and the string
    in it. *)
Definition errbuf : Type := option (nat * bytes).

Definition fail_at (err : errbuf) (path reason : bytes) : errbuf :=
  match err with
  | None => None
  | Some (errcap, s) =>
      if Nat.eqb errcap 0 then err else
      Some (errcap, take (errcap - 1)
        ((match path with [] => cs "<root>" | _ => path end) ++ cs ": " ++ reason))
  end.

(** The status and the error buffer; [None] when the fuel has run out. *)
Definition checked : Type := option (mcp_status_t * errbuf).

Definition failed (err : errbuf) (path : bytes) (reason : string) : checked :=
  Some (MCP_ERR_INVALID_ARGUMENT, fail_at err path (cs reason)).

(** [if (st != MCP_OK) return st;] *)
Definition then_ok (o : checked) (k : errbuf -> checked) : checked :=
  match o with Some (MCP_OK, err) => k err | _ => o end.

(** [for (...) { st = f(i); if (st != MCP_OK) return st; } return MCP_OK;] *)
Fixpoint status_loop (f : nat -> errbuf -> checked) (k i : nat) (err : errbuf) : checked :=
  match k with
  | O => Some (MCP_OK, err)
  | S k' => then_ok (f i err) (status_loop f k' (S i))
  end.

Definition check_required (schema inst : option value) (path : bytes) (err : errbuf) : checked :=
  match builtin_object_get schema (Some (cs "required")) with
  | None => Some (MCP_OK, err)
  | Some req =>
      if negb (bool_decide (builtin_type_of (Some req) = MCP_JSON_ARRAY))
      then failed err path "required is not an array" else
      status_loop (fun i err =>
        let e := builtin_array_get (Some req) i in
        match builtin_get_string e with
        | Some name =>
            if builtin_object_has inst (Some name) then Some (MCP_OK, err)
            else failed err path "missing required property"
        | None => failed err path "missing required property"
        end) (builtin_array_size (Some req)) 0 err
  end.

Definition check_object (check : option value -> option value -> bytes -> errbuf -> checked)
    (schema inst : option value) (path : bytes) (err : errbuf) : checked :=
  then_ok (check_required schema inst path err) (fun err =>
  match builtin_object_get schema (Some (cs "properties")) with
  | None => Some (MCP_OK, err)
  | Some props =>
      if negb (bool_decide (builtin_type_of (Some props) = MCP_JSON_OBJECT))
      then failed err path "properties is not an object" else
      status_loop (fun i err =>
        let name := builtin_object_key_at (Some props) i in
        let sub := builtin_object_get (Some props) name in
        match builtin_object_get inst name with
        | None => Some (MCP_OK, err)
        | val =>
            let sub_path := take (SCHEMA_MAX_PATH - 1)
              (path ++ (match path with [] => [] | _ => cs "." end) ++ default [] name) in
            check sub val sub_path err
        end) (builtin_object_size (Some props)) 0 err
  end).

(** The chain of [strcmp]s on the type name: [None] is "unknown type". *)
Definition type_match (type : bytes) (inst : option value) : option bool :=
  if streq type (cs "string") then Some (bool_decide (builtin_type_of inst = MCP_JSON_STRING))
  else if streq type (cs "integer") then
    Some match builtin_get_number inst with Some d => is_integer_value d | None => false end
  else if streq type (cs "number") then
    Some match builtin_get_number inst with Some d => isfinite d | None => false end
  else if streq type (cs "boolean") then Some (bool_decide (builtin_type_of inst = MCP_JSON_BOOL))
  else if streq type (cs "array") then Some (bool_decide (builtin_type_of inst = MCP_JSON_ARRAY))
  else if streq type (cs "object") then Some (bool_decide (builtin_type_of inst = MCP_JSON_OBJECT))
  else None.

Definition check_type (schema inst : option value) (path : bytes) (err : errbuf) : checked :=
  match builtin_object_get schema (Some (cs "type")) with
  | None => Some (MCP_OK, err)
  | typev =>
      match builtin_get_string typev with
      | None => failed err path "type is not a string"
      | Some type =>
          match type_match type inst with
          | None => failed err path "unknown type"
          | Some false => failed err path "type mismatch"
          | Some true => Some (MCP_OK, err)
          end
      end
  end.

(** The search of the enum: is some element equal to the instance? *)
Fixpoint any_loop (f : nat -> option bool) (k i : nat) : option bool :=
  match k with
  | O => Some false
  | S k' =>
      match f i with
      | Some false => any_loop f k' (S i)
      | r => r
      end
  end.

Definition check_enum (fuel : nat) (schema inst : option value) (path : bytes) (err : errbuf) : checked :=
  match builtin_object_get schema (Some (cs "enum")) with
  | None => Some (MCP_OK, err)
  | en =>
      if negb (bool_decide (builtin_type_of en = MCP_JSON_ARRAY))
      then failed err path "enum is not an array" else
      match any_loop (fun i => value_equal fuel inst (builtin_array_get en i)) (builtin_array_size en) 0 with
      | None => None
      | Some true => Some (MCP_OK, err)
      | Some false => failed err path "not in enum"
      end
  end.

Definition check_bounds (schema inst : option value) (path : bytes) (err : errbuf) : checked :=
  let d := default (DZero false) (builtin_get_number inst) in
  let lo := builtin_object_get schema (Some (cs "minimum")) in
  let hi := builtin_object_get schema (Some (cs "maximum")) in
  if (match builtin_get_number lo with Some bound => dltb d bound | None => false end)
  then failed err path "below minimum"
  else if (match builtin_get_number hi with Some bound => dgtb d bound | None => false end)
  then failed err path "above maximum"
  else Some (MCP_OK, err).

Fixpoint check (fuel : nat) (schema inst : option value) (path : bytes) (err : errbuf) : checked :=
  match fuel with
  | O => None
  | S fuel' =>
      match schema, inst with
      | Some (VObject _ _), Some _ =>
          then_ok (check_type schema inst path err) (fun err =>
          then_ok (check_enum fuel schema inst path err) (fun err =>
          match builtin_type_of inst with
          | MCP_JSON_OBJECT => check_object (check fuel') schema inst path err
          | MCP_JSON_ARRAY =>
              match builtin_object_get schema (Some (cs "items")) with
              | None => Some (MCP_OK, err)
              | items =>
                  status_loop (fun i err =>
                    check fuel' items (builtin_array_get inst i)
                      (take (SCHEMA_MAX_PATH - 1)
                         (path ++ cs "[" ++ fmt_int (Z.of_nat i) ++ cs "]")) err)
                    (builtin_array_size inst) 0 err
              end
          | MCP_JSON_NUMBER => check_bounds schema inst path err
          | _ => Some (MCP_OK, err)
          end))
      | _, _ => failed err path "bad schema or instance"
      end
  end.

(** [mcp_schema_validate_verbose]: [buf] is NULL or the capacity of the
    buffer; its first byte is cleared before the check. *)
Definition mcp_schema_validate_verbose (fuel : nat) (schema instance : option value) (buf : option nat)
    : checked :=
  check fuel schema instance [] (match buf with None => None | Some cap => Some (cap, []) end).

Definition mcp_schema_validate (fuel : nat) (schema instance : option value) : option mcp_status_t :=
  fst <$> mcp_schema_validate_verbose fuel schema instance None.

(** ** Equality of values, declaratively

    Two values are equal when they are the same up to the order of the
    members of objects and the sign of zero. *)
Inductive jeq : json -> json -> Prop :=
| jeq_null : jeq JNull JNull
| jeq_bool b : jeq (JBool b) (JBool b)
| jeq_number x y : deqb x y = true -> jeq (JNumber x) (JNumber y)
| jeq_string s : jeq (JString s) (JString s)
| jeq_array l1 l2 : Forall2 jeq l1 l2 -> jeq (JArray l1) (JArray l2)
| jeq_object l1 l2 l2' :
    Permutation l2 l2' -> Forall2 (fun a b => a.1 = b.1 /\ jeq a.2 b.2) l1 l2' ->
    jeq (JObject l1) (JObject l2).

(** [o] is a computed decision of [P]. *)
Definition decides (o : option bool) (P : Prop) : Prop :=
  exists r, o = Some r /\ (r = true <-> P).

Lemma decides_intro r P : (r = true <-> P) -> decides (Some r) P.
Proof. by exists r. Qed.

Lemma decides_iff o P Q : decides o P -> (P <-> Q) -> decides o Q.
Proof. intros (r & -> & H) HPQ. exists r. by rewrite <- HPQ. Qed.

Lemma all_loop_decides f (P : nat -> Prop) k : forall i,
  (forall j, (i <= j < i + k)%nat -> decides (f j) (P j)) ->
  decides (all_loop f k i) (forall j, (i <= j < i + k)%nat -> P j).
Proof.
  induction k as [|k IH]; intros i H; simpl; [apply decides_intro; split; [intros _; lia|done]|].
  destruct (H i) as (r & -> & Hr); [lia|]. destruct r.
  - eapply decides_iff; [apply IH; intros j Hj; apply H; lia|]. split; intros HP j Hj; [|apply HP; lia].
    destruct (decide (j = i)) as [->|]; [by apply Hr|apply HP; lia].
  - apply decides_intro. split; [done|]. intros HP. apply Hr, HP. lia.
Qed.

Lemma any_loop_decides f (P : nat -> Prop) k : forall i,
  (forall j, (i <= j < i + k)%nat -> decides (f j) (P j)) ->
  decides (any_loop f k i) (exists j, (i <= j < i + k)%nat /\ P j).
Proof.
  induction k as [|k IH]; intros i H; simpl.
  { apply decides_intro. split; [done|]. intros (j & Hj & _). lia. }
  destruct (H i) as (r & -> & Hr); [lia|]. destruct r.
  - apply decides_intro. split; [|done]. intros _. exists i. split; [lia|by apply Hr].
  - eapply decides_iff; [apply IH; intros j Hj; apply H; lia|].
    split; intros (j & Hj & HP); exists j; split; try done; try lia.
    destruct (decide (j = i)) as [->|]; [by apply Hr in HP|lia].
Qed.

Lemma length_emember l : length (map emember l) = length l.
Proof. apply length_map. Qed.

Lemma wf_lookup_array c l i x : wf (VArray c l) -> l !! i = Some x -> wf x.
Proof. intros [_ H]%wf_array Hi. by eapply Forall_lookup_1 in H. Qed.

(** A member got by a good key, with its meaning. *)
Lemma object_get_cases c l k :
  wf (VObject c l) -> good_string k ->
  match builtin_object_get (Some (VObject c l)) (Some k) with
  | Some x => jlookup k (map emember l) = Some (erase x) /\ wf x
  | None => jlookup k (map emember l) = None
  end.
Proof.
  intros Hw Hk. destruct (builtin_object_law (VObject c l) (map emember l)) as (_ & _ & _ & _ & Hget);
    [done|done|]. destruct (Hget k Hk) as (x & -> & Hx & Hi). destruct x; simpl in *; [|done]. done.
Qed.

Lemma member_good c l i k x : wf (VObject c l) -> l !! i = Some (k, x) -> good_string k /\ wf x.
Proof. intros (_ & _ & H)%wf_object Hi. exact (Forall_lookup_1 _ _ _ _ H Hi). Qed.

Lemma member_get c l i k x :
  wf (VObject c l) -> l !! i = Some (k, x) -> exists y,
  builtin_object_get (Some (VObject c l)) (Some k) = Some y /\ erase y = erase x /\ wf y.
Proof.
  intros Hw Hi. destruct (member_good _ _ _ _ _ Hw Hi) as [Hk _].
  pose proof (object_get_cases c l k Hw Hk) as H. pose proof Hw as (_ & Hnd & _)%wf_object.
  assert (jlookup k (map emember l) = Some (erase x)) as Hj.
  { eapply (jlookup_nodup _ i); [by rewrite map_map|]. change (map emember l) with (emember <$> l).
    by rewrite list_lookup_fmap, Hi. }
  destruct (builtin_object_get _ _) as [y|]; [|congruence]. exists y. destruct H. split; [done|].
  split; [congruence|done].
Qed.

Lemma jlookup_elem k l (v : json) : jlookup k l = Some v -> (k, v) ∈ l.
Proof.
  induction l as [|[k' w] l IH]; [done|]. simpl. case_bool_decide; [|set_solver].
  intros; simplify_eq. set_solver.
Qed.

(** Objects: the loop's test against the permutation. *)
Lemma jeq_object_iff l1 l2 :
  NoDup (map fst l1) -> NoDup (map fst l2) -> length l1 = length l2 ->
  (forall k v, (k, v) ∈ l1 -> exists w, jlookup k l2 = Some w /\ jeq v w) ->
  jeq (JObject l1) (JObject l2).
Proof.
  intros Hn1 Hn2 Hlen H.
  assert (exists l2', Forall2 (fun a b => a.1 = b.1 /\ jeq a.2 b.2) l1 l2' /\ l2' ⊆ l2) as (l2' & HF & Hsub).
  { clear Hn1 Hlen. induction l1 as [|[k v] l1 IH]; [exists []; split; [constructor|set_solver]|].
    destruct IH as (l2' & HF & Hsub); [intros; apply H; set_solver|].
    destruct (H k v) as (w & Hw & Hj); [set_solver|]. exists ((k, w) :: l2'). split; [by constructor|].
    apply jlookup_elem in Hw. set_solver. }
  apply (jeq_object l1 l2 l2'); [|done]. symmetry.
  assert (NoDup l2') as Hnd.
  { apply (NoDup_fmap_1 fst). assert (map fst l2' = map fst l1) as Hf; [|by rewrite <- Hf in Hn1].
    clear - HF. induction HF as [|a b l l' [He _] _ IH]; [done|]. simpl. by rewrite IH, He. }
  apply submseteq_length_Permutation; [by apply NoDup_submseteq|].
  apply Forall2_length in HF. lia.
Qed.

Lemma jeq_object_inv l1 l2 k v :
  NoDup (map fst l2) -> jeq (JObject l1) (JObject l2) -> (k, v) ∈ l1 ->
  exists w, jlookup k l2 = Some w /\ jeq v w.
Proof.
  intros Hn H Hin. inversion H as [| | | | |? ? l2' Hp HF]; subst.
  apply list_elem_of_lookup in Hin as [i Hi]. destruct (Forall2_lookup_l _ _ _ _ _ HF Hi) as ([k' w] & Hi' & [He Hj]).
  simpl in He, Hj. subst k'. exists w. split; [|done].
  assert ((k, w) ∈ l2) as (j & Hl)%list_elem_of_lookup by (rewrite Hp; by eapply list_elem_of_lookup_2).
  by eapply jlookup_nodup.
Qed.

Lemma string_eq_decides a b :
  has_nul a = false -> has_nul b = false -> decides (Some (streq a b)) (jeq (JString a) (JString b)).
Proof.
  intros Ha Hb. apply decides_intro. rewrite streq_no_nul, bool_decide_eq_true by done.
  split; [intros ->; constructor|]. by inversion 1.
Qed.

Lemma array_jeq c1 l1 c2 l2 :
  (forall j, (0 <= j < length l1)%nat -> exists x y, l1 !! j = Some x /\ l2 !! j = Some y /\ jeq (erase x) (erase y)) ->
  length l1 = length l2 -> jeq (erase (VArray c1 l1)) (erase (VArray c2 l2)).
Proof.
  intros H Hlen. cbn [erase]. constructor. apply Forall2_fmap. apply Forall2_same_length_lookup.
  split; [done|]. intros i x y Hx Hy. destruct (H i) as (x' & y' & ? & ? & ?);
    [split; [lia|by eapply lookup_lt_Some]|]. by simplify_eq.
Qed.

Lemma jeq_array_inv c1 l1 c2 l2 i x y :
  jeq (erase (VArray c1 l1)) (erase (VArray c2 l2)) -> l1 !! i = Some x -> l2 !! i = Some y ->
  jeq (erase x) (erase y).
Proof.
  intros H Hx Hy. inversion H as [| | | |? ? HF|]; subst.
  apply (Forall2_lookup_lr _ _ _ i _ _ HF); [change (map erase l1) with (erase <$> l1)|change (map erase l2) with (erase <$> l2)];
    by rewrite list_lookup_fmap, ?Hx, ?Hy.
Qed.

(** [rec] decides equality below the depth [n]. *)
Definition equal_below (rec : option value -> option value -> option bool) (n : Z) : Prop :=
  forall a b, wf a -> wf b -> jdepth (erase a) < n -> decides (rec (Some a) (Some b)) (jeq (erase a) (erase b)).

Lemma array_item_depth c l i x : l !! i = Some x -> jdepth (erase x) < jdepth (erase (VArray c l)).
Proof.
  intros Hi. apply jdepth_item. apply list_elem_of_fmap. exists x. split; [done|]. by eapply list_elem_of_lookup_2.
Qed.

Lemma object_member_depth c l i k x :
  l !! i = Some (k, x) -> jdepth (erase x) < jdepth (erase (VObject c l)).
Proof.
  intros Hi. apply (jdepth_member (emember (k, x))). apply list_elem_of_fmap. exists (k, x).
  split; [done|]. by eapply list_elem_of_lookup_2.
Qed.

Lemma array_equal_decides rec c1 l1 c2 l2 :
  wf (VArray c1 l1) -> wf (VArray c2 l2) -> length l1 = length l2 ->
  equal_below rec (jdepth (erase (VArray c1 l1))) ->
  decides (all_loop (fun i => rec (l1 !! i) (l2 !! i)) (length l1) 0)
    (jeq (erase (VArray c1 l1)) (erase (VArray c2 l2))).
Proof.
  intros Ha Hb Hl IH. eapply decides_iff; [apply (all_loop_decides _ (fun i => exists x y,
    l1 !! i = Some x /\ l2 !! i = Some y /\ jeq (erase x) (erase y)))|].
  - intros j Hj. destruct (lookup_lt_is_Some_2 l1 j) as [x Hx]; [lia|].
    destruct (lookup_lt_is_Some_2 l2 j) as [y Hy]; [lia|]. rewrite Hx, Hy.
    eapply decides_iff; [apply IH|].
    + exact (wf_lookup_array _ _ _ _ Ha Hx).
    + exact (wf_lookup_array _ _ _ _ Hb Hy).
    + by apply (array_item_depth c1 l1 j).
    + split; [by exists x, y|]. intros (? & ? & ? & ? & ?). by simplify_eq.
  - split; [intros H; by apply array_jeq|]. intros H j Hj.
    destruct (lookup_lt_is_Some_2 l1 j) as [x Hx]; [lia|].
    destruct (lookup_lt_is_Some_2 l2 j) as [y Hy]; [lia|]. exists x, y. split; [done|]. split; [done|].
    by eapply jeq_array_inv.
Qed.

Lemma object_equal_decides rec c1 l1 c2 l2 :
  wf (VObject c1 l1) -> wf (VObject c2 l2) -> length l1 = length l2 ->
  equal_below rec (jdepth (erase (VObject c1 l1))) ->
  decides (all_loop (fun i =>
      let k := fst <$> l1 !! i in
      match builtin_object_get (Some (VObject c2 l2)) k with
      | None => Some false
      | vb => rec (builtin_object_get (Some (VObject c1 l1)) k) vb
      end) (length l1) 0)
    (jeq (erase (VObject c1 l1)) (erase (VObject c2 l2))).
Proof.
  intros Ha Hb Hl IH. pose proof Ha as (_ & Hn1 & _)%wf_object. pose proof Hb as (_ & Hn2 & _)%wf_object.
  eapply decides_iff; [apply (all_loop_decides _ (fun i => forall k x, l1 !! i = Some (k, x) ->
    exists w, jlookup k (map emember l2) = Some w /\ jeq (erase x) w))|].
  - intros j Hj. destruct (lookup_lt_is_Some_2 l1 j) as [[k x] Hx]; [lia|].
    rewrite Hx. cbn [fmap option_fmap option_map fst]. cbv zeta.
    destruct (member_get _ _ _ _ _ Ha Hx) as (y & -> & Hy & Hwy).
    destruct (member_good _ _ _ _ _ Ha Hx) as [Hk _].
    pose proof (object_get_cases c2 l2 k Hb Hk) as Hg.
    destruct (builtin_object_get (Some (VObject c2 l2)) (Some k)) as [w|].
    + destruct Hg as [Hg Hww]. eapply decides_iff; [apply IH; [done|done|]|].
      * rewrite Hy. by apply (object_member_depth c1 l1 j k).
      * rewrite Hy. split; [intros; simplify_eq; eauto|]. intros H.
        destruct (H k x) as (w' & ? & ?); [done|]. by simplify_eq.
    + apply decides_intro. split; [done|]. intros H. destruct (H k x eq_refl) as (w & ? & _). congruence.
  - rewrite !erase_object. split.
    + intros H. apply jeq_object_iff; [by rewrite map_map..|by rewrite !length_map|].
      intros k v ([k' x] & Heq & Hin)%list_elem_of_fmap. unfold emember in Heq. simplify_eq/=.
      apply list_elem_of_lookup in Hin as [i Hi]. apply (H i); [|done].
      split; [lia|]. by eapply lookup_lt_Some.
    + intros H j Hj k x Hx. eapply jeq_object_inv; [|done|]; [by rewrite map_map|].
      apply list_elem_of_fmap. exists (k, x). split; [done|]. by eapply list_elem_of_lookup_2.
Qed.

Lemma value_equal_decides fuel : equal_below (value_equal fuel) (Z.of_nat fuel).
Proof.
  induction fuel as [|fuel IH]; intros a b Ha Hb Hd; [pose proof (jdepth_nonneg (erase a)); lia|].
  assert (equal_below (value_equal fuel) (jdepth (erase a))) as IH'
    by (intros x y Hx Hy Hlt; apply IH; [done..|lia]).
  cbn [value_equal]. cbv zeta. case_bool_decide as Ht; cbn [negb].
  2: { apply decides_intro. split; [done|]. intros Hj. exfalso. apply Ht. by destruct a, b; inversion Hj. }
  destruct a as [|x|x|x|c1 l1|c1 l1], b as [|y|y|y|c2 l2|c2 l2]; try discriminate Ht;
    cbn [builtin_type_of builtin_get_bool builtin_get_number builtin_get_string].
  - apply decides_intro. split; [constructor|done].
  - apply decides_intro. rewrite Bool.eqb_true_iff. split; [intros ->; constructor|by inversion 1].
  - apply decides_intro. split; [by constructor|by inversion 1].
  - destruct Ha, Hb. by apply string_eq_decides.
  - cbn [builtin_array_size]. destruct (Nat.eqb_spec (length l1) (length l2)) as [Hl|Hl]; cbn [negb].
    + by apply array_equal_decides.
    + apply decides_intro. split; [done|]. inversion 1 as [| | | |? ? HF|]; subst.
      apply Forall2_length in HF. by rewrite !length_map in HF.
  - cbn [builtin_object_size]. destruct (Nat.eqb_spec (length l1) (length l2)) as [Hl|Hl]; cbn [negb].
    + by apply object_equal_decides.
    + apply decides_intro. split; [done|]. rewrite !erase_object. inversion 1 as [| | | | |? ? l2' Hp HF]; subst.
      apply Forall2_length in HF. apply Permutation_length in Hp. rewrite !length_map in *. lia.
Qed.

(** ** Integers *)

(** A number that is an integer of magnitude at most 2^53 - 1. *)
Definition safe_integer (d : double) : Prop :=
  isfinite d = true /\ exists z, Z.abs z <= 2 ^ 53 - 1 /\ dscaled d = z * 2 ^ 1074.

Lemma dltb_finite a b : isfinite a = true -> isfinite b = true -> dltb a b = (dscaled a <? dscaled b).
Proof. by destruct a, b. Qed.

Lemma deqb_finite a b : isfinite a = true -> isfinite b = true -> deqb a b = (dscaled a =? dscaled b).
Proof. by destruct a, b. Qed.

Lemma quot_range x : Z.abs x <= (2 ^ 53 - 1) * 2 ^ 1074 -> Z.abs (Z.quot x (2 ^ 1074)) <= 2 ^ 53 - 1.
Proof.
  intros H. assert (0 < 2 ^ 1074) as Hp by (apply Z.pow_pos_nonneg; lia).
  rewrite <- Z.quot_abs by lia. rewrite (Z.abs_eq (2 ^ 1074)) by lia. rewrite Z.quot_div_nonneg by lia.
  apply Z.div_le_upper_bound; lia.
Qed.

Lemma is_integer_value_spec d : is_integer_value d = true <-> safe_integer d.
Proof.
  unfold is_integer_value, safe_integer, dgtb. destruct (isfinite d) eqn:Hf; [|split; [done|by intros [? _]]].
  destruct (double_of_Z_exact (-9007199254740991)) as [Hf1 Hs1]; [done|].
  destruct (double_of_Z_exact 9007199254740991) as [Hf2 Hs2]; [done|].
  rewrite !dltb_finite, Hs1, Hs2 by done. clear Hf1 Hs1 Hf2 Hs2. cbn [negb orb].
  assert (0 < 2 ^ 1074) as HP by (apply Z.pow_pos_nonneg; lia).
  unfold dtrunc. pose proof (quot_range (dscaled d)) as Hq. pose proof double_of_Z_exact as Hex.
  remember (2 ^ 1074) as P eqn:HP'. clear HP'. change (2 ^ 53 - 1) with 9007199254740991 in *.
  change (2 ^ 53) with 9007199254740992 in *. set (x := dscaled d) in *.
  destruct ((x <? -9007199254740991 * P) || (9007199254740991 * P <? x)) eqn:E.
  - split; [done|]. intros (_ & z & Hz & Hx). apply orb_true_iff in E. rewrite !Z.ltb_lt in E. nia.
  - bool_props. specialize (Hq ltac:(lia)). destruct (Hex (Z.quot x P)) as [Hf3 Hs3]; [lia|].
    rewrite deqb_finite, Hs3 by done. change (dscaled d) with x. rewrite Z.eqb_eq. split.
    + intros Hx. split; [done|]. by exists (Z.quot x P).
    + intros (_ & z & Hz & Hx). rewrite Hx, Z.quot_mul; lia.
Qed.

(** ** Validity, declaratively *)

(** The value of a keyword of a schema. *)
Definition keyword (m : list (bytes * json)) (k : string) : option json := jlookup (cs k) m.

(** The instance has the type of that name. *)
Inductive has_type : bytes -> json -> Prop :=
| ht_string s : has_type (cs "string") (JString s)
| ht_integer d : safe_integer d -> has_type (cs "integer") (JNumber d)
| ht_number d : isfinite d = true -> has_type (cs "number") (JNumber d)
| ht_boolean b : has_type (cs "boolean") (JBool b)
| ht_array l : has_type (cs "array") (JArray l)
| ht_object l : has_type (cs "object") (JObject l).

Definition type_ok (m : list (bytes * json)) (i : json) : Prop :=
  match keyword m "type" with
  | None => True
  | Some (JString t) => has_type t i
  | Some _ => False
  end.

Definition enum_ok (m : list (bytes * json)) (i : json) : Prop :=
  match keyword m "enum" with
  | None => True
  | Some (JArray l) => exists x, x ∈ l /\ jeq i x
  | Some _ => False
  end.

(** Every element of "required" is the name of a member of the instance. *)
Definition required_ok (m mi : list (bytes * json)) : Prop :=
  match keyword m "required" with
  | None => True
  | Some (JArray l) => forall x, x ∈ l -> exists k, x = JString k /\ is_Some (jlookup k mi)
  | Some _ => False
  end.

Definition bounds_ok (m : list (bytes * json)) (d : double) : Prop :=
  (forall b, keyword m "minimum" = Some (JNumber b) -> dltb d b = false) /\
  (forall b, keyword m "maximum" = Some (JNumber b) -> dgtb d b = false).

Inductive valid : json -> json -> Prop :=
| valid_intro m i :
    type_ok m i -> enum_ok m i ->
    (forall mi, i = JObject mi -> required_ok m mi /\
       forall p, keyword m "properties" = Some p -> exists ps, p = JObject ps /\
       forall k s v, (k, s) ∈ ps -> jlookup k mi = Some v -> valid s v) ->
    (forall l s x, i = JArray l -> keyword m "items" = Some s -> x ∈ l -> valid s x) ->
    (forall d, i = JNumber d -> bounds_ok m d) ->
    valid (JObject m) i.

(** ** The validator against validity

    [verdict err o P]: the check ended, its status says whether [P] holds,
    and the buffer was left alone or holds a message, respectively. *)
Definition verdict (err : errbuf) (o : checked) (P : Prop) : Prop :=
  exists st err', o = Some (st, err') /\
  ((st = MCP_OK /\ err' = err /\ P) \/
   (st = MCP_ERR_INVALID_ARGUMENT /\ (exists path reason, err' = fail_at err path reason) /\ ~ P)).

Lemma verdict_ok err (P : Prop) : P -> verdict err (Some (MCP_OK, err)) P.
Proof. intros. eexists _, _. split; [done|]. by left. Qed.

Lemma verdict_failed err path reason P : ~ P -> verdict err (failed err path reason) P.
Proof. intros. eexists _, _. split; [done|]. right. split; [done|]. split; [by eexists _, _|done]. Qed.

Lemma verdict_iff err o P Q : verdict err o P -> (P <-> Q) -> verdict err o Q.
Proof. intros (st & err' & -> & H) HPQ. exists st, err'. split; [done|]. rewrite <- HPQ. done. Qed.

Lemma verdict_then err o k P Q :
  verdict err o P -> (P -> verdict err (k err) Q) ->
  verdict err (then_ok o k) (P /\ Q).
Proof.
  intros (st & err' & -> & [(-> & -> & HP)|(-> & Hm & HP)]) Hk.
  - eapply verdict_iff; [by apply Hk|]. naive_solver.
  - eexists _, _. split; [done|]. right. naive_solver.
Qed.

Lemma status_loop_verdict err f (P : nat -> Prop) k : forall i,
  (forall j, (i <= j < i + k)%nat -> verdict err (f j err) (P j)) ->
  verdict err (status_loop f k i err) (forall j, (i <= j < i + k)%nat -> P j).
Proof.
  induction k as [|k IH]; intros i H; simpl; [apply verdict_ok; lia|].
  eapply verdict_iff; [apply verdict_then; [apply (H i); lia|]; intros _; apply IH; intros j Hj; apply H; lia|].
  split; [|intros HP; split; [apply HP; lia|intros j Hj; apply HP; lia]].
  intros [Hi HP] j Hj. destruct (decide (j = i)) as [->|]; [done|]. apply HP. lia.
Qed.

(** A keyword as the code looks it up. *)
Lemma keyword_cases c m k :
  wf (VObject c m) -> good_string (cs k) ->
  match builtin_object_get (Some (VObject c m)) (Some (cs k)) with
  | Some x => keyword (map emember m) k = Some (erase x) /\ wf x
  | None => keyword (map emember m) k = None
  end.
Proof. intros. by apply object_get_cases. Qed.

Ltac keyword_case Hw k :=
  let H := fresh "Hk" in
  pose proof (keyword_cases _ _ k Hw ltac:(by split)) as H;
  destruct (builtin_object_get _ (Some (cs k))) as [?|];
  [destruct H as [-> ?]|rewrite H].

Lemma type_match_spec t i :
  has_nul t = false ->
  match type_match t (Some i) with
  | Some b => b = true <-> has_type t (erase i)
  | None => ~ has_type t (erase i)
  end.
Proof.
  intros Hn. unfold type_match. rewrite !streq_no_nul by done.
  destruct (bool_decide_reflect (t = cs "string")) as [->|N1].
  { rewrite bool_decide_eq_true. destruct i; split; intros H; try done; try constructor; by inversion H. }
  destruct (bool_decide_reflect (t = cs "integer")) as [->|N2].
  { destruct i; split; intros H; try done; try (by inversion H).
    - constructor. by apply is_integer_value_spec.
    - inversion H as [|? Hs| | | |]. by apply is_integer_value_spec. }
  destruct (bool_decide_reflect (t = cs "number")) as [->|N3].
  { destruct i; split; intros H; try done; try constructor; by inversion H. }
  destruct (bool_decide_reflect (t = cs "boolean")) as [->|N4].
  { rewrite bool_decide_eq_true. destruct i; split; intros H; try done; try constructor; by inversion H. }
  destruct (bool_decide_reflect (t = cs "array")) as [->|N5].
  { rewrite bool_decide_eq_true. destruct i; split; intros H; try done; try constructor; by inversion H. }
  destruct (bool_decide_reflect (t = cs "object")) as [->|N6].
  { rewrite bool_decide_eq_true. destruct i; split; intros H; try done; try constructor; by inversion H. }
  intros H. inversion H; congruence.
Qed.

Lemma check_type_verdict c m i path err :
  wf (VObject c m) -> wf i ->
  verdict err (check_type (Some (VObject c m)) (Some i) path err) (type_ok (map emember m) (erase i)).
Proof.
  intros Hw Hi. unfold check_type, type_ok. keyword_case Hw "type"; [|by apply verdict_ok].
  destruct v; try (by apply verdict_failed; intros []). cbn [builtin_get_string erase].
  pose proof (type_match_spec string i ltac:(by destruct H)) as Ht.
  destruct (type_match string (Some i)) as [[]|]; [apply verdict_ok|apply verdict_failed..]; naive_solver.
Qed.

Lemma check_enum_verdict fuel c m i path err :
  wf (VObject c m) -> wf i -> jdepth (erase i) < Z.of_nat fuel ->
  verdict err (check_enum fuel (Some (VObject c m)) (Some i) path err) (enum_ok (map emember m) (erase i)).
Proof.
  intros Hw Hi Hd. unfold check_enum, enum_ok. keyword_case Hw "enum"; [|by apply verdict_ok].
  destruct v as [| | | |ce le|]; try (by apply verdict_failed; intros []).
  cbn [builtin_type_of builtin_array_size erase]. rewrite bool_decide_true by done. cbn [negb].
  destruct (any_loop_decides (fun j => value_equal fuel (Some i) (builtin_array_get (Some (VArray ce le)) j))
    (fun j => exists x, le !! j = Some x /\ jeq (erase i) (erase x)) (length le) 0) as (r & -> & Hr).
  { intros j Hj. destruct (lookup_lt_is_Some_2 le j) as [x Hx]; [lia|]. cbn [builtin_array_get]. rewrite Hx.
    eapply decides_iff; [apply value_equal_decides; [done| |done]|].
    - exact (wf_lookup_array _ _ _ _ H Hx).
    - split; [by exists x|]. intros (? & ? & ?). by simplify_eq. }
  assert (r = true <-> exists x, x ∈ map erase le /\ jeq (erase i) x) as Hiff.
  { rewrite Hr. split.
    - intros (j & _ & x & Hx & Hj). exists (erase x). split; [|done]. apply list_elem_of_fmap. exists x.
      split; [done|]. by eapply list_elem_of_lookup_2.
    - intros (x & (y & -> & Hy)%list_elem_of_fmap & Hj). apply list_elem_of_lookup in Hy as [j Hy]. exists j.
      split; [|by exists y]. apply lookup_lt_Some in Hy. lia. }
  destruct r; [apply verdict_ok; by apply Hiff|]. apply verdict_failed. intros H'. by apply Hiff in H'.
Qed.

Lemma check_required_verdict c m ci mi path err :
  wf (VObject c m) -> wf (VObject ci mi) ->
  verdict err (check_required (Some (VObject c m)) (Some (VObject ci mi)) path err)
    (required_ok (map emember m) (map emember mi)).
Proof.
  intros Hw Hi. unfold check_required, required_ok. keyword_case Hw "required"; [|by apply verdict_ok].
  destruct v as [| | | |cr lr|]; try (by apply verdict_failed; intros []).
  cbn [builtin_type_of builtin_array_size erase]. rewrite bool_decide_true by done. cbn [negb].
  eapply verdict_iff; [apply (status_loop_verdict err _ (fun j => forall x, lr !! j = Some x ->
    exists k, erase x = JString k /\ is_Some (jlookup k (map emember mi))))|].
  - intros j Hj. destruct (lookup_lt_is_Some_2 lr j) as [x Hx]; [lia|]. cbn [builtin_array_get]. rewrite Hx.
    pose proof (wf_lookup_array _ _ _ _ H Hx) as Hwx.
    destruct x as [| | |k| |]; try (apply verdict_failed; intros HP; by destruct (HP _ eq_refl) as (? & ? & _)).
    cbn [builtin_get_string]. unfold builtin_object_has.
    pose proof (object_get_cases ci mi k Hi Hwx) as Hg.
    destruct (builtin_object_get _ (Some k)) as [y|].
    + rewrite bool_decide_true by done. destruct Hg as [Hg _]. apply verdict_ok. intros x ?. simplify_eq.
      exists k. by rewrite Hg.
    + rewrite bool_decide_false by apply is_Some_None. apply verdict_failed. intros HP.
      destruct (HP _ eq_refl) as (k' & ? & [? ?]). simplify_eq/=.
  - split.
    + intros HP x (y & -> & Hy)%list_elem_of_fmap. apply list_elem_of_lookup in Hy as [j Hy].
      apply (HP j); [|done]. apply lookup_lt_Some in Hy. lia.
    + intros HP j Hj x Hx. apply HP, list_elem_of_fmap. exists x. split; [done|]. by eapply list_elem_of_lookup_2.
Qed.

Definition jnum (o : option json) : option double :=
  match o with Some (JNumber b) => Some b | _ => None end.

Lemma bound_test (f : double -> bool) o :
  (match jnum o with Some b => f b | None => false end) = false <->
  forall b, o = Some (JNumber b) -> f b = false.
Proof. destruct o as [[]|]; simpl; split; intros; simplify_eq; eauto. Qed.

Lemma check_bounds_verdict c m d path err :
  wf (VObject c m) ->
  verdict err (check_bounds (Some (VObject c m)) (Some (VNumber d)) path err) (bounds_ok (map emember m) d).
Proof.
  intros Hw. unfold check_bounds, bounds_ok. cbv zeta.
  change (default (DZero false) (builtin_get_number (Some (VNumber d)))) with d.
  assert (forall k, good_string (cs k) ->
    builtin_get_number (builtin_object_get (Some (VObject c m)) (Some (cs k))) =
    jnum (keyword (map emember m) k)) as Hk.
  { intros k Hg. pose proof (keyword_cases _ _ k Hw Hg) as H.
    destruct (builtin_object_get _ _) as [x|]; [|by rewrite H]. destruct H as [-> _]. by destruct x. }
  rewrite !Hk by (by split). clear Hk.
  destruct (match jnum (keyword _ "minimum") with Some _ => _ | None => _ end) eqn:E1.
  { apply verdict_failed. intros [H _]. pose proof (proj2 (bound_test (dltb d) _) H). congruence. }
  destruct (match jnum (keyword _ "maximum") with Some _ => _ | None => _ end) eqn:E2.
  { apply verdict_failed. intros [_ H]. pose proof (proj2 (bound_test (dgtb d) _) H). congruence. }
  apply verdict_ok. split; by apply (proj1 (bound_test _ _)).
Qed.

(** The part of validity that depends on the kind of the instance. *)
Definition props_ok (m mi : list (bytes * json)) : Prop :=
  forall p, keyword m "properties" = Some p -> exists ps, p = JObject ps /\
  forall k s v, (k, s) ∈ ps -> jlookup k mi = Some v -> valid s v.

Definition body_ok (m : list (bytes * json)) (i : json) : Prop :=
  match i with
  | JObject mi => required_ok m mi /\ props_ok m mi
  | JArray l => forall s x, keyword m "items" = Some s -> x ∈ l -> valid s x
  | JNumber d => bounds_ok m d
  | _ => True
  end.

Lemma valid_iff m i : (type_ok m i /\ enum_ok m i /\ body_ok m i) <-> valid (JObject m) i.
Proof.
  split.
  - intros (Ht & He & Hb). constructor; [done|done|intros; subst; simpl in Hb; naive_solver..].
  - inversion 1 as [? ? Ht He Ho Ha Hn]; subst. split; [done|]. split; [done|].
    destruct i; simpl; auto. intros s x. by apply Ha.
Qed.

Definition checks_below (check : option value -> option value -> bytes -> errbuf -> checked) (n : Z) : Prop :=
  forall s i path err, wf s -> wf i -> jdepth (erase i) < n ->
  verdict err (check (Some s) (Some i) path err) (valid (erase s) (erase i)).

Lemma check_object_verdict check c m ci mi path err :
  wf (VObject c m) -> wf (VObject ci mi) -> checks_below check (jdepth (erase (VObject ci mi))) ->
  verdict err (check_object check (Some (VObject c m)) (Some (VObject ci mi)) path err)
    (body_ok (map emember m) (erase (VObject ci mi))).
Proof.
  intros Hw Hi IH. unfold check_object. rewrite erase_object. cbn [body_ok].
  apply verdict_then; [by apply check_required_verdict|]. intros _. unfold props_ok.
  keyword_case Hw "properties"; [|by apply verdict_ok].
  destruct v as [| | | | |cp mp];
    try (by apply verdict_failed; intros HP; destruct (HP _ eq_refl) as (? & ? & _)).
  cbn [builtin_type_of builtin_object_size]. rewrite bool_decide_true by done. cbn [negb].
  eapply verdict_iff; [apply (status_loop_verdict err _ (fun j => forall k s v, mp !! j = Some (k, s) ->
    jlookup k (map emember mi) = Some v -> valid (erase s) v))|].
  - intros j Hj. destruct (lookup_lt_is_Some_2 mp j) as [[k s] Hs]; [lia|].
    cbn [builtin_object_key_at]. rewrite Hs. cbn [fmap option_fmap option_map fst]. cbv zeta.
    destruct (member_good _ _ _ _ _ H Hs) as [Hk _]. pose proof (object_get_cases ci mi k Hi Hk) as Hg.
    destruct (builtin_object_get (Some (VObject ci mi)) (Some k)) as [x|].
    + destruct Hg as [Hg Hwx]. destruct (member_get _ _ _ _ _ H Hs) as (y & -> & Hy & Hwy).
      eapply verdict_iff; [apply IH; [done|done|]|].
      * apply jlookup_elem, jdepth_member in Hg. by rewrite erase_object.
      * rewrite Hy. split; [intros; by simplify_eq|]. intros HP. by apply (HP k s).
    + apply verdict_ok. intros; simplify_eq.
  - rewrite erase_object. split.
    + intros HP p ?. simplify_eq. exists (map emember mp). split; [done|].
      intros k s v ([k' x] & Heq & Hin)%list_elem_of_fmap Hv. unfold emember in Heq. simplify_eq/=.
      apply list_elem_of_lookup in Hin as [j Hj]. apply (HP j) with k'; [|done|done].
      apply lookup_lt_Some in Hj. lia.
    + intros HP j Hj k s v Hs Hv. destruct (HP _ eq_refl) as (ps & ? & HP'). simplify_eq.
      apply (HP' k); [|done]. apply list_elem_of_fmap. exists (k, s). split; [done|].
      by eapply list_elem_of_lookup_2.
Qed.

Lemma check_items_verdict check c m ci l path err :
  wf (VObject c m) -> wf (VArray ci l) -> checks_below check (jdepth (erase (VArray ci l))) ->
  verdict err
    match builtin_object_get (Some (VObject c m)) (Some (cs "items")) with
    | None => Some (MCP_OK, err)
    | items =>
        status_loop (fun i err =>
          check items (l !! i)
            (take (SCHEMA_MAX_PATH - 1) (path ++ cs "[" ++ fmt_int (Z.of_nat i) ++ cs "]")) err)
          (length l) 0 err
    end (body_ok (map emember m) (erase (VArray ci l))).
Proof.
  intros Hw Hi IH. cbn [erase body_ok]. keyword_case Hw "items"; [|by apply verdict_ok].
  eapply verdict_iff; [apply (status_loop_verdict err _ (fun j => forall x, l !! j = Some x ->
    valid (erase v) (erase x)))|].
  - intros j Hj. destruct (lookup_lt_is_Some_2 l j) as [x Hx]; [lia|]. rewrite Hx.
    eapply verdict_iff; [apply IH; [done| |]|].
    + exact (wf_lookup_array _ _ _ _ Hi Hx).
    + by apply (array_item_depth ci l j).
    + split; [intros; by simplify_eq|]. intros HP. by apply HP.
  - split.
    + intros HP s x ? (y & -> & Hy)%list_elem_of_fmap. simplify_eq. apply list_elem_of_lookup in Hy as [j Hy].
      apply (HP j); [|done]. apply lookup_lt_Some in Hy. lia.
    + intros HP j Hj x Hx. apply HP; [done|]. apply list_elem_of_fmap. exists x. split; [done|].
      by eapply list_elem_of_lookup_2.
Qed.

Lemma check_verdict fuel : checks_below (check fuel) (Z.of_nat fuel).
Proof.
  induction fuel as [|fuel IH]; intros s i path err Hs Hi Hd; [pose proof (jdepth_nonneg (erase i)); lia|].
  assert (checks_below (check fuel) (jdepth (erase i))) as IH'
    by (intros ? ? ? ? ? ? ?; apply IH; [done..|lia]).
  destruct s as [| | | | |c m];
    try (cbn [check]; apply verdict_failed; intros H; by inversion H).
  rewrite erase_object. eapply verdict_iff; [|apply valid_iff]. cbn [check].
  apply verdict_then; [by apply check_type_verdict|]. intros _.
  apply verdict_then; [by apply check_enum_verdict|]. intros _.
  destruct i as [| |d| |ci l|ci mi]; cbn [builtin_type_of]; try (by apply verdict_ok).
  - by apply check_bounds_verdict.
  - by apply check_items_verdict.
  - by apply check_object_verdict.
Qed.

(** ** Builders *)

(** A pointer into an object: the member with this key. *)
Definition points (s : value) (key : bytes) (x : value) : Prop :=
  exists c m i, s = VObject c m /\ find_key key m = Some i /\ m !! i = Some (key, x).

Lemma get_points c m key x :
  wf (VObject c m) -> good_string key ->
  builtin_object_get (Some (VObject c m)) (Some key) = Some x -> points (VObject c m) key x.
Proof.
  intros Hw [Hn Hu] H. cbn [builtin_object_get] in H. rewrite (cstr_no_nul key Hn), Hu in H. cbn [negb] in H.
  pose proof Hw as (_ & _ & Hm)%wf_object. pose proof (find_key_spec key m Hn Hm) as Hf.
  destruct (find_key key m) as [i|] eqn:E; [|done]. destruct Hf as ((y & Hi) & _ & _). rewrite Hi in H.
  simplify_eq/=. by exists c, m, i.
Qed.

Lemma points_meaning c m key x :
  wf (VObject c m) -> good_string key -> points (VObject c m) key x ->
  wf x /\ jlookup key (map emember m) = Some (erase x).
Proof.
  intros Hw [Hn Hu] (c' & m' & i & Heq & Hf & Hi). simplify_eq.
  pose proof Hw as (_ & _ & Hm)%wf_object. pose proof (find_key_spec key m' Hn Hm) as Hs. rewrite Hf in Hs.
  destruct Hs as (_ & -> & _). rewrite Hi. split; [|done]. by apply (Forall_lookup_1 _ _ _ _ Hm) in Hi as [_ ?].
Qed.

(** Changing the node behind the pointer. *)
Lemma put_child_spec c m key x y :
  wf (VObject c m) -> good_string key -> points (VObject c m) key x -> wf y ->
  exists m', put_child (Some (VObject c m)) key y = Some (VObject c m') /\ wf (VObject c m') /\
  blocks (VObject c m') = blocks (VObject c m) - blocks x + blocks y /\
  map emember m' = jinsert key (erase y) (map emember m).
Proof.
  intros Hw [Hn Hu] (c' & m' & i & Heq & Hf & Hi) Hy. simplify_eq. cbn [put_child]. rewrite Hf.
  pose proof Hw as (_ & _ & Hm)%wf_object. pose proof (find_key_spec key m' Hn Hm) as Hs. rewrite Hf in Hs.
  destruct Hs as (_ & _ & Hins). eexists. split; [done|]. split; [by eapply wf_alter|]. split; [|done].
  cbn [blocks]. fold (mblocks (alter (fun kv => (kv.1, y)) i m')). fold (mblocks m').
  rewrite (mblocks_alter _ _ _ _ Hi). simpl. lia.
Qed.

Definition empty_of (want_array : bool) : value := if want_array then VArray 0 [] else VObject 0 [].

Lemma empty_of_new (want_array : bool) h r h' :
  (if want_array then builtin_new_array else builtin_new_object) h = (r, h') ->
  hstep h h' (oblocks r) /\ (r = None \/ r = Some (empty_of want_array)) /\ (ample h -> r = Some (empty_of want_array)).
Proof. destruct want_array; by apply value_new_spec. Qed.

Lemma empty_of_wf want_array : wf (empty_of want_array).
Proof. destruct want_array; simpl; split; try done. split; [constructor|done]. Qed.

Lemma object_set_points c m key val h c' m' h' :
  builtin_object_set (Some (VObject c m)) (Some key) (Some val) h = ((MCP_OK, Some (VObject c' m')), h') ->
  wf (VObject c m) -> good_string key -> builtin_object_get (Some (VObject c m)) (Some key) = None ->
  points (VObject c' m') key val.
Proof.
  intros H Hw [Hn Hu] Hg. cbn [builtin_object_set] in H. cbv zeta in H. cbn [builtin_object_get] in Hg.
  rewrite (cstr_no_nul key Hn), Hu in H, Hg. cbn [negb] in H, Hg.
  pose proof Hw as (_ & _ & Hm)%wf_object. pose proof (find_key_spec key m Hn Hm) as Hs.
  destruct (find_key key m) as [i|] eqn:E.
  { destruct Hs as ((x & Hi) & _). by rewrite Hi in Hg. }
  apply bind_inv in H as ([st c1] & h1 & E1 & H). destruct st; try (by minv H).
  minv H; simplify_eq. eexists _, (m ++ [(key, val)]), (length m). split; [done|]. split.
  - clear - E Hn. induction m as [|[k x] m IH]; simpl in *.
    + by rewrite streq_no_nul, bool_decide_true.
    + destruct (streq k key); [done|]. destruct (find_key key m); [done|]. by rewrite IH.
  - rewrite lookup_app_r by lia. by rewrite Nat.sub_diag.
Qed.

(** [ensure_child] hands out the member, new or old, of the wanted kind. *)
Lemma ensure_child_spec c m key want_array h ch o h' :
  ensure_child (Some (VObject c m)) key want_array h = ((ch, o), h') ->
  wf (VObject c m) -> good_string key ->
  exists c' m', o = Some (VObject c' m') /\ wf (VObject c' m') /\
  hstep h h' (blocks (VObject c' m') - blocks (VObject c m)) /\
  match ch with
  | None => map emember m' = map emember m
  | Some x =>
      wf x /\ points (VObject c' m') key x /\ jtype (erase x) = jtype (erase (empty_of want_array)) /\
      (jlookup key (map emember m) = Some (erase x) /\ map emember m' = map emember m \/
       jlookup key (map emember m) = None /\ x = empty_of want_array /\
         map emember m' = jinsert key (erase x) (map emember m))
  end.
Proof.
  intros H Hw Hk. unfold ensure_child in H. pose proof (object_get_cases c m key Hw Hk) as Hg.
  destruct (builtin_object_get (Some (VObject c m)) (Some key)) as [old|] eqn:Eg.
  - destruct Hg as [Hl Hwo]. minv H. simplify_eq. exists c, m. split; [done|]. split; [done|].
    split; [hsolve|]. cbv zeta. destruct want_array; case_bool_decide as Ht; try done.
    all: split; [done|]; split; [by apply get_points|]; split; [by destruct old|by left].
  - apply bind_inv in H as (fresh & h1 & E1 & H). apply empty_of_new in E1 as (Hs1 & Hr & _).
    destruct Hr as [-> | ->]; [minv H; simplify_eq; exists c, m; split; [done|]; split; [done|]; split; [hsolve|done]|].
    apply bind_inv in H as ([st o1] & h2 & E2 & H). pose proof E2 as E2'.
    apply object_set_spec in E2 as (c' & m' & -> & Hw' & Hs2 & Hm' & _); [|done|apply empty_of_wf].
    rewrite (cstr_no_nul key (proj1 Hk)) in Hm'. destruct (decide (st = MCP_OK)) as [->|Hn].
    + minv H. simplify_eq. exists c', m'. split; [done|]. split; [done|]. split; [simpl in Hs1; hsolve|].
      split; [apply empty_of_wf|]. split; [by eapply object_set_points|]. split; [done|]. by right.
    + assert (ch = None /\ o = Some (VObject c' m') /\ hstep h2 h' (- blocks (empty_of want_array)))
        as (-> & -> & Hs3).
      { destruct st; [done|minv H; simplify_eq; destroy_facts; by split_and!..]. }
      exists c', m'. split; [done|]. split; [done|]. split; [simpl in Hs1; hsolve|done].
Qed.

(** What the last [object_set] of a builder does, with the error mapped. *)
Lemma set_fresh_spec c m key v h st o h' :
  set_fresh (Some (VObject c m)) key (Some v) h = ((st, o), h') ->
  wf (VObject c m) -> wf v -> good_string key ->
  exists c' m', o = Some (VObject c' m') /\ wf (VObject c' m') /\
  hstep h h' (blocks (VObject c' m') - blocks (VObject c m) - blocks v) /\
  (st = MCP_OK /\ map emember m' = jinsert key (erase v) (map emember m) \/
   st = MCP_ERR_NOMEM /\ map emember m' = map emember m /\ ~ ample h).
Proof.
  intros H Hw Hv [Hn Hu]. cbn [set_fresh] in H. apply bind_inv in H as ([st1 o1] & h1 & E & H).
  apply object_set_spec in E as (c' & m' & -> & Hw' & Hs & Hm & Ha); [|done..].
  rewrite (cstr_no_nul key Hn) in *. exists c', m'. destruct (decide (st1 = MCP_OK)) as [->|Hne].
  - minv H. simplify_eq. split; [done|]. split; [done|]. split; [hsolve|]. by left.
  - assert (st = MCP_ERR_NOMEM /\ o = Some (VObject c' m') /\ hstep h1 h' (- blocks v)) as (-> & -> & Hs2).
    { destruct st1; [done|minv H; simplify_eq; destroy_facts; by split_and!..]. }
    split; [done|]. split; [done|]. split; [hsolve|]. right. naive_solver.
Qed.

(** The members of "properties", none when it is missing. *)
Definition old_props (m : list (bytes * json)) : list (bytes * json) :=
  match keyword m "properties" with Some (JObject ps) => ps | _ => [] end.

Lemma jinsert_twice k v w l : jinsert k w (jinsert k v l) = jinsert k w l.
Proof.
  induction l as [|[k' x] l IH]; simpl; [by rewrite bool_decide_true|].
  case_bool_decide; simpl; [by rewrite bool_decide_true|]. rewrite bool_decide_false by done. by rewrite IH.
Qed.

Lemma add_property_spec c m name prop h st o h' :
  mcp_schema_add_property (Some (VObject c m)) (Some name) (Some prop) h = ((st, o), h') ->
  wf (VObject c m) -> wf prop ->
  exists c' m', o = Some (VObject c' m') /\ wf (VObject c' m') /\
  hstep h h' (blocks (VObject c' m') - blocks (VObject c m)
              - (if decide (st = MCP_OK) then blocks prop else 0)) /\
  (st = MCP_OK -> map emember m' =
     jinsert (cs "properties") (JObject (jinsert (cstr name) (erase prop) (old_props (map emember m))))
       (map emember m)).
Proof.
  intros H Hw Hp. unfold mcp_schema_add_property in H. cbn [is_object builtin_type_of] in H.
  rewrite bool_decide_true in H by done. cbn [negb] in H.
  apply bind_inv in H as ([ch o1] & h1 & E & H).
  apply ensure_child_spec in E as (c1 & m1 & -> & Hw1 & Hs1 & Hch); [|done|by split].
  destruct ch as [x|].
  2: { minv H. simplify_eq. exists c1, m1. destruct (decide _); [done|]. split; [done|]. split; [done|].
       split; [hsolve|done]. }
  destruct Hch as (Hwx & Hpt & Hty & Hm1).
  destruct x as [| | | | |cx mx]; try done. apply bind_inv in H as ([st1 o2] & h2 & E2 & H).
  apply object_set_spec in E2 as (c2 & m2 & -> & Hw2 & Hs2 & Hm2 & _); [|done..].
  destruct (put_child_spec c1 m1 (cs "properties") (VObject cx mx) (VObject c2 m2)) as (m3 & Hput & Hw3 & Hb3 & Hm3);
    [done|by split|done|done|]. rewrite Hput in H.
  assert ((st = MCP_OK <-> st1 = MCP_OK) /\ o = Some (VObject c1 m3) /\ h' = h2) as (Hst & -> & ->).
  { destruct st1; minv H; simplify_eq; done. }
  exists c1, m3. split; [done|]. split; [done|].
  assert (hstep h h2 (blocks (VObject c1 m3) - blocks (VObject c m)
    - (if decide (st1 = MCP_OK) then blocks prop else 0))) as Hs by (rewrite Hb3; hsolve).
  split; [by destruct (decide (st = MCP_OK)), (decide (st1 = MCP_OK)); try tauto|].
  intros ->. destruct Hst as [Hst _]. rewrite (Hst eq_refl) in *. simpl in Hm2. rewrite Hm3, erase_object, Hm2.
  unfold old_props, keyword. rewrite erase_object in Hm1.
  destruct Hm1 as [[Hl ->]|(Hl & Hx & ->)].
  - by rewrite Hl.
  - rewrite Hl. injection Hx as -> ->. by rewrite jinsert_twice.
Qed.

Definition old_required (m : list (bytes * json)) : list json :=
  match keyword m "required" with Some (JArray l) => l | _ => [] end.

Lemma add_required_spec c m name h st o h' :
  mcp_schema_add_required (Some (VObject c m)) (Some name) h = ((st, o), h') ->
  wf (VObject c m) ->
  exists c' m', o = Some (VObject c' m') /\ wf (VObject c' m') /\
  hstep h h' (blocks (VObject c' m') - blocks (VObject c m)) /\
  (st = MCP_OK -> map emember m' =
     jinsert (cs "required") (JArray (old_required (map emember m) ++ [JString (cstr name)])) (map emember m)).
Proof.
  intros H Hw. unfold mcp_schema_add_required in H. cbn [is_object builtin_type_of] in H.
  rewrite bool_decide_true in H by done. cbn [negb] in H.
  apply bind_inv in H as ([ch o1] & h1 & E & H).
  apply ensure_child_spec in E as (c1 & m1 & -> & Hw1 & Hs1 & Hch); [|done|by split].
  destruct ch as [x|]; [|minv H; simplify_eq; exists c1, m1; split; [done|]; split; [done|]; split; [hsolve|done]].
  destruct Hch as (Hwx & Hpt & Hty & Hm1). destruct x as [| | | |cx lx|]; try done.
  apply bind_inv in H as (s & h2 & E2 & H). apply new_string_spec in E2 as (Hs2 & Hr & _).
  destruct Hr as [-> |[-> Hg]].
  { minv H. simplify_eq. exists c1, m1. split; [done|]. split; [done|]. split; [simpl in Hs2; hsolve|done]. }
  apply bind_inv in H as ([st1 o2] & h3 & E3 & H).
  apply array_append_spec in E3 as (c3 & l3 & -> & Hw3 & Hs3 & Hl3 & _); [|done..].
  destruct (put_child_spec c1 m1 (cs "required") (VArray cx lx) (VArray c3 l3)) as (m3 & Hput & Hw4 & Hb4 & Hm4);
    [done|by split|done|done|]. rewrite Hput in H. exists c1, m3. destruct (decide (st1 = MCP_OK)) as [->|Hne].
  - minv H. simplify_eq. split; [done|]. split; [done|]. split; [rewrite Hb4; simpl in Hs2; hsolve|]. intros _.
    rewrite Hm4. cbn [erase] in *. rewrite map_app. unfold old_required, keyword.
    destruct Hm1 as [[Hl ->]|(Hl & Hx & ->)]; rewrite Hl; [done|]. injection Hx as -> ->. by rewrite jinsert_twice.
  - assert (st <> MCP_OK /\ o = Some (VObject c1 m3) /\ hstep h3 h' (-2)) as (Hst & -> & Hs4).
    { destruct st1; [done|minv H; simplify_eq; destroy_facts; by split_and!..]. }
    split; [done|]. split; [done|]. split; [|done]. rewrite Hb4. simpl in Hs2. hsolve.
Qed.

(** ** Claims *)

(** C16: [mcp_schema_validate] decides validity: for a well formed schema and
    instance (and a bound on the nesting of the instance) it returns MCP_OK
    exactly on the instances the schema admits, and
    MCP_ERR_INVALID_ARGUMENT on all others. *)
Theorem validate_correct fuel s i :
  wf s -> wf i -> jdepth (erase i) < Z.of_nat fuel ->
  (mcp_schema_validate fuel (Some s) (Some i) = Some MCP_OK /\ valid (erase s) (erase i)) \/
  (mcp_schema_validate fuel (Some s) (Some i) = Some MCP_ERR_INVALID_ARGUMENT /\ ~ valid (erase s) (erase i)).
Proof.
  intros Hs Hi Hd. destruct (check_verdict fuel s i [] None Hs Hi Hd) as (st & err & H & Hst).
  unfold mcp_schema_validate, mcp_schema_validate_verbose. rewrite H. simpl. naive_solver.
Qed.

(** The message of [mcp_schema_validate_verbose] fits its buffer: given a
    buffer of [cap] bytes, the string written leaves room for its NUL; it is
    empty when the instance is valid and not empty when it is not (and there
    is room for a character). *)
Theorem validate_message fuel s i cap :
  wf s -> wf i -> jdepth (erase i) < Z.of_nat fuel -> (0 < cap)%nat ->
  exists st msg, mcp_schema_validate_verbose fuel (Some s) (Some i) (Some cap) = Some (st, Some (cap, msg)) /\
  (length msg < cap)%nat /\ (st = MCP_OK -> msg = []) /\ (st <> MCP_OK -> (1 < cap)%nat -> msg <> []).
Proof.
  intros Hs Hi Hd Hc. destruct (check_verdict fuel s i [] (Some (cap, [])) Hs Hi Hd) as (st & err & H & Hst).
  unfold mcp_schema_validate_verbose. destruct Hst as [(-> & -> & _)|(-> & (path & reason & ->) & _)].
  - exists MCP_OK, []. split; [done|]. simpl. split; [lia|]. done.
  - cbn [fail_at] in H. rewrite (proj2 (Nat.eqb_neq cap 0)) in H by lia. eexists _, _. split; [exact H|].
    split; [rewrite length_take; lia|]. split; [done|]. intros _ Hc1 Hn. apply (f_equal length) in Hn.
    rewrite length_take in Hn. destruct path; simpl in Hn; lia.
Qed.

(** [value_equal] decides equality of well formed values up to the order
    of object members and the sign of zero. *)
Theorem value_equal_correct fuel a b :
  wf a -> wf b -> jdepth (erase a) < Z.of_nat fuel ->
  (value_equal fuel (Some a) (Some b) = Some true /\ jeq (erase a) (erase b)) \/
  (value_equal fuel (Some a) (Some b) = Some false /\ ~ jeq (erase a) (erase b)).
Proof.
  intros Ha Hb Hd. destruct (value_equal_decides fuel a b Ha Hb Hd) as (r & -> & Hr).
  destruct r; [left|right]; naive_solver.
Qed.

(** The "integer" test accepts exactly the finite doubles whose value is
    an integer of magnitude at most 2^53 - 1. *)
Theorem is_integer_correct d : is_integer_value d = true <-> safe_integer d.
Proof. apply is_integer_value_spec. Qed.

(** [mcp_schema_add_property]: the schema stays well formed, no block is
    lost, and on success its "properties" binds the name to the property
    schema, which it now owns, next to the properties it had. *)
Theorem add_property_contract c m name prop h st o h' :
  mcp_schema_add_property (Some (VObject c m)) (Some name) (Some prop) h = ((st, o), h') ->
  wf (VObject c m) -> wf prop ->
  exists c' m', o = Some (VObject c' m') /\ wf (VObject c' m') /\
  hstep h h' (blocks (VObject c' m') - blocks (VObject c m)
              - (if decide (st = MCP_OK) then blocks prop else 0)) /\
  (st = MCP_OK -> map emember m' =
     jinsert (cs "properties") (JObject (jinsert (cstr name) (erase prop) (old_props (map emember m))))
       (map emember m)).
Proof. apply add_property_spec. Qed.

(** [mcp_schema_add_required]: likewise, the name is appended to the
    "required" array. *)
Theorem add_required_contract c m name h st o h' :
  mcp_schema_add_required (Some (VObject c m)) (Some name) h = ((st, o), h') ->
  wf (VObject c m) ->
  exists c' m', o = Some (VObject c' m') /\ wf (VObject c' m') /\
  hstep h h' (blocks (VObject c' m') - blocks (VObject c m)) /\
  (st = MCP_OK -> map emember m' =
     jinsert (cs "required") (JArray (old_required (map emember m) ++ [JString (cstr name)])) (map emember m)).
Proof. apply add_required_spec. Qed.

(** The leak of [typed_new]: when storing the type name fails, the schema
    object is destroyed but the type string is not; the two blocks of the
    string stay allocated and no pointer to them is left. *)
Theorem typed_new_leaks :
  exists h r h', typed_new (cs "object") h = (r, h') /\
  r = None /\ corrupt h' = false /\ live h' = live h + 2.
Proof. exists (Heap (fun k => Nat.eqb k 3) 0 0 false). eexists _, _. split; [vm_compute; reflexivity|done]. Qed.

Definition sample_schema : value :=
  doc "{'type':'object','required':['n'],'properties':{'n':{'type':'integer','minimum':1},'tags':{'type':'array','items':{'enum':['x','y']}}}}".

Lemma validate_correct_witness :
  (mcp_schema_validate 5 (Some sample_schema) (Some (doc "{'tags':['y'],'n':3}")) = Some MCP_OK /\
     valid (erase sample_schema) (erase (doc "{'tags':['y'],'n':3}"))) \/
  (mcp_schema_validate 5 (Some sample_schema) (Some (doc "{'tags':['y'],'n':3}")) = Some MCP_ERR_INVALID_ARGUMENT /\
     ~ valid (erase sample_schema) (erase (doc "{'tags':['y'],'n':3}"))).
Proof. apply (validate_correct 5 sample_schema (doc "{'tags':['y'],'n':3}")); [apply doc_wf|apply doc_wf|by vm_compute]. Defined.

Example validate_message_example :
  mcp_schema_validate_verbose 5 (Some sample_schema) (Some (doc "{'n':1,'tags':['z']}")) (Some 64%nat) =
  Some (MCP_ERR_INVALID_ARGUMENT, Some (64%nat, cs "tags[0]: not in enum")).
Proof. by vm_compute. Qed.

Lemma validate_message_witness :
  exists st msg, mcp_schema_validate_verbose 5 (Some sample_schema) (Some (doc "{'n':0}")) (Some 64%nat) =
    Some (st, Some (64%nat, msg)) /\
  (length msg < 64)%nat /\ (st = MCP_OK -> msg = []) /\ (st <> MCP_OK -> (1 < 64)%nat -> msg <> []).
Proof.
  apply (validate_message 5 sample_schema (doc "{'n':0}") 64); [apply doc_wf|apply doc_wf|by vm_compute|lia].
Defined.

Lemma value_equal_correct_witness :
  (value_equal 3 (Some (doc "{'a':0,'b':[true]}")) (Some (doc "{'b':[true],'a':-0}")) = Some true /\
     jeq (erase (doc "{'a':0,'b':[true]}")) (erase (doc "{'b':[true],'a':-0}"))) \/
  (value_equal 3 (Some (doc "{'a':0,'b':[true]}")) (Some (doc "{'b':[true],'a':-0}")) = Some false /\
     ~ jeq (erase (doc "{'a':0,'b':[true]}")) (erase (doc "{'b':[true],'a':-0}"))).
Proof.
  apply (value_equal_correct 3 (doc "{'a':0,'b':[true]}") (doc "{'b':[true],'a':-0}"));
    [apply doc_wf|apply doc_wf|by vm_compute].
Defined.

Lemma full_members_doc : wf (VObject 4 [(cs "type", VString (cs "object"))]).
Proof. exact (doc_wf "{'type':'object'}"). Qed.

Lemma add_property_contract_witness :
  exists st o h', mcp_schema_add_property (Some (VObject 4 [(cs "type", VString (cs "object"))]))
    (Some (cs "n")) (Some VNull) fresh_heap = ((st, o), h') /\
  exists c' m', o = Some (VObject c' m') /\ wf (VObject c' m') /\
  hstep fresh_heap h' (blocks (VObject c' m') - blocks (VObject 4 [(cs "type", VString (cs "object"))])
              - (if decide (st = MCP_OK) then blocks VNull else 0)) /\
  (st = MCP_OK -> map emember m' =
     jinsert (cs "properties") (JObject (jinsert (cs "n") JNull []))
       [(cs "type", JString (cs "object"))]).
Proof.
  eexists _, _, _. split; [vm_compute; reflexivity|].
  apply (add_property_contract 4 [(cs "type", VString (cs "object"))] (cs "n") VNull fresh_heap);
    [by vm_compute|apply full_members_doc|done].
Defined.

Lemma add_required_contract_witness :
  exists st o h', mcp_schema_add_required (Some (VObject 4 [(cs "type", VString (cs "object"))]))
    (Some (cs "n")) fresh_heap = ((st, o), h') /\
  exists c' m', o = Some (VObject c' m') /\ wf (VObject c' m') /\
  hstep fresh_heap h' (blocks (VObject c' m') - blocks (VObject 4 [(cs "type", VString (cs "object"))])) /\
  (st = MCP_OK -> map emember m' =
     jinsert (cs "required") (JArray [JString (cs "n")]) [(cs "type", JString (cs "object"))]).
Proof.
  eexists _, _, _. split; [vm_compute; reflexivity|].
  apply (add_required_contract 4 [(cs "type", VString (cs "object"))] (cs "n") fresh_heap);
    [by vm_compute|apply full_members_doc].
Defined.
