(* ===== verification/Message.v ===== *)
(** * JSON-RPC 2.0 messages (src/protocol/message.c)

    The envelope around a JSON object: parsing and classification, the
    accessors, the builders with their out-of-memory paths, and the maps
    between status codes and JSON-RPC error codes. *)
From S2P Require Import Prelude Heap Utf8 Double JsonValue JsonParse JsonGrammar JsonNumber JsonSerialize JsonApi Schema.

Local Open Scope Z_scope.

(** ** Constants (include/mcpkit/protocol/message.h) *)

Inductive mcp_msg_kind_t := MCP_MSG_INVALID | MCP_MSG_REQUEST | MCP_MSG_NOTIFICATION | MCP_MSG_RESPONSE.

Inductive mcp_id_type_t := MCP_ID_NONE | MCP_ID_STRING | MCP_ID_NUMBER.

#[export] Instance mcp_msg_kind_eq_dec : EqDecision mcp_msg_kind_t.
Proof. solve_decision. Defined.
#[export] Instance mcp_id_type_eq_dec : EqDecision mcp_id_type_t.
Proof. solve_decision. Defined.

Definition MCP_RPC_PARSE_ERROR : Z := -32700.
Definition MCP_RPC_INVALID_REQUEST : Z := -32600.
Definition MCP_RPC_METHOD_NOT_FOUND : Z := -32601.
Definition MCP_RPC_INVALID_PARAMS : Z := -32602.
Definition MCP_RPC_INTERNAL_ERROR : Z := -32603.
Definition MCP_RPC_HEADER_MISMATCH : Z := -32020.
Definition MCP_RPC_MISSING_REQUIRED_CLIENT_CAPABILITY : Z := -32021.
Definition MCP_RPC_UNSUPPORTED_PROTOCOL_VERSION : Z := -32022.

Definition MCP_PROTOCOL_MAX_MESSAGE_BYTES : Z := 4 * 1024 * 1024.

(** ** The message *)

Record mcp_message_t := Message { dom : value }.

(** The block of the struct and those of the tree. *)
Definition msg_blocks (m : mcp_message_t) : Z := 1 + blocks (dom m).
Definition omsg_blocks (m : option mcp_message_t) : Z := match m with None => 0 | Some m => msg_blocks m end.

Definition wrap (d : value) : M (option mcp_message_t) :=
  ok <- xmalloc ;; ret (if ok then Some (Message d) else None).

Definition get_key (msg : option mcp_message_t) (key : bytes) : option value :=
  match msg with None => None | Some m => builtin_object_get (Some (dom m)) (Some key) end.

Definition classify (d : value) : mcp_msg_kind_t :=
  match builtin_object_get (Some d) (Some (cs "method")) with
  | Some method =>
      match builtin_get_string (Some method) with
      | None => MCP_MSG_INVALID
      | Some _ =>
          if builtin_object_has (Some d) (Some (cs "id")) then MCP_MSG_REQUEST else MCP_MSG_NOTIFICATION
      end
  | None =>
      if builtin_object_has (Some d) (Some (cs "result")) || builtin_object_has (Some d) (Some (cs "error"))
      then MCP_MSG_RESPONSE else MCP_MSG_INVALID
  end.

Definition mcp_message_parse (text : option bytes) : M (option mcp_message_t) :=
  match text with
  | None => ret None
  | Some t =>
      if MCP_PROTOCOL_MAX_MESSAGE_BYTES <? Z.of_nat (length t) then ret None else
      r <- builtin_parse (Some t) ;;
      match r with
      | Got (VObject _ _ as d) =>
          msg <- wrap d ;;
          match msg with
          | None => builtin_destroy (Some d) ;; ret None
          | Some _ => ret msg
          end
      | Got d => builtin_destroy (Some d) ;; ret None
      | _ => ret None
      end
  end.

Definition mcp_message_destroy (msg : option mcp_message_t) : M unit :=
  match msg with
  | None => ret tt
  | Some m => builtin_destroy (Some (dom m)) ;; xfree false
  end.

Definition mcp_message_kind (msg : option mcp_message_t) : mcp_msg_kind_t :=
  match msg with None => MCP_MSG_INVALID | Some m => classify (dom m) end.

(** ** Accessors *)

Definition mcp_message_jsonrpc (msg : option mcp_message_t) : option bytes :=
  builtin_get_string (get_key msg (cs "jsonrpc")).

Definition mcp_message_method (msg : option mcp_message_t) : option bytes :=
  builtin_get_string (get_key msg (cs "method")).

Definition mcp_message_params (msg : option mcp_message_t) : option value := get_key msg (cs "params").

Definition mcp_message_id_type (msg : option mcp_message_t) : mcp_id_type_t :=
  match get_key msg (cs "id") with
  | None => MCP_ID_NONE
  | Some id =>
      match builtin_type_of (Some id) with
      | MCP_JSON_STRING => MCP_ID_STRING
      | MCP_JSON_NUMBER => MCP_ID_NUMBER
      | _ => MCP_ID_NONE
      end
  end.

Definition mcp_message_id_string (msg : option mcp_message_t) : option bytes :=
  builtin_get_string (get_key msg (cs "id")).

Definition mcp_message_id_number (msg : option mcp_message_t) : option double :=
  builtin_get_number (get_key msg (cs "id")).

Definition mcp_message_result (msg : option mcp_message_t) : option value := get_key msg (cs "result").

Definition error_obj (msg : option mcp_message_t) : option value :=
  match get_key msg (cs "error") with
  | Some err => if bool_decide (builtin_type_of (Some err) = MCP_JSON_OBJECT) then Some err else None
  | None => None
  end.

(** The cast [(int)d]: undefined when the truncated value does not fit. *)
Definition cast_int (d : double) : option Z :=
  if isfinite d && (-2147483648 <=? dtrunc d) && (dtrunc d <=? 2147483647) then Some (dtrunc d) else None.

(** [mcp_message_error_code]: [None] is MCP_ERR_INVALID_ARGUMENT; the inner
    option is the value stored, when the cast is defined. *)
Definition mcp_message_error_code (msg : option mcp_message_t) : option (option Z) :=
  let err := error_obj msg in
  let code := match err with Some _ => builtin_object_get err (Some (cs "code")) | None => None end in
  cast_int <$> builtin_get_number code.

Definition mcp_message_error_text (msg : option mcp_message_t) : option bytes :=
  let err := error_obj msg in
  let text := match err with Some _ => builtin_object_get err (Some (cs "message")) | None => None end in
  builtin_get_string text.

Definition mcp_message_meta (msg : option mcp_message_t) : option value :=
  match get_key msg (cs "_meta") with
  | Some v => if bool_decide (builtin_type_of (Some v) = MCP_JSON_OBJECT) then Some v else None
  | None => None
  end.

(** ** Builders *)

Definition new_envelope : M (option value) :=
  d <- builtin_new_object ;;
  match d with
  | None => ret None
  | Some _ =>
      v <- string_new (cs "2.0") ;;
      match v with
      | None => builtin_destroy d ;; ret None
      | Some _ =>
          r <- builtin_object_set d (Some (cs "jsonrpc")) v ;;
          match r with
          | (MCP_OK, d') => ret d'
          | (_, d') => builtin_destroy v ;; builtin_destroy d' ;; ret None
          end
      end
  end.

Definition set_owned (d : option value) (key : bytes) (val : option value) : M (mcp_status_t * option value) :=
  match val with
  | None => ret (MCP_OK, d)
  | Some _ => builtin_object_set d (Some key) val
  end.

Definition finish_with (d : value) (key : bytes) (val : option value) : M (option mcp_message_t) :=
  msg <- wrap d ;;
  match msg with
  | None => builtin_destroy (Some d) ;; ret None
  | Some m =>
      r <- set_owned (Some (dom m)) key val ;;
      match r with
      | (MCP_OK, Some d') => ret (Some (Message d'))
      | (_, Some d') => mcp_message_destroy (Some (Message d')) ;; ret None
      | (_, None) => mcp_message_destroy msg ;; ret None
      end
  end.

(** [x != NULL ? m : NULL] *)
Definition if_some {A B} (x : option A) (m : M (option B)) : M (option B) :=
  match x with Some _ => m | None => ret None end.

(** The common body of the request builders, which differ in the id. *)
Definition request_with (new_id : M (option value)) (method : bytes) (params : option value)
    : M (option mcp_message_t) :=
  d <- new_envelope ;;
  idv <- if_some d new_id ;;
  mv <- if_some idv (string_new method) ;;
  match d, idv, mv with
  | Some _, Some _, Some _ =>
      r <- builtin_object_set d (Some (cs "id")) idv ;;
      match r with
      | (MCP_OK, d) =>
          r <- builtin_object_set d (Some (cs "method")) mv ;;
          match r with
          | (MCP_OK, Some d) => finish_with d (cs "params") params
          | (_, d) => builtin_destroy mv ;; builtin_destroy d ;; ret None
          end
      | (_, d) => builtin_destroy idv ;; builtin_destroy mv ;; builtin_destroy d ;; ret None
      end
  | _, _, _ => builtin_destroy idv ;; builtin_destroy mv ;; builtin_destroy d ;; ret None
  end.

Definition mcp_request_new_string_id (id method : option bytes) (params : option value)
    : M (option mcp_message_t) :=
  match id, method with
  | Some id, Some method => request_with (string_new id) method params
  | _, _ => ret None
  end.

Definition mcp_request_new_number_id (id : double) (method : option bytes) (params : option value)
    : M (option mcp_message_t) :=
  match method with
  | Some method => request_with (builtin_new_number id) method params
  | None => ret None
  end.

Definition mcp_notification_new (method : option bytes) (params : option value)
    : M (option mcp_message_t) :=
  match method with
  | None => ret None
  | Some method =>
      d <- new_envelope ;;
      mv <- if_some d (string_new method) ;;
      match d, mv with
      | Some _, Some _ =>
          r <- builtin_object_set d (Some (cs "method")) mv ;;
          match r with
          | (MCP_OK, Some d) => finish_with d (cs "params") params
          | (_, d) => builtin_destroy mv ;; builtin_destroy d ;; ret None
          end
      | _, _ => builtin_destroy mv ;; builtin_destroy d ;; ret None
      end
  end.

Definition copy_id (req : option mcp_message_t) : M (option value) :=
  match req with
  | None => builtin_new_null
  | Some _ =>
      match mcp_message_id_type req with
      | MCP_ID_STRING =>
          match mcp_message_id_string req with Some s => string_new s | None => ret None end
      | MCP_ID_NUMBER =>
          match mcp_message_id_number req with Some d => builtin_new_number d | None => ret None end
      | MCP_ID_NONE => builtin_new_null
      end
  end.

(** The common body of the three builders of success responses. *)
Definition response_ok_with (new_id : M (option value)) (result : option value) : M (option mcp_message_t) :=
  d <- new_envelope ;;
  idv <- if_some d new_id ;;
  match d, idv with
  | Some _, Some _ =>
      r <- builtin_object_set d (Some (cs "id")) idv ;;
      match r with
      | (MCP_OK, Some d) => finish_with d (cs "result") result
      | (_, d) => builtin_destroy idv ;; builtin_destroy d ;; ret None
      end
  | _, _ => builtin_destroy idv ;; builtin_destroy d ;; ret None
  end.

Definition mcp_response_ok_new (req : option mcp_message_t) (result : option value) : M (option mcp_message_t) :=
  match req with None => ret None | Some _ => response_ok_with (copy_id req) result end.

Definition mcp_response_ok_string_id_new (id : option bytes) (result : option value) : M (option mcp_message_t) :=
  match id with None => ret None | Some id => response_ok_with (string_new id) result end.

Definition mcp_response_ok_number_id_new (id : double) (result : option value) : M (option mcp_message_t) :=
  response_ok_with (builtin_new_number id) result.

(** The tail of [mcp_response_err_new], from the wrap on. *)
Definition err_finish (d err : value) (data : option value) : M (option mcp_message_t) :=
  msg <- wrap d ;;
  match msg with
  | None => builtin_destroy (Some err) ;; builtin_destroy (Some d) ;; ret None
  | Some m =>
      r <- set_owned (Some err) (cs "data") data ;;
      match r with
      | (MCP_OK, err) =>
          r <- builtin_object_set (Some (dom m)) (Some (cs "error")) err ;;
          match r with
          | (MCP_OK, Some d') => ret (Some (Message d'))
          | (_, d') =>
              builtin_destroy err ;; mcp_message_destroy (Message <$> d') ;; ret None
          end
      | (_, err) => builtin_destroy err ;; mcp_message_destroy msg ;; ret None
      end
  end.

Definition mcp_response_err_new (req : option mcp_message_t) (code : Z) (message : option bytes)
    (data : option value) : M (option mcp_message_t) :=
  match message with
  | None => ret None
  | Some message =>
      d <- new_envelope ;;
      idv <- if_some d (copy_id req) ;;
      err <- if_some idv builtin_new_object ;;
      codev <- if_some err (builtin_new_number (double_of_Z code)) ;;
      msgv <- if_some codev (string_new message) ;;
      match d, idv, err, codev, msgv with
      | Some _, Some _, Some _, Some _, Some _ =>
          r <- builtin_object_set d (Some (cs "id")) idv ;;
          match r with
          | (MCP_OK, d) =>
              r <- builtin_object_set err (Some (cs "code")) codev ;;
              match r with
              | (MCP_OK, err) =>
                  r <- builtin_object_set err (Some (cs "message")) msgv ;;
                  match r, d with
                  | (MCP_OK, Some err), Some d => err_finish d err data
                  | (_, err), _ => builtin_destroy msgv ;; builtin_destroy err ;; builtin_destroy d ;; ret None
                  end
              | (_, err) =>
                  builtin_destroy codev ;; builtin_destroy msgv ;; builtin_destroy err ;;
                  builtin_destroy d ;; ret None
              end
          | (_, d) =>
              builtin_destroy idv ;; builtin_destroy codev ;; builtin_destroy msgv ;;
              builtin_destroy err ;; builtin_destroy d ;; ret None
          end
      | _, _, _, _, _ =>
          builtin_destroy idv ;; builtin_destroy err ;; builtin_destroy codev ;;
          builtin_destroy msgv ;; builtin_destroy d ;; ret None
      end
  end.

(** [mcp_json_object_set_take] of the built-in backend. *)
Definition object_set_take (obj : option value) (key : bytes) (val : option value)
    : M (mcp_status_t * option value) :=
  mcp_json_object_set_take None obj (Some key) val.

Definition mcp_result_inject_result_type (result : option value) : M (mcp_status_t * option value) :=
  if negb (is_object result) then ret (MCP_ERR_INVALID_ARGUMENT, result) else
  s <- string_new (cs "complete") ;;
  match s with
  | None => ret (MCP_ERR_NOMEM, result)
  | Some _ =>
      r <- object_set_take result (cs "resultType") s ;;
      ret (match r with (MCP_OK, o) => (MCP_OK, o) | (_, o) => (MCP_ERR_NOMEM, o) end)
  end.

Definition mcp_result_inject_meta (result meta : option value) : M (mcp_status_t * option value) :=
  if negb (is_object result) then ret (MCP_ERR_INVALID_ARGUMENT, result) else
  match meta with
  | None => ret (MCP_ERR_INVALID_ARGUMENT, result)
  | Some _ =>
      r <- object_set_take result (cs "_meta") meta ;;
      ret (match r with (MCP_OK, o) => (MCP_OK, o) | (_, o) => (MCP_ERR_NOMEM, o) end)
  end.

Definition mcp_message_serialize (msg : option mcp_message_t) : M (option bytes) :=
  match msg with None => ret None | Some m => builtin_serialize (Some (dom m)) end.

(** ** Codes *)

Definition mcp_status_to_rpc_code (status : mcp_status_t) : Z :=
  match status with
  | MCP_OK => 0
  | MCP_ERR_INVALID_ARGUMENT => MCP_RPC_INVALID_PARAMS
  | MCP_ERR_NOT_FOUND => MCP_RPC_METHOD_NOT_FOUND
  | MCP_ERR_PROTOCOL => MCP_RPC_INVALID_REQUEST
  | _ => MCP_RPC_INTERNAL_ERROR
  end.

Definition mcp_rpc_code_to_status (code : Z) : mcp_status_t :=
  if code =? 0 then MCP_OK
  else if code =? MCP_RPC_INVALID_PARAMS then MCP_ERR_INVALID_ARGUMENT
  else if code =? MCP_RPC_METHOD_NOT_FOUND then MCP_ERR_NOT_FOUND
  else if (code =? MCP_RPC_INVALID_REQUEST) || (code =? MCP_RPC_PARSE_ERROR) || (code =? MCP_RPC_HEADER_MISMATCH)
  then MCP_ERR_PROTOCOL
  else if (code =? MCP_RPC_MISSING_REQUIRED_CLIENT_CAPABILITY) || (code =? MCP_RPC_UNSUPPORTED_PROTOCOL_VERSION)
  then MCP_ERR_UNSUPPORTED
  else MCP_ERR_PROTOCOL.

(** ** Reasoning about builders *)

(** A constructor call: a value that means [j], or NULL; with memory and
    [ok] arguments it is not NULL. *)
Definition attempt (m : M (option value)) (j : json) (ok : Prop) : Prop :=
  forall h r h', m h = (r, h') -> hstep h h' (oblocks r) /\
  match r with Some v => wf v /\ erase v = j | None => ~ (ample h /\ ok) end.

Lemma string_new_attempt s : attempt (string_new s) (JString (cstr s)) (utf8_valid (cstr s) = true).
Proof.
  intros h r h' H. apply new_string_spec in H as (Hs & Hr & Ha). split; [done|].
  destruct Hr as [-> |[-> Hg]]; [|done]. intros [A Hu]. by specialize (Ha A (conj (has_nul_cstr s) Hu)).
Qed.

Lemma number_attempt d : valid_double d = true -> attempt (builtin_new_number d) (JNumber d) (isfinite d = true).
Proof.
  intros Hv h r h' H. apply new_number_spec in H as (Hs & Hr & Ha). split; [done|].
  destruct Hr as [-> |[-> Hf]]; [|done]. intros [A Hf]. by specialize (Ha A Hf).
Qed.

Lemma new_attempt v (ok : Prop) : blocks v = 1 -> wf v -> attempt (value_new v) (erase v) ok.
Proof.
  intros Hb Hw h r h' H. apply value_new_spec in H as (Hs & Hr & Ha); [|done]. split; [done|].
  destruct Hr as [-> | ->]; [|done]. intros [A _]. by specialize (Ha A).
Qed.

(** [object_set] on something that means an object. *)
Lemma set_cases o l key val h st r h' :
  builtin_object_set (Some o) (Some key) (Some val) h = ((st, r), h') ->
  erase o = JObject l -> wf o -> wf val -> good_string key ->
  exists o', r = Some o' /\ wf o' /\
  ((st = MCP_OK /\ hstep h h' (blocks o' - blocks o - blocks val) /\ erase o' = JObject (jinsert key (erase val) l)) \/
   (st <> MCP_OK /\ hstep h h' (blocks o' - blocks o) /\ erase o' = JObject l /\ ~ ample h)).
Proof.
  intros H Ho Hw Hv Hk. destruct (set_stores o key val l Ho Hw Hv Hk h st r h' H) as (o' & -> & Hw' & Ha & Hst).
  exists o'. split; [done|]. split; [done|]. destruct (decide (st = MCP_OK)) as [->|Hn]; [left; naive_solver|].
  right. split; [done|]. rewrite <- Ho. destruct st; naive_solver.
Qed.

Definition envelope : list (bytes * json) := [(cs "jsonrpc", JString (cs "2.0"))].

Lemma new_envelope_attempt : attempt new_envelope (JObject envelope) True.
Proof.
  intros h r h' H. unfold new_envelope in H. apply bind_inv in H as (d & h1 & E1 & H).
  apply (new_attempt (VObject 0 []) True) in E1 as [Hs1 Hd]; [|done|split; [done|split; [constructor|done]]].
  destruct d as [d|]; [|minv H; split; [hsolve|done]]. destruct Hd as [Hwd Hed].
  apply bind_inv in H as (v & h2 & E2 & H). apply string_new_attempt in E2 as [Hs2 Hv].
  destruct v as [v|].
  2: { minv H. destroy_facts. split; [simpl in *; hsolve|]. intros [A _]. apply Hv.
       split; [by eapply ample_hstep|done]. }
  destruct Hv as [Hwv Hev]. apply bind_inv in H as ([st o] & h3 & E3 & H).
  eapply set_cases in E3 as (o' & -> & Hwo & [(-> & Hs3 & Heo)|(Hn & Hs3 & Heo & Hna)]); [| |done..|by split].
  - minv H. split; [simpl in *; hsolve|]. split; [done|]. by rewrite Heo, Hev.
  - assert (r = None /\ hstep h3 h' (- blocks v - blocks o')) as [-> Hs4].
    { destruct st; [done|minv H; destroy_facts; split; [done|simpl in *; hsolve]..]. }
    split; [simpl in *; hsolve|]. intros [A _]. apply Hna. eapply ample_hstep; [exact Hs2|]. by eapply ample_hstep.
Qed.

(** The object after an optional value was stored. *)
Definition jset (key : bytes) (val : option value) (l : list (bytes * json)) : list (bytes * json) :=
  match val with None => l | Some v => jinsert key (erase v) l end.

Lemma set_owned_cases o l key val h st r h' :
  set_owned (Some o) key val h = ((st, r), h') ->
  erase o = JObject l -> wf o -> owf val -> good_string key ->
  exists o', r = Some o' /\ wf o' /\
  ((st = MCP_OK /\ hstep h h' (blocks o' - blocks o - oblocks val) /\ erase o' = JObject (jset key val l)) \/
   (st <> MCP_OK /\ hstep h h' (blocks o' - blocks o) /\ erase o' = JObject l /\ ~ ample h)).
Proof.
  intros H Ho Hw Hv Hk. destruct val as [v|]; [by eapply set_cases in H|].
  simpl in H. minv H. simplify_eq. exists o. split; [done|]. split; [done|]. left. split; [done|].
  split; [hsolve|done].
Qed.

Lemma message_destroy_hstep m h u h' :
  mcp_message_destroy m h = (u, h') -> hstep h h' (- omsg_blocks m).
Proof.
  destruct m as [m|]; cbn [mcp_message_destroy]; intros H; minv H; [|simpl; hsolve].
  destroy_facts. unfold omsg_blocks, msg_blocks. simpl in *. hsolve.
Qed.

Ltac message_facts :=
  repeat match goal with
  | H : mcp_message_destroy _ _ = (_, _) |- _ => apply message_destroy_hstep in H; unfold omsg_blocks, msg_blocks in H
  end; destroy_facts.

Lemma wrap_spec d h r h' :
  wrap d h = (r, h') ->
  (r = Some (Message d) /\ hstep h h' 1) \/ (r = None /\ hstep h h' 0 /\ ~ ample h).
Proof.
  unfold wrap. intros H. minv H. pose proof E as E'. destruct a; [left|right].
  - split; [done|]. hsolve.
  - split; [done|]. split; [hsolve|]. intros A. by apply (xmalloc_ample_inv _ _ _ A) in E'.
Qed.

(** A builder that is given the value [given] besides copied data. *)
Definition builds (m : M (option mcp_message_t)) (given : Z) (j : json) (ok : Prop) : Prop :=
  forall h r h', m h = (r, h') ->
  match r with
  | Some msg => hstep h h' (msg_blocks msg - given) /\ wf (dom msg) /\ erase (dom msg) = j
  | None => hstep h h' 0 /\ ~ (ample h /\ ok)
  end.

Lemma finish_with_spec d l key val h r h' :
  finish_with d key val h = (r, h') -> erase d = JObject l -> wf d -> owf val -> good_string key ->
  match r with
  | Some msg => hstep h h' (msg_blocks msg - blocks d - oblocks val) /\ wf (dom msg) /\
      erase (dom msg) = JObject (jset key val l)
  | None => hstep h h' (- blocks d) /\ ~ ample h
  end.
Proof.
  intros H Hd Hw Hv Hk. unfold finish_with in H. apply bind_inv in H as (msg & h1 & E1 & H).
  apply wrap_spec in E1 as [[-> Hs1]|(-> & Hs1 & Hna)].
  2: { minv H. message_facts. split; [simpl in *; hsolve|done]. }
  apply bind_inv in H as ([st o] & h2 & E2 & H). cbn [dom] in E2.
  eapply set_owned_cases in E2 as (o' & -> & Hwo & [(-> & Hs2 & Heo)|(Hn & Hs2 & Heo & Hna)]); [| |done..].
  - minv H. unfold msg_blocks. simpl. split; [hsolve|done].
  - assert (r = None /\ hstep h2 h' (- (1 + blocks o'))) as [-> Hs4].
    { destruct st; [done|minv H; message_facts; split; [done|simpl in *; hsolve]..]. }
    split; [hsolve|]. intros A. apply Hna. by eapply ample_hstep.
Qed.

(** [ample] at every heap reached from one where it is known. *)
Ltac ample_fwd :=
  repeat match goal with
  | Hs : hstep ?h ?h1 _, A : ample ?h |- _ =>
      lazymatch goal with _ : ample h1 |- _ => fail | _ => pose proof (ample_hstep _ _ _ Hs A) end
  end.

(** Closes a failing path: [H] gives everything back, [Hna] says why. *)
Ltac fail_path H Hna :=
  unfold if_some in H; minv H; message_facts; split; [simpl in *; hsolve|];
  intros [? ?]; apply Hna; ample_fwd; tauto.

Lemma response_ok_builds new_id jid okid result :
  attempt new_id jid okid -> owf result ->
  builds (response_ok_with new_id result) (oblocks result)
    (JObject (jset (cs "result") result (jinsert (cs "id") jid envelope))) okid.
Proof.
  intros Hid Hres h r h' H. unfold response_ok_with in H.
  apply bind_inv in H as (d & h1 & E1 & H). apply new_envelope_attempt in E1 as [Hs1 Hd].
  destruct d as [d|]; cbn [if_some] in H.
  2: { assert (r = None) as -> by (by minv H). fail_path H Hd. }
  destruct Hd as [Hwd Hed]. apply bind_inv in H as (idv & h2 & E2 & H). apply Hid in E2 as [Hs2 Hi].
  destruct idv as [idv|].
  2: { assert (r = None) as -> by (by minv H). fail_path H Hi. }
  destruct Hi as [Hwi Hei]. apply bind_inv in H as ([st o] & h3 & E3 & H).
  eapply set_cases in E3 as (o' & -> & Hwo & [(-> & Hs3 & Heo)|(Hn & Hs3 & Heo & Hna)]); [| |done..|by split].
  - eapply finish_with_spec in H; [|done..|by split]. rewrite <- Hei. destruct r as [msg|].
    + destruct H as (Hs4 & Hw4 & He4). split; [simpl in *; hsolve|]. done.
    + destruct H as [Hs4 Hna]. split; [simpl in *; hsolve|]. intros [A ?]. apply Hna. by ample_fwd.
  - assert ((builtin_destroy (Some idv) ;; builtin_destroy (Some o') ;; ret None) h3 = (r, h')) as H'
      by (by destruct st). clear H. assert (r = None) as -> by (by minv H'). fail_path H' Hna.
Qed.

(** The same where the caller's value may be gone. *)
Ltac fail_path_l H Hna :=
  unfold if_some in H; minv H; message_facts; split; [left; simpl in *; hsolve|];
  intros [? ?]; apply Hna; ample_fwd; tauto.

(** The branches of a failed [object_set]. *)
Ltac fail_status H Hna st := destruct st; [done|fail_path H Hna..].

Lemma request_builds new_id jid okid method params :
  attempt new_id jid okid -> owf params ->
  builds (request_with new_id method params) (oblocks params)
    (JObject (jset (cs "params") params
       (jinsert (cs "method") (JString (cstr method)) (jinsert (cs "id") jid envelope))))
    (okid /\ utf8_valid (cstr method) = true).
Proof.
  intros Hid Hres h r h' H. unfold request_with in H.
  apply bind_inv in H as (d & h1 & E1 & H). apply new_envelope_attempt in E1 as [Hs1 Hd].
  destruct d as [d|]; cbn [if_some] in H; [|fail_path H Hd].
  destruct Hd as [Hwd Hed]. apply bind_inv in H as (idv & h2 & E2 & H). apply Hid in E2 as [Hs2 Hi].
  destruct idv as [idv|]; cbn [if_some] in H; [|fail_path H Hi].
  destruct Hi as [Hwi Hei]. apply bind_inv in H as (mv & h3 & E3 & H). apply string_new_attempt in E3 as [Hs3 Hm].
  destruct mv as [mv|]; [|fail_path H Hm]. destruct Hm as [Hwm Hem].
  apply bind_inv in H as ([st o] & h4 & E4 & H).
  eapply set_cases in E4 as (o' & -> & Hwo & [(-> & Hs4 & Heo)|(Hn & Hs4 & Heo & Hna)]);
    [|fail_status H Hna st|done..|by split].
  apply bind_inv in H as ([st o2] & h5 & E5 & H).
  eapply set_cases in E5 as (o2' & -> & Hwo2 & [(-> & Hs5 & Heo2)|(Hn & Hs5 & Heo2 & Hna)]);
    [|fail_status H Hna st|done..|by split].
  eapply finish_with_spec in H; [|done..|by split]. rewrite <- Hei, <- Hem. destruct r as [msg|].
  - destruct H as (Hs6 & Hw6 & He6). split; [simpl in *; hsolve|]. done.
  - destruct H as [Hs6 Hna]. split; [simpl in *; hsolve|]. intros [A ?]. apply Hna. by ample_fwd.
Qed.

Lemma notification_builds method params :
  owf params ->
  builds (mcp_notification_new (Some method) params) (oblocks params)
    (JObject (jset (cs "params") params (jinsert (cs "method") (JString (cstr method)) envelope)))
    (utf8_valid (cstr method) = true).
Proof.
  intros Hres h r h' H. cbn [mcp_notification_new] in H.
  apply bind_inv in H as (d & h1 & E1 & H). apply new_envelope_attempt in E1 as [Hs1 Hd].
  destruct d as [d|]; cbn [if_some] in H; [|fail_path H Hd].
  destruct Hd as [Hwd Hed]. apply bind_inv in H as (mv & h3 & E3 & H). apply string_new_attempt in E3 as [Hs3 Hm].
  destruct mv as [mv|]; [|fail_path H Hm]. destruct Hm as [Hwm Hem].
  apply bind_inv in H as ([st o2] & h5 & E5 & H).
  eapply set_cases in E5 as (o2' & -> & Hwo2 & [(-> & Hs5 & Heo2)|(Hn & Hs5 & Heo2 & Hna)]);
    [|fail_status H Hna st|done..|by split].
  eapply finish_with_spec in H; [|done..|by split]. rewrite <- Hem. destruct r as [msg|].
  - destruct H as (Hs6 & Hw6 & He6). split; [simpl in *; hsolve|]. done.
  - destruct H as [Hs6 Hna]. split; [simpl in *; hsolve|]. intros [A ?]. apply Hna. by ample_fwd.
Qed.

(** The id of a message as a reply repeats it: a string or a number, and
    null for everything else. *)
Definition reply_id (req : option mcp_message_t) : json :=
  match get_key req (cs "id") with
  | Some (VString s) => JString s
  | Some (VNumber d) => JNumber d
  | _ => JNull
  end.

Definition wf_msg (m : mcp_message_t) : Prop := wf (dom m) /\ exists l, erase (dom m) = JObject l.

Lemma get_key_wf m k v : wf_msg m -> good_string k -> get_key (Some m) k = Some v -> wf v.
Proof.
  intros [Hw [l Hl]] Hk H. destruct (dom m) as [| | | | |c ms] eqn:Ed; try done.
  unfold get_key in H. rewrite Ed in H. pose proof (object_get_cases c ms k Hw Hk) as Hg. rewrite H in Hg. naive_solver.
Qed.

Lemma copy_id_attempt req : from_option wf_msg True req -> attempt (copy_id req) (reply_id req) True.
Proof.
  intros Hw. destruct req as [req|]; [|by apply (new_attempt VNull)].
  unfold copy_id, reply_id, mcp_message_id_type, mcp_message_id_string, mcp_message_id_number.
  pose proof (get_key_wf req (cs "id")) as Hid.
  destruct (get_key (Some req) (cs "id")) as [v|]; [|by apply (new_attempt VNull)].
  specialize (Hid v Hw ltac:(by split) eq_refl).
  destruct v as [| |d|s| |]; cbn [builtin_type_of builtin_get_string builtin_get_number];
    try (by apply (new_attempt VNull)).
  - destruct Hid as [Hf Hv]. intros h r h' H. apply number_attempt in H as [Hs Hr]; [|done]. split; [done|].
    destruct r; [done|tauto].
  - destruct Hid as [Hn Hu]. intros h r h' H. apply string_new_attempt in H as [Hs Hr].
    rewrite (cstr_no_nul s Hn) in Hr. split; [done|]. destruct r; [done|tauto].
Qed.

(** The members of the error object. *)
Definition error_members (code : Z) (message : bytes) (data : option value) : list (bytes * json) :=
  jset (cs "data") data
    (jinsert (cs "message") (JString (cstr message)) (jinsert (cs "code") (JNumber (double_of_Z code)) [])).

Lemma err_finish_spec d err l le data h r h' :
  err_finish d err data h = (r, h') ->
  erase d = JObject l -> wf d -> erase err = JObject le -> wf err -> owf data ->
  match r with
  | Some msg => hstep h h' (msg_blocks msg - blocks d - blocks err - oblocks data) /\ wf (dom msg) /\
      erase (dom msg) = JObject (jinsert (cs "error") (JObject (jset (cs "data") data le)) l)
  | None =>
      (hstep h h' (- blocks d - blocks err) \/ hstep h h' (- blocks d - blocks err - oblocks data)) /\ ~ ample h
  end.
Proof.
  intros H Hd Hwd He Hwe Hwda. unfold err_finish in H. apply bind_inv in H as (msg & h1 & E1 & H).
  apply wrap_spec in E1 as [[-> Hs1]|(-> & Hs1 & Hna)].
  2: { minv H. message_facts. split; [left; simpl in *; hsolve|done]. }
  apply bind_inv in H as ([st o] & h2 & E2 & H).
  eapply set_owned_cases in E2 as (e' & -> & Hwe' & [(-> & Hs2 & Hee)|(Hn & Hs2 & Hee & Hna)]); [| |done..|by split].
  2: { assert (r = None /\ hstep h2 h' (- blocks e' - (1 + blocks d))) as [-> Hs3].
       { destruct st; [done|minv H; message_facts; split; [done|simpl in *; hsolve]..]. }
       split; [left; hsolve|]. intros A. apply Hna. by ample_fwd. }
  apply bind_inv in H as ([st o] & h3 & E3 & H). cbn [dom] in E3.
  eapply set_cases in E3 as (d' & -> & Hwd' & [(-> & Hs3 & Hed)|(Hn & Hs3 & Hed & Hna)]); [| |done..|by split].
  - minv H. unfold msg_blocks. cbn [dom]. split; [hsolve|]. rewrite <- Hee. done.
  - assert (r = None /\ hstep h3 h' (- blocks e' - (1 + blocks d'))) as [-> Hs4].
    { destruct st; [done|minv H; message_facts; split; [done|simpl in *; hsolve]..]. }
    split; [right; hsolve|]. intros A. apply Hna. by ample_fwd.
Qed.

(** An [int]. *)
Definition int_range (z : Z) : Prop := -2147483648 <= z <= 2147483647.

Lemma int_double code : int_range code ->
  isfinite (double_of_Z code) = true /\ valid_double (double_of_Z code) = true.
Proof.
  intros H. unfold int_range in H. split; [apply double_of_Z_exact; lia|].
  destruct code; [done|apply round_pos_valid; lia..].
Qed.

Lemma response_err_builds req code message data h r h' :
  mcp_response_err_new req code (Some message) data h = (r, h') ->
  from_option wf_msg True req -> int_range code -> owf data ->
  match r with
  | Some msg => hstep h h' (msg_blocks msg - oblocks data) /\ wf (dom msg) /\
      erase (dom msg) = JObject (jinsert (cs "error") (JObject (error_members code message data))
                                   (jinsert (cs "id") (reply_id req) envelope))
  | None => (hstep h h' 0 \/ hstep h h' (- oblocks data)) /\ ~ (ample h /\ utf8_valid (cstr message) = true)
  end.
Proof.
  intros H Hreq Hcode Hdata. destruct (int_double code Hcode) as [Hcf Hcv]. cbn [mcp_response_err_new] in H.
  apply bind_inv in H as (d & h1 & E1 & H). apply new_envelope_attempt in E1 as [Hs1 Hd].
  destruct d as [d|]; cbn [if_some] in H; [|fail_path_l H Hd].
  destruct Hd as [Hwd Hed]. apply bind_inv in H as (idv & h2 & E2 & H). apply copy_id_attempt in E2 as [Hs2 Hi]; [|done].
  destruct idv as [idv|]; cbn [if_some] in H; [|fail_path_l H Hi]. destruct Hi as [Hwi Hei].
  apply bind_inv in H as (err & h3 & E3 & H).
  apply (new_attempt (VObject 0 []) True) in E3 as [Hs3 He]; [|done|split; [done|split; [constructor|done]]].
  destruct err as [err|]; cbn [if_some] in H; [|fail_path_l H He]. destruct He as [Hwe Hee].
  apply bind_inv in H as (codev & h4 & E4 & H). apply number_attempt in E4 as [Hs4 Hc]; [|done].
  destruct codev as [codev|]; cbn [if_some] in H; [|fail_path_l H Hc]. destruct Hc as [Hwc Hec].
  apply bind_inv in H as (msgv & h5 & E5 & H). apply string_new_attempt in E5 as [Hs5 Hm].
  destruct msgv as [msgv|]; [|fail_path_l H Hm]. destruct Hm as [Hwm Hem].
  apply bind_inv in H as ([st o] & h6 & E6 & H).
  eapply set_cases in E6 as (d' & -> & Hwd' & [(-> & Hs6 & Hed')|(Hn & Hs6 & Hed' & Hna)]);
    [|destruct st; [done|fail_path_l H Hna..]|done..|by split].
  apply bind_inv in H as ([st o] & h7 & E7 & H).
  eapply set_cases in E7 as (e1 & -> & Hwe1 & [(-> & Hs7 & Hee1)|(Hn & Hs7 & Hee1 & Hna)]);
    [|destruct st; [done|fail_path_l H Hna..]|done..|by split].
  apply bind_inv in H as ([st o] & h8 & E8 & H).
  eapply set_cases in E8 as (e2 & -> & Hwe2 & [(-> & Hs8 & Hee2)|(Hn & Hs8 & Hee2 & Hna)]);
    [|destruct st; [done|fail_path_l H Hna..]|done..|by split].
  eapply err_finish_spec in H; [|done..]. unfold error_members. rewrite <- Hei, <- Hem, <- Hec.
  destruct r as [msg|].
  - destruct H as (Hs9 & Hw9 & He9). split; [simpl in *; hsolve|]. done.
  - destruct H as [Hs9 Hna]. split; [|intros [A ?]; apply Hna; by ample_fwd].
    destruct Hs9 as [Hs9|Hs9]; [left|right]; simpl in *; hsolve.
Qed.

(** ** Parsing *)

Lemma message_parse_spec t h r h' :
  mcp_message_parse (Some t) h = (r, h') ->
  match r with
  | Some m => hstep h h' (msg_blocks m) /\ wf_msg m /\
      utf8_valid t = true /\ jtext MCP_JSON_MAX_DEPTH t (erase (dom m)) /\
      Z.of_nat (length t) <= MCP_PROTOCOL_MAX_MESSAGE_BYTES
  | None => hstep h h' 0 /\
      ~ (ample h /\ Z.of_nat (length t) <= MCP_PROTOCOL_MAX_MESSAGE_BYTES /\ utf8_valid t = true /\
         exists l, jtext MCP_JSON_MAX_DEPTH t (JObject l))
  end.
Proof.
  intros H. cbn [mcp_message_parse] in H. destruct (_ <? _) eqn:El; bool_props.
  { minv H. split; [hsolve|]. intros (_ & ? & _). lia. }
  apply bind_inv in H as (p & h1 & E & H). pose proof (builtin_parse_spec _ _ _ _ E) as Hp.
  destruct p as [| |v]; [done| |].
  - minv H. split; [hsolve|]. intros (A & _ & Hu & l & Hj).
    destruct (builtin_parse_complete t (JObject l) h A Hu Hj) as (v & h2 & E2 & _). congruence.
  - destruct Hp as [Hs Hw]. pose proof (builtin_parse_sound _ _ _ _ E) as [Hu Hj].
    assert (forall l, ample h -> jtext MCP_JSON_MAX_DEPTH t (JObject l) -> erase v = JObject l) as Hdet.
    { intros l A Hl. destruct (builtin_parse_complete t (JObject l) h A Hu Hl) as (v' & h2 & E2 & <-). congruence. }
    destruct v as [| | | | |c m]; try (minv H; message_facts; split; [simpl in *; hsolve|];
      intros (A & _ & _ & l & Hl); by specialize (Hdet l A Hl)).
    apply bind_inv in H as (msg & h2 & E2 & H). apply wrap_spec in E2 as [[-> Hs2]|(-> & Hs2 & Hna)].
    + minv H. unfold msg_blocks, wf_msg. cbn [dom]. split; [hsolve|]. split; [split; [done|by eexists]|]. done.
    + minv H. message_facts. split; [simpl in *; hsolve|]. intros (A & _). apply Hna. by ample_fwd.
Qed.

(** A text that is a message, and the message it is. *)
Definition is_message (line : bytes) : Prop :=
  Z.of_nat (length line) <= MCP_PROTOCOL_MAX_MESSAGE_BYTES /\ utf8_valid line = true /\
  exists l, jtext MCP_JSON_MAX_DEPTH line (JObject l).

Definition denotes (line : bytes) (m : mcp_message_t) : Prop :=
  wf_msg m /\ utf8_valid line = true /\ jtext MCP_JSON_MAX_DEPTH line (erase (dom m)) /\
  Z.of_nat (length line) <= MCP_PROTOCOL_MAX_MESSAGE_BYTES.

Lemma denotes_det line m m' : denotes line m -> denotes line m' -> erase (dom m) = erase (dom m').
Proof.
  intros (_ & Hu & Hj & _) (_ & _ & Hj' & _). pose proof fresh_ample as A.
  destruct (builtin_parse_complete _ _ _ A Hu Hj) as (v1 & k1 & Ev1 & <-).
  destruct (builtin_parse_complete _ _ _ A Hu Hj') as (v2 & k2 & Ev2 & <-). congruence.
Qed.

Lemma denotes_render m :
  wf_msg m -> jdepth (erase (dom m)) <= MCP_JSON_MAX_DEPTH ->
  Z.of_nat (length (render (erase (dom m)))) <= MCP_PROTOCOL_MAX_MESSAGE_BYTES -> denotes (render (erase (dom m))) m.
Proof.
  intros Hw Hd Hl. split; [done|]. destruct Hw as [Hw _]. split; [by apply render_utf8|]. split; [|done].
  exists [], (render (erase (dom m))), []. rewrite app_nil_r. split_and!; [constructor|constructor|done|]. by apply render_jvalue.
Qed.

Lemma denotes_message line m : denotes line m -> is_message line.
Proof. intros ([_ [l Hl]] & Hu & Hj & Hlen). split; [done|]. split; [done|]. exists l. by rewrite <- Hl. Qed.


Lemma get_key_meaning m l k :
  wf (dom m) -> erase (dom m) = JObject l -> good_string k -> erase <$> get_key (Some m) k = jlookup k l.
Proof.
  intros Hw Hl Hk. destruct (dom m) as [| | | | |c ms] eqn:Ed; try done. unfold get_key. rewrite Ed.
  pose proof (object_get_cases c ms k Hw Hk) as Hg. rewrite erase_object in Hl. simplify_eq.
  destruct (builtin_object_get _ _); [destruct Hg as [-> _]|rewrite Hg]; done.
Qed.

Lemma get_key_has m k : builtin_object_has (Some (dom m)) (Some k) = bool_decide (is_Some (get_key (Some m) k)).
Proof. done. Qed.

(** Looking up literal keys in a built object. *)
Lemma jlookup_envelope k :
  jlookup k envelope = if bool_decide (cs "jsonrpc" = k) then Some (JString (cs "2.0")) else None.
Proof. done. Qed.

Ltac jlook :=
  rewrite ?jlookup_jinsert, ?jlookup_envelope;
  repeat match goal with
  | |- context [bool_decide (cs ?a = cs ?b)] =>
      let r := eval vm_compute in (bool_decide (cs a = cs b)) in
      change (bool_decide (cs a = cs b)) with r
  end; cbn iota.

(** How a message is read, in terms of its meaning. *)
Lemma kind_meaning m l :
  wf (dom m) -> erase (dom m) = JObject l ->
  mcp_message_kind (Some m) =
  match jlookup (cs "method") l with
  | Some (JString _) => if bool_decide (is_Some (jlookup (cs "id") l)) then MCP_MSG_REQUEST else MCP_MSG_NOTIFICATION
  | Some _ => MCP_MSG_INVALID
  | None => if bool_decide (is_Some (jlookup (cs "result") l) \/ is_Some (jlookup (cs "error") l))
            then MCP_MSG_RESPONSE else MCP_MSG_INVALID
  end.
Proof.
  intros Hw Hl. cbn [mcp_message_kind]. unfold classify.
  assert (forall k, good_string k -> erase <$> builtin_object_get (Some (dom m)) (Some k) = jlookup k l) as Hg
    by (intros k Hk; by apply (get_key_meaning m l k)).
  rewrite <- !Hg by (by split). unfold builtin_object_has.
  destruct (builtin_object_get (Some (dom m)) (Some (cs "method"))) as [v|]; cbn [fmap option_fmap option_map].
  - destruct v; try done. cbn [builtin_get_string erase]. destruct (builtin_object_get _ (Some (cs "id"))); done.
  - destruct (builtin_object_get _ (Some (cs "result"))), (builtin_object_get _ (Some (cs "error"))); done.
Qed.

Lemma method_meaning m l :
  wf (dom m) -> erase (dom m) = JObject l ->
  mcp_message_method (Some m) = match jlookup (cs "method") l with Some (JString s) => Some s | _ => None end.
Proof.
  intros Hw Hl. unfold mcp_message_method. rewrite <- (get_key_meaning m l (cs "method") Hw Hl) by (by split).
  destruct (get_key _ _) as [[]|]; done.
Qed.

Lemma reply_id_meaning m l :
  wf (dom m) -> erase (dom m) = JObject l ->
  reply_id (Some m) =
  match jlookup (cs "id") l with Some (JString s) => JString s | Some (JNumber d) => JNumber d | _ => JNull end.
Proof.
  intros Hw Hl. unfold reply_id. rewrite <- (get_key_meaning m l (cs "id") Hw Hl) by (by split).
  destruct (get_key _ _) as [[]|]; done.
Qed.

(** ** Error responses, read back *)

Lemma jlookup_jset k key val l :
  jlookup k (jset key val l) =
  match val with Some v => if bool_decide (key = k) then Some (erase v) else jlookup k l | None => jlookup k l end.
Proof. destruct val; simpl; [apply jlookup_jinsert|done]. Qed.

Lemma error_obj_meaning m l le :
  wf (dom m) -> erase (dom m) = JObject l -> jlookup (cs "error") l = Some (JObject le) ->
  exists e, error_obj (Some m) = Some e /\ wf e /\ erase e = JObject le.
Proof.
  intros Hw Hl He. assert (wf_msg m) as Hm by (split; [done|by eexists]).
  rewrite <- (get_key_meaning m l (cs "error") Hw Hl) in He by (by split). unfold error_obj.
  pose proof (get_key_wf m (cs "error")) as Hwe.
  destruct (get_key (Some m) (cs "error")) as [e|]; [|done]. simplify_eq/=.
  specialize (Hwe e Hm ltac:(by split) eq_refl). destruct e; try done. rewrite bool_decide_true by done. by eexists.
Qed.

Lemma member_meaning e le k :
  wf e -> erase e = JObject le -> good_string k -> erase <$> builtin_object_get (Some e) (Some k) = jlookup k le.
Proof. intros Hw He Hk. by apply (get_key_meaning (Message e) le k). Qed.

Lemma cast_int_of_Z z : int_range z -> cast_int (double_of_Z z) = Some z.
Proof.
  intros Hz. unfold int_range in Hz. destruct (double_of_Z_exact z) as [Hf Hs]; [lia|]. unfold cast_int, dtrunc.
  rewrite Hf, Hs, Z.quot_mul by (apply Z.pow_nonzero; lia). cbn [andb].
  by rewrite (proj2 (Z.leb_le _ _)), (proj2 (Z.leb_le _ _)) by lia.
Qed.

(** Reading back an error response. *)
Lemma response_err_reads req code message h msg h' :
  from_option wf_msg True req -> int_range code ->
  mcp_response_err_new req code (Some message) None h = (Some msg, h') ->
  hstep h h' (msg_blocks msg) /\ wf_msg msg /\
  mcp_message_kind (Some msg) = MCP_MSG_RESPONSE /\
  reply_id (Some msg) = reply_id req /\
  mcp_message_error_code (Some msg) = Some (Some code) /\
  mcp_message_error_text (Some msg) = Some (cstr message).
Proof.
  intros Hq Hc H. apply response_err_builds in H as (Hs & Hw & He); [|done..].
  split; [eapply hstep_eq; [exact Hs|simpl; lia]|]. split; [split; [done|by eexists]|].
  rewrite (kind_meaning msg _ Hw He), (reply_id_meaning msg _ Hw He). jlook.
  split; [by rewrite bool_decide_true by (right; eauto)|].
  split; [unfold reply_id; by destruct (get_key _ _) as [[]|]|].
  destruct (error_obj_meaning msg _ (error_members code message None) Hw He) as (e & Heo & Hwe & Hee);
    [by jlook|]. unfold mcp_message_error_code, mcp_message_error_text. rewrite Heo. cbv zeta.
  pose proof (member_meaning e _ (cs "code") Hwe Hee ltac:(by split)) as Hcode.
  pose proof (member_meaning e _ (cs "message") Hwe Hee ltac:(by split)) as Hmsg.
  unfold error_members in Hcode, Hmsg. cbn [jset] in Hcode, Hmsg. revert Hcode Hmsg. jlook. intros Hcode Hmsg.
  destruct (builtin_object_get (Some e) (Some (cs "code"))) as [[]|]; try discriminate Hcode. injection Hcode as ->.
  destruct (builtin_object_get (Some e) (Some (cs "message"))) as [[]|]; try discriminate Hmsg. injection Hmsg as ->.
  cbn [builtin_get_number builtin_get_string fmap option_fmap option_map]. by rewrite cast_int_of_Z.
Qed.

(** ** Claims *)

(** [mcp_message_parse], for every text and allocator: it returns a
    message exactly for texts of at most 4 MiB that are JSON objects nested
    at most 128 deep (refusing one of these only when an allocation was
    refused); the message holds what the text denotes and owns its blocks,
    and nothing is left behind otherwise. *)
Theorem message_parse_correct t h r h' :
  mcp_message_parse (Some t) h = (r, h') ->
  match r with
  | Some m => hstep h h' (msg_blocks m) /\ wf_msg m /\
      utf8_valid t = true /\ jtext MCP_JSON_MAX_DEPTH t (erase (dom m)) /\
      Z.of_nat (length t) <= MCP_PROTOCOL_MAX_MESSAGE_BYTES
  | None => hstep h h' 0 /\
      ~ (ample h /\ Z.of_nat (length t) <= MCP_PROTOCOL_MAX_MESSAGE_BYTES /\ utf8_valid t = true /\
         exists l, jtext MCP_JSON_MAX_DEPTH t (JObject l))
  end.
Proof. apply message_parse_spec. Qed.

(** Ownership in the request builders: on success the message owns the
    parameters and reads as a request with the given id, method and
    parameters; on NULL every block is back and the caller still owns the
    parameters; NULL means no memory, or an id or method that is not valid
    UTF-8. *)
Theorem request_contract id method params h r h' :
  owf params -> mcp_request_new_string_id (Some id) (Some method) params h = (r, h') ->
  match r with
  | Some msg => hstep h h' (msg_blocks msg - oblocks params) /\ wf_msg msg /\
      mcp_message_kind (Some msg) = MCP_MSG_REQUEST /\
      mcp_message_method (Some msg) = Some (cstr method) /\
      reply_id (Some msg) = JString (cstr id) /\
      erase <$> mcp_message_params (Some msg) = erase <$> params
  | None => hstep h h' 0 /\ ~ (ample h /\ utf8_valid (cstr id) = true /\ utf8_valid (cstr method) = true)
  end.
Proof.
  intros Hp H. apply (request_builds _ _ _ method params (string_new_attempt id) Hp) in H.
  destruct r as [msg|]; [|done]. destruct H as (Hs & Hw & He). split; [done|]. split; [split; [done|by eexists]|].
  rewrite (kind_meaning msg _ Hw He), (method_meaning msg _ Hw He), (reply_id_meaning msg _ Hw He).
  unfold mcp_message_params. rewrite (get_key_meaning msg _ _ Hw He) by (by split).
  destruct params as [p|]; cbn [jset]; jlook; done.
Qed.

(** A success response answers its request: it carries the request's id
    (null when that is no string or number) and the result, classifies as a
    response, and owns the result; on NULL the caller still owns it. *)
Theorem response_ok_contract req result h r h' :
  wf_msg req -> wf result -> mcp_response_ok_new (Some req) (Some result) h = (r, h') ->
  match r with
  | Some msg => hstep h h' (msg_blocks msg - blocks result) /\ wf_msg msg /\
      mcp_message_kind (Some msg) = MCP_MSG_RESPONSE /\
      reply_id (Some msg) = reply_id (Some req) /\
      erase <$> mcp_message_result (Some msg) = Some (erase result)
  | None => hstep h h' 0 /\ ~ ample h
  end.
Proof.
  intros Hq Hr H. apply (response_ok_builds _ _ _ (Some result) (copy_id_attempt (Some req) Hq) Hr) in H.
  destruct r as [msg|]; [|tauto]. destruct H as (Hs & Hw & He). split; [done|]. split; [split; [done|by eexists]|].
  rewrite (kind_meaning msg _ Hw He), (reply_id_meaning msg _ Hw He).
  unfold mcp_message_result. rewrite (get_key_meaning msg _ _ Hw He) by (by split). cbn [jset]. jlook.
  split; [by rewrite bool_decide_true by (left; eauto)|]. split; [|done].
  unfold reply_id. by destruct (get_key _ _) as [[]|].
Qed.

(** An error response carries the request's id, the code and the text:
    reading them back gives exactly what was put in, for every [int] code. *)
Theorem response_err_contract req code message h msg h' :
  from_option wf_msg True req -> int_range code ->
  mcp_response_err_new req code (Some message) None h = (Some msg, h') ->
  hstep h h' (msg_blocks msg) /\ wf_msg msg /\
  mcp_message_kind (Some msg) = MCP_MSG_RESPONSE /\
  reply_id (Some msg) = reply_id req /\
  mcp_message_error_code (Some msg) = Some (Some code) /\
  mcp_message_error_text (Some msg) = Some (cstr message).
Proof. apply response_err_reads. Qed.

(** C6: Messages survive the wire: with memory available, serializing a
    message nested at most 128 deep whose text fits 4 MiB and parsing it
    gives a message with the same contents, so the same kind, method, id,
    parameters, result and error. *)
Theorem message_roundtrip m h :
  ample h -> wf_msg m -> jdepth (erase (dom m)) <= MCP_JSON_MAX_DEPTH ->
  Z.of_nat (length (render (erase (dom m)))) <= MCP_PROTOCOL_MAX_MESSAGE_BYTES ->
  exists text h1 m' h2,
    mcp_message_serialize (Some m) h = (Some text, h1) /\
    mcp_message_parse (Some text) h1 = (Some m', h2) /\
    erase (dom m') = erase (dom m) /\
    mcp_message_kind (Some m') = mcp_message_kind (Some m) /\
    mcp_message_method (Some m') = mcp_message_method (Some m) /\
    reply_id (Some m') = reply_id (Some m).
Proof.
  intros Ha Hw Hd Hlen. pose proof (denotes_render m Hw Hd Hlen) as Hden. pose proof Hw as [Hwd [l Hl]]. cbn [mcp_message_serialize].
  destruct (builtin_serialize (Some (dom m)) h) as [[text|] h1] eqn:E;
    apply serialize_spec in E; try done; destruct E as [Hs Ht]; [|done]. subst text.
  destruct (mcp_message_parse (Some (render (erase (dom m)))) h1) as [[m'|] h2] eqn:E2;
    pose proof E2 as Erun; apply message_parse_spec in E2.
  - destruct E2 as (_ & Hw' & Hu & Hj & Hlen'). exists (render (erase (dom m))), h1, m', h2.
    assert (erase (dom m') = erase (dom m)) as He by (by eapply denotes_det). destruct Hw' as [Hw' _].
    split; [done|]. split; [done|]. split; [done|]. rewrite Hl in He.
    by rewrite (kind_meaning m' l), (kind_meaning m l), (method_meaning m' l), (method_meaning m l),
      (reply_id_meaning m' l), (reply_id_meaning m l).
  - exfalso. destruct E2 as [_ Hn]. apply Hn. split; [by ample_fwd|]. by apply (denotes_message _ m).
Qed.

(** The two code maps agree: the four statuses with a code of their own
    survive the trip to a JSON-RPC code and back, every other status is sent
    as an internal error and comes back as MCP_ERR_PROTOCOL. *)
Theorem status_code_roundtrip st :
  mcp_rpc_code_to_status (mcp_status_to_rpc_code st) =
  match st with
  | MCP_OK | MCP_ERR_INVALID_ARGUMENT | MCP_ERR_NOT_FOUND | MCP_ERR_PROTOCOL => st
  | _ => MCP_ERR_PROTOCOL
  end.
Proof. by destruct st. Qed.

(** A request used as an example. *)
Definition sample_request : mcp_message_t :=
  Message (doc "{'jsonrpc':'2.0','id':7,'method':'tools/call','params':{'name':'echo'}}").

Lemma sample_request_wf : wf_msg sample_request.
Proof. split; [apply doc_wf|]. eexists. vm_compute. reflexivity. Qed.

Definition ping_text : bytes := js "{'jsonrpc':'2.0','id':1,'method':'ping'}".

Lemma message_parse_correct_witness :
  exists r h', mcp_message_parse (Some ping_text) fresh_heap = (r, h') /\
  match r with
  | Some m => hstep fresh_heap h' (msg_blocks m) /\ wf_msg m /\
      utf8_valid ping_text = true /\ jtext MCP_JSON_MAX_DEPTH ping_text (erase (dom m)) /\
      Z.of_nat (length ping_text) <= MCP_PROTOCOL_MAX_MESSAGE_BYTES
  | None => hstep fresh_heap h' 0 /\
      ~ (ample fresh_heap /\ Z.of_nat (length ping_text) <= MCP_PROTOCOL_MAX_MESSAGE_BYTES /\
         utf8_valid ping_text = true /\ exists l, jtext MCP_JSON_MAX_DEPTH ping_text (JObject l))
  end.
Proof.
  eexists _, _. split; [apply surjective_pairing|].
  apply (message_parse_correct ping_text fresh_heap). apply surjective_pairing.
Defined.

Lemma request_contract_witness :
  exists r h', mcp_request_new_string_id (Some (cs "a1")) (Some (cs "ping")) (Some VNull) fresh_heap = (r, h') /\
  match r with
  | Some msg => hstep fresh_heap h' (msg_blocks msg - 1) /\ wf_msg msg /\
      mcp_message_kind (Some msg) = MCP_MSG_REQUEST /\
      mcp_message_method (Some msg) = Some (cs "ping") /\
      reply_id (Some msg) = JString (cs "a1") /\
      erase <$> mcp_message_params (Some msg) = Some JNull
  | None => hstep fresh_heap h' 0 /\
      ~ (ample fresh_heap /\ utf8_valid (cs "a1") = true /\ utf8_valid (cs "ping") = true)
  end.
Proof.
  eexists _, _. split; [apply surjective_pairing|].
  apply (request_contract (cs "a1") (cs "ping") (Some VNull) fresh_heap); [done|apply surjective_pairing].
Defined.

Lemma response_ok_contract_witness :
  exists r h', mcp_response_ok_new (Some sample_request) (Some (VBool true)) fresh_heap = (r, h') /\
  match r with
  | Some msg => hstep fresh_heap h' (msg_blocks msg - 1) /\ wf_msg msg /\
      mcp_message_kind (Some msg) = MCP_MSG_RESPONSE /\
      reply_id (Some msg) = reply_id (Some sample_request) /\
      erase <$> mcp_message_result (Some msg) = Some (JBool true)
  | None => hstep fresh_heap h' 0 /\ ~ ample fresh_heap
  end.
Proof.
  eexists _, _. split; [apply surjective_pairing|].
  apply (response_ok_contract sample_request (VBool true) fresh_heap);
    [apply sample_request_wf|done|apply surjective_pairing].
Defined.

Lemma response_err_contract_witness :
  exists msg h', mcp_response_err_new (Some sample_request) (-32601) (Some (cs "no such method")) None fresh_heap
    = (Some msg, h') /\
  hstep fresh_heap h' (msg_blocks msg) /\ wf_msg msg /\
  mcp_message_kind (Some msg) = MCP_MSG_RESPONSE /\
  reply_id (Some msg) = reply_id (Some sample_request) /\
  mcp_message_error_code (Some msg) = Some (Some (-32601)) /\
  mcp_message_error_text (Some msg) = Some (cs "no such method").
Proof.
  destruct (mcp_response_err_new (Some sample_request) (-32601) (Some (cs "no such method")) None fresh_heap)
    as [[msg|] h'] eqn:E.
  2: { exfalso. vm_compute in E. discriminate E. }
  exists msg, h'. split; [reflexivity|].
  apply (response_err_contract (Some sample_request) (-32601) (cs "no such method") fresh_heap);
    [apply sample_request_wf|unfold int_range; lia|exact E].
Defined.

Lemma message_roundtrip_witness :
  exists text h1 m' h2,
    mcp_message_serialize (Some sample_request) fresh_heap = (Some text, h1) /\
    mcp_message_parse (Some text) h1 = (Some m', h2) /\
    erase (dom m') = erase (dom sample_request) /\
    mcp_message_kind (Some m') = mcp_message_kind (Some sample_request) /\
    mcp_message_method (Some m') = mcp_message_method (Some sample_request) /\
    reply_id (Some m') = reply_id (Some sample_request).
Proof.
  apply (message_roundtrip sample_request fresh_heap);
    [apply fresh_ample|apply sample_request_wf|by vm_compute|by vm_compute].
Defined.
