(* ===== verification/Initialize.v ===== *)
(** * The initialize handshake (src/protocol/initialize.c)

    Builders of the parameters and the result of "initialize", the check of
    the parameters, and the version negotiation. *)
From S2P Require Import Prelude Heap Utf8 Double JsonValue JsonParse JsonSerialize JsonApi Schema Message.

Local Open Scope Z_scope.

Definition MCP_PROTOCOL_VERSION_LATEST : bytes := cs "2025-06-18".

Definition k_supported : list bytes := [MCP_PROTOCOL_VERSION_LATEST; cs "2024-11-05"].

Definition info_block (name version : bytes) : M (option value) :=
  info <- builtin_new_object ;;
  n <- if_some info (string_new name) ;;
  v <- if_some n (string_new version) ;;
  match info, n, v with
  | Some _, Some _, Some _ =>
      r <- builtin_object_set info (Some (cs "name")) n ;;
      match r with
      | (MCP_OK, info) =>
          r <- builtin_object_set info (Some (cs "version")) v ;;
          match r with
          | (MCP_OK, info) => ret info
          | (_, info) => builtin_destroy v ;; builtin_destroy info ;; ret None
          end
      | (_, info) => builtin_destroy n ;; builtin_destroy v ;; builtin_destroy info ;; ret None
      end
  | _, _, _ => builtin_destroy info ;; builtin_destroy n ;; builtin_destroy v ;; ret None
  end.

(** The common body of [mcp_initialize_params_new_v] and
    [mcp_initialize_result_new]: they differ in the version and in the key
    of the information block. *)
Definition handshake_new (protocol_version : bytes) (info_key : bytes) (name version : bytes)
    : M (option value) :=
  params <- builtin_new_object ;;
  pv <- if_some params (string_new protocol_version) ;;
  caps <- if_some pv builtin_new_object ;;
  ci <- if_some caps (info_block name version) ;;
  match params, pv, caps, ci with
  | Some _, Some _, Some _, Some _ =>
      r <- builtin_object_set params (Some (cs "protocolVersion")) pv ;;
      match r with
      | (MCP_OK, params) =>
          r <- builtin_object_set params (Some (cs "capabilities")) caps ;;
          match r with
          | (MCP_OK, params) =>
              r <- builtin_object_set params (Some info_key) ci ;;
              match r with
              | (MCP_OK, params) => ret params
              | (_, params) => builtin_destroy ci ;; builtin_destroy params ;; ret None
              end
          | (_, params) => builtin_destroy caps ;; builtin_destroy ci ;; builtin_destroy params ;; ret None
          end
      | (_, params) =>
          builtin_destroy pv ;; builtin_destroy caps ;; builtin_destroy ci ;; builtin_destroy params ;; ret None
      end
  | _, _, _, _ =>
      builtin_destroy params ;; builtin_destroy pv ;; builtin_destroy caps ;; builtin_destroy ci ;; ret None
  end.

Definition mcp_initialize_params_new_v (protocol_version client_name client_version : option bytes)
    : M (option value) :=
  match protocol_version, client_name, client_version with
  | Some pv, Some n, Some v => handshake_new pv (cs "clientInfo") n v
  | _, _, _ => ret None
  end.

Definition mcp_initialize_params_new (client_name client_version : option bytes) : M (option value) :=
  mcp_initialize_params_new_v (Some MCP_PROTOCOL_VERSION_LATEST) client_name client_version.

Definition mcp_initialize_result_new (server_name server_version : option bytes) : M (option value) :=
  match server_name, server_version with
  | Some n, Some v => handshake_new MCP_PROTOCOL_VERSION_LATEST (cs "serverInfo") n v
  | _, _ => ret None
  end.

Definition require_string_field (obj : option value) (key : bytes) : bool :=
  match builtin_get_string (builtin_object_get obj (Some key)) with Some _ => true | None => false end.

Definition mcp_initialize_params_validate (params : option value) : mcp_status_t :=
  if negb (is_object params) then MCP_ERR_INVALID_ARGUMENT
  else if negb (require_string_field params (cs "protocolVersion")) then MCP_ERR_INVALID_ARGUMENT
  else if negb (is_object (builtin_object_get params (Some (cs "capabilities")))) then MCP_ERR_INVALID_ARGUMENT
  else
    let ci := builtin_object_get params (Some (cs "clientInfo")) in
    if negb (is_object ci) then MCP_ERR_INVALID_ARGUMENT
    else if negb (require_string_field ci (cs "name")) || negb (require_string_field ci (cs "version"))
    then MCP_ERR_INVALID_ARGUMENT
    else MCP_OK.

(** The supported version equal to the client's, if any. *)
Definition mcp_protocol_negotiate (client_version : option bytes) : option bytes :=
  match client_version with
  | None => None
  | Some v => find (streq v) k_supported
  end.

Definition mcp_initialized_notification_new : M (option mcp_message_t) :=
  mcp_notification_new (Some (cs "notifications/initialized")) None.

(** ** What the builders make *)

Lemma object_attempt (ok : Prop) : attempt builtin_new_object (JObject []) ok.
Proof. apply (new_attempt (VObject 0 [])); [done|]. split; [done|]. split; [constructor|done]. Qed.

(** Closes the paths on which a builder gives everything back. *)
Ltac attempt_fails H Hna :=
  unfold if_some in H; minv H; message_facts; split; [simpl in *; hsolve|];
  intros [? ?]; apply Hna; ample_fwd; tauto.

Definition info_members (name version : bytes) : list (bytes * json) :=
  [(cs "name", JString (cstr name)); (cs "version", JString (cstr version))].

Lemma info_block_attempt name version :
  attempt (info_block name version) (JObject (info_members name version))
    (utf8_valid (cstr name) = true /\ utf8_valid (cstr version) = true).
Proof.
  intros h r h' H. unfold info_block in H.
  apply bind_inv in H as (info & h1 & E1 & H). apply (object_attempt True) in E1 as [Hs1 Hi].
  destruct info as [info|]; cbn [if_some] in H; [|attempt_fails H Hi]. destruct Hi as [Hwi Hei].
  apply bind_inv in H as (n & h2 & E2 & H). apply string_new_attempt in E2 as [Hs2 Hn].
  destruct n as [n|]; cbn [if_some] in H; [|attempt_fails H Hn]. destruct Hn as [Hwn Hen].
  apply bind_inv in H as (v & h3 & E3 & H). apply string_new_attempt in E3 as [Hs3 Hv].
  destruct v as [v|]; [|attempt_fails H Hv]. destruct Hv as [Hwv Hev].
  apply bind_inv in H as ([st o] & h4 & E4 & H).
  eapply set_cases in E4 as (o' & -> & Hwo & [(-> & Hs4 & Heo)|(Hne & Hs4 & Heo & Hna)]);
    [|destruct st; [done|attempt_fails H Hna..]|done..|by split].
  apply bind_inv in H as ([st o] & h5 & E5 & H).
  eapply set_cases in E5 as (o2 & -> & Hwo2 & [(-> & Hs5 & Heo2)|(Hne & Hs5 & Heo2 & Hna)]);
    [|destruct st; [done|attempt_fails H Hna..]|done..|by split].
  minv H. split; [simpl in *; hsolve|]. split; [done|]. rewrite Heo2, Hen, Hev. done.
Qed.

Definition handshake_members (pv info_key name version : bytes) : list (bytes * json) :=
  jinsert info_key (JObject (info_members name version))
    [(cs "protocolVersion", JString (cstr pv)); (cs "capabilities", JObject [])].

Lemma handshake_attempt pv info_key name version :
  good_string info_key ->
  attempt (handshake_new pv info_key name version) (JObject (handshake_members pv info_key name version))
    (utf8_valid (cstr pv) = true /\ utf8_valid (cstr name) = true /\ utf8_valid (cstr version) = true).
Proof.
  intros Hk h r h' H. unfold handshake_new in H.
  apply bind_inv in H as (p & h1 & E1 & H). apply (object_attempt True) in E1 as [Hs1 Hp].
  destruct p as [p|]; cbn [if_some] in H; [|attempt_fails H Hp]. destruct Hp as [Hwp Hep].
  apply bind_inv in H as (v & h2 & E2 & H). apply string_new_attempt in E2 as [Hs2 Hv].
  destruct v as [v|]; cbn [if_some] in H; [|attempt_fails H Hv]. destruct Hv as [Hwv Hev].
  apply bind_inv in H as (caps & h3 & E3 & H). apply (object_attempt True) in E3 as [Hs3 Hc].
  destruct caps as [caps|]; cbn [if_some] in H; [|attempt_fails H Hc]. destruct Hc as [Hwc Hec].
  apply bind_inv in H as (ci & h4 & E4 & H). apply info_block_attempt in E4 as [Hs4 Hi].
  destruct ci as [ci|]; [|attempt_fails H Hi]. destruct Hi as [Hwi Hei].
  apply bind_inv in H as ([st o] & h5 & E5 & H).
  eapply set_cases in E5 as (o1 & -> & Hwo1 & [(-> & Hs5 & Heo1)|(Hne & Hs5 & Heo1 & Hna)]);
    [|destruct st; [done|attempt_fails H Hna..]|done..|by split].
  apply bind_inv in H as ([st o] & h6 & E6 & H).
  eapply set_cases in E6 as (o2 & -> & Hwo2 & [(-> & Hs6 & Heo2)|(Hne & Hs6 & Heo2 & Hna)]);
    [|destruct st; [done|attempt_fails H Hna..]|done..|by split].
  apply bind_inv in H as ([st o] & h7 & E7 & H).
  eapply set_cases in E7 as (o3 & -> & Hwo3 & [(-> & Hs7 & Heo3)|(Hne & Hs7 & Heo3 & Hna)]);
    [|destruct st; [done|attempt_fails H Hna..]|done..].
  minv H. split; [simpl in *; hsolve|]. split; [done|]. rewrite Heo3, Hev, Hec, Hei. done.
Qed.

(** ** Reading the parameters *)

(** A member of an object as the code reads it, by meaning. *)
Lemma member_is_object e le k :
  wf e -> erase e = JObject le -> good_string k ->
  is_object (builtin_object_get (Some e) (Some k)) =
  match jlookup k le with Some (JObject _) => true | _ => false end.
Proof.
  intros Hw He Hk. rewrite <- (member_meaning e le k Hw He Hk).
  destruct (builtin_object_get _ _) as [[]|]; done.
Qed.

Lemma member_is_string e le k :
  wf e -> erase e = JObject le -> good_string k ->
  require_string_field (Some e) k = match jlookup k le with Some (JString _) => true | _ => false end.
Proof.
  intros Hw He Hk. rewrite <- (member_meaning e le k Hw He Hk). unfold require_string_field.
  destruct (builtin_object_get _ _) as [[]|]; done.
Qed.

(** What the parameters of initialize must be. *)
Definition initialize_params_ok (j : json) : Prop :=
  exists l pv caps ci n v, j = JObject l /\
  jlookup (cs "protocolVersion") l = Some (JString pv) /\
  jlookup (cs "capabilities") l = Some (JObject caps) /\
  jlookup (cs "clientInfo") l = Some (JObject ci) /\
  jlookup (cs "name") ci = Some (JString n) /\ jlookup (cs "version") ci = Some (JString v).

Lemma member_object_get e le k l :
  wf e -> erase e = JObject le -> good_string k -> jlookup k le = Some (JObject l) ->
  exists x, builtin_object_get (Some e) (Some k) = Some x /\ wf x /\ erase x = JObject l.
Proof.
  intros Hw He Hk Hl. destruct e as [| | | | |c m]; try done. pose proof (object_get_cases c m k Hw Hk) as Hg.
  rewrite erase_object in He. injection He as He. rewrite He in Hg.
  destruct (builtin_object_get _ _) as [x|]; [|congruence]. exists x. destruct Hg. split; [done|]. split; [done|congruence].
Qed.

(** A member that is missing or of the wrong kind: both sides are false. *)
Ltac missing :=
  lazymatch goal with
  | |- MCP_ERR_INVALID_ARGUMENT = MCP_OK <-> _ =>
      split; [discriminate|]; intros (? & ? & ? & ? & ? & ? & ? & ? & ? & ? & ? & ?); simplify_eq
  end.

Lemma params_validate_spec p :
  wf p -> mcp_initialize_params_validate (Some p) = MCP_OK <-> initialize_params_ok (erase p).
Proof.
  intros Hw. unfold mcp_initialize_params_validate.
  destruct p as [| | | | |c m]; try (cbn [is_object]; rewrite bool_decide_false by done;
    split; [done|]; intros (? & ? & ? & ? & ? & ? & ? & _); done).
  cbn [is_object builtin_type_of]. rewrite bool_decide_true by done. cbn [negb].
  rewrite (member_is_string _ (map emember m)), (member_is_object _ (map emember m) (cs "capabilities")) by (done || by split).
  unfold initialize_params_ok. rewrite erase_object.
  destruct (jlookup (cs "protocolVersion") _) as [[| | |pv| |]|] eqn:E1; cbn [negb];
    try missing.
  destruct (jlookup (cs "capabilities") _) as [[| | | | |caps]|] eqn:E2; cbn [negb];
    try missing.
  cbv zeta. rewrite (member_is_object _ (map emember m) (cs "clientInfo")) by (done || by split).
  destruct (jlookup (cs "clientInfo") _) as [[| | | | |ci]|] eqn:E3; cbn [negb];
    try missing.
  destruct (member_object_get (VObject c m) (map emember m) (cs "clientInfo") ci) as (x & -> & Hwx & Hex);
    [done|done|by split|done|].
  rewrite !(member_is_string x ci) by (done || by split).
  destruct (jlookup (cs "name") ci) as [[| | |n| |]|] eqn:E4; cbn [negb orb];
    try missing.
  destruct (jlookup (cs "version") ci) as [[| | |v| |]|] eqn:E5; cbn [negb orb];
    try missing.
  split; [|done]. intros _. by exists (map emember m), pv, caps, ci, n, v.
Qed.

(** ** Claims *)

(** The handshake parameters a client builds pass the server's check:
    for every protocol version, client name and version,
    [mcp_initialize_params_new_v] returns a tree that
    [mcp_initialize_params_validate] accepts, or NULL with every block given
    back, because memory or a valid UTF-8 argument was missing. *)
Theorem initialize_params_accepted pv name version h r h' :
  mcp_initialize_params_new_v (Some pv) (Some name) (Some version) h = (r, h') ->
  hstep h h' (oblocks r) /\
  match r with
  | Some p => wf p /\ mcp_initialize_params_validate (Some p) = MCP_OK
  | None => ~ (ample h /\ utf8_valid (cstr pv) = true /\ utf8_valid (cstr name) = true /\
               utf8_valid (cstr version) = true)
  end.
Proof.
  intros H. apply handshake_attempt in H as [Hs Hr]; [|by split]. split; [done|].
  destruct r as [p|]; [|done]. destruct Hr as [Hw He]. split; [done|]. apply params_validate_spec; [done|].
  rewrite He. exists (handshake_members pv (cs "clientInfo") name version), (cstr pv), [],
    (info_members name version), (cstr name), (cstr version).
  split; [done|]. unfold handshake_members. rewrite !jlookup_jinsert. done.
Qed.

(** The check of the initialize parameters accepts exactly the objects
    with a string "protocolVersion", an object "capabilities" and an object
    "clientInfo" with a string "name" and a string "version". *)
Theorem initialize_params_check p :
  wf p -> mcp_initialize_params_validate (Some p) = MCP_OK <-> initialize_params_ok (erase p).
Proof. apply params_validate_spec. Qed.

Lemma initialize_params_accepted_witness :
  exists r h', mcp_initialize_params_new_v (Some (cs "2024-11-05")) (Some (cs "cli")) (Some (cs "1.0")) fresh_heap
    = (r, h') /\
  hstep fresh_heap h' (oblocks r) /\
  match r with
  | Some p => wf p /\ mcp_initialize_params_validate (Some p) = MCP_OK
  | None => ~ (ample fresh_heap /\ utf8_valid (cs "2024-11-05") = true /\ utf8_valid (cs "cli") = true /\
               utf8_valid (cs "1.0") = true)
  end.
Proof.
  eexists _, _. split; [apply surjective_pairing|].
  apply (initialize_params_accepted (cs "2024-11-05") (cs "cli") (cs "1.0") fresh_heap). apply surjective_pairing.
Defined.

Lemma initialize_params_check_witness :
  mcp_initialize_params_validate (Some (doc "{'protocolVersion':'1'}")) = MCP_OK <->
  initialize_params_ok (erase (doc "{'protocolVersion':'1'}")).
Proof. apply (initialize_params_check (doc "{'protocolVersion':'1'}")), doc_wf. Defined.
