(* ===== verification/Validate.v ===== *)
(** * Message validation (src/protocol/validate.c,
    src/method_table.h)

    The set of request ids a session has seen, with its refinement to a
    mathematical set, and the three levels of message validation. *)
From S2P Require Import Prelude Heap Utf8 Double JsonValue JsonParse JsonGrammar JsonSerialize JsonApi Schema Message Initialize.

Local Open Scope Z_scope.

(** ** Id sets *)
Module IdSet.

(** [mcp_id_entry_t]: a string id has its own copy of the string, a number
    id has [s == NULL]. *)
Record mcp_id_entry_t := Entry {
  e_type : mcp_id_type_t;
  e_s : option bytes;
  e_n : double;
}.

(** [struct mcp_idset]: the entries [0..len-1]; [items] is NULL when the
    capacity is 0. *)
Record mcp_idset_t := Set_ { items : list mcp_id_entry_t; cap : nat }.

Definition mcp_idset_create : M (option mcp_idset_t) :=
  ok <- xmalloc ;; ret (if ok then Some (Set_ [] 0) else None).

Definition is_null {A} (p : option A) : bool := match p with None => true | Some _ => false end.

Fixpoint free_strings (l : list mcp_id_entry_t) : M unit :=
  match l with
  | [] => ret tt
  | e :: l' => xfree (is_null (e_s e)) ;; free_strings l'
  end.

Definition mcp_idset_destroy (set : option mcp_idset_t) : M unit :=
  match set with
  | None => ret tt
  | Some set => free_strings (items set) ;; xfree (isnull0 (cap set)) ;; xfree false
  end.

Definition id_equal (e : mcp_id_entry_t) (type : mcp_id_type_t) (s : option bytes) (n : double) : bool :=
  if negb (bool_decide (e_type e = type)) then false else
  match type with
  | MCP_ID_STRING => match s, e_s e with Some s, Some t => streq t s | _, _ => false end
  | MCP_ID_NUMBER => deqb (e_n e) n
  | MCP_ID_NONE => false
  end.

(** [id_find]: the index, [None] for -1. *)
Fixpoint id_find (l : list mcp_id_entry_t) (type : mcp_id_type_t) (s : option bytes) (n : double) : option nat :=
  match l with
  | [] => None
  | e :: l' => if id_equal e type s n then Some O else S <$> id_find l' type s n
  end.

Definition mcp_idset_add (set : option mcp_idset_t) (type : mcp_id_type_t) (s : option bytes) (n : double)
    : M (mcp_status_t * option mcp_idset_t) :=
  match set with
  | None => ret (MCP_ERR_INVALID_ARGUMENT, set)
  | Some st =>
      if bool_decide (type = MCP_ID_NONE) || (bool_decide (type = MCP_ID_STRING) && is_null s)
      then ret (MCP_ERR_INVALID_ARGUMENT, set) else
      match id_find (items st) type s n with
      | Some _ => ret (MCP_ERR_ALREADY_EXISTS, set)
      | None =>
          g <- (if Nat.eqb (length (items st)) (cap st) then
                  ok <- xrealloc (isnull0 (cap st)) ;;
                  ret (if ok then Some (if Nat.eqb (cap st) 0 then 8%nat else (cap st * 2)%nat) else None)
                else ret (Some (cap st))) ;;
          match g with
          | None => ret (MCP_ERR_NOMEM, set)
          | Some cap' =>
              match type with
              | MCP_ID_STRING =>
                  ok <- xmalloc ;;
                  if negb ok then ret (MCP_ERR_NOMEM, Some (Set_ (items st) cap')) else
                  ret (MCP_OK, Some (Set_ (items st ++ [Entry type (cstr <$> s) n]) cap'))
              | _ => ret (MCP_OK, Some (Set_ (items st ++ [Entry type None n]) cap'))
              end
          end
      end
  end.

Definition mcp_idset_remove (set : option mcp_idset_t) (type : mcp_id_type_t) (s : option bytes) (n : double)
    : M (option mcp_idset_t) :=
  match set with
  | None => ret set
  | Some st =>
      match id_find (items st) type s n with
      | None => ret set
      | Some idx =>
          xfree (match items st !! idx with Some e => is_null (e_s e) | None => true end) ;;
          ret (Some (Set_ (take idx (items st) ++ drop (S idx) (items st)) (cap st)))
      end
  end.

Definition mcp_idset_contains (set : option mcp_idset_t) (type : mcp_id_type_t) (s : option bytes) (n : double)
    : bool :=
  match set with
  | None => false
  | Some st => bool_decide (is_Some (id_find (items st) type s n))
  end.

(** *** The set it stands for *)

(** An id: a string, or a number identified by its value (so 0 and -0 are
    one id, and 1 and the string of that digit are two). *)
Inductive id := IdString (s : bytes) | IdNumber (z : Z).

#[global] Instance id_eq_dec : EqDecision id.
Proof. solve_decision. Defined.

(** The arguments of an operation as an id. *)
Definition id_of (type : mcp_id_type_t) (s : option bytes) (n : double) : option id :=
  match type, s with
  | MCP_ID_STRING, Some s => Some (IdString (cstr s))
  | MCP_ID_NUMBER, _ => if isfinite n then Some (IdNumber (dscaled n)) else None
  | _, _ => None
  end.

Definition entry_id (e : mcp_id_entry_t) : option id := id_of (e_type e) (e_s e) (e_n e).

Definition contents (set : mcp_idset_t) : list id := omap entry_id (items set).

(** Invariant: every entry is an id, none twice, strings are owned copies
    exactly for string ids, the array is large enough. *)
Definition entry_ok (e : mcp_id_entry_t) : Prop :=
  is_Some (entry_id e) /\
  match e_type e with MCP_ID_STRING => exists s, e_s e = Some s /\ has_nul s = false | _ => e_s e = None end.

Record inv (set : mcp_idset_t) : Prop := Inv {
  inv_entries : Forall entry_ok (items set);
  inv_nodup : NoDup (contents set);
  inv_cap : (length (items set) <= cap set)%nat;
}.

Definition string_blocks (l : list mcp_id_entry_t) : Z :=
  foldr (fun e n => (if is_null (e_s e) then 0 else 1) + n) 0 l.

(** The struct, the array and the strings. *)
Definition set_blocks (set : mcp_idset_t) : Z := 1 + buffer (cap set) + string_blocks (items set).

(** *** Refinement *)

Lemma id_equal_spec e type s n x :
  entry_ok e -> id_of type s n = Some x ->
  id_equal e type s n = bool_decide (entry_id e = Some x).
Proof.
  intros [Hs Hty] Hx. unfold id_equal, entry_id in *. case_bool_decide as Ht; cbn [negb].
  - subst type. destruct (e_type e) eqn:Et; [done| |].
    + destruct Hty as (t & -> & Hn). destruct s as [s|]; [|done]. simplify_eq/=.
      unfold streq. apply bool_decide_ext. rewrite (cstr_no_nul t Hn). naive_solver.
    + simpl in *. destruct (isfinite n) eqn:Fn; [|done]. simplify_eq.
      destruct (isfinite (e_n e)) eqn:Fe; [|by destruct Hs].
      rewrite deqb_finite by done. case_bool_decide as He; simplify_eq; [by apply Z.eqb_eq|].
      apply Z.eqb_neq. congruence.
  - symmetry. apply bool_decide_false. intros He.
    destruct (e_type e), type; simpl in *; try done; repeat case_match; simplify_eq.
Qed.

Lemma id_find_spec l type s n x :
  Forall entry_ok l -> id_of type s n = Some x ->
  match id_find l type s n with
  | Some i => exists e, l !! i = Some e /\ entry_id e = Some x
  | None => x ∉ omap entry_id l
  end.
Proof.
  intros Hl Hx. induction Hl as [|e l He Hl IH]; [simpl; apply not_elem_of_nil|]. cbn [id_find].
  rewrite (id_equal_spec e type s n x) by done. case_bool_decide as H; [by exists e|].
  destruct (id_find l type s n) as [i|]; simpl; [done|]. destruct (entry_id e) as [y|] eqn:Ey; [|done].
  apply not_elem_of_cons. split; [congruence|done].
Qed.

Lemma contains_spec set type s n x :
  inv set -> id_of type s n = Some x ->
  mcp_idset_contains (Some set) type s n = bool_decide (x ∈ contents set).
Proof.
  intros [Hl _ _] Hx. unfold mcp_idset_contains, contents. pose proof (id_find_spec _ _ _ _ _ Hl Hx) as Hf.
  apply bool_decide_ext. destruct (id_find _ _ _ _) as [i|].
  - destruct Hf as (e & Hi & He). split; [|eauto]. intros _. apply list_elem_of_omap. exists e.
    split; [by eapply list_elem_of_lookup_2|done].
  - split; [by intros [? ?]|done].
Qed.
Lemma string_blocks_app l1 l2 : string_blocks (l1 ++ l2) = string_blocks l1 + string_blocks l2.
Proof. unfold string_blocks. induction l1 as [|e l IH]; simpl; [done|]. rewrite IH. lia. Qed.

(** Growing the array. *)
Lemma grow_spec (st : mcp_idset_t) h g h' :
  (if Nat.eqb (length (items st)) (cap st) then
     ok <- xrealloc (isnull0 (cap st)) ;;
     ret (if ok then Some (if Nat.eqb (cap st) 0 then 8%nat else (cap st * 2)%nat) else None)
   else ret (Some (cap st))) h = (g, h') ->
  (length (items st) <= cap st)%nat ->
  match g with
  | Some c => hstep h h' (buffer c - buffer (cap st)) /\ (length (items st) < c)%nat
  | None => hstep h h' 0 /\ ~ ample h
  end.
Proof.
  intros H Hle. destruct (Nat.eqb_spec (length (items st)) (cap st)) as [He|He].
  - apply bind_inv in H as (ok & h1 & E & H). pose proof E as E'. destruct ok; minv H.
    + destruct (Nat.eqb_spec (cap st) 0) as [Hz|Hz]; unfold buffer, isnull0 in *.
      * rewrite Hz in *. split; [hsolve|lia].
      * rewrite (proj2 (Nat.eqb_neq (cap st * 2) 0)) by lia. rewrite (proj2 (Nat.eqb_neq (cap st) 0)) in * by lia.
        split; [hsolve|lia].
    + split; [hsolve|]. intros A. by apply (xrealloc_ample_inv _ _ _ _ A) in E'.
  - minv H. split; [hsolve|lia].
Qed.

Lemma inv_snoc set c e x :
  inv set -> (length (items set) < c)%nat -> entry_ok e -> entry_id e = Some x -> x ∉ contents set ->
  inv (Set_ (items set ++ [e]) c) /\ contents (Set_ (items set ++ [e]) c) = contents set ++ [x].
Proof.
  intros [H1 H2 H3] Hc He Hx Hn.
  assert (contents (Set_ (items set ++ [e]) c) = contents set ++ [x]) as Hcon.
  { unfold contents. simpl. rewrite omap_app. simpl. by rewrite Hx. }
  split; [|done]. split; [|rewrite Hcon|simpl; rewrite length_app; simpl; lia].
  - simpl. apply Forall_app. split; [done|]. by apply Forall_singleton.
  - apply NoDup_app. split; [done|]. split; [|apply NoDup_singleton]. set_solver.
Qed.

Lemma add_spec set type s n x h st r h' :
  mcp_idset_add (Some set) type s n h = ((st, r), h') -> inv set -> id_of type s n = Some x ->
  exists set', r = Some set' /\ inv set' /\ hstep h h' (set_blocks set' - set_blocks set) /\
  ((st = MCP_OK /\ x ∉ contents set /\ contents set' = contents set ++ [x]) \/
   (st = MCP_ERR_ALREADY_EXISTS /\ x ∈ contents set /\ contents set' = contents set) \/
   (st = MCP_ERR_NOMEM /\ x ∉ contents set /\ contents set' = contents set /\ ~ ample h)).
Proof.
  intros H Hinv Hx. pose proof Hinv as [Hl Hnd Hcap]. cbn [mcp_idset_add] in H.
  replace (bool_decide (type = MCP_ID_NONE) || (bool_decide (type = MCP_ID_STRING) && is_null s)) with false in H
    by (destruct type, s; simpl in *; by simplify_eq).
  pose proof (id_find_spec _ _ _ _ _ Hl Hx) as Hf. destruct (id_find (items set) type s n) as [i|].
  { destruct Hf as (e & Hi & He). minv H. simplify_eq. exists set. split; [done|]. split; [done|]. split; [hsolve|].
    right; left. split; [done|]. split; [|done]. apply list_elem_of_omap. exists e.
    split; [by eapply list_elem_of_lookup_2|done]. }
  apply bind_inv in H as (g & h1 & E & H). apply grow_spec in E; [|done].
  destruct g as [c|]; [|destruct E as [Hs Hna]; minv H; simplify_eq; exists set; split; [done|]; split; [done|]; split; [hsolve|by right; right]].
  destruct E as [Hs Hlt]. destruct type; [done| |].
  - destruct s as [s|]; [|done]. simplify_eq/=.
    assert (entry_ok (Entry MCP_ID_STRING (Some (cstr s)) n) /\
            entry_id (Entry MCP_ID_STRING (Some (cstr s)) n) = Some (IdString (cstr s))) as [He Hi].
    { unfold entry_ok, entry_id. simpl. rewrite cstr_idem. split; [|done]. split; [done|].
      exists (cstr s). split; [done|apply has_nul_cstr]. }
    apply bind_inv in H as (ok & h2 & E2 & H). pose proof E2 as E2'. destruct ok; cbn [negb] in H; minv H; simplify_eq.
    + destruct (inv_snoc set c _ _ Hinv Hlt He Hi Hf) as [Hinv' Hcon]. eexists. split; [done|]. split; [exact Hinv'|].
      split; [|by left]. unfold set_blocks. simpl. rewrite string_blocks_app. simpl. hsolve.
    + exists (Set_ (items set) c). split; [done|]. split; [split; simpl; [done|done|lia]|].
      unfold set_blocks. simpl. split; [hsolve|]. right; right. split; [done|]. split; [done|]. split; [done|].
      intros A. apply (ample_hstep _ _ _ Hs) in A. by apply (xmalloc_ample_inv _ _ _ A) in E2'.
  - minv H. simplify_eq.
    assert (entry_ok (Entry MCP_ID_NUMBER None n) /\ entry_id (Entry MCP_ID_NUMBER None n) = Some x) as [He Hi].
    { unfold entry_ok, entry_id. simpl in *. split; [|done]. split; [by rewrite Hx|done]. }
    destruct (inv_snoc set c _ _ Hinv Hlt He Hi Hf) as [Hinv' Hcon]. eexists. split; [done|]. split; [exact Hinv'|].
    split; [|by left]. unfold set_blocks. simpl. rewrite string_blocks_app. simpl. hsolve.
Qed.

Lemma remove_spec set type s n x h r h' :
  mcp_idset_remove (Some set) type s n h = (r, h') -> inv set -> id_of type s n = Some x ->
  exists set', r = Some set' /\ inv set' /\ hstep h h' (set_blocks set' - set_blocks set) /\
  forall y, y ∈ contents set' <-> y ∈ contents set /\ y <> x.
Proof.
  intros H Hinv Hx. pose proof Hinv as [Hl Hnd Hcap]. cbn [mcp_idset_remove] in H.
  pose proof (id_find_spec _ _ _ _ _ Hl Hx) as Hf. destruct (id_find (items set) type s n) as [i|].
  2: { minv H. exists set. split; [done|]. split; [done|]. split; [hsolve|]. unfold contents. set_solver. }
  destruct Hf as (e & Hi & He). rewrite Hi in H. minv H.
  assert (items set = take i (items set) ++ e :: drop (S i) (items set)) as Heq by (by rewrite take_drop_middle).
  set (l1 := take i (items set)) in *. set (l2 := drop (S i) (items set)) in *.
  assert (contents set = omap entry_id l1 ++ x :: omap entry_id l2) as Hc.
  { unfold contents. rewrite Heq, omap_app. simpl. by rewrite He. }
  rewrite Hc in Hnd. apply NoDup_app in Hnd as (N1 & N2 & N3). apply NoDup_cons in N3 as [N3 N4].
  assert (contents (Set_ (l1 ++ l2) (cap set)) = omap entry_id l1 ++ omap entry_id l2) as Hc'
    by (unfold contents; simpl; apply omap_app).
  eexists. split; [done|]. split; [|split].
  - rewrite Heq in Hl. apply Forall_app in Hl as [? [? ?]%Forall_cons]. split; [by apply Forall_app| |].
    + rewrite Hc'. apply NoDup_app. split; [done|]. split; [|done]. set_solver.
    + simpl. rewrite length_app. rewrite Heq, length_app in Hcap. simpl in Hcap. lia.
  - unfold set_blocks. simpl. rewrite Heq. rewrite !string_blocks_app.
    change (string_blocks (e :: l2)) with ((if is_null (e_s e) then 0 else 1) + string_blocks l2).
    destruct (is_null (e_s e)); hsolve.
  - intros y. rewrite Hc', Hc. set_solver.
Qed.

Lemma free_strings_hstep l h u h' : free_strings l h = (u, h') -> hstep h h' (- string_blocks l).
Proof.
  revert h u h'. induction l as [|e l IH]; intros h u h' H; cbn [free_strings] in H; minv H; [simpl; hsolve|].
  apply IH in H. simpl. destruct (is_null (e_s e)); hsolve.
Qed.

Lemma idset_destroy_hstep set h u h' :
  mcp_idset_destroy (Some set) h = (u, h') -> hstep h h' (- set_blocks set).
Proof.
  cbn [mcp_idset_destroy]. intros H. minv H. apply free_strings_hstep in E.
  unfold set_blocks, buffer. hstep_facts. destruct (isnull0 (cap set)); hsolve.
Qed.

End IdSet.

(** ** Method tables *)

Definition k_mcp_server_methods : list bytes := map cs [
  "initialize"; "ping"; "tools/list"; "tools/call"; "resources/list"; "resources/read";
  "prompts/list"; "prompts/get"; "completion/list"; "completion/complete";
  "notifications/initialized"; "logging/setLevel"; "resources/subscribe"; "resources/unsubscribe";
  "resources/templates/list"; "server/discover"; "subscriptions/listen"; "tasks/get"; "tasks/update";
  "tasks/cancel"; "skills/list"; "skills/get"]%string.

Definition k_mcp_server_notifications : list bytes := map cs [
  "notifications/initialized"; "notifications/cancelled"; "notifications/progress";
  "notifications/tools/list_changed"; "notifications/resources/list_changed";
  "notifications/resources/updated"; "notifications/prompts/list_changed"; "notifications/message";
  "notifications/roots/list_changed"; "notifications/subscriptions/acknowledged";
  "notifications/tasks"]%string.

Definition k_l2_only_methods : list bytes := map cs
  ["roots/list"; "sampling/createMessage"; "elicitation/create"]%string.

Definition in_table (method : bytes) (table : list bytes) : bool := existsb (streq method) table.

Definition mcp_method_known (method : option bytes) : bool :=
  match method with
  | None => false
  | Some m =>
      if in_table m k_mcp_server_methods then true
      else if in_table m k_l2_only_methods then true
      else if in_table m k_mcp_server_notifications then true
      else false
  end.

(** ** The three levels

    Each returns its status and the code it stores in [*rpc_code_out]. *)

Definition mcp_validate_envelope (msg : option mcp_message_t) : mcp_status_t * Z :=
  match msg with
  | None => (MCP_ERR_PROTOCOL, MCP_RPC_INVALID_REQUEST)
  | Some _ =>
      match mcp_message_jsonrpc msg with
      | None => (MCP_ERR_PROTOCOL, MCP_RPC_INVALID_REQUEST)
      | Some jr =>
          if negb (streq jr (cs "2.0")) then (MCP_ERR_PROTOCOL, MCP_RPC_INVALID_REQUEST) else
          match mcp_message_kind msg with
          | MCP_MSG_REQUEST =>
              match mcp_message_id_type msg, mcp_message_method msg with
              | MCP_ID_STRING, Some _ | MCP_ID_NUMBER, Some _ => (MCP_OK, 0)
              | _, _ => (MCP_ERR_PROTOCOL, MCP_RPC_INVALID_REQUEST)
              end
          | MCP_MSG_NOTIFICATION =>
              match mcp_message_method msg with
              | None => (MCP_ERR_PROTOCOL, MCP_RPC_INVALID_REQUEST)
              | Some _ => (MCP_OK, 0)
              end
          | MCP_MSG_RESPONSE =>
              let has_result := bool_decide (is_Some (mcp_message_result msg)) in
              let has_error := bool_decide (is_Some (mcp_message_error_code msg)) in
              let error_ok := negb has_error || bool_decide (is_Some (mcp_message_error_text msg)) in
              if Bool.eqb has_result has_error || negb error_ok
              then (MCP_ERR_PROTOCOL, MCP_RPC_INVALID_REQUEST)
              else (MCP_OK, 0)
          | MCP_MSG_INVALID => (MCP_ERR_PROTOCOL, MCP_RPC_INVALID_REQUEST)
          end
      end
  end.

Definition mcp_validate_method (msg : option mcp_message_t) : mcp_status_t * Z :=
  if bool_decide (mcp_message_kind msg = MCP_MSG_RESPONSE) then (MCP_OK, 0) else
  let method := mcp_message_method msg in
  if negb (mcp_method_known method) then (MCP_ERR_NOT_FOUND, MCP_RPC_METHOD_NOT_FOUND)
  else (MCP_OK, 0).

(** [require_string_param] is [require_string_field]. *)
Definition require_string_param (params : option value) (key : bytes) : bool :=
  require_string_field params key.

(** The methods that cannot go without parameters. *)
Definition needs_params : list bytes := map cs
  ["initialize"; "tools/call"; "resources/read"; "prompts/get"; "completion/complete";
   "subscriptions/listen"; "tasks/get"; "tasks/update"; "tasks/cancel"; "skills/get"]%string.

Definition nonempty_string (v : option value) : bool :=
  match builtin_get_string v with Some (_ :: _) => true | _ => false end.

(** The chain of [strcmp]s over the method: is the parameters object of the
    shape the method wants? *)
Definition params_shape (method : bytes) (params : option value) : bool :=
  let eqm m := streq method (cs m) in
  if eqm "initialize"%string then bool_decide (mcp_initialize_params_validate params = MCP_OK)
  else if eqm "tools/call"%string then require_string_param params (cs "name")
  else if eqm "resources/read"%string then require_string_param params (cs "uri")
  else if eqm "prompts/get"%string then require_string_param params (cs "name")
  else if eqm "completion/complete"%string then
    is_object (builtin_object_get params (Some (cs "ref"))) &&
    is_object (builtin_object_get params (Some (cs "argument")))
  else if eqm "logging/setLevel"%string then require_string_param params (cs "level")
  else if eqm "resources/subscribe"%string || eqm "resources/unsubscribe"%string
  then require_string_param params (cs "uri")
  else if eqm "subscriptions/listen"%string then
    match builtin_object_get params (Some (cs "notifications")) with
    | None => true
    | notifs => is_object notifs
    end
  else if eqm "tasks/get"%string || eqm "tasks/update"%string || eqm "tasks/cancel"%string
  then require_string_param params (cs "taskId")
  else if eqm "skills/get"%string then
    nonempty_string (builtin_object_get params (Some (cs "name"))) ||
    nonempty_string (builtin_object_get params (Some (cs "uri")))
  else true.

Definition mcp_validate_params (msg : option mcp_message_t) : mcp_status_t * Z :=
  let invalid := (MCP_ERR_INVALID_ARGUMENT, MCP_RPC_INVALID_PARAMS) in
  if bool_decide (mcp_message_kind msg = MCP_MSG_RESPONSE) then (MCP_OK, 0) else
  match mcp_message_method msg with
  | None => invalid
  | Some method =>
      match mcp_message_params msg with
      | None =>
          if bool_decide (mcp_message_kind msg = MCP_MSG_NOTIFICATION) then (MCP_OK, 0)
          else if in_table method needs_params then invalid
          else (MCP_OK, 0)
      | params =>
          if negb (is_object params) then invalid
          else if params_shape method params then (MCP_OK, 0) else invalid
      end
  end.

Definition mcp_message_validate (msg : option mcp_message_t) : mcp_status_t * Z :=
  match mcp_validate_envelope msg with
  | (MCP_OK, _) =>
      match mcp_validate_method msg with
      | (MCP_OK, _) => mcp_validate_params msg
      | r => r
      end
  | r => r
  end.

(** ** Specification of the levels *)

Section spec.
Context (l : list (bytes * json)).

Definition jerror : option (list (bytes * json)) :=
  match jlookup (cs "error") l with Some (JObject e) => Some e | _ => None end.

(** There is an error object with a numeric code, and with a text. *)
Definition has_code : Prop := exists e d, jerror = Some e /\ jlookup (cs "code") e = Some (JNumber d).
Definition has_text : Prop := exists e s, jerror = Some e /\ jlookup (cs "message") e = Some (JString s).

(** JSON-RPC 2.0: a request has a string or number id, a notification has
    none, a response has a result or an error and not both. *)
Definition jsonrpc_ok : Prop :=
  jlookup (cs "jsonrpc") l = Some (JString (cs "2.0")) /\
  match jlookup (cs "method") l with
  | Some (JString _) =>
      match jlookup (cs "id") l with
      | None | Some (JString _) | Some (JNumber _) => True
      | Some _ => False
      end
  | Some _ => False
  | None =>
      match jlookup (cs "result") l with
      | Some _ => ~ has_code
      | None => has_code /\ has_text
      end
  end.
End spec.

(** ** Level 1 against the specification *)

Lemma error_obj_jerror m l :
  wf (dom m) -> erase (dom m) = JObject l ->
  match error_obj (Some m) with
  | Some e => wf e /\ exists le, erase e = JObject le /\ jerror l = Some le
  | None => jerror l = None
  end.
Proof.
  intros Hw Hl. unfold jerror. destruct (jlookup (cs "error") l) as [j|] eqn:E.
  - destruct j as [| | | | |le];
      try (unfold error_obj; rewrite <- (get_key_meaning m l (cs "error") Hw Hl) in E by (by split);
           destruct (get_key _ _) as [[]|]; done).
    destruct (error_obj_meaning m l le Hw Hl E) as (e & -> & Hwe & Hee). split; [done|]. by exists le.
  - unfold error_obj. rewrite <- (get_key_meaning m l (cs "error") Hw Hl) in E by (by split).
    by destruct (get_key _ _).
Qed.

Lemma has_code_spec m l :
  wf (dom m) -> erase (dom m) = JObject l -> is_Some (mcp_message_error_code (Some m)) <-> has_code l.
Proof.
  intros Hw Hl. pose proof (error_obj_jerror m l Hw Hl) as He. unfold mcp_message_error_code, has_code.
  destruct (error_obj (Some m)) as [e|]; cbv zeta.
  - destruct He as (Hwe & le & Hee & Hj). rewrite Hj. rewrite fmap_is_Some.
    pose proof (member_meaning e le (cs "code") Hwe Hee ltac:(by split)) as Hc.
    destruct (builtin_object_get _ _) as [v|]; simpl in Hc.
    + split.
      * intros [d Hd]. destruct v; try done. exists le, number. by rewrite <- Hc.
      * intros (e' & d & He' & Hd). simplify_eq. rewrite <- Hc in Hd. destruct v; simplify_eq/=. eauto.
    + split; [by intros [? ?]|]. intros (e' & d & He' & Hd). congruence.
  - rewrite He. split; [by intros [? ?]|]. by intros (? & ? & ? & _).
Qed.

Lemma has_text_spec m l :
  wf (dom m) -> erase (dom m) = JObject l -> is_Some (mcp_message_error_text (Some m)) <-> has_text l.
Proof.
  intros Hw Hl. pose proof (error_obj_jerror m l Hw Hl) as He. unfold mcp_message_error_text, has_text.
  destruct (error_obj (Some m)) as [e|]; cbv zeta.
  - destruct He as (Hwe & le & Hee & Hj). rewrite Hj.
    pose proof (member_meaning e le (cs "message") Hwe Hee ltac:(by split)) as Hc.
    destruct (builtin_object_get _ _) as [v|]; simpl in Hc.
    + split.
      * intros [d Hd]. destruct v; try done. exists le, string. by rewrite <- Hc.
      * intros (e' & d & He' & Hd). simplify_eq. rewrite <- Hc in Hd. destruct v; simplify_eq/=. eauto.
    + split; [by intros [? ?]|]. intros (e' & d & He' & Hd). congruence.
  - rewrite He. split; [by intros [? ?]|]. by intros (? & ? & ? & _).
Qed.

Lemma jsonrpc_meaning m l :
  wf (dom m) -> erase (dom m) = JObject l ->
  mcp_message_jsonrpc (Some m) = match jlookup (cs "jsonrpc") l with Some (JString s) => Some s | _ => None end.
Proof.
  intros Hw Hl. unfold mcp_message_jsonrpc. rewrite <- (get_key_meaning m l (cs "jsonrpc") Hw Hl) by (by split).
  destruct (get_key _ _) as [[]|]; done.
Qed.

Lemma id_type_meaning m l :
  wf (dom m) -> erase (dom m) = JObject l ->
  mcp_message_id_type (Some m) =
  match jlookup (cs "id") l with
  | Some (JString _) => MCP_ID_STRING | Some (JNumber _) => MCP_ID_NUMBER | _ => MCP_ID_NONE
  end.
Proof.
  intros Hw Hl. unfold mcp_message_id_type. rewrite <- (get_key_meaning m l (cs "id") Hw Hl) by (by split).
  destruct (get_key _ _) as [[]|]; done.
Qed.

(** The string of a member is NUL-free. *)
Lemma member_string_good m l k s :
  wf (dom m) -> erase (dom m) = JObject l -> good_string k -> jlookup k l = Some (JString s) -> good_string s.
Proof.
  intros Hw Hl Hk Hs. assert (wf_msg m) as Hm by (split; [done|by eexists]).
  pose proof (get_key_wf m k) as Hwk. rewrite <- (get_key_meaning m l k Hw Hl Hk) in Hs.
  destruct (get_key (Some m) k) as [v|]; [|done]. specialize (Hwk v Hm Hk eq_refl). destruct v; simplify_eq/=. done.
Qed.

Definition envelope_error : mcp_status_t * Z := (MCP_ERR_PROTOCOL, MCP_RPC_INVALID_REQUEST).

Lemma envelope_spec m l :
  wf (dom m) -> erase (dom m) = JObject l ->
  (mcp_validate_envelope (Some m) = (MCP_OK, 0) /\ jsonrpc_ok l) \/
  (mcp_validate_envelope (Some m) = envelope_error /\ ~ jsonrpc_ok l).
Proof.
  intros Hw Hl. unfold mcp_validate_envelope, jsonrpc_ok.
  rewrite (jsonrpc_meaning m l Hw Hl), (kind_meaning m l Hw Hl), (id_type_meaning m l Hw Hl), (method_meaning m l Hw Hl).
  destruct (jlookup (cs "jsonrpc") l) as [[| | |jr| |]|] eqn:Ej; try (right; split; [done|]; intros [? _]; simplify_eq; fail).
  destruct (member_string_good m l (cs "jsonrpc") jr Hw Hl ltac:(by split) Ej) as [Hjn _].
  rewrite streq_no_nul by done. case_bool_decide as H2; cbn [negb]; [subst jr|right; split; [done|]; intros [? _]; congruence].
  destruct (jlookup (cs "method") l) as [[| | |me| |]|] eqn:Em; try (right; split; [done|]; intros [_ []]).
  - destruct (jlookup (cs "id") l) as [[| | |i| |]|] eqn:Ei; simpl; first [by left|by right; split; [done|]; intros [_ []]].
  - pose proof (has_code_spec m l Hw Hl) as Hc. pose proof (has_text_spec m l Hw Hl) as Ht.
    assert (is_Some (mcp_message_result (Some m)) <-> is_Some (jlookup (cs "result") l)) as Hr
      by (unfold mcp_message_result; rewrite <- (get_key_meaning m l (cs "result") Hw Hl) by (by split);
          by rewrite fmap_is_Some).
    assert (has_code l -> is_Some (jlookup (cs "error") l)) as He
      by (intros (e & d & H & _); unfold jerror in H; destruct (jlookup (cs "error") l); [eauto|done]).
    destruct (jlookup (cs "result") l) as [r|] eqn:Er.
    + rewrite bool_decide_true by (left; eauto). cbv zeta. rewrite (bool_decide_true (is_Some (mcp_message_result _))) by (apply Hr; eauto).
      destruct (bool_decide_reflect (is_Some (mcp_message_error_code (Some m)))) as [Hy|Hn]; cbn [Bool.eqb negb orb].
      * right. split; [done|]. rewrite Hc in Hy. tauto.
      * left. split; [done|]. split; [done|]. by rewrite <- Hc.
    + assert (~ is_Some (mcp_message_result (Some m))) as Hnr by (rewrite Hr; apply is_Some_None).
      destruct (bool_decide_reflect (is_Some (None : option json) \/ is_Some (jlookup (cs "error") l))) as [Hk|Hk].
      2: { right. split; [done|]. intros (_ & Hcode & _). apply Hk. right. by apply He. }
      cbv zeta. rewrite (bool_decide_false (is_Some (mcp_message_result _))) by done.
      destruct (bool_decide_reflect (is_Some (mcp_message_error_code (Some m)))) as [Hy|Hn]; cbn [Bool.eqb negb orb].
      * destruct (bool_decide_reflect (is_Some (mcp_message_error_text (Some m)))) as [Hx|Hx]; cbn [negb].
        -- left. rewrite Hc in Hy. rewrite Ht in Hx. tauto.
        -- right. rewrite Ht in Hx. split; [done|tauto].
      * right. rewrite Hc in Hn. split; [done|tauto].
Qed.

(** ** Level 3 *)

(** The parameter of a method that level 3 wants to be a string. *)
Definition required_string (method : bytes) : option bytes :=
  let eqm m := bool_decide (method = cs m) in
  if eqm "tools/call"%string || eqm "prompts/get"%string then Some (cs "name")
  else if eqm "resources/read"%string then Some (cs "uri")
  else if eqm "tasks/get"%string || eqm "tasks/update"%string || eqm "tasks/cancel"%string then Some (cs "taskId")
  else None.

Lemma required_string_cases method k :
  required_string method = Some k ->
  (method, k) ∈ [(cs "tools/call", cs "name"); (cs "prompts/get", cs "name"); (cs "resources/read", cs "uri");
                 (cs "tasks/get", cs "taskId"); (cs "tasks/update", cs "taskId"); (cs "tasks/cancel", cs "taskId")].
Proof.
  unfold required_string. intros H.
  repeat match type of H with context [bool_decide ?P] => destruct (bool_decide_reflect P); [subst method|] end;
    simpl in H; simplify_eq; set_solver.
Qed.

Lemma required_shape method k params :
  required_string method = Some k -> params_shape method params = require_string_param params k /\
  in_table method needs_params = true /\ good_string k.
Proof.
  intros H%required_string_cases. repeat (apply elem_of_cons in H as [H|H]; [injection H as -> ->; done|]).
  by apply elem_of_nil in H.
Qed.

Lemma validate_params_request m l method k :
  wf (dom m) -> erase (dom m) = JObject l -> mcp_message_kind (Some m) = MCP_MSG_REQUEST ->
  mcp_message_method (Some m) = Some method -> required_string method = Some k ->
  mcp_validate_params (Some m) = (MCP_OK, 0) ->
  exists p s, jlookup (cs "params") l = Some (JObject p) /\ jlookup k p = Some (JString s).
Proof.
  intros Hw Hl Hk Hm Hr H. unfold mcp_validate_params in H. rewrite Hk, Hm in H.
  rewrite !bool_decide_false in H by done. destruct (required_shape method k (mcp_message_params (Some m)) Hr) as (Hs & Ht & Hg).
  unfold mcp_message_params in *. pose proof (get_key_wf m (cs "params")) as Hwp.
  rewrite <- (get_key_meaning m l (cs "params") Hw Hl) by (by split).
  destruct (get_key (Some m) (cs "params")) as [p|]; [|by rewrite Ht in H].
  specialize (Hwp p ltac:(by split; [|eexists]) ltac:(by split) eq_refl).
  destruct p as [| | | | |c ms]; try (cbn [is_object] in H; by rewrite bool_decide_false in H).
  cbn [is_object builtin_type_of] in H. rewrite bool_decide_true in H by done. cbn [negb] in H. rewrite Hs in H.
  unfold require_string_param in H. rewrite (member_is_string _ (map emember ms) k) in H by done.
  exists (map emember ms). destruct (jlookup k (map emember ms)) as [[]|]; try done. by eexists.
Qed.

Lemma in_table_spec m table :
  has_nul m = false -> forallb (fun t => negb (has_nul t)) table = true ->
  in_table m table = true <-> m ∈ table.
Proof.
  intros Hm Ht. unfold in_table. rewrite existsb_exists, forallb_forall in *. split.
  - intros (t & Hin & He). specialize (Ht t Hin). apply negb_true_iff in Ht.
    rewrite streq_no_nul, bool_decide_eq_true in He by done. subst. by apply list_elem_of_In.
  - intros Hin%list_elem_of_In. exists m. split; [done|]. by rewrite streq_no_nul, bool_decide_true.
Qed.

(** Every method name the library knows. *)
Definition known_methods : list bytes :=
  k_mcp_server_methods ++ k_l2_only_methods ++ k_mcp_server_notifications.

Lemma method_known_spec m : has_nul m = false -> mcp_method_known (Some m) = true <-> m ∈ known_methods.
Proof.
  intros Hm. unfold mcp_method_known, known_methods. rewrite !elem_of_app.
  rewrite <- (in_table_spec m k_mcp_server_methods Hm), <- (in_table_spec m k_l2_only_methods Hm),
    <- (in_table_spec m k_mcp_server_notifications Hm) by (by vm_compute).
  destruct (in_table m k_mcp_server_methods), (in_table m k_l2_only_methods), (in_table m k_mcp_server_notifications);
    naive_solver.
Qed.

(** What validation of a request guarantees. *)
Lemma validated_request_spec m l :
  wf (dom m) -> erase (dom m) = JObject l -> mcp_message_kind (Some m) = MCP_MSG_REQUEST ->
  mcp_message_validate (Some m) = (MCP_OK, 0) ->
  jsonrpc_ok l /\ mcp_message_id_type (Some m) <> MCP_ID_NONE /\
  exists method, mcp_message_method (Some m) = Some method /\ method ∈ known_methods /\
  forall k, required_string method = Some k ->
    exists p s, jlookup (cs "params") l = Some (JObject p) /\ jlookup k p = Some (JString s).
Proof.
  intros Hw Hl Hk H. unfold mcp_message_validate in H.
  destruct (envelope_spec m l Hw Hl) as [[He Hok]|[He _]]; rewrite He in H; [|done].
  split; [done|]. pose proof (kind_meaning m l Hw Hl) as Hkm. rewrite Hk in Hkm. destruct Hok as [_ Hok].
  rewrite (id_type_meaning m l Hw Hl). pose proof (method_meaning m l Hw Hl) as Hmm.
  destruct (jlookup (cs "method") l) as [[| | |method| |]|] eqn:Em; try done; [|by case_bool_decide].
  destruct (jlookup (cs "id") l) as [[]|]; simpl in Hkm; try done.
  all: split; [done|]; exists method; split; [done|].
  all: unfold mcp_validate_method in H; rewrite Hk, Hmm in H; rewrite bool_decide_false in H by done; cbv zeta in H.
  all: destruct (member_string_good m l (cs "method") method Hw Hl ltac:(by split) Em) as [Hnul _].
  all: pose proof (method_known_spec method Hnul) as Hkn.
  all: destruct (mcp_method_known (Some method)); cbn [negb] in H; [|done].
  all: split; [by apply Hkn|]; intros k Hr; by eapply validate_params_request.
Qed.

(** ** Claims *)

(** Level 1 accepts exactly the messages that are JSON-RPC 2.0 requests,
    notifications or responses, and answers every other object with
    MCP_ERR_PROTOCOL and the code -32600. *)
Theorem validate_envelope_correct m l :
  wf (dom m) -> erase (dom m) = JObject l ->
  (mcp_validate_envelope (Some m) = (MCP_OK, 0) /\ jsonrpc_ok l) \/
  (mcp_validate_envelope (Some m) = (MCP_ERR_PROTOCOL, -32600) /\ ~ jsonrpc_ok l).
Proof. apply envelope_spec. Qed.

(** What the dispatcher may rely on: a request that passes validation is
    a JSON-RPC 2.0 request with a string or number id and a known method,
    and the string parameter its handler reads (tool name, resource uri,
    prompt name, task id) is there. *)
Theorem validated_request m l :
  wf (dom m) -> erase (dom m) = JObject l -> mcp_message_kind (Some m) = MCP_MSG_REQUEST ->
  mcp_message_validate (Some m) = (MCP_OK, 0) ->
  jsonrpc_ok l /\ mcp_message_id_type (Some m) <> MCP_ID_NONE /\
  exists method, mcp_message_method (Some m) = Some method /\ method ∈ known_methods /\
  forall k, required_string method = Some k ->
    exists p s, jlookup (cs "params") l = Some (JObject p) /\ jlookup k p = Some (JString s).
Proof. apply validated_request_spec. Qed.

(** Adding to the id set of a session adds to the set it stands for, and
    only when the id was not there: a repeated id is refused with
    MCP_ERR_ALREADY_EXISTS, nothing is lost when memory runs out, and the
    invariant (every entry an id, none twice) is kept. *)
Theorem idset_add_refines set type s n x h st r h' :
  IdSet.inv set -> IdSet.id_of type s n = Some x ->
  IdSet.mcp_idset_add (Some set) type s n h = ((st, r), h') ->
  exists set', r = Some set' /\ IdSet.inv set' /\
  hstep h h' (IdSet.set_blocks set' - IdSet.set_blocks set) /\
  ((st = MCP_OK /\ x ∉ IdSet.contents set /\ IdSet.contents set' = IdSet.contents set ++ [x]) \/
   (st = MCP_ERR_ALREADY_EXISTS /\ x ∈ IdSet.contents set /\ IdSet.contents set' = IdSet.contents set) \/
   (st = MCP_ERR_NOMEM /\ x ∉ IdSet.contents set /\ IdSet.contents set' = IdSet.contents set /\ ~ ample h)).
Proof. intros Hinv Hx H. by eapply IdSet.add_spec. Qed.

(** Removing an id removes it and nothing else: afterwards
    [mcp_idset_contains] answers no for it and as before for every other
    id. *)
Theorem idset_remove_refines set type s n x h r h' :
  IdSet.inv set -> IdSet.id_of type s n = Some x ->
  IdSet.mcp_idset_remove (Some set) type s n h = (r, h') ->
  exists set', r = Some set' /\ IdSet.inv set' /\
  hstep h h' (IdSet.set_blocks set' - IdSet.set_blocks set) /\
  forall type' s' n' y, IdSet.id_of type' s' n' = Some y ->
    IdSet.mcp_idset_contains r type' s' n' =
    if decide (y = x) then false else IdSet.mcp_idset_contains (Some set) type' s' n'.
Proof.
  intros Hinv Hx H. eapply IdSet.remove_spec in H as (set' & -> & Hinv' & Hs & Hc); [|done..].
  exists set'. split; [done|]. split; [done|]. split; [done|]. intros type' s' n' y Hy.
  rewrite !(IdSet.contains_spec _ _ _ _ y) by done. rewrite (bool_decide_ext _ _ (Hc y)).
  destruct (decide (y = x)); [apply bool_decide_false; tauto|]. apply bool_decide_ext. tauto.
Qed.

Definition two_ids : IdSet.mcp_idset_t :=
  IdSet.Set_ [IdSet.Entry MCP_ID_NUMBER None (double_of_Z 1); IdSet.Entry MCP_ID_STRING (Some (cs "1")) (DZero false)] 8.

Lemma two_ids_inv : IdSet.inv two_ids.
Proof.
  split; [|by apply (bool_decide_unpack _); vm_compute|cbn; lia].
  apply Forall_cons. split; [split; [vm_compute; eauto|done]|]. apply Forall_singleton.
  split; [vm_compute; eauto|]. by exists (cs "1").
Qed.

Lemma validate_envelope_correct_witness :
  (mcp_validate_envelope (Some sample_request) = (MCP_OK, 0) /\ exists l, erase (dom sample_request) = JObject l /\ jsonrpc_ok l) \/
  (mcp_validate_envelope (Some sample_request) = (MCP_ERR_PROTOCOL, -32600) /\ exists l, erase (dom sample_request) = JObject l /\ ~ jsonrpc_ok l).
Proof.
  destruct sample_request_wf as [Hw [l Hl]].
  destruct (validate_envelope_correct sample_request l Hw Hl) as [[He Hok]|[He Hok]];
    [left|right]; (split; [exact He|]); exists l; (split; [exact Hl|exact Hok]).
Defined.

Lemma validated_request_witness :
  exists l, erase (dom sample_request) = JObject l /\
  jsonrpc_ok l /\ mcp_message_id_type (Some sample_request) <> MCP_ID_NONE /\
  exists method, mcp_message_method (Some sample_request) = Some method /\ method ∈ known_methods /\
  forall k, required_string method = Some k ->
    exists p s, jlookup (cs "params") l = Some (JObject p) /\ jlookup k p = Some (JString s).
Proof.
  destruct sample_request_wf as [Hw [l Hl]]. exists l. split; [exact Hl|].
  apply (validated_request sample_request l Hw Hl); vm_compute; reflexivity.
Defined.

Lemma idset_add_refines_witness :
  exists st r h', IdSet.mcp_idset_add (Some two_ids) MCP_ID_NUMBER None (double_of_Z 2) fresh_heap = ((st, r), h') /\
  exists set', r = Some set' /\ IdSet.inv set' /\
  hstep fresh_heap h' (IdSet.set_blocks set' - IdSet.set_blocks two_ids) /\
  ((st = MCP_OK /\ IdSet.IdNumber (2 * 2 ^ 1074) ∉ IdSet.contents two_ids /\
      IdSet.contents set' = IdSet.contents two_ids ++ [IdSet.IdNumber (2 * 2 ^ 1074)]) \/
   (st = MCP_ERR_ALREADY_EXISTS /\ IdSet.IdNumber (2 * 2 ^ 1074) ∈ IdSet.contents two_ids /\
      IdSet.contents set' = IdSet.contents two_ids) \/
   (st = MCP_ERR_NOMEM /\ IdSet.IdNumber (2 * 2 ^ 1074) ∉ IdSet.contents two_ids /\
      IdSet.contents set' = IdSet.contents two_ids /\ ~ ample fresh_heap)).
Proof.
  destruct (IdSet.mcp_idset_add (Some two_ids) MCP_ID_NUMBER None (double_of_Z 2) fresh_heap) as [[st r] h'] eqn:E.
  exists st, r, h'. split; [done|].
  apply (idset_add_refines two_ids MCP_ID_NUMBER None (double_of_Z 2) (IdSet.IdNumber (2 * 2 ^ 1074)) fresh_heap);
    [apply two_ids_inv|by vm_compute|exact E].
Defined.

Lemma idset_remove_refines_witness :
  exists r h', IdSet.mcp_idset_remove (Some two_ids) MCP_ID_STRING (Some (cs "1")) (DZero false) fresh_heap = (r, h') /\
  exists set', r = Some set' /\ IdSet.inv set' /\
  hstep fresh_heap h' (IdSet.set_blocks set' - IdSet.set_blocks two_ids) /\
  forall type' s' n' y, IdSet.id_of type' s' n' = Some y ->
    IdSet.mcp_idset_contains r type' s' n' =
    if decide (y = IdSet.IdString (cs "1")) then false else IdSet.mcp_idset_contains (Some two_ids) type' s' n'.
Proof.
  eexists _, _. split; [apply surjective_pairing|].
  apply (idset_remove_refines two_ids MCP_ID_STRING (Some (cs "1")) (DZero false) (IdSet.IdString (cs "1")) fresh_heap);
    [apply two_ids_inv|by vm_compute|apply surjective_pairing].
Defined.
