(* ===== verification/Builders.v ===== *)
(** * Building JSON objects (the style of src/protocol and src/server)

    Most of the code above the JSON layer builds objects member by member:
    create a value, store it with [mcp_json_object_set_take], and on any
    failure destroy what was built and return NULL.  This file has that
    pattern as combinators, and one rule per combinator that gives the
    contents and the block balance of what they build. *)
From S2P Require Import Prelude Heap Utf8 Double JsonValue JsonParse JsonSerialize JsonApi Schema Message.

Local Open Scope Z_scope.

(** ** Combinators *)

(** [if (m(obj) != MCP_OK) { fail } k], for an operation that updates an
    object. *)
Definition chk {B} (m : M (mcp_status_t * option value)) (fail k : value -> M (option B)) : M (option B) :=
  r <- m ;;
  match r with
  | (MCP_OK, Some obj) => k obj
  | (_, Some obj) => fail obj
  | (_, None) => ret None
  end.

(** [if ((v = mk()) == NULL || mcp_json_object_set_take(obj, key, v) !=
    MCP_OK) { fail } k]. *)
Definition put {B} (obj : value) (key : bytes) (mk : M (option value)) (fail k : value -> M (option B))
    : M (option B) :=
  v <- mk ;;
  match v with
  | None => fail obj
  | Some v => chk (object_set_take (Some obj) key (Some v)) fail k
  end.

(** [if (p != NULL) { put(...) }]. *)
Definition put_opt {A B} (obj : value) (key : bytes) (p : option A) (mk : A -> M (option value))
    (fail k : value -> M (option B)) : M (option B) :=
  match p with None => k obj | Some a => put obj key (mk a) fail k end.

(** [mcp_json_destroy(obj); return NULL;] *)
Definition discard {B} (obj : value) : M (option B) := builtin_destroy (Some obj) ;; ret None.

(** [mcp_json_clone] with as much recursion as the value is deep. *)
Definition json_clone (v : option value) : M (option value) :=
  match v with
  | None => mcp_json_clone None 1 None
  | Some x => mcp_json_clone None (S (Z.to_nat (jdepth (erase x)))) v
  end.

(** [strdup] through the allocator of the context. *)
Definition strdup (s : option bytes) : M (option bytes) :=
  match s with
  | None => ret None
  | Some s => ok <- xmalloc ;; ret (if ok then Some (cstr s) else None)
  end.

(** Appending one item per element of [l]: [if ((item = mk(x)) == NULL ||
    mcp_json_array_append(arr, item) != MCP_OK) { mcp_json_destroy(item);
    fail }]. *)
Fixpoint append_all {A B} (mk : A -> M (option value)) (l : list A) (arr : value) (fail k : value -> M (option B))
    : M (option B) :=
  match l with
  | [] => k arr
  | x :: l' =>
      item <- mk x ;;
      match item with
      | None => fail arr
      | Some item =>
          r <- builtin_array_append (Some arr) (Some item) ;;
          match r with
          | (MCP_OK, Some arr) => append_all mk l' arr fail k
          | (_, Some arr) => builtin_destroy (Some item) ;; fail arr
          | (_, None) => ret None
          end
      end
  end.

(** ** What they build *)

(** A set of allocation policies: all of them, or those that never refuse. *)
Definition any_policy (F : nat -> bool) : Prop := True.
Definition never_refuses (F : nat -> bool) : Prop := forall k, F k = false.

(** [m], under a policy of [pol], returns a [b] with [P b] that owns [cost b]
    blocks, or NULL; it consumes [given] blocks either way.  NULL means no
    memory or arguments that are not [ok].  Where [safe] fails the balance is
    only promised when no allocation is refused. *)
Definition yields {B} (pol : (nat -> bool) -> Prop) (cost : B -> Z) (P : B -> Prop) (safe : Prop) (given : Z) (ok : Prop)
    (m : M (option B)) : Prop :=
  forall h r h', pol (fails h) -> m h = (r, h') ->
  (safe \/ ample h -> hstep h h' (from_option cost 0 r - given)) /\ fails h' = fails h /\
  match r with Some b => P b | None => ~ (ample h /\ ok) end.

(** [m] fails, consuming [given] blocks. *)
Definition gives_up {B} (given : Z) (m : M (option B)) : Prop :=
  forall h r h', m h = (r, h') -> r = None /\ hstep h h' (- given).

(** An update of the object [obj], given [given] blocks more: afterwards it
    is an object again, with the members [l'] on success. *)
Definition updates (m : M (mcp_status_t * option value)) (obj : value) (given : Z) (l' : list (bytes * json)) (ok : Prop)
    : Prop :=
  forall h st r h', m h = ((st, r), h') ->
  exists o, r = Some o /\ wf o /\ hstep h h' (blocks o - blocks obj - given) /\
  ((st = MCP_OK /\ erase o = JObject l') \/ (st <> MCP_OK /\ (exists l, erase o = JObject l) /\ ~ (ample h /\ ok))).

Lemma fails_ample h h' : fails h' = fails h -> ample h -> ample h'.
Proof. intros F A k. rewrite F. apply A. Qed.

Lemma attempt_yields pol m j ok safe : attempt m j ok -> yields pol blocks (fun v => wf v /\ erase v = j) safe 0 ok m.
Proof.
  intros Hm h r h' _ H. destruct (Hm h r h' H) as [Hs Hr]. split; [|split; [apply Hs|by destruct r]].
  intros _. eapply hstep_eq; [exact Hs|]. destruct r; simpl; lia.
Qed.

Lemma yields_attempt m j ok :
  yields any_policy blocks (fun v => wf v /\ erase v = j) True 0 ok m -> attempt m j ok.
Proof.
  intros Hm h r h' H. destruct (Hm h r h' I H) as (Hs & _ & Hr). split; [|by destruct r].
  eapply hstep_eq; [apply Hs; by left|]. destruct r; simpl; lia.
Qed.

Lemma take_updates obj l key v :
  wf obj -> erase obj = JObject l -> wf v -> good_string key ->
  updates (object_set_take (Some obj) key (Some v)) obj (blocks v) (jinsert key (erase v) l) True.
Proof.
  intros Hw Hl Hv Hk h st r h' H. unfold object_set_take, mcp_json_object_set_take in H.
  apply bind_inv in H as ([st1 r1] & h1 & E & H). cbn [fst] in H.
  eapply set_cases in E as (o & -> & Hwo & [(-> & Hs & He)|(Hn & Hs & He & Hna)]); [| |done..].
  - minv H. simplify_eq. exists o. split; [done|]. split; [done|]. split; [hsolve|]. by left.
  - assert ((builtin_destroy (Some v) ;; ret (st1, Some o)) h1 = ((st, r), h')) as H' by (by destruct st1).
    clear H. minv H'. simplify_eq. destroy_facts. exists o. split; [done|]. split; [done|].
    split; [simpl in *; hsolve|]. right. split; [done|]. split; [by eauto|]. by intros [? _].
Qed.

Lemma discard_gives_up {B} obj : gives_up (B := B) (blocks obj + 0) (discard obj).
Proof. intros h r h' H. unfold discard in H. minv H. destroy_facts. split; [done|simpl in *; hsolve]. Qed.

Lemma clone_attempt x : wf x -> attempt (json_clone (Some x)) (erase x) True.
Proof.
  intros Hw h r h' H. unfold json_clone in H. pose proof (jdepth_nonneg (erase x)).
  destruct (clone_spec (ctx := None) (S (Z.to_nat (jdepth (erase x)))) (erase x) ltac:(lia) x eq_refl Hw h r h' H) as [Hs Hr]. split; [by destruct r|].
  destruct r; [done|]. by intros [? _].
Qed.

Lemma strdup_spec s h r h' :
  strdup s h = (r, h') -> hstep h h' (if r then 1 else 0) /\ (forall s', r = Some s' -> exists s0, s = Some s0 /\ s' = cstr s0) /\
  (ample h -> is_Some s -> is_Some r).
Proof.
  intros H. unfold strdup in H. destruct s as [s|].
  - apply bind_inv in H as (ok & h1 & E & H). minv H. pose proof E as E'. apply xmalloc_hstep in E.
    split; [by destruct ok|]. split; [intros s' Hs; destruct ok; [|done]; exists s; by simplify_eq|].
    intros A _. apply xmalloc_ample_inv in E'; [|done]. by subst.
  - minv H. split; [apply hstep_refl|]. split; [done|]. by intros _ [? ?].
Qed.

(** The object after an optional member was stored. *)
Definition joset (key : bytes) (j : option json) (l : list (bytes * json)) : list (bytes * json) :=
  from_option (fun j => jinsert key j l) l j.

Section rules.
Context {B : Type} (pol : (nat -> bool) -> Prop) (cost : B -> Z) (P : B -> Prop) (safe : Prop).

Lemma yields_weaken given given' (ok ok' : Prop) m :
  given = given' -> (ok' -> ok) -> yields pol cost P safe given ok m -> yields pol cost P safe given' ok' m.
Proof.
  intros <- Hok Hm h r h' Hp H. destruct (Hm h r h' Hp H) as (Hs & Hf & Hr). split; [|split; [done|]].
  - done.
  - destruct r; [done|]. intros [A o]. apply Hr. auto.
Qed.

Lemma gives_up_yields given m : gives_up given m -> yields pol cost P safe given False m.
Proof.
  intros Hm h r h' _ H. destruct (Hm h r h' H) as [-> Hs]. split; [|split; [apply Hs|by intros [_ []]]].
  intros _. eapply hstep_eq; [exact Hs|simpl; lia].
Qed.

(** One step and then the rest, for a step that succeeded. *)
Lemma step_yields h h1 d (ok : Prop) given given1 m r h' :
  (safe \/ ample h -> hstep h h1 d) -> fails h1 = fails h -> given1 = given + d -> pol (fails h) ->
  yields pol cost P safe given1 ok m -> m h1 = (r, h') ->
  (safe \/ ample h -> hstep h h' (from_option cost 0 r - given)) /\ fails h' = fails h /\
  match r with Some b => P b | None => ~ (ample h /\ ok) end.
Proof.
  intros Hs Hf -> Hp Hm H. destruct (Hm h1 r h' ltac:(by rewrite Hf) H) as (Hs2 & Hf2 & Hr). split; [|split].
  - intros Hor. eapply hstep_trans; [by apply Hs|apply Hs2|lia].
    destruct Hor as [|A]; [by left|right; by eapply fails_ample].
  - by rewrite Hf2.
  - destruct r; [done|]. intros [A ?]. apply Hr. split; [by eapply fails_ample|done].
Qed.

(** One step that failed. *)
Lemma fail_yields h h1 d (ok : Prop) given given1 m r h' :
  (safe \/ ample h -> hstep h h1 d) -> fails h1 = fails h -> given1 = given + d -> ~ (ample h /\ ok) ->
  gives_up given1 m -> m h1 = (r, h') ->
  (safe \/ ample h -> hstep h h' (from_option cost 0 r - given)) /\ fails h' = fails h /\
  match r with Some b => P b | None => ~ (ample h /\ ok) end.
Proof.
  intros Hs Hf -> Hna Hm H. destruct (Hm h1 r h' H) as [-> Hs2]. split; [|split; [|done]].
  - intros Hor. eapply hstep_trans; [by apply Hs|exact Hs2|simpl; lia].
  - rewrite (hstep_fails _ _ _ Hs2). done.
Qed.

Lemma chk_yields m obj given l' ok1 fail k g (ok : Prop) :
  updates m obj given l' ok1 -> (ok -> ok1) ->
  (forall o, wf o -> gives_up (blocks o + g) (fail o)) ->
  (forall o, wf o -> erase o = JObject l' -> yields pol cost P safe (blocks o + g) ok (k o)) ->
  yields pol cost P safe (blocks obj + given + g) ok (chk m fail k).
Proof.
  intros Hm Hok Hfail Hk h r h' Hp H. unfold chk in H. apply bind_inv in H as ([st r1] & h1 & E & H).
  destruct (Hm _ _ _ _ E) as (o & -> & Hw & Hs & [[-> He]|(Hn & [l Hl] & Hna)]).
  - eapply step_yields; [intros _; exact Hs|apply Hs| |done|by apply Hk|done]. lia.
  - assert (fail o h1 = (r, h')) as H' by (by destruct st).
    eapply fail_yields; [intros _; exact Hs|apply Hs| |by naive_solver|by apply Hfail|done]. lia.
Qed.

(** Running a constructor first; [fail] is what follows on NULL. *)
Lemma build_yields (Q : value -> Prop) mk ok1 (fail : M (option B)) (k : value -> M (option B)) g (ok : Prop) :
  yields pol blocks Q safe 0 ok1 mk -> (ok -> ok1) -> gives_up g fail ->
  (forall v, Q v -> yields pol cost P safe (blocks v + g) ok (k v)) ->
  yields pol cost P safe g ok (v <- mk ;; match v with None => fail | Some v => k v end).
Proof.
  intros Hmk Hok Hfail Hk h r h' Hp H. apply bind_inv in H as (v & h1 & E & H).
  destruct (Hmk _ _ _ Hp E) as (Hs & Hf & Hv).
  assert (safe \/ ample h -> hstep h h1 (from_option blocks 0 v - 0)) as Hs'.
  { done. }
  destruct v as [v|].
  - eapply step_yields; [exact Hs'|exact Hf| |done|by apply Hk|done]. simpl. lia.
  - eapply fail_yields; [exact Hs'|exact Hf| |naive_solver|done|done]. simpl. lia.
Qed.

Lemma first_yields mk j ok1 (fail : M (option B)) (k : value -> M (option B)) g (ok : Prop) :
  attempt mk j ok1 -> (ok -> ok1) -> gives_up g fail ->
  (forall v, wf v -> erase v = j -> yields pol cost P safe (blocks v + g) ok (k v)) ->
  yields pol cost P safe g ok (v <- mk ;; match v with None => fail | Some v => k v end).
Proof.
  intros Hmk Hok Hfail Hk. eapply build_yields; [by apply attempt_yields|done|done|]. intros v [? ?]. auto.
Qed.

Lemma put_yields mk j ok1 obj l key fail k g (ok : Prop) :
  attempt mk j ok1 -> (ok -> ok1) -> wf obj -> erase obj = JObject l -> good_string key ->
  (forall o, wf o -> gives_up (blocks o + g) (fail o)) ->
  (forall o, wf o -> erase o = JObject (jinsert key j l) -> yields pol cost P safe (blocks o + g) ok (k o)) ->
  yields pol cost P safe (blocks obj + g) ok (put obj key mk fail k).
Proof.
  intros Hmk Hok Hw Hl Hkey Hfail Hk.
  apply (first_yields mk j ok1 (fail obj) (fun v => chk (object_set_take (Some obj) key (Some v)) fail k)); [done|done|auto|].
  intros v Hwv Hev. eapply yields_weaken; [|exact (fun x => x)|eapply (chk_yields _ obj (blocks v)); [by apply take_updates| |done|]].
  - lia.
  - done.
  - by rewrite Hev.
Qed.

Lemma put_opt_yields {A} (p : option A) mk (j : A -> json) (ok1 : A -> Prop) obj l key fail k g (ok : Prop) :
  (forall a, p = Some a -> attempt (mk a) (j a) (ok1 a)) -> (forall a, p = Some a -> ok -> ok1 a) ->
  wf obj -> erase obj = JObject l -> good_string key ->
  (forall o, wf o -> gives_up (blocks o + g) (fail o)) ->
  (forall o, wf o -> erase o = JObject (joset key (j <$> p) l) ->
     yields pol cost P safe (blocks o + g) ok (k o)) ->
  yields pol cost P safe (blocks obj + g) ok (put_opt obj key p mk fail k).
Proof.
  intros Hmk Hok Hw Hl Hkey Hk Hfail. destruct p as [a|]; simpl in *; [eapply put_yields; eauto|auto].
Qed.

(** Creating the object first. *)
Lemma new_yields mk j ok1 (k : value -> M (option B)) (ok : Prop) :
  attempt mk j ok1 -> (ok -> ok1) ->
  (forall o, wf o -> erase o = j -> yields pol cost P safe (blocks o + 0) ok (k o)) ->
  yields pol cost P safe 0 ok (o <- mk ;; match o with None => ret None | Some o => k o end).
Proof.
  intros Hmk Hok Hk. eapply first_yields; [done|done| |done]. intros h r h' H. minv H. split; [done|hsolve].
Qed.

(** Filling an array. *)
Lemma append_all_yields {A} (Q : A -> value -> Prop) (mk : A -> M (option value)) (ok1 : A -> Prop) fail k g (ok : Prop) l : forall arr js,
  (forall x, x ∈ l -> yields pol blocks (fun v => wf v /\ Q x v) safe 0 (ok1 x) (mk x)) ->
  (ok -> forall x, x ∈ l -> ok1 x) ->
  wf arr -> erase arr = JArray js ->
  (forall arr', wf arr' -> gives_up (blocks arr' + g) (fail arr')) ->
  (forall arr' vs, wf arr' -> erase arr' = JArray (js ++ map erase vs) -> Forall2 Q l vs ->
     yields pol cost P safe (blocks arr' + g) ok (k arr')) ->
  yields pol cost P safe (blocks arr + g) ok (append_all mk l arr fail k).
Proof.
  induction l as [|x l IH]; intros arr js Hmk Hok Hw Ha Hfail Hk; cbn [append_all].
  { apply (Hk arr []); [done|by rewrite app_nil_r|constructor]. }
  eapply build_yields; [apply Hmk; by left|intros ?; apply Hok; [done|by left]|by apply Hfail|].
  intros item [Hwi Hq] h r h' Hp H. apply bind_inv in H as ([st r1] & h1 & E & H).
  destruct arr as [| | | |c vs0|]; try discriminate Ha. cbn [erase] in Ha. injection Ha as Ha.
  apply array_append_spec in E as (c' & l' & -> & Hw' & Hs & -> & Hamp); [|done..].
  destruct (decide (st = MCP_OK)) as [->|Hne].
  - refine (step_yields h h1 _ ok _ (blocks (VArray c' (vs0 ++ [item])) + g) _ r h' (fun _ => Hs) (hstep_fails _ _ _ Hs) _ Hp _ H).
    { lia. }
    apply (IH _ (js ++ [erase item])); [intros y Hy; apply Hmk; by right|intros o y Hy; apply Hok; [done|by right]|done| |done|].
    + simpl. by rewrite map_app, Ha.
    + intros arr' vs Hw'' Hvs Hf2. apply (Hk arr' (item :: vs)); [done| |by constructor].
      rewrite Hvs. simpl. by rewrite <- app_assoc.
  - assert ((builtin_destroy (Some item) ;; fail (VArray c' vs0)) h1 = (r, h')) as H' by (by destruct st). clear H.
    apply bind_inv in H' as (u & h2 & E2 & H'). apply builtin_destroy_hstep in E2.
    assert (hstep h h2 (blocks (VArray c' vs0) - blocks (VArray c vs0) - 0 - blocks item)) as Hs2.
    { eapply hstep_trans; [exact Hs|exact E2|simpl; lia]. }
    refine (fail_yields h h2 _ ok _ (blocks (VArray c' vs0) + g) _ r h' (fun _ => Hs2) (hstep_fails _ _ _ Hs2) _ _ (Hfail _ Hw') H').
    + lia.
    + intros [A1 _]. auto.
Qed.
End rules.

(** With memory nothing fails, so what the failure paths do does not
    matter. *)
Lemma chk_ample {B} m obj given l' (ok : Prop) fail (k : value -> M (option B)) h r h' :
  updates m obj given l' ok -> ok -> ample h -> chk m fail k h = (r, h') ->
  exists v h1, wf v /\ erase v = JObject l' /\ hstep h h1 (blocks v - blocks obj - given) /\ ample h1 /\ k v h1 = (r, h').
Proof.
  intros Hm Hok A H. unfold chk in H. apply bind_inv in H as ([st r1] & h1 & E & H).
  destruct (Hm _ _ _ _ E) as (v & -> & Hw & Hs & [[-> He]|(Hn & _ & Hna)]); [|by destruct Hna].
  exists v, h1. do 3 (split; [done|]). split; [by eapply ample_hstep|done].
Qed.

Lemma opt_ample {B} obj l key (v : option value) fail (k : value -> M (option B)) h r h' :
  wf obj -> erase obj = JObject l -> owf v -> good_string key -> ample h ->
  match v with None => k obj | Some _ => chk (object_set_take (Some obj) key v) fail k end h = (r, h') ->
  exists p h1, wf p /\ erase p = JObject (joset key (erase <$> v) l) /\ hstep h h1 (blocks p - blocks obj - oblocks v) /\
    ample h1 /\ k p h1 = (r, h').
Proof.
  intros Hw Hl Hv Hk A H. destruct v as [v|].
  - eapply chk_ample in H; [|by apply take_updates|done|done]. exact H.
  - exists obj, h. split; [done|]. split; [done|]. split; [|done]. eapply hstep_eq; [apply hstep_refl|cbn; lia].
Qed.

(** An empty object. *)
Lemma object_new_attempt : attempt builtin_new_object (JObject []) True.
Proof. apply (new_attempt (VObject 0 [])); [done|]. split; [done|]. split; [constructor|done]. Qed.

Lemma array_new_attempt : attempt builtin_new_array (JArray []) True.
Proof. apply (new_attempt (VArray 0 [])); [done|]. by split. Qed.

Lemma bool_new_attempt b : attempt (builtin_new_bool b) (JBool b) True.
Proof. by apply (new_attempt (VBool b)). Qed.

Lemma null_new_attempt : attempt builtin_new_null JNull True.
Proof. by apply (new_attempt VNull). Qed.

(** Returning the finished object. *)
Lemma ret_yields pol safe (ok : Prop) o l :
  wf o -> erase o = JObject l ->
  yields pol blocks (fun v => wf v /\ erase v = JObject l) safe (blocks o + 0) ok (ret (Some o)).
Proof. intros Hw He h r h' _ H. minv H. simpl. split; [intros _; hsolve|]. done. Qed.

Lemma lit_good s : has_nul (cs s) = false -> utf8_valid (cs s) = true -> good_string (cs s).
Proof. by split. Qed.

(** The conversion of a 64-bit unsigned integer to [double]. *)
Definition u64 (z : Z) : Prop := 0 <= z < 2 ^ 64.

Lemma u64_double z : u64 z -> valid_double (double_of_Z z) = true /\ isfinite (double_of_Z z) = true.
Proof.
  intros Hz. unfold u64 in Hz. destruct z as [|p|p]; [done| |lia]. split; [apply round_pos_valid; lia|].
  change (double_of_Z (Zpos p)) with (round_pos false (Z.abs (Zpos p) * 2 ^ 1074) 1). unfold round_pos.
  assert (Z.log2 (Z.abs (Zpos p) * 2 ^ 1074 / 1) < 1138) as Hl.
  { rewrite Z.div_1_r. apply Z.log2_lt_pow2; [lia|]. replace 1138 with (64 + 1074) by lia.
    rewrite Z.pow_add_r by lia. apply Z.mul_lt_mono_pos_r; lia. }
  set (sh := Z.max 0 (Z.log2 (Z.abs (Zpos p) * 2 ^ 1074 / 1) - 52)) in *. assert (sh < 1087) as Hsh by lia.
  clearbody sh. destruct (rne _ _ =? 2 ^ 53).
  - rewrite (proj2 (Z.ltb_ge 2045 (sh + 1))) by lia. done.
  - rewrite (proj2 (Z.ltb_ge 2045 sh)) by lia. by destruct (rne _ _).
Qed.

Lemma u64_attempt z : u64 z -> attempt (builtin_new_number (double_of_Z z)) (JNumber (double_of_Z z)) True.
Proof.
  intros Hz. destruct (u64_double z Hz) as [Hv Hf]. intros h r h' H. apply number_attempt in H as [Hs Hr]; [|done].
  split; [done|]. destruct r; [done|]. intros [A _]. by apply Hr.
Qed.

(** [good_string] of a literal, by computation. *)
Ltac lit := split; vm_compute; reflexivity.

(** One step of a chain of [put]s that discards the object on failure. *)
Ltac put_step :=
  first
    [ eapply put_yields; [|intros|eassumption|eassumption|lit|intros; apply discard_gives_up|intros]
    | eapply put_opt_yields; [|intros|eassumption|eassumption|lit|intros; apply discard_gives_up|intros] ].
