(* ===== verification/Tasks.v ===== *)
(** * Tasks (src/protocol/tasks.c)

    The task manager: a growing array of tasks with fixed-size id and
    message buffers, the operations on it, and the JSON form of a task. *)
From stdpp Require Import gmap.
From S2P Require Import Prelude Heap Utf8 Double JsonValue JsonParse JsonSerialize JsonApi Schema Message Validate Builders.

Local Open Scope Z_scope.

(** [safe_copy_str] into a buffer of [dst_sz] bytes. *)
Definition safe_copy_str (dst_sz : nat) (src : option bytes) : bytes :=
  match src with None => [] | Some s => take (dst_sz - 1) (cstr s) end.

Inductive mcp_task_status_t :=
| MCP_TASK_STATUS_WORKING
| MCP_TASK_STATUS_INPUT_REQUIRED
| MCP_TASK_STATUS_COMPLETED
| MCP_TASK_STATUS_FAILED
| MCP_TASK_STATUS_CANCELLED.

#[export] Instance task_status_eq_dec : EqDecision mcp_task_status_t.
Proof. solve_decision. Defined.

Definition mcp_task_status_name (status : mcp_task_status_t) : bytes :=
  match status with
  | MCP_TASK_STATUS_WORKING => cs "working"
  | MCP_TASK_STATUS_INPUT_REQUIRED => cs "input_required"
  | MCP_TASK_STATUS_COMPLETED => cs "completed"
  | MCP_TASK_STATUS_FAILED => cs "failed"
  | MCP_TASK_STATUS_CANCELLED => cs "cancelled"
  end.

(** [mcp_task_entry_t]; a task description ([mcp_task_desc_t]) has the same
    fields, its values borrowed. *)
Record mcp_task_entry_t := Task {
  task_id : bytes;
  t_status : mcp_task_status_t;
  ttl_ms : Z;
  poll_interval_ms : Z;
  status_message : bytes;
  t_result : option value;
  t_error : option value;
  t_input_requests : option value;
}.

Record mcp_task_mgr_t := TaskMgr { tasks : list mcp_task_entry_t; capacity : nat }.

Definition TASK_ID_SIZE : nat := 64.
Definition STATUS_MESSAGE_SIZE : nat := 256.

Definition mcp_task_mgr_new : M (option mcp_task_mgr_t) :=
  ok <- xmalloc ;; ret (if ok then Some (TaskMgr [] 0) else None).

Fixpoint free_tasks (l : list mcp_task_entry_t) : M unit :=
  match l with
  | [] => ret tt
  | t :: l' =>
      builtin_destroy (t_result t) ;; builtin_destroy (t_error t) ;; builtin_destroy (t_input_requests t) ;;
      free_tasks l'
  end.

Definition mcp_task_mgr_free (mgr : option mcp_task_mgr_t) : M unit :=
  match mgr with
  | None => ret tt
  | Some mgr => free_tasks (tasks mgr) ;; xfree (isnull0 (capacity mgr)) ;; xfree false
  end.

(** [find_task]: the index. *)
Fixpoint find_index (l : list mcp_task_entry_t) (id : bytes) : option nat :=
  match l with
  | [] => None
  | t :: l' => if streq (task_id t) id then Some O else S <$> find_index l' id
  end.

Definition find_task (mgr : mcp_task_mgr_t) (id : option bytes) : option nat :=
  match id with None => None | Some id => find_index (tasks mgr) id end.

Definition new_task (id : bytes) (ttl poll : Z) : mcp_task_entry_t :=
  Task (safe_copy_str TASK_ID_SIZE (Some id)) MCP_TASK_STATUS_WORKING ttl poll [] None None None.

Definition mcp_task_mgr_create (mgr : mcp_task_mgr_t) (id : option bytes) (ttl poll : Z)
    : M (mcp_status_t * mcp_task_mgr_t) :=
  match id with
  | None => ret (MCP_ERR_INVALID_ARGUMENT, mgr)
  | Some s =>
      if bool_decide (cstr s = []) then ret (MCP_ERR_INVALID_ARGUMENT, mgr) else
      match find_task mgr id with
      | Some _ => ret (MCP_ERR_ALREADY_EXISTS, mgr)
      | None =>
          if Nat.eqb (length (tasks mgr)) (capacity mgr) then
            ok <- xrealloc (isnull0 (capacity mgr)) ;;
            if negb ok then ret (MCP_ERR_NOMEM, mgr) else
            ret (MCP_OK, TaskMgr (tasks mgr ++ [new_task s ttl poll])
                           (if Nat.eqb (capacity mgr) 0 then 8%nat else (capacity mgr * 2)%nat))
          else ret (MCP_OK, TaskMgr (tasks mgr ++ [new_task s ttl poll]) (capacity mgr))
      end
  end.

(** The writes through the pointer [find_task] returns. *)
Definition update_task (mgr : mcp_task_mgr_t) (i : nat) (f : mcp_task_entry_t -> mcp_task_entry_t) : mcp_task_mgr_t :=
  TaskMgr (alter f i (tasks mgr)) (capacity mgr).

Definition mcp_task_mgr_set_status (mgr : mcp_task_mgr_t) (id : option bytes) (status : mcp_task_status_t)
    (msg : option bytes) : mcp_status_t * mcp_task_mgr_t :=
  match find_task mgr id with
  | None => (MCP_ERR_NOT_FOUND, mgr)
  | Some i =>
      (MCP_OK, update_task mgr i (fun t =>
        Task (task_id t) status (ttl_ms t) (poll_interval_ms t)
          (match msg with None => status_message t | Some _ => safe_copy_str STATUS_MESSAGE_SIZE msg end)
          (t_result t) (t_error t) (t_input_requests t)))
  end.

(** The value stored in a task before, to be destroyed. *)
Definition old_value (mgr : mcp_task_mgr_t) (i : nat) (f : mcp_task_entry_t -> option value) : option value :=
  match tasks mgr !! i with Some t => f t | None => None end.

Definition mcp_task_mgr_set_result (mgr : mcp_task_mgr_t) (id : option bytes) (result : option value)
    : M (mcp_status_t * mcp_task_mgr_t) :=
  match find_task mgr id with
  | None => ret (MCP_ERR_NOT_FOUND, mgr)
  | Some i =>
      builtin_destroy (old_value mgr i t_result) ;;
      ret (MCP_OK, update_task mgr i (fun t =>
        Task (task_id t) MCP_TASK_STATUS_COMPLETED (ttl_ms t) (poll_interval_ms t) (status_message t)
          result (t_error t) (t_input_requests t)))
  end.

Definition mcp_task_mgr_set_error (mgr : mcp_task_mgr_t) (id : option bytes) (error : option value)
    : M (mcp_status_t * mcp_task_mgr_t) :=
  match find_task mgr id with
  | None => ret (MCP_ERR_NOT_FOUND, mgr)
  | Some i =>
      builtin_destroy (old_value mgr i t_error) ;;
      ret (MCP_OK, update_task mgr i (fun t =>
        Task (task_id t) MCP_TASK_STATUS_FAILED (ttl_ms t) (poll_interval_ms t) (status_message t)
          (t_result t) error (t_input_requests t)))
  end.

Definition mcp_task_mgr_set_input_requests (mgr : mcp_task_mgr_t) (id : option bytes) (input_requests : option value)
    : M (mcp_status_t * mcp_task_mgr_t) :=
  match find_task mgr id with
  | None => ret (MCP_ERR_NOT_FOUND, mgr)
  | Some i =>
      builtin_destroy (old_value mgr i t_input_requests) ;;
      ret (MCP_OK, update_task mgr i (fun t =>
        Task (task_id t) MCP_TASK_STATUS_INPUT_REQUIRED (ttl_ms t) (poll_interval_ms t) (status_message t)
          (t_result t) (t_error t) input_requests))
  end.

(** The status and the description. *)
Definition mcp_task_mgr_get (mgr : mcp_task_mgr_t) (id : option bytes) : mcp_status_t * option mcp_task_entry_t :=
  match id with
  | None => (MCP_ERR_INVALID_ARGUMENT, None)
  | Some _ =>
      match find_task mgr id ≫= fun i => tasks mgr !! i with
      | None => (MCP_ERR_NOT_FOUND, None)
      | Some t => (MCP_OK, Some (Task (safe_copy_str TASK_ID_SIZE (Some (task_id t))) (t_status t) (ttl_ms t)
                     (poll_interval_ms t) (safe_copy_str STATUS_MESSAGE_SIZE (Some (status_message t)))
                     (t_result t) (t_error t) (t_input_requests t)))
      end
  end.

Definition mcp_task_mgr_cancel (mgr : mcp_task_mgr_t) (id : option bytes) : mcp_status_t * mcp_task_mgr_t :=
  match find_task mgr id with
  | None => (MCP_ERR_NOT_FOUND, mgr)
  | Some i =>
      (MCP_OK, update_task mgr i (fun t =>
        Task (task_id t) MCP_TASK_STATUS_CANCELLED (ttl_ms t) (poll_interval_ms t) (status_message t)
          (t_result t) (t_error t) (t_input_requests t)))
  end.

(** [if (n > 0)] as an optional argument. *)
Definition positive (n : Z) : option Z := if 0 <? n then Some n else None.

Definition nonempty (s : bytes) : option bytes := if bool_decide (cstr s = []) then None else Some s.

Definition mcp_task_desc_to_json (desc : option mcp_task_entry_t) : M (option value) :=
  match desc with
  | None => ret None
  | Some d =>
      obj <- builtin_new_object ;;
      match obj with
      | None => ret None
      | Some obj =>
          put obj (cs "taskId") (string_new (task_id d)) discard (fun obj =>
          put obj (cs "status") (string_new (mcp_task_status_name (t_status d))) discard (fun obj =>
          put_opt obj (cs "ttlMs") (positive (ttl_ms d)) (fun n => builtin_new_number (double_of_Z n)) discard (fun obj =>
          put_opt obj (cs "pollIntervalMs") (positive (poll_interval_ms d))
            (fun n => builtin_new_number (double_of_Z n)) discard (fun obj =>
          put_opt obj (cs "statusMessage") (nonempty (status_message d)) string_new discard (fun obj =>
          put_opt obj (cs "result") (t_result d) (fun v => json_clone (Some v)) discard (fun obj =>
          put_opt obj (cs "error") (t_error d) (fun v => json_clone (Some v)) discard (fun obj =>
          put_opt obj (cs "inputRequests") (t_input_requests d) (fun v => json_clone (Some v)) discard (fun obj =>
          ret (Some obj)))))))))
      end
  end.

(** ** What the manager stands for

    A finite map from ids to tasks. *)

#[export] Instance byte_countable : Countable byte.
Proof.
  apply (inj_countable' Byte.to_N (fun n => default x00 (Byte.of_N n))). intros b. by rewrite Byte.of_to_N.
Defined.

Definition keyed (t : mcp_task_entry_t) : bytes * mcp_task_entry_t := (task_id t, t).

Definition tmap (mgr : mcp_task_mgr_t) : gmap bytes mcp_task_entry_t := list_to_map (keyed <$> tasks mgr).

Definition good_task (t : mcp_task_entry_t) : Prop :=
  has_nul (task_id t) = false /\ (length (task_id t) < TASK_ID_SIZE)%nat /\
  has_nul (status_message t) = false /\ (length (status_message t) < STATUS_MESSAGE_SIZE)%nat /\
  u64 (ttl_ms t) /\ u64 (poll_interval_ms t) /\
  owf (t_result t) /\ owf (t_error t) /\ owf (t_input_requests t).

(** Every task is within its buffers, no id twice, the array is large
    enough. *)
Record mgr_inv (mgr : mcp_task_mgr_t) : Prop := MgrInv {
  mgr_good : Forall good_task (tasks mgr);
  mgr_nodup : NoDup (task_id <$> tasks mgr);
  mgr_cap : (length (tasks mgr) <= capacity mgr)%nat;
}.

Definition task_blocks (t : mcp_task_entry_t) : Z :=
  oblocks (t_result t) + oblocks (t_error t) + oblocks (t_input_requests t).

Definition tasks_blocks (l : list mcp_task_entry_t) : Z := foldr (fun t n => task_blocks t + n) 0 l.

Definition mgr_blocks (mgr : mcp_task_mgr_t) : Z := 1 + buffer (capacity mgr) + tasks_blocks (tasks mgr).

Lemma tasks_blocks_app l1 l2 : tasks_blocks (l1 ++ l2) = tasks_blocks l1 + tasks_blocks l2.
Proof. unfold tasks_blocks. induction l1 as [|t l IH]; simpl; [done|]. rewrite IH. lia. Qed.

Lemma find_index_spec l id :
  Forall good_task l -> has_nul id = false ->
  match find_index l id with
  | Some i => exists t, l !! i = Some t /\ task_id t = id
  | None => id ∉ (task_id <$> l)
  end.
Proof.
  intros Hl Hn. induction Hl as [|t l Ht Hl IH]; cbn [find_index]; [simpl; apply not_elem_of_nil|].
  destruct Ht as [Hnt _]. rewrite streq_no_nul by done. case_bool_decide as He; [by exists t|].
  destruct (find_index l id) as [i|]; simpl in *; [done|]. apply not_elem_of_cons. split; [congruence|done].
Qed.

Lemma fst_keyed l : (keyed <$> l).*1 = task_id <$> l.
Proof. rewrite <- list_fmap_compose. done. Qed.

Lemma tmap_lookup mgr id i t :
  mgr_inv mgr -> tasks mgr !! i = Some t -> task_id t = id -> tmap mgr !! id = Some t.
Proof.
  intros [_ Hnd _] Hi <-. unfold tmap. apply elem_of_list_to_map; [by rewrite fst_keyed|].
  apply list_elem_of_fmap. exists t. split; [done|]. by eapply list_elem_of_lookup_2.
Qed.

Lemma tmap_fresh mgr id : id ∉ (task_id <$> tasks mgr) -> tmap mgr !! id = None.
Proof. intros Hn. unfold tmap. apply not_elem_of_list_to_map. by rewrite fst_keyed. Qed.

Lemma find_task_spec mgr id :
  mgr_inv mgr -> has_nul id = false ->
  match find_task mgr (Some id) with
  | Some i => exists t, tasks mgr !! i = Some t /\ task_id t = id /\ tmap mgr !! id = Some t
  | None => id ∉ (task_id <$> tasks mgr) /\ tmap mgr !! id = None
  end.
Proof.
  intros Hi Hn. pose proof (find_index_spec (tasks mgr) id (mgr_good _ Hi) Hn) as H. cbn [find_task].
  destruct (find_index _ _) as [i|].
  - destruct H as (t & Ht & He). exists t. split; [done|]. split; [done|]. by eapply tmap_lookup.
  - split; [done|by apply tmap_fresh].
Qed.

(** Updating the task an id names. *)
Lemma tmap_good mgr id t : mgr_inv mgr -> has_nul id = false -> tmap mgr !! id = Some t -> good_task t.
Proof.
  intros Hinv Hn Ht. pose proof (find_task_spec mgr id Hinv Hn) as Hf. destruct (find_task mgr (Some id)) as [i|]; [|by destruct Hf; congruence].
  destruct Hf as (t' & Hi & _ & Ht'). simplify_eq. eapply Forall_lookup_1; [apply Hinv|exact Hi].
Qed.

Lemma update_spec mgr i t id f :
  mgr_inv mgr -> tasks mgr !! i = Some t -> task_id t = id -> task_id (f t) = id -> good_task (f t) ->
  mgr_inv (update_task mgr i f) /\ tmap (update_task mgr i f) = <[id := f t]> (tmap mgr) /\
  mgr_blocks (update_task mgr i f) = mgr_blocks mgr + task_blocks (f t) - task_blocks t.
Proof.
  intros Hinv Hi Hid Hf Hg. pose proof Hinv as [H1 H2 H3].
  assert (tasks mgr = take i (tasks mgr) ++ t :: drop (S i) (tasks mgr)) as Heq by (by rewrite take_drop_middle).
  assert (alter f i (tasks mgr) = take i (tasks mgr) ++ f t :: drop (S i) (tasks mgr)) as Halt.
  { rewrite Heq at 1. rewrite alter_app_r_alt by (rewrite length_take; lia).
    rewrite length_take_le by (apply lookup_lt_Some in Hi; lia). by rewrite Nat.sub_diag. }
  set (l1 := take i (tasks mgr)) in *. set (l2 := drop (S i) (tasks mgr)) in *.
  assert (task_id <$> alter f i (tasks mgr) = task_id <$> tasks mgr) as Hids.
  { rewrite Halt, Heq, !fmap_app. simpl. by rewrite Hf, Hid. }
  split; [split; simpl|split].
  - rewrite Halt. rewrite Heq in H1. apply Forall_app in H1 as [? [? ?]%Forall_cons]. apply Forall_app.
    split; [done|]. by constructor.
  - by rewrite Hids.
  - by rewrite length_alter.
  - unfold tmap. cbn [update_task tasks]. rewrite Halt, Heq, !fmap_app. simpl. rewrite !list_to_map_app. simpl.
    unfold keyed at 2 4. rewrite Hf, Hid.
    assert ((list_to_map (keyed <$> l1) : gmap bytes mcp_task_entry_t) !! id = None) as Hn1.
    { apply not_elem_of_list_to_map. rewrite fst_keyed. rewrite Heq, fmap_app in H2. simpl in H2. rewrite Hid in H2.
      apply NoDup_app in H2 as (_ & H2 & _). intros Hin. apply (H2 _ Hin). by left. }
    rewrite <- !insert_union_r by done. by rewrite insert_insert_eq.
  - unfold mgr_blocks. cbn [update_task tasks capacity]. rewrite Halt, Heq, !tasks_blocks_app. cbn [tasks_blocks foldr]. lia.
Qed.

(** ** Operations on the map *)

Inductive task_op :=
| TCreate (id : bytes) (ttl poll : Z)
| TSetStatus (id : bytes) (status : mcp_task_status_t) (msg : option bytes)
| TSetResult (id : bytes) (v : option value)
| TSetError (id : bytes) (v : option value)
| TSetInput (id : bytes) (v : option value)
| TCancel (id : bytes).

Definition task_run (op : task_op) (mgr : mcp_task_mgr_t) : M (mcp_status_t * mcp_task_mgr_t) :=
  match op with
  | TCreate id ttl poll => mcp_task_mgr_create mgr (Some id) ttl poll
  | TSetStatus id status msg => ret (mcp_task_mgr_set_status mgr (Some id) status msg)
  | TSetResult id v => mcp_task_mgr_set_result mgr (Some id) v
  | TSetError id v => mcp_task_mgr_set_error mgr (Some id) v
  | TSetInput id v => mcp_task_mgr_set_input_requests mgr (Some id) v
  | TCancel id => ret (mcp_task_mgr_cancel mgr (Some id))
  end.

Definition op_id (op : task_op) : bytes :=
  match op with
  | TCreate id _ _ | TSetStatus id _ _ | TSetResult id _ | TSetError id _ | TSetInput id _ | TCancel id => id
  end.

(** The value handed over. *)
Definition op_value (op : task_op) : option value :=
  match op with TSetResult _ v | TSetError _ v | TSetInput _ v => v | _ => None end.

Definition op_ok (op : task_op) : Prop :=
  has_nul (op_id op) = false /\ owf (op_value op) /\
  match op with TCreate id ttl poll => (length id < TASK_ID_SIZE)%nat /\ u64 ttl /\ u64 poll | _ => True end.

(** What an operation makes of a task. *)
Definition op_effect (op : task_op) (t : mcp_task_entry_t) : mcp_task_entry_t :=
  match op with
  | TCreate id ttl poll => Task id MCP_TASK_STATUS_WORKING ttl poll [] None None None
  | TSetStatus _ status msg =>
      Task (task_id t) status (ttl_ms t) (poll_interval_ms t)
        (match msg with None => status_message t | Some m => take 255 (cstr m) end)
        (t_result t) (t_error t) (t_input_requests t)
  | TSetResult _ v =>
      Task (task_id t) MCP_TASK_STATUS_COMPLETED (ttl_ms t) (poll_interval_ms t) (status_message t)
        v (t_error t) (t_input_requests t)
  | TSetError _ v =>
      Task (task_id t) MCP_TASK_STATUS_FAILED (ttl_ms t) (poll_interval_ms t) (status_message t)
        (t_result t) v (t_input_requests t)
  | TSetInput _ v =>
      Task (task_id t) MCP_TASK_STATUS_INPUT_REQUIRED (ttl_ms t) (poll_interval_ms t) (status_message t)
        (t_result t) (t_error t) v
  | TCancel _ =>
      Task (task_id t) MCP_TASK_STATUS_CANCELLED (ttl_ms t) (poll_interval_ms t) (status_message t)
        (t_result t) (t_error t) (t_input_requests t)
  end.

(** The status an operation returns when memory lasts. *)
Definition op_status (op : task_op) (m : gmap bytes mcp_task_entry_t) : mcp_status_t :=
  match op, m !! op_id op with
  | TCreate [] _ _, _ => MCP_ERR_INVALID_ARGUMENT
  | TCreate _ _ _, Some _ => MCP_ERR_ALREADY_EXISTS
  | TCreate _ _ _, None => MCP_OK
  | _, Some _ => MCP_OK
  | _, None => MCP_ERR_NOT_FOUND
  end.

Lemma has_nul_take n s : has_nul s = false -> has_nul (take n s) = false.
Proof.
  revert n. induction s as [|b s IH]; intros [|n] H; try done. cbn [take]. rewrite has_nul_cons in *.
  apply orb_false_iff in H as [-> H]. by rewrite IH.
Qed.

(** The manager after an update of an existing task. *)
Lemma op_update op mgr i t :
  mgr_inv mgr -> op_ok op -> (forall id ttl poll, op <> TCreate id ttl poll) ->
  tasks mgr !! i = Some t -> task_id t = op_id op ->
  let mgr' := update_task mgr i (op_effect op) in
  mgr_inv mgr' /\ tmap mgr' = <[op_id op := op_effect op t]> (tmap mgr) /\
  mgr_blocks mgr' = mgr_blocks mgr + task_blocks (op_effect op t) - task_blocks t.
Proof.
  intros Hinv (Hn & Hv & _) Hnc Hi Hid. cbv zeta. pose proof (Forall_lookup_1 _ _ _ _ (mgr_good _ Hinv) Hi) as Hg.
  apply update_spec; [done|done|done|by destruct op; simpl in *; [destruct (Hnc id ttl poll)|..]|].
  destruct Hg as (G1 & G2 & G3 & G4 & G5 & G6 & G7 & G8 & G9).
  unfold good_task. destruct op as [id ttl poll|? ? [m|]|? ?|? ?|? ?|?]; cbn [op_effect op_value task_id ttl_ms
    poll_interval_ms status_message t_result t_error t_input_requests] in *; try done; [by destruct (Hnc id ttl poll)|].
  split; [done|]. split; [done|]. split; [apply has_nul_take, has_nul_cstr|].
  split; [unfold STATUS_MESSAGE_SIZE; rewrite length_take; lia|]. done.
Qed.

Lemma new_task_short id ttl poll :
  has_nul id = false -> (length id < TASK_ID_SIZE)%nat ->
  new_task id ttl poll = Task id MCP_TASK_STATUS_WORKING ttl poll [] None None None.
Proof.
  intros Hn Hl. unfold new_task, safe_copy_str. rewrite (cstr_no_nul id) by done.
  rewrite take_ge; [done|]. unfold TASK_ID_SIZE in *. lia.
Qed.

Lemma append_task mgr id ttl poll :
  mgr_inv mgr -> has_nul id = false -> (length id < TASK_ID_SIZE)%nat -> u64 ttl -> u64 poll ->
  id ∉ (task_id <$> tasks mgr) -> forall c, (length (tasks mgr) < c)%nat ->
  let m' := TaskMgr (tasks mgr ++ [new_task id ttl poll]) c in
  mgr_inv m' /\ tmap m' = <[id := new_task id ttl poll]> (tmap mgr) /\
  mgr_blocks m' = mgr_blocks mgr + buffer c - buffer (capacity mgr).
Proof.
  intros [H1 H2 H3] Hn Hl Ht Hp Hf c Hc. cbv zeta. rewrite new_task_short by done. split; [split; simpl|split].
  - apply Forall_app. split; [done|]. apply Forall_singleton. unfold good_task. simpl.
    repeat (split; [first [done|unfold STATUS_MESSAGE_SIZE; lia]|]). done.
  - rewrite fmap_app. simpl. apply NoDup_app. split; [done|]. split; [set_solver|apply NoDup_singleton].
  - rewrite length_app. simpl. lia.
  - unfold tmap. cbn [tasks]. rewrite fmap_app. apply list_to_map_snoc. by rewrite fst_keyed.
  - unfold mgr_blocks. cbn [tasks capacity]. rewrite tasks_blocks_app.
    replace (tasks_blocks [Task id MCP_TASK_STATUS_WORKING ttl poll [] None None None]) with 0 by done. lia.
Qed.

Lemma create_spec id ttl poll mgr h st mgr' h' :
  mgr_inv mgr -> op_ok (TCreate id ttl poll) ->
  mcp_task_mgr_create mgr (Some id) ttl poll h = ((st, mgr'), h') ->
  mgr_inv mgr' /\ hstep h h' (mgr_blocks mgr' - mgr_blocks mgr) /\
  ((st = MCP_OK /\ op_status (TCreate id ttl poll) (tmap mgr) = MCP_OK /\
    tmap mgr' = <[id := op_effect (TCreate id ttl poll) (new_task id ttl poll)]> (tmap mgr)) \/
   (st <> MCP_OK /\ mgr' = mgr /\ (st = op_status (TCreate id ttl poll) (tmap mgr) \/ (st = MCP_ERR_NOMEM /\ ~ ample h)))).
Proof.
  intros Hinv (Hn & _ & Hlen & Ht & Hp) H. cbn [mcp_task_mgr_create] in H. cbn [op_id] in Hn.
  pose proof (find_task_spec mgr id Hinv Hn) as Hf. cbn [op_effect].
  case_bool_decide as Hc; rewrite cstr_no_nul in Hc by done.
  { minv H. simplify_eq. split; [done|]. split; [hsolve|]. right. split; [done|]. split; [done|]. by left. }
  destruct (find_task mgr (Some id)) as [i|].
  { destruct Hf as (t & _ & _ & Hm). minv H. simplify_eq. split; [done|]. split; [hsolve|]. right.
    split; [done|]. split; [done|]. left. unfold op_status. destruct id; [done|]. cbn [op_id]. by rewrite Hm. }
  destruct Hf as [Hfresh Hm].
  pose proof (new_task_short id ttl poll Hn Hlen) as Hnew.
  pose proof (append_task mgr id ttl poll Hinv Hn Hlen Ht Hp Hfresh) as Hm'. cbv zeta in Hm'.
  assert (op_status (TCreate id ttl poll) (tmap mgr) = MCP_OK) as Hok
    by (unfold op_status; destruct id; [done|]; cbn [op_id]; by rewrite Hm).
  destruct (Nat.eqb_spec (length (tasks mgr)) (capacity mgr)) as [He|He].
  - apply bind_inv in H as (ok & h1 & E & H). pose proof E as E'. destruct ok; cbn [negb] in H; minv H; simplify_eq.
    + set (c := if Nat.eqb (capacity mgr) 0 then 8%nat else (capacity mgr * 2)%nat) in *.
      assert ((length (tasks mgr) < c)%nat /\ buffer c = 1) as [Hlt Hb].
      { unfold c, buffer, isnull0. destruct (Nat.eqb_spec (capacity mgr) 0) as [Hz|Hz]; [split; [lia|done]|].
        rewrite (proj2 (Nat.eqb_neq (capacity mgr * 2) 0)) by lia. split; [lia|done]. }
      destruct (Hm' c Hlt) as (Hi' & Ht' & Hb'). split; [done|]. split; [|left; split; [done|]; split; [done|by rewrite Ht', Hnew]].
      rewrite Hb', Hb. apply xrealloc_hstep in E. unfold buffer. eapply hstep_eq; [exact E|]. destruct (isnull0 _); lia.
    + split; [done|]. split; [hsolve|]. right. split; [done|]. split; [done|]. right. split; [done|].
      intros A. by apply (xrealloc_ample_inv _ _ _ _ A) in E'.
  - minv H. simplify_eq. destruct (Hm' (capacity mgr)) as (Hi' & Ht' & Hb'); [destruct Hinv; lia|].
    split; [done|]. split; [rewrite Hb'; hsolve|]. left. split; [done|]. split; [done|]. by rewrite Ht', Hnew.
Qed.

Lemma op_status_found op m :
  (forall id ttl poll, op <> TCreate id ttl poll) ->
  op_status op m = match m !! op_id op with Some _ => MCP_OK | None => MCP_ERR_NOT_FOUND end.
Proof. intros Hnc. destruct op as [id ttl poll| | | | |]; [by destruct (Hnc id ttl poll)|done..]. Qed.

(** An operation on an existing task, as the code runs it: the replaced value
    is destroyed. *)
Lemma run_update op mgr h st mgr' h' :
  mgr_inv mgr -> op_ok op -> (forall id ttl poll, op <> TCreate id ttl poll) ->
  task_run op mgr h = ((st, mgr'), h') ->
  match find_task mgr (Some (op_id op)) with
  | None => st = MCP_ERR_NOT_FOUND /\ mgr' = mgr /\ h' = h
  | Some i => st = MCP_OK /\ mgr' = update_task mgr i (op_effect op) /\
      forall t, tasks mgr !! i = Some t -> hstep h h' (task_blocks (op_effect op t) - task_blocks t - oblocks (op_value op))
  end.
Proof.
  intros Hinv Hok Hnc H. destruct op as [id ttl poll|id status [m|]|id v|id v|id v|id]; cbn [task_run op_id] in *;
    [by destruct (Hnc id ttl poll)|..];
    unfold mcp_task_mgr_set_status, mcp_task_mgr_set_result, mcp_task_mgr_set_error, mcp_task_mgr_set_input_requests,
      mcp_task_mgr_cancel in H; destruct (find_task mgr (Some id)) as [i|]; minv H; simplify_eq; try done.
  all: split; [done|]; split; [done|]; intros t Ht; unfold task_blocks, old_value in *; try rewrite Ht in *; destroy_facts.
  all: cbn [op_effect op_value t_result t_error t_input_requests] in *; cbn [oblocks]; hsolve.
Qed.

(** The two operations without allocation keep the block count. *)
Lemma quiet_update op mgr st mgr' :
  mgr_inv mgr -> has_nul (op_id op) = false ->
  match op with
  | TSetStatus id status msg => mcp_task_mgr_set_status mgr (Some id) status msg = (st, mgr')
  | TCancel id => mcp_task_mgr_cancel mgr (Some id) = (st, mgr')
  | _ => False
  end ->
  mgr_inv mgr' /\ mgr_blocks mgr' = mgr_blocks mgr.
Proof.
  intros Hinv Hn H. assert (op_ok op /\ (forall id ttl poll, op <> TCreate id ttl poll)) as [Hok Hnc] by (by destruct op).
  assert (task_run op mgr fresh_heap = ((st, mgr'), fresh_heap)) as Hrun by (destruct op; try done; cbn [task_run]; by rewrite H).
  pose proof (run_update op mgr _ _ _ _ Hinv Hok Hnc Hrun) as Hr. pose proof (find_task_spec mgr (op_id op) Hinv Hn) as Hf.
  destruct (find_task mgr (Some (op_id op))) as [i|]; [|by destruct Hr as (_ & -> & _)].
  destruct Hf as (t & Hi & Hid & _). destruct Hr as (_ & -> & _).
  destruct (op_update op mgr i t Hinv Hok Hnc Hi Hid) as (Hinv' & _ & Hb). split; [done|]. rewrite Hb. unfold task_blocks. destruct op; try done; cbn [op_effect t_result t_error t_input_requests]; lia.
Qed.

(** A task that has not ended. *)
Definition ongoing (t : mcp_task_entry_t) : Prop :=
  t_status t = MCP_TASK_STATUS_WORKING \/ t_status t = MCP_TASK_STATUS_INPUT_REQUIRED.

(** The transitions are those of tasks that have not ended. *)
Definition transition_ok (op : task_op) (m : gmap bytes mcp_task_entry_t) : Prop :=
  match op with TCreate _ _ _ => True | _ => forall t, m !! op_id op = Some t -> ongoing t end.

(** C26: The task manager is a map from ids to tasks: every operation that
    creates a task under an id of at most 63 bytes, or that changes a task
    that has not ended (it is working or waits for input), keeps the
    invariant, returns the status the map calls for (or MCP_ERR_NOMEM after
    a refused allocation), changes exactly the task it names as documented
    (a status message is cut to 255 bytes), takes over the value it is given and frees the one it replaces; a failed
    operation changes nothing and leaves the value to its caller. *)
Theorem tasks_refine op mgr h st mgr' h' :
  mgr_inv mgr -> op_ok op -> transition_ok op (tmap mgr) -> task_run op mgr h = ((st, mgr'), h') ->
  mgr_inv mgr' /\
  ((st = MCP_OK /\ op_status op (tmap mgr) = MCP_OK /\
    (exists t, tmap mgr' = <[op_id op := op_effect op t]> (tmap mgr) /\
       ((exists id ttl poll, op = TCreate id ttl poll) \/ (tmap mgr !! op_id op = Some t /\ ongoing t))) /\
    hstep h h' (mgr_blocks mgr' - mgr_blocks mgr - oblocks (op_value op))) \/
   (st <> MCP_OK /\ mgr' = mgr /\ hstep h h' 0 /\
    (st = op_status op (tmap mgr) \/ (st = MCP_ERR_NOMEM /\ ~ ample h)))).
Proof.
  intros Hinv Hok Htr H. assert ((exists id ttl poll, op = TCreate id ttl poll) \/ ~ (exists id ttl poll, op = TCreate id ttl poll))
    as [(id & ttl & poll & ->)|Hnc] by (destruct op; [left; eauto|right; intros (? & ? & ? & ?); discriminate..]).
  - apply create_spec in H as (Hinv' & Hs & [(-> & Hst & Ht)|(Hn & -> & Hst)]); [| |done..]; (split; [done|]).
    + left. split; [done|]. split; [done|]. split; [|cbn [op_value oblocks]; by rewrite Z.sub_0_r].
      eexists. split; [exact Ht|]. left. eauto.
    + right. split; [done|]. split; [done|]. split; [by rewrite Z.sub_diag in Hs|done].
  - assert (forall id ttl poll, op <> TCreate id ttl poll) as Hnc' by naive_solver.
    pose proof (run_update op mgr h st mgr' h' Hinv Hok Hnc' H) as Hrun.
    pose proof (find_task_spec mgr (op_id op) Hinv (proj1 Hok)) as Hf.
    destruct (find_task mgr (Some (op_id op))) as [i|].
    + destruct Hf as (t & Hi & Hid & Hm). destruct Hrun as (-> & -> & Hs).
      destruct (op_update op mgr i t Hinv Hok Hnc' Hi Hid) as (Hinv' & Ht' & Hb). split; [done|]. left. split; [done|].
      split; [by rewrite (op_status_found op (tmap mgr) Hnc'), Hm|].
      split; [exists t; split; [done|]; right; split; [done|]; destruct op; [by destruct (Hnc' id ttl poll)|by apply Htr..]|].
      rewrite Hb. eapply hstep_eq; [by apply Hs|lia].
    + destruct Hf as [_ Hm]. destruct Hrun as (-> & -> & ->). split; [done|]. right. split; [done|]. split; [done|].
      split; [hsolve|]. left. by rewrite (op_status_found op (tmap mgr) Hnc'), Hm.
Qed.

(** ** The JSON form *)

(** The members of the JSON form of a task. *)
Definition task_members (t : mcp_task_entry_t) : list (bytes * json) :=
  joset (cs "inputRequests") (erase <$> t_input_requests t)
  (joset (cs "error") (erase <$> t_error t)
  (joset (cs "result") (erase <$> t_result t)
  (joset (cs "statusMessage") (JString ∘ cstr <$> nonempty (status_message t))
  (joset (cs "pollIntervalMs") (JNumber ∘ double_of_Z <$> positive (poll_interval_ms t))
  (joset (cs "ttlMs") (JNumber ∘ double_of_Z <$> positive (ttl_ms t))
  (jinsert (cs "status") (JString (mcp_task_status_name (t_status t)))
  (jinsert (cs "taskId") (JString (cstr (task_id t))) []))))))).

Definition printable (t : mcp_task_entry_t) : Prop :=
  utf8_valid (cstr (task_id t)) = true /\ utf8_valid (cstr (status_message t)) = true.

Lemma positive_u64 z n : u64 z -> positive z = Some n -> u64 n.
Proof. unfold positive. by destruct (0 <? z); intros; simplify_eq. Qed.

Lemma status_name_good st : cstr (mcp_task_status_name st) = mcp_task_status_name st /\ utf8_valid (cstr (mcp_task_status_name st)) = true.
Proof. by destruct st. Qed.

Lemma task_json_attempt t :
  good_task t -> attempt (mcp_task_desc_to_json (Some t)) (JObject (task_members t)) (printable t).
Proof.
  intros (_ & _ & _ & _ & Httl & Hpoll & Hr & He & Hin). apply yields_attempt. cbn [mcp_task_desc_to_json].
  destruct (status_name_good (t_status t)) as [Hsn Hsu].
  eapply new_yields; [apply object_new_attempt|done|]. intros o Ho Ho'.
  put_step; [apply string_new_attempt|by destruct H|].
  put_step; [apply string_new_attempt|done|].
  put_step; [intros n Hn; apply u64_attempt, (positive_u64 _ _ Httl Hn)|done|].
  put_step; [intros n Hn; apply u64_attempt, (positive_u64 _ _ Hpoll Hn)|done|].
  put_step; [intros s Hs; apply string_new_attempt| |].
  { unfold nonempty in *. case_bool_decide; simplify_eq. by destruct select (printable t). }
  put_step; [intros v Hv; apply clone_attempt; by rewrite Hv in Hr|done|].
  put_step; [intros v Hv; apply clone_attempt; by rewrite Hv in He|done|].
  put_step; [intros v Hv; apply clone_attempt; by rewrite Hv in Hin|done|].
  rewrite Hsn in *. by apply ret_yields.
Qed.

Lemma get_spec mgr id :
  mgr_inv mgr -> has_nul id = false ->
  mcp_task_mgr_get mgr (Some id) =
  match tmap mgr !! id with Some t => (MCP_OK, Some t) | None => (MCP_ERR_NOT_FOUND, None) end.
Proof.
  intros Hinv Hn. pose proof (find_task_spec mgr id Hinv Hn) as Hf. cbn [mcp_task_mgr_get].
  destruct (find_task mgr (Some id)) as [i|]; [|destruct Hf as [_ Hm]; simpl; by rewrite Hm].
  destruct Hf as (t & Hi & _ & Hm). simpl. rewrite Hi, Hm.
  destruct (Forall_lookup_1 _ _ _ _ (mgr_good _ Hinv) Hi) as (G1 & G2 & G3 & G4 & _).
  unfold safe_copy_str, TASK_ID_SIZE, STATUS_MESSAGE_SIZE in *. rewrite !cstr_no_nul by done.
  rewrite !take_ge by lia. by destruct t.
Qed.

(** What a client reads of a task is the task: [mcp_task_mgr_get] finds
    exactly the tasks of the map, and [mcp_task_desc_to_json] of what it
    found is the object with the id, status name, times, message, result,
    error and input requests of the task, or NULL (with every block given
    back) when memory ran out or the id or message is not valid UTF-8. *)
Theorem task_read_back mgr id h r h' :
  mgr_inv mgr -> has_nul id = false ->
  mcp_task_desc_to_json (mcp_task_mgr_get mgr (Some id)).2 h = (r, h') ->
  match tmap mgr !! id with
  | None => mcp_task_mgr_get mgr (Some id) = (MCP_ERR_NOT_FOUND, None) /\ r = None /\ h' = h
  | Some t => mcp_task_mgr_get mgr (Some id) = (MCP_OK, Some t) /\ hstep h h' (oblocks r) /\
      match r with
      | Some v => wf v /\ erase v = JObject (task_members t)
      | None => ~ (ample h /\ printable t)
      end
  end.
Proof.
  intros Hinv Hn H. pose proof (find_task_spec mgr id Hinv Hn) as Hf. rewrite get_spec in H |- * by done.
  destruct (tmap mgr !! id) as [t|] eqn:Em; [|cbn [snd mcp_task_desc_to_json] in H; by minv H]. split; [done|].
  destruct (find_task mgr (Some id)) as [i|]; [|destruct Hf; congruence].
  destruct Hf as (t' & Hi & _ & Hm). assert (t' = t) as -> by congruence.
  by apply (task_json_attempt t (Forall_lookup_1 _ _ _ _ (mgr_good _ Hinv) Hi)).
Qed.

(** ** Faults *)

Definition long_id : bytes := replicate 64 "a"%byte.

(** Ids of 64 bytes and more are cut when stored but compared in full:
    creating the same id twice succeeds twice, and the task can never be
    found under the id it was created with. *)
Theorem long_id_lost :
  exists mgr h,
    (st <- mcp_task_mgr_create (TaskMgr [] 0) (Some long_id) 0 0 ;;
     mcp_task_mgr_create st.2 (Some long_id) 0 0) fresh_heap = ((MCP_OK, mgr), h) /\
    length (tasks mgr) = 2%nat /\ mcp_task_mgr_get mgr (Some long_id) = (MCP_ERR_NOT_FOUND, None).
Proof. eexists _, _. split; [vm_compute; reflexivity|]. split; [reflexivity|vm_compute; reflexivity]. Qed.

(** A finished task can still be cancelled: [mcp_task_mgr_cancel] sets
    the status of every task it finds, also of a completed or failed one. *)
Theorem cancel_finished mgr id t :
  mgr_inv mgr -> has_nul id = false -> tmap mgr !! id = Some t -> t_status t = MCP_TASK_STATUS_COMPLETED ->
  exists mgr' t', mcp_task_mgr_cancel mgr (Some id) = (MCP_OK, mgr') /\ tmap mgr' !! id = Some t' /\
    t_status t' = MCP_TASK_STATUS_CANCELLED /\ t_result t' = t_result t.
Proof.
  intros Hinv Hn Hm _. pose proof (find_task_spec mgr id Hinv Hn) as Hf. unfold mcp_task_mgr_cancel.
  destruct (find_task mgr (Some id)) as [i|]; [|destruct Hf; congruence]. destruct Hf as (t' & Hi & Hid & Hm').
  simplify_eq. assert (op_ok (TCancel (task_id t))) as Hok by done.
  destruct (op_update (TCancel (task_id t)) mgr i t Hinv Hok ltac:(done) Hi eq_refl) as (_ & Ht & _).
  exists (update_task mgr i (op_effect (TCancel (task_id t)))), (op_effect (TCancel (task_id t)) t). split; [done|].
  rewrite Ht. cbn [op_id]. by rewrite lookup_insert_eq.
Qed.

(** A message of 128 two-byte characters: its 255th byte is the first half of
    a character. *)
Definition wide_message : bytes := concat (replicate 128 [xc3; xa9]).

(** The status message is cut at 255 bytes, also inside a character:
    a valid UTF-8 message makes the task unreadable, its JSON form is NULL
    although memory is available. *)
Theorem message_cut :
  exists mgr t, utf8_valid wide_message = true /\
    mcp_task_mgr_set_status (TaskMgr [new_task (cs "t") 0 0] 8) (Some (cs "t")) MCP_TASK_STATUS_WORKING (Some wide_message)
      = (MCP_OK, mgr) /\
    mcp_task_mgr_get mgr (Some (cs "t")) = (MCP_OK, Some t) /\
    (mcp_task_desc_to_json (Some t) fresh_heap).1 = None.
Proof.
  eexists _, _. split; [vm_compute; reflexivity|]. split; [vm_compute; reflexivity|].
  split; [vm_compute; reflexivity|]. vm_compute. reflexivity.
Qed.

(** ** Witnesses *)

Definition done_task : mcp_task_entry_t := Task (cs "t") MCP_TASK_STATUS_COMPLETED 60000 500 (cs "ok") (Some (VBool true)) None None.

Definition one_task : mcp_task_mgr_t := TaskMgr [done_task] 8.

Lemma one_task_inv : mgr_inv one_task.
Proof.
  split; [|apply NoDup_singleton|simpl; lia]. apply Forall_singleton. unfold good_task, u64. simpl.
  unfold TASK_ID_SIZE, STATUS_MESSAGE_SIZE. repeat (split; [first [done|lia]|]). done.
Qed.

Definition busy_task : mcp_task_entry_t := Task (cs "t") MCP_TASK_STATUS_WORKING 60000 500 [] None None (Some (VBool true)).

Definition busy_mgr : mcp_task_mgr_t := TaskMgr [busy_task] 8.

Lemma busy_inv : mgr_inv busy_mgr.
Proof.
  split; [|apply NoDup_singleton|simpl; lia]. apply Forall_singleton. unfold good_task, u64. simpl.
  unfold TASK_ID_SIZE, STATUS_MESSAGE_SIZE. repeat (split; [first [done|lia]|]). done.
Qed.

Lemma tasks_refine_witness :
  exists st mgr' h', task_run (TSetError (cs "t") (Some VNull)) busy_mgr (Heap (fun _ => false) 0 4 false) = ((st, mgr'), h') /\
  mgr_inv mgr' /\
  ((st = MCP_OK /\ op_status (TSetError (cs "t") (Some VNull)) (tmap busy_mgr) = MCP_OK /\
    (exists t, tmap mgr' = <[cs "t" := op_effect (TSetError (cs "t") (Some VNull)) t]> (tmap busy_mgr) /\
       ((exists id ttl poll, TSetError (cs "t") (Some VNull) = TCreate id ttl poll) \/ (tmap busy_mgr !! cs "t" = Some t /\ ongoing t))) /\
    hstep (Heap (fun _ => false) 0 4 false) h' (mgr_blocks mgr' - mgr_blocks busy_mgr - 1)) \/
   (st <> MCP_OK /\ mgr' = busy_mgr /\ hstep (Heap (fun _ => false) 0 4 false) h' 0 /\
    (st = op_status (TSetError (cs "t") (Some VNull)) (tmap busy_mgr) \/
     (st = MCP_ERR_NOMEM /\ ~ ample (Heap (fun _ => false) 0 4 false))))).
Proof.
  eexists _, _, _. split; [vm_compute; reflexivity|].
  apply (tasks_refine (TSetError (cs "t") (Some VNull)) busy_mgr (Heap (fun _ => false) 0 4 false));
    [apply busy_inv|split; [reflexivity|split; exact I]| |vm_compute; reflexivity].
  intros t Ht. vm_compute in Ht. injection Ht as <-. by left.
Defined.

Lemma task_read_back_witness :
  exists r h', mcp_task_desc_to_json (mcp_task_mgr_get one_task (Some (cs "t"))).2 fresh_heap = (r, h') /\
  match tmap one_task !! cs "t" with
  | None => mcp_task_mgr_get one_task (Some (cs "t")) = (MCP_ERR_NOT_FOUND, None) /\ r = None /\ h' = fresh_heap
  | Some t => mcp_task_mgr_get one_task (Some (cs "t")) = (MCP_OK, Some t) /\ hstep fresh_heap h' (oblocks r) /\
      match r with
      | Some v => wf v /\ erase v = JObject (task_members t)
      | None => ~ (ample fresh_heap /\ printable t)
      end
  end.
Proof.
  eexists _, _. split; [apply surjective_pairing|].
  apply (task_read_back one_task (cs "t") fresh_heap); [apply one_task_inv|reflexivity|apply surjective_pairing].
Defined.

Lemma cancel_finished_witness :
  exists mgr' t', mcp_task_mgr_cancel one_task (Some (cs "t")) = (MCP_OK, mgr') /\ tmap mgr' !! cs "t" = Some t' /\
    t_status t' = MCP_TASK_STATUS_CANCELLED /\ t_result t' = t_result done_task.
Proof. apply (cancel_finished one_task (cs "t") done_task); [apply one_task_inv|reflexivity|reflexivity|reflexivity]. Defined.
