(* ===== verification/Skills.v ===== *)
(** * Skills (src/protocol/skills.c)

    The skill registry: a growing array of skills, each with its manifest of
    resources, looked up by name or uri, and the JSON form of a skill. *)
From S2P Require Import Prelude Heap Utf8 Double JsonValue JsonParse JsonSerialize JsonApi Schema Message Validate Builders.

Local Open Scope Z_scope.

Record mcp_skill_resource_t := SkillResource { sr_uri : bytes; sr_digest : bytes; sr_size : Z }.

Record mcp_skill_t := Skill {
  sk_name : bytes;
  sk_description : bytes;
  sk_uri : bytes;
  sk_frontmatter : option value;
  sk_resources : list mcp_skill_resource_t;
  sk_cap_resources : nat;
}.

Record mcp_skill_registry_t := SkillReg { skills : list mcp_skill_t; skill_capacity : nat }.

Definition skill_strdup (s : option bytes) : M (option bytes) := strdup s.

Definition skill_free (isnull : bool) : M unit := if isnull then ret tt else xfree false.

Definition mcp_skill_registry_new : M (option mcp_skill_registry_t) :=
  ok <- xmalloc ;; ret (if ok then Some (SkillReg [] 0) else None).

Fixpoint free_skill_resources (l : list mcp_skill_resource_t) : M unit :=
  match l with
  | [] => ret tt
  | _ :: l' => skill_free false ;; skill_free false ;; free_skill_resources l'
  end.

(** [free_skill_contents], the three strings being possibly NULL. *)
Definition free_skill_contents (name description uri : option bytes) (frontmatter : option value)
    (resources : list mcp_skill_resource_t) (cap : nat) : M unit :=
  skill_free (IdSet.is_null name) ;; skill_free (IdSet.is_null description) ;; skill_free (IdSet.is_null uri) ;;
  builtin_destroy frontmatter ;; free_skill_resources resources ;; skill_free (isnull0 cap).

Fixpoint free_skills (l : list mcp_skill_t) : M unit :=
  match l with
  | [] => ret tt
  | sk :: l' =>
      free_skill_contents (Some (sk_name sk)) (Some (sk_description sk)) (Some (sk_uri sk)) (sk_frontmatter sk)
        (sk_resources sk) (sk_cap_resources sk) ;;
      free_skills l'
  end.

Definition mcp_skill_registry_free (reg : option mcp_skill_registry_t) : M unit :=
  match reg with
  | None => ret tt
  | Some reg => free_skills (skills reg) ;; skill_free (isnull0 (skill_capacity reg)) ;; skill_free false
  end.

Definition skill_matches (key : bytes) (sk : mcp_skill_t) : bool := streq (sk_name sk) key || streq (sk_uri sk) key.

(** The index of the first match. *)
Fixpoint find_skill (l : list mcp_skill_t) (key : bytes) : option nat :=
  match l with
  | [] => None
  | sk :: l' => if skill_matches key sk then Some O else S <$> find_skill l' key
  end.

Definition mcp_skill_registry_find (reg : option mcp_skill_registry_t) (name_or_uri : option bytes)
    : option (nat * mcp_skill_t) :=
  match reg, name_or_uri with
  | Some reg, Some key =>
      match find_skill (skills reg) key with
      | None => None
      | Some i => pair i <$> skills reg !! i
      end
  | _, _ => None
  end.

(** [snprintf] of the default uri into 256 bytes. *)
Definition auto_uri (name : bytes) : bytes := take 255 (cs "skill://" ++ cstr name ++ cs "/SKILL.md").

Definition skill_uri (uri : option bytes) (name : bytes) : bytes :=
  match uri with
  | Some u => if bool_decide (cstr u = []) then auto_uri name else u
  | None => auto_uri name
  end.

(** The second half of [mcp_skill_registry_add], with room in the array. *)
Definition skill_store (reg : mcp_skill_registry_t) (name : bytes) (description uri : option bytes)
    (frontmatter : option value) : M (mcp_status_t * mcp_skill_registry_t) :=
  n <- skill_strdup (Some name) ;;
  d <- skill_strdup (Some (default [] description)) ;;
  u <- skill_strdup (Some (skill_uri uri name)) ;;
  match n, d, u with
  | Some n, Some d, Some u =>
      ret (MCP_OK, SkillReg (skills reg ++ [Skill n d u frontmatter [] 0]) (skill_capacity reg))
  | _, _, _ => free_skill_contents n d u frontmatter [] 0 ;; ret (MCP_ERR_NOMEM, reg)
  end.

Definition mcp_skill_registry_add (reg : option mcp_skill_registry_t) (name description uri : option bytes)
    (frontmatter : option value) : M (mcp_status_t * option mcp_skill_registry_t) :=
  match reg, name with
  | Some r, Some n =>
      if bool_decide (cstr n = []) then ret (MCP_ERR_INVALID_ARGUMENT, reg) else
      match mcp_skill_registry_find reg name with
      | Some _ => ret (MCP_ERR_ALREADY_EXISTS, reg)
      | None =>
          if Nat.eqb (length (skills r)) (skill_capacity r) then
            ok <- xrealloc (isnull0 (skill_capacity r)) ;;
            if negb ok then ret (MCP_ERR_NOMEM, reg) else
            s <- skill_store
                   (SkillReg (skills r) (if Nat.eqb (skill_capacity r) 0 then 8%nat else (skill_capacity r * 2)%nat))
                   n description uri frontmatter ;;
            ret (s.1, Some s.2)
          else
            s <- skill_store r n description uri frontmatter ;; ret (s.1, Some s.2)
      end
  | _, _ => ret (MCP_ERR_INVALID_ARGUMENT, reg)
  end.

(** The skill the pointer of [mcp_skill_registry_find] leads to. *)
Definition set_skill (reg : mcp_skill_registry_t) (i : nat) (sk : mcp_skill_t) : mcp_skill_registry_t :=
  SkillReg (<[i := sk]> (skills reg)) (skill_capacity reg).

Definition with_resources (sk : mcp_skill_t) (l : list mcp_skill_resource_t) (cap : nat) : mcp_skill_t :=
  Skill (sk_name sk) (sk_description sk) (sk_uri sk) (sk_frontmatter sk) l cap.

Definition resource_store (sk : mcp_skill_t) (res_uri : bytes) (digest : option bytes) (size : Z)
    : M (mcp_status_t * mcp_skill_t) :=
  u <- skill_strdup (Some res_uri) ;;
  d <- skill_strdup (Some (default [] digest)) ;;
  match u, d with
  | Some u, Some d =>
      ret (MCP_OK, with_resources sk (sk_resources sk ++ [SkillResource u d size]) (sk_cap_resources sk))
  | _, _ => skill_free (IdSet.is_null u) ;; skill_free (IdSet.is_null d) ;; ret (MCP_ERR_NOMEM, sk)
  end.

Definition mcp_skill_add_resource (reg : option mcp_skill_registry_t) (name_or_uri res_uri digest : option bytes) (size : Z)
    : M (mcp_status_t * option mcp_skill_registry_t) :=
  match reg, name_or_uri, res_uri with
  | Some r, Some _, Some ru =>
      match mcp_skill_registry_find reg name_or_uri with
      | None => ret (MCP_ERR_NOT_FOUND, reg)
      | Some (i, sk) =>
          if Nat.eqb (length (sk_resources sk)) (sk_cap_resources sk) then
            ok <- xrealloc (isnull0 (sk_cap_resources sk)) ;;
            if negb ok then ret (MCP_ERR_NOMEM, reg) else
            s <- resource_store (with_resources sk (sk_resources sk) (grow_cap (sk_cap_resources sk))) ru digest size ;;
            ret (s.1, Some (set_skill r i s.2))
          else
            s <- resource_store sk ru digest size ;; ret (s.1, Some (set_skill r i s.2))
      end
  | _, _, _ => ret (MCP_ERR_INVALID_ARGUMENT, reg)
  end.

Definition mcp_skill_registry_count (reg : option mcp_skill_registry_t) : nat :=
  match reg with Some reg => length (skills reg) | None => O end.

Definition mcp_skill_registry_get_at (reg : option mcp_skill_registry_t) (index : nat) : option mcp_skill_t :=
  match reg with Some reg => skills reg !! index | None => None end.

(** ** The JSON form *)

(** [mcp_json_object_set_take(obj, key, mk());] with the status ignored. *)
Definition put_ignore (obj : value) (key : bytes) (mk : M (option value)) : M value :=
  v <- mk ;; r <- object_set_take (Some obj) key v ;; ret (default obj r.2).

Definition skill_frontmatter (obj : value) (sk : mcp_skill_t) : M (option value) :=
  match sk_frontmatter sk with
  | Some v => put obj (cs "frontmatter") (json_clone (Some v)) discard (fun obj => ret (Some obj))
  | None =>
      fm <- builtin_new_object ;;
      match fm with
      | None => ret (Some obj)
      | Some fm =>
          fm <- put_ignore fm (cs "name") (string_new (sk_name sk)) ;;
          fm <- put_ignore fm (cs "description") (string_new (sk_description sk)) ;;
          obj <- put_ignore obj (cs "frontmatter") (ret (Some fm)) ;; ret (Some obj)
      end
  end.

Definition skill_resource_item (r : mcp_skill_resource_t) : M (option value) :=
  item <- builtin_new_object ;;
  match item with
  | None => ret None
  | Some item =>
      item <- put_ignore item (cs "uri") (string_new (sr_uri r)) ;;
      item <- put_ignore item (cs "digest") (string_new (sr_digest r)) ;;
      item <- put_ignore item (cs "size") (builtin_new_number (double_of_Z (sr_size r))) ;;
      ret (Some item)
  end.

(** The end of [mcp_skill_to_json]: [res_arr] is destroyed again after
    [mcp_json_object_set_take] has destroyed it. *)
Definition store_resources (obj arr : value) : M (option value) :=
  r <- object_set_take (Some obj) (cs "resources") (Some arr) ;;
  match r with
  | (MCP_OK, obj) => ret obj
  | (_, obj) => builtin_destroy (Some arr) ;; builtin_destroy obj ;; ret None
  end.

Definition mcp_skill_to_json (skill : option mcp_skill_t) : M (option value) :=
  match skill with
  | None => ret None
  | Some sk =>
      obj <- builtin_new_object ;;
      match obj with
      | None => ret None
      | Some obj =>
          put obj (cs "uri") (string_new (sk_uri sk)) discard (fun obj =>
          obj <- skill_frontmatter obj sk ;;
          match obj with
          | None => ret None
          | Some obj =>
              arr <- builtin_new_array ;;
              match arr with
              | None => discard obj
              | Some arr =>
                  append_all skill_resource_item (sk_resources sk) arr
                    (fun arr => builtin_destroy (Some arr) ;; discard obj)
                    (fun arr => store_resources obj arr)
              end
          end)
      end
  end.

(** ** What a registry stands for *)

Definition good_resource (r : mcp_skill_resource_t) : Prop :=
  has_nul (sr_uri r) = false /\ has_nul (sr_digest r) = false /\ u64 (sr_size r).

Definition good_skill (sk : mcp_skill_t) : Prop :=
  has_nul (sk_name sk) = false /\ has_nul (sk_description sk) = false /\ has_nul (sk_uri sk) = false /\
  owf (sk_frontmatter sk) /\ Forall good_resource (sk_resources sk) /\
  (length (sk_resources sk) <= sk_cap_resources sk)%nat.

Record skills_inv (reg : mcp_skill_registry_t) : Prop := SkillsInv {
  skills_good : Forall good_skill (skills reg);
  skills_room : (length (skills reg) <= skill_capacity reg)%nat;
}.

Definition skill_blocks (sk : mcp_skill_t) : Z :=
  3 + oblocks (sk_frontmatter sk) + 2 * Z.of_nat (length (sk_resources sk)) + buffer (sk_cap_resources sk).

Definition skills_blocks (l : list mcp_skill_t) : Z := foldr (fun sk n => skill_blocks sk + n) 0 l.

Definition registry_blocks (reg : mcp_skill_registry_t) : Z :=
  1 + buffer (skill_capacity reg) + skills_blocks (skills reg).

(** The skill a key leads to. *)
Definition lookup_skill (reg : mcp_skill_registry_t) (key : bytes) : option mcp_skill_t :=
  snd <$> mcp_skill_registry_find (Some reg) (Some key).

Lemma skills_blocks_app l1 l2 : skills_blocks (l1 ++ l2) = skills_blocks l1 + skills_blocks l2.
Proof. unfold skills_blocks. induction l1 as [|sk l IH]; simpl; [done|]. rewrite IH. lia. Qed.

Lemma skill_free_hstep b h u h' : skill_free b h = (u, h') -> hstep h h' (if b then 0 else -1).
Proof. unfold skill_free. intros H. destruct b; [minv H; apply hstep_refl|by apply xfree_hstep in H]. Qed.

Lemma free_resources_hstep l : forall h u h',
  free_skill_resources l h = (u, h') -> hstep h h' (- (2 * Z.of_nat (length l))).
Proof.
  induction l as [|r l IH]; intros h u h' H; cbn [free_skill_resources] in H; [minv H; apply hstep_refl|].
  apply bind_inv in H as (u1 & h1 & E1 & H). apply bind_inv in H as (u2 & h2 & E2 & H).
  apply skill_free_hstep in E1, E2. apply IH in H. cbn [length]. hsolve.
Qed.

Definition present {A} (p : option A) : Z := if p then 1 else 0.

Lemma free_contents_hstep n d u fm l c h x h' :
  free_skill_contents n d u fm l c h = (x, h') ->
  hstep h h' (- (present n + present d + present u + oblocks fm + 2 * Z.of_nat (length l) + buffer c)).
Proof.
  intros H. unfold free_skill_contents in H.
  apply bind_inv in H as (u1 & h1 & E1 & H). apply bind_inv in H as (u2 & h2 & E2 & H).
  apply bind_inv in H as (u3 & h3 & E3 & H). apply bind_inv in H as (u4 & h4 & E4 & H).
  apply bind_inv in H as (u5 & h5 & E5 & H).
  apply skill_free_hstep in E1, E2, E3, H. apply builtin_destroy_hstep in E4. apply free_resources_hstep in E5.
  eapply hstep_trans; [exact E1| |]; [eapply hstep_trans; [exact E2| |]; [eapply hstep_trans; [exact E3| |];
    [eapply hstep_trans; [exact E4| |]; [eapply hstep_trans; [exact E5|exact H|reflexivity]|reflexivity]|reflexivity]|reflexivity]|].
  unfold buffer, present, IdSet.is_null. destruct n, d, u; destruct (isnull0 c); lia.
Qed.

Lemma free_skills_hstep l : forall h u h', free_skills l h = (u, h') -> hstep h h' (- skills_blocks l).
Proof.
  induction l as [|sk l IH]; intros h u h' H; cbn [free_skills] in H; [minv H; apply hstep_refl|].
  apply bind_inv in H as (u1 & h1 & E1 & H). apply free_contents_hstep in E1. apply IH in H.
  eapply hstep_trans; [exact E1|exact H|]. change (skills_blocks (sk :: l)) with (skill_blocks sk + skills_blocks l).
  unfold skill_blocks, present. lia.
Qed.

Lemma registry_free_hstep reg h u h' :
  mcp_skill_registry_free (Some reg) h = (u, h') -> hstep h h' (- registry_blocks reg).
Proof.
  intros H. cbn [mcp_skill_registry_free] in H. apply bind_inv in H as (u1 & h1 & E1 & H).
  apply bind_inv in H as (u2 & h2 & E2 & H). apply free_skills_hstep in E1. apply skill_free_hstep in E2, H.
  unfold registry_blocks, buffer. destruct (isnull0 _); hsolve.
Qed.

(** ** Lookup *)

Lemma find_skill_app l1 l2 key :
  find_skill (l1 ++ l2) key =
  match find_skill l1 key with Some i => Some i | None => (Nat.add (length l1)) <$> find_skill l2 key end.
Proof.
  induction l1 as [|sk l IH]; cbn [find_skill app length]; [by destruct (find_skill l2 key)|].
  destruct (skill_matches key sk); [done|]. rewrite IH. destruct (find_skill l key); [done|]. by destruct (find_skill l2 key).
Qed.

Lemma find_skill_lookup l key i : find_skill l key = Some i -> exists sk, l !! i = Some sk /\ skill_matches key sk = true.
Proof.
  revert i. induction l as [|sk l IH]; intros i H; cbn [find_skill] in H; [done|].
  destruct (skill_matches key sk) eqn:E; [simplify_eq; by exists sk|].
  destruct (find_skill l key) as [j|]; [|done]. simpl in H. simplify_eq. by apply (IH j).
Qed.

Lemma lookup_skill_snoc l c c' sk key :
  lookup_skill (SkillReg (l ++ [sk]) c) key =
  match lookup_skill (SkillReg l c') key with
  | Some sk' => Some sk'
  | None => if skill_matches key sk then Some sk else None
  end.
Proof.
  unfold lookup_skill. cbn [mcp_skill_registry_find skills]. rewrite find_skill_app.
  destruct (find_skill l key) as [i|] eqn:E.
  - apply find_skill_lookup in E as (sk' & Hi & _). rewrite lookup_app_l by (by eapply lookup_lt_Some). by rewrite Hi.
  - cbn [find_skill]. destruct (skill_matches key sk); [|done]. simpl.
    rewrite Nat.add_0_r, lookup_app_r, Nat.sub_diag by lia. done.
Qed.

(** ** Adding a skill *)

(** The blocks [mcp_skill_registry_add] gives up on failure: after the array
    has room, the frontmatter. *)
Lemma store_spec reg name description uri fm h st reg' h' :
  skill_store reg name description uri fm h = ((st, reg'), h') ->
  (st = MCP_OK /\ hstep h h' (3) /\
   reg' = SkillReg (skills reg ++ [Skill (cstr name) (cstr (default [] description)) (cstr (skill_uri uri name)) fm [] 0])
            (skill_capacity reg)) \/
  (st = MCP_ERR_NOMEM /\ ~ ample h /\ reg' = reg /\ hstep h h' (- oblocks fm)).
Proof.
  intros H. unfold skill_store, skill_strdup in H.
  apply bind_inv in H as (n & h1 & E1 & H). apply bind_inv in H as (d & h2 & E2 & H).
  apply bind_inv in H as (u & h3 & E3 & H). apply strdup_spec in E1 as (S1 & V1 & A1), E2 as (S2 & V2 & A2), E3 as (S3 & V3 & A3).
  assert (forall k : M (mcp_status_t * mcp_skill_registry_t), (n = None \/ d = None \/ u = None) ->
    (free_skill_contents n d u fm [] 0 ;; ret (MCP_ERR_NOMEM, reg)) h3 = ((st, reg'), h') ->
    st = MCP_ERR_NOMEM /\ ~ ample h /\ reg' = reg /\ hstep h h' (- oblocks fm)) as Hfail.
  { intros _ Hnone H'. apply bind_inv in H' as (x & h4 & E4 & H'). minv H'. apply free_contents_hstep in E4. simplify_eq.
    split; [done|]. split; [|split; [done|]].
    - intros A. pose proof (ample_hstep _ _ _ S1 A) as Aa. pose proof (ample_hstep _ _ _ S2 Aa) as Ab.
      destruct (A1 A) as [? ->]; [done|]. destruct (A2 Aa) as [? ->]; [done|]. destruct (A3 Ab) as [? ->]; [done|].
      naive_solver.
    - eapply hstep_trans; [exact S1| |]; [eapply hstep_trans; [exact S2| |]; [eapply hstep_trans; [exact S3|exact E4|reflexivity]|reflexivity]|].
      unfold present. change (buffer 0) with 0. cbn [length]. destruct n, d, u; lia. }
  destruct n as [n|]; [|right; apply (Hfail (ret (st, reg'))); [by left|done]].
  destruct d as [d|]; [|right; apply (Hfail (ret (st, reg'))); [by right; left|done]].
  destruct u as [u|]; [|right; apply (Hfail (ret (st, reg'))); [by right; right|done]].
  minv H. simplify_eq. left. split; [done|]. split; [hsolve|].
  destruct (V1 n eq_refl) as (? & [= <-] & ->), (V2 d eq_refl) as (? & [= <-] & ->), (V3 u eq_refl) as (? & [= <-] & ->). done.
Qed.

Definition new_skill (name : bytes) (description uri : option bytes) (fm : option value) : mcp_skill_t :=
  Skill name (default [] description) (cstr (skill_uri uri name)) fm [] 0.

Definition no_nul (s : option bytes) : Prop := from_option (fun s => has_nul s = false) True s.

Lemma new_skill_good name description uri fm :
  has_nul name = false -> no_nul description -> owf fm -> good_skill (new_skill name description uri fm).
Proof.
  intros Hn Hd Hf. unfold good_skill, new_skill. cbn. split; [done|]. split; [by destruct description|].
  split; [apply has_nul_cstr|]. split; [done|]. split; [constructor|lia].
Qed.

Lemma new_skill_blocks name description uri fm : skills_blocks [new_skill name description uri fm] = 3 + oblocks fm.
Proof. change (skills_blocks [?x]) with (skill_blocks x + 0). unfold skill_blocks. cbn [new_skill sk_frontmatter sk_resources sk_cap_resources length]. change (buffer 0) with 0. lia. Qed.

(** The registry with a skill more, [c] being its capacity after growing. *)
Lemma add_stored reg c name description uri fm h st reg' h' :
  skill_store (SkillReg (skills reg) c) name description uri fm h = ((st, reg'), h') ->
  skills_inv reg -> has_nul name = false -> no_nul description -> owf fm -> (length (skills reg) < c)%nat ->
  skills_inv reg' /\
  ((st = MCP_OK /\ hstep h h' (skills_blocks (skills reg') - skills_blocks (skills reg) - oblocks fm) /\ skill_capacity reg' = c /\
    skills reg' = skills reg ++ [new_skill name description uri fm]) \/
   (st = MCP_ERR_NOMEM /\ ~ ample h /\ skills reg' = skills reg /\ skill_capacity reg' = c /\ hstep h h' (- oblocks fm))).
Proof.
  intros H [Hg _] Hn Hd Hf Hc. apply store_spec in H as [(-> & Hs & ->)|(-> & Hna & -> & Hs)].
  - rewrite (cstr_no_nul name Hn).
    assert (cstr (default [] description) = default [] description) as Hdd.
    { destruct description as [d|]; [by apply cstr_no_nul|done]. }
    rewrite Hdd. split; [split; cbn|left].
    + apply Forall_app. split; [done|]. apply Forall_singleton. by apply new_skill_good.
    + rewrite length_app. cbn. lia.
    + cbn [skills]. rewrite skills_blocks_app. fold (new_skill name description uri fm). rewrite new_skill_blocks.
      split_and!; [done| |done|done]. eapply hstep_eq; [exact Hs|]. lia.
  - split; [split; cbn; [done|lia]|]. right. by split_and!.
Qed.

Lemma streq_sym_eq a b : has_nul a = false -> has_nul b = false -> streq a b = bool_decide (b = a).
Proof. intros Ha Hb. rewrite streq_no_nul by done. apply bool_decide_ext. naive_solver. Qed.

(** What adding a skill does to the lookups. *)
Definition skill_added (reg reg' : mcp_skill_registry_t) (sk : mcp_skill_t) : Prop :=
  lookup_skill reg (sk_name sk) = None /\
  forall key, has_nul key = false ->
  lookup_skill reg' key =
  match lookup_skill reg key with
  | Some sk' => Some sk'
  | None => if bool_decide (key = sk_name sk \/ key = sk_uri sk) then Some sk else None
  end.

Lemma added_lookup reg c c' sk :
  good_skill sk -> lookup_skill (SkillReg (skills reg) c') (sk_name sk) = None ->
  skill_added reg (SkillReg (skills reg ++ [sk]) c) sk.
Proof.
  intros (Hn & _ & Hu & _) Hnone. split; [by destruct reg|]. intros key Hk. rewrite (lookup_skill_snoc _ _ c').
  replace (lookup_skill reg key) with (lookup_skill (SkillReg (skills reg) c') key) by (by destruct reg).
  destruct (lookup_skill _ key); [done|]. unfold skill_matches. rewrite !streq_sym_eq by done.
  by rewrite <- bool_decide_or.
Qed.

(** ** The JSON form of a skill *)

Lemma put_ignore_spec obj l key mk j ok h o h' :
  put_ignore obj key mk h = (o, h') -> wf obj -> erase obj = JObject l -> good_string key -> attempt mk j ok ->
  wf o /\ hstep h h' (blocks o - blocks obj) /\
  exists l', erase o = JObject l' /\ (ample h -> ok -> l' = jinsert key j l).
Proof.
  intros H Hw Hl Hk Hmk. unfold put_ignore in H. apply bind_inv in H as (v & h1 & E & H).
  apply bind_inv in H as ([st r] & h2 & E2 & H). minv H. destruct (Hmk _ _ _ E) as [Hs Hv]. destruct v as [v|].
  - destruct Hv as [Hwv He]. destruct (take_updates _ _ _ _ Hw Hl Hwv Hk _ _ _ _ E2) as (o & -> & Hwo & Hs2 & Hor).
    cbn [snd default]. split; [done|]. split; [simpl in *; hsolve|]. rewrite He in Hor. destruct Hor as [[_ Ho]|(_ & [l' Ho] & Hna)]; [by eauto|].
    exists l'. split; [done|]. intros A _. exfalso. apply Hna. split; [by eapply ample_hstep|done].
  - assert (r = Some obj /\ h2 = h1) as [-> ->].
    { unfold object_set_take, mcp_json_object_set_take in E2. apply bind_inv in E2 as ([st1 r1] & h3 & E3 & E2).
      destruct obj; try discriminate Hl. cbn in E3. minv E3. simplify_eq. cbn in E2. minv E2. by simplify_eq. }
    cbn [snd default]. split; [done|]. split; [simpl in *; hsolve|]. exists l. split; [done|]. intros A o. by destruct Hv.
Qed.

Definition resource_json (r : mcp_skill_resource_t) : json :=
  JObject [(cs "uri", JString (sr_uri r)); (cs "digest", JString (sr_digest r)); (cs "size", JNumber (double_of_Z (sr_size r)))].

Definition frontmatter_json (sk : mcp_skill_t) : json :=
  match sk_frontmatter sk with
  | Some v => erase v
  | None => JObject [(cs "name", JString (sk_name sk)); (cs "description", JString (sk_description sk))]
  end.

Definition skill_json (sk : mcp_skill_t) : json :=
  JObject [(cs "uri", JString (sk_uri sk)); (cs "frontmatter", frontmatter_json sk);
           (cs "resources", JArray (map resource_json (sk_resources sk)))].

(** Strings that can be stored in JSON. *)
Definition printable_resource (r : mcp_skill_resource_t) : Prop :=
  utf8_valid (sr_uri r) = true /\ utf8_valid (sr_digest r) = true.

Definition printable_skill (sk : mcp_skill_t) : Prop :=
  utf8_valid (sk_uri sk) = true /\ utf8_valid (sk_name sk) = true /\ utf8_valid (sk_description sk) = true /\
  Forall printable_resource (sk_resources sk).

Definition is_jobject (j : json) : Prop := exists l, j = JObject l.

Section json.
Context (pol : (nat -> bool) -> Prop) (exact : Prop) (Hexact : exact -> forall F, pol F -> never_refuses F).

(** An object, and exactly [j] where the policy never refuses. *)
Definition means (ok : Prop) (j : json) (v : value) : Prop := is_jobject (erase v) /\ (exact -> ok -> erase v = j).

Lemma exact_ample h : exact -> pol (fails h) -> ample h.
Proof. intros E P. by apply (Hexact E). Qed.

Lemma string_no_nul s : has_nul s = false -> attempt (string_new s) (JString s) (utf8_valid s = true).
Proof. intros Hn. pose proof (string_new_attempt s) as H. by rewrite (cstr_no_nul s Hn) in H. Qed.

Lemma resource_item_yields r :
  good_resource r ->
  yields pol blocks (fun v => wf v /\ means (printable_resource r) (resource_json r) v) False 0 True (skill_resource_item r).
Proof.
  intros (Hu & Hd & Hz). unfold skill_resource_item. eapply new_yields; [apply object_new_attempt|done|].
  intros o Hw Ho h r' h' Hp H.
  apply bind_inv in H as (o1 & h1 & E1 & H). apply bind_inv in H as (o2 & h2 & E2 & H).
  apply bind_inv in H as (o3 & h3 & E3 & H). minv H.
  eapply put_ignore_spec in E1 as (W1 & S1 & l1 & O1 & X1); [|done|done|lit|by apply string_no_nul].
  eapply put_ignore_spec in E2 as (W2 & S2 & l2 & O2 & X2); [|done|done|lit|by apply string_no_nul].
  eapply put_ignore_spec in E3 as (W3 & S3 & l3 & O3 & X3); [|done|done|lit|by apply u64_attempt].
  assert (hstep h h3 (blocks o3 - blocks o)) as Hs by hsolve.
  cbn [from_option]. split; [|split; [apply Hs|]].
  - intros _. eapply hstep_eq; [exact Hs|lia].
  - split; [done|]. split; [by exists l3|]. intros He [Pu Pd]. pose proof (exact_ample _ He Hp) as A.
    rewrite O3, (X3 (ample_hstep _ _ _ S2 (ample_hstep _ _ _ S1 A)) I), (X2 (ample_hstep _ _ _ S1 A) Pd), (X1 A Pu). done.
Qed.

(** The frontmatter is stored, or silently left out. *)
Lemma frontmatter_yields o l sk :
  good_skill sk -> wf o -> erase o = JObject l ->
  yields pol blocks
    (fun v => wf v /\ exists l', erase v = JObject l' /\
       (exact -> printable_skill sk -> l' = jinsert (cs "frontmatter") (frontmatter_json sk) l))
    False (blocks o + 0) True (skill_frontmatter o sk).
Proof.
  intros (Hn & Hd & _ & Hf & _) Hw Ho. unfold skill_frontmatter, frontmatter_json.
  destruct (sk_frontmatter sk) as [v|].
  - eapply put_yields; [by apply clone_attempt|done|done|done|lit|intros; apply discard_gives_up|].
    intros o' Hw' Ho' h r h' _ H. minv H. cbn [from_option]. split; [intros _; hsolve|]. split; [done|]. split; [done|]. by eauto.
  - intros h r h' Hp H. apply bind_inv in H as (fm & h1 & E & H). destruct (object_new_attempt _ _ _ E) as [S1 Hfm].
    destruct fm as [fm|].
    + destruct Hfm as [Wf Of]. apply bind_inv in H as (o1 & h2 & E1 & H). apply bind_inv in H as (o2 & h3 & E2 & H).
      apply bind_inv in H as (o3 & h4 & E3 & H). minv H.
      eapply put_ignore_spec in E1 as (W1 & S2 & l1 & O1 & X1); [|done|done|lit|by apply string_no_nul].
      eapply put_ignore_spec in E2 as (W2 & S3 & l2 & O2 & X2); [|done|done|lit|by apply string_no_nul].
      unfold put_ignore in E3. apply bind_inv in E3 as (v & h5 & Ev & E3). minv Ev.
      apply bind_inv in E3 as ([st r] & h6 & E4 & E3). minv E3.
      destruct (take_updates _ _ (cs "frontmatter") _ Hw Ho W2 ltac:(lit) _ _ _ _ E4) as (o4 & -> & Hw4 & S4 & Hor).
      cbn [snd from_option id]. assert (hstep h h6 (blocks o4 - blocks o)) as Hs by (simpl in *; hsolve).
      split; [intros _; eapply hstep_eq; [exact Hs|lia]|]. split; [apply Hs|]. split; [done|].
      destruct Hor as [[_ Ho4]|(_ & [l' Ho4] & Hna)]; (eexists; split; [exact Ho4|]).
      * intros He (_ & Pn & Pd & _). pose proof (ample_hstep _ _ _ S1 (exact_ample _ He Hp)) as A.
        rewrite O2, (X2 (ample_hstep _ _ _ S2 A) Pd), (X1 A Pn). done.
      * intros He _. exfalso. apply Hna. split; [|done]. pose proof (exact_ample _ He Hp) as A.
        by apply (ample_hstep _ _ _ S3), (ample_hstep _ _ _ S2), (ample_hstep _ _ _ S1).
    + minv H. cbn [from_option]. split; [intros _; simpl in *; hsolve|]. split; [apply S1|]. split; [done|].
      exists l. split; [done|]. intros He _. exfalso. apply Hfm. split; [|done]. by apply exact_ample.
Qed.

(** The last member; when it cannot be stored the array is destroyed twice. *)
Lemma store_resources_yields obj l arr (ok : Prop) :
  wf obj -> erase obj = JObject l -> wf arr ->
  yields pol blocks (fun v => wf v /\ erase v = JObject (jinsert (cs "resources") (erase arr) l)) False
    (blocks arr + (blocks obj + 0)) ok (store_resources obj arr).
Proof.
  intros Hw Ho Hwa h r h' Hp H. unfold store_resources in H. apply bind_inv in H as ([st r1] & h1 & E & H).
  destruct (take_updates _ _ (cs "resources") _ Hw Ho Hwa ltac:(lit) _ _ _ _ E) as (o & -> & Hwo & Hs & [[-> He]|(Hn & _ & Hna)]).
  - minv H. cbn [from_option]. split; [intros _; hsolve|]. split; [apply Hs|done].
  - assert ((builtin_destroy (Some arr) ;; discard o) h1 = (r, h')) as H' by (by destruct st).
    refine (fail_yields _ _ _ h h1 (blocks arr + (blocks o + 0) - (blocks arr + (blocks obj + 0))) ok _
              (blocks arr + (blocks o + 0)) _ r h' _ (hstep_fails _ _ _ Hs) _ _ _ H').
    + intros [[]|A]. exfalso. by apply Hna.
    + lia.
    + intros [A _]. by apply Hna.
    + intros h2 r2 h3 H2. apply bind_inv in H2 as (u & h4 & E2 & H2). apply builtin_destroy_hstep in E2.
      destruct (discard_gives_up o _ _ _ H2) as [-> Hs3]. split; [done|]. eapply hstep_trans; [exact E2|exact Hs3|simpl; lia].
Qed.

Lemma skill_json_yields sk :
  good_skill sk ->
  yields pol blocks (fun v => wf v /\ means (printable_skill sk) (skill_json sk) v) False 0 (utf8_valid (sk_uri sk) = true)
    (mcp_skill_to_json (Some sk)).
Proof.
  intros Hg. pose proof Hg as (_ & _ & Hu & _ & Hr & _). cbn [mcp_skill_to_json].
  eapply new_yields; [apply object_new_attempt|done|]. intros o Hw Ho.
  eapply put_yields; [by apply string_no_nul|done|done|done|lit|intros; apply discard_gives_up|]. intros o1 Hw1 Ho1.
  intros h r h' Hp H. apply bind_inv in H as (v & h1 & E & H).
  destruct (frontmatter_yields o1 _ sk Hg Hw1 Ho1 _ _ _ Hp E) as (Hs & Hf & Hv). destruct v as [v|].
  2: { minv H. cbn [from_option] in *. split; [|split; [done|]].
       - done.
       - intros [A _]. by apply Hv. }
  destruct Hv as (Hwv & l' & Hl' & Hexv).
  assert (False \/ ample h -> hstep h h1 (blocks v - (blocks o1 + 0))) as Hs' by done.
  eapply (step_yields pol _ _ _ h h1 _ _ _ (blocks v + 0)); [exact Hs'|exact Hf|lia|done| |exact H].
  eapply first_yields; [apply array_new_attempt|done|apply discard_gives_up|]. intros arr Hwa Ha.
  eapply (append_all_yields _ _ _ _ (fun r => means (printable_resource r) (resource_json r)) _ (fun _ => True)); [|done|done|done| |].
  - intros r0 Hin. apply resource_item_yields. rewrite Forall_forall in Hr. by apply Hr.
  - intros arr' _ h2 r2 h3 H2. apply bind_inv in H2 as (u & h4 & E2 & H2). apply builtin_destroy_hstep in E2.
    destruct (discard_gives_up v _ _ _ H2) as [-> Hs3]. split; [done|]. eapply hstep_trans; [exact E2|exact Hs3|simpl; lia].
  - intros arr' vs Hwa' Ha' Hvs h2 r2 h3 Hp2 H2.
    destruct (store_resources_yields v _ arr' (utf8_valid (sk_uri sk) = true) Hwv Hl' Hwa' _ _ _ Hp2 H2) as (Q1 & Q2 & Q3).
    split; [done|]. split; [done|]. destruct r2 as [v2|]; [|done]. destruct Q3 as [Hw2 He2]. split; [done|].
    split; [by eexists|]. intros He Hpr. rewrite He2, (Hexv He Hpr), Ha'. destruct Hpr as (_ & _ & _ & Hpr).
    assert (map erase vs = map resource_json (sk_resources sk)) as ->; [|done].
    clear -Hvs Hpr He. induction Hvs as [|r v l vs [_ Hm] _ IH]; [done|]. apply Forall_cons in Hpr as [? ?]. simpl. by rewrite Hm, IH.
Qed.
End json.

(** ** Claims *)

(** Adding a skill refines the lookup by name or uri: it succeeds only
    under a name no lookup finds, afterwards every key that led to a skill
    still leads to it and the name and the uri of the new skill, unless
    taken, lead to the new one; a duplicate name is refused without a trace;
    a failed allocation leaves every lookup as it was.  The invariant of the
    registry is kept. *)
Theorem skill_add_refines reg name description uri fm h st r h' :
  skills_inv reg -> has_nul name = false -> name <> [] -> no_nul description -> owf fm ->
  mcp_skill_registry_add (Some reg) (Some name) description uri fm h = ((st, r), h') ->
  exists reg', r = Some reg' /\ skills_inv reg' /\
  match st with
  | MCP_OK => skill_added reg reg' (new_skill name description uri fm) /\
      hstep h h' (registry_blocks reg' - registry_blocks reg - oblocks fm)
  | MCP_ERR_ALREADY_EXISTS => is_Some (lookup_skill reg name) /\ reg' = reg /\ h' = h
  | MCP_ERR_NOMEM => ~ ample h /\ skills reg' = skills reg
  | _ => False
  end.
Proof.
  intros Hinv Hn Hne Hd Hf H. cbn [mcp_skill_registry_add] in H.
  rewrite bool_decide_false in H by (by rewrite cstr_no_nul). destruct (mcp_skill_registry_find _ _) as [[i sk]|] eqn:Efind.
  { minv H. simplify_eq. exists reg. unfold lookup_skill. rewrite Efind. by split_and!. }
  assert (forall c, lookup_skill (SkillReg (skills reg) c) name = None) as Hnone.
  { intros c. unfold lookup_skill. cbn [mcp_skill_registry_find skills] in *. by rewrite Efind. }
  pose proof (new_skill_good name description uri fm Hn Hd Hf) as Hgood. pose proof (skills_room _ Hinv) as Hroom.
  destruct (Nat.eqb _ _) eqn:Ecap; bool_props.
  - apply bind_inv in H as (ok & h1 & E & H). pose proof E as E'. apply xrealloc_hstep in E. destruct ok; cbn [negb] in H.
    + apply bind_inv in H as ([st1 reg'] & h2 & E2 & H). minv H. cbn [fst snd] in *. simplify_eq.
      eapply (add_stored reg) in E2 as (Hinv' & [(-> & Hs & Hc & Hl)|(-> & Hna & Hl & Hc & Hs)]); [| |done..|destruct (Nat.eqb (skill_capacity reg) 0) eqn:Ez; bool_props; lia].
      * exists reg'. split; [done|]. split; [done|]. destruct reg' as [l' c']. cbn in Hl, Hc. subst l'.
        split; [eapply added_lookup; [done|apply (Hnone O)]|]. eapply hstep_trans; [exact E|exact Hs|].
        unfold registry_blocks. cbn [skills skill_capacity] in *. subst c'. unfold buffer, isnull0.
        destruct (Nat.eqb (skill_capacity reg) 0) eqn:Ez; bool_props; [cbn; lia|].
        rewrite (proj2 (Nat.eqb_neq (skill_capacity reg * 2) 0)) by lia. lia.
      * exists reg'. split_and!; [done|done| |done]. intros A. apply Hna. by eapply ample_hstep.
    + minv H. simplify_eq. exists reg. split_and!; [done|done| |done]. intros A. by apply xrealloc_ample_inv in E'.
  - apply bind_inv in H as ([st1 reg'] & h2 & E2 & H). minv H. cbn [fst snd] in *. simplify_eq.
    replace reg with (SkillReg (skills reg) (skill_capacity reg)) in E2 by (by destruct reg).
    apply (add_stored reg) in E2 as (Hinv' & [(-> & Hs & Hc & Hl)|(-> & Hna & Hl & Hc & Hs)]); [| |done..|lia].
    + exists reg'. split; [done|]. split; [done|]. destruct reg' as [l' c']. cbn in Hl, Hc. subst l'.
      split; [eapply added_lookup; [done|apply (Hnone O)]|]. eapply hstep_eq; [exact Hs|].
      unfold registry_blocks. cbn [skills skill_capacity] in *. subst c'. lia.
    + exists reg'. by split_and!.
Qed.

(** The JSON form of a skill: where memory is available and its strings
    are UTF-8, [mcp_skill_to_json] gives exactly its uri, its frontmatter
    (its name and description when it has none) and its manifest in order,
    taking as many blocks as the value owns. *)
Theorem skill_to_json_exact sk h r h' :
  good_skill sk -> printable_skill sk -> ample h -> mcp_skill_to_json (Some sk) h = (r, h') ->
  exists v, r = Some v /\ wf v /\ erase v = skill_json sk /\ hstep h h' (blocks v).
Proof.
  intros Hg Hp A H.
  destruct (skill_json_yields never_refuses True (fun _ F HF => HF) sk Hg h r h' A H) as (Hs & _ & Hr). destruct Hp as [Hu Hp].
  destruct r as [v|]; [|by destruct Hr]. destruct Hr as (Hw & _ & He). exists v. split; [done|]. split; [done|].
  split; [by apply He|]. eapply hstep_eq; [apply Hs; by right|simpl; lia].
Qed.

(** The header says that the frontmatter is the caller's unless the call
    returns MCP_OK.  With no memory for the array that holds; with no memory
    for a string the frontmatter is destroyed: the caller cannot tell. *)
Theorem skill_add_ownership :
  exists h1 h2 r1 r2,
    mcp_skill_registry_add (Some (SkillReg [] 0)) (Some (cs "a")) None None (Some VNull)
      (Heap (fun k => Nat.eqb k 0) 0 2 false) = ((MCP_ERR_NOMEM, r1), h1) /\ live h1 = 2 /\
    mcp_skill_registry_add (Some (SkillReg [] 0)) (Some (cs "a")) None None (Some VNull)
      (Heap (fun k => Nat.eqb k 2) 0 2 false) = ((MCP_ERR_NOMEM, r2), h2) /\ live h2 = 2 + 1 - 1.
Proof.
  eexists _, _, _, _. split; [vm_compute; reflexivity|]. split; [reflexivity|]. split; [vm_compute; reflexivity|reflexivity].
Qed.

Definition tiny_skill : mcp_skill_t := Skill (cs "a") (cs "b") (cs "u") (Some VNull) [] 0.

(** When the manifest cannot be stored, [mcp_skill_to_json] destroys it a
    second time: one block more is freed than was allocated. *)
Theorem skill_json_double_free :
  exists h', mcp_skill_to_json (Some tiny_skill) (Heap (fun k => Nat.eqb k 9) 0 5 false) = (None, h') /\ live h' = 4.
Proof. eexists. split; [vm_compute; reflexivity|reflexivity]. Qed.

(** ** Witnesses *)

Definition one_skill : mcp_skill_registry_t :=
  SkillReg [Skill (cs "review") (cs "d") (cs "skill://review") None [SkillResource (cs "f") (cs "0") 7] 4] 8.

Lemma one_skill_inv : skills_inv one_skill.
Proof.
  split; [|cbn; lia]. apply Forall_singleton. unfold good_skill. cbn [sk_name sk_description sk_uri sk_frontmatter sk_resources sk_cap_resources].
  split_and!; [reflexivity..|exact I| |cbn; lia]. apply Forall_singleton. split; [reflexivity|split; [reflexivity|unfold u64; cbn [sr_size]; lia]].
Qed.

Lemma skill_add_refines_witness :
  exists st r h', mcp_skill_registry_add (Some one_skill) (Some (cs "lint")) None None None fresh_heap = ((st, r), h') /\
  exists reg', r = Some reg' /\ skills_inv reg' /\
  match st with
  | MCP_OK => skill_added one_skill reg' (new_skill (cs "lint") None None None) /\
      hstep fresh_heap h' (registry_blocks reg' - registry_blocks one_skill - oblocks None)
  | MCP_ERR_ALREADY_EXISTS => is_Some (lookup_skill one_skill (cs "lint")) /\ reg' = one_skill /\ h' = fresh_heap
  | MCP_ERR_NOMEM => ~ ample fresh_heap /\ skills reg' = skills one_skill
  | _ => False
  end.
Proof.
  eexists _, _, _. split; [rewrite <- !surjective_pairing; reflexivity|].
  apply (skill_add_refines one_skill (cs "lint") None None None fresh_heap);
    [apply one_skill_inv|reflexivity|discriminate|exact I|exact I|rewrite <- !surjective_pairing; reflexivity].
Defined.

Definition review_skill : mcp_skill_t := Skill (cs "review") (cs "d") (cs "skill://review") None [SkillResource (cs "f") (cs "0") 7] 4.

Lemma skill_to_json_exact_witness :
  exists r h', mcp_skill_to_json (Some review_skill) fresh_heap = (r, h') /\
  exists v, r = Some v /\ wf v /\ erase v = skill_json review_skill /\ hstep fresh_heap h' (blocks v).
Proof.
  eexists _, _. split; [apply surjective_pairing|].
  apply (skill_to_json_exact review_skill fresh_heap);
    [apply (Forall_inv (skills_good _ one_skill_inv))| |apply fresh_ample|apply surjective_pairing].
  split_and!; [vm_compute; reflexivity..|]. apply Forall_singleton. split; vm_compute; reflexivity.
Defined.
