(* ===== verification/Mrtr.v ===== *)
(** * Multi round-trip requests (src/protocol/mrtr.c)

    The payloads of a tool call that asks the client for input and is then
    repeated with the answers: builders and readers. *)
From S2P Require Import Prelude Heap Utf8 Double JsonValue JsonParse JsonSerialize JsonApi Schema Message Validate Builders.

Local Open Scope Z_scope.

Definition MCP_MRTR_RESULT_TYPE_INPUT_REQUIRED : bytes := cs "input_required".

(** [if (!set_str(ctx, obj, key, val, also_destroy)) { return NULL; } k]: on
    failure [also_destroy] and the object are destroyed. *)
Definition set_str (obj : value) (key val : bytes) (also_destroy : option value) (k : value -> M (option value))
    : M (option value) :=
  put obj key (string_new val) (fun obj => builtin_destroy also_destroy ;; discard obj) k.

(** [if (v != NULL && mcp_json_object_set_take(ctx, obj, key, v) != MCP_OK) {
    mcp_json_destroy(ctx, obj); return NULL; } k]. *)
Definition take_opt (obj : value) (key : bytes) (v : option value) (k : value -> M (option value)) : M (option value) :=
  match v with None => k obj | Some _ => chk (object_set_take (Some obj) key v) discard k end.

Definition mcp_mrtr_elicit_request_new (message mode : option bytes) (schema : option value) : M (option value) :=
  match message with
  | None => builtin_destroy schema ;; ret None
  | Some message =>
      obj <- builtin_new_object ;;
      match obj with
      | None => builtin_destroy schema ;; ret None
      | Some obj =>
          set_str obj (cs "message") message schema (fun obj =>
          let tail obj := take_opt obj (cs "requestedSchema") schema (fun obj => ret (Some obj)) in
          match mode with
          | None => tail obj
          | Some mode => set_str obj (cs "mode") mode schema tail
          end)
      end
  end.

Definition mcp_mrtr_elicit_request_url_mode_new (message url : option bytes) : M (option value) :=
  match message, url with
  | Some message, Some url =>
      obj <- builtin_new_object ;;
      match obj with
      | None => ret None
      | Some obj =>
          set_str obj (cs "mode") (cs "url") None (fun obj =>
          set_str obj (cs "message") message None (fun obj =>
          set_str obj (cs "url") url None (fun obj => ret (Some obj))))
      end
  | _, _ => ret None
  end.

Definition mcp_mrtr_elicit_request_get_url (elicit_req : option value) : option bytes :=
  match elicit_req with
  | None => None
  | Some _ =>
      let other := match builtin_get_string (builtin_object_get elicit_req (Some (cs "mode"))) with
                   | Some m => negb (streq m (cs "url"))
                   | None => false
                   end in
      if other then None else builtin_get_string (builtin_object_get elicit_req (Some (cs "url")))
  end.

Definition mcp_mrtr_result_input_required_new (input_requests : option value) (request_state : option bytes)
    : M (option value) :=
  match input_requests, request_state with
  | None, None => ret None
  | _, _ =>
      obj <- builtin_new_object ;;
      match obj with
      | None => builtin_destroy input_requests ;; ret None
      | Some obj =>
          set_str obj (cs "resultType") MCP_MRTR_RESULT_TYPE_INPUT_REQUIRED input_requests (fun obj =>
          take_opt obj (cs "inputRequests") input_requests (fun obj =>
          match request_state with
          | None => ret (Some obj)
          | Some rs => set_str obj (cs "requestState") rs None (fun obj => ret (Some obj))
          end))
      end
  end.

Definition mcp_mrtr_is_input_required (result : option value) : bool :=
  match result with
  | None => false
  | Some _ =>
      bool_decide (builtin_type_of result = MCP_JSON_OBJECT) &&
      match builtin_get_string (builtin_object_get result (Some (cs "resultType"))) with
      | Some s => streq s MCP_MRTR_RESULT_TYPE_INPUT_REQUIRED
      | None => false
      end
  end.

Definition mcp_mrtr_get_request_state (result : option value) : option bytes :=
  builtin_get_string (builtin_object_get result (Some (cs "requestState"))).

Definition mcp_mrtr_get_input_requests (result : option value) : option value :=
  builtin_object_get result (Some (cs "inputRequests")).

Inductive mcp_elicit_action_t := MCP_ELICIT_ACCEPT | MCP_ELICIT_REJECT | MCP_ELICIT_CANCEL.

Definition k_action_names (a : mcp_elicit_action_t) : bytes :=
  match a with
  | MCP_ELICIT_ACCEPT => cs "accept"
  | MCP_ELICIT_REJECT => cs "reject"
  | MCP_ELICIT_CANCEL => cs "cancel"
  end.

(** For an action of the enumeration. *)
Definition mcp_mrtr_input_response_new (action : mcp_elicit_action_t) (data : option value) : M (option value) :=
  obj <- builtin_new_object ;;
  match obj with
  | None => builtin_destroy data ;; ret None
  | Some obj =>
      set_str obj (cs "action") (k_action_names action) data (fun obj =>
      take_opt obj (cs "content") data (fun obj => ret (Some obj)))
  end.

(** ** Rules *)

Section rules.
Context (P : value -> Prop) (ok : Prop).
Notation builds_to := (yields any_policy blocks P True).

Lemma set_str_yields obj l key val also k g :
  wf obj -> erase obj = JObject l -> good_string key -> (ok -> utf8_valid (cstr val) = true) ->
  g = oblocks also ->
  (forall o, wf o -> erase o = JObject (jinsert key (JString (cstr val)) l) -> builds_to (blocks o + g) ok (k o)) ->
  builds_to (blocks obj + g) ok (set_str obj key val also k).
Proof.
  intros Hw Hl Hk Hv -> Hc. unfold set_str. eapply put_yields; [apply string_new_attempt|done|done|done|done| |done].
  intros o _ h r h' H. apply bind_inv in H as (u & h1 & E & H). apply builtin_destroy_hstep in E.
  destruct (discard_gives_up o _ _ _ H) as [-> Hs]. split; [done|]. eapply hstep_trans; [exact E|exact Hs|lia].
Qed.

Lemma take_opt_yields obj l key v k :
  wf obj -> erase obj = JObject l -> good_string key -> owf v ->
  (forall o, wf o -> erase o = JObject (joset key (erase <$> v) l) -> builds_to (blocks o + 0) ok (k o)) ->
  builds_to (blocks obj + oblocks v) ok (take_opt obj key v k).
Proof.
  intros Hw Hl Hk Hv Hc. destruct v as [v|]; cbn [take_opt oblocks]; [|by apply Hc].
  eapply yields_weaken; [| |eapply (chk_yields _ _ _ _ _ obj (blocks v) _ True discard k 0); [by apply take_updates|done|intros; apply discard_gives_up|done]]; [lia|done].
Qed.

(** The object is created first, [given] being destroyed on failure. *)
Lemma object_first given k :
  (forall o, wf o -> erase o = JObject [] -> builds_to (blocks o + oblocks given) ok (k o)) ->
  builds_to (oblocks given) ok
    (obj <- builtin_new_object ;; match obj with None => builtin_destroy given ;; ret None | Some obj => k obj end).
Proof.
  intros Hk. eapply first_yields; [apply object_new_attempt|done| |done].
  intros h r h' H. apply bind_inv in H as (u & h1 & E & H). minv H. apply builtin_destroy_hstep in E. by split.
Qed.
End rules.

(** ** Reading back *)

Definition jstring_of (j : option json) : option bytes := match j with Some (JString s) => Some s | _ => None end.

Lemma string_member v l key :
  erase v = JObject l -> good_string key -> wf v ->
  builtin_get_string (builtin_object_get (Some v) (Some key)) = jstring_of (jlookup key l).
Proof.
  intros Hv Hk Hw. rewrite <- (member_meaning v l key Hw Hv Hk). destruct (builtin_object_get _ _) as [[]|]; done.
Qed.

Lemma mcp_object_type v l : erase v = JObject l -> builtin_type_of (Some v) = MCP_JSON_OBJECT.
Proof. by destruct v. Qed.

(** ** Claims *)

Definition input_required_members (input_requests : option value) (request_state : option bytes) : list (bytes * json) :=
  joset (cs "requestState") (JString <$> request_state)
    (joset (cs "inputRequests") (erase <$> input_requests)
       [(cs "resultType", JString MCP_MRTR_RESULT_TYPE_INPUT_REQUIRED)]).

(** An input-required result reads back: [mcp_mrtr_result_input_required_new]
    takes over the requests, fails only without memory or for a state that is
    not UTF-8, and what it builds is recognised by
    [mcp_mrtr_is_input_required] and gives back the requests and the state. *)
Theorem input_required_roundtrip input_requests request_state h r h' :
  owf input_requests -> from_option (fun s => has_nul s = false) True request_state ->
  ~ (input_requests = None /\ request_state = None) ->
  mcp_mrtr_result_input_required_new input_requests request_state h = (r, h') ->
  hstep h h' (oblocks r - oblocks input_requests) /\
  match r with
  | Some v => wf v /\ mcp_mrtr_is_input_required (Some v) = true /\
      mcp_mrtr_get_request_state (Some v) = request_state /\
      erase <$> mcp_mrtr_get_input_requests (Some v) = erase <$> input_requests
  | None => ~ (ample h /\ from_option (fun s => utf8_valid s = true) True request_state)
  end.
Proof.
  intros Hin Hrs Hne H.
  assert (yields any_policy blocks (fun v => wf v /\ erase v = JObject (input_required_members input_requests request_state))
            True (oblocks input_requests) (from_option (fun s => utf8_valid s = true) True request_state)
            (mcp_mrtr_result_input_required_new input_requests request_state)) as Hy.
  { unfold mcp_mrtr_result_input_required_new. destruct input_requests as [ir|], request_state as [rs|]; [| | |naive_solver].
    all: apply object_first; intros o Hw Ho.
    all: eapply set_str_yields; [done|done|lit|done|done|]; intros o1 Hw1 Ho1.
    all: eapply take_opt_yields; [done|exact Ho1|lit|done|]; intros o2 Hw2 Ho2.
    2: by apply ret_yields.
    all: eapply (set_str_yields _ _ _ _ _ _ None _ 0); [done|exact Ho2|lit|by rewrite (cstr_no_nul rs Hrs)|done|].
    all: intros o3 Hw3 Ho3; rewrite (cstr_no_nul rs Hrs) in Ho3; by apply ret_yields. }
  destruct (Hy h r h' I H) as (Hs & _ & Hr). split; [eapply hstep_eq; [apply Hs; by left|by destruct r]|].
  destruct r as [v|]; [|done]. destruct Hr as [Hw He]. split; [done|]. unfold input_required_members in He.
  unfold mcp_mrtr_is_input_required, mcp_mrtr_get_request_state, mcp_mrtr_get_input_requests.
  rewrite (mcp_object_type _ _ He), (string_member _ _ (cs "resultType") He ltac:(lit) Hw),
    (string_member _ _ (cs "requestState") He ltac:(lit) Hw), (member_meaning _ _ (cs "inputRequests") Hw He ltac:(lit)).
  by destruct input_requests, request_state.
Qed.

(** A url elicitation reads back: the url given to
    [mcp_mrtr_elicit_request_url_mode_new] is what
    [mcp_mrtr_elicit_request_get_url] returns. *)
Theorem elicit_url_roundtrip message url h r h' :
  has_nul url = false ->
  mcp_mrtr_elicit_request_url_mode_new (Some message) (Some url) h = (r, h') ->
  hstep h h' (oblocks r) /\
  match r with
  | Some v => wf v /\ mcp_mrtr_elicit_request_get_url (Some v) = Some url
  | None => ~ (ample h /\ utf8_valid (cstr message) = true /\ utf8_valid url = true)
  end.
Proof.
  intros Hu H.
  assert (yields any_policy blocks
            (fun v => wf v /\ erase v = JObject [(cs "mode", JString (cs "url")); (cs "message", JString (cstr message)); (cs "url", JString url)])
            True 0 (utf8_valid (cstr message) = true /\ utf8_valid url = true)
            (mcp_mrtr_elicit_request_url_mode_new (Some message) (Some url))) as Hy.
  { cbn [mcp_mrtr_elicit_request_url_mode_new]. eapply new_yields; [apply object_new_attempt|done|]. intros o Hw Ho.
    eapply (set_str_yields _ _ _ _ _ _ None _ 0); [done|done|lit|done|done|]. intros o1 Hw1 Ho1.
    eapply (set_str_yields _ _ _ _ _ _ None _ 0); [done|exact Ho1|lit|by intros [? ?]|done|]. intros o2 Hw2 Ho2.
    eapply (set_str_yields _ _ _ _ _ _ None _ 0); [done|exact Ho2|lit|rewrite (cstr_no_nul url Hu); by intros [? ?]|done|]. intros o3 Hw3 Ho3.
    rewrite (cstr_no_nul url Hu) in Ho3. by apply ret_yields. }
  destruct (Hy h r h' I H) as (Hs & _ & Hr). split; [eapply hstep_eq; [apply Hs; by left|by destruct r; simpl; lia]|].
  destruct r as [v|]; [|done]. destruct Hr as [Hw He]. split; [done|]. unfold mcp_mrtr_elicit_request_get_url.
  rewrite (string_member _ _ (cs "mode") He ltac:(lit) Hw), (string_member _ _ (cs "url") He ltac:(lit) Hw). done.
Qed.

(** ** Witnesses *)

Lemma input_required_roundtrip_witness :
  exists r h', mcp_mrtr_result_input_required_new (Some VNull) (Some (cs "s")) fresh_heap = (r, h') /\
  hstep fresh_heap h' (oblocks r - oblocks (Some VNull)) /\
  match r with
  | Some v => wf v /\ mcp_mrtr_is_input_required (Some v) = true /\
      mcp_mrtr_get_request_state (Some v) = Some (cs "s") /\
      erase <$> mcp_mrtr_get_input_requests (Some v) = erase <$> Some VNull
  | None => ~ (ample fresh_heap /\ from_option (fun s => utf8_valid s = true) True (Some (cs "s")))
  end.
Proof.
  eexists _, _. split; [apply surjective_pairing|].
  apply (input_required_roundtrip (Some VNull) (Some (cs "s")) fresh_heap);
    [exact I|reflexivity|intros [? _]; discriminate|apply surjective_pairing].
Defined.

Lemma elicit_url_roundtrip_witness :
  exists r h', mcp_mrtr_elicit_request_url_mode_new (Some (cs "m")) (Some (cs "http://x")) fresh_heap = (r, h') /\
  hstep fresh_heap h' (oblocks r) /\
  match r with
  | Some v => wf v /\ mcp_mrtr_elicit_request_get_url (Some v) = Some (cs "http://x")
  | None => ~ (ample fresh_heap /\ utf8_valid (cstr (cs "m")) = true /\ utf8_valid (cs "http://x") = true)
  end.
Proof.
  eexists _, _. split; [apply surjective_pairing|].
  apply (elicit_url_roundtrip (cs "m") (cs "http://x") fresh_heap); [reflexivity|apply surjective_pairing].
Defined.
