(* ===== verification/UriTemplate.v ===== *)
(** * Matching URI templates (src/protocol/uri_template.c, lines 1-288)

    The parser of the expressions between braces, the backtracking matcher
    and the percent decoder; the matcher is proved equivalent to a
    declarative reading of a template. *)
From S2P Require Import Prelude Heap Utf8 JsonValue JsonApi Schema Message Builders.

Local Open Scope Z_scope.

Definition MAX_RAW_CAPTURES : nat := 64.

Inductive mcp_uri_modifier_t := MCP_URI_MOD_NONE | MCP_URI_MOD_PREFIX | MCP_URI_MOD_EXPLODE.

#[export] Instance modifier_eq_dec : EqDecision mcp_uri_modifier_t.
Proof. solve_decision. Defined.

(** The operators; the code has 0 for none and the character otherwise. *)
Inductive uri_op := OpNone | OpPlus | OpHash | OpSlash | OpDot | OpQuery.

#[export] Instance op_eq_dec : EqDecision uri_op.
Proof. solve_decision. Defined.

(** [prefix] and [is_query] of the struct follow from the operator. *)
Record parsed_var_expr_t := Expr {
  op : uri_op;
  name : bytes;
  is_reserved : bool;
  mod_ : mcp_uri_modifier_t;
  prefix_len : Z;
}.

Definition prefix (x : parsed_var_expr_t) : bytes :=
  match op x with
  | OpNone | OpPlus => []
  | OpHash => ["#"%byte]
  | OpSlash => ["/"%byte]
  | OpDot => ["."%byte]
  | OpQuery => ["?"%byte]
  end.

Definition is_query (x : parsed_var_expr_t) : bool := bool_decide (op x = OpQuery).

(** The pointers of the C struct as the strings they delimit. *)
Record raw_capture_t := Capture { cap_expr : parsed_var_expr_t; cap_val : bytes }.

(** ** Characters *)

Definition in_range (lo hi c : byte) : bool := (b2z lo <=? b2z c) && (b2z c <=? b2z hi).

Definition is_unreserved (c : byte) : bool :=
  in_range "a" "z" c || in_range "A" "Z" c || in_range "0" "9" c ||
  Byte.eqb c "-" || Byte.eqb c "." || Byte.eqb c "_" || Byte.eqb c "~".

Definition is_reserved_char (c : byte) : bool := existsb (Byte.eqb c) (cs ":/?#[]@!$&'()*+,;=").

Definition hex_digit (c : byte) : Z :=
  if in_range "0" "9" c then b2z c - b2z "0"
  else if in_range "a" "f" c then b2z c - b2z "a" + 10
  else if in_range "A" "F" c then b2z c - b2z "A" + 10
  else -1.

(** The loop of [url_decode]. *)
Fixpoint decode_chars (src : bytes) : bytes :=
  match src with
  | [] => []
  | c :: rest =>
      match rest with
      | a :: b :: rest2 =>
          if Byte.eqb c "%" && (0 <=? hex_digit a) && (0 <=? hex_digit b)
          then z2b (Z.lor (Z.shiftl (hex_digit a) 4) (hex_digit b)) :: decode_chars rest2
          else c :: decode_chars rest
      | _ => c :: decode_chars rest
      end
  end.

Definition url_decode (src : bytes) : M (option bytes) :=
  ok <- xmalloc ;; ret (if ok : bool then Some (decode_chars src) else None).

(** ** Expressions *)

Definition parse_op (c : byte) : uri_op :=
  if Byte.eqb c "+" then OpPlus else if Byte.eqb c "#" then OpHash else if Byte.eqb c "/" then OpSlash
  else if Byte.eqb c "." then OpDot else if Byte.eqb c "?" then OpQuery else OpNone.

(** The digits after the colon. *)
Fixpoint parse_len (s : bytes) (len_val : Z) : option Z :=
  match s with
  | [] => Some len_val
  | c :: s' =>
      if negb (in_range "0" "9" c) then None else
      let len_val := len_val * 10 + (b2z c - b2z "0") in
      if 999999 <? len_val then None else parse_len s' len_val
  end.

Definition parse_var_expr (e : bytes) : option parsed_var_expr_t :=
  match e with
  | [] => None
  | first :: tl =>
      let o := parse_op first in
      let rest := match o with OpNone => e | _ => tl end in
      let reserved := match o with OpPlus | OpHash => true | _ => false end in
      match rest with
      | [] => None
      | _ =>
          let colon := cut ":"%byte rest in
          if bool_decide (last rest = Some "*"%byte) then
            match colon with
            | Some _ => None
            | None =>
                let n := take (length rest - 1) rest in
                if bool_decide (n = []) then None else Some (Expr o n reserved MCP_URI_MOD_EXPLODE 0)
            end
          else
            match colon with
            | Some (n, num) =>
                if bool_decide (n = []) then None else
                if bool_decide (num = []) then None else
                match parse_len num 0 with
                | None => None
                | Some len_val => if len_val =? 0 then None else Some (Expr o n reserved MCP_URI_MOD_PREFIX len_val)
                end
            | None => Some (Expr o rest reserved MCP_URI_MOD_NONE 0)
            end
      end
  end.

(** ** The matcher *)

(** The loop over the literal characters: what is left of both strings. *)
Fixpoint match_literals (p u : bytes) : option (bytes * bytes) :=
  match p with
  | [] => Some ([], u)
  | c :: p' =>
      if Byte.eqb c "{" then Some (p, u) else
      match u with
      | d :: u' => if Byte.eqb c d then match_literals p' u' else None
      | [] => None
      end
  end.

(** [s] without the prefix [pre]. *)
Fixpoint strip (pre s : bytes) : option bytes :=
  match pre, s with
  | [], _ => Some s
  | c :: pre, d :: s => if Byte.eqb c d then strip pre s else None
  | _, _ => None
  end.

(** What the operator demands before the value. *)
Definition lead (x : parsed_var_expr_t) : bytes :=
  prefix x ++ (if is_query x then name x ++ ["="%byte] else []).

Definition exploded (x : parsed_var_expr_t) : bool := bool_decide (mod_ x = MCP_URI_MOD_EXPLODE).
Definition prefixed (x : parsed_var_expr_t) : bool := bool_decide (mod_ x = MCP_URI_MOD_PREFIX).

Definition mem (c : byte) (s : bytes) : bool := existsb (Byte.eqb c) s.

(** The tests on a value that reaches to the end. *)
Definition last_ok (x : parsed_var_expr_t) (val : bytes) : bool :=
  negb (negb (is_reserved x) && negb (exploded x) && mem "/" val) &&
  negb (is_query x && negb (exploded x) && mem "&" val) &&
  negb (prefixed x && (prefix_len x <? Z.of_nat (length val))).

(** The tests that end the loop over the lengths: [c] is [u_val[len - 1]]. *)
Definition stops (x : parsed_var_expr_t) (c : byte) : bool :=
  (negb (is_reserved x) && negb (exploded x) && Byte.eqb c "/") ||
  (is_query x && negb (exploded x) && (Byte.eqb c "&" || Byte.eqb c "#")).

(** The loop over the lengths of the value: [val] is the value tried, [u]
    what follows it, [n] how many more bytes it may take. *)
Fixpoint try_lengths {A} (x : parsed_var_expr_t) (k : bytes -> bytes -> option A) (val u : bytes) (n : nat) {struct n} : option A :=
  match k val u with
  | Some r => Some r
  | None =>
      match u, n with
      | c :: u', S n => if stops x c then None else try_lengths x k (val ++ [c]) u' n
      | _, _ => None
      end
  end.

Definition max_len (x : parsed_var_expr_t) (u_val : bytes) : nat :=
  if prefixed x && (prefix_len x <? Z.of_nat (length u_val)) then Z.to_nat (prefix_len x) else length u_val.

Definition add_capture (caps : list raw_capture_t) (c : raw_capture_t) : option (list raw_capture_t) :=
  if Nat.ltb (length caps) MAX_RAW_CAPTURES then Some (caps ++ [c]) else None.

(** [fuel] bounds the number of expressions; a pattern has no more than
    characters. *)
Fixpoint match_step (fuel : nat) (p u : bytes) (caps : list raw_capture_t) : option (list raw_capture_t) :=
  match fuel with
  | O => None
  | S fuel =>
      match match_literals p u with
      | None => None
      | Some ([], u) => if bool_decide (u = []) then Some caps else None
      | Some (_ :: p, u) =>
          match cut "}"%byte p with
          | None => None
          | Some (e, next_p) =>
              match parse_var_expr e with
              | None => None
              | Some x =>
                  match strip (lead x) u with
                  | None => None
                  | Some u_val =>
                      match next_p with
                      | [] => if last_ok x u_val then add_capture caps (Capture x u_val) else None
                      | _ =>
                          try_lengths x (fun val u =>
                            match add_capture caps (Capture x val) with
                            | Some caps => match_step fuel next_p u caps
                            | None => None
                            end) [] u_val (max_len x u_val)
                      end
                  end
              end
          end
      end
  end.

(** The validation loop over the pattern. *)
Fixpoint valid_pattern (fuel : nat) (p : bytes) : bool :=
  match fuel with
  | O => false
  | S fuel =>
      match p with
      | [] => true
      | c :: p' =>
          if Byte.eqb c "{" then
            match cut "}"%byte p' with
            | None => false
            | Some (e, rest) =>
                match parse_var_expr e with None => false | Some _ => valid_pattern fuel rest end
            end
          else if Byte.eqb c "}" then false
          else valid_pattern fuel p'
      end
  end.

Example match_two : exists caps,
  match_step 100 (cs "/u/{id}/files{/path*}{?q}") (cs "/u/7/files/a/b?q=x%20y") [] = Some caps /\
  map (fun c => (name (cap_expr c), decode_chars (cap_val c))) caps = [(cs "id", cs "7"); (cs "path", cs "a/b"); (cs "q", cs "x y")].
Proof. eexists. split; vm_compute; reflexivity. Qed.

(** ** What a template means *)

Inductive token := Lit (c : byte) | Var (x : parsed_var_expr_t).

Inductive template : bytes -> list token -> Prop :=
| template_nil : template [] []
| template_lit c p ts : c <> "{"%byte -> c <> "}"%byte -> template p ts -> template (c :: p) (Lit c :: ts)
| template_var e p x ts :
    "}"%byte ∉ e -> parse_var_expr e = Some x -> template p ts -> template ("{"%byte :: e ++ "}"%byte :: p) (Var x :: ts).

(** A value of a variable that is, or is not, at the end of the template. *)
Record value_ok (x : parsed_var_expr_t) (final : bool) (val : bytes) : Prop := ValueOk {
  ok_slash : is_reserved x = false -> mod_ x <> MCP_URI_MOD_EXPLODE -> "/"%byte ∉ val;
  ok_amp : op x = OpQuery -> mod_ x <> MCP_URI_MOD_EXPLODE -> "&"%byte ∉ val;
  ok_hash : op x = OpQuery -> mod_ x <> MCP_URI_MOD_EXPLODE -> final = false -> "#"%byte ∉ val;
  ok_len : mod_ x = MCP_URI_MOD_PREFIX -> Z.of_nat (length val) <= prefix_len x;
}.

Definition is_final (ts : list token) : bool := match ts with [] => true | _ => false end.

(** The uri is the template with values for its variables. *)
Inductive tmatch : list token -> bytes -> list raw_capture_t -> Prop :=
| tmatch_nil : tmatch [] [] []
| tmatch_lit c ts u caps : tmatch ts u caps -> tmatch (Lit c :: ts) (c :: u) caps
| tmatch_var x ts val u caps :
    value_ok x (is_final ts) val -> tmatch ts u caps -> tmatch (Var x :: ts) (lead x ++ val ++ u) (Capture x val :: caps).

Lemma mem_spec c s : mem c s = true <-> c ∈ s.
Proof.
  unfold mem. rewrite existsb_exists. split.
  - intros (d & Hd & He). apply byte_eqb_eq in He as ->. by apply list_elem_of_In.
  - intros H. exists c. split; [by apply list_elem_of_In|apply byte_eqb_refl].
Qed.

Lemma mem_false c s : mem c s = false <-> c ∉ s.
Proof. rewrite <- mem_spec. by destruct (mem c s). Qed.

Lemma last_ok_iff x val : last_ok x val = true <-> value_ok x true val.
Proof.
  unfold last_ok, exploded, prefixed, is_query. rewrite !andb_true_iff, !negb_true_iff. split.
  - intros [[H1 H2] H3]. split.
    + intros Hr Hm. rewrite Hr, bool_decide_false in H1 by done. by apply mem_false.
    + intros Hq Hm. rewrite bool_decide_true, bool_decide_false in H2 by done. by apply mem_false.
    + done.
    + intros Hp. rewrite bool_decide_true in H3 by done. cbn in H3. lia.
  - intros [H1 H2 _ H3]. split; [split|].
    + destruct (is_reserved x); [done|]. cbn [negb andb]. case_bool_decide; [done|]. apply mem_false. auto.
    + case_bool_decide; [|done]. cbn [andb]. case_bool_decide; [done|]. apply mem_false. auto.
    + case_bool_decide; [|done]. cbn [andb]. apply Z.ltb_ge. auto.
Qed.

Lemma stops_iff x val :
  value_ok x false val <-> Forall (fun c => stops x c = false) val /\ (mod_ x = MCP_URI_MOD_PREFIX -> Z.of_nat (length val) <= prefix_len x).
Proof.
  unfold stops, exploded, is_query. split.
  - intros [H1 H2 H3 H4]. split; [|done]. apply Forall_forall. intros c Hc. apply orb_false_iff. split.
    + destruct (is_reserved x); [done|]. cbn [negb andb]. case_bool_decide; [done|]. apply byte_eqb_neq. intros ->. by apply H1.
    + case_bool_decide; [|done]. cbn [andb]. case_bool_decide; [done|]. apply orb_false_iff.
      split; apply byte_eqb_neq; intros ->; [by apply H2|by apply H3].
  - intros [H H4]. rewrite Forall_forall in H. split; [..|done].
    + intros Hr Hm Hin. specialize (H _ Hin). rewrite Hr, bool_decide_false in H by done. by apply orb_false_iff in H as [H _].
    + intros Hq Hm Hin. specialize (H _ Hin). rewrite bool_decide_false, bool_decide_true in H by done. by apply orb_false_iff in H as [_ H].
    + intros Hq Hm _ Hin. specialize (H _ Hin). rewrite bool_decide_false, bool_decide_true in H by done. by apply orb_false_iff in H as [_ H].
Qed.

Lemma strip_some pre s r : strip pre s = Some r <-> s = pre ++ r.
Proof.
  revert s. induction pre as [|c pre IH]; intros s; cbn [strip app]; [naive_solver|]. destruct s as [|d s]; [done|].
  destruct (Byte.eqb c d) eqn:E.
  - apply byte_eqb_eq in E as ->. rewrite IH. naive_solver.
  - split; [done|]. intros [= -> _]. by rewrite byte_eqb_refl in E.
Qed.

Lemma strip_none pre s : strip pre s = None -> forall r, s <> pre ++ r.
Proof. intros H r Hs. apply strip_some in Hs. congruence. Qed.

(** ** Literals *)

Lemma match_lit_spec p ts : template p ts -> forall u,
  match match_literals p u with
  | None => forall caps, ~ tmatch ts u caps
  | Some (p', u') => exists ts', template p' ts' /\ (length p' <= length p)%nat /\
      (p' = [] \/ exists q, p' = "{"%byte :: q) /\ (forall caps, tmatch ts u caps <-> tmatch ts' u' caps)
  end.
Proof.
  induction 1 as [|c p ts Hc Hc' Ht IH|e p x ts He Hx Ht IH]; intros u; cbn [match_literals].
  - exists []. split; [constructor|]. split; [done|]. split; [by left|done].
  - assert (Byte.eqb c "{" = false) as -> by (by apply byte_eqb_neq). destruct u as [|d u]; [by inversion 1|].
    destruct (Byte.eqb c d) eqn:E; [|intros caps Hm; inversion Hm; subst; by rewrite byte_eqb_refl in E].
    apply byte_eqb_eq in E as ->. specialize (IH u). destruct (match_literals p u) as [[p' u']|].
    + destruct IH as (ts' & Ht' & Hl & Hp & Heq). exists ts'. split; [done|]. split; [cbn; lia|]. split; [done|].
      intros caps. rewrite <- Heq. split; [by inversion 1|by constructor].
    + intros caps Hm. inversion Hm; subst. by eapply IH.
  - rewrite byte_eqb_refl. exists (Var x :: ts). split; [by constructor|]. split; [done|]. split; [right; by eexists|done].
Qed.

(** ** Lengths *)

Lemma try_lengths_spec {A} x (k : bytes -> bytes -> option A) n : forall u val,
  match try_lengths x k val u n with
  | Some r => exists v w, u = v ++ w /\ (length v <= n)%nat /\ Forall (fun c => stops x c = false) v /\ k (val ++ v) w = Some r
  | None => forall v w, u = v ++ w -> (length v <= n)%nat -> Forall (fun c => stops x c = false) v -> k (val ++ v) w = None
  end.
Proof.
  induction n as [|n IH]; intros u val.
  - assert (try_lengths x k val u 0 = k val u) as -> by (cbn [try_lengths]; destruct (k val u), u; done).
    destruct (k val u) as [r|] eqn:Ek.
    + exists [], u. rewrite app_nil_r. by repeat split.
    + intros v w -> Hl _. destruct v; [|cbn in Hl; lia]. by rewrite app_nil_r.
  - cbn [try_lengths]. destruct (k val u) as [r|] eqn:Ek.
    { exists [], u. rewrite app_nil_r. split; [done|]. split; [cbn; lia|]. by split. }
    destruct u as [|c u].
    { intros v w Hu _ _. symmetry in Hu. apply app_nil in Hu as [-> ->]. by rewrite app_nil_r. }
    destruct (stops x c) eqn:Es.
    + intros v w Hu _ Hv. destruct v as [|d v]; [cbn in Hu; subst w; by rewrite app_nil_r|].
      injection Hu as <- _. apply Forall_cons in Hv as [Hv _]. congruence.
    + specialize (IH u (val ++ [c])). destruct (try_lengths x k (val ++ [c]) u n) as [r|].
      * destruct IH as (v & w & -> & Hl & Hv & Hk). exists (c :: v), w. split; [done|]. split; [cbn; lia|].
        split; [by constructor|]. by rewrite <- app_assoc in Hk.
      * intros v w Hu Hl Hv. destruct v as [|d v]; [cbn in Hu; subst w; by rewrite app_nil_r|].
        injection Hu as <- Hu. apply Forall_cons in Hv as [_ Hv]. specialize (IH v w Hu ltac:(cbn in Hl; lia) Hv).
        by rewrite <- app_assoc in IH.
Qed.

Lemma parse_len_nonneg s : forall acc n, 0 <= acc -> parse_len s acc = Some n -> 0 <= n.
Proof.
  induction s as [|c s IH]; intros acc n Ha H; cbn [parse_len] in H; [congruence|].
  destruct (in_range "0" "9" c) eqn:Er; [|done]. cbn [negb] in H. destruct (_ <? _); [done|]. eapply IH; [|exact H].
  unfold in_range in Er. apply andb_true_iff in Er as [Er _]. lia.
Qed.

Lemma parse_prefix_nonneg e x : parse_var_expr e = Some x -> 0 <= prefix_len x.
Proof.
  intros H. unfold parse_var_expr in H. repeat case_match; simplify_eq; cbn [prefix_len];
    first [lia|eapply parse_len_nonneg; [|eassumption]; lia].
Qed.

Lemma max_len_iff x u v w :
  0 <= prefix_len x -> u = v ++ w ->
  ((length v <= max_len x u)%nat <-> (mod_ x = MCP_URI_MOD_PREFIX -> Z.of_nat (length v) <= prefix_len x)).
Proof.
  intros Hx ->. unfold max_len, prefixed. rewrite length_app. case_bool_decide as Hp; cbn [andb].
  - destruct (Z.ltb_spec (prefix_len x) (Z.of_nat (length v + length w))); split; intros H'; try specialize (H' Hp); lia.
  - split; [done|lia].
Qed.

(** ** The matcher decides matching *)

Lemma add_capture_spec caps c :
  add_capture caps c = if decide (length caps < MAX_RAW_CAPTURES)%nat then Some (caps ++ [c]) else None.
Proof. unfold add_capture. destruct (Nat.ltb_spec (length caps) MAX_RAW_CAPTURES), (decide _); done || lia. Qed.

Lemma template_braces p ts : template ("{"%byte :: p) ts ->
  exists e next x ts', p = e ++ "}"%byte :: next /\ "}"%byte ∉ e /\ parse_var_expr e = Some x /\ template next ts' /\ ts = Var x :: ts'.
Proof. inversion 1; subst; [done|]. eauto 10. Qed.

Lemma template_final p ts : template p ts -> is_final ts = match p with [] => true | _ => false end.
Proof. by inversion 1. Qed.

Lemma tmatch_nil_inv u caps : tmatch [] u caps -> u = [] /\ caps = [].
Proof. by inversion 1. Qed.

Lemma tmatch_var_inv x ts u caps : tmatch (Var x :: ts) u caps ->
  exists val w caps', u = lead x ++ val ++ w /\ caps = Capture x val :: caps' /\ value_ok x (is_final ts) val /\ tmatch ts w caps'.
Proof. inversion 1; subst. by eexists _, _, _. Qed.

(** Success with what was captured, failure when nothing matches or there
    are too many variables. *)
Definition decides (caps : list raw_capture_t) (ts : list token) (u : bytes) (r : option (list raw_capture_t)) : Prop :=
  match r with
  | Some r => exists new, r = caps ++ new /\ tmatch ts u new /\ (length r <= MAX_RAW_CAPTURES \/ new = [])%nat
  | None => forall new, tmatch ts u new -> (MAX_RAW_CAPTURES < length caps + length new)%nat
  end.

Lemma decides_equiv caps ts u ts' u' r :
  (forall new, tmatch ts u new <-> tmatch ts' u' new) -> decides caps ts' u' r -> decides caps ts u r.
Proof. intros He. unfold decides. destruct r; [|intros H new Hm; by apply H, He]. intros (new & ? & ? & ?). exists new. by rewrite He. Qed.

Lemma last_decides caps x u_val :
  decides caps [Var x] (lead x ++ u_val) (if last_ok x u_val then add_capture caps (Capture x u_val) else None).
Proof.
  assert (forall new, tmatch [Var x] (lead x ++ u_val) new -> value_ok x true u_val /\ new = [Capture x u_val]) as Hinv.
  { intros new Hm. apply tmatch_var_inv in Hm as (val & w & caps' & Hu & -> & Hok & Hm). apply tmatch_nil_inv in Hm as [-> ->].
    rewrite app_nil_r in Hu. apply app_inv_head in Hu as ->. done. }
  unfold decides. rewrite add_capture_spec. destruct (last_ok x u_val) eqn:El.
  - apply last_ok_iff in El. destruct (decide _) as [Hc|Hc].
    + eexists. split; [done|]. split; [|left; rewrite length_app; cbn; lia].
      rewrite <- (app_nil_r u_val) at 1. by constructor; [|constructor].
    + intros new Hm. apply Hinv in Hm as [_ ->]. cbn. lia.
  - intros new Hm. apply Hinv in Hm as [Hok _]. apply last_ok_iff in Hok. congruence.
Qed.

Lemma inner_decides caps x ts u_val (k : bytes -> list raw_capture_t -> option (list raw_capture_t)) :
  0 <= prefix_len x -> is_final ts = false -> (forall u caps, decides caps ts u (k u caps)) ->
  decides caps (Var x :: ts) (lead x ++ u_val)
    (try_lengths x (fun val u => match add_capture caps (Capture x val) with Some caps => k u caps | None => None end)
       [] u_val (max_len x u_val)).
Proof.
  intros Hx Hfin Hk. set (f := fun val u => _).
  pose proof (try_lengths_spec x f (max_len x u_val) u_val []) as Ht. destruct (try_lengths _ _ _ _ _) as [r|].
  - destruct Ht as (v & w & -> & Hl & Hv & Hf). cbn [app] in Hf. unfold f in Hf. rewrite add_capture_spec in Hf.
    destruct (decide _) as [Hc|]; [|done]. pose proof (Hk w (caps ++ [Capture x v])) as Hd. rewrite Hf in Hd.
    destruct Hd as (new & -> & Hm & Hle). exists (Capture x v :: new). split; [by rewrite <- app_assoc|].
    rewrite (max_len_iff x _ v w Hx eq_refl) in Hl. split; [constructor; [|done]; rewrite Hfin; by apply stops_iff|].
    left. destruct Hle as [Hle|Hn]; [done|]. rewrite Hn. rewrite app_nil_r, length_app. cbn. lia.
  - intros new Hm. apply tmatch_var_inv in Hm as (val & w & caps' & Hu & -> & Hok & Hm). apply app_inv_head in Hu as ->.
    rewrite Hfin in Hok. apply stops_iff in Hok as [Hs Hp]. specialize (Ht val w eq_refl). cbn [app] in Ht.
    rewrite (max_len_iff x _ val w Hx eq_refl) in Ht. specialize (Ht Hp Hs). unfold f in Ht. rewrite add_capture_spec in Ht.
    destruct (decide _) as [Hc|]; [|cbn; lia]. pose proof (Hk w (caps ++ [Capture x val])) as Hd. rewrite Ht in Hd.
    specialize (Hd _ Hm). rewrite length_app in Hd. cbn in *. lia.
Qed.

Lemma match_step_decides fuel : forall p ts u caps,
  template p ts -> (length p < fuel)%nat -> decides caps ts u (match_step fuel p u caps).
Proof.
  induction fuel as [|fuel IH]; intros p ts u caps Ht Hf; [lia|]. cbn [match_step].
  pose proof (match_lit_spec p ts Ht u) as Hl. destruct (match_literals p u) as [[p' u']|]; [|intros new Hm; by destruct (Hl new)].
  destruct Hl as (ts' & Ht' & Hlen & Hp & Heq). eapply decides_equiv; [exact Heq|]. clear Heq Ht.
  destruct Hp as [->|[q ->]].
  - inversion Ht'; subst. case_bool_decide as Hu.
    + subst. exists []. rewrite app_nil_r. split; [done|]. split; [constructor|by right].
    + intros new Hm. by apply tmatch_nil_inv in Hm as [-> _].
  - apply template_braces in Ht' as (e & next & x & ts2 & -> & He & Hx & Htn & ->).
    rewrite (proj2 (cut_some _ _ e next)) by done. rewrite Hx. cbn [length] in Hlen. rewrite length_app in Hlen. cbn [length] in Hlen.
    destruct (strip (lead x) u') as [u_val|] eqn:Es.
    2:{ intros new Hm. apply tmatch_var_inv in Hm as (val & w & caps' & -> & _). by apply strip_none with (r := val ++ w) in Es. }
    apply strip_some in Es as ->. pose proof (template_final _ _ Htn) as Hfin. destruct next as [|c next].
    + inversion Htn; subst. by apply last_decides.
    + apply inner_decides; [by eapply parse_prefix_nonneg|exact Hfin|]. intros u2 caps2. apply IH; [done|]. cbn [length] in *. lia.
Qed.

Lemma valid_pattern_iff fuel : forall p, (length p < fuel)%nat -> valid_pattern fuel p = true <-> exists ts, template p ts.
Proof.
  induction fuel as [|fuel IH]; intros p Hf; [lia|]. cbn [valid_pattern]. destruct p as [|c p].
  { split; [|done]. intros _. eexists. constructor. }
  cbn [length] in Hf. destruct (Byte.eqb c "{") eqn:Ec.
  - apply byte_eqb_eq in Ec as ->. split.
    + destruct (cut "}"%byte p) as [[e rest]|] eqn:Ecut; [|done]. apply cut_some in Ecut as [-> He].
      destruct (parse_var_expr e) as [x|] eqn:Ex; [|done]. rewrite length_app in Hf. cbn [length] in Hf. intros H.
      apply IH in H as [ts Ht]; [|lia]. exists (Var x :: ts). by constructor.
    + intros [ts Ht]. apply template_braces in Ht as (e & next & x & ts' & -> & He & Hx & Ht & _).
      rewrite (proj2 (cut_some _ _ e next)) by done. rewrite Hx. rewrite length_app in Hf. cbn [length] in Hf.
      apply IH; [lia|by eexists].
  - apply byte_eqb_neq in Ec. destruct (Byte.eqb c "}") eqn:Ec'.
    + apply byte_eqb_eq in Ec' as ->. split; [done|]. intros [ts Ht]. by inversion Ht.
    + apply byte_eqb_neq in Ec'. rewrite (IH p) by lia. split; intros [ts Ht].
      * exists (Lit c :: ts). by constructor.
      * inversion Ht; subst; [|done]. by eexists.
Qed.

(** ** The variables as JSON (lines 285-405) *)

(** [char name[128]]. *)
Definition field_name (n : bytes) : bytes := take 127 n.

Definition item_delim (o : uri_op) : byte :=
  match o with OpSlash => "/" | OpQuery => "&" | OpDot => "." | _ => "," end%byte.

Fixpoint split_on (d : byte) (s : bytes) : list bytes :=
  match s with
  | [] => [[]]
  | c :: s' =>
      if Byte.eqb c d then [] :: split_on d s' else
      match split_on d s' with
      | tok :: toks => (c :: tok) :: toks
      | [] => [[c]]
      end
  end.

(** The later values of a form query repeat the name. *)
Definition strip_name (x : parsed_var_expr_t) (tok : bytes) : bytes :=
  if is_query x then default tok (strip (field_name (name x) ++ ["="%byte]) tok) else tok.

Definition explode_items (x : parsed_var_expr_t) (val : bytes) : list bytes :=
  match split_on (item_delim (op x)) val with
  | [] => []
  | tok :: toks => tok :: map (strip_name x) toks
  end.

(** A decoded string as a JSON value; the buffer is freed again. *)
Definition decoded_string (src : bytes) : M (option value) :=
  d <- url_decode src ;;
  match d with
  | None => ret None
  | Some d => v <- string_new d ;; xfree false ;; ret v
  end.

Definition array_value (x : parsed_var_expr_t) (val : bytes) : M (option value) :=
  arr <- builtin_new_array ;;
  match arr with
  | None => ret None
  | Some arr => append_all decoded_string (explode_items x val) arr discard (fun arr => ret (Some arr))
  end.

(** Storing the captures; a value that cannot be stored is destroyed
    twice. *)
Fixpoint build_vars (caps : list raw_capture_t) (obj : value) : M (option value) :=
  match caps with
  | [] => ret (Some obj)
  | Capture x val :: caps =>
      v <- (if exploded x then array_value x val else decoded_string val) ;;
      match v with
      | None => builtin_destroy (Some obj) ;; ret None
      | Some _ =>
          chk (object_set_take (Some obj) (field_name (name x)) v)
            (fun obj => builtin_destroy v ;; builtin_destroy (Some obj) ;; ret None) (build_vars caps)
      end
  end.

Definition mcp_uri_template_match (pattern uri : option bytes) (out_variables : bool) : M (mcp_status_t * option value) :=
  match pattern, uri with
  | Some pattern, Some uri =>
      let p := cstr pattern in
      let fuel := S (length p) in
      if negb (valid_pattern fuel p) then ret (MCP_ERR_INVALID_ARGUMENT, None) else
      match match_step fuel p (cstr uri) [] with
      | None => ret (MCP_ERR_NOT_FOUND, None)
      | Some caps =>
          if negb out_variables then ret (MCP_OK, None) else
          obj <- builtin_new_object ;;
          match obj with
          | None => ret (MCP_ERR_NOMEM, None)
          | Some obj =>
              r <- build_vars caps obj ;;
              ret (match r with None => MCP_ERR_NOMEM | Some _ => MCP_OK end, r)
          end
      end
  | _, _ => ret (MCP_ERR_INVALID_ARGUMENT, None)
  end.

Example match_json :
  erase <$> (mcp_uri_template_match (Some (cs "/u/{id}{/path*}{?q}")) (Some (cs "/u/7/a/b?q=x%20y")) true fresh_heap).1.2
  = Some (JObject [(cs "id", JString (cs "7")); (cs "path", JArray [JString (cs "a"); JString (cs "b")]); (cs "q", JString (cs "x y"))]).
Proof. vm_compute. reflexivity. Qed.

(** ** What is stored *)

Definition decoded (s : bytes) : bytes := cstr (decode_chars s).

Definition capture_json (c : raw_capture_t) : json :=
  if exploded (cap_expr c) then JArray (map (JString ∘ decoded) (explode_items (cap_expr c) (cap_val c)))
  else JString (decoded (cap_val c)).

Definition capture_text (c : raw_capture_t) : Prop :=
  if exploded (cap_expr c) then Forall (fun s => utf8_valid (decoded s) = true) (explode_items (cap_expr c) (cap_val c))
  else utf8_valid (decoded (cap_val c)) = true.

Definition capture_key (c : raw_capture_t) : bytes := field_name (name (cap_expr c)).

(** Of two values for a name the later one stays. *)
Definition variables (caps : list raw_capture_t) (l : list (bytes * json)) : list (bytes * json) :=
  fold_left (fun l c => jinsert (capture_key c) (capture_json c) l) caps l.

Lemma decoded_string_attempt src : attempt (decoded_string src) (JString (decoded src)) (utf8_valid (decoded src) = true).
Proof.
  intros h r h' H. unfold decoded_string, url_decode in H. apply bind_inv in H as (d & h1 & E & H).
  apply bind_inv in E as (ok & h2 & E & E1). apply ret_inv in E1 as [-> ->]. pose proof (xmalloc_hstep _ _ _ E) as Hs1. destruct ok.
  - apply bind_inv in H as (v & h3 & E3 & H). apply string_new_attempt in E3 as [Hs3 Hv].
    apply bind_inv in H as (u & h4 & E4 & H). apply xfree_hstep in E4. apply ret_inv in H as [-> ->].
    pose proof (hstep_trans _ _ _ _ _ _ Hs1 Hs3 eq_refl) as Hs. split; [eapply hstep_trans; [exact Hs|exact E4|lia]|].
    destruct v; [done|]. intros [A Hu]. apply Hv. split; [by eapply ample_hstep|done].
  - apply ret_inv in H as [-> ->]. split; [exact Hs1|]. intros [A _]. by apply xmalloc_ample_inv in E.
Qed.

Lemma array_value_attempt x val :
  attempt (array_value x val) (JArray (map (JString ∘ decoded) (explode_items x val)))
    (Forall (fun s => utf8_valid (decoded s) = true) (explode_items x val)).
Proof.
  apply yields_attempt. unfold array_value. eapply new_yields; [apply array_new_attempt|done|]. intros arr Hw He.
  eapply (append_all_yields _ _ _ _ (fun s v => erase v = JString (decoded s))) with (ok1 := fun s => utf8_valid (decoded s) = true);
    [intros s _; by apply attempt_yields, decoded_string_attempt| |exact Hw|exact He|intros; apply discard_gives_up|].
  - intros Hok s Hs. rewrite Forall_forall in Hok. auto.
  - intros arr' vs Hw' He' HQ h r h' _ H. apply ret_inv in H as [-> ->]. split; [intros _; eapply hstep_eq; [apply hstep_refl|cbn; lia]|].
    split; [done|]. split; [done|]. rewrite He'. cbn [app]. f_equal. clear -HQ. induction HQ as [|s v l vs Hv _ IH]; [done|]. cbn. by rewrite Hv, IH.
Qed.

Lemma capture_attempt c :
  attempt (if exploded (cap_expr c) then array_value (cap_expr c) (cap_val c) else decoded_string (cap_val c)) (capture_json c) (capture_text c).
Proof.
  unfold capture_json, capture_text. destruct (exploded (cap_expr c)); [apply array_value_attempt|apply decoded_string_attempt].
Qed.

(** A string or an array of strings that could be built is text. *)
Lemma string_text v s : wf v -> erase v = JString s -> utf8_valid s = true.
Proof. intros Hw He. destruct v; try done. injection He as ->. by destruct Hw. Qed.

Lemma capture_texts c v : wf v -> erase v = capture_json c -> capture_text c.
Proof.
  unfold capture_json, capture_text. intros Hw He. destruct (exploded (cap_expr c)); [|by eapply string_text].
  destruct v as [| | | |cap l|]; try done. apply wf_array in Hw as [_ Hw]. cbn [erase] in He. injection He as He.
  revert He Hw. generalize (explode_items (cap_expr c) (cap_val c)) as items. induction l as [|v l IH]; intros [|s items] He Hw; try done.
  cbn [map] in He. injection He as Hv He. apply Forall_cons in Hw as [Hwv Hw]. constructor; [by eapply string_text|by apply IH].
Qed.

Lemma build_vars_ample caps : forall obj l h r h',
  ample h -> wf obj -> erase obj = JObject l -> Forall (fun c => good_string (capture_key c)) caps -> build_vars caps obj h = (r, h') ->
  hstep h h' (oblocks r - blocks obj) /\
  match r with
  | Some v => Forall capture_text caps /\ wf v /\ erase v = JObject (variables caps l)
  | None => ~ Forall capture_text caps
  end.
Proof.
  induction caps as [|c caps IH]; intros obj l h r h' A Hw Hl Hk H; cbn [build_vars] in H.
  { apply ret_inv in H as [-> ->]. split; [eapply hstep_eq; [apply hstep_refl|cbn; lia]|done]. }
  apply Forall_cons in Hk as [Hk Hks]. assert (Hc := capture_attempt c). destruct c as [x val]. cbn [cap_expr cap_val] in Hc.
  apply bind_inv in H as (v & h1 & E & H). apply Hc in E as [Hs1 Hv]. assert (ample h1) as A1 by (by eapply ample_hstep).
  destruct v as [v|].
  - destruct Hv as [Hwv Hev].
    eapply chk_ample in H as (obj' & h2 & Hw' & He' & Hs2 & A2 & H); [|by apply take_updates|done|done].
    apply (IH obj' (jinsert (field_name (name x)) (erase v) l)) in H as [Hs3 Hr]; [|done..].
    pose proof (hstep_trans _ _ _ _ _ _ Hs1 Hs2 eq_refl) as Hs. split; [eapply hstep_trans; [exact Hs|exact Hs3|cbn; lia]|].
    pose proof (capture_texts (Capture x val) v Hwv Hev) as Htx. destruct r as [r|].
    + destruct Hr as (Hts & Hwr & Her). split; [by constructor|]. split; [done|]. rewrite Her. cbn [variables fold_left]. by rewrite Hev.
    + intros Hf. apply Forall_cons in Hf as [_ Hf]. done.
  - apply bind_inv in H as (u & h2 & E2 & H). apply builtin_destroy_hstep in E2. apply ret_inv in H as [-> ->].
    split; [eapply hstep_trans; [exact Hs1|exact E2|cbn; lia]|]. intros Hf. apply Forall_cons in Hf as [Ht _]. by apply Hv.
Qed.

Lemma tmatch_exprs ts u caps : tmatch ts u caps -> Forall (fun c => Var (cap_expr c) ∈ ts) caps.
Proof.
  induction 1 as [|c ts u caps _ IH|x ts val u caps _ _ IH]; [constructor| |constructor; [by left|]];
    (eapply Forall_impl; [exact IH|]); intros; by right.
Qed.

(** The names of a template are keys of a JSON object. *)
Definition names_ok (ts : list token) : Prop := forall x, Var x ∈ ts -> good_string (field_name (name x)).

Lemma match_spec pattern uri h st r h' :
  ample h -> (forall ts, template (cstr pattern) ts -> names_ok ts) ->
  mcp_uri_template_match (Some pattern) (Some uri) true h = ((st, r), h') ->
  hstep h h' (oblocks r) /\
  match st with
  | MCP_ERR_INVALID_ARGUMENT => r = None /\ ~ exists ts, template (cstr pattern) ts
  | MCP_ERR_NOT_FOUND => r = None /\ exists ts, template (cstr pattern) ts /\
      forall caps, tmatch ts (cstr uri) caps -> (MAX_RAW_CAPTURES < length caps)%nat
  | MCP_OK => exists ts caps v, template (cstr pattern) ts /\ tmatch ts (cstr uri) caps /\ (length caps <= MAX_RAW_CAPTURES)%nat /\
      r = Some v /\ wf v /\ erase v = JObject (variables caps [])
  | MCP_ERR_NOMEM => r = None /\ exists ts caps, template (cstr pattern) ts /\ tmatch ts (cstr uri) caps /\ ~ Forall capture_text caps
  | _ => False
  end.
Proof.
  intros A Hn H. cbn [mcp_uri_template_match] in H. cbv zeta in H.
  pose proof (valid_pattern_iff (S (length (cstr pattern))) (cstr pattern) ltac:(lia)) as Hv.
  destruct (valid_pattern _ _); cbn [negb] in H.
  2:{ apply ret_inv in H as [[= -> ->] ->]. split; [apply hstep_refl|]. split; [done|]. intros Ht. by apply Hv in Ht. }
  destruct (proj1 Hv eq_refl) as [ts Ht]. pose proof (match_step_decides _ _ ts (cstr uri) [] Ht (Nat.lt_succ_diag_r _)) as Hd.
  destruct (match_step _ _ _ _) as [caps|].
  2:{ apply ret_inv in H as [[= -> ->] ->]. split; [apply hstep_refl|]. split; [done|]. by exists ts. }
  destruct Hd as (new & -> & Hm & Hlen). cbn [app] in *. apply bind_inv in H as (obj & h1 & E & H).
  apply object_new_attempt in E as [Hs1 Ho]. destruct obj as [obj|]; [|by destruct Ho]. destruct Ho as [Hwo Heo].
  apply bind_inv in H as (r1 & h2 & E2 & H). apply ret_inv in H as [[= -> ->] ->].
  apply (build_vars_ample _ _ []) in E2 as [Hs2 Hr]; [|by eapply ample_hstep|done|done|].
  2:{ eapply Forall_impl; [by eapply tmatch_exprs|]. intros c Hc. by eapply Hn. }
  split; [eapply hstep_trans; [exact Hs1|exact Hs2|cbn; lia]|]. destruct r1 as [v|].
  - destruct Hr as (_ & Hwv & Hev). exists ts, new, v. do 2 (split; [done|]). split; [|done]. destruct Hlen as [|Hnew]; [done|]. rewrite Hnew. cbn. lia.
  - split; [done|]. by exists ts, new.
Qed.

(** ** Theorem *)

Definition vars_of (ts : list token) : list parsed_var_expr_t := omap (fun t => match t with Var x => Some x | Lit _ => None end) ts.

Lemma tmatch_length ts u caps : tmatch ts u caps -> length caps = length (vars_of ts).
Proof. induction 1; cbn; [done|done|by f_equal]. Qed.

(** A template within the limits of the matcher: 64 variables, names of at
    most 127 bytes that can be keys. *)
Definition within_limits (ts : list token) : Prop :=
  (length (vars_of ts) <= MAX_RAW_CAPTURES)%nat /\ forall x, Var x ∈ ts -> good_string (name x) /\ (length (name x) <= 127)%nat.

(** Text that decodes to a JSON string. *)
Definition clean (s : bytes) : Prop := has_nul (decode_chars s) = false /\ utf8_valid (decode_chars s) = true.

Definition clean_capture (c : raw_capture_t) : Prop :=
  if exploded (cap_expr c) then Forall clean (explode_items (cap_expr c) (cap_val c)) else clean (cap_val c).

Lemma limits_names ts : within_limits ts -> names_ok ts.
Proof. intros [_ H] x Hx. destruct (H x Hx) as [Hg Hl]. unfold field_name. by rewrite take_ge by lia. Qed.

Lemma clean_text c : clean_capture c -> capture_text c.
Proof.
  assert (forall s, clean s -> utf8_valid (decoded s) = true) as Hs by (intros s [Hn Hu]; unfold decoded; by rewrite cstr_no_nul).
  unfold clean_capture, capture_text. destruct (exploded _); [|by apply Hs]. intros H. eapply Forall_impl; [exact H|done].
Qed.


(** A value that decodes to something else than UTF-8 is reported as a lack
    of memory. *)
Theorem bad_text_is_nomem :
  (mcp_uri_template_match (Some (cs "/{x}")) (Some (cs "/%FF")) true fresh_heap).1 = (MCP_ERR_NOMEM, None).
Proof. vm_compute. reflexivity. Qed.

(** A template with more than 64 variables matches nothing. *)
Theorem too_many_variables :
  (mcp_uri_template_match (Some (concat (repeat (cs "{x}") 65))) (Some []) false fresh_heap).1 = (MCP_ERR_NOT_FOUND, None).
Proof. vm_compute. reflexivity. Qed.

(** ** Witness *)

(** A template is read in one way only. *)
Lemma template_det p ts : template p ts -> forall ts', template p ts' -> ts = ts'.
Proof.
  induction 1 as [|c p ts Hc Hc' Ht IH|e p x ts He Hx Ht IH]; intros ts' H'.
  - by inversion H'.
  - inversion H' as [|c' p' ts2 _ _ Ht'|]; subst; [|done]. by rewrite (IH _ Ht').
  - apply template_braces in H' as (e' & nx & x' & ts2 & Heq & He' & Hx' & Ht' & ->).
    assert (cut "}"%byte (e ++ "}"%byte :: p) = Some (e', nx)) as Hcut by (rewrite Heq; by apply cut_some).
    rewrite (proj2 (cut_some _ _ e p)) in Hcut by done. injection Hcut as <- <-. rewrite (IH _ Ht'). congruence.
Qed.

Definition item_expr : parsed_var_expr_t := Expr OpNone (cs "id") false MCP_URI_MOD_NONE 0.
Definition item_tokens : list token := map Lit (cs "items/") ++ [Var item_expr].

Lemma item_template : template (cs "items/{id}") item_tokens.
Proof.
  unfold item_tokens. cbn. repeat (apply template_lit; [done|done|]).
  change (template ("{"%byte :: cs "id" ++ "}"%byte :: []) [Var item_expr]). constructor; [|vm_compute; reflexivity|constructor].
  apply cut_none. vm_compute. reflexivity.
Qed.

Lemma item_limits ts : template (cs "items/{id}") ts -> within_limits ts.
Proof.
  intros H. rewrite <- (template_det _ _ item_template _ H). split; [unfold MAX_RAW_CAPTURES; cbn; lia|]. intros x Hx. unfold item_tokens in Hx. cbn in Hx.
  repeat (apply elem_of_cons in Hx as [Hx|Hx]; [try discriminate Hx|]); [|by apply elem_of_nil in Hx]. injection Hx as ->. by split; [split; vm_compute|cbn; lia].
Qed.

Lemma item_clean ts caps : template (cs "items/{id}") ts -> tmatch ts (cs "items/a%20b") caps -> Forall clean_capture caps.
Proof.
  intros H. rewrite <- (template_det _ _ item_template _ H).
  assert (forall u cps, tmatch [Var item_expr] u cps -> cps = [Capture item_expr u]) as Hvar.
  { intros u cps Hm. inversion Hm as [| |? ? val u' cps' _ Hrest]; subst. inversion Hrest; subst. by rewrite app_nil_r. }
  unfold item_tokens. cbn. intros Hm. repeat match goal with Hm : tmatch (Lit _ :: _) _ _ |- _ => inversion Hm; subst; clear Hm end.
  match goal with Hm : tmatch [Var _] _ _ |- _ => apply Hvar in Hm as -> end. constructor; [|constructor]. by split; vm_compute.
Qed.

