(* ===== verification/UriExpand.v ===== *)
(** * Expanding URI templates (src/protocol/uri_template.c, lines 407-693)

    The growing buffer, the percent encoder and the expansion of a template;
    the text is that of a reference expansion, and a uri expanded from a
    template matches it. *)
From S2P Require Import Prelude Heap Utf8 Double JsonValue JsonParse JsonNumber JsonSerialize JsonApi Schema Message Builders UriTemplate.

Local Open Scope Z_scope.

(** ** The buffer *)

(** [*buf_ptr] with [*len_ptr] bytes before the NUL, and [*cap_ptr]. *)
Record ubuf := Ubuf { text : bytes; ucap : Z }.

(** Storing bytes and a NUL after them; past the end of the block it would
    corrupt the heap. *)
Definition store (b : ubuf) (raw : bytes) : M ubuf :=
  (if Z.of_nat (length (text b)) + Z.of_nat (length raw) <? ucap b then ret tt else mark_corrupt) ;;
  ret (Ubuf (text b ++ raw) (ucap b)).

(** An append that failed: whether the caller's pointer was freed by an
    earlier [realloc] of the same call. *)
Definition appended : Type := bool + ubuf.

(** [while (len + raw_len >= cap)]. *)
Fixpoint raw_grow (fuel : nat) (need cap : Z) (moved : bool) : M (bool + Z) :=
  match fuel with
  | O => ret (inr cap)
  | S fuel =>
      if cap <=? need then
        ok <- xrealloc false ;;
        if negb ok then ret (inl moved) else raw_grow fuel need (cap * 2) true
      else ret (inr cap)
  end.

(** The capacity doubles and is at least 1. *)
Definition grow_fuel (need : Z) : nat := S (S (Z.to_nat (Z.log2 need))).

Definition append_raw_str (b : ubuf) (raw : bytes) : M appended :=
  let need := Z.of_nat (length (text b)) + Z.of_nat (length raw) in
  r <- raw_grow (grow_fuel need) need (ucap b) false ;;
  match r with
  | inl moved => ret (inl moved)
  | inr cap => b <- store (Ubuf (text b) cap) raw ;; ret (inr b)
  end.

Definition hex_char (n : Z) : byte := nth (Z.to_nat n) (cs "0123456789ABCDEF") x00.

Definition allowed (reserved : bool) (c : byte) : bool := is_unreserved c || (reserved && is_reserved_char c).

Definition encode_char (reserved : bool) (c : byte) : bytes :=
  if allowed reserved c then [c]
  else ["%"%byte; hex_char (Z.shiftr (b2z c) 4); hex_char (Z.land (b2z c) 0x0F)].

(** [((unsigned char)*s & 0xC0) != 0x80]: the first byte of a character. *)
Definition starts_char (c : byte) : bool := negb (Z.land (b2z c) 0xC0 =? 0x80).

Fixpoint encode_loop (x : parsed_var_expr_t) (s : bytes) (char_count : Z) (b : ubuf) (moved : bool) : M appended :=
  match s with
  | [] => ret (inr b)
  | c :: s =>
      if starts_char c && prefixed x && (prefix_len x <=? char_count) then ret (inr b) else
      let char_count := if starts_char c then char_count + 1 else char_count in
      let ok_char := allowed (is_reserved x) c in
      let room := Z.of_nat (length (text b)) + (if ok_char then 1 else 3) in
      if ucap b <=? room then
        ok <- xrealloc false ;;
        if negb ok then ret (inl moved) else
        let cap := if ok_char then ucap b * 2 else ucap b * 2 + 16 in
        b <- store (Ubuf (text b) cap) (encode_char (is_reserved x) c) ;;
        encode_loop x s char_count b true
      else
        b <- store b (encode_char (is_reserved x) c) ;;
        encode_loop x s char_count b moved
  end.

Definition append_encoded_str (b : ubuf) (str : bytes) (x : parsed_var_expr_t) : M appended :=
  encode_loop x (cstr str) 0 b false.

(** [a != MCP_OK || b != MCP_OK || ...]. *)
Definition and_then (m : M appended) (k : ubuf -> M appended) : M appended :=
  r <- m ;; match r with inl moved => ret (inl moved) | inr b => k b end.

(** ** "%g" *)

(** As [sig17] and [fmt_pos], for [P] digits. *)
Definition sig (P n d : Z) : Z * Z :=
  let x := flog10 n d in
  let D := rne (n * 10 ^ Z.max 0 (P - 1 - x)) (d * 10 ^ Z.max 0 (x - (P - 1))) in
  if D =? 10 ^ P then (10 ^ (P - 1), x + 1) else (D, x).

Definition fmt_sig (P n d : Z) : bytes :=
  let (D, x) := sig P n d in
  let ds := digits_of (Z.to_nat P) D in
  if (-4 <=? x) && (x <? P) then
    if 0 <=? x
    then take (Z.to_nat (x + 1)) ds ++ frac_text (drop (Z.to_nat (x + 1)) ds)
    else "0"%byte :: frac_text (repeat "0"%byte (Z.to_nat (- x - 1)) ++ ds)
  else take 1 ds ++ frac_text (drop 1 ds) ++ exp_text x.

Definition fmt_g (P : Z) (d : double) : bytes :=
  match d with
  | DFin s _ _ => (if s then ["-"%byte] else []) ++ fmt_sig P (Z.abs (dscaled d)) (2 ^ 1074)
  | DZero s => (if s then ["-"%byte] else []) ++ ["0"%byte]
  | DInf s => (if s then ["-"%byte] else []) ++ cs "inf"
  | DNaN => cs "nan"
  end.

Lemma fmt_g_17 d : fmt_g 17 d = fmt_g17 d.
Proof. by destruct d. Qed.

Example fmt_g_6 : map (fmt_g 6) [double_of_Z 42; double_of_Z 1234567; double_of_Z (-3); tenth] = [cs "42"; cs "1.23457e+06"; cs "-3"; cs "0.1"].
Proof. vm_compute. reflexivity. Qed.

(** ** Variables *)

(** A string or a number; other values have no text. *)
Definition scalar_text (v : value) : option bytes :=
  match v with
  | VString s => Some s
  | VNumber d => Some (fmt_g 6 d)
  | _ => None
  end.

Definition item_text (v : value) : bytes := default [] (scalar_text v).

(** [if (prefix[0] != 0) append_raw_str(prefix)]. *)
Definition append_prefix (x : parsed_var_expr_t) (b : ubuf) : M appended :=
  match prefix x with [] => ret (inr b) | pre => append_raw_str b pre end.

(** [if (is_query) ...]; the name is the one cut to its buffer. *)
Definition append_name (x : parsed_var_expr_t) (b : ubuf) : M appended :=
  if is_query x then and_then (append_raw_str b (field_name (name x))) (fun b => append_raw_str b (cs "=")) else ret (inr b).

(** What comes before an item of an exploded array. *)
Definition explode_lead (x : parsed_var_expr_t) (first : bool) (b : ubuf) : M appended :=
  match op x with
  | OpQuery =>
      and_then (append_raw_str b (if first then cs "?" else cs "&")) (fun b =>
      and_then (append_raw_str b (field_name (name x))) (fun b => append_raw_str b (cs "=")))
  | OpSlash => append_raw_str b (cs "/")
  | OpDot => append_raw_str b (cs ".")
  | _ =>
      and_then (if first && bool_decide (op x = OpHash) then append_raw_str b (cs "#") else ret (inr b)) (fun b =>
      if first then ret (inr b) else append_raw_str b (cs ","))
  end.

Definition comma_lead (first : bool) (b : ubuf) : M appended := if first then ret (inr b) else append_raw_str b (cs ",").

Fixpoint append_items (x : parsed_var_expr_t) (lead_of : bool -> ubuf -> M appended) (first : bool) (items : list value) (b : ubuf) : M appended :=
  match items with
  | [] => ret (inr b)
  | v :: items =>
      and_then (lead_of first b) (fun b =>
      and_then (append_encoded_str b (item_text v) x) (append_items x lead_of false items))
  end.

Definition append_var (x : parsed_var_expr_t) (v : option value) (b : ubuf) : M appended :=
  match v with
  | None => ret (inr b)
  | Some (VArray _ []) => ret (inr b)
  | Some (VArray _ items) =>
      if exploded x then append_items x (explode_lead x) true items b
      else and_then (append_prefix x b) (fun b => and_then (append_name x b) (append_items x comma_lead true items))
  | Some v =>
      match scalar_text v with
      | None => ret (inr b)
      | Some s => and_then (append_prefix x b) (fun b => and_then (append_name x b) (fun b => append_encoded_str b s x))
      end
  end.

Definition var_value (variables : option value) (x : parsed_var_expr_t) : option value :=
  match variables with None => None | Some _ => builtin_object_get variables (Some (field_name (name x))) end.

(** [alloc->free_fn(buf)] after a failed append: of a dead pointer when the
    append had moved the buffer. *)
Definition bail_out (moved : bool) : M unit := if moved then mark_corrupt else xfree false.

Fixpoint expand_loop (fuel : nat) (p : bytes) (variables : option value) (b : ubuf) : M (mcp_status_t * option bytes) :=
  match fuel with
  | O => ret (MCP_ERR_NOMEM, None)
  | S fuel =>
      let continue p (r : appended) :=
        match r with
        | inl moved => bail_out moved ;; ret (MCP_ERR_NOMEM, None)
        | inr b => expand_loop fuel p variables b
        end in
      match p with
      | [] => ret (MCP_OK, Some (text b))
      | c :: p =>
          if negb (Byte.eqb c "{") then r <- append_raw_str b [c] ;; continue p r else
          match cut "}"%byte p with
          | None => xfree false ;; ret (MCP_ERR_INVALID_ARGUMENT, None)
          | Some (e, next) =>
              match parse_var_expr e with
              | None => xfree false ;; ret (MCP_ERR_INVALID_ARGUMENT, None)
              | Some x => r <- append_var x (var_value variables x) b ;; continue next r
              end
          end
      end
  end.

Definition mcp_uri_template_expand (pattern : option bytes) (variables : option value) (out_uri : bool) : M (mcp_status_t * option bytes) :=
  match pattern, out_uri with
  | Some pattern, true =>
      ok <- xmalloc ;;
      if negb ok then ret (MCP_ERR_NOMEM, None) else
      expand_loop (S (length (cstr pattern))) (cstr pattern) variables (Ubuf [] 256)
  | _, _ => ret (MCP_ERR_INVALID_ARGUMENT, None)
  end.

Definition mcp_uri_template_free_string (uri : option bytes) : M unit :=
  match uri with None => ret tt | Some _ => xfree false end.

Example expand_some :
  (mcp_uri_template_expand (Some (cs "/u/{id}{/path*}{?q}{x:3}{+r}{#none}"))
     (Some (doc "{'id':7,'path':['a b','c'],'q':'x&y','x':'abcdef','r':'a/b'}")) true fresh_heap).1
  = (MCP_OK, Some (cs "/u/7/a%20b/c?q=x%26yabca/b")).
Proof. vm_compute. reflexivity. Qed.

(** ** Appending *)

Definition roomy (b : ubuf) : Prop := Z.of_nat (length (text b)) < ucap b.

(** [m] appends [out] to [b], or fails for want of memory. *)
Definition appends (m : M appended) (b : ubuf) (out : bytes) : Prop :=
  forall h r h', m h = (r, h') ->
  hstep h h' 0 /\
  match r with
  | inr b' => roomy b' /\ text b' = text b ++ out
  | inl _ => ~ ample h
  end.

Lemma ubuf_store_spec b raw h r h' :
  Z.of_nat (length (text b)) + Z.of_nat (length raw) < ucap b -> store b raw h = (r, h') ->
  h' = h /\ r = Ubuf (text b ++ raw) (ucap b) /\ roomy r.
Proof.
  intros Hr H. unfold store in H. rewrite (proj2 (Z.ltb_lt _ _) Hr) in H. apply bind_inv in H as (u & h1 & E & H).
  apply ret_inv in E as [_ ->]. apply ret_inv in H as [-> ->]. split; [done|]. split; [done|].
  unfold roomy. cbn. rewrite length_app. lia.
Qed.

Lemma raw_grow_spec fuel : forall need cap moved h r h',
  0 < cap -> (0 < fuel)%nat -> need < cap * 2 ^ (Z.of_nat fuel - 1) -> raw_grow fuel need cap moved h = (r, h') ->
  hstep h h' 0 /\ match r with inr cap' => need < cap' | inl _ => ~ ample h end.
Proof.
  induction fuel as [|fuel IH]; intros need cap moved h r h' Hc Hf Hn H; [lia|]. cbn [raw_grow] in H.
  destruct (Z.leb_spec cap need) as [Hle|Hlt].
  - apply bind_inv in H as (ok & h1 & E & H). pose proof (xrealloc_hstep _ _ _ _ E) as Hs. destruct ok; cbn [negb] in H.
    + destruct fuel as [|fuel]; [cbn in Hn; lia|]. apply IH in H as [Hs' Hr]; [|lia|lia|].
      * split; [eapply hstep_trans; [exact Hs|exact Hs'|cbn; lia]|]. destruct r; [|done]. intros A. apply Hr. by eapply ample_hstep.
      * replace (Z.of_nat (S (S fuel)) - 1) with (1 + (Z.of_nat (S fuel) - 1)) in Hn by lia. rewrite Z.pow_add_r in Hn by lia. lia.
    + apply ret_inv in H as [-> ->]. split; [eapply hstep_eq; [exact Hs|done]|]. intros A. by apply xrealloc_ample_inv in E.
  - apply ret_inv in H as [-> ->]. split; [apply hstep_refl|done].
Qed.

Lemma append_raw_appends b raw : roomy b -> appends (append_raw_str b raw) b raw.
Proof.
  intros Hb h r h' H. unfold append_raw_str in H. cbv zeta in H. set (need := _ + _) in H. unfold roomy in Hb.
  apply bind_inv in H as (g & h1 & E & H). apply raw_grow_spec in E as [Hs Hg]; [|lia|unfold grow_fuel; lia|].
  - destruct g as [moved|cap]; [apply ret_inv in H as [-> ->]; done|]. apply bind_inv in H as (b' & h2 & E2 & H).
    apply ret_inv in H as [-> ->]. apply ubuf_store_spec in E2 as (-> & -> & Hr); [|exact Hg]. split; [done|]. by split.
  - assert (0 <= need) as Hn by (unfold need; lia). unfold grow_fuel. replace (Z.of_nat (S (S (Z.to_nat (Z.log2 need)))) - 1) with (Z.succ (Z.log2 need)).
    2:{ pose proof (Z.log2_nonneg need). lia. }
    destruct (Z.eq_dec need 0) as [->|Hnz]; [cbn; lia|]. pose proof (Z.log2_spec need ltac:(lia)) as [_ Hl].
    eapply Z.lt_le_trans; [exact Hl|]. set (q := 2 ^ _) in *. assert (0 <= q) by (apply Z.pow_nonneg; lia). nia.
Qed.

Lemma ret_appends b : roomy b -> appends (ret (inr b)) b [].
Proof. intros Hb h r h' H. apply ret_inv in H as [-> ->]. split; [apply hstep_refl|]. split; [done|]. by rewrite app_nil_r. Qed.

Lemma and_then_appends m k b o1 o2 :
  appends m b o1 -> (forall b', roomy b' -> appends (k b') b' o2) -> appends (and_then m k) b (o1 ++ o2).
Proof.
  intros Hm Hk h r h' H. unfold and_then in H. apply bind_inv in H as (r1 & h1 & E & H). apply Hm in E as [Hs1 Hr].
  destruct r1 as [moved|b1]; [apply ret_inv in H as [-> ->]; done|]. destruct Hr as [Hb1 Ht1]. apply Hk in H as [Hs2 Hr2]; [|done].
  split; [eapply hstep_trans; [exact Hs1|exact Hs2|done]|]. destruct r as [moved|b2].
  - intros A. apply Hr2. by eapply ample_hstep.
  - destruct Hr2 as [Hb2 Ht2]. split; [done|]. by rewrite Ht2, Ht1, app_assoc.
Qed.

(** ** The encoder *)

(** The first [n] characters, counted by their first bytes. *)
Fixpoint take_chars (n : Z) (s : bytes) : bytes :=
  match s with
  | [] => []
  | c :: s =>
      if starts_char c then if n <=? 0 then [] else c :: take_chars (n - 1) s
      else c :: take_chars n s
  end.

Definition encoded (x : parsed_var_expr_t) (s : bytes) : bytes :=
  flat_map (encode_char (is_reserved x)) (if prefixed x then take_chars (prefix_len x) s else s).

Definition encode_rest (x : parsed_var_expr_t) (s : bytes) (n : Z) : bytes :=
  flat_map (encode_char (is_reserved x)) (if prefixed x then take_chars (prefix_len x - n) s else s).

Lemma encode_char_length r c : Z.of_nat (length (encode_char r c)) = if allowed r c then 1 else 3.
Proof. unfold encode_char. by destruct (allowed r c). Qed.

Lemma encode_rest_cons x c s n :
  encode_rest x (c :: s) n =
  if starts_char c && prefixed x && (prefix_len x <=? n) then []
  else encode_char (is_reserved x) c ++ encode_rest x s (if starts_char c then n + 1 else n).
Proof.
  unfold encode_rest. destruct (prefixed x); cbn [take_chars]; rewrite ?andb_true_r, ?andb_false_r; [|done].
  destruct (starts_char c); cbn [andb]; [|done].
  destruct (Z.leb_spec (prefix_len x) n), (Z.leb_spec (prefix_len x - n) 0); try lia; [done|].
  cbn [flat_map]. by replace (prefix_len x - (n + 1)) with (prefix_len x - n - 1) by lia.
Qed.

Lemma encode_loop_appends x s : forall n b moved, roomy b -> appends (encode_loop x s n b moved) b (encode_rest x s n).
Proof.
  induction s as [|c s IH]; intros n b moved Hb.
  { cbn [encode_loop]. replace (encode_rest x [] n) with (@nil byte) by (unfold encode_rest; by destruct (prefixed x)). by apply ret_appends. }
  rewrite encode_rest_cons. cbn [encode_loop]. destruct (_ && _); [by apply ret_appends|]. cbv zeta.
  assert (forall b1 moved' h h1 r h', text b1 = text b -> Z.of_nat (length (text b)) + (if allowed (is_reserved x) c then 1 else 3) < ucap b1 ->
    hstep h h1 0 ->
    (b2 <- store b1 (encode_char (is_reserved x) c) ;; encode_loop x s (if starts_char c then n + 1 else n) b2 moved') h1 = (r, h') ->
    hstep h h' 0 /\ match r with inr b' => roomy b' /\ text b' = text b ++ encode_char (is_reserved x) c ++ encode_rest x s (if starts_char c then n + 1 else n) | inl _ => ~ ample h end) as Hgo.
  { intros b1 moved' h h1 r h' Ht Hr Hs H. apply bind_inv in H as (b2 & h2 & E & H).
    apply ubuf_store_spec in E as (-> & -> & Hb2); [|by rewrite encode_char_length, Ht].
    apply IH in H as [Hs2 Hr2]; [|done]. split; [eapply hstep_trans; [exact Hs|exact Hs2|done]|].
    destruct r as [moved2|b3]; [intros A; apply Hr2; by eapply ample_hstep|]. destruct Hr2 as [Hb3 Ht3]. split; [done|].
    rewrite Ht3. cbn [text]. by rewrite Ht, <- app_assoc. }
  intros h r h' H. unfold roomy in Hb. destruct (Z.leb_spec (ucap b) (Z.of_nat (length (text b)) + (if allowed (is_reserved x) c then 1 else 3))) as [Hle|Hlt].
  - apply bind_inv in H as (ok & h1 & E & H). pose proof (xrealloc_hstep _ _ _ _ E) as Hs. destruct ok; cbn [negb] in H.
    + eapply Hgo; [| |exact Hs|exact H]; [done|]. cbn [ucap]. destruct (allowed _ _); lia.
    + apply ret_inv in H as [-> ->]. split; [exact Hs|]. intros A. by apply xrealloc_ample_inv in E.
  - by eapply Hgo; [| |apply hstep_refl|exact H].
Qed.

Lemma append_encoded_appends b s x : roomy b -> appends (append_encoded_str b s x) b (encoded x (cstr s)).
Proof.
  intros Hb. unfold append_encoded_str. replace (encoded x (cstr s)) with (encode_rest x (cstr s) 0) by (unfold encode_rest, encoded; by rewrite Z.sub_0_r).
  by apply encode_loop_appends.
Qed.

(** ** The reference expansion *)

Definition explode_lead_text (x : parsed_var_expr_t) (first : bool) : bytes :=
  match op x with
  | OpQuery => (if first then cs "?" else cs "&") ++ field_name (name x) ++ cs "="
  | OpSlash => cs "/"
  | OpDot => cs "."
  | OpHash => if first then cs "#" else cs ","
  | OpNone | OpPlus => if first then [] else cs ","
  end.

Definition comma_text (first : bool) : bytes := if first then [] else cs ",".

Fixpoint items_text (x : parsed_var_expr_t) (lead_of : bool -> bytes) (first : bool) (items : list value) : bytes :=
  match items with
  | [] => []
  | v :: items => lead_of first ++ encoded x (cstr (item_text v)) ++ items_text x lead_of false items
  end.

(** The prefix of the operator, and "name=" of a query. *)
Definition lead_text (x : parsed_var_expr_t) : bytes := prefix x ++ (if is_query x then field_name (name x) ++ cs "=" else []).

Definition var_text (x : parsed_var_expr_t) (v : option value) : bytes :=
  match v with
  | None | Some (VArray _ []) => []
  | Some (VArray _ items) =>
      if exploded x then items_text x (explode_lead_text x) true items
      else lead_text x ++ items_text x comma_text true items
  | Some v => match scalar_text v with None => [] | Some s => lead_text x ++ encoded x (cstr s) end
  end.

Definition token_text (variables : option value) (tok : token) : bytes :=
  match tok with Lit c => [c] | Var x => var_text x (var_value variables x) end.

Definition expansion (variables : option value) (ts : list token) : bytes := flat_map (token_text variables) ts.

(** A template in which a lone closing brace is a literal. *)
Inductive loose : bytes -> list token -> Prop :=
| loose_nil : loose [] []
| loose_lit c p ts : c <> "{"%byte -> loose p ts -> loose (c :: p) (Lit c :: ts)
| loose_var e p x ts :
    "}"%byte ∉ e -> parse_var_expr e = Some x -> loose p ts -> loose ("{"%byte :: e ++ "}"%byte :: p) (Var x :: ts).

Lemma template_loose p ts : template p ts -> loose p ts.
Proof. induction 1; by constructor. Qed.

(** ** The expansion follows the reference *)

#[local] Hint Resolve append_raw_appends append_encoded_appends ret_appends : core.

Lemma prefix_appends x b : roomy b -> appends (append_prefix x b) b (prefix x).
Proof. intros Hb. unfold append_prefix. destruct (prefix x) eqn:E; auto. Qed.

Lemma name_appends x b : roomy b -> appends (append_name x b) b (if is_query x then field_name (name x) ++ cs "=" else []).
Proof. intros Hb. unfold append_name. destruct (is_query x); [|auto]. apply and_then_appends; auto. Qed.

Lemma explode_lead_appends x first b : roomy b -> appends (explode_lead x first b) b (explode_lead_text x first).
Proof.
  intros Hb. unfold explode_lead, explode_lead_text. destruct (op x) eqn:Eo; [| | |auto|auto|].
  1-3: destruct first; cbn [andb]; rewrite ?bool_decide_true, ?bool_decide_false by done.
  1,3: apply (and_then_appends _ _ _ [] []); auto.
  1,2,4: apply (and_then_appends _ _ _ [] (cs ",")); auto.
  - apply (and_then_appends _ _ _ (cs "#") []); auto.
  - apply and_then_appends; [auto|]. intros b1 Hb1. apply and_then_appends; auto.
Qed.

Lemma items_appends x lead_of (lead_t : bool -> bytes) :
  (forall first b, roomy b -> appends (lead_of first b) b (lead_t first)) ->
  forall items first b, roomy b -> appends (append_items x lead_of first items b) b (items_text x lead_t first items).
Proof.
  intros Hl. induction items as [|v items IH]; intros first b Hb; cbn [append_items items_text]; [auto|].
  apply and_then_appends; [auto|]. intros b1 Hb1. apply and_then_appends; [auto|]. intros b2 Hb2. auto.
Qed.

Lemma lead_appends x k out b :
  roomy b -> (forall b, roomy b -> appends (k b) b out) ->
  appends (and_then (append_prefix x b) (fun b => and_then (append_name x b) k)) b (lead_text x ++ out).
Proof.
  intros Hb Hk. unfold lead_text. rewrite <- app_assoc. apply and_then_appends; [by apply prefix_appends|]. intros b1 Hb1.
  apply and_then_appends; [by apply name_appends|auto].
Qed.

Lemma var_appends x v b : roomy b -> appends (append_var x v b) b (var_text x v).
Proof.
  intros Hb. unfold append_var, var_text. destruct v as [v|]; [|auto].
  destruct v as [| |d|s|c items|c ms]; cbn [scalar_text]; auto.
  - apply lead_appends; auto.
  - apply lead_appends; auto.
  - destruct items as [|v items]; [auto|]. destruct (exploded x).
    + apply items_appends; [|done]. intros. by apply explode_lead_appends.
    + apply lead_appends; [done|]. apply items_appends. intros [] b1 Hb1; unfold comma_lead, comma_text; auto.
Qed.

Lemma bail_out_hstep moved h u h' : ~ ample h -> bail_out moved h = (u, h') -> hstep h h' (-1).
Proof.
  intros A H. unfold bail_out in H. destruct moved; [|by apply xfree_hstep in H].
  unfold mark_corrupt in H. simplify_eq. by split.
Qed.

(** How the loop ends, from a buffer that holds [pre]. *)
Definition expands (p pre : bytes) (variables : option value) (h : heap) (st : mcp_status_t) (r : option bytes) (h' : heap) : Prop :=
  match st with
  | MCP_OK => exists ts, loose p ts /\ r = Some (pre ++ expansion variables ts) /\ hstep h h' 0
  | MCP_ERR_INVALID_ARGUMENT => r = None /\ (forall ts, ~ loose p ts) /\ hstep h h' (-1)
  | MCP_ERR_NOMEM => r = None /\ ~ ample h /\ hstep h h' (-1)
  | _ => False
  end.

Lemma expands_cons variables tok p p' pre h h1 st r h' :
  hstep h h1 0 -> (forall ts, loose p' ts -> loose p (tok :: ts)) -> (forall ts, loose p ts -> exists ts', loose p' ts') ->
  expands p' (pre ++ token_text variables tok) variables h1 st r h' -> expands p pre variables h st r h'.
Proof.
  intros Hs Hc Hi. unfold expands. destruct st; try done.
  - intros (ts & Ht & -> & Hs'). exists (tok :: ts). split; [auto|]. split; [cbn; by rewrite <- app_assoc|]. eapply hstep_trans; [exact Hs|exact Hs'|done].
  - intros (-> & Hn & Hs'). split; [done|]. split; [|eapply hstep_trans; [exact Hs|exact Hs'|done]].
    intros ts Ht. apply Hi in Ht as [ts' Ht]. by eapply Hn.
  - intros (-> & Hn & Hs'). split; [done|]. split; [|eapply hstep_trans; [exact Hs|exact Hs'|done]]. intros A. apply Hn. by eapply ample_hstep.
Qed.

Lemma loose_braces p ts : loose ("{"%byte :: p) ts ->
  exists e next x ts', p = e ++ "}"%byte :: next /\ "}"%byte ∉ e /\ parse_var_expr e = Some x /\ loose next ts' /\ ts = Var x :: ts'.
Proof. inversion 1; subst; [done|]. eauto 10. Qed.

Lemma expand_step (m : M appended) b out tok p p' variables (k : ubuf -> M (mcp_status_t * option bytes)) h st r h' :
  appends m b out -> out = token_text variables tok ->
  (forall ts, loose p' ts -> loose p (tok :: ts)) -> (forall ts, loose p ts -> exists ts', loose p' ts') ->
  (forall b h st r h', roomy b -> k b h = ((st, r), h') -> expands p' (text b) variables h st r h') ->
  (res <- m ;; match res with inl moved => bail_out moved ;; ret (MCP_ERR_NOMEM, None) | inr b => k b end) h = ((st, r), h') ->
  expands p (text b) variables h st r h'.
Proof.
  intros Hm -> Hc Hi Hk H. apply bind_inv in H as (res & h1 & E & H). apply Hm in E as [Hs Hres]. destruct res as [moved|b1].
  - apply bind_inv in H as (u & h2 & E2 & H). apply bail_out_hstep in E2; [|intros A; apply Hres; intros k0; specialize (A k0); by rewrite (hstep_fails _ _ _ Hs) in A].
    apply ret_inv in H as [[= -> ->] ->]. split; [done|]. split; [done|]. eapply hstep_trans; [exact Hs|exact E2|done].
  - destruct Hres as [Hb1 Ht1]. apply Hk in H; [|done]. rewrite Ht1 in H. by eapply expands_cons.
Qed.

Lemma expand_loop_spec fuel : forall p variables b h st r h',
  (length p < fuel)%nat -> roomy b -> expand_loop fuel p variables b h = ((st, r), h') -> expands p (text b) variables h st r h'.
Proof.
  induction fuel as [|fuel IH]; intros p variables b h st r h' Hf Hb H; [lia|]. cbn [expand_loop] in H. cbv zeta in H.
  destruct p as [|c p].
  { apply ret_inv in H as [[= -> ->] ->]. exists []. split; [constructor|]. cbn. rewrite app_nil_r. split; [done|apply hstep_refl]. }
  cbn [length] in Hf. destruct (Byte.eqb c "{") eqn:Ec; cbn [negb] in H.
  - apply byte_eqb_eq in Ec as ->. destruct (cut "}"%byte p) as [[e next]|] eqn:Ecut.
    2:{ apply bind_inv in H as (u & h1 & E & H). apply xfree_hstep in E. apply ret_inv in H as [[= -> ->] ->]. split; [done|]. split; [|done].
        intros ts Ht. apply loose_braces in Ht as (e & nx & x & ts' & -> & _). apply cut_none in Ecut. apply Ecut. set_solver. }
    apply cut_some in Ecut as [-> He]. rewrite length_app in Hf. cbn [length] in Hf. destruct (parse_var_expr e) as [x|] eqn:Ex.
    + eapply (expand_step _ _ _ (Var x) _ next); [by apply var_appends|done| | |intros; apply IH; [lia|done..]|exact H].
      * intros ts Ht. by constructor.
      * intros ts Ht. apply loose_braces in Ht as (e' & nx & x' & ts' & Heq & He' & _ & Ht & _).
        assert (e' = e /\ nx = next) as [-> ->]; [|by eexists].
        assert (cut "}"%byte (e ++ "}"%byte :: next) = Some (e', nx)) as Hcut by (rewrite Heq; by apply cut_some).
        rewrite (proj2 (cut_some _ _ e next)) in Hcut by done. by injection Hcut.
    + apply bind_inv in H as (u & h1 & E & H). apply xfree_hstep in E. apply ret_inv in H as [[= -> ->] ->]. split; [done|]. split; [|done].
      intros ts Ht. apply loose_braces in Ht as (e' & nx & x' & ts' & Heq & He' & Hx' & _).
      assert (cut "}"%byte (e ++ "}"%byte :: next) = Some (e', nx)) as Hcut by (rewrite Heq; by apply cut_some).
      rewrite (proj2 (cut_some _ _ e next)) in Hcut by done. injection Hcut as <- <-. congruence.
  - apply byte_eqb_neq in Ec. eapply (expand_step _ _ _ (Lit c) _ p); [by apply append_raw_appends|done| | |intros; apply IH; [lia|done..]|exact H].
    + intros ts Ht. by constructor.
    + intros ts Ht. inversion Ht; subst; [by eexists|done].
Qed.

(** ** Decoding what was encoded *)

Lemma decode_encode_char r c t : decode_chars (encode_char r c ++ t) = c :: decode_chars t.
Proof.
  unfold encode_char. destruct (allowed r c) eqn:Ea.
  - assert (c <> "%"%byte) as Hc by (intros ->; by destruct r). apply byte_eqb_neq in Hc.
    cbn [app decode_chars]. rewrite Hc. cbn [andb]. by destruct t as [|a [|b t]].
  - set (f := fun c => (0 <=? hex_digit (hex_char (Z.shiftr (b2z c) 4))) && (0 <=? hex_digit (hex_char (Z.land (b2z c) 0x0F))) &&
      Byte.eqb (z2b (Z.lor (Z.shiftl (hex_digit (hex_char (Z.shiftr (b2z c) 4))) 4) (hex_digit (hex_char (Z.land (b2z c) 0x0F))))) c).
    assert (f c = true) as Hf by exact (all_bytes_forall f ltac:(by vm_compute) c).
    unfold f in Hf. apply andb_true_iff in Hf as [Hf Hb]. apply andb_true_iff in Hf as [H1 H2]. apply byte_eqb_eq in Hb.
    cbn [app decode_chars]. rewrite H1, H2, Hb. done.
Qed.

Lemma decode_encode r s : decode_chars (flat_map (encode_char r) s) = s.
Proof. induction s as [|c s IH]; [done|]. cbn [flat_map]. by rewrite decode_encode_char, IH. Qed.

(** No character of an encoded value ends a value in the matcher. *)
Lemma encode_safe c : forallb (fun b => negb (Byte.eqb b "/" || Byte.eqb b "&" || Byte.eqb b "#")) (encode_char false c) = true.
Proof. exact (all_bytes_forall (fun c => forallb (fun b => negb (Byte.eqb b "/" || Byte.eqb b "&" || Byte.eqb b "#")) (encode_char false c)) ltac:(by vm_compute) c). Qed.

Lemma encoded_safe s b : b ∈ flat_map (encode_char false) s -> b <> "/"%byte /\ b <> "&"%byte /\ b <> "#"%byte.
Proof.
  intros H. apply list_elem_of_In, in_flat_map in H as (c & _ & Hb). pose proof (encode_safe c) as Hs. rewrite forallb_forall in Hs.
  apply Hs in Hb. apply negb_true_iff in Hb. apply orb_false_iff in Hb as [Hb H3]. apply orb_false_iff in Hb as [H1 H2].
  by apply byte_eqb_neq in H1, H2, H3.
Qed.

Lemma query_not_reserved e x : parse_var_expr e = Some x -> op x = OpQuery -> is_reserved x = false.
Proof. intros H Hq. unfold parse_var_expr in H. repeat case_match; simplify_eq; cbn [op is_reserved] in *; congruence. Qed.

(** ** What is expanded matches *)

(** The variable has this text as its value. *)
Definition has_text (variables : option value) (x : parsed_var_expr_t) (s : bytes) : Prop :=
  exists v, var_value variables x = Some v /\ scalar_text v = Some s /\ has_nul s = false.

(** Every variable has a text; none is cut by a prefix modifier or the name
    buffer. *)
Definition fillable (variables : option value) (ts : list token) : Prop :=
  forall x, Var x ∈ ts -> mod_ x <> MCP_URI_MOD_PREFIX /\ (length (name x) <= 127)%nat /\ exists s, has_text variables x s.

Lemma has_text_expands variables x s :
  has_text variables x s -> mod_ x <> MCP_URI_MOD_PREFIX -> (length (name x) <= 127)%nat ->
  var_text x (var_value variables x) = lead x ++ flat_map (encode_char (is_reserved x)) s.
Proof.
  intros (v & -> & Hs & Hn) Hm Hl. assert (var_text x (Some v) = lead_text x ++ encoded x (cstr s)) as ->.
  { unfold var_text. destruct v; cbn [scalar_text] in *; by simplify_eq. }
  unfold lead_text, lead, field_name, encoded, prefixed. rewrite (cstr_no_nul s Hn), take_ge by lia. by rewrite bool_decide_false.
Qed.

Lemma encoded_value_ok e x s final :
  parse_var_expr e = Some x -> mod_ x <> MCP_URI_MOD_PREFIX -> value_ok x final (flat_map (encode_char (is_reserved x)) s).
Proof.
  intros He Hm. split; [| | |done].
  - intros Hr _ Hin. rewrite Hr in Hin. by apply encoded_safe in Hin as (? & _).
  - intros Hq _ Hin. rewrite (query_not_reserved _ _ He Hq) in Hin. by apply encoded_safe in Hin as (_ & ? & _).
  - intros Hq _ _ Hin. rewrite (query_not_reserved _ _ He Hq) in Hin. by apply encoded_safe in Hin as (_ & _ & ?).
Qed.

Lemma fillable_cons variables tok ts : fillable variables (tok :: ts) -> fillable variables ts.
Proof. intros H x Hx. apply H. by right. Qed.

Lemma expansion_matches variables p ts : template p ts -> fillable variables ts ->
  exists caps, tmatch ts (expansion variables ts) caps /\ length caps = length (vars_of ts) /\
    (forall x s, vars_of ts = [x] -> has_text variables x s -> caps = [Capture x (flat_map (encode_char (is_reserved x)) s)]).
Proof.
  induction 1 as [|c p ts Hc Hc' Ht IH|e p x ts He Hx Ht IH]; intros Hfill.
  - exists []. split; [constructor|]. by split.
  - destruct (IH (fillable_cons _ _ _ Hfill)) as (caps & Hm & Hl & Hone). exists caps. split; [by constructor|]. by split.
  - destruct (IH (fillable_cons _ _ _ Hfill)) as (caps & Hm & Hl & _).
    destruct (Hfill x) as (Hmod & Hlen & s & Hs); [by left|].
    exists (Capture x (flat_map (encode_char (is_reserved x)) s) :: caps). split; [|split].
    + cbn [expansion flat_map token_text]. rewrite (has_text_expands _ _ _ Hs Hmod Hlen), <- app_assoc.
      constructor; [by eapply encoded_value_ok|exact Hm].
    + cbn. by rewrite Hl.
    + intros x' s' Hv Hs'. injection Hv as <- Hv. destruct caps; [|rewrite Hv in Hl; done].
      destruct Hs as (v & E1 & E2 & _), Hs' as (v' & E1' & E2' & _). congruence.
Qed.

(** A template with one variable matches in one way only. *)
Lemma no_vars_match ts u u' caps caps' : vars_of ts = [] -> tmatch ts u caps -> tmatch ts u' caps' -> u = u' /\ caps = [] /\ caps' = [].
Proof.
  intros Hv H. revert u' caps'. induction H as [|c ts u caps H IH|x ts val u caps _ _ IH]; intros u' caps' H'; [|..].
  - by inversion H'.
  - inversion H' as [|c' ts' u2 caps2 Hm|]; subst. by destruct (IH Hv _ _ Hm) as (-> & ? & ?).
  - done.
Qed.

Lemma one_var_unique ts x u caps caps' : vars_of ts = [x] -> tmatch ts u caps -> tmatch ts u caps' -> caps = caps'.
Proof.
  intros Hv H. revert caps'. induction H as [|c ts u caps H IH|y ts val u caps _ H IH]; intros caps' H'; [done|..].
  - inversion H'; subst. auto.
  - injection Hv as -> Hv. apply tmatch_var_inv in H' as (val' & w & caps2 & Hu & -> & _ & H'). apply app_inv_head in Hu.
    destruct (no_vars_match _ _ _ _ _ Hv H H') as (-> & -> & ->). by apply app_inv_tail in Hu as ->.
Qed.

(** ** Strings *)

Lemma encode_no_nul r c : has_nul (encode_char r c) = false \/ c = x00.
Proof.
  destruct (decide (c = x00)) as [->|Hc]; [by right|left]. apply negb_true_iff.
  assert (Byte.eqb c x00 || negb (has_nul (encode_char r c)) = true) as H.
  { destruct r; [exact (all_bytes_forall (fun c => Byte.eqb c x00 || negb (has_nul (encode_char true c))) ltac:(by vm_compute) c)|
                 exact (all_bytes_forall (fun c => Byte.eqb c x00 || negb (has_nul (encode_char false c))) ltac:(by vm_compute) c)]. }
  apply orb_true_iff in H as [H|H]; [by apply byte_eqb_eq in H|done].
Qed.

Lemma uri_encoded_no_nul r s : has_nul s = false -> has_nul (flat_map (encode_char r) s) = false.
Proof.
  induction s as [|c s IH]; intros H; [done|]. rewrite has_nul_cons in H. apply orb_false_iff in H as [Hc H]. cbn [flat_map].
  rewrite has_nul_app, IH by done. destruct (encode_no_nul r c) as [->| ->]; [done|]. by rewrite byte_eqb_refl in Hc.
Qed.

Lemma cut_no_nul c s a b : cut c s = Some (a, b) -> has_nul s = false -> has_nul a = false.
Proof. intros H. apply cut_some in H as [-> _]. rewrite has_nul_app. by intros H%orb_false_iff; destruct H. Qed.

Lemma take_no_nul n s : has_nul s = false -> has_nul (take n s) = false.
Proof. intros H. rewrite <- (take_drop n s), has_nul_app in H. by apply orb_false_iff in H as [H _]. Qed.

Lemma name_no_nul e x : parse_var_expr e = Some x -> has_nul e = false -> has_nul (name x) = false.
Proof.
  intros H He. unfold parse_var_expr in H. destruct e as [|c e]; [done|]. cbv zeta in H.
  set (rest := match parse_op c with OpNone => c :: e | _ => e end) in H.
  assert (has_nul rest = false) as Hr by (rewrite has_nul_cons in He; apply orb_false_iff in He as [Hc He']; unfold rest; destruct (parse_op c); rewrite ?has_nul_cons, ?Hc; done).
  clearbody rest. destruct rest as [|r0 rest]; [done|]. destruct (cut ":"%byte (r0 :: rest)) as [[n num]|] eqn:Ec.
  - pose proof (cut_no_nul _ _ _ _ Ec Hr). repeat case_match; by simplify_eq.
  - pose proof (take_no_nul (length (r0 :: rest) - 1) _ Hr). repeat case_match; by simplify_eq.
Qed.

Lemma lead_no_nul e x : parse_var_expr e = Some x -> has_nul e = false -> has_nul (lead x) = false.
Proof.
  intros H He. pose proof (name_no_nul _ _ H He) as Hn. unfold lead, prefix. rewrite has_nul_app.
  destruct (is_query x); rewrite ?has_nul_app, ?Hn; by destruct (op x).
Qed.

Lemma expansion_no_nul variables p ts :
  template p ts -> fillable variables ts -> has_nul p = false -> has_nul (expansion variables ts) = false.
Proof.
  induction 1 as [|c p ts Hc Hc' Ht IH|e p x ts He Hx Ht IH]; intros Hfill Hp; [done|..].
  - rewrite has_nul_cons in Hp. apply orb_false_iff in Hp as [Hn Hp]. cbn [expansion flat_map token_text app].
    rewrite has_nul_cons, Hn. apply IH; [by eapply fillable_cons|done].
  - rewrite has_nul_cons, has_nul_app, has_nul_cons in Hp. apply orb_false_iff in Hp as [_ Hp]. apply orb_false_iff in Hp as [Hpe Hp].
    apply orb_false_iff in Hp as [_ Hp]. destruct (Hfill x) as (Hmod & Hlen & s & Hs); [by left|].
    cbn [expansion flat_map token_text]. rewrite (has_text_expands _ _ _ Hs Hmod Hlen), !has_nul_app, (lead_no_nul _ _ Hx Hpe).
    destruct Hs as (_ & _ & _ & Hn). rewrite (uri_encoded_no_nul _ _ Hn). apply IH; [by eapply fillable_cons|done].
Qed.

Lemma expand_spec pattern variables h st r h' :
  mcp_uri_template_expand (Some pattern) variables true h = ((st, r), h') ->
  hstep h h' (if r then 1 else 0) /\
  match st with
  | MCP_OK => exists ts, loose (cstr pattern) ts /\ r = Some (expansion variables ts)
  | MCP_ERR_INVALID_ARGUMENT => r = None /\ forall ts, ~ loose (cstr pattern) ts
  | MCP_ERR_NOMEM => r = None /\ ~ ample h
  | _ => False
  end.
Proof.
  intros H. cbn [mcp_uri_template_expand] in H. apply bind_inv in H as (ok & h1 & E & H). pose proof (xmalloc_hstep _ _ _ E) as Hs.
  destruct ok; cbn [negb] in H.
  2:{ apply ret_inv in H as [[= -> ->] ->]. split; [exact Hs|]. split; [done|]. intros A. by apply xmalloc_ample_inv in E. }
  apply expand_loop_spec in H; [|lia|unfold roomy; cbn; lia]. cbn [text] in H. unfold expands in H. destruct st; try done.
  - destruct H as (ts & Ht & -> & Hs'). split; [eapply hstep_trans; [exact Hs|exact Hs'|done]|]. by exists ts.
  - destruct H as (-> & Hn & Hs'). split; [eapply hstep_trans; [exact Hs|exact Hs'|done]|done].
  - destruct H as (-> & Hn & Hs'). split; [eapply hstep_trans; [exact Hs|exact Hs'|done]|]. split; [done|]. intros A. apply Hn. by eapply ample_hstep.
Qed.

Lemma loose_det p ts : loose p ts -> forall ts', loose p ts' -> ts = ts'.
Proof.
  induction 1 as [|c p ts Hc Ht IH|e p x ts He Hx Ht IH]; intros ts' H'.
  - by inversion H'.
  - inversion H' as [|c' p' ts2 _ Ht'|]; subst; [|done]. by rewrite (IH _ Ht').
  - apply loose_braces in H' as (e' & nx & x' & ts2 & Heq & He' & Hx' & Ht' & ->).
    assert (cut "}"%byte (e ++ "}"%byte :: p) = Some (e', nx)) as Hcut by (rewrite Heq; by apply cut_some).
    rewrite (proj2 (cut_some _ _ e p)) in Hcut by done. injection Hcut as <- <-. rewrite (IH _ Ht'). congruence.
Qed.

(** ** Theorems *)

(** Expansion is the reference expansion, for every allocator: the text
    is that of the literals and of the values of the variables, encoded and
    introduced as their operators and modifiers say, an undefined variable
    giving nothing; a text with an unclosed or malformed expression is
    refused, MCP_ERR_NOMEM means that an allocation was refused, and no byte
    is written past the end of the buffer however it grows. *)
Theorem uri_expand_correct pattern variables h st r h' :
  mcp_uri_template_expand (Some pattern) variables true h = ((st, r), h') ->
  hstep h h' (if r then 1 else 0) /\
  match st with
  | MCP_OK => exists ts, loose (cstr pattern) ts /\ r = Some (expansion variables ts)
  | MCP_ERR_INVALID_ARGUMENT => r = None /\ forall ts, ~ loose (cstr pattern) ts
  | MCP_ERR_NOMEM => r = None /\ ~ ample h
  | _ => False
  end.
Proof. apply expand_spec. Qed.

Lemma vars_of_in ts x : x ∈ vars_of ts -> Var x ∈ ts.
Proof.
  induction ts as [|[c|y] ts IH]; cbn; [by intros ?%elem_of_nil|intros H; right; auto|].
  intros [->|H]%elem_of_cons; [by left|right; auto].
Qed.

(** With memory a template expands. *)
Lemma expand_template pattern variables ts h :
  ample h -> template (cstr pattern) ts ->
  exists h', mcp_uri_template_expand (Some pattern) variables true h = ((MCP_OK, Some (expansion variables ts)), h') /\ hstep h h' 1.
Proof.
  intros A Ht. destruct (mcp_uri_template_expand (Some pattern) variables true h) as [[st r] h'] eqn:E. apply expand_spec in E as [Hs Hr].
  apply template_loose in Ht. destruct st; try done.
  - destruct Hr as (ts' & Ht' & ->). rewrite (loose_det _ _ Ht' _ Ht) in *. by exists h'.
  - destruct Hr as [_ Hn]. by destruct (Hn ts).
  - by destruct Hr.
Qed.

Lemma match_found pattern uri ts caps h :
  template (cstr pattern) ts -> tmatch ts (cstr uri) caps -> (length caps <= MAX_RAW_CAPTURES)%nat ->
  mcp_uri_template_match (Some pattern) (Some uri) false h = ((MCP_OK, None), h).
Proof.
  intros Ht Hm Hl. cbn [mcp_uri_template_match]. cbv zeta.
  rewrite (proj2 (valid_pattern_iff (S (length (cstr pattern))) (cstr pattern) (Nat.lt_succ_diag_r _))) by (by eexists). cbn [negb].
  pose proof (match_step_decides _ _ ts (cstr uri) [] Ht (Nat.lt_succ_diag_r _)) as Hd. destruct (match_step _ _ _ _); [done|].
  specialize (Hd _ Hm). cbn in Hd. lia.
Qed.

(** C39: What is expanded matches: for a template with at most 64 variables,
    whose names are UTF-8 and at most 127 bytes long, without ":n" modifiers,
    and an object that has a string (without a NUL) or a number for each of
    them, and with memory, [mcp_uri_template_expand] succeeds and the uri it
    gives is matched by [mcp_uri_template_match] against the same template;
    and when the template has a single variable without a modifier, whose
    text is UTF-8, matching gives back exactly the text that was expanded. *)
Theorem uri_expand_matches pattern vals ts h :
  ample h -> template (cstr pattern) ts -> within_limits ts -> fillable vals ts ->
  exists uri h1, mcp_uri_template_expand (Some pattern) vals true h = ((MCP_OK, Some uri), h1) /\ hstep h h1 1 /\
    mcp_uri_template_match (Some pattern) (Some uri) false h1 = ((MCP_OK, None), h1) /\
    (forall x s, vars_of ts = [x] -> mod_ x = MCP_URI_MOD_NONE -> has_text vals x s -> utf8_valid s = true ->
      exists v h2, mcp_uri_template_match (Some pattern) (Some uri) true h1 = ((MCP_OK, Some v), h2) /\
        erase v = JObject [(name x, JString s)]).
Proof.
  intros A Ht Hlim Hf. pose proof (limits_names _ Hlim) as Hn. destruct Hlim as [Hl _]. destruct (expand_template pattern vals ts h A Ht) as (h1 & E & Hs). exists (expansion vals ts), h1.
  destruct (expansion_matches _ _ _ Ht Hf) as (caps & Hm & Hc & Hone).
  pose proof (cstr_no_nul _ (expansion_no_nul _ _ _ Ht Hf (has_nul_cstr pattern))) as Hcs.
  split; [done|]. split; [done|]. split; [eapply match_found; [done|by rewrite Hcs|by rewrite Hc]|].
  intros x s Hv Hmod Hs1 Hu. specialize (Hone x s Hv Hs1). assert (Var x ∈ ts) as Hin.
  { apply vars_of_in. rewrite Hv. by left. }
  destruct (Hf x Hin) as (_ & Hlen & _).
  destruct (mcp_uri_template_match (Some pattern) (Some (expansion vals ts)) true h1) as [[st r] h2] eqn:E2.
  apply match_spec in E2 as [_ Hr]; [|by eapply ample_hstep|intros ts' Ht'; by rewrite <- (template_det _ _ Ht _ Ht')]. rewrite Hcs in Hr.
  assert (forall caps', tmatch ts (expansion vals ts) caps' -> caps' = caps) as Huniq by (intros caps' Hm'; by eapply one_var_unique).
  destruct Hs1 as (_ & _ & _ & Hnul). destruct st; try done.
  - destruct Hr as (ts' & caps' & v & Ht' & Hm' & _ & -> & _ & Hev). rewrite <- (template_det _ _ Ht _ Ht') in Hm'. rewrite (Huniq _ Hm') in Hev.
    exists v, h2. split; [done|]. rewrite Hev, Hone. cbn [variables fold_left]. unfold capture_key, capture_json, exploded, decoded, field_name. cbn [cap_expr cap_val].
    rewrite bool_decide_false by congruence. by rewrite decode_encode, (cstr_no_nul _ Hnul), take_ge by lia.
  - destruct Hr as [_ Hno]. destruct Hno. by exists ts.
  - destruct Hr as (_ & ts' & caps' & Ht' & Hm' & Hno). exfalso. rewrite <- (template_det _ _ Ht _ Ht') in Hm'. rewrite (Huniq _ Hm'), Hone in Hno.
    apply Hno. constructor; [|constructor]. unfold capture_text, exploded, decoded. cbn [cap_expr cap_val].
    rewrite bool_decide_false by congruence. by rewrite decode_encode, (cstr_no_nul _ Hnul).
  - destruct Hr as (_ & ts' & Ht' & Hno). rewrite <- (template_det _ _ Ht _ Ht') in Hno. specialize (Hno _ Hm). lia.
Qed.

(** When the buffer moved before an allocation fails inside one value, the
    caller frees the pointer it had before: the old block, which [realloc]
    has freed already. *)
Theorem expand_stale_buffer :
  let vals := Some (VObject 1 [(cs "x", VString (repeat "a"%byte 600))]) in
  let '((st, r), h) := mcp_uri_template_expand (Some (cs "{x}")) vals true (Heap (fun k => Nat.eqb k 2) 0 0 false) in
  (st, r) = (MCP_ERR_NOMEM, None) /\ corrupt h = true.
Proof. vm_compute. done. Qed.

(** The length of a prefix counts characters when expanding and encoded
    bytes when matching, so an expanded uri need not match. *)
Theorem prefix_not_matched :
  let vals := Some (VObject 1 [(cs "x", VString [xc3; xa4; xc3; xb6])]) in
  (mcp_uri_template_expand (Some (cs "/{x:2}")) vals true fresh_heap).1 = (MCP_OK, Some (cs "/%C3%A4%C3%B6")) /\
  (mcp_uri_template_match (Some (cs "/{x:2}")) (Some (cs "/%C3%A4%C3%B6")) false fresh_heap).1 = (MCP_ERR_NOT_FOUND, None).
Proof. vm_compute. done. Qed.

(** A name is cut to 127 bytes before its value is looked up: the value of a
    longer name is not found, and the variable expands to nothing. *)
Theorem long_name_unfilled :
  let n := repeat "x"%byte 128 in
  (mcp_uri_template_expand (Some ("{"%byte :: n ++ cs "}")) (Some (VObject 1 [(n, VString (cs "v"))])) true fresh_heap).1 = (MCP_OK, Some []).
Proof. vm_compute. done. Qed.

(** ** Witnesses *)

Definition item_vals : option value := Some (doc "{'id':'a b/c'}").

Lemma uri_expand_correct_witness :
  exists st r h', mcp_uri_template_expand (Some (cs "items/{id}")) item_vals true fresh_heap = ((st, r), h') /\
  hstep fresh_heap h' (if r then 1 else 0) /\
  match st with
  | MCP_OK => exists ts, loose (cstr (cs "items/{id}")) ts /\ r = Some (expansion item_vals ts)
  | MCP_ERR_INVALID_ARGUMENT => r = None /\ forall ts, ~ loose (cstr (cs "items/{id}")) ts
  | MCP_ERR_NOMEM => r = None /\ ~ ample fresh_heap
  | _ => False
  end.
Proof.
  eexists _, _, _. split; [rewrite <- !surjective_pairing; reflexivity|].
  apply (uri_expand_correct (cs "items/{id}") item_vals fresh_heap). rewrite <- !surjective_pairing. reflexivity.
Defined.

Lemma item_fillable : fillable item_vals item_tokens.
Proof.
  intros x Hx. unfold item_tokens in Hx. cbn in Hx.
  repeat (apply elem_of_cons in Hx as [Hx|Hx]; [try discriminate Hx|]); [|by apply elem_of_nil in Hx]. injection Hx as ->.
  split; [done|]. split; [cbn; lia|]. exists (cs "a b/c"), (VString (cs "a b/c")). by split_and!; vm_compute.
Qed.

Lemma uri_expand_matches_witness :
  exists uri h1, mcp_uri_template_expand (Some (cs "items/{id}")) item_vals true fresh_heap = ((MCP_OK, Some uri), h1) /\ hstep fresh_heap h1 1 /\
    mcp_uri_template_match (Some (cs "items/{id}")) (Some uri) false h1 = ((MCP_OK, None), h1) /\
    (forall x s, vars_of item_tokens = [x] -> mod_ x = MCP_URI_MOD_NONE -> has_text item_vals x s -> utf8_valid s = true ->
      exists v h2, mcp_uri_template_match (Some (cs "items/{id}")) (Some uri) true h1 = ((MCP_OK, Some v), h2) /\
        erase v = JObject [(name x, JString s)]).
Proof.
  apply (uri_expand_matches (cs "items/{id}") item_vals item_tokens fresh_heap);
    [exact fresh_ample|exact item_template|exact (item_limits _ item_template)|exact item_fillable].
Defined.
