(* ===== verification/Sha256.v ===== *)
(** * SHA-256 and HMAC (src/protocol/mrtr_state.c, lines 43-236)

    The digest code under the request-state tokens, kept at its widths: a
    [uint32_t] is an integer below [2^32] wrapped by [w32], the message
    buffer is a block of 64 bytes written in place, the byte counter is a
    [uint64_t].  A context is a local of its caller and [sha256_init] does
    not touch its buffer, so the theorems hold whatever the buffer held. *)
From S2P Require Import Prelude.

Local Open Scope Z_scope.

Definition w32 (z : Z) : Z := z mod 2 ^ 32.
Definition w64 (z : Z) : Z := z mod 2 ^ 64.

(** ** Constant-time comparison *)

Definition mcp_crypto_subtle_equal (a b : bytes) (len : nat) : bool :=
  let diff := fold_left (fun diff i => Z.lor diff (Z.lxor (b2z (nth i a x00)) (b2z (nth i b x00)))) (seq 0 len) 0 in
  Z.eqb diff 0.

(** ** Word operations *)

Definition rotr32 (x n : Z) : Z := Z.lor (Z.shiftr x n) (w32 (Z.shiftl x (32 - n))).

Definition SHA256_CH (x y z : Z) : Z := Z.lxor (Z.land x y) (Z.land (w32 (Z.lnot x)) z).
Definition SHA256_MAJ (x y z : Z) : Z := Z.lxor (Z.lxor (Z.land x y) (Z.land x z)) (Z.land y z).
Definition SHA256_EP0 (x : Z) : Z := Z.lxor (Z.lxor (rotr32 x 2) (rotr32 x 13)) (rotr32 x 22).
Definition SHA256_EP1 (x : Z) : Z := Z.lxor (Z.lxor (rotr32 x 6) (rotr32 x 11)) (rotr32 x 25).
Definition SHA256_SIG0 (x : Z) : Z := Z.lxor (Z.lxor (rotr32 x 7) (rotr32 x 18)) (Z.shiftr x 3).
Definition SHA256_SIG1 (x : Z) : Z := Z.lxor (Z.lxor (rotr32 x 17) (rotr32 x 19)) (Z.shiftr x 10).

(** The value of a hexadecimal digit, and the words a string of them spells. *)
Definition hexval (b : byte) : Z := let c := b2z b in if c <? 58 then c - 48 else c - 87.

Fixpoint hexwords (acc : Z) (s : bytes) : list Z :=
  match s with
  | [] => [acc]
  | b :: s => if Byte.eqb b x20 then acc :: hexwords 0 s else hexwords (16 * acc + hexval b) s
  end.

Definition words (s : string) : list Z := hexwords 0 (cs s).

Definition K256 : list Z := words (String.concat " " [
  "428a2f98 71374491 b5c0fbcf e9b5dba5";
  "3956c25b 59f111f1 923f82a4 ab1c5ed5";
  "d807aa98 12835b01 243185be 550c7dc3";
  "72be5d74 80deb1fe 9bdc06a7 c19bf174";
  "e49b69c1 efbe4786 0fc19dc6 240ca1cc";
  "2de92c6f 4a7484aa 5cb0a9dc 76f988da";
  "983e5152 a831c66d b00327c8 bf597fc7";
  "c6e00bf3 d5a79147 06ca6351 14292967";
  "27b70a85 2e1b2138 4d2c6dfc 53380d13";
  "650a7354 766a0abb 81c2c92e 92722c85";
  "a2bfe8a1 a81a664b c24b8b70 c76c51a3";
  "d192e819 d6990624 f40e3585 106aa070";
  "19a4c116 1e376c08 2748774c 34b0bcb5";
  "391c0cb3 4ed8aa4a 5b9cca4f 682e6ff3";
  "748f82ee 78a5636f 84c87814 8cc70208";
  "90befffa a4506ceb bef9a3f7 c67178f2"])%string.

(** The eight chaining words [state[8]], also the working variables
    [a] to [h]. *)
Record sha_regs := Regs { ra : Z; rb : Z; rc : Z; rd : Z; re : Z; rf : Z; rg : Z; rh : Z }.

Definition regs_list (r : sha_regs) : list Z := [ra r; rb r; rc r; rd r; re r; rf r; rg r; rh r].

Record mcp_sha256_t := Sha256 {
  state : sha_regs;
  count : Z;
  buffer : bytes;
}.

Definition initial_state : sha_regs :=
  match words "6a09e667 bb67ae85 3c6ef372 a54ff53a 510e527f 9b05688c 1f83d9ab 5be0cd19" with
  | [a; b; c; d; e; f; g; h] => Regs a b c d e f g h
  | _ => Regs 0 0 0 0 0 0 0 0
  end.

Definition sha256_init (ctx : mcp_sha256_t) : mcp_sha256_t := Sha256 initial_state 0 (buffer ctx).

(** ** The compression function *)

Definition load_word (data : bytes) (i : nat) : Z :=
  let j := (4 * i)%nat in
  let at_ k := b2z (nth (j + k) data x00) in
  Z.lor (Z.lor (Z.lor (Z.shiftl (at_ 0%nat) 24) (Z.shiftl (at_ 1%nat) 16)) (Z.shiftl (at_ 2%nat) 8)) (at_ 3%nat).

(** The loop from [m[16]] on, [n] words more. *)
Fixpoint extend (n : nat) (m : list Z) : list Z :=
  match n with
  | O => m
  | S n =>
      let i := length m in
      extend n (m ++ [w32 (SHA256_SIG1 (nth (i - 2) m 0) + nth (i - 7) m 0
                           + SHA256_SIG0 (nth (i - 15) m 0) + nth (i - 16) m 0)])
  end.

Definition schedule (data : bytes) : list Z := extend 48 (map (load_word data) (seq 0 16)).

Definition round (m : list Z) (r : sha_regs) (i : nat) : sha_regs :=
  let '(Regs a b c d e f g h) := r in
  let t1 := w32 (h + SHA256_EP1 e + SHA256_CH e f g + nth i K256 0 + nth i m 0) in
  let t2 := w32 (SHA256_EP0 a + SHA256_MAJ a b c) in
  Regs (w32 (t1 + t2)) a b c (w32 (d + t1)) e f g.

Definition add_regs (s r : sha_regs) : sha_regs :=
  let '(Regs a b c d e f g h) := r in
  Regs (w32 (ra s + a)) (w32 (rb s + b)) (w32 (rc s + c)) (w32 (rd s + d))
       (w32 (re s + e)) (w32 (rf s + f)) (w32 (rg s + g)) (w32 (rh s + h)).

Definition compress (s : sha_regs) (data : bytes) : sha_regs :=
  add_regs s (fold_left (round (schedule data)) (seq 0 64) s).

Definition sha256_transform (ctx : mcp_sha256_t) (data : bytes) : mcp_sha256_t :=
  Sha256 (compress (state ctx) data) (count ctx) (buffer ctx).

(** ** Streaming *)

(** [memcpy(&buf[i], p, length p)] inside the buffer. *)
Definition memcpy_at (buf : bytes) (i : nat) (p : bytes) : bytes :=
  take i buf ++ p ++ drop (i + length p) buf.

Definition memset0_at (buf : bytes) (i n : nat) : bytes := memcpy_at buf i (replicate n x00).

Definition set_buffer (ctx : mcp_sha256_t) (b : bytes) : mcp_sha256_t := Sha256 (state ctx) (count ctx) b.

(** The loop of [sha256_update]; every turn consumes a byte, so the length
    of the input is fuel enough. *)
Fixpoint update_loop (fuel : nat) (ctx : mcp_sha256_t) (buf_idx : nat) (p : bytes) : mcp_sha256_t :=
  match fuel with
  | O => ctx
  | S fuel =>
      if Nat.eqb (length p) 0 then ctx else
      let take_ := Nat.min (64 - buf_idx) (length p) in
      let ctx := set_buffer ctx (memcpy_at (buffer ctx) buf_idx (take take_ p)) in
      let buf_idx := (buf_idx + take_)%nat in
      let p := drop take_ p in
      if Nat.eqb buf_idx 64
      then update_loop fuel (sha256_transform ctx (buffer ctx)) 0 p
      else update_loop fuel ctx buf_idx p
  end.

Definition sha256_update (ctx : mcp_sha256_t) (data : bytes) : mcp_sha256_t :=
  let buf_idx := Z.to_nat (count ctx mod 64) in
  let ctx := Sha256 (state ctx) (w64 (count ctx + Z.of_nat (length data))) (buffer ctx) in
  update_loop (length data) ctx buf_idx data.

(** The [n] low bytes of [z], most significant first. *)
Definition be_bytes (n : nat) (z : Z) : bytes :=
  map (fun b => z2b (Z.shiftr z (8 * Z.of_nat (n - 1 - b)))) (seq 0 n).

Definition sha256_final (ctx : mcp_sha256_t) : bytes :=
  let i := Z.to_nat (count ctx mod 64) in
  let ctx := set_buffer ctx (memcpy_at (buffer ctx) i [x80]) in
  let i := S i in
  let ctx :=
    if Nat.ltb 56 i
    then let ctx := set_buffer ctx (memset0_at (buffer ctx) i (64 - i)) in
         let ctx := sha256_transform ctx (buffer ctx) in
         set_buffer ctx (memset0_at (buffer ctx) 0 56)
    else set_buffer ctx (memset0_at (buffer ctx) i (56 - i)) in
  let total_bits := w64 (count ctx * 8) in
  let ctx := set_buffer ctx (memcpy_at (buffer ctx) 56 (be_bytes 8 total_bits)) in
  let ctx := sha256_transform ctx (buffer ctx) in
  flat_map (be_bytes 4) (regs_list (state ctx)).

(** An uninitialised local context; [sha256_digest] shows that what it
    holds does not matter. *)
Definition local_ctx : mcp_sha256_t := Sha256 (Regs 0 0 0 0 0 0 0 0) 0 (replicate 64 x00).

Definition sha256_hash (data : bytes) : bytes :=
  sha256_final (sha256_update (sha256_init local_ctx) data).

Definition hmac_sha256 (key data : bytes) : bytes :=
  let k_pad := replicate 64 x00 in
  let k_pad :=
    if Nat.ltb 64 (length key) then memcpy_at k_pad 0 (sha256_hash key)
    else if Nat.ltb 0 (length key) then memcpy_at k_pad 0 key else k_pad in
  let i_key_pad := map (fun b => z2b (Z.lxor (b2z b) 0x36)) k_pad in
  let o_key_pad := map (fun b => z2b (Z.lxor (b2z b) 0x5c)) k_pad in
  let inner_hash := sha256_final (sha256_update (sha256_update (sha256_init local_ctx) i_key_pad) data) in
  sha256_final (sha256_update (sha256_update (sha256_init local_ctx) o_key_pad) inner_hash).

Definition hexbyte (b : byte) : bytes :=
  let d n := z2b (if n <? 10 then 48 + n else 87 + n) in [d (b2z b / 16); d (b2z b mod 16)].
Definition hex (s : bytes) : bytes := flat_map hexbyte s.

(** ** Test vectors (FIPS 180-4 examples, RFC 4231) *)

Example sha256_empty :
  hex (sha256_hash []) = cs "e3b0c44298fc1c149afbf4c8996fb92427ae41e4649b934ca495991b7852b855".
Proof. by vm_compute. Qed.

Example sha256_abc :
  hex (sha256_hash (cs "abc")) = cs "ba7816bf8f01cfea414140de5dae2223b00361a396177a9cb410ff61f20015ad".
Proof. by vm_compute. Qed.

Example sha256_two_blocks :
  hex (sha256_hash (cs "abcdbcdecdefdefgefghfghighijhijkijkljklmklmnlmnomnopnopq"))
  = cs "248d6a61d20638b8e5c026930c3e6039a33ce45964ff2167f6ecedd419db06c1".
Proof. by vm_compute. Qed.

Example hmac_rfc4231_2 :
  hex (hmac_sha256 (cs "Jefe") (cs "what do ya want for nothing?"))
  = cs "5bdcc146bf60754e6a042426089575c75a003f089d2739839dec58b964ec3843".
Proof. by vm_compute. Qed.

(** ** The word operations, bit by bit *)

Lemma w32_testbit x i : 0 <= i < 32 -> Z.testbit (w32 x) i = Z.testbit x i.
Proof. intros Hi. unfold w32. by rewrite Z.mod_pow2_bits_low by lia. Qed.

Lemma w32_range x : 0 <= w32 x < 2 ^ 32.
Proof. apply Z.mod_pos_bound. lia. Qed.

Lemma word_high_bit x i : 0 <= x < 2 ^ 32 -> 32 <= i -> Z.testbit x i = false.
Proof. intros Hx Hi. rewrite <- (Z.mod_small x (2 ^ 32)) by done. apply Z.mod_pow2_bits_high. lia. Qed.

(** A right rotation: bit [i] of the result is bit [i + n] modulo 32. *)
Lemma rotr32_testbit x n i :
  0 <= x < 2 ^ 32 -> 0 < n < 32 -> 0 <= i < 32 ->
  Z.testbit (rotr32 x n) i = Z.testbit x ((i + n) mod 32).
Proof.
  intros Hx Hn Hi. unfold rotr32.
  rewrite Z.lor_spec, Z.shiftr_spec, w32_testbit, Z.shiftl_spec by lia.
  destruct (decide (i + n < 32)) as [Hs|Hs].
  - rewrite Z.mod_small by lia. rewrite (Z.testbit_neg_r x (i - (32 - n))) by lia. apply orb_false_r.
  - rewrite (word_high_bit x (i + n)) by (done || lia). clear Hx. replace ((i + n) mod 32) with (i - (32 - n)) by dlia. done.
Qed.

Lemma ch_testbit x y z i : 0 <= i < 32 ->
  Z.testbit (SHA256_CH x y z) i = if Z.testbit x i then Z.testbit y i else Z.testbit z i.
Proof.
  intros Hi. unfold SHA256_CH. rewrite Z.lxor_spec, !Z.land_spec, w32_testbit, Z.lnot_spec by lia.
  by destruct (Z.testbit x i), (Z.testbit y i), (Z.testbit z i).
Qed.

Lemma maj_testbit x y z i :
  Z.testbit (SHA256_MAJ x y z) i
  = (Z.testbit x i && Z.testbit y i) || (Z.testbit x i && Z.testbit z i) || (Z.testbit y i && Z.testbit z i).
Proof.
  unfold SHA256_MAJ. rewrite !Z.lxor_spec, !Z.land_spec.
  by destruct (Z.testbit x i), (Z.testbit y i), (Z.testbit z i).
Qed.

(** ** The message schedule satisfies the recurrence of FIPS 180-4, 6.2.2 *)

Lemma extend_prefix n m : exists t, extend n m = m ++ t /\ length t = n.
Proof.
  revert m. induction n as [|n IH]; intros m; simpl; [by exists []; rewrite app_nil_r|].
  destruct (IH (m ++ [w32 (SHA256_SIG1 (nth (length m - 2) m 0) + nth (length m - 7) m 0
                           + SHA256_SIG0 (nth (length m - 15) m 0) + nth (length m - 16) m 0)])) as (t & -> & Hl).
  rewrite <- app_assoc. eexists. split; [done|]. rewrite length_app. simpl. lia.
Qed.

Lemma extend_recurrence n m t :
  (16 <= length m)%nat -> (length m <= t < length m + n)%nat ->
  let W i := nth i (extend n m) 0 in
  W t = w32 (SHA256_SIG1 (W (t - 2)%nat) + W (t - 7)%nat + SHA256_SIG0 (W (t - 15)%nat) + W (t - 16)%nat).
Proof.
  revert m. induction n as [|n IH]; intros m Hm Ht W; [lia|].
  set (x := w32 (SHA256_SIG1 (nth (length m - 2) m 0) + nth (length m - 7) m 0
                 + SHA256_SIG0 (nth (length m - 15) m 0) + nth (length m - 16) m 0)) in *.
  assert (W = fun i => nth i (extend n (m ++ [x])) 0) as HW by done.
  destruct (decide (t = length m)) as [->|Hne].
  - destruct (extend_prefix n (m ++ [x])) as (tl & Htl & _). rewrite HW, Htl, <- app_assoc.
    change ([x] ++ tl) with (x :: tl). rewrite nth_middle, !(app_nth1 m) by lia. done.
  - rewrite HW. apply IH; rewrite length_app; simpl; lia.
Qed.

Lemma schedule_recurrence data t :
  (t < 64)%nat ->
  let W i := nth i (schedule data) 0 in
  W t = if Nat.ltb t 16 then load_word data t
        else w32 (SHA256_SIG1 (W (t - 2)%nat) + W (t - 7)%nat + SHA256_SIG0 (W (t - 15)%nat) + W (t - 16)%nat).
Proof.
  intros Ht W. unfold W, schedule. case_match eqn:Hlt; bool_props.
  - destruct (extend_prefix 48 (map (load_word data) (seq 0 16))) as (tl & -> & _).
    rewrite app_nth1 by (rewrite length_map, length_seq; lia).
    rewrite (nth_indep _ 0 (load_word data 0)) by (rewrite length_map, length_seq; lia).
    rewrite map_nth, seq_nth by lia. done.
  - assert (length (map (load_word data) (seq 0 16)) = 16%nat) as Hl by (by rewrite length_map, length_seq).
    revert Hl. generalize (map (load_word data) (seq 0 16)). intros m0 Hl. remember 48%nat as n eqn:Hn.
    apply extend_recurrence; lia.
Qed.

(** ** The reference digest

    Padding and parsing as in FIPS 180-4, 5.1.1 and 5.2.1: a one bit, the
    least number of zeros, the length in bits on eight bytes, and the
    compression function folded over the blocks of 64 bytes. *)

Definition blocks64 (l : bytes) : list bytes :=
  map (fun i => take 64 (drop (64 * i) l)) (seq 0 (length l / 64)).

Definition pad (msg : bytes) : bytes :=
  msg ++ x80 :: replicate (Z.to_nat ((55 - Z.of_nat (length msg)) mod 64)) x00
      ++ be_bytes 8 (8 * Z.of_nat (length msg)).

Definition absorb (s : sha_regs) (l : bytes) : sha_regs := fold_left compress (blocks64 l) s.

Definition sha256_ref (msg : bytes) : bytes :=
  flat_map (be_bytes 4) (regs_list (absorb initial_state (pad msg))).

Lemma absorb_short s l : (length l < 64)%nat -> absorb s l = s.
Proof. intros Hl. unfold absorb, blocks64. by rewrite Nat.div_small. Qed.

Lemma absorb_block s b l : length b = 64%nat -> absorb s (b ++ l) = absorb (compress s b) l.
Proof.
  intros Hb. unfold absorb, blocks64. rewrite length_app, Hb.
  replace ((64 + length l) / 64)%nat with (S (length l / 64)).
  2:{ replace (64 + length l)%nat with (length l + 1 * 64)%nat by lia. rewrite Nat.div_add by lia. lia. }
  cbn [seq map fold_left]. rewrite Nat.mul_0_r, drop_0, take_app_le, take_ge by lia.
  f_equal. rewrite <- seq_shift, map_map. apply map_ext. intros i.
  rewrite drop_app_ge by lia. f_equal. f_equal. lia.
Qed.

Lemma absorb_app s k l1 l2 : length l1 = (64 * k)%nat -> absorb s (l1 ++ l2) = absorb (absorb s l1) l2.
Proof.
  revert s l1. induction k as [|k IH]; intros s l1 Hk.
  - destruct l1; [rewrite (absorb_short s []) by (simpl; lia); done|simpl in Hk; lia].
  - rewrite <- (take_drop 64 l1), <- app_assoc.
    rewrite (absorb_block s), (absorb_block s) by (rewrite length_take; lia).
    apply IH. rewrite length_drop. lia.
Qed.

(** ** The streaming invariant *)

(** The context has absorbed the message [msg]: its whole blocks [q] are in
    the chaining words, the rest [r] at the start of the buffer. *)
Record holds (s : sha_regs) (buf : bytes) (k : nat) (q r : bytes) : Prop := Holds {
  holds_full : length q = (64 * k)%nat;
  holds_rest : (length r < 64)%nat;
  holds_len : length buf = 64%nat;
  holds_buf : take (length r) buf = r;
  holds_state : s = absorb initial_state q;
}.

Definition absorbed (ctx : mcp_sha256_t) (msg : bytes) : Prop :=
  count ctx = w64 (Z.of_nat (length msg)) /\
  exists k q r, msg = q ++ r /\ holds (state ctx) (buffer ctx) k q r.

Lemma length_memcpy_at buf i p : (i + length p <= length buf)%nat -> length (memcpy_at buf i p) = length buf.
Proof. intros H. unfold memcpy_at. rewrite !length_app, length_take, length_drop. lia. Qed.

Lemma take_memcpy_at buf i p r :
  length r = i -> take i buf = r -> take (i + length p) (memcpy_at buf i p) = r ++ p.
Proof.
  intros <- Hr. unfold memcpy_at. rewrite Hr, app_assoc, take_app_le by (rewrite length_app; lia).
  by rewrite take_ge by (rewrite length_app; lia).
Qed.

(** Input copied after the rest, without and with a full buffer. *)
Lemma holds_copy s buf k q r p :
  holds s buf k q r -> (length r + length p < 64)%nat -> holds s (memcpy_at buf (length r) p) k q (r ++ p).
Proof.
  intros [Hk Hr Hb Ht Hs] Hl. split; [done| | | |done].
  - rewrite length_app. lia.
  - rewrite length_memcpy_at; lia.
  - rewrite length_app. by apply take_memcpy_at.
Qed.

Lemma full_copy s buf k q r p :
  holds s buf k q r -> (length r + length p = 64)%nat -> memcpy_at buf (length r) p = r ++ p.
Proof.
  intros [Hk Hr Hb Ht Hs] Hl. rewrite <- (take_memcpy_at buf (length r) p r) by done.
  rewrite take_ge; [done|]. rewrite length_memcpy_at; lia.
Qed.

Lemma holds_flush s buf k q r b :
  holds s buf k q r -> length b = 64%nat -> holds (compress s b) b (S k) (q ++ b) [].
Proof.
  intros [Hk Hr Hb Ht Hs] Hl. split; [rewrite length_app; lia|simpl; lia|done|done|].
  rewrite (absorb_app _ k) by done. rewrite <- Hs. rewrite <- (app_nil_r b) at 2.
  rewrite absorb_block by done. symmetry. apply absorb_short. simpl. lia.
Qed.

Lemma update_loop_holds fuel ctx k q r p :
  (length p <= fuel)%nat -> holds (state ctx) (buffer ctx) k q r ->
  let c := update_loop fuel ctx (length r) p in
  count c = count ctx /\ exists k' q' r', q ++ r ++ p = q' ++ r' /\ holds (state c) (buffer c) k' q' r'.
Proof.
  revert ctx k q r p. induction fuel as [|fuel IH]; intros ctx k q r p Hf Hh; cbn [update_loop].
  - destruct p; [|simpl in Hf; lia]. split; [done|]. exists k, q, r. by rewrite app_nil_r.
  - case_match eqn:He; bool_props.
    { destruct p; [|done]. split; [done|]. exists k, q, r. by rewrite app_nil_r. }
    pose proof (holds_rest _ _ _ _ _ Hh) as Hr.
    set (n := Nat.min (64 - length r) (length p)).
    assert (length (take n p) = n) as Hn by (rewrite length_take; lia).
    assert (r ++ p = (r ++ take n p) ++ drop n p) as Hsplit by (by rewrite <- app_assoc, take_drop).
    cbn zeta. cbn [set_buffer buffer state count]. case_match eqn:H64; bool_props.
    + unfold sha256_transform; cbn [set_buffer buffer state count].
      rewrite (full_copy _ _ _ _ _ _ Hh) by lia.
      destruct (IH (Sha256 (compress (state ctx) (r ++ take n p)) (count ctx) (r ++ take n p))
                  (S k) (q ++ r ++ take n p) [] (drop n p)) as (Hc & k' & q' & r' & E & Hh').
      * rewrite length_drop. lia.
      * eapply holds_flush; [exact Hh|]. rewrite length_app. lia.
      * split; [exact Hc|]. exists k', q', r'. split; [|exact Hh'].
        rewrite Hsplit, <- E. simpl. by rewrite <- !app_assoc.
    + replace (length r + n)%nat with (length (r ++ take n p)) by (rewrite length_app; lia).
      destruct (IH (set_buffer ctx (memcpy_at (buffer ctx) (length r) (take n p)))
                  k q (r ++ take n p) (drop n p)) as (Hc & k' & q' & r' & E & Hh').
      * rewrite length_drop. lia.
      * apply holds_copy; [done|lia].
      * split; [exact Hc|]. exists k', q', r'. split; [|exact Hh']. by rewrite Hsplit, <- E.
Qed.

Lemma absorbed_index ctx msg q r k :
  count ctx = w64 (Z.of_nat (length msg)) -> msg = q ++ r -> holds (state ctx) (buffer ctx) k q r ->
  Z.to_nat (count ctx mod 64) = length r.
Proof.
  intros -> -> [Hk Hr _ _ _]. unfold w64. rewrite length_app, Hk. dlia.
Qed.

Lemma init_absorbed ctx : length (buffer ctx) = 64%nat -> absorbed (sha256_init ctx) [].
Proof. intros Hb. split; [done|]. exists 0%nat, [], []. split; [done|]. by split; simpl; try lia. Qed.

Lemma update_absorbed ctx msg data : absorbed ctx msg -> absorbed (sha256_update ctx data) (msg ++ data).
Proof.
  intros (Hc & k & q & r & -> & Hh). unfold sha256_update. rewrite (absorbed_index _ _ q r k Hc) by done.
  edestruct (update_loop_holds (length data)
    (Sha256 (state ctx) (w64 (count ctx + Z.of_nat (length data))) (buffer ctx)) k q r data) as (Hc' & k' & q' & r' & E & Hh');
    [done|exact Hh|].
  split.
  - rewrite Hc', Hc, (length_app _ data). simpl. unfold w64. rewrite Zplus_mod_idemp_l. f_equal. lia.
  - exists k', q', r'. split; [|exact Hh']. by rewrite <- app_assoc.
Qed.

(** ** Finishing *)

Definition starts (buf r : bytes) : Prop := length buf = 64%nat /\ take (length r) buf = r.

Lemma starts_copy buf r p i :
  starts buf r -> i = length r -> (i + length p <= 64)%nat -> starts (memcpy_at buf i p) (r ++ p).
Proof.
  intros [Hb Ht] -> Hl. split; [rewrite length_memcpy_at; lia|]. rewrite length_app. by apply take_memcpy_at.
Qed.

Lemma starts_full buf r : starts buf r -> length r = 64%nat -> buf = r.
Proof. intros [Hb Ht] Hl. rewrite <- Ht, take_ge; [done|lia]. Qed.

Lemma length_be_bytes n z : length (be_bytes n z) = n.
Proof. unfold be_bytes. by rewrite length_map, length_seq. Qed.

Lemma z2b_mod z z' : z mod 256 = z' mod 256 -> z2b z = z2b z'.
Proof. unfold z2b. by intros ->. Qed.

(** Only the low 64 bits of the bit count are written. *)
Lemma be_bytes_wrap z z' : w64 z = w64 z' -> be_bytes 8 z = be_bytes 8 z'.
Proof.
  intros Hw. unfold be_bytes. apply map_ext_in. intros b Hb%in_seq. apply z2b_mod.
  change 256 with (2 ^ 8). apply Z.bits_inj'. intros i Hi.
  destruct (decide (i < 8)) as [Hs|Hs]; [|by rewrite !Z.mod_pow2_bits_high by lia].
  rewrite !Z.mod_pow2_bits_low, !Z.shiftr_spec by lia.
  set (j := i + 8 * Z.of_nat (8 - 1 - b)). assert (0 <= j < 64) as Hj by lia.
  rewrite <- (Z.mod_pow2_bits_low z 64 j), <- (Z.mod_pow2_bits_low z' 64 j) by lia.
  by fold (w64 z) (w64 z'); rewrite Hw.
Qed.

Lemma count_bits ctx (msg : bytes) :
  count ctx = w64 (Z.of_nat (length msg)) ->
  be_bytes 8 (w64 (count ctx * 8)) = be_bytes 8 (8 * Z.of_nat (length msg)).
Proof.
  intros ->. apply be_bytes_wrap. unfold w64. rewrite Zmod_mod, Zmult_mod_idemp_l. f_equal. lia.
Qed.

Lemma pad_zeros k q r (msg : bytes) :
  length q = (64 * k)%nat -> (length r < 64)%nat -> msg = q ++ r ->
  Z.to_nat ((55 - Z.of_nat (length msg)) mod 64)
  = if Nat.ltb 55 (length r) then (63 - length r + 56)%nat else (55 - length r)%nat.
Proof. intros Hk Hr ->. rewrite length_app, Hk. case_match eqn:E; bool_props; dlia. Qed.

(** The last block, when the length still fits behind the one bit. *)
Lemma one_block_tail s buf r len :
  starts buf (r ++ [x80]) -> (length r <= 55)%nat -> length len = 8%nat ->
  compress s (memcpy_at (memset0_at buf (S (length r)) (56 - S (length r))) 56 len)
  = absorb s (r ++ x80 :: replicate (55 - length r) x00 ++ len).
Proof.
  intros Hst Hr Hlen.
  set (b := r ++ x80 :: replicate (55 - length r) x00 ++ len).
  assert (length b = 64%nat) as Hb.
  { unfold b. rewrite length_app, length_cons, length_app, length_replicate. lia. }
  rewrite (starts_full _ b); [|unfold b|done].
  2:{ change (x80 :: replicate ?n x00 ++ len) with ([x80] ++ replicate n x00 ++ len). rewrite 2!app_assoc.
      apply starts_copy; [|rewrite !length_app, length_replicate; simpl; lia|lia].
      apply starts_copy; [done|rewrite length_app; simpl; lia|rewrite length_replicate; lia]. }
  rewrite <- (app_nil_r b) at 2. rewrite absorb_block by done. symmetry. apply absorb_short. simpl. lia.
Qed.

(** The last two blocks, when it does not. *)
Lemma two_block_tail s buf r len :
  starts buf (r ++ [x80]) -> (55 < length r < 64)%nat -> length len = 8%nat ->
  let full := memset0_at buf (S (length r)) (64 - S (length r)) in
  compress (compress s full) (memcpy_at (memset0_at full 0 56) 56 len)
  = absorb s (r ++ x80 :: replicate (63 - length r + 56) x00 ++ len).
Proof.
  intros Hst Hr Hlen full.
  set (b := r ++ x80 :: replicate (63 - length r) x00).
  assert (length b = 64%nat) as Hb by (unfold b; rewrite length_app, length_cons, length_replicate; lia).
  assert (full = b) as ->.
  { apply starts_full; [|done]. unfold b, full.
    change (x80 :: replicate ?n x00) with ([x80] ++ replicate n x00). rewrite app_assoc.
    apply starts_copy; [done|rewrite length_app; simpl; lia|rewrite length_replicate; lia]. }
  set (z := replicate 56 x00 ++ len).
  assert (length z = 64%nat) as Hz by (unfold z; rewrite length_app, length_replicate; lia).
  rewrite (starts_full (memcpy_at (memset0_at b 0 56) 56 len) z); [|unfold z|done].
  2:{ apply starts_copy; [|by rewrite length_replicate|lia].
      change (replicate 56 x00) with ([] ++ replicate 56 x00).
      apply starts_copy; [by split|done|rewrite length_replicate; lia]. }
  replace (r ++ _) with (b ++ z ++ []); [|unfold b, z; by rewrite replicate_add, app_nil_r, <- !app_assoc].
  rewrite !absorb_block by done. symmetry. apply absorb_short. simpl. lia.
Qed.

Lemma final_absorbed ctx msg : absorbed ctx msg -> sha256_final ctx = sha256_ref msg.
Proof.
  intros (Hc & k & q & r & Hm & Hh). unfold sha256_final. rewrite (absorbed_index _ _ q r k Hc Hm Hh).
  destruct Hh as [Hk Hr Hb Ht Hs]. unfold sha256_ref, pad. rewrite (pad_zeros k q r msg Hk Hr Hm).
  assert (starts (memcpy_at (buffer ctx) (length r) [x80]) (r ++ [x80])) as Hst.
  { apply starts_copy; [by split|done|simpl; lia]. }
  cbn zeta. f_equal. f_equal. rewrite Hm at 1. rewrite <- app_assoc, (absorb_app _ k) by done. rewrite <- Hs.
  case_match eqn:E; bool_props; cbn [sha256_transform set_buffer state buffer count]; rewrite (count_bits _ _ Hc).
  - replace (Nat.ltb 55 (length r)) with true by (symmetry; apply Nat.ltb_lt; lia).
    apply two_block_tail; [done|lia|apply length_be_bytes].
  - replace (Nat.ltb 55 (length r)) with false by (symmetry; apply Nat.ltb_ge; lia).
    apply one_block_tail; [done|lia|apply length_be_bytes].
Qed.

Lemma updates_absorbed ctx msg chunks :
  absorbed ctx msg -> absorbed (fold_left sha256_update chunks ctx) (msg ++ concat chunks).
Proof.
  revert ctx msg. induction chunks as [|c chunks IH]; intros ctx msg Ha; simpl; [by rewrite app_nil_r|].
  rewrite app_assoc. by apply IH, update_absorbed.
Qed.

Lemma digest_of ctx chunks :
  length (buffer ctx) = 64%nat ->
  sha256_final (fold_left sha256_update chunks (sha256_init ctx)) = sha256_ref (concat chunks).
Proof. intros Hb. by apply final_absorbed, (updates_absorbed _ []), init_absorbed. Qed.

Lemma sha256_hash_ref data : sha256_hash data = sha256_ref data.
Proof. rewrite <- (app_nil_r data) at 2. by apply (digest_of local_ctx [data]). Qed.

Lemma length_flat_be (l : list Z) : length (flat_map (be_bytes 4) l) = (4 * length l)%nat.
Proof.
  induction l as [|x l IH]; [done|]. cbn [flat_map]. rewrite length_app, IH, length_be_bytes. simpl. lia.
Qed.

Lemma length_sha256_ref msg : length (sha256_ref msg) = 32%nat.
Proof. unfold sha256_ref. by rewrite length_flat_be. Qed.

(** ** HMAC (RFC 2104) *)

Definition xor_pad (c : Z) (s : bytes) : bytes := map (fun b => z2b (Z.lxor (b2z b) c)) s.

Definition hmac_key (key : bytes) : bytes :=
  let k := if decide (64 < length key)%nat then sha256_ref key else key in
  k ++ replicate (64 - length k) x00.

Definition hmac_ref (key data : bytes) : bytes :=
  sha256_ref (xor_pad 0x5c (hmac_key key) ++ sha256_ref (xor_pad 0x36 (hmac_key key) ++ data)).

Lemma memcpy_zeros p : (length p <= 64)%nat ->
  memcpy_at (replicate 64 x00) 0 p = p ++ replicate (64 - length p) x00.
Proof. intros Hp. unfold memcpy_at. rewrite drop_replicate. done. Qed.

Lemma hmac_key_pad key :
  (if Nat.ltb 64 (length key) then memcpy_at (replicate 64 x00) 0 (sha256_hash key)
   else if Nat.ltb 0 (length key) then memcpy_at (replicate 64 x00) 0 key else replicate 64 x00) = hmac_key key.
Proof.
  unfold hmac_key. rewrite sha256_hash_ref. case_match eqn:E; bool_props.
  - rewrite decide_True by lia. apply memcpy_zeros. rewrite length_sha256_ref. lia.
  - rewrite decide_False by lia. case_match eqn:E0; bool_props; [apply memcpy_zeros; lia|].
    destruct key; [done|simpl in *; lia].
Qed.

Lemma digest_two a b :
  sha256_final (sha256_update (sha256_update (sha256_init local_ctx) a) b) = sha256_ref (a ++ b).
Proof. apply final_absorbed, update_absorbed, (update_absorbed _ []), init_absorbed. done. Qed.

Lemma hmac_sha256_ref key data : hmac_sha256 key data = hmac_ref key data.
Proof. unfold hmac_sha256. cbn zeta. by rewrite hmac_key_pad, !digest_two. Qed.

Lemma length_hmac key data : length (hmac_sha256 key data) = 32%nat.
Proof. rewrite hmac_sha256_ref. apply length_sha256_ref. Qed.

(** ** The comparison decides equality *)

Lemma subtle_fold (a b : bytes) l acc :
  0 <= acc ->
  Z.eqb (fold_left (fun diff i => Z.lor diff (Z.lxor (b2z (nth i a x00)) (b2z (nth i b x00)))) l acc) 0 = true
  <-> acc = 0 /\ forall i, In i l -> nth i a x00 = nth i b x00.
Proof.
  revert acc. induction l as [|i l IH]; intros acc Ha; simpl.
  - rewrite Z.eqb_eq. naive_solver.
  - rewrite IH.
    2:{ apply Z.lor_nonneg. split; [done|]. apply Z.lxor_nonneg.
        pose proof (b2z_range (nth i a x00)). pose proof (b2z_range (nth i b x00)). lia. }
    rewrite Z.lor_eq_0_iff, Z.lxor_eq_0_iff. split.
    + intros [[-> E] H]. split; [done|]. intros j [<-|Hj]; [by apply b2z_inj|by apply H].
    + intros [-> H]. split; [split; [done|]|]; [by rewrite (H i) by auto|]. intros j Hj. apply H. by right.
Qed.

Lemma subtle_equal_iff (a b : bytes) n :
  length a = n -> length b = n -> mcp_crypto_subtle_equal a b n = true <-> a = b.
Proof.
  intros Ha Hb. unfold mcp_crypto_subtle_equal. rewrite subtle_fold by done. split.
  - intros [_ H]. apply (nth_ext _ _ x00 x00); [congruence|]. intros i Hi. apply H, in_seq. lia.
  - by intros ->.
Qed.

(** ** Theorems *)

(** C13: However a message is cut into pieces and whatever the context
    buffer held before, [sha256_init], the calls of [sha256_update] on the
    pieces in order and [sha256_final] give the SHA-256 digest of the whole
    message: FIPS padding, then the compression function folded over the
    64-byte blocks.  The two-block ending and a counter that wraps modulo
    [2^64] are included. *)
Theorem sha256_digest ctx chunks :
  length (buffer ctx) = 64%nat ->
  sha256_final (fold_left sha256_update chunks (sha256_init ctx)) = sha256_ref (concat chunks).
Proof. apply digest_of. Qed.

(** [hmac_sha256] is HMAC as RFC 2104 defines it over that digest, for
    every key (shorter than, equal to and longer than a block, or empty) and
    every message, and gives 32 bytes. *)
Theorem hmac_reference key data :
  hmac_sha256 key data = hmac_ref key data /\ length (hmac_sha256 key data) = 32%nat.
Proof. split; [apply hmac_sha256_ref|apply length_hmac]. Qed.

(** ** Witnesses *)

Lemma sha256_digest_witness :
  hex (sha256_final (fold_left sha256_update [cs "a"; []; cs "bc"] (sha256_init (Sha256 initial_state 7 (replicate 64 xff)))))
  = cs "ba7816bf8f01cfea414140de5dae2223b00361a396177a9cb410ff61f20015ad".
Proof. rewrite (sha256_digest _ [cs "a"; []; cs "bc"]) by reflexivity. vm_compute. reflexivity. Defined.
