(* ===== verification/Base64.v ===== *)
(** * URL-safe Base64 (src/protocol/mrtr_state.c, lines 238-336)

    The encoder writes the unpadded alphabet of RFC 4648, section 5; the
    decoder also takes the standard alphabet and trailing padding.  The
    output buffers are modelled by the bytes written so far, and the
    theorems bound their number by the size asked of the allocator. *)
From S2P Require Import Prelude Heap Sha256.

Local Open Scope Z_scope.

Definition k_b64url_chars : bytes := cs "ABCDEFGHIJKLMNOPQRSTUVWXYZabcdefghijklmnopqrstuvwxyz0123456789-_".

Definition b64char (i : Z) : byte := nth (Z.to_nat i) k_b64url_chars x00.

Definition b64url_char_val (b : byte) : Z :=
  let c := b2z b in
  if (65 <=? c) && (c <=? 90) then c - 65
  else if (97 <=? c) && (c <=? 122) then c - 97 + 26
  else if (48 <=? c) && (c <=? 57) then c - 48 + 52
  else if Byte.eqb b "-" || Byte.eqb b "+" then 62
  else if Byte.eqb b "_" || Byte.eqb b "/" then 63
  else if Byte.eqb b "=" then -2
  else -1.

(** ** Encoding *)

(** The [size_t] of the allocation, without the terminator. *)
Definition encoded_size (len : nat) : nat :=
  ((len / 3) * 4 + (if Nat.eqb (len mod 3) 1 then 2 else if Nat.eqb (len mod 3) 2 then 3 else 0))%nat.

(** What the loop and the tail of [b64url_encode] write. *)
Fixpoint encode_from (data : bytes) : bytes :=
  match data with
  | [] => []
  | [x] =>
      let v := Z.shiftl (b2z x) 16 in
      [b64char (Z.land (Z.shiftr v 18) 0x3F); b64char (Z.land (Z.shiftr v 12) 0x3F)]
  | [x; y] =>
      let v := Z.lor (Z.shiftl (b2z x) 16) (Z.shiftl (b2z y) 8) in
      [b64char (Z.land (Z.shiftr v 18) 0x3F); b64char (Z.land (Z.shiftr v 12) 0x3F);
       b64char (Z.land (Z.shiftr v 6) 0x3F)]
  | x :: y :: z :: data =>
      let v := Z.lor (Z.lor (Z.shiftl (b2z x) 16) (Z.shiftl (b2z y) 8)) (b2z z) in
      b64char (Z.land (Z.shiftr v 18) 0x3F) :: b64char (Z.land (Z.shiftr v 12) 0x3F)
      :: b64char (Z.land (Z.shiftr v 6) 0x3F) :: b64char (Z.land v 0x3F) :: encode_from data
  end.

Definition b64url_encode (data : bytes) : M (option bytes) :=
  ok <- xmalloc ;; if ok : bool then ret (Some (encode_from data)) else ret None.

(** ** Decoding *)

Record decoder := Dec { val : Z; bits : Z; out : bytes }.

Definition decode_step (d : decoder) (v : Z) : decoder :=
  let val := Z.lor (w32 (Z.shiftl (val d) 6)) v in
  let bits := bits d + 6 in
  if 8 <=? bits then Dec val (bits - 8) (out d ++ [z2b (Z.shiftr val (bits - 8))]) else Dec val bits (out d).

(** The loop: whether it ran to its end or to the padding, and the locals
    and buffer it left. *)
Fixpoint decode_loop (str : bytes) (d : decoder) : bool * decoder :=
  match str with
  | [] => (true, d)
  | c :: str =>
      let v := b64url_char_val c in
      if Z.eqb v (-2) then (forallb (Byte.eqb "=") str, d)
      else if v <? 0 then (false, d)
      else decode_loop str (decode_step d v)
  end.

Definition dangling (d : decoder) : bool :=
  (6 <=? bits d) || ((0 <? bits d) && negb (Z.eqb (Z.land (val d) (Z.shiftl 1 (bits d) - 1)) 0)).

Definition max_out (len : nat) : nat := ((len / 4 + 1) * 3)%nat.

(** [out_len] is not NULL at the call sites. *)
Definition b64url_decode (str : bytes) : M (option bytes) :=
  ok <- xmalloc ;;
  if negb ok then ret None else
  let (fine, d) := decode_loop str (Dec 0 0 []) in
  if negb fine then xfree false ;; ret None
  else if dangling d then xfree false ;; ret None
  else ret (Some (out d)).

Example encode_vector : encode_from (cs "foobar?") = cs "Zm9vYmFyPw".
Proof. by vm_compute. Qed.
Example decode_vector : fst (b64url_decode (cs "Zm9vYmFyPw==") fresh_heap) = Some (cs "foobar?").
Proof. by vm_compute. Qed.
Example decode_dangling : b64url_decode (cs "Zm9vYmFyPx") fresh_heap = (None, snd ((xmalloc ;; xfree false) fresh_heap)).
Proof. by vm_compute. Qed.

(** ** Encoding as a list of sextets *)

Fixpoint sextets (data : bytes) : list Z :=
  match data with
  | [] => []
  | [x] => [b2z x / 4; (b2z x mod 4) * 16]
  | [x; y] => [b2z x / 4; (b2z x mod 4) * 16 + b2z y / 16; (b2z y mod 16) * 4]
  | x :: y :: z :: data =>
      b2z x / 4 :: (b2z x mod 4) * 16 + b2z y / 16 :: (b2z y mod 16) * 4 + b2z z / 64 :: b2z z mod 64 :: sextets data
  end.

Fixpoint decode_vals (vs : list Z) : option bytes :=
  let b1 v1 v2 := z2b (v1 * 4 + v2 / 16) in
  let b2 v2 v3 := z2b ((v2 mod 16) * 16 + v3 / 4) in
  match vs with
  | [] => Some []
  | [_] => None
  | [v1; v2] => if Z.eqb (v2 mod 16) 0 then Some [b1 v1 v2] else None
  | [v1; v2; v3] => if Z.eqb (v3 mod 4) 0 then Some [b1 v1 v2; b2 v2 v3] else None
  | v1 :: v2 :: v3 :: v4 :: vs => (fun d => b1 v1 v2 :: b2 v2 v3 :: z2b ((v3 mod 4) * 64 + v4) :: d) <$> decode_vals vs
  end.

Definition sextet (v : Z) : Prop := 0 <= v < 64.

(** Induction three bytes, or four sextets, at a time. *)
Lemma three_ind (P : bytes -> Prop) :
  P [] -> (forall x, P [x]) -> (forall x y, P [x; y]) ->
  (forall x y z l, P l -> P (x :: y :: z :: l)) -> forall l, P l.
Proof.
  intros H0 H1 H2 H3. fix IH 1. intros [|x [|y [|z l]]]; [done|apply H1|apply H2|]. apply H3, IH.
Qed.

Lemma four_ind {A} (P : list A -> Prop) :
  P [] -> (forall x, P [x]) -> (forall x y, P [x; y]) -> (forall x y z, P [x; y; z]) ->
  (forall x y z w l, P l -> P (x :: y :: z :: w :: l)) -> forall l, P l.
Proof.
  intros H0 H1 H2 H3 H4. fix IH 1. intros [|x [|y [|z [|w l]]]]; [done|apply H1|apply H2|apply H3|]. apply H4, IH.
Qed.

Lemma z2b_eq z b : z = b2z b -> z2b z = b.
Proof. intros ->. apply z2b_b2z. Qed.

(** Equality of lists of characters, bytes or sextets, element by element. *)
Ltac same_list :=
  repeat first [reflexivity | apply (f_equal2 (@cons _))];
  try (first [apply (f_equal b64char) | apply z2b_eq]); dlia.

Lemma lor_add hi lo k : 0 <= k -> 0 <= lo < 2 ^ k -> Z.lor (Z.shiftl hi k) lo = hi * 2 ^ k + lo.
Proof.
  intros Hk Hlo. rewrite Z.shiftl_mul_pow2 by done. rewrite Z.add_comm, Z.lor_comm.
  rewrite Z.add_nocarry_lxor; [symmetry; apply Z.lxor_lor|].
  all: apply Z.bits_inj'; intros i Hi; rewrite Z.land_spec, Z.bits_0, <- Z.shiftl_mul_pow2 by done.
  all: rewrite Z.shiftl_spec by done; destruct (decide (i < k)).
  all: try (rewrite (Z.testbit_neg_r hi) by lia; apply andb_false_r).
  all: rewrite <- (Z.mod_small lo (2 ^ k)) by done; rewrite Z.mod_pow2_bits_high by lia; done.
Qed.

Lemma low6 v : Z.land v 0x3F = v mod 64.
Proof. change 0x3F with (Z.ones 6). by rewrite Z.land_ones. Qed.

Lemma pack3 x y z : 0 <= y < 256 -> 0 <= z < 256 ->
  Z.lor (Z.lor (Z.shiftl x 16) (Z.shiftl y 8)) z = x * 65536 + y * 256 + z.
Proof.
  intros Hy Hz. rewrite (Z.shiftl_mul_pow2 y) by done.
  rewrite (lor_add x (y * 2 ^ 8) 16) by lia.
  replace (x * 2 ^ 16 + y * 2 ^ 8) with (Z.shiftl (x * 256 + y) 8) by (rewrite Z.shiftl_mul_pow2; lia).
  rewrite lor_add by lia. lia.
Qed.

Lemma encode_from_sextets data : encode_from data = map b64char (sextets data).
Proof.
  induction data as [|x|x y|x y z l IH] using three_ind; cbn [encode_from sextets map]; [done| | |].
  all: pose proof (b2z_range x); try pose proof (b2z_range y); try pose proof (b2z_range z).
  - rewrite !low6, !Z.shiftr_div_pow2, Z.shiftl_mul_pow2 by lia. same_list.
  - replace (Z.lor (Z.shiftl (b2z x) 16) (Z.shiftl (b2z y) 8)) with (b2z x * 65536 + b2z y * 256 + 0)
      by (rewrite <- pack3 by lia; by rewrite Z.lor_0_r).
    rewrite !low6, !Z.shiftr_div_pow2 by lia. same_list.
  - rewrite pack3, !low6, !Z.shiftr_div_pow2 by lia. rewrite IH. same_list.
Qed.

Lemma sextets_range data : Forall sextet (sextets data).
Proof.
  unfold sextet. induction data as [|x|x y|x y z l IH] using three_ind; cbn [sextets]; repeat constructor; try done.
  all: pose proof (b2z_range x); try pose proof (b2z_range y); try pose proof (b2z_range z); dlia.
Qed.

Lemma decode_sextets data : decode_vals (sextets data) = Some data.
Proof.
  induction data as [|x|x y|x y z l IH] using three_ind; cbn [sextets decode_vals]; [done| | |].
  all: pose proof (b2z_range x); try pose proof (b2z_range y); try pose proof (b2z_range z).
  - rewrite (proj2 (Z.eqb_eq _ 0)) by dlia. apply f_equal; same_list.
  - rewrite (proj2 (Z.eqb_eq _ 0)) by dlia. apply f_equal. same_list.
  - rewrite IH. cbn [fmap option_fmap option_map]. apply f_equal.
    same_list.
Qed.

(** What decodes is the encoding of the result: no two sextet strings
    decode to the same bytes. *)
Lemma sextets_decode vs data : Forall sextet vs -> decode_vals vs = Some data -> sextets data = vs.
Proof.
  unfold sextet. revert data.
  induction vs as [|v1|v1 v2|v1 v2 v3|v1 v2 v3 v4 vs IH] using @four_ind; intros data Hv; cbn [decode_vals].
  - by intros [= <-].
  - done.
  - case_match eqn:E; [|done]. intros [= <-]. decompose_Forall. bool_props. cbn [sextets].
    rewrite b2z_z2b by dlia. same_list.
  - case_match eqn:E; [|done]. intros [= <-]. decompose_Forall. bool_props. cbn [sextets].
    rewrite !b2z_z2b by dlia. same_list.
  - destruct (decode_vals vs) as [d|]; [|done]. intros [= <-]. decompose_Forall. cbn [sextets].
    rewrite (IH d) by done. rewrite !b2z_z2b by dlia.
    same_list.
Qed.

(** ** The loop as a fold *)

Definition run (vs : list Z) (d : decoder) : decoder := fold_left decode_step vs d.

Lemma step_val x v : sextet v -> Z.lor (w32 (Z.shiftl x 6)) v = (x mod 2 ^ 26) * 64 + v.
Proof.
  unfold sextet. intros Hv. rewrite <- (lor_add _ _ 6) by lia. f_equal. unfold w32.
  rewrite !Z.shiftl_mul_pow2 by lia. change (2 ^ 32) with (2 ^ 26 * 2 ^ 6). by rewrite Z.mul_mod_distr_r.
Qed.

Lemma emit x s b : 0 <= s -> (x / 2 ^ s) mod 256 = b2z b -> z2b (Z.shiftr x s) = b.
Proof.
  intros Hs Hx. rewrite Z.shiftr_div_pow2 by done. rewrite <- (z2b_b2z b), <- Hx.
  apply z2b_mod. by rewrite Zmod_mod.
Qed.

Lemma low_bits x s : 0 <= s -> Z.land x (Z.shiftl 1 s - 1) = x mod 2 ^ s.
Proof. intros Hs. rewrite Z.shiftl_1_l, <- Z.land_ones by done. by rewrite Z.ones_equiv. Qed.

(** The values of [val] and the bytes after one to four sextets of a group. *)
Section group.
Context (x0 v1 v2 v3 v4 : Z) (o : bytes).
Context (H1 : sextet v1) (H2 : sextet v2) (H3 : sextet v3) (H4 : sextet v4).

Lemma run_one : run [v1] (Dec x0 0 o) = Dec ((x0 mod 2 ^ 26) * 64 + v1) 6 o.
Proof using H1. unfold run, decode_step; cbn [fold_left val bits out]. by rewrite step_val. Qed.

Lemma run_two : exists x,
  run [v1; v2] (Dec x0 0 o) = Dec x 4 (o ++ [z2b (v1 * 4 + v2 / 16)]) /\ x mod 4096 = v1 * 64 + v2.
Proof using H1 H2.
  clear H3 H4.
  unfold run. cbn [fold_left]. change (decode_step (Dec x0 0 o) v1) with (run [v1] (Dec x0 0 o)). rewrite run_one.
  unfold decode_step; cbn [val bits out Z.add Z.leb Z.compare Pos.compare Pos.compare_cont Z.sub Pos.add Z.pos_sub].
  rewrite step_val by done. eexists. split.
  - rewrite (emit _ _ (z2b (v1 * 4 + v2 / 16))); [done|done|]. unfold sextet in *. rewrite b2z_z2b by dlia. dlia.
  - unfold sextet in *. dlia.
Qed.

Lemma run_three : exists x,
  run [v1; v2; v3] (Dec x0 0 o) = Dec x 2 (o ++ [z2b (v1 * 4 + v2 / 16); z2b ((v2 mod 16) * 16 + v3 / 4)])
  /\ x mod 4096 = v2 * 64 + v3.
Proof using H1 H2 H3.
  clear H4.
  destruct run_two as (x & E & Hx). change (run [v1; v2; v3] ?d) with (decode_step (run [v1; v2] d) v3). rewrite E.
  unfold decode_step; cbn [val bits out]. change (4 + 6) with 10. cbn [Z.leb Z.compare Pos.compare Pos.compare_cont].
  rewrite step_val, <- app_assoc by done. eexists. split.
  - cbn [app]. change (10 - 8) with 2. rewrite (emit _ _ (z2b ((v2 mod 16) * 16 + v3 / 4))); [done|done|]. unfold sextet in *. rewrite b2z_z2b by dlia. dlia.
  - unfold sextet in *. dlia.
Qed.

Lemma run_four : exists x,
  run [v1; v2; v3; v4] (Dec x0 0 o)
  = Dec x 0 (o ++ [z2b (v1 * 4 + v2 / 16); z2b ((v2 mod 16) * 16 + v3 / 4); z2b ((v3 mod 4) * 64 + v4)]).
Proof.
  destruct run_three as (x & E & Hx). change (run [v1; v2; v3; v4] ?d) with (decode_step (run [v1; v2; v3] d) v4). rewrite E.
  unfold decode_step; cbn [val bits out]. change (2 + 6) with 8. cbn [Z.leb Z.compare Pos.compare Pos.compare_cont].
  rewrite step_val, <- app_assoc by done. eexists.
  cbn [app]. change (8 - 8) with 0. rewrite (emit _ _ (z2b ((v3 mod 4) * 64 + v4))); [done|done|]. unfold sextet in *. rewrite b2z_z2b by dlia. dlia.
Qed.
End group.

Lemma run_decodes vs x o :
  Forall sextet vs ->
  match decode_vals vs with
  | Some data => dangling (run vs (Dec x 0 o)) = false /\ out (run vs (Dec x 0 o)) = o ++ data
  | None => dangling (run vs (Dec x 0 o)) = true
  end.
Proof.
  revert x o. induction vs as [|v1|v1 v2|v1 v2 v3|v1 v2 v3 v4 vs IH] using @four_ind; intros x o Hv;
    repeat (apply Forall_cons in Hv as [? Hv]).
  - cbn. by rewrite app_nil_r.
  - cbn [decode_vals]. rewrite (run_one x v1 o) by done. done.
  - destruct (run_two x v1 v2 o) as (x' & -> & Hx); [done..|]. unfold dangling; cbn [decode_vals bits val out].
    rewrite low_bits by done. change (2 ^ 4) with 16. replace (x' mod 16) with (v2 mod 16) by dlia.
    by destruct (v2 mod 16 =? 0).
  - destruct (run_three x v1 v2 v3 o) as (x' & -> & Hx); [done..|]. unfold dangling; cbn [decode_vals bits val out].
    rewrite low_bits by done. change (2 ^ 2) with 4. replace (x' mod 4) with (v3 mod 4) by dlia.
    by destruct (v3 mod 4 =? 0).
  - destruct (run_four x v1 v2 v3 v4 o) as (x' & E); [done..|].
    change (run (v1 :: v2 :: v3 :: v4 :: vs) ?d) with (run vs (run [v1; v2; v3; v4] d)). rewrite E.
    cbn [decode_vals]. specialize (IH x' (o ++ [z2b (v1 * 4 + v2 / 16); z2b ((v2 mod 16) * 16 + v3 / 4); z2b ((v3 mod 4) * 64 + v4)])).
    destruct (decode_vals vs) as [data|]; cbn [fmap option_fmap option_map]; [|by apply IH].
    destruct IH as [-> ->]; [done|]. by rewrite <- app_assoc.
Qed.

(** ** The alphabet *)

(** The URL-safe spelling of a character of either alphabet. *)
Definition url_char (b : byte) : byte :=
  if Byte.eqb b "+" then "-"%byte else if Byte.eqb b "/" then "_"%byte else b.

Lemma alphabet b :
  0 <= b64url_char_val b -> sextet (b64url_char_val b) /\ b64char (b64url_char_val b) = url_char b.
Proof.
  pose proof (all_bytes_forall (fun b => (b64url_char_val b <? 0) ||
    ((b64url_char_val b <? 64) && Byte.eqb (b64char (b64url_char_val b)) (url_char b))) ltac:(by vm_compute) b) as H.
  intros Hv. apply orb_true_iff in H as [H|H]; bool_props; [lia|]. by split.
Qed.

Lemma url_char_val b : b64url_char_val (url_char b) = b64url_char_val b.
Proof.
  apply Z.eqb_eq.
  exact (all_bytes_forall (fun b => b64url_char_val (url_char b) =? b64url_char_val b) ltac:(by vm_compute) b).
Qed.

Lemma pad_char b : b64url_char_val b = -2 <-> b = "="%byte.
Proof.
  pose proof (all_bytes_forall (fun b => Bool.eqb (b64url_char_val b =? -2) (Byte.eqb b "=")) ltac:(by vm_compute) b) as H.
  apply eqb_prop in H. rewrite <- byte_eqb_eq, <- Z.eqb_eq. by rewrite H.
Qed.

Lemma char_val_lower b : -2 <= b64url_char_val b.
Proof.
  apply Z.leb_le. exact (all_bytes_forall (fun b => -2 <=? b64url_char_val b) ltac:(by vm_compute) b).
Qed.

Lemma char_of_sextet v : sextet v -> b64url_char_val (b64char v) = v /\ url_char (b64char v) = b64char v.
Proof.
  intros Hv.
  assert (forallb (fun n => let v := Z.of_nat n in (b64url_char_val (b64char v) =? v) && Byte.eqb (url_char (b64char v)) (b64char v))
            (seq 0 64) = true) as H by (by vm_compute).
  pose proof (proj1 (forallb_forall _ _) H (Z.to_nat v)) as Hn. unfold sextet in Hv.
  rewrite in_seq in Hn. specialize (Hn ltac:(lia)). cbn zeta in Hn. rewrite Z2Nat.id in Hn by lia. by bool_props.
Qed.

(** ** The loop: a body of sextets and then padding *)

Definition valid_char (b : byte) : Prop := 0 <= b64url_char_val b.

Lemma decode_loop_body body rest d :
  Forall valid_char body -> decode_loop (body ++ rest) d = decode_loop rest (run (map b64url_char_val body) d).
Proof.
  intros Hb. revert d. induction Hb as [|c body Hc Hb IH]; intros d; [done|]. cbn [app decode_loop map].
  unfold valid_char in Hc. case_match eqn:E; bool_props; [lia|]. case_match eqn:E1; bool_props; [lia|].
  apply IH.
Qed.

Lemma decode_loop_pads n d : decode_loop (replicate n "="%byte) d = (true, d).
Proof.
  destruct n as [|n]; [done|]. cbn. f_equal. induction n as [|n IH]; [done|]. by cbn.
Qed.

Lemma all_pads str : forallb (Byte.eqb "=") str = true -> str = replicate (length str) "="%byte.
Proof.
  induction str as [|c str IH]; cbn [forallb length]; [done|]. intros H. bool_props. subst c.
  cbn [replicate]. by rewrite <- IH.
Qed.

Lemma decode_loop_split str d d' :
  decode_loop str d = (true, d') ->
  exists body n, str = body ++ replicate n "="%byte /\ Forall valid_char body /\ d' = run (map b64url_char_val body) d.
Proof.
  revert d. induction str as [|c str IH]; intros d; cbn [decode_loop].
  - intros [= <-]. by exists [], 0%nat.
  - case_match eqn:E; bool_props.
    + intros [= Hp <-]. apply pad_char in E as ->. exists [], (S (length str)). split; [|done].
      cbn [replicate app]. by rewrite <- all_pads.
    + case_match eqn:E1; bool_props; [done|]. intros (body & n & -> & Hb & ->)%IH.
      exists (c :: body), n. split; [done|]. split; [|done]. by constructor.
Qed.

Lemma body_sextets body : Forall valid_char body -> Forall sextet (map b64url_char_val body).
Proof. intros Hb. apply Forall_map. eapply Forall_impl; [exact Hb|]. intros b Hc. by apply alphabet. Qed.

Lemma body_chars body : Forall valid_char body -> map b64char (map b64url_char_val body) = map url_char body.
Proof. intros Hb. rewrite map_map. induction Hb as [|b body Hc Hb IH]; [done|]. cbn [map]. rewrite IH. f_equal. by apply alphabet. Qed.

Lemma encoded_body body data :
  map url_char body = encode_from data -> Forall valid_char body /\ map b64url_char_val body = sextets data.
Proof.
  rewrite encode_from_sextets. pose proof (sextets_range data) as Hr. revert body.
  induction Hr as [|v vs Hv Hr IH]; intros [|b body]; try done. cbn [map]. intros [= Hb Hm].
  apply IH in Hm as [Hf Hm]. assert (b64url_char_val b = v) as E.
  { rewrite <- url_char_val, Hb. by apply char_of_sextet. }
  split; [|by rewrite E, Hm]. constructor; [|done]. unfold valid_char, sextet in *. lia.
Qed.

Lemma encode_url_chars data : map url_char (encode_from data) = encode_from data.
Proof.
  rewrite encode_from_sextets, map_map. pose proof (sextets_range data) as Hr.
  induction Hr as [|v vs Hv Hr IH]; [done|]. cbn [map]. rewrite IH. f_equal. by apply char_of_sextet.
Qed.

(** What the decoder accepts, and as what. *)
Lemma decode_accepts str data :
  (exists d, decode_loop str (Dec 0 0 []) = (true, d) /\ dangling d = false /\ out d = data)
  <-> exists body n, str = body ++ replicate n "="%byte /\ map url_char body = encode_from data.
Proof.
  split.
  - intros (d & (body & n & -> & Hb & ->)%decode_loop_split & Hd & Ho). exists body, n. split; [done|].
    pose proof (run_decodes _ 0 [] (body_sextets _ Hb)) as Hrun.
    destruct (decode_vals _) as [data'|] eqn:E; [|congruence]. destruct Hrun as [_ Hrun].
    apply sextets_decode in E; [|by apply body_sextets].
    rewrite encode_from_sextets, <- (body_chars body) by done. cbn [app] in Hrun. congruence.
  - intros (body & n & -> & Hm). destruct (encoded_body _ _ Hm) as [Hb Hv].
    rewrite (decode_loop_body _ _ _ Hb), decode_loop_pads, Hv. eexists. split; [done|].
    pose proof (run_decodes (sextets data) 0 [] (sextets_range data)) as Hrun. rewrite decode_sextets in Hrun. done.
Qed.

(** ** The heap contracts *)

Lemma xmalloc_granted h ok h' : xmalloc h = (ok, h') -> ok = negb (fails h (calls h)).
Proof. unfold xmalloc. destruct (fails h (calls h)); intros; by simplify_eq. Qed.

Lemma b64url_encode_run data h r h' :
  b64url_encode data h = (r, h') ->
  hstep h h' (if r then 1 else 0) /\ r = (if fails h (calls h) then None else Some (encode_from data)).
Proof.
  unfold b64url_encode. intros H. apply bind_inv in H as (ok & h1 & E & H).
  assert (ok = negb (fails h (calls h))) as Hok by (by eapply xmalloc_granted).
  destruct ok; minv H; (split; [hsolve|]); by destruct (fails h (calls h)).
Qed.

Lemma b64url_decode_run str h r h' :
  b64url_decode str h = (r, h') ->
  hstep h h' (if r then 1 else 0) /\
  r = (if fails h (calls h) then None else
       let (fine, d) := decode_loop str (Dec 0 0 []) in
       if fine && negb (dangling d) then Some (out d) else None).
Proof.
  unfold b64url_decode. intros H. apply bind_inv in H as (ok & h1 & E & H).
  assert (ok = negb (fails h (calls h))) as Hok by (by eapply xmalloc_granted).
  destruct (decode_loop str _) as [fine d]. destruct ok, (fails h (calls h)); try done; cbn [negb] in H.
  - destruct fine, (dangling d); cbn [negb] in H; minv H; (split; [hsolve|done]).
  - minv H. split; [hsolve|done].
Qed.

Lemma decode_iff str h r h' :
  b64url_decode str h = (r, h') ->
  hstep h h' (if r then 1 else 0) /\
  (forall data, r = Some data <->
     fails h (calls h) = false /\
     exists body n, str = body ++ replicate n "="%byte /\ map url_char body = encode_from data).
Proof.
  intros [Hs ->]%b64url_decode_run. split; [done|]. intros data. rewrite <- decode_accepts.
  destruct (fails h (calls h)); [split; [done|by intros [? _]]|].
  destruct (decode_loop str (Dec 0 0 [])) as [[] d]; destruct (dangling d) eqn:Hd; cbn [andb negb];
    (split; [intros; simplify_eq; eauto 10|intros (_ & d0 & E & Hd0 & Ho); simplify_eq; congruence]).
Qed.

Lemma decode_encoded data h r h' :
  b64url_decode (encode_from data) h = (r, h') ->
  hstep h h' (if r then 1 else 0) /\ (ample h -> r = Some data) /\ (r = None \/ r = Some data).
Proof.
  intros H. destruct (decode_iff _ _ _ _ H) as [Hs Hd]. split; [done|].
  assert (fails h (calls h) = false -> r = Some data) as Hok.
  { intros Hf. apply Hd. split; [done|]. exists (encode_from data), 0%nat.
    split; [by rewrite app_nil_r|apply encode_url_chars]. }
  split; [intros Ha; apply Hok, Ha|]. destruct (fails h (calls h)) eqn:Hf; [left|right; by apply Hok].
  destruct r as [data'|]; [|done]. destruct (proj1 (Hd data') eq_refl) as [? _]. congruence.
Qed.

(** ** The buffers *)

Lemma length_encode data : length (encode_from data) = encoded_size (length data).
Proof.
  unfold encoded_size. induction data as [|x|x y|x y z l IH] using three_ind; [done..|].
  cbn [encode_from length]. rewrite IH. replace (S (S (S (length l)))) with (length l + 1 * 3)%nat by lia.
  rewrite Nat.div_add, Nat.Div0.mod_add by lia. lia.
Qed.

Definition used (d : decoder) (n : Z) : Prop := 8 * Z.of_nat (length (out d)) + bits d = 6 * n /\ 0 <= bits d < 8.

Lemma step_used d n v : used d n -> used (decode_step d v) (n + 1).
Proof.
  unfold used, decode_step. intros [He Hb]. case_match eqn:E; bool_props; cbn [out bits]; [rewrite length_app; cbn [length]|]; lia.
Qed.

Lemma decode_loop_used str d n :
  used d n -> exists m, n <= m <= n + Z.of_nat (length str) /\ used (snd (decode_loop str d)) m.
Proof.
  revert d n. induction str as [|c str IH]; intros d n Hu; cbn [decode_loop]; [exists n; split; [simpl; lia|done]|].
  case_match; [exists n; split; [simpl; lia|done]|]. case_match; [exists n; split; [simpl; lia|done]|].
  destruct (IH (decode_step d (b64url_char_val c)) (n + 1)) as (m & Hm & Hu'); [by apply step_used|].
  exists m. split; [simpl; lia|done].
Qed.

(** ** Theorems *)

(** [b64url_decode] accepts exactly the strings that are, up to the two
    spellings of the last two characters of the alphabet and trailing '='
    signs, the encoding of a byte string, and returns that byte string; so
    nothing with a dangling sextet, non-zero leftover bits or a foreign
    character is accepted, and decoding what [b64url_encode] wrote gives the
    data back.  A block stays allocated exactly when a result is returned. *)
Theorem b64url_decode_iff str h r h' :
  b64url_decode str h = (r, h') ->
  hstep h h' (if r then 1 else 0) /\
  (forall data, r = Some data <->
     fails h (calls h) = false /\
     exists body n, str = body ++ replicate n "="%byte /\ map url_char body = encode_from data).
Proof. apply decode_iff. Qed.

(** The encoder writes exactly the [out_len] characters it allocates
    for, and the decoder, on every input and whether it accepts or gives up,
    has written fewer bytes than the [max_out + 1] of its buffer, so the
    terminator fits as well. *)
Theorem b64url_bounds data str :
  length (encode_from data) = encoded_size (length data) /\
  (length (out (snd (decode_loop str (Dec 0 0 [])))) < max_out (length str) + 1)%nat.
Proof.
  split; [apply length_encode|]. destruct (decode_loop_used str (Dec 0 0 []) 0) as (m & Hm & Hu & Hb); [done|].
  unfold max_out. pose proof (Nat.div_mod (length str) 4 ltac:(lia)).
  pose proof (Nat.mod_upper_bound (length str) 4 ltac:(lia)). lia.
Qed.

(** ** Witnesses *)

Lemma b64url_decode_iff_witness :
  fails fresh_heap (calls fresh_heap) = false /\
  exists body n, cs "Zm8_Lw==" = body ++ replicate n "="%byte /\ map url_char body = encode_from (cs "fo?/").
Proof.
  apply (proj2 (b64url_decode_iff (cs "Zm8_Lw==") fresh_heap (Some (cs "fo?/")) (snd (xmalloc fresh_heap)) ltac:(vm_compute; reflexivity)) (cs "fo?/")).
  reflexivity.
Defined.
