(* ===== verification/MrtrState.v ===== *)
(** * Request-state tokens (src/protocol/mrtr_state.c, lines 338-589)

    A server hands its state to the client as an opaque token
    [payload.issued.ttl.signature] and gets it back with the repeated call.
    The payload is URL-safe Base64, the times are decimal milliseconds, the
    signature is the HMAC of all that precedes it, or the word [unsigned]
    when there is no key.  The wall clock is an argument of the operations
    that read it. *)
From S2P Require Import Prelude Heap Utf8 Double JsonValue JsonParse JsonGrammar JsonNumber JsonSerialize JsonApi Schema Message Builders Sha256 Base64.

Local Open Scope Z_scope.

(** [a->free_fn] on a string or buffer of this module. *)
Definition mcp_mrtr_state_free (state : option bytes) : M unit :=
  match state with None => ret tt | Some _ => xfree false end.

(** ** Decimal times *)

Definition UINT64_MAX : Z := 2 ^ 64 - 1.

Fixpoint parse_digits (s : bytes) (val : Z) : option Z :=
  match s with
  | [] => Some val
  | b :: s =>
      if negb (isdigit b) then None else
      let digit := digit_val b in
      if (UINT64_MAX - digit) / 10 <? val then None else parse_digits s (val * 10 + digit)
  end.

Definition parse_uint64 (s : bytes) : option Z :=
  if Nat.eqb (length s) 0 || Nat.ltb 20 (length s) then None else parse_digits s 0.

(** The two fields [clock_gettime] fills. *)
Definition current_time_ms (tv_sec tv_nsec : Z) : Z := w64 (w64 tv_sec * 1000 + tv_nsec / 1000000).

(** ** Packing *)

Definition dot : byte := "."%byte.

(** [key != NULL && key_len > 0]. *)
Definition has_key (key : option bytes) : option bytes :=
  match key with Some ((_ :: _) as k) => Some k | _ => None end.

(** The signature text and the block that holds it. *)
Definition sign (key : option bytes) (signed_part : bytes) : M (option bytes) :=
  match has_key key with
  | Some k => b64url_encode (hmac_sha256 k signed_part)
  | None => ok <- xmalloc ;; if ok : bool then ret (Some (cs "unsigned")) else ret None
  end.

(** [state_out] says whether the pointer is given; of the data the first
    [data_len] bytes are read. *)
Definition mcp_mrtr_state_pack_raw_ex (data : option bytes) (data_len : nat) (key : option bytes)
    (issued_at_ms ttl_ms : Z) (state_out : bool) : M (mcp_status_t * option bytes) :=
  if negb state_out || (bool_decide (data = None) && Nat.ltb 0 data_len) then ret (MCP_ERR_INVALID_ARGUMENT, None) else
  b64_payload <- b64url_encode (take data_len (default [] data)) ;;
  match b64_payload with
  | None => ret (MCP_ERR_NOMEM, None)
  | Some b64_payload =>
      let payload := cstr b64_payload in
      let meta_buf := dot :: fmt_int issued_at_ms ++ dot :: fmt_int ttl_ms in
      if Nat.leb 64 (length meta_buf) then xfree false ;; ret (MCP_ERR_NOMEM, None) else
      ok <- xmalloc ;;
      if negb ok then xfree false ;; ret (MCP_ERR_NOMEM, None) else
      let signed_part := payload ++ meta_buf in
      xfree false ;;
      sig_str <- sign key signed_part ;;
      match sig_str with
      | None => xfree false ;; ret (MCP_ERR_NOMEM, None)
      | Some sig_str =>
          ok <- xmalloc ;;
          if negb ok then xfree false ;; xfree false ;; ret (MCP_ERR_NOMEM, None) else
          let token := signed_part ++ dot :: cstr sig_str in
          xfree false ;; xfree false ;; ret (MCP_OK, Some token)
      end
  end.

Definition mcp_mrtr_state_pack_raw (now : Z) (data : option bytes) (data_len : nat) (key : option bytes)
    (ttl_ms : Z) (state_out : bool) : M (mcp_status_t * option bytes) :=
  mcp_mrtr_state_pack_raw_ex data data_len key now ttl_ms state_out.

(** ** Unpacking *)

(** [strchr(s, '.')]: the text before the dot and the text after it. *)
Definition strchr_dot : bytes -> option (bytes * bytes) := cut dot.

(** The four parts, when there are exactly three dots. *)
Definition split_token (s : bytes) : option (bytes * bytes * bytes * bytes) :=
  match strchr_dot s with
  | None => None
  | Some (part0, s) =>
      match strchr_dot s with
      | None => None
      | Some (part1, s) =>
          match strchr_dot s with
          | None => None
          | Some (part2, part3) =>
              match strchr_dot part3 with Some _ => None | None => Some (part0, part1, part2, part3) end
          end
      end
  end.

(** The signature check: whether the token passes. *)
Definition check_signature (key : option bytes) (signed_part part3 : bytes) : M bool :=
  match has_key key with
  | Some k =>
      if bool_decide (part3 = cs "unsigned") then ret false else
      sig_bytes <- b64url_decode part3 ;;
      match sig_bytes with
      | None => ret false
      | Some sig_bytes =>
          if negb (Nat.eqb (length sig_bytes) 32) then xfree false ;; ret false else
          let match_ := mcp_crypto_subtle_equal (hmac_sha256 k signed_part) sig_bytes 32 in
          xfree false ;; ret match_
      end
  | None => ret (bool_decide (part3 = cs "unsigned"))
  end.

(** The time check, with the wrap-around of [issued_at + ttl]. *)
Definition check_time (now_ms issued_at ttl : Z) : mcp_status_t :=
  if negb (0 <? ttl) then MCP_OK
  else if (now_ms <? issued_at) && (10000 <? issued_at - now_ms) then MCP_ERR_INVALID_ARGUMENT
  else if w64 (issued_at + ttl) <? now_ms then MCP_ERR_TIMEOUT
  else MCP_OK.

(** [outs] says whether [data_out] and [data_len_out] are given; the result
    is the status and the buffer stored. *)
Definition mcp_mrtr_state_unpack_raw_ex (state_str : option bytes) (key : option bytes) (now_ms : Z) (outs : bool)
    : M (mcp_status_t * option bytes) :=
  match state_str with
  | None => ret (MCP_ERR_INVALID_ARGUMENT, None)
  | Some state_str =>
      if negb outs then ret (MCP_ERR_INVALID_ARGUMENT, None) else
      let s := cstr state_str in
      match split_token s with
      | None => ret (MCP_ERR_INVALID_ARGUMENT, None)
      | Some (part0, part1, part2, part3) =>
          match parse_uint64 part1, parse_uint64 part2 with
          | Some issued_at, Some ttl =>
              let signed_len := (length part0 + 1 + length part1 + 1 + length part2)%nat in
              pass <- check_signature key (take signed_len s) part3 ;;
              if negb pass then ret (MCP_ERR_PERMISSION, None) else
              match check_time now_ms issued_at ttl with
              | MCP_OK =>
                  payload_data <- b64url_decode part0 ;;
                  if bool_decide (payload_data = None) && Nat.ltb 0 (length part0)
                  then ret (MCP_ERR_INVALID_ARGUMENT, None) else ret (MCP_OK, payload_data)
              | st => ret (st, None)
              end
          | _, _ => ret (MCP_ERR_INVALID_ARGUMENT, None)
          end
      end
  end.

Definition mcp_mrtr_state_unpack_raw (now : Z) (state_str key : option bytes) (outs : bool)
    : M (mcp_status_t * option bytes) :=
  mcp_mrtr_state_unpack_raw_ex state_str key now outs.

(** ** JSON payloads *)

Definition mcp_mrtr_state_pack (now : Z) (state : option value) (key : option bytes) (ttl_ms : Z) (state_out : bool)
    : M (mcp_status_t * option bytes) :=
  if bool_decide (state = None) || negb state_out then ret (MCP_ERR_INVALID_ARGUMENT, None) else
  json_str <- builtin_serialize state ;;
  match json_str with
  | None => ret (MCP_ERR_NOMEM, None)
  | Some json_str =>
      st <- mcp_mrtr_state_pack_raw now (Some json_str) (length (cstr json_str)) key ttl_ms state_out ;;
      xfree false ;; ret st
  end.

Definition mcp_mrtr_state_unpack (now : Z) (state_str key : option bytes) (state_out : bool)
    : M (mcp_status_t * option value) :=
  if bool_decide (state_str = None) || negb state_out then ret (MCP_ERR_INVALID_ARGUMENT, None) else
  r <- mcp_mrtr_state_unpack_raw now state_str key true ;;
  match r with
  | (MCP_OK, data) =>
      val <- builtin_parse data ;;
      mcp_mrtr_state_free data ;;
      match val with
      | Got v => ret (MCP_OK, Some v)
      | _ => ret (MCP_ERR_INVALID_ARGUMENT, None)
      end
  | (st, _) => ret (st, None)
  end.

Definition sample_token : bytes :=
  default [] (fst (mcp_mrtr_state_pack_raw_ex (Some (cs "step-2")) 6 (Some (cs "secret")) 1000 500 true fresh_heap)).2.

Example unpack_sample :
  fst (mcp_mrtr_state_unpack_raw_ex (Some sample_token) (Some (cs "secret")) 1500 true fresh_heap) = (MCP_OK, Some (cs "step-2")) /\
  fst (mcp_mrtr_state_unpack_raw_ex (Some sample_token) (Some (cs "secret")) 1501 true fresh_heap) = (MCP_ERR_TIMEOUT, None) /\
  fst (mcp_mrtr_state_unpack_raw_ex (Some sample_token) (Some (cs "other")) 1500 true fresh_heap) = (MCP_ERR_PERMISSION, None) /\
  fst (mcp_mrtr_state_unpack_raw_ex (Some sample_token) None 1500 true fresh_heap) = (MCP_ERR_PERMISSION, None).
Proof. by vm_compute. Qed.

(** ** The parts of a token *)

Definition join_token (p0 p1 p2 p3 : bytes) : bytes := (p0 ++ dot :: p1 ++ dot :: p2) ++ dot :: p3.

Lemma split_token_some s p0 p1 p2 p3 :
  split_token s = Some (p0, p1, p2, p3) <->
  s = join_token p0 p1 p2 p3 /\ dot ∉ p0 /\ dot ∉ p1 /\ dot ∉ p2 /\ dot ∉ p3.
Proof.
  unfold split_token, join_token, strchr_dot. rewrite <- app_assoc. cbn [app]. rewrite <- app_assoc. cbn [app]. split.
  - destruct (cut dot s) as [[q0 s1]|] eqn:E0; [|done]. destruct (cut dot s1) as [[q1 s2]|] eqn:E1; [|done].
    destruct (cut dot s2) as [[q2 q3]|] eqn:E2; [|done]. destruct (cut dot q3) eqn:E3; [done|]. intros [= -> -> -> ->].
    apply cut_some in E0 as [-> ?], E1 as [-> ?], E2 as [-> ?]. by apply cut_none in E3.
  - intros (-> & H0 & H1 & H2 & H3).
    rewrite (proj2 (cut_some dot _ p0 _)) by done. rewrite (proj2 (cut_some dot _ p1 _)) by done.
    rewrite (proj2 (cut_some dot _ p2 p3)) by done. by rewrite (proj2 (cut_none dot p3)).
Qed.

Lemma signed_prefix p0 p1 p2 p3 :
  take (length p0 + 1 + length p1 + 1 + length p2) (join_token p0 p1 p2 p3) = p0 ++ dot :: p1 ++ dot :: p2.
Proof.
  unfold join_token. rewrite take_app_le by (rewrite length_app, length_cons, length_app, length_cons; lia).
  apply take_ge. rewrite length_app, length_cons, length_app, length_cons. lia.
Qed.

(** ** Times *)

Lemma dval_cons b s : dval (b :: s) = digit_val b * 10 ^ Z.of_nat (length s) + dval s.
Proof. change (b :: s) with ([b] ++ s). by rewrite dval_app. Qed.

Lemma digit_range b : isdigit b = true -> 0 <= digit_val b <= 9.
Proof. unfold isdigit, digit_val. intros H. bool_props. lia. Qed.

Lemma alldigits_dval s : alldigits s -> 0 <= dval s.
Proof.
  intros H. apply dval_nonneg, forallb_forall. intros b Hb%list_elem_of_In.
  by apply (proj1 (Forall_forall _ _) H).
Qed.

Lemma parse_digits_some s : forall val n, 0 <= val <= UINT64_MAX ->
  parse_digits s val = Some n <->
  alldigits s /\ n = val * 10 ^ Z.of_nat (length s) + dval s /\ n <= UINT64_MAX.
Proof.
  induction s as [|b s IH]; intros val n Hv; cbn [parse_digits length].
  - change (dval []) with 0. split; [intros [= <-]; split; [constructor|lia]|]. intros (_ & -> & _). f_equal. lia.
  - rewrite dval_cons, Nat2Z.inj_succ, Z.pow_succ_r by lia. unfold alldigits. rewrite Forall_cons. fold (alldigits s).
    destruct (isdigit b) eqn:Hb; cbn [negb]; [|naive_solver]. apply digit_range in Hb as Hd.
    case_match eqn:E; bool_props.
    + split; [done|]. intros ([_ Hs] & -> & Hle). exfalso. apply alldigits_dval in Hs.
      assert (1 <= 10 ^ Z.of_nat (length s)) by (pose proof (Z.pow_pos_nonneg 10 (Z.of_nat (length s))); lia).
      assert (UINT64_MAX < val * 10 + digit_val b) by (unfold UINT64_MAX in *; dlia). nia.
    + rewrite IH by (unfold UINT64_MAX in *; dlia). split.
      * intros (Hs & -> & Hle). split; [done|]. split; lia.
      * intros ([_ Hs] & -> & Hle). split; [done|]. split; lia.
Qed.

Lemma parse_uint64_some s n :
  parse_uint64 s = Some n <->
  s <> [] /\ (length s <= 20)%nat /\ alldigits s /\ dval s = n /\ n <= UINT64_MAX.
Proof.
  unfold parse_uint64. destruct (Nat.eqb (length s) 0) eqn:E0; bool_props.
  { destruct s; [|done]. cbn [orb]. naive_solver. }
  cbn [orb]. destruct (Nat.ltb 20 (length s)) eqn:E1; bool_props.
  { split; [done|]. lia. }
  rewrite parse_digits_some by (unfold UINT64_MAX; lia). rewrite Z.mul_0_l, Z.add_0_l.
  assert (s <> []) by (by destruct s). naive_solver.
Qed.

Lemma length_fmt_int n : 0 <= n < 2 ^ 64 -> (length (fmt_int n) <= 20)%nat.
Proof.
  intros Hn. unfold fmt_int. rewrite (proj2 (Z.ltb_ge n 0)), Z.abs_eq by lia. cbn [app].
  destruct (Z.eqb_spec n 0) as [->|Hne]; [simpl; lia|].
  destruct (ndigits_spec n) as [Hk [Hlo _]]; [lia|]. destruct (digits_of_spec (Z.to_nat (ndigits n)) n) as (-> & _ & _); [lia|].
  assert (ndigits n - 1 < 20); [|lia]. apply (Z.pow_lt_mono_r_iff 10); lia.
Qed.

Lemma parse_fmt_int n : 0 <= n < 2 ^ 64 -> parse_uint64 (fmt_int n) = Some n.
Proof.
  intros Hn. destruct (fmt_int_digits n) as (Ha & Hd & Hne); [lia|]. apply parse_uint64_some.
  split; [done|]. split; [by apply length_fmt_int|]. split; [done|]. split; [done|]. unfold UINT64_MAX. lia.
Qed.

Lemma digits_no_dot s : alldigits s -> dot ∉ s.
Proof. intros Ha Hd. by pose proof (proj1 (Forall_forall _ _) Ha _ Hd). Qed.

(** When the time check passes. *)
Definition fresh (now issued ttl : Z) : Prop :=
  ttl = 0 \/ (issued <= now + 10000 /\ now <= w64 (issued + ttl)).

Lemma check_time_ok now issued ttl : 0 <= ttl -> check_time now issued ttl = MCP_OK <-> fresh now issued ttl.
Proof.
  intros Ht. unfold check_time, fresh. destruct (Z.ltb_spec 0 ttl) as [H|H]; cbn [negb]; [|split; [left; lia|done]].
  destruct (Z.ltb_spec now issued), (Z.ltb_spec 10000 (issued - now)); cbn [andb];
    destruct (Z.ltb_spec (w64 (issued + ttl)) now); split; (done || lia || idtac).
Qed.

(** ** Signatures *)

(** [part3] is a signature of [signed] under [key]. *)
Definition authentic (key : option bytes) (signed part3 : bytes) : Prop :=
  match has_key key with
  | Some k => exists body n, part3 = body ++ replicate n "="%byte /\ map url_char body = encode_from (hmac_ref k signed)
  | None => part3 = cs "unsigned"
  end.

Lemma signature_not_unsigned k signed body n :
  map url_char body = encode_from (hmac_ref k signed) -> body ++ replicate n "="%byte <> cs "unsigned".
Proof.
  intros Hm He. apply (f_equal length) in Hm. rewrite length_map, length_encode in Hm. unfold hmac_ref in Hm.
  rewrite length_sha256_ref in Hm. change (encoded_size 32) with 43%nat in Hm.
  apply (f_equal length) in He. rewrite length_app in He. change (length (cs "unsigned")) with 8%nat in He. lia.
Qed.

Lemma check_signature_spec key signed part3 h pass h' :
  check_signature key signed part3 h = (pass, h') ->
  hstep h h' 0 /\ (pass = true -> authentic key signed part3) /\ (ample h -> authentic key signed part3 -> pass = true).
Proof.
  unfold check_signature, authentic. destruct (has_key key) as [k|].
  2:{ intros H. minv H. split; [hsolve|]. by rewrite bool_decide_eq_true. }
  case_bool_decide as Hu.
  { intros H. minv H. split; [hsolve|]. split; [done|]. intros _ (body & n & -> & Hm).
    exfalso. by eapply signature_not_unsigned. }
  intros H. apply bind_inv in H as (r & h1 & E & H). destruct (decode_iff _ _ _ _ E) as [Hs Hd].
  destruct r as [sig|].
  2:{ minv H. split; [hsolve|]. split; [done|]. intros Ha Hb.
      by assert (None = Some (hmac_ref k signed)) by (apply Hd; split; [apply Ha|done]). }
  destruct (proj1 (Hd sig) eq_refl) as (Hf & Hsig).
  assert (authentic_sig : (exists body n, part3 = body ++ replicate n "="%byte /\ map url_char body = encode_from (hmac_ref k signed))
          <-> sig = hmac_ref k signed).
  { split; [|by intros <-]. intros Hb. assert (Some sig = Some (hmac_ref k signed)) as [= ->]; [|done]. apply Hd. by split. }
  rewrite authentic_sig. rewrite hmac_sha256_ref in H. destruct (Nat.eqb_spec (length sig) 32) as [Hl|Hl]; cbn [negb] in H; minv H.
  - split; [hsolve|]. pose proof (subtle_equal_iff (hmac_ref k signed) sig 32 (length_sha256_ref _) Hl) as He.
    split; [intros Ht; symmetry; by apply He|intros _ ->; by apply He].
  - split; [hsolve|]. split; [done|]. intros _ ->. by rewrite <- (hmac_sha256_ref k signed), length_hmac in Hl.
Qed.

(** ** What unpacking accepts *)

(** The token [s] carries [data], is signed under [key] and is fresh at
    [now]. *)
Definition carries (s : bytes) (key : option bytes) (now : Z) (data : bytes) : Prop :=
  exists p0 p1 p2 p3 issued ttl,
    s = join_token p0 p1 p2 p3 /\ dot ∉ p0 /\ dot ∉ p1 /\ dot ∉ p2 /\ dot ∉ p3 /\
    parse_uint64 p1 = Some issued /\ parse_uint64 p2 = Some ttl /\
    authentic key (p0 ++ dot :: p1 ++ dot :: p2) p3 /\ fresh now issued ttl /\
    exists body n, p0 = body ++ replicate n "="%byte /\ map url_char body = encode_from data.

Lemma parsed_nonneg p n : parse_uint64 p = Some n -> 0 <= n.
Proof. intros (_ & _ & Ha & <- & _)%parse_uint64_some. by apply alldigits_dval. Qed.

(** The part of [carries] that is about the four parts. *)
Definition verified (p0 p1 p2 p3 : bytes) (key : option bytes) (now : Z) (data : bytes) : Prop :=
  exists issued ttl,
    parse_uint64 p1 = Some issued /\ parse_uint64 p2 = Some ttl /\
    authentic key (p0 ++ dot :: p1 ++ dot :: p2) p3 /\ fresh now issued ttl /\
    exists body n, p0 = body ++ replicate n "="%byte /\ map url_char body = encode_from data.

Lemma carries_split s key now data :
  carries s key now data <->
  match split_token s with Some (p0, p1, p2, p3) => verified p0 p1 p2 p3 key now data | None => False end.
Proof.
  split.
  - intros (p0 & p1 & p2 & p3 & i & t & Hs & H0 & H1 & H2 & H3 & H).
    rewrite (proj2 (split_token_some s p0 p1 p2 p3)) by done. by exists i, t.
  - destruct (split_token s) as [[[[p0 p1] p2] p3]|] eqn:E; [|done]. apply split_token_some in E as (Hs & H0 & H1 & H2 & H3).
    intros (i & t & H). by exists p0, p1, p2, p3, i, t.
Qed.

(** What a run reports about the data [C] says the token carries. *)
Definition reports (h h' : heap) (st : mcp_status_t) (r : option bytes) (C : bytes -> Prop) : Prop :=
  hstep h h' (if r then 1 else 0) /\
  (forall data, r = Some data -> st = MCP_OK /\ C data) /\
  (st = MCP_OK -> r = None -> ~ ample h) /\
  (forall data, ample h -> C data -> r = Some data).

Lemma reports_refused h h' st (C : bytes -> Prop) :
  hstep h h' 0 -> st <> MCP_OK -> (ample h -> forall data, ~ C data) -> reports h h' st None C.
Proof. intros Hs Hst Hc. split; [done|]. split; [done|]. split; [done|]. intros data Ha Hd. by apply Hc in Hd. Qed.

Lemma payload_reports p0 h st r h' :
  (payload_data <- b64url_decode p0 ;;
   if bool_decide (payload_data = None) && Nat.ltb 0 (length p0)
   then ret (MCP_ERR_INVALID_ARGUMENT, None) else ret (MCP_OK, payload_data)) h = ((st, r), h') ->
  reports h h' st r (fun data => exists body n, p0 = body ++ replicate n "="%byte /\ map url_char body = encode_from data).
Proof.
  intros H. apply bind_inv in H as (d & h1 & E & H). destruct (decode_iff _ _ _ _ E) as [Hs Hd].
  assert (forall data, ample h -> (exists body n, p0 = body ++ replicate n "="%byte /\ map url_char body = encode_from data) ->
    d = Some data) as Hall by (intros data Ha Hc; apply Hd; split; [apply Ha|done]).
  destruct d as [data|]; cbn [andb bool_decide decide] in H.
  - assert (st = MCP_OK /\ r = Some data /\ h' = h1) as (-> & -> & ->) by (by minv H; simplify_eq).
    split; [done|]. split; [|split; [done|exact Hall]]. intros data' [= <-]. split; [done|]. by apply Hd.
  - rewrite bool_decide_true in H by done. cbn [andb] in H. destruct p0 as [|b p0]; cbn [length Nat.ltb Nat.leb] in H.
    + assert (st = MCP_OK /\ r = None /\ h' = h1) as (-> & -> & ->) by (by minv H; simplify_eq).
      split; [done|]. split; [done|]. split; [|exact Hall]. intros _ _ Ha.
      by assert (None = Some (@nil byte)) by (apply Hall; [done|by exists [], 0%nat]).
    + assert (st = MCP_ERR_INVALID_ARGUMENT /\ r = None /\ h' = h1) as (-> & -> & ->) by (by minv H; simplify_eq).
      apply reports_refused; [done|done|]. intros Ha data Hc. by apply Hall in Hc.
Qed.

Lemma reports_weaken h0 h h' st r (C C' : bytes -> Prop) :
  hstep h0 h 0 -> reports h h' st r C -> (forall data, C data <-> C' data) -> reports h0 h' st r C'.
Proof.
  intros H0 (Hs & H1 & H2 & H3) HC. assert (ample h0 -> ample h) as Ha by (by eapply ample_hstep).
  split; [eapply hstep_trans; [exact H0|exact Hs|lia]|]. split; [intros data Hd; apply H1 in Hd as [? ?]; split; [done|by apply HC]|].
  split; [intros E1 E2 Ha0; by apply (H2 E1 E2), Ha|]. intros data Hd Hc. apply H3; [auto|by apply HC].
Qed.

Lemma unpack_reports s key now h st r h' :
  mcp_mrtr_state_unpack_raw_ex (Some s) key now true h = ((st, r), h') ->
  reports h h' st r (carries (cstr s) key now).
Proof.
  unfold mcp_mrtr_state_unpack_raw_ex. cbn [negb]. cbn zeta. intros H.
  destruct (split_token (cstr s)) as [[[[p0 p1] p2] p3]|] eqn:Es.
  2:{ apply ret_inv in H as [[= -> ->] ->]. apply reports_refused; [apply hstep_refl|done|].
      intros _ data Hc. by rewrite carries_split, Es in Hc. }
  assert (forall data, verified p0 p1 p2 p3 key now data <-> carries (cstr s) key now data) as HC
    by (intros data; by rewrite carries_split, Es).
  rewrite (proj1 (proj1 (split_token_some _ _ _ _ _) Es)), signed_prefix in H.
  eapply reports_weaken; [apply hstep_refl| |exact HC]. clear HC Es.
  destruct (parse_uint64 p1) as [issued|] eqn:E1; [destruct (parse_uint64 p2) as [ttl|] eqn:E2|].
  2,3: apply ret_inv in H as [[= -> ->] ->]; apply reports_refused; [apply hstep_refl|done|];
       intros _ data (i & t & H1 & H2 & _); congruence.
  apply bind_inv in H as (pass & h1 & Hp & H). apply check_signature_spec in Hp as (Hs & Hauth & Hpass).
  assert (0 <= ttl) as Ht by (by eapply parsed_nonneg).
  destruct pass; cbn [negb] in H.
  2:{ apply ret_inv in H as [[= -> ->] ->]. apply reports_refused; [done|done|]. intros Ha data (i & t & _ & _ & Hb & _).
      by specialize (Hpass Ha Hb). }
  specialize (Hauth eq_refl). pose proof (check_time_ok now issued ttl Ht) as Htime.
  destruct (decide (check_time now issued ttl = MCP_OK)) as [Hok|Hok].
  - rewrite Hok in H. apply payload_reports in H. eapply reports_weaken; [exact Hs|exact H|]. intros data. split.
    + intros Hc. exists issued, ttl. split_and!; [done..|by apply Htime|done].
    + by intros (i & t & _ & _ & _ & _ & Hc).
  - assert (st = check_time now issued ttl /\ r = None /\ h' = h1) as (-> & -> & ->).
    { destruct (check_time now issued ttl); try done; by apply ret_inv in H as [[= -> ->] ->]. }
    apply reports_refused; [done|done|]. intros _ data (i & t & H1 & H2 & _ & Hf & _). simplify_eq. by apply Htime in Hf.
Qed.

(** ** What packing writes *)

Definition signed_text (data : bytes) (issued ttl : Z) : bytes :=
  encode_from data ++ dot :: fmt_int issued ++ dot :: fmt_int ttl.

Definition signature_text (key : option bytes) (signed : bytes) : bytes :=
  match has_key key with Some k => encode_from (hmac_ref k signed) | None => cs "unsigned" end.

Definition token_text (data : bytes) (key : option bytes) (issued ttl : Z) : bytes :=
  let signed := signed_text data issued ttl in signed ++ dot :: signature_text key signed.

Lemma encoded_char data b : b ∈ encode_from data -> b <> dot /\ b <> x00.
Proof.
  intros Hb. destruct (encoded_body (encode_from data) data) as [Hv _]; [apply encode_url_chars|].
  pose proof (proj1 (Forall_forall _ _) Hv b Hb) as H. split; intros ->; vm_compute in H; by apply H.
Qed.

Lemma not_nul s : (forall b, b ∈ s -> b <> x00) -> has_nul s = false.
Proof.
  induction s as [|b s IH]; intros H; [done|]. rewrite has_nul_cons, IH by set_solver. rewrite orb_false_r.
  apply byte_eqb_neq. intros <-. apply (H x00); set_solver.
Qed.

Lemma encoded_no_nul data : has_nul (encode_from data) = false.
Proof. apply not_nul. intros b Hb. by apply (encoded_char data). Qed.

Lemma signature_no_nul key signed : has_nul (signature_text key signed) = false.
Proof. unfold signature_text. destruct (has_key key); [apply encoded_no_nul|done]. Qed.

Lemma length_meta issued ttl : u64 issued -> u64 ttl -> (length (dot :: fmt_int issued ++ dot :: fmt_int ttl) < 64)%nat.
Proof.
  intros Hi Ht. apply length_fmt_int in Hi, Ht. rewrite length_cons, length_app, length_cons. lia.
Qed.

Lemma sign_spec key signed h r h' :
  sign key signed h = (r, h') ->
  hstep h h' (if r then 1 else 0) /\ match r with Some t => t = signature_text key signed | None => ~ ample h end.
Proof.
  unfold sign, signature_text. destruct (has_key key) as [k|].
  - intros [Hs Hr]%b64url_encode_run. split; [done|]. rewrite hmac_sha256_ref in Hr.
    destruct (fails h (calls h)) eqn:Hf; subst r; [|done]. intros Ha. by rewrite Ha in Hf.
  - intros H. apply bind_inv in H as (ok & h1 & E & H). destruct ok; minv H; (split; [hsolve|]); [done|].
    intros Ha. by apply (xmalloc_ample_inv _ _ _ Ha) in E.
Qed.

Lemma pack_spec data key issued ttl h st r h' :
  u64 issued -> u64 ttl ->
  mcp_mrtr_state_pack_raw_ex (Some data) (length data) key issued ttl true h = ((st, r), h') ->
  hstep h h' (if r then 1 else 0) /\
  match r with
  | Some t => st = MCP_OK /\ t = token_text data key issued ttl
  | None => st = MCP_ERR_NOMEM /\ ~ ample h
  end.
Proof.
  intros Hi Ht H. unfold mcp_mrtr_state_pack_raw_ex in H. cbn [negb orb] in H.
  rewrite bool_decide_false in H by done. cbn [andb default from_option id] in H. rewrite take_ge in H by lia.
  apply bind_inv in H as (p & h1 & E & H). apply b64url_encode_run in E as [Hs1 Hp].
  destruct (fails h (calls h)) eqn:Hf; subst p.
  { apply ret_inv in H as [[= -> ->] ->]. split; [done|]. split; [done|]. intros Ha. by rewrite Ha in Hf. }
  cbn zeta in H. rewrite (cstr_no_nul _ (encoded_no_nul data)) in H.
  rewrite (proj2 (Nat.leb_gt 64 _)) in H by (by apply length_meta).
  assert (forall h0, hstep h h0 1 -> ample h -> ample h0) as Hamp by (intros h0; apply ample_hstep).
  apply bind_inv in H as (ok & h2 & E2 & H). destruct ok; cbn [negb] in H.
  2:{ apply bind_inv in H as ([] & h3 & E3 & H). apply ret_inv in H as [[= -> ->] ->]. split; [hsolve|]. split; [done|].
      intros Ha%(Hamp h1); [|done]. by apply (xmalloc_ample_inv _ _ _ Ha) in E2. }
  apply bind_inv in H as ([] & h3 & E3 & H). fold (signed_text data issued ttl) in H.
  assert (hstep h h3 1) as Hs3 by (clear Hf; hsolve). clear Hs1 E2 E3.
  apply bind_inv in H as (sg & h4 & E4 & H). apply sign_spec in E4 as [Hs4 Hsg]. destruct sg as [sg|].
  2:{ apply bind_inv in H as ([] & h5 & E5 & H). apply ret_inv in H as [[= -> ->] ->]. split; [hsolve|]. split; [done|].
      by intros Ha%(Hamp h3). }
  subst sg. rewrite (cstr_no_nul _ (signature_no_nul key _)) in H.
  apply bind_inv in H as (ok & h5 & E5 & H). destruct ok; cbn [negb] in H;
    apply bind_inv in H as ([] & h6 & E6 & H); apply bind_inv in H as ([] & h7 & E7 & H); apply ret_inv in H as [[= -> ->] ->].
  - split; [hsolve|done].
  - split; [hsolve|]. split; [done|]. intros Ha%(Hamp h3); [|done].
    apply (ample_hstep _ _ _ Hs4) in Ha. by apply (xmalloc_ample_inv _ _ _ Ha) in E5.
Qed.

Lemma fmt_no_dot n : u64 n -> dot ∉ fmt_int n.
Proof. intros Hn. apply digits_no_dot, fmt_int_digits. unfold u64 in Hn. lia. Qed.

Lemma signature_no_dot key signed : dot ∉ signature_text key signed.
Proof.
  unfold signature_text. destruct (has_key key); [|by vm_compute; set_solver]. intros Hb. by apply encoded_char in Hb as [? _].
Qed.

(** A packed token carries its data for as long as it is fresh. *)
Lemma token_carries data key issued ttl now :
  u64 issued -> u64 ttl -> fresh now issued ttl -> carries (token_text data key issued ttl) key now data.
Proof.
  intros Hi Ht Hf. exists (encode_from data), (fmt_int issued), (fmt_int ttl), (signature_text key (signed_text data issued ttl)), issued, ttl.
  split; [done|]. split; [intros Hb; by apply encoded_char in Hb as [? _]|].
  split; [by apply fmt_no_dot|]. split; [by apply fmt_no_dot|]. split; [apply signature_no_dot|].
  split; [by apply parse_fmt_int|]. split; [by apply parse_fmt_int|].
  split; [|split; [done|exists (encode_from data), 0%nat; split; [by rewrite app_nil_r|apply encode_url_chars]]].
  unfold authentic, signature_text. destruct (has_key key) as [k|]; [|done].
  eexists _, 0%nat. split; [by rewrite app_nil_r|apply encode_url_chars].
Qed.

Lemma token_no_nul data key issued ttl : u64 issued -> u64 ttl -> cstr (token_text data key issued ttl) = token_text data key issued ttl.
Proof.
  intros Hi Ht. apply cstr_no_nul. unfold token_text, signed_text. cbn zeta.
  rewrite !has_nul_app, has_nul_cons, has_nul_app, !has_nul_cons, encoded_no_nul, signature_no_nul.
  unfold u64 in *. destruct (fmt_int_text issued) as [-> _]; [lia|]. by destruct (fmt_int_text ttl) as [-> _]; [lia|].
Qed.

Lemma raw_roundtrip data key issued ttl now h :
  ample h -> u64 issued -> u64 ttl -> fresh now issued ttl ->
  exists token h1 h2,
    mcp_mrtr_state_pack_raw_ex (Some data) (length data) key issued ttl true h = ((MCP_OK, Some token), h1) /\
    mcp_mrtr_state_unpack_raw_ex (Some token) key now true h1 = ((MCP_OK, Some data), h2) /\
    hstep h h1 1 /\ hstep h1 h2 1.
Proof.
  intros Ha Hi Ht Hf.
  destruct (mcp_mrtr_state_pack_raw_ex (Some data) (length data) key issued ttl true h) as [[st r] h1] eqn:E1.
  destruct (pack_spec _ _ _ _ _ _ _ _ Hi Ht E1) as [Hs1 Hr]. destruct r as [t|]; [|by destruct Hr]. destruct Hr as [-> ->].
  destruct (mcp_mrtr_state_unpack_raw_ex (Some (token_text data key issued ttl)) key now true h1) as [[st r] h2] eqn:E2.
  destruct (unpack_reports _ _ _ _ _ _ _ E2) as (Hs2 & H1 & _ & H2). rewrite token_no_nul in H1, H2 by done.
  specialize (H2 data (ample_hstep _ _ _ Hs1 Ha) (token_carries _ _ _ _ _ Hi Ht Hf)). subst r.
  destruct (H1 data eq_refl) as [-> _]. by exists (token_text data key issued ttl), h1, h2.
Qed.

(** ** JSON payloads *)

Lemma json_roundtrip v key ttl t0 now h :
  ample h -> wf v -> jdepth (erase v) <= MCP_JSON_MAX_DEPTH -> u64 t0 -> u64 ttl -> fresh now t0 ttl ->
  exists token h1 v' h2,
    mcp_mrtr_state_pack t0 (Some v) key ttl true h = ((MCP_OK, Some token), h1) /\
    mcp_mrtr_state_unpack now (Some token) key true h1 = ((MCP_OK, Some v'), h2) /\
    erase v' = erase v /\ wf v' /\ hstep h h1 1 /\ hstep h1 h2 (blocks v').
Proof.
  intros Ha Hw Hd Hi Ht Hf. destruct (builtin_serialize (Some v) h) as [[text|] h1] eqn:E1.
  2:{ by apply serialize_spec in E1 as [_ ?]. }
  pose proof E1 as E. apply serialize_spec in E as [Hs1 Ht1]; [|done].
  assert (cstr text = text) as Hn by (subst text; by apply cstr_no_nul, render_no_nul).
  assert (ample h1) as Ha1 by (by eapply ample_hstep).
  destruct (raw_roundtrip text key t0 ttl now h1 Ha1 Hi Ht Hf) as (token & h2 & h2' & E2 & _ & Hs2 & _).
  destruct (xfree false h2) as [[] h3] eqn:E3. assert (hstep h h3 1) as Hs3 by hsolve.
  destruct (mcp_mrtr_state_unpack_raw_ex (Some token) key now true h3) as [[st r] h4] eqn:E4.
  destruct (pack_spec _ _ _ _ _ _ _ _ Hi Ht E2) as [_ [_ Htok]].
  destruct (unpack_reports _ _ _ _ _ _ _ E4) as (Hs4 & H1 & _ & H2). rewrite Htok, token_no_nul in H1, H2 by done.
  specialize (H2 text (ample_hstep _ _ _ Hs3 Ha) (token_carries _ _ _ _ _ Hi Ht Hf)). subst r.
  destruct (H1 text eq_refl) as [-> _].
  destruct (builtin_parse_complete text (erase v) h4) as (v' & h5 & E5 & Hv').
  - eapply ample_hstep; [exact Hs4|]. by eapply ample_hstep.
  - subst text. by apply render_utf8.
  - exists [], text, []. split; [constructor|]. split; [constructor|]. rewrite app_nil_r. split; [done|].
    subst text. by apply render_jvalue.
  - destruct (builtin_parse_spec _ _ _ _ E5) as [Hs5 Hw']. destruct (xfree false h5) as [[] h6] eqn:E6.
    exists token, h3, v', h6. split; [|split; [|split; [done|split; [done|split; [done|hsolve]]]]].
    + unfold mcp_mrtr_state_pack. rewrite bool_decide_false by done. cbn [orb negb].
      rewrite (bind_run _ _ _ _ _ E1), Hn. unfold mcp_mrtr_state_pack_raw. rewrite (bind_run _ _ _ _ _ E2).
      by rewrite (bind_run _ _ _ _ _ E3).
    + unfold mcp_mrtr_state_unpack. rewrite bool_decide_false by done. cbn [orb negb].
      unfold mcp_mrtr_state_unpack_raw. rewrite (bind_run _ _ _ _ _ E4), (bind_run _ _ _ _ _ E5).
      cbn [mcp_mrtr_state_free]. by rewrite (bind_run _ _ _ _ _ E6).
Qed.

(** ** Theorems *)

(** Round trip of a request state: with memory available, packing any
    bytes and unpacking the token with the same key (or none on both sides)
    while it is fresh gives the bytes back, leaving one block for the token
    and one for the data. *)
Theorem state_raw_roundtrip data key issued ttl now h :
  ample h -> u64 issued -> u64 ttl -> fresh now issued ttl ->
  exists token h1 h2,
    mcp_mrtr_state_pack_raw_ex (Some data) (length data) key issued ttl true h = ((MCP_OK, Some token), h1) /\
    mcp_mrtr_state_unpack_raw_ex (Some token) key now true h1 = ((MCP_OK, Some data), h2) /\
    hstep h h1 1 /\ hstep h1 h2 1.
Proof. apply raw_roundtrip. Qed.

(** C28: A JSON state survives the trip through the client: with memory, a
    well-formed value nested at most 128 deep is packed by
    [mcp_mrtr_state_pack], and [mcp_mrtr_state_unpack] with the same key (or
    none on both sides) gives a value with the same contents back, as long as
    the token is fresh: its time to live is 0, or the clock is at most ten
    seconds behind the time of issue and not past that time plus the time to
    live (a [uint64_t] sum).  Only the token and then the value stay
    allocated. *)
Theorem state_json_roundtrip v key ttl t0 now h :
  ample h -> wf v -> jdepth (erase v) <= MCP_JSON_MAX_DEPTH -> u64 t0 -> u64 ttl -> fresh now t0 ttl ->
  exists token h1 v' h2,
    mcp_mrtr_state_pack t0 (Some v) key ttl true h = ((MCP_OK, Some token), h1) /\
    mcp_mrtr_state_unpack now (Some token) key true h1 = ((MCP_OK, Some v'), h2) /\
    erase v' = erase v /\ wf v' /\ hstep h h1 1 /\ hstep h1 h2 (blocks v').
Proof. apply json_roundtrip. Qed.

(** C12: What unpacking accepts.  Whatever text a client sends and whatever
    the allocator does, data comes out only when the text has exactly four
    parts, its times are decimal numbers below [2^64], its signature is the
    RFC 2104 HMAC of everything before it under the server's key (for a
    server without a key: the word "unsigned"), the token is fresh, and the
    data is what its first part encodes; with memory available every such
    token is accepted.  Nothing stays allocated but the data. *)
Theorem state_unpack_authentic s key now h st r h' :
  mcp_mrtr_state_unpack_raw_ex (Some s) key now true h = ((st, r), h') ->
  hstep h h' (if r then 1 else 0) /\
  (forall data, r = Some data -> st = MCP_OK /\ carries (cstr s) key now data) /\
  (st = MCP_OK -> r = None -> ~ ample h) /\
  (forall data, ample h -> carries (cstr s) key now data -> r = Some data).
Proof. apply unpack_reports. Qed.

(** The expiry time wraps: a token issued to live as long as possible is
    refused one millisecond after it was issued. *)
Theorem ttl_wraps : check_time 1001 1000 UINT64_MAX = MCP_ERR_TIMEOUT.
Proof. by vm_compute. Qed.

(** ** Witnesses *)

Lemma state_raw_roundtrip_witness :
  exists token h1 h2,
    mcp_mrtr_state_pack_raw_ex (Some (cs "step-2")) (length (cs "step-2")) (Some (cs "secret")) 1000 500 true fresh_heap
      = ((MCP_OK, Some token), h1) /\
    mcp_mrtr_state_unpack_raw_ex (Some token) (Some (cs "secret")) 1500 true h1 = ((MCP_OK, Some (cs "step-2")), h2) /\
    hstep fresh_heap h1 1 /\ hstep h1 h2 1.
Proof.
  apply (state_raw_roundtrip (cs "step-2") (Some (cs "secret")) 1000 500 1500 fresh_heap).
  - exact fresh_ample.
  - unfold u64. lia.
  - unfold u64. lia.
  - right. vm_compute. split; discriminate.
Defined.

Lemma state_json_roundtrip_witness :
  exists token h1 v' h2,
    mcp_mrtr_state_pack 1000 (Some (doc "{'step': 2}")) None 0 true fresh_heap = ((MCP_OK, Some token), h1) /\
    mcp_mrtr_state_unpack 99999 (Some token) None true h1 = ((MCP_OK, Some v'), h2) /\
    erase v' = erase (doc "{'step': 2}") /\ wf v' /\ hstep fresh_heap h1 1 /\ hstep h1 h2 (blocks v').
Proof.
  apply (state_json_roundtrip (doc "{'step': 2}") None 0 1000 99999 fresh_heap).
  - exact fresh_ample.
  - apply doc_wf.
  - vm_compute. discriminate.
  - unfold u64. lia.
  - unfold u64. lia.
  - left. reflexivity.
Defined.

(** A state nested deeper than the parser follows is packed but cannot be
    unpacked. *)
Definition deep_state : value := Nat.iter 129 (fun v => VArray 1 [v]) VNull.

Lemma deep_state_lost :
  match mcp_mrtr_state_pack 1000 (Some deep_state) None 0 true fresh_heap with
  | ((MCP_OK, Some token), h1) => (mcp_mrtr_state_unpack 1000 (Some token) None true h1).1 = (MCP_ERR_INVALID_ARGUMENT, None)
  | _ => False
  end.
Proof. vm_compute. reflexivity. Qed.

Lemma state_unpack_authentic_witness : carries (cstr sample_token) (Some (cs "secret")) 1500 (cs "step-2").
Proof.
  refine (proj2 (proj1 (proj2 (state_unpack_authentic sample_token (Some (cs "secret")) 1500 fresh_heap MCP_OK (Some (cs "step-2"))
    (snd (mcp_mrtr_state_unpack_raw_ex (Some sample_token) (Some (cs "secret")) 1500 true fresh_heap)) _)) (cs "step-2") _)).
  - vm_compute. reflexivity.
  - reflexivity.
Defined.
