(* ===== verification/Sha1.v ===== *)
(** * SHA-1 and the WebSocket accept key (src/core/sha1.c)

    The digest is computed in one call over a buffer: whole blocks where
    they lie, then one or two blocks in a local buffer.  Words are kept at
    32 bits by [w32], the bit count at 64 by [w64].  The accept key of RFC
    6455 is the Base64 form of the digest of the client's key and a fixed
    string. *)
From S2P Require Import Prelude Heap JsonValue Sha256 Base64.

Local Open Scope Z_scope.

Definition SHA1_ROL (x n : Z) : Z := Z.lor (w32 (Z.shiftl x n)) (Z.shiftr x (32 - n)).

(** [state[5]], also the working variables [a] to [e]. *)
Record words5 := W5 { wa : Z; wb : Z; wc : Z; wd : Z; we : Z }.

(** The words [w[16]] to [w[79]], [n] more. *)
Fixpoint expand (n : nat) (w : list Z) : list Z :=
  match n with
  | O => w
  | S n =>
      let i := length w in
      expand n (w ++ [SHA1_ROL (Z.lxor (Z.lxor (Z.lxor (nth (i - 3) w 0) (nth (i - 8) w 0)) (nth (i - 14) w 0)) (nth (i - 16) w 0)) 1])
  end.

Definition schedule80 (block : bytes) : list Z := expand 64 (map (load_word block) (seq 0 16)).

Definition mix (i : nat) (b c d : Z) : Z :=
  if Nat.ltb i 20 then Z.lor (Z.land b c) (Z.land (w32 (Z.lnot b)) d)
  else if Nat.ltb i 40 then Z.lxor (Z.lxor b c) d
  else if Nat.ltb i 60 then Z.lor (Z.lor (Z.land b c) (Z.land b d)) (Z.land c d)
  else Z.lxor (Z.lxor b c) d.

Definition constant (i : nat) : Z :=
  if Nat.ltb i 20 then 0x5A827999 else if Nat.ltb i 40 then 0x6ED9EBA1 else if Nat.ltb i 60 then 0x8F1BBCDC else 0xCA62C1D6.

Definition round1 (w : list Z) (s : words5) (i : nat) : words5 :=
  let '(W5 a b c d e) := s in
  let temp := w32 (SHA1_ROL a 5 + mix i b c d + e + constant i + nth i w 0) in
  W5 temp a (SHA1_ROL b 30) c d.

Definition sha1_transform (s : words5) (block : bytes) : words5 :=
  let '(W5 a b c d e) := fold_left (round1 (schedule80 block)) (seq 0 80) s in
  W5 (w32 (wa s + a)) (w32 (wb s + b)) (w32 (wc s + c)) (w32 (wd s + d)) (w32 (we s + e)).

Definition initial1 : words5 := W5 0x67452301 0xEFCDAB89 0x98BADCFE 0x10325476 0xC3D2E1F0.

(** [while (len >= 64)]: the state and what is left of the data.  Each turn
    takes 64 bytes, so the length is fuel enough. *)
Fixpoint whole_blocks (fuel : nat) (s : words5) (data : bytes) : words5 * bytes :=
  match fuel with
  | O => (s, data)
  | S fuel => if Nat.leb 64 (length data) then whole_blocks fuel (sha1_transform s (take 64 data)) (drop 64 data) else (s, data)
  end.

Definition mcp_sha1 (data : bytes) : bytes :=
  let total_bits := w64 (Z.of_nat (length data) * 8) in
  let (s, rest) := whole_blocks (length data) initial1 data in
  let len := length rest in
  let buffer := replicate 64 x00 in
  let buffer := if Nat.ltb 0 len then memcpy_at buffer 0 rest else buffer in
  let buffer := memcpy_at buffer len [x80] in
  let (s, buffer) := if Nat.leb 56 len then (sha1_transform s buffer, replicate 64 x00) else (s, buffer) in
  let buffer := memcpy_at buffer 56 (be_bytes 8 total_bits) in
  let s := sha1_transform s buffer in
  flat_map (be_bytes 4) [wa s; wb s; wc s; wd s; we s].

(** ** The accept key *)

Definition kBase64Chars : bytes := cs "ABCDEFGHIJKLMNOPQRSTUVWXYZabcdefghijklmnopqrstuvwxyz0123456789+/".

Definition std_char (i : Z) : byte := nth (Z.to_nat i) kBase64Chars x00.

(** One turn of the loop: three bytes to four characters. *)
Definition encode_group (x y z : byte) : bytes :=
  let v := Z.lor (Z.lor (Z.shiftl (b2z x) 16) (Z.shiftl (b2z y) 8)) (b2z z) in
  [std_char (Z.land (Z.shiftr v 18) 0x3F); std_char (Z.land (Z.shiftr v 12) 0x3F);
   std_char (Z.land (Z.shiftr v 6) 0x3F); std_char (Z.land v 0x3F)].

Definition base64_encode_20 (input : bytes) : bytes :=
  let at_ i := nth i input x00 in
  let v := Z.lor (Z.shiftl (b2z (at_ 18%nat)) 16) (Z.shiftl (b2z (at_ 19%nat)) 8) in
  flat_map (fun k => encode_group (at_ (3 * k)) (at_ (3 * k + 1)) (at_ (3 * k + 2)))%nat (seq 0 6)
  ++ [std_char (Z.land (Z.shiftr v 18) 0x3F); std_char (Z.land (Z.shiftr v 12) 0x3F); std_char (Z.land (Z.shiftr v 6) 0x3F); "="%byte].

Definition WS_GUID : bytes := cs "258EAFA5-E914-47DA-95CA-C5AB0DC85B11".

(** [None] in the second component: [accept_buf] is not written. *)
Definition mcp_ws_compute_accept_key (client_key : option bytes) (accept_buf : bool) : mcp_status_t * option bytes :=
  match client_key with
  | None => (MCP_ERR_INVALID_ARGUMENT, None)
  | Some key =>
      if negb accept_buf then (MCP_ERR_INVALID_ARGUMENT, None) else
      let key := cstr key in
      if Nat.ltb 256 (length key) then (MCP_ERR_INVALID_ARGUMENT, None)
      else (MCP_OK, Some (base64_encode_20 (mcp_sha1 (key ++ WS_GUID))))
  end.

(** ** Test vectors (RFC 3174, RFC 6455) *)

Example sha1_abc : hex (mcp_sha1 (cs "abc")) = cs "a9993e364706816aba3e25717850c26c9cd0d89d".
Proof. by vm_compute. Qed.

Example sha1_empty : hex (mcp_sha1 []) = cs "da39a3ee5e6b4b0d3255bfef95601890afd80709".
Proof. by vm_compute. Qed.

Example sha1_two_blocks :
  hex (mcp_sha1 (cs "abcdbcdecdefdefgefghfghighijhijkijkljklmklmnlmnomnopnopq")) = cs "84983e441c3bd26ebaae4aa1f95129e5e54670f1".
Proof. by vm_compute. Qed.

Example rfc6455_accept :
  mcp_ws_compute_accept_key (Some (cs "dGhlIHNhbXBsZSBub25jZQ==")) true = (MCP_OK, Some (cs "s3pPLMBiTxaQ9kYGzzhZRbK+xOo=")).
Proof. by vm_compute. Qed.

(** ** The words *)

Lemma rol_testbit x n i :
  0 <= x < 2 ^ 32 -> 0 < n < 32 -> 0 <= i < 32 -> Z.testbit (SHA1_ROL x n) i = Z.testbit x ((i - n) mod 32).
Proof.
  intros Hx Hn Hi. unfold SHA1_ROL. rewrite Z.lor_spec, w32_testbit, Z.shiftr_spec, Z.shiftl_spec by lia.
  destruct (decide (n <= i)) as [Hs|Hs].
  - rewrite (word_high_bit x (i + (32 - n))) by (done || lia). rewrite orb_false_r. clear Hx. f_equal. rewrite Z.mod_small; lia.
  - rewrite (Z.testbit_neg_r x (i - n)) by lia. cbn. clear Hx. f_equal. dlia.
Qed.

Lemma expand_prefix n w : exists t, expand n w = w ++ t /\ length t = n.
Proof.
  revert w. induction n as [|n IH]; intros w; cbn [expand]; [by exists []; rewrite app_nil_r|]. cbv zeta. set (x := SHA1_ROL _ 1).
  destruct (IH (w ++ [x])) as (t & -> & Hl). rewrite <- app_assoc. eexists. split; [done|]. rewrite length_app. cbn. lia.
Qed.

Lemma expand_recurrence n w t :
  (16 <= length w)%nat -> (length w <= t < length w + n)%nat ->
  let W i := nth i (expand n w) 0 in
  W t = SHA1_ROL (Z.lxor (Z.lxor (Z.lxor (W (t - 3)%nat) (W (t - 8)%nat)) (W (t - 14)%nat)) (W (t - 16)%nat)) 1.
Proof.
  revert w. induction n as [|n IH]; intros w Hw Ht W; [lia|]. unfold W. cbn [expand]. cbv zeta. set (x := SHA1_ROL _ 1).
  destruct (decide (t = length w)) as [->|Hne]; [|apply IH; rewrite length_app; cbn; lia].
  destruct (expand_prefix n (w ++ [x])) as (tl & -> & _). rewrite <- app_assoc.
  change ([x] ++ tl) with (x :: tl). rewrite nth_middle, !(app_nth1 w) by lia. done.
Qed.

(** ** The digest is that of FIPS 180-4 *)

(** Padding as for SHA-256, and the compression folded over the blocks. *)
Definition absorb1 (s : words5) (l : bytes) : words5 := fold_left sha1_transform (blocks64 l) s.

Definition sha1_ref (msg : bytes) : bytes :=
  let s := absorb1 initial1 (pad msg) in flat_map (be_bytes 4) [wa s; wb s; wc s; wd s; we s].

Lemma blocks64_short l : (length l < 64)%nat -> blocks64 l = [].
Proof. intros Hl. unfold blocks64. by rewrite Nat.div_small. Qed.

Lemma blocks64_cons b l : length b = 64%nat -> blocks64 (b ++ l) = b :: blocks64 l.
Proof.
  intros Hb. unfold blocks64. rewrite length_app, Hb. replace ((64 + length l) / 64)%nat with (S (length l / 64)).
  2:{ replace (64 + length l)%nat with (length l + 1 * 64)%nat by lia. rewrite Nat.div_add by lia. lia. }
  cbn [seq map]. rewrite Nat.mul_0_r, drop_0, take_app_le, take_ge by lia. f_equal. rewrite <- seq_shift, map_map. apply map_ext.
  intros i. rewrite drop_app_ge by lia. f_equal. f_equal. lia.
Qed.

Lemma whole_blocks_spec fuel : forall s data s' rest,
  (length data <= fuel)%nat -> whole_blocks fuel s data = (s', rest) ->
  exists q k, data = q ++ rest /\ length q = (64 * k)%nat /\ (length rest < 64)%nat /\ forall tl, absorb1 s (q ++ tl) = absorb1 s' tl.
Proof.
  induction fuel as [|fuel IH]; intros s data s' rest Hf H; cbn [whole_blocks] in H.
  - injection H as <- <-. exists [], 0%nat. repeat split; cbn; lia.
  - destruct (Nat.leb_spec 64 (length data)) as [Hl|Hl].
    + apply IH in H as (q & k & Hd & Hq & Hr & Ha); [|rewrite length_drop; lia].
      assert (length (take 64 data) = 64%nat) as Ht by (rewrite length_take; lia).
      exists (take 64 data ++ q), (S k). split; [by rewrite <- app_assoc, <- Hd, take_drop|]. split; [rewrite length_app; lia|]. split; [done|].
      intros tl. rewrite <- app_assoc. unfold absorb1 at 1. rewrite blocks64_cons by done. cbn [fold_left]. apply Ha.
    + injection H as <- <-. exists [], 0%nat. by repeat split.
Qed.

(** The local buffer after the copy of the rest and the one bit. *)
Lemma local_buffer rest :
  (length rest < 64)%nat ->
  memcpy_at (if Nat.ltb 0 (length rest) then memcpy_at (replicate 64 x00) 0 rest else replicate 64 x00) (length rest) [x80]
  = rest ++ x80 :: replicate (63 - length rest) x00.
Proof.
  intros Hr. assert ((if Nat.ltb 0 (length rest) then memcpy_at (replicate 64 x00) 0 rest else replicate 64 x00) = rest ++ replicate (64 - length rest) x00) as ->.
  { destruct rest as [|c rest]; [done|]. change (Nat.ltb 0 (length (c :: rest))) with true. unfold memcpy_at. rewrite take_0, drop_replicate. done. }
  unfold memcpy_at. rewrite take_app_le, take_ge by lia. f_equal. cbn [length app]. f_equal. rewrite drop_app_ge by lia.
  rewrite drop_replicate. f_equal. lia.
Qed.

Lemma mcp_sha1_ref data : mcp_sha1 data = sha1_ref data.
Proof.
  unfold mcp_sha1, sha1_ref. destruct (whole_blocks _ _ _) as [s rest] eqn:E. apply whole_blocks_spec in E as (q & k & Hd & Hq & Hr & Ha); [|done].
  assert (be_bytes 8 (w64 (Z.of_nat (length data) * 8)) = be_bytes 8 (8 * Z.of_nat (length data))) as ->.
  { apply be_bytes_wrap. unfold w64. rewrite Zmod_mod. f_equal. lia. }
  set (len := be_bytes 8 _). assert (length len = 8%nat) as Hlen by apply length_be_bytes. cbv zeta. rewrite local_buffer by done.
  assert (absorb1 initial1 (pad data) = absorb1 s (rest ++ x80 :: replicate (Z.to_nat ((55 - Z.of_nat (length data)) mod 64)) x00 ++ len)) as ->.
  { unfold pad. rewrite Hd at 1. rewrite <- app_assoc. apply Ha. }
  rewrite (pad_zeros k q rest data Hq Hr Hd).
  assert (forall s b tl, length b = 64%nat -> absorb1 s (b ++ tl) = absorb1 (sha1_transform s b) tl) as Hblk
    by (intros; unfold absorb1; by rewrite blocks64_cons).
  assert (forall s b, length b = 64%nat -> absorb1 s b = sha1_transform s b) as Hone.
  { intros s0 b Hb. rewrite <- (app_nil_r b) at 1. by rewrite Hblk. }
  destruct (Nat.leb_spec 56 (length rest)) as [H56|H56].
  - rewrite (proj2 (Nat.ltb_lt 55 (length rest))) by lia. rewrite replicate_add.
    set (b := rest ++ x80 :: replicate (63 - length rest) x00).
    assert (length b = 64%nat) as Hb by (unfold b; rewrite length_app, length_cons, length_replicate; lia).
    replace (rest ++ _) with (b ++ replicate 56 x00 ++ len) by (unfold b; by rewrite <- !app_assoc).
    rewrite Hblk by done. rewrite Hone by (rewrite length_app, length_replicate; lia).
    replace (memcpy_at (replicate 64 x00) 56 len) with (replicate 56 x00 ++ len); [done|].
    unfold memcpy_at. rewrite Hlen, take_replicate, drop_replicate. cbn [Nat.min Nat.sub Nat.add replicate]. by rewrite app_nil_r.
  - rewrite (proj2 (Nat.ltb_ge 55 (length rest))) by lia.
    rewrite Hone by (rewrite length_app, length_cons, length_app, length_replicate; lia).
    replace (memcpy_at _ 56 len) with (rest ++ x80 :: replicate (55 - length rest) x00 ++ len); [done|].
    unfold memcpy_at. replace (63 - length rest)%nat with ((55 - length rest) + 8)%nat by lia. rewrite replicate_add.
    change (x80 :: ?a ++ ?b) with ([x80] ++ a ++ b). rewrite !app_assoc.
    assert (length ((rest ++ [x80]) ++ replicate (55 - length rest) x00) = 56%nat) as Hl by (rewrite !length_app, length_replicate; cbn; lia).
    rewrite take_app_le, take_ge by lia. rewrite drop_ge by (rewrite length_app, Hl, length_replicate; lia). by rewrite app_nil_r.
Qed.

(** ** The accept key *)

Ltac same_chars :=
  repeat first [reflexivity | apply (f_equal2 (@cons _))]; apply (f_equal std_char); dlia.

Lemma encode_group_spec x y z : encode_group x y z = map std_char (sextets [x; y; z]).
Proof.
  pose proof (b2z_range x). pose proof (b2z_range y). pose proof (b2z_range z). unfold encode_group. cbv zeta.
  rewrite pack3, !low6, !Z.shiftr_div_pow2 by lia. cbn [sextets map]. same_chars.
Qed.

Lemma encode_20_spec d : length d = 20%nat -> base64_encode_20 d = map std_char (sextets d) ++ cs "=".
Proof.
  intros Hl. do 20 (destruct d as [|? d]; [done|]). destruct d; [|done]. unfold base64_encode_20. cbv zeta.
  cbn [seq flat_map Nat.mul Nat.add nth]. rewrite !encode_group_spec.
  match goal with |- context [Z.lor (Z.shiftl (b2z ?a) 16) (Z.shiftl (b2z ?b) 8)] => pose proof (b2z_range a); pose proof (b2z_range b) end.
  match goal with |- context [Z.lor (Z.shiftl ?x 16) (Z.shiftl ?y 8)] =>
    replace (Z.lor (Z.shiftl x 16) (Z.shiftl y 8)) with (x * 65536 + y * 256 + 0) by (rewrite <- pack3 by lia; by rewrite Z.lor_0_r) end.
  rewrite !low6, !Z.shiftr_div_pow2 by lia. cbn [sextets map app]. same_chars.
Qed.

Lemma length_sha1_ref msg : length (sha1_ref msg) = 20%nat.
Proof. unfold sha1_ref. cbv zeta. by rewrite length_flat_be. Qed.

(** For every key the accept key is the padded Base64 form, in the
    standard alphabet, of the SHA-1 digest (the reference of FIPS 180-4 over
    the padded message) of the key followed by the GUID of RFC 6455; it has
    28 characters, so the buffers of 29 and 32 bytes hold it, and a key
    longer than 256 bytes is refused before it is copied. *)
Theorem accept_key_reference key :
  mcp_ws_compute_accept_key (Some key) true =
    (if Nat.ltb 256 (length (cstr key)) then (MCP_ERR_INVALID_ARGUMENT, None)
     else (MCP_OK, Some (map std_char (sextets (sha1_ref (cstr key ++ WS_GUID))) ++ cs "="))) /\
  length (map std_char (sextets (sha1_ref (cstr key ++ WS_GUID))) ++ cs "=") = 28%nat.
Proof.
  assert (forall d, length d = 20%nat -> length (map std_char (sextets d) ++ cs "=") = 28%nat) as Hl.
  { intros d Hd. do 20 (destruct d as [|? d]; [done|]). by destruct d. }
  split; [|apply Hl, length_sha1_ref]. cbn [mcp_ws_compute_accept_key negb]. cbv zeta. destruct (Nat.ltb 256 _); [done|].
  by rewrite mcp_sha1_ref, encode_20_spec by apply length_sha1_ref.
Qed.
