(* ===== verification/Sse.v ===== *)
(** * The event-stream parser (src/transport/sse.c)

    A streaming parser of server-sent events: bytes arrive in chunks, lines
    end with CR, LF or CRLF, the fields of a block of lines make an event,
    which is handed to the host's callback at the empty line.  The callback
    is host code; what is modelled of it is the sequence of events it is
    called with.

    The theorems compare the parser with the documented reading of the whole
    stream, whatever the chunks, and account for its buffers on every
    allocation failure. *)
From S2P Require Import Prelude Heap Steps JsonValue.

Local Open Scope Z_scope.

Local Notation "' p <- m ;; k" := (bind m (fun x => match x with p => k end))
  (at level 100, p strict pattern, m at next level, right associativity) : heap_scope.

(** ** Buffers

    A growing C string: [mem] is what the block holds before its last
    terminator ([None] for NULL), [blen] the length field, [bcap] the
    capacity.  [blen] is 0 while [mem] still holds the old text after a
    failed [buf_set]. *)
Record sbuf := Sbuf { mem : option bytes; blen : nat; bcap : Z }.

Definition no_buf : sbuf := Sbuf None 0 0.

Definition buf_clear (b : sbuf) : sbuf := Sbuf ((fun _ => []) <$> mem b) 0 (bcap b).

Definition no_block (b : sbuf) : bool := match mem b with None => true | Some _ => false end.

Definition buf_free (b : sbuf) : M sbuf :=
  if no_block b then ret b else xfree false ;; ret (Sbuf None (blen b) 0).

(** [while (new_cap < need) new_cap *= 2]. *)
Fixpoint sse_grow (fuel : nat) (need new_cap : Z) : Z :=
  match fuel with
  | O => new_cap
  | S fuel => if new_cap <? need then sse_grow fuel need (new_cap * 2) else new_cap
  end.

Definition cap_fuel (need : Z) : nat := S (Z.to_nat (Z.log2 need)).

(** The copy behind the text and its terminator; past the block it would
    corrupt the heap. *)
Definition buf_put (b : sbuf) (str : bytes) : M sbuf :=
  (if Z.of_nat (blen b + length str) + 1 <=? bcap b then ret tt else mark_corrupt) ;;
  ret (Sbuf (Some (take (blen b) (default [] (mem b)) ++ str)) (blen b + length str) (bcap b)).

Definition buf_append (b : sbuf) (str : bytes) : M (mcp_status_t * sbuf) :=
  let need := Z.of_nat (blen b + length str) + 1 in
  if no_block b || (bcap b <? need) then
    let new_cap := sse_grow (cap_fuel need) need (if bcap b =? 0 then 128 else bcap b * 2) in
    ok <- xrealloc (no_block b) ;;
    if negb ok then ret (MCP_ERR_NOMEM, b)
    else b <- buf_put (Sbuf (Some (default [] (mem b))) (blen b) new_cap) str ;; ret (MCP_OK, b)
  else b <- buf_put b str ;; ret (MCP_OK, b).

Definition buf_set (b : sbuf) (str : bytes) : M (mcp_status_t * sbuf) :=
  buf_append (Sbuf (mem b) 0 (bcap b)) str.

(** ** The parser *)

Record mcp_sse_event_t := Event {
  event : bytes;
  data : bytes;
  id : option bytes;
  retry : Z;
}.

Record mcp_sse_parser_t := Parser {
  line_buf : sbuf;
  pending_lf : bool;
  data_buf : sbuf;
  has_data : bool;
  event_buf : sbuf;
  id_buf : sbuf;
  has_id : bool;
  retry_ms : Z;
  last_event_id : sbuf;
}.

Definition set_line b p := Parser b (pending_lf p) (data_buf p) (has_data p) (event_buf p) (id_buf p) (has_id p) (retry_ms p) (last_event_id p).
Definition set_pending x p := Parser (line_buf p) x (data_buf p) (has_data p) (event_buf p) (id_buf p) (has_id p) (retry_ms p) (last_event_id p).
Definition set_data b x p := Parser (line_buf p) (pending_lf p) b x (event_buf p) (id_buf p) (has_id p) (retry_ms p) (last_event_id p).
Definition set_event b p := Parser (line_buf p) (pending_lf p) (data_buf p) (has_data p) b (id_buf p) (has_id p) (retry_ms p) (last_event_id p).
Definition set_id b x p := Parser (line_buf p) (pending_lf p) (data_buf p) (has_data p) (event_buf p) b x (retry_ms p) (last_event_id p).
Definition set_retry z p := Parser (line_buf p) (pending_lf p) (data_buf p) (has_data p) (event_buf p) (id_buf p) (has_id p) z (last_event_id p).
Definition set_last b p := Parser (line_buf p) (pending_lf p) (data_buf p) (has_data p) (event_buf p) (id_buf p) (has_id p) (retry_ms p) b.

Definition LF : byte := x0a.
Definition CR : byte := x0d.

Definition isdigit (c : byte) : bool := (0x30 <=? b2z c) && (b2z c <=? 0x39).

(** [strtoll(value, NULL, 10)] of digits: past the range it saturates. *)
Definition strtoll (value : bytes) : Z :=
  Z.min (fold_left (fun n c => n * 10 + (b2z c - 0x30)) value 0) (2 ^ 63 - 1).

(** The event of the block that ends. *)
Definition current_event (p : mcp_sse_parser_t) : mcp_sse_event_t :=
  Event (if Nat.ltb 0 (blen (event_buf p)) then cstr (default [] (mem (event_buf p))) else cs "message")
        (cstr (default [] (mem (data_buf p))))
        (if has_id p then cstr <$> mem (id_buf p) else None)
        (retry_ms p).

Definition end_of_block (p : mcp_sse_parser_t) : mcp_sse_parser_t :=
  set_id (buf_clear (id_buf p)) false (set_event (buf_clear (event_buf p)) (set_data (buf_clear (data_buf p)) false p)).

(** The name and the value of a line; one space after the colon is dropped. *)
Definition split_field (line : bytes) : bytes * bytes :=
  match cut ":" (cstr line) with
  | Some (field, value) => (field, match value with " "%byte :: v => v | _ => value end)
  | None => (cstr line, [])
  end.

Definition process_field (p : mcp_sse_parser_t) (field value : bytes) : M (mcp_status_t * mcp_sse_parser_t) :=
  if bool_decide (field = cs "event") then
    '(st, b) <- buf_set (event_buf p) value ;; ret (st, set_event b p)
  else if bool_decide (field = cs "data") then
    '(st, b) <- (if has_data p then buf_append (data_buf p) [LF] else ret (MCP_OK, data_buf p)) ;;
    if negb (bool_decide (st = MCP_OK)) then ret (st, set_data b (has_data p) p)
    else '(st, b) <- buf_append b value ;; ret (st, set_data b true p)
  else if bool_decide (field = cs "id") then
    '(st, b) <- buf_set (id_buf p) value ;;
    if negb (bool_decide (st = MCP_OK)) then ret (st, set_id b true p)
    else '(st, l) <- buf_set (last_event_id p) value ;; ret (st, set_last l (set_id b true p))
  else if bool_decide (field = cs "retry") then
    if negb (bool_decide (value = [])) && forallb isdigit value then ret (MCP_OK, set_retry (strtoll value) p)
    else ret (MCP_OK, p)
  else ret (MCP_OK, p).

Definition process_line (p : mcp_sse_parser_t) : M (mcp_status_t * mcp_sse_parser_t * list mcp_sse_event_t) :=
  if Nat.eqb (blen (line_buf p)) 0 then
    ret (MCP_OK, end_of_block p, if has_data p then [current_event p] else [])
  else
    let line := default [] (mem (line_buf p)) in
    if bool_decide (head line = Some ":"%byte) then ret (MCP_OK, p, [])
    else
      let (field, value) := split_field line in
      '(st, p) <- process_field p field value ;; ret (st, p, []).

Definition mcp_sse_parser_create (on_event : bool) : M (option mcp_sse_parser_t) :=
  if negb on_event then ret None else
  ok <- xmalloc ;;
  if negb ok then ret None
  else ret (Some (Parser no_buf false no_buf false no_buf no_buf false (-1) no_buf)).

Definition is_eol (c : byte) : bool := Byte.eqb c CR || Byte.eqb c LF.

(** [if (i > start) buf_append(...)]. *)
Definition add_segment (p : mcp_sse_parser_t) (seg : bytes) : M (mcp_status_t * mcp_sse_parser_t) :=
  if bool_decide (seg = []) then ret (MCP_OK, p)
  else '(st, b) <- buf_append (line_buf p) seg ;; ret (st, set_line b p).

(** The loop over the chunk: [seg] is what lies between [start] and [i];
    the outer loop is at its top when [seg] is empty. *)
Fixpoint feed_loop (p : mcp_sse_parser_t) (seg chunk : bytes) : M (mcp_status_t * mcp_sse_parser_t * list mcp_sse_event_t) :=
  match chunk with
  | [] => '(st, p) <- add_segment p seg ;; ret (st, p, [])
  | c :: rest =>
      let skip := bool_decide (seg = []) && pending_lf p && Byte.eqb c LF in
      let p := if bool_decide (seg = []) then set_pending false p else p in
      if skip then feed_loop p [] rest
      else if is_eol c then
        '(st, p) <- add_segment p seg ;;
        if negb (bool_decide (st = MCP_OK)) then ret (st, p, []) else
        let p := if Byte.eqb c CR then set_pending true p else p in
        '(st, p, evs) <- process_line p ;;
        let p := set_line (buf_clear (line_buf p)) p in
        if negb (bool_decide (st = MCP_OK)) then ret (st, p, evs)
        else '(st, p, evs') <- feed_loop p [] rest ;; ret (st, p, evs ++ evs')
      else feed_loop p (seg ++ [c]) rest
  end.

(** [chunk] is what lies at the pointer, [len] how much of it is given. *)
Definition mcp_sse_parser_feed (p : option mcp_sse_parser_t) (chunk : option bytes) (len : nat) : M (mcp_status_t * option mcp_sse_parser_t * list mcp_sse_event_t) :=
  match p with
  | None => ret (MCP_ERR_INVALID_ARGUMENT, None, [])
  | Some q =>
      match chunk with
      | None => ret (if Nat.ltb 0 len then MCP_ERR_INVALID_ARGUMENT else MCP_OK, p, [])
      | Some chunk =>
          if Nat.eqb len 0 then ret (MCP_OK, p, []) else
          '(st, q, evs) <- feed_loop q [] (take len chunk) ;; ret (st, Some q, evs)
      end
  end.

Definition mcp_sse_parser_last_event_id (p : option mcp_sse_parser_t) : option bytes :=
  match p with
  | None => None
  | Some p => if Nat.eqb (blen (last_event_id p)) 0 then None else cstr <$> mem (last_event_id p)
  end.

Definition mcp_sse_parser_destroy (p : option mcp_sse_parser_t) : M unit :=
  match p with
  | None => ret tt
  | Some p =>
      buf_free (line_buf p) ;; buf_free (data_buf p) ;; buf_free (event_buf p) ;;
      buf_free (id_buf p) ;; buf_free (last_event_id p) ;; xfree false
  end.

(** A reader of the stream: every chunk is fed, whatever the earlier ones
    returned. *)
Fixpoint feed_all (p : option mcp_sse_parser_t) (chunks : list bytes) : M (list mcp_status_t * option mcp_sse_parser_t * list mcp_sse_event_t) :=
  match chunks with
  | [] => ret ([], p, [])
  | c :: cs =>
      '(st, p, evs) <- mcp_sse_parser_feed p (Some c) (length c) ;;
      '(sts, p, evs') <- feed_all p cs ;; ret (st :: sts, p, evs ++ evs')
  end.

(** ** What a stream means *)

Definition no_eol (s : bytes) : Prop := Forall (fun c => is_eol c = false) s.

(** [terminator t s]: [t] ends a line that [s] follows. *)
Inductive terminator : bytes -> bytes -> Prop :=
| term_lf s : terminator [LF] s
| term_crlf s : terminator [CR; LF] s
| term_cr s : head s <> Some LF -> terminator [CR] s.

(** The complete lines of a stream. *)
Inductive lines_of : bytes -> list bytes -> Prop :=
| lines_end s : no_eol s -> lines_of s []
| lines_next l t s ls : no_eol l -> terminator t s -> lines_of s ls -> lines_of (l ++ t ++ s) (l :: ls).

(** The name and the value of a line. *)
Inductive field : bytes -> bytes -> bytes -> Prop :=
| field_alone n : ":"%byte ∉ n -> field n n []
| field_space n v : ":"%byte ∉ n -> field (n ++ ":"%byte :: " "%byte :: v) n v
| field_value n v : ":"%byte ∉ n -> head v <> Some " "%byte -> field (n ++ ":"%byte :: v) n v.

(** What a block has said so far: its data, type and id, and what outlives
    it, the retry time and the last id. *)
Record block := Block {
  b_data : option bytes;
  b_event : bytes;
  b_id : option bytes;
  b_retry : Z;
  b_last : bytes;
}.

Definition first_block : block := Block None [] None (-1) [].

Definition digits (v : bytes) : Prop := v <> [] /\ Forall (fun c => isdigit c = true) v.

Definition known (n : bytes) : Prop := n ∈ [cs "event"; cs "data"; cs "id"; cs "retry"].

Inductive field_read (b : block) : bytes -> bytes -> block -> Prop :=
| read_event v : field_read b (cs "event") v (Block (b_data b) v (b_id b) (b_retry b) (b_last b))
| read_data v : field_read b (cs "data") v
    (Block (Some (match b_data b with Some d => d ++ LF :: v | None => v end)) (b_event b) (b_id b) (b_retry b) (b_last b))
| read_id v : field_read b (cs "id") v (Block (b_data b) (b_event b) (Some v) (b_retry b) v)
| read_retry v : digits v -> field_read b (cs "retry") v (Block (b_data b) (b_event b) (b_id b) (strtoll v) (b_last b))
| read_bad_retry v : ~ digits v -> field_read b (cs "retry") v b
| read_unknown n v : ~ known n -> field_read b n v b.

Definition block_event (b : block) (d : bytes) : mcp_sse_event_t :=
  Event (if bool_decide (b_event b = []) then cs "message" else b_event b) d (b_id b) (b_retry b).

(** A line of the stream; a line ends where it holds a NUL. *)
Inductive line_read (b : block) : bytes -> block -> list mcp_sse_event_t -> Prop :=
| read_block_end : line_read b [] (Block None [] None (b_retry b) (b_last b))
    (match b_data b with Some d => [block_event b d] | None => [] end)
| read_field l n v b' : l <> [] -> field (cstr l) n v -> field_read b n v b' -> line_read b l b' [].

Inductive lines_read : block -> list bytes -> block -> list mcp_sse_event_t -> Prop :=
| read_nil b : lines_read b [] b []
| read_cons b l b1 evs ls b2 evs' : line_read b l b1 evs -> lines_read b1 ls b2 evs' -> lines_read b (l :: ls) b2 (evs ++ evs').

(** *** A line has one reading *)

Lemma app_split_eq (c : byte) p1 p2 s1 s2 : c ∉ p1 -> c ∉ p2 -> p1 ++ c :: s1 = p2 ++ c :: s2 -> p1 = p2 /\ s1 = s2.
Proof.
  intros H1 H2 E. pose proof (proj2 (cut_some c (p1 ++ c :: s1) p1 s1) (conj eq_refl H1)) as C1.
  rewrite E, (proj2 (cut_some c _ p2 s2) (conj eq_refl H2)) in C1. by simplify_eq.
Qed.

Lemma field_det l n1 v1 n2 v2 : field l n1 v1 -> field l n2 v2 -> n1 = n2 /\ v1 = v2.
Proof.
  assert (forall n s, ":"%byte ∉ n ++ ":"%byte :: s -> False) as X by set_solver.
  intros F H; destruct F; inversion H as [? Hn|? ? Hn Heq|? ? Hn ? Heq]; subst; try done; try (exfalso; eauto; fail);
    apply app_split_eq in Heq as [-> Heq]; simplify_eq; done.
Qed.

Lemma field_read_det b n v b1 b2 : field_read b n v b1 -> field_read b n v b2 -> b1 = b2.
Proof. unfold known. intros F H. destruct F; inversion H; subst; try done; exfalso; set_solver. Qed.

(** The lines as a scanner finds them: the complete lines, the line begun
    and whether the last byte was a CR. *)
Fixpoint split_lines (cur : bytes) (cr : bool) (s : bytes) : list bytes * bytes * bool :=
  match s with
  | [] => ([], cur, cr)
  | c :: s =>
      if cr && Byte.eqb c LF then split_lines [] false s
      else if is_eol c then let '(ls, cur', cr') := split_lines [] (Byte.eqb c CR) s in (cur :: ls, cur', cr')
      else split_lines (cur ++ [c]) false s
  end.

Lemma split_lines_app s1 s2 : forall cur cr,
  split_lines cur cr (s1 ++ s2) =
  let '(ls, cur', cr') := split_lines cur cr s1 in let '(ls', cur'', cr'') := split_lines cur' cr' s2 in (ls ++ ls', cur'', cr'').
Proof.
  induction s1 as [|c s1 IH]; intros cur cr; cbn [app split_lines].
  - by destruct (split_lines cur cr s2) as [[ls c'] r'].
  - destruct (cr && Byte.eqb c LF); [apply IH|]. destruct (is_eol c); [|apply IH]. rewrite IH.
    destruct (split_lines [] _ s1) as [[ls c'] r']. by destruct (split_lines c' r' s2) as [[ls' c''] r''].
Qed.

(** After a CR, a LF belongs to the line before. *)
Definition drop_lf (cr : bool) (s : bytes) : bytes :=
  match s with c :: s' => if cr && Byte.eqb c LF then s' else s | [] => [] end.

Lemma split_lines_of s : forall cur cr ls cur' cr',
  (cr = true -> cur = []) -> no_eol cur -> split_lines cur cr s = (ls, cur', cr') -> lines_of (cur ++ drop_lf cr s) ls.
Proof.
  induction s as [|c s IH]; intros cur cr ls cur' cr' Hcr Hcur H; cbn [split_lines drop_lf] in *.
  - injection H as <- <- <-. rewrite app_nil_r. by constructor.
  - destruct (cr && Byte.eqb c LF) eqn:E.
    + apply andb_true_iff in E as [-> _]. rewrite (Hcr eq_refl). apply IH in H; [|done|by constructor]. by destruct s.
    + destruct (is_eol c) eqn:Ec.
      * destruct (split_lines [] (Byte.eqb c CR) s) as [[ls0 c0] r0] eqn:Es. injection H as <- <- <-.
        pose proof (IH [] _ _ _ _ (fun _ => eq_refl) (Forall_nil_2 _) Es) as Hls. cbn [app] in Hls. destruct (Byte.eqb c CR) eqn:Er.
        -- apply byte_eqb_eq in Er as ->. destruct s as [|d s]; [by apply (lines_next cur [CR] []); [|constructor|]|].
           cbn [drop_lf andb] in Hls. destruct (Byte.eqb d LF) eqn:El.
           ++ apply byte_eqb_eq in El as ->. by apply (lines_next cur [CR; LF] s); [|constructor|].
           ++ apply byte_eqb_neq in El. apply (lines_next cur [CR] (d :: s)); [done| |done]. constructor. cbn. congruence.
        -- assert (c = LF) as ->. { unfold is_eol in Ec. rewrite Er in Ec. by apply byte_eqb_eq in Ec. }
           replace (drop_lf false s) with s in Hls by (by destruct s). by apply (lines_next cur [LF] s); [|constructor|].
      * apply IH in H; [|done|apply Forall_app; split; [done|by constructor]].
        replace (drop_lf false s) with s in H by (by destruct s). by rewrite <- app_assoc in H.
Qed.

Lemma split_whole s ls cur cr : split_lines [] false s = (ls, cur, cr) -> lines_of s ls.
Proof. intros H%split_lines_of; [|done|constructor]. by destruct s. Qed.

Lemma split_no_eol l : no_eol l -> forall cur, split_lines cur false l = ([], cur ++ l, false).
Proof.
  induction 1 as [|c l Hc _ IH]; intros cur; cbn [split_lines andb]; [by rewrite app_nil_r|].
  by rewrite Hc, IH, <- app_assoc.
Qed.

Lemma split_after_cr s : head s <> Some LF -> (split_lines [] true s).1.1 = (split_lines [] false s).1.1.
Proof. destruct s as [|c s]; cbn [split_lines]; [done|]. intros H. destruct (Byte.eqb c LF) eqn:E; [|done]. by apply byte_eqb_eq in E as ->. Qed.

Lemma lines_of_split s ls : lines_of s ls -> (split_lines [] false s).1.1 = ls.
Proof.
  induction 1 as [s Hs|l t s ls Hl Ht _ IH]; [by rewrite split_no_eol|]. rewrite split_lines_app, split_no_eol by done. cbn [app].
  destruct Ht as [s|s|s Hh]; cbn [app split_lines andb].
  - change (is_eol LF) with true. change (Byte.eqb LF CR) with false. cbn iota.
    destruct (split_lines [] false s) as [[ls' c'] r'] eqn:E; cbn in *. by subst ls.
  - change (is_eol CR) with true. change (Byte.eqb CR CR) with true. cbn [app split_lines andb]. change (Byte.eqb LF LF) with true.
    destruct (split_lines [] false s) as [[ls' c'] r'] eqn:E; cbn in *. by subst ls.
  - change (is_eol CR) with true. change (Byte.eqb CR CR) with true. cbn iota. rewrite <- (split_after_cr s Hh) in IH.
    destruct (split_lines [] true s) as [[ls' c'] r'] eqn:E; cbn in *. by subst ls.
Qed.

(** ** The buffers *)

Definition room (b : sbuf) : Prop :=
  match mem b with Some s => Z.of_nat (length s) + 1 <= bcap b | None => bcap b = 0 end.

(** A buffer the operations may work on. *)
Definition wfb (b : sbuf) : Prop := room b /\ (blen b <= length (default [] (mem b)))%nat.

(** A buffer that holds the string [s]. *)
Definition holds (b : sbuf) (s : bytes) : Prop := wfb b /\ blen b = length s /\ default [] (mem b) = s.

Definition nblocks (b : sbuf) : Z := if no_block b then 0 else 1.

Lemma no_buf_holds : holds no_buf [].
Proof. by repeat split. Qed.

Lemma clear_wfb b : wfb b -> wfb (buf_clear b).
Proof. intros [R L]. unfold wfb, room, buf_clear in *. destruct (mem b) as [s|]; cbn in *; split; lia. Qed.

Lemma clear_holds b : wfb b -> holds (buf_clear b) [].
Proof. intros H. split; [by apply clear_wfb|]. split; [done|]. cbn. by destruct (mem b). Qed.

Lemma clear_nblocks b : nblocks (buf_clear b) = nblocks b.
Proof. unfold nblocks, no_block, buf_clear. cbn. by destruct (mem b). Qed.

Lemma sse_grow_enough fuel : forall need c, 0 < c -> need <= c * 2 ^ Z.of_nat fuel -> need <= sse_grow fuel need c.
Proof.
  induction fuel as [|fuel IH]; intros need c Hc Hn; cbn [sse_grow]; [cbn in Hn; lia|].
  destruct (Z.ltb_spec c need); [|lia]. apply IH; [lia|]. rewrite Nat2Z.inj_succ, Z.pow_succ_r in Hn by lia. lia.
Qed.

Lemma cap_fuel_enough need c : 0 < need -> 0 < c -> need <= sse_grow (cap_fuel need) need c.
Proof.
  intros Hn Hc. apply sse_grow_enough; [done|]. unfold cap_fuel. pose proof (Z.log2_spec need Hn) as [_ H]. pose proof (Z.log2_nonneg need).
  rewrite Nat2Z.inj_succ, Z2Nat.id by lia. set (q := 2 ^ _) in *. nia.
Qed.

Lemma put_spec b str h r h' :
  (blen b <= length (default [] (mem b)))%nat -> Z.of_nat (blen b + length str) + 1 <= bcap b -> buf_put b str h = (r, h') ->
  h' = h /\ r = Sbuf (Some (take (blen b) (default [] (mem b)) ++ str)) (blen b + length str) (bcap b) /\ wfb r.
Proof.
  intros Hl Hc H. unfold buf_put in H. rewrite (proj2 (Z.leb_le _ _) Hc) in H. apply bind_inv in H as (u & h1 & E & H).
  apply ret_inv in E as [_ ->]. apply ret_inv in H as [-> ->]. split; [done|]. split; [done|].
  unfold wfb, room. cbn. rewrite length_app, length_take. lia.
Qed.

(** What [buf_append] does to a buffer: on failure nothing. *)
Definition appended_to (b : sbuf) (str : bytes) (h : heap) (st : mcp_status_t) (b' : sbuf) (h' : heap) : Prop :=
  cstep h h' (nblocks b' - nblocks b) /\ wfb b' /\
  (st = MCP_OK /\ b' = Sbuf (Some (take (blen b) (default [] (mem b)) ++ str)) (blen b + length str) (bcap b') \/
   st = MCP_ERR_NOMEM /\ b' = b /\ ~ ample h).

Lemma append_spec b str h st b' h' : wfb b -> buf_append b str h = ((st, b'), h') -> appended_to b str h st b' h'.
Proof.
  intros W H. unfold buf_append in H. cbv zeta in H. pose proof W as [R L]. destruct (no_block b || (bcap b <? _)) eqn:E.
  - apply bind_inv in H as (ok & h1 & Er & H). pose proof (xrealloc_cstep _ _ _ _ Er) as Hs. destruct ok; cbn [negb] in H.
    + apply bind_inv in H as (r & h2 & Ep & H). apply ret_inv in H as [[= -> ->] ->]. apply put_spec in Ep as (-> & -> & Hw).
      * split; [|split; [done|by left]]. eapply cstep_eq; [exact Hs|]. unfold nblocks. cbn. by destruct (no_block b).
      * by destruct (mem b).
      * cbn [bcap blen mem]. apply cap_fuel_enough; [lia|]. unfold room in R. destruct (Z.eqb_spec (bcap b) 0); [lia|]. destruct (mem b); lia.
    + apply ret_inv in H as [[= -> ->] ->]. split; [eapply cstep_eq; [exact Hs|lia]|]. split; [done|]. right. split; [done|]. split; [done|].
      intros A. by apply xrealloc_ample_inv in Er.
  - apply orb_false_iff in E as [En Ec]. apply Z.ltb_ge in Ec. apply bind_inv in H as (r & h2 & Ep & H). apply ret_inv in H as [[= -> ->] ->].
    apply put_spec in Ep as (-> & -> & Hw); [|done|done]. split; [|split; [done|by left]].
    eapply cstep_eq; [apply cstep_refl|]. unfold nblocks. rewrite En. by cbn.
Qed.

Lemma append_holds b s str h st b' h' :
  holds b s -> buf_append b str h = ((st, b'), h') -> ample h -> st = MCP_OK /\ holds b' (s ++ str) /\ mem b' = Some (s ++ str).
Proof.
  intros (W & Hl & Hm) H A. apply append_spec in H as (_ & W' & [[-> E]|(_ & _ & N)]); [|done|done].
  rewrite Hm, Hl, take_ge in E by lia. rewrite E. split; [done|]. split; [|done]. split; [by rewrite <- E|]. split; [|done]. cbn. by rewrite length_app.
Qed.

Lemma set_wfb b : wfb b -> wfb (Sbuf (mem b) 0 (bcap b)).
Proof. intros [R _]. split; [exact R|]. cbn. lia. Qed.

Lemma set_spec b str h st b' h' :
  wfb b -> buf_set b str h = ((st, b'), h') ->
  cstep h h' (nblocks b' - nblocks b) /\ wfb b' /\ (ample h -> st = MCP_OK /\ holds b' str /\ mem b' = Some str).
Proof.
  intros W H. apply append_spec in H as (Hs & W' & Hr); [|by apply set_wfb]. split; [exact Hs|]. split; [done|].
  intros A. destruct Hr as [[-> E]|(_ & _ & N)]; [|done]. cbn in E. rewrite E. split; [done|]. split; [|done].
  split; [by rewrite <- E|]. done.
Qed.

(** ** The parser against the reading of its input *)

Record wfp (p : mcp_sse_parser_t) : Prop := Wfp {
  wf_line : wfb (line_buf p);
  wf_data : wfb (data_buf p);
  wf_event : wfb (event_buf p);
  wf_id : wfb (id_buf p);
  wf_last : wfb (last_event_id p);
}.

(** The blocks of a parser, its own included. *)
Definition blocks (p : mcp_sse_parser_t) : Z :=
  1 + nblocks (line_buf p) + nblocks (data_buf p) + nblocks (event_buf p) + nblocks (id_buf p) + nblocks (last_event_id p).

Definition text_opt (b : sbuf) (has : bool) (o : option bytes) : Prop :=
  match o with
  | Some s => has = true /\ holds b s /\ mem b = Some s /\ has_nul s = false
  | None => has = false /\ holds b []
  end.

(** The parser has read the lines that make [b]. *)
Record rep (p : mcp_sse_parser_t) (b : block) : Prop := Rep {
  rep_data : text_opt (data_buf p) (has_data p) (b_data b);
  rep_event : holds (event_buf p) (b_event b);
  rep_event_nul : has_nul (b_event b) = false;
  rep_id : text_opt (id_buf p) (has_id p) (b_id b);
  rep_retry : retry_ms p = b_retry b;
  rep_last : holds (last_event_id p) (b_last b);
  rep_last_nul : has_nul (b_last b) = false;
}.

(** The other fields of the parser are where they were. *)
Definition same_input (p p' : mcp_sse_parser_t) : Prop := line_buf p' = line_buf p /\ pending_lf p' = pending_lf p.

Definition field_result (p : mcp_sse_parser_t) (n v : bytes) (h : heap) (st : mcp_status_t) (p' : mcp_sse_parser_t) (h' : heap) : Prop :=
  cstep h h' (blocks p' - blocks p) /\ wfp p' /\ same_input p p' /\
  (ample h -> st = MCP_OK /\ forall b, rep p b -> exists b', field_read b n v b' /\ rep p' b').

Lemma event_field p v h st p' h' :
  wfp p -> has_nul v = false -> process_field p (cs "event") v h = ((st, p'), h') -> field_result p (cs "event") v h st p' h'.
Proof.
  intros W Hv H. unfold process_field in H. rewrite bool_decide_true in H by done. apply bind_inv in H as ([s b] & h1 & E & H).
  apply ret_inv in H as [[= -> ->] ->]. destruct W. apply set_spec in E as (Hs & Wb & Hok); [|done].
  split; [eapply cstep_eq; [exact Hs|]; unfold blocks; cbn; lia|]. split; [by split|]. split; [done|]. intros A.
  destruct (Hok A) as (-> & Hb & _). split; [done|]. intros blk []. eexists. split; [constructor|]. by split.
Qed.

Lemma data_field p v h st p' h' :
  wfp p -> has_nul v = false -> process_field p (cs "data") v h = ((st, p'), h') -> field_result p (cs "data") v h st p' h'.
Proof.
  intros W Hv H. unfold process_field in H. rewrite bool_decide_false in H by done. rewrite bool_decide_true in H by done.
  apply bind_inv in H as ([s b] & h1 & E & H). destruct W.
  assert (cstep h h1 (nblocks b - nblocks (data_buf p)) /\ wfb b /\
          (ample h -> s = MCP_OK /\ forall d, text_opt (data_buf p) (has_data p) d -> holds b (match d with Some d => d ++ [LF] | None => [] end))) as (Hs & Wb & Hok).
  { destruct (has_data p).
    - pose proof E as E0. apply append_spec in E0 as (Hs & Wb & _); [|done]. split; [done|]. split; [done|]. intros A.
      split; [|intros d Hd].
      + apply append_spec in E as (_ & _ & [[-> _]|(_ & _ & N)]); done.
      + destruct d as [d|]; [|by destruct Hd]. destruct Hd as (_ & Hd & _). by apply (append_holds _ _ _ _ _ _ _ Hd E A).
    - apply ret_inv in E as [[= -> ->] ->]. split; [cstill|]. split; [done|]. intros _. split; [done|].
      intros [d|] Hd; by destruct Hd. }
  destruct (bool_decide_reflect (s = MCP_OK)) as [Eq|N]; cbn [negb] in H.
  - subst s. apply bind_inv in H as ([s2 b2] & h2 & E2 & H). apply ret_inv in H as [[= -> ->] ->].
    pose proof E2 as E3. apply append_spec in E3 as (Hs2 & Wb2 & Hr); [|done].
    split; [eapply cstep_trans; [exact Hs|exact Hs2|unfold blocks; cbn; lia]|]. split; [by split|]. split; [done|]. intros A.
    pose proof (ample_cstep _ _ _ Hs A) as A1. split; [by destruct Hr as [[-> _]|(_ & _ & N)]|]. intros blk [Rd].
    eexists. split; [apply read_data|]. apply Hok in A as [_ Hd]. specialize (Hd _ Rd).
    destruct (append_holds _ _ _ _ _ _ _ Hd E2 A1) as (_ & Hh & Hm). split; try done. cbn [b_data data_buf has_data set_data text_opt].
    assert (forall d : bytes, d ++ LF :: v = (d ++ [LF]) ++ v) as Ea by (intros d; by rewrite <- app_assoc).
    destruct (b_data blk) as [d|]; [|done]. rewrite Ea. repeat split; try done; try apply Hh.
    destruct Rd as (_ & _ & _ & Nd). by rewrite !has_nul_app, Nd, Hv.
  - apply ret_inv in H as [[= -> ->] ->]. split; [eapply cstep_eq; [exact Hs|unfold blocks; cbn; lia]|]. split; [by split|]. split; [done|].
    intros A. by destruct (Hok A).
Qed.

Lemma id_field p v h st p' h' :
  wfp p -> has_nul v = false -> process_field p (cs "id") v h = ((st, p'), h') -> field_result p (cs "id") v h st p' h'.
Proof.
  intros W Hv H. unfold process_field in H. do 2 rewrite bool_decide_false in H by done. rewrite bool_decide_true in H by done.
  apply bind_inv in H as ([s b] & h1 & E & H). destruct W. apply set_spec in E as (Hs & Wb & Hok); [|done].
  destruct (bool_decide_reflect (s = MCP_OK)) as [Eq|N]; cbn [negb] in H.
  - subst s. apply bind_inv in H as ([s2 l] & h2 & E2 & H). apply ret_inv in H as [[= -> ->] ->].
    apply set_spec in E2 as (Hs2 & Wl & Hok2); [|done].
    split; [eapply cstep_trans; [exact Hs|exact Hs2|unfold blocks; cbn; lia]|]. split; [by split|]. split; [done|]. intros A.
    destruct (Hok2 (ample_cstep _ _ _ Hs A)) as (-> & Hl & _). destruct (Hok A) as (_ & Hb & Hm). split; [done|]. intros blk [].
    eexists. split; [constructor|]. by split.
  - apply ret_inv in H as [[= -> ->] ->]. split; [eapply cstep_eq; [exact Hs|unfold blocks; cbn; lia]|]. split; [by split|]. split; [done|].
    intros A. by destruct (Hok A).
Qed.

Lemma digits_test v : negb (bool_decide (v = [])) && forallb isdigit v = true <-> digits v.
Proof.
  unfold digits. rewrite andb_true_iff, negb_true_iff, bool_decide_eq_false, forallb_forall, List.Forall_forall. done.
Qed.

(** A line that changes nothing but the retry time. *)
Lemma retry_field p v h st p' h' :
  wfp p -> process_field p (cs "retry") v h = ((st, p'), h') -> field_result p (cs "retry") v h st p' h'.
Proof.
  intros W H. unfold process_field in H. do 3 rewrite bool_decide_false in H by done. rewrite bool_decide_true in H by done.
  destruct (negb _ && _) eqn:E; apply ret_inv in H as [[= -> ->] ->].
  all: split; [eapply cstep_eq; [apply cstep_refl|unfold blocks; cbn; lia]|]; split; [by destruct W|]; split; [done|]; intros _; split; [done|].
  - apply digits_test in E. intros b []. eexists. split; [by constructor|]. by split.
  - intros b Hb. exists b. split; [|done]. apply read_bad_retry. rewrite <- digits_test. congruence.
Qed.

Lemma process_field_spec p n v h st p' h' :
  wfp p -> has_nul v = false -> process_field p n v h = ((st, p'), h') -> field_result p n v h st p' h'.
Proof.
  intros W Hv H. destruct (decide (known n)) as [K|N].
  - unfold known in K. rewrite !elem_of_cons, elem_of_nil in K. destruct K as [->|[->|[->|[->|[]]]]];
      [by eapply event_field|by eapply data_field|by eapply id_field|by eapply retry_field].
  - assert (process_field p n v h = ((MCP_OK, p), h)) as E.
    { unfold process_field. do 4 (rewrite bool_decide_false; [|intros ->; apply N; unfold known; set_solver]). done. }
    rewrite E in H. injection H as <- <- <-. split; [cstill|]. split; [done|]. split; [done|].
    intros _. split; [done|]. intros b Hb. exists b. split; [by constructor|done].
Qed.

Lemma value_no_nul c s p r : has_nul s = false -> cut c s = Some (p, r) -> has_nul r = false.
Proof. intros H [-> _]%cut_some. rewrite has_nul_app, has_nul_cons in H. by apply orb_false_iff in H as [_ [_ ->]%orb_false_iff]. Qed.

Lemma split_field_spec line n v : split_field line = (n, v) -> field (cstr line) n v /\ has_nul v = false.
Proof.
  unfold split_field. pose proof (has_nul_cstr line) as Hn. destruct (cut ":" (cstr line)) as [[f r]|] eqn:E.
  - pose proof (value_no_nul _ _ _ _ Hn E) as Hr. apply cut_some in E as [-> Hf]. destruct r as [|c r].
    + intros [= <- <-]. split; [|done]. by apply field_value.
    + destruct (decide (c = " "%byte)) as [->|Nc].
      * intros [= <- <-]. rewrite has_nul_cons in Hr. split; [by apply field_space|]. by apply orb_false_iff in Hr as [_ ->].
      * assert ((match c :: r with " "%byte :: v => v | _ => c :: r end) = c :: r) as -> by (by destruct c).
        intros [= <- <-]. split; [|done]. apply field_value; [done|]. cbn. congruence.
  - intros [= <- <-]. apply cut_none in E. split; [by constructor|done].
Qed.

Definition line_result (p : mcp_sse_parser_t) (h : heap) (st : mcp_status_t) (p' : mcp_sse_parser_t) (evs : list mcp_sse_event_t) (h' : heap) : Prop :=
  cstep h h' (blocks p' - blocks p) /\ wfp p' /\ same_input p p' /\
  (ample h -> st = MCP_OK /\ forall b l, holds (line_buf p) l -> rep p b -> exists b', line_read b l b' evs /\ rep p' b').

Lemma current_event_spec p b d : rep p b -> b_data b = Some d -> current_event p = block_event b d.
Proof.
  intros [Rd Re Ne Ri Rr _ _] E. rewrite E in Rd. destruct Rd as (_ & _ & Hm & Nd). unfold current_event, block_event. rewrite Hm, Rr. change (default [] (Some d)) with d.
  rewrite (cstr_no_nul d) by done. destruct Re as (_ & Hl & He). rewrite He, Hl, (cstr_no_nul (b_event b)) by done. f_equal.
  - by destruct (b_event b).
  - destruct (b_id b) as [i|]; [destruct Ri as (-> & _ & -> & Ni)|by destruct Ri as [-> _]]. cbn. by rewrite cstr_no_nul.
Qed.

Lemma end_of_block_spec p : wfp p -> blocks (end_of_block p) = blocks p /\ wfp (end_of_block p).
Proof.
  intros []. split; [unfold blocks, end_of_block; cbn; by rewrite !clear_nblocks|]. split; cbn; try done; by apply clear_wfb.
Qed.

Lemma end_of_block_rep p b : wfp p -> rep p b -> rep (end_of_block p) (Block None [] None (b_retry b) (b_last b)).
Proof. intros [] []. split; cbn; try done; try (split; [done|]); by apply clear_holds. Qed.

Lemma process_line_spec p h st p' evs h' : wfp p -> process_line p h = ((st, p', evs), h') -> line_result p h st p' evs h'.
Proof.
  intros W H. unfold process_line in H. destruct (Nat.eqb_spec (blen (line_buf p)) 0) as [E0|N0].
  - apply ret_inv in H as [[= -> -> ->] ->]. destruct (end_of_block_spec p W) as [Eb We]. 
    split; [cstill|]. split; [done|]. split; [done|]. intros _. split; [done|].
    intros b l (_ & Hl & _) Rp. rewrite E0 in Hl. destruct l; [|done]. eexists. split; [|by apply end_of_block_rep].
    replace (if has_data p then _ else _) with (match b_data b with Some d => [block_event b d] | None => [] end); [constructor|].
    pose proof (rep_data _ _ Rp) as Rd. destruct (b_data b) as [d|] eqn:Ed; [|by destruct Rd as [-> _]].
    destruct Rd as (-> & _). by rewrite (current_event_spec _ _ _ Rp Ed).
  - cbv zeta in H. destruct (split_field (default [] (mem (line_buf p)))) as [n v] eqn:Ef. pose proof (split_field_spec _ _ _ Ef) as [Hf Hv].
    assert (forall l, holds (line_buf p) l -> l <> [] /\ default [] (mem (line_buf p)) = l) as Hl.
    { intros l (_ & Hb & Hm). split; [|done]. intros ->. by rewrite Hb in N0. }
    destruct (bool_decide_reflect (head (default [] (mem (line_buf p))) = Some ":"%byte)) as [Hc|Nc].
    + apply ret_inv in H as [[= -> -> ->] ->]. split; [cstill|]. split; [done|]. split; [done|].
      intros _. split; [done|]. intros b l Hh Rp. destruct (Hl l Hh) as [Nl Em]. exists b. split; [|done]. rewrite Em in *.
      eapply read_field; [done|exact Hf|]. apply read_unknown. destruct l as [|c l]; [done|]. injection Hc as ->. cbn in Ef. injection Ef as <- _.
      unfold known. set_solver.
    + apply bind_inv in H as ([s q] & h1 & E & H). apply ret_inv in H as [[= -> -> ->] ->].
      apply process_field_spec in E as (Hs & Wq & Si & Hok); [|done|done]. split; [done|]. split; [done|]. split; [done|].
      intros A. destruct (Hok A) as [-> Hr]. split; [done|]. intros b l Hh Rp. destruct (Hl l Hh) as [Nl Em]. rewrite Em in Hf.
      destruct (Hr b Rp) as (b' & Hb' & Rq). exists b'. split; [|done]. by eapply read_field.
Qed.

(** *** The loop over a chunk *)

Lemma set_line_facts b p : wfp p -> wfb b ->
  wfp (set_line b p) /\ blocks (set_line b p) = blocks p + nblocks b - nblocks (line_buf p) /\ forall blk, rep p blk -> rep (set_line b p) blk.
Proof. intros [] Wb. split; [by split|]. split; [unfold blocks; cbn; lia|]. intros blk []. by split. Qed.

Lemma set_pending_facts x p : wfp p -> wfp (set_pending x p) /\ blocks (set_pending x p) = blocks p /\ forall blk, rep p blk -> rep (set_pending x p) blk.
Proof. intros []. split; [by split|]. split; [done|]. intros blk []. by split. Qed.

Lemma add_segment_spec p seg h st p' h' :
  wfp p -> add_segment p seg h = ((st, p'), h') ->
  cstep h h' (blocks p' - blocks p) /\ wfp p' /\ pending_lf p' = pending_lf p /\
  (ample h -> st = MCP_OK /\ (forall b, rep p b -> rep p' b) /\ forall cur, holds (line_buf p) cur -> holds (line_buf p') (cur ++ seg)).
Proof.
  intros W H. unfold add_segment in H. destruct (bool_decide_reflect (seg = [])) as [->|N].
  - apply ret_inv in H as [[= -> ->] ->]. split; [cstill|]. split; [done|]. split; [done|].
    intros _. split; [done|]. split; [done|]. intros cur. by rewrite app_nil_r.
  - apply bind_inv in H as ([s b] & h1 & E & H). apply ret_inv in H as [[= -> ->] ->]. pose proof E as E0.
    apply append_spec in E0 as (Hs & Wb & Hr); [|by destruct W]. destruct (set_line_facts b p W Wb) as (Wp & Eb & Rp).
    split; [eapply cstep_eq; [exact Hs|lia]|]. split; [done|]. split; [done|]. intros A.
    split; [by destruct Hr as [[-> _]|(_ & _ & F)]|]. split; [done|]. intros cur Hc. by apply (append_holds _ _ _ _ _ _ _ Hc E A).
Qed.

Definition feed_result (p : mcp_sse_parser_t) (seg chunk : bytes) (h : heap) (st : mcp_status_t) (p' : mcp_sse_parser_t) (evs : list mcp_sse_event_t) (h' : heap) : Prop :=
  cstep h h' (blocks p' - blocks p) /\ wfp p' /\
  (ample h -> st = MCP_OK /\ forall b cur, rep p b -> holds (line_buf p) cur -> (pending_lf p = true -> cur = []) ->
     exists ls cur' b', split_lines (cur ++ seg) (pending_lf p) chunk = (ls, cur', pending_lf p') /\
       (pending_lf p' = true -> cur' = []) /\ holds (line_buf p') cur' /\ lines_read b ls b' evs /\ rep p' b').

(** The step at the end of a line. *)
Lemma end_of_line_spec p c seg h h1 h2 st p1 q evs :
  wfp p -> add_segment p seg h = ((MCP_OK, p1), h1) ->
  process_line (if Byte.eqb c CR then set_pending true p1 else p1) h1 = ((st, q, evs), h2) ->
  let q' := set_line (buf_clear (line_buf q)) q in
  cstep h h2 (blocks q' - blocks p) /\ wfp q' /\ pending_lf q' = Byte.eqb c CR || pending_lf p /\
  (ample h -> st = MCP_OK /\ holds (line_buf q') [] /\
     forall b cur, rep p b -> holds (line_buf p) cur -> exists b', line_read b (cur ++ seg) b' evs /\ rep q' b').
Proof.
  intros W E1 E2 q'. apply add_segment_spec in E1 as (Hs1 & W1 & P1 & Hok1); [|done].
  set (p2 := if Byte.eqb c CR then set_pending true p1 else p1) in *.
  assert (wfp p2 /\ blocks p2 = blocks p1 /\ line_buf p2 = line_buf p1 /\ pending_lf p2 = Byte.eqb c CR || pending_lf p1 /\
          forall b, rep p1 b -> rep p2 b) as (W2 & B2 & L2 & P2 & R2).
  { unfold p2. destruct (Byte.eqb c CR); [|done]. by destruct (set_pending_facts true p1 W1) as (? & ? & ?). }
  apply process_line_spec in E2 as (Hs2 & Wq & [Sl Sp] & Hok2); [|done].
  destruct (set_line_facts (buf_clear (line_buf q)) q Wq) as (Wq' & Bq & Rq); [by destruct Wq; apply clear_wfb|]. rewrite clear_nblocks in Bq.
  fold q' in Wq', Bq, Rq. split; [eapply cstep_trans; [exact Hs1|exact Hs2|lia]|]. split; [done|].
  split; [unfold q'; cbn; by rewrite Sp, P2, P1|]. intros A.
  destruct (Hok1 A) as (_ & Hr1 & Hh1). destruct (Hok2 (ample_cstep _ _ _ Hs1 A)) as (-> & Hr2). split; [done|].
  split; [apply clear_holds; by destruct Wq|]. intros b cur Rp Hc. rewrite L2 in Hr2.
  destruct (Hr2 b (cur ++ seg)) as (b' & Hl & Rb); [by apply Hh1|by apply R2, Hr1|]. exists b'. split; [done|]. by apply Rq.
Qed.

Lemma feed_loop_spec chunk : forall p seg h st p' evs h',
  wfp p -> (seg <> [] -> pending_lf p = false) -> feed_loop p seg chunk h = ((st, p', evs), h') -> feed_result p seg chunk h st p' evs h'.
Proof.
  induction chunk as [|c rest IH]; intros p seg h st p' evs h' W Hseg H; cbn [feed_loop] in H.
  - apply bind_inv in H as ([s q] & h1 & E & H). apply ret_inv in H as [[= -> -> ->] ->].
    apply add_segment_spec in E as (Hs & Wq & Pq & Hok); [|done]. split; [done|]. split; [done|]. intros A. destruct (Hok A) as (-> & Hr & Hh).
    split; [done|]. intros b cur Rp Hc Hcr. exists [], (cur ++ seg), b. rewrite Pq. split; [done|].
    split; [|split; [by apply Hh|split; [constructor|by apply Hr]]]. intros Ep. rewrite (Hcr Ep).
    destruct seg; [done|]. by rewrite Hseg in Ep.
  - cbv zeta in H. set (p0 := if bool_decide (seg = []) then set_pending false p else p) in H.
    assert (wfp p0 /\ blocks p0 = blocks p /\ line_buf p0 = line_buf p /\ pending_lf p0 = false /\ forall b, rep p b -> rep p0 b)
      as (W0 & B0 & L0 & P0 & R0).
    { unfold p0. destruct (bool_decide_reflect (seg = [])) as [->|N].
      - by destruct (set_pending_facts false p W) as (? & ? & ?).
      - by split; [|split; [|split; [|split; [apply Hseg|]]]]. }
    assert (bool_decide (seg = []) && pending_lf p = pending_lf p) as Ep.
    { destruct (bool_decide_reflect (seg = [])) as [->|N]; [done|]. by rewrite (Hseg N). }
    rewrite Ep in H. destruct (pending_lf p && Byte.eqb c LF) eqn:Esk.
    + apply IH in H as (Hs & Wp & Hok); [|done|done]. rewrite B0 in Hs. split; [done|]. split; [done|]. intros A.
      destruct (Hok A) as [-> Hr]. split; [done|]. intros b cur Rp Hc Hcr. apply andb_true_iff in Esk as [Epl Elf].
      rewrite (Hcr Epl) in *. rewrite L0, P0 in Hr. destruct seg; [|by rewrite Hseg in Epl].
      destruct (Hr b [] (R0 b Rp) Hc (fun _ => eq_refl)) as (ls & cur' & b' & Hsp & ?). exists ls, cur', b'.
      cbn [split_lines app] in *. by rewrite Epl, Elf, Hsp.
    + destruct (is_eol c) eqn:Ec.
      * apply bind_inv in H as ([s1 p1] & h1 & E1 & H). destruct (bool_decide_reflect (s1 = MCP_OK)) as [Eq|N1]; cbn [negb] in H.
        2:{ apply ret_inv in H as [[= -> -> ->] ->]. apply add_segment_spec in E1 as (Hs1 & W1 & _ & Hok1); [|done]. rewrite B0 in Hs1.
            split; [done|]. split; [done|]. intros A. by destruct (Hok1 A). }
        subst s1. apply bind_inv in H as ([[s2 q] e2] & h2 & E2 & H).
        pose proof (end_of_line_spec _ _ _ _ _ _ _ _ _ _ W0 E1 E2) as (Hs2 & Wq & Pq & Hok2). rewrite B0 in Hs2. rewrite P0, orb_false_r in Pq.
        destruct (bool_decide_reflect (s2 = MCP_OK)) as [Eq|N2]; cbn [negb] in H.
        2:{ apply ret_inv in H as [[= -> -> ->] ->]. split; [done|]. split; [done|]. intros A. by destruct (Hok2 A). }
        subst s2. apply bind_inv in H as ([[s3 q3] e3] & h3 & E3 & H). apply ret_inv in H as [[= -> -> ->] ->].
        apply IH in E3 as (Hs3 & W3 & Hok3); [|done|done]. split; [eapply cstep_trans; [exact Hs2|exact Hs3|lia]|]. split; [done|]. intros A.
        destruct (Hok2 A) as (_ & Hh & Hr2). destruct (Hok3 (ample_cstep _ _ _ Hs2 A)) as [-> Hr3]. split; [done|]. intros b cur Rp Hc Hcr.
        destruct (Hr2 b cur) as (b1 & Hl1 & Rb1); [by apply R0|by rewrite L0|].
        destruct (Hr3 b1 [] Rb1 Hh (fun _ => eq_refl)) as (ls & cur' & b' & Hsp & Hcr' & Hh' & Hl & Rb'). rewrite Pq in Hsp. cbn [app] in Hsp.
        exists ((cur ++ seg) :: ls), cur', b'. cbn [split_lines]. rewrite Esk, Ec, Hsp. split; [done|]. split; [done|]. split; [done|].
        split; [by econstructor|done].
      * apply IH in H as (Hs & Wp & Hok); [|done|done]. rewrite B0 in Hs. split; [done|]. split; [done|]. intros A.
        destruct (Hok A) as [-> Hr]. split; [done|]. intros b cur Rp Hc Hcr. rewrite L0, P0 in Hr.
        destruct (Hr b cur (R0 b Rp) Hc) as (ls & cur' & b' & Hsp & ?); [done|]. exists ls, cur', b'.
        cbn [split_lines]. by rewrite Esk, Ec, <- app_assoc.
Qed.

Lemma feed_spec p chunk h st q evs h' :
  wfp p -> mcp_sse_parser_feed (Some p) (Some chunk) (length chunk) h = ((st, q, evs), h') ->
  exists p', q = Some p' /\ feed_result p [] chunk h st p' evs h'.
Proof.
  intros W H. unfold mcp_sse_parser_feed in H. rewrite take_ge in H by lia. destruct chunk as [|c chunk].
  - cbn [length Nat.eqb] in H. apply ret_inv in H as [[= -> -> ->] ->]. exists p. split; [done|]. split; [cstill|].
    split; [done|]. intros _. split; [done|]. intros b cur Rp Hc Hcr. exists [], cur, b. rewrite app_nil_r.
    split; [done|]. split; [done|]. split; [done|]. split; [constructor|done].
  - cbn [length Nat.eqb] in H. apply bind_inv in H as ([[s p'] e] & h1 & E & H). apply ret_inv in H as [[= -> -> ->] ->].
    exists p'. split; [done|]. by apply feed_loop_spec in E.
Qed.

Lemma lines_read_app b ls1 b1 e1 ls2 b2 e2 : lines_read b ls1 b1 e1 -> lines_read b1 ls2 b2 e2 -> lines_read b (ls1 ++ ls2) b2 (e1 ++ e2).
Proof.
  induction 1 as [|b l b1 e ls b' e' Hl _ IH]; intros H2; [done|]. cbn. rewrite <- app_assoc. econstructor; [done|]. by apply IH.
Qed.

Lemma feed_all_spec chunks : forall p h sts q evs h',
  wfp p -> feed_all (Some p) chunks h = ((sts, q, evs), h') ->
  exists p', q = Some p' /\ cstep h h' (blocks p' - blocks p) /\ wfp p' /\
  (ample h -> Forall (eq MCP_OK) sts /\ forall b cur, rep p b -> holds (line_buf p) cur -> (pending_lf p = true -> cur = []) ->
     exists ls cur' b', split_lines cur (pending_lf p) (concat chunks) = (ls, cur', pending_lf p') /\ lines_read b ls b' evs /\ rep p' b').
Proof.
  induction chunks as [|c chunks IH]; intros p h sts q evs h' W H; cbn [feed_all concat] in *.
  - apply ret_inv in H as [[= -> -> ->] ->]. exists p. split; [done|]. split; [cstill|]. split; [done|].
    intros _. split; [constructor|]. intros b cur Rp Hc Hcr. exists [], cur, b. split; [done|]. split; [constructor|done].
  - apply bind_inv in H as ([[s1 q1] e1] & h1 & E1 & H). apply feed_spec in E1 as (p1 & -> & Hs1 & W1 & Hok1); [|done].
    apply bind_inv in H as ([[s2 q2] e2] & h2 & E2 & H). apply ret_inv in H as [[= -> -> ->] ->].
    apply IH in E2 as (p2 & -> & Hs2 & W2 & Hok2); [|done]. exists p2. split; [done|].
    split; [eapply cstep_trans; [exact Hs1|exact Hs2|lia]|]. split; [done|]. intros A. destruct (Hok1 A) as [-> Hr1].
    destruct (Hok2 (ample_cstep _ _ _ Hs1 A)) as [F2 Hr2]. split; [by constructor|]. intros b cur Rp Hc Hcr.
    destruct (Hr1 b cur Rp Hc Hcr) as (ls1 & cur1 & b1 & Hsp1 & Hcr1 & Hh1 & Hl1 & Rb1). rewrite app_nil_r in Hsp1.
    destruct (Hr2 b1 cur1 Rb1 Hh1 Hcr1) as (ls2 & cur2 & b2 & Hsp2 & Hl2 & Rb2). exists (ls1 ++ ls2), cur2, b2.
    rewrite split_lines_app, Hsp1, Hsp2. split; [done|]. split; [|done]. by eapply lines_read_app.
Qed.

Lemma free_buf_cstep b h r h' : buf_free b h = (r, h') -> cstep h h' (- nblocks b).
Proof. unfold buf_free, nblocks. destruct (no_block b); intros H; minv H; csolve. Qed.

Lemma sse_destroy_cstep p h u h' : mcp_sse_parser_destroy (Some p) h = (u, h') -> cstep h h' (- blocks p).
Proof.
  intros H. cbn [mcp_sse_parser_destroy] in H. minv H.
  repeat match goal with E : buf_free _ _ = _ |- _ => apply free_buf_cstep in E end. unfold blocks. csolve.
Qed.

Definition new_parser : mcp_sse_parser_t := Parser no_buf false no_buf false no_buf no_buf false (-1) no_buf.

Lemma new_parser_rep : wfp new_parser /\ rep new_parser first_block.
Proof. split; split; cbn; try done; try (split; [done|]); apply no_buf_holds. Qed.

(** ** The documented reading

    As the W3C specification and sse.h have it: the retry time belongs to
    the block that states it, so it is -1 again after the end of a block. *)
Inductive doc_lines : block -> list bytes -> block -> list mcp_sse_event_t -> Prop :=
| doc_nil b : doc_lines b [] b []
| doc_field b l n v b1 ls b2 evs : l <> [] -> field l n v -> field_read b n v b1 -> doc_lines b1 ls b2 evs -> doc_lines b (l :: ls) b2 evs
| doc_end b ls b2 evs : doc_lines (Block None [] None (-1) (b_last b)) ls b2 evs ->
    doc_lines b ([] :: ls) b2 ((match b_data b with Some d => [block_event b d] | None => [] end) ++ evs).

Definition sse_reading (s : bytes) (b : block) (evs : list mcp_sse_event_t) : Prop :=
  exists ls, lines_of s ls /\ doc_lines first_block ls b evs.

Lemma doc_lines_det b ls b1 e1 : doc_lines b ls b1 e1 -> forall b2 e2, doc_lines b ls b2 e2 -> b1 = b2 /\ e1 = e2.
Proof.
  induction 1 as [b|b l n v b1 ls b2 evs Nl Hf Hr _ IH|b ls b2 evs _ IH]; intros b3 e3 H; inversion H as [|? ? ? ? ? ? ? ? ? Hf2 Hr2 H2|? ? ? ? H2]; subst; try done.
  - destruct (field_det _ _ _ _ _ Hf Hf2) as [-> ->]. rewrite <- (field_read_det _ _ _ _ _ Hr Hr2) in H2. by apply IH.
  - by destruct (IH _ _ H2) as [<- <-].
Qed.

(** A stream has one reading. *)
Lemma sse_reading_det s b1 e1 b2 e2 : sse_reading s b1 e1 -> sse_reading s b2 e2 -> b1 = b2 /\ e1 = e2.
Proof. intros (l1 & H1 & R1) (l2 & H2 & R2). apply lines_of_split in H1 as <-, H2 as <-. by eapply doc_lines_det. Qed.

(** The event given and the documented one: the same type, data and id, and
    the same retry time if its block states one. *)
Definition agrees (e d : mcp_sse_event_t) : Prop :=
  event e = event d /\ data e = data d /\ id e = id d /\ (retry d <> -1 -> retry e = retry d).

(** No line states a retry time. *)
Definition no_retry (ls : list bytes) : Prop := Forall (fun l => forall v, field l (cs "retry") v -> ~ digits v) ls.

(** The same block but for the retry time, which is older or the same. *)
Definition like (b d : block) : Prop :=
  b_data b = b_data d /\ b_event b = b_event d /\ b_id b = b_id d /\ b_last b = b_last d /\ (b_retry d = -1 \/ b_retry d = b_retry b).

Lemma field_read_like b n v b' d : like b d -> field_read b n v b' ->
  exists d', field_read d n v d' /\ like b' d' /\ (b_retry b = -1 -> (n = cs "retry" -> ~ digits v) -> b_retry b' = -1).
Proof.
  intros (E1 & E2 & E3 & E4 & E5) F. destruct F as [v|v|v|v Hd|v Hd|n v Hn]; eexists; (split; [by constructor|]).
  all: split; [unfold like; cbn; rewrite ?E1; by repeat split; try done; auto|]; cbn; intros Hb Hn'; try done. by destruct (Hn' eq_refl).
Qed.

Lemma block_event_like b d x : like b d -> agrees (block_event b x) (block_event d x) /\ (b_retry b = -1 -> block_event b x = block_event d x).
Proof.
  intros (_ & E2 & E3 & _ & E5). unfold agrees, block_event. cbn. rewrite E2, E3. split.
  - repeat split. intros Hr. by destruct E5.
  - intros Hb. f_equal. destruct E5; congruence.
Qed.

Lemma doc_of b ls b' evs : lines_read b ls b' evs -> Forall (fun l => has_nul l = false) ls -> forall d, like b d ->
  exists d' docs, doc_lines d ls d' docs /\ Forall2 agrees evs docs /\ like b' d' /\ (b_retry b = -1 -> no_retry ls -> evs = docs).
Proof.
  induction 1 as [b|b l b1 evs ls b2 evs' Hl _ IH]; intros Hn d Hd.
  { exists d, []. split; [constructor|]. by split. }
  apply Forall_cons in Hn as [Hl0 Hn]. destruct Hl as [|l n v b1 Nl Hf Hr].
  - destruct (IH Hn (Block None [] None (-1) (b_last d))) as (d' & docs & Hdoc & Ha & Hlike & Heq).
    { destruct Hd as (_ & _ & _ & E4 & _). unfold like. cbn. rewrite E4. auto 10. }
    exists d', ((match b_data d with Some x => [block_event d x] | None => [] end) ++ docs). split; [by constructor|].
    assert (b_data b = b_data d) as Ed by apply Hd. rewrite Ed. destruct (b_data d) as [x|]; cbn [app].
    + destruct (block_event_like b d x Hd) as [Hx Hx']. split; [by constructor|]. split; [done|]. intros Hb Hnr.
      apply Forall_cons in Hnr as [_ Hnr]. by rewrite Hx', Heq.
    + split; [done|]. split; [done|]. intros Hb Hnr. apply Forall_cons in Hnr as [_ Hnr]. by apply Heq.
  - rewrite (cstr_no_nul l Hl0) in Hf. destruct (field_read_like _ _ _ _ _ Hd Hr) as (d1 & Hr1 & Hl1 & Hk).
    destruct (IH Hn d1 Hl1) as (d' & docs & Hdoc & Ha & Hlike & Heq). exists d', docs. split; [by eapply doc_field|].
    split; [done|]. split; [done|]. intros Hb Hnr. apply Forall_cons in Hnr as [Hl2 Hnr]. apply Heq; [|done]. apply Hk; [done|].
    intros ->. by apply Hl2.
Qed.

Lemma lines_no_nul s ls : lines_of s ls -> has_nul s = false -> Forall (fun l => has_nul l = false) ls.
Proof.
  induction 1 as [|l t s ls Hl Ht _ IH]; intros Hn; [constructor|]. rewrite !has_nul_app in Hn.
  apply orb_false_iff in Hn as [H1 Hn]. apply orb_false_iff in Hn as [_ H2]. constructor; [done|by apply IH].
Qed.

Definition BOM : bytes := [xef; xbb; xbf].


(** The parser accounts for its buffers on every path: whatever the
    allocator refuses and when, and whether or not the reader goes on after
    a failure, creating a parser, feeding it any chunks and destroying it
    leaves as many blocks as there were, and never writes past a buffer. *)
Theorem sse_no_leak chunks h p h1 sts q evs h2 u h3 :
  mcp_sse_parser_create true h = (p, h1) -> feed_all p chunks h1 = ((sts, q, evs), h2) -> mcp_sse_parser_destroy q h2 = (u, h3) ->
  cstep h h3 0.
Proof.
  intros Hc Hf Hd. unfold mcp_sse_parser_create in Hc. cbn [negb] in Hc. apply bind_inv in Hc as (ok & h0 & Em & Hc).
  apply xmalloc_cstep in Em. destruct ok; cbn [negb] in Hc; apply ret_inv in Hc as [-> ->].
  - fold new_parser in Hf. apply feed_all_spec in Hf as (p' & -> & Hs & _); [|apply new_parser_rep]. apply sse_destroy_cstep in Hd.
    eapply cstep_trans; [exact Em| |]; [eapply cstep_trans; [exact Hs|exact Hd|reflexivity]|]. change (blocks new_parser) with 1. lia.
  - assert (forall cs h, feed_all None cs h = ((map (fun _ => MCP_ERR_INVALID_ARGUMENT) cs, None, []), h)) as E.
    { induction cs as [|c cs IH]; intros k; [done|]. cbn [feed_all mcp_sse_parser_feed map]. unfold bind, ret. cbn. by rewrite IH. }
    rewrite E in Hf. injection Hf as <- <- <- <-. apply ret_inv in Hd as [_ ->]. by eapply cstep_eq.
Qed.

(** ** Examples *)

Definition sample : list bytes :=
  [cs "data: a" ++ [CR]; LF :: cs "id: 7" ++ [LF] ++ cs "da"; cs "ta:b" ++ [CR; LF; CR]; [LF] ++ cs ": note" ++ [LF] ++ cs "data" ++ [CR; CR]].

Definition sample_events : list mcp_sse_event_t :=
  [Event (cs "message") (cs "a" ++ [LF] ++ cs "b") (Some (cs "7")) (-1); Event (cs "message") [] None (-1)].

Definition sample_heap : heap := (mcp_sse_parser_create true fresh_heap).2.

Definition sample_run := feed_all (Some new_parser) sample sample_heap.


(** An allocator that refuses its third request. *)
Definition third_fails : heap := Heap (fun k => Nat.eqb k 2) 0 0 false.

Lemma sse_no_leak_witness : exists h3, cstep third_fails h3 0.
Proof.
  destruct (mcp_sse_parser_create true third_fails) as [p h1] eqn:Ec. destruct (feed_all p sample h1) as [[[sts q] evs] h2] eqn:Ef.
  destruct (mcp_sse_parser_destroy q h2) as [u h3] eqn:Ed. exists h3.
  exact (sse_no_leak sample third_fails p h1 sts q evs h2 u h3 Ec Ef Ed).
Defined.

Definition run_events (chunks : list bytes) : list mcp_sse_event_t :=
  ((p <- mcp_sse_parser_create true ;; feed_all p chunks) fresh_heap).1.2.

(** The retry time of one event is given again with the events after it. *)
Example retry_sticks :
  map retry (run_events [cs "retry: 5" ++ [LF] ++ cs "data: a" ++ [LF; LF] ++ cs "data: b" ++ [LF; LF]]) = [5; 5].
Proof. by vm_compute. Qed.

(** A byte order mark in front of the stream hides its first field. *)
Example bom_hides_field : run_events [[xef; xbb; xbf] ++ cs "data: a" ++ [LF; LF]] = [].
Proof. by vm_compute. Qed.

(** A NUL byte hides the rest of its line. *)
Example nul_cuts_line : map data (run_events [cs "data: a" ++ [x00] ++ cs "b" ++ [LF; LF]]) = [cs "a"].
Proof. by vm_compute. Qed.

(** When the new id cannot be stored the event carries the id before it. *)
Example stale_id :
  let long := cs "id: " ++ replicate 200 "x"%byte ++ [LF] in
  let h := Heap (fun k => Nat.eqb k 5) 0 0 false in
  let chunks := [cs "id: 1" ++ [LF] ++ cs "data: a" ++ [LF]; long; [LF]] in
  map id ((p <- mcp_sse_parser_create true ;; feed_all p chunks) h).1.2 = [Some (cs "1")].
Proof. by vm_compute. Qed.
