(* ===== verification/Timer.v ===== *)
(** * Timers (src/runtime/timer.c)

    A list of pending calls sorted by deadline.  The clock is the
    environment: [clock k] is what the [k]-th reading of CLOCK_MONOTONIC
    gives, in nanoseconds.  A task is host code; [task f a] is the sequence
    of timer operations the callback [f] performs on the same list when it
    is called with [a].

    The list is compared with the entries in the order they were scheduled:
    a poll always fires the pending entry with the least deadline, and of
    several the one scheduled first. *)
From Stdlib Require Import Sorting.Sorted.
From S2P Require Import Prelude Heap Steps JsonValue.

Local Open Scope Z_scope.

Definition UINT64_MAX : Z := 2 ^ 64 - 1.

Definition w64 (z : Z) : Z := z mod 2 ^ 64.

Definition saturating_add (a b : Z) : Z :=
  let r := w64 (a + b) in if r <? a then UINT64_MAX else r.

Definition delay_to_ns (delay_ms : Z) : Z :=
  if UINT64_MAX / 1000000 <? delay_ms then UINT64_MAX else w64 (delay_ms * 1000000).

(** The deadline of an entry: the sum of the reading and the delay in
    nanoseconds, cut off at the largest [uint64_t]. *)
Lemma deadline_saturates now delay :
  0 <= now <= UINT64_MAX -> 0 <= delay <= UINT64_MAX ->
  saturating_add now (delay_to_ns delay) = Z.min (now + delay * 1000000) UINT64_MAX.
Proof.
  unfold saturating_add, delay_to_ns, w64, UINT64_MAX. intros Hn Hd.
  destruct (Z.ltb_spec ((2 ^ 64 - 1) / 1000000) delay) as [H|H].
  - assert (2 ^ 64 - 1 < delay * 1000000) by dlia. destruct (Z.eq_dec now 0) as [->|N].
    + rewrite Z.mod_small by lia. destruct (Z.ltb_spec (0 + (2 ^ 64 - 1)) 0); lia.
    + replace ((now + (2 ^ 64 - 1)) mod 2 ^ 64) with (now - 1) by (apply Z.mod_unique_pos with 1; lia).
      destruct (Z.ltb_spec (now - 1) now); lia.
  - assert (delay * 1000000 <= 2 ^ 64 - 1) by dlia. rewrite (Z.mod_small (delay * 1000000)) by lia.
    destruct (Z.le_gt_cases (now + delay * 1000000) (2 ^ 64 - 1)).
    + rewrite Z.mod_small by lia. destruct (Z.ltb_spec (now + delay * 1000000) now); lia.
    + replace ((now + delay * 1000000) mod 2 ^ 64) with (now + delay * 1000000 - 2 ^ 64) by (apply Z.mod_unique_pos with 1; lia).
      destruct (Z.ltb_spec (now + delay * 1000000 - 2 ^ 64) now); lia.
Qed.

Section Timer.
Context {F A : Type} `{!EqDecision F} `{!EqDecision A}.

Record entry_t := Entry { due_ns : Z; fn : F; arg : A }.

(** [struct mcp_timer]: the list that hangs from [head]. *)
Abbreviation mcp_timer_t := (list entry_t).

(** What a host may do with a timer. *)
Inductive op := Schedule (delay_ms : Z) (f : F) (a : A) | Cancel (f : F) (a : A).

Variable clock : nat -> Z.
Variable task : F -> A -> list op.

Definition mcp_timer_create : M (option mcp_timer_t) :=
  ok <- xmalloc ;; ret (if ok : bool then Some [] else None).

Fixpoint free_entries (t : mcp_timer_t) : M unit :=
  match t with [] => ret tt | _ :: t => xfree false ;; free_entries t end.

Definition mcp_timer_destroy (t : option mcp_timer_t) : M unit :=
  match t with None => ret tt | Some t => free_entries t ;; xfree false end.

(** The walk to the first entry that is due later, and the link in front
    of it. *)
Fixpoint insert (e : entry_t) (t : mcp_timer_t) : mcp_timer_t :=
  match t with
  | [] => [e]
  | x :: t' => if due_ns x <=? due_ns e then x :: insert e t' else e :: t
  end.

(** [k] counts the readings of the clock. *)
Definition mcp_timer_schedule (t : option mcp_timer_t) (k : nat) (delay_ms : Z) (f : option F) (a : A) : M (mcp_status_t * option mcp_timer_t * nat) :=
  match t, f with
  | Some l, Some f =>
      ok <- xmalloc ;;
      if negb ok then ret (MCP_ERR_NOMEM, t, k)
      else ret (MCP_OK, Some (insert (Entry (saturating_add (clock k) (delay_to_ns delay_ms)) f a) l), S k)
  | _, _ => ret (MCP_ERR_INVALID_ARGUMENT, t, k)
  end.

Definition same_call (f : F) (a : A) (e : entry_t) : bool := bool_decide (fn e = f) && bool_decide (arg e = a).

Fixpoint cancel_loop (f : F) (a : A) (t : mcp_timer_t) : M (Z * mcp_timer_t) :=
  match t with
  | [] => ret (0, [])
  | e :: t =>
      if same_call f a e then xfree false ;; r <- cancel_loop f a t ;; ret (1 + r.1, r.2)
      else r <- cancel_loop f a t ;; ret (r.1, e :: r.2)
  end.

Definition mcp_timer_cancel (t : option mcp_timer_t) (f : option F) (a : A) : M (Z * option mcp_timer_t) :=
  match t, f with
  | Some l, Some f => r <- cancel_loop f a l ;; ret (r.1, Some r.2)
  | _, _ => ret (0, t)
  end.

(** The operations of a host, one after the other. *)
Fixpoint perform (ops : list op) (t : mcp_timer_t) (k : nat) : M (mcp_timer_t * nat) :=
  match ops with
  | [] => ret (t, k)
  | Schedule d f a :: ops =>
      r <- mcp_timer_schedule (Some t) k d (Some f) a ;; perform ops (default t r.1.2) r.2
  | Cancel f a :: ops =>
      r <- mcp_timer_cancel (Some t) (Some f) a ;; perform ops (default t r.2) k
  end.

(** A call the poll made, with the reading of the clock that allowed it. *)
Definition call : Type := entry_t * Z.

(** The loop of a poll; [None] when [fuel] calls were not enough. *)
Fixpoint poll_loop (fuel : nat) (t : mcp_timer_t) (k : nat) (fired : Z) : M (option (mcp_timer_t * nat * Z * list call)) :=
  match t with
  | [] => ret (Some (t, k, fired, []))
  | e :: next =>
      if clock k <? due_ns e then ret (Some (t, S k, fired, [])) else
      match fuel with
      | O => ret None
      | S fuel =>
          r <- perform (task (fn e) (arg e)) next (S k) ;;
          xfree false ;;
          o <- poll_loop fuel r.1 r.2 (fired + 1) ;;
          ret (match o with Some (t, k', n, calls) => Some (t, k', n, (e, clock k) :: calls) | None => None end)
      end
  end.

(** The count is what [fired_out] receives. *)
Definition mcp_timer_poll (fuel : nat) (t : option mcp_timer_t) (k : nat) : M (option (mcp_status_t * option mcp_timer_t * nat * Z * list call)) :=
  match t with
  | None => ret (Some (MCP_ERR_INVALID_ARGUMENT, None, k, 0, []))
  | Some l =>
      o <- poll_loop fuel l k 0 ;;
      ret (match o with Some (t, k', n, calls) => Some (MCP_OK, Some t, k', n, calls) | None => None end)
  end.

(** ** The pending calls in the order they were scheduled *)

(** [e] is the one to fire next: the least deadline, and the first of
    those. *)
Inductive picks (ps : list entry_t) (e : entry_t) (ps' : list entry_t) : Prop :=
| picks_intro l1 l2 : ps = l1 ++ e :: l2 -> ps' = l1 ++ l2 ->
    Forall (fun x => due_ns e < due_ns x) l1 -> Forall (fun x => due_ns e <= due_ns x) l2 -> picks ps e ps'.

Inductive does : list op -> list entry_t -> nat -> list entry_t -> nat -> Prop :=
| does_nothing ps k : does [] ps k ps k
| does_schedule d f a ops ps k ps' k' :
    does ops (ps ++ [Entry (saturating_add (clock k) (delay_to_ns d)) f a]) (S k) ps' k' -> does (Schedule d f a :: ops) ps k ps' k'
| does_cancel f a ops ps k ps' k' :
    does ops (filter (fun e => ~ same_call f a e) ps) k ps' k' -> does (Cancel f a :: ops) ps k ps' k'.

(** A poll, as the calls it makes. *)
Inductive polls : list entry_t -> nat -> list call -> list entry_t -> nat -> Prop :=
| polls_none k : polls [] k [] [] k
| polls_wait ps k e ps' : picks ps e ps' -> clock k < due_ns e -> polls ps k [] ps (S k)
| polls_fire ps k e ps' ps1 k1 calls ps2 k2 :
    picks ps e ps' -> due_ns e <= clock k -> does (task (fn e) (arg e)) ps' (S k) ps1 k1 -> polls ps1 k1 calls ps2 k2 ->
    polls ps k ((e, clock k) :: calls) ps2 k2.

Definition sorted_of (ps : list entry_t) : mcp_timer_t := fold_left (fun t e => insert e t) ps [].

Lemma sorted_of_snoc ps e : sorted_of (ps ++ [e]) = insert e (sorted_of ps).
Proof. unfold sorted_of. by rewrite fold_left_app. Qed.

Lemma insert_length e t : length (insert e t) = S (length t).
Proof. induction t as [|x t IH]; [done|]. cbn [insert]. destruct (_ <=? _); cbn; by rewrite ?IH. Qed.

Lemma sorted_of_length ps : length (sorted_of ps) = length ps.
Proof. induction ps as [|e ps IH] using rev_ind; [done|]. rewrite sorted_of_snoc, insert_length, length_app, IH. cbn. lia. Qed.

Lemma picks_least ps e ps' x : picks ps e ps' -> x ∈ ps -> due_ns e <= due_ns x.
Proof.
  intros [l1 l2 -> _ H1 H2] [Hx|[->|Hx]%elem_of_cons]%elem_of_app; [| |].
  - rewrite Forall_forall in H1. apply H1 in Hx. lia.
  - lia.
  - rewrite Forall_forall in H2. by apply H2.
Qed.

Lemma sorted_of_head ps e t : sorted_of ps = e :: t -> exists ps', picks ps e ps' /\ t = sorted_of ps'.
Proof.
  revert e t. induction ps as [|x ps IH] using rev_ind; intros e t; [done|]. rewrite sorted_of_snoc.
  destruct (sorted_of ps) as [|e0 t0] eqn:E.
  - assert (ps = []) as -> by (apply length_zero_iff_nil; by rewrite <- sorted_of_length, E).
    intros [= <- <-]. exists []. split; [|done]. by apply (picks_intro _ _ _ [] []).
  - destruct (IH e0 t0 eq_refl) as (ps0 & Hp & ->). cbn [insert]. destruct (Z.leb_spec (due_ns e0) (due_ns x)) as [Hle|Hlt]; intros [= <- <-].
    + exists (ps0 ++ [x]). split; [|by rewrite sorted_of_snoc]. destruct Hp as [l1 l2 -> -> H1 H2].
      apply (picks_intro _ _ _ l1 (l2 ++ [x])); [by rewrite <- app_assoc|by rewrite app_assoc|done|]. apply Forall_app. split; [done|by constructor].
    + exists ps. split; [|done]. apply (picks_intro _ _ _ ps []); [done|by rewrite app_nil_r| |done].
      apply Forall_forall. intros y Hy. apply (picks_least _ _ _ _ Hp) in Hy. lia.
Qed.

Definition later (e x : entry_t) : Prop := due_ns e <= due_ns x.

Lemma insert_elem e t x : x ∈ insert e t <-> x = e \/ x ∈ t.
Proof.
  induction t as [|y t IH]; cbn [insert]; [set_solver|]. destruct (_ <=? _); [|set_solver]. rewrite !elem_of_cons, IH. tauto.
Qed.

Lemma insert_sorted e t : StronglySorted later t -> StronglySorted later (insert e t).
Proof.
  induction 1 as [|x t Ht IH Hx]; cbn [insert]; [by repeat constructor|]. destruct (Z.leb_spec (due_ns x) (due_ns e)) as [Hle|Hlt].
  - constructor; [done|]. apply Forall_forall. intros y [->|Hy]%insert_elem; [done|]. rewrite Forall_forall in Hx. by apply Hx.
  - constructor; [by constructor|]. constructor; [unfold later; lia|]. eapply Forall_impl; [exact Hx|]. unfold later. cbn. lia.
Qed.

Lemma sorted_of_sorted ps : StronglySorted later (sorted_of ps).
Proof. induction ps as [|e ps IH] using rev_ind; [constructor|]. rewrite sorted_of_snoc. by apply insert_sorted. Qed.

(** Cancelling commutes with sorting. *)
Section Filter.
Variable P : entry_t -> Prop.
Context `{!forall x, Decision (P x)}.

Lemma insert_first e t : Forall (fun x => due_ns e < due_ns x) t -> insert e t = e :: t.
Proof. destruct 1 as [|x t Hx _]; [done|]. cbn [insert]. by rewrite (proj2 (Z.leb_gt _ _) Hx). Qed.

Lemma insert_filter e t : StronglySorted later t -> filter P (insert e t) = if decide (P e) then insert e (filter P t) else filter P t.
Proof.
  induction 1 as [|x t Ht IH Hx]; cbn [insert]; [cbn; by case_decide|].
  destruct (Z.leb_spec (due_ns x) (due_ns e)) as [Hle|Hlt].
  - rewrite !filter_cons, IH. repeat case_decide; try done. cbn [insert]. by rewrite (proj2 (Z.leb_le _ _) Hle).
  - rewrite filter_cons. case_decide; [|done]. symmetry. apply insert_first, Forall_forall. intros y [_ Hy]%list_elem_of_filter.
    apply elem_of_cons in Hy as [->|Hy]; [done|]. rewrite Forall_forall in Hx. apply Hx in Hy. unfold later in Hy. lia.
Qed.

Lemma sorted_of_filter ps : filter P (sorted_of ps) = sorted_of (filter P ps).
Proof.
  induction ps as [|e ps IH] using rev_ind; [done|]. rewrite sorted_of_snoc, insert_filter, filter_app, IH by apply sorted_of_sorted.
  rewrite filter_cons, filter_nil. case_decide; [by rewrite sorted_of_snoc|by rewrite app_nil_r].
Qed.
End Filter.

(** ** The operations *)

Lemma cancel_loop_spec f a t : forall h r h', cancel_loop f a t h = (r, h') ->
  r.2 = filter (fun e => ~ same_call f a e) t /\ r.1 = Z.of_nat (length t) - Z.of_nat (length r.2) /\ cstep h h' (- r.1).
Proof.
  induction t as [|e t IH]; intros h r h' H; cbn [cancel_loop] in H.
  - apply ret_inv in H as [-> ->]. split; [done|]. split; [done|]. cstill.
  - destruct (same_call f a e) eqn:E.
    + apply bind_inv in H as (u & h1 & Ef & H). apply xfree_cstep in Ef. apply bind_inv in H as (r1 & h2 & E1 & H). apply ret_inv in H as [-> ->].
      apply IH in E1 as (E2 & En & Hs). cbn [fst snd length]. split; [rewrite filter_cons_False; [done|intros X; apply X; by rewrite E]|].
      split; [lia|]. eapply cstep_trans; [exact Ef|exact Hs|lia].
    + apply bind_inv in H as (r1 & h2 & E1 & H). apply ret_inv in H as [-> ->]. apply IH in E1 as (E2 & En & Hs). cbn [fst snd length].
      split; [rewrite filter_cons_True; [by rewrite E2|rewrite E; by intros []]|]. split; [lia|done].
Qed.

Definition grown (t t' : list entry_t) : Z := Z.of_nat (length t') - Z.of_nat (length t).

Lemma perform_spec ops : forall t k h r h', perform ops t k h = (r, h') ->
  cstep h h' (grown t r.1) /\ (ample h -> forall ps, t = sorted_of ps -> exists ps', does ops ps k ps' r.2 /\ r.1 = sorted_of ps').
Proof.
  unfold grown. induction ops as [|[d f a|f a] ops IH]; intros t k h r h' H; cbn [perform] in H.
  - apply ret_inv in H as [-> ->]. split; [cstill|]. intros _ ps ->. exists ps. split; [constructor|done].
  - apply bind_inv in H as (s & h1 & E & H). cbn [mcp_timer_schedule] in E. apply bind_inv in E as (ok & h0 & Em & E).
    pose proof (xmalloc_cstep _ _ _ Em) as Hm. apply IH in H as [Hs Hr]. destruct ok; cbn [negb] in E; apply ret_inv in E as [-> ->]; cbn in Hs, Hr.
    + split; [eapply cstep_trans; [exact Hm|exact Hs|rewrite insert_length; lia]|]. intros Am ps ->.
      destruct (Hr (ample_cstep _ _ _ Hm Am) (ps ++ [Entry (saturating_add (clock k) (delay_to_ns d)) f a])) as (ps' & Hd & Et).
      { by rewrite sorted_of_snoc. } exists ps'. split; [by constructor|done].
    + split; [eapply cstep_trans; [exact Hm|exact Hs|lia]|]. intros Am. by apply xmalloc_ample_inv in Em.
  - apply bind_inv in H as (s & h1 & E & H). cbn [mcp_timer_cancel] in E. apply bind_inv in E as (r0 & h0 & Ec & E). apply ret_inv in E as [-> ->].
    apply cancel_loop_spec in Ec as (E2 & En & Hc). apply IH in H as [Hs Hr]. cbn in Hs, Hr. split; [eapply cstep_trans; [exact Hc|exact Hs|lia]|].
    intros Am ps ->. rewrite sorted_of_filter in E2. destruct (Hr (ample_cstep _ _ _ Hc Am) _ E2) as (ps' & Hd & Et). exists ps'. split; [by constructor|done].
Qed.

Lemma poll_loop_spec fuel : forall t k n h t' k' n' calls h', poll_loop fuel t k n h = (Some (t', k', n', calls), h') ->
  cstep h h' (grown t t') /\ n' = n + Z.of_nat (length calls) /\
  (ample h -> forall ps, t = sorted_of ps -> exists ps', polls ps k calls ps' k' /\ t' = sorted_of ps').
Proof.
  unfold grown. induction fuel as [|fuel IH]; intros t k n h t' k' n' calls h' H; destruct t as [|e next]; cbn [poll_loop] in H.
  1,3: apply ret_inv in H as [[= -> -> -> ->] ->]; split; [cstill|]; split; [cbn; lia|]; intros _ ps E; exists []; split; [|done];
    assert (ps = []) as -> by (apply length_zero_iff_nil; by rewrite <- sorted_of_length, <- E); constructor.
  all: destruct (Z.ltb_spec (clock k) (due_ns e)) as [Hlt|Hge].
  1,3: apply ret_inv in H as [[= -> -> -> ->] ->]; split; [cstill|]; split; [cbn; lia|]; intros _ ps E; exists ps; split; [|done];
    destruct (sorted_of_head _ _ _ (eq_sym E)) as (ps' & Hp & _); by eapply polls_wait.
  - by apply ret_inv in H as [[=] _].
  - apply bind_inv in H as (r & h1 & E1 & H). apply perform_spec in E1 as [Hs1 Hr1]. apply bind_inv in H as (u & h2 & E2 & H).
    apply xfree_cstep in E2. apply bind_inv in H as (o & h3 & E3 & H). destruct o as [[[[t3 k3] n3] c3]|]; apply ret_inv in H as [[=] ->]; subst.
    apply IH in E3 as (Hs3 & -> & Hr3). cbn [length]. unfold grown in *.
    split; [eapply cstep_trans; [exact Hs1|eapply cstep_trans; [exact E2|exact Hs3|reflexivity]|lia]|]. split; [lia|]. intros Am ps E.
    destruct (sorted_of_head _ _ _ (eq_sym E)) as (ps' & Hp & ->). destruct (Hr1 Am ps' eq_refl) as (ps1 & Hd & Et).
    destruct (Hr3 (ample_cstep _ _ _ E2 (ample_cstep _ _ _ Hs1 Am)) ps1 Et) as (ps2 & Hpl & ->). exists ps2. split; [|done]. by eapply polls_fire.
Qed.

(** *** When a poll returns *)

Definition only_cancels (ops : list op) : Prop := forall d f a, Schedule d f a ∉ ops.

Lemma perform_shrinks ops : only_cancels ops -> forall t k h, (length (perform ops t k h).1.1 <= length t)%nat.
Proof.
  induction ops as [|[d f a|f a] ops IH]; intros Hc t k h; [done| |].
  - exfalso. apply (Hc d f a). by constructor.
  - cbn [perform mcp_timer_cancel]. unfold bind. destruct (cancel_loop f a t h) as [r h1] eqn:E. cbn.
    etrans; [apply IH|]. { intros d f' a' Hin. apply (Hc d f' a'). by constructor. }
    apply cancel_loop_spec in E as (-> & _). apply length_filter.
Qed.

Lemma poll_returns fuel : (forall f a, only_cancels (task f a)) -> forall t k n h, (length t <= fuel)%nat -> exists r h', poll_loop fuel t k n h = (Some r, h').
Proof.
  intros Ht. induction fuel as [|fuel IH]; intros t k n h Hl; destruct t as [|e next]; cbn [poll_loop length] in *; try lia; try by do 2 eexists.
  destruct (clock k <? due_ns e); [by do 2 eexists|]. unfold bind.
  pose proof (perform_shrinks (task (fn e) (arg e)) (Ht _ _) next (S k) h) as Hp. destruct (perform _ next (S k) h) as [r h1]. cbn in Hp |- *.
  edestruct (IH r.1 r.2 (n + 1) (Heap (fails h1) (calls h1) (live h1 - 1) (corrupt h1)) ltac:(lia)) as ([[[t3 k3] n3] c3] & h3 & ->).
  by do 2 eexists.
Qed.

Lemma polls_rest ps k calls ps' k' : polls ps k calls ps' k' -> Forall (fun x => clock (pred k') < due_ns x) ps'.
Proof.
  induction 1 as [|ps k e ps' Hp Hlt|]; [constructor| |done]. apply Forall_forall. intros x Hx.
  apply (picks_least _ _ _ _ Hp) in Hx. cbn. lia.
Qed.

Lemma polls_due ps k calls ps' k' : polls ps k calls ps' k' -> Forall (fun c : call => due_ns c.1 <= c.2) calls.
Proof. induction 1; by constructor. Qed.

Lemma does_reads ops ps k ps' k' : does ops ps k ps' k' -> (k <= k')%nat.
Proof. induction 1; lia. Qed.

Lemma polls_reads ps k calls ps' k' : polls ps k calls ps' k' -> (ps' = [] \/ k < k')%nat.
Proof.
  induction 1 as [|ps k e ps' Hp Hlt|ps k e ps' ps1 k1 calls ps2 k2 Hp Hge Hd%does_reads Hpl IH]; [by left|right; lia|].
  destruct IH as [->|IH]; [by left|right; lia].
Qed.

Lemma sorted_of_elem ps x : x ∈ sorted_of ps <-> x ∈ ps.
Proof. induction ps as [|e ps IH] using rev_ind; [done|]. rewrite sorted_of_snoc, insert_elem, IH. set_solver. Qed.

Lemma timer_create_spec h t h' : mcp_timer_create h = (t, h') -> cstep h h' (if t then 1 else 0) /\ (ample h -> t = Some []) /\ (t = Some [] \/ t = None).
Proof.
  intros H. unfold mcp_timer_create in H. apply bind_inv in H as (ok & h1 & E & H). apply ret_inv in H as [-> ->]. pose proof (xmalloc_cstep _ _ _ E).
  destruct ok; cbn; [split; [done|split; [done|by left]]|]. split; [done|]. split; [|by right]. intros Am. by apply xmalloc_ample_inv in E.
Qed.

(** *** A quick poll

    A poll that takes less than a millisecond by the clock, of tasks that
    schedule with a delay: what they schedule is not due in it. *)
Definition delayed (o : op) : Prop := match o with Schedule d _ _ => 1 <= d <= UINT64_MAX | Cancel _ _ => True end.

Section Quick.
Variable limit : Z.

Definition urgent (e : entry_t) : bool := due_ns e <? limit.

(** The weight of the entries that are due before [limit]. *)
Definition wsum (w : entry_t -> nat) (t : list entry_t) : nat := list_sum (map w (List.filter urgent t)).

Lemma wsum_cons w e t : wsum w (e :: t) = ((if urgent e then w e else 0) + wsum w t)%nat.
Proof. unfold wsum. cbn [List.filter]. by destruct (urgent e). Qed.

Lemma wsum_insert w e t : urgent e = false -> wsum w (insert e t) = wsum w t.
Proof.
  intros He. induction t as [|x t IH]; cbn [insert]; [by rewrite wsum_cons, He|].
  destruct (_ <=? _); rewrite !wsum_cons; [by rewrite IH|by rewrite He].
Qed.

Lemma wsum_filter w (P : entry_t -> Prop) `{!forall x, Decision (P x)} t : (wsum w (filter P t) <= wsum w t)%nat.
Proof. induction t as [|x t IH]; [done|]. rewrite filter_cons. case_decide; rewrite ?wsum_cons; lia. Qed.

(** The operations of a task add nothing that is due before the limit, and
    read the clock at most once each. *)
Lemma perform_urgent w ops k0 : Forall delayed ops -> (forall i, (k0 <= i)%nat -> 0 <= clock i <= UINT64_MAX /\ limit <= clock i + 1000000 /\ limit <= UINT64_MAX) ->
  forall t k h r h', (k0 <= k)%nat -> perform ops t k h = (r, h') -> (wsum w r.1 <= wsum w t)%nat /\ (k <= r.2 <= k + length ops)%nat.
Proof.
  intros Hd Hc. induction Hd as [|[d f a|f a] ops Ho _ IH]; intros t k h r h' Hk H; cbn [perform] in H.
  - apply ret_inv in H as [-> ->]. cbn [fst snd length]. lia.
  - apply bind_inv in H as (s & h1 & E & H). cbn [mcp_timer_schedule] in E. apply bind_inv in E as (ok & h0 & _ & E).
    destruct ok; cbn [negb] in E; apply ret_inv in E as [-> ->]; cbn in H; apply IH in H as [Hw Hr]; try lia; cbn [length]; [|lia].
    rewrite wsum_insert in Hw; [lia|]. destruct (Hc k Hk) as (H1 & H2 & H3). unfold urgent. cbn [due_ns]. cbn in Ho.
    rewrite deadline_saturates by (unfold UINT64_MAX in *; lia). apply Z.ltb_ge. lia.
  - apply bind_inv in H as (s & h1 & E & H). cbn [mcp_timer_cancel] in E. apply bind_inv in E as (r0 & h0 & Ec & E). apply ret_inv in E as [-> ->].
    apply cancel_loop_spec in Ec as (E2 & _). cbn in H. apply IH in H as [Hw Hr]; [|done]. rewrite E2 in Hw.
    pose proof (wsum_filter w (fun e => ~ same_call f a e) t). cbn [length]. lia.
Qed.

Definition one (_ : entry_t) : nat := 1.
Definition readings (e : entry_t) : nat := S (length (task (fn e) (arg e))).

Lemma poll_quick k0 k1 : (forall f a, Forall delayed (task f a)) ->
  (forall i, (k0 <= i)%nat -> 0 <= clock i <= UINT64_MAX /\ limit <= clock i + 1000000 /\ limit <= UINT64_MAX) ->
  (forall i, (k0 <= i < k1)%nat -> clock i < limit) ->
  forall fuel t k n h, (k0 <= k)%nat -> (wsum one t <= fuel)%nat -> (k + wsum readings t < k1)%nat ->
  exists r h', poll_loop fuel t k n h = (Some r, h').
Proof.
  intros Hd Hc Hq. induction fuel as [|fuel IH]; intros t k n h Hk Hf Hb; (destruct t as [|e next]; cbn [poll_loop]; [by do 2 eexists|]);
    (destruct (Z.ltb_spec (clock k) (due_ns e)) as [Hlt|Hge]; [by do 2 eexists|]);
    (assert (urgent e = true) as Hu by (apply Z.ltb_lt; assert (clock k < limit) by (apply Hq; lia); lia)); rewrite wsum_cons in Hf, Hb; rewrite Hu in Hf, Hb; unfold one in Hf at 1; [lia|].
  unfold readings in Hb at 1. unfold bind. destruct (perform (task (fn e) (arg e)) next (S k) h) as [r h1] eqn:E.
  destruct (perform_urgent one _ k0 (Hd _ _) Hc next (S k) h r h1 ltac:(lia) E) as [Hw1 Hr]. destruct (perform_urgent readings _ k0 (Hd _ _) Hc next (S k) h r h1 ltac:(lia) E) as [Hw2 _].
  cbn [xfree]. edestruct (IH r.1 r.2 (n + 1) (Heap (fails h1) (calls h1) (live h1 - 1) (corrupt h1))) as ([[[t3 k3] n3] c3] & h3 & ->); [lia..|].
  by do 2 eexists.
Qed.

Lemma wsum_all w t : (wsum w t <= list_sum (map w t))%nat.
Proof. induction t as [|e t IH]; [done|]. rewrite wsum_cons. change (list_sum (map w (e :: t))) with (w e + list_sum (map w t))%nat. destruct (urgent e); lia. Qed.
End Quick.

(** How often a poll of these entries reads the clock at most. *)
Definition poll_readings (t : list entry_t) : nat := S (list_sum (map readings t)).

Lemma count_one t : list_sum (map one t) = length t.
Proof. induction t as [|e t IH]; [done|]. change (list_sum (map one (e :: t))) with (1 + list_sum (map one t))%nat. cbn [length]. lia. Qed.

(** C37: Polling a timer: on a new timer after any sequence of operations,
    with memory, a monotone clock that stays a millisecond below its maximum,
    tasks that schedule with a delay of at least a millisecond (or only
    cancel), and a poll that takes less than a millisecond of the clock, a
    poll returns MCP_OK within as many calls as there are entries.  It fires
    what is pending in the order of the deadlines, entries with the same
    deadline in the order they were scheduled, each only once its deadline
    has passed, also when the tasks schedule or cancel entries while they
    run; it counts its calls, leaves the rest pending, and nothing that was
    due when it began remains. *)
Theorem timer_poll_refines ops h h1 t k h2 :
  ample h -> mcp_timer_create h = (Some [], h1) -> perform ops [] 0 h1 = ((t, k), h2) ->
  (forall f a, Forall delayed (task f a)) ->
  (forall i, 0 <= clock i <= UINT64_MAX - 1000000) -> (forall i j, (i <= j)%nat -> clock i <= clock j) ->
  (forall i, (k <= i < k + poll_readings t)%nat -> clock i < clock k + 1000000) ->
  exists ps ps' k' calls h3,
    does ops [] 0 ps k /\ polls ps k calls ps' k' /\
    mcp_timer_poll (length t) (Some t) k h2 = (Some (MCP_OK, Some (sorted_of ps'), k', Z.of_nat (length calls), calls), h3) /\
    Forall (fun x => clock k < due_ns x) ps'.
Proof.
  intros Am Hc Hp Hd Hclk Hmono Hquick. apply timer_create_spec in Hc as (Hs1 & _). pose proof (ample_cstep _ _ _ Hs1 Am) as A1.
  apply perform_spec in Hp as [Hs2 Hr]. destruct (Hr A1 [] eq_refl) as (ps & Hdo & Et). cbn in Hdo, Et. pose proof (ample_cstep _ _ _ Hs2 A1) as A2.
  pose proof (wsum_all (clock k + 1000000) one t) as W1. pose proof (wsum_all (clock k + 1000000) readings t) as W2. rewrite count_one in W1.
  unfold poll_readings in Hquick.
  destruct (poll_quick (clock k + 1000000) k (k + S (list_sum (map readings t))) Hd) with (fuel := length t) (t := t) (k := k) (n := 0) (h := h2)
    as ([[[t' k'] n] cl] & h3 & E); [|done|lia|lia|lia|].
  { intros i Hi. pose proof (Hclk i). pose proof (Hclk k). specialize (Hmono k i Hi). unfold UINT64_MAX in *. lia. }
  pose proof E as E'. apply poll_loop_spec in E' as (_ & -> & Hr2). destruct (Hr2 A2 ps Et) as (ps' & Hpl & ->).
  exists ps, ps', k', cl, h3. split; [done|]. split; [done|]. unfold mcp_timer_poll. rewrite (bind_run _ _ _ _ _ E). split; [done|].
  destruct (polls_reads _ _ _ _ _ Hpl) as [->|Hk]; [constructor|]. eapply Forall_impl; [by eapply polls_rest|].
  intros x Hx. cbn in Hx. specialize (Hmono k (pred k') ltac:(lia)). lia.
Qed.

(** A poll ends when the tasks schedule nothing, within as many calls as
    entries are pending, and then nothing is late: every entry that was
    pending and due when the poll began has been called or cancelled, and
    what remains is due after the last reading of the clock. *)
Theorem timer_poll_complete ps k h :
  ample h -> (forall f a, only_cancels (task f a)) -> (forall i j, (i <= j)%nat -> clock i <= clock j) ->
  exists t' k' n calls h',
    mcp_timer_poll (length ps) (Some (sorted_of ps)) k h = (Some (MCP_OK, Some t', k', n, calls), h') /\
    Forall (fun x => clock k < due_ns x) t' /\ Forall (fun x => clock (pred k') < due_ns x) t' /\
    Forall (fun c : call => due_ns c.1 <= c.2) calls.
Proof.
  intros Am Ht Hclock. destruct (poll_returns (length ps) Ht (sorted_of ps) k 0 h) as ([[[t' k'] n] calls] & h' & E); [by rewrite sorted_of_length|].
  exists t', k', n, calls, h'. unfold mcp_timer_poll. rewrite (bind_run _ _ _ _ _ E). split; [done|].
  apply poll_loop_spec in E as (_ & _ & Hr). destruct (Hr Am ps eq_refl) as (ps' & Hp & ->).
  assert (Forall (fun x => clock (pred k') < due_ns x) (sorted_of ps')) as Hrest.
  { apply Forall_forall. intros x Hx. exact (proj1 (Forall_forall _ _) (polls_rest _ _ _ _ _ Hp) x (proj1 (sorted_of_elem _ _) Hx)). }
  split; [|split; [done|by eapply polls_due]]. destruct (polls_reads _ _ _ _ _ Hp) as [->|Hk]; [constructor|].
  eapply Forall_impl; [exact Hrest|]. intros x Hx. cbn in Hx. specialize (Hclock k (pred k') ltac:(lia)). lia.
Qed.

Lemma free_entries_cstep t : forall h u h', free_entries t h = (u, h') -> cstep h h' (- Z.of_nat (length t)).
Proof.
  induction t as [|e t IH]; intros h u h' H; cbn [free_entries] in H; [apply ret_inv in H as [_ ->]; cstill|].
  apply bind_inv in H as (v & h1 & E & H). apply xfree_cstep in E. apply IH in H. eapply cstep_trans; [exact E|exact H|cbn [length]; lia].
Qed.

(** Whatever the allocator refuses, a timer gives back what it took. *)
Lemma timer_no_leak ops fuel h t0 h1 t k h2 st t' k' n calls h3 u h4 :
  mcp_timer_create h = (Some t0, h1) -> perform ops t0 0 h1 = ((t, k), h2) ->
  mcp_timer_poll fuel (Some t) k h2 = (Some (st, t', k', n, calls), h3) -> mcp_timer_destroy t' h3 = (u, h4) -> cstep h h4 0.
Proof.
  intros Hc Hp Hl Hd. apply timer_create_spec in Hc as (Hs1 & _ & [[= ->]|[=]]). apply perform_spec in Hp as [Hs2 _].
  unfold mcp_timer_poll in Hl. apply bind_inv in Hl as (o & h5 & E & Hl). destruct o as [[[[t4 k4] n4] c4]|]; apply ret_inv in Hl as [[=] ->]; subst.
  apply poll_loop_spec in E as (Hs3 & _). cbn [mcp_timer_destroy] in Hd. apply bind_inv in Hd as (v & h6 & E & Hd).
  apply free_entries_cstep in E. apply xfree_cstep in Hd. unfold grown in *. cbn [length fst] in *. csolve.
Qed.
End Timer.

Arguments entry_t : clear implicits.
Arguments op : clear implicits.

(** ** Examples *)

(** A clock that advances by a millisecond a reading, and tasks named by
    numbers that do nothing, except that 9 cancels task 2. *)
Definition ms_clock (k : nat) : Z := Z.of_nat k * 1000000.

Definition sample_task (f _ : nat) : list (op nat nat) := if Nat.eqb f 9 then [Cancel 2 0]%nat else [].

Definition sample_ops : list (op nat nat) := [Schedule 3 1 0; Schedule 2 3 0; Schedule 2 9 0; Schedule 3 2 0; Schedule 900 4 0]%nat.

Definition sample_timer := perform ms_clock sample_ops [] 0 (mcp_timer_create (F := nat) (A := nat) fresh_heap).2.

Definition sample_poll := mcp_timer_poll ms_clock sample_task 10 (Some sample_timer.1.1) sample_timer.1.2 sample_timer.2.

Definition fired_names : option (list nat) :=
  match sample_poll.1 with Some (_, _, _, _, calls) => Some (map (fun c => fn c.1) calls) | None => None end.

(** The same with a clock that advances by ten microseconds a reading. *)
Definition fast_clock (k : nat) : Z := Z.of_nat (Nat.min k 1000) * 10000.

Definition again_task (f a : nat) : list (op nat nat) := if Nat.eqb f 9 then [Cancel 2 0; Schedule 1 9 0]%nat else [].

Definition again_ops : list (op nat nat) := [Schedule 0 1 0; Schedule 0 3 0; Schedule 0 9 0; Schedule 0 2 0; Schedule 900 4 0]%nat.

Definition again_timer := perform fast_clock again_ops [] 0 (mcp_timer_create (F := nat) (A := nat) fresh_heap).2.

Lemma timer_poll_refines_witness :
  exists ps ps' k' calls h3,
    does fast_clock again_ops [] 0 ps again_timer.1.2 /\ polls fast_clock again_task ps again_timer.1.2 calls ps' k' /\
    mcp_timer_poll fast_clock again_task (length again_timer.1.1) (Some again_timer.1.1) again_timer.1.2 again_timer.2 =
      (Some (MCP_OK, Some (sorted_of ps'), k', Z.of_nat (length calls), calls), h3) /\
    Forall (fun x => fast_clock again_timer.1.2 < due_ns x) ps'.
Proof.
  apply (timer_poll_refines fast_clock again_task again_ops fresh_heap (mcp_timer_create (F := nat) (A := nat) fresh_heap).2).
  - exact fresh_ample.
  - reflexivity.
  - unfold again_timer. by rewrite <- !surjective_pairing.
  - intros f a. unfold again_task. destruct (Nat.eqb f 9); repeat constructor; cbn; unfold UINT64_MAX; lia.
  - intros i. unfold fast_clock, UINT64_MAX. lia.
  - intros i j Hij. unfold fast_clock. lia.
  - assert (again_timer.1.2 = 5%nat /\ poll_readings again_task again_timer.1.1 = 8%nat) as [-> ->] by (vm_compute; done).
    intros i Hi. unfold fast_clock. lia.
Defined.

(** In the first sample 9 cancels 2. *)
Example fired_sample : fired_names = Some [1; 3; 9]%nat.
Proof. by vm_compute. Qed.

Lemma timer_poll_complete_witness :
  exists t' k' n calls h',
    mcp_timer_poll ms_clock sample_task 1 (Some (sorted_of [Entry 5000000 1%nat 0%nat])) 3 fresh_heap = (Some (MCP_OK, Some t', k', n, calls), h') /\
    Forall (fun x => ms_clock 3 < due_ns x) t' /\ Forall (fun x => ms_clock (pred k') < due_ns x) t' /\
    Forall (fun c : call => due_ns c.1 <= c.2) calls.
Proof.
  apply (timer_poll_complete ms_clock sample_task [Entry 5000000 1%nat 0%nat] 3 fresh_heap fresh_ample).
  - intros f a d f' a'. unfold sample_task. destruct (Nat.eqb f 9); intros H; by repeat (apply elem_of_cons in H as [H|H]); try by apply elem_of_nil in H.
  - intros i j H. unfold ms_clock. lia.
Defined.

(** A task that schedules itself again without a delay runs in the same
    poll, which then never ends. *)
Lemma zero_delay_spins (clock : nat -> Z) fuel : forall k d n h,
  ample h -> (forall i, 0 <= clock i <= UINT64_MAX) -> (forall i j, (i <= j)%nat -> clock i <= clock j) -> d <= clock k ->
  (poll_loop clock (fun f a : nat => [Schedule 0 f a]) fuel [Entry d 0%nat 0%nat] k n h).1 = None.
Proof.
  induction fuel as [|fuel IH]; intros k d n h Am Hr Hm Hd; cbn [poll_loop due_ns]; rewrite (proj2 (Z.ltb_ge _ _) Hd); [done|].
  cbn [perform mcp_timer_schedule fn arg insert]. unfold bind. rewrite (xmalloc_ample h Am). cbn.
  rewrite deadline_saturates by (unfold UINT64_MAX in *; try apply Hr; lia). rewrite Z.add_0_r, Z.min_l by apply Hr.
  set (h1 := Heap _ _ _ _). specialize (IH (S (S k)) (clock (S k)) (n + 1) h1). destruct (poll_loop _ _ _ _ _ _ h1) as [o h2].
  cbn in IH. rewrite IH; [done| |done|done|apply Hm; lia]. intros i. apply Am.
Qed.
