(* ===== verification/Queue.v ===== *)
(** * The message queue (src/server/queue.c)

    A ring buffer of (session, message) pairs in two parallel arrays that
    are reallocated one after the other, with in-place compaction before
    growth.  The refinement theorems show it to be a first-in first-out
    queue of at most 1024 messages; the invariant that makes the in-place
    compaction safe is that the ring never actually wraps. *)
From S2P Require Import Prelude Heap JsonValue JsonApi Message.

Local Open Scope Z_scope.

Definition MCP_QUEUE_MAX_LEN : nat := 1024.

Section queue.
(** A reference to a session, and a message. *)
Context {S : Type} {Msg : Type}.

(** [struct mcp_queue]: the two arrays with the slots they really have (an
    array that is NULL has none; a slot never written is [None]). *)
Record mcp_queue_t := Queue {
  sessions : list (option S);
  msgs : list (option Msg);
  head : nat;
  len : nat;
  cap : nat;
}.

Definition empty_queue : mcp_queue_t := Queue [] [] 0 0 0.

Definition mcp_queue_create : M (option mcp_queue_t) :=
  ok <- xmalloc ;; ret (if ok then Some empty_queue else None).

(** Reading a slot. *)
Definition slot {A} (l : list (option A)) (i : nat) : option A := mjoin (l !! i).

(** The loop that moves the live entries to the front. *)
Fixpoint compact (k i : nat) (q : mcp_queue_t) : mcp_queue_t :=
  match k with
  | O => q
  | Datatypes.S k' =>
      let src := ((head q + i) mod cap q)%nat in
      let q' := if Nat.eqb src i then q
                else Queue (<[i := slot (sessions q) src]> (sessions q))
                           (<[i := slot (msgs q) src]> (msgs q)) (head q) (len q) (cap q) in
      compact k' (Datatypes.S i) q'
  end.

Definition is_nil {A} (l : list A) : bool := match l with [] => true | _ => false end.

(** [realloc] to [n] slots: the old slots are kept, the new ones unset. *)
Definition regrow {A} (n : nat) (l : list (option A)) : list (option A) :=
  take n l ++ replicate (n - length l) None.

(** The compaction step of [queue_grow]. *)
Definition front (q : mcp_queue_t) : mcp_queue_t :=
  if Nat.ltb 0 (head q) then
    let c := compact (len q) 0 q in Queue (sessions c) (msgs c) 0 (len q) (cap q)
  else q.

(** Its two reallocations: when the second fails the first stays. *)
Definition grow_arrays (q : mcp_queue_t) : M (mcp_status_t * mcp_queue_t) :=
  let ncap := if Nat.eqb (cap q) 0 then 8%nat else (cap q * 2)%nat in
  nm <- xrealloc (is_nil (msgs q)) ;;
  if negb nm then ret (MCP_ERR_NOMEM, q) else
  let q := Queue (sessions q) (regrow ncap (msgs q)) (head q) (len q) (cap q) in
  ns <- xrealloc (is_nil (sessions q)) ;;
  if negb ns then ret (MCP_ERR_NOMEM, q) else
  ret (MCP_OK, Queue (regrow ncap (sessions q)) (msgs q) (head q) (len q) ncap).

Definition queue_grow (q : mcp_queue_t) : M (mcp_status_t * mcp_queue_t) :=
  if Nat.ltb (len q) (cap q) && Nat.eqb (head q) 0 then ret (MCP_OK, q) else
  let q := front q in
  if Nat.ltb (len q) (cap q) then ret (MCP_OK, q) else grow_arrays q.

(** A NULL session or message is [None]. *)
Definition mcp_queue_push (q : mcp_queue_t) (session : option S) (msg : option Msg)
    : M (mcp_status_t * mcp_queue_t) :=
  match session, msg with
  | Some _, Some _ =>
      if Nat.leb MCP_QUEUE_MAX_LEN (len q) then ret (MCP_ERR_NOMEM, q) else
      r <- queue_grow q ;;
      match r with
      | (MCP_OK, q) =>
          let slot := ((head q + len q) mod cap q)%nat in
          ret (MCP_OK, Queue (<[slot := session]> (sessions q)) (<[slot := msg]> (msgs q))
                         (head q) (Datatypes.S (len q)) (cap q))
      | (_, q) => ret (MCP_ERR_NOMEM, q)
      end
  | _, _ => ret (MCP_ERR_INVALID_ARGUMENT, q)
  end.

(** The status, what was stored in [*session_out] and [*msg_out], and the
    queue. *)
Definition mcp_queue_pop (q : mcp_queue_t) : mcp_status_t * option (option S * option Msg) * mcp_queue_t :=
  if Nat.eqb (len q) 0 then (MCP_ERR_NOT_FOUND, None, q) else
  (MCP_OK, Some (slot (sessions q) (head q), slot (msgs q) (head q)),
   Queue (sessions q) (msgs q) ((head q + 1) mod cap q)%nat (len q - 1) (cap q)).

Definition mcp_queue_size (q : option mcp_queue_t) : nat := match q with None => O | Some q => len q end.

(** ** The queue it stands for *)

Definition entry (q : mcp_queue_t) (i : nat) : option S * option Msg :=
  (slot (sessions q) (head q + i), slot (msgs q) (head q + i)).

Definition entries (q : mcp_queue_t) : list (option S * option Msg) := entry q <$> seq 0 (len q).

(** [q] holds exactly the pairs [l], oldest first. *)
Definition holds (q : mcp_queue_t) (l : list (S * Msg)) : Prop :=
  entries q = (fun p => (Some p.1, Some p.2)) <$> l.

(** The live entries are contiguous, the arrays are large enough. *)
Record inv (q : mcp_queue_t) : Prop := Inv {
  inv_ring : (head q + len q <= cap q)%nat;
  inv_sessions : length (sessions q) = cap q;
  inv_msgs : (cap q <= length (msgs q))%nat;
  inv_max : (len q <= MCP_QUEUE_MAX_LEN)%nat;
}.

(** The struct and the two arrays. *)
Definition queue_blocks (q : mcp_queue_t) : Z :=
  1 + (if is_nil (msgs q) then 0 else 1) + (if is_nil (sessions q) then 0 else 1).

(** ** Compaction *)

Lemma slot_insert_eq {A} (l : list (option A)) i x : (i < length l)%nat -> slot (<[i := x]> l) i = x.
Proof. intros H. unfold slot. by rewrite list_lookup_insert_eq. Qed.

Lemma slot_insert_ne {A} (l : list (option A)) i j x : i <> j -> slot (<[i := x]> l) j = slot l j.
Proof. intros H. unfold slot. by rewrite list_lookup_insert_ne. Qed.

(** After [i] turns the first [i] entries are at the front and the rest are
    where they were. *)
Lemma compact_spec (q0 : mcp_queue_t) : forall k i q,
  (0 < head q0)%nat -> (i + k = len q0)%nat -> inv q0 ->
  head q = head q0 -> len q = len q0 -> cap q = cap q0 ->
  length (sessions q) = length (sessions q0) -> length (msgs q) = length (msgs q0) ->
  (forall j, (j < i)%nat -> slot (sessions q) j = slot (sessions q0) (head q0 + j) /\
                            slot (msgs q) j = slot (msgs q0) (head q0 + j)) ->
  (forall j, (i <= j < len q0)%nat -> slot (sessions q) (head q0 + j) = slot (sessions q0) (head q0 + j) /\
                                      slot (msgs q) (head q0 + j) = slot (msgs q0) (head q0 + j)) ->
  let c := compact k i q in
  length (sessions c) = length (sessions q0) /\ length (msgs c) = length (msgs q0) /\
  forall j, (j < len q0)%nat -> slot (sessions c) j = slot (sessions q0) (head q0 + j) /\
                                slot (msgs c) j = slot (msgs q0) (head q0 + j).
Proof.
  induction k as [|k IH]; intros i q Hh Hik Hinv H1 H2 H3 L1 L2 Hdone Hrest; simpl.
  { split; [done|]. split; [done|]. intros j Hj. apply Hdone. lia. }
  pose proof Hinv as [Hring Hs Hm _]. rewrite H1, H3, Nat.mod_small by lia.
  rewrite (proj2 (Nat.eqb_neq (head q0 + i) i)) by lia.
  apply IH; simpl; try done; try lia.
  - by rewrite length_insert.
  - by rewrite length_insert.
  - intros j Hj. destruct (decide (j = i)) as [->|].
    + rewrite !slot_insert_eq by lia. apply Hrest. lia.
    + rewrite !slot_insert_ne by lia. apply Hdone. lia.
  - intros j Hj. rewrite !slot_insert_ne by lia. apply Hrest. lia.
Qed.

Lemma regrow_length {A} n (l : list (option A)) : length (regrow n l) = n.
Proof. unfold regrow. rewrite length_app, length_take, length_replicate. lia. Qed.

Lemma regrow_slot {A} n (l : list (option A)) i : (i < n)%nat -> slot (regrow n l) i = slot l i.
Proof.
  intros Hi. unfold slot, regrow. destruct (decide (i < length l)%nat) as [Hl|Hl].
  - rewrite lookup_app_l by (rewrite length_take; lia). by rewrite lookup_take_lt.
  - rewrite lookup_app_r by (rewrite length_take; lia). rewrite (lookup_ge_None_2 l) by lia.
    rewrite length_take. destruct (replicate _ _ !! _) as [x|] eqn:E; [|done].
    by apply lookup_replicate in E as [-> _].
Qed.

(** Queues with the same live slots hold the same pairs. *)
Lemma entries_ext q q' :
  len q' = len q ->
  (forall j, (j < len q)%nat -> slot (sessions q') (head q' + j) = slot (sessions q) (head q + j) /\
                                slot (msgs q') (head q' + j) = slot (msgs q) (head q + j)) ->
  entries q' = entries q.
Proof.
  intros Hl Hs. unfold entries. rewrite Hl. apply list_fmap_ext. intros i j [-> Hj]%lookup_seq.
  unfold entry. simpl. destruct (Hs i) as [-> ->]; [lia|done].
Qed.

(** ** Growth *)

Lemma is_nil_length {A} (l : list A) : is_nil l = Nat.eqb (length l) 0.
Proof. by destruct l. Qed.

Lemma blocks_length q q' :
  length (sessions q') = length (sessions q) -> length (msgs q') = length (msgs q) ->
  queue_blocks q' = queue_blocks q.
Proof. intros H1 H2. unfold queue_blocks. by rewrite !is_nil_length, H1, H2. Qed.

Lemma front_spec q :
  inv q -> inv (front q) /\ entries (front q) = entries q /\ len (front q) = len q /\
  cap (front q) = cap q /\ head (front q) = O /\ queue_blocks (front q) = queue_blocks q.
Proof.
  intros Hinv. unfold front. destruct (Nat.ltb_spec 0 (head q)) as [Hh|Hh].
  2: { assert (head q = O) as Hz by lia. done. }
  cbv zeta. destruct (compact_spec q (len q) 0 q) as (L1 & L2 & Hc); try done; [lia|]. simpl.
  pose proof Hinv as [Hring Hs Hm Hx]. split; [split; simpl; lia|].
  split; [by apply entries_ext|]. split; [done|]. split; [done|]. split; [done|]. by apply blocks_length.
Qed.

Lemma grow_arrays_spec q h st q' h' :
  grow_arrays q h = ((st, q'), h') -> inv q -> head q = O ->
  inv q' /\ entries q' = entries q /\ len q' = len q /\ head q' = O /\
  hstep h h' (queue_blocks q' - queue_blocks q) /\
  ((st = MCP_OK /\ (cap q < cap q')%nat) \/ (st = MCP_ERR_NOMEM /\ ~ ample h)).
Proof.
  intros H Hinv Hz. unfold grow_arrays in H. cbv zeta in H. pose proof Hinv as [Hring Hs Hm Hx].
  set (ncap := if Nat.eqb (cap q) 0 then 8%nat else (cap q * 2)%nat) in *.
  assert (cap q < ncap)%nat as Hn by (unfold ncap; destruct (Nat.eqb_spec (cap q) 0); lia).
  assert (is_nil (regrow ncap (msgs q)) = false /\ is_nil (regrow ncap (sessions q)) = false) as [N1 N2]
    by (rewrite !is_nil_length, !regrow_length; split; apply Nat.eqb_neq; lia).
  apply bind_inv in H as (nm & h1 & E1 & H). pose proof E1 as E1'. destruct nm; cbn [negb] in H.
  2: { minv H. simplify_eq. split; [done|]. split; [done|]. split; [done|]. split; [done|]. split; [hsolve|].
       right. split; [done|]. intros A. by apply (xrealloc_ample_inv _ _ _ _ A) in E1'. }
  apply bind_inv in H as (ns & h2 & E2 & H). pose proof E2 as E2'. cbn [sessions msgs head len cap] in *.
  destruct ns; cbn [negb] in H; minv H; simplify_eq; simpl.
  - split; [split; simpl; rewrite ?regrow_length; lia|].
    split; [apply entries_ext; [done|]; intros j Hj; simpl; rewrite !regrow_slot by lia; done|].
    split; [done|]. split; [done|]. split; [|by left]. unfold queue_blocks. simpl. rewrite N1, N2.
    destruct (is_nil (msgs q)), (is_nil (sessions q)); hsolve.
  - split; [split; simpl; rewrite ?regrow_length; lia|].
    split; [apply entries_ext; [done|]; intros j Hj; simpl; rewrite !regrow_slot by lia; done|].
    split; [done|]. split; [done|]. split.
    + unfold queue_blocks. simpl. rewrite N1. destruct (is_nil (msgs q)); hsolve.
    + right. split; [done|]. intros A. apply (ample_hstep _ _ _ (xrealloc_hstep _ _ _ _ E1')) in A.
      by apply (xrealloc_ample_inv _ _ _ _ A) in E2'.
Qed.

Lemma queue_grow_spec q h st q' h' :
  queue_grow q h = ((st, q'), h') -> inv q ->
  inv q' /\ entries q' = entries q /\ len q' = len q /\
  hstep h h' (queue_blocks q' - queue_blocks q) /\
  ((st = MCP_OK /\ head q' = O /\ (len q' < cap q')%nat) \/ (st = MCP_ERR_NOMEM /\ ~ ample h)).
Proof.
  intros H Hinv. unfold queue_grow in H. destruct (_ && _) eqn:E0; bool_props.
  { minv H. simplify_eq. split; [done|]. split; [done|]. split; [done|]. split; [hsolve|]. by left. }
  cbv zeta in H. destruct (front_spec q Hinv) as (Hinv1 & He1 & Hl1 & Hc1 & Hh1 & Hb1).
  rewrite <- He1, <- Hl1, <- Hb1. destruct (Nat.ltb_spec (len (front q)) (cap (front q))) as [Hlt|Hge].
  - minv H. simplify_eq. split; [done|]. split; [done|]. split; [done|]. split; [hsolve|]. by left.
  - apply grow_arrays_spec in H as (Hinv' & He' & Hl' & Hh' & Hs & Hst); [|done..].
    split; [done|]. split; [done|]. split; [done|]. split; [done|].
    destruct Hst as [[-> Hc]|[-> Hna]]; [left|by right]. split; [done|]. split; [done|].
    pose proof (inv_ring _ Hinv1). lia.
Qed.

(** ** Push and pop *)

Lemma push_spec q s m h st q' h' l :
  mcp_queue_push q (Some s) (Some m) h = ((st, q'), h') -> inv q -> holds q l ->
  inv q' /\ hstep h h' (queue_blocks q' - queue_blocks q) /\
  ((st = MCP_OK /\ holds q' (l ++ [(s, m)])) \/
   (st = MCP_ERR_NOMEM /\ holds q' l /\ (ample h -> length l = MCP_QUEUE_MAX_LEN))).
Proof.
  intros H Hinv Hl. assert (length l = len q) as Hlen.
  { apply (f_equal length) in Hl. unfold entries in Hl. rewrite !length_fmap, length_seq in Hl. done. }
  cbn [mcp_queue_push] in H. destruct (Nat.leb_spec MCP_QUEUE_MAX_LEN (len q)) as [Hmax|Hmax].
  { minv H. simplify_eq. split; [done|]. split; [hsolve|]. right. split; [done|]. split; [done|].
    intros _. pose proof (inv_max _ Hinv). lia. }
  apply bind_inv in H as ([st1 q1] & h1 & E & H).
  apply queue_grow_spec in E as (Hinv1 & He1 & Hl1 & Hs1 & [(-> & Hh & Hc)|[-> Hna]]); [| |done].
  2: { minv H. simplify_eq. split; [done|]. split; [done|]. right. split; [done|]. unfold holds. rewrite He1.
       by split; [|intros A; exfalso]. }
  cbv zeta in H. minv H. simplify_eq. rewrite Hh in *. simpl.
  pose proof Hinv1 as [Hring Hss Hmm Hx]. rewrite Nat.mod_small by lia.
  split; [split; simpl; rewrite ?length_insert; lia|].
  split; [erewrite (blocks_length q1); [done|simpl; by rewrite length_insert..]|].
  left. split; [done|]. unfold holds in *. rewrite fmap_app, <- Hl, <- He1. unfold entries. cbn [len].
  rewrite seq_S, fmap_app. f_equal.
  - apply list_fmap_ext. intros i j [-> Hj]%lookup_seq. unfold entry. simpl.
    rewrite !slot_insert_ne by lia. by rewrite Hh.
  - cbn. unfold entry. simpl. by rewrite !slot_insert_eq by lia.
Qed.

Lemma pop_spec q l :
  inv q -> holds q l ->
  match l with
  | [] => mcp_queue_pop q = (MCP_ERR_NOT_FOUND, None, q)
  | (s, m) :: l' => exists q', mcp_queue_pop q = (MCP_OK, Some (Some s, Some m), q') /\
      inv q' /\ holds q' l' /\ queue_blocks q' = queue_blocks q
  end.
Proof.
  intros Hinv Hl. pose proof Hinv as [Hring Hss Hmm Hx]. unfold holds, entries in Hl. unfold mcp_queue_pop.
  destruct (len q) as [|n] eqn:En.
  { destruct l as [|[s m] l]; [done|]. by apply (f_equal length) in Hl. }
  destruct l as [|[s m] l]; [done|]. cbn [seq fmap list_fmap] in Hl. injection Hl as Hs Hm Hl.
  rewrite Nat.add_0_r in Hs, Hm. cbn [Nat.eqb]. rewrite Hs, Hm. eexists. split; [done|].
  replace (Datatypes.S n - 1)%nat with n by lia.
  assert (n = O \/ ((head q + 1) mod cap q = head q + 1)%nat) as Hmod
    by (destruct n; [by left|right; apply Nat.mod_small; lia]).
  split; [|split; [|done]].
  - split; simpl; [|done|done|lia]. destruct Hmod as [-> | ->]; [|lia].
    pose proof (Nat.mod_upper_bound (head q + 1) (cap q)). lia.
  - unfold holds, entries. simpl. rewrite <- Hl. rewrite <- (fmap_S_seq 0 n). rewrite <- list_fmap_compose.
    apply list_fmap_ext. intros i j [-> Hj]%lookup_seq. unfold entry. simpl.
    destruct Hmod as [-> | ->]; [lia|]. by replace (head q + 1 + i)%nat with (head q + Datatypes.S i)%nat by lia.
Qed.

(** ** Sequences of operations *)

Inductive op := Push (s : S) (m : Msg) | Pop.

(** What a caller sees of an operation. *)
Inductive obs := Pushed (st : mcp_status_t) | Popped (st : mcp_status_t) (r : option (option S * option Msg)).

Fixpoint run (ops : list op) (q : mcp_queue_t) : M (list obs * mcp_queue_t) :=
  match ops with
  | [] => ret ([], q)
  | Push s m :: ops' =>
      r <- mcp_queue_push q (Some s) (Some m) ;;
      t <- run ops' r.2 ;;
      ret (Pushed r.1 :: t.1, t.2)
  | Pop :: ops' =>
      let r := mcp_queue_pop q in
      t <- run ops' r.2 ;;
      ret (Popped r.1.1 r.1.2 :: t.1, t.2)
  end.

(** The same on a list: a bounded first-in first-out queue. *)
Fixpoint fifo (ops : list op) (l : list (S * Msg)) : list obs * list (S * Msg) :=
  match ops with
  | [] => ([], l)
  | Push s m :: ops' =>
      if Nat.ltb (length l) MCP_QUEUE_MAX_LEN
      then let t := fifo ops' (l ++ [(s, m)]) in (Pushed MCP_OK :: t.1, t.2)
      else let t := fifo ops' l in (Pushed MCP_ERR_NOMEM :: t.1, t.2)
  | Pop :: ops' =>
      match l with
      | [] => let t := fifo ops' [] in (Popped MCP_ERR_NOT_FOUND None :: t.1, t.2)
      | (s, m) :: l' => let t := fifo ops' l' in (Popped MCP_OK (Some (Some s, Some m)) :: t.1, t.2)
      end
  end.

Lemma holds_length q l : holds q l -> length l = len q.
Proof. intros H. apply (f_equal length) in H. unfold entries in H. by rewrite !length_fmap, length_seq in H. Qed.

Lemma run_fifo ops : forall q l h r h',
  ample h -> inv q -> holds q l -> run ops q h = (r, h') ->
  r.1 = (fifo ops l).1 /\ holds r.2 (fifo ops l).2 /\ inv r.2.
Proof.
  induction ops as [|[s m|] ops IH]; intros q l h r h' A Hinv Hl H; cbn [run fifo] in *.
  - by minv H.
  - apply bind_inv in H as ([st q1] & h1 & E & H). pose proof (push_spec _ _ _ _ _ _ _ _ E Hinv Hl) as (Hinv1 & Hs & Hst).
    assert (ample h1) as A1 by (by eapply ample_hstep). apply bind_inv in H as (t & h2 & E2 & H). minv H.
    destruct Hst as [[-> Hl1]|(-> & Hl1 & Hfull)].
    + pose proof (holds_length _ _ Hl1) as HL. rewrite length_app in HL. simpl in HL.
      pose proof (inv_max _ Hinv1). rewrite (proj2 (Nat.ltb_lt (length l) MCP_QUEUE_MAX_LEN)) by lia.
      destruct (IH _ _ _ _ _ A1 Hinv1 Hl1 E2) as (H1 & H2 & H3). simpl. by rewrite H1.
    + rewrite (proj2 (Nat.ltb_ge (length l) MCP_QUEUE_MAX_LEN)) by (rewrite Hfull; done).
      destruct (IH _ _ _ _ _ A1 Hinv1 Hl1 E2) as (H1 & H2 & H3). simpl. by rewrite H1.
  - pose proof (pop_spec q l Hinv Hl) as Hp. apply bind_inv in H as (t & h2 & E2 & H). minv H.
    destruct l as [|[s m] l].
    + rewrite Hp in *. destruct (IH _ _ _ _ _ A Hinv Hl E2) as (H1 & H2 & H3). simpl. by rewrite H1.
    + destruct Hp as (q1 & Hp & Hinv1 & Hl1 & _). rewrite Hp in *.
      destruct (IH _ _ _ _ _ A Hinv1 Hl1 E2) as (H1 & H2 & H3). simpl. by rewrite H1.
Qed.

Lemma empty_inv : inv empty_queue.
Proof. split; simpl; unfold MCP_QUEUE_MAX_LEN; lia. Qed.

Lemma empty_holds : holds empty_queue [].
Proof. done. Qed.
End queue.

Arguments mcp_queue_t : clear implicits.
Arguments op : clear implicits.

(** ** Destruction *)

(** The loop that destroys the queued messages. *)
Fixpoint destroy_msgs {S} (k i : nat) (q : mcp_queue_t S mcp_message_t) : M unit :=
  match k with
  | O => ret tt
  | Datatypes.S k' => mcp_message_destroy (slot (msgs q) ((head q + i) mod cap q)) ;; destroy_msgs k' (Datatypes.S i) q
  end.

Definition mcp_queue_destroy {S} (q : option (mcp_queue_t S mcp_message_t)) : M unit :=
  match q with
  | None => ret tt
  | Some q =>
      destroy_msgs (len q) 0 q ;;
      xfree (is_nil (sessions q)) ;; xfree (is_nil (msgs q)) ;; xfree false
  end.

Definition pairs_blocks {S} (l : list (S * mcp_message_t)) : Z :=
  foldr (fun p n => msg_blocks p.2 + n) 0 l.

Lemma destroy_msgs_spec {S} (q : mcp_queue_t S mcp_message_t) : forall k i l h u h',
  inv q -> (i + k = len q)%nat -> entry q <$> seq i k = (fun p => (Some p.1, Some p.2)) <$> l ->
  destroy_msgs k i q h = (u, h') -> hstep h h' (- pairs_blocks l).
Proof.
  induction k as [|k IH]; intros i l h u h' Hinv Hi Hl H; cbn [destroy_msgs seq fmap list_fmap] in *.
  - destruct l; [|done]. minv H. simpl. hsolve.
  - destruct l as [|[s m] l]; [done|]. injection Hl as _ Hm Hl. pose proof (inv_ring _ Hinv).
    rewrite Nat.mod_small in H by lia. rewrite Hm in H. minv H. message_facts.
    eapply IH in H; [|done|lia|done]. unfold pairs_blocks, msg_blocks in *. simpl. hsolve.
Qed.

Lemma queue_destroy_spec {S} (q : mcp_queue_t S mcp_message_t) l h u h' :
  inv q -> holds q l -> mcp_queue_destroy (Some q) h = (u, h') ->
  hstep h h' (- queue_blocks q - pairs_blocks l).
Proof.
  intros Hinv Hl H. cbn [mcp_queue_destroy] in H. minv H. eapply destroy_msgs_spec in E; [|done..].
  unfold queue_blocks. hstep_facts. destruct (is_nil (sessions q)), (is_nil (msgs q)); hsolve.
Qed.

(** ** Claims *)

(** The queue is first-in first-out: from an empty queue, any sequence of
    pushes and pops with memory available is observed (statuses and popped
    pairs) exactly as on a list queue that refuses pushes beyond 1024
    entries. *)
Theorem queue_fifo {S Msg} (ops : list (op S Msg)) h r h' :
  ample h -> run ops empty_queue h = (r, h') ->
  r.1 = (fifo ops []).1 /\ holds r.2 (fifo ops []).2.
Proof.
  intros A H. eapply run_fifo in H as (H1 & H2 & _); [|done|apply empty_inv|apply empty_holds]. done.
Qed.

(** A push, for every allocator: it appends the pair, or it returns
    MCP_ERR_NOMEM and the queued pairs are all still there in order (also
    when only one of the two arrays could be grown); with memory it fails
    only at 1024 entries; no block is lost. *)
Theorem queue_push_safe {S Msg} (q : mcp_queue_t S Msg) s m h st q' h' l :
  inv q -> holds q l -> mcp_queue_push q (Some s) (Some m) h = ((st, q'), h') ->
  inv q' /\ hstep h h' (queue_blocks q' - queue_blocks q) /\
  ((st = MCP_OK /\ holds q' (l ++ [(s, m)])) \/
   (st = MCP_ERR_NOMEM /\ holds q' l /\ (ample h -> length l = MCP_QUEUE_MAX_LEN))).
Proof. intros Hinv Hl H. by eapply push_spec. Qed.

(** Destroying the queue frees its arrays and every queued message, and
    nothing else. *)
Theorem queue_destroy_frees {S} (q : mcp_queue_t S mcp_message_t) l h u h' :
  inv q -> holds q l -> mcp_queue_destroy (Some q) h = (u, h') ->
  hstep h h' (- queue_blocks q - pairs_blocks l).
Proof. apply queue_destroy_spec. Qed.

Definition sample_ops : list (op nat nat) := [Push 1 10; Push 2 20; Pop; Push 3 30; Pop; Pop; Pop]%nat.

Lemma queue_fifo_witness :
  exists r h', run sample_ops empty_queue fresh_heap = (r, h') /\
  r.1 = (fifo sample_ops []).1 /\ holds r.2 (fifo sample_ops []).2.
Proof.
  eexists _, _. split; [apply surjective_pairing|].
  apply (queue_fifo sample_ops fresh_heap _ (run sample_ops empty_queue fresh_heap).2);
    [apply fresh_ample|apply surjective_pairing].
Defined.

Lemma queue_push_safe_witness :
  exists st q' h', mcp_queue_push (empty_queue : mcp_queue_t nat nat) (Some 1%nat) (Some 2%nat)
      (Heap (fun k => Nat.eqb k 1) 0 1 false) = ((st, q'), h') /\
  inv q' /\ hstep (Heap (fun k => Nat.eqb k 1) 0 1 false) h'
    (queue_blocks q' - queue_blocks (empty_queue : mcp_queue_t nat nat)) /\
  ((st = MCP_OK /\ holds q' ([] ++ [(1%nat, 2%nat)])) \/
   (st = MCP_ERR_NOMEM /\ holds q' [] /\
      (ample (Heap (fun k => Nat.eqb k 1) 0 1 false) -> length ([] : list (nat * nat)) = MCP_QUEUE_MAX_LEN))).
Proof.
  eexists _, _, _. split; [vm_compute; reflexivity|].
  apply (queue_push_safe (empty_queue : mcp_queue_t nat nat) 1%nat 2%nat (Heap (fun k => Nat.eqb k 1) 0 1 false));
    [apply empty_inv|apply empty_holds|vm_compute; reflexivity].
Defined.

Definition one_message : mcp_queue_t nat mcp_message_t :=
  Queue [Some 1%nat] [Some (Message (VObject 0 []))] 0 1 1.

Lemma queue_destroy_frees_witness :
  hstep (Heap (fun _ => false) 0 5 false) (Heap (fun _ => false) 0 0 false)
    (- queue_blocks one_message - pairs_blocks [(1%nat, Message (VObject 0 []))]).
Proof.
  apply (queue_destroy_frees one_message [(1%nat, Message (VObject 0 []))] _ tt);
    [split; cbn; unfold MCP_QUEUE_MAX_LEN; lia|reflexivity|vm_compute; reflexivity].
Defined.
