(* ===== verification/Session.v ===== *)
(** * Sessions (src/server/session.c)

    The per-client state: handshake flag, permission mask, seen ids, client
    information and the subscription filter; the session list of the server;
    the notification and closure builders. *)
From S2P Require Import Prelude Heap Utf8 Double JsonValue JsonParse JsonSerialize JsonApi Schema Message Initialize Validate.

Local Open Scope Z_scope.

(** [struct mcp_session].  [sub_resource_uris] is the array and its first
    [n_sub_resource_uris] entries, an entry being NULL when its copy could
    not be made; [None] is a NULL array. *)
Record mcp_session_t := Session {
  initialized : bool;
  apps_host : bool;
  granted : Z;
  client_name : option bytes;
  client_version : option bytes;
  ids : IdSet.mcp_idset_t;
  client_meta : option value;
  subscription_active : bool;
  sub_id_type : mcp_id_type_t;
  sub_id_str : option bytes;
  sub_id_num : double;
  sub_tools_list_changed : bool;
  sub_prompts_list_changed : bool;
  sub_resources_list_changed : bool;
  sub_resource_uris : option (list (option bytes));
}.

Definition set_initialized (b : bool) (s : mcp_session_t) : mcp_session_t :=
  Session b (apps_host s) (granted s) (client_name s) (client_version s) (ids s) (client_meta s)
    (subscription_active s) (sub_id_type s) (sub_id_str s) (sub_id_num s) (sub_tools_list_changed s)
    (sub_prompts_list_changed s) (sub_resources_list_changed s) (sub_resource_uris s).

Definition set_apps_host (b : bool) (s : mcp_session_t) : mcp_session_t :=
  Session (initialized s) b (granted s) (client_name s) (client_version s) (ids s) (client_meta s)
    (subscription_active s) (sub_id_type s) (sub_id_str s) (sub_id_num s) (sub_tools_list_changed s)
    (sub_prompts_list_changed s) (sub_resources_list_changed s) (sub_resource_uris s).

Definition set_granted (g : Z) (s : mcp_session_t) : mcp_session_t :=
  Session (initialized s) (apps_host s) g (client_name s) (client_version s) (ids s) (client_meta s)
    (subscription_active s) (sub_id_type s) (sub_id_str s) (sub_id_num s) (sub_tools_list_changed s)
    (sub_prompts_list_changed s) (sub_resources_list_changed s) (sub_resource_uris s).

Definition set_ids (i : IdSet.mcp_idset_t) (s : mcp_session_t) : mcp_session_t :=
  Session (initialized s) (apps_host s) (granted s) (client_name s) (client_version s) i (client_meta s)
    (subscription_active s) (sub_id_type s) (sub_id_str s) (sub_id_num s) (sub_tools_list_changed s)
    (sub_prompts_list_changed s) (sub_resources_list_changed s) (sub_resource_uris s).

Definition set_subscription_active (b : bool) (s : mcp_session_t) : mcp_session_t :=
  Session (initialized s) (apps_host s) (granted s) (client_name s) (client_version s) (ids s) (client_meta s)
    b (sub_id_type s) (sub_id_str s) (sub_id_num s) (sub_tools_list_changed s)
    (sub_prompts_list_changed s) (sub_resources_list_changed s) (sub_resource_uris s).

(** ** Allocation *)

(** A zeroed session with every permission granted. *)
Definition fresh_session (i : IdSet.mcp_idset_t) : mcp_session_t :=
  Session false false 0xFFFFFFFF None None i None false MCP_ID_NONE None (DZero false) false false false None.

Definition session_new : M (option mcp_session_t) :=
  s <- xmalloc ;;
  if negb s then ret None else
  i <- IdSet.mcp_idset_create ;;
  match i with
  | None => xfree false ;; ret None
  | Some i => ret (Some (fresh_session i))
  end.

Fixpoint free_uris (l : list (option bytes)) : M unit :=
  match l with
  | [] => ret tt
  | u :: l' => xfree (IdSet.is_null u) ;; free_uris l'
  end.

Definition session_free (s : option mcp_session_t) : M unit :=
  match s with
  | None => ret tt
  | Some s =>
      IdSet.mcp_idset_destroy (Some (ids s)) ;;
      builtin_destroy (client_meta s) ;;
      xfree (IdSet.is_null (client_name s)) ;;
      xfree (IdSet.is_null (client_version s)) ;;
      xfree (IdSet.is_null (sub_id_str s)) ;;
      match sub_resource_uris s with
      | None => ret tt
      | Some uris => free_uris uris ;; xfree false
      end ;;
      xfree false
  end.

(** ** Flags and permissions *)

Definition mcp_session_is_initialized (s : option mcp_session_t) : bool :=
  match s with None => false | Some s => initialized s end.

(** [ctx] says whether the context pointer is not NULL. *)
Definition mcp_session_set_apps_host (ctx : bool) (s : option mcp_session_t) (b : bool)
    : mcp_status_t * option mcp_session_t :=
  match s with
  | Some s' => if negb ctx then (MCP_ERR_INVALID_ARGUMENT, s) else (MCP_OK, Some (set_apps_host b s'))
  | None => (MCP_ERR_INVALID_ARGUMENT, s)
  end.

Definition mcp_session_is_apps_host (s : option mcp_session_t) : bool :=
  match s with None => false | Some s => apps_host s end.

Definition mcp_session_grant (ctx : bool) (s : option mcp_session_t) (perm_mask : Z)
    : mcp_status_t * option mcp_session_t :=
  match s with
  | Some s' => if negb ctx then (MCP_ERR_INVALID_ARGUMENT, s)
               else (MCP_OK, Some (set_granted (Z.lor (granted s') perm_mask) s'))
  | None => (MCP_ERR_INVALID_ARGUMENT, s)
  end.

(** [~perm_mask] on 32 bits. *)
Definition not32 (m : Z) : Z := Z.lxor m 0xFFFFFFFF.

Definition mcp_session_revoke (ctx : bool) (s : option mcp_session_t) (perm_mask : Z)
    : mcp_status_t * option mcp_session_t :=
  match s with
  | Some s' => if negb ctx then (MCP_ERR_INVALID_ARGUMENT, s)
               else (MCP_OK, Some (set_granted (Z.land (granted s') (not32 perm_mask)) s'))
  | None => (MCP_ERR_INVALID_ARGUMENT, s)
  end.

Definition mcp_session_grants (s : option mcp_session_t) (perm_mask : Z) : bool :=
  match s with None => false | Some s => Z.land (granted s) perm_mask =? perm_mask end.

Definition mcp_session_client_meta (s : option mcp_session_t) : option value :=
  match s with None => None | Some s => client_meta s end.

(** ** The session list of the server

    Sessions are told apart by their address; [sessions] is the array
    [srv->sessions[0..n_sessions-1]]. *)
Record session_list := Sessions { sessions : list nat; cap_sessions : nat }.

(** The session (at the address [addr] the allocator gave it) and the
    list. *)
Definition mcp_server_create_session (l : session_list) (addr : nat)
    : M (option mcp_session_t * session_list) :=
  s <- session_new ;;
  match s with
  | None => ret (None, l)
  | Some _ =>
      if Nat.eqb (length (sessions l)) (cap_sessions l) then
        ok <- xrealloc (isnull0 (cap_sessions l)) ;;
        if negb ok then session_free s ;; ret (None, l) else
        ret (s, Sessions (sessions l ++ [addr]) (grow_cap (cap_sessions l)))
      else ret (s, Sessions (sessions l ++ [addr]) (cap_sessions l))
  end.

(** The loop of [mcp_server_destroy_session]: the entry is replaced by the
    last one. *)
Fixpoint find_addr (addr : nat) (l : list nat) : option nat :=
  match l with
  | [] => None
  | a :: l' => if Nat.eqb a addr then Some O else S <$> find_addr addr l'
  end.

Definition detach (addr : nat) (l : list nat) : option (list nat) :=
  match find_addr addr l with
  | None => None
  | Some i =>
      let n := (length l - 1)%nat in
      Some (take n (match l !! n with Some last => <[i := last]> l | None => l end))
  end.

Definition mcp_server_destroy_session (l : session_list) (addr : nat) (s : mcp_session_t)
    : M session_list :=
  match detach addr (sessions l) with
  | None => ret l
  | Some rest => session_free (Some s) ;; ret (Sessions rest (cap_sessions l))
  end.

(** ** Subscriptions *)

Definition mcp_session_has_active_subscription (s : option mcp_session_t) : bool :=
  match s with None => false | Some s => subscription_active s end.

(** [strcmp] of the entries of the array with the uri; comparing a NULL
    entry is undefined and shown as [None]. *)
Fixpoint uri_listed (uris : list (option bytes)) (uri : bytes) : option bool :=
  match uris with
  | [] => Some false
  | None :: _ => None
  | Some u :: l => if streq u uri then Some true else uri_listed l uri
  end.

Definition mcp_session_is_subscribed_to_notification (s : option mcp_session_t) (method : option bytes)
    (params : option value) : option bool :=
  match s, method with
  | Some s, Some method =>
      if negb (subscription_active s) then Some true
      else if streq method (cs "notifications/tools/list_changed") then Some (sub_tools_list_changed s)
      else if streq method (cs "notifications/prompts/list_changed") then Some (sub_prompts_list_changed s)
      else if streq method (cs "notifications/resources/list_changed") then Some (sub_resources_list_changed s)
      else if streq method (cs "notifications/resources/updated") then
        match params, sub_resource_uris s with
        | Some _, Some (_ :: _ as uris) =>
            match builtin_get_string (builtin_object_get params (Some (cs "uri"))) with
            | None => Some false
            | Some uri => uri_listed uris uri
            end
        | _, _ => Some false
        end
      else Some true
  | _, _ => Some true
  end.

(** The id of the subscription as a value. *)
Definition sub_id_value (s : mcp_session_t) : M (option value) :=
  match sub_id_type s with
  | MCP_ID_STRING => string_new (default [] (sub_id_str s))
  | MCP_ID_NUMBER => builtin_new_number (sub_id_num s)
  | MCP_ID_NONE => builtin_new_null
  end.

Definition subscription_key : bytes := cs "io.modelcontextprotocol/subscriptionId".

(** The decoration of [params] in [mcp_session_build_notification]: the
    parameters with the subscription id in their "_meta", or the status.  On
    a failed [object_set_take] the value it has already destroyed is
    destroyed again, as the code does. *)
Definition add_subscription_id (s : mcp_session_t) (params : value) : M (mcp_status_t + value) :=
  m <- match builtin_object_get (Some params) (Some (cs "_meta")) with
       | Some meta => ret (inr (meta, params))
       | None =>
           meta <- builtin_new_object ;;
           match meta with
           | None => builtin_destroy None ;; builtin_destroy (Some params) ;; ret (inl MCP_ERR_NOMEM)
           | Some mv =>
               r <- object_set_take (Some params) (cs "_meta") meta ;;
               match r with
               | (MCP_OK, Some params) => ret (inr (mv, params))
               | (_, params) =>
                   builtin_destroy meta ;; builtin_destroy params ;; ret (inl MCP_ERR_NOMEM)
               end
           end
       end ;;
  match m with
  | inl st => ret (inl st)
  | inr (meta, params) =>
      id <- sub_id_value s ;;
      match id with
      | None => builtin_destroy None ;; builtin_destroy (Some params) ;; ret (inl MCP_ERR_NOMEM)
      | Some _ =>
          r <- object_set_take (Some meta) subscription_key id ;;
          match r with
          | (MCP_OK, Some meta) =>
              ret (match put_child (Some params) (cs "_meta") meta with
                   | Some params => inr params
                   | None => inl MCP_ERR_NOMEM
                   end)
          | (_, Some meta) =>
              builtin_destroy id ;;
              builtin_destroy (put_child (Some params) (cs "_meta") meta) ;; ret (inl MCP_ERR_NOMEM)
          | (_, None) => builtin_destroy id ;; builtin_destroy (Some params) ;; ret (inl MCP_ERR_NOMEM)
          end
      end
  end.

(** The status and [*notif_out]; [None] where the code compares a NULL
    string. *)
Definition mcp_session_build_notification (s : option mcp_session_t) (method : option bytes)
    (params : option value) : M (option (mcp_status_t * option mcp_message_t)) :=
  match method with
  | None => ret (Some (MCP_ERR_INVALID_ARGUMENT, None))
  | Some _ =>
      let finish params :=
        msg <- mcp_notification_new method params ;;
        ret (Some (match msg with None => (MCP_ERR_NOMEM, None) | Some _ => (MCP_OK, msg) end)) in
      match s with
      | None => finish params
      | Some ss =>
          if negb (subscription_active ss) then finish params else
          match mcp_session_is_subscribed_to_notification s method params with
          | None => ret None
          | Some false => builtin_destroy params ;; ret (Some (MCP_OK, None))
          | Some true =>
              p <- (match params with Some _ => ret params | None => builtin_new_object end) ;;
              match p with
              | None => ret (Some (MCP_ERR_NOMEM, None))
              | Some p =>
                  r <- add_subscription_id ss p ;;
                  match r with
                  | inl st => ret (Some (st, None))
                  | inr p => finish (Some p)
                  end
              end
          end
      end
  end.

(** The end of a subscription: the reset of the session fields. *)
Definition reset_subscription (s : mcp_session_t) : M mcp_session_t :=
  (match sub_id_str s with None => ret tt | Some _ => xfree false end) ;;
  (match sub_resource_uris s with None => ret tt | Some uris => free_uris uris ;; xfree false end) ;;
  ret (Session (initialized s) (apps_host s) (granted s) (client_name s) (client_version s) (ids s)
         (client_meta s) false (sub_id_type s) None (sub_id_num s) false false false None).

(** The result object of the closure: [inl] on a failure whose clean-up has
    been done as the code does it. *)
Definition closure_result (s : mcp_session_t) : M (mcp_status_t + value) :=
  result <- builtin_new_object ;;
  meta <- builtin_new_object ;;
  rt <- string_new (cs "complete") ;;
  match result, meta, rt with
  | Some _, Some _, Some _ =>
      r <- object_set_take result (cs "resultType") rt ;;
      match r with
      | (MCP_OK, result) =>
          id <- sub_id_value s ;;
          match id with
          | None => builtin_destroy None ;; builtin_destroy meta ;; builtin_destroy result ;; ret (inl MCP_ERR_NOMEM)
          | Some _ =>
              r <- object_set_take meta subscription_key id ;;
              match r with
              | (MCP_OK, meta) =>
                  r <- object_set_take result (cs "_meta") meta ;;
                  match r with
                  | (MCP_OK, Some result) => ret (inr result)
                  | (_, result) =>
                      builtin_destroy id ;; builtin_destroy meta ;; builtin_destroy result ;; ret (inl MCP_ERR_NOMEM)
                  end
              | (_, meta) =>
                  builtin_destroy id ;; builtin_destroy meta ;; builtin_destroy result ;; ret (inl MCP_ERR_NOMEM)
              end
          end
      | (_, result) => builtin_destroy result ;; builtin_destroy meta ;; ret (inl MCP_ERR_NOMEM)
      end
  | _, _, _ =>
      builtin_destroy result ;; builtin_destroy meta ;; builtin_destroy rt ;; ret (inl MCP_ERR_NOMEM)
  end.

Definition mcp_session_build_subscription_closure (s : option mcp_session_t)
    : M (mcp_status_t * option mcp_message_t * option mcp_session_t) :=
  match s with
  | None => ret (MCP_ERR_NOT_FOUND, None, s)
  | Some ss =>
      if negb (subscription_active ss) then ret (MCP_ERR_NOT_FOUND, None, s) else
      r <- closure_result ss ;;
      match r with
      | inl st => ret (st, None, s)
      | inr result =>
          resp <- match sub_id_type ss with
                  | MCP_ID_STRING => mcp_response_ok_string_id_new (Some (default [] (sub_id_str ss))) (Some result)
                  | MCP_ID_NUMBER => mcp_response_ok_number_id_new (sub_id_num ss) (Some result)
                  | MCP_ID_NONE => mcp_response_ok_string_id_new (Some []) (Some result)
                  end ;;
          match resp with
          | None => builtin_destroy (Some result) ;; ret (MCP_ERR_NOMEM, None, s)
          | Some _ =>
              ss' <- reset_subscription ss ;;
              ret (MCP_OK, resp, Some ss')
          end
      end
  end.

(** ** Blocks of a session *)

Definition oblock {A} (p : option A) : Z := if IdSet.is_null p then 0 else 1.

Definition uris_blocks (l : list (option bytes)) : Z := foldr (fun u n => oblock u + n) 0 l.

Definition session_blocks (s : mcp_session_t) : Z :=
  1 + IdSet.set_blocks (ids s) + oblocks (client_meta s) + oblock (client_name s) + oblock (client_version s)
  + oblock (sub_id_str s) + match sub_resource_uris s with None => 0 | Some l => 1 + uris_blocks l end.

Lemma free_uris_hstep l h u h' : free_uris l h = (u, h') -> hstep h h' (- uris_blocks l).
Proof.
  revert h u h'. induction l as [|e l IH]; intros h u h' H; cbn [free_uris] in H; minv H; [simpl; hsolve|].
  apply IH in H. simpl. unfold oblock. destruct (IdSet.is_null e); hsolve.
Qed.

Lemma xfree_oblock {A} (p : option A) h u h' : xfree (IdSet.is_null p) h = (u, h') -> hstep h h' (- oblock p).
Proof. intros H. apply xfree_hstep in H. unfold oblock. by destruct (IdSet.is_null p). Qed.

Lemma session_free_hstep s h u h' : session_free (Some s) h = (u, h') -> hstep h h' (- session_blocks s).
Proof.
  cbn [session_free]. intros H.
  apply bind_inv in H as (? & h1 & E1 & H). apply IdSet.idset_destroy_hstep in E1.
  apply bind_inv in H as (? & h2 & E2 & H). apply builtin_destroy_hstep in E2.
  apply bind_inv in H as (? & h3 & E3 & H). apply xfree_oblock in E3.
  apply bind_inv in H as (? & h4 & E4 & H). apply xfree_oblock in E4.
  apply bind_inv in H as (? & h5 & E5 & H). apply xfree_oblock in E5.
  apply bind_inv in H as (? & h6 & E6 & H). apply xfree_hstep in H.
  assert (hstep h5 h6 (- match sub_resource_uris s with None => 0 | Some l => 1 + uris_blocks l end)) as E6'.
  { destruct (sub_resource_uris s) as [l|]; [|minv E6; hsolve].
    apply bind_inv in E6 as (? & h7 & E7 & E6). apply free_uris_hstep in E7. hsolve. }
  clear E6. unfold session_blocks. hsolve.
Qed.

Lemma session_new_spec h r h' :
  session_new h = (r, h') ->
  match r with
  | Some s => hstep h h' (session_blocks s) /\ IdSet.inv (ids s) /\ s = fresh_session (IdSet.Set_ [] 0)
  | None => hstep h h' 0 /\ ~ ample h
  end.
Proof.
  unfold session_new, IdSet.mcp_idset_create. intros H. apply bind_inv in H as (ok & h1 & E1 & H). pose proof E1 as E1'.
  destruct ok; cbn [negb] in H.
  2: { minv H. split; [hsolve|]. intros A. by apply (xmalloc_ample_inv _ _ _ A) in E1'. }
  apply bind_inv in H as (i & h2 & E2 & H). apply bind_inv in E2 as (ok & h3 & E2 & E3). pose proof E2 as E2'. minv E3.
  destruct ok.
  - minv H. split; [unfold session_blocks, IdSet.set_blocks; simpl; hsolve|]. split; [|done].
    split; simpl; [constructor|constructor|lia].
  - minv H. split; [hsolve|]. intros A. apply (ample_hstep _ _ _ (xmalloc_hstep _ _ _ E1')) in A.
    by apply (xmalloc_ample_inv _ _ _ A) in E2'.
Qed.

(** ** The session list *)

Lemma find_addr_spec addr l :
  match find_addr addr l with Some i => l !! i = Some addr | None => addr ∉ l end.
Proof.
  induction l as [|a l IH]; [simpl; apply not_elem_of_nil|]. cbn [find_addr].
  destruct (Nat.eqb_spec a addr) as [->|Hne]; [done|]. destruct (find_addr addr l); simpl; [done|].
  apply not_elem_of_cons. auto.
Qed.

Lemma detach_spec addr l :
  match detach addr l with Some rest => Permutation l (addr :: rest) | None => addr ∉ l end.
Proof.
  unfold detach. pose proof (find_addr_spec addr l) as Hf. destruct (find_addr addr l) as [i|]; [|done].
  cbv zeta. pose proof (lookup_lt_Some _ _ _ Hf) as Hi. destruct l as [|x l0 _] using rev_ind; [simpl in Hi; lia|].
  rewrite length_app in *. cbn [length] in *. replace (length l0 + 1 - 1)%nat with (length l0) by lia.
  rewrite lookup_app_r by lia. rewrite Nat.sub_diag. cbn [lookup list_lookup].
  destruct (decide (i < length l0)%nat) as [Hlt|Hge].
  - rewrite insert_app_l by done. rewrite take_app_le by (rewrite length_insert; lia).
    rewrite take_ge by (rewrite length_insert; lia). rewrite lookup_app_l in Hf by done.
    rewrite <- (take_drop_middle l0 i addr Hf) at 1. rewrite insert_take_drop by done.
    rewrite <- app_assoc. cbn [app]. rewrite <- Permutation_middle. apply perm_skip.
    apply Permutation_app_head. apply (Permutation_app_comm _ [x]).
  - assert (i = length l0) as -> by lia. rewrite lookup_app_r in Hf by lia. rewrite Nat.sub_diag in Hf. simplify_eq/=.
    rewrite insert_app_r_alt by lia. rewrite Nat.sub_diag. simpl. rewrite take_app_length. by rewrite Permutation_app_comm.
Qed.

(** ** Notifications that were built *)

Lemma take_ok_set o key val h r h' :
  object_set_take o key val h = ((MCP_OK, r), h') -> builtin_object_set o (Some key) val h = ((MCP_OK, r), h').
Proof.
  unfold object_set_take, mcp_json_object_set_take. intros H. apply bind_inv in H as ([st r1] & h1 & E & H).
  cbn [fst] in H. destruct st; minv H; simplify_eq. exact E.
Qed.

(** A successful store into some value: it is an object. *)
Lemma take_ok o key val h r h' :
  object_set_take (Some o) key (Some val) h = ((MCP_OK, r), h') -> wf o -> wf val -> good_string key ->
  exists c l c' l', o = VObject c l /\ r = Some (VObject c' l') /\ wf (VObject c' l') /\
  hstep h h' (blocks (VObject c' l') - blocks o - blocks val) /\
  map emember l' = jinsert key (erase val) (map emember l).
Proof.
  intros H Hw Hv [Hn Hu]. apply take_ok_set in H. destruct o as [| | | | |c l]; try (by minv H).
  eapply object_set_spec in H as (c' & l' & -> & Hw' & Hs & Hm & _); [|done..].
  rewrite (cstr_no_nul key Hn) in Hm. simpl in Hm. by exists c, l, c', l'.
Qed.

Definition sub_id_json (s : mcp_session_t) : json :=
  match sub_id_type s with
  | MCP_ID_STRING => JString (cstr (default [] (sub_id_str s)))
  | MCP_ID_NUMBER => JNumber (sub_id_num s)
  | MCP_ID_NONE => JNull
  end.

Lemma sub_id_value_spec s h r h' :
  sub_id_value s h = (r, h') -> valid_double (sub_id_num s) = true ->
  hstep h h' (oblocks r) /\ from_option (fun v => wf v /\ erase v = sub_id_json s) True r.
Proof.
  unfold sub_id_value, sub_id_json. intros H Hv. destruct (sub_id_type s).
  - apply (new_attempt VNull True) in H as [Hs Hr]; [|done..]. split; [done|]. by destruct r.
  - apply string_new_attempt in H as [Hs Hr]. split; [done|]. by destruct r.
  - apply number_attempt in H as [Hs Hr]; [|done]. split; [done|]. by destruct r.
Qed.

(** The parameters carry the id of the subscription in their "_meta". *)
Definition carries (p : value) (id : json) : Prop :=
  exists pl ml, erase p = JObject pl /\ jlookup (cs "_meta") pl = Some (JObject ml) /\
  jlookup subscription_key ml = Some id.

Lemma subscription_key_good : good_string subscription_key.
Proof. by split. Qed.

(** The second half: storing the id behind the "_meta" pointer. *)
Lemma store_sub_id s c l meta h p' h' :
  (id <- sub_id_value s ;;
   match id with
   | None => builtin_destroy None ;; builtin_destroy (Some (VObject c l)) ;; ret (inl MCP_ERR_NOMEM)
   | Some _ =>
       r <- object_set_take (Some meta) subscription_key id ;;
       match r with
       | (MCP_OK, Some meta) =>
           ret (match put_child (Some (VObject c l)) (cs "_meta") meta with
                | Some params => inr params
                | None => inl MCP_ERR_NOMEM
                end)
       | (_, Some meta) =>
           builtin_destroy id ;;
           builtin_destroy (put_child (Some (VObject c l)) (cs "_meta") meta) ;; ret (inl MCP_ERR_NOMEM)
       | (_, None) => builtin_destroy id ;; builtin_destroy (Some (VObject c l)) ;; ret (inl MCP_ERR_NOMEM)
       end
   end) h = (inr p', h') ->
  wf (VObject c l) -> points (VObject c l) (cs "_meta") meta -> valid_double (sub_id_num s) = true ->
  wf p' /\ hstep h h' (blocks p' - blocks (VObject c l)) /\ carries p' (sub_id_json s).
Proof.
  intros H Hw Hpt Hv. apply bind_inv in H as (id & h1 & E1 & H). apply sub_id_value_spec in E1 as [Hs1 Hid]; [|done].
  destruct id as [id|]; [|by minv H]. destruct Hid as [Hwi Hei].
  destruct (points_meaning c l (cs "_meta") meta Hw ltac:(by split) Hpt) as [Hwm Hlm].
  apply bind_inv in H as ([st o] & h2 & E2 & H). destruct (decide (st = MCP_OK)) as [->|Hne].
  2: { exfalso. destruct o; (destruct st; [done|by minv H..]). }
  eapply take_ok in E2 as (cm & lm & cm' & lm' & -> & -> & Hwm' & Hs2 & Hm'); [|done|done|apply subscription_key_good].
  destruct (put_child_spec c l (cs "_meta") (VObject cm lm) (VObject cm' lm')) as (l' & Hput & Hw' & Hb & Hl');
    [done|by split|done|done|]. rewrite Hput in H. minv H. simplify_eq.
  split; [done|]. split; [rewrite Hb; simpl in Hs1; hsolve|].
  exists (map emember l'), (map emember lm'). split; [by rewrite erase_object|]. rewrite Hl', Hm', erase_object, Hm'.
  rewrite !jlookup_jinsert, !bool_decide_true by done. by rewrite Hei.
Qed.

Lemma add_subscription_id_spec s p h p' h' :
  add_subscription_id s p h = (inr p', h') -> wf p -> valid_double (sub_id_num s) = true ->
  wf p' /\ hstep h h' (blocks p' - blocks p) /\ carries p' (sub_id_json s).
Proof.
  intros H Hw Hv. unfold add_subscription_id in H. apply bind_inv in H as (m & h1 & E & H).
  destruct m as [st|[meta q]]; [by minv H|].
  assert (exists c l, q = VObject c l /\ wf q /\ points q (cs "_meta") meta /\ hstep h h1 (blocks q - blocks p))
    as (c & l & -> & Hwq & Hpt & Hs).
  { destruct (builtin_object_get (Some p) (Some (cs "_meta"))) as [meta0|] eqn:Eg.
    - minv E. simplify_eq. destruct p as [| | | | |c l]; try done. exists c, l.
      split; [done|]. split; [done|]. split; [by apply get_points; [|split|]|]. hsolve.
    - apply bind_inv in E as (mv & h2 & E2 & E). apply (object_attempt True) in E2 as [Hs2 Hm].
      destruct mv as [mv|]; [|by minv E]. destruct Hm as [Hwm _].
      apply bind_inv in E as ([st o] & h3 & E3 & E). destruct (decide (st = MCP_OK)) as [->|Hne].
      2: { exfalso. destruct o; (destruct st; [done|by minv E..]). }
      pose proof (take_ok_set _ _ _ _ _ _ E3) as E3'.
      eapply take_ok in E3 as (c0 & l0 & c1 & l1 & -> & -> & Hw1 & Hs3 & _); [|done|done|by split].
      minv E. simplify_eq. exists c1, l1. split; [done|]. split; [done|].
      split; [apply (object_set_points _ _ _ _ _ _ _ _ E3' Hw); [by split|exact Eg]|]. simpl in Hs2. hsolve. }
  eapply store_sub_id in H as (Hw' & Hs' & Hc); [|done..]. split; [done|]. split; [hsolve|done].
Qed.

(** ** Claims *)

(** The permission mask is a set of bits: [mcp_session_grants] tests
    inclusion, a grant adds exactly the bits of the mask and a revocation
    removes exactly them. *)
Theorem permission_bits s mask mask' :
  0 <= granted s < 2 ^ 32 -> 0 <= mask < 2 ^ 32 -> 0 <= mask' < 2 ^ 32 ->
  (mcp_session_grants (Some s) mask = true <->
     forall i, Z.testbit mask i = true -> Z.testbit (granted s) i = true) /\
  (exists g, mcp_session_grant true (Some s) mask = (MCP_OK, Some g) /\ 0 <= granted g < 2 ^ 32 /\
     forall i, Z.testbit (granted g) i = Z.testbit (granted s) i || Z.testbit mask i) /\
  (exists r, mcp_session_revoke true (Some s) mask' = (MCP_OK, Some r) /\ 0 <= granted r < 2 ^ 32 /\
     forall i, Z.testbit (granted r) i = Z.testbit (granted s) i && negb (Z.testbit mask' i)).
Proof.
  intros Hg Hm Hm'.
  assert (forall x, 0 <= x < 2 ^ 32 -> forall i, 32 <= i -> Z.testbit x i = false) as Hhi.
  { intros x Hx i Hi. rewrite <- (Z.mod_small x (2 ^ 32)) by done. by rewrite Z.mod_pow2_bits_high by lia. }
  assert (forall x, 0 <= x -> (forall i, 32 <= i -> Z.testbit x i = false) -> 0 <= x < 2 ^ 32) as Hlo.
  { intros x Hx Hb. split; [done|]. destruct (decide (x = 0)) as [->|]; [done|].
    apply Z.log2_lt_pow2; [lia|]. apply Z.nle_gt. intros Hle. pose proof (Hb _ Hle) as H.
    rewrite Z.bit_log2 in H by lia. done. }
  split_and!.
  - unfold mcp_session_grants. rewrite Z.eqb_eq. split.
    + intros H i Hi. rewrite <- H, Z.land_spec in Hi. by apply andb_true_iff in Hi as [? _].
    + intros H. apply Z.bits_inj'. intros i Hi. rewrite Z.land_spec. specialize (H i).
      destruct (Z.testbit mask i); [by rewrite H|by rewrite andb_false_r].
  - eexists. split; [done|]. simpl. split; [|intros i; apply Z.lor_spec].
    apply Hlo; [apply Z.lor_nonneg; lia|]. intros i Hi. by rewrite Z.lor_spec, !Hhi.
  - eexists. split; [done|]. simpl. split.
    + apply Hlo; [apply Z.land_nonneg; lia|]. intros i Hi. by rewrite Z.land_spec, (Hhi (granted s)).
    + intros i. unfold not32. rewrite Z.land_spec, Z.lxor_spec.
      destruct (decide (0 <= i)) as [Hi|Hi]; [|by rewrite !Z.testbit_neg_r by lia].
      destruct (decide (i < 32)) as [Hlt|Hge].
      * change 0xFFFFFFFF with (Z.ones 32). rewrite Z.ones_spec_low by lia. by rewrite xorb_true_r.
      * by rewrite (Hhi (granted s)) by lia.
Qed.

(** A session gives back what it took: creating one either fails with
    nothing left allocated or returns a session, uninitialised and with
    every permission, and freeing a session frees exactly its blocks. *)
Theorem session_lifecycle h r h' :
  session_new h = (r, h') ->
  match r with
  | Some s => hstep h h' (session_blocks s) /\ initialized s = false /\ IdSet.contents (ids s) = [] /\
      (forall h1 u h2, session_free (Some s) h1 = (u, h2) -> hstep h1 h2 (- session_blocks s))
  | None => hstep h h' 0 /\ ~ ample h
  end.
Proof.
  intros H. apply session_new_spec in H. destruct r as [s|]; [|done]. destruct H as (Hs & _ & ->).
  split; [done|]. split; [done|]. split; [done|]. intros. by eapply session_free_hstep.
Qed.

Lemma destroy_session_blocks l addr s h l' h' :
  mcp_server_destroy_session l addr s h = (l', h') -> addr ∈ sessions l ->
  cap_sessions l' = cap_sessions l /\ hstep h h' (- session_blocks s).
Proof.
  unfold mcp_server_destroy_session. intros H Hin. pose proof (detach_spec addr (sessions l)) as Hd.
  destruct (detach addr (sessions l)) as [rest|]; [|done].
  apply bind_inv in H as (u & h1 & E & H). apply session_free_hstep in E. minv H. split; [done|hsolve].
Qed.

(** [mcp_server_destroy_session] detaches exactly the given session: the
    list keeps every other session once, and a session that is not in the
    list leaves it (and the session) alone. *)
Theorem destroy_session_detaches l addr s h l' h' :
  mcp_server_destroy_session l addr s h = (l', h') ->
  (Permutation (sessions l) (addr :: sessions l') /\ hstep h h' (- session_blocks s)) \/
  (addr ∉ sessions l /\ l' = l /\ h' = h).
Proof.
  unfold mcp_server_destroy_session. intros H. pose proof (detach_spec addr (sessions l)) as Hd.
  destruct (detach addr (sessions l)) as [rest|]; [left|right].
  - apply bind_inv in H as (u & h1 & E & H). apply session_free_hstep in E. minv H. simpl. split; [done|hsolve].
  - by minv H.
Qed.

(** A notification built for a session with an active subscription that
    wants it carries the id of the subscription in the "_meta" of its
    parameters, and owns the parameters it was given. *)
Theorem notification_carries_id s method params h msg h' :
  subscription_active s = true -> valid_double (sub_id_num s) = true -> owf params ->
  mcp_session_build_notification (Some s) (Some method) params h = (Some (MCP_OK, Some msg), h') ->
  hstep h h' (msg_blocks msg - oblocks params) /\ wf_msg msg /\
  mcp_message_method (Some msg) = Some (cstr method) /\
  exists p, mcp_message_params (Some msg) = Some p /\ carries p (sub_id_json s).
Proof.
  intros Hact Hv Hp H. unfold mcp_session_build_notification in H. cbv zeta in H. rewrite Hact in H. cbn [negb] in H.
  destruct (mcp_session_is_subscribed_to_notification _ _ _) as [[]|]; [|by minv H..].
  apply bind_inv in H as (p & h1 & E1 & H).
  assert (hstep h h1 (oblocks p - oblocks params) /\ owf p) as [Hs1 Hwp].
  { destruct params as [p0|]; [minv E1; split; [hsolve|done]|].
    apply (object_attempt True) in E1 as [Hs Hr]. split; [simpl; by rewrite Z.sub_0_r|]. destruct p; [by destruct Hr|done]. }
  destruct p as [p|]; [|by minv H]. apply bind_inv in H as (r & h2 & E2 & H).
  destruct r as [st|p']; [by minv H|].
  apply add_subscription_id_spec in E2 as (Hw' & Hs2 & Hc); [|done..].
  apply bind_inv in H as (m & h3 & E3 & H). destruct m as [m|]; [|by minv H].
  assert (m = msg /\ h3 = h') as [-> ->] by (by minv H; simplify_eq).
  apply (notification_builds method (Some p') Hw') in E3 as (Hs3 & Hwm & Hem).
  split; [simpl in *; hsolve|]. split; [split; [done|by eexists]|].
  rewrite (method_meaning msg _ Hwm Hem). cbn [jset]. jlook. split; [done|].
  assert (erase <$> mcp_message_params (Some msg) = Some (erase p')) as He.
  { unfold mcp_message_params. rewrite (get_key_meaning msg _ _ Hwm Hem) by (by split). cbn [jset]. by jlook. }
  destruct (mcp_message_params (Some msg)) as [q|]; [|done]. injection He as He. exists q. split; [done|].
  unfold carries in *. by rewrite He.
Qed.

(** The double free of [mcp_session_build_notification]: when storing
    "_meta" fails, [mcp_json_object_set_take] has already destroyed the new
    object and the error path destroys it again, so one block more is freed
    than was taken. *)
Theorem notification_double_free :
  exists s h r h', subscription_active s = true /\
    mcp_session_build_notification (Some s) (Some (cs "notifications/message")) None h = (Some r, h') /\
    r = (MCP_ERR_NOMEM, None) /\ corrupt h' = false /\ live h' = live h - 1.
Proof.
  exists (set_subscription_active true (fresh_session (IdSet.Set_ [] 0))), (Heap (fun k => Nat.eqb k 2) 0 7 false).
  eexists _, _. split; [done|]. split; [vm_compute; reflexivity|]. done.
Qed.

(** The same fault in [mcp_session_build_subscription_closure]. *)
Theorem closure_double_free :
  exists s h r h', subscription_active s = true /\
    mcp_session_build_subscription_closure (Some s) h = (r, h') /\
    r.1 = (MCP_ERR_NOMEM, None) /\ corrupt h' = false /\ live h' < live h.
Proof.
  exists (set_subscription_active true (fresh_session (IdSet.Set_ [] 0))), (Heap (fun k => Nat.eqb k 8) 0 20 false).
  eexists _, _. split; [done|]. split; [vm_compute; reflexivity|]. done.
Qed.

Definition sample_session : mcp_session_t :=
  Session true false 5 None None (IdSet.Set_ [] 0) None true MCP_ID_STRING (Some (cs "s1")) (DZero false)
    true false false None.

Lemma permission_bits_witness :
  (mcp_session_grants (Some sample_session) 4 = true <->
     forall i, Z.testbit 4 i = true -> Z.testbit 5 i = true) /\
  (exists g, mcp_session_grant true (Some sample_session) 4 = (MCP_OK, Some g) /\ 0 <= granted g < 2 ^ 32 /\
     forall i, Z.testbit (granted g) i = Z.testbit 5 i || Z.testbit 4 i) /\
  (exists r, mcp_session_revoke true (Some sample_session) 1 = (MCP_OK, Some r) /\ 0 <= granted r < 2 ^ 32 /\
     forall i, Z.testbit (granted r) i = Z.testbit 5 i && negb (Z.testbit 1 i)).
Proof. apply (permission_bits sample_session 4 1); simpl; lia. Defined.

Lemma session_lifecycle_witness :
  exists r h', session_new fresh_heap = (r, h') /\
  match r with
  | Some s => hstep fresh_heap h' (session_blocks s) /\ initialized s = false /\ IdSet.contents (ids s) = [] /\
      (forall h1 u h2, session_free (Some s) h1 = (u, h2) -> hstep h1 h2 (- session_blocks s))
  | None => hstep fresh_heap h' 0 /\ ~ ample fresh_heap
  end.
Proof.
  eexists _, _. split; [apply surjective_pairing|].
  apply (session_lifecycle fresh_heap). apply surjective_pairing.
Defined.

Lemma destroy_session_detaches_witness :
  exists l' h', mcp_server_destroy_session (Sessions [1; 2; 3]%nat 4) 1%nat sample_session (Heap (fun _ => false) 0 9 false) = (l', h') /\
  ((Permutation [1; 2; 3]%nat (1%nat :: sessions l') /\
     hstep (Heap (fun _ => false) 0 9 false) h' (- session_blocks sample_session)) \/
   (1%nat ∉ [1; 2; 3]%nat /\ l' = Sessions [1; 2; 3]%nat 4 /\ h' = Heap (fun _ => false) 0 9 false)).
Proof.
  eexists _, _. split; [vm_compute; reflexivity|].
  apply (destroy_session_detaches (Sessions [1; 2; 3]%nat 4) 1%nat sample_session). vm_compute. reflexivity.
Defined.

Lemma notification_carries_id_witness :
  exists msg h', mcp_session_build_notification (Some sample_session) (Some (cs "notifications/message")) None fresh_heap
    = (Some (MCP_OK, Some msg), h') /\
  hstep fresh_heap h' (msg_blocks msg - 0) /\ wf_msg msg /\
  mcp_message_method (Some msg) = Some (cs "notifications/message") /\
  exists p, mcp_message_params (Some msg) = Some p /\ carries p (JString (cs "s1")).
Proof.
  eexists _, _. split; [vm_compute; reflexivity|].
  apply (notification_carries_id sample_session (cs "notifications/message") None fresh_heap);
    [reflexivity|reflexivity|exact I|vm_compute; reflexivity].
Defined.
