(* ===== verification/Dispatcher.v ===== *)
(** * The dispatcher (src/server/dispatcher.c, [mcp_server_process_one] of
    src/server/queue.c)

    The request pipeline of the server: validation, the log level of the
    request, the handshake gate, the duplicate-id check, routing, counters
    and tracing; notifications; and the single step that takes one message
    from the queue.

    The handlers behind [mcp_server_route_request] (src/server/routes.c) are
    seen through the interface [Router]: the function itself and what the
    dispatcher relies on ([RouterLaws]). *)
From stdpp Require Import gmap.
From S2P Require Import Prelude Heap Utf8 Double JsonValue JsonParse JsonSerialize JsonApi Schema Message Initialize Validate Queue Session.

Local Open Scope Z_scope.

(** ** Logging and tracing *)

Inductive mcp_log_level_t := MCP_LOG_DEBUG | MCP_LOG_INFO | MCP_LOG_WARN | MCP_LOG_ERROR.

#[export] Instance level_eq_dec : EqDecision mcp_log_level_t.
Proof. solve_decision. Defined.

Definition level_num (l : mcp_log_level_t) : Z :=
  match l with MCP_LOG_DEBUG => 0 | MCP_LOG_INFO => 1 | MCP_LOG_WARN => 2 | MCP_LOG_ERROR => 3 end.

(** What the tracer callback is told (the elapsed time apart). *)
Inductive trace_event := MCP_TRACE_BEGIN (method : bytes) | MCP_TRACE_END (method : bytes) (status : Z).

(** The part of [struct mcp_server] the dispatcher works on: the 64-bit
    counters, the log floor, whether a tracer is installed; what has been
    written to the log sink and told to the tracer; and the rest, which only
    the handlers use. *)
Record mcp_server_t (R : Type) := Server {
  c_requests_total : Z;
  c_requests_error : Z;
  c_notifications_total : Z;
  log_floor : mcp_log_level_t;
  tracer : bool;
  logs : list (mcp_log_level_t * bytes);
  traces : list trace_event;
  rest : R;
}.
Arguments Server {R}.
Arguments c_requests_total {R}.
Arguments c_requests_error {R}.
Arguments c_notifications_total {R}.
Arguments log_floor {R}.
Arguments tracer {R}.
Arguments logs {R}.
Arguments traces {R}.
Arguments rest {R}.

(** [atomic_fetch_add] on an [atomic_ullong]. *)
Definition inc64 (n : Z) : Z := (n + 1) mod 2 ^ 64.

Section server.
Context {R : Type}.

Definition add_total (s : mcp_server_t R) : mcp_server_t R :=
  Server (inc64 (c_requests_total s)) (c_requests_error s) (c_notifications_total s)
    (log_floor s) (tracer s) (logs s) (traces s) (rest s).

Definition add_error (s : mcp_server_t R) : mcp_server_t R :=
  Server (c_requests_total s) (inc64 (c_requests_error s)) (c_notifications_total s)
    (log_floor s) (tracer s) (logs s) (traces s) (rest s).

Definition add_notification (s : mcp_server_t R) : mcp_server_t R :=
  Server (c_requests_total s) (c_requests_error s) (inc64 (c_notifications_total s))
    (log_floor s) (tracer s) (logs s) (traces s) (rest s).

Definition set_floor (l : mcp_log_level_t) (s : mcp_server_t R) : mcp_server_t R :=
  Server (c_requests_total s) (c_requests_error s) (c_notifications_total s)
    l (tracer s) (logs s) (traces s) (rest s).

Definition emit (level : mcp_log_level_t) (text : bytes) (s : mcp_server_t R) : mcp_server_t R :=
  Server (c_requests_total s) (c_requests_error s) (c_notifications_total s)
    (log_floor s) (tracer s) (logs s ++ [(level, text)]) (traces s) (rest s).

Definition trace (e : trace_event) (s : mcp_server_t R) : mcp_server_t R :=
  if tracer s then
    Server (c_requests_total s) (c_requests_error s) (c_notifications_total s)
      (log_floor s) (tracer s) (logs s) (traces s ++ [e]) (rest s)
  else s.

(** [mcp_logger_log]: [logger] is the minimum level of the logger of the
    context, [None] when there is none. *)
Definition mcp_logger_log (logger : option mcp_log_level_t) (level : mcp_log_level_t) (message : bytes)
    (s : mcp_server_t R) : mcp_server_t R :=
  match logger with
  | None => s
  | Some min => if level_num level <? level_num min then s else emit level message s
  end.

(** [dlogf_srv]: [text] is the formatted message, of which the buffer holds
    255 bytes. *)
Definition dlogf_srv (logger : option mcp_log_level_t) (level : mcp_log_level_t) (text : bytes)
    (s : mcp_server_t R) : mcp_server_t R :=
  if level_num level <? level_num (log_floor s) then s
  else match logger with
       | None => s
       | Some _ => mcp_logger_log logger level (take 255 (cstr text)) s
       end.

Definition trace_begin (method : bytes) (s : mcp_server_t R) : mcp_server_t R :=
  trace (MCP_TRACE_BEGIN method) s.

Definition trace_end (method : bytes) (status : Z) (s : mcp_server_t R) : mcp_server_t R :=
  trace (MCP_TRACE_END method status) s.
End server.

(** ** The interface to the handlers

    [mcp_server_route_request] returns a response, or NULL, and may change
    the server and the session. *)
Class Router (R : Type) := {
  mcp_server_route_request :
    option mcp_log_level_t -> mcp_server_t R -> mcp_session_t -> mcp_message_t -> bytes ->
    M (option mcp_message_t * mcp_server_t R * mcp_session_t);
  (** The blocks owned by the rest of the server. *)
  rest_blocks : R -> Z;
  (** What the handlers need of it. *)
  rest_inv : R -> Prop;
}.

(** "subscriptions/listen" is answered by a notification whose parameters
    carry the id of the request. *)
Definition acknowledges (req resp : mcp_message_t) : Prop :=
  mcp_message_method (Some req) = Some (cs "subscriptions/listen") /\
  mcp_message_kind (Some resp) = MCP_MSG_NOTIFICATION /\
  mcp_message_method (Some resp) = Some (cs "notifications/subscriptions/acknowledged") /\
  exists p, mcp_message_params (Some resp) = Some p /\ carries p (reply_id (Some req)).

(** A well-formed response to [req], or the acknowledgement of a
    subscription, whose error code, if it has one, is an [int]. *)
Definition answers (req resp : mcp_message_t) : Prop :=
  wf_msg resp /\ mcp_message_error_code (Some resp) <> Some None /\
  ((mcp_message_kind (Some resp) = MCP_MSG_RESPONSE /\ reply_id (Some resp) = reply_id (Some req)) \/
   acknowledges req resp).

Class RouterLaws (R : Type) `{Router R} := {
  (** A response answers the request; the dispatcher's own state is left
      alone: counters, tracer, the handshake flag and the seen ids. *)
  route_answers logger srv s req method h r srv' s' h' :
    wf_msg req -> mcp_message_method (Some req) = Some method -> rest_inv (rest srv) ->
    mcp_server_route_request logger srv s req method h = ((r, srv', s'), h') ->
    from_option (answers req) True r /\ rest_inv (rest srv') /\
    c_requests_total srv' = c_requests_total srv /\
    c_requests_error srv' = c_requests_error srv /\
    c_notifications_total srv' = c_notifications_total srv /\
    tracer srv' = tracer srv /\ traces srv' = traces srv /\
    initialized s' = initialized s /\ ids s' = ids s;
  (** With memory every block is accounted for. *)
  route_ample logger srv s req method h r srv' s' h' :
    wf_msg req -> mcp_message_method (Some req) = Some method -> rest_inv (rest srv) -> ample h ->
    mcp_server_route_request logger srv s req method h = ((r, srv', s'), h') ->
    hstep h h' (omsg_blocks r + (rest_blocks (rest srv') - rest_blocks (rest srv))
                + (session_blocks s' - session_blocks s));
}.

(** ** Dispatch *)

Section dispatch.
Context {R : Type} `{Router R} (logger : option mcp_log_level_t).

(** What [mcp_server_dispatch] returns and leaves: the status, [*resp_out],
    the server and the session. *)
Record outcome := Outcome {
  o_status : mcp_status_t;
  o_resp : option mcp_message_t;
  o_srv : mcp_server_t R;
  o_session : mcp_session_t;
}.

Definition err_resp (req : mcp_message_t) (code : Z) (text : bytes) : M (option mcp_message_t) :=
  mcp_response_err_new (Some req) code (Some text) None.

(** [*resp_out = err_resp(...); return *resp_out == NULL ? MCP_ERR_NOMEM :
    MCP_OK;] *)
Definition respond_err (srv : mcp_server_t R) (s : mcp_session_t) (req : mcp_message_t) (code : Z) (text : bytes)
    : M outcome :=
  resp <- err_resp req code text ;;
  ret (Outcome (match resp with None => MCP_ERR_NOMEM | Some _ => MCP_OK end) resp srv s).

(** The log level asked for in "_meta". *)
Definition level_of_name (lvl : bytes) : option mcp_log_level_t :=
  if streq lvl (cs "debug") then Some MCP_LOG_DEBUG
  else if streq lvl (cs "info") || streq lvl (cs "notice") then Some MCP_LOG_INFO
  else if streq lvl (cs "warning") || streq lvl (cs "warn") then Some MCP_LOG_WARN
  else if streq lvl (cs "error") then Some MCP_LOG_ERROR
  else None.

Definition apply_log_level (req_meta : option value) (srv : mcp_server_t R) : mcp_server_t R :=
  match req_meta with
  | None => srv
  | Some _ =>
      let lv := match builtin_object_get req_meta (Some (cs "io.modelcontextprotocol/logLevel")) with
                | None => builtin_object_get req_meta (Some (cs "logLevel"))
                | lv => lv
                end in
      match builtin_get_string lv with
      | Some lvl => match level_of_name lvl with Some l => set_floor l srv | None => srv end
      | None => srv
      end
  end.

(** The checks before routing: a refused request, or the method with the
    server and the session as the handlers get them. *)
Definition dispatch_checks (srv : mcp_server_t R) (s : mcp_session_t) (req : mcp_message_t)
    : M (outcome + mcp_server_t R * mcp_session_t * bytes) :=
  let refuse srv level text code msg :=
    o <- respond_err (add_error (dlogf_srv logger level text srv)) s req code msg ;; ret (inl o) in
  let srv := add_total srv in
  match mcp_message_validate (Some req) with
  | (MCP_OK, _) =>
      match mcp_message_method (Some req) with
      | None => refuse srv MCP_LOG_WARN (cs "event=missing_method") MCP_RPC_INVALID_REQUEST (cs "missing method")
      | Some method =>
          let req_meta := mcp_message_meta (Some req) in
          let srv := apply_log_level req_meta srv in
          let is_stateless := negb (IdSet.is_null req_meta) in
          let is_discover := streq method (cs "server/discover") in
          if negb (initialized s) && negb (streq method (cs "initialize")) && negb is_discover
             && negb is_stateless
          then refuse srv MCP_LOG_WARN (cs "event=uninitialized method=" ++ method)
                 MCP_RPC_INVALID_REQUEST (cs "session not initialized")
          else
          let id_type := mcp_message_id_type (Some req) in
          if bool_decide (id_type = MCP_ID_NONE) then ret (inr (srv, s, method)) else
          let id_str := mcp_message_id_string (Some req) in
          let id_num := default (DZero false) (mcp_message_id_number (Some req)) in
          if IdSet.mcp_idset_contains (Some (ids s)) id_type id_str id_num
          then refuse srv MCP_LOG_WARN (cs "event=duplicate_id method=" ++ method)
                 MCP_RPC_INVALID_REQUEST (cs "duplicate request id")
          else
            r <- IdSet.mcp_idset_add (Some (ids s)) id_type id_str id_num ;;
            match r with
            | (MCP_OK, Some ids') => ret (inr (srv, set_ids ids' s, method))
            | (_, ids') =>
                o <- respond_err (add_error (dlogf_srv logger MCP_LOG_ERROR
                                               (cs "event=id_tracking_failed method=" ++ method) srv))
                       (set_ids (default (ids s) ids') s) req MCP_RPC_INTERNAL_ERROR (cs "id tracking failed") ;;
                ret (inl o)
            end
      end
  | (_, code) =>
      refuse srv MCP_LOG_WARN (cs "event=invalid_request code=" ++ fmt_int code) code (cs "invalid request")
  end.

(** Routing: [None] where reading the error code of the response is
    undefined (see [cast_int]). *)
Definition dispatch_route (srv : mcp_server_t R) (s : mcp_session_t) (req : mcp_message_t) (method : bytes)
    : M (option outcome) :=
  r <- mcp_server_route_request logger (trace_begin method srv) s req method ;;
  let '(resp, srv, s) := r in
  match resp with
  | None =>
      let srv := add_error (dlogf_srv logger MCP_LOG_ERROR (cs "event=route_failed method=" ++ method) srv) in
      o <- respond_err (trace_end method MCP_RPC_INTERNAL_ERROR srv) s req MCP_RPC_INTERNAL_ERROR (cs "internal error") ;;
      ret (Some o)
  | Some _ =>
      match mcp_message_error_code resp with
      | Some None => ret None
      | Some (Some ecode) =>
          let srv := if ecode =? 0 then srv else add_error srv in
          ret (Some (Outcome MCP_OK resp (trace_end method ecode srv) s))
      | None => ret (Some (Outcome MCP_OK resp (trace_end method 0 srv) s))
      end
  end.

(** [out] is [resp_out != NULL].  [inl] is a call refused for its
    arguments, which leaves server and session alone (and, past the NULL
    checks, [*resp_out] NULL). *)
Definition mcp_server_dispatch (srv : option (mcp_server_t R)) (session : option mcp_session_t)
    (req : option mcp_message_t) (out : bool) : M (option (mcp_status_t + outcome)) :=
  match srv, session, req, out with
  | Some srv, Some session, Some msg, true =>
      if negb (bool_decide (mcp_message_kind req = MCP_MSG_REQUEST))
      then ret (Some (inl MCP_ERR_INVALID_ARGUMENT)) else
      c <- dispatch_checks srv session msg ;;
      match c with
      | inl o => ret (Some (inr o))
      | inr (srv, session, method) =>
          o <- dispatch_route srv session msg method ;; ret (inr <$> o)
      end
  | _, _, _, _ => ret (Some (inl MCP_ERR_INVALID_ARGUMENT))
  end.

(** ** Notifications *)

Definition notify_session (method : bytes) (s : mcp_session_t) : mcp_session_t :=
  if streq method (cs "notifications/initialized") then set_initialized true s
  else if streq method (cs "notifications/cancelled") then set_subscription_active false s
  else s.

(** The status, the server and the session. *)
Definition notify_checked (srv : mcp_server_t R) (session : mcp_session_t) (notif : mcp_message_t)
    : mcp_status_t * mcp_server_t R * mcp_session_t :=
  if negb (bool_decide (mcp_message_kind (Some notif) = MCP_MSG_NOTIFICATION))
  then (MCP_ERR_INVALID_ARGUMENT, srv, session) else
  match mcp_message_method (Some notif) with
  | None => (MCP_OK, srv, session)
  | Some method =>
      let session := notify_session method session in
      let advanced := existsb (streq method) k_mcp_server_notifications in
      let srv := if advanced
                 then dlogf_srv logger MCP_LOG_DEBUG (cs "event=notification method=" ++ method) srv
                 else srv in
      (MCP_OK, add_notification srv, session)
  end.

(** With the NULL checks: the session and server only change when all are
    given. *)
Definition mcp_server_notify (srv : option (mcp_server_t R)) (session : option mcp_session_t)
    (notif : option mcp_message_t) : mcp_status_t * option (mcp_server_t R) * option mcp_session_t :=
  match srv, session, notif with
  | Some srv, Some session, Some notif =>
      let '(st, srv, session) := notify_checked srv session notif in (st, Some srv, Some session)
  | _, _, _ => (MCP_ERR_INVALID_ARGUMENT, srv, session)
  end.
End dispatch.

(** ** One step of the queue

    The queue holds addresses of sessions; [store] is the memory they point
    to.  [None]: the session of the message was freed while its message was
    waiting, or the error code of the response is out of range. *)
Section process.
Context {R : Type} `{Router R} (logger : option mcp_log_level_t).

Definition mcp_server_process_one (srv : mcp_server_t R) (store : gmap nat mcp_session_t)
    (q : mcp_queue_t nat mcp_message_t)
    : M (option (mcp_status_t * option mcp_message_t * mcp_server_t R * gmap nat mcp_session_t
                 * mcp_queue_t nat mcp_message_t)) :=
  match mcp_queue_pop q with
  | (MCP_OK, Some (Some addr, Some msg), q) =>
      match store !! addr with
      | None => ret None
      | Some session =>
          if bool_decide (mcp_message_kind (Some msg) = MCP_MSG_NOTIFICATION) then
            let '(st, srv, session) := notify_checked logger srv session msg in
            mcp_message_destroy (Some msg) ;;
            ret (Some (st, None, srv, <[addr := session]> store, q))
          else
            r <- mcp_server_dispatch logger (Some srv) (Some session) (Some msg) true ;;
            match r with
            | None => ret None
            | Some (inl st) => mcp_message_destroy (Some msg) ;; ret (Some (st, None, srv, store, q))
            | Some (inr o) =>
                mcp_message_destroy (Some msg) ;;
                ret (Some (o_status o, o_resp o, o_srv o, <[addr := o_session o]> store, q))
            end
      end
  | (_, _, q) => ret (Some (MCP_ERR_NOT_FOUND, None, srv, store, q))
  end.
End process.

(** ** Requests and their ids *)

Definition request_id (req : mcp_message_t) : option IdSet.id :=
  IdSet.id_of (mcp_message_id_type (Some req)) (mcp_message_id_string (Some req))
    (default (DZero false) (mcp_message_id_number (Some req))).

Lemma request_id_some req :
  wf_msg req -> mcp_message_id_type (Some req) <> MCP_ID_NONE -> is_Some (request_id req).
Proof.
  intros Hw Ht. unfold request_id, mcp_message_id_type, mcp_message_id_string, mcp_message_id_number in *.
  pose proof (get_key_wf req (cs "id")) as Hid. destruct (get_key (Some req) (cs "id")) as [v|]; [|done].
  specialize (Hid v Hw ltac:(by split) eq_refl). destruct v; try done; simpl in *.
  destruct Hid as [-> _]. eauto.
Qed.

(** A level answers MCP_OK with code 0, or one of the three codes. *)
Definition level_codes (r : mcp_status_t * Z) : Prop :=
  r = (MCP_OK, 0) \/ (r.1 <> MCP_OK /\ r.2 ∈ [-32600; -32601; -32602]).

Lemma envelope_codes m : level_codes (mcp_validate_envelope (Some m)).
Proof.
  unfold mcp_validate_envelope, level_codes. cbv zeta.
  destruct (mcp_message_jsonrpc (Some m)); [|set_solver]. case_match; [set_solver|].
  destruct (mcp_message_kind (Some m)); [set_solver| | |].
  - destruct (mcp_message_id_type (Some m)), (mcp_message_method (Some m)); set_solver.
  - destruct (mcp_message_method (Some m)); set_solver.
  - case_match; set_solver.
Qed.

Lemma method_codes m : level_codes (mcp_validate_method (Some m)).
Proof.
  unfold mcp_validate_method, level_codes. cbv zeta. case_match; [set_solver|].
  case_match; set_solver.
Qed.

Lemma params_codes m : level_codes (mcp_validate_params (Some m)).
Proof.
  unfold mcp_validate_params, level_codes. cbv zeta. case_match; [set_solver|].
  destruct (mcp_message_method (Some m)); [|set_solver]. destruct (mcp_message_params (Some m)).
  - case_match; [set_solver|]. case_match; set_solver.
  - case_match; [set_solver|]. case_match; set_solver.
Qed.

Lemma validate_codes m : level_codes (mcp_message_validate (Some m)).
Proof.
  unfold mcp_message_validate. pose proof (envelope_codes m) as He.
  destruct (mcp_validate_envelope _) as [[] c]; try exact He.
  pose proof (method_codes m) as Hm. destruct (mcp_validate_method _) as [[] c']; try exact Hm.
  apply params_codes.
Qed.

(** Validation of a request leaves no doubt about its id and method. *)
Lemma validated_id req :
  wf_msg req -> mcp_message_kind (Some req) = MCP_MSG_REQUEST -> mcp_message_validate (Some req) = (MCP_OK, 0) ->
  mcp_message_id_type (Some req) <> MCP_ID_NONE /\ is_Some (mcp_message_method (Some req)) /\ is_Some (request_id req).
Proof.
  intros [Hw [l Hl]] Hk Hv. destruct (validated_request_spec req l Hw Hl Hk Hv) as (_ & Hid & m & Hm & _).
  split; [done|]. split; [by rewrite Hm|]. apply request_id_some; [split; eauto|done].
Qed.

(** ** What the bookkeeping leaves alone *)

Section lemmas.
Context {R : Type} `{HR : Router R} (logger : option mcp_log_level_t).
Implicit Types srv : mcp_server_t R.

(** The same server up to its log and log floor. *)
Definition same_core srv srv' : Prop :=
  c_requests_total srv' = c_requests_total srv /\ c_requests_error srv' = c_requests_error srv /\
  c_notifications_total srv' = c_notifications_total srv /\ tracer srv' = tracer srv /\
  traces srv' = traces srv /\ rest srv' = rest srv.

Lemma dlogf_core level text srv : same_core srv (dlogf_srv logger level text srv).
Proof. unfold dlogf_srv, mcp_logger_log, same_core. by repeat case_match. Qed.

Lemma level_core meta srv : same_core srv (apply_log_level meta srv).
Proof. unfold apply_log_level, same_core. cbv zeta. by repeat case_match. Qed.

Lemma same_core_trans s1 s2 s3 : same_core s1 s2 -> same_core s2 s3 -> same_core s1 s3.
Proof. unfold same_core. intros (-> & -> & -> & -> & -> & ->). done. Qed.

Lemma trace_fields e srv :
  c_requests_total (trace e srv) = c_requests_total srv /\ c_requests_error (trace e srv) = c_requests_error srv /\
  c_notifications_total (trace e srv) = c_notifications_total srv /\ tracer (trace e srv) = tracer srv /\
  traces (trace e srv) = traces srv ++ (if tracer srv then [e] else []) /\ rest (trace e srv) = rest srv.
Proof. unfold trace. destruct (tracer srv) eqn:E; [done|by rewrite E, app_nil_r]. Qed.

(** *** Error responses *)

Definition refusal (req : mcp_message_t) (code : Z) (text : bytes) h h' (d : Z) (st : mcp_status_t)
    (resp : option mcp_message_t) : Prop :=
  hstep h h' (omsg_blocks resp + d) /\
  match resp with
  | Some m => st = MCP_OK /\ answers req m /\ mcp_message_error_code resp = Some (Some code) /\
      mcp_message_error_text resp = Some text
  | None => st = MCP_ERR_NOMEM /\ ~ ample h
  end.

Lemma respond_err_spec srv s req code text h o h' :
  respond_err srv s req code text h = (o, h') ->
  wf_msg req -> int_range code -> has_nul text = false -> utf8_valid text = true ->
  o_srv o = srv /\ o_session o = s /\ refusal req code text h h' 0 (o_status o) (o_resp o).
Proof.
  intros H Hw Hc Hn Hu. unfold respond_err, err_resp in H. apply bind_inv in H as (resp & h1 & E & H). minv H.
  split; [done|]. split; [done|]. cbn [o_status o_resp]. unfold refusal. destruct resp as [m|].
  - apply response_err_reads in E as (Hs & Hwm & Hk & Hid & He & Ht); [|done..].
    rewrite (cstr_no_nul text Hn) in Ht. split; [simpl; hsolve|]. split; [done|]. split; [|done].
    split; [done|]. split; [by rewrite He|]. by left.
  - apply response_err_builds in E as [Hs Hna]; [|done..]. rewrite (cstr_no_nul text Hn) in Hna.
    split; [destruct Hs; simpl in *; hsolve|]. split; [done|]. intros A. by apply Hna.
Qed.

Lemma refusal_after req code text h h1 h2 d st resp :
  hstep h h1 d -> refusal req code text h1 h2 0 st resp -> refusal req code text h h2 d st resp.
Proof.
  intros Hs [Hs' Hr]. split; [hsolve|]. destruct resp; [done|]. destruct Hr as [-> Hn]. split; [done|].
  intros A. apply Hn. by eapply ample_hstep.
Qed.

(** *** The checks *)

(** Requests served before the handshake: the handshake itself, discovery,
    and requests with a "_meta" object. *)
Definition exempt (req : mcp_message_t) : bool :=
  match mcp_message_method (Some req) with
  | Some m => streq m (cs "initialize") || streq m (cs "server/discover")
  | None => false
  end || negb (IdSet.is_null (mcp_message_meta (Some req))).

Definition gate (s : mcp_session_t) (req : mcp_message_t) : bool := initialized s || exempt req.

(** A request was counted, as an error or not; nothing else changed but
    the log. *)
Definition counted (err : bool) srv srv' : Prop :=
  c_requests_total srv' = inc64 (c_requests_total srv) /\
  c_requests_error srv' = (if err then inc64 (c_requests_error srv) else c_requests_error srv) /\
  c_notifications_total srv' = c_notifications_total srv /\ tracer srv' = tracer srv /\
  traces srv' = traces srv /\ rest srv' = rest srv.

Lemma counted_refused level text srv srv1 :
  same_core (add_total srv) srv1 -> counted true srv (add_error (dlogf_srv logger level text srv1)).
Proof.
  intros Hc. pose proof (same_core_trans _ _ _ Hc (dlogf_core level text srv1)) as (H1 & H2 & H3 & H4 & H5 & H6).
  unfold counted. simpl. by rewrite H1, H2, H3, H4, H5, H6.
Qed.

Lemma same_core_refl srv : same_core srv srv.
Proof. done. Qed.

(** Why a request is refused, with what code and text. *)
Inductive reason (s : mcp_session_t) (req : mcp_message_t) (h : heap) : Z -> bytes -> Prop :=
| refused_invalid st code : mcp_message_validate (Some req) = (st, code) -> st <> MCP_OK ->
    reason s req h code (cs "invalid request")
| refused_uninitialized : mcp_message_validate (Some req) = (MCP_OK, 0) -> gate s req = false ->
    reason s req h (-32600) (cs "session not initialized")
| refused_duplicate x : mcp_message_validate (Some req) = (MCP_OK, 0) -> gate s req = true ->
    request_id req = Some x -> x ∈ IdSet.contents (ids s) ->
    reason s req h (-32600) (cs "duplicate request id")
| refused_untracked x : mcp_message_validate (Some req) = (MCP_OK, 0) -> gate s req = true ->
    request_id req = Some x -> x ∉ IdSet.contents (ids s) -> ~ ample h ->
    reason s req h (-32603) (cs "id tracking failed").

Lemma reason_code s req h code text : reason s req h code text -> int_range code /\ code <> 0.
Proof.
  intros Hr. assert (code ∈ [-32600; -32601; -32602; -32603]) as Hin.
  { destruct Hr as [st code Hv Hst| | |]; [|set_solver..].
    pose proof (validate_codes req) as Hc. rewrite Hv in Hc. destruct Hc as [?|[_ Hc]]; [by simplify_eq|]. set_solver. }
  unfold int_range. rewrite !elem_of_cons, elem_of_nil in Hin. lia.
Qed.

Definition session_keeps (ids' : IdSet.mcp_idset_t) (s s' : mcp_session_t) : Prop :=
  s' = set_ids ids' s /\ IdSet.inv ids'.

Definition checked (srv : mcp_server_t R) (s : mcp_session_t) (req : mcp_message_t) (h h' : heap)
    (c : outcome + mcp_server_t R * mcp_session_t * bytes) : Prop :=
  match c with
  | inl o => exists ids' code text,
      session_keeps ids' s (o_session o) /\ IdSet.contents ids' = IdSet.contents (ids s) /\
      (code <> -32603 -> ids' = ids s) /\ counted true srv (o_srv o) /\ reason s req h code text /\
      refusal req code text h h' (IdSet.set_blocks ids' - IdSet.set_blocks (ids s)) (o_status o) (o_resp o)
  | inr (srv', s', method) => exists ids' x,
      mcp_message_validate (Some req) = (MCP_OK, 0) /\ mcp_message_method (Some req) = Some method /\
      gate s req = true /\ request_id req = Some x /\ x ∉ IdSet.contents (ids s) /\
      session_keeps ids' s s' /\ IdSet.contents ids' = IdSet.contents (ids s) ++ [x] /\
      counted false srv srv' /\ hstep h h' (IdSet.set_blocks ids' - IdSet.set_blocks (ids s))
  end.

Lemma set_ids_same s : set_ids (ids s) s = s.
Proof. by destruct s. Qed.

(** A refusal that leaves the session alone. *)
Lemma refused_checked srv srv1 s req level line code text h o h' :
  o_session o = s -> o_srv o = add_error (dlogf_srv logger level line srv1) ->
  same_core (add_total srv) srv1 -> IdSet.inv (ids s) -> reason s req h code text ->
  refusal req code text h h' 0 (o_status o) (o_resp o) -> checked srv s req h h' (inl o).
Proof.
  intros Hs Ho Hc Hi Hr Hf. exists (ids s), code, text. unfold session_keeps. rewrite Hs, Ho, set_ids_same. split; [done|]. split; [done|]. split; [done|].
  split; [by apply counted_refused|]. split; [done|]. by rewrite Z.sub_diag.
Qed.

Lemma checks_spec srv s req h c h' :
  dispatch_checks logger srv s req h = (c, h') ->
  wf_msg req -> mcp_message_kind (Some req) = MCP_MSG_REQUEST -> IdSet.inv (ids s) -> checked srv s req h h' c.
Proof.
  intros H Hw Hk Hi. unfold dispatch_checks in H. cbv zeta in H.
  destruct (mcp_message_validate (Some req)) as [st code] eqn:Ev. pose proof (validate_codes req) as Hcodes. rewrite Ev in Hcodes.
  destruct (decide (st = MCP_OK)) as [->|Hst].
  2: { assert (reason s req h code (cs "invalid request")) as Hr by (by eapply refused_invalid).
       assert (exists o level line, respond_err (add_error (dlogf_srv logger level line (add_total srv))) s req code
                 (cs "invalid request") h = (o, h') /\ c = inl o) as (o & level & line & Ho & ->).
       { destruct st; [done|apply bind_inv in H as (o & h1 & E & H); minv H; eauto..]. }
       destruct (reason_code _ _ _ _ _ Hr).
       apply respond_err_spec in Ho as (Hos & Hoss & Hf); [|done..]. by eapply refused_checked. }
  destruct Hcodes as [Hcodes|[? _]]; [injection Hcodes as ->|done]. destruct (validated_id req Hw Hk Ev) as (Hid & [method Hm] & [x Hx]).
  rewrite Hm in H. set (srv1 := apply_log_level _ _) in H.
  assert (same_core (add_total srv) srv1) as Hc1 by apply level_core. clearbody srv1.
  match type of H with (if ?b then _ else _) _ = _ => assert (b = negb (gate s req)) as Hg end.
  { unfold gate, exempt. rewrite Hm.
    destruct (initialized s), (streq method (cs "initialize")), (streq method (cs "server/discover")),
      (IdSet.is_null (mcp_message_meta (Some req))); reflexivity. }
  rewrite Hg in H. clear Hg. destruct (gate s req) eqn:Hgate; cbn [negb] in H.
  2: { assert (reason s req h (-32600) (cs "session not initialized")) as Hr by (by apply refused_uninitialized).
       apply bind_inv in H as (o & h1 & E & H). minv H.
       apply respond_err_spec in E as (Hos & Hoss & Hf); [|done..]. by eapply refused_checked. }
  rewrite bool_decide_false in H by done. rewrite (IdSet.contains_spec _ _ _ _ x) in H by done.
  case_bool_decide as Hin.
  { assert (reason s req h (-32600) (cs "duplicate request id")) as Hr by (by eapply refused_duplicate).
    apply bind_inv in H as (o & h1 & E & H). minv H.
    apply respond_err_spec in E as (Hos & Hoss & Hf); [|done..]. by eapply refused_checked. }
  apply bind_inv in H as ([st r] & h1 & E & H).
  eapply IdSet.add_spec in E as (ids' & -> & Hi' & Hs & [(-> & _ & Hc)|[(_ & ? & _)|(-> & _ & Hc & Hna)]]); [|done| |done..].
  - minv H. exists ids', x. split; [done|]. split; [done|]. split; [done|]. split; [done|]. split; [done|].
    split; [done|]. split; [done|]. split; [|done]. destruct Hc1 as (H1 & H2 & H3 & H4 & H5 & H6). done.
  - apply bind_inv in H as (o & h2 & E & H). minv H.
    apply respond_err_spec in E as (Hos & Hoss & Hf); [|done..].
    exists ids', (-32603), (cs "id tracking failed"). split; [done|]. split; [done|]. split; [done|].
    split; [rewrite Hos; by apply counted_refused|]. split; [by eapply refused_untracked|].
    by eapply refusal_after.
Qed.
End lemmas.


(** ** Routing *)

Section laws.
Context {R : Type} {HR : Router R} {HL : RouterLaws R} (logger : option mcp_log_level_t).
Implicit Types srv : mcp_server_t R.

(** The status the tracer is told: the error code of the response, 0 for a
    result. *)
Definition end_status (resp : option mcp_message_t) : Z :=
  match mcp_message_error_code resp with Some (Some c) => c | _ => 0 end.

(** Does the request count as an error?  No response does. *)
Definition failed_resp (resp : option mcp_message_t) : bool :=
  match resp with None => true | Some _ => negb (end_status resp =? 0) end.

Definition status_of (req : mcp_message_t) (h : heap) (st : mcp_status_t) (resp : option mcp_message_t) : Prop :=
  match resp with
  | Some m => st = MCP_OK /\ answers req m
  | None => st = MCP_ERR_NOMEM /\ ~ ample h
  end.

Lemma refusal_status req code text h h' d st resp :
  code <> 0 -> refusal req code text h h' d st resp -> status_of req h st resp /\ failed_resp resp = true.
Proof.
  intros Hc [_ Hr]. destruct resp as [m|]; [|done]. destruct Hr as (-> & Ha & He & _).
  split; [done|]. unfold failed_resp, end_status. rewrite He. by apply negb_true_iff, Z.eqb_neq.
Qed.

(** The counters, tracer and trace after routing. *)
Definition routed_counts (method : bytes) srv srv' (resp : option mcp_message_t) : Prop :=
  c_requests_total srv' = c_requests_total srv /\
  c_requests_error srv' = (if failed_resp resp then inc64 (c_requests_error srv) else c_requests_error srv) /\
  c_notifications_total srv' = c_notifications_total srv /\ tracer srv' = tracer srv /\
  exists code, traces srv' = traces srv ++ (if tracer srv then [MCP_TRACE_BEGIN method; MCP_TRACE_END method code] else []) /\
    (forall m, resp = Some m -> code = end_status resp).

Definition dispatch_balance srv srv' s s' (resp : option mcp_message_t) : Z :=
  omsg_blocks resp + (rest_blocks (rest srv') - rest_blocks (rest srv)) + (session_blocks s' - session_blocks s).

Lemma traced_pair srv1 srv srv' method code :
  traces srv1 = traces (trace_begin method srv) -> tracer srv1 = tracer srv ->
  traces srv' = traces srv1 -> tracer srv' = tracer srv1 ->
  traces (trace_end method code srv') =
    traces srv ++ (if tracer srv then [MCP_TRACE_BEGIN method; MCP_TRACE_END method code] else []).
Proof.
  intros H1 H2 H3 H4. unfold trace_end, trace_begin in *.
  destruct (trace_fields (MCP_TRACE_BEGIN method) srv) as (_ & _ & _ & _ & Hb & _).
  destruct (trace_fields (MCP_TRACE_END method code) srv') as (_ & _ & _ & _ & He & _).
  rewrite He, H3, H1, Hb, H4, H2. destruct (tracer srv); by rewrite <- app_assoc.
Qed.

(** What the handlers leave, as [dispatch_route] relies on it. *)
Definition handled (method : bytes) srv srv1 : Prop :=
  c_requests_total srv1 = c_requests_total srv /\ c_requests_error srv1 = c_requests_error srv /\
  c_notifications_total srv1 = c_notifications_total srv /\ tracer srv1 = tracer srv /\
  traces srv1 = traces (trace_begin method srv).

Lemma answered_counts method srv srv1 m srv2 :
  handled method srv srv1 ->
  srv2 = (if failed_resp (Some m) then add_error srv1 else srv1) ->
  let srv' := trace_end method (end_status (Some m)) srv2 in
  routed_counts method srv srv' (Some m) /\ rest srv' = rest srv1.
Proof.
  intros (H1 & H2 & H3 & H4 & H5) ->. cbv zeta. unfold trace_end. set (srv2 := if failed_resp _ then _ else _).
  destruct (trace_fields (MCP_TRACE_END method (end_status (Some m))) srv2) as (U1 & U2 & U3 & U4 & _ & U6).
  assert (c_requests_total srv2 = c_requests_total srv1 /\ c_notifications_total srv2 = c_notifications_total srv1 /\
    tracer srv2 = tracer srv1 /\ traces srv2 = traces srv1 /\ rest srv2 = rest srv1) as (V1 & V2 & V3 & V4 & V5).
  { unfold srv2. by destruct (failed_resp (Some m)). }
  unfold routed_counts. rewrite U1, U2, U3, U4, U6, V1, V2, V3, V5. split; [|done]. split; [done|].
  split; [unfold srv2; destruct (failed_resp (Some m)); simpl; by rewrite H2|]. split; [done|]. split; [done|].
  eexists. split; [by apply (traced_pair srv1)|]. by intros m' [= <-].
Qed.

Lemma unanswered_counts method srv srv1 line resp :
  handled method srv srv1 -> failed_resp resp = true ->
  (forall m, resp = Some m -> end_status resp = MCP_RPC_INTERNAL_ERROR) ->
  routed_counts method srv
    (trace_end method MCP_RPC_INTERNAL_ERROR (add_error (dlogf_srv logger MCP_LOG_ERROR line srv1))) resp.
Proof.
  intros (H1 & H2 & H3 & H4 & H5) Hf Hc. destruct (dlogf_core logger MCP_LOG_ERROR line srv1) as (W1 & W2 & W3 & W4 & W5 & _).
  set (srv2 := add_error _). unfold trace_end.
  destruct (trace_fields (MCP_TRACE_END method MCP_RPC_INTERNAL_ERROR) srv2) as (U1 & U2 & U3 & U4 & _ & _).
  unfold routed_counts. rewrite U1, U2, U3, U4, Hf. simpl. rewrite W1, W2, W3, W4, H1, H2, H3, H4.
  split; [done|]. split; [done|]. split; [done|]. split; [done|].
  exists MCP_RPC_INTERNAL_ERROR. split; [by apply (traced_pair srv1)|]. intros m ->. symmetry. by eapply Hc.
Qed.

Lemma route_spec srv s req method h r h' :
  dispatch_route logger srv s req method h = (r, h') ->
  wf_msg req -> mcp_message_method (Some req) = Some method -> rest_inv (rest srv) ->
  exists o, r = Some o /\ rest_inv (rest (o_srv o)) /\ routed_counts method srv (o_srv o) (o_resp o) /\ status_of req h (o_status o) (o_resp o) /\
    initialized (o_session o) = initialized s /\ ids (o_session o) = ids s /\
    (ample h -> hstep h h' (dispatch_balance srv (o_srv o) s (o_session o) (o_resp o))).
Proof.
  intros H Hw Hm Hinv. unfold dispatch_route in H. apply bind_inv in H as ([[resp srv1] s1] & h1 & E & H).
  unfold trace_begin in *.
  destruct (trace_fields (MCP_TRACE_BEGIN method) srv) as (T1 & T2 & T3 & T4 & _ & T6).
  pose proof E as E'. apply route_answers in E as (Ha & Hinv1 & Ht & He & Hn & Htr & Htc & Hi & Hids); [|done|done|by rewrite T6].
  rewrite T1, T2, T3, T4 in *. assert (handled method srv srv1) as Hh by done.
  assert (ample h -> hstep h h1 (dispatch_balance srv srv1 s s1 resp)) as Hample.
  { intros A. apply route_ample in E' as Hs; [|done|done|by rewrite T6|done]. by rewrite T6 in Hs. }
  clear E'. destruct resp as [m|].
  - pose proof Ha as (Hwm & Hec & _). cbn [from_option] in *.
    assert (r = Some (Outcome MCP_OK (Some m) (trace_end method (end_status (Some m))
              (if failed_resp (Some m) then add_error srv1 else srv1)) s1) /\ h' = h1) as [-> ->].
    { unfold failed_resp, end_status. destruct (mcp_message_error_code (Some m)) as [[c|]|]; [|done|by minv H].
      apply ret_inv in H as [-> ->]. by destruct (c =? 0). }
    destruct (answered_counts method srv srv1 m _ Hh eq_refl) as [Hcounts Hrest].
    eexists. split; [done|]. cbn [o_srv o_resp o_session o_status]. rewrite Hrest. unfold dispatch_balance in *.
    rewrite Hrest. by split_and!.
  - apply bind_inv in H as (o & h2 & E & H). minv H.
    apply respond_err_spec in E as (Hos & Hoss & Hf); [|done..].
    pose proof Hf as Hst. apply refusal_status in Hst as [Hst Hfail]; [|discriminate].
    set (srv2 := trace_end _ _ _) in *.
    assert (rest srv2 = rest srv1) as Hrest.
    { unfold srv2, trace_end.
      destruct (trace_fields (MCP_TRACE_END method MCP_RPC_INTERNAL_ERROR) (add_error (dlogf_srv logger MCP_LOG_ERROR (cs "event=route_failed method=" ++ method) srv1))) as (_ & _ & _ & _ & _ & ->).
      by destruct (dlogf_core logger MCP_LOG_ERROR (cs "event=route_failed method=" ++ method) srv1) as (_ & _ & _ & _ & _ & ?). }
    exists o. split; [done|]. rewrite Hos, Hoss, Hrest. split; [done|]. split; [|split; [|split; [done|split; [done|]]]].
    + apply unanswered_counts; [done|done|]. intros m Hm'. destruct Hf as [_ Hf]. rewrite Hm' in *.
      destruct Hf as (_ & _ & Hcode & _). unfold end_status. by rewrite Hcode.
    + unfold status_of in *. destruct (o_resp o) as [m|]; [done|]. destruct Hst as [-> Hna]. split; [done|].
      intros A. apply Hna. eapply ample_hstep; [by apply Hample|done].
    + intros A. specialize (Hample A). destruct Hf as [Hf _]. unfold dispatch_balance in *. rewrite Hrest.
      cbn [omsg_blocks] in Hample. eapply hstep_trans; [exact Hample|exact Hf|lia].
Qed.

Lemma session_blocks_ids i s :
  session_blocks (set_ids i s) = session_blocks s + (IdSet.set_blocks i - IdSet.set_blocks (ids s)).
Proof. unfold session_blocks. simpl. lia. Qed.

(** A refused request, from the outcome of the checks. *)
Lemma dispatch_refused srv s req h o h' :
  mcp_message_kind (Some req) = MCP_MSG_REQUEST -> dispatch_checks logger srv s req h = (inl o, h') ->
  mcp_server_dispatch logger (Some srv) (Some s) (Some req) true h = (Some (inr o), h').
Proof.
  intros Hk Hc. cbn [mcp_server_dispatch]. rewrite bool_decide_true by done. cbn [negb].
  by rewrite (bind_run _ _ _ _ _ Hc).
Qed.

Lemma dispatch_cases srv s req h r h' :
  mcp_server_dispatch logger (Some srv) (Some s) (Some req) true h = (r, h') ->
  wf_msg req -> mcp_message_kind (Some req) = MCP_MSG_REQUEST -> IdSet.inv (ids s) -> rest_inv (rest srv) ->
  exists o, r = Some (inr o) /\
  (checked srv s req h h' (inl o) \/
   exists srv1 s1 method h1, checked srv s req h h1 (inr (srv1, s1, method)) /\
     dispatch_route logger srv1 s1 req method h1 = (Some o, h')).
Proof.
  intros H Hw Hk Hi HR'. cbn [mcp_server_dispatch] in H. rewrite bool_decide_true in H by done. cbn [negb] in H.
  apply bind_inv in H as (c & h1 & E & H). apply checks_spec in E; [|done..]. destruct c as [o|[[srv1 s1] method]].
  - minv H. eauto.
  - apply bind_inv in H as (r1 & h2 & E2 & H). pose proof E2 as E2'. pose proof E as (? & ? & _ & Hm & _ & _ & _ & _ & _ & (_ & _ & _ & _ & _ & C6) & _).
    apply route_spec in E2 as (o & -> & _); [|done|done|by rewrite C6]. minv H. exists o. split; [done|]. right. eauto 10.
Qed.

(** The outcome of a request that was not routed. *)
Definition refused_with srv s (req : mcp_message_t) h h' (code : Z) (text : bytes) (o : outcome (R := R)) : Prop :=
  refusal req code text h h' 0 (o_status o) (o_resp o) /\ o_session o = s /\ counted true srv (o_srv o).

Lemma refused_same srv s req h h' o code0 text0 :
  code0 <> -32603 ->
  (forall code text, reason s req h code text -> code = code0 /\ text = text0) ->
  checked srv s req h h' (inl o) -> refused_with srv s req h h' code0 text0 o.
Proof.
  intros Hn Hu (ids' & code & text & [Hs _] & _ & Hsame & Hcnt & Hr & Hf). destruct (Hu _ _ Hr) as [-> ->].
  rewrite (Hsame Hn) in *. rewrite set_ids_same in Hs. rewrite Z.sub_diag in Hf. done.
Qed.
Lemma dispatch_full srv s req h r h' :
  wf_msg req -> mcp_message_kind (Some req) = MCP_MSG_REQUEST -> IdSet.inv (ids s) -> rest_inv (rest srv) ->
  mcp_server_dispatch logger (Some srv) (Some s) (Some req) true h = (r, h') ->
  exists o, r = Some (inr o) /\
    status_of req h (o_status o) (o_resp o) /\
    c_requests_total (o_srv o) = inc64 (c_requests_total srv) /\
    c_requests_error (o_srv o) = (if failed_resp (o_resp o) then inc64 (c_requests_error srv) else c_requests_error srv) /\
    initialized (o_session o) = initialized s /\ IdSet.inv (ids (o_session o)) /\ rest_inv (rest (o_srv o)) /\
    (ample h -> hstep h h' (dispatch_balance srv (o_srv o) s (o_session o) (o_resp o))).
Proof.
  intros Hw Hk Hi HR' H. destruct (dispatch_cases _ _ _ _ _ _ H Hw Hk Hi HR') as (o & -> & [Hc|Hc]); exists o; (split; [done|]).
  - destruct Hc as (ids' & code & text & [Hs Hi'] & Hcon & _ & (C1 & C2 & C3 & C4 & C5 & C6) & Hr & Hf).
    apply reason_code in Hr as [_ Hnz]. pose proof Hf as Hst. apply refusal_status in Hst as [Hst Hfail]; [|done].
    rewrite Hfail, Hs. split; [done|]. split; [done|]. split; [done|]. split; [done|]. split; [done|].
    split; [by rewrite C6|]. intros _. destruct Hf as [Hf _]. unfold dispatch_balance. rewrite session_blocks_ids, C6. eapply hstep_eq; [exact Hf|lia].
  - destruct Hc as (srv1 & s1 & method & h1 & (ids' & x & _ & Hm & _ & _ & _ & [-> Hi'] & _ & Hcnt & Hs1) & Hrt).
    destruct Hcnt as (C1 & C2 & C3 & C4 & C5 & C6).
    apply route_spec in Hrt as (o' & [= <-] & HR2 & (D1 & D2 & _) & Hst & Hini & Hids & Hamp); [|done|done|by rewrite C6].
    split; [|split; [by rewrite D1, C1|split; [by rewrite D2, C2|split; [by rewrite Hini|split; [by rewrite Hids|split; [done|]]]]]].
    + unfold status_of in *. destruct (o_resp o); [done|]. destruct Hst as [-> Hna]. split; [done|].
      intros A. apply Hna. by eapply ample_hstep.
    + intros A. apply (ample_hstep _ _ _ Hs1) in A. specialize (Hamp A). unfold dispatch_balance in *.
      rewrite session_blocks_ids, C6 in Hamp. eapply hstep_trans; [exact Hs1|exact Hamp|lia].
Qed.


Lemma dispatch_outcome srv s req h r h' :
  wf_msg req -> mcp_message_kind (Some req) = MCP_MSG_REQUEST -> IdSet.inv (ids s) -> rest_inv (rest srv) ->
  mcp_server_dispatch logger (Some srv) (Some s) (Some req) true h = (r, h') ->
  exists o, r = Some (inr o) /\ status_of req h (o_status o) (o_resp o) /\ IdSet.inv (ids (o_session o)) /\
    rest_inv (rest (o_srv o)) /\
    (ample h -> hstep h h' (dispatch_balance srv (o_srv o) s (o_session o) (o_resp o))).
Proof.
  intros Hw Hk Hi HR' H. destruct (dispatch_full _ _ _ _ _ _ Hw Hk Hi HR' H) as (o & -> & ? & _ & _ & _ & ? & ? & ?). by exists o.
Qed.
End laws.

(** ** Claims *)

Section claims.
Context {R : Type} {HR : Router R} {HL : RouterLaws R} (logger : option mcp_log_level_t).
Implicit Types srv : mcp_server_t R.

(** Every request is answered: whatever the handlers (within the
    contract) and the allocator do, [mcp_server_dispatch] of a request
    either returns MCP_OK with a well-formed response that carries the id of
    the request (for "subscriptions/listen", a notification that carries it
    in its parameters), or MCP_ERR_NOMEM after an allocation was refused; the
    request is counted once, and as an error exactly when there is no
    response or it carries a non-zero error code; the handshake flag is left
    alone, and with memory every block is accounted for. *)
Theorem dispatch_answers srv s req h r h' :
  wf_msg req -> mcp_message_kind (Some req) = MCP_MSG_REQUEST -> IdSet.inv (ids s) -> rest_inv (rest srv) ->
  mcp_server_dispatch logger (Some srv) (Some s) (Some req) true h = (r, h') ->
  exists o, r = Some (inr o) /\
    status_of req h (o_status o) (o_resp o) /\
    c_requests_total (o_srv o) = inc64 (c_requests_total srv) /\
    c_requests_error (o_srv o) = (if failed_resp (o_resp o) then inc64 (c_requests_error srv) else c_requests_error srv) /\
    initialized (o_session o) = initialized s /\ IdSet.inv (ids (o_session o)) /\ rest_inv (rest (o_srv o)) /\
    (ample h -> hstep h h' (dispatch_balance srv (o_srv o) s (o_session o) (o_resp o))).
Proof. apply dispatch_full. Qed.

(** The handshake gate: on a session that has not completed the
    handshake, a valid request other than "initialize", "server/discover" or
    one with "_meta" gets the error -32600 "session not initialized"; no
    handler runs (the tracer is told nothing, the rest of the server and the
    session are untouched). *)
Theorem uninitialized_refused srv s req h r h' :
  wf_msg req -> mcp_message_kind (Some req) = MCP_MSG_REQUEST -> IdSet.inv (ids s) -> rest_inv (rest srv) ->
  mcp_message_validate (Some req) = (MCP_OK, 0) -> initialized s = false -> exempt req = false ->
  mcp_server_dispatch logger (Some srv) (Some s) (Some req) true h = (r, h') ->
  exists o, r = Some (inr o) /\ refused_with srv s req h h' (-32600) (cs "session not initialized") o.
Proof.
  intros Hw Hk Hi HR' Hv Hini Hex H. assert (gate s req = false) as Hg by (unfold gate; by rewrite Hini, Hex).
  destruct (dispatch_cases logger _ _ _ _ _ _ H Hw Hk Hi HR') as (o & -> & [Hc|Hc]); exists o; (split; [done|]).
  - eapply refused_same; [done| |done]. intros code text Hr. destruct Hr; [congruence|by split|congruence..].
  - destruct Hc as (? & ? & ? & ? & (? & ? & _ & _ & ? & _) & _). congruence.
Qed.

(** No request id is served twice: a valid request that passes the gate
    and repeats an id of the session gets the error -32600 "duplicate request
    id", and no handler runs. *)
Theorem duplicate_refused srv s req x h r h' :
  wf_msg req -> mcp_message_kind (Some req) = MCP_MSG_REQUEST -> IdSet.inv (ids s) -> rest_inv (rest srv) ->
  mcp_message_validate (Some req) = (MCP_OK, 0) -> gate s req = true ->
  request_id req = Some x -> x ∈ IdSet.contents (ids s) ->
  mcp_server_dispatch logger (Some srv) (Some s) (Some req) true h = (r, h') ->
  exists o, r = Some (inr o) /\ refused_with srv s req h h' (-32600) (cs "duplicate request id") o.
Proof.
  intros Hw Hk Hi HR' Hv Hg Hx Hin H.
  destruct (dispatch_cases logger _ _ _ _ _ _ H Hw Hk Hi HR') as (o & -> & [Hc|Hc]); exists o; (split; [done|]).
  - eapply refused_same; [done| |done]. intros code text Hr. destruct Hr as [| |y|y]; [congruence|congruence|by split|]. simplify_eq. done.
  - destruct Hc as (? & ? & ? & ? & (? & y & _ & _ & _ & ? & ? & _) & _). simplify_eq. done.
Qed.
End claims.

(** ** A server without handlers

    The last line of [mcp_server_route_request], which answers every method
    no handler knows, as a router of its own. *)
Definition unknown_method (logger : option mcp_log_level_t) (srv : mcp_server_t unit) (s : mcp_session_t) (req : mcp_message_t) (method : bytes)
    : M (option mcp_message_t * mcp_server_t unit * mcp_session_t) :=
  resp <- err_resp req MCP_RPC_METHOD_NOT_FOUND (cs "unknown method") ;;
  ret (resp, dlogf_srv logger MCP_LOG_WARN (cs "event=unknown_method method=" ++ method) srv, s).

#[global] Instance bare_router : Router unit := 
  {| mcp_server_route_request := unknown_method; rest_blocks := fun _ => 0; rest_inv := fun _ => True |}.

Lemma err_resp_answers req code text h r h' :
  err_resp req code text h = (r, h') ->
  wf_msg req -> int_range code -> has_nul text = false -> utf8_valid text = true ->
  from_option (answers req) True r /\ hstep h h' (omsg_blocks r) /\ (ample h -> is_Some r).
Proof.
  intros H Hw Hc Hn Hu.
  destruct (respond_err (Server 0 0 0 MCP_LOG_DEBUG false [] [] tt) (fresh_session (IdSet.Set_ [] 0)) req code text h)
    as [o h1] eqn:E.
  pose proof E as E'. unfold respond_err in E'. rewrite (bind_run _ _ _ _ _ H) in E'. minv E'. simplify_eq.
  apply respond_err_spec in E as (_ & _ & [Hs Hr]); [|done..]. rewrite Z.add_0_r in Hs. cbn [o_resp] in *.
  destruct r as [m|]; [|by destruct Hr].
  destruct Hr as (_ & Ha & _). done.
Qed.

#[global] Instance bare_laws : RouterLaws unit.
Proof.
  split.
  - intros logger srv s req method h r srv' s' h' Hw Hm _ H. cbn in H. unfold unknown_method in H.
    apply bind_inv in H as (resp & h1 & E & H). minv H. simplify_eq.
    apply err_resp_answers in E as (Ha & _); [|done..]. split; [done|]. split; [done|].
    by destruct (dlogf_core logger MCP_LOG_WARN (cs "event=unknown_method method=" ++ method) srv) as (-> & -> & -> & -> & -> & _).
  - intros logger srv s req method h r srv' s' h' Hw Hm _ A H. cbn in H. unfold unknown_method in H.
    apply bind_inv in H as (resp & h1 & E & H). minv H. simplify_eq.
    apply err_resp_answers in E as (_ & Hs & Hr); [|done..]. eapply hstep_eq; [exact Hs|]. cbn. lia.
Qed.

(** A fresh server with a tracer, and sessions before and after the
    handshake. *)
Definition sample_server : mcp_server_t unit := Server 0 0 0 MCP_LOG_DEBUG true [] [] tt.

Definition new_session : mcp_session_t := fresh_session (IdSet.Set_ [] 0).

Definition ready_session : mcp_session_t :=
  set_ids (IdSet.Set_ [IdSet.Entry MCP_ID_NUMBER None (double_of_Z 7)] 8) (set_initialized true new_session).

Lemma empty_ids_inv : IdSet.inv (ids new_session).
Proof. split; [constructor|constructor|simpl; lia]. Qed.

Lemma ready_inv : IdSet.inv (ids ready_session).
Proof.
  split; [|by apply (bool_decide_unpack _); vm_compute|cbn; lia].
  apply Forall_singleton. split; [vm_compute; eauto|done].
Qed.

Lemma dispatch_answers_witness :
  exists r h', mcp_server_dispatch None (Some sample_server) (Some new_session) (Some sample_request) true fresh_heap = (r, h') /\
  exists o, r = Some (inr o) /\
    status_of sample_request fresh_heap (o_status o) (o_resp o) /\
    c_requests_total (o_srv o) = inc64 0 /\
    c_requests_error (o_srv o) = (if failed_resp (o_resp o) then inc64 0 else 0) /\
    initialized (o_session o) = false /\ IdSet.inv (ids (o_session o)) /\ rest_inv (rest (o_srv o)) /\
    (ample fresh_heap -> hstep fresh_heap h' (dispatch_balance sample_server (o_srv o) new_session (o_session o) (o_resp o))).
Proof.
  eexists _, _. split; [apply surjective_pairing|].
  apply (dispatch_answers None sample_server new_session sample_request fresh_heap);
    [apply sample_request_wf|vm_compute; reflexivity|apply empty_ids_inv|exact I|apply surjective_pairing].
Defined.

Lemma uninitialized_refused_witness :
  exists r h', mcp_server_dispatch None (Some sample_server) (Some new_session) (Some sample_request) true fresh_heap = (r, h') /\
  exists o, r = Some (inr o) /\
    refused_with sample_server new_session sample_request fresh_heap h' (-32600) (cs "session not initialized") o.
Proof.
  eexists _, _. split; [apply surjective_pairing|].
  apply (uninitialized_refused None sample_server new_session sample_request fresh_heap);
    [apply sample_request_wf|vm_compute; reflexivity|apply empty_ids_inv|exact I|vm_compute; reflexivity
    |reflexivity|vm_compute; reflexivity|apply surjective_pairing].
Defined.

Lemma duplicate_refused_witness :
  exists r h', mcp_server_dispatch None (Some sample_server) (Some ready_session) (Some sample_request) true fresh_heap = (r, h') /\
  exists o, r = Some (inr o) /\
    refused_with sample_server ready_session sample_request fresh_heap h' (-32600) (cs "duplicate request id") o.
Proof.
  eexists _, _. split; [apply surjective_pairing|].
  apply (duplicate_refused None sample_server ready_session sample_request (IdSet.IdNumber (7 * 2 ^ 1074)) fresh_heap);
    [apply sample_request_wf|vm_compute; reflexivity|apply ready_inv|exact I|vm_compute; reflexivity
    |vm_compute; reflexivity|vm_compute; reflexivity| |apply surjective_pairing].
  apply (bool_decide_unpack _). vm_compute. exact I.
Defined.
