(* ===== verification/Lifecycle.v ===== *)
(** * The life of a session (src/server/dispatcher.c, src/server/queue.c)

    A session as a state machine: its steps are the requests and
    notifications the dispatcher handles for it, and whatever happens on the
    server meanwhile.  The invariants along its runs, and the processing of
    a whole queue. *)
From stdpp Require Import gmap.
From S2P Require Import Prelude Heap Utf8 Double JsonValue JsonParse JsonSerialize JsonApi Schema Message Initialize Validate Queue Session Dispatcher.

Local Open Scope Z_scope.

(** ** Steps *)

Inductive label := Routed (req : mcp_message_t) | Refused (req : mcp_message_t) | Notified (n : mcp_message_t) | Elsewhere.

Section machine.
Context {R : Type} {HR : Router R} (logger : option mcp_log_level_t).

Record state := State { st_srv : mcp_server_t R; st_session : mcp_session_t; st_heap : heap }.

(** A request is refused by the checks or reaches its handler; a
    notification is consumed; other sessions and threads change the server
    and the heap within the invariant of the handlers, but not this session. *)
Inductive step : state -> label -> state -> Prop :=
| step_refused srv s h req o h' :
    wf_msg req -> mcp_message_kind (Some req) = MCP_MSG_REQUEST ->
    dispatch_checks logger srv s req h = (inl o, h') ->
    step (State srv s h) (Refused req) (State (o_srv o) (o_session o) h')
| step_routed srv s h req srv1 s1 method h1 o h' :
    wf_msg req -> mcp_message_kind (Some req) = MCP_MSG_REQUEST ->
    dispatch_checks logger srv s req h = (inr (srv1, s1, method), h1) ->
    dispatch_route logger srv1 s1 req method h1 = (Some o, h') ->
    step (State srv s h) (Routed req) (State (o_srv o) (o_session o) h')
| step_notified srv s h n st srv' s' :
    wf_msg n -> mcp_message_kind (Some n) = MCP_MSG_NOTIFICATION ->
    notify_checked logger srv s n = (st, srv', s') ->
    step (State srv s h) (Notified n) (State srv' s' h)
| step_elsewhere srv s h srv' h' :
    rest_inv (rest srv') ->
    step (State srv s h) Elsewhere (State srv' s h').

Inductive steps : state -> list label -> state -> Prop :=
| steps_nil st : steps st [] st
| steps_cons st1 l st2 ls st3 : step st1 l st2 -> steps st2 ls st3 -> steps st1 (l :: ls) st3.

Lemma steps_app st1 l1 l2 st3 :
  steps st1 (l1 ++ l2) st3 -> exists st2, steps st1 l1 st2 /\ steps st2 l2 st3.
Proof.
  revert st1. induction l1 as [|l l1 IH]; intros st1 H; simpl in H; [exists st1; split; [constructor|done]|].
  inversion H as [|? ? st2 ? ? Hs Hr]; subst. destruct (IH _ Hr) as (st & ? & ?).
  exists st. split; [by econstructor|done].
Qed.
End machine.
Arguments State {R}.
Arguments st_srv {R}.
Arguments st_session {R}.
Arguments st_heap {R}.

(** ** Invariants of runs *)

Definition routed_id (l : label) : option IdSet.id :=
  match l with Routed req => request_id req | _ => None end.

Definition is_handshake (l : label) : bool :=
  match l with
  | Notified n => match mcp_message_method (Some n) with
                  | Some m => streq m (cs "notifications/initialized")
                  | None => false
                  end
  | _ => false
  end.

Section runs.
Context {R : Type} {HR : Router R} {HL : RouterLaws R} (logger : option mcp_log_level_t).

(** What the steps keep. *)
Definition state_ok (st : state (R := R)) : Prop := IdSet.inv (ids (st_session st)) /\ rest_inv (rest (st_srv st)).

Lemma notify_rest srv s n st srv' s' : notify_checked (R := R) logger srv s n = (st, srv', s') -> rest srv' = rest srv.
Proof.
  unfold notify_checked. intros H. case_match; [by simplify_eq|]. destruct (mcp_message_method _) as [m|]; [|by simplify_eq].
  cbv zeta in H. apply (f_equal (fun p => p.1.2)) in H. cbn [fst snd] in H. rewrite <- H.
  unfold add_notification. cbn [rest]. destruct (existsb (streq m) k_mcp_server_notifications); [|done].
  by destruct (dlogf_core logger MCP_LOG_DEBUG (cs "event=notification method=" ++ m) srv) as (_ & _ & _ & _ & _ & ->).
Qed.

Lemma step_ids (st : state (R := R)) l st' :
  step logger st l st' -> state_ok st ->
  state_ok st' /\
  IdSet.contents (ids (st_session st')) = IdSet.contents (ids (st_session st)) ++ option_list (routed_id l).
Proof.
  intros Hs [Hi HI]. unfold state_ok.
  destruct Hs as [srv s h req o h' Hw Hk Hc|srv s h req srv1 s1 method h1 o h' Hw Hk Hc Hr
                 |srv s h n st srv' s' Hw Hk Hn|srv s h srv' h' Hinv]; simpl in *.
  - apply checks_spec in Hc as (ids' & code & text & [-> Hi'] & Hcon & _ & (_ & _ & _ & _ & _ & ->) & _); [|done..].
    simpl. by rewrite app_nil_r.
  - apply checks_spec in Hc as (ids' & x & _ & Hm & _ & Hx & _ & [-> Hi'] & Hcon & (_ & _ & _ & _ & _ & C6) & _); [|done..].
    apply route_spec in Hr as (o' & [= <-] & Hinv & _ & _ & _ & Hids & _); [|done|done|by rewrite C6]. rewrite Hids, Hx. done.
  - rewrite app_nil_r. rewrite (notify_rest _ _ _ _ _ _ Hn). unfold notify_checked in Hn. rewrite bool_decide_true in Hn by done. cbn [negb] in Hn.
    destruct (mcp_message_method _) as [m|]; cbv zeta in Hn; simplify_eq; [|done].
    unfold notify_session. by repeat case_match.
  - by rewrite app_nil_r.
Qed.

Lemma steps_ids (st : state (R := R)) ls st' :
  steps logger st ls st' -> state_ok st ->
  state_ok st' /\
  IdSet.contents (ids (st_session st')) = IdSet.contents (ids (st_session st)) ++ omap routed_id ls.
Proof.
  induction 1 as [st|st1 l st2 ls st3 Hs _ IH]; intros Hi; [by rewrite app_nil_r|].
  destruct (step_ids _ _ _ Hs Hi) as [Hi2 Hc2]. destruct (IH Hi2) as [Hi3 Hc3]. split; [done|].
  rewrite Hc3, Hc2, <- app_assoc. f_equal. simpl. by destruct (routed_id l).
Qed.

Lemma step_initialized (st : state (R := R)) l st' :
  step logger st l st' -> state_ok st ->
  initialized (st_session st') = initialized (st_session st) || is_handshake l.
Proof.
  intros Hs [Hi HI]. destruct Hs as [srv s h req o h' Hw Hk Hc|srv s h req srv1 s1 method h1 o h' Hw Hk Hc Hr
                               |srv s h n st srv' s' Hw Hk Hn|srv s h srv' h' Hinv]; simpl in *; rewrite ?orb_false_r.
  - by apply checks_spec in Hc as (ids' & code & text & [-> Hi'] & Hcon & _).
  - apply checks_spec in Hc as (ids' & x & _ & Hm & _ & Hx & _ & [-> Hi'] & Hcon & (_ & _ & _ & _ & _ & C6) & _); [|done..].
    apply route_spec in Hr as (o' & [= <-] & _ & _ & _ & -> & _); [done|done|done|by rewrite C6].
  - unfold notify_checked in Hn. rewrite bool_decide_true in Hn by done. cbn [negb] in Hn.
    destruct (mcp_message_method _) as [m|]; cbv zeta in Hn; simplify_eq; [|by rewrite orb_false_r].
    unfold notify_session. destruct (streq m (cs "notifications/initialized")); [by rewrite orb_true_r|].
    rewrite orb_false_r. by case_match.
  - done.
Qed.

Lemma steps_initialized (st : state (R := R)) ls st' :
  steps logger st ls st' -> state_ok st ->
  initialized (st_session st') = initialized (st_session st) || existsb is_handshake ls.
Proof.
  induction 1 as [st|st1 l st2 ls st3 Hs _ IH]; intros Hi; [by rewrite orb_false_r|].
  destruct (step_ids _ _ _ Hs Hi) as [Hi2 _]. rewrite (IH Hi2), (step_initialized _ _ _ Hs Hi). simpl.
  by rewrite orb_assoc.
Qed.

Definition label_wf (l : label) : Prop :=
  match l with Routed m | Refused m | Notified m => wf_msg m | Elsewhere => True end.

Lemma steps_wf (st : state (R := R)) ls st' : steps logger st ls st' -> Forall label_wf ls.
Proof. induction 1 as [|st1 l st2 ls st3 Hs _ IH]; constructor; [by destruct Hs|done]. Qed.

Lemma method_no_nul m method : wf_msg m -> mcp_message_method (Some m) = Some method -> has_nul method = false.
Proof.
  intros Hw H. unfold mcp_message_method in H. pose proof (get_key_wf m (cs "method")) as Hk.
  destruct (get_key (Some m) (cs "method")) as [v|]; [|done]. specialize (Hk v Hw ltac:(by split) eq_refl).
  destruct v; try discriminate H. injection H as ->. by destruct Hk.
Qed.

(** C9: Exactly-once: along every run of a session that starts without seen
    ids, whatever else happens on the server, no two requests with the same
    id reach a handler. *)
Theorem served_once srv s h ls st' :
  IdSet.inv (ids s) -> rest_inv (rest srv) -> IdSet.contents (ids s) = [] ->
  steps logger (State srv s h) ls st' -> NoDup (omap routed_id ls).
Proof.
  intros Hi HI Hc H. destruct (steps_ids _ _ _ H (conj Hi HI)) as [[[_ Hnd _] _] Heq]. simpl in Heq. by rewrite Heq, Hc in Hnd.
Qed.

(** C10: Nothing before the handshake: in every run of a session that starts
    uninitialised, a request that reaches a handler and is not exempt was
    preceded by a "notifications/initialized" of the client. *)
Theorem served_after_handshake srv s h l1 req l2 st' :
  initialized s = false -> IdSet.inv (ids s) -> rest_inv (rest srv) -> exempt req = false ->
  steps logger (State srv s h) (l1 ++ Routed req :: l2) st' ->
  exists n, Notified n ∈ l1 /\ mcp_message_method (Some n) = Some (cs "notifications/initialized").
Proof.
  intros Hini Hi HI Hex H. apply steps_app in H as (st2 & H1 & H2). inversion H2 as [|? ? st3 ? ? Hs _]; subst.
  destruct (steps_ids _ _ _ H1 (conj Hi HI)) as [[Hi2 _] _]. pose proof (steps_initialized _ _ _ H1 (conj Hi HI)) as Hin.
  simpl in Hin. rewrite Hini in Hin. simpl in Hin.
  inversion Hs as [|? ? ? ? ? ? ? ? ? ? Hw Hk Hc Hr| |]; subst.
  apply checks_spec in Hc as (ids' & x & _ & _ & Hg & _); [|done..]. unfold gate in Hg. rewrite Hex, orb_false_r in Hg.
  simpl in Hin. rewrite Hg in Hin. symmetry in Hin. apply existsb_exists in Hin as (l & Hl & Hh).
  destruct l as [| |n|]; try discriminate Hh. exists n. split; [by apply list_elem_of_In|]. simpl in Hh.
  destruct (mcp_message_method (Some n)) as [m|] eqn:Em; [|done].
  assert (wf_msg n) as Hwn.
  { apply steps_wf in H1. rewrite Forall_forall in H1. apply (H1 (Notified n)). by apply list_elem_of_In. }
  rewrite streq_no_nul, bool_decide_eq_true in Hh; [by subst|by eapply method_no_nul|done].
Qed.
End runs.

(** ** The queue *)

Section queue.
Context {R : Type} {HR : Router R} {HL : RouterLaws R} (logger : option mcp_log_level_t).
Implicit Types srv : mcp_server_t R.

(** What becomes of a message: a request is answered, a notification is
    consumed, anything else is refused. *)
Definition processed (m : mcp_message_t) (h : heap) (st : mcp_status_t) (resp : option mcp_message_t) : Prop :=
  match mcp_message_kind (Some m) with
  | MCP_MSG_REQUEST => status_of m h st resp
  | MCP_MSG_NOTIFICATION => st = MCP_OK /\ resp = None
  | _ => st = MCP_ERR_INVALID_ARGUMENT /\ resp = None
  end.

Lemma notify_keeps srv s n st srv' s' :
  mcp_message_kind (Some n) = MCP_MSG_NOTIFICATION -> notify_checked logger srv s n = (st, srv', s') ->
  st = MCP_OK /\ ids s' = ids s /\ dispatch_balance srv srv' s s' None = 0.
Proof.
  intros Hk H. unfold notify_checked in H. rewrite bool_decide_true in H by done. cbn [negb] in H. unfold dispatch_balance.
  destruct (mcp_message_method _) as [m|]; cbv zeta in H; simplify_eq; [|split_and!; [done|done|simpl; lia]].
  assert (ids (notify_session m s) = ids s /\ session_blocks (notify_session m s) = session_blocks s) as [-> ->].
  { unfold notify_session. by repeat case_match. }
  split; [done|]. split; [done|]. unfold add_notification. cbn [rest omsg_blocks]. case_match; [|lia].
  destruct (dlogf_core logger MCP_LOG_DEBUG (cs "event=notification method=" ++ m) srv) as (_ & _ & _ & _ & _ & Hr).
  rewrite Hr. lia.
Qed.

Lemma process_spec srv store q a m l s h r h' :
  mcp_server_process_one logger srv store q h = (r, h') ->
  Queue.inv q -> holds q ((a, m) :: l) -> store !! a = Some s -> wf_msg m -> IdSet.inv (ids s) -> rest_inv (rest srv) ->
  exists st resp srv' s' q',
    r = Some (st, resp, srv', <[a := s']> store, q') /\ Queue.inv q' /\ holds q' l /\ IdSet.inv (ids s') /\ rest_inv (rest srv') /\
    processed m h st resp /\
    (ample h -> hstep h h' (dispatch_balance srv srv' s s' resp - msg_blocks m)).
Proof.
  intros H Hq Hl Hst Hw Hi HI. destruct (pop_spec q _ Hq Hl) as (q' & Hp & Hq' & Hl' & _).
  unfold mcp_server_process_one in H. rewrite Hp, Hst in H. unfold processed.
  case_bool_decide as Hk.
  - rewrite Hk. destruct (notify_checked logger srv s m) as [[st srv'] s'] eqn:En.
    pose proof (notify_rest _ _ _ _ _ _ _ En) as Hrest. apply notify_keeps in En as (-> & Hids & Hb); [|done]. apply bind_inv in H as (u & h1 & E & H). minv H.
    apply message_destroy_hstep in E. exists MCP_OK, None, srv', s', q'. rewrite Hids, Hb, Hrest.
    split_and!; [done..|]. intros _. simpl in *. eapply hstep_eq; [exact E|lia].
  - apply bind_inv in H as (r1 & h1 & E & H). destruct (mcp_message_kind (Some m)) eqn:Ek; try done.
    2: { destruct (dispatch_outcome logger _ _ _ _ _ _ Hw Ek Hi HI E) as (o & -> & Hso & Hio & HIo & Hbal).
         apply bind_inv in H as (u & h2 & E2 & H). minv H. apply message_destroy_hstep in E2.
         exists (o_status o), (o_resp o), (o_srv o), (o_session o), q'. split_and!; [done..|].
         intros A. specialize (Hbal A). simpl in *. hsolve. }
    all: cbn [mcp_server_dispatch] in E; rewrite Ek in E; rewrite bool_decide_false in E by done; cbn [negb] in E; minv E.
    all: apply bind_inv in H as (u & h2 & E2 & H); minv H; apply message_destroy_hstep in E2.
    all: exists MCP_ERR_INVALID_ARGUMENT, None, srv, s, q'; rewrite insert_id by done.
    all: split_and!; [done..|]; intros _; unfold dispatch_balance; simpl in *; eapply hstep_eq; [exact E2|lia].
Qed.

(** [mcp_server_process_one] called [k] times: the statuses and responses. *)
Fixpoint drain (k : nat) srv store q
    : M (option (list (mcp_status_t * option mcp_message_t) * mcp_server_t R * gmap nat mcp_session_t
                 * mcp_queue_t nat mcp_message_t)) :=
  match k with
  | O => ret (Some ([], srv, store, q))
  | S k =>
      r <- mcp_server_process_one logger srv store q ;;
      match r with
      | None => ret None
      | Some (st, resp, srv, store, q) =>
          r <- drain k srv store q ;;
          ret (match r with
               | None => None
               | Some (out, srv, store, q) => Some ((st, resp) :: out, srv, store, q)
               end)
      end
  end.

Definition served (p : nat * mcp_message_t) (o : mcp_status_t * option mcp_message_t) : Prop :=
  match mcp_message_kind (Some p.2) with
  | MCP_MSG_REQUEST => exists m, o = (MCP_OK, Some m) /\ answers p.2 m
  | MCP_MSG_NOTIFICATION => o = (MCP_OK, None)
  | _ => o = (MCP_ERR_INVALID_ARGUMENT, None)
  end.

Lemma processed_served a m h st resp : ample h -> processed m h st resp -> served (a, m) (st, resp).
Proof.
  intros A. unfold processed, served. cbn [snd]. destruct (mcp_message_kind (Some m)); try (by intros [-> ->]).
  unfold status_of. intros H. destruct resp as [m'|]; [destruct H as [-> ?]; eauto|]. by destruct H.
Qed.

(** The queued messages are well formed and their sessions alive. *)
Definition store_ok (store : gmap nat mcp_session_t) (l : list (nat * mcp_message_t)) : Prop :=
  forall a m, (a, m) ∈ l -> wf_msg m /\ exists s, store !! a = Some s /\ IdSet.inv (ids s).

(** C15: Every queued message is processed, oldest first: with memory, one
    call of [mcp_server_process_one] per message empties the queue and gives,
    in the order of the queue, a response that answers it for each request,
    MCP_OK without a response for each notification and
    MCP_ERR_INVALID_ARGUMENT for anything else; no session disappears. *)
Theorem queue_served l srv store q h r h' :
  ample h -> rest_inv (rest srv) -> Queue.inv q -> holds q l -> store_ok store l -> drain (length l) srv store q h = (r, h') ->
  exists out srv' store' q', r = Some (out, srv', store', q') /\ Queue.inv q' /\ holds q' [] /\
    Forall2 served l out /\ (forall a, is_Some (store' !! a) <-> is_Some (store !! a)).
Proof.
  revert srv store q h r h'. induction l as [|[a m] l IH]; intros srv store q h r h' A HI Hq Hl Hok H; cbn [length drain] in H.
  { minv H. by eexists [], srv, store, q. }
  destruct (Hok a m) as (Hw & s & Hs & Hi); [by left|]. apply bind_inv in H as (r1 & h1 & E & H).
  destruct (process_spec _ _ _ _ _ _ _ _ _ _ E Hq Hl Hs Hw Hi HI)
    as (st & resp & srv1 & s1 & q1 & -> & Hq1 & Hl1 & Hi1 & HI1 & Hp & Hh).
  apply bind_inv in H as (r2 & h2 & E2 & H).
  assert (store_ok (<[a := s1]> store) l) as Hok1.
  { intros a' m' Hin. destruct (Hok a' m') as (Hw' & s' & Hs' & Hi'); [by right|]. split; [done|].
    destruct (decide (a' = a)) as [->|Hne]; [exists s1; by rewrite lookup_insert_eq|].
    exists s'. by rewrite lookup_insert_ne. }
  apply IH in E2 as (out & srv' & store' & q' & -> & Hq' & Hl' & Hout & Hdom); [|by eapply ample_hstep; eauto|done..].
  minv H. eexists _, _, _, _. split; [done|]. split; [done|]. split; [done|]. split.
  - constructor; [by eapply processed_served|done].
  - intros a'. rewrite Hdom. destruct (decide (a' = a)) as [->|Hne]; [by rewrite lookup_insert_eq, Hs|].
    by rewrite lookup_insert_ne.
Qed.
End queue.

(** ** Witnesses *)

Definition initialized_note : mcp_message_t := Message (doc "{'jsonrpc':'2.0','method':'notifications/initialized'}").

Lemma initialized_note_wf : wf_msg initialized_note.
Proof. split; [apply doc_wf|]. eexists. vm_compute. reflexivity. Qed.

(** The handshake and one request. *)
Definition sample_labels : list label := [Notified initialized_note; Routed sample_request].

Lemma sample_run : exists st', steps None (State sample_server new_session fresh_heap) sample_labels st'.
Proof.
  eexists. eapply steps_cons; [eapply step_notified; [apply initialized_note_wf|vm_compute; reflexivity..]|].
  eapply steps_cons; [|apply steps_nil].
  eapply step_routed; [apply sample_request_wf|vm_compute; reflexivity..].
Qed.

Lemma served_once_witness : NoDup (omap routed_id sample_labels).
Proof.
  destruct sample_run as [st' H].
  apply (served_once None sample_server new_session fresh_heap sample_labels st'); [apply empty_ids_inv|exact I|reflexivity|exact H].
Defined.

Lemma served_after_handshake_witness :
  exists n, Notified n ∈ [Notified initialized_note] /\ mcp_message_method (Some n) = Some (cs "notifications/initialized").
Proof.
  destruct sample_run as [st' H].
  apply (served_after_handshake None sample_server new_session fresh_heap [Notified initialized_note] sample_request [] st');
    [reflexivity|apply empty_ids_inv|exact I|vm_compute; reflexivity|exact H].
Defined.

Definition sample_queue : mcp_queue_t nat mcp_message_t :=
  Queue.Queue [Some 3%nat; Some 3%nat] [Some initialized_note; Some sample_request] 0 2 2.

Definition sample_pairs : list (nat * mcp_message_t) := [(3%nat, initialized_note); (3%nat, sample_request)].

Lemma queue_served_witness :
  exists r h', drain None (length sample_pairs) sample_server {[3%nat := new_session]} sample_queue fresh_heap = (r, h') /\
  exists out srv' store' q', r = Some (out, srv', store', q') /\ Queue.inv q' /\ holds q' [] /\
    Forall2 served sample_pairs out /\ (forall a, is_Some (store' !! a) <-> is_Some (({[3%nat := new_session]} : gmap nat mcp_session_t) !! a)).
Proof.
  eexists _, _. split; [apply surjective_pairing|].
  apply (queue_served None sample_pairs sample_server {[3%nat := new_session]} sample_queue fresh_heap _
           (drain None (length sample_pairs) sample_server {[3%nat := new_session]} sample_queue fresh_heap).2);
    [apply fresh_ample|exact I|split; cbn; unfold MCP_QUEUE_MAX_LEN; lia|reflexivity| |apply surjective_pairing].
  intros a m Hin. unfold sample_pairs in Hin. rewrite !elem_of_cons, elem_of_nil in Hin.
  destruct Hin as [[= -> ->]|[[= -> ->]|[]]].
  - split; [apply initialized_note_wf|]. exists new_session. split; [reflexivity|apply empty_ids_inv].
  - split; [apply sample_request_wf|]. exists new_session. split; [reflexivity|apply empty_ids_inv].
Defined.
