(* ===== verification/Registry.v ===== *)
(** * Tools, resources and prompts (src/server/registry.c)

    The descriptors a server registers, with their callbacks.  A callback is
    code of the host application: it is a function in the heap monad, with
    its [user_data] already applied, and what the server relies on is stated
    where it is used (Routes.v). *)
From S2P Require Import Prelude Heap Utf8 Double JsonValue JsonParse JsonSerialize JsonApi Schema Message Validate Builders Session.

Local Open Scope Z_scope.

(** What a handler returns: the status, [*result_out], and the session,
    which it may change. *)
Definition handled_by : Type := mcp_status_t * option value * mcp_session_t.

Record mcp_tool_call_ctx_t := CallCtx {
  call_args : option value;
  call_input_responses : option value;
  call_request_state : option bytes;
}.

Definition mcp_tool_handler_fn : Type := mcp_session_t -> option value -> M handled_by.
Definition mcp_tool_handler_v2_fn : Type := mcp_session_t -> mcp_tool_call_ctx_t -> M handled_by.

(** Exactly one of [handler] and [handler_v2] is set. *)
Inductive tool_handler := HandlerV1 (f : mcp_tool_handler_fn) | HandlerV2 (f : mcp_tool_handler_v2_fn).

Inductive mcp_tool_visibility_t := MCP_TOOL_VIS_MODEL | MCP_TOOL_VIS_APP | MCP_TOOL_VIS_BOTH.

#[export] Instance visibility_eq_dec : EqDecision mcp_tool_visibility_t.
Proof. solve_decision. Defined.

Record mcp_tool_t := Tool {
  tool_name : bytes;
  tool_description : option bytes;
  tool_schema : option value;
  tool_output_schema : option value;
  tool_meta : option value;
  tool_handler_of : tool_handler;
  vis : mcp_tool_visibility_t;
  required : Z;
}.

Record mcp_resource_t := Resource {
  res_uri : bytes;
  res_name : bytes;
  res_mime_type : option bytes;
  on_read : option (mcp_session_t -> bytes -> M handled_by);
  cleanup : option (M unit);
}.

Record mcp_prompt_t := Prompt {
  prompt_name : bytes;
  prompt_description : option bytes;
  on_get : option (mcp_session_t -> option value -> M handled_by);
}.

(** ** Tools *)

Definition srv_strdup (s : option bytes) : M (option bytes) := strdup s.

Definition srv_free {A} (p : option A) : M unit := xfree (IdSet.is_null p).

(** The common part of [mcp_tool_new] and [mcp_tool_new_v2]; [fail] is what
    follows a failure. *)
Definition tool_alloc (name : bytes) (description : option bytes) (schema : option value) (h : tool_handler)
    (fail : M (option mcp_tool_t)) : M (option mcp_tool_t) :=
  ok <- xmalloc ;;
  if negb ok then fail else
  n <- srv_strdup (Some name) ;;
  d <- srv_strdup description ;;
  match n, description, d with
  | Some n', None, _ | Some n', Some _, Some _ =>
      ret (Some (Tool n' d schema None None h MCP_TOOL_VIS_BOTH 0))
  | _, _, _ => srv_free n ;; srv_free d ;; xfree false ;; fail
  end.

Definition mcp_tool_new (name description : option bytes) (input_schema : option value)
    (handler : option mcp_tool_handler_fn) : M (option mcp_tool_t) :=
  match name, handler with
  | Some name, Some f => tool_alloc name description input_schema (HandlerV1 f) (ret None)
  | _, _ => ret None
  end.

Definition mcp_tool_destroy (tool : option mcp_tool_t) : M unit :=
  match tool with
  | None => ret tt
  | Some t =>
      xfree false ;; srv_free (tool_description t) ;;
      builtin_destroy (tool_schema t) ;; builtin_destroy (tool_output_schema t) ;; builtin_destroy (tool_meta t) ;;
      xfree false
  end.

Definition mcp_tool_new_v2 (name description : option bytes) (input_schema : option value)
    (handler : option mcp_tool_handler_v2_fn) : M (option mcp_tool_t) :=
  let fail := builtin_destroy input_schema ;; ret None in
  match name, handler with
  | Some name, Some f => tool_alloc name description input_schema (HandlerV2 f) fail
  | _, _ => fail
  end.

Definition mcp_tool_set_output_schema (tool : option mcp_tool_t) (output_schema : option value)
    : M (mcp_status_t * option mcp_tool_t) :=
  match tool with
  | None => builtin_destroy output_schema ;; ret (MCP_ERR_INVALID_ARGUMENT, None)
  | Some t =>
      builtin_destroy (tool_output_schema t) ;;
      ret (MCP_OK, Some (Tool (tool_name t) (tool_description t) (tool_schema t) output_schema (tool_meta t)
                           (tool_handler_of t) (vis t) (required t)))
  end.

Definition mcp_tool_set_meta (tool : option mcp_tool_t) (meta : option value) : M (mcp_status_t * option mcp_tool_t) :=
  match tool with
  | None => builtin_destroy meta ;; ret (MCP_ERR_INVALID_ARGUMENT, None)
  | Some t =>
      if negb (IdSet.is_null meta) && negb (bool_decide (builtin_type_of meta = MCP_JSON_OBJECT)) then
        builtin_destroy meta ;; ret (MCP_ERR_INVALID_ARGUMENT, tool)
      else
        builtin_destroy (tool_meta t) ;;
        ret (MCP_OK, Some (Tool (tool_name t) (tool_description t) (tool_schema t) (tool_output_schema t) meta
                             (tool_handler_of t) (vis t) (required t)))
  end.

Definition mcp_tool_meta (tool : option mcp_tool_t) : option value :=
  match tool with None => None | Some t => tool_meta t end.

(** Named apart from the field it reads. *)
Definition mcp_tool_output_schema (tool : option mcp_tool_t) : option value :=
  match tool with None => None | Some t => tool_output_schema t end.

Definition mcp_tool_result_set_structured_content (result val : option value) : M (mcp_status_t * option value) :=
  match result, val with
  | Some _, Some _ => object_set_take result (cs "structuredContent") val
  | _, _ => builtin_destroy val ;; ret (MCP_ERR_INVALID_ARGUMENT, result)
  end.

Definition mcp_tool_result_get_structured_content (result : option value) : option value :=
  match result with None => None | Some _ => builtin_object_get result (Some (cs "structuredContent")) end.

(** [ctx] says whether the context pointer is not NULL; [v] is the number
    passed. *)
Definition mcp_tool_set_visibility (ctx : bool) (tool : option mcp_tool_t) (v : Z) : mcp_status_t * option mcp_tool_t :=
  match ctx, tool, v with
  | true, Some t, 0 | true, Some t, 1 | true, Some t, 2 =>
      (MCP_OK, Some (Tool (tool_name t) (tool_description t) (tool_schema t) (tool_output_schema t) (tool_meta t)
                       (tool_handler_of t)
                       (if v =? 0 then MCP_TOOL_VIS_MODEL else if v =? 1 then MCP_TOOL_VIS_APP else MCP_TOOL_VIS_BOTH)
                       (required t)))
  | _, _, _ => (MCP_ERR_INVALID_ARGUMENT, tool)
  end.

Definition mcp_tool_require_perms (ctx : bool) (tool : option mcp_tool_t) (perm_mask : Z)
    : mcp_status_t * option mcp_tool_t :=
  match ctx, tool with
  | true, Some t =>
      (MCP_OK, Some (Tool (tool_name t) (tool_description t) (tool_schema t) (tool_output_schema t) (tool_meta t)
                       (tool_handler_of t) (vis t) perm_mask))
  | _, _ => (MCP_ERR_INVALID_ARGUMENT, tool)
  end.

(** ** Resources *)

Definition mcp_resource_new (uri name mime_type_or_null : option bytes)
    (on_read : option (mcp_session_t -> bytes -> M handled_by)) : M (option mcp_resource_t) :=
  match uri, name with
  | Some uri, Some name =>
      ok <- xmalloc ;;
      if negb ok then ret None else
      u <- srv_strdup (Some uri) ;;
      n <- srv_strdup (Some name) ;;
      m <- srv_strdup mime_type_or_null ;;
      match u, n, mime_type_or_null, m with
      | Some u', Some n', None, _ | Some u', Some n', Some _, Some _ => ret (Some (Resource u' n' m on_read None))
      | _, _, _, _ => srv_free u ;; srv_free n ;; srv_free m ;; xfree false ;; ret None
      end
  | _, _ => ret None
  end.

Definition mcp_resource_destroy (res : option mcp_resource_t) : M unit :=
  match res with
  | None => ret tt
  | Some r =>
      (match cleanup r with Some f => f | None => ret tt end) ;;
      xfree false ;; xfree false ;; srv_free (res_mime_type r) ;; xfree false
  end.

Definition mcp_resource_set_cleanup (ctx : bool) (res : option mcp_resource_t) (fn_or_null : option (M unit))
    : mcp_status_t * option mcp_resource_t :=
  match ctx, res with
  | true, Some r => (MCP_OK, Some (Resource (res_uri r) (res_name r) (res_mime_type r) (on_read r) fn_or_null))
  | _, _ => (MCP_ERR_INVALID_ARGUMENT, res)
  end.

(** ** Prompts *)

Definition mcp_prompt_new (name description_or_null : option bytes)
    (on_get : option (mcp_session_t -> option value -> M handled_by)) : M (option mcp_prompt_t) :=
  match name with
  | Some name =>
      ok <- xmalloc ;;
      if negb ok then ret None else
      n <- srv_strdup (Some name) ;;
      d <- srv_strdup description_or_null ;;
      match n, description_or_null, d with
      | Some n', None, _ | Some n', Some _, Some _ => ret (Some (Prompt n' d on_get))
      | _, _, _ => srv_free n ;; srv_free d ;; xfree false ;; ret None
      end
  | None => ret None
  end.

Definition mcp_prompt_destroy (prompt : option mcp_prompt_t) : M unit :=
  match prompt with
  | None => ret tt
  | Some p => xfree false ;; srv_free (prompt_description p) ;; xfree false
  end.

(** ** Blocks *)

Definition tool_blocks (t : mcp_tool_t) : Z :=
  2 + oblock (tool_description t) + oblocks (tool_schema t) + oblocks (tool_output_schema t) + oblocks (tool_meta t).

Definition resource_blocks (r : mcp_resource_t) : Z := 3 + oblock (res_mime_type r).

Definition prompt_blocks (p : mcp_prompt_t) : Z := 2 + oblock (prompt_description p).

Lemma srv_free_hstep {A} (p : option A) h u h' : srv_free p h = (u, h') -> hstep h h' (- oblock p).
Proof. apply xfree_oblock. Qed.

Lemma tool_destroy_hstep t h u h' : mcp_tool_destroy (Some t) h = (u, h') -> hstep h h' (- tool_blocks t).
Proof.
  cbn [mcp_tool_destroy]. intros H. apply bind_inv in H as (? & h1 & E1 & H). apply bind_inv in H as (? & h2 & E2 & H).
  apply bind_inv in H as (? & h3 & E3 & H). apply bind_inv in H as (? & h4 & E4 & H). apply bind_inv in H as (? & h5 & E5 & H).
  apply srv_free_hstep in E2. apply builtin_destroy_hstep in E3, E4, E5. apply xfree_hstep in E1, H. unfold tool_blocks. hsolve.
Qed.

Lemma prompt_destroy_hstep p h u h' : mcp_prompt_destroy (Some p) h = (u, h') -> hstep h h' (- prompt_blocks p).
Proof.
  cbn [mcp_prompt_destroy]. intros H. apply bind_inv in H as (? & h1 & E1 & H). apply bind_inv in H as (? & h2 & E2 & H).
  apply srv_free_hstep in E2. apply xfree_hstep in E1, H. unfold prompt_blocks. hsolve.
Qed.

(** A resource whose clean-up callback, if any, leaves the block count
    alone (what it frees is the host's). *)
Definition tidy (r : mcp_resource_t) : Prop :=
  forall f h u h', cleanup r = Some f -> f h = (u, h') -> hstep h h' 0.

Lemma resource_destroy_hstep r h u h' :
  tidy r -> mcp_resource_destroy (Some r) h = (u, h') -> hstep h h' (- resource_blocks r).
Proof.
  cbn [mcp_resource_destroy]. intros Ht H. apply bind_inv in H as (? & h1 & E1 & H).
  assert (hstep h h1 0) as S1 by (destruct (cleanup r) eqn:E; [by eapply Ht|minv E1; apply hstep_refl]). clear E1.
  apply bind_inv in H as (? & h2 & E2 & H). apply bind_inv in H as (? & h3 & E3 & H).
  apply bind_inv in H as (? & h4 & E4 & H). apply srv_free_hstep in E4. apply xfree_hstep in E2, E3, H.
  unfold resource_blocks. hsolve.
Qed.

(** ** Constructors *)

Definition cname (s : option bytes) : option bytes := cstr <$> s.

(** A copied optional string. *)
Definition copied (s r : option bytes) : Prop := match s with None => r = None | Some s => r = Some (cstr s) end.

Lemma strdup_cases s h r h' :
  srv_strdup s h = (r, h') -> hstep h h' (oblock r) /\ (copied s r \/ (is_Some s /\ r = None /\ ~ ample h)).
Proof.
  intros H. apply strdup_spec in H as (Hs & Hv & Ha). split; [by destruct r|]. destruct s as [s|].
  - destruct r as [r|]; [left; by destruct (Hv r eq_refl) as (? & [= <-] & ->)|]. right. split; [done|]. split; [done|].
    intros A. destruct (Ha A) as [? ?]; done.
  - left. destruct r as [r|]; [|done]. by destruct (Hv r eq_refl) as (? & ? & _).
Qed.

Lemma tool_alloc_spec name description schema f fail h r h' g :
  tool_alloc name description schema f fail h = (r, h') -> gives_up g fail ->
  match r with
  | Some t => t = Tool (cstr name) (cname description) schema None None f MCP_TOOL_VIS_BOTH 0 /\
      hstep h h' (tool_blocks t - oblocks schema)
  | None => ~ ample h /\ hstep h h' (- g)
  end.
Proof.
  intros H Hg. unfold tool_alloc in H. apply bind_inv in H as (ok & h1 & E & H). pose proof E as E'. apply xmalloc_hstep in E.
  destruct ok; cbn [negb] in H.
  2: { destruct (Hg _ _ _ H) as [-> Hs]. split; [intros A; by apply xmalloc_ample_inv in E'|hsolve]. }
  apply bind_inv in H as (n & h2 & E2 & H). apply bind_inv in H as (d & h3 & E3 & H).
  apply strdup_cases in E2 as [S2 Hn], E3 as [S3 Hd].
  assert (forall r, (srv_free n ;; srv_free d ;; xfree false ;; fail) h3 = (r, h') -> r = None /\ hstep h h' (- g)) as Hfail.
  { intros r' H'. apply bind_inv in H' as (? & h4 & F1 & H'). apply bind_inv in H' as (? & h5 & F2 & H').
    apply bind_inv in H' as (? & h6 & F3 & H'). apply srv_free_hstep in F1, F2. apply xfree_hstep in F3.
    destruct (Hg _ _ _ H') as [-> Hs]. split; [done|]. hsolve. }
  assert (ample h -> copied (Some name) n /\ copied description d) as Hcopied.
  { intros A. pose proof (ample_hstep _ _ _ E A) as A1. pose proof (ample_hstep _ _ _ S2 A1) as A2.
    destruct Hn as [Hn|(_ & _ & Hn)]; [|done]. destruct Hd as [Hd|(_ & _ & Hd)]; done. }
  destruct n as [n|].
  - assert (n = cstr name) as ->.
    { destruct Hn as [Hn|(_ & ? & _)]; [|done]. simpl in Hn. congruence. }
    assert (cname description = d /\ ret (Some (Tool (cstr name) d schema None None f MCP_TOOL_VIS_BOTH 0)) h3 = (r, h') \/
            (~ ample h /\ (srv_free (Some (cstr name)) ;; srv_free d ;; xfree false ;; fail) h3 = (r, h'))) as [[<- H']|[Hna H']].
    { destruct description as [ds|]; [|left; destruct Hd as [Hd|([? ?] & _)]; [simpl in Hd; by subst d|done]].
      destruct d as [d|]; [left; destruct Hd as [Hd|(_ & ? & _)]; [simpl in Hd; simplify_eq; done|done]|]. right. split; [|done].
      intros A. by destruct (Hcopied A) as [_ ?]. }
    + minv H'. split; [done|]. eapply hstep_trans; [exact E|eapply hstep_trans; [exact S2|exact S3|reflexivity]|].
      unfold tool_blocks. cbn [tool_description tool_schema tool_output_schema tool_meta oblocks].
      change (oblock (Some (cstr name))) with 1. lia.
    + destruct (Hfail _ H') as [-> Hs]. by split.
  - assert ((srv_free None ;; srv_free d ;; xfree false ;; fail) h3 = (r, h')) as H' by (by destruct description).
    destruct (Hfail _ H') as [-> Hs]. split; [|done]. intros A. by destruct (Hcopied A) as [? _].
Qed.

(** ** Claims *)

(** A new tool holds copies of its strings and the schema, is visible to all
    hosts and needs no permission; the two constructors differ in what
    happens to the schema on failure: [mcp_tool_new] leaves it with the
    caller, [mcp_tool_new_v2] destroys it (the header says it is taken on
    MCP_OK only). *)
Theorem tool_new_contract name description schema f1 f2 h r1 h1 r2 h2 :
  mcp_tool_new (Some name) description schema (Some f1) h = (r1, h1) ->
  mcp_tool_new_v2 (Some name) description schema (Some f2) h = (r2, h2) ->
  match r1 with
  | Some t => t = Tool (cstr name) (cname description) schema None None (HandlerV1 f1) MCP_TOOL_VIS_BOTH 0 /\
      hstep h h1 (tool_blocks t - oblocks schema)
  | None => ~ ample h /\ hstep h h1 0
  end /\
  match r2 with
  | Some t => t = Tool (cstr name) (cname description) schema None None (HandlerV2 f2) MCP_TOOL_VIS_BOTH 0 /\
      hstep h h2 (tool_blocks t - oblocks schema)
  | None => ~ ample h /\ hstep h h2 (- oblocks schema)
  end.
Proof.
  intros H1 H2. split.
  - apply (tool_alloc_spec _ _ _ _ _ _ _ _ 0) in H1; [done|]. intros ? ? ? H. minv H. split; [done|hsolve].
  - apply (tool_alloc_spec _ _ _ _ _ _ _ _ (oblocks schema)) in H2; [done|]. intros ? ? ? H.
    apply bind_inv in H as (? & h3 & E & H). minv H. by apply builtin_destroy_hstep in E.
Qed.
