(* ===== verification/Server.v ===== *)
(** * The server object (src/server/server.c)

    The registries of tools, resources, prompts and completion providers,
    the outbox of messages for the client, the optional extensions, and the
    life of the server.  The dispatcher's part of [struct mcp_server]
    (counters, log floor, tracer) is in Dispatcher.v; the rest is
    [server_rest] here, and the two together are a [server]. *)
From stdpp Require Import gmap.
From S2P Require Import Prelude Heap Utf8 Double JsonValue JsonParse JsonSerialize JsonApi Schema Message Validate Builders Tasks Skills Session Dispatcher Registry.

Local Open Scope Z_scope.

Record mcp_completion_entry_t := Completion {
  ref_prefix : bytes;
  provider : mcp_session_t -> option value -> M (option value * mcp_session_t);
}.

(** [struct mcp_server] without the dispatcher's part.  A growing array is
    the list of its entries and its capacity. *)
Record server_rest := Rest {
  srv_name : bytes;
  srv_version : bytes;
  tools : list mcp_tool_t;
  cap_tools : nat;
  resources : list mcp_resource_t;
  cap_resources : nat;
  prompts : list mcp_prompt_t;
  cap_prompts : nat;
  completions : list mcp_completion_entry_t;
  cap_completions : nat;
  srv_sessions : session_list;
  c_tools_called : Z;
  outbox : list mcp_message_t;
  cap_outbox : nat;
  next_server_id : Z;
  subscribed_uris : list bytes;
  cap_subscribed : nat;
  list_ttl_ms : Z;
  list_cache_scope : option bytes;
  response_meta : option value;
  task_mgr : option mcp_task_mgr_t;
  skill_reg : option mcp_skill_registry_t;
}.

Definition server : Type := mcp_server_t server_rest.

Definition set_tools (l : list mcp_tool_t) (c : nat) (s : server_rest) : server_rest :=
  Rest (srv_name s) (srv_version s) l c (resources s) (cap_resources s) (prompts s) (cap_prompts s)
    (completions s) (cap_completions s) (srv_sessions s) (c_tools_called s) (outbox s) (cap_outbox s) (next_server_id s)
    (subscribed_uris s) (cap_subscribed s) (list_ttl_ms s) (list_cache_scope s) (response_meta s) (task_mgr s) (skill_reg s).

Definition set_resources (l : list mcp_resource_t) (c : nat) (s : server_rest) : server_rest :=
  Rest (srv_name s) (srv_version s) (tools s) (cap_tools s) l c (prompts s) (cap_prompts s)
    (completions s) (cap_completions s) (srv_sessions s) (c_tools_called s) (outbox s) (cap_outbox s) (next_server_id s)
    (subscribed_uris s) (cap_subscribed s) (list_ttl_ms s) (list_cache_scope s) (response_meta s) (task_mgr s) (skill_reg s).

Definition set_prompts (l : list mcp_prompt_t) (c : nat) (s : server_rest) : server_rest :=
  Rest (srv_name s) (srv_version s) (tools s) (cap_tools s) (resources s) (cap_resources s) l c
    (completions s) (cap_completions s) (srv_sessions s) (c_tools_called s) (outbox s) (cap_outbox s) (next_server_id s)
    (subscribed_uris s) (cap_subscribed s) (list_ttl_ms s) (list_cache_scope s) (response_meta s) (task_mgr s) (skill_reg s).

Definition set_completions (l : list mcp_completion_entry_t) (c : nat) (s : server_rest) : server_rest :=
  Rest (srv_name s) (srv_version s) (tools s) (cap_tools s) (resources s) (cap_resources s) (prompts s) (cap_prompts s)
    l c (srv_sessions s) (c_tools_called s) (outbox s) (cap_outbox s) (next_server_id s)
    (subscribed_uris s) (cap_subscribed s) (list_ttl_ms s) (list_cache_scope s) (response_meta s) (task_mgr s) (skill_reg s).

Definition set_tools_called (n : Z) (s : server_rest) : server_rest :=
  Rest (srv_name s) (srv_version s) (tools s) (cap_tools s) (resources s) (cap_resources s) (prompts s) (cap_prompts s)
    (completions s) (cap_completions s) (srv_sessions s) n (outbox s) (cap_outbox s) (next_server_id s)
    (subscribed_uris s) (cap_subscribed s) (list_ttl_ms s) (list_cache_scope s) (response_meta s) (task_mgr s) (skill_reg s).

Definition set_outbox (l : list mcp_message_t) (c : nat) (s : server_rest) : server_rest :=
  Rest (srv_name s) (srv_version s) (tools s) (cap_tools s) (resources s) (cap_resources s) (prompts s) (cap_prompts s)
    (completions s) (cap_completions s) (srv_sessions s) (c_tools_called s) l c (next_server_id s)
    (subscribed_uris s) (cap_subscribed s) (list_ttl_ms s) (list_cache_scope s) (response_meta s) (task_mgr s) (skill_reg s).

Definition set_next_id (n : Z) (s : server_rest) : server_rest :=
  Rest (srv_name s) (srv_version s) (tools s) (cap_tools s) (resources s) (cap_resources s) (prompts s) (cap_prompts s)
    (completions s) (cap_completions s) (srv_sessions s) (c_tools_called s) (outbox s) (cap_outbox s) n
    (subscribed_uris s) (cap_subscribed s) (list_ttl_ms s) (list_cache_scope s) (response_meta s) (task_mgr s) (skill_reg s).

Definition set_subscribed (l : list bytes) (c : nat) (s : server_rest) : server_rest :=
  Rest (srv_name s) (srv_version s) (tools s) (cap_tools s) (resources s) (cap_resources s) (prompts s) (cap_prompts s)
    (completions s) (cap_completions s) (srv_sessions s) (c_tools_called s) (outbox s) (cap_outbox s) (next_server_id s)
    l c (list_ttl_ms s) (list_cache_scope s) (response_meta s) (task_mgr s) (skill_reg s).

Definition set_cache (ttl : Z) (scope : option bytes) (s : server_rest) : server_rest :=
  Rest (srv_name s) (srv_version s) (tools s) (cap_tools s) (resources s) (cap_resources s) (prompts s) (cap_prompts s)
    (completions s) (cap_completions s) (srv_sessions s) (c_tools_called s) (outbox s) (cap_outbox s) (next_server_id s)
    (subscribed_uris s) (cap_subscribed s) ttl scope (response_meta s) (task_mgr s) (skill_reg s).

Definition set_response_meta (m : option value) (s : server_rest) : server_rest :=
  Rest (srv_name s) (srv_version s) (tools s) (cap_tools s) (resources s) (cap_resources s) (prompts s) (cap_prompts s)
    (completions s) (cap_completions s) (srv_sessions s) (c_tools_called s) (outbox s) (cap_outbox s) (next_server_id s)
    (subscribed_uris s) (cap_subscribed s) (list_ttl_ms s) (list_cache_scope s) m (task_mgr s) (skill_reg s).

Definition set_task_mgr (m : option mcp_task_mgr_t) (s : server_rest) : server_rest :=
  Rest (srv_name s) (srv_version s) (tools s) (cap_tools s) (resources s) (cap_resources s) (prompts s) (cap_prompts s)
    (completions s) (cap_completions s) (srv_sessions s) (c_tools_called s) (outbox s) (cap_outbox s) (next_server_id s)
    (subscribed_uris s) (cap_subscribed s) (list_ttl_ms s) (list_cache_scope s) (response_meta s) m (skill_reg s).

Definition set_skill_reg (r : option mcp_skill_registry_t) (s : server_rest) : server_rest :=
  Rest (srv_name s) (srv_version s) (tools s) (cap_tools s) (resources s) (cap_resources s) (prompts s) (cap_prompts s)
    (completions s) (cap_completions s) (srv_sessions s) (c_tools_called s) (outbox s) (cap_outbox s) (next_server_id s)
    (subscribed_uris s) (cap_subscribed s) (list_ttl_ms s) (list_cache_scope s) (response_meta s) (task_mgr s) r.

(** The server with its other part changed. *)
Definition with_rest (srv : server) (r : server_rest) : server :=
  Server (c_requests_total srv) (c_requests_error srv) (c_notifications_total srv) (log_floor srv) (tracer srv)
    (logs srv) (traces srv) r.

(** ** Arrays of pointers *)

(** [append_ptr]. *)
Definition append_ptr {A} (l : list A) (cap : nat) (p : A) : M (mcp_status_t * (list A * nat)) :=
  if Nat.eqb (length l) cap then
    ok <- xrealloc (isnull0 cap) ;;
    if negb ok then ret (MCP_ERR_NOMEM, (l, cap)) else ret (MCP_OK, (l ++ [p], grow_cap cap))
  else ret (MCP_OK, (l ++ [p], cap)).

(** The index of the first entry whose key is the given string. *)
Fixpoint find_by {A} (key : A -> bytes) (l : list A) (k : bytes) : option nat :=
  match l with
  | [] => None
  | x :: l' => if streq (key x) k then Some O else S <$> find_by key l' k
  end.

(** [arr[i] = arr[--n]]. *)
Definition swap_remove {A} (i : nat) (l : list A) : list A :=
  let n := (length l - 1)%nat in
  take n (match l !! n with Some last => <[i := last]> l | None => l end).

Definition lookup_by {A} (key : A -> bytes) (l : list A) (k : bytes) : option A := find_by key l k ≫= fun i => l !! i.

Definition find_tool (srv : server_rest) (name : bytes) : option mcp_tool_t := lookup_by tool_name (tools srv) name.
Definition find_resource (srv : server_rest) (uri : bytes) : option mcp_resource_t := lookup_by res_uri (resources srv) uri.
Definition find_prompt (srv : server_rest) (name : bytes) : option mcp_prompt_t := lookup_by prompt_name (prompts srv) name.

(** ** Registration *)

Definition mcp_server_add_tool (srv : option server_rest) (tool : option mcp_tool_t) : M (mcp_status_t * option server_rest) :=
  match srv, tool with
  | Some s, Some t =>
      match find_tool s (tool_name t) with
      | Some _ => ret (MCP_ERR_ALREADY_EXISTS, srv)
      | None => r <- append_ptr (tools s) (cap_tools s) t ;; ret (r.1, Some (set_tools r.2.1 r.2.2 s))
      end
  | _, _ => ret (MCP_ERR_INVALID_ARGUMENT, srv)
  end.

Definition mcp_server_add_resource (srv : option server_rest) (res : option mcp_resource_t)
    : M (mcp_status_t * option server_rest) :=
  match srv, res with
  | Some s, Some t =>
      match find_resource s (res_uri t) with
      | Some _ => ret (MCP_ERR_ALREADY_EXISTS, srv)
      | None => r <- append_ptr (resources s) (cap_resources s) t ;; ret (r.1, Some (set_resources r.2.1 r.2.2 s))
      end
  | _, _ => ret (MCP_ERR_INVALID_ARGUMENT, srv)
  end.

Definition mcp_server_add_prompt (srv : option server_rest) (prompt : option mcp_prompt_t)
    : M (mcp_status_t * option server_rest) :=
  match srv, prompt with
  | Some s, Some t =>
      match find_prompt s (prompt_name t) with
      | Some _ => ret (MCP_ERR_ALREADY_EXISTS, srv)
      | None => r <- append_ptr (prompts s) (cap_prompts s) t ;; ret (r.1, Some (set_prompts r.2.1 r.2.2 s))
      end
  | _, _ => ret (MCP_ERR_INVALID_ARGUMENT, srv)
  end.

Definition mcp_server_remove_tool (srv : option server_rest) (name : option bytes) : M (mcp_status_t * option server_rest) :=
  match srv, name with
  | Some s, Some name =>
      match find_by tool_name (tools s) name with
      | None => ret (MCP_ERR_NOT_FOUND, srv)
      | Some i => mcp_tool_destroy (tools s !! i) ;; ret (MCP_OK, Some (set_tools (swap_remove i (tools s)) (cap_tools s) s))
      end
  | _, _ => ret (MCP_ERR_INVALID_ARGUMENT, srv)
  end.

Definition mcp_server_remove_resource (srv : option server_rest) (uri : option bytes) : M (mcp_status_t * option server_rest) :=
  match srv, uri with
  | Some s, Some uri =>
      match find_by res_uri (resources s) uri with
      | None => ret (MCP_ERR_NOT_FOUND, srv)
      | Some i =>
          mcp_resource_destroy (resources s !! i) ;;
          ret (MCP_OK, Some (set_resources (swap_remove i (resources s)) (cap_resources s) s))
      end
  | _, _ => ret (MCP_ERR_INVALID_ARGUMENT, srv)
  end.

Definition mcp_server_remove_prompt (srv : option server_rest) (name : option bytes) : M (mcp_status_t * option server_rest) :=
  match srv, name with
  | Some s, Some name =>
      match find_by prompt_name (prompts s) name with
      | None => ret (MCP_ERR_NOT_FOUND, srv)
      | Some i =>
          mcp_prompt_destroy (prompts s !! i) ;;
          ret (MCP_OK, Some (set_prompts (swap_remove i (prompts s)) (cap_prompts s) s))
      end
  | _, _ => ret (MCP_ERR_INVALID_ARGUMENT, srv)
  end.

Definition mcp_server_register_completion_provider (srv : option server_rest) (prefix : option bytes)
    (fn : option (mcp_session_t -> option value -> M (option value * mcp_session_t)))
    : M (mcp_status_t * option server_rest) :=
  match srv, prefix, fn with
  | Some s, Some prefix, Some fn =>
      match find_by ref_prefix (completions s) prefix with
      | Some _ => ret (MCP_ERR_ALREADY_EXISTS, srv)
      | None =>
          let store cap :=
            copy <- srv_strdup (Some prefix) ;;
            match copy with
            | None => ret (MCP_ERR_NOMEM, Some (set_completions (completions s) cap s))
            | Some copy => ret (MCP_OK, Some (set_completions (completions s ++ [Completion copy fn]) cap s))
            end in
          if Nat.eqb (length (completions s)) (cap_completions s) then
            ok <- xrealloc (isnull0 (cap_completions s)) ;;
            if negb ok then ret (MCP_ERR_NOMEM, srv) else store (grow_cap (cap_completions s))
          else store (cap_completions s)
      end
  | _, _, _ => ret (MCP_ERR_INVALID_ARGUMENT, srv)
  end.

Definition mcp_server_remove_completion_provider (srv : option server_rest) (prefix : option bytes)
    : M (mcp_status_t * option server_rest) :=
  match srv, prefix with
  | Some s, Some prefix =>
      match find_by ref_prefix (completions s) prefix with
      | None => ret (MCP_ERR_NOT_FOUND, srv)
      | Some i =>
          xfree false ;; ret (MCP_OK, Some (set_completions (swap_remove i (completions s)) (cap_completions s) s))
      end
  | _, _ => ret (MCP_ERR_INVALID_ARGUMENT, srv)
  end.

(** ** The outbox *)

Definition outbox_push (s : server_rest) (msg : mcp_message_t) : M (mcp_status_t * server_rest) :=
  if Nat.eqb (length (outbox s)) (cap_outbox s) then
    ok <- xrealloc (isnull0 (cap_outbox s)) ;;
    if negb ok then mcp_message_destroy (Some msg) ;; ret (MCP_ERR_NOMEM, s) else
    ret (MCP_OK, set_outbox (outbox s ++ [msg]) (grow_cap (cap_outbox s)) s)
  else ret (MCP_OK, set_outbox (outbox s ++ [msg]) (cap_outbox s) s).

(** [out] is [out != NULL]; the status, [*out] and the server.  The entry
    taken is the last one. *)
Definition mcp_server_outbox_pop (srv : option server_rest) (out : bool)
    : mcp_status_t * option mcp_message_t * option server_rest :=
  match srv, out with
  | Some s, true =>
      match last (outbox s) with
      | None => (MCP_ERR_NOT_FOUND, None, srv)
      | Some m => (MCP_OK, Some m, Some (set_outbox (take (length (outbox s) - 1) (outbox s)) (cap_outbox s) s))
      end
  | _, _ => (MCP_ERR_INVALID_ARGUMENT, None, srv)
  end.

(** [None] where the filter compares a NULL uri. *)
Definition mcp_server_session_notify (srv : option server_rest) (session : option mcp_session_t) (method : option bytes)
    (params : option value) : M (option (mcp_status_t * option server_rest)) :=
  match srv, method with
  | Some s, Some _ =>
      r <- mcp_session_build_notification session method params ;;
      match r with
      | None => ret None
      | Some (MCP_OK, Some notif) => p <- outbox_push s notif ;; ret (Some (p.1, Some p.2))
      | Some (st, _) => ret (Some (st, srv))
      end
  | _, _ => ret (Some (MCP_ERR_INVALID_ARGUMENT, srv))
  end.

(** [resp_out] is [resp_out != NULL]: the status, [*resp_out], the server
    and the session. *)
Definition mcp_server_session_close_subscription (srv : option server_rest) (session : option mcp_session_t) (resp_out : bool)
    : M (mcp_status_t * option mcp_message_t * option server_rest * option mcp_session_t) :=
  match srv, session with
  | Some s, Some _ =>
      r <- mcp_session_build_subscription_closure session ;;
      match r with
      | (MCP_OK, Some resp, session) =>
          if resp_out then ret (MCP_OK, Some resp, srv, session) else
          p <- outbox_push s resp ;; ret (p.1, None, Some p.2, session)
      | (st, _, session) => ret (st, None, srv, session)
      end
  | _, _ => ret (MCP_ERR_INVALID_ARGUMENT, None, srv, session)
  end.

(** The fast path for the only session, when it has a subscription; [store]
    is where the sessions live. *)
Definition fast_session (store : gmap nat mcp_session_t) (s : server_rest) : option mcp_session_t :=
  match sessions (srv_sessions s) with
  | [a] => match store !! a with
           | Some ss => if subscription_active ss then Some ss else None
           | None => None
           end
  | _ => None
  end.

Definition mcp_server_notify_client (store : gmap nat mcp_session_t) (srv : option server_rest) (method : option bytes)
    (params : option value) : M (option (mcp_status_t * option server_rest)) :=
  match srv, method with
  | Some s, Some _ =>
      match fast_session store s with
      | Some ss => mcp_server_session_notify srv (Some ss) method params
      | None =>
          notif <- mcp_notification_new method params ;;
          match notif with
          | None => ret (Some (MCP_ERR_NOMEM, srv))
          | Some notif => p <- outbox_push s notif ;; ret (Some (p.1, Some p.2))
          end
      end
  | _, _ => ret (Some (MCP_ERR_INVALID_ARGUMENT, srv))
  end.

Definition mcp_server_request_client (srv : option server_rest) (method : option bytes) (params : option value)
    : M (mcp_status_t * option server_rest) :=
  match srv, method with
  | Some s, Some _ =>
      let id := next_server_id s in
      let s := set_next_id (inc64 id) s in
      req <- mcp_request_new_number_id (double_of_Z id) method params ;;
      match req with
      | None => ret (MCP_ERR_NOMEM, Some s)
      | Some req => p <- outbox_push s req ;; ret (p.1, Some p.2)
      end
  | _, _ => ret (MCP_ERR_INVALID_ARGUMENT, srv)
  end.

(** ** Settings *)

Definition mcp_server_set_list_cache (srv : option server_rest) (ttl_ms : Z) (cache_scope_or_null : option bytes)
    : M (mcp_status_t * option server_rest) :=
  match srv with
  | None => ret (MCP_ERR_INVALID_ARGUMENT, None)
  | Some s =>
      let s := set_cache ttl_ms (list_cache_scope s) s in
      scope_copy <- srv_strdup cache_scope_or_null ;;
      match cache_scope_or_null, scope_copy with
      | Some _, None => ret (MCP_ERR_NOMEM, Some s)
      | _, _ => srv_free (list_cache_scope s) ;; ret (MCP_OK, Some (set_cache ttl_ms scope_copy s))
      end
  end.

Definition mcp_server_set_response_meta (srv : option server_rest) (meta_json : option value)
    : M (mcp_status_t * option server_rest) :=
  match srv with
  | None => ret (MCP_ERR_INVALID_ARGUMENT, None)
  | Some s =>
      clone <- (match meta_json with Some _ => json_clone meta_json | None => ret None end) ;;
      match meta_json, clone with
      | Some _, None => ret (MCP_ERR_NOMEM, srv)
      | _, _ => builtin_destroy (response_meta s) ;; ret (MCP_OK, Some (set_response_meta clone s))
      end
  end.

Definition mcp_server_enable_tasks (srv : option server_rest) : M (mcp_status_t * option server_rest) :=
  match srv with
  | None => ret (MCP_ERR_INVALID_ARGUMENT, None)
  | Some s =>
      match task_mgr s with
      | Some _ => ret (MCP_OK, srv)
      | None =>
          m <- mcp_task_mgr_new ;;
          ret (match m with Some _ => MCP_OK | None => MCP_ERR_NOMEM end, Some (set_task_mgr m s))
      end
  end.

Definition mcp_server_get_task_mgr (srv : option server_rest) : option mcp_task_mgr_t :=
  match srv with Some s => task_mgr s | None => None end.

Definition mcp_server_enable_skills (srv : option server_rest) : M (mcp_status_t * option server_rest) :=
  match srv with
  | None => ret (MCP_ERR_INVALID_ARGUMENT, None)
  | Some s =>
      match skill_reg s with
      | Some _ => ret (MCP_OK, srv)
      | None =>
          m <- mcp_skill_registry_new ;;
          ret (match m with Some _ => MCP_OK | None => MCP_ERR_NOMEM end, Some (set_skill_reg m s))
      end
  end.

Definition mcp_server_get_skill_registry (srv : option server_rest) : option mcp_skill_registry_t :=
  match srv with Some s => skill_reg s | None => None end.

(** The snapshot of the counters; [out] is [out != NULL]. *)
Definition mcp_server_counters (srv : option server) (out : bool) : mcp_status_t * option (Z * Z * Z * Z) :=
  match srv, out with
  | Some s, true =>
      (MCP_OK, Some (c_requests_total s, c_requests_error s, c_notifications_total s, c_tools_called (rest s)))
  | _, _ => (MCP_ERR_INVALID_ARGUMENT, None)
  end.

(** [fn] is [fn_or_null != NULL]. *)
Definition mcp_server_set_tracer (srv : option server) (fn : bool) : mcp_status_t * option server :=
  match srv with
  | None => (MCP_ERR_INVALID_ARGUMENT, None)
  | Some s =>
      (MCP_OK, Some (Server (c_requests_total s) (c_requests_error s) (c_notifications_total s) (log_floor s) fn
                       (logs s) (traces s) (rest s)))
  end.

(** ** Creation and destruction *)

Definition empty_rest (name version : bytes) : server_rest :=
  Rest name version [] 0 [] 0 [] 0 [] 0 (Sessions [] 0) 0 [] 0 1000 [] 0 0 None None None None.

Definition mcp_server_create (name version : option bytes) : M (option server) :=
  match name, version with
  | Some name, Some version =>
      ok <- xmalloc ;;
      if negb ok then ret None else
      n <- srv_strdup (Some name) ;;
      v <- srv_strdup (Some version) ;;
      match n, v with
      | Some n, Some v => ret (Some (Server 0 0 0 MCP_LOG_DEBUG false [] [] (empty_rest n v)))
      | _, _ => srv_free n ;; srv_free v ;; xfree false ;; ret None
      end
  | _, _ => ret None
  end.

Fixpoint each {A} (f : A -> M unit) (l : list A) : M unit :=
  match l with [] => ret tt | x :: l' => f x ;; each f l' end.

Definition free_all_tools (s : server_rest) : M unit :=
  each (fun t => mcp_tool_destroy (Some t)) (tools s) ;; xfree (isnull0 (cap_tools s)).

Definition free_all_resources (s : server_rest) : M unit :=
  each (fun r => mcp_resource_destroy (Some r)) (resources s) ;; xfree (isnull0 (cap_resources s)).

Definition free_all_prompts (s : server_rest) : M unit :=
  each (fun p => mcp_prompt_destroy (Some p)) (prompts s) ;; xfree (isnull0 (cap_prompts s)).

Definition free_all_sessions (store : gmap nat mcp_session_t) (s : server_rest) : M unit :=
  each (fun a => session_free (store !! a)) (sessions (srv_sessions s)) ;; xfree (isnull0 (cap_sessions (srv_sessions s))).

Definition free_all_completions (s : server_rest) : M unit :=
  each (fun _ => xfree false) (completions s) ;; xfree (isnull0 (cap_completions s)).

Definition free_outbox (s : server_rest) : M unit :=
  each (fun m => mcp_message_destroy (Some m)) (outbox s) ;; xfree (isnull0 (cap_outbox s)).

Definition free_subscribed (s : server_rest) : M unit :=
  each (fun _ => xfree false) (subscribed_uris s) ;; xfree (isnull0 (cap_subscribed s)).

Definition mcp_server_destroy (store : gmap nat mcp_session_t) (srv : option server) : M unit :=
  match srv with
  | None => ret tt
  | Some srv =>
      let s := rest srv in
      free_all_sessions store s ;;
      free_all_tools s ;;
      free_all_resources s ;;
      free_all_prompts s ;;
      free_all_completions s ;;
      free_outbox s ;;
      free_subscribed s ;;
      mcp_task_mgr_free (task_mgr s) ;;
      mcp_skill_registry_free (skill_reg s) ;;
      builtin_destroy (response_meta s) ;;
      srv_free (list_cache_scope s) ;;
      xfree false ;; xfree false ;; xfree false
  end.

(** ** Keyed arrays as finite maps *)

Definition sum_blocks {A} (f : A -> Z) (l : list A) : Z := foldr (fun x n => f x + n) 0 l.

Lemma sum_blocks_app {A} (f : A -> Z) l1 l2 : sum_blocks f (l1 ++ l2) = sum_blocks f l1 + sum_blocks f l2.
Proof. unfold sum_blocks. induction l1 as [|x l IH]; simpl; [done|]. rewrite IH. lia. Qed.

Lemma sum_blocks_perm {A} (f : A -> Z) l1 l2 : Permutation l1 l2 -> sum_blocks f l1 = sum_blocks f l2.
Proof. unfold sum_blocks. induction 1; simpl; lia. Qed.

Lemma swap_remove_perm {A} (l : list A) i x : l !! i = Some x -> Permutation (x :: swap_remove i l) l.
Proof.
  intros Hi. unfold swap_remove. pose proof (lookup_lt_Some _ _ _ Hi) as Hlt.
  destruct l as [|z l0 _] using rev_ind; [done|]. rewrite length_app in *. cbn [length] in *.
  replace (length l0 + 1 - 1)%nat with (length l0) by lia. rewrite lookup_app_r, Nat.sub_diag by lia. simpl.
  destruct (decide (i = length l0)) as [->|Hne].
  - rewrite lookup_app_r, Nat.sub_diag in Hi by lia. simpl in Hi. simplify_eq.
    rewrite insert_app_r_alt, Nat.sub_diag by lia. simpl. rewrite take_app_length. by rewrite Permutation_cons_append.
  - rewrite insert_app_l by lia. rewrite take_app_length' by (by rewrite length_insert).
    rewrite lookup_app_l in Hi by lia. rewrite <- (take_drop_middle l0 i x Hi) at 2.
    rewrite insert_take_drop by lia. rewrite <- app_assoc. simpl.
    rewrite Permutation_middle. apply Permutation_app_head. apply perm_skip. by rewrite Permutation_cons_append.
Qed.

Lemma grow_cap_gt n c : (n <= c)%nat -> (n < grow_cap c)%nat.
Proof. intros H. unfold grow_cap. destruct (Nat.eqb_spec c 0); lia. Qed.

Lemma grow_cap_buffer c : buffer (grow_cap c) - buffer c = (if isnull0 c then 1 else 0).
Proof.
  unfold buffer, isnull0, grow_cap. destruct (Nat.eqb_spec c 0) as [->|Hne]; [done|].
  rewrite (proj2 (Nat.eqb_neq (c * 2) 0)) by lia. lia.
Qed.

Section keyed.
Context {A : Type} (key : A -> bytes).

Definition keyed_by (x : A) : bytes * A := (key x, x).

Definition map_of (l : list A) : gmap bytes A := list_to_map (keyed_by <$> l).

Record array_inv (l : list A) (cap : nat) : Prop := ArrayInv {
  keys_clean : Forall (fun x => has_nul (key x) = false) l;
  keys_nodup : NoDup (key <$> l);
  array_room : (length l <= cap)%nat;
}.

Lemma fst_keyed_by l : (keyed_by <$> l).*1 = key <$> l.
Proof. by rewrite <- list_fmap_compose. Qed.

Lemma find_by_spec l k :
  Forall (fun x => has_nul (key x) = false) l -> has_nul k = false ->
  match find_by key l k with
  | Some i => exists x, l !! i = Some x /\ key x = k
  | None => k ∉ (key <$> l)
  end.
Proof.
  intros Hl Hk. induction Hl as [|x l Hx Hl IH]; cbn [find_by]; [apply not_elem_of_nil|].
  rewrite streq_no_nul by done. case_bool_decide as He; [by exists x|].
  destruct (find_by key l k) as [i|]; simpl; [done|]. apply not_elem_of_cons. split; [congruence|done].
Qed.

Lemma map_of_lookup l k x : NoDup (key <$> l) -> x ∈ l -> key x = k -> map_of l !! k = Some x.
Proof.
  intros Hnd Hx <-. apply elem_of_list_to_map; [by rewrite fst_keyed_by|]. apply list_elem_of_fmap. by exists x.
Qed.

Lemma map_of_fresh l k : k ∉ (key <$> l) -> map_of l !! k = None.
Proof. intros Hn. apply not_elem_of_list_to_map. by rewrite fst_keyed_by. Qed.

Lemma lookup_by_map l cap k : array_inv l cap -> has_nul k = false -> lookup_by key l k = map_of l !! k.
Proof.
  intros [Hc Hnd _] Hk. unfold lookup_by. pose proof (find_by_spec l k Hc Hk) as Hf. destruct (find_by key l k) as [i|]; simpl.
  - destruct Hf as (x & Hi & He). rewrite Hi. symmetry. apply map_of_lookup; [done| |done]. by eapply list_elem_of_lookup_2.
  - by rewrite map_of_fresh.
Qed.

Lemma find_by_none l cap k : array_inv l cap -> has_nul k = false -> find_by key l k = None <-> map_of l !! k = None.
Proof.
  intros Hi Hk. rewrite <- (lookup_by_map l cap k Hi Hk). unfold lookup_by.
  pose proof (find_by_spec l k (keys_clean _ _ Hi) Hk) as Hf. destruct (find_by key l k) as [i|]; simpl; [|done].
  destruct Hf as (x & -> & _). done.
Qed.

(** Appending a pointer under a fresh key. *)
Lemma append_ptr_spec l cap x h st l' cap' h' :
  append_ptr l cap x h = ((st, (l', cap')), h') -> array_inv l cap -> has_nul (key x) = false -> map_of l !! key x = None ->
  array_inv l' cap' /\ hstep h h' (buffer cap' - buffer cap) /\
  ((st = MCP_OK /\ l' = l ++ [x] /\ map_of l' = <[key x := x]> (map_of l)) \/
   (st = MCP_ERR_NOMEM /\ l' = l /\ ~ ample h)).
Proof.
  intros H [Hc Hnd Hr] Hx Hf.
  assert (key x ∉ (key <$> l)) as Hfresh.
  { intros Hin. apply list_elem_of_fmap in Hin as (y & Hy & Hin). rewrite (map_of_lookup l (key x) y) in Hf; done. }
  assert (forall c, (length l < c)%nat -> array_inv (l ++ [x]) c /\ map_of (l ++ [x]) = <[key x := x]> (map_of l)) as Hsnoc.
  { intros c Hlt. split; [split|].
    - apply Forall_app. split; [done|by apply Forall_singleton].
    - rewrite fmap_app. apply NoDup_app. split; [done|]. split; [|by apply NoDup_singleton].
      intros k Hin Hk. apply list_elem_of_singleton in Hk as ->. done.
    - rewrite length_app. simpl. lia.
    - unfold map_of. rewrite fmap_app, list_to_map_app. simpl. rewrite <- insert_union_r by (by apply map_of_fresh).
      by rewrite (right_id_L ∅ (∪)). }
  unfold append_ptr in H. destruct (Nat.eqb (length l) cap) eqn:E; bool_props.
  - apply bind_inv in H as (ok & h1 & Er & H). pose proof Er as Er'. apply xrealloc_hstep in Er. destruct ok; cbn [negb] in H; minv H; simplify_eq.
    + destruct (Hsnoc (grow_cap (length l))) as [? ?]; [by apply grow_cap_gt|].
      split; [done|]. split; [|left; done]. eapply hstep_eq; [exact Er|]. by rewrite grow_cap_buffer.
    + split; [done|]. split; [eapply hstep_eq; [exact Er|lia]|]. right. split; [done|]. split; [done|].
      intros Ha. by apply xrealloc_ample_inv in Er'.
  - minv H. simplify_eq. destruct (Hsnoc cap) as [? ?]; [lia|]. split; [done|]. split; [hsolve|]. by left.
Qed.

(** Removing by swapping with the last entry. *)
Lemma swap_remove_spec l cap i x :
  array_inv l cap -> l !! i = Some x ->
  array_inv (swap_remove i l) cap /\ map_of (swap_remove i l) = delete (key x) (map_of l).
Proof.
  intros [Hc Hnd Hr] Hi. pose proof (swap_remove_perm l i x Hi) as Hp.
  assert (NoDup (key <$> (x :: swap_remove i l))) as Hnd' by (by rewrite Hp).
  pose proof Hnd' as [Hfresh Hnd'']%NoDup_cons. split; [split|].
  - assert (Forall (fun x => has_nul (key x) = false) (x :: swap_remove i l)) as [_ ?]%Forall_cons by (by rewrite Hp). done.
  - done.
  - apply Permutation_length in Hp. simpl in Hp. lia.
  - assert (map_of l = map_of (x :: swap_remove i l)) as ->.
    { apply list_to_map_proper; [by rewrite fst_keyed_by|]. by rewrite Hp. }
    unfold map_of. simpl. rewrite delete_insert_id; [done|]. by apply map_of_fresh.
Qed.
End keyed.

(** ** Blocks of a server *)

Definition rest_size (s : server_rest) : Z :=
  2 + (sum_blocks tool_blocks (tools s) + buffer (cap_tools s))
  + (sum_blocks resource_blocks (resources s) + buffer (cap_resources s))
  + (sum_blocks prompt_blocks (prompts s) + buffer (cap_prompts s))
  + (Z.of_nat (length (completions s)) + buffer (cap_completions s))
  + buffer (cap_sessions (srv_sessions s))
  + (sum_blocks msg_blocks (outbox s) + buffer (cap_outbox s))
  + (Z.of_nat (length (subscribed_uris s)) + buffer (cap_subscribed s))
  + oblock (list_cache_scope s) + oblocks (response_meta s)
  + from_option mgr_blocks 0 (task_mgr s) + from_option registry_blocks 0 (skill_reg s).

Lemma size_set_tools l c s :
  rest_size (set_tools l c s) = rest_size s + (sum_blocks tool_blocks l - sum_blocks tool_blocks (tools s)) + (buffer c - buffer (cap_tools s)).
Proof. unfold rest_size, set_tools. cbn [srv_name srv_version tools cap_tools resources cap_resources prompts cap_prompts completions cap_completions srv_sessions outbox cap_outbox subscribed_uris cap_subscribed list_cache_scope response_meta task_mgr skill_reg]. lia. Qed.

Lemma size_set_resources l c s :
  rest_size (set_resources l c s) =
  rest_size s + (sum_blocks resource_blocks l - sum_blocks resource_blocks (resources s)) + (buffer c - buffer (cap_resources s)).
Proof. unfold rest_size, set_resources. cbn [srv_name srv_version tools cap_tools resources cap_resources prompts cap_prompts completions cap_completions srv_sessions outbox cap_outbox subscribed_uris cap_subscribed list_cache_scope response_meta task_mgr skill_reg]. lia. Qed.

Lemma size_set_prompts l c s :
  rest_size (set_prompts l c s) =
  rest_size s + (sum_blocks prompt_blocks l - sum_blocks prompt_blocks (prompts s)) + (buffer c - buffer (cap_prompts s)).
Proof. unfold rest_size, set_prompts. cbn [srv_name srv_version tools cap_tools resources cap_resources prompts cap_prompts completions cap_completions srv_sessions outbox cap_outbox subscribed_uris cap_subscribed list_cache_scope response_meta task_mgr skill_reg]. lia. Qed.

Lemma size_set_outbox l c s :
  rest_size (set_outbox l c s) = rest_size s + (sum_blocks msg_blocks l - sum_blocks msg_blocks (outbox s)) + (buffer c - buffer (cap_outbox s)).
Proof. unfold rest_size, set_outbox. cbn [srv_name srv_version tools cap_tools resources cap_resources prompts cap_prompts completions cap_completions srv_sessions outbox cap_outbox subscribed_uris cap_subscribed list_cache_scope response_meta task_mgr skill_reg]. lia. Qed.

Lemma each_hstep {A} (f : A -> M unit) (b : A -> Z) l :
  (forall x h u h', x ∈ l -> f x h = (u, h') -> hstep h h' (- b x)) ->
  forall h u h', each f l h = (u, h') -> hstep h h' (- sum_blocks b l).
Proof.
  induction l as [|x l IH]; intros Hf h u h' H; cbn [each] in H; [minv H; apply hstep_refl|].
  apply bind_inv in H as (u1 & h1 & E & H). apply Hf in E; [|by left].
  apply IH in H; [|intros y ? ? ? Hy; apply Hf; by right]. eapply hstep_trans; [exact E|exact H|].
  unfold sum_blocks. cbn [foldr]. lia.
Qed.

(** An array of entries, each freed, and then the array. *)
Lemma free_array_hstep {A} (f : A -> M unit) (b : A -> Z) l cap h u h' :
  (forall x h u h', x ∈ l -> f x h = (u, h') -> hstep h h' (- b x)) ->
  (each f l ;; xfree (isnull0 cap)) h = (u, h') -> hstep h h' (- (sum_blocks b l + buffer cap)).
Proof.
  intros Hf H. apply bind_inv in H as (u1 & h1 & E & H). apply (each_hstep f b) in E; [|done]. apply xfree_hstep in H.
  eapply hstep_trans; [exact E|exact H|]. unfold buffer. destruct (isnull0 cap); lia.
Qed.

Lemma sum_ones {A} (l : list A) : sum_blocks (fun _ => 1) l = Z.of_nat (length l).
Proof. induction l as [|x l IH]; [done|]. cbn [length]. change (sum_blocks _ (x :: l)) with (1 + sum_blocks (fun _ : A => 1) l). lia. Qed.

Lemma free_tasks_hstep l : forall h u h', free_tasks l h = (u, h') -> hstep h h' (- tasks_blocks l).
Proof.
  induction l as [|t l IH]; intros h u h' H; cbn [free_tasks] in H; [minv H; apply hstep_refl|].
  apply bind_inv in H as (? & h1 & E1 & H). apply bind_inv in H as (? & h2 & E2 & H). apply bind_inv in H as (? & h3 & E3 & H).
  apply builtin_destroy_hstep in E1, E2, E3. apply IH in H. change (tasks_blocks (t :: l)) with (task_blocks t + tasks_blocks l).
  unfold task_blocks. hsolve.
Qed.

Lemma mgr_free_hstep m h u h' : mcp_task_mgr_free m h = (u, h') -> hstep h h' (- from_option mgr_blocks 0 m).
Proof.
  intros H. destruct m as [m|]; cbn [mcp_task_mgr_free from_option] in *; [|minv H; apply hstep_refl].
  apply bind_inv in H as (? & h1 & E1 & H). apply bind_inv in H as (? & h2 & E2 & H). apply free_tasks_hstep in E1.
  apply xfree_hstep in E2, H. unfold mgr_blocks, buffer. destruct (isnull0 _); hsolve.
Qed.

Lemma reg_free_hstep m h u h' : mcp_skill_registry_free m h = (u, h') -> hstep h h' (- from_option registry_blocks 0 m).
Proof. intros H. destruct m as [m|]; [by apply registry_free_hstep in H|]. cbn [mcp_skill_registry_free] in H. minv H. apply hstep_refl. Qed.

(** The blocks of the sessions on the server's list. *)
Definition sessions_blocks (store : gmap nat mcp_session_t) (s : server_rest) : Z :=
  sum_blocks (fun a => from_option session_blocks 0 (store !! a)) (sessions (srv_sessions s)).

Ltac next_step H E := let h := fresh "h" in apply bind_inv in H as (? & h & E & H).

Lemma server_destroy_hstep store srv h u h' :
  Forall tidy (resources (rest srv)) -> mcp_server_destroy store (Some srv) h = (u, h') ->
  hstep h h' (- (1 + rest_size (rest srv) + sessions_blocks store (rest srv))).
Proof.
  intros Ht H. cbn [mcp_server_destroy] in H. cbv zeta in H. set (s := rest srv) in *.
  next_step H E1. next_step H E2. next_step H E3. next_step H E4. next_step H E5. next_step H E6. next_step H E7.
  next_step H E8. next_step H E9. next_step H E10. next_step H E11. next_step H E12. next_step H E13.
  apply (free_array_hstep _ (fun a => from_option session_blocks 0 (store !! a))) in E1.
  2: { intros a ? ? ? _ Ha. destruct (store !! a); [by apply session_free_hstep in Ha|cbn [session_free] in Ha; minv Ha; apply hstep_refl]. }
  apply (free_array_hstep _ tool_blocks) in E2; [|intros; by eapply tool_destroy_hstep].
  apply (free_array_hstep _ resource_blocks) in E3.
  2: { intros r ? ? ? Hr. apply resource_destroy_hstep. rewrite Forall_forall in Ht. by apply Ht. }
  apply (free_array_hstep _ prompt_blocks) in E4; [|intros; by eapply prompt_destroy_hstep].
  apply (free_array_hstep _ (fun _ => 1)) in E5; [|intros ? ? ? ? _ Hx; by apply xfree_hstep in Hx]. rewrite sum_ones in E5.
  apply (free_array_hstep _ msg_blocks) in E6; [|intros ? ? ? ? _ Hx; by apply message_destroy_hstep in Hx].
  apply (free_array_hstep _ (fun _ => 1)) in E7; [|intros ? ? ? ? _ Hx; by apply xfree_hstep in Hx]. rewrite sum_ones in E7.
  apply mgr_free_hstep in E8. apply reg_free_hstep in E9. apply builtin_destroy_hstep in E10. apply srv_free_hstep in E11.
  apply xfree_hstep in E12, E13, H. unfold rest_size, sessions_blocks. hchain; cbv iota; try reflexivity; lia.
Qed.

(** ** The registries as three finite maps *)

Inductive reg_op :=
| AddTool (t : mcp_tool_t) | AddResource (r : mcp_resource_t) | AddPrompt (p : mcp_prompt_t)
| RemoveTool (name : bytes) | RemoveResource (uri : bytes) | RemovePrompt (name : bytes).

Definition reg_run (op : reg_op) (s : server_rest) : M (mcp_status_t * option server_rest) :=
  match op with
  | AddTool t => mcp_server_add_tool (Some s) (Some t)
  | AddResource r => mcp_server_add_resource (Some s) (Some r)
  | AddPrompt p => mcp_server_add_prompt (Some s) (Some p)
  | RemoveTool n => mcp_server_remove_tool (Some s) (Some n)
  | RemoveResource u => mcp_server_remove_resource (Some s) (Some u)
  | RemovePrompt n => mcp_server_remove_prompt (Some s) (Some n)
  end.

Definition reg_key (op : reg_op) : bytes :=
  match op with
  | AddTool t => tool_name t | AddResource r => res_uri r | AddPrompt p => prompt_name p
  | RemoveTool n | RemoveResource n | RemovePrompt n => n
  end.

Definition registries : Type := gmap bytes mcp_tool_t * gmap bytes mcp_resource_t * gmap bytes mcp_prompt_t.

Definition regs (s : server_rest) : registries :=
  (map_of tool_name (tools s), map_of res_uri (resources s), map_of prompt_name (prompts s)).

(** Insertion under a fresh key, and deletion. *)
Definition add_to {A} (k : bytes) (x : A) (m : gmap bytes A) : mcp_status_t * gmap bytes A :=
  match m !! k with Some _ => (MCP_ERR_ALREADY_EXISTS, m) | None => (MCP_OK, <[k := x]> m) end.

Definition remove_from {A} (k : bytes) (m : gmap bytes A) : mcp_status_t * gmap bytes A :=
  match m !! k with Some _ => (MCP_OK, delete k m) | None => (MCP_ERR_NOT_FOUND, m) end.

(** The specification. *)
Definition reg_spec (op : reg_op) (m : registries) : mcp_status_t * registries :=
  let '(t, r, p) := m in
  match op with
  | AddTool x => let '(st, t) := add_to (tool_name x) x t in (st, (t, r, p))
  | AddResource x => let '(st, r) := add_to (res_uri x) x r in (st, (t, r, p))
  | AddPrompt x => let '(st, p) := add_to (prompt_name x) x p in (st, (t, r, p))
  | RemoveTool k => let '(st, t) := remove_from k t in (st, (t, r, p))
  | RemoveResource k => let '(st, r) := remove_from k r in (st, (t, r, p))
  | RemovePrompt k => let '(st, p) := remove_from k p in (st, (t, r, p))
  end.

(** The blocks of the item handed over. *)
Definition reg_given (op : reg_op) : Z :=
  match op with AddTool t => tool_blocks t | AddResource r => resource_blocks r | AddPrompt p => prompt_blocks p | _ => 0 end.

Record regs_inv (s : server_rest) : Prop := RegsInv {
  inv_tools : array_inv tool_name (tools s) (cap_tools s);
  inv_resources : array_inv res_uri (resources s) (cap_resources s);
  inv_prompts : array_inv prompt_name (prompts s) (cap_prompts s);
  inv_tidy : Forall tidy (resources s);
}.

Definition reg_ok (op : reg_op) : Prop := match op with AddResource r => tidy r | _ => True end.

(** One array with its setter: what the three registries have in common. *)
Section one_registry.
Context {A : Type} (key : A -> bytes) (cost : A -> Z) (get : server_rest -> list A) (cap : server_rest -> nat)
  (set : list A -> nat -> server_rest -> server_rest) (good : A -> Prop).
Context (size_set : forall l c s, rest_size (set l c s) =
           rest_size s + (sum_blocks cost l - sum_blocks cost (get s)) + (buffer c - buffer (cap s))).

Lemma add_generic s x h st (r : option server_rest) h' :
  (match lookup_by key (get s) (key x) with
   | Some _ => ret (MCP_ERR_ALREADY_EXISTS, Some s)
   | None => r <- append_ptr (get s) (cap s) x ;; ret (r.1, Some (set r.2.1 r.2.2 s))
   end) h = ((st, r), h') ->
  array_inv key (get s) (cap s) -> has_nul (key x) = false -> Forall good (get s) -> good x ->
  (r = Some s /\ st = MCP_ERR_ALREADY_EXISTS /\ h' = h /\ is_Some (map_of key (get s) !! key x)) \/
  (map_of key (get s) !! key x = None /\ exists l c, r = Some (set l c s) /\ array_inv key l c /\ Forall good l /\
     hstep h h' (rest_size (set l c s) - rest_size s - (if decide (st = MCP_OK) then cost x else 0)) /\
     ((st = MCP_OK /\ map_of key l = <[key x := x]> (map_of key (get s))) \/
      (st = MCP_ERR_NOMEM /\ ~ ample h /\ map_of key l = map_of key (get s)))).
Proof.
  intros H Hi Hk Hg Hx. rewrite (lookup_by_map key _ _ _ Hi Hk) in H. destruct (map_of key (get s) !! key x) as [y|] eqn:E.
  - minv H. simplify_eq. left. by split_and!.
  - right. split; [done|]. apply bind_inv in H as ([st1 [l c]] & h1 & Ea & H). minv H. cbn [fst snd] in *. simplify_eq.
    apply (append_ptr_spec key) in Ea as (Hi' & Hs & [(-> & -> & Hm)|(-> & -> & Hna)]); [| |done..].
    + eexists _, c. split; [done|]. split; [done|]. split; [apply Forall_app; split; [done|by apply Forall_singleton]|].
      split; [|by left]. rewrite size_set, sum_blocks_app, decide_True by done. eapply hstep_eq; [exact Hs|].
      change (sum_blocks cost [x]) with (cost x + 0). lia.
    + eexists _, c. split; [done|]. split; [done|]. split; [done|]. split; [|by right].
      rewrite size_set, decide_False by done. eapply hstep_eq; [exact Hs|]. lia.
Qed.

Lemma remove_generic (destroy : option A -> M unit) s k h st (r : option server_rest) h' :
  (forall x h u h', good x -> destroy (Some x) h = (u, h') -> hstep h h' (- cost x)) ->
  (match find_by key (get s) k with
   | None => ret (MCP_ERR_NOT_FOUND, Some s)
   | Some i => destroy (get s !! i) ;; ret (MCP_OK, Some (set (swap_remove i (get s)) (cap s) s))
   end) h = ((st, r), h') ->
  array_inv key (get s) (cap s) -> has_nul k = false -> Forall good (get s) ->
  (r = Some s /\ st = MCP_ERR_NOT_FOUND /\ h' = h /\ map_of key (get s) !! k = None) \/
  (is_Some (map_of key (get s) !! k) /\ st = MCP_OK /\ exists l c, r = Some (set l c s) /\ array_inv key l c /\ Forall good l /\
     hstep h h' (rest_size (set l c s) - rest_size s) /\ map_of key l = delete k (map_of key (get s))).
Proof.
  intros Hd H Hi Hk Hg. pose proof (find_by_spec key (get s) k (keys_clean _ _ _ Hi) Hk) as Hf.
  destruct (find_by key (get s) k) as [i|] eqn:E.
  - right. destruct Hf as (x & Hx & He). rewrite Hx in H. apply bind_inv in H as (u & h1 & Ed & H). minv H. simplify_eq.
    apply Hd in Ed; [|by eapply Forall_lookup_1].
    pose proof (swap_remove_perm _ _ _ Hx) as Hp. destruct (swap_remove_spec key _ _ _ _ Hi Hx) as [Hi' Hm].
    split; [rewrite (map_of_lookup key _ _ x (keys_nodup _ _ _ Hi)); [done|by eapply list_elem_of_lookup_2|done]|].
    split; [done|]. eexists _, _. split; [done|]. split; [done|].
    split; [rewrite <- Hp in Hg; by apply Forall_cons in Hg as [_ ?]|]. split; [|done].
    rewrite size_set. eapply hstep_eq; [exact Ed|]. rewrite <- (sum_blocks_perm cost _ _ Hp).
    change (sum_blocks cost (x :: ?l)) with (cost x + sum_blocks cost l). lia.
  - minv H. simplify_eq. left. split_and!; [done..|]. by apply map_of_fresh.
Qed.
End one_registry.

(** The two kinds of operation, for one of the registries. *)
Ltac refused Hr :=
  eexists; rewrite Hr; split_and!; [done|done|by left|];
  rewrite decide_False by done; eapply hstep_eq; [apply hstep_refl|lia].

Ltac by_adding H lem set :=
  eapply lem in H; [|done..];
  let y := fresh "y" in let Hy := fresh "Hy" in let Hn := fresh "Hn" in let Hc := fresh "Hc" in
  destruct H as [(-> & -> & -> & [y Hy])|(Hn & ? & ? & -> & ? & ? & ? & Hc)];
  [ refused Hy
  | eexists; split; [done|]; split; [done|]; split; [|done]; rewrite Hn; cbn [tools resources prompts set];
    destruct Hc as [[-> ->]|(-> & ? & ->)]; [by left|right; done] ].

Ltac by_removing H lem set destroys :=
  eapply lem in H; [|intros; by eapply destroys|done..];
  let y := fresh "y" in let Hy := fresh "Hy" in let Hn := fresh "Hn" in let Hs := fresh "Hs" in let Hm := fresh "Hm" in
  destruct H as [(-> & -> & -> & Hn)|([y Hy] & -> & ? & ? & -> & ? & ? & Hs & Hm)];
  [ refused Hn
  | eexists; split; [done|]; split; [done|]; rewrite Hy; cbn [tools resources prompts set]; rewrite Hm;
    split; [by left|]; rewrite decide_True by done; eapply hstep_eq; [exact Hs|lia] ].

(** ** Claims *)

(** C27: The registries refine three finite maps: adding inserts under a name
    that was free and is refused with MCP_ERR_ALREADY_EXISTS otherwise,
    removing deletes and is refused with MCP_ERR_NOT_FOUND for an unknown
    name; only a lack of memory makes a difference, which leaves the maps as
    they were.  The arrays stay free of duplicates and every block is
    accounted for: an item added belongs to the server, a removed one is
    destroyed. *)
Theorem registries_refine op s h st r h' :
  regs_inv s -> reg_ok op -> has_nul (reg_key op) = false -> reg_run op s h = ((st, r), h') ->
  exists s', r = Some s' /\ regs_inv s' /\
  ((st, regs s') = reg_spec op (regs s) \/ (st = MCP_ERR_NOMEM /\ ~ ample h /\ regs s' = regs s)) /\
  hstep h h' (rest_size s' - rest_size s - (if decide (st = MCP_OK) then reg_given op else 0)).
Proof.
  intros [It Ir Ip Id] Hok Hk H. unfold reg_spec, add_to, remove_from, regs.
  assert (forall A (l : list A), Forall (fun _ => True) l) as HT by (intros; by apply Forall_true).
  destruct op as [x|x|x|k|k|k]; cbn [reg_run reg_key reg_ok reg_given] in *.
  - by_adding H (add_generic tool_name tool_blocks tools cap_tools set_tools (fun _ => True) size_set_tools) set_tools.
  - by_adding H (add_generic res_uri resource_blocks resources cap_resources set_resources tidy size_set_resources) set_resources.
  - by_adding H (add_generic prompt_name prompt_blocks prompts cap_prompts set_prompts (fun _ => True) size_set_prompts) set_prompts.
  - by_removing H (remove_generic tool_name tool_blocks tools cap_tools set_tools (fun _ => True) size_set_tools) set_tools tool_destroy_hstep.
  - by_removing H (remove_generic res_uri resource_blocks resources cap_resources set_resources tidy size_set_resources) set_resources
      resource_destroy_hstep.
  - by_removing H (remove_generic prompt_name prompt_blocks prompts cap_prompts set_prompts (fun _ => True) size_set_prompts) set_prompts
      prompt_destroy_hstep.
Qed.

(** Destroying a server frees everything it owns: its sessions, items,
    providers, queued messages, subscriptions, extensions and strings, every
    block once. *)
Theorem server_destroy_frees store srv h u h' :
  Forall tidy (resources (rest srv)) -> mcp_server_destroy store (Some srv) h = (u, h') ->
  hstep h h' (- (1 + rest_size (rest srv) + sessions_blocks store (rest srv))).
Proof. apply server_destroy_hstep. Qed.

(** A new server owns its strings and nothing else. *)
Theorem server_create_contract name version h r h' :
  mcp_server_create (Some name) (Some version) h = (r, h') ->
  match r with
  | Some srv => hstep h h' (1 + rest_size (rest srv)) /\ regs_inv (rest srv) /\ regs (rest srv) = (∅, ∅, ∅) /\
      rest srv = empty_rest (cstr name) (cstr version)
  | None => ~ ample h /\ hstep h h' 0
  end.
Proof.
  intros H. cbn [mcp_server_create] in H. next_step H E. pose proof E as E'. apply xmalloc_hstep in E.
  destruct x; cbn [negb] in H.
  2: { minv H. split; [|done]. intros A. by apply xmalloc_ample_inv in E'. }
  next_step H E1. next_step H E2. apply strdup_cases in E1 as [S1 C1], E2 as [S2 C2].
  assert (ample h -> is_Some x /\ is_Some x0) as Hsome.
  { intros A. pose proof (ample_hstep _ _ _ E A) as A1. pose proof (ample_hstep _ _ _ S1 A1) as A2.
    destruct C1 as [C1|(_ & _ & ?)]; [|done]. destruct C2 as [C2|(_ & _ & ?)]; [|done]. simpl in C1, C2. by subst. }
  destruct x as [n|]; [destruct x0 as [v|]|].
  - minv H. destruct C1 as [C1|(_ & ? & _)]; [|done]. destruct C2 as [C2|(_ & ? & _)]; [|done]. simpl in C1, C2. simplify_eq.
    split; [|split; [|done]].
    + eapply hstep_trans; [exact E|eapply hstep_trans; [exact S1|exact S2|reflexivity]|]. done.
    + split; cbn; [split; [constructor|constructor|simpl; lia]..|constructor].
  - next_step H F1. next_step H F2. next_step H F3. minv H. apply srv_free_hstep in F1, F2. apply xfree_hstep in F3.
    split; [intros A; by destruct (Hsome A) as [_ [? ?]]|]. hchain; cbv iota; try reflexivity; lia.
  - next_step H F1. next_step H F2. next_step H F3. minv H. apply srv_free_hstep in F1, F2. apply xfree_hstep in F3.
    split; [intros A; by destruct (Hsome A) as [[? ?] _]|]. hchain; cbv iota; try reflexivity; lia.
Qed.

(** The outbox is a stack: what was pushed last is popped first, so that a
    serve loop that drains it sends the newest message first. *)
Theorem outbox_last_first s m1 m2 h st1 s1 h1 st2 s2 h2 :
  ample h -> outbox_push s m1 h = ((st1, s1), h1) -> outbox_push s1 m2 h1 = ((st2, s2), h2) ->
  exists s3 s4, mcp_server_outbox_pop (Some s2) true = (MCP_OK, Some m2, Some s3) /\
    mcp_server_outbox_pop (Some s3) true = (MCP_OK, Some m1, Some s4) /\ outbox s4 = outbox s.
Proof.
  assert (forall s m h st s' h', ample h -> outbox_push s m h = ((st, s'), h') -> ample h' /\ outbox s' = outbox s ++ [m]) as Hpush.
  { clear. intros s m h st s' h' A H. unfold outbox_push in H. destruct (Nat.eqb _ _).
    - next_step H E. pose proof (xrealloc_ample_inv _ _ _ _ A E) as ->. apply xrealloc_hstep in E. cbn [negb] in H. minv H.
      simplify_eq. split; [by eapply ample_hstep|done].
    - minv H. by simplify_eq. }
  assert (forall s m l, outbox s = l ++ [m] -> exists s', mcp_server_outbox_pop (Some s) true = (MCP_OK, Some m, Some s') /\ outbox s' = l) as Hpop.
  { clear. intros s m l Hl. cbn [mcp_server_outbox_pop]. rewrite Hl, last_snoc. eexists. split; [done|]. cbn.
    rewrite length_app. cbn. replace (length l + 1 - 1)%nat with (length l) by lia. apply take_app_length. }
  intros A H1 H2. destruct (Hpush _ _ _ _ _ _ A H1) as [A1 O1]. destruct (Hpush _ _ _ _ _ _ A1 H2) as [_ O2].
  destruct (Hpop s2 m2 _ O2) as (s3 & P1 & O3). rewrite O1 in O3. destruct (Hpop s3 m1 _ O3) as (s4 & P2 & O4). eauto.
Qed.

(** server.h: on any error the caller of [mcp_server_notify_client] keeps the
    parameters.  When the outbox cannot grow they are destroyed with the
    message: the block of the value is gone although the status is
    MCP_ERR_NOMEM. *)
Theorem notify_params_lost :
  exists r h', mcp_server_notify_client ∅ (Some (empty_rest (cs "s") (cs "1"))) (Some (cs "m")) (Some VNull)
    (Heap (fun k => Nat.eqb k 11) 0 1 false) = (Some (MCP_ERR_NOMEM, r), h') /\ live h' = 0.
Proof. eexists _, _. split; [vm_compute; reflexivity|]. vm_compute. reflexivity. Qed.

(** ** Witnesses *)

(** A tool that returns an empty object. *)
Definition echo_tool : mcp_tool_t :=
  Tool (cs "echo") None None None None
    (HandlerV1 (fun s _ => v <- builtin_new_object ;; ret (match v with None => MCP_ERR_NOMEM | Some _ => MCP_OK end, v, s)))
    MCP_TOOL_VIS_BOTH 0.

Definition sample_rest : server_rest := set_tools [echo_tool] 4 (empty_rest (cs "srv") (cs "1.0")).

Lemma sample_regs_inv : regs_inv sample_rest.
Proof.
  split; [|split; cbn; [constructor|constructor|lia]..|constructor].
  split; [by apply Forall_singleton|apply NoDup_singleton|cbn; lia].
Qed.

Lemma registries_refine_witness :
  exists st r h', reg_run (RemoveTool (cs "echo")) sample_rest fresh_heap = ((st, r), h') /\
  exists s', r = Some s' /\ regs_inv s' /\
  ((st, regs s') = reg_spec (RemoveTool (cs "echo")) (regs sample_rest) \/
   (st = MCP_ERR_NOMEM /\ ~ ample fresh_heap /\ regs s' = regs sample_rest)) /\
  hstep fresh_heap h' (rest_size s' - rest_size sample_rest - (if decide (st = MCP_OK) then reg_given (RemoveTool (cs "echo")) else 0)).
Proof.
  eexists _, _, _. split; [rewrite <- !surjective_pairing; reflexivity|].
  apply (registries_refine (RemoveTool (cs "echo")) sample_rest fresh_heap);
    [apply sample_regs_inv|exact I|reflexivity|rewrite <- !surjective_pairing; reflexivity].
Defined.

Definition sample_full_server : server := Server 0 0 0 MCP_LOG_DEBUG true [] [] sample_rest.

Lemma server_destroy_frees_witness :
  exists u h', mcp_server_destroy ∅ (Some sample_full_server) fresh_heap = (u, h') /\
  hstep fresh_heap h' (- (1 + rest_size (rest sample_full_server) + sessions_blocks ∅ (rest sample_full_server))).
Proof.
  eexists _, _. split; [apply surjective_pairing|].
  apply (server_destroy_frees ∅ sample_full_server fresh_heap (mcp_server_destroy ∅ (Some sample_full_server) fresh_heap).1);
    [constructor|apply surjective_pairing].
Defined.
