(* ===== verification/Routes.v ===== *)
(** * Request handlers (src/server/routes.c)

    One handler per method and the table that picks it.  A handler that only
    reads the server is a program returning the response or NULL; the others
    also return the server and the session.  This file is the model; what
    the handlers do is proved in RouteLaws.v. *)
From S2P Require Import Prelude Heap Utf8 Double JsonValue JsonParse JsonSerialize JsonApi Schema Message Initialize Validate Builders Tasks Skills Mrtr Session Dispatcher Registry Server.

Local Open Scope Z_scope.

Definition MCP_LIST_PAGE_SIZE : Z := 100.

(** [size_t] arithmetic. *)
Definition SIZE_MAX : Z := 2 ^ 64 - 1.
Definition add64 (a b : Z) : Z := (a + b) mod 2 ^ 64.

Definition mcp_status_string (status : mcp_status_t) : bytes :=
  match status with
  | MCP_OK => cs "MCP_OK"
  | MCP_ERR_INVALID_ARGUMENT => cs "MCP_ERR_INVALID_ARGUMENT"
  | MCP_ERR_NOMEM => cs "MCP_ERR_NOMEM"
  | MCP_ERR_IO => cs "MCP_ERR_IO"
  | MCP_ERR_PROTOCOL => cs "MCP_ERR_PROTOCOL"
  | MCP_ERR_TIMEOUT => cs "MCP_ERR_TIMEOUT"
  | MCP_ERR_CANCELLED => cs "MCP_ERR_CANCELLED"
  | MCP_ERR_NOT_FOUND => cs "MCP_ERR_NOT_FOUND"
  | MCP_ERR_ALREADY_EXISTS => cs "MCP_ERR_ALREADY_EXISTS"
  | MCP_ERR_UNSUPPORTED => cs "MCP_ERR_UNSUPPORTED"
  | MCP_ERR_PERMISSION => cs "MCP_ERR_PERMISSION"
  end.

(** ** Helpers *)

(** The loop over the digits of the cursor. *)
Fixpoint offset_loop (s : bytes) (off : Z) : Z :=
  match s with
  | [] => off
  | b :: s' => if isdigit b then offset_loop s' ((off * 10 + digit_val b) mod 2 ^ 64) else SIZE_MAX
  end.

Definition page_offset (req : mcp_message_t) : Z :=
  match builtin_object_get (mcp_message_params (Some req)) (Some (cs "cursor")) with
  | None => 0
  | Some cur =>
      match builtin_get_string (Some cur) with
      | None => SIZE_MAX
      | Some s => match cstr s with [] => SIZE_MAX | s => offset_loop s 0 end
      end
  end.

Definition set_next_cursor (result : value) (end_ : Z) : M (mcp_status_t * option value) :=
  v <- string_new (fmt_int end_) ;;
  match v with
  | None => ret (MCP_ERR_NOMEM, Some result)
  | Some _ =>
      r <- object_set_take (Some result) (cs "nextCursor") v ;;
      ret (match r with (MCP_OK, o) => (MCP_OK, o) | (_, o) => (MCP_ERR_NOMEM, o) end)
  end.

Definition set_string (obj : value) (key val : bytes) : M (mcp_status_t * option value) :=
  v <- string_new val ;;
  match v with
  | None => ret (MCP_ERR_NOMEM, Some obj)
  | Some _ =>
      r <- builtin_object_set (Some obj) (Some key) v ;;
      match r with
      | (MCP_OK, o) => ret (MCP_OK, o)
      | (_, o) => builtin_destroy v ;; ret (MCP_ERR_NOMEM, o)
      end
  end.

(** [get_string] with its status folded into the option. *)
Definition get_string (obj : option value) (key : bytes) : option bytes :=
  builtin_get_string (builtin_object_get obj (Some key)).

(** [mcp_schema_validate] with as much recursion as the instance is deep. *)
Definition schema_validate (schema inst : value) : mcp_status_t :=
  default MCP_ERR_INVALID_ARGUMENT
    (mcp_schema_validate (S (Z.to_nat (jdepth (erase inst)))) (Some schema) (Some inst)).

(** [if ((v = mk()) == NULL || set_take(obj, key, v) != MCP_OK) return
    MCP_ERR_NOMEM; k]. *)
Definition member_or_nomem (obj : value) (key : bytes) (mk : M (option value)) (k : value -> M (mcp_status_t * option value))
    : M (mcp_status_t * option value) :=
  v <- mk ;;
  match v with
  | None => ret (MCP_ERR_NOMEM, Some obj)
  | Some _ =>
      r <- object_set_take (Some obj) key v ;;
      match r with
      | (MCP_OK, Some obj) => k obj
      | (_, o) => ret (MCP_ERR_NOMEM, o)
      end
  end.

(** The last two decorations of a list. *)
Definition decorate_meta (srv : server_rest) (result : value) : M (mcp_status_t * option value) :=
  match response_meta srv with
  | None => ret (MCP_OK, Some result)
  | Some _ =>
      meta_clone <- json_clone (response_meta srv) ;;
      match meta_clone with
      | None => ret (MCP_ERR_NOMEM, Some result)
      | Some _ =>
          r <- mcp_result_inject_meta (Some result) meta_clone ;;
          ret (match r with (MCP_OK, o) => (MCP_OK, o) | (_, o) => (MCP_ERR_NOMEM, o) end)
      end
  end.

Definition decorate_scope (srv : server_rest) (result : value) : M (mcp_status_t * option value) :=
  match list_cache_scope srv with
  | None => decorate_meta srv result
  | Some scope => member_or_nomem result (cs "cacheScope") (string_new scope) (decorate_meta srv)
  end.

Definition decorate_result (srv : server_rest) (result : value) (is_list : bool) : M (mcp_status_t * option value) :=
  r <- mcp_result_inject_result_type (Some result) ;;
  match r with
  | (MCP_OK, Some result) =>
      if negb is_list then ret (MCP_OK, Some result) else
      if list_ttl_ms srv =? 0 then decorate_scope srv result else
      member_or_nomem result (cs "ttlMs") (builtin_new_number (double_of_Z (list_ttl_ms srv))) (decorate_scope srv)
  | (_, o) => ret (MCP_ERR_NOMEM, o)
  end.

(** The end of almost every handler: [mcp_response_ok_new], destroying the
    result on failure. *)
Definition send_ok (req : mcp_message_t) (result : value) : M (option mcp_message_t) :=
  resp <- mcp_response_ok_new (Some req) (Some result) ;;
  match resp with
  | None => builtin_destroy (Some result) ;; ret None
  | Some _ => ret resp
  end.

(** [decorate_result], destroying the result on failure, and [send_ok]. *)
Definition respond_ok (srv : server_rest) (req : mcp_message_t) (result : value) (is_list : bool)
    : M (option mcp_message_t) :=
  r <- decorate_result srv result is_list ;;
  match r with
  | (MCP_OK, Some result) => send_ok req result
  | (_, o) => builtin_destroy o ;; ret None
  end.

(** [mcp_json_object_new] and [mcp_json_array_new], both destroyed if one is
    missing. *)
Definition with_result_array (k : value -> value -> M (option mcp_message_t)) : M (option mcp_message_t) :=
  result <- builtin_new_object ;;
  arr <- builtin_new_array ;;
  match result, arr with
  | Some result, Some arr => k result arr
  | _, _ => builtin_destroy result ;; builtin_destroy arr ;; ret None
  end.

(** Storing the array, the cursor of the next page if there is one, and the
    decorations of a list. *)
Definition finish_list (srv : server_rest) (req : mcp_message_t) (result arr : value) (key : bytes) (next : option Z)
    : M (option mcp_message_t) :=
  chk (object_set_take (Some result) key (Some arr)) discard (fun result =>
  match next with
  | None => respond_ok srv req result true
  | Some end_ => chk (set_next_cursor result end_) discard (fun result => respond_ok srv req result true)
  end).

(** What a failed list handler destroys. *)
Definition drop_list (result arr : value) : M (option mcp_message_t) :=
  builtin_destroy (Some result) ;; discard arr.

(** An empty list. *)
Definition empty_list (srv : server_rest) (req : mcp_message_t) (key : bytes) (is_list : bool) : M (option mcp_message_t) :=
  with_result_array (fun result arr =>
  chk (object_set_take (Some result) key (Some arr)) discard (fun result => respond_ok srv req result is_list)).

(** [{}] with the decorations of a plain result. *)
Definition empty_result (srv : server_rest) (req : mcp_message_t) : M (option mcp_message_t) :=
  result <- builtin_new_object ;;
  match result with
  | None => ret None
  | Some result => respond_ok srv req result false
  end.

(** ** server/discover *)

(** The "extensions" object, stored in "capabilities" of the result (which
    has neither before, so that the lookups of the code find nothing); the
    objects are reached through the pointers kept.  A failed
    [object_set_take] destroys its value, which is then destroyed again. *)
Definition add_extension (exts : value) (key : bytes) (fail k : value -> M (option mcp_message_t)) : M (option mcp_message_t) :=
  ext <- builtin_new_object ;;
  match ext with
  | None => fail exts
  | Some ext =>
      chk (object_set_take (Some exts) key (Some ext)) (fun exts => builtin_destroy (Some ext) ;; fail exts) k
  end.

(** [result] with [exts] in its "capabilities"."extensions", as the pointers
    see it. *)
Definition with_exts (result exts : value) : option value :=
  match builtin_object_get (Some result) (Some (cs "capabilities")) with
  | Some caps =>
      match put_child (Some caps) (cs "extensions") exts with
      | Some caps => put_child (Some result) (cs "capabilities") caps
      | None => None
      end
  | None => None
  end.

(** The extensions that are enabled, added to [exts] inside [result]. *)
Definition fill_extensions (srv : server_rest) (result exts : value) (k : value -> M (option mcp_message_t)) : M (option mcp_message_t) :=
  let fail exts := builtin_destroy (with_exts result exts) ;; ret None in
  let finish exts := match with_exts result exts with Some result => k result | None => ret None end in
  let skills exts :=
    match skill_reg srv with
    | None => finish exts
    | Some _ => add_extension exts (cs "io.modelcontextprotocol/skills") fail finish
    end in
  match task_mgr srv with
  | None => skills exts
  | Some _ => add_extension exts (cs "io.modelcontextprotocol/tasks") fail skills
  end.

Definition has_extensions (srv : server_rest) : bool := negb (IdSet.is_null (task_mgr srv)) || negb (IdSet.is_null (skill_reg srv)).

Definition add_extensions (srv : server_rest) (result : value) (k : value -> M (option mcp_message_t)) : M (option mcp_message_t) :=
  if has_extensions srv then
    caps <- builtin_new_object ;;
    match caps with
    | None => discard result
    | Some caps =>
        chk (object_set_take (Some result) (cs "capabilities") (Some caps))
          (fun result => builtin_destroy (Some caps) ;; discard result) (fun result =>
        exts <- builtin_new_object ;;
        match exts with
        | None => discard result
        | Some exts =>
            chk (object_set_take (Some caps) (cs "extensions") (Some exts))
              (fun caps => builtin_destroy (Some exts) ;;
                           builtin_destroy (put_child (Some result) (cs "capabilities") caps) ;; ret None) (fun caps =>
            match put_child (Some result) (cs "capabilities") caps with
            | None => ret None
            | Some result => fill_extensions srv result exts k
            end)
        end)
    end
  else k result.

Definition route_server_discover (srv : server_rest) (req : mcp_message_t) : M (option mcp_message_t) :=
  let number n := builtin_new_number (double_of_Z n) in
  result <- builtin_new_object ;;
  match result with
  | None => ret None
  | Some result =>
      put result (cs "serverName") (string_new (srv_name srv)) discard (fun result =>
      put result (cs "serverVersion") (string_new (srv_version srv)) discard (fun result =>
      put result (cs "protocolVersion") (string_new MCP_PROTOCOL_VERSION_LATEST) discard (fun result =>
      put result (cs "toolsCount") (number (Z.of_nat (length (tools srv)))) discard (fun result =>
      put result (cs "resourcesCount") (number (Z.of_nat (length (resources srv)))) discard (fun result =>
      put result (cs "promptsCount") (number (Z.of_nat (length (prompts srv)))) discard (fun result =>
      put_opt result (cs "listTtlMs") (if list_ttl_ms srv =? 0 then None else Some (list_ttl_ms srv)) number discard (fun result =>
      put_opt result (cs "listCacheScope") (list_cache_scope srv) string_new discard (fun result =>
      put result (cs "supportsStateless") (builtin_new_bool true) discard (fun result =>
      put result (cs "supportsMeta") (builtin_new_bool true) discard (fun result =>
      add_extensions srv result (fun result => respond_ok srv req result true)))))))))))
  end.

(** ** initialize *)

Definition set_client_name (n : option bytes) (s : mcp_session_t) : mcp_session_t :=
  Session (initialized s) (apps_host s) (granted s) n (client_version s) (ids s) (client_meta s) (subscription_active s)
    (sub_id_type s) (sub_id_str s) (sub_id_num s) (sub_tools_list_changed s) (sub_prompts_list_changed s)
    (sub_resources_list_changed s) (sub_resource_uris s).

Definition set_client_version (n : option bytes) (s : mcp_session_t) : mcp_session_t :=
  Session (initialized s) (apps_host s) (granted s) (client_name s) n (ids s) (client_meta s) (subscription_active s)
    (sub_id_type s) (sub_id_str s) (sub_id_num s) (sub_tools_list_changed s) (sub_prompts_list_changed s)
    (sub_resources_list_changed s) (sub_resource_uris s).

Definition set_client_meta (m : option value) (s : mcp_session_t) : mcp_session_t :=
  Session (initialized s) (apps_host s) (granted s) (client_name s) (client_version s) (ids s) m (subscription_active s)
    (sub_id_type s) (sub_id_str s) (sub_id_num s) (sub_tools_list_changed s) (sub_prompts_list_changed s)
    (sub_resources_list_changed s) (sub_resource_uris s).

(** Replacing a string of the session by a copy; [inl] when there is no
    memory. *)
Definition store_copy (new : option bytes) (old : option bytes) (set : option bytes -> mcp_session_t -> mcp_session_t)
    (s : mcp_session_t) : M (mcp_session_t + mcp_session_t) :=
  match new with
  | None => ret (inr s)
  | Some _ =>
      copy <- srv_strdup new ;;
      match copy with
      | None => ret (inl s)
      | Some _ => srv_free old ;; ret (inr (set copy s))
      end
  end.

Definition store_client_info (info : option value) (s : mcp_session_t) : M (mcp_session_t + mcp_session_t) :=
  match info with
  | None => ret (inr s)
  | Some _ =>
      r <- store_copy (get_string info (cs "name")) (client_name s) set_client_name s ;;
      match r with
      | inl s => ret (inl s)
      | inr s => store_copy (get_string info (cs "version")) (client_version s) set_client_version s
      end
  end.

Definition route_initialize (srv : server_rest) (s : mcp_session_t) (req : mcp_message_t)
    : M (option mcp_message_t * mcp_session_t) :=
  let params := mcp_message_params (Some req) in
  match get_string params (cs "protocolVersion") with
  | None => r <- err_resp req MCP_RPC_INVALID_PARAMS (cs "initialize: missing protocolVersion") ;; ret (r, s)
  | Some ver =>
      match mcp_protocol_negotiate (Some ver) with
      | None => r <- err_resp req MCP_RPC_INVALID_PARAMS (cs "initialize: unsupported version") ;; ret (r, s)
      | Some _ =>
          i <- store_client_info (builtin_object_get params (Some (cs "clientInfo"))) s ;;
          match i with
          | inl s => ret (None, s)
          | inr s =>
              result <- mcp_initialize_result_new (Some (srv_name srv)) (Some (srv_version srv)) ;;
              match result with
              | None => ret (None, s)
              | Some result =>
                  match mcp_message_meta (Some req) with
                  | None => r <- respond_ok srv req result false ;; ret (r, s)
                  | Some meta =>
                      clone <- json_clone (Some meta) ;;
                      match clone with
                      | None => builtin_destroy (Some result) ;; ret (None, s)
                      | Some _ =>
                          builtin_destroy (client_meta s) ;;
                          r <- respond_ok srv req result false ;; ret (r, set_client_meta clone s)
                      end
                  end
              end
          end
      end
  end.

(** ** Tools *)

(** [t->vis != MCP_TOOL_VIS_BOTH && (t->vis == MCP_TOOL_VIS_APP) !=
    s->apps_host]. *)
Definition hidden (s : mcp_session_t) (t : mcp_tool_t) : bool :=
  negb (bool_decide (vis t = MCP_TOOL_VIS_BOTH)) &&
  negb (Bool.eqb (bool_decide (vis t = MCP_TOOL_VIS_APP)) (apps_host s)).

(** [if (p != NULL && set_string(obj, key, p) != MCP_OK) { fail } k]. *)
Definition set_string_opt (obj : value) (key : bytes) (p : option bytes) (k : value -> M (option value)) : M (option value) :=
  match p with None => k obj | Some val => chk (set_string obj key val) discard k end.

Definition tool_entry (t : mcp_tool_t) : M (option value) :=
  let copy v := json_clone (Some v) in
  entry <- builtin_new_object ;;
  match entry with
  | None => ret None
  | Some entry =>
      chk (set_string entry (cs "name") (tool_name t)) discard (fun entry =>
      set_string_opt entry (cs "description") (tool_description t) (fun entry =>
      put_opt entry (cs "inputSchema") (tool_schema t) copy discard (fun entry =>
      put_opt entry (cs "outputSchema") (tool_output_schema t) copy discard (fun entry =>
      put_opt entry (cs "_meta") (tool_meta t) copy discard (fun entry => ret (Some entry))))))
  end.

(** The loop of tools/list: [visible] counts the tools the session may see. *)
Fixpoint tools_loop (s : mcp_session_t) (offset : Z) (l : list mcp_tool_t) (visible : Z) (arr : value)
    (fail : value -> M (option mcp_message_t)) (k : value -> Z -> M (option mcp_message_t)) : M (option mcp_message_t) :=
  match l with
  | [] => k arr visible
  | t :: l' =>
      if hidden s t then tools_loop s offset l' visible arr fail k else
      if (visible <? offset) || (add64 offset MCP_LIST_PAGE_SIZE <=? visible)
      then tools_loop s offset l' (visible + 1) arr fail k else
      entry <- tool_entry t ;;
      match entry with
      | None => fail arr
      | Some entry =>
          r <- builtin_array_append (Some arr) (Some entry) ;;
          match r with
          | (MCP_OK, Some arr) => tools_loop s offset l' (visible + 1) arr fail k
          | (_, Some arr) => builtin_destroy (Some entry) ;; fail arr
          | (_, None) => ret None
          end
      end
  end.

Definition route_tools_list (srv : server_rest) (s : mcp_session_t) (req : mcp_message_t) : M (option mcp_message_t) :=
  let offset := page_offset req in
  if offset =? SIZE_MAX then err_resp req MCP_RPC_INVALID_PARAMS (cs "tools/list: bad cursor") else
  with_result_array (fun result arr =>
  tools_loop s offset (tools srv) 0 arr (fun arr => drop_list result arr) (fun arr visible =>
  let end_ := add64 offset MCP_LIST_PAGE_SIZE in
  finish_list srv req result arr (cs "tools") (if end_ <? visible then Some end_ else None))).

(** The second half of [tool_error_result]. *)
Definition error_content (req : mcp_message_t) (result content : value) : M (option mcp_message_t) :=
  chk (object_set_take (Some result) (cs "content") (Some content)) discard (fun result =>
  put result (cs "isError") (builtin_new_bool true) discard (send_ok req)).

Definition tool_error_result (req : mcp_message_t) (st : mcp_status_t) : M (option mcp_message_t) :=
  result <- builtin_new_object ;;
  content <- builtin_new_array ;;
  item <- builtin_new_object ;;
  match result, content, item with
  | Some result, Some content, Some item =>
      let drop item := builtin_destroy (Some item) ;; builtin_destroy (Some content) ;; discard result in
      chk (set_string item (cs "type") (cs "text")) drop (fun item =>
      chk (set_string item (cs "text") (mcp_status_string st)) drop (fun item =>
      r <- builtin_array_append (Some content) (Some item) ;;
      match r with
      | (MCP_OK, Some content) => error_content req result content
      | (_, content) => builtin_destroy (Some item) ;; builtin_destroy content ;; discard result
      end))
  | _, _, _ => builtin_destroy item ;; builtin_destroy content ;; builtin_destroy result ;; ret None
  end.

(** The checks of tools/call before the handler runs: an error, or the tool
    and its arguments. *)
Definition is_retry (t : mcp_tool_t) (params : option value) : bool :=
  match tool_handler_of t with
  | HandlerV1 _ => false
  | HandlerV2 _ => negb (IdSet.is_null (builtin_object_get params (Some (cs "requestState"))))
  end.

(** The arguments against the schema; absent ones count as null. *)
Definition check_args (schema : option value) (args : option value) : M mcp_status_t :=
  match schema, args with
  | None, _ => ret MCP_OK
  | Some schema, Some args => ret (schema_validate schema args)
  | Some schema, None =>
      null <- builtin_new_null ;;
      builtin_destroy null ;;
      ret (match null with None => MCP_ERR_NOMEM | Some null => schema_validate schema null end)
  end.

Definition tools_call_checks (srv : server_rest) (s : mcp_session_t) (req : mcp_message_t)
    : M (Z * bytes + mcp_tool_t * bytes) :=
  let params := mcp_message_params (Some req) in
  match get_string params (cs "name") with
  | None => ret (inl (MCP_RPC_INVALID_PARAMS, cs "tools/call: missing name"))
  | Some name =>
      match find_tool srv name with
      | None => ret (inl (MCP_RPC_INVALID_PARAMS, cs "tools/call: unknown tool"))
      | Some tool =>
          if hidden s tool then ret (inl (MCP_RPC_METHOD_NOT_FOUND, cs "tools/call: unknown tool")) else
          vst <- (if is_retry tool params then ret MCP_OK
                  else check_args (tool_schema tool) (builtin_object_get params (Some (cs "arguments")))) ;;
          match vst with
          | MCP_OK =>
              if negb (Z.land (required tool) (not32 (granted s)) =? 0)
              then ret (inl (MCP_RPC_INVALID_PARAMS, cs "tools/call: permission denied"))
              else ret (inr (tool, name))
          | _ => ret (inl (MCP_RPC_INVALID_PARAMS, cs "tools/call: invalid arguments"))
          end
      end
  end.

(** The call of the handler. *)
Definition run_tool (tool : mcp_tool_t) (s : mcp_session_t) (params : option value) : M handled_by :=
  let args := builtin_object_get params (Some (cs "arguments")) in
  match tool_handler_of tool with
  | HandlerV1 f => f s args
  | HandlerV2 f => f s (CallCtx args (builtin_object_get params (Some (cs "inputResponses")))
                                (get_string params (cs "requestState")))
  end.

(** What becomes of the result. *)
Definition tool_result (srv : server_rest) (req : mcp_message_t) (tool : mcp_tool_t) (result : value) : M (option mcp_message_t) :=
  if mcp_mrtr_is_input_required (Some result) then send_ok req result else
  let rejected :=
    match tool_output_schema tool, builtin_object_get (Some result) (Some (cs "structuredContent")) with
    | Some schema, Some sc => negb (bool_decide (schema_validate schema sc = MCP_OK))
    | _, _ => false
    end in
  if rejected then
    builtin_destroy (Some result) ;;
    err_resp req MCP_RPC_INVALID_PARAMS (cs "tools/call: structuredContent failed outputSchema validation")
  else respond_ok srv req result false.

Section logging.
Context (logger : option mcp_log_level_t).

Definition count_call (srv : server) : server := with_rest srv (set_tools_called (inc64 (c_tools_called (rest srv))) (rest srv)).

Definition route_tools_call (srv : server) (s : mcp_session_t) (req : mcp_message_t)
    : M (option mcp_message_t * server * mcp_session_t) :=
  c <- tools_call_checks (rest srv) s req ;;
  match c with
  | inl (code, text) => r <- err_resp req code text ;; ret (r, srv, s)
  | inr (tool, name) =>
      o <- run_tool tool s (mcp_message_params (Some req)) ;;
      let '(st, result, s) := o in
      let srv := count_call srv in
      match st, result with
      | MCP_OK, None => r <- err_resp req MCP_RPC_INTERNAL_ERROR (cs "tools/call: empty result") ;; ret (r, srv, s)
      | MCP_OK, Some result => r <- tool_result (rest srv) req tool result ;; ret (r, srv, s)
      | st, _ =>
          r <- tool_error_result req st ;;
          ret (r, dlogf_srv logger MCP_LOG_WARN
                    (cs "event=tool_error tool=" ++ name ++ cs " status=" ++ mcp_status_string st) srv, s)
      end
  end.
End logging.

(** ** Resources *)

(** The entries [offset <= i < end] of an array, by the loop over them. *)
Definition slice {A} (l : list A) (offset end_ : Z) : list A :=
  if offset <? end_ then take (Z.to_nat (end_ - offset)) (drop (Z.to_nat offset) l) else [].

(** [end]: the page size past the offset, at most [n]. *)
Definition page_end (offset : Z) (n : nat) : Z :=
  if add64 offset MCP_LIST_PAGE_SIZE <? Z.of_nat n then add64 offset MCP_LIST_PAGE_SIZE else Z.of_nat n.

Definition next_page (end_ : Z) (n : nat) : option Z := if end_ <? Z.of_nat n then Some end_ else None.

Definition resource_entry (r : mcp_resource_t) : M (option value) :=
  entry <- builtin_new_object ;;
  match entry with
  | None => ret None
  | Some entry =>
      chk (set_string entry (cs "uri") (res_uri r)) discard (fun entry =>
      chk (set_string entry (cs "name") (res_name r)) discard (fun entry =>
      set_string_opt entry (cs "mimeType") (res_mime_type r) (fun entry => ret (Some entry))))
  end.

Definition route_resources_list (srv : server_rest) (req : mcp_message_t) : M (option mcp_message_t) :=
  let offset := page_offset req in
  if offset =? SIZE_MAX then err_resp req MCP_RPC_INVALID_PARAMS (cs "resources/list: bad cursor") else
  with_result_array (fun result arr =>
  let n := length (resources srv) in
  let end_ := page_end offset n in
  append_all resource_entry (slice (resources srv) offset end_) arr (fun arr => drop_list result arr) (fun arr =>
  finish_list srv req result arr (cs "resources") (next_page end_ n))).

(** An array from the host stored under [key]: the common part of
    resources/read and completion/complete. *)
Definition wrap_array (contents : value) (key : bytes) (k : value -> M (option mcp_message_t)) : M (option mcp_message_t) :=
  result <- builtin_new_object ;;
  match result with
  | None => builtin_destroy (Some contents) ;; ret None
  | Some result => chk (object_set_take (Some result) key (Some contents)) discard k
  end.

Definition is_array (v : option value) : bool := bool_decide (builtin_type_of v = MCP_JSON_ARRAY).

Definition route_resources_read (srv : server_rest) (s : mcp_session_t) (req : mcp_message_t)
    : M (option mcp_message_t * mcp_session_t) :=
  let refuse s code text := r <- err_resp req code text ;; ret (r, s) in
  match get_string (mcp_message_params (Some req)) (cs "uri") with
  | None => refuse s MCP_RPC_INVALID_PARAMS (cs "resources/read: missing uri")
  | Some uri =>
      match find_resource srv uri with
      | None => refuse s MCP_RPC_INVALID_PARAMS (cs "resources/read: unknown resource")
      | Some res =>
          match on_read res with
          | None => refuse s MCP_RPC_INTERNAL_ERROR (cs "resources/read: no reader")
          | Some f =>
              o <- f s uri ;;
              let '(st, contents, s) := o in
              match st, contents with
              | MCP_OK, Some c =>
                  if is_array contents then
                    r <- wrap_array c (cs "contents") (fun result => respond_ok srv req result true) ;; ret (r, s)
                  else builtin_destroy contents ;; refuse s MCP_RPC_INTERNAL_ERROR (cs "resources/read: bad contents")
              | MCP_OK, None => refuse s MCP_RPC_INTERNAL_ERROR (cs "resources/read: bad contents")
              | st, _ => refuse s (mcp_status_to_rpc_code st) (cs "resources/read: handler failed")
              end
          end
      end
  end.

(** ** Prompts *)

Definition prompt_entry (p : mcp_prompt_t) : M (option value) :=
  entry <- builtin_new_object ;;
  match entry with
  | None => ret None
  | Some entry =>
      chk (set_string entry (cs "name") (prompt_name p)) discard (fun entry =>
      set_string_opt entry (cs "description") (prompt_description p) (fun entry => ret (Some entry)))
  end.

Definition route_prompts_list (srv : server_rest) (req : mcp_message_t) : M (option mcp_message_t) :=
  let offset := page_offset req in
  if offset =? SIZE_MAX then err_resp req MCP_RPC_INVALID_PARAMS (cs "prompts/list: bad cursor") else
  with_result_array (fun result arr =>
  let n := length (prompts srv) in
  let end_ := page_end offset n in
  append_all prompt_entry (slice (prompts srv) offset end_) arr (fun arr => drop_list result arr) (fun arr =>
  finish_list srv req result arr (cs "prompts") (next_page end_ n))).

Definition route_prompts_get (srv : server_rest) (s : mcp_session_t) (req : mcp_message_t)
    : M (option mcp_message_t * mcp_session_t) :=
  let params := mcp_message_params (Some req) in
  let refuse s code text := r <- err_resp req code text ;; ret (r, s) in
  match get_string params (cs "name") with
  | None => refuse s MCP_RPC_INVALID_PARAMS (cs "prompts/get: missing name")
  | Some name =>
      match find_prompt srv name with
      | None => refuse s MCP_RPC_INVALID_PARAMS (cs "prompts/get: unknown prompt")
      | Some prompt =>
          match on_get prompt with
          | None => refuse s MCP_RPC_INTERNAL_ERROR (cs "prompts/get: no handler")
          | Some f =>
              o <- f s (builtin_object_get params (Some (cs "arguments"))) ;;
              let '(st, messages, s) := o in
              match st, messages with
              | MCP_OK, Some m =>
                  if is_array messages then
                    r <- wrap_array m (cs "messages") (fun result =>
                         match prompt_description prompt with
                         | None => respond_ok srv req result false
                         | Some d => chk (set_string result (cs "description") d) discard (fun result => respond_ok srv req result false)
                         end) ;;
                    ret (r, s)
                  else builtin_destroy messages ;; refuse s MCP_RPC_INTERNAL_ERROR (cs "prompts/get: bad messages")
              | MCP_OK, None => refuse s MCP_RPC_INTERNAL_ERROR (cs "prompts/get: bad messages")
              | st, _ => refuse s (mcp_status_to_rpc_code st) (cs "prompts/get: handler failed")
              end
          end
      end
  end.

(** ** Completion *)

Definition route_completion_list (srv : server_rest) (req : mcp_message_t) : M (option mcp_message_t) :=
  if page_offset req =? SIZE_MAX then err_resp req MCP_RPC_INVALID_PARAMS (cs "completion/list: bad cursor") else
  empty_list srv req (cs "completions") true.

(** [strncmp(ref_str, prefix, strlen(prefix)) == 0]. *)
Definition has_prefix (ref_str prefix : bytes) : bool :=
  bool_decide (take (length (cstr prefix)) (cstr ref_str) = cstr prefix).

Fixpoint find_provider (l : list mcp_completion_entry_t) (ref_str : bytes) : option mcp_completion_entry_t :=
  match l with
  | [] => None
  | c :: l' => if has_prefix ref_str (ref_prefix c) then Some c else find_provider l' ref_str
  end.

Definition route_completion_complete (srv : server_rest) (s : mcp_session_t) (req : mcp_message_t)
    : M (option mcp_message_t * mcp_session_t) :=
  let params := mcp_message_params (Some req) in
  let ref_obj := builtin_object_get params (Some (cs "ref")) in
  let refuse s code text := r <- err_resp req code text ;; ret (r, s) in
  if negb (is_object ref_obj)
  then refuse s MCP_RPC_INVALID_PARAMS (cs "completion/complete: missing ref object") else
  match get_string ref_obj (cs "value") with
  | None => refuse s MCP_RPC_INVALID_PARAMS (cs "completion/complete: ref.value missing or not a string")
  | Some ref_str =>
      match find_provider (completions srv) ref_str with
      | None => r <- empty_list srv req (cs "completions") false ;; ret (r, s)
      | Some c =>
          args <- (match builtin_object_get params (Some (cs "argument")) with
                   | Some a => json_clone (Some a)
                   | None => builtin_new_null
                   end) ;;
          match args with
          | None => refuse s MCP_RPC_INTERNAL_ERROR (cs "completion/complete: arg clone failed")
          | Some _ =>
              o <- provider c s args ;;
              builtin_destroy args ;;
              let '(comps, s) := o in
              match comps with
              | None => refuse s MCP_RPC_INTERNAL_ERROR (cs "completion/complete: provider returned NULL")
              | Some cv =>
                  if is_array comps then
                    r <- wrap_array cv (cs "completions") (fun result => respond_ok srv req result false) ;; ret (r, s)
                  else builtin_destroy comps ;; refuse s MCP_RPC_INTERNAL_ERROR (cs "completion/complete: provider returned non-array")
              end
          end
      end
  end.

(** ** Log level, resource subscriptions, templates *)

Definition route_set_level (srv : server) (req : mcp_message_t) : M (option mcp_message_t * server) :=
  match get_string (mcp_message_params (Some req)) (cs "level") with
  | None => r <- err_resp req MCP_RPC_INVALID_PARAMS (cs "logging/setLevel: missing level") ;; ret (r, srv)
  | Some lvl =>
      match level_of_name lvl with
      | None => r <- err_resp req MCP_RPC_INVALID_PARAMS (cs "logging/setLevel: bad level") ;; ret (r, srv)
      | Some mapped =>
          let srv := set_floor mapped srv in
          r <- empty_result (rest srv) req ;; ret (r, srv)
      end
  end.

(** The update of the subscribed uris; [inl] when there is no memory. *)
Definition subscribe (srv : server_rest) (uri : bytes) : M (server_rest + server_rest) :=
  match find_by id (subscribed_uris srv) uri with
  | Some _ => ret (inr srv)
  | None =>
      let store cap :=
        copy <- srv_strdup (Some uri) ;;
        match copy with
        | None => ret (inl (set_subscribed (subscribed_uris srv) cap srv))
        | Some copy => ret (inr (set_subscribed (subscribed_uris srv ++ [copy]) cap srv))
        end in
      if Nat.eqb (length (subscribed_uris srv)) (cap_subscribed srv) then
        ok <- xrealloc (isnull0 (cap_subscribed srv)) ;;
        if negb ok then ret (inl srv) else store (grow_cap (cap_subscribed srv))
      else store (cap_subscribed srv)
  end.

Definition unsubscribe (srv : server_rest) (uri : bytes) : M server_rest :=
  match find_by id (subscribed_uris srv) uri with
  | None => ret srv
  | Some i => xfree false ;; ret (set_subscribed (swap_remove i (subscribed_uris srv)) (cap_subscribed srv) srv)
  end.

Definition route_subscription (srv : server) (req : mcp_message_t) (is_sub : bool) : M (option mcp_message_t * server) :=
  match get_string (mcp_message_params (Some req)) (cs "uri") with
  | None => r <- err_resp req MCP_RPC_INVALID_PARAMS (cs "missing uri") ;; ret (r, srv)
  | Some uri =>
      u <- (if is_sub then subscribe (rest srv) uri else r <- unsubscribe (rest srv) uri ;; ret (inr r)) ;;
      match u with
      | inl r => ret (None, with_rest srv r)
      | inr r => m <- empty_result r req ;; ret (m, with_rest srv r)
      end
  end.

(** NULL both on failure and for a method that is not one of its own. *)
Definition route_advanced (srv : server) (req : mcp_message_t) (method : bytes) : M (option mcp_message_t * server) :=
  if streq method (cs "logging/setLevel") then route_set_level srv req
  else if streq method (cs "resources/subscribe") || streq method (cs "resources/unsubscribe")
  then route_subscription srv req (streq method (cs "resources/subscribe"))
  else if streq method (cs "resources/templates/list")
  then r <- empty_list (rest srv) req (cs "templates") true ;; ret (r, srv)
  else ret (None, srv).

(** ** subscriptions/listen *)

(** A flag of the filter: kept false unless a bool is given. *)
Definition flag (notifs : option value) (key : bytes) : bool :=
  default false (builtin_get_bool (builtin_object_get notifs (Some key))).

(** The copies of the uris of the filter; a copy may be NULL. *)
Fixpoint copy_uris (l : list value) : M (list (option bytes)) :=
  match l with
  | [] => ret []
  | v :: l' =>
      match builtin_get_string (Some v) with
      | None => copy_uris l'
      | Some u => c <- srv_strdup (Some u) ;; r <- copy_uris l' ;; ret (c :: r)
      end
  end.

Definition filter_uris (notifs : option value) : M (option (list (option bytes))) :=
  match builtin_object_get notifs (Some (cs "resourceSubscriptions")) with
  | Some (VArray _ (_ :: _ as l)) =>
      ok <- xmalloc ;;
      if negb ok then ret None else u <- copy_uris l ;; ret (Some u)
  | _ => ret None
  end.

(** The session with the new subscription. *)
Definition listen_session (s : mcp_session_t) (req : mcp_message_t) (notifs : option value) : M mcp_session_t :=
  s <- reset_subscription s ;;
  let idt := mcp_message_id_type (Some req) in
  id_str <- (match idt with
             | MCP_ID_STRING => srv_strdup (Some (default [] (mcp_message_id_string (Some req))))
             | _ => ret None
             end) ;;
  let id_num := match idt with
                | MCP_ID_NUMBER => default (sub_id_num s) (mcp_message_id_number (Some req))
                | _ => sub_id_num s
                end in
  uris <- filter_uris notifs ;;
  ret (Session (initialized s) (apps_host s) (granted s) (client_name s) (client_version s) (ids s) (client_meta s) true
         idt id_str id_num (flag notifs (cs "toolsListChanged")) (flag notifs (cs "promptsListChanged"))
         (flag notifs (cs "resourcesListChanged")) uris).

(** The id as a value. *)
Definition listen_id (req : mcp_message_t) : M (option value) :=
  match mcp_message_id_type (Some req) with
  | MCP_ID_STRING => string_new (default [] (mcp_message_id_string (Some req)))
  | MCP_ID_NUMBER => builtin_new_number (default (DZero false) (mcp_message_id_number (Some req)))
  | MCP_ID_NONE => builtin_new_null
  end.

(** The acknowledgement; values are destroyed again after a failed
    [object_set_take], as the code does. *)
Definition acknowledgement (req : mcp_message_t) (notifs : option value) : M (option mcp_message_t) :=
  params_out <- builtin_new_object ;;
  meta_out <- builtin_new_object ;;
  match params_out, meta_out with
  | Some params_out, Some meta_out =>
      id <- listen_id req ;;
      match id with
      | None => builtin_destroy (Some meta_out) ;; discard params_out
      | Some idv =>
          chk (object_set_take (Some meta_out) subscription_key (Some idv))
            (fun meta_out => builtin_destroy (Some idv) ;; builtin_destroy (Some meta_out) ;; discard params_out) (fun meta_out =>
          chk (object_set_take (Some params_out) (cs "_meta") (Some meta_out))
            (fun params_out => builtin_destroy (Some meta_out) ;; discard params_out) (fun params_out =>
          notifs_out <- (match notifs with Some _ => json_clone notifs | None => builtin_new_object end) ;;
          match notifs_out with
          | None => discard params_out
          | Some nv =>
              chk (object_set_take (Some params_out) (cs "notifications") (Some nv))
                (fun params_out => builtin_destroy (Some nv) ;; discard params_out) (fun params_out =>
              ack <- mcp_notification_new (Some (cs "notifications/subscriptions/acknowledged")) (Some params_out) ;;
              match ack with
              | None => discard params_out
              | Some _ => ret ack
              end)
          end))
      end
  | _, _ => builtin_destroy params_out ;; builtin_destroy meta_out ;; ret None
  end.

Definition route_subscriptions_listen (s : mcp_session_t) (req : mcp_message_t) : M (option mcp_message_t * mcp_session_t) :=
  let params := mcp_message_params (Some req) in
  if negb (is_object params)
  then r <- err_resp req MCP_RPC_INVALID_PARAMS (cs "subscriptions/listen requires params object") ;; ret (r, s) else
  let notifs := builtin_object_get params (Some (cs "notifications")) in
  if negb (IdSet.is_null notifs) && negb (is_object notifs)
  then r <- err_resp req MCP_RPC_INVALID_PARAMS (cs "notifications must be an object") ;; ret (r, s) else
  s <- listen_session s req notifs ;;
  r <- acknowledgement req notifs ;; ret (r, s).

(** ** Tasks *)

Definition route_tasks_get (srv : server_rest) (req : mcp_message_t) : M (option mcp_message_t) :=
  match task_mgr srv with
  | None => err_resp req MCP_RPC_METHOD_NOT_FOUND (cs "tasks extension not enabled")
  | Some mgr =>
      match get_string (mcp_message_params (Some req)) (cs "taskId") with
      | None => err_resp req MCP_RPC_INVALID_PARAMS (cs "tasks/get: missing taskId")
      | Some id =>
          match mcp_task_mgr_get mgr (Some id) with
          | (MCP_OK, desc) =>
              result <- mcp_task_desc_to_json desc ;;
              match result with
              | None => ret None
              | Some result => respond_ok srv req result false
              end
          | _ => err_resp req MCP_RPC_INVALID_PARAMS (cs "tasks/get: task not found")
          end
      end
  end.

(** [{ key: true }] as the result. *)
Definition flag_result (srv : server_rest) (req : mcp_message_t) (key : bytes) : M (option mcp_message_t) :=
  result <- builtin_new_object ;;
  match result with
  | None => ret None
  | Some result => put result key (builtin_new_bool true) discard (fun result => respond_ok srv req result false)
  end.

Definition route_tasks_update (srv : server) (req : mcp_message_t) : M (option mcp_message_t * server) :=
  let refuse code text := r <- err_resp req code text ;; ret (r, srv) in
  match task_mgr (rest srv) with
  | None => refuse MCP_RPC_METHOD_NOT_FOUND (cs "tasks extension not enabled")
  | Some mgr =>
      match get_string (mcp_message_params (Some req)) (cs "taskId") with
      | None => refuse MCP_RPC_INVALID_PARAMS (cs "tasks/update: missing taskId")
      | Some id =>
          match mcp_task_mgr_get mgr (Some id) with
          | (MCP_OK, Some desc) =>
              let mgr := if bool_decide (t_status desc = MCP_TASK_STATUS_INPUT_REQUIRED)
                         then (mcp_task_mgr_set_status mgr (Some id) MCP_TASK_STATUS_WORKING
                                 (Some (cs "Input received; resuming"))).2
                         else mgr in
              let srv := with_rest srv (set_task_mgr (Some mgr) (rest srv)) in
              r <- flag_result (rest srv) req (cs "accepted") ;; ret (r, srv)
          | _ => refuse MCP_RPC_INVALID_PARAMS (cs "tasks/update: task not found")
          end
      end
  end.

Definition route_tasks_cancel (srv : server) (req : mcp_message_t) : M (option mcp_message_t * server) :=
  let refuse code text := r <- err_resp req code text ;; ret (r, srv) in
  match task_mgr (rest srv) with
  | None => refuse MCP_RPC_METHOD_NOT_FOUND (cs "tasks extension not enabled")
  | Some mgr =>
      match get_string (mcp_message_params (Some req)) (cs "taskId") with
      | None => refuse MCP_RPC_INVALID_PARAMS (cs "tasks/cancel: missing taskId")
      | Some id =>
          match mcp_task_mgr_cancel mgr (Some id) with
          | (MCP_OK, mgr) =>
              let srv := with_rest srv (set_task_mgr (Some mgr) (rest srv)) in
              r <- flag_result (rest srv) req (cs "cancelled") ;; ret (r, srv)
          | _ => refuse MCP_RPC_INVALID_PARAMS (cs "tasks/cancel: task not found")
          end
      end
  end.

(** ** Skills *)

Definition route_skills_list (srv : server_rest) (req : mcp_message_t) : M (option mcp_message_t) :=
  match skill_reg srv with
  | None => err_resp req MCP_RPC_METHOD_NOT_FOUND (cs "skills extension not enabled")
  | Some reg =>
      let offset := page_offset req in
      if offset =? SIZE_MAX then err_resp req MCP_RPC_INVALID_PARAMS (cs "invalid cursor") else
      with_result_array (fun result arr =>
      let n := mcp_skill_registry_count (Some reg) in
      let end_ := page_end offset n in
      append_all (fun sk => mcp_skill_to_json (Some sk)) (slice (skills reg) offset end_) arr
        (fun arr => builtin_destroy (Some arr) ;; discard result) (fun arr =>
      finish_list srv req result arr (cs "skills") (next_page end_ n)))
  end.

Definition route_skills_get (srv : server_rest) (req : mcp_message_t) : M (option mcp_message_t) :=
  match skill_reg srv with
  | None => err_resp req MCP_RPC_METHOD_NOT_FOUND (cs "skills extension not enabled")
  | Some reg =>
      let params := mcp_message_params (Some req) in
      let uri := get_string params (cs "uri") in
      let lookup_key := match get_string params (cs "name") with
                        | Some n => if bool_decide (cstr n = []) then uri else Some n
                        | None => uri
                        end in
      match lookup_key with
      | None => err_resp req MCP_RPC_INVALID_PARAMS (cs "skills/get: missing name or uri")
      | Some key =>
          match mcp_skill_registry_find (Some reg) (Some key) with
          | None => err_resp req MCP_RPC_INVALID_PARAMS (cs "skills/get: skill not found")
          | Some (_, sk) =>
              result <- mcp_skill_to_json (Some sk) ;;
              match result with
              | None => ret None
              | Some result => respond_ok srv req result false
              end
          end
      end
  end.

(** ** The table *)

(** A handler that leaves the server or the session alone. *)
Definition reading (srv : server) (s : mcp_session_t) (m : M (option mcp_message_t)) : M (option mcp_message_t * server * mcp_session_t) :=
  r <- m ;; ret (r, srv, s).

Definition with_session (srv : server) (m : M (option mcp_message_t * mcp_session_t)) : M (option mcp_message_t * server * mcp_session_t) :=
  r <- m ;; ret (r.1, srv, r.2).

Definition with_server (s : mcp_session_t) (m : M (option mcp_message_t * server)) : M (option mcp_message_t * server * mcp_session_t) :=
  r <- m ;; ret (r.1, r.2, s).

(** The methods after the advanced ones. *)
Definition route_late (logger : option mcp_log_level_t) (srv : server) (s : mcp_session_t) (req : mcp_message_t) (method : bytes)
    : M (option mcp_message_t * server * mcp_session_t) :=
  if streq method (cs "server/discover") then reading srv s (route_server_discover (rest srv) req)
  else if streq method (cs "subscriptions/listen") then with_session srv (route_subscriptions_listen s req)
  else if streq method (cs "tasks/get") then reading srv s (route_tasks_get (rest srv) req)
  else if streq method (cs "tasks/update") then with_server s (route_tasks_update srv req)
  else if streq method (cs "tasks/cancel") then with_server s (route_tasks_cancel srv req)
  else if streq method (cs "skills/list") then reading srv s (route_skills_list (rest srv) req)
  else if streq method (cs "skills/get") then reading srv s (route_skills_get (rest srv) req)
  else reading (dlogf_srv logger MCP_LOG_WARN (cs "event=unknown_method method=" ++ method) srv) s
         (err_resp req MCP_RPC_METHOD_NOT_FOUND (cs "unknown method")).

(** [mcp_server_route_request]. *)
Definition route_request (logger : option mcp_log_level_t) (srv : server) (s : mcp_session_t) (req : mcp_message_t) (method : bytes)
    : M (option mcp_message_t * server * mcp_session_t) :=
  if streq method (cs "initialize") then with_session srv (route_initialize (rest srv) s req)
  else if streq method (cs "ping") then reading srv s (empty_result (rest srv) req)
  else if streq method (cs "tools/list") then reading srv s (route_tools_list (rest srv) s req)
  else if streq method (cs "tools/call") then route_tools_call logger srv s req
  else if streq method (cs "resources/list") then reading srv s (route_resources_list (rest srv) req)
  else if streq method (cs "resources/read") then with_session srv (route_resources_read (rest srv) s req)
  else if streq method (cs "prompts/list") then reading srv s (route_prompts_list (rest srv) req)
  else if streq method (cs "prompts/get") then with_session srv (route_prompts_get (rest srv) s req)
  else if streq method (cs "completion/list") then reading srv s (route_completion_list (rest srv) req)
  else if streq method (cs "completion/complete") then with_session srv (route_completion_complete (rest srv) s req)
  else
    adv <- route_advanced srv req method ;;
    match adv with
    | (Some m, srv) => ret (Some m, srv, s)
    | (None, srv) => route_late logger srv s req method
    end.
