(* ===== verification/RouteLaws.v ===== *)
(** * What the handlers do (src/server/routes.c)

    The rules for the helpers of Routes.v, the contract of the host's
    callbacks, and from them: every handler answers its request and accounts
    for every block, so that the routes are a lawful [Router]; the guards of
    tools/call; the pages of tools/list. *)
From S2P Require Import Prelude Heap Utf8 Double JsonValue JsonParse JsonNumber JsonSerialize JsonApi Schema Message Initialize Validate Builders Tasks Skills Mrtr Session Dispatcher Registry Server Routes.

Local Open Scope Z_scope.

(** ** Updates of an object *)

Lemma done_updates obj l ok : wf obj -> erase obj = JObject l -> updates (ret (MCP_OK, Some obj)) obj 0 l ok.
Proof.
  intros Hw Hl h st r h' H. minv H. simplify_eq. exists obj. split; [done|]. split; [done|].
  split; [eapply hstep_eq; [apply hstep_refl|lia]|]. by left.
Qed.

(** An update and then another. *)
Lemma updates_then (m : M (mcp_status_t * option value)) G obj given l1 l2 (ok : Prop) :
  updates m obj given l1 ok ->
  (forall o, wf o -> erase o = JObject l1 -> updates (G (MCP_OK, Some o)) o 0 l2 ok) ->
  (forall o st, st <> MCP_OK -> exists st', st' <> MCP_OK /\ G (st, Some o) = ret (st', Some o)) ->
  updates (bind m G) obj given l2 ok.
Proof.
  intros Hm Hok Hfail h st r h' H. apply bind_inv in H as ([st1 r1] & h1 & E & H).
  destruct (Hm _ _ _ _ E) as (o & -> & Hwo & Hs & [[-> He]|(Hn & Hl & Hna)]).
  - destruct (Hok o Hwo He _ _ _ _ H) as (o' & -> & Hwo' & Hs2 & Hor). exists o'. split; [done|]. split; [done|].
    split; [eapply hstep_trans; [exact Hs|exact Hs2|lia]|]. destruct Hor as [?|(? & ? & Hna)]; [by left|]. right.
    split; [done|]. split; [done|]. intros [A ?]. apply Hna. split; [by eapply ample_hstep|done].
  - destruct (Hfail o st1 Hn) as (st' & Hst' & Heq). rewrite Heq in H. minv H. simplify_eq.
    exists o. split_and!; [done..|]. by right.
Qed.

(** A value made and then used. *)
Lemma made_updates mk G obj l j ok1 l' (ok : Prop) :
  wf obj -> erase obj = JObject l -> attempt mk j ok1 -> (ok -> ok1) -> G None = ret (MCP_ERR_NOMEM, Some obj) ->
  (forall v, wf v -> erase v = j -> updates (G (Some v)) obj (blocks v) l' ok) ->
  updates (bind mk G) obj 0 l' ok.
Proof.
  intros Hw Hl Hmk Hok Hnone Hc h st r h' H. apply bind_inv in H as (v & h1 & E & H).
  destruct (Hmk _ _ _ E) as [Hs Hv]. destruct v as [v|].
  - destruct Hv as [Hwv Hev]. destruct (Hc v Hwv Hev _ _ _ _ H) as (o & -> & Hwo & Hs2 & Hor). exists o.
    split; [done|]. split; [done|]. split; [eapply hstep_trans; [exact Hs|exact Hs2|simpl; lia]|].
    destruct Hor as [?|(? & ? & Hna)]; [by left|]. right. split; [done|]. split; [done|].
    intros [A ?]. apply Hna. split; [by eapply ample_hstep|done].
  - rewrite Hnone in H. minv H. simplify_eq. exists obj. split; [done|]. split; [done|]. split; [simpl in *; hsolve|]. right.
    split; [done|]. split; [by eauto|]. intros [A ?]. apply Hv. auto.
Qed.

Lemma updates_weaken m obj given l (ok ok' : Prop) : (ok' -> ok) -> updates m obj given l ok -> updates m obj given l ok'.
Proof.
  intros Hok Hm h st r h' H. destruct (Hm _ _ _ _ H) as (o & ? & ? & ? & [?|(? & ? & ?)]); exists o; split_and!; try done; [by left|].
  right. split_and!; [done..|]. naive_solver.
Qed.

(** Storing a value, any failure being MCP_ERR_NOMEM. *)
Lemma store_updates obj l key v (ok : Prop) :
  wf obj -> erase obj = JObject l -> wf v -> good_string key ->
  updates (r <- object_set_take (Some obj) key (Some v) ;;
           ret (match r with (MCP_OK, o) => (MCP_OK, o) | (_, o) => (MCP_ERR_NOMEM, o) end))
    obj (blocks v) (jinsert key (erase v) l) ok.
Proof.
  intros Hw Hl Hv Hk. eapply updates_then; [eapply updates_weaken; [|by apply take_updates]; done| |].
  - intros o Hwo Ho. by apply done_updates.
  - intros o st Hst. exists MCP_ERR_NOMEM. by destruct st.
Qed.

Lemma member_updates obj l key mk j ok1 k l' (ok : Prop) :
  wf obj -> erase obj = JObject l -> good_string key -> attempt mk j ok1 -> (ok -> ok1) ->
  (forall o, wf o -> erase o = JObject (jinsert key j l) -> updates (k o) o 0 l' ok) ->
  updates (member_or_nomem obj key mk k) obj 0 l' ok.
Proof.
  intros Hw Hl Hk Hmk Hok Hc. eapply made_updates; [done|done|done|done|done|]. intros v Hwv Hev.
  eapply updates_then; [eapply updates_weaken; [|by apply take_updates]; done| |].
  - intros o Hwo Ho. rewrite Hev in Ho. by apply Hc.
  - intros o st Hst. exists MCP_ERR_NOMEM. by destruct st.
Qed.

Lemma jlookup_joset k k' j l :
  jlookup k (joset k' j l) = if bool_decide (k' = k) then (match j with Some j => Some j | None => jlookup k l end) else jlookup k l.
Proof. destruct j as [j|]; [apply jlookup_jinsert|]. cbn. by destruct (bool_decide _). Qed.

(** ** Decimal cursors *)

Lemma offset_loop_digits s : alldigits s -> forall off, 0 <= off < 2 ^ 64 ->
  offset_loop s off = (off * 10 ^ Z.of_nat (length s) + dval s) mod 2 ^ 64.
Proof.
  induction s as [|b s IH]; intros Hs off Ho.
  { cbn [offset_loop length]. change (dval []) with 0. rewrite Z.mul_1_r, Z.add_0_r, Z.mod_small; lia. }
  apply Forall_cons in Hs as [Hb Hs]. cbn [offset_loop]. rewrite Hb, IH by (done || apply Z.mod_pos_bound; lia).
  change (b :: s) with ([b] ++ s) at 2. rewrite dval_app. change (dval [b]) with (digit_val b). cbn [length].
  rewrite Nat2Z.inj_succ, Z.pow_succ_r by lia. set (P := 10 ^ Z.of_nat (length s)).
  rewrite Z.add_mod, Z.mul_mod_idemp_l, <- Z.add_mod by lia. f_equal. lia.
Qed.

(** The cursor of a page reads back as its offset. *)
Lemma cursor_offset n : 0 <= n < 2 ^ 64 -> offset_loop (fmt_int n) 0 = n.
Proof.
  intros Hn. destruct (fmt_int_digits n) as (Ha & Hd & _); [lia|]. rewrite offset_loop_digits, Hd by (done || lia).
  apply Z.mod_small. lia.
Qed.

Lemma set_string_updates obj l key val (ok : Prop) :
  wf obj -> erase obj = JObject l -> good_string key -> (ok -> utf8_valid (cstr val) = true) ->
  updates (set_string obj key val) obj 0 (jinsert key (JString (cstr val)) l) ok.
Proof.
  intros Hw Hl Hk Hok. unfold set_string. eapply made_updates; [done|done|apply string_new_attempt|done|done|].
  intros v Hwv Hev h st r h' H. apply bind_inv in H as ([st1 r1] & h1 & E & H).
  eapply set_cases in E as (o & -> & Hwo & [(-> & Hs & He)|(Hn & Hs & He & Hna)]); [| |done..].
  - minv H. simplify_eq. rewrite Hev in He. exists o. split_and!; [done..|]. by left.
  - assert ((builtin_destroy (Some v) ;; ret (MCP_ERR_NOMEM, Some o)) h1 = ((st, r), h')) as H' by (by destruct st1). clear H.
    minv H'. simplify_eq. destroy_facts. exists o. split_and!; [done|done|simpl in *; hsolve|]. right.
    split; [done|]. split; [by eauto|]. by intros [? _].
Qed.

Lemma next_cursor_updates obj l n ok :
  wf obj -> erase obj = JObject l -> 0 <= n ->
  updates (set_next_cursor obj n) obj 0 (jinsert (cs "nextCursor") (JString (fmt_int n)) l) ok.
Proof.
  intros Hw Hl Hn. destruct (fmt_int_text n Hn) as [H0 Hu]. unfold set_next_cursor.
  eapply made_updates; [done|done|apply string_no_nul, H0|done|done|]. intros v Hwv Hev.
  rewrite <- Hev. apply store_updates; [done|done|done|lit].
Qed.

(** ** The host's callbacks

    What the server relies on: a callback hands over a well-formed value it
    owns, and none when it fails; it may change the session through the
    public functions, which do not touch the handshake flag and the seen ids,
    and leaves no other trace in the block count. *)
Definition callback_ok (m : M handled_by) (s : mcp_session_t) : Prop :=
  forall h st res s' h', m h = ((st, res, s'), h') ->
  owf res /\ (st <> MCP_OK -> res = None) /\ initialized s' = initialized s /\ ids s' = ids s /\
  hstep h h' (oblocks res + (session_blocks s' - session_blocks s)).

Definition handler_ok (f : tool_handler) : Prop :=
  match f with
  | HandlerV1 f => forall s args, owf args -> callback_ok (f s args) s
  | HandlerV2 f => forall s args responses state, owf args -> owf responses -> callback_ok (f s (CallCtx args responses state)) s
  end.

Definition provider_ok (c : mcp_completion_entry_t) : Prop :=
  forall s args h res s' h', owf args -> provider c s args h = ((res, s'), h') ->
  owf res /\ initialized s' = initialized s /\ ids s' = ids s /\
  hstep h h' (oblocks res + (session_blocks s' - session_blocks s)).

Definition tool_ok (t : mcp_tool_t) : Prop :=
  owf (tool_schema t) /\ owf (tool_output_schema t) /\ owf (tool_meta t) /\ handler_ok (tool_handler_of t).

Definition resource_ok (r : mcp_resource_t) : Prop :=
  forall f s uri, on_read r = Some f -> callback_ok (f s uri) s.

Definition prompt_ok (p : mcp_prompt_t) : Prop :=
  forall f s args, on_get p = Some f -> owf args -> callback_ok (f s args) s.

(** What the handlers need of the server. *)
Record routes_inv (r : server_rest) : Prop := RoutesInv {
  tools_ok : Forall tool_ok (tools r);
  resources_ok : Forall resource_ok (resources r);
  prompts_ok : Forall prompt_ok (prompts r);
  providers_ok : Forall provider_ok (completions r);
  meta_ok : owf (response_meta r);
  ttl_ok : u64 (list_ttl_ms r);
  sizes_ok : u64 (Z.of_nat (length (tools r))) /\ u64 (Z.of_nat (length (resources r))) /\ u64 (Z.of_nat (length (prompts r)));
  mgr_ok : from_option mgr_inv True (task_mgr r);
  reg_ok_inv : from_option skills_inv True (skill_reg r);
  outbox_ok : Forall wf_msg (outbox r);
}.

(** ** Results *)

Definition decorated (srv : server_rest) (is_list : bool) (l : list (bytes * json)) : list (bytes * json) :=
  let l := jinsert (cs "resultType") (JString (cs "complete")) l in
  if is_list then
    joset (cs "_meta") (erase <$> response_meta srv)
      (joset (cs "cacheScope") (JString ∘ cstr <$> list_cache_scope srv)
         (joset (cs "ttlMs") (if list_ttl_ms srv =? 0 then None else Some (JNumber (double_of_Z (list_ttl_ms srv)))) l))
  else l.

(** The only string of the decorations that may not be UTF-8. *)
Definition scope_text (srv : server_rest) : Prop :=
  from_option (fun s => utf8_valid (cstr s) = true) True (list_cache_scope srv).

Lemma is_object_erase v l : erase v = JObject l -> is_object (Some v) = true.
Proof. by destruct v. Qed.

Lemma inject_type_updates obj l ok :
  wf obj -> erase obj = JObject l ->
  updates (mcp_result_inject_result_type (Some obj)) obj 0 (jinsert (cs "resultType") (JString (cs "complete")) l) ok.
Proof.
  intros Hw Hl. unfold mcp_result_inject_result_type. rewrite (is_object_erase _ _ Hl). cbn [negb].
  eapply made_updates; [done|done|apply (string_no_nul (cs "complete")); reflexivity|done|done|]. intros v Hwv Hev.
  rewrite <- Hev. apply store_updates; [done|done|done|lit].
Qed.

Lemma inject_meta_updates obj l v ok :
  wf obj -> erase obj = JObject l -> wf v ->
  updates (mcp_result_inject_meta (Some obj) (Some v)) obj (blocks v) (jinsert (cs "_meta") (erase v) l) ok.
Proof.
  intros Hw Hl Hv. unfold mcp_result_inject_meta. rewrite (is_object_erase _ _ Hl). cbn [negb].
  apply store_updates; [done|done|done|lit].
Qed.

Ltac nomem := intros ? st ?; exists MCP_ERR_NOMEM; by destruct st.

Section decorations.
Context (srv : server_rest) (Hm : owf (response_meta srv)) (Ht : u64 (list_ttl_ms srv)).

Lemma decorate_meta_updates o l :
  wf o -> erase o = JObject l ->
  updates (decorate_meta srv o) o 0 (joset (cs "_meta") (erase <$> response_meta srv) l) (scope_text srv).
Proof.
  intros Hw Ho. unfold decorate_meta. destruct (response_meta srv) as [m|]; [|by apply done_updates].
  eapply made_updates; [done|done|by apply clone_attempt|done|done|]. intros v Hwv Hev. cbn [fmap option_fmap option_map joset from_option].
  rewrite <- Hev. eapply updates_then; [by apply inject_meta_updates| |nomem]. intros; by apply done_updates.
Qed.

Lemma decorate_scope_updates o l :
  wf o -> erase o = JObject l ->
  updates (decorate_scope srv o) o 0
    (joset (cs "_meta") (erase <$> response_meta srv) (joset (cs "cacheScope") (JString ∘ cstr <$> list_cache_scope srv) l)) (scope_text srv).
Proof.
  intros Hw Ho. unfold decorate_scope. destruct (list_cache_scope srv) as [sc|] eqn:Es; [|by apply decorate_meta_updates].
  eapply member_updates; [done|done|lit|apply string_new_attempt|unfold scope_text; by rewrite Es|]. intros; by apply decorate_meta_updates.
Qed.

Lemma decorate_updates obj l is_list :
  wf obj -> erase obj = JObject l ->
  updates (decorate_result srv obj is_list) obj 0 (decorated srv is_list l) (scope_text srv).
Proof.
  intros Hw Hl. unfold decorate_result, decorated. eapply updates_then; [by apply inject_type_updates| |nomem].
  intros o1 Hw1 Ho1. destruct is_list; cbn [negb]; [|by apply done_updates].
  destruct (list_ttl_ms srv =? 0); [by apply decorate_scope_updates|].
  eapply member_updates; [done|done|lit|by apply u64_attempt|done|]. intros; by apply decorate_scope_updates.
Qed.
End decorations.

(** ** Responses *)

(** The response to [req] whose result means [j]. *)
Definition replies (req : mcp_message_t) (j : json) (m : mcp_message_t) : Prop :=
  answers req m /\ erase <$> mcp_message_result (Some m) = Some j.

Lemma ok_error_code m l j : wf (dom m) -> erase (dom m) = JObject l -> jlookup (cs "error") l = None ->
  mcp_message_error_code (Some m) = j -> j <> Some None.
Proof.
  intros Hw Hl He <-. unfold mcp_message_error_code, error_obj.
  assert (get_key (Some m) (cs "error") = None) as ->; [|done].
  apply (fmap_None erase). by rewrite (get_key_meaning m l (cs "error") Hw Hl ltac:(lit)).
Qed.

Lemma response_ok_replies req result h r h' :
  wf_msg req -> wf result -> mcp_response_ok_new (Some req) (Some result) h = (r, h') ->
  match r with
  | Some m => hstep h h' (msg_blocks m - blocks result) /\ replies req (erase result) m
  | None => hstep h h' 0 /\ ~ ample h
  end.
Proof.
  intros Hq Hr H. apply (response_ok_builds _ _ _ (Some result) (copy_id_attempt (Some req) Hq) Hr) in H.
  destruct r as [m|]; [|tauto]. destruct H as (Hs & Hw & He). split; [done|]. split; [split; [split; [done|by eexists]|split; [|left]]|].
  - eapply ok_error_code; [done|done| |done]. cbn [jset]. by jlook.
  - rewrite (kind_meaning m _ Hw He), (reply_id_meaning m _ Hw He). cbn [jset]. jlook.
    split; [by rewrite bool_decide_true by (left; eauto)|]. unfold reply_id. by destruct (get_key _ _) as [[]|].
  - unfold mcp_message_result. rewrite (get_key_meaning m _ _ Hw He) by (by split). cbn [jset]. by jlook.
Qed.

Section replies.
Context (pol : (nat -> bool) -> Prop) (req : mcp_message_t) (Hreq : wf_msg req).

Lemma send_ok_yields result (ok : Prop) safe :
  wf result -> yields pol msg_blocks (replies req (erase result)) safe (blocks result + 0) ok (send_ok req result).
Proof.
  intros Hw h r h' _ H. unfold send_ok in H. apply bind_inv in H as (m & h1 & E & H).
  apply response_ok_replies in E; [|done..]. destruct m as [m|].
  - destruct E as [Hs Hr]. minv H. cbn [from_option]. split; [intros _; hsolve|]. split; [apply Hs|done].
  - destruct E as [Hs Hna]. apply bind_inv in H as (u & h2 & E & H). minv H. apply builtin_destroy_hstep in E.
    cbn [from_option]. assert (hstep h h2 (- blocks result)) as Hs2 by (simpl in *; hsolve).
    split; [intros _; eapply hstep_eq; [exact Hs2|lia]|]. split; [apply Hs2|]. by intros [? _].
Qed.

Lemma respond_ok_yields srv result l is_list safe :
  owf (response_meta srv) -> u64 (list_ttl_ms srv) -> wf result -> erase result = JObject l ->
  yields pol msg_blocks (replies req (JObject (decorated srv is_list l))) safe (blocks result + 0) (scope_text srv)
    (respond_ok srv req result is_list).
Proof.
  intros Hm Ht Hw Hl h r h' Hp H. unfold respond_ok in H. apply bind_inv in H as ([st r1] & h1 & E & H).
  destruct (decorate_updates srv Hm Ht result l is_list Hw Hl _ _ _ _ E) as (o & -> & Hwo & Hs & [[-> He]|(Hn & _ & Hna)]).
  - eapply (step_yields pol _ _ safe h h1 _ _ _ (blocks o + 0)); [intros _; exact Hs|apply Hs|lia|done| |exact H].
    rewrite <- He. by apply send_ok_yields.
  - assert (discard o h1 = (r, h')) as H' by (by destruct st).
    eapply (fail_yields _ _ safe h h1 _ _ _ (blocks o + 0)); [intros _; exact Hs|apply Hs|lia|done|apply discard_gives_up|exact H'].
Qed.
End replies.

(** ** Building a response step by step *)

Lemma yields_impl {B} (pol pol' : (nat -> bool) -> Prop) cost (P P' : B -> Prop) (safe safe' : Prop) given (ok ok' : Prop) m :
  (forall F, pol' F -> pol F) -> (forall b, P b -> P' b) -> (safe' -> safe) -> (ok' -> ok) ->
  yields pol cost P safe given ok m -> yields pol' cost P' safe' given ok' m.
Proof.
  intros Hpol HP Hsafe Hok Hm h r h' Hp H. destruct (Hm h r h' (Hpol _ Hp) H) as (Hs & Hf & Hr). split; [|split; [done|]].
  - intros [?|?]; apply Hs; auto.
  - destruct r; [auto|]. intros [? ?]. auto.
Qed.

(** Destroying values on the way out. *)
Lemma none_gives_up {B} : gives_up (B := B) 0 (ret None).
Proof. intros h r h' H. minv H. split; [done|hsolve]. Qed.

Lemma destroy_gives_up {B} v given (m : M (option B)) total :
  gives_up given m -> total = oblocks v + given -> gives_up total (builtin_destroy v ;; m).
Proof.
  intros Hm -> h r h' H. apply bind_inv in H as (u & h1 & E & H). apply builtin_destroy_hstep in E.
  destruct (Hm _ _ _ H) as [-> Hs]. split; [done|]. eapply hstep_trans; [exact E|exact Hs|lia].
Qed.

Section responses.
Context (pol : (nat -> bool) -> Prop) (P : mcp_message_t -> Prop) (safe : Prop).

(** The result object and the array of a list. *)
Lemma with_array_yields k (ok : Prop) :
  (forall result arr, wf result -> erase result = JObject [] -> wf arr -> erase arr = JArray [] ->
     yields pol msg_blocks P safe (blocks arr + (blocks result + 0)) ok (k result arr)) ->
  yields pol msg_blocks P safe 0 ok (with_result_array k).
Proof.
  intros Hk h r h' Hp H. unfold with_result_array in H. apply bind_inv in H as (o & h1 & E1 & H).
  apply bind_inv in H as (a & h2 & E2 & H). destruct (object_new_attempt _ _ _ E1) as [S1 H1].
  destruct (array_new_attempt _ _ _ E2) as [S2 H2].
  assert (hstep h h2 (oblocks o + oblocks a)) as S12 by (eapply hstep_trans; [exact S1|exact S2|lia]).
  destruct (decide (is_Some o /\ is_Some a)) as [[[result ->] [arr ->]]|Hno].
  { destruct H1, H2. eapply (step_yields pol _ _ safe h h2 _ _ _ (blocks arr + (blocks result + 0)));
      [intros _; exact S12|apply S12|simpl; lia|done|by apply Hk|exact H]. }
  assert ((builtin_destroy o ;; builtin_destroy a ;; ret None) h2 = (r, h')) as H' by (destruct o, a; naive_solver).
  eapply (fail_yields _ _ safe h h2 _ _ _ (oblocks o + oblocks a)); [intros _; exact S12|apply S12|lia| | |exact H'].
  - intros [A _]. apply Hno. pose proof (ample_hstep _ _ _ S1 A). split.
    + destruct o; [done|]. by destruct H1.
    + destruct a; [done|]. by destruct H2.
  - eapply destroy_gives_up; [eapply destroy_gives_up; [apply none_gives_up|reflexivity]|lia].
Qed.

(** Storing the finished array under its key. *)
Lemma store_array_yields result arr key k (ok : Prop) :
  wf result -> erase result = JObject [] -> wf arr -> good_string key ->
  (forall o, wf o -> erase o = JObject (jinsert key (erase arr) []) -> yields pol msg_blocks P safe (blocks o + 0) ok (k o)) ->
  yields pol msg_blocks P safe (blocks arr + (blocks result + 0)) ok (chk (object_set_take (Some result) key (Some arr)) discard k).
Proof.
  intros Hw Hr Ha Hkey Hk. eapply yields_weaken; [|exact (fun x => x)|eapply (chk_yields pol _ _ _ _ result (blocks arr) _ True _ _ 0)];
    [lia|by apply take_updates|done|intros; apply discard_gives_up|exact Hk].
Qed.

(** A member of a string that is already in the object's place. *)
Lemma set_string_yields obj l key val k (ok : Prop) :
  wf obj -> erase obj = JObject l -> good_string key -> (ok -> utf8_valid (cstr val) = true) ->
  (forall o, wf o -> erase o = JObject (jinsert key (JString (cstr val)) l) -> yields pol msg_blocks P safe (blocks o + 0) ok (k o)) ->
  yields pol msg_blocks P safe (blocks obj + 0) ok (chk (set_string obj key val) discard k).
Proof.
  intros Hw Hl Hkey Hok Hk. eapply yields_weaken; [|exact (fun x => x)|eapply (chk_yields pol _ _ _ _ obj 0 _ ok _ _ 0)];
    [lia|by apply set_string_updates|done|intros; apply discard_gives_up|exact Hk].
Qed.
End responses.

(** ** Lists *)

(** The result of a list handler: the entries, the cursor of the next page
    and the decorations. *)
Definition list_result (srv : server_rest) (key : bytes) (items : list json) (next : option Z) : json :=
  JObject (decorated srv true (joset (cs "nextCursor") (JString ∘ fmt_int <$> next) [(key, JArray items)])).

Section lists.
Context (pol : (nat -> bool) -> Prop) (req : mcp_message_t) (Hreq : wf_msg req) (safe : Prop).
Context (srv : server_rest) (Hm : owf (response_meta srv)) (Ht : u64 (list_ttl_ms srv)).

Lemma finish_list_yields result arr key items next (ok : Prop) :
  wf result -> erase result = JObject [] -> wf arr -> erase arr = JArray items -> good_string key ->
  from_option (Z.le 0) True next -> (ok -> scope_text srv) ->
  yields pol msg_blocks (replies req (list_result srv key items next)) safe (blocks arr + (blocks result + 0)) ok
    (finish_list srv req result arr key next).
Proof.
  intros Hw Hr Ha Hi Hkey Hn Hok. unfold finish_list. apply store_array_yields; [done..|]. intros o Hwo Ho. rewrite Hi in Ho.
  cbn [jinsert] in Ho. unfold list_result. destruct next as [n|].
  - eapply yields_weaken; [|exact (fun x => x)|eapply (chk_yields pol _ _ _ _ o 0 _ True _ _ 0)];
      [lia|by apply next_cursor_updates|done|intros; apply discard_gives_up|].
    intros o2 Hw2 Ho2. eapply yields_weaken; [done|exact Hok|]. by apply respond_ok_yields.
  - eapply yields_weaken; [done|exact Hok|]. by apply respond_ok_yields.
Qed.

Lemma drop_gives_up result arr : gives_up (blocks arr + (blocks result + 0)) (drop_list result arr).
Proof. eapply destroy_gives_up; [apply discard_gives_up|cbn [oblocks]; lia]. Qed.

Lemma empty_list_yields key is_list :
  good_string key ->
  yields pol msg_blocks (replies req (JObject (decorated srv is_list [(key, JArray [])]))) safe 0 (scope_text srv)
    (empty_list srv req key is_list).
Proof.
  intros Hkey. unfold empty_list. apply with_array_yields. intros result arr Hw Hr Hwa Ha.
  apply store_array_yields; [done..|]. intros o Hwo Ho. rewrite Ha in Ho. by apply respond_ok_yields.
Qed.

Lemma empty_result_yields :
  yields pol msg_blocks (replies req (JObject (decorated srv false []))) safe 0 (scope_text srv) (empty_result srv req).
Proof.
  unfold empty_result. eapply new_yields; [apply object_new_attempt|done|]. intros o Hw Ho. by apply respond_ok_yields.
Qed.

Lemma flag_result_yields key :
  good_string key ->
  yields pol msg_blocks (replies req (JObject (decorated srv false [(key, JBool true)]))) safe 0 (scope_text srv) (flag_result srv req key).
Proof.
  intros Hkey. unfold flag_result. eapply new_yields; [apply object_new_attempt|done|]. intros o Hw Ho.
  eapply put_yields; [apply bool_new_attempt|done|done|done|done|intros; apply discard_gives_up|]. intros o1 Hw1 Ho1.
  by apply respond_ok_yields.
Qed.
End lists.

(** ** Errors *)

(** The error response to [req] with the given code and text. *)
Definition refuses (req : mcp_message_t) (code : Z) (text : bytes) (m : mcp_message_t) : Prop :=
  answers req m /\ mcp_message_error_code (Some m) = Some (Some code) /\ mcp_message_error_text (Some m) = Some text.

Lemma err_resp_yields pol req safe code text (ok : Prop) :
  wf_msg req -> int_range code -> good_string text ->
  yields pol msg_blocks (refuses req code text) safe 0 ok (err_resp req code text).
Proof.
  intros Hw Hc [Hn Hu] h r h' _ H. pose proof H as H'.
  apply err_resp_answers in H' as (Ha & Hs & Hr); [|done..].
  split; [intros _; eapply hstep_eq; [exact Hs|]; destruct r; simpl; lia|]. split; [apply Hs|]. destruct r as [m|].
  - apply response_err_reads in H as (_ & _ & _ & _ & Hcode & Htext); [|done..]. by rewrite (cstr_no_nul text Hn) in Htext.
  - intros [A _]. by destruct (Hr A).
Qed.

(** ** A server to run *)

Lemma sample_routes_inv : routes_inv sample_rest.
Proof.
  split; try done. apply Forall_singleton. split; [done|]. split; [done|]. split; [done|].
  intros s args _ h st res s' h' H. apply bind_inv in H as (v & h1 & E & H). minv H. simplify_eq.
  destruct (object_new_attempt _ _ _ E) as [Hs Hv]. destruct v as [v|].
  - destruct Hv. split_and!; [done..|]. eapply hstep_eq; [exact Hs|simpl; lia].
  - split_and!; [done..|]. eapply hstep_eq; [exact Hs|simpl; lia].
Qed.
