(* ===== verification/Listing.v ===== *)
(** * The lists (src/server/routes.c)

    tools/list, resources/list, prompts/list and skills/list answer with one
    page of at most MCP_LIST_PAGE_SIZE entries and the cursor of the next
    page.  Here: what an entry contains, what a page contains, and that a
    client who follows the cursors sees every visible tool once, in the
    order of registration. *)
From S2P Require Import Prelude Heap Utf8 Double JsonValue JsonParse JsonNumber JsonSerialize JsonApi Schema Message Initialize Validate Builders Tasks Skills Mrtr Session Dispatcher Registry Server Routes RouteLaws.

Local Open Scope Z_scope.

(** ** Entries *)

Definition jstr (s : bytes) : json := JString (cstr s).

Definition is_text (s : bytes) : Prop := utf8_valid (cstr s) = true.

Definition ois_text (s : option bytes) : Prop := from_option is_text True s.

Definition tool_json (t : mcp_tool_t) : json :=
  JObject (joset (cs "_meta") (erase <$> tool_meta t)
    (joset (cs "outputSchema") (erase <$> tool_output_schema t)
      (joset (cs "inputSchema") (erase <$> tool_schema t)
        (joset (cs "description") (jstr <$> tool_description t) [(cs "name", jstr (tool_name t))])))).

Definition tool_text (t : mcp_tool_t) : Prop := is_text (tool_name t) /\ ois_text (tool_description t).

Definition entry_of_resource (r : mcp_resource_t) : json :=
  JObject (joset (cs "mimeType") (jstr <$> res_mime_type r)
    (jinsert (cs "name") (jstr (res_name r)) [(cs "uri", jstr (res_uri r))])).

Definition resource_text (r : mcp_resource_t) : Prop := is_text (res_uri r) /\ is_text (res_name r) /\ ois_text (res_mime_type r).

Definition entry_of_prompt (p : mcp_prompt_t) : json :=
  JObject (joset (cs "description") (jstr <$> prompt_description p) [(cs "name", jstr (prompt_name p))]).

Definition prompt_text (p : mcp_prompt_t) : Prop := is_text (prompt_name p) /\ ois_text (prompt_description p).

(** A string member of an entry that is being built. *)
Lemma entry_string_yields (P : value -> Prop) obj l key val k (ok : Prop) :
  wf obj -> erase obj = JObject l -> good_string key -> (ok -> is_text val) ->
  (forall o, wf o -> erase o = JObject (jinsert key (jstr val) l) -> yields any_policy blocks P True (blocks o + 0) ok (k o)) ->
  yields any_policy blocks P True (blocks obj + 0) ok (chk (set_string obj key val) discard k).
Proof.
  intros Hw Hl Hkey Hok Hk. eapply yields_weaken; [|exact (fun x => x)|eapply (chk_yields any_policy _ _ _ _ obj 0 _ ok _ _ 0)];
    [lia|by apply set_string_updates|done|intros; apply discard_gives_up|exact Hk].
Qed.

Lemma entry_opt_yields (P : value -> Prop) obj l key val k (ok : Prop) :
  wf obj -> erase obj = JObject l -> good_string key -> (ok -> ois_text val) ->
  (forall o, wf o -> erase o = JObject (joset key (jstr <$> val) l) -> yields any_policy blocks P True (blocks o + 0) ok (k o)) ->
  yields any_policy blocks P True (blocks obj + 0) ok (set_string_opt obj key val k).
Proof.
  intros Hw Hl Hkey Hok Hk. destruct val as [val|]; [|by apply Hk]. by eapply entry_string_yields.
Qed.

Ltac entry_step :=
  first [ eapply entry_string_yields; [eassumption|eassumption|lit|try (intros ?; tauto)|intros]
        | eapply entry_opt_yields; [eassumption|eassumption|lit|try (intros ?; tauto)|intros]
        | put_step ].

Lemma tool_entry_attempt t : tool_ok t -> attempt (tool_entry t) (tool_json t) (tool_text t).
Proof.
  intros (Hs & Ho & Hm & _). apply yields_attempt. unfold tool_entry.
  eapply new_yields; [apply object_new_attempt|done|]. intros o Hw Ho0.
  entry_step; [by intros []|]. entry_step; [by intros []|].
  entry_step; [intros a Ha; apply clone_attempt; by rewrite Ha in Hs|done|].
  entry_step; [intros a Ha; apply clone_attempt; by rewrite Ha in Ho|done|].
  entry_step; [intros a Ha; apply clone_attempt; by rewrite Ha in Hm|done|]. by apply ret_yields.
Qed.

Lemma resource_entry_attempt r : attempt (resource_entry r) (entry_of_resource r) (resource_text r).
Proof.
  apply yields_attempt. unfold resource_entry. eapply new_yields; [apply object_new_attempt|done|]. intros o Hw Ho0.
  unfold resource_text. entry_step. entry_step. entry_step. by apply ret_yields.
Qed.

Lemma prompt_entry_attempt p : attempt (prompt_entry p) (entry_of_prompt p) (prompt_text p).
Proof.
  apply yields_attempt. unfold prompt_entry. eapply new_yields; [apply object_new_attempt|done|]. intros o Hw Ho0.
  unfold prompt_text. entry_step. entry_step. by apply ret_yields.
Qed.

(** ** The tools a session sees *)

Definition visible_tools (s : mcp_session_t) (l : list mcp_tool_t) : list mcp_tool_t := filter (fun t => hidden s t = false) l.

(** The entries of [l] whose index, counted from [i], is on the page. *)
Fixpoint on_page {A} (offset : Z) (i : Z) (l : list A) : list A :=
  match l with
  | [] => []
  | x :: l' => if (i <? offset) || (add64 offset MCP_LIST_PAGE_SIZE <=? i) then on_page offset (i + 1) l' else x :: on_page offset (i + 1) l'
  end.

(** The loop is the common loop over the visible tools on the page. *)
Lemma tools_loop_page s offset fail k l : forall visible arr h,
  tools_loop s offset l visible arr fail k h =
  append_all tool_entry (on_page offset visible (visible_tools s l)) arr fail
    (fun arr => k arr (visible + Z.of_nat (length (visible_tools s l)))) h.
Proof.
  induction l as [|t l IH]; intros visible arr h; cbn [tools_loop].
  { cbn. by rewrite Z.add_0_r. }
  unfold visible_tools. rewrite filter_cons. destruct (hidden s t) eqn:Eh.
  { rewrite decide_False by done. apply IH. }
  rewrite decide_True by done. cbn [on_page length]. rewrite Nat2Z.inj_succ.
  replace (visible + Z.succ _) with (visible + 1 + Z.of_nat (length (visible_tools s l))) by (unfold visible_tools; lia).
  fold (visible_tools s l). destruct (_ || _); [apply IH|]. cbn [append_all].
  unfold bind. destruct (tool_entry t h) as [[e|] h1]; [|done].
  destruct (builtin_array_append (Some arr) (Some e) h1) as [[st [arr'|]] h2]; [|by destruct st].
  destruct st; [apply IH|done..].
Qed.

(** Without wrap-around the page is a segment of the list. *)
Lemma on_page_segment {A} offset (l : list A) : forall i,
  0 <= i -> 0 <= offset -> offset + MCP_LIST_PAGE_SIZE < 2 ^ 64 ->
  on_page offset i l =
  if offset <=? i then take (Z.to_nat (offset + MCP_LIST_PAGE_SIZE - i)) l
  else take (Z.to_nat MCP_LIST_PAGE_SIZE) (drop (Z.to_nat (offset - i)) l).
Proof.
  unfold MCP_LIST_PAGE_SIZE. induction l as [|x l IH]; intros i Hi Ho Hw; cbn [on_page].
  { rewrite drop_nil, !take_nil. by destruct (_ <=? _). }
  unfold add64, MCP_LIST_PAGE_SIZE. rewrite Z.mod_small, IH by lia.
  destruct (Z.ltb_spec i offset).
  - cbn [orb]. rewrite (proj2 (Z.leb_gt offset i)) by lia.
    replace (Z.to_nat (offset - i)) with (S (Z.to_nat (offset - (i + 1)))) by lia. cbn [drop].
    destruct (Z.leb_spec offset (i + 1)); [|done]. replace (offset - (i + 1)) with 0 by lia. cbn [drop].
    f_equal. lia.
  - rewrite (proj2 (Z.leb_le offset i)), (proj2 (Z.leb_le offset (i + 1))) by lia. cbn [orb].
    destruct (Z.leb_spec (offset + 100) i).
    + replace (Z.to_nat (offset + 100 - (i + 1))) with O by lia. replace (Z.to_nat (offset + 100 - i)) with O by lia. done.
    + replace (Z.to_nat (offset + 100 - i)) with (S (Z.to_nat (offset + 100 - (i + 1)))) by lia. done.
Qed.

(** The page at [offset]. *)
Definition page {A} (offset : Z) (l : list A) : list A := take (Z.to_nat MCP_LIST_PAGE_SIZE) (drop (Z.to_nat offset) l).

Lemma page_sub {A} offset (l : list A) x : x ∈ page offset l -> x ∈ l.
Proof.
  intros Hx. rewrite <- (take_drop (Z.to_nat offset) l). apply elem_of_app. right.
  rewrite <- (take_drop (Z.to_nat MCP_LIST_PAGE_SIZE)). apply elem_of_app. by left.
Qed.

Definition tools_page (s : mcp_session_t) (offset : Z) (l : list mcp_tool_t) : list mcp_tool_t := page offset (visible_tools s l).

Lemma page_tools_sub s offset l t : t ∈ tools_page s offset l -> t ∈ l.
Proof.
  intros Ht. apply page_sub in Ht. unfold visible_tools in Ht. by apply list_elem_of_filter in Ht as [_ ?].
Qed.

Lemma on_page_tools s offset l :
  0 <= offset -> offset + MCP_LIST_PAGE_SIZE < 2 ^ 64 -> on_page offset 0 (visible_tools s l) = tools_page s offset l.
Proof.
  intros Ho Hw. rewrite on_page_segment by lia. unfold tools_page, page. destruct (Z.leb_spec offset 0); [|by rewrite Z.sub_0_r].
  replace offset with 0 by lia. done.
Qed.

Lemma page_offset_nonneg req : 0 <= page_offset req.
Proof.
  unfold page_offset. destruct (builtin_object_get _ _) as [cur|]; [|done].
  destruct (builtin_get_string _) as [str|]; [|done]. destruct (cstr str) as [|b l]; [done|].
  assert (forall s off, 0 <= off -> 0 <= offset_loop s off) as Hl; [|by apply Hl].
  induction s as [|c s IH]; intros off Ho; cbn [offset_loop]; [done|]. destruct (isdigit c); [|done].
  apply IH. apply Z.mod_pos_bound. lia.
Qed.

(** The cursor after the page at [offset] of [n] entries. *)
Definition cursor_after (offset : Z) (n : nat) : option Z :=
  if offset + MCP_LIST_PAGE_SIZE <? Z.of_nat n then Some (offset + MCP_LIST_PAGE_SIZE) else None.

Lemma cursor_after_nonneg offset n : 0 <= offset -> from_option (Z.le 0) True (cursor_after offset n).
Proof. intros Ho. unfold cursor_after, MCP_LIST_PAGE_SIZE. destruct (_ <? _); simpl; [lia|done]. Qed.

(** Everything printable: the page's entries and the cache scope. *)
Definition page_text {A} (is_printable : A -> Prop) (srv : server_rest) (l : list A) : Prop :=
  scope_text srv /\ Forall is_printable l.

(** A list handler, once its page and next cursor are fixed. *)
Lemma listing_yields {A} pol req safe srv (Q : A -> json -> Prop) mk (ok1 : A -> Prop) l key next fail :
  wf_msg req -> owf (response_meta srv) -> u64 (list_ttl_ms srv) -> good_string key -> from_option (Z.le 0) True next ->
  (forall result arr, gives_up (blocks arr + (blocks result + 0)) (fail result arr)) ->
  (forall x, x ∈ l -> yields pol blocks (fun v => wf v /\ Q x (erase v)) safe 0 (ok1 x) (mk x)) ->
  yields pol msg_blocks (fun m => exists js, Forall2 Q l js /\ replies req (list_result srv key js next) m) safe 0 (page_text ok1 srv l)
    (with_result_array (fun result arr =>
     append_all mk l arr (fail result) (fun arr => finish_list srv req result arr key next))).
Proof.
  intros Hreq Hm Ht Hkey Hn Hfail Hmk. apply with_array_yields. intros result arr Hw Hr Hwa Ha.
  apply (append_all_yields pol _ _ safe (fun x v => Q x (erase v)) mk ok1 _ _ _ _ l arr []); [done| |done|done|intros; apply Hfail|].
  { intros [_ Hf] x Hx. by eapply Forall_forall in Hf. }
  intros arr' vs Hw' Ha' Hf2. eapply yields_impl; [done| |done|exact (fun H : page_text ok1 srv l => proj1 H)|
    eapply (finish_list_yields pol req Hreq safe srv Hm Ht _ _ _ (map erase vs)); [done..|exact (fun H => H)]].
  intros m Hrep. exists (map erase vs). split; [|done]. by apply Forall2_fmap_r.
Qed.

Lemma attempt_exact {A} (f : A -> json) pol mk (ok1 : A -> Prop) safe x :
  attempt (mk x) (f x) (ok1 x) -> yields pol blocks (fun v => wf v /\ erase v = f x) safe 0 (ok1 x) (mk x).
Proof. apply attempt_yields. Qed.

Lemma Forall2_exact {A} (f : A -> json) l js : Forall2 (fun x j => j = f x) l js -> js = f <$> l.
Proof. induction 1; simpl; by f_equal. Qed.

Lemma on_page_sub {A} offset (l : list A) x : forall i, x ∈ on_page offset i l -> x ∈ l.
Proof.
  induction l as [|y l IH]; intros i Hx; cbn [on_page] in Hx; [done|]. destruct (_ || _); [right; by eapply IH|].
  apply elem_of_cons in Hx as [->|Hx]; [by left|right; by eapply IH].
Qed.

(** tools/list for any offset, wrap-around included. *)
Lemma tools_list_general pol safe srv s req :
  wf_msg req -> routes_inv srv -> page_offset req <> SIZE_MAX ->
  let end_ := add64 (page_offset req) MCP_LIST_PAGE_SIZE in
  let visible := visible_tools s (tools srv) in
  let pg := on_page (page_offset req) 0 visible in
  yields pol msg_blocks
    (replies req (list_result srv (cs "tools") (tool_json <$> pg) (if end_ <? Z.of_nat (length visible) then Some end_ else None)))
    safe 0 (page_text tool_text srv pg) (route_tools_list srv s req).
Proof.
  intros Hreq Hinv Hmax end_ visible pg. unfold route_tools_list. cbv zeta. rewrite (proj2 (Z.eqb_neq _ _)) by done.
  set (next := if end_ <? Z.of_nat (length visible) then Some end_ else None).
  assert (from_option (Z.le 0) True next) as Hnext.
  { unfold next. destruct (_ <? _); [|done]. unfold end_, add64. cbn [from_option]. apply Z.mod_pos_bound. lia. }
  assert (yields pol msg_blocks (fun m => exists js, Forall2 (fun t j => j = tool_json t) pg js /\
            replies req (list_result srv (cs "tools") js next) m) safe 0 (page_text tool_text srv pg)
     (with_result_array (fun result arr =>
        append_all tool_entry pg arr (drop_list result) (fun arr => finish_list srv req result arr (cs "tools") next)))) as Hy.
  { apply listing_yields; [done|apply Hinv|apply Hinv|lit|done|intros; apply drop_gives_up|].
    intros t Htl. apply attempt_exact, tool_entry_attempt. eapply Forall_forall; [apply Hinv|].
    apply on_page_sub in Htl. unfold visible, visible_tools in Htl. by apply list_elem_of_filter in Htl as [_ ?]. }
  intros h r h' Hp H.
  eapply (yields_impl pol pol) in Hy; [apply (Hy h r h' Hp)|done| |exact (fun x => x)|exact (fun x => x)].
  2: { intros m (js & Hf & Hr). by rewrite <- (Forall2_exact _ _ _ Hf). }
  rewrite <- H. unfold with_result_array, bind. destruct (builtin_new_object h) as [[o|] h1]; destruct (builtin_new_array h1) as [[a|] h2]; try done.
  by rewrite tools_loop_page.
Qed.

Lemma tools_list_yields pol safe srv s req :
  wf_msg req -> routes_inv srv -> page_offset req <> SIZE_MAX ->
  page_offset req + MCP_LIST_PAGE_SIZE < 2 ^ 64 ->
  let pg := tools_page s (page_offset req) (tools srv) in
  yields pol msg_blocks
    (replies req (list_result srv (cs "tools") (tool_json <$> pg)
                    (cursor_after (page_offset req) (length (visible_tools s (tools srv))))))
    safe 0 (page_text tool_text srv pg) (route_tools_list srv s req).
Proof.
  intros Hreq Hinv Hmax Hw pg. pose proof (page_offset_nonneg req) as Ho.
  assert (add64 (page_offset req) MCP_LIST_PAGE_SIZE = page_offset req + MCP_LIST_PAGE_SIZE) as Ha
    by (apply Z.mod_small; unfold MCP_LIST_PAGE_SIZE in *; lia).
  pose proof (tools_list_general pol safe srv s req Hreq Hinv Hmax) as Hg. cbv zeta in Hg. by rewrite on_page_tools, Ha in Hg.
Qed.

(** ** The other lists *)

Lemma slice_page {A} offset (l : list A) :
  0 <= offset -> offset + MCP_LIST_PAGE_SIZE < 2 ^ 64 ->
  slice l offset (page_end offset (length l)) = page offset l /\ next_page (page_end offset (length l)) (length l) = cursor_after offset (length l).
Proof.
  intros Ho Hw. unfold page_end, next_page, cursor_after, slice, page, add64. rewrite Z.mod_small by (unfold MCP_LIST_PAGE_SIZE in *; lia).
  unfold MCP_LIST_PAGE_SIZE in *. destruct (Z.ltb_spec (offset + 100) (Z.of_nat (length l))).
  - rewrite (proj2 (Z.ltb_lt offset (offset + 100))) by lia. rewrite (proj2 (Z.ltb_lt (offset + 100) _)) by lia.
    split; [|done]. do 2 f_equal. lia.
  - rewrite Z.ltb_irrefl. split; [|done]. destruct (Z.ltb_spec offset (Z.of_nat (length l))).
    + rewrite !take_ge; [done|rewrite length_drop; lia..].
    + rewrite drop_ge by lia. by rewrite take_nil.
Qed.

(** The handlers over a plain registry, for any offset. *)
Lemma registry_list_general {A} pol safe srv req (l : list A) mk (Q : A -> json -> Prop) ok1 key fail :
  wf_msg req -> routes_inv srv -> good_string key ->
  (forall result arr, gives_up (blocks arr + (blocks result + 0)) (fail result arr)) ->
  (forall x, x ∈ l -> yields pol blocks (fun v => wf v /\ Q x (erase v)) safe 0 (ok1 x) (mk x)) ->
  let end_ := page_end (page_offset req) (length l) in
  let pg := slice l (page_offset req) end_ in
  yields pol msg_blocks (fun m => exists js, Forall2 Q pg js /\ replies req (list_result srv key js (next_page end_ (length l))) m)
    safe 0 (page_text ok1 srv pg)
    (with_result_array (fun result arr =>
     append_all mk pg arr (fail result)
       (fun arr => finish_list srv req result arr key (next_page end_ (length l))))).
Proof.
  intros Hreq Hinv Hkey Hfail Hmk end_ pg. pose proof (page_offset_nonneg req) as Ho.
  assert (0 <= end_) as He by (unfold end_, page_end, add64; destruct (_ <? _); [apply Z.mod_pos_bound|]; lia).
  apply listing_yields; [done|apply Hinv|apply Hinv|done|unfold next_page; by destruct (_ <? _)|done|].
  intros x Hx. apply Hmk. unfold pg, slice in Hx. destruct (_ <? _); [|by apply elem_of_nil in Hx].
  rewrite <- (take_drop (Z.to_nat (page_offset req)) l). apply elem_of_app. right.
  rewrite <- (take_drop (Z.to_nat (end_ - page_offset req))). apply elem_of_app. by left.
Qed.

Lemma registry_list_yields {A} pol safe srv req (l : list A) mk (f : A -> json) ok1 key :
  wf_msg req -> routes_inv srv -> page_offset req + MCP_LIST_PAGE_SIZE < 2 ^ 64 -> good_string key ->
  (forall x, x ∈ l -> attempt (mk x) (f x) (ok1 x)) ->
  let pg := page (page_offset req) l in
  let end_ := page_end (page_offset req) (length l) in
  yields pol msg_blocks (replies req (list_result srv key (f <$> pg) (cursor_after (page_offset req) (length l))))
    safe 0 (page_text ok1 srv pg)
    (with_result_array (fun result arr =>
     append_all mk (slice l (page_offset req) end_) arr (fun arr => drop_list result arr)
       (fun arr => finish_list srv req result arr key (next_page end_ (length l))))).
Proof.
  intros Hreq Hinv Hw Hkey Hmk pg end_. subst end_ pg. pose proof (page_offset_nonneg req) as Ho.
  destruct (slice_page (page_offset req) l Ho Hw) as [<- <-].
  eapply (yields_impl pol pol);
    [done| |exact (fun x => x)|exact (fun x => x)|
     apply (registry_list_general pol safe srv req l mk (fun x j => j = f x) ok1 key drop_list); [done..|intros; apply drop_gives_up|]].
  - intros m (js & Hf & Hr). by rewrite <- (Forall2_exact _ _ _ Hf).
  - intros x Hx. by apply attempt_exact, Hmk.
Qed.

Lemma resources_list_yields pol safe srv req :
  wf_msg req -> routes_inv srv -> page_offset req <> SIZE_MAX -> page_offset req + MCP_LIST_PAGE_SIZE < 2 ^ 64 ->
  let pg := page (page_offset req) (resources srv) in
  yields pol msg_blocks
    (replies req (list_result srv (cs "resources") (entry_of_resource <$> pg) (cursor_after (page_offset req) (length (resources srv)))))
    safe 0 (page_text resource_text srv pg) (route_resources_list srv req).
Proof.
  intros Hreq Hinv Hmax Hw pg. unfold route_resources_list. cbv zeta. rewrite (proj2 (Z.eqb_neq _ _)) by done.
  apply registry_list_yields; [done..|lit|]. intros r _. apply resource_entry_attempt.
Qed.

Lemma prompts_list_yields pol safe srv req :
  wf_msg req -> routes_inv srv -> page_offset req <> SIZE_MAX -> page_offset req + MCP_LIST_PAGE_SIZE < 2 ^ 64 ->
  let pg := page (page_offset req) (prompts srv) in
  yields pol msg_blocks
    (replies req (list_result srv (cs "prompts") (entry_of_prompt <$> pg) (cursor_after (page_offset req) (length (prompts srv)))))
    safe 0 (page_text prompt_text srv pg) (route_prompts_list srv req).
Proof.
  intros Hreq Hinv Hmax Hw pg. unfold route_prompts_list. cbv zeta. rewrite (proj2 (Z.eqb_neq _ _)) by done.
  apply registry_list_yields; [done..|lit|]. intros r _. apply prompt_entry_attempt.
Qed.

(** ** Following the cursors *)

(** A tools/list request with a cursor, as a client sends it. *)
Definition list_request (cursor : option bytes) : mcp_message_t :=
  Message (VObject 4
    [(cs "jsonrpc", VString (cs "2.0")); (cs "id", VNumber (double_of_Z 1)); (cs "method", VString (cs "tools/list"));
     (cs "params", match cursor with None => VObject 0 [] | Some c => VObject 1 [(cs "cursor", VString c)] end)]).

(** The elements of an array, as JSON. *)
Definition items_of (v : option value) : list json := match v with Some (VArray _ l) => map erase l | _ => [] end.

(** A client: it asks for a page and, while there is a cursor, for the next
    one; at most [n] requests.  Each response is destroyed once read. *)
Fixpoint walk (n : nat) (srv : server_rest) (s : mcp_session_t) (cursor : option bytes) : M (option (list json)) :=
  match n with
  | O => ret None
  | S n =>
      r <- route_tools_list srv s (list_request cursor) ;;
      match r with
      | None => ret None
      | Some m =>
          let result := mcp_message_result (Some m) in
          let items := items_of (builtin_object_get result (Some (cs "tools"))) in
          let next := get_string result (cs "nextCursor") in
          mcp_message_destroy (Some m) ;;
          match next with
          | None => ret (Some items)
          | Some c => l <- walk n srv s (Some c) ;; ret (app items <$> l)
          end
      end
  end.

Lemma list_request_wf cursor : from_option good_string True cursor -> wf_msg (list_request cursor).
Proof.
  intros Hc. split; [|eexists; reflexivity]. cbn [dom list_request]. apply wf_object. split; [cbn; lia|].
  split; [apply (bool_decide_unpack _); vm_compute; exact I|].
  apply Forall_cons. split; [split; [lit|lit]|]. apply Forall_cons. split; [split; [lit|cbn [snd wf]; by vm_compute]|].
  apply Forall_cons. split; [split; [lit|lit]|]. apply Forall_singleton. split; [lit|]. cbn [snd].
  destruct cursor as [c|]; [|split; [done|split; [constructor|done]]]. apply wf_object. split; [cbn; lia|].
  split; [apply NoDup_singleton|]. apply Forall_singleton. split; [lit|done].
Qed.

Lemma list_request_offset n : 0 <= n < 2 ^ 64 -> page_offset (list_request (Some (fmt_int n))) = n.
Proof.
  intros Hn. destruct (fmt_int_digits n) as (Ha & _ & Hne); [lia|]. destruct (fmt_int_text n) as [H0 _]; [lia|].
  unfold page_offset.
  change (builtin_object_get (mcp_message_params (Some (list_request (Some (fmt_int n))))) (Some (cs "cursor")))
    with (Some (VString (fmt_int n))). cbn [builtin_get_string]. rewrite (cstr_no_nul _ H0).
  destruct (fmt_int n) as [|b l] eqn:E; [done|]. rewrite <- E. by apply cursor_offset.
Qed.

(** What a client reads in a page of tools. *)
Lemma list_result_reads srv items next m req :
  wf_msg m -> replies req (list_result srv (cs "tools") items next) m ->
  let result := mcp_message_result (Some m) in
  items_of (builtin_object_get result (Some (cs "tools"))) = items /\
  get_string result (cs "nextCursor") = fmt_int <$> next.
Proof.
  intros Hwm [_ Hr] result. fold result in Hr. destruct result as [v|] eqn:Ev; [|done]. injection Hr as Hv.
  assert (wf v) as Hw by (eapply (get_key_wf m (cs "result")); [done|lit|exact Ev]).
  pose proof (member_meaning v _ (cs "tools") Hw Hv ltac:(lit)) as Ht.
  pose proof (member_meaning v _ (cs "nextCursor") Hw Hv ltac:(lit)) as Hn.
  unfold decorated in Ht, Hn. revert Ht Hn. rewrite !jlookup_joset. jlook. rewrite !jlookup_joset. jlook. intros Ht Hn.
  change (jlookup (cs "tools") [(cs "tools", JArray items)]) with (Some (JArray items)) in Ht.
  change (jlookup (cs "nextCursor") [(cs "tools", JArray items)]) with (@None json) in Hn. unfold get_string.
  destruct (builtin_object_get (Some v) (Some (cs "tools"))) as [[]|]; try discriminate Ht. injection Ht as Ht. split; [exact Ht|].
  destruct next as [n|]; cbn [fmap option_fmap option_map] in *.
  - destruct (builtin_object_get (Some v) (Some (cs "nextCursor"))) as [[]|]; try discriminate Hn. by injection Hn as ->.
  - destruct (builtin_object_get (Some v) (Some (cs "nextCursor"))); [discriminate Hn|done].
Qed.

Section walk.
Context (srv : server_rest) (s : mcp_session_t) (Hinv : routes_inv srv).
Context (Hscope : scope_text srv) (Htext : Forall tool_text (visible_tools s (tools srv))).
Context (Hsize : Z.of_nat (length (visible_tools s (tools srv))) + MCP_LIST_PAGE_SIZE < 2 ^ 64).

Let visible := visible_tools s (tools srv).

(** One page. *)
Lemma walk_page cursor offset h r h' :
  wf_msg (list_request cursor) -> page_offset (list_request cursor) = offset -> offset + MCP_LIST_PAGE_SIZE < 2 ^ 64 -> ample h ->
  route_tools_list srv s (list_request cursor) h = (r, h') ->
  exists m, r = Some m /\ hstep h h' (msg_blocks m) /\ wf_msg m /\
    replies (list_request cursor) (list_result srv (cs "tools") (tool_json <$> page offset visible) (cursor_after offset (length visible))) m.
Proof.
  intros Hw <- Hlt A H. assert (page_offset (list_request cursor) <> SIZE_MAX) as Hmax by (unfold SIZE_MAX, MCP_LIST_PAGE_SIZE in *; lia).
  destruct (tools_list_yields any_policy True srv s (list_request cursor) Hw Hinv Hmax Hlt h r h' I H) as (Hs & _ & Hr).
  destruct r as [m|].
  - exists m. split; [done|]. split; [eapply hstep_eq; [apply Hs; by left|simpl; lia]|]. split; [apply Hr|exact Hr].
  - destruct Hr. split; [done|]. split; [done|]. apply Forall_forall. intros t Ht. eapply Forall_forall; [exact Htext|by eapply page_sub].
Qed.

Lemma walk_from n : forall cursor offset h r h',
  wf_msg (list_request cursor) -> page_offset (list_request cursor) = offset -> offset <= Z.of_nat (length visible) -> ample h ->
  Z.of_nat (length visible) < offset + MCP_LIST_PAGE_SIZE * Z.of_nat n ->
  walk n srv s cursor h = (r, h') -> r = Some (tool_json <$> drop (Z.to_nat offset) visible) /\ hstep h h' 0.
Proof.
  induction n as [|n IH]; intros cursor offset h r h' Hw Ho Hle A Hn H; [lia|]. cbn [walk] in H.
  apply bind_inv in H as (r1 & h1 & E & H).
  assert (0 <= offset) as H0 by (rewrite <- Ho; apply page_offset_nonneg).
  destruct (walk_page cursor offset _ _ _ Hw Ho ltac:(subst visible; lia) A E) as (m & -> & Hs & Hwm & Hr).
  destruct (list_result_reads _ _ _ _ _ Hwm Hr) as [Hi Hc]. cbv zeta in H, Hi, Hc. rewrite Hi, Hc in H.
  apply bind_inv in H as (u & h2 & E2 & H). apply message_destroy_hstep in E2. cbn [omsg_blocks] in E2.
  assert (hstep h h2 0) as Hs2 by (eapply hstep_trans; [exact Hs|exact E2|lia]).
  unfold cursor_after in H. unfold MCP_LIST_PAGE_SIZE in *. destruct (Z.ltb_spec (offset + 100) (Z.of_nat (length visible))) as [Hlt|Hge].
  - cbn [fmap option_fmap option_map] in H. apply bind_inv in H as (l & h3 & E3 & H). minv H.
    apply (IH _ (offset + 100)) in E3 as [-> Hs3];
      [|apply list_request_wf, fmt_int_text; lia|apply list_request_offset; subst visible; lia|lia|by eapply ample_hstep|lia].
    split; [|eapply hstep_trans; [exact Hs2|exact Hs3|lia]]. cbn [fmap option_fmap option_map]. f_equal.
    rewrite <- fmap_app. apply (f_equal (fmap tool_json)). unfold page, MCP_LIST_PAGE_SIZE.
    rewrite <- (take_drop (Z.to_nat 100) (drop (Z.to_nat offset) visible)) at 2. f_equal. rewrite drop_drop. f_equal. lia.
  - cbn [fmap option_fmap option_map] in H. minv H. split; [|done]. apply (f_equal (fun l => Some (tool_json <$> l))). unfold page, MCP_LIST_PAGE_SIZE. apply take_ge. rewrite length_drop. lia.
Qed.
End walk.

(** ** Claims *)

(** Tools/list answers a request whose cursor stands for [offset] with
    the response to that request whose result lists, in the order of
    registration, the entries [offset] to [offset + 99] of the tools the
    session may see (each with its name, description, schemas and _meta),
    and a nextCursor of [offset + 100] exactly when more tools follow; NULL
    only without memory or when a string is not UTF-8, and in every case the
    blocks taken are those of the response. *)
Theorem tools_list_page srv s req h r h' :
  wf_msg req -> routes_inv srv -> page_offset req + MCP_LIST_PAGE_SIZE < 2 ^ 64 ->
  route_tools_list srv s req h = (r, h') ->
  let pg := tools_page s (page_offset req) (tools srv) in
  hstep h h' (omsg_blocks r) /\
  match r with
  | Some m => replies req (list_result srv (cs "tools") (tool_json <$> pg)
                             (cursor_after (page_offset req) (length (visible_tools s (tools srv))))) m
  | None => ~ (ample h /\ page_text tool_text srv pg)
  end.
Proof.
  intros Hw Hinv Hlt H pg. assert (page_offset req <> SIZE_MAX) as Hmax by (unfold SIZE_MAX, MCP_LIST_PAGE_SIZE in *; lia).
  destruct (tools_list_yields any_policy True srv s req Hw Hinv Hmax Hlt h r h' I H) as (Hs & _ & Hr).
  split; [|by destruct r]. eapply hstep_eq; [apply Hs; by left|]. destruct r; simpl; lia.
Qed.

(** Resources/list and prompts/list answer with the entries [offset] to
    [offset + 99] of the registry in order and with the cursor of the next
    page exactly when more entries follow. *)
Theorem registry_list_pages srv req h r1 h1 r2 h2 :
  wf_msg req -> routes_inv srv -> page_offset req + MCP_LIST_PAGE_SIZE < 2 ^ 64 ->
  route_resources_list srv req h = (r1, h1) -> route_prompts_list srv req h = (r2, h2) ->
  let off := page_offset req in
  hstep h h1 (omsg_blocks r1) /\ hstep h h2 (omsg_blocks r2) /\
  match r1 with
  | Some m => replies req (list_result srv (cs "resources") (entry_of_resource <$> page off (resources srv))
                             (cursor_after off (length (resources srv)))) m
  | None => ~ (ample h /\ page_text resource_text srv (page off (resources srv)))
  end /\
  match r2 with
  | Some m => replies req (list_result srv (cs "prompts") (entry_of_prompt <$> page off (prompts srv))
                             (cursor_after off (length (prompts srv)))) m
  | None => ~ (ample h /\ page_text prompt_text srv (page off (prompts srv)))
  end.
Proof.
  intros Hw Hinv Hlt H1 H2 off. assert (page_offset req <> SIZE_MAX) as Hmax by (unfold SIZE_MAX, MCP_LIST_PAGE_SIZE in *; lia).
  destruct (resources_list_yields any_policy True srv req Hw Hinv Hmax Hlt h r1 h1 I H1) as (S1 & _ & R1).
  destruct (prompts_list_yields any_policy True srv req Hw Hinv Hmax Hlt h r2 h2 I H2) as (S2 & _ & R2).
  split; [eapply hstep_eq; [apply S1; by left|destruct r1; simpl; lia]|].
  split; [eapply hstep_eq; [apply S2; by left|destruct r2; simpl; lia]|]. split; [by destruct r1|by destruct r2].
Qed.

(** C23: A client that starts without a cursor and sends back each
    nextCursor, to a server whose tools do not change on the way, gets, after
    at most one request per hundred tools and one more, the entries of all
    the tools its session may see, each once and in the order of the server's
    array (the order of registration until a removal moves the last tool into
    the hole); no block is lost on the way.  Memory is not refused, the
    registries keep their invariant, the names and descriptions of the tools
    and the cache scope are UTF-8, and the number of tools plus a page fits 64
    bits. *)
Theorem tools_walk_complete srv s h :
  routes_inv srv -> ample h -> page_text tool_text srv (visible_tools s (tools srv)) ->
  Z.of_nat (length (visible_tools s (tools srv))) + MCP_LIST_PAGE_SIZE < 2 ^ 64 ->
  let n := length (visible_tools s (tools srv)) in
  exists h', walk (S (n / Z.to_nat MCP_LIST_PAGE_SIZE)) srv s None h = (Some (tool_json <$> visible_tools s (tools srv)), h') /\
    hstep h h' 0.
Proof.
  intros Hinv A [Hsc Ht] Hsize n. destruct (walk (S (n / Z.to_nat MCP_LIST_PAGE_SIZE)) srv s None h) as [r h'] eqn:E. exists h'.
  apply (walk_from srv s Hinv Hsc Ht Hsize _ None 0) in E as [-> Hs]; [by split|by apply list_request_wf|done|lia|done|].
  fold n. unfold MCP_LIST_PAGE_SIZE. pose proof (Nat.mul_succ_div_gt n 100 ltac:(lia)) as Hd. change (Z.to_nat 100) with 100%nat. lia.
Qed.

(** The cursor is read modulo 2^64: the cursor 2^64 is the first page. *)
Theorem cursor_wraps : page_offset (list_request (Some (fmt_int (2 ^ 64)))) = 0.
Proof. vm_compute. reflexivity. Qed.

(** ** Witnesses *)

Lemma tools_list_page_witness :
  exists r h', route_tools_list sample_rest new_session sample_request fresh_heap = (r, h') /\
  hstep fresh_heap h' (omsg_blocks r) /\
  match r with
  | Some m => replies sample_request (list_result sample_rest (cs "tools") (tool_json <$> tools_page new_session 0 [echo_tool])
                             (cursor_after 0 (length (visible_tools new_session [echo_tool])))) m
  | None => ~ (ample fresh_heap /\ page_text tool_text sample_rest (tools_page new_session 0 [echo_tool]))
  end.
Proof.
  eexists _, _. split; [apply surjective_pairing|].
  apply (tools_list_page sample_rest new_session sample_request fresh_heap);
    [apply sample_request_wf|apply sample_routes_inv|vm_compute; reflexivity|apply surjective_pairing].
Defined.

Lemma registry_list_pages_witness :
  exists r1 h1 r2 h2, route_resources_list sample_rest sample_request fresh_heap = (r1, h1) /\
  route_prompts_list sample_rest sample_request fresh_heap = (r2, h2) /\
  hstep fresh_heap h1 (omsg_blocks r1) /\ hstep fresh_heap h2 (omsg_blocks r2) /\
  match r1 with
  | Some m => replies sample_request (list_result sample_rest (cs "resources") [] None) m
  | None => ~ (ample fresh_heap /\ page_text resource_text sample_rest [])
  end /\
  match r2 with
  | Some m => replies sample_request (list_result sample_rest (cs "prompts") [] None) m
  | None => ~ (ample fresh_heap /\ page_text prompt_text sample_rest [])
  end.
Proof.
  eexists _, _, _, _. split; [apply surjective_pairing|]. split; [apply surjective_pairing|].
  apply (registry_list_pages sample_rest sample_request fresh_heap);
    [apply sample_request_wf|apply sample_routes_inv|vm_compute; reflexivity|apply surjective_pairing|apply surjective_pairing].
Defined.

Lemma tools_walk_complete_witness :
  exists h', walk 1 sample_rest new_session None fresh_heap = (Some [tool_json echo_tool], h') /\ hstep fresh_heap h' 0.
Proof.
  apply (tools_walk_complete sample_rest new_session fresh_heap);
    [apply sample_routes_inv|apply fresh_ample| |vm_compute; reflexivity].
  split; [exact I|]. apply Forall_singleton. split; [vm_compute; reflexivity|exact I].
Defined.
