(* ===== verification/Discover.v ===== *)
(** * server/discover (src/server/routes.c)

    The handler builds one object in place: the "capabilities" object is
    stored in the result and then filled through the pointer that was kept,
    and so is the "extensions" object inside it.  Its failure paths destroy
    some values twice, so the block count is only promised with memory. *)
From S2P Require Import Prelude Heap Utf8 Double JsonValue JsonParse JsonNumber JsonSerialize JsonApi Schema Message Initialize Validate Builders Tasks Skills Mrtr Session Dispatcher Registry Server Routes RouteLaws.

Local Open Scope Z_scope.

(** ** Steps that may free too much *)

(** [m] returns NULL; the block count may be wrong afterwards. *)
Definition abandons {B} (m : M (option B)) : Prop := forall h r h', m h = (r, h') -> r = None /\ fails h' = fails h.

Lemma destroy_abandons {B} v (m : M (option B)) : abandons m -> abandons (builtin_destroy v ;; m).
Proof.
  intros Hm h r h' H. apply bind_inv in H as (u & h1 & E & H). apply builtin_destroy_hstep in E.
  destruct (Hm _ _ _ H) as [-> Hf]. split; [done|]. rewrite Hf. apply E.
Qed.

Lemma none_abandons {B} : abandons (ret (@None B)).
Proof. intros h r h' H. minv H. done. Qed.

Section unsafe.
Context (pol : (nat -> bool) -> Prop) (P : mcp_message_t -> Prop).

(** Storing a new member where the failure path may free too much: the
    balance is only promised with memory. *)
Lemma take_unsafe obj l key v fail k g (ok : Prop) :
  wf obj -> erase obj = JObject l -> jlookup key l = None -> wf v -> good_string key ->
  (forall o, abandons (fail o)) ->
  (forall o, wf o -> erase o = JObject (jinsert key (erase v) l) -> points o key v ->
     yields pol msg_blocks P False (blocks o + g) ok (k o)) ->
  yields pol msg_blocks P False (blocks obj + blocks v + g) ok (chk (object_set_take (Some obj) key (Some v)) fail k).
Proof.
  intros Hw Hl Hnew Hwv Hkey Hfail Hk h r h' Hp H. unfold chk in H. apply bind_inv in H as ([st r1] & h1 & E & H).
  destruct (take_updates obj l key v Hw Hl Hwv Hkey _ _ _ _ E) as (o & -> & Hwo & Hs & [[-> He]|(Hn & _ & Hna)]).
  - assert (points o key v) as Hpt.
    { destruct obj as [| | | | |c m]; try discriminate Hl. destruct o as [| | | | |c' m']; try discriminate He.
      unfold object_set_take, mcp_json_object_set_take in E. apply bind_inv in E as ([st1 r1] & h2 & E & E2). cbn [fst] in E2.
      destruct st1; minv E2; simplify_eq. eapply object_set_points; [exact E|done|done|].
      pose proof (member_meaning _ _ key Hw Hl Hkey) as Hm. rewrite Hnew in Hm. by destruct (builtin_object_get _ _). }
    eapply (step_yields pol _ _ False h h1 _ _ _ (blocks o + g)); [intros _; exact Hs|apply Hs|lia|done|by apply Hk|exact H].
  - assert (fail o h1 = (r, h')) as H' by (by destruct st). destruct (Hfail _ _ _ _ H') as [-> Hf].
    split; [intros [[]|A]; by destruct Hna|]. split; [by rewrite Hf, (hstep_fails _ _ _ Hs)|]. by intros [A _]; destruct Hna.
Qed.

(** A new empty object, for a step whose failure path only abandons. *)
Lemma new_unsafe (fail : M (option mcp_message_t)) k g (ok : Prop) :
  abandons fail ->
  (forall o, wf o -> erase o = JObject [] -> yields pol msg_blocks P False (blocks o + g) ok (k o)) ->
  yields pol msg_blocks P False g ok (o <- builtin_new_object ;; match o with None => fail | Some o => k o end).
Proof.
  intros Hfail Hk h r h' Hp H. apply bind_inv in H as (o & h1 & E & H). destruct (object_new_attempt _ _ _ E) as [Hs Ho]. destruct o as [o|].
  - destruct Ho. eapply (step_yields pol _ _ False h h1 _ _ _ (blocks o + g)); [intros _; exact Hs|apply Hs|simpl; lia|done|by apply Hk|exact H].
  - destruct (Hfail _ _ _ H) as [-> Hf]. split; [intros [[]|A]; by destruct Ho|]. split; [by rewrite Hf, (hstep_fails _ _ _ Hs)|].
    by intros [A _]; destruct Ho.
Qed.

Lemma extension_yields exts l key fail k g (ok : Prop) :
  wf exts -> erase exts = JObject l -> jlookup key l = None -> good_string key -> (forall o, abandons (fail o)) ->
  (forall o, wf o -> erase o = JObject (jinsert key (JObject []) l) -> yields pol msg_blocks P False (blocks o + g) ok (k o)) ->
  yields pol msg_blocks P False (blocks exts + g) ok (add_extension exts key fail k).
Proof.
  intros Hw Hl Hnew Hkey Hfail Hk. unfold add_extension. apply new_unsafe; [apply Hfail|]. intros ext Hwx Hx.
  eapply yields_weaken; [|exact (fun x => x)|eapply (take_unsafe exts l key ext _ _ g)]; [lia|done..| |].
  - intros o. by apply destroy_abandons.
  - intros o Hwo Ho _. rewrite Hx in Ho. by apply Hk.
Qed.

(** The extensions object two levels down. *)
Lemma with_exts_spec result l caps lc exts exts' :
  wf result -> erase result = JObject l -> points result (cs "capabilities") caps -> wf caps -> erase caps = JObject lc ->
  points caps (cs "extensions") exts -> wf exts' ->
  exists result', with_exts result exts' = Some result' /\ wf result' /\ blocks result' = blocks result - blocks exts + blocks exts' /\
    erase result' = JObject (jinsert (cs "capabilities") (JObject (jinsert (cs "extensions") (erase exts') lc)) l).
Proof.
  intros Hw Hl Hp Hwc Hc Hpc Hwe. destruct result as [| | | | |c m]; try discriminate Hl. destruct caps as [| | | | |cc mc]; try discriminate Hc.
  rewrite erase_object in Hl, Hc. injection Hl as <-. injection Hc as <-.
  assert (builtin_object_get (Some (VObject c m)) (Some (cs "capabilities")) = Some (VObject cc mc)) as Hg.
  { destruct Hp as (c' & m' & i & Heq & Hf & Hi). injection Heq as <- <-. cbn [builtin_object_get].
    change (cstr (cs "capabilities")) with (cs "capabilities"). cbn [negb]. 
    change (utf8_valid (cs "capabilities")) with true. cbn [negb]. rewrite Hf, Hi. done. }
  unfold with_exts. rewrite Hg.
  destruct (put_child_spec cc mc (cs "extensions") exts exts' Hwc ltac:(lit) Hpc Hwe) as (mc' & -> & Hwc' & Hbc & Hmc).
  destruct (put_child_spec c m (cs "capabilities") (VObject cc mc) (VObject cc mc') Hw ltac:(lit) Hp Hwc') as (m' & -> & Hw' & Hb & Hm').
  eexists. split; [done|]. split; [done|]. split; [lia|]. by rewrite erase_object, Hm', erase_object, Hmc.
Qed.
End unsafe.

(** ** The result *)

Definition tasks_key : bytes := cs "io.modelcontextprotocol/tasks".
Definition skills_key : bytes := cs "io.modelcontextprotocol/skills".

(** "capabilities": one empty object per extension that is enabled. *)
Definition enabled {A} (o : option A) : option json := match o with None => None | Some _ => Some (JObject []) end.

Definition extensions_json (srv : server_rest) : list (bytes * json) :=
  joset skills_key (enabled (skill_reg srv)) (joset tasks_key (enabled (task_mgr srv)) []).

Definition capabilities_json (srv : server_rest) : option json :=
  if has_extensions srv then Some (JObject [(cs "extensions", JObject (extensions_json srv))]) else None.

Section extensions.
Context (pol : (nat -> bool) -> Prop) (P : mcp_message_t -> Prop) (srv : server_rest).

Lemma fill_yields result l caps lc exts k (ok : Prop) :
  wf result -> erase result = JObject l -> points result (cs "capabilities") caps -> wf caps -> erase caps = JObject lc ->
  points caps (cs "extensions") exts -> wf exts -> erase exts = JObject [] ->
  (forall o, wf o ->
     erase o = JObject (jinsert (cs "capabilities") (JObject (jinsert (cs "extensions") (JObject (extensions_json srv)) lc)) l) ->
     yields pol msg_blocks P False (blocks o + 0) ok (k o)) ->
  yields pol msg_blocks P False (blocks result) ok (fill_extensions srv result exts k).
Proof.
  intros Hw Hl Hp Hwc Hc Hpc Hwe He Hk. unfold fill_extensions. cbv zeta.
  assert (forall e, abandons (builtin_destroy (with_exts result e) ;; ret (@None mcp_message_t))) as Hfail
    by (intros e; apply destroy_abandons, none_abandons).
  assert (forall e, wf e -> erase e = JObject (extensions_json srv) ->
    yields pol msg_blocks P False (blocks e + (blocks result - blocks exts)) ok
      (match with_exts result e with Some result => k result | None => ret None end)) as Hfin.
  { intros e Hw' He'. destruct (with_exts_spec result l caps lc exts e) as (r' & -> & Hwr & Hb & Hr); [done..|].
    rewrite He' in Hr. eapply yields_weaken; [|exact (fun x => x)|by apply Hk]. lia. }
  assert (forall e, wf e -> erase e = JObject (joset tasks_key (enabled (task_mgr srv)) []) ->
    yields pol msg_blocks P False (blocks e + (blocks result - blocks exts)) ok
      (match skill_reg srv with
       | None => match with_exts result e with Some result => k result | None => ret None end
       | Some _ => add_extension e (cs "io.modelcontextprotocol/skills") (fun exts => builtin_destroy (with_exts result exts) ;; ret None)
                     (fun exts => match with_exts result exts with Some result => k result | None => ret None end)
       end)) as Hsk.
  { intros e Hw' He'. unfold extensions_json in Hfin. destruct (skill_reg srv); [|by apply Hfin].
    eapply extension_yields; [done|exact He'| |lit|done|]; [by destruct (task_mgr srv)|]. intros o Hwo Ho. by apply Hfin. }
  replace (blocks result) with (blocks exts + (blocks result - blocks exts)) by lia.
  destruct (task_mgr srv); [|by apply Hsk]. eapply extension_yields; [done|exact He|done|lit|done|]. intros o Hwo Ho. by apply Hsk.
Qed.

Lemma put_points c m key x y :
  wf (VObject c m) -> good_string key -> points (VObject c m) key x -> wf y ->
  forall o, put_child (Some (VObject c m)) key y = Some o -> points o key y.
Proof.
  intros Hw Hk (c' & m' & i & Heq & Hf & Hi) Hy o H. injection Heq as <- <-. cbn [put_child] in H. rewrite Hf in H. injection H as <-.
  exists c, (alter (fun kv => (kv.1, y)) i m), i. split; [done|]. split; [|by rewrite list_lookup_alter_eq, Hi].
  clear -Hf. revert i Hf. induction m as [|[k v] m IH]; intros i Hf; [done|]. cbn [find_key] in *.
  destruct (streq k key) eqn:Es; [injection Hf as <-; cbn; by rewrite Es|].
  destruct (find_key key m) as [j|]; [|done]. injection Hf as <-. cbn. rewrite Es. by rewrite (IH j).
Qed.

Lemma add_extensions_yields result l k (ok : Prop) :
  wf result -> erase result = JObject l -> jlookup (cs "capabilities") l = None ->
  (forall o, wf o -> erase o = JObject (joset (cs "capabilities") (capabilities_json srv) l) ->
     yields pol msg_blocks P False (blocks o + 0) ok (k o)) ->
  yields pol msg_blocks P False (blocks result + 0) ok (add_extensions srv result k).
Proof.
  intros Hw Hl Hnew Hk. unfold add_extensions, capabilities_json in *. destruct (has_extensions srv); [|by apply Hk].
  apply new_unsafe; [apply destroy_abandons, none_abandons|]; intros caps Hwc Hc.
  eapply yields_weaken; [|exact (fun x => x)|eapply (take_unsafe pol P result l _ caps _ _ 0)]; [lia|done..|lit| |].
  { intros o; apply destroy_abandons, destroy_abandons, none_abandons. }
  intros r1 Hw1 Hr1 Hp1. rewrite Hc in Hr1. apply new_unsafe; [apply destroy_abandons, none_abandons|]; intros exts Hwe He.
  eapply (yields_weaken _ _ _ _ (blocks caps + blocks exts + (blocks r1 - blocks caps))); [lia|exact (fun x => x)|].
  eapply take_unsafe; [done|exact Hc|done|done|lit|intros o; apply destroy_abandons, destroy_abandons, none_abandons|].
  intros caps' Hwc' Hc' Hpc'. rewrite He in Hc'. destruct r1 as [| | | | |c m]; try discriminate Hr1.
  destruct (put_child_spec c m (cs "capabilities") caps caps' Hw1 ltac:(lit) Hp1 Hwc') as (m' & Hput & Hw' & Hb & Hm).
  pose proof (put_points c m (cs "capabilities") caps caps' Hw1 ltac:(lit) Hp1 Hwc' _ Hput) as Hp'. rewrite Hput.
  rewrite erase_object in Hr1. injection Hr1 as Hr1.
  eapply yields_weaken; [|exact (fun x => x)|eapply fill_yields; [done|apply erase_object|exact Hp'|done|exact Hc'|done..|]]; [lia|].
  intros o Hwo Ho. apply Hk; [done|]. rewrite Ho, Hm, Hr1, Hc'. cbn [joset from_option]. f_equal.
  rewrite !jinsert_twice. done.
Qed.
End extensions.

(** ** The handler *)

Definition discover_members (srv : server_rest) : list (bytes * json) :=
  let count {A} (l : list A) := JNumber (double_of_Z (Z.of_nat (length l))) in
  joset (cs "capabilities") (capabilities_json srv)
  (jinsert (cs "supportsMeta") (JBool true)
  (jinsert (cs "supportsStateless") (JBool true)
  (joset (cs "listCacheScope") (JString ∘ cstr <$> list_cache_scope srv)
  (joset (cs "listTtlMs") ((fun n => JNumber (double_of_Z n)) <$> (if list_ttl_ms srv =? 0 then None else Some (list_ttl_ms srv)))
  (jinsert (cs "promptsCount") (count (prompts srv))
  (jinsert (cs "resourcesCount") (count (resources srv))
  (jinsert (cs "toolsCount") (count (tools srv))
  (jinsert (cs "protocolVersion") (JString MCP_PROTOCOL_VERSION_LATEST)
  (jinsert (cs "serverVersion") (JString (cstr (srv_version srv)))
    [(cs "serverName", JString (cstr (srv_name srv)))]))))))))).

Definition discover_text (srv : server_rest) : Prop :=
  utf8_valid (cstr (srv_name srv)) = true /\ utf8_valid (cstr (srv_version srv)) = true /\ scope_text srv.

Lemma discover_yields pol req srv :
  wf_msg req -> routes_inv srv ->
  yields pol msg_blocks (replies req (JObject (decorated srv true (discover_members srv)))) False 0 (discover_text srv)
    (route_server_discover srv req).
Proof.
  intros Hreq Hinv. destruct (sizes_ok _ Hinv) as (Ht & Hr & Hp). unfold route_server_discover. cbv zeta.
  eapply new_yields; [apply object_new_attempt|done|]. intros o0 Hw0 Ho0.
  put_step; [apply string_new_attempt|by apply H|]. put_step; [apply string_new_attempt|by apply H1|].
  put_step; [apply (string_no_nul MCP_PROTOCOL_VERSION_LATEST); reflexivity|done|].
  put_step; [by apply u64_attempt|done|]. put_step; [by apply u64_attempt|done|]. put_step; [by apply u64_attempt|done|].
  eapply put_opt_yields; [|intros|eassumption|eassumption|lit|intros; apply discard_gives_up|intros].
  { intros n Hn. apply u64_attempt. destruct (_ =? _); [done|]. injection Hn as <-. apply Hinv. }
  { exact I. }
  eapply put_opt_yields; [|intros|eassumption|eassumption|lit|intros; apply discard_gives_up|intros].
  { intros sc _. apply string_new_attempt. }
  { destruct H14 as (_ & _ & Hs). unfold scope_text in Hs. by rewrite H13 in Hs. }
  put_step; [apply bool_new_attempt|done|]. put_step; [apply bool_new_attempt|done|].
  eapply add_extensions_yields; [done|eassumption| |].
  { jlook. rewrite !jlookup_joset. by jlook. }
  intros res Hwr Hres. eapply yields_weaken; [done|exact (fun x : discover_text srv => proj2 (proj2 x))|].
  apply respond_ok_yields; [done|apply Hinv|apply Hinv|done|exact Hres].
Qed.

(** ** Claims *)

(** Where memory is available and the server's strings are UTF-8,
    server/discover answers with exactly the server's name and version, the
    protocol version, the sizes of the three registries, the cache
    parameters that are set, the two support flags, and under
    capabilities.extensions one empty object per extension that is enabled
    (no capabilities at all when none is), taking the blocks of the
    response. *)
Theorem discover_result srv req h r h' :
  wf_msg req -> routes_inv srv -> discover_text srv -> ample h -> route_server_discover srv req h = (r, h') ->
  exists m, r = Some m /\ hstep h h' (msg_blocks m) /\ replies req (JObject (decorated srv true (discover_members srv))) m.
Proof.
  intros Hreq Hinv Ht A H. destruct (discover_yields any_policy req srv Hreq Hinv h r h' I H) as (Hs & _ & Hr).
  destruct r as [m|]; [|by destruct Hr]. exists m. split; [done|]. split; [|done].
  eapply hstep_eq; [apply Hs; by right|simpl; lia].
Qed.

(** The failure paths of the extensions free too much: when the tasks
    extension cannot be stored it is destroyed twice, and of the block
    that was live before the call none is left. *)
Theorem discover_double_free :
  exists h', route_server_discover (set_task_mgr (Some (TaskMgr [] 0)) (empty_rest (cs "s") (cs "1"))) sample_request
    (Heap (fun k => Nat.eqb k 35) 0 1 false) = (None, h') /\ corrupt h' = false /\ live h' = 0.
Proof. eexists. split; [vm_compute; reflexivity|]. vm_compute. done. Qed.

(** ** Witnesses *)

Definition tasks_server : server_rest := set_task_mgr (Some (TaskMgr [] 0)) sample_rest.

Lemma tasks_server_inv : routes_inv tasks_server.
Proof. destruct sample_routes_inv. split; try done. split; [constructor|constructor|done]. Qed.

Lemma discover_result_witness :
  exists r h', route_server_discover tasks_server sample_request fresh_heap = (r, h') /\
  exists m, r = Some m /\ hstep fresh_heap h' (msg_blocks m) /\
    replies sample_request (JObject (decorated tasks_server true (discover_members tasks_server))) m.
Proof.
  eexists _, _. split; [apply surjective_pairing|].
  apply (discover_result tasks_server sample_request fresh_heap);
    [apply sample_request_wf|apply tasks_server_inv|split; [|split]; vm_compute; reflexivity|apply fresh_ample|apply surjective_pairing].
Defined.
