(* ===== verification/Handlers.v ===== *)
(** * Every handler answers (src/server/routes.c)

    For each method: the handler returns the response to its request (or
    NULL), leaves the dispatcher's state alone, keeps the server's invariant
    and, with memory, accounts for every block.  So the table of handlers is
    a lawful [Router], and what Dispatcher.v and Lifecycle.v prove of any
    lawful router holds of the server as it is. *)
From S2P Require Import Prelude Heap Utf8 Double JsonValue JsonParse JsonNumber JsonSerialize JsonApi Schema Message Initialize Validate Builders Tasks Skills Mrtr Queue Session Dispatcher Lifecycle Registry Server Routes RouteLaws Listing Discover.

Local Open Scope Z_scope.

(** ** Handlers that only read *)

(** [m] answers [req], consuming [given] blocks when there is memory. *)
Definition serves (req : mcp_message_t) (given : Z) (m : M (option mcp_message_t)) : Prop :=
  yields any_policy msg_blocks (answers req) False given False m.

Lemma serves_run req given m h r h' : serves req given m -> m h = (r, h') ->
  from_option (answers req) True r /\ fails h' = fails h /\ (ample h -> hstep h h' (omsg_blocks r - given)).
Proof.
  intros Hm H. destruct (Hm h r h' I H) as (Hs & Hf & Hr). split; [by destruct r|]. split; [done|].
  intros A. eapply hstep_eq; [apply Hs; by right|]. by destruct r.
Qed.

Section serves.
Context (req : mcp_message_t) (Hreq : wf_msg req).

Lemma serves_replies j pol (safe ok : Prop) given m :
  (forall F, pol F) -> yields pol msg_blocks (replies req j) safe given ok m -> serves req given m.
Proof. intros Hp. apply yields_impl; [done|by intros ? []|done|done]. Qed.

Lemma serves_some {A} (P : A -> mcp_message_t -> Prop) (safe ok : Prop) given m :
  (forall a b, P a b -> answers req b) -> yields any_policy msg_blocks (fun b => exists a, P a b) safe given ok m -> serves req given m.
Proof. intros HP. apply yields_impl; [done|intros b [a Ha]; by eapply HP|done|done]. Qed.

Lemma serves_err code text : int_range code -> good_string text -> serves req 0 (err_resp req code text).
Proof.
  intros Hc Ht. eapply yields_impl; [| | | |by apply (err_resp_yields any_policy req True code text True Hreq)]; [done|by intros ? []|done|done].
Qed.

Lemma serves_respond srv result l is_list :
  routes_inv srv -> wf result -> erase result = JObject l -> serves req (blocks result + 0) (respond_ok srv req result is_list).
Proof. intros Hi Hw Hl. eapply serves_replies; [|apply (respond_ok_yields any_policy req Hreq srv result l is_list True)]; try done; apply Hi. Qed.

Lemma serves_send result : wf result -> serves req (blocks result + 0) (send_ok req result).
Proof. intros Hw. eapply serves_replies; [|apply (send_ok_yields any_policy req Hreq result True True)]; done. Qed.

(** A value made first. *)
Lemma serves_make (Q : value -> Prop) mk (k : value -> M (option mcp_message_t)) (ok : Prop) :
  yields any_policy blocks Q False 0 ok mk -> (forall v, Q v -> serves req (blocks v + 0) (k v)) ->
  serves req 0 (v <- mk ;; match v with None => ret None | Some v => k v end).
Proof.
  intros Hmk Hk. eapply build_yields; [exact Hmk|done| |done]. intros h r h' H. minv H. split; [done|hsolve].
Qed.

Lemma serves_attempt mk j ok (k : value -> M (option mcp_message_t)) :
  attempt mk j ok -> (forall v, wf v -> erase v = j -> serves req (blocks v + 0) (k v)) ->
  serves req 0 (v <- mk ;; match v with None => ret None | Some v => k v end).
Proof. intros Hmk Hk. eapply serves_make; [by apply attempt_yields|]. intros v []. auto. Qed.

Lemma serves_update m obj given l' ok k :
  updates m obj given l' ok -> (forall o, wf o -> erase o = JObject l' -> serves req (blocks o + 0) (k o)) ->
  serves req (blocks obj + given + 0) (chk m discard k).
Proof. intros Hm Hk. eapply chk_yields; [exact Hm|done|intros; apply discard_gives_up|exact Hk]. Qed.

Lemma serves_eq given given' m : given = given' -> serves req given m -> serves req given' m.
Proof. by intros <-. Qed.

(** ** Lists *)

Context (srv : server_rest) (Hinv : routes_inv srv).

Lemma empty_list_serves key is_list : good_string key -> serves req 0 (empty_list srv req key is_list).
Proof. intros Hk. eapply serves_replies; [|apply (empty_list_yields any_policy req Hreq True srv (meta_ok _ Hinv) (ttl_ok _ Hinv))]; done. Qed.

Lemma empty_result_serves : serves req 0 (empty_result srv req).
Proof. eapply serves_replies; [|apply (empty_result_yields any_policy req Hreq True srv (meta_ok _ Hinv) (ttl_ok _ Hinv))]; done. Qed.

Lemma flag_result_serves key : good_string key -> serves req 0 (flag_result srv req key).
Proof. intros Hk. eapply serves_replies; [|apply (flag_result_yields any_policy req Hreq True srv (meta_ok _ Hinv) (ttl_ok _ Hinv))]; done. Qed.

Ltac refuse := apply serves_err; [done|lit].

Lemma tools_list_serves s : serves req 0 (route_tools_list srv s req).
Proof.
  destruct (decide (page_offset req = SIZE_MAX)) as [He|Hne].
  - unfold route_tools_list. cbv zeta. rewrite He, Z.eqb_refl. refuse.
  - eapply serves_replies; [|by apply (tools_list_general any_policy True)]. done.
Qed.

Lemma registry_serves {A} (l : list A) mk (Q : A -> json -> Prop) ok1 key fail text :
  good_string key -> good_string text ->
  (forall result arr, gives_up (blocks arr + (blocks result + 0)) (fail result arr)) ->
  (forall x, x ∈ l -> yields any_policy blocks (fun v => wf v /\ Q x (erase v)) False 0 (ok1 x) (mk x)) ->
  let end_ := page_end (page_offset req) (length l) in
  serves req 0
    (if page_offset req =? SIZE_MAX then err_resp req MCP_RPC_INVALID_PARAMS text else
     with_result_array (fun result arr =>
     append_all mk (slice l (page_offset req) end_) arr (fail result)
       (fun arr => finish_list srv req result arr key (next_page end_ (length l))))).
Proof.
  intros Hk Ht Hf Hmk end_. destruct (_ =? _); [by apply serves_err|].
  eapply serves_some; [|by apply (registry_list_general any_policy False srv req l mk Q ok1 key fail)].
  by intros js m (_ & ? & _).
Qed.

Lemma resources_list_serves : serves req 0 (route_resources_list srv req).
Proof.
  apply (registry_serves _ _ (fun x j => j = entry_of_resource x) resource_text); [lit|lit|intros; apply drop_gives_up|].
  intros x _. apply attempt_exact, resource_entry_attempt.
Qed.

Lemma prompts_list_serves : serves req 0 (route_prompts_list srv req).
Proof.
  apply (registry_serves _ _ (fun x j => j = entry_of_prompt x) prompt_text); [lit|lit|intros; apply drop_gives_up|].
  intros x _. apply attempt_exact, prompt_entry_attempt.
Qed.

Lemma completion_list_serves : serves req 0 (route_completion_list srv req).
Proof. unfold route_completion_list. destruct (_ =? _); [refuse|]. apply empty_list_serves. lit. Qed.

(** ** Skills *)

Lemma skill_serves sk : good_skill sk ->
  yields any_policy blocks (fun v => wf v /\ exists l, erase v = JObject l) False 0 (utf8_valid (sk_uri sk) = true) (mcp_skill_to_json (Some sk)).
Proof.
  intros Hg. eapply yields_impl; [| | | |apply (skill_json_yields any_policy False); done]; [done| |done|done].
  intros v (Hw & Ho & _). by split.
Qed.

Lemma skills_list_serves : serves req 0 (route_skills_list srv req).
Proof.
  unfold route_skills_list. destruct (skill_reg srv) as [reg|] eqn:Er; [|refuse].
  pose proof (reg_ok_inv _ Hinv) as Hreg. rewrite Er in Hreg.
  apply (registry_serves _ _ (fun _ j => exists l, j = JObject l) (fun sk => utf8_valid (sk_uri sk) = true) _
           (fun result arr => builtin_destroy (Some arr) ;; discard result)); [lit|lit| |].
  - intros result arr. eapply destroy_gives_up; [apply discard_gives_up|done].
  - intros sk Hsk. apply skill_serves. eapply Forall_forall; [apply Hreg|done].
Qed.

Lemma skills_get_serves : serves req 0 (route_skills_get srv req).
Proof.
  unfold route_skills_get. destruct (skill_reg srv) as [reg|] eqn:Er; [|refuse].
  pose proof (reg_ok_inv _ Hinv) as Hreg. rewrite Er in Hreg. cbv zeta.
  set (key := match get_string _ (cs "name") with Some n => _ | None => _ end). destruct key as [key|]; [|refuse].
  destruct (mcp_skill_registry_find (Some reg) (Some key)) as [[i sk]|] eqn:Ef; [|refuse].
  assert (good_skill sk) as Hg.
  { cbn [mcp_skill_registry_find] in Ef. destruct (find_skill _ _) as [j|]; [|done].
    destruct (skills reg !! j) as [sk'|] eqn:Ej; [|done]. cbn in Ef. simplify_eq.
    eapply Forall_lookup_1; [apply Hreg|exact Ej]. }
  eapply serves_make; [by apply skill_serves|intros v (Hw & l & Hl); by eapply serves_respond].
Qed.

(** ** Discover and tasks *)

Lemma discover_serves : serves req 0 (route_server_discover srv req).
Proof. eapply serves_replies; [|by apply (discover_yields any_policy)]. done. Qed.

(** Strings of a request have no NUL. *)
Lemma get_string_good v k s : owf v -> good_string k -> get_string v k = Some s -> good_string s.
Proof.
  intros Hw Hk H. unfold get_string in H. destruct (builtin_object_get v (Some k)) as [x|] eqn:Eg; [|done].
  destruct v as [v|]; [|done]. destruct v as [| | | | |c m]; try done. pose proof (object_get_cases c m k Hw Hk) as Hg.
  rewrite Eg in Hg. destruct Hg as [_ Hwx]. destruct x; try done. cbn in H. simplify_eq. done.
Qed.

Lemma params_wf : owf (mcp_message_params (Some req)).
Proof.
  destruct (mcp_message_params (Some req)) as [p|] eqn:Ep; [|done]. eapply (get_key_wf req (cs "params")); [done|lit|exact Ep].
Qed.

Lemma member_wf v k : owf v -> good_string k -> owf (builtin_object_get v (Some k)).
Proof.
  intros Hw Hk. destruct v as [v|]; [|done]. destruct v as [| | | | |c m]; try done.
  pose proof (object_get_cases c m k Hw Hk) as Hg. destruct (builtin_object_get _ _); [apply Hg|done].
Qed.

Lemma tasks_get_serves : serves req 0 (route_tasks_get srv req).
Proof.
  unfold route_tasks_get. destruct (task_mgr srv) as [mgr|] eqn:Em; [|refuse].
  pose proof (mgr_ok _ Hinv) as Hm. rewrite Em in Hm. cbn [from_option] in Hm.
  destruct (get_string _ _) as [id|] eqn:Eid; [|refuse].
  apply get_string_good in Eid as [Hn _]; [|apply params_wf|lit]. rewrite get_spec by done.
  destruct (tmap mgr !! id) as [t|] eqn:Et; [|refuse].
  pose proof (tmap_good _ _ _ Hm Hn Et) as Hg.
  eapply serves_attempt; [by apply task_json_attempt|]. intros v Hw Hv. by eapply serves_respond.
Qed.

(** ** Errors of a failed tool *)

Lemma status_string_good st : good_string (mcp_status_string st).
Proof. destruct st; lit. Qed.

(** The result of a failed tool. *)
Definition error_json (st : mcp_status_t) : json :=
  JObject [(cs "content", JArray [JObject [(cs "type", JString (cs "text")); (cs "text", JString (mcp_status_string st))]]);
           (cs "isError", JBool true)].

Notation error_yields st := (yields any_policy msg_blocks (replies req (error_json st)) True).

(** From the finished item on. *)
Lemma error_item_yields st result content item :
  wf result -> erase result = JObject [] -> wf content -> erase content = JArray [] -> wf item ->
  erase item = JObject [(cs "type", JString (cs "text")); (cs "text", JString (mcp_status_string st))] ->
  error_yields st (blocks item + (blocks content + blocks result)) True
    (r <- builtin_array_append (Some content) (Some item) ;;
     match r with
     | (MCP_OK, Some content) => error_content req result content
     | (_, content) => builtin_destroy (Some item) ;; builtin_destroy content ;; discard result
     end).
Proof.
  intros Hwr Hr Hwc Hc Hwi Hi h r h' _ H. apply bind_inv in H as ([s1 c1] & h1 & E & H).
  destruct content as [| | | |cc lc|]; try discriminate Hc. destruct lc; try discriminate Hc.
  apply array_append_spec in E as (c' & l' & -> & Hw' & Hs & -> & Hamp); [|done..].
  destruct (decide (s1 = MCP_OK)) as [->|Hne].
  - eapply (step_yields any_policy _ _ True h h1 _ True _ (blocks result + blocks (VArray c' ([] ++ [item])) + 0));
      [intros _; exact Hs|apply Hs| |done| |exact H]; [lia|]. unfold error_content.
    eapply chk_yields; [by eapply take_updates; [done|done|done|lit]|done|intros; apply discard_gives_up|]. intros r1 Hwr1 Hr1.
    eapply put_yields; [apply bool_new_attempt|done|done|exact Hr1|lit|intros; apply discard_gives_up|]. intros r2 Hwr2 Hr2.
    cbn [app erase map] in Hr2. rewrite Hi in Hr2.
    change (error_json st) with (JObject (jinsert (cs "isError") (JBool true) (jinsert (cs "content")
      (JArray [JObject [(cs "type", JString (cs "text")); (cs "text", JString (mcp_status_string st))]]) []))).
    rewrite <- Hr2. by apply send_ok_yields.
  - assert ((builtin_destroy (Some item) ;; builtin_destroy (Some (VArray c' [])) ;; discard result) h1 = (r, h')) as H' by (by destruct s1).
    eapply (fail_yields _ _ True h h1 _ True _ (blocks item + (blocks (VArray c' []) + blocks result)));
      [intros _; exact Hs|apply Hs| |intros [A _]; auto| |exact H']; [lia|].
    eapply destroy_gives_up; [eapply destroy_gives_up; [apply discard_gives_up|reflexivity]|cbn [oblocks]; lia].
Qed.

Lemma tool_error_yields st : error_yields st 0 True (tool_error_result req st).
Proof.
  unfold tool_error_result. intros h r h' _ H.
  apply bind_inv in H as (o & h1 & E1 & H). apply bind_inv in H as (a & h2 & E2 & H). apply bind_inv in H as (i & h3 & E3 & H).
  destruct (object_new_attempt _ _ _ E1) as [S1 H1]. destruct (array_new_attempt _ _ _ E2) as [S2 H2].
  destruct (object_new_attempt _ _ _ E3) as [S3 H3].
  assert (hstep h h3 (oblocks o + oblocks a + oblocks i)) as S123 by (eapply hstep_trans; [exact S1|eapply hstep_trans; [exact S2|exact S3|reflexivity]|lia]).
  destruct (decide (is_Some o /\ is_Some a /\ is_Some i)) as [([result ->] & [content ->] & [item ->])|Hno].
  2: { assert ((builtin_destroy i ;; builtin_destroy a ;; builtin_destroy o ;; ret None) h3 = (r, h')) as H'
         by (destruct o, a, i; naive_solver). clear H.
       eapply (fail_yields _ _ True h h3 _ True 0 (oblocks o + oblocks a + oblocks i)); [intros _; exact S123|apply S123|lia| | |exact H'].
       - intros [A _]. pose proof (ample_hstep _ _ _ S1 A) as A1. pose proof (ample_hstep _ _ _ S2 A1) as A2. apply Hno.
         split; [destruct o; [done|by destruct H1]|]. split; [destruct a; [done|by destruct H2]|destruct i; [done|by destruct H3]].
       - eapply destroy_gives_up; [eapply destroy_gives_up; [eapply destroy_gives_up; [apply none_gives_up|reflexivity]|reflexivity]|lia]. }
  destruct H1 as [Hwo Ho], H2 as [Hwa Ha], H3 as [Hwi Hi]. cbn [oblocks] in S123. cbv zeta in H.
  eapply (step_yields any_policy _ _ True h h3 _ True 0 (blocks item + 0 + (blocks content + blocks result)));
    [intros _; exact S123|apply S123|lia|done| |exact H]. clear H h r h' h1 h2 h3 E1 E2 E3 S1 S2 S3 S123.
  assert (forall it, gives_up (B := mcp_message_t) (blocks it + (blocks content + blocks result))
            (builtin_destroy (Some it) ;; builtin_destroy (Some content) ;; discard result)) as Hdrop.
  { intros it. eapply destroy_gives_up; [eapply destroy_gives_up; [apply discard_gives_up|reflexivity]|cbn [oblocks]; lia]. }
  eapply chk_yields; [eapply (set_string_updates item [] (cs "type") (cs "text") True); [done|done|lit|reflexivity]|done|intros; apply Hdrop|].
  intros i1 Hw1 Hi1. destruct (status_string_good st) as [Hn Hu].
  rewrite <- (Z.add_0_r (blocks i1)).
  eapply chk_yields; [eapply (set_string_updates i1 _ (cs "text") (mcp_status_string st) True); [done|exact Hi1|lit|by rewrite cstr_no_nul]|done|intros; apply Hdrop|].
  intros i2 Hw2 Hi2. apply error_item_yields; [done..|]. rewrite Hi2, (cstr_no_nul _ Hn). done.
Qed.

Lemma tool_error_serves st : serves req 0 (tool_error_result req st).
Proof. eapply serves_replies; [|apply tool_error_yields]. done. Qed.

End serves.
