(* ===== verification/Routing.v ===== *)
(** * The handlers as a router (src/server/routes.c)

    The handlers that change the session or the server, the table
    [mcp_server_route_request] as an instance of the dispatcher's [Router]
    interface, its laws, and what follows for the whole server. *)
From S2P Require Import Prelude Heap Utf8 Double JsonValue JsonParse JsonNumber JsonSerialize JsonApi Schema Message Initialize Validate Builders Tasks Skills Mrtr Queue Session Dispatcher Lifecycle Registry Server Routes RouteLaws Listing Discover Handlers.

Local Open Scope Z_scope.

(** ** Handlers with a state *)

Section stateful.
Context {S : Type} (size : S -> Z) (good : S -> Prop) (req : mcp_message_t).

(** [m] answers [req] and returns a good state; it consumes [given] blocks,
    which include those of the state it started from. *)
Definition handles (given : Z) (m : M (option mcp_message_t * S)) : Prop :=
  forall h r s' h', m h = ((r, s'), h') ->
  from_option (answers req) True r /\ good s' /\ fails h' = fails h /\
  (ample h -> hstep h h' (omsg_blocks r + size s' - given)).

Lemma handles_ret given m s total :
  serves req given m -> good s -> total = given + size s -> handles total (r <- m ;; ret (r, s)).
Proof.
  intros Hm Hs -> h r s' h' H. apply bind_inv in H as (r1 & h1 & E & H). minv H. simplify_eq.
  destruct (serves_run _ _ _ _ _ _ Hm E) as (Ha & Hf & Hb). split; [done|]. split; [done|]. split; [done|].
  intros A. eapply hstep_eq; [by apply Hb|lia].
Qed.

(** A step of known balance first. *)
Lemma handles_bind {A} (m : M A) f given (Q : heap -> heap -> A -> Z -> Prop) :
  (forall h a h1, m h = (a, h1) -> exists d, Q h h1 a d /\ hstep h h1 d) ->
  (forall h h1 a d, Q h h1 a d -> handles (given + d) (f a)) ->
  handles given (bind m f).
Proof.
  intros Hm Hf h r s' h' H. apply bind_inv in H as (a & h1 & E & H). destruct (Hm _ _ _ E) as (d & HQ & Hs).
  destruct (Hf _ _ _ _ HQ _ _ _ _ H) as (? & ? & Hfl & Hb). split; [done|]. split; [done|].
  split; [by rewrite Hfl, (hstep_fails _ _ _ Hs)|].
  intros A0. eapply hstep_trans; [exact Hs|apply Hb; by eapply ample_hstep|lia].
Qed.

Lemma handles_none given s : good s -> given = size s -> handles given (ret (None, s)).
Proof.
  intros Hs -> h r s' h' H. minv H. simplify_eq. split; [done|]. split; [done|]. split; [done|].
  intros _. eapply hstep_eq; [apply hstep_refl|simpl; lia].
Qed.

Lemma handles_destroy v m given total : handles given m -> total = given + oblocks v -> handles total (builtin_destroy v ;; m).
Proof.
  intros Hm ->. apply (handles_bind _ _ _ (fun _ _ _ d => d = - oblocks v)).
  - intros h u h1 E. apply builtin_destroy_hstep in E. eauto.
  - intros h h1 u d ->. by replace (given + oblocks v + - oblocks v) with given by lia.
Qed.

Lemma handles_attempt mk j ok f given :
  attempt mk j ok -> handles given (f None) -> (forall v, wf v -> erase v = j -> handles (given + blocks v) (f (Some v))) ->
  handles given (bind mk f).
Proof.
  intros Hmk Hn Hf. apply (handles_bind _ _ _ (fun _ _ v d => d = oblocks v /\ match v with None => True | Some v => wf v /\ erase v = j end)).
  - intros h v h1 E. destruct (Hmk _ _ _ E) as [Hs Hv]. exists (oblocks v). by destruct v.
  - intros h h1 v d [-> Hv]. destruct v as [v|]; [destruct Hv; by apply Hf|]. by rewrite Z.add_0_r.
Qed.
End stateful.

(** ** Sessions *)

Section session.
Context (req : mcp_message_t) (Hreq : wf_msg req) (srv : server_rest) (Hinv : routes_inv srv) (s0 : mcp_session_t).

(** What the dispatcher keeps in the session. *)
Definition same_ids (s : mcp_session_t) : Prop := initialized s = initialized s0 /\ ids s = ids s0.

Notation session_handles := (handles session_blocks same_ids req).

Lemma refuse_session s code text given :
  int_range code -> good_string text -> same_ids s -> given = session_blocks s ->
  session_handles given (r <- err_resp req code text ;; ret (r, s)).
Proof. intros Hc Ht Hs ->. eapply handles_ret; [by apply serves_err|done|lia]. Qed.

Ltac refuse := apply refuse_session; [done|lit|try done|try done].

(** *** initialize *)

Lemma store_copy_spec new old set s h r h1 :
  (forall c, session_blocks (set c s) = session_blocks s - oblock old + oblock c /\ initialized (set c s) = initialized s /\ ids (set c s) = ids s) ->
  store_copy new old set s h = (r, h1) ->
  let s' := match r with inl s | inr s => s end in
  hstep h h1 (session_blocks s' - session_blocks s) /\ initialized s' = initialized s /\ ids s' = ids s.
Proof.
  intros Hset H s'. unfold store_copy in H.
  assert (r = inr s /\ h1 = h \/ r = inl s /\ hstep h h1 0 \/
          exists c, r = inr (set c s) /\ hstep h h1 (oblock c - oblock old)) as [[-> ->]|[[-> Hs]|(c & -> & Hs)]].
  { destruct new as [n|]; [|minv H; by left]. right. apply bind_inv in H as (c & h2 & E & H). apply strdup_cases in E as [E _].
    destruct c as [c|]; [|minv H; by left]. right. apply bind_inv in H as (u & h3 & E2 & H). minv H. apply srv_free_hstep in E2.
    exists (Some c). split; [done|]. eapply hstep_trans; [exact E|exact E2|]. lia. }
  - split; [eapply hstep_eq; [apply hstep_refl|]; unfold s'; lia|done].
  - split; [eapply hstep_eq; [exact Hs|]; unfold s'; lia|done].
  - destruct (Hset c) as (Hb & Hi & Hid). unfold s'. split; [eapply hstep_eq; [exact Hs|]; lia|done].
Qed.

Lemma client_info_spec info s h r h1 :
  store_client_info info s h = (r, h1) ->
  let s' := match r with inl s | inr s => s end in
  hstep h h1 (session_blocks s' - session_blocks s) /\ initialized s' = initialized s /\ ids s' = ids s.
Proof.
  intros H s'. unfold store_client_info in H. destruct info as [i|].
  2: { minv H. split; [eapply hstep_eq; [apply hstep_refl|]; unfold s'; lia|done]. }
  apply bind_inv in H as (r1 & h2 & E & H). apply store_copy_spec in E as (Hs & Hi & Hd).
  2: { intros c. unfold session_blocks, set_client_name. cbn. split; [lia|done]. }
  destruct r1 as [s1|s1]; cbn beta iota in *; [minv H; done|]. apply store_copy_spec in H as (Hs2 & Hi2 & Hd2).
  2: { intros c. unfold session_blocks, set_client_version. cbn. split; [lia|done]. }
  fold s' in Hs2, Hi2, Hd2. split; [eapply hstep_trans; [exact Hs|exact Hs2|lia]|]. by rewrite Hi2, Hd2.
Qed.

Lemma meta_wf : owf (mcp_message_meta (Some req)).
Proof.
  unfold mcp_message_meta. destruct (get_key (Some req) (cs "_meta")) as [v|] eqn:Eg; [|done].
  pose proof (get_key_wf req (cs "_meta") v Hreq ltac:(lit) Eg). by destruct (bool_decide _).
Qed.

Lemma initialize_handles : session_handles (session_blocks s0) (route_initialize srv s0 req).
Proof.
  unfold route_initialize. destruct (get_string _ (cs "protocolVersion")) as [ver|]; [|refuse].
  destruct (mcp_protocol_negotiate (Some ver)); [|refuse].
  eapply (handles_bind _ _ _ _ _ _ (fun _ _ r d => let s' := match r with inl s | inr s => s end in
            d = session_blocks s' - session_blocks s0 /\ same_ids s')).
  { intros h r h1 E. apply client_info_spec in E as (Hs & Hi & Hd). eexists. split; [split; [reflexivity|done]|exact Hs]. }
  intros h h1 r d [-> Hid]. replace (session_blocks s0 + _) with (session_blocks (match r with inl s | inr s => s end)) by lia.
  destruct r as [s|s]; [by apply handles_none|]. eapply handles_attempt; [by eapply (handshake_attempt _ (cs "serverInfo")); lit|by apply handles_none|].
  intros result Hw He. pose proof meta_wf as Hmw. destruct (mcp_message_meta (Some req)) as [meta|].
  2: { eapply handles_ret; [by eapply serves_respond|done|lia]. }
  eapply handles_attempt; [by apply clone_attempt|eapply handles_destroy; [by apply handles_none|cbn [oblocks]; lia]|].
  intros clone Hwc _. eapply handles_destroy; [eapply handles_ret; [by eapply serves_respond|done|reflexivity]|].
  unfold session_blocks, set_client_meta. cbn [ids client_meta client_name client_version sub_id_str sub_resource_uris oblocks]. lia.
Qed.
(** *** The host's callbacks *)

(** After a callback that keeps its contract. *)
Lemma callback_bind (m : M handled_by) s f given :
  callback_ok m s -> same_ids s ->
  (forall st res s', owf res -> (st <> MCP_OK -> res = None) -> same_ids s' ->
     session_handles (given + oblocks res + session_blocks s') (f (st, res, s'))) ->
  session_handles (given + session_blocks s) (bind m f).
Proof.
  intros Hm [Hi Hd] Hf.
  eapply (handles_bind _ _ _ _ _ _ (fun _ _ o d => let '(st, res, s') := o in d = oblocks res + (session_blocks s' - session_blocks s) /\
            owf res /\ (st <> MCP_OK -> res = None) /\ same_ids s')).
  - intros h [[st res] s'] h1 E. destruct (Hm _ _ _ _ _ E) as (Hw & Hn & Hi' & Hd' & Hs). eexists. split; [|exact Hs].
    split; [done|]. split; [done|]. split; [done|]. split; congruence.
  - intros h h1 [[st res] s'] d (-> & Hw & Hn & Hs). replace (given + _ + _) with (given + oblocks res + session_blocks s') by lia. by apply Hf.
Qed.

Lemma wrap_serves contents key k :
  wf contents -> good_string key ->
  (forall o, wf o -> erase o = JObject [(key, erase contents)] -> serves req (blocks o + 0) (k o)) ->
  serves req (blocks contents) (wrap_array contents key k).
Proof.
  intros Hw Hk Hc. unfold wrap_array. eapply (first_yields _ _ _ _ _ _ _ (builtin_destroy (Some contents) ;; ret None));
    [apply object_new_attempt|done| |].
  - eapply destroy_gives_up; [apply none_gives_up|cbn [oblocks]; lia].
  - intros o Hwo Ho. eapply serves_eq; [|eapply serves_update; [by eapply take_updates|exact Hc]]. lia.
Qed.

Lemma status_code_range st : int_range (mcp_status_to_rpc_code st).
Proof. by destruct st. Qed.

Lemma resources_read_handles : session_handles (session_blocks s0) (route_resources_read srv s0 req).
Proof.
  unfold route_resources_read. cbv zeta. destruct (get_string _ _) as [uri|]; [|refuse].
  destruct (find_resource srv uri) as [res|] eqn:Ef; [|refuse]. destruct (on_read res) as [f|] eqn:Eon; [|refuse].
  rewrite <- (Z.add_0_l (session_blocks s0)). apply callback_bind; [|done|].
  { eapply (Forall_forall resource_ok); [apply Hinv| |exact Eon].
    unfold find_resource, lookup_by in Ef. destruct (find_by _ _ _) as [i|]; [|done]. by eapply list_elem_of_lookup_2. }
  intros st contents s Hw Hn Hs. destruct (decide (st = MCP_OK)) as [->|Hne].
  2: { rewrite (Hn Hne). assert (session_handles (0 + oblocks None + session_blocks s)
         (r <- err_resp req (mcp_status_to_rpc_code st) (cs "resources/read: handler failed") ;; ret (r, s))) as H'; [|by destruct st].
       apply refuse_session; [apply status_code_range|lit|done|simpl; lia]. }
  destruct contents as [c|]; [|refuse]. destruct (is_array (Some c)).
  - eapply handles_ret; [apply wrap_serves; [done|lit|intros o Hwo Ho; by eapply serves_respond]|done|simpl; lia].
  - eapply handles_destroy; [apply refuse_session; [done|lit|done|reflexivity]|lia].
Qed.

Lemma prompts_get_handles : session_handles (session_blocks s0) (route_prompts_get srv s0 req).
Proof.
  unfold route_prompts_get. cbv zeta. destruct (get_string _ _) as [name|]; [|refuse].
  destruct (find_prompt srv name) as [p|] eqn:Ef; [|refuse]. destruct (on_get p) as [f|] eqn:Eon; [|refuse].
  rewrite <- (Z.add_0_l (session_blocks s0)). apply callback_bind; [|done|].
  { eapply (Forall_forall prompt_ok); [apply Hinv| |exact Eon|apply member_wf; [by apply params_wf|lit]].
    unfold find_prompt, lookup_by in Ef. destruct (find_by _ _ _) as [i|]; [|done]. by eapply list_elem_of_lookup_2. }
  intros st messages s Hw Hn Hs. destruct (decide (st = MCP_OK)) as [->|Hne].
  2: { rewrite (Hn Hne). assert (session_handles (0 + oblocks None + session_blocks s)
         (r <- err_resp req (mcp_status_to_rpc_code st) (cs "prompts/get: handler failed") ;; ret (r, s))) as H'; [|by destruct st].
       apply refuse_session; [apply status_code_range|lit|done|simpl; lia]. }
  destruct messages as [m|]; [|refuse]. destruct (is_array (Some m)).
  - eapply handles_ret; [apply wrap_serves; [done|lit|intros o Hwo Ho]|done|simpl; lia].
    destruct (prompt_description p) as [d|]; [|by eapply serves_respond].
    eapply (set_string_yields any_policy _ False _ _ _ d _ False); [done|exact Ho|lit|done|].
    intros o1 Hw1 Ho1. by eapply serves_respond.
  - eapply handles_destroy; [apply refuse_session; [done|lit|done|reflexivity]|lia].
Qed.

Lemma find_provider_in l ref_str c : find_provider l ref_str = Some c -> c ∈ l.
Proof.
  induction l as [|x l IH]; cbn [find_provider]; [done|]. destruct (has_prefix _ _); intros; simplify_eq; [by left|right; auto].
Qed.

Lemma completion_handles : session_handles (session_blocks s0) (route_completion_complete srv s0 req).
Proof.
  unfold route_completion_complete. cbv zeta. destruct (is_object _); cbn [negb]; [|refuse].
  destruct (get_string _ (cs "value")) as [ref_str|]; [|refuse].
  destruct (find_provider (completions srv) ref_str) as [c|] eqn:Ef.
  2: { eapply handles_ret; [apply empty_list_serves; [done|done|lit]|done|lia]. }
  assert (provider_ok c) as Hc by (eapply Forall_forall; [apply Hinv|by eapply find_provider_in]).
  pose proof (member_wf _ (cs "argument") (params_wf req Hreq) ltac:(lit)) as Ha.
  set (mk := match builtin_object_get _ (Some (cs "argument")) with Some a => json_clone (Some a) | None => builtin_new_null end).
  assert (exists j, attempt mk j True) as [j Hmk].
  { unfold mk. destruct (builtin_object_get _ (Some (cs "argument"))) as [a|];
      [exists (erase a); by apply clone_attempt|exists JNull; apply null_new_attempt]. }
  eapply handles_attempt; [exact Hmk|refuse|]. intros args Hwa _.
  eapply (handles_bind _ _ _ _ _ _ (fun _ _ o d => d = oblocks o.1 + (session_blocks o.2 - session_blocks s0) /\ owf o.1 /\ same_ids o.2)).
  { intros h [res s'] h1 E. destruct (Hc _ (Some args) _ _ _ _ Hwa E) as (Hw & Hi & Hd & Hs). eexists. split; [|exact Hs]. by split_and!. }
  intros h h1 [comps s] d (-> & Hw & Hs). cbn [fst snd] in *.
  eapply (handles_destroy _ _ _ _ _ (oblocks comps + session_blocks s)); [|cbn [oblocks]; lia].
  destruct comps as [cv|]; [|refuse]. destruct (is_array (Some cv)).
  - eapply handles_ret; [apply wrap_serves; [done|lit|intros o Hwo Ho; by eapply serves_respond]|done|simpl; lia].
  - eapply handles_destroy; [apply refuse_session; [done|lit|done|reflexivity]|lia].
Qed.

(** *** subscriptions/listen *)

Lemma reset_subscription_spec s h s' h1 :
  reset_subscription s h = (s', h1) -> same_ids s ->
  hstep h h1 (session_blocks s' - session_blocks s) /\ same_ids s' /\ sub_id_str s' = None /\ sub_resource_uris s' = None.
Proof.
  intros H Hs. unfold reset_subscription in H. apply bind_inv in H as (u1 & h2 & E1 & H). apply bind_inv in H as (u2 & h3 & E2 & H).
  minv H. split; [|done].
  assert (hstep h h2 (- oblock (sub_id_str s))) as S1.
  { destruct (sub_id_str s); minv E1; [apply xfree_hstep in E1; exact E1|eapply hstep_eq; [apply hstep_refl|done]]. }
  assert (hstep h2 h3 (- match sub_resource_uris s with None => 0 | Some l => 1 + uris_blocks l end)) as S2.
  { destruct (sub_resource_uris s); [|minv E2; eapply hstep_eq; [apply hstep_refl|done]].
    apply bind_inv in E2 as (u & h4 & E3 & E4). apply free_uris_hstep in E3. apply xfree_hstep in E4.
    eapply hstep_trans; [exact E3|exact E4|lia]. }
  eapply hstep_trans; [exact S1|exact S2|]. unfold session_blocks. cbn. lia.
Qed.

Lemma copy_uris_spec l : forall h r h1, copy_uris l h = (r, h1) -> hstep h h1 (uris_blocks r).
Proof.
  induction l as [|v l IH]; intros h r h1 H; cbn [copy_uris] in H.
  - minv H. eapply hstep_eq; [apply hstep_refl|done].
  - destruct (builtin_get_string (Some v)) as [u|]; [|by apply IH].
    apply bind_inv in H as (c & h2 & E & H). apply bind_inv in H as (r1 & h3 & E2 & H). minv H.
    apply strdup_cases in E as [E _]. apply IH in E2. eapply hstep_trans; [exact E|exact E2|reflexivity].
Qed.

Lemma filter_uris_spec notifs h r h1 :
  filter_uris notifs h = (r, h1) -> hstep h h1 (match r with None => 0 | Some l => 1 + uris_blocks l end).
Proof.
  intros H. unfold filter_uris in H. destruct (builtin_object_get _ _) as [[| | | |c [|v l]|]|];
    try (minv H; eapply hstep_eq; [apply hstep_refl|done]).
  apply bind_inv in H as (ok & h2 & E & H). apply xmalloc_hstep in E. destruct ok; cbn [negb] in H; [|minv H; exact E].
  apply bind_inv in H as (u & h3 & E2 & H). minv H. apply copy_uris_spec in E2. eapply hstep_trans; [exact E|exact E2|lia].
Qed.

Lemma listen_session_spec notifs h s h1 :
  listen_session s0 req notifs h = (s, h1) -> hstep h h1 (session_blocks s - session_blocks s0) /\ same_ids s.
Proof.
  intros H. unfold listen_session in H. apply bind_inv in H as (s1 & h2 & E1 & H). cbv zeta in H.
  apply bind_inv in H as (id & h3 & E2 & H). apply bind_inv in H as (uris & h4 & E3 & H). minv H.
  apply reset_subscription_spec in E1 as (S1 & Hs1 & Hid & Hu); [|done]. apply filter_uris_spec in E3.
  assert (hstep h2 h3 (oblock id)) as S2.
  { destruct (mcp_message_id_type (Some req)); [minv E2; eapply hstep_eq; [apply hstep_refl|done]|by apply strdup_cases in E2 as [? _]|
      minv E2; eapply hstep_eq; [apply hstep_refl|done]]. }
  split; [|exact Hs1]. eapply hstep_trans; [exact S1|eapply hstep_trans; [exact S2|exact E3|reflexivity]|].
  unfold session_blocks in *. rewrite Hid, Hu in *. cbn. lia.
Qed.

Lemma listen_id_attempt : attempt (listen_id req) (reply_id (Some req)) True.
Proof.
  replace (listen_id req) with (copy_id (Some req)); [by apply copy_id_attempt|].
  unfold copy_id, listen_id, mcp_message_id_type, mcp_message_id_string, mcp_message_id_number.
  by destruct (get_key (Some req) (cs "id")) as [[]|].
Qed.

(** The notification that acknowledges a subscription. *)
Lemma ack_answers params lp ml m :
  mcp_message_method (Some req) = Some (cs "subscriptions/listen") -> wf params ->
  erase params = JObject lp -> jlookup (cs "_meta") lp = Some (JObject ml) -> jlookup subscription_key ml = Some (reply_id (Some req)) ->
  wf (dom m) ->
  erase (dom m) = JObject (jset (cs "params") (Some params)
    (jinsert (cs "method") (JString (cs "notifications/subscriptions/acknowledged")) envelope)) ->
  answers req m.
Proof.
  intros Hmeth Hwp Hp Hmeta Hid Hw He. cbn [jset] in He. split; [split; [done|by eexists]|]. split.
  { eapply ok_error_code; [done|exact He| |reflexivity]. by jlook. }
  right. split; [done|]. rewrite (kind_meaning m _ Hw He), (method_meaning m _ Hw He). jlook. split; [done|]. split; [done|].
  pose proof (get_key_meaning m _ (cs "params") Hw He ltac:(lit)) as Hg. revert Hg. jlook. intros Hg.
  unfold mcp_message_params. destruct (get_key (Some m) (cs "params")) as [p|]; [|done]. injection Hg as Hg.
  exists p. split; [done|]. exists lp, ml. by rewrite Hg, Hp.
Qed.

Lemma acknowledgement_serves notifs :
  mcp_message_method (Some req) = Some (cs "subscriptions/listen") -> owf notifs -> serves req 0 (acknowledgement req notifs).
Proof.
  intros Hmeth Hn. unfold acknowledgement. intros h r h' _ H. apply bind_inv in H as (p & h1 & E1 & H). apply bind_inv in H as (mo & h2 & E2 & H).
  destruct (object_new_attempt _ _ _ E1) as [S1 H1]. destruct (object_new_attempt _ _ _ E2) as [S2 H2].
  assert (hstep h h2 (oblocks p + oblocks mo)) as S12 by (eapply hstep_trans; [exact S1|exact S2|lia]).
  destruct (decide (is_Some p /\ is_Some mo)) as [[[params ->] [meta ->]]|Hno].
  2: { assert ((builtin_destroy p ;; builtin_destroy mo ;; ret None) h2 = (r, h')) as H' by (destruct p, mo; naive_solver).
       eapply (fail_yields _ _ False h h2 _ False 0 (oblocks p + oblocks mo)); [intros _; exact S12|apply S12|lia|tauto| |exact H'].
       eapply destroy_gives_up; [eapply destroy_gives_up; [apply none_gives_up|reflexivity]|lia]. }
  destruct H1 as [Hwp Hp], H2 as [Hwm Hm]. cbn [oblocks] in S12.
  eapply (step_yields any_policy _ _ False h h2 _ False 0 (blocks meta + blocks params)); [intros _; exact S12|apply S12|lia|done| |exact H].
  clear H h r h' h1 h2 E1 E2 S1 S2 S12.
  eapply first_yields; [apply listen_id_attempt|done|eapply destroy_gives_up; [apply discard_gives_up|cbn [oblocks]; lia]|].
  intros idv Hwi Hi. eapply yields_weaken; [|exact (fun x => x)|eapply (take_unsafe any_policy _ meta [] _ idv _ _ (blocks params))];
    [lia|done..|apply subscription_key_good| |].
  { intros o. apply destroy_abandons, destroy_abandons, destroy_abandons, none_abandons. }
  intros meta1 Hwm1 Hm1 _. rewrite Hi in Hm1.
  eapply yields_weaken; [|exact (fun x => x)|eapply (take_unsafe any_policy _ params [] _ meta1 _ _ 0)]; [lia|done..|lit| |].
  { intros o. apply destroy_abandons, destroy_abandons, none_abandons. }
  intros params1 Hwp1 Hp1 _. rewrite Hm1 in Hp1.
  assert (exists j, attempt (match notifs with Some _ => json_clone notifs | None => builtin_new_object end) j True) as [j Hmk].
  { destruct notifs as [n|]; [exists (erase n); by apply clone_attempt|exists (JObject []); apply object_new_attempt]. }
  eapply first_yields; [exact Hmk|done|apply discard_gives_up|]. intros nv Hwn Hnv.
  eapply yields_weaken; [|exact (fun x => x)|eapply (take_unsafe any_policy _ params1 _ _ nv _ _ 0)]; [lia|done|exact Hp1|done|done|lit| |].
  { intros o. apply destroy_abandons, destroy_abandons, none_abandons. }
  intros params2 Hwp2 Hp2 _ h r h' _ H. apply bind_inv in H as (ack & h1 & E & H).
  apply (notification_builds _ (Some params2)) in E; [|done]. destruct ack as [m|].
  - destruct E as (Hs & Hw & He). minv H. cbn [from_option oblocks] in *. split; [intros _; eapply hstep_eq; [exact Hs|lia]|]. split; [apply Hs|].
    eapply ack_answers; [done|exact Hwp2|exact Hp2| |by rewrite jlookup_jinsert, bool_decide_true|exact Hw|exact He]. by jlook.
  - destruct E as [Hs _]. eapply (fail_yields _ _ False h h1 0 False _ (blocks params2 + 0)); [intros _; exact Hs|apply Hs|lia|tauto|apply discard_gives_up|exact H].
Qed.

Lemma listen_handles :
  mcp_message_method (Some req) = Some (cs "subscriptions/listen") ->
  session_handles (session_blocks s0) (route_subscriptions_listen s0 req).
Proof.
  intros Hmeth. unfold route_subscriptions_listen. cbv zeta. destruct (is_object _); cbn [negb]; [|refuse].
  destruct (_ && _); [refuse|].
  eapply (handles_bind _ _ _ _ _ _ (fun _ _ s d => d = session_blocks s - session_blocks s0 /\ same_ids s)).
  { intros h s h1 E. apply listen_session_spec in E as [Hs Hi]. eexists. split; [split; [reflexivity|done]|exact Hs]. }
  intros h h1 s d [-> Hs]. eapply handles_ret; [apply acknowledgement_serves; [done|]|done|lia].
  apply member_wf; [by apply params_wf|lit].
Qed.

End session.

(** ** The server *)

Definition server_size (srv : server) : Z := rest_size (rest srv).

Section server.
Context (req : mcp_message_t) (Hreq : wf_msg req) (srv0 : server).

(** The dispatcher's part is left alone and the invariant holds. *)
Definition untouched (srv : server) : Prop :=
  routes_inv (rest srv) /\
  c_requests_total srv = c_requests_total srv0 /\ c_requests_error srv = c_requests_error srv0 /\
  c_notifications_total srv = c_notifications_total srv0 /\ tracer srv = tracer srv0 /\ traces srv = traces srv0.

Notation server_handles := (handles server_size untouched req).

Lemma refuse_server srv code text given :
  int_range code -> good_string text -> untouched srv -> given = server_size srv ->
  server_handles given (r <- err_resp req code text ;; ret (r, srv)).
Proof. intros Hc Ht Hs ->. eapply handles_ret; [by apply serves_err|done|lia]. Qed.

Ltac refuse := apply refuse_server; [done|lit|try done|try done].

Lemma set_level_handles : untouched srv0 -> server_handles (server_size srv0) (route_set_level srv0 req).
Proof.
  intros H0. unfold route_set_level. destruct (get_string _ _) as [lvl|]; [|refuse]. destruct (level_of_name lvl) as [l|]; [|refuse].
  eapply handles_ret; [apply empty_result_serves; [done|apply H0]|done|reflexivity].
Qed.

(** *** resources/subscribe and resources/unsubscribe *)

Lemma size_set_subscribed l c s :
  rest_size (set_subscribed l c s) =
  rest_size s + (Z.of_nat (length l) - Z.of_nat (length (subscribed_uris s))) + (buffer c - buffer (cap_subscribed s)).
Proof.
  unfold rest_size, set_subscribed. cbn [tools cap_tools resources cap_resources prompts cap_prompts completions cap_completions srv_sessions
    outbox cap_outbox subscribed_uris cap_subscribed list_cache_scope response_meta task_mgr skill_reg]. lia.
Qed.

Lemma subscribed_inv l c s : routes_inv s -> routes_inv (set_subscribed l c s).
Proof. intros []. by split. Qed.

Lemma subscribe_spec s uri h u h1 :
  subscribe s uri h = (u, h1) ->
  let s' := match u with inl s | inr s => s end in
  hstep h h1 (rest_size s' - rest_size s) /\ exists l c, s' = set_subscribed l c s /\
  match u with
  | inr _ => l = subscribed_uris s /\ is_Some (find_by id (subscribed_uris s) uri) \/
             l = subscribed_uris s ++ [cstr uri] /\ find_by id (subscribed_uris s) uri = None
  | inl _ => l = subscribed_uris s /\ ~ ample h
  end.
Proof.
  assert (set_subscribed (subscribed_uris s) (cap_subscribed s) s = s) as Hid by (by destruct s).
  intros H s'. unfold subscribe in H. cbv zeta in H. destruct (find_by id _ uri) as [i|] eqn:Ef.
  { minv H. split; [eapply hstep_eq; [apply hstep_refl|unfold s'; lia]|]. exists (subscribed_uris s), (cap_subscribed s). split; [done|]. left. by split. }
  assert (forall cap h2 d, hstep h h2 d -> d = buffer cap - buffer (cap_subscribed s) ->
    (copy <- srv_strdup (Some uri) ;;
     match copy with
     | None => ret (inl (set_subscribed (subscribed_uris s) cap s))
     | Some copy => ret (inr (set_subscribed (subscribed_uris s ++ [copy]) cap s))
     end) h2 = (u, h1) ->
    hstep h h1 (rest_size s' - rest_size s) /\ exists l c, s' = set_subscribed l c s /\
    match u with
    | inr _ => l = subscribed_uris s /\ is_Some (@None nat) \/ l = subscribed_uris s ++ [cstr uri] /\ @None nat = None
    | inl _ => l = subscribed_uris s /\ ~ ample h
    end) as Hstore.
  { intros cap h2 d Hs -> E. apply bind_inv in E as (copy & h3 & E & E2). apply strdup_cases in E as [E Hc]. destruct copy as [copy|]; minv E2.
    - split; [unfold s'; rewrite size_set_subscribed, length_app; eapply hstep_trans; [exact Hs|exact E|cbn; lia]|].
      eexists _, _. split; [done|]. right. destruct Hc as [Hc|(_ & ? & _)]; [|done]. cbn in Hc. by simplify_eq.
    - split; [unfold s'; rewrite size_set_subscribed; eapply hstep_trans; [exact Hs|exact E|cbn; lia]|].
      eexists _, _. split; [done|]. split; [done|]. destruct Hc as [Hc|(_ & _ & Hna)]; [done|]. intros A. apply Hna. by eapply ample_hstep. }
  destruct (Nat.eqb _ _).
  - apply bind_inv in H as (ok & h2 & E & H). pose proof E as E'. apply xrealloc_hstep in E. destruct ok; cbn [negb] in H.
    + eapply Hstore; [exact E| |exact H]. by rewrite grow_cap_buffer.
    + minv H. split; [eapply hstep_eq; [exact E|unfold s'; lia]|]. exists (subscribed_uris s), (cap_subscribed s). split; [done|].
      split; [done|]. intros A. by apply xrealloc_ample_inv in E'.
  - eapply (Hstore (cap_subscribed s)); [apply hstep_refl|lia|exact H].
Qed.

Lemma find_by_in {A} (key : A -> bytes) l k i : find_by key l k = Some i -> exists x, l !! i = Some x /\ streq (key x) k = true.
Proof.
  revert i. induction l as [|x l IH]; intros i H; cbn [find_by] in H; [done|].
  destruct (streq (key x) k) eqn:E; [injection H as <-; by exists x|].
  destruct (find_by key l k) as [j|]; [|done]. injection H as <-. by apply IH.
Qed.

Lemma unsubscribe_spec s uri h s' h1 :
  unsubscribe s uri h = (s', h1) ->
  hstep h h1 (rest_size s' - rest_size s) /\ exists l, s' = set_subscribed l (cap_subscribed s) s /\
  match find_by id (subscribed_uris s) uri with None => l = subscribed_uris s | Some i => l = swap_remove i (subscribed_uris s) end.
Proof.
  intros H. unfold unsubscribe in H. destruct (find_by id _ uri) as [i|] eqn:Ef.
  - apply bind_inv in H as (u & h2 & E & H). minv H. apply xfree_hstep in E. apply find_by_in in Ef as (x & Hi & _).
    apply swap_remove_perm, Permutation_length in Hi. cbn [length] in Hi.
    split; [|by eexists]. rewrite size_set_subscribed. eapply hstep_eq; [exact E|lia].
  - minv H. split; [eapply hstep_eq; [apply hstep_refl|lia]|]. exists (subscribed_uris s). split; [by destruct s|done].
Qed.

Lemma subscription_handles is_sub : untouched srv0 -> server_handles (server_size srv0) (route_subscription srv0 req is_sub).
Proof.
  intros H0. unfold route_subscription. destruct (get_string _ _) as [uri|]; [|refuse].
  eapply (handles_bind _ _ _ _ _ _ (fun _ _ u d => let s' := match u with inl s | inr s => s end in
            d = rest_size s' - rest_size (rest srv0) /\ routes_inv s')).
  { intros h u h1 E. destruct is_sub.
    - apply subscribe_spec in E as (Hs & l & c & Hs' & _). eexists. split; [split; [reflexivity|]|exact Hs]. rewrite Hs'. apply subscribed_inv, H0.
    - apply bind_inv in E as (s' & h2 & E & E2). minv E2. apply unsubscribe_spec in E as (Hs & l & -> & _).
      eexists. split; [split; [reflexivity|]|exact Hs]. apply subscribed_inv, H0. }
  intros h h1 u d [-> Hi]. destruct H0 as (_ & H0). destruct u as [s|s]; cbn beta iota in *.
  - apply handles_none; [split; [done|exact H0]|unfold server_size; cbn; lia].
  - eapply handles_ret; [by apply empty_result_serves|split; [done|exact H0]|unfold server_size; cbn; lia].
Qed.

Lemma advanced_handles method : untouched srv0 -> server_handles (server_size srv0) (route_advanced srv0 req method).
Proof.
  intros H0. unfold route_advanced. destruct (streq method _); [by apply set_level_handles|].
  destruct (_ || _); [by apply subscription_handles|]. destruct (streq method _); [|by apply handles_none].
  eapply handles_ret; [apply empty_list_serves; [done|apply H0|lit]|done|lia].
Qed.

(** *** tasks/update and tasks/cancel *)

Lemma task_mgr_swap s mgr mgr' :
  routes_inv s -> task_mgr s = Some mgr -> mgr_inv mgr' -> mgr_blocks mgr' = mgr_blocks mgr ->
  routes_inv (set_task_mgr (Some mgr') s) /\ rest_size (set_task_mgr (Some mgr') s) = rest_size s.
Proof.
  intros [] Hm Hi Hb. split; [by split|]. unfold rest_size, set_task_mgr. cbn [tools cap_tools resources cap_resources prompts cap_prompts
    completions cap_completions srv_sessions outbox cap_outbox subscribed_uris cap_subscribed list_cache_scope response_meta task_mgr skill_reg].
  rewrite Hm. cbn [from_option]. lia.
Qed.

Lemma flag_handles mgr mgr' key :
  untouched srv0 -> task_mgr (rest srv0) = Some mgr -> mgr_inv mgr' -> mgr_blocks mgr' = mgr_blocks mgr -> good_string key ->
  server_handles (server_size srv0)
    (r <- flag_result (set_task_mgr (Some mgr') (rest srv0)) req key ;; ret (r, with_rest srv0 (set_task_mgr (Some mgr') (rest srv0)))).
Proof.
  intros [Hi H0] Hm Hi' Hb Hk. destruct (task_mgr_swap _ _ _ Hi Hm Hi' Hb) as [Hr Hs].
  eapply handles_ret; [by apply flag_result_serves|split; [done|exact H0]|unfold server_size; cbn [rest with_rest]; lia].
Qed.

Lemma tasks_update_handles : untouched srv0 -> server_handles (server_size srv0) (route_tasks_update srv0 req).
Proof.
  intros H0. unfold route_tasks_update. cbv zeta. destruct (task_mgr (rest srv0)) as [mgr|] eqn:Em; [|refuse].
  pose proof (mgr_ok _ (proj1 H0)) as Hm. rewrite Em in Hm. cbn [from_option] in Hm. destruct (get_string _ _) as [id|] eqn:Eid; [|refuse].
  apply get_string_good in Eid as [Hn _]; [|by apply params_wf|lit]. rewrite get_spec by done. destruct (tmap mgr !! id) as [t|]; [|refuse].
  eapply flag_handles; [done|done| | |lit]; destruct (bool_decide _); try done.
  all: destruct (mcp_task_mgr_set_status _ _ _ _) as [st mgr'] eqn:E;
    by destruct (quiet_update (TSetStatus id MCP_TASK_STATUS_WORKING (Some (cs "Input received; resuming"))) mgr st mgr' Hm Hn E).
Qed.

Lemma tasks_cancel_handles : untouched srv0 -> server_handles (server_size srv0) (route_tasks_cancel srv0 req).
Proof.
  intros H0. unfold route_tasks_cancel. cbv zeta. destruct (task_mgr (rest srv0)) as [mgr|] eqn:Em; [|refuse].
  pose proof (mgr_ok _ (proj1 H0)) as Hm. rewrite Em in Hm. cbn [from_option] in Hm. destruct (get_string _ _) as [id|] eqn:Eid; [|refuse].
  apply get_string_good in Eid as [Hn _]; [|by apply params_wf|lit].
  destruct (mcp_task_mgr_cancel mgr (Some id)) as [st mgr'] eqn:E. destruct (quiet_update (TCancel id) mgr st mgr' Hm Hn E) as [Hi Hb].
  destruct (decide (st = MCP_OK)) as [->|Hne].
  - eapply flag_handles; [done|done|done|done|lit].
  - assert (server_handles (server_size srv0) (r <- err_resp req MCP_RPC_INVALID_PARAMS (cs "tasks/cancel: task not found") ;; ret (r, srv0))) as H'
      by refuse. by destruct st.
Qed.
End server.
