(* ===== verification/ToolCall.v ===== *)
(** * tools/call (src/server/routes.c)

    The checks before a handler runs, the handler, and what becomes of its
    result.  The checks are compared with a specification of who may call
    what: the tool is registered under the name, the session sees it, the
    arguments satisfy the tool's schema, and every permission the tool asks
    for is granted. *)
From S2P Require Import Prelude Heap Utf8 Double JsonValue JsonParse JsonNumber JsonSerialize JsonApi Schema Message Initialize Validate Builders Tasks Skills Mrtr Queue Session Dispatcher Lifecycle Registry Server Routes RouteLaws Listing Discover Handlers Routing.

Local Open Scope Z_scope.

(** ** Who may call what *)

(** The arguments as the check sees them: absent ones are null. *)
Definition call_args (req : mcp_message_t) : value :=
  default VNull (builtin_object_get (mcp_message_params (Some req)) (Some (cs "arguments"))).

Record may_call (srv : server_rest) (s : mcp_session_t) (req : mcp_message_t) (t : mcp_tool_t) : Prop := MayCall {
  call_named : exists name, get_string (mcp_message_params (Some req)) (cs "name") = Some name /\ find_tool srv name = Some t;
  call_seen : t ∈ visible_tools s (tools srv);
  call_valid : is_retry t (mcp_message_params (Some req)) = true \/
    from_option (fun schema => valid (erase schema) (erase (call_args req))) True (tool_schema t);
  call_granted : forall i, Z.testbit (required t) i = true -> Z.testbit (granted s) i = true;
}.

(** Permissions are 32-bit masks. *)
Definition mask32 (m : Z) : Prop := 0 <= m < 2 ^ 32.

Lemma missing_bits r g : mask32 r -> mask32 g ->
  Z.land r (not32 g) = 0 <-> (forall i, Z.testbit r i = true -> Z.testbit g i = true).
Proof.
  intros Hr Hg. assert (forall i, Z.testbit (Z.land r (not32 g)) i = Z.testbit r i && negb (Z.testbit g i)) as Hb.
  { intros i. unfold not32. rewrite Z.land_spec, Z.lxor_spec. destruct (Z.testbit r i) eqn:E; [|done]. cbn [andb].
    assert (0 <= i < 32) as Hi.
    { destruct (Z.neg_nonneg_cases i); [by rewrite Z.testbit_neg_r in E|]. split; [done|]. apply Z.nle_gt. intros Hle.
      rewrite <- (Z.mod_small r (2 ^ 32)) in E by exact Hr. by rewrite Z.mod_pow2_bits_high in E by lia. }
    change 0xFFFFFFFF with (Z.ones 32). rewrite Z.ones_spec_low by lia. by destruct (Z.testbit g i). }
  split.
  - intros H0 i Hi. specialize (Hb i). rewrite H0, Z.testbit_0_l, Hi in Hb. by destruct (Z.testbit g i).
  - intros Hsub. apply Z.bits_inj'. intros i _. rewrite Hb, Z.testbit_0_l. specialize (Hsub i).
    destruct (Z.testbit r i); [by rewrite Hsub|done].
Qed.

Lemma schema_validate_spec schema inst : wf schema -> wf inst -> schema_validate schema inst = MCP_OK <-> valid (erase schema) (erase inst).
Proof.
  intros Hs Hi. pose proof (jdepth_nonneg (erase inst)) as Hd.
  destruct (check_verdict (S (Z.to_nat (jdepth (erase inst)))) schema inst [] None Hs Hi ltac:(lia)) as (st & err & H & Hst).
  unfold schema_validate, mcp_schema_validate, mcp_schema_validate_verbose. rewrite H. simpl. naive_solver.
Qed.

(** ** The checks *)

(** Every refusal of tools/call. *)
Definition refusal (e : Z * bytes) : Prop := int_range e.1 /\ good_string e.2.

Lemma check_args_spec schema args h st h1 :
  check_args schema args h = (st, h1) -> owf schema -> owf args ->
  hstep h h1 0 /\
  (st = MCP_OK -> from_option (fun sc => valid (erase sc) (erase (default VNull args))) True schema) /\
  (ample h -> from_option (fun sc => valid (erase sc) (erase (default VNull args))) True schema -> st = MCP_OK).
Proof.
  intros H Hs Ha. unfold check_args in H. destruct schema as [sc|]; [|minv H; by split_and!; [apply hstep_refl|..]].
  destruct args as [a|].
  - minv H. split; [apply hstep_refl|]. cbn [from_option default id]. by rewrite schema_validate_spec.
  - apply bind_inv in H as (n & h2 & E & H). apply bind_inv in H as (u & h3 & E2 & H). minv H.
    destruct (null_new_attempt _ _ _ E) as [Hs1 Hn]. apply builtin_destroy_hstep in E2.
    split; [eapply hstep_trans; [exact Hs1|exact E2|lia]|]. cbn [from_option default id]. destruct n as [n|].
    + destruct Hn as [Hw He]. rewrite schema_validate_spec, He by done. by split.
    + split; [done|]. intros A. by destruct Hn.
Qed.

Section checks.
Context (srv : server_rest) (s : mcp_session_t) (req : mcp_message_t) (Hreq : wf_msg req) (Hinv : routes_inv srv).

Definition masks : Prop := mask32 (granted s) /\ Forall (fun t => mask32 (required t)) (tools srv).

Lemma found_tool_in name t : find_tool srv name = Some t -> t ∈ tools srv.
Proof. unfold find_tool, lookup_by. destruct (find_by _ _ _) as [i|]; [|done]. intros. by eapply list_elem_of_lookup_2. Qed.

Lemma call_checks_spec h c h1 :
  tools_call_checks srv s req h = (c, h1) ->
  hstep h h1 0 /\
  match c with
  | inr (t, name) => t ∈ tools srv /\ (masks -> may_call srv s req t)
  | inl e => refusal e /\ (ample h -> masks -> forall t, ~ may_call srv s req t)
  end.
Proof.
  intros H. unfold tools_call_checks in H. cbv zeta in H.
  assert (forall e : Z * bytes, (forall t, ~ may_call srv s req t) -> refusal e -> ret (inl e) h = (c, h1) ->
    hstep h h1 0 /\ match c with inr (t, name) => t ∈ tools srv /\ (masks -> may_call srv s req t)
                    | inl e => refusal e /\ (ample h -> masks -> forall t, ~ may_call srv s req t) end) as Href.
  { intros e Hno He E. minv E. split; [apply hstep_refl|]. split; [exact He|]. intros _ _. exact Hno. }
  destruct (get_string _ (cs "name")) as [name|] eqn:En.
  2: { refine (Href _ _ _ H); [|split; [done|lit]]. intros t [(n & Hn & _) _ _ _]. congruence. }
  destruct (find_tool srv name) as [tool|] eqn:Et.
  2: { refine (Href _ _ _ H); [|split; [done|lit]]. intros t [(n & Hn & Ht) _ _ _]. congruence. }
  assert (forall t, may_call srv s req t -> t = tool) as Huniq by (intros t [(n & Hn & Ht) _ _ _]; congruence).
  pose proof (found_tool_in _ _ Et) as Hin.
  assert (tool_ok tool) as Htool by (eapply Forall_forall; [apply Hinv|done]).
  destruct (hidden s tool) eqn:Eh.
  { refine (Href _ _ _ H); [|split; [done|lit]]. intros t Hm. pose proof (Huniq t Hm) as ->. destruct Hm as [_ Hs _ _].
    unfold visible_tools in Hs. apply list_elem_of_filter in Hs as [Hs _]. congruence. }
  apply bind_inv in H as (vst & h2 & E & H).
  assert (hstep h h2 0 /\ (vst = MCP_OK -> is_retry tool (mcp_message_params (Some req)) = true \/
      from_option (fun sc => valid (erase sc) (erase (call_args req))) True (tool_schema tool)) /\
    (vst <> MCP_OK -> ample h -> forall t, ~ may_call srv s req t)) as (Hs & Hv & Hnv).
  { destruct (is_retry tool _) eqn:Er.
    - minv E. split; [apply hstep_refl|]. split; [by left|done].
    - apply check_args_spec in E as (Hs & Hok & Hbad); [|apply Htool|apply member_wf; [by apply params_wf|lit]].
      split; [done|]. split; [intros ->; right; by apply Hok|]. intros Hne A t Hm. pose proof (Huniq t Hm) as ->. destruct Hm as [_ _ [Hm|Hm] _].
      + congruence.
      + apply Hne. by apply Hbad. }
  destruct (decide (vst = MCP_OK)) as [->|Hne].
  2: { assert (ret (inl (MCP_RPC_INVALID_PARAMS, cs "tools/call: invalid arguments")) h2 = (c, h1)) as H' by (by destruct vst).
       minv H'. split; [done|]. split; [split; [done|lit]|auto]. }
  assert (masks -> Z.land (required tool) (not32 (granted s)) = 0 <->
    (forall i, Z.testbit (required tool) i = true -> Z.testbit (granted s) i = true)) as Hbits.
  { intros [Hg Hr]. apply missing_bits; [eapply Forall_forall in Hr; done|done]. }
  destruct (Z.land (required tool) (not32 (granted s)) =? 0) eqn:Eb; cbn [negb] in H; minv H; bool_props; (split; [done|]).
  - split; [done|]. intros Hms. split; [by exists name|apply list_elem_of_filter; done|by apply Hv|by apply Hbits].
  - split; [split; [done|lit]|]. intros _ Hms t Hm. pose proof (Huniq t Hm) as ->. destruct Hm as [_ _ _ Hm]. by apply Eb, Hbits.
Qed.
End checks.

(** ** The call *)

Section call.
Context (req : mcp_message_t) (Hreq : wf_msg req).

(** The response to a result that may not be an object. *)
Lemma respond_any_serves srv result is_list :
  routes_inv srv -> wf result -> serves req (blocks result) (respond_ok srv req result is_list).
Proof.
  intros Hi Hw. rewrite <- (Z.add_0_r (blocks result)). destruct (is_object (Some result)) eqn:Eo.
  - destruct result; try discriminate Eo. eapply serves_respond; [done|done|done|apply erase_object].
  - apply (gives_up_yields any_policy msg_blocks (answers req) False). intros h r h' H. unfold respond_ok, decorate_result, mcp_result_inject_result_type in H.
    rewrite Eo in H. cbn [negb] in H. apply bind_inv in H as (r1 & h1 & E & H). apply bind_inv in E as (r2 & h2 & E & E2). minv E. minv E2.
    by apply (discard_gives_up result) in H.
Qed.

Lemma tool_result_serves srv tool result : routes_inv srv -> wf result -> serves req (blocks result) (tool_result srv req tool result).
Proof.
  intros Hi Hw. unfold tool_result. destruct (mcp_mrtr_is_input_required _); [rewrite <- (Z.add_0_r (blocks result)); by apply serves_send|].
  cbv zeta. destruct (match tool_output_schema tool with Some _ => _ | None => _ end); [|by apply respond_any_serves].
  intros h r h' Hp H. apply bind_inv in H as (u & h1 & E & H). apply builtin_destroy_hstep in E.
  eapply (step_yields any_policy _ _ False h h1 _ False _ 0); [intros _; exact E|apply E|cbn [oblocks]; lia|done| |exact H].
  apply serves_err; [done|done|lit].
Qed.

(** The handler keeps the contract of callbacks. *)
Lemma run_tool_ok tool s : tool_ok tool -> callback_ok (run_tool tool s (mcp_message_params (Some req))) s.
Proof.
  intros (_ & _ & _ & Hh). unfold run_tool. pose proof (params_wf req Hreq) as Hp.
  destruct (tool_handler_of tool); apply Hh; apply member_wf; (done || lit).
Qed.

(** What tools/call does once the checks have passed. *)
Lemma count_call_inv srv : routes_inv (rest srv) -> routes_inv (rest (count_call srv)) /\ server_size (count_call srv) = server_size srv.
Proof. intros []. by split. Qed.
End call.

(** A log line changes nothing else. *)
Lemma logged_untouched logger level line srv0 srv :
  untouched srv0 srv -> rest (dlogf_srv logger level line srv) = rest srv /\ untouched srv0 (dlogf_srv logger level line srv).
Proof. intros H. destruct (dlogf_core logger level line srv) as (D1 & D2 & D3 & D4 & D5 & D6). unfold untouched. by rewrite D1, D2, D3, D4, D5, D6. Qed.

Section spec.
Context (logger : option mcp_log_level_t) (srv : server) (s : mcp_session_t) (req : mcp_message_t).
Context (Hreq : wf_msg req) (Hinv : routes_inv (rest srv)).

(** A call the checks refused: an error and nothing else. *)
Definition call_refused (h h' : heap) (r : option mcp_message_t) (srv' : server) (s' : mcp_session_t) : Prop :=
  srv' = srv /\ s' = s /\ hstep h h' (omsg_blocks r) /\
  (exists e, refusal e /\ match r with Some m => refuses req e.1 e.2 m | None => ~ ample h end) /\
  (ample h -> masks (rest srv) s -> forall t, ~ may_call (rest srv) s req t).

(** What the response to a finished call of [t] says. *)
Definition call_answer (t : mcp_tool_t) (st : mcp_status_t) (res : option value) (h : heap) (r : option mcp_message_t) : Prop :=
  match r with
  | None => (st = MCP_OK /\ is_Some res) \/ ~ ample h
  | Some m =>
      match st, res with
      | MCP_OK, None => refuses req MCP_RPC_INTERNAL_ERROR (cs "tools/call: empty result") m
      | MCP_OK, Some v => answers req m
      | st, _ => replies req (error_json st) m
      end
  end.

(** A call that reached its handler. *)
Definition call_ran (h h' : heap) (r : option mcp_message_t) (srv' : server) (s' : mcp_session_t) : Prop :=
  exists t h1 st res h2,
    t ∈ tools (rest srv) /\ (masks (rest srv) s -> may_call (rest srv) s req t) /\
    hstep h h1 0 /\ run_tool t s (mcp_message_params (Some req)) h1 = ((st, res, s'), h2) /\
    rest srv' = rest (count_call srv) /\ untouched srv srv' /\ same_ids s s' /\ fails h' = fails h /\
    from_option (answers req) True r /\ call_answer t st res h r /\
    (ample h -> hstep h h' (omsg_blocks r + (session_blocks s' - session_blocks s))).

Lemma tools_call_spec h r srv' s' h' :
  route_tools_call logger srv s req h = ((r, srv', s'), h') -> call_refused h h' r srv' s' \/ call_ran h h' r srv' s'.
Proof.
  intros H. unfold route_tools_call in H. apply bind_inv in H as (c & h1 & E & H).
  destruct (call_checks_spec (rest srv) s req Hreq Hinv _ _ _ E) as [Hs1 Hc]. destruct c as [[code text]|[t name]].
  { left. destruct Hc as [[Hcode Htext] Hno]. apply bind_inv in H as (r1 & h2 & E2 & H). minv H. simplify_eq.
    destruct (err_resp_yields any_policy req True code text True Hreq Hcode Htext _ _ _ I E2) as (Hs2 & _ & Hr). cbn [fst snd] in *.
    split; [done|]. split; [done|]. split; [eapply hstep_trans; [exact Hs1|apply Hs2; by left|destruct r1; simpl; lia]|]. split; [|exact Hno].
    exists (code, text). split; [done|]. destruct r1; [done|]. intros A. apply Hr. split; [by eapply ample_hstep|done]. }
  right. destruct Hc as [Hin Hmay]. apply bind_inv in H as ([[st res] s1] & h2 & E2 & H).
  assert (tool_ok t) as Ht by (eapply Forall_forall; [apply Hinv|done]).
  destruct (run_tool_ok req Hreq t s Ht _ _ _ _ _ E2) as (Hw & Hn & Hi & Hd & Hs2). cbv zeta in H.
  destruct (count_call_inv srv Hinv) as [Hinv1 Hsz].
  assert (untouched srv (count_call srv)) as Hun by done.
  assert (forall given m srv1 r1 h3, serves req given m -> given = oblocks res -> m h2 = (r1, h3) -> rest srv1 = rest (count_call srv) ->
    untouched srv srv1 -> call_answer t st res h r1 -> call_ran h h3 r1 srv1 s1) as Hdone.
  { intros given m srv1 r1 h3 Hm -> E3 Hrest Hun1 Hans. destruct (serves_run _ _ _ _ _ _ Hm E3) as (Ha & Hf & Hb).
    exists t, h1, st, res, h2. do 6 (split; [done|]). split; [done|]. split.
    { by rewrite Hf, (hstep_fails _ _ _ Hs2), (hstep_fails _ _ _ Hs1). }
    split; [done|]. split; [done|]. intros A. pose proof (ample_hstep _ _ _ Hs1 A) as A1. pose proof (ample_hstep _ _ _ Hs2 A1) as A2.
    eapply hstep_trans; [exact Hs1|eapply hstep_trans; [exact Hs2|by apply Hb|reflexivity]|lia]. }
  destruct (decide (st = MCP_OK)) as [->|Hne].
  - destruct res as [v|]; apply bind_inv in H as (r1 & h3 & E3 & H); minv H; simplify_eq.
    + eapply Hdone; [by apply tool_result_serves|done|exact E3|done|done|]. destruct (serves_run _ _ _ _ _ _ (tool_result_serves req Hreq _ t v Hinv1 Hw) E3) as (Ha & _).
      destruct r1; [exact Ha|left; eauto].
    + destruct (err_resp_yields any_policy req True MCP_RPC_INTERNAL_ERROR (cs "tools/call: empty result") True Hreq ltac:(done) ltac:(lit) _ _ _ I E3) as (_ & _ & Hr).
      refine (Hdone _ _ _ _ _ _ _ E3 _ _ _); [apply serves_err; [done|done|lit]|done|done|done|]. destruct r1; [exact Hr|]. right.
      intros A. apply Hr. split; [|done]. eapply ample_hstep; [exact Hs2|by eapply ample_hstep].
  - rewrite (Hn Hne) in *.
    assert ((r <- tool_error_result req st ;; ret (r, dlogf_srv logger MCP_LOG_WARN
              (cs "event=tool_error tool=" ++ name ++ cs " status=" ++ mcp_status_string st) (count_call srv), s1)) h2
            = ((r, srv', s'), h')) as H' by (by destruct st). clear H.
    apply bind_inv in H' as (r1 & h3 & E3 & H). minv H. simplify_eq.
    destruct (tool_error_yields req Hreq st _ _ _ I E3) as (_ & _ & Hr).
    eapply Hdone; [by apply tool_error_serves|done|exact E3|by eapply logged_untouched|by eapply logged_untouched|].
    destruct r1 as [m|]; [by destruct st|]. right. intros A. apply Hr. split; [|done]. eapply ample_hstep; [exact Hs2|by eapply ample_hstep].
Qed.
End spec.

(** ** Claims *)

(** C8: Whatever the allocator does, the handler of a tool runs only for a
    session that may call it: the tool is the one registered under the name
    in the request, the session sees it, the arguments satisfy its schema
    (unless the request resumes an interrupted call of a V2 tool) and every
    permission it requires is granted (32-bit masks; the request is well
    formed and the registries keep their invariant); then the call is counted and the
    session is the one the handler left.  Otherwise no handler runs: server
    and session are unchanged, and the client gets an error response, or
    none when memory for it was refused; nothing but that response is
    allocated.  Where memory is not refused, the second case is exactly that
    the session may call no tool by this request, there is a response, and
    after a call nothing but it and what the handler added to the session is
    allocated. *)
Theorem tools_call_guarded logger srv s req h r srv' s' h' :
  wf_msg req -> routes_inv (rest srv) -> masks (rest srv) s ->
  route_tools_call logger srv s req h = ((r, srv', s'), h') ->
  (exists t h1 st res h2, may_call (rest srv) s req t /\
     run_tool t s (mcp_message_params (Some req)) h1 = ((st, res, s'), h2) /\
     c_tools_called (rest srv') = inc64 (c_tools_called (rest srv)) /\
     (ample h -> hstep h h' (omsg_blocks r + (session_blocks s' - session_blocks s)))) \/
  (srv' = srv /\ s' = s /\ hstep h h' (omsg_blocks r) /\
     (exists code text, match r with Some m => refuses req code text m | None => ~ ample h end) /\
     (ample h -> forall t, ~ may_call (rest srv) s req t)).
Proof.
  intros Hreq Hinv Hm H. destruct (tools_call_spec logger srv s req Hreq Hinv _ _ _ _ _ H) as [Hc|Hc].
  - right. destruct Hc as (-> & -> & Hs & (e & _ & Hr) & Hno). do 3 (split; [done|]). split; [by exists e.1, e.2|]. intros A. by apply Hno.
  - left. destruct Hc as (t & h1 & st & res & h2 & _ & Hmay & _ & Hrun & Hrest & _ & _ & _ & _ & _ & Hs).
    exists t, h1, st, res, h2. split; [by apply Hmay|]. split; [done|]. rewrite Hrest. by split.
Qed.

(** C38: A tool that fails is reported inside the result: where memory is
    available, a call whose handler returns the status [st] other than
    MCP_OK is answered by a response (not an error) whose result is
    { content: [ { type: "text", text: st } ], isError: true }, the name of
    the status being the text; and a handler that returns MCP_OK without a
    result is answered by an internal error. *)
Theorem tool_failure_reported logger srv s req h r srv' s' h' :
  wf_msg req -> routes_inv (rest srv) -> masks (rest srv) s -> ample h -> (exists t, may_call (rest srv) s req t) ->
  route_tools_call logger srv s req h = ((r, srv', s'), h') ->
  exists t h1 st res h2, may_call (rest srv) s req t /\
    run_tool t s (mcp_message_params (Some req)) h1 = ((st, res, s'), h2) /\
    match st, res with
    | MCP_OK, None => exists m, r = Some m /\ refuses req MCP_RPC_INTERNAL_ERROR (cs "tools/call: empty result") m
    | MCP_OK, Some _ => from_option (answers req) True r
    | st, _ => exists m, r = Some m /\ replies req (error_json st) m
    end.
Proof.
  intros Hreq Hinv Hm A [t0 Ht0] H. destruct (tools_call_spec logger srv s req Hreq Hinv _ _ _ _ _ H) as [Hc|Hc].
  { destruct Hc as (_ & _ & _ & _ & Hno). by destruct (Hno A Hm t0). }
  destruct Hc as (t & h1 & st & res & h2 & _ & Hmay & _ & Hrun & _ & _ & _ & _ & Ha & Hans & _).
  exists t, h1, st, res, h2. split; [by apply Hmay|]. split; [done|]. unfold call_answer in Hans.
  destruct r as [m|]; [|by destruct Hans as [[-> [v ->]]|]].
  destruct st, res; cbn [from_option] in *; eauto.
Qed.

(** ** Witnesses *)

Lemma sample_masks : masks sample_rest new_session.
Proof. split; [by split|]. apply Forall_singleton. by split. Qed.

Lemma echo_may_call : may_call sample_rest new_session sample_request echo_tool.
Proof.
  split; [exists (cs "echo"); split; vm_compute; reflexivity| |by right|by intros i; rewrite Z.testbit_0_l].
  apply list_elem_of_filter. split; [reflexivity|by left].
Qed.

Lemma tools_call_guarded_witness :
  exists r srv' s' h', route_tools_call None sample_full_server new_session sample_request fresh_heap = ((r, srv', s'), h') /\
  ((exists t h1 st res h2, may_call sample_rest new_session sample_request t /\
     run_tool t new_session (mcp_message_params (Some sample_request)) h1 = ((st, res, s'), h2) /\
     c_tools_called (rest srv') = inc64 0 /\
     (ample fresh_heap -> hstep fresh_heap h' (omsg_blocks r + (session_blocks s' - session_blocks new_session)))) \/
   (srv' = sample_full_server /\ s' = new_session /\ hstep fresh_heap h' (omsg_blocks r) /\
     (exists code text, match r with Some m => refuses sample_request code text m | None => ~ ample fresh_heap end) /\
     (ample fresh_heap -> forall t, ~ may_call sample_rest new_session sample_request t))).
Proof.
  eexists _, _, _, _. split; [rewrite <- !surjective_pairing; reflexivity|].
  apply (tools_call_guarded None sample_full_server new_session sample_request fresh_heap);
    [apply sample_request_wf|apply sample_routes_inv|apply sample_masks|rewrite <- !surjective_pairing; reflexivity].
Defined.

(** A tool that always fails. *)
Definition broken_tool : mcp_tool_t :=
  Tool (cs "echo") None None None None (HandlerV1 (fun s _ => ret (MCP_ERR_TIMEOUT, None, s))) MCP_TOOL_VIS_BOTH 0.

Definition broken_server : server := Server 0 0 0 MCP_LOG_DEBUG true [] [] (set_tools [broken_tool] 4 (empty_rest (cs "srv") (cs "1.0"))).

Lemma broken_inv : routes_inv (rest broken_server).
Proof.
  split; try done. apply Forall_singleton. split; [done|]. split; [done|]. split; [done|].
  intros s args _ h st res s' h' H. minv H. simplify_eq. split_and!; [done..|]. eapply hstep_eq; [apply hstep_refl|simpl; lia].
Qed.

Lemma tool_failure_reported_witness :
  exists r srv' s' h', route_tools_call None broken_server new_session sample_request fresh_heap = ((r, srv', s'), h') /\
  exists t h1 st res h2, may_call (rest broken_server) new_session sample_request t /\
    run_tool t new_session (mcp_message_params (Some sample_request)) h1 = ((st, res, s'), h2) /\
    match st, res with
    | MCP_OK, None => exists m, r = Some m /\ refuses sample_request MCP_RPC_INTERNAL_ERROR (cs "tools/call: empty result") m
    | MCP_OK, Some _ => from_option (answers sample_request) True r
    | st, _ => exists m, r = Some m /\ replies sample_request (error_json st) m
    end.
Proof.
  eexists _, _, _, _. split; [rewrite <- !surjective_pairing; reflexivity|].
  eapply (tool_failure_reported None broken_server new_session sample_request fresh_heap);
    [apply sample_request_wf|apply broken_inv|split; [by split|apply Forall_singleton; by split]|apply fresh_ample| |rewrite <- !surjective_pairing; reflexivity].
  exists broken_tool. split; [exists (cs "echo"); split; vm_compute; reflexivity| |by right|intros i; by rewrite Z.testbit_0_l].
  apply list_elem_of_filter. split; [reflexivity|by left].
Defined.
