(* ===== verification/Serving.v ===== *)
(** * The server as a whole (src/server)

    The table of handlers is a lawful [Router], so the theorems of
    Dispatcher.v and Lifecycle.v hold of the server with its real handlers;
    the claims at the end state the main ones.  Also here: the set of
    resources the client has subscribed to. *)
From stdpp Require Import gmap.
From S2P Require Import Prelude Heap Utf8 Double JsonValue JsonParse JsonNumber JsonSerialize JsonApi Schema Message Initialize Validate Builders Tasks Skills Mrtr Queue Session Dispatcher Lifecycle Registry Server Routes RouteLaws Listing Discover Handlers Routing ToolCall.

Local Open Scope Z_scope.

(** ** The table *)

(** A handler with server and session keeps the dispatcher's promises. *)
Definition served (req : mcp_message_t) (srv : server) (s : mcp_session_t) (m : M (option mcp_message_t * server * mcp_session_t)) : Prop :=
  forall h r srv' s' h', m h = ((r, srv', s'), h') ->
  from_option (answers req) True r /\ untouched srv srv' /\ same_ids s s' /\ fails h' = fails h /\
  (ample h -> hstep h h' (omsg_blocks r + (server_size srv' - server_size srv) + (session_blocks s' - session_blocks s))).

Section table.
Context (req : mcp_message_t) (Hreq : wf_msg req) (srv : server) (s : mcp_session_t) (Hinv : routes_inv (rest srv)).

Lemma untouched_refl : untouched srv srv.
Proof. done. Qed.

Lemma reading_served m : serves req 0 m -> served req srv s (reading srv s m).
Proof.
  intros Hm h r srv' s' h' H. unfold reading in H. apply bind_inv in H as (r1 & h1 & E & H). minv H. simplify_eq.
  destruct (serves_run _ _ _ _ _ _ Hm E) as (Ha & Hf & Hb). split; [done|]. split; [done|]. split; [done|]. split; [done|].
  intros A. eapply hstep_eq; [by apply Hb|lia].
Qed.

Lemma with_session_served m : handles session_blocks (same_ids s) req (session_blocks s) m -> served req srv s (with_session srv m).
Proof.
  intros Hm h r srv' s' h' H. unfold with_session in H. apply bind_inv in H as ([r1 s1] & h1 & E & H). minv H. simplify_eq.
  destruct (Hm _ _ _ _ E) as (Ha & Hs & Hf & Hb). split; [done|]. split; [done|]. split; [done|]. split; [done|].
  intros A. eapply hstep_eq; [by apply Hb|cbn [fst snd]; lia].
Qed.

Lemma with_server_served m : handles server_size (untouched srv) req (server_size srv) m -> served req srv s (with_server s m).
Proof.
  intros Hm h r srv' s' h' H. unfold with_server in H. apply bind_inv in H as ([r1 srv1] & h1 & E & H). minv H. simplify_eq.
  destruct (Hm _ _ _ _ E) as (Ha & Hs & Hf & Hb). split; [done|]. split; [done|]. split; [done|]. split; [done|].
  intros A. eapply hstep_eq; [by apply Hb|cbn [fst snd]; lia].
Qed.

Lemma tools_call_served logger : served req srv s (route_tools_call logger srv s req).
Proof.
  intros h r srv' s' h' H. destruct (tools_call_spec logger srv s req Hreq Hinv _ _ _ _ _ H) as [Hc|Hc].
  - destruct Hc as (-> & -> & Hs & (e & He & Hr) & _). split; [destruct r; [apply Hr|done]|]. split; [done|]. split; [done|].
    split; [apply Hs|]. intros _. eapply hstep_eq; [exact Hs|lia].
  - destruct Hc as (t & h1 & st & res & h2 & _ & _ & _ & _ & Hrest & Hun & Hid & Hf & Ha & _ & Hb).
    split; [done|]. split; [done|]. split; [done|]. split; [done|]. intros A. eapply hstep_eq; [by apply Hb|].
    unfold server_size. rewrite Hrest. destruct (count_call_inv srv Hinv) as [_ Hsz]. unfold server_size in Hsz. lia.
Qed.
End table.

Section routes.
Context (logger : option mcp_log_level_t) (req : mcp_message_t) (Hreq : wf_msg req) (method : bytes).
Context (Hmethod : mcp_message_method (Some req) = Some method).

Lemma method_eq name : has_nul name = false -> streq method name = true -> method = name.
Proof.
  intros Hn H. assert (good_string method) as [Hm _].
  { unfold mcp_message_method in Hmethod. pose proof (get_key_wf req (cs "method")) as Hw.
    destruct (get_key (Some req) (cs "method")) as [v|]; [|done]. specialize (Hw v Hreq ltac:(lit) eq_refl). destruct v; try done.
    cbn in Hmethod. by simplify_eq. }
  rewrite streq_no_nul in H by done. by apply bool_decide_eq_true in H.
Qed.

Lemma late_served srv s : routes_inv (rest srv) -> served req srv s (route_late logger srv s req method).
Proof.
  intros Hinv. unfold route_late.
  destruct (streq method _); [by apply reading_served, discover_serves|].
  destruct (streq method (cs "subscriptions/listen")) eqn:El.
  { apply with_session_served, listen_handles; [done..|]. by apply method_eq in El as <-. }
  clear El.
  destruct (streq method _); [by apply reading_served, tasks_get_serves|].
  destruct (streq method _); [by apply with_server_served, tasks_update_handles|].
  destruct (streq method _); [by apply with_server_served, tasks_cancel_handles|].
  destruct (streq method _); [by apply reading_served, skills_list_serves|].
  destruct (streq method _); [by apply reading_served, skills_get_serves|].
  intros h r srv' s' h' H. unfold reading in H. apply bind_inv in H as (r1 & h1 & E & H). minv H. simplify_eq.
  destruct (serves_run _ _ _ _ _ _ (serves_err req Hreq MCP_RPC_METHOD_NOT_FOUND (cs "unknown method") ltac:(done) ltac:(lit)) E) as (Ha & Hf & Hb).
  destruct (logged_untouched logger MCP_LOG_WARN (cs "event=unknown_method method=" ++ method) srv srv ltac:(done)) as [Hr Hu].
  split; [done|]. split; [done|]. split; [done|]. split; [done|]. intros A. eapply hstep_eq; [by apply Hb|]. unfold server_size. rewrite Hr. lia.
Qed.

Lemma route_served srv s : routes_inv (rest srv) -> served req srv s (route_request logger srv s req method).
Proof.
  intros Hinv. unfold route_request.
  destruct (streq method _); [by apply with_session_served, initialize_handles|].
  destruct (streq method _); [by apply reading_served, empty_result_serves|].
  destruct (streq method _); [by apply reading_served, tools_list_serves|].
  destruct (streq method _); [by apply tools_call_served|].
  destruct (streq method _); [by apply reading_served, resources_list_serves|].
  destruct (streq method _); [by apply with_session_served, resources_read_handles|].
  destruct (streq method _); [by apply reading_served, prompts_list_serves|].
  destruct (streq method _); [by apply with_session_served, prompts_get_handles|].
  destruct (streq method _); [by apply reading_served, completion_list_serves|].
  destruct (streq method _); [by apply with_session_served, completion_handles|].
  intros h r srv' s' h' H. apply bind_inv in H as ([r1 srv1] & h1 & E & H).
  destruct (advanced_handles req Hreq srv method ltac:(done) _ _ _ _ E) as (Ha & Hu & Hf & Hb).
  destruct r1 as [m|]; [minv H; simplify_eq|].
  - split; [done|]. split; [done|]. split; [done|]. split; [done|]. intros A. eapply hstep_eq; [by apply Hb|lia].
  - destruct (late_served srv1 s (proj1 Hu) _ _ _ _ _ H) as (Ha2 & Hu2 & Hid & Hf2 & Hb2). split; [done|].
    split; [unfold untouched in *; intuition congruence|]. split; [done|]. split; [by rewrite Hf2|].
    intros A. eapply hstep_trans; [by apply Hb|apply Hb2; by eapply fails_ample|simpl; lia].
Qed.
End routes.

(** ** The instance *)

#[global] Instance server_router : Router server_rest :=
  {| mcp_server_route_request := route_request; rest_blocks := rest_size; rest_inv := routes_inv |}.

#[global] Instance server_laws : RouterLaws server_rest.
Proof.
  split.
  - intros logger srv s req method h r srv' s' h' Hw Hm Hi H.
    destruct (route_served logger req Hw method Hm srv s Hi _ _ _ _ _ H) as (Ha & (Hi' & ? & ? & ? & ? & ?) & [? ?] & _). by split_and!.
  - intros logger srv s req method h r srv' s' h' Hw Hm Hi A H.
    destruct (route_served logger req Hw method Hm srv s Hi _ _ _ _ _ H) as (_ & _ & _ & _ & Hb). by apply Hb.
Qed.

(** ** Subscribed resources *)

Definition subs_inv (s : server_rest) : Prop := array_inv id (subscribed_uris s) (cap_subscribed s).

Definition uris (s : server_rest) : gset bytes := list_to_set (subscribed_uris s).

Lemma find_uri s uri : subs_inv s -> has_nul uri = false -> is_Some (find_by id (subscribed_uris s) uri) <-> uri ∈ uris s.
Proof.
  intros [Hc _ _] Hn. pose proof (find_by_spec id _ uri Hc Hn) as Hf. unfold uris. rewrite elem_of_list_to_set. rewrite list_fmap_id in Hf.
  destruct (find_by id _ uri) as [i|].
  - destruct Hf as (x & Hi & <-). split; [|by eauto]. intros _. by eapply list_elem_of_lookup_2.
  - split; [by intros []|done].
Qed.

Lemma subscribe_set s uri h u h1 :
  subscribe s uri h = (u, h1) -> subs_inv s -> has_nul uri = false ->
  let s' := match u with inl s | inr s => s end in
  subs_inv s' /\ match u with inr _ => uris s' = {[uri]} ∪ uris s | inl _ => uris s' = uris s /\ ~ ample h end.
Proof.
  intros H Hi Hn s'. pose proof (find_uri s uri Hi Hn) as Hfind. pose proof Hi as [Hc Hnd Hr].
  assert (forall c, (length (subscribed_uris s) <= c)%nat -> subs_inv (set_subscribed (subscribed_uris s) c s)) as Hsame by done.
  assert (forall c, (length (subscribed_uris s) < c)%nat -> find_by id (subscribed_uris s) uri = None ->
    subs_inv (set_subscribed (subscribed_uris s ++ [cstr uri]) c s)) as Hsnoc.
  { intros c Hlt Hnone. rewrite (cstr_no_nul uri Hn). split; cbn [subscribed_uris cap_subscribed set_subscribed].
    - apply Forall_app. split; [done|by apply Forall_singleton].
    - rewrite list_fmap_id. rewrite list_fmap_id in Hnd. apply NoDup_app. split; [done|]. split; [|apply NoDup_singleton].
      intros x Hx Hx'. apply list_elem_of_singleton in Hx' as ->. assert (is_Some (find_by id (subscribed_uris s) uri)) as [? ?]; [|congruence].
      apply Hfind. by apply elem_of_list_to_set.
    - rewrite length_app. cbn. lia. }
  unfold subscribe in H. cbv zeta in H. destruct (find_by id _ uri) as [i|] eqn:Ef.
  { minv H. split; [done|]. assert (uri ∈ uris s) by (apply Hfind; eauto). unfold s'. set_solver. }
  assert (forall c h2, (length (subscribed_uris s) < c)%nat -> (ample h -> ample h2) ->
    (copy <- srv_strdup (Some uri) ;;
     match copy with
     | None => ret (inl (set_subscribed (subscribed_uris s) c s))
     | Some copy => ret (inr (set_subscribed (subscribed_uris s ++ [copy]) c s))
     end) h2 = (u, h1) ->
    subs_inv s' /\ match u with inr _ => uris s' = {[uri]} ∪ uris s | inl _ => uris s' = uris s /\ ~ ample h end) as Hstore.
  { intros c h2 Hlt Hamp E. apply bind_inv in E as (copy & h3 & E & E2). apply strdup_cases in E as [_ Hcopy]. destruct copy as [copy|]; minv E2.
    - destruct Hcopy as [Hcopy|(_ & ? & _)]; [|done]. injection Hcopy as ->. split; [by apply Hsnoc|].
      unfold s', uris. cbn [subscribed_uris set_subscribed]. rewrite list_to_set_app_L, (cstr_no_nul uri Hn). cbn. set_solver.
    - split; [apply Hsame; lia|]. split; [done|]. destruct Hcopy as [Hcopy|(_ & _ & Hna)]; [done|]. auto. }
  destruct (Nat.eqb _ _) eqn:Ec; bool_props.
  - apply bind_inv in H as (ok & h2 & E & H). destruct ok; cbn [negb] in H.
    + apply (Hstore (grow_cap (cap_subscribed s)) h2); [by apply grow_cap_gt|apply xrealloc_hstep in E; by eapply ample_hstep|done].
    + minv H. split; [done|]. split; [done|]. intros A. by apply xrealloc_ample_inv in E.
  - apply (Hstore (cap_subscribed s) h); [lia|done|done].
Qed.

Lemma unsubscribe_set s uri h s' h1 :
  unsubscribe s uri h = (s', h1) -> subs_inv s -> has_nul uri = false -> subs_inv s' /\ uris s' = uris s ∖ {[uri]}.
Proof.
  intros H Hi Hn. pose proof (find_uri s uri Hi Hn) as Hfind. apply unsubscribe_spec in H as (_ & l & -> & Hl).
  pose proof (find_by_spec id _ uri (keys_clean _ _ _ Hi) Hn) as Hf. destruct (find_by id _ uri) as [i|].
  - destruct Hf as (x & Hix & <-). subst l. destruct (swap_remove_spec id _ _ i x Hi Hix) as [Hi' _]. split; [exact Hi'|].
    unfold uris. cbn [subscribed_uris set_subscribed]. pose proof (swap_remove_perm _ _ _ Hix) as Hp.
    assert (NoDup (x :: swap_remove i (subscribed_uris s))) as [Hx _]%NoDup_cons.
    { rewrite Hp. pose proof (keys_nodup _ _ _ Hi) as Hnd. by rewrite list_fmap_id in Hnd. }
    rewrite <- (list_to_set_perm_L _ _ Hp). cbn. unfold id.
    assert (x ∉ (list_to_set (swap_remove i (subscribed_uris s)) : gset bytes)) by (by rewrite elem_of_list_to_set). set_solver.
  - subst l. split; [exact Hi|]. assert (uri ∉ uris s) by (intros Hin; by apply Hfind in Hin as [? ?]).
    change (uris s = uris s ∖ {[uri]}). set_solver.
Qed.

(** With memory, the blocks a dispatch takes are those of the response and
    the growth of the server and the session. *)
Definition accounted (srv : server) (s : mcp_session_t) (o : outcome (R := server_rest)) (h h' : heap) : Prop :=
  ample h -> hstep h h' (omsg_blocks (o_resp o) + (server_size (o_srv o) - server_size srv)
                         + (session_blocks (o_session o) - session_blocks s)).

(** ** Claims *)

(** C7: The server with its real handlers answers every request: whatever
    the method, a well-formed request gets the response with its id (or the
    acknowledgement of its subscription), NULL only without memory; it is
    counted once, and once more as an error exactly when the response is
    one; the handshake flag is untouched, the set of seen ids and the
    server's own invariant are kept, and with memory every block is
    accounted for between the response, the server and the session. *)
Theorem server_answers logger (srv : server) s req h r h' :
  wf_msg req -> mcp_message_kind (Some req) = MCP_MSG_REQUEST -> IdSet.inv (ids s) -> routes_inv (rest srv) ->
  mcp_server_dispatch logger (Some srv) (Some s) (Some req) true h = (r, h') ->
  exists o, r = Some (inr o) /\
    status_of req h (o_status o) (o_resp o) /\
    c_requests_total (o_srv o) = inc64 (c_requests_total srv) /\
    c_requests_error (o_srv o) = (if failed_resp (o_resp o) then inc64 (c_requests_error srv) else c_requests_error srv) /\
    initialized (o_session o) = initialized s /\ IdSet.inv (ids (o_session o)) /\ routes_inv (rest (o_srv o)) /\
    accounted srv s o h h'.
Proof. exact (dispatch_full logger srv s req h r h'). Qed.

(** Resources/subscribe and resources/unsubscribe maintain a set: after
    the call the subscribed uris are the old ones with the uri of the
    request added (or removed), without duplicates and in an array large
    enough; subscribing without memory leaves the set as it was.  A response
    is the empty result, and the blocks taken are those of the response and
    the growth of the server. *)
Theorem subscriptions_refine srv req is_sub uri h r srv' h' :
  wf_msg req -> routes_inv (rest srv) -> subs_inv (rest srv) ->
  get_string (mcp_message_params (Some req)) (cs "uri") = Some uri ->
  route_subscription srv req is_sub h = ((r, srv'), h') ->
  subs_inv (rest srv') /\
  (uris (rest srv') = (if is_sub then {[uri]} ∪ uris (rest srv) else uris (rest srv) ∖ {[uri]}) \/
   (is_sub = true /\ uris (rest srv') = uris (rest srv) /\ r = None /\ ~ ample h)) /\
  from_option (replies req (JObject (decorated (rest srv) false []))) True r /\
  (ample h -> hstep h h' (omsg_blocks r + (server_size srv' - server_size srv))).
Proof.
  intros Hw Hinv Hi Hu H. assert (untouched srv srv) as Hun by done.
  pose proof (subscription_handles req Hw srv is_sub Hun _ _ _ _ H) as (_ & _ & _ & Hb).
  unfold route_subscription in H. rewrite Hu in H. apply get_string_good in Hu as [Hn _]; [|by apply params_wf|lit].
  apply bind_inv in H as (u & h1 & E & H).
  assert (forall s m h2 h3, routes_inv s -> empty_result s req h2 = (m, h3) ->
    from_option (replies req (JObject (decorated (rest srv) false []))) True m) as Hrep.
  { intros s m h2 h3 Hs E2. destruct (empty_result_yields any_policy req Hw True s (meta_ok _ Hs) (ttl_ok _ Hs) _ _ _ I E2) as (_ & _ & Hr). by destruct m. }
  destruct is_sub.
  - pose proof E as E'. apply subscribe_spec in E' as (_ & l & c & Heq & _). apply subscribe_set in E as [Hi' Hset]; [|done..].
    destruct u as [s|s]; cbn beta iota in *.
    + minv H. simplify_eq. destruct Hset as [Hset Hna]. split; [done|]. split; [right; done|]. split; [done|].
      intros A. eapply hstep_eq; [by apply Hb|lia].
    + apply bind_inv in H as (m & h2 & E2 & H). minv H. simplify_eq. split; [done|]. split; [by left|].
      split; [eapply Hrep; [|exact E2]; by apply subscribed_inv|]. intros A. eapply hstep_eq; [by apply Hb|lia].
  - apply bind_inv in E as (s & h2 & E & E2). minv E2. pose proof E as E'. apply unsubscribe_spec in E' as (_ & l & Heq & _).
    apply unsubscribe_set in E as [Hi' Hset]; [|done..]. apply bind_inv in H as (m & h3 & E3 & H). minv H. simplify_eq.
    split; [done|]. split; [by left|]. split; [eapply Hrep; [|exact E3]; by apply subscribed_inv|].
    intros A. eapply hstep_eq; [by apply Hb|lia].
Qed.

(** The names the table compares with are those of [k_mcp_server_methods] at
    the indices the code uses. *)
Theorem table_methods :
  [cs "initialize"; cs "ping"; cs "tools/list"; cs "tools/call"; cs "resources/list"; cs "resources/read"; cs "prompts/list"; cs "prompts/get";
   cs "completion/list"; cs "completion/complete"] = take 10 k_mcp_server_methods /\
  [cs "server/discover"; cs "subscriptions/listen"; cs "tasks/get"; cs "tasks/update"; cs "tasks/cancel"; cs "skills/list"; cs "skills/get"]
    = drop 15 k_mcp_server_methods.
Proof. split; reflexivity. Qed.

(** ** Witnesses *)

Lemma server_answers_witness :
  exists r h', mcp_server_dispatch None (Some sample_full_server) (Some ready_session) (Some (list_request None)) true fresh_heap = (r, h') /\
  exists o, r = Some (inr o) /\
    status_of (list_request None) fresh_heap (o_status o) (o_resp o) /\
    c_requests_total (o_srv o) = inc64 0 /\
    c_requests_error (o_srv o) = (if failed_resp (o_resp o) then inc64 0 else 0) /\
    initialized (o_session o) = true /\ IdSet.inv (ids (o_session o)) /\ routes_inv (rest (o_srv o)) /\
    accounted sample_full_server ready_session o fresh_heap h'.
Proof.
  eexists _, _. split; [apply surjective_pairing|].
  apply (server_answers None sample_full_server ready_session (list_request None) fresh_heap);
    [apply list_request_wf; exact I|vm_compute; reflexivity|apply ready_inv|apply sample_routes_inv|apply surjective_pairing].
Defined.

Definition subscribe_request : mcp_message_t :=
  Message (doc "{'jsonrpc':'2.0','id':7,'method':'resources/subscribe','params':{'uri':'file:///a'}}").

Lemma subscriptions_refine_witness :
  exists r srv' h', route_subscription sample_full_server subscribe_request true fresh_heap = ((r, srv'), h') /\
  subs_inv (rest srv') /\
  (uris (rest srv') = {[cs "file:///a"]} ∪ uris sample_rest \/
   (true = true /\ uris (rest srv') = uris sample_rest /\ r = None /\ ~ ample fresh_heap)) /\
  from_option (replies subscribe_request (JObject (decorated sample_rest false []))) True r /\
  (ample fresh_heap -> hstep fresh_heap h' (omsg_blocks r + (server_size srv' - server_size sample_full_server))).
Proof.
  eexists _, _, _. split; [rewrite <- !surjective_pairing; reflexivity|].
  apply (subscriptions_refine sample_full_server subscribe_request true (cs "file:///a") fresh_heap);
    [split; [apply doc_wf|eexists; vm_compute; reflexivity]|apply sample_routes_inv
    |split; [constructor|constructor|cbn; lia]|vm_compute; reflexivity|rewrite <- !surjective_pairing; reflexivity].
Defined.
