(* ===== verification/Transport.v ===== *)
(** * The transport interface (src/transport/transport.c)

    A transport is a table of operations, a backend the operations work on,
    and the two timeouts.  The operations are host code (stdio, sockets, an
    HTTP server, a test double): they are parameters here, and
    [TransportLaws] says what the code above relies on. *)
From S2P Require Import Prelude Heap JsonValue.

Local Open Scope Z_scope.

(** An operation gets the transport, that is the backend pointer (and the
    read timeout, where it asks for it), and may replace the backend; NULL
    slots are allowed. *)
Record mcp_transport_ops_t (T : Type) := Ops {
  op_start : option (option T -> M (mcp_status_t * option T));
  op_send : option (bytes -> option T -> M (mcp_status_t * option T));
  op_recv : option (Z -> option T -> M (mcp_status_t * option bytes * option T));
  op_stop : option (option T -> M (mcp_status_t * option T));
}.
Arguments Ops {T}.
Arguments op_start {T}.
Arguments op_send {T}.
Arguments op_recv {T}.
Arguments op_stop {T}.

Record mcp_transport_t (T : Type) := Transport {
  ops : mcp_transport_ops_t T;
  backend : option T;
  read_ms : Z;
  write_ms : Z;
}.
Arguments Transport {T}.
Arguments ops {T}.
Arguments backend {T}.
Arguments read_ms {T}.
Arguments write_ms {T}.

Section transport.
Context {T : Type}.
Implicit Types (t : mcp_transport_t T) (b : option T).

Definition mcp_transport_create (o : option (mcp_transport_ops_t T)) b : M (option (mcp_transport_t T)) :=
  match o with
  | None => ret None
  | Some o => ok <- xmalloc ;; if ok : bool then ret (Some (Transport o b 0 0)) else ret None
  end.

Definition mcp_transport_set_timeout (t : option (mcp_transport_t T)) (rd wr : Z)
    : mcp_status_t * option (mcp_transport_t T) :=
  match t with
  | None => (MCP_ERR_INVALID_ARGUMENT, None)
  | Some t => (MCP_OK, Some (Transport (ops t) (backend t) rd wr))
  end.

(** [outs]: whether both result pointers are given. *)
Definition mcp_transport_get_timeout (t : option (mcp_transport_t T)) (outs : bool) : mcp_status_t * option (Z * Z) :=
  match t, outs with
  | Some t, true => (MCP_OK, Some (read_ms t, write_ms t))
  | _, _ => (MCP_ERR_INVALID_ARGUMENT, None)
  end.

Definition mcp_transport_destroy (t : option (mcp_transport_t T)) : M unit :=
  match t with None => ret tt | Some _ => xfree false end.

Definition mcp_transport_backend (t : option (mcp_transport_t T)) : option T :=
  match t with None => None | Some t => backend t end.

Definition mcp_transport_set_backend (t : option (mcp_transport_t T)) b : option (mcp_transport_t T) :=
  match t with None => None | Some t => Some (Transport (ops t) b (read_ms t) (write_ms t)) end.

Definition with_backend t b : mcp_transport_t T := Transport (ops t) b (read_ms t) (write_ms t).

Definition mcp_transport_start (t : option (mcp_transport_t T)) : M (mcp_status_t * option (mcp_transport_t T)) :=
  match t with
  | None => ret (MCP_ERR_INVALID_ARGUMENT, None)
  | Some t =>
      match op_start (ops t) with
      | None => ret (MCP_ERR_UNSUPPORTED, Some t)
      | Some f => r <- f (backend t) ;; ret (r.1, Some (with_backend t r.2))
      end
  end.

(** [data] of [len] bytes. *)
Definition mcp_transport_send (t : option (mcp_transport_t T)) (data : option bytes) (len : nat)
    : M (mcp_status_t * option (mcp_transport_t T)) :=
  match t with
  | None => ret (MCP_ERR_INVALID_ARGUMENT, None)
  | Some t =>
      if bool_decide (data = None) && Nat.ltb 0 len then ret (MCP_ERR_INVALID_ARGUMENT, Some t) else
      match op_send (ops t) with
      | None => ret (MCP_ERR_UNSUPPORTED, Some t)
      | Some f => r <- f (take len (default [] data)) (backend t) ;; ret (r.1, Some (with_backend t r.2))
      end
  end.

Definition mcp_transport_recv (t : option (mcp_transport_t T)) (line_out : bool)
    : M (mcp_status_t * option bytes * option (mcp_transport_t T)) :=
  match t, line_out with
  | Some t, true =>
      match op_recv (ops t) with
      | None => ret (MCP_ERR_UNSUPPORTED, None, Some t)
      | Some f => r <- f (read_ms t) (backend t) ;; let '(st, line, b) := r in ret (st, line, Some (with_backend t b))
      end
  | _, _ => ret (MCP_ERR_INVALID_ARGUMENT, None, t)
  end.

Definition mcp_transport_stop (t : option (mcp_transport_t T)) : M (mcp_status_t * option (mcp_transport_t T)) :=
  match t with
  | None => ret (MCP_ERR_INVALID_ARGUMENT, None)
  | Some t =>
      match op_stop (ops t) with
      | None => ret (MCP_ERR_UNSUPPORTED, Some t)
      | Some f => r <- f (backend t) ;; ret (r.1, Some (with_backend t r.2))
      end
  end.
End transport.

(** ** What a transport promises

    Sending borrows the data; receiving gives an owned string exactly with
    MCP_OK; besides that the blocks of the backend, [size], account for what
    is allocated.  The invariant of the backend is the transport's own. *)
Class TransportLaws {T} (o : mcp_transport_ops_t T) := {
  tr_size : option T -> Z;
  tr_inv : option T -> Prop;
  law_send f data b h st b' h' :
    op_send o = Some f -> tr_inv b -> f data b h = ((st, b'), h') ->
    tr_inv b' /\ hstep h h' (tr_size b' - tr_size b);
  law_recv f rd b h st line b' h' :
    op_recv o = Some f -> tr_inv b -> f rd b h = ((st, line, b'), h') ->
    tr_inv b' /\ hstep h h' ((if line then 1 else 0) + (tr_size b' - tr_size b)) /\
    (line <> None <-> st = MCP_OK);
}.

Section laws.
Context {T : Type} (o : mcp_transport_ops_t T) {L : TransportLaws o}.

(** A transport with these operations, in a good state. *)
Definition sound (t : mcp_transport_t T) : Prop := ops t = o /\ tr_inv (backend t).

Lemma send_sound t data len h st t' h' :
  sound t -> mcp_transport_send (Some t) (Some data) len h = ((st, t'), h') ->
  exists t1, t' = Some t1 /\ sound t1 /\ hstep h h' (tr_size (backend t1) - tr_size (backend t)).
Proof.
  intros [Ho Hi] H. unfold mcp_transport_send in H. rewrite bool_decide_false in H by done. cbn [andb] in H.
  rewrite Ho in H. destruct (op_send o) as [f|] eqn:Ef.
  - apply bind_inv in H as ([st1 b1] & h1 & E & H). apply ret_inv in H as [[= -> ->] ->].
    apply (law_send f) in E as [Hi' Hs]; [|done..]. by exists (with_backend t b1).
  - apply ret_inv in H as [[= -> ->] ->]. exists t. split; [done|]. split; [done|]. eapply hstep_eq; [apply hstep_refl|lia].
Qed.

Lemma recv_sound t h st line t' h' :
  sound t -> mcp_transport_recv (Some t) true h = ((st, line, t'), h') ->
  exists t1, t' = Some t1 /\ sound t1 /\
    hstep h h' ((if line then 1 else 0) + (tr_size (backend t1) - tr_size (backend t))) /\ (line <> None <-> st = MCP_OK).
Proof.
  intros [Ho Hi] H. unfold mcp_transport_recv in H. rewrite Ho in H. destruct (op_recv o) as [f|] eqn:Ef.
  - apply bind_inv in H as ([[st1 l1] b1] & h1 & E & H). apply ret_inv in H as [[= -> -> ->] ->].
    apply (law_recv f) in E as (Hi' & Hs & Hl); [|done..]. by exists (with_backend t b1).
  - apply ret_inv in H as [[= -> -> ->] ->]. exists t. split; [done|]. split; [done|].
    split; [eapply hstep_eq; [apply hstep_refl|lia]|done].
Qed.
End laws.
