(* ===== verification/WsFrame.v ===== *)
(** * WebSocket frames (src/transport/ws.c, lines 34-238)

    The codec of RFC 6455 frames: header bytes, the three forms of the
    length, the mask.  The parser works on the bytes received so far and
    asks for more, refuses, or takes one frame off the front. *)
From S2P Require Import Prelude Heap Steps JsonValue Sha256 Base64.

Local Open Scope Z_scope.

Inductive mcp_ws_opcode_t :=
| MCP_WS_OP_CONTINUATION | MCP_WS_OP_TEXT | MCP_WS_OP_BINARY | MCP_WS_OP_CLOSE | MCP_WS_OP_PING | MCP_WS_OP_PONG.

#[export] Instance opcode_eq_dec : EqDecision mcp_ws_opcode_t.
Proof. solve_decision. Defined.

(** The values of the enumeration. *)
Definition op_code (o : mcp_ws_opcode_t) : Z :=
  match o with
  | MCP_WS_OP_CONTINUATION => 0x0 | MCP_WS_OP_TEXT => 0x1 | MCP_WS_OP_BINARY => 0x2
  | MCP_WS_OP_CLOSE => 0x8 | MCP_WS_OP_PING => 0x9 | MCP_WS_OP_PONG => 0xA
  end.

(** The switch over the opcode. *)
Definition opcode_of (raw : Z) : option mcp_ws_opcode_t :=
  find (fun o => op_code o =? raw)
    [MCP_WS_OP_CONTINUATION; MCP_WS_OP_TEXT; MCP_WS_OP_BINARY; MCP_WS_OP_CLOSE; MCP_WS_OP_PING; MCP_WS_OP_PONG].

(** [payload] is what lies at the pointer, [None] for NULL. *)
Record mcp_ws_frame_t := Frame {
  fin : bool;
  opcode : mcp_ws_opcode_t;
  masked : bool;
  mask_key : bytes;
  payload_len : Z;
  payload : option bytes;
}.

Definition no_key : bytes := replicate 4 x00.

(** The output after it is set to zero. *)
Definition zero_frame : mcp_ws_frame_t := Frame false MCP_WS_OP_CONTINUATION false no_key 0 None.

(** [s[i] ^ mask_key[i % 4]]. *)
Fixpoint mask_from (i : nat) (key s : bytes) : bytes :=
  match s with
  | [] => []
  | c :: s => z2b (Z.lxor (b2z c) (b2z (nth (i mod 4) key x00))) :: mask_from (S i) key s
  end.

(** ** Parsing *)

Definition u8 (buf : bytes) (i : nat) : Z := b2z (nth i buf x00).

Definition bit_set (x m : Z) : bool := negb (Z.land x m =? 0).

(** The length the header announces and the size of the header so far;
    [None] when the bytes do not reach, [Some None] when it is refused. *)
Definition read_length (buf : bytes) (len7 : Z) : option (option (Z * nat)) :=
  if len7 =? 126 then
    if Nat.ltb (length buf) 4 then None else Some (Some (Z.lor (Z.shiftl (u8 buf 2) 8) (u8 buf 3), 4%nat))
  else if len7 =? 127 then
    if Nat.ltb (length buf) 10 then None else
    if bit_set (u8 buf 2) 0x80 then Some None else
    Some (Some (fold_left (fun acc i => Z.lor (w64 (Z.shiftl acc 8)) (u8 buf (2 + i))) (seq 0 8) 0, 10%nat))
  else Some (Some (len7, 2%nat)).

(** What the bytes of a frame's header say. *)
Record head := Head { h_fin : bool; h_op : mcp_ws_opcode_t; h_masked : bool; h_key : bytes; h_len : Z; h_size : nat }.

Inductive scan := More | Malformed | Whole (hd : head).

(** The parser up to the allocation of the payload. *)
Definition scan_frame (buf : bytes) : scan :=
  if Nat.ltb (length buf) 2 then More else
  let b0 := u8 buf 0 in
  let b1 := u8 buf 1 in
  let fin := bit_set b0 0x80 in
  if bit_set b0 0x70 then Malformed else
  match opcode_of (Z.land b0 0x0F) with
  | None => Malformed
  | Some o =>
      let is_control := bit_set (Z.land b0 0x0F) 0x08 in
      if is_control && negb fin then Malformed else
      let masked := bit_set b1 0x80 in
      let len7 := Z.land b1 0x7F in
      if is_control && (125 <? len7) then Malformed else
      match read_length buf len7 with
      | None => More
      | Some None => Malformed
      | Some (Some (len, hsize)) =>
          if masked && Nat.ltb (length buf) (hsize + 4) then More else
          let key := if masked then take 4 (drop hsize buf) else no_key in
          let hsize := if masked then (hsize + 4)%nat else hsize in
          if Z.of_nat (length buf) <? w64 (Z.of_nat hsize + len) then More
          else Whole (Head fin o masked key len hsize)
      end
  end.

Definition mcp_ws_parse_frame (buf : option bytes) (frame_out consumed_out : bool) : M (mcp_status_t * mcp_ws_frame_t * nat) :=
  match buf with
  | None => ret (MCP_ERR_INVALID_ARGUMENT, zero_frame, 0%nat)
  | Some buf =>
      if negb (frame_out && consumed_out) then ret (MCP_ERR_INVALID_ARGUMENT, zero_frame, 0%nat) else
      match scan_frame buf with
      | More => ret (MCP_OK, zero_frame, 0%nat)
      | Malformed => ret (MCP_ERR_PROTOCOL, zero_frame, 0%nat)
      | Whole (Head fin o masked key len hsize) =>
          let consumed := (hsize + Z.to_nat len)%nat in
          if 0 <? len then
            ok <- xmalloc ;;
            if negb ok then ret (MCP_ERR_NOMEM, zero_frame, 0%nat) else
            let src := take (Z.to_nat len) (drop hsize buf) in
            ret (MCP_OK, Frame fin o masked key len (Some (if masked then mask_from 0 key src else src)), consumed)
          else ret (MCP_OK, Frame fin o masked key len None, consumed)
      end
  end.

(** ** Encoding *)

Definition header_size (f : mcp_ws_frame_t) : nat :=
  Nat.add (if payload_len f <=? 125 then 2%nat else if payload_len f <=? 0xFFFF then 4%nat else 10%nat) (if masked f then 4%nat else 0%nat).

Definition length_bytes (mask_bit len : Z) : bytes :=
  if len <=? 125 then [z2b (Z.lor mask_bit len)]
  else if len <=? 0xFFFF then [z2b (Z.lor mask_bit 126); z2b (Z.land (Z.shiftr len 8) 0xFF); z2b (Z.land len 0xFF)]
  else z2b (Z.lor mask_bit 127) :: be_bytes 8 len.

Section Encode.
(** What a fresh block holds before it is written. *)
Variable garbage : nat -> byte.

(** The bytes behind the header; without a payload pointer they are left as
    they are. *)
Definition body_bytes (f : mcp_ws_frame_t) : bytes :=
  match payload f with
  | Some p => let p := take (Z.to_nat (payload_len f)) p in if masked f then mask_from 0 (mask_key f) p else p
  | None => map garbage (seq (header_size f) (Z.to_nat (payload_len f)))
  end.

Definition mcp_ws_encode_frame (frame : option mcp_ws_frame_t) (outs : bool) : M (mcp_status_t * option bytes) :=
  match frame with
  | None => ret (MCP_ERR_INVALID_ARGUMENT, None)
  | Some f =>
      if negb outs then ret (MCP_ERR_INVALID_ARGUMENT, None) else
      let total_len := w64 (Z.of_nat (header_size f) + payload_len f) in
      ok <- xmalloc ;;
      if negb ok then ret (MCP_ERR_NOMEM, None) else
      (* a total that wraps is smaller than the header *)
      (if total_len <? Z.of_nat (header_size f) then mark_corrupt else ret tt) ;;
      ret (MCP_OK, Some (z2b (Z.lor (if fin f then 0x80 else 0x00) (Z.land (op_code (opcode f)) 0x0F))
                         :: length_bytes (if masked f then 0x80 else 0x00) (payload_len f)
                         ++ (if masked f then mask_key f else []) ++ body_bytes f))
  end.
End Encode.

Definition mcp_ws_frame_destroy (frame : option mcp_ws_frame_t) : M (option mcp_ws_frame_t) :=
  match frame with
  | None => ret None
  | Some f =>
      (if payload f then xfree false else ret tt) ;;
      ret (Some (Frame (fin f) (opcode f) (masked f) (mask_key f) 0 None))
  end.

(** ** Frames on the wire *)

(** The number that bytes spell, most significant first. *)
Definition be_value (s : bytes) : Z := fold_left (fun n b => n * 256 + b2z b) s 0.

(** The forms of the length: seven bits, and what follows them. *)
Inductive wire_len : Z -> Z -> bytes -> Prop :=
| wire_short n : 0 <= n <= 125 -> wire_len n n []
| wire_medium s : length s = 2%nat -> wire_len (be_value s) 126 s
| wire_long s : length s = 8%nat -> be_value s < 2 ^ 63 -> wire_len (be_value s) 127 s.

Definition control (o : mcp_ws_opcode_t) : bool :=
  match o with MCP_WS_OP_CLOSE | MCP_WS_OP_PING | MCP_WS_OP_PONG => true | _ => false end.

(** A frame as the parser gives it: the payload is there exactly when it
    is not empty, and a frame that is not masked has the zero key. *)
Record frame_ok (f : mcp_ws_frame_t) : Prop := FrameOk {
  ok_len : 0 <= payload_len f < 2 ^ 63;
  ok_payload : match payload f with Some p => Z.of_nat (length p) = payload_len f /\ p <> [] | None => payload_len f = 0 end;
  ok_key : if masked f then length (mask_key f) = 4%nat else mask_key f = no_key;
  ok_control : control (opcode f) = true -> fin f = true /\ payload_len f <= 125;
}.

(** The bytes of a frame, with a length form of its own choice. *)
Inductive frame_wire (f : mcp_ws_frame_t) : bytes -> Prop :=
| frame_wire_intro len7 ext :
    frame_ok f -> wire_len (payload_len f) len7 ext -> (control (opcode f) = true -> len7 <= 125) ->
    frame_wire f
      (z2b ((if fin f then 128 else 0) + op_code (opcode f)) :: z2b ((if masked f then 128 else 0) + len7) ::
       ext ++ (if masked f then mask_key f else []) ++
       (if masked f then mask_from 0 (mask_key f) (default [] (payload f)) else default [] (payload f))).

(** *** Masking *)

Lemma length_mask i key s : length (mask_from i key s) = length s.
Proof. revert i. induction s as [|c s IH]; intros i; [done|]. cbn [mask_from length]. by rewrite IH. Qed.

Lemma xor_byte a b : 0 <= Z.lxor (b2z a) (b2z b) < 256.
Proof.
  assert (0 <= Z.lxor (b2z a) (b2z b)) by (apply Z.lxor_nonneg; pose proof (b2z_range a); pose proof (b2z_range b); lia).
  split; [done|]. change 256 with (2 ^ 8). destruct (Z.eq_dec (Z.lxor (b2z a) (b2z b)) 0) as [->|N]; [done|]. apply Z.log2_lt_pow2; [lia|].
  eapply Z.le_lt_trans; [apply Z.log2_lxor; apply b2z_range|].
  pose proof (b2z_range a). pose proof (b2z_range b). apply Z.max_lub_lt.
  all: match goal with |- Z.log2 (b2z ?x) < _ => destruct (Z.eq_dec (b2z x) 0) as [->|]; [done|apply Z.log2_lt_pow2; [lia|change (2 ^ 8) with 256; lia]] end.
Qed.

(** Masking twice with one key is the identity. *)
Lemma mask_mask i key s : mask_from i key (mask_from i key s) = s.
Proof.
  revert i. induction s as [|c s IH]; intros i; [done|]. cbn [mask_from]. rewrite IH. f_equal.
  rewrite b2z_z2b by apply xor_byte. rewrite Z.lxor_assoc, Z.lxor_nilpotent, Z.lxor_0_r. apply z2b_b2z.
Qed.

(** *** The two header bytes *)

Lemma first_byte (fn : bool) o :
  let b0 := b2z (z2b ((if fn then 128 else 0) + op_code o)) in
  bit_set b0 0x80 = fn /\ bit_set b0 0x70 = false /\ opcode_of (Z.land b0 0x0F) = Some o /\ bit_set (Z.land b0 0x0F) 0x08 = control o.
Proof. by destruct fn, o; vm_compute. Qed.

Lemma first_byte_inv b o :
  bit_set (b2z b) 0x70 = false -> opcode_of (Z.land (b2z b) 0x0F) = Some o ->
  b = z2b ((if bit_set (b2z b) 0x80 then 128 else 0) + op_code o) /\ bit_set (Z.land (b2z b) 0x0F) 0x08 = control o.
Proof.
  pose proof (all_bytes_forall (fun b => bit_set (b2z b) 0x70 || match opcode_of (Z.land (b2z b) 0x0F) with
    | Some o => Byte.eqb b (z2b ((if bit_set (b2z b) 0x80 then 128 else 0) + op_code o)) && Bool.eqb (bit_set (Z.land (b2z b) 0x0F) 0x08) (control o)
    | None => true end) ltac:(by vm_compute) b) as H.
  intros Hr Ho. cbv beta in H. rewrite Hr, Ho in H. cbn [orb] in H. apply andb_true_iff in H as [H1 H2]. split; [by apply byte_eqb_eq|by apply eqb_prop].
Qed.

Lemma second_byte (m : bool) len7 :
  0 <= len7 <= 127 -> let b1 := b2z (z2b ((if m then 128 else 0) + len7)) in bit_set b1 0x80 = m /\ Z.land b1 0x7F = len7.
Proof.
  intros H b1. assert (forallb (fun n => forallb (fun m : bool => let b1 := b2z (z2b ((if m then 128 else 0) + Z.of_nat n)) in
    Bool.eqb (bit_set b1 0x80) m && (Z.land b1 0x7F =? Z.of_nat n)) [true; false]) (seq 0 128) = true) as F by (by vm_compute).
  rewrite forallb_forall in F. specialize (F (Z.to_nat len7) ltac:(apply in_seq; lia)). rewrite forallb_forall in F.
  specialize (F m ltac:(destruct m; cbn; auto)). rewrite Z2Nat.id in F by lia. fold b1 in F. cbv zeta in F.
  apply andb_true_iff in F as [F1 F2]. split; [by apply eqb_prop|by apply Z.eqb_eq].
Qed.

Lemma second_byte_inv b :
  b = z2b ((if bit_set (b2z b) 0x80 then 128 else 0) + Z.land (b2z b) 0x7F) /\ 0 <= Z.land (b2z b) 0x7F <= 127.
Proof.
  pose proof (all_bytes_forall (fun b => Byte.eqb b (z2b ((if bit_set (b2z b) 0x80 then 128 else 0) + Z.land (b2z b) 0x7F)) &&
    (0 <=? Z.land (b2z b) 0x7F) && (Z.land (b2z b) 0x7F <=? 127)) ltac:(by vm_compute) b) as H.
  apply andb_true_iff in H as [[H1 H2]%andb_true_iff H3]. split; [by apply byte_eqb_eq|lia].
Qed.

Lemma high_bit b : bit_set (b2z b) 0x80 = (128 <=? b2z b).
Proof. apply eqb_prop. exact (all_bytes_forall (fun b => Bool.eqb (bit_set (b2z b) 0x80) (128 <=? b2z b)) ltac:(by vm_compute) b). Qed.

(** *** The length *)

Lemma be_step acc b : 0 <= acc < 2 ^ 56 -> Z.lor (w64 (Z.shiftl acc 8)) (b2z b) = acc * 256 + b2z b.
Proof.
  intros H. pose proof (b2z_range b). unfold w64. rewrite Z.mod_small by (rewrite Z.shiftl_mul_pow2; lia). rewrite lor_add by lia. lia.
Qed.

Lemma read_length_long b0 b1 c1 c2 c3 c4 c5 c6 c7 c8 tl :
  b2z c1 < 128 ->
  fold_left (fun acc i => Z.lor (w64 (Z.shiftl acc 8)) (u8 (b0 :: b1 :: c1 :: c2 :: c3 :: c4 :: c5 :: c6 :: c7 :: c8 :: tl) (2 + i))) (seq 0 8) 0
  = be_value [c1; c2; c3; c4; c5; c6; c7; c8].
Proof.
  intros H1. unfold u8. cbn [seq fold_left Nat.add nth].
  pose proof (b2z_range c1). pose proof (b2z_range c2). pose proof (b2z_range c3). pose proof (b2z_range c4).
  pose proof (b2z_range c5). pose proof (b2z_range c6). pose proof (b2z_range c7).
  repeat match goal with |- context [Z.lor (w64 (Z.shiftl ?a 8)) (b2z ?b)] =>
    lazymatch a with context [Z.lor _ _] => fail | _ => rewrite (be_step a b) by lia end end.
  done.
Qed.

Lemma be_value_bounds s : 0 <= be_value s < 256 ^ Z.of_nat (length s).
Proof.
  unfold be_value. assert (forall s n, 0 <= n -> 0 <= fold_left (fun n b => n * 256 + b2z b) s n < (n + 1) * 256 ^ Z.of_nat (length s)) as H.
  { clear s. induction s as [|b s IH]; intros n Hn; cbn [fold_left length]; [cbn; lia|]. pose proof (b2z_range b).
    specialize (IH (n * 256 + b2z b) ltac:(lia)). rewrite Nat2Z.inj_succ, Z.pow_succ_r by lia.
    pose proof (Z.pow_pos_nonneg 256 (Z.of_nat (length s)) ltac:(lia) ltac:(lia)). split; [lia|].
    eapply Z.lt_le_trans; [apply IH|]. rewrite Z.mul_assoc. apply Z.mul_le_mono_nonneg_r; lia. }
  specialize (H s 0 ltac:(lia)). lia.
Qed.

Lemma long_first c1 s : length s = 7%nat -> be_value (c1 :: s) < 2 ^ 63 <-> b2z c1 < 128.
Proof.
  intros Hl. do 7 (destruct s as [|? s]; [done|]). destruct s; [|done]. unfold be_value. cbn [fold_left].
  repeat match goal with b : byte |- _ => lazymatch goal with _ : 0 <= b2z b < 256 |- _ => fail | _ => pose proof (b2z_range b) end end.
  lia.
Qed.

Lemma wire_len_read n len7 ext b0 b1 tl :
  wire_len n len7 ext -> read_length (b0 :: b1 :: ext ++ tl) len7 = Some (Some (n, (2 + length ext)%nat)) /\ 0 <= len7 <= 127.
Proof.
  intros [m Hm|s Hs|s Hs Hb]; unfold read_length.
  - rewrite (proj2 (Z.eqb_neq m 126)), (proj2 (Z.eqb_neq m 127)) by lia. split; [done|lia].
  - destruct s as [|x [|y [|? ?]]]; try done. cbn [Z.eqb Pos.eqb length app Nat.ltb Nat.leb]. split; [|lia]. unfold u8. cbn [nth].
    pose proof (b2z_range y). rewrite lor_add by lia. done.
  - do 8 (destruct s as [|? s]; [done|]). destruct s; [|done]. apply long_first in Hb; [|done].
    cbn [Z.eqb Pos.eqb length app Nat.ltb Nat.leb]. rewrite read_length_long by done. change (u8 _ 2) with (b2z b). rewrite high_bit.
    rewrite (proj2 (Z.leb_gt _ _) Hb). split; [done|lia].
Qed.

Lemma read_wire_len b0 b1 tl len7 n k :
  0 <= len7 <= 127 -> read_length (b0 :: b1 :: tl) len7 = Some (Some (n, k)) ->
  exists ext tl', tl = ext ++ tl' /\ wire_len n len7 ext /\ k = (2 + length ext)%nat.
Proof.
  intros H7 H. unfold read_length in H. destruct (Z.eqb_spec len7 126) as [->|N1]; [|destruct (Z.eqb_spec len7 127) as [->|N2]].
  - destruct tl as [|x [|y tl]]; [done..|]. cbn [length Nat.ltb Nat.leb] in H. unfold u8 in H. cbn [nth] in H. pose proof (b2z_range y).
    rewrite lor_add in H by lia. injection H as <- <-. exists [x; y], tl. split; [done|]. split; [by apply (wire_medium [x; y])|done].
  - do 8 (destruct tl as [|? tl]; [done|]). cbn [length Nat.ltb Nat.leb] in H. change (u8 _ 2) with (b2z b) in H. rewrite high_bit in H.
    destruct (Z.leb_spec 128 (b2z b)) as [Hh|Hh]; [done|]. rewrite read_length_long in H by done. injection H as <- <-.
    eexists [b; _; _; _; _; _; _; _], tl. split; [done|]. split; [|done]. apply wire_long; [done|]. by apply long_first.
  - injection H as <- <-. exists [], tl. split; [done|]. split; [|done]. constructor. lia.
Qed.

Lemma wire_len_short n len7 ext b0 b1 p q :
  wire_len n len7 ext -> ext = p ++ q -> q <> [] -> read_length (b0 :: b1 :: p) len7 = None.
Proof.
  intros Hw He Hq. assert (length p < length ext)%nat as Hl by (subst; rewrite length_app; destruct q; [done|cbn; lia]).
  destruct Hw as [m Hm|s Hs|s Hs Hb]; unfold read_length; cbn [length] in *; [lia| |]; cbn [Z.eqb Pos.eqb].
  all: match goal with |- context [Nat.ltb ?a ?b] => destruct (Nat.ltb_spec a b) end; [done|lia].
Qed.

(** *** The parser and the wire *)

(** The scan after the checks of the first two bytes. *)
Definition scan_rest (buf : bytes) (fn : bool) (o : mcp_ws_opcode_t) (m : bool) (r : option (option (Z * nat))) : scan :=
  match r with
  | None => More
  | Some None => Malformed
  | Some (Some (len, hsize)) =>
      if m && Nat.ltb (length buf) (hsize + 4) then More else
      let key := if m then take 4 (drop hsize buf) else no_key in
      let hsize := if m then (hsize + 4)%nat else hsize in
      if Z.of_nat (length buf) <? w64 (Z.of_nat hsize + len) then More else Whole (Head fn o m key len hsize)
  end.

Lemma scan_head (fn m : bool) o len7 tl :
  0 <= len7 <= 127 -> (control o = true -> fn = true /\ len7 <= 125) ->
  let buf := z2b ((if fn then 128 else 0) + op_code o) :: z2b ((if m then 128 else 0) + len7) :: tl in
  scan_frame buf = scan_rest buf fn o m (read_length buf len7).
Proof.
  intros H7 Hc buf. destruct (first_byte fn o) as (F1 & F2 & F3 & F4). destruct (second_byte m len7 H7) as [S1 S2].
  assert (u8 buf 0 = b2z (z2b ((if fn then 128 else 0) + op_code o))) as E0 by done.
  assert (u8 buf 1 = b2z (z2b ((if m then 128 else 0) + len7))) as E1 by done.
  unfold scan_frame. replace (Nat.ltb (length buf) 2) with false by done. cbv zeta. rewrite E0, E1, F1, F2, F3, F4, S1, S2.
  destruct (control o); [|done]. destruct (Hc eq_refl) as [-> H125]. cbn [andb negb]. by rewrite (proj2 (Z.ltb_ge _ _) H125).
Qed.

(** The bytes of a frame behind its header. *)
Definition wire_body (f : mcp_ws_frame_t) : bytes :=
  if masked f then mask_from 0 (mask_key f) (default [] (payload f)) else default [] (payload f).

Definition wire_key (f : mcp_ws_frame_t) : bytes := if masked f then mask_key f else [].

Lemma length_body f : frame_ok f -> length (wire_body f) = Z.to_nat (payload_len f).
Proof.
  intros [Hl Hp _ _]. unfold wire_body. destruct (payload f) as [p|]; cbn in *; [|rewrite Hp; by destruct (masked f)].
  destruct Hp as [Hp _]. destruct (masked f); rewrite ?length_mask; lia.
Qed.

Lemma length_key f : frame_ok f -> length (wire_key f) = if masked f then 4%nat else 0%nat.
Proof. intros [_ _ Hk _]. unfold wire_key. by destruct (masked f). Qed.

Lemma no_wrap hsize len : (hsize <= 14)%nat -> 0 <= len < 2 ^ 63 -> w64 (Z.of_nat hsize + len) = Z.of_nat hsize + len.
Proof. intros. unfold w64. apply Z.mod_small. lia. Qed.

Lemma wire_len_ext n len7 ext : wire_len n len7 ext -> (length ext <= 8)%nat.
Proof. intros [m Hm|s Hs|s Hs Hb]; cbn; lia. Qed.

Definition whole (f : mcp_ws_frame_t) (hsize : nat) : scan := Whole (Head (fin f) (opcode f) (masked f) (mask_key f) (payload_len f) hsize).

(** A buffer that begins with a frame is scanned as that frame. *)
Lemma scan_wire f bs rest :
  frame_wire f bs -> exists hd, bs = hd ++ wire_body f /\ (2 <= length hd <= 14)%nat /\ scan_frame (bs ++ rest) = whole f (length hd).
Proof.
  intros [len7 ext Hok Hw Hc]. pose proof (length_key f Hok) as Hkey. pose proof (length_body f Hok) as Hbody. pose proof (wire_len_ext _ _ _ Hw) as Hext.
  set (b0 := z2b ((if fin f then 128 else 0) + op_code (opcode f))). set (b1 := z2b ((if masked f then 128 else 0) + len7)).
  exists (b0 :: b1 :: ext ++ wire_key f). fold (wire_body f) (wire_key f). split; [cbn; by rewrite <- app_assoc|].
  split; [cbn [length]; rewrite length_app, Hkey; destruct (masked f); lia|].
  set (buf := (b0 :: b1 :: ext ++ wire_key f ++ wire_body f) ++ rest). pose proof (wire_len_read _ _ _ b0 b1 (wire_key f ++ wire_body f ++ rest) Hw) as [Hr H7].
  assert (buf = b0 :: b1 :: ext ++ wire_key f ++ wire_body f ++ rest) as Eb by (unfold buf; cbn; by rewrite <- !app_assoc).
  rewrite Eb. unfold b0, b1. rewrite (scan_head (fin f) (masked f) (opcode f)); [|done|].
  2:{ intros Hctl. split; [by apply (ok_control f Hok)|by apply Hc]. }
  fold b0 b1. rewrite Hr, <- Eb. cbn [scan_rest].
  assert (length buf = (2 + length ext + length (wire_key f) + length (wire_body f) + length rest)%nat) as Hlen.
  { rewrite Eb. cbn [length]. rewrite !length_app. lia. }
  assert (drop (2 + length ext) buf = wire_key f ++ wire_body f ++ rest) as Hd.
  { rewrite Eb. change (b0 :: b1 :: ext ++ ?x) with ([b0; b1] ++ ext ++ x). rewrite app_assoc. apply drop_app_length'. done. }
  pose proof (ok_len f Hok) as Hl. pose proof (ok_key f Hok) as Hk. unfold whole. destruct (masked f) eqn:Em.
  - rewrite Hkey in Hlen. rewrite (proj2 (Nat.ltb_ge _ _)) by lia. cbn [andb]. rewrite Hd.
    assert (take 4 (wire_key f ++ wire_body f ++ rest) = mask_key f) as ->. { unfold wire_key. rewrite Em. apply take_app_length'. done. }
    rewrite no_wrap by lia. rewrite (proj2 (Z.ltb_ge _ _)) by lia. do 2 f_equal. cbn [length]. rewrite length_app. lia.
  - rewrite Hkey in Hlen. cbn [andb]. rewrite no_wrap by lia. rewrite (proj2 (Z.ltb_ge _ _)) by lia. rewrite Hk.
    do 2 f_equal. cbn [length]. rewrite length_app. lia.
Qed.

(** A proper prefix of a frame is not enough. *)
Lemma scan_prefix f p q : frame_wire f (p ++ q) -> q <> [] -> scan_frame p = More.
Proof.
  intros H Hq. inversion H as [len7 ext Hok Hw Hc Eq]. fold (wire_body f) in Eq. change (if masked f then mask_key f else []) with (wire_key f) in Eq.
  destruct p as [|b0 [|b1 p]]; [done|done|]. injection Eq as <- <- Eq.
  pose proof (wire_len_read _ _ _ x00 x00 [] Hw) as [_ H7]. rewrite (scan_head (fin f) (masked f) (opcode f)); [|done|].
  2:{ intros Hctl. split; [by apply (ok_control f Hok)|by apply Hc]. }
  destruct (decide (length p < length ext)%nat) as [Hlt|Hge].
  - rewrite (wire_len_short _ _ _ _ _ p (drop (length p) ext) Hw); [done| |].
    + apply (f_equal (take (length p))) in Eq. rewrite take_app_length, take_app_le in Eq by lia. rewrite <- Eq at 1. by rewrite take_drop.
    + intros E%(f_equal length). rewrite length_drop in E. cbn in E. lia.
  - assert (p = ext ++ drop (length ext) p) as Ep.
    { apply (f_equal (take (length ext))) in Eq. rewrite take_app_length, take_app_le in Eq by lia. rewrite Eq at 1. by rewrite take_drop. }
    set (p' := drop (length ext) p) in Ep. rewrite Ep in *. rewrite <- app_assoc in Eq. apply app_inv_head in Eq.
    rewrite (proj1 (wire_len_read _ _ _ _ _ p' Hw)). cbn [scan_rest].
    pose proof (length_key f Hok) as Hkey. pose proof (length_body f Hok) as Hbody. pose proof (wire_len_ext _ _ _ Hw) as Hext. pose proof (ok_len f Hok) as Hl.
    assert (length (wire_key f) + length (wire_body f) = length p' + length q)%nat as Elen by (rewrite <- !length_app; by rewrite Eq).
    assert (0 < length q)%nat as Hq0 by (destruct q; [done|cbn; lia]). cbn [length]. rewrite length_app.
    destruct (masked f); cbn [andb].
    + destruct (Nat.ltb _ _); [done|]. rewrite no_wrap by lia. rewrite (proj2 (Z.ltb_lt _ _)) by lia. done.
    + rewrite no_wrap by lia. rewrite (proj2 (Z.ltb_lt _ _)) by lia. done.
Qed.

(** What is scanned as a frame begins with one. *)
Lemma scan_inv buf hd :
  scan_frame buf = Whole hd ->
  let src := take (Z.to_nat (h_len hd)) (drop (h_size hd) buf) in
  let f := Frame (h_fin hd) (h_op hd) (h_masked hd) (h_key hd) (h_len hd)
             (if 0 <? h_len hd then Some (if h_masked hd then mask_from 0 (h_key hd) src else src) else None) in
  exists bs rest, buf = bs ++ rest /\ frame_wire f bs /\ length bs = (h_size hd + Z.to_nat (h_len hd))%nat /\ bs <> [].
Proof.
  intros H. cbv zeta. destruct buf as [|b0 [|b1 tl]]; [done|done|]. set (buf := b0 :: b1 :: tl) in *. unfold scan_frame in H.
  replace (Nat.ltb (length buf) 2) with false in H by done. cbv zeta in H. change (u8 buf 0) with (b2z b0) in H. change (u8 buf 1) with (b2z b1) in H.
  destruct (bit_set (b2z b0) 0x70) eqn:Ersv; [done|]. destruct (opcode_of _) as [o|] eqn:Eo; [|done].
  destruct (first_byte_inv b0 o Ersv Eo) as [E0 Ectl]. rewrite Ectl in H. destruct (second_byte_inv b1) as [E1 H7].
  set (m := bit_set (b2z b1) 0x80) in *. set (fn := bit_set (b2z b0) 0x80) in *. set (len7 := Z.land (b2z b1) 0x7F) in *.
  destruct (control o && negb fn) eqn:Ec1; [done|]. destruct (control o && (125 <? len7)) eqn:Ec2; [done|].
  destruct (read_length buf len7) as [[[len k]|]|] eqn:Er; [|done|done]. apply read_wire_len in Er as (ext & tl' & -> & Hw & ->); [|done].
  pose proof (wire_len_ext _ _ _ Hw) as Hext.
  assert (0 <= len < 2 ^ 63) as Hlen.
  { destruct Hw as [? ?|s Hs|s Hs ?]; [lia| |split; [apply be_value_bounds|done]]. pose proof (be_value_bounds s) as B. rewrite Hs in B.
    change (256 ^ Z.of_nat 2) with 65536 in B. lia. }
  destruct (m && Nat.ltb (length buf) (2 + length ext + 4)) eqn:Em; [done|].
  destruct (Z.ltb_spec (Z.of_nat (length buf)) (w64 (Z.of_nat (if m then (2 + length ext + 4)%nat else (2 + length ext)%nat) + len))) as [|Hge]; [done|].
  match type of H with Whole ?x = Whole _ => assert (hd = x) as -> by congruence end. clear H.
  cbn [h_fin h_op h_masked h_key h_len h_size]. rewrite no_wrap in Hge by (destruct m; lia).
  assert (length buf = (2 + length ext + length tl')%nat) as Lb by (unfold buf; cbn [length]; rewrite length_app; lia).
  assert (forall j, drop (2 + length ext + j) buf = drop j tl') as Hd.
  { intros j. unfold buf. change (b0 :: b1 :: ext ++ tl') with ((b0 :: b1 :: ext) ++ tl'). by rewrite drop_app_add' by done. }
  pose proof (Hd 0%nat) as Hd0. rewrite Nat.add_0_r, drop_0 in Hd0. rewrite Hd0.
  set (ks := if m then 4%nat else 0%nat). assert ((if m then (2 + length ext + 4)%nat else (2 + length ext)%nat) = (2 + length ext + ks)%nat) as Eh
    by (unfold ks; destruct m; lia). rewrite Eh in *. rewrite !Hd. clear Hd Hd0.
  set (body := take (Z.to_nat len) (drop ks tl')) in *. set (f := Frame fn o m _ len _).
  assert (ks + Z.to_nat len <= length tl')%nat as Ltl by lia.
  assert (length body = Z.to_nat len) as Lbody by (unfold body; rewrite length_take, length_drop; lia).
  assert (wire_body f = body) as Eb.
  { unfold wire_body, f. cbn [masked mask_key payload]. destruct (Z.ltb_spec 0 len) as [Hp|Hz].
    - destruct m; [cbn; apply mask_mask|done].
    - assert (body = []) as -> by (apply length_zero_iff_nil; lia). by destruct m. }
  assert (wire_key f = take ks tl') as Ek by (unfold wire_key, f, ks; cbn [masked mask_key]; destruct m; [done|by rewrite take_0]).
  assert (frame_ok f) as Hok.
  { split; cbn [payload_len payload masked mask_key opcode fin f]; [done| | |].
    - destruct (Z.ltb_spec 0 len) as [Hp|Hz]; [|lia]. destruct m; (split; [rewrite ?length_mask; lia|]);
        intros E%(f_equal length); rewrite ?length_mask in E; cbn in E; lia.
    - unfold ks in *. destruct m; [rewrite length_take; lia|done].
    - intros Hctl. rewrite Hctl in Ec1, Ec2. cbn [andb] in *. apply negb_false_iff in Ec1. apply Z.ltb_ge in Ec2.
      split; [done|]. clear -Hw Ec2. destruct Hw; lia. }
  exists (b0 :: b1 :: ext ++ wire_key f ++ wire_body f), (drop (ks + Z.to_nat len) tl').
  split; [|split; [|split; [|done]]].
  - unfold buf. rewrite Eb, Ek. cbn [app]. do 2 f_equal. rewrite <- !app_assoc. f_equal. unfold body.
    rewrite <- (take_drop ks tl') at 1. f_equal. rewrite <- (take_drop (Z.to_nat len) (drop ks tl')) at 1. f_equal. by rewrite drop_drop.
  - rewrite E0, E1. unfold wire_body, wire_key. apply (frame_wire_intro f len7 ext); [done|exact Hw|].
    cbn [opcode f]. intros Hctl. rewrite Hctl in Ec2. cbn [andb] in Ec2. by apply Z.ltb_ge in Ec2.
  - cbn [length]. rewrite !length_app, Eb, Lbody, Ek, length_take. lia.
Qed.

(** *** Parsing a frame *)

Definition starved (h : heap) (st : mcp_status_t) (f : mcp_ws_frame_t) (n : nat) : Prop :=
  st = MCP_ERR_NOMEM /\ f = zero_frame /\ n = 0%nat /\ ~ ample h.

Lemma parse_scan buf h st f n h' :
  mcp_ws_parse_frame (Some buf) true true h = ((st, f, n), h') ->
  cstep h h' (if payload f then 1 else 0) /\
  match scan_frame buf with
  | More => st = MCP_OK /\ f = zero_frame /\ n = 0%nat
  | Malformed => st = MCP_ERR_PROTOCOL /\ f = zero_frame /\ n = 0%nat
  | Whole hd =>
      starved h st f n \/
      st = MCP_OK /\ n = (h_size hd + Z.to_nat (h_len hd))%nat /\
      let src := take (Z.to_nat (h_len hd)) (drop (h_size hd) buf) in
      f = Frame (h_fin hd) (h_op hd) (h_masked hd) (h_key hd) (h_len hd)
            (if 0 <? h_len hd then Some (if h_masked hd then mask_from 0 (h_key hd) src else src) else None)
  end.
Proof.
  intros H. cbn [mcp_ws_parse_frame andb negb] in H. destruct (scan_frame buf) as [| |[fn o m key len hs]].
  1,2: apply ret_inv in H as [[= -> -> ->] ->]; split; [cstill|done].
  cbn [h_fin h_op h_masked h_key h_len h_size]. cbv zeta in H |- *. destruct (0 <? len).
  - apply bind_inv in H as (ok & h1 & E & H). pose proof (xmalloc_cstep _ _ _ E) as Hs. destruct ok; cbn [negb] in H; apply ret_inv in H as [[= -> -> ->] ->].
    + split; [done|]. by right.
    + split; [done|]. left. split; [done|]. split; [done|]. split; [done|]. intros A. by apply xmalloc_ample_inv in E.
  - apply ret_inv in H as [[= -> -> ->] ->]. split; [cstill|]. by right.
Qed.

(** A buffer that begins with a frame gives that frame. *)
Lemma parse_wire f bs rest h st g n h' :
  frame_wire f bs -> mcp_ws_parse_frame (Some (bs ++ rest)) true true h = ((st, g, n), h') ->
  starved h st g n \/ st = MCP_OK /\ g = f /\ n = length bs.
Proof.
  intros Hw H. destruct (scan_wire f bs rest Hw) as (hd & Ebs & Hhd & Hscan). apply parse_scan in H as [_ H]. rewrite Hscan in H.
  unfold whole in H. cbn [h_fin h_op h_masked h_key h_len h_size] in H. assert (frame_ok f) as Hok by (by destruct Hw).
  destruct H as [H|(-> & -> & ->)]; [by left|]. right. split; [done|]. pose proof (length_body f Hok) as Hb.
  split; [|rewrite Ebs, length_app; lia].
  assert (take (Z.to_nat (payload_len f)) (drop (length hd) (bs ++ rest)) = wire_body f) as Es.
  { rewrite Ebs, <- app_assoc, drop_app_length. by apply take_app_length'. }
  rewrite Es. destruct f as [fn o m key len p]. cbn in *. f_equal. destruct Hok as [Hl Hp Hk _]. cbn in *. unfold wire_body. cbn.
  destruct p as [p|]; cbn.
  - destruct Hp as [Hp Hne]. assert (0 < len) as Hpos by (destruct p; [done|cbn in Hp; lia]). rewrite (proj2 (Z.ltb_lt _ _) Hpos).
    destruct m; [by rewrite mask_mask|done].
  - subst len. done.
Qed.

(** *** Encoding a frame *)

Lemma b2z_z2b_mod z : b2z (z2b z) = z mod 256.
Proof.
  assert (0 <= z mod 256 < 256) by (apply Z.mod_pos_bound; lia). rewrite <- (b2z_z2b (z mod 256)) by done. f_equal. apply z2b_mod. by rewrite Zmod_mod.
Qed.

Lemma be_value_cons c s : be_value (c :: s) = b2z c * 256 ^ Z.of_nat (length s) + be_value s.
Proof.
  unfold be_value. cbn [fold_left]. assert (forall s n, fold_left (fun n b => n * 256 + b2z b) s n = n * 256 ^ Z.of_nat (length s) + fold_left (fun n b => n * 256 + b2z b) s 0) as H.
  { clear c s. induction s as [|b s IH]; intros n; cbn [fold_left length]; [cbn; lia|]. rewrite IH, (IH (0 * 256 + b2z b)), Nat2Z.inj_succ, Z.pow_succ_r by lia. lia. }
  rewrite H. lia.
Qed.

Lemma be_bytes_cons n z : be_bytes (S n) z = z2b (Z.shiftr z (8 * Z.of_nat n)) :: be_bytes n z.
Proof.
  unfold be_bytes. cbn [seq map]. f_equal; [do 3 f_equal; lia|]. rewrite <- seq_shift, map_map. apply map_ext. intros b. do 4 f_equal. lia.
Qed.

Lemma be_value_be_bytes n z : be_value (be_bytes n z) = z mod 256 ^ Z.of_nat n.
Proof.
  induction n as [|n IH]; [cbn; by rewrite Z.mod_1_r|]. rewrite be_bytes_cons, be_value_cons, length_be_bytes, IH, b2z_z2b_mod.
  rewrite Z.shiftr_div_pow2 by lia. rewrite Z.pow_mul_r by lia. change (2 ^ 8) with 256.
  rewrite Nat2Z.inj_succ, Z.pow_succ_r, (Z.mul_comm 256) by lia.
  pose proof (Z.pow_pos_nonneg 256 (Z.of_nat n) ltac:(lia) ltac:(lia)). rewrite Z.rem_mul_r by lia. lia.
Qed.

Lemma or_mask (m : bool) len7 : 0 <= len7 <= 127 -> Z.lor (if m then 0x80 else 0x00) len7 = (if m then 128 else 0) + len7.
Proof. intros H. destruct m; [|done]. change 0x80 with (Z.shiftl 1 7) at 1. rewrite lor_add by lia. lia. Qed.

Lemma first_byte_enc (fn : bool) o : Z.lor (if fn then 0x80 else 0x00) (Z.land (op_code o) 0x0F) = (if fn then 128 else 0) + op_code o.
Proof. by destruct fn, o. Qed.

Lemma length_bytes_wire (m : bool) len :
  0 <= len < 2 ^ 63 -> exists len7 ext, length_bytes (if m then 0x80 else 0x00) len = z2b ((if m then 128 else 0) + len7) :: ext /\
  wire_len len len7 ext /\ (len <= 125 -> len7 <= 125) /\ (2 + length ext)%nat = (if (len <=? 125)%Z then 2%nat else if (len <=? 0xFFFF)%Z then 4%nat else 10%nat).
Proof.
  intros Hl. unfold length_bytes. destruct (Z.leb_spec len 125) as [H1|H1]; [|destruct (Z.leb_spec len 0xFFFF) as [H2|H2]]; rewrite or_mask by lia.
  - exists len, []. split; [done|]. split; [constructor; lia|done].
  - exists 126, (be_bytes 2 len). split; [|split; [|split; [lia|done]]].
    + do 2 f_equal. rewrite !be_bytes_cons. change 0xFF with (Z.ones 8). rewrite !Z.land_ones by lia. cbn [be_bytes seq map].
      f_equal; [|f_equal]; apply z2b_mod; rewrite Zmod_mod; [|by rewrite Z.shiftr_0_r]. done.
    + pose proof (wire_medium (be_bytes 2 len) (length_be_bytes _ _)) as Hw. by rewrite be_value_be_bytes, Z.mod_small in Hw by (cbn; lia).
  - exists 127, (be_bytes 8 len). split; [done|]. split; [|split; [lia|done]].
    pose proof (wire_long (be_bytes 8 len) (length_be_bytes _ _)) as Hw. rewrite be_value_be_bytes, Z.mod_small in Hw by (cbn; lia). apply Hw. lia.
Qed.

Lemma encode_wire garbage f h st o h' :
  frame_ok f -> mcp_ws_encode_frame garbage (Some f) true h = ((st, o), h') ->
  cstep h h' (if o then 1 else 0) /\
  (st = MCP_ERR_NOMEM /\ o = None /\ ~ ample h \/ st = MCP_OK /\ exists bs, o = Some bs /\ frame_wire f bs /\ length bs = (header_size f + Z.to_nat (payload_len f))%nat).
Proof.
  intros Hok H. cbn [mcp_ws_encode_frame negb] in H. cbv zeta in H. apply bind_inv in H as (ok & h1 & E & H). pose proof (xmalloc_cstep _ _ _ E) as Hs.
  destruct ok; cbn [negb] in H.
  2:{ apply ret_inv in H as [[= -> ->] ->]. split; [done|]. left. split; [done|]. split; [done|]. intros A. by apply xmalloc_ample_inv in E. }
  pose proof (ok_len f Hok) as Hl. destruct (length_bytes_wire (masked f) (payload_len f) Hl) as (len7 & ext & El & Hw & Hc & Hsz).
  assert (header_size f <= 14)%nat as Hh. { unfold header_size. rewrite <- Hsz. pose proof (wire_len_ext _ _ _ Hw). destruct (masked f); lia. }
  rewrite no_wrap, (proj2 (Z.ltb_ge _ _)) in H by lia. apply bind_inv in H as (u & h2 & E2 & H). apply ret_inv in E2 as [_ ->]. apply ret_inv in H as [[= -> ->] ->].
  split; [done|]. right. split; [done|]. eexists. split; [done|].
  assert (body_bytes garbage f = wire_body f) as ->.
  { unfold body_bytes, wire_body. destruct (payload f) as [p|] eqn:Ep.
    - pose proof (ok_payload f Hok) as Hp. rewrite Ep in Hp. destruct Hp as [Hp _]. cbv zeta. cbn [from_option]. by rewrite take_ge by lia.
    - pose proof (ok_payload f Hok) as Hp. rewrite Ep in Hp. rewrite Hp. by destruct (masked f). }
  rewrite first_byte_enc, El. cbn [app]. change (if masked f then mask_key f else []) with (wire_key f). split.
  - unfold wire_key, wire_body. constructor; [done|done|]. intros Hctl. by apply Hc, (ok_control f Hok).
  - cbn [length]. rewrite !length_app, (length_key f Hok), (length_body f Hok). unfold header_size. rewrite <- Hsz. lia.
Qed.

(** ** Theorems *)

(** The parser takes a frame off the front of a buffer exactly when the
    buffer begins with the bytes of one, and gives that frame, unmasked, and
    its size; a buffer that is a proper part of a frame asks for more; any
    other result is a refusal, and a block stays allocated exactly when the
    frame has a payload. *)
Theorem ws_parse_exact buf h st f n h' :
  ample h -> mcp_ws_parse_frame (Some buf) true true h = ((st, f, n), h') ->
  cstep h h' (if payload f then 1 else 0) /\
  (n <> 0%nat -> st = MCP_OK /\ exists bs rest, buf = bs ++ rest /\ frame_wire f bs /\ n = length bs) /\
  (forall g bs rest, buf = bs ++ rest -> frame_wire g bs -> st = MCP_OK /\ f = g /\ n = length bs) /\
  (forall g q, q <> [] -> frame_wire g (buf ++ q) -> st = MCP_OK /\ f = zero_frame /\ n = 0%nat).
Proof.
  intros A H. pose proof (parse_scan _ _ _ _ _ _ H) as [Hs Hscan]. split; [done|]. split; [|split].
  - intros Hn. destruct (scan_frame buf) as [| |hd] eqn:Ef; [by destruct Hscan as (_ & _ & ->)..|].
    destruct Hscan as [(_ & _ & _ & N)|(-> & -> & ->)]; [done|]. split; [done|].
    destruct (scan_inv buf hd Ef) as (bs & rest & Eb & Hw & Hl & _). exists bs, rest. by rewrite Hl.
  - intros g bs rest -> Hw. by destruct (parse_wire g bs rest h st f n h' Hw H) as [(_ & _ & _ & N)|?].
  - intros g q Hq Hw. by rewrite (scan_prefix g buf q Hw Hq) in Hscan.
Qed.

(** C36: Every well-formed frame survives the wire: what is encoded, with
    whatever behind it, is parsed as the same frame and its full length, and
    no proper part of it is taken for a frame. *)
Theorem ws_frame_roundtrip garbage f h :
  ample h -> frame_ok f ->
  exists bs h1, mcp_ws_encode_frame garbage (Some f) true h = ((MCP_OK, Some bs), h1) /\
    (forall rest, exists h2, mcp_ws_parse_frame (Some (bs ++ rest)) true true h1 = ((MCP_OK, f, length bs), h2)) /\
    (forall p q, bs = p ++ q -> q <> [] -> exists h2, mcp_ws_parse_frame (Some p) true true h1 = ((MCP_OK, zero_frame, 0%nat), h2)).
Proof.
  intros A Hok. destruct (mcp_ws_encode_frame garbage (Some f) true h) as [[st o] h1] eqn:E.
  apply encode_wire in E as (Hs & [(_ & _ & N)|(-> & bs & -> & Hw & _)]); [done| |done]. exists bs, h1. split; [done|].
  pose proof (ample_cstep _ _ _ Hs A) as A1. split.
  - intros rest. destruct (mcp_ws_parse_frame (Some (bs ++ rest)) true true h1) as [[[st g] n] h2] eqn:E. exists h2.
    by apply (parse_wire f) in E as [(_ & _ & _ & N)|(-> & -> & ->)].
  - intros p q -> Hq. destruct (mcp_ws_parse_frame (Some p) true true h1) as [[[st g] n] h2] eqn:E. exists h2.
    apply parse_scan in E as [_ E]. rewrite (scan_prefix f p q Hw Hq) in E. by destruct E as (-> & -> & ->).
Qed.

(** ** Examples *)

(** The masked "Hello" of RFC 6455, 5.7, with two bytes of the next frame. *)
Definition hello : bytes := [x81; x85; x37; xfa; x21; x3d; x7f; x9f; x4d; x51; x58].

Definition hello_frame : mcp_ws_frame_t := Frame true MCP_WS_OP_TEXT true [x37; xfa; x21; x3d] 5 (Some (cs "Hello")).

Lemma ws_parse_exact_witness :
  exists h', mcp_ws_parse_frame (Some (hello ++ [x81; x00])) true true fresh_heap = ((MCP_OK, hello_frame, 11%nat), h') /\
  exists bs rest, hello ++ [x81; x00] = bs ++ rest /\ frame_wire hello_frame bs /\ 11%nat = length bs.
Proof.
  eexists. split; [vm_compute; reflexivity|].
  destruct (ws_parse_exact (hello ++ [x81; x00]) fresh_heap MCP_OK hello_frame 11 _ fresh_ample ltac:(vm_compute; reflexivity)) as (_ & Hn & _).
  by destruct (Hn ltac:(done)) as [_ Hx].
Defined.

Lemma hello_ok : frame_ok hello_frame.
Proof. split; [cbn; lia|done|done|done]. Qed.

Lemma ws_frame_roundtrip_witness :
  exists bs h1, mcp_ws_encode_frame (fun _ => x00) (Some hello_frame) true fresh_heap = ((MCP_OK, Some bs), h1) /\
    (forall rest, exists h2, mcp_ws_parse_frame (Some (bs ++ rest)) true true h1 = ((MCP_OK, hello_frame, length bs), h2)) /\
    (forall p q, bs = p ++ q -> q <> [] -> exists h2, mcp_ws_parse_frame (Some p) true true h1 = ((MCP_OK, zero_frame, 0%nat), h2)).
Proof. exact (ws_frame_roundtrip (fun _ => x00) hello_frame fresh_heap fresh_ample hello_ok). Defined.

Example hello_encoded : (mcp_ws_encode_frame (fun _ => x00) (Some hello_frame) true fresh_heap).1 = (MCP_OK, Some hello).
Proof. by vm_compute. Qed.

(** A length that would fit a shorter form is accepted all the same. *)
Example long_form_accepted :
  (mcp_ws_parse_frame (Some [x81; x7e; x00; x01; x61]) true true fresh_heap).1
  = (MCP_OK, Frame true MCP_WS_OP_TEXT false no_key 1 (Some (cs "a")), 5%nat).
Proof. by vm_compute. Qed.
