(* ===== verification/Ws.v ===== *)
(** * The WebSocket transport (src/transport/ws.c, lines 252-459)

    A connected socket as a transport: what is sent becomes a text frame,
    what is received is parsed frame by frame from a buffer of bytes carried
    over; pings are answered, a close ends the connection.

    The socket is the environment: the input is the list of what the next
    calls of [recv] give, the output is what was written with a script for
    the calls of [send]; [entropy k] is what the [k]-th call of
    [secure_random_bytes] gives. *)
From S2P Require Import Prelude Heap Steps JsonValue Transport Sha256 Base64 WsFrame.

Local Open Scope Z_scope.

(** A call of [recv]: bytes are there, as many of them as fit are taken; or
    it fails with EINTR or another error.  After the last event it gives 0. *)
Inductive received := Data (b : bytes) | RecvIntr | RecvFail.

(** A call of [send]: the number of bytes it takes, EINTR, 0, an error.
    After the script every call takes all. *)
Inductive sending := Sent (n : nat) | SendIntr | SendZero | SendFail.

Record mcp_ws_backend_t := Backend {
  fd : bool;
  is_server : bool;
  closed : bool;
  carry : option bytes;
  carry_cap : Z;
  rx : list received;
  tx : bytes;
  tx_script : list sending;
  draws : nat;
}.

Definition set_carry (c : option bytes) (cap : Z) (b : mcp_ws_backend_t) : mcp_ws_backend_t :=
  Backend (fd b) (is_server b) (closed b) c cap (rx b) (tx b) (tx_script b) (draws b).
Definition set_rx (r : list received) (b : mcp_ws_backend_t) : mcp_ws_backend_t :=
  Backend (fd b) (is_server b) (closed b) (carry b) (carry_cap b) r (tx b) (tx_script b) (draws b).
Definition set_tx (o : bytes) (s : list sending) (b : mcp_ws_backend_t) : mcp_ws_backend_t :=
  Backend (fd b) (is_server b) (closed b) (carry b) (carry_cap b) (rx b) o s (draws b).
Definition set_draws (k : nat) (b : mcp_ws_backend_t) : mcp_ws_backend_t :=
  Backend (fd b) (is_server b) (closed b) (carry b) (carry_cap b) (rx b) (tx b) (tx_script b) k.
Definition set_closed (b : mcp_ws_backend_t) : mcp_ws_backend_t :=
  Backend (fd b) (is_server b) true (carry b) (carry_cap b) (rx b) (tx b) (tx_script b) (draws b).

Definition carried (b : mcp_ws_backend_t) : bytes := default [] (carry b).

Section Ws.
Variable entropy : nat -> option bytes.
Variable garbage : nat -> byte.

Definition ws_start (b : option mcp_ws_backend_t) : M (mcp_status_t * option mcp_ws_backend_t) := ret (MCP_OK, b).

(** The loop of [ws_send]: whether all was sent, the script left and the
    bytes taken. *)
Fixpoint send_loop (script : list sending) (data : bytes) : bool * list sending * bytes :=
  match data with
  | [] => (true, script, [])
  | _ =>
      match script with
      | [] => (true, [], data)
      | SendIntr :: s => send_loop s data
      | SendZero :: s => (false, s, [])
      | SendFail :: s => (false, s, [])
      | Sent n :: s => let '(ok, s', out) := send_loop s (drop n data) in (ok, s', take n data ++ out)
      end
  end.

(** The key of a frame of this side: a client masks, a server does not. *)
Definition draw_key (b : mcp_ws_backend_t) : option bytes * mcp_ws_backend_t :=
  if is_server b then (Some no_key, b) else (entropy (draws b), set_draws (S (draws b)) b).

Definition usable (b : mcp_ws_backend_t) : bool := fd b && negb (closed b).

Definition ws_send (data : bytes) (b : option mcp_ws_backend_t) : M (mcp_status_t * option mcp_ws_backend_t) :=
  match b with
  | None => ret (MCP_ERR_IO, None)
  | Some b =>
      if negb (usable b) then ret (MCP_ERR_IO, Some b) else
      let (key, b) := draw_key b in
      match key with
      | None => ret (MCP_ERR_IO, Some b)
      | Some key =>
          r <- mcp_ws_encode_frame garbage (Some (Frame true MCP_WS_OP_TEXT (negb (is_server b)) key (Z.of_nat (length data)) (Some data))) true ;;
          match r with
          | (MCP_OK, Some out) =>
              let '(ok, s, sent) := send_loop (tx_script b) out in
              xfree false ;; ret (if ok : bool then MCP_OK else MCP_ERR_IO, Some (set_tx (tx b ++ sent) s b))
          | (st, _) => ret (st, Some b)
          end
      end
  end.

(** ** Receiving *)

Definition result : Type := mcp_status_t * option bytes * mcp_ws_backend_t.

(** One call of [send], its result ignored. *)
Definition send_once (data : bytes) (b : mcp_ws_backend_t) : mcp_ws_backend_t :=
  match tx_script b with
  | [] => set_tx (tx b ++ data) [] b
  | Sent n :: s => set_tx (tx b ++ take n data) s b
  | _ :: s => set_tx (tx b) s b
  end.

(** The answer to a ping; [None]: there were no random bytes, and the frame
    is not destroyed. *)
Definition answer_ping (f : mcp_ws_frame_t) (b : mcp_ws_backend_t) : M (option mcp_ws_backend_t * mcp_ws_backend_t) :=
  let (key, b) := draw_key b in
  match key with
  | None => ret (None, b)
  | Some key =>
      r <- mcp_ws_encode_frame garbage (Some (Frame true MCP_WS_OP_PONG (negb (is_server b)) key (payload_len f) (payload f))) true ;;
      match r with
      | (MCP_OK, Some out) => xfree false ;; let b := send_once out b in ret (Some b, b)
      | _ => ret (Some b, b)
      end
  end.

Definition MAX_CARRY : Z := Z.shiftl 4 20.

(** Room for 4096 more bytes; [None] with the status when there is none. *)
Definition ensure_room (b : mcp_ws_backend_t) : M (mcp_status_t * mcp_ws_backend_t) :=
  if carry_cap b <? Z.of_nat (length (carried b)) + 4096 then
    let ncap := if carry_cap b =? 0 then 8192 else carry_cap b * 2 in
    if MAX_CARRY <? ncap then ret (MCP_ERR_PROTOCOL, b) else
    ok <- xmalloc ;;
    if negb ok then ret (MCP_ERR_NOMEM, b) else
    xfree (match carry b with None => true | Some _ => false end) ;;
    ret (MCP_OK, set_carry (Some (carried b)) ncap b)
  else ret (MCP_OK, b).

(** The call of [recv] behind the carried bytes: [inl st] ends the loop. *)
Definition read_more (b : mcp_ws_backend_t) : mcp_status_t * mcp_ws_backend_t + mcp_ws_backend_t :=
  match rx b with
  | [] => inl (MCP_ERR_IO, b)
  | RecvFail :: evs => inl (MCP_ERR_IO, set_rx evs b)
  | RecvIntr :: evs => inr (set_rx evs b)
  | Data d :: evs =>
      let n := Z.to_nat (carry_cap b - Z.of_nat (length (carried b))) in
      let rest := drop n d in
      inr (set_rx (match rest with [] => evs | _ => Data rest :: evs end) (set_carry (Some (carried b ++ take n d)) (carry_cap b) b))
  end.

(** The loop of [ws_recv]; [None] when [fuel] was not enough. *)
Fixpoint ws_loop (fuel : nat) (b : mcp_ws_backend_t) : M (option result) :=
  match fuel with
  | O => ret None
  | S fuel =>
      r <- (if Nat.ltb 0 (length (carried b)) then mcp_ws_parse_frame (carry b) true true else ret (MCP_OK, zero_frame, 0%nat)) ;;
      let '(st, f, consumed) := r in
      if negb (bool_decide (st = MCP_OK)) then ret (Some (st, None, b)) else
      if Nat.ltb 0 consumed then
        let b := set_carry (Some (drop consumed (carried b))) (carry_cap b) b in
        match opcode f with
        | MCP_WS_OP_TEXT | MCP_WS_OP_BINARY | MCP_WS_OP_CONTINUATION => ret (Some (MCP_OK, payload f, b))
        | MCP_WS_OP_PING =>
            r <- answer_ping f b ;;
            match r with
            | (None, b) => ret (Some (MCP_ERR_IO, None, b))
            | (Some b, _) => mcp_ws_frame_destroy (Some f) ;; ws_loop fuel b
            end
        | MCP_WS_OP_CLOSE => mcp_ws_frame_destroy (Some f) ;; ret (Some (MCP_ERR_IO, None, set_closed b))
        | MCP_WS_OP_PONG => mcp_ws_frame_destroy (Some f) ;; ws_loop fuel b
        end
      else
        r <- ensure_room b ;;
        let '(st, b) := r in
        if negb (bool_decide (st = MCP_OK)) then ret (Some (st, None, b)) else
        match read_more b with
        | inl (st, b) => ret (Some (st, None, b))
        | inr b => ws_loop fuel b
        end
  end.

(** Each turn takes a frame off the carry or an event, or part of one, off
    the input. *)
Definition event_weight (e : received) : nat := match e with Data d => S (2 * length d) | _ => 1 end.

Definition weight (b : mcp_ws_backend_t) : nat := length (carried b) + list_sum (map event_weight (rx b)).

Definition ws_recv (read_ms : Z) (b : option mcp_ws_backend_t) : M (mcp_status_t * option bytes * option mcp_ws_backend_t) :=
  match b with
  | None => ret (MCP_ERR_IO, None, None)
  | Some b =>
      if negb (usable b) then ret (MCP_ERR_IO, None, Some b) else
      r <- ws_loop (S (weight b)) b ;;
      match r with
      | Some (st, line, b) => ret (st, line, Some b)
      | None => ret (MCP_ERR_IO, None, Some b)
      end
  end.

Definition ws_stop (b : option mcp_ws_backend_t) : M (mcp_status_t * option mcp_ws_backend_t) :=
  match b with
  | None => ret (MCP_OK, None)
  | Some b => xfree (match carry b with None => true | Some _ => false end) ;; xfree false ;; ret (MCP_OK, None)
  end.

Definition kWsOps : mcp_transport_ops_t mcp_ws_backend_t :=
  Ops (Some ws_start) (Some ws_send) (Some ws_recv) (Some ws_stop).

(** [fd] is [None] for a negative descriptor, else the two sides of the
    socket. *)
Definition mcp_ws_transport_create (fd : option (list received * list sending)) (is_server : bool) : M (option (mcp_transport_t mcp_ws_backend_t)) :=
  match fd with
  | None => ret None
  | Some (i, o) =>
      ok <- xmalloc ;;
      if negb ok then ret None else
      t <- mcp_transport_create (Some kWsOps) (Some (Backend true is_server false None 0 i [] o 0)) ;;
      match t with
      | None => xfree false ;; ret None
      | Some t => ret (Some t)
      end
  end.
End Ws.

(** ** Examples *)

Definition no_entropy : nat -> option bytes := fun _ => None.
Definition zeros : nat -> byte := fun _ => x00.

(** A ping, an empty ping and a text frame in three pieces, to a server. *)
Definition pieces : list received :=
  [Data [x89; x02; x61]; RecvIntr; Data [x62; x89; x00; x81]; Data [x02; x68; x69; x88; x00]].

Definition sample_server : mcp_ws_backend_t := Backend true true false None 0 pieces [] [] 0.

Example ping_then_text :
  let '((st, line, b), h) := ws_recv no_entropy zeros 0 (Some sample_server) fresh_heap in
  (st, line, tx <$> b) = (MCP_OK, Some (cs "hi"), Some [x8a; x02; x61; x62; x8a; x00]) /\ live h = 2.
Proof. by vm_compute. Qed.

(** An empty text frame is received as MCP_OK without a line: the callers
    of [mcp_transport_recv] pass the line to strlen. *)
Example empty_frame_null :
  let b := Backend true false false None 0 [Data [x81; x00]] [] [] 0 in
  (ws_recv no_entropy zeros 0 (Some b) fresh_heap).1.1 = (MCP_OK, None).
Proof. by vm_compute. Qed.

(** A fragmented message is delivered in pieces. *)
Example fragments_split :
  let b := Backend true true false None 0 [Data [x01; x01; x7b; x80; x01; x7d]] [] [] 0 in
  (ws_recv no_entropy zeros 0 (Some b) fresh_heap).1.1 = (MCP_OK, Some (cs "{")).
Proof. by vm_compute. Qed.

(** The payload of a ping is lost when there are no random bytes to mask the
    answer with: a block more is live than the backend holds. *)
Example ping_leaks :
  let b := Backend true false false None 0 [Data [x89; x01; x61]] [] [] 0 in
  let '((st, line, b), h) := ws_recv no_entropy zeros 0 (Some b) fresh_heap in st = MCP_ERR_IO /\ live h = 2.
Proof. by vm_compute. Qed.

(** ** The carried bytes *)

(** The capacities the doubling goes through. *)
Definition cap_ok (b : mcp_ws_backend_t) : Prop :=
  carry b = None /\ carry_cap b = 0 \/
  exists c k, carry b = Some c /\ (0 <= k <= 9) /\ carry_cap b = 8192 * 2 ^ k /\ Z.of_nat (length c) <= carry_cap b.

Definition nblocks (b : mcp_ws_backend_t) : Z := match carry b with None => 0 | Some _ => 1 end.

(** Nothing but the carried bytes has changed. *)
Definition same_socket (b b' : mcp_ws_backend_t) : Prop :=
  fd b' = fd b /\ is_server b' = is_server b /\ closed b' = closed b /\ rx b' = rx b /\ tx b' = tx b /\ tx_script b' = tx_script b /\ draws b' = draws b.

Lemma cap_ok_bound b : cap_ok b -> Z.of_nat (length (carried b)) <= carry_cap b <= MAX_CARRY.
Proof.
  intros [[E ->]|(c & k & E & Hk & -> & Hl)]; unfold carried; rewrite E; cbn [default from_option]; [cbn; split; [done|by vm_compute]|].
  split; [exact Hl|]. change MAX_CARRY with (8192 * 2 ^ 9). apply Z.mul_le_mono_nonneg_l; [lia|]. apply Z.pow_le_mono_r; lia.
Qed.

Lemma ensure_room_spec b h st b' h' :
  cap_ok b -> ensure_room b h = ((st, b'), h') ->
  cstep h h' (nblocks b' - nblocks b) /\ cap_ok b' /\ carried b' = carried b /\ same_socket b b' /\
  (st = MCP_OK -> Z.of_nat (length (carried b)) + 4096 <= carry_cap b') /\
  (ample h -> Z.of_nat (length (carried b)) + 4096 <= MAX_CARRY -> st = MCP_OK).
Proof.
  intros Hc H. pose proof (cap_ok_bound b Hc) as Hb. unfold ensure_room in H. destruct (Z.ltb_spec (carry_cap b) (Z.of_nat (length (carried b)) + 4096)) as [Hlt|Hge].
  2:{ apply ret_inv in H as [[= -> ->] ->]. split; [cstill|]. by repeat split. }
  cbv zeta in H. set (ncap := if carry_cap b =? 0 then 8192 else carry_cap b * 2) in H. destruct (Z.ltb_spec MAX_CARRY ncap) as [Hm|Hm].
  - apply ret_inv in H as [[= -> ->] ->]. split; [cstill|]. repeat split; try done. intros _ Hfit. exfalso. unfold ncap in Hm.
    destruct Hc as [[_ E]|(c & k & E & Hk & Ek & Hl)]; [rewrite E in Hm; by vm_compute in Hm|].
    destruct (Z.eqb_spec (carry_cap b) 0) as [Ez|Nz]; [by vm_compute in Hm|]. rewrite Ek in *. change MAX_CARRY with (8192 * 2 ^ 9) in *.
    assert (9 <= k). { apply Z.nlt_ge. intros Hk9. assert (2 ^ (k + 1) <= 2 ^ 9) as X by (apply Z.pow_le_mono_r; lia). rewrite Z.pow_add_r in X by lia. lia. }
    assert (k = 9) as -> by lia. lia.
  - apply bind_inv in H as (ok & h1 & E & H). pose proof (xmalloc_cstep _ _ _ E) as Hs1. destruct ok; cbn [negb] in H.
    2:{ apply ret_inv in H as [[= -> ->] ->]. split; [eapply cstep_eq; [exact Hs1|lia]|]. repeat split; try done. intros A. by apply xmalloc_ample_inv in E. }
    apply bind_inv in H as (u & h2 & E2 & H). apply xfree_cstep in E2. apply ret_inv in H as [[= -> ->] ->].
    split. { eapply cstep_trans; [exact Hs1|exact E2|]. unfold nblocks. cbn. destruct (carry b); lia. }
    assert (exists k, 0 <= k <= 9 /\ ncap = 8192 * 2 ^ k /\ Z.of_nat (length (carried b)) + 4096 <= ncap) as (k & Hk & En & Hfit).
    { unfold ncap in *. destruct Hc as [[Ec Ez]|(c & k & Ec & Hk & Ek & Hl)].
      - rewrite Ez. exists 0. split; [lia|]. split; [done|]. unfold carried. rewrite Ec. cbn. lia.
      - assert (0 < 2 ^ k) by (apply Z.pow_pos_nonneg; lia). destruct (Z.eqb_spec (carry_cap b) 0) as [Ez|Nz]; [lia|].
        exists (k + 1). assert (1 <= 2 ^ k) by lia. split; [|split; [rewrite Ek, Z.pow_add_r by lia; lia|lia]].
        split; [lia|]. apply Z.nlt_ge. intros Hk9. assert (2 ^ 10 <= 2 ^ (k + 1)) as X by (apply Z.pow_le_mono_r; lia). rewrite Z.pow_add_r in X by lia.
        rewrite Ek in Hm. change MAX_CARRY with (8192 * 2 ^ 9) in Hm. lia. }
    split; [right; exists (carried b), k; cbn; repeat split; try done; lia|]. split; [done|]. split; [by repeat split|]. split; [done|]. done.
Qed.

Lemma sum_cons e evs : list_sum (map event_weight (e :: evs)) = (event_weight e + list_sum (map event_weight evs))%nat.
Proof. done. Qed.

Lemma weight_rest (rest : bytes) evs :
  (list_sum (map event_weight (match rest with [] => evs | _ => Data rest :: evs end)) <= S (2 * length rest) + list_sum (map event_weight evs))%nat.
Proof. destruct rest as [|c rest]; [lia|]. rewrite sum_cons. cbn [event_weight]. lia. Qed.

Lemma read_more_spec b :
  cap_ok b -> Z.of_nat (length (carried b)) + 4096 <= carry_cap b ->
  match read_more b with
  | inl (st, b') => st = MCP_ERR_IO /\ cap_ok b' /\ nblocks b' = nblocks b /\ is_server b' = is_server b /\ fd b' = fd b
  | inr b' => cap_ok b' /\ nblocks b' = nblocks b /\ is_server b' = is_server b /\ fd b' = fd b /\ (weight b' < weight b)%nat
  end.
Proof.
  intros Hc Hroom. unfold read_more. destruct (rx b) as [|[d| |] evs] eqn:E.
  - done.
  - assert (exists c k, carry b = Some c /\ 0 <= k <= 9 /\ carry_cap b = 8192 * 2 ^ k) as (c & k & Ec & Hk & Ek).
    { destruct Hc as [[_ Ez]|(c & k & ? & ? & ? & _)]; [lia|by exists c, k]. }
    assert (carried b = c) as Ecar by (unfold carried; by rewrite Ec). rewrite Ecar in *. cbv zeta.
    set (n := Z.to_nat (carry_cap b - Z.of_nat (length c))). assert (Z.of_nat n = carry_cap b - Z.of_nat (length c)) as Hn by lia.
    split; [|split; [|split; [done|split; [done|]]]].
    + right. exists (c ++ take n d), k. cbn. rewrite length_app, length_take. repeat split; try done; lia.
    + unfold nblocks. cbn. by rewrite Ec.
    + unfold weight. rewrite Ecar, E. cbn [rx set_rx].
      change (carried (set_rx _ (set_carry (Some (c ++ take n d)) _ b))) with (c ++ take n d).
      pose proof (weight_rest (drop n d) evs) as Hw. rewrite length_drop in Hw. rewrite length_app, length_take, sum_cons. cbn [event_weight].
      destruct (drop n d) as [|x rest] eqn:Ed; apply (f_equal length) in Ed; rewrite length_drop in Ed; cbn [length] in Ed; [lia|].
      rewrite sum_cons in *. cbn [event_weight length] in *. lia.
  - repeat split; try done. unfold weight. cbn [carried carry set_rx rx]. rewrite E, sum_cons. cbn [event_weight].
    change (carried (set_rx evs b)) with (carried b). lia.
  - done.
Qed.

(** ** The contract of receiving *)

Section Contract.
Variable entropy : nat -> option bytes.
Variable garbage : nat -> byte.

(** A client needs random bytes for its masks. *)
Definition keyed (b : mcp_ws_backend_t) : Prop :=
  is_server b = true \/ forall k, exists key, entropy k = Some key /\ length key = 4%nat.

(** Another state of the same connection, with the same bytes carried. *)
Definition same_input (b b' : mcp_ws_backend_t) : Prop :=
  fd b' = fd b /\ is_server b' = is_server b /\ closed b' = closed b /\ carry b' = carry b /\ carry_cap b' = carry_cap b /\ rx b' = rx b.

Lemma draw_key_spec b :
  keyed b -> exists key b', draw_key entropy b = (Some key, b') /\ same_input b b' /\ tx b' = tx b /\ tx_script b' = tx_script b /\
  (if negb (is_server b) then length key = 4%nat else key = no_key).
Proof.
  unfold draw_key. intros [->|Hk]; [by exists no_key, b|]. destruct (is_server b) eqn:Es; [by exists no_key, b|].
  destruct (Hk (draws b)) as (key & -> & Hl). by exists key, (set_draws (S (draws b)) b).
Qed.

Definition pong_of (f : mcp_ws_frame_t) (m : bool) (key : bytes) : mcp_ws_frame_t :=
  Frame true MCP_WS_OP_PONG m key (payload_len f) (payload f).

Lemma pong_ok f (m : bool) key : frame_ok f -> opcode f = MCP_WS_OP_PING -> (if m then length key = 4%nat else key = no_key) -> frame_ok (pong_of f m key).
Proof. intros [Hl Hp _ Hc] Ho Hk. split; cbn; [done|done|done|]. intros _. split; [done|]. apply Hc. by rewrite Ho. Qed.

(** The frame that answers the ping [f] is among [bs]. *)
Definition pong_wire (srv : bool) (f : mcp_ws_frame_t) (bs : bytes) : Prop :=
  exists key, frame_wire (pong_of f (negb srv) key) bs.

Lemma answer_ping_spec f b h o b' h' :
  keyed b -> frame_ok f -> opcode f = MCP_WS_OP_PING -> answer_ping entropy garbage f b h = ((o, b'), h') ->
  o = Some b' /\ cstep h h' 0 /\ same_input b b' /\
  (ample h -> tx_script b = [] -> tx_script b' = [] /\ exists bs, pong_wire (is_server b) f bs /\ tx b' = tx b ++ bs).
Proof.
  intros Hk Hok Ho H. unfold answer_ping in H. destruct (draw_key_spec b Hk) as (key & b1 & E & Hs & Htx & Hsc & Hkey). rewrite E in H.
  assert (is_server b1 = is_server b) as Esrv by apply Hs. rewrite Esrv in H.
  apply bind_inv in H as ([st out] & h1 & Ee & H). fold (pong_of f (negb (is_server b)) key) in Ee.
  apply encode_wire in Ee as (Hs1 & [(-> & -> & N)|(-> & bs & -> & Hw & _)]); [| |by apply pong_ok].
  - apply ret_inv in H as [[= -> ->] ->]. split; [done|]. split; [done|]. by split.
  - apply bind_inv in H as (u & h2 & E2 & H). apply xfree_cstep in E2. apply ret_inv in H as [[= -> ->] ->].
    split; [done|]. split; [eapply cstep_trans; [exact Hs1|exact E2|done]|]. split.
    + unfold send_once. by destruct (tx_script b1) as [|[] ?].
    + intros _ Hsc0. unfold send_once. rewrite Hsc, Hsc0. cbn. split; [done|]. exists bs. rewrite Htx. split; [by exists key|done].
Qed.

Lemma parse_front buf h st f n h' :
  mcp_ws_parse_frame (Some buf) true true h = ((st, f, n), h') ->
  cstep h h' (if payload f then 1 else 0) /\
  if Nat.ltb 0 n then st = MCP_OK /\ exists bs rest, buf = bs ++ rest /\ frame_wire f bs /\ n = length bs else payload f = None.
Proof.
  intros H. apply parse_scan in H as [Hs H]. split; [done|]. destruct (scan_frame buf) as [| |hd] eqn:Ef; [by destruct H as (_ & -> & ->)..|].
  destruct H as [(_ & -> & -> & _)|(-> & -> & ->)]; [done|]. destruct (scan_inv buf hd Ef) as (bs & rest & Eb & Hw & Hl & Hne).
  rewrite <- Hl. rewrite (proj2 (Nat.ltb_lt 0 (length bs))); [|destruct bs; [done|cbn; lia]]. split; [done|]. by exists bs, rest.
Qed.

Lemma destroy_spec f h o h' : mcp_ws_frame_destroy (Some f) h = (o, h') -> cstep h h' (if payload f then -1 else 0).
Proof.
  intros H. unfold mcp_ws_frame_destroy in H. apply bind_inv in H as (u & h1 & E & H). apply ret_inv in H as [-> ->].
  destruct (payload f); [by apply xfree_cstep in E|]. apply ret_inv in E as [_ ->]. cstill.
Qed.

(** What is left when a frame is taken off the carry. *)
Definition taken (n : nat) (b : mcp_ws_backend_t) : mcp_ws_backend_t := set_carry (Some (drop n (carried b))) (carry_cap b) b.

Lemma taken_spec n b :
  cap_ok b -> (0 < n <= length (carried b))%nat ->
  cap_ok (taken n b) /\ nblocks (taken n b) = nblocks b /\ (weight (taken n b) < weight b)%nat /\ carried (taken n b) = drop n (carried b).
Proof.
  intros Hc Hn. assert (exists c, carry b = Some c) as [c Ec] by (unfold carried in Hn; destruct (carry b); [by eexists|cbn in Hn; lia]).
  split; [|split; [unfold nblocks; cbn; by rewrite Ec|split; [|done]]].
  - destruct Hc as [[E _]|(c' & k & E & Hk & Ek & Hl)]; [congruence|]. right. exists (drop n c'), k. cbn. unfold carried. rewrite E. cbn.
    rewrite length_drop. repeat split; try done; lia.
  - unfold weight, taken. cbn [rx set_carry]. change (carried (set_carry (Some ?x) _ b)) with x. rewrite length_drop. lia.
Qed.

Definition line_size (line : option bytes) : Z := if line then 1 else 0.

Definition balanced (b : mcp_ws_backend_t) (h : heap) (r : option result) (h' : heap) : Prop :=
  exists st line b', r = Some (st, line, b') /\ cap_ok b' /\ is_server b' = is_server b /\ fd b' = fd b /\
    cstep h h' (line_size line + (nblocks b' - nblocks b)) /\ (st <> MCP_OK -> line = None).

Lemma balanced_ret b h st line b' h' :
  cap_ok b' -> is_server b' = is_server b -> fd b' = fd b -> cstep h h' (line_size line + (nblocks b' - nblocks b)) ->
  (st <> MCP_OK -> line = None) -> balanced b h (Some (st, line, b')) h'.
Proof. intros. by exists st, line, b'. Qed.

Lemma balanced_step b b1 h h1 r h' d :
  is_server b1 = is_server b -> fd b1 = fd b -> cstep h h1 d -> nblocks b1 = nblocks b + d -> balanced b1 h1 r h' -> balanced b h r h'.
Proof.
  intros Es Ef Hs Hn (st & line & b' & -> & Hc & Es' & Ef' & Hs' & Hl). exists st, line, b'. split; [done|]. split; [done|].
  split; [congruence|]. split; [congruence|]. split; [|done]. eapply cstep_trans; [exact Hs|exact Hs'|lia].
Qed.

Lemma same_input_facts b b' : same_input b b' -> cap_ok b -> cap_ok b' /\ nblocks b' = nblocks b /\ weight b' = weight b /\ carried b' = carried b.
Proof.
  intros (Ef & Es & Ec & Eca & Ecap & Erx) Hc. unfold cap_ok, nblocks, weight, carried in *. by rewrite Eca, Ecap, Erx.
Qed.

(** The first half of a turn: what the parser makes of the carry. *)
Lemma turn_parse b h st f n h1 :
  (if Nat.ltb 0 (length (carried b)) then mcp_ws_parse_frame (carry b) true true else ret (MCP_OK, zero_frame, 0%nat)) h = ((st, f, n), h1) ->
  cstep h h1 (if payload f then 1 else 0) /\
  if Nat.ltb 0 n then st = MCP_OK /\ exists bs rest, carried b = bs ++ rest /\ frame_wire f bs /\ n = length bs else payload f = None.
Proof.
  unfold carried. destruct (carry b) as [c|].
  - change (default [] (Some c)) with c. destruct (Nat.ltb 0 (length c)).
    + apply parse_front.
    + intros H. apply ret_inv in H as [[= -> -> ->] ->]. split; [cstill|done].
  - intros H. apply ret_inv in H as [[= -> -> ->] ->]. split; [cstill|done].
Qed.

Lemma ws_loop_contract fuel : forall b h r h',
  cap_ok b -> keyed b -> (weight b < fuel)%nat -> ws_loop entropy garbage fuel b h = (r, h') -> balanced b h r h'.
Proof.
  induction fuel as [|fuel IH]; intros b h r h' Hc Hk Hw H; [lia|]. cbn [ws_loop] in H.
  apply bind_inv in H as ([[st f] n] & h1 & E & H). apply turn_parse in E as [Hs Hn].
  destruct (Nat.ltb 0 n) eqn:En.
  - destruct Hn as (-> & bs & rest & Eb & Hfw & ->). rewrite bool_decide_true in H by done. cbn [negb] in H.
    apply Nat.ltb_lt in En. fold (taken (length bs) b) in H.
    destruct (taken_spec (length bs) b Hc) as (Hct & Hnb & Hwt & _); [rewrite Eb, length_app; lia|]. set (b1 := taken (length bs) b) in *.
    assert (is_server b1 = is_server b) as Es1 by done. assert (fd b1 = fd b) as Ef1 by done. assert (frame_ok f) as Hok by (by destruct Hfw).
    assert (forall h2 h3 o, cstep h1 h2 0 -> mcp_ws_frame_destroy (Some f) h2 = (o, h3) -> cstep h h3 0) as Hdest.
    { intros h2 h3 o Hs2 Hd. apply destroy_spec in Hd. destruct (payload f); (eapply cstep_trans; [exact Hs|eapply cstep_trans; [exact Hs2|exact Hd|reflexivity]|lia]). }
    assert (forall h2, h2 = h1 -> r = Some (MCP_OK, payload f, b1) -> h' = h2 -> balanced b h r h') as Hdata.
    { intros h2 -> -> ->. apply balanced_ret; try done. eapply cstep_eq; [exact Hs|]. unfold line_size. destruct (payload f); lia. }
    destruct (opcode f) eqn:Eo.
    1-3: apply ret_inv in H as [-> ->]; by eapply Hdata.
    + apply bind_inv in H as (o & h2 & Ed & H). apply ret_inv in H as [-> ->]. apply Hdest in Ed; [|apply cstep_refl].
      exists MCP_ERR_IO, None, (set_closed b1). split; [done|]. split; [exact Hct|]. split; [done|]. split; [done|]. split; [|done].
      eapply cstep_eq; [exact Ed|]. change (nblocks (set_closed b1)) with (nblocks b1). cbn [line_size]. lia.
    + apply bind_inv in H as ([o b2] & h2 & Ea & H). apply answer_ping_spec in Ea as (-> & Hs2 & Hsi & _); [|done|done|done].
      apply bind_inv in H as (o & h3 & Ed & H). apply (Hdest _ _ _ Hs2) in Ed.
      destruct (same_input_facts _ _ Hsi Hct) as (Hc2 & Hn2 & Hw2 & _). destruct Hsi as (Ef2 & Es2 & _).
      apply IH in H; [|done|unfold keyed in *; congruence|lia]. eapply balanced_step; [| |exact Ed| |exact H]; [congruence|congruence|lia].
    + apply bind_inv in H as (o & h2 & Ed & H). apply Hdest in Ed; [|apply cstep_refl]. apply IH in H; [|done|done|lia].
      eapply balanced_step; [| |exact Ed| |exact H]; [done|done|lia].
  - rewrite Hn in Hs. destruct (bool_decide_reflect (st = MCP_OK)) as [Eq|Nst]; cbn [negb] in H.
    2:{ apply ret_inv in H as [-> ->]. apply balanced_ret; try done. eapply cstep_eq; [exact Hs|]. cbn [line_size]. lia. }
    apply bind_inv in H as ([st2 b2] & h2 & Er & H). apply ensure_room_spec in Er as (Hs2 & Hc2 & Ecar & Hss & Hroom & _); [|done].
    assert (is_server b2 = is_server b /\ fd b2 = fd b /\ weight b2 = weight b) as (Es2 & Ef2 & Ew2).
    { destruct Hss as (? & ? & _ & Erx & _). unfold weight. by rewrite Ecar, Erx. }
    assert (cstep h h2 (nblocks b2 - nblocks b)) as Hs12 by (eapply cstep_trans; [exact Hs|exact Hs2|lia]).
    destruct (bool_decide_reflect (st2 = MCP_OK)) as [Eq2|Nst2]; cbn [negb] in H.
    2:{ apply ret_inv in H as [-> ->]. apply balanced_ret; try done. }
    specialize (Hroom Eq2). rewrite <- Ecar in Hroom. pose proof (read_more_spec b2 Hc2 Hroom) as Hrm. destruct (read_more b2) as [[st3 b3]|b3].
    + destruct Hrm as (-> & Hc3 & Hn3 & Es3 & Ef3). apply ret_inv in H as [-> ->]. exists MCP_ERR_IO, None, b3.
      split; [done|]. split; [done|]. split; [congruence|]. split; [congruence|]. split; [|done]. eapply cstep_eq; [exact Hs12|]. cbn [line_size]. lia.
    + destruct Hrm as (Hc3 & Hn3 & Es3 & Ef3 & Hw3). apply IH in H; [|done|unfold keyed in *; congruence|lia].
      eapply balanced_step; [| |exact Hs12| |exact H]; [congruence|congruence|lia].
Qed.

(** ** What is received *)

Definition calm (e : received) : Prop := match e with Data d => d <> [] | RecvIntr => True | RecvFail => False end.

Definition content (evs : list received) : bytes := concat (map (fun e => match e with Data d => d | _ => [] end) evs).

(** The bytes still to be parsed. *)
Definition stream (b : mcp_ws_backend_t) : bytes := carried b ++ content (rx b).

Definition fits (bs : bytes) : Prop := Z.of_nat (length bs) + 4096 <= MAX_CARRY.

(** A stream of frames, the last one perhaps cut short. *)
Inductive frames_wire : list mcp_ws_frame_t -> bytes -> Prop :=
| frames_end tail : tail = [] \/ (exists f q, q <> [] /\ frame_wire f (tail ++ q)) -> fits tail -> frames_wire [] tail
| frames_cons f bs s fs : frame_wire f bs -> fits bs -> frames_wire fs s -> frames_wire (f :: fs) (bs ++ s).

Definition is_data (o : mcp_ws_opcode_t) : Prop := o = MCP_WS_OP_TEXT \/ o = MCP_WS_OP_BINARY \/ o = MCP_WS_OP_CONTINUATION.

(** One call of recv on a stream of frames: its status and line, the frames
    left, the pings it has met, and whether the connection is closed. *)
Inductive serves : list mcp_ws_frame_t -> mcp_status_t -> option bytes -> list mcp_ws_frame_t -> list mcp_ws_frame_t -> bool -> Prop :=
| serves_end : serves [] MCP_ERR_IO None [] [] false
| serves_data f fs : is_data (opcode f) -> serves (f :: fs) MCP_OK (payload f) fs [] false
| serves_ping f fs st line fs' pings c :
    opcode f = MCP_WS_OP_PING -> serves fs st line fs' pings c -> serves (f :: fs) st line fs' (f :: pings) c
| serves_pong f fs st line fs' pings c :
    opcode f = MCP_WS_OP_PONG -> serves fs st line fs' pings c -> serves (f :: fs) st line fs' pings c
| serves_close f fs : opcode f = MCP_WS_OP_CLOSE -> serves (f :: fs) MCP_ERR_IO None fs [] true.

(** A connection in order: memory limits kept, nothing scripted to fail. *)
Record good (b : mcp_ws_backend_t) : Prop := Good {
  good_cap : cap_ok b;
  good_key : keyed b;
  good_rx : Forall calm (rx b);
  good_tx : tx_script b = [];
}.

Lemma content_cons e evs : content (e :: evs) = match e with Data d => d | _ => [] end ++ content evs.
Proof. done. Qed.

Lemma read_more_stream b :
  Forall calm (rx b) ->
  match read_more b with
  | inl (st, b') => rx b = [] /\ b' = b /\ st = MCP_ERR_IO
  | inr b' => stream b' = stream b /\ Forall calm (rx b') /\ tx b' = tx b /\ tx_script b' = tx_script b /\ closed b' = closed b
  end.
Proof.
  intros Hr. unfold read_more, stream. destruct (rx b) as [|[d| |] evs] eqn:E; [done| | |].
  - apply Forall_cons in Hr as [Hd Hr]. cbv zeta. set (n := Z.to_nat _).
    change (carried (set_rx _ (set_carry (Some ?x) _ b))) with x. cbn [rx set_rx]. rewrite content_cons, <- app_assoc.
    split; [f_equal|split; [|done]].
    + transitivity ((take n d ++ drop n d) ++ content evs); [|by rewrite take_drop]. rewrite <- app_assoc. f_equal.
      destruct (drop n d); [done|]. by rewrite content_cons.
    + destruct (drop n d) eqn:Ed; [done|]. by constructor.
  - by apply Forall_cons in Hr as [_ Hr].
  - by apply Forall_cons in Hr as [[] _].
Qed.

Lemma frames_nil fs : frames_wire fs [] -> fs = [].
Proof.
  intros H. remember [] as s eqn:Es. destruct H as [|f bs s fs Hw _ _]; [done|]. apply app_eq_nil in Es as [-> _]. inversion Hw.
Qed.

(** What the parser sees of a stream of frames. *)
Lemma parse_stream fs b h st f n h1 :
  ample h -> frames_wire fs (stream b) ->
  (if Nat.ltb 0 (length (carried b)) then mcp_ws_parse_frame (carry b) true true else ret (MCP_OK, zero_frame, 0%nat)) h = ((st, f, n), h1) ->
  st = MCP_OK /\
  ((n = 0%nat /\ fits (carried b) /\ (rx b = [] -> fs = [])) \/
   exists fs' bs rest, fs = f :: fs' /\ carried b = bs ++ rest /\ n = length bs /\ (0 < n)%nat /\ frame_wire f bs /\ frames_wire fs' (rest ++ content (rx b))).
Proof.
  intros A Hf H. destruct (Nat.ltb_spec 0 (length (carried b))) as [Hl|Hl].
  2:{ apply ret_inv in H as [[= -> -> ->] ->]. split; [done|]. left. assert (carried b = []) as Ec by (apply length_zero_iff_nil; lia).
      split; [done|]. rewrite Ec. split; [by vm_compute|]. intros Erx. unfold stream in Hf. rewrite Ec, Erx in Hf. by apply frames_nil in Hf. }
  assert (carry b = Some (carried b)) as Ec by (unfold carried in *; destruct (carry b); [done|cbn in Hl; lia]). rewrite Ec in H.
  apply parse_scan in H as [_ H]. remember (stream b) as s eqn:Es. destruct Hf as [tail Hp Hfit|g bs s gs Hw Hfit Hgs].
  - assert (scan_frame (carried b) = More) as E.
    { destruct Hp as [->|(g & q & Hq & Hw)]; [unfold stream in Es; symmetry in Es; apply app_eq_nil in Es as [Ez _]; rewrite Ez in Hl; cbn in Hl; lia|].
      rewrite Es in Hw. unfold stream in Hw. rewrite <- app_assoc in Hw. apply (scan_prefix _ _ _ Hw). intros X. by apply app_eq_nil in X as [_ ?]. }
    rewrite E in H. destruct H as (-> & -> & ->). split; [done|]. left. split; [done|]. split; [|done].
    unfold fits in *. rewrite Es in Hfit. unfold stream in Hfit. rewrite length_app in Hfit. lia.
  - unfold stream in Es. destruct (decide (length bs <= length (carried b))%nat) as [Hle|Hgt].
    + assert (carried b = bs ++ drop (length bs) (carried b)) as Ecar.
      { apply (f_equal (take (length bs))) in Es. rewrite take_app_length, take_app_le in Es by lia. rewrite Es at 1. by rewrite take_drop. }
      set (rest := drop (length bs) (carried b)) in *. rewrite Ecar in Es. rewrite <- app_assoc in Es. apply app_inv_head in Es as ->.
      assert (0 < length bs)%nat as Hpos by (destruct Hw; cbn; lia).
      destruct (scan_wire g bs rest Hw) as (hd & Ebs & Hhd & Hscan). rewrite <- Ecar in Hscan.
      destruct (mcp_ws_parse_frame (Some (bs ++ rest)) true true h) as [[[st' f'] n'] h2] eqn:Ep.
      pose proof (parse_wire g bs rest h st' f' n' h2 Hw Ep) as [(_ & _ & _ & N)|(-> & -> & ->)]; [done|].
      apply parse_scan in Ep as [_ Ep]. rewrite <- Ecar in Ep. rewrite Hscan in H, Ep. unfold whole in *.
      destruct H as [(_ & _ & _ & N)|(-> & -> & ->)]; [done|]. destruct Ep as [(_ & _ & _ & N)|(_ & En & Eg)]; [done|].
      split; [done|]. right. exists gs, bs, rest. cbv zeta in Eg. rewrite <- Eg, <- En. repeat split; try done.
    + assert (bs = carried b ++ drop (length (carried b)) bs) as Ebs.
      { apply (f_equal (take (length (carried b)))) in Es. rewrite take_app_length, take_app_le in Es by lia. rewrite <- Es at 1. by rewrite take_drop. }
      rewrite Ebs in Hw. rewrite (scan_prefix _ _ _ Hw) in H by (intros X%(f_equal length); rewrite length_drop in X; cbn in X; lia).
      destruct H as (-> & -> & ->). split; [done|]. left. split; [done|]. split; [unfold fits in *; lia|].
      intros Erx. rewrite Erx in Es. apply (f_equal length) in Es. rewrite !length_app in Es. cbn in Es. lia.
Qed.

(** The state after a call. *)
Definition served (b : mcp_ws_backend_t) (fs : list mcp_ws_frame_t) (r : option result) : Prop :=
  exists st line b' fs' pings c bss,
    r = Some (st, line, b') /\ serves fs st line fs' pings c /\ Forall2 (pong_wire (is_server b)) pings bss /\ tx b' = tx b ++ concat bss /\
    good b' /\ frames_wire fs' (stream b') /\ is_server b' = is_server b /\ fd b' = fd b /\ closed b' = closed b || c.

Lemma ws_loop_serves fuel : forall b fs h r h',
  ample h -> good b -> frames_wire fs (stream b) -> (weight b < fuel)%nat -> ws_loop entropy garbage fuel b h = (r, h') -> served b fs r.
Proof.
  induction fuel as [|fuel IH]; intros b fs h r h' A G Hf Hw H; [lia|]. destruct G as [Hc Hk Hr Htx]. cbn [ws_loop] in H.
  apply bind_inv in H as ([[st f] n] & h1 & E & H). pose proof (proj1 (turn_parse _ _ _ _ _ _ E)) as Hs.
  pose proof (ample_cstep _ _ _ Hs A) as A1. apply (parse_stream fs) in E as [-> Hn]; [|done|done]. rewrite bool_decide_true in H by done. cbn [negb] in H.
  destruct Hn as [(-> & Hfit & Hend)|(fs' & bs & rest & -> & Ecar & -> & Hpos & Hfw & Hfs)].
  - cbn [Nat.ltb Nat.leb] in H. apply bind_inv in H as ([st2 b2] & h2 & Er & H).
    apply ensure_room_spec in Er as (Hs2 & Hc2 & Ecar & (Ef2 & Es2 & Ecl2 & Erx2 & Etx2 & Esc2 & Ed2) & Hroom & Hok); [|done].
    rewrite (Hok A1 Hfit) in *. rewrite bool_decide_true in H by done. cbn [negb] in H. specialize (Hroom eq_refl). rewrite <- Ecar in Hroom.
    pose proof (read_more_spec b2 Hc2 Hroom) as Hrm. pose proof (read_more_stream b2) as Hst. rewrite Erx2 in Hst. specialize (Hst Hr).
    assert (weight b2 = weight b) as Ew2 by (unfold weight; by rewrite Ecar, Erx2). assert (stream b2 = stream b) as Est2 by (unfold stream; by rewrite Ecar, Erx2).
    destruct (read_more b2) as [[st3 b3]|b3].
    + destruct Hst as (Erx & -> & ->). apply ret_inv in H as [-> ->]. rewrite (Hend Erx) in *.
      exists MCP_ERR_IO, None, b2, [], [], false, []. rewrite Etx2, app_nil_r, orb_false_r.
      split; [done|]. split; [constructor|]. split; [constructor|]. split; [done|].
      split; [split; try done; [unfold keyed in *; congruence|by rewrite Erx2|congruence]|]. split; [by rewrite Est2|done].
    + destruct Hrm as (Hc3 & _ & Es3 & Ef3 & Hw3). destruct Hst as (Est3 & Hr3 & Etx3 & Esc3 & Ecl3).
      apply (IH b3 fs) in H as (st & line & b' & fs1 & pings & c & bss & -> & Hsv & Hp & Ht & G' & Hf' & Es' & Ef' & Ec').
      * exists st, line, b', fs1, pings, c, bss. rewrite Es', Ef', Ec', Ht. rewrite Es3, Es2 in *. repeat (split; [done|]).
        split; [congruence|]. repeat (split; [done|]). split; congruence.
      * exact (ample_cstep _ _ _ Hs2 A1).
      * split; [done|unfold keyed in *; congruence|done|congruence].
      * by rewrite Est3, Est2.
      * lia.
  - rewrite (proj2 (Nat.ltb_lt _ _) Hpos) in H. fold (taken (length bs) b) in H.
    destruct (taken_spec (length bs) b Hc) as (Hct & _ & Hwt & Ect); [rewrite Ecar, length_app; lia|]. rewrite Ecar, drop_app_length in Ect.
    set (b1 := taken (length bs) b) in *. assert (good b1) as G1 by (split; done).
    assert (frames_wire fs' (stream b1)) as Hf1 by (unfold stream; by rewrite Ect). assert (frame_ok f) as Hok by (by destruct Hfw).
    assert (is_data (opcode f) -> r = Some (MCP_OK, payload f, b1) -> served b (f :: fs') r) as Hdata.
    { intros Hd ->. exists MCP_OK, (payload f), b1, fs', [], false, []. rewrite app_nil_r, orb_false_r. split; [done|]. split; [by constructor|].
      split; [constructor|]. done. }
    unfold is_data in Hdata. destruct (opcode f) eqn:Eo.
    1-3: apply ret_inv in H as [-> ->]; apply Hdata; [tauto|done].
    + apply bind_inv in H as (o & h2 & _ & H). apply ret_inv in H as [-> ->].
      exists MCP_ERR_IO, None, (set_closed b1), fs', [], true, []. rewrite app_nil_r, orb_true_r. split; [done|]. split; [by constructor|].
      split; [constructor|]. split; [done|]. split; [by destruct G1|]. done.
    + apply bind_inv in H as ([o b2] & h2 & Ea & H). pose proof Ea as Ea'. apply answer_ping_spec in Ea' as (-> & Hs2 & Hsi & Hpong); [|done|done|done].
      destruct (Hpong A1 Htx) as (Esc2 & pw & Hpw & Etx2). apply bind_inv in H as (o & h3 & Ed & H). apply destroy_spec in Ed.
      destruct (same_input_facts _ _ Hsi Hct) as (Hc2 & _ & Hw2 & Ecar2). destruct Hsi as (Ef2 & Es2 & Ecl2 & _ & _ & Erx2).
      apply (IH b2 fs') in H as (st & line & b' & fs1 & pings & c & bss & -> & Hsv & Hp & Ht & G' & Hf' & Es' & Ef' & Ec').
      * exists st, line, b', fs1, (f :: pings), c, (pw :: bss). split; [done|]. split; [by constructor|].
        split; [constructor; [done|by rewrite Es2 in Hp]|]. split; [rewrite Ht, Etx2; cbn; by rewrite <- app_assoc|].
        split; [done|]. split; [done|]. split; [by rewrite Es', Es2|]. split; [by rewrite Ef', Ef2|]. by rewrite Ec', Ecl2.
      * exact (ample_cstep _ _ _ Ed (ample_cstep _ _ _ Hs2 A1)).
      * split; [done|unfold keyed in *; by rewrite Es2|by rewrite Erx2|done].
      * unfold stream in *. by rewrite Ecar2, Erx2.
      * lia.
    + apply bind_inv in H as (o & h3 & Ed & H). apply destroy_spec in Ed.
      apply (IH b1 fs') in H as (st & line & b' & fs1 & pings & c & bss & -> & Hsv & Hp & Ht & G' & Hf' & Es' & Ef' & Ec');
        [|exact (ample_cstep _ _ _ Ed A1)|done|done|lia].
      exists st, line, b', fs1, pings, c, bss. split; [done|]. split; [by constructor|]. done.
Qed.

(** ** A whole stream *)

(** What a reader is given of the frames, up to a close, and the pings that
    are answered meanwhile. *)
Fixpoint messages (fs : list mcp_ws_frame_t) : list (option bytes) :=
  match fs with
  | [] => []
  | f :: fs => match opcode f with MCP_WS_OP_CLOSE => [] | MCP_WS_OP_PING | MCP_WS_OP_PONG => messages fs | _ => payload f :: messages fs end
  end.

Fixpoint pings (fs : list mcp_ws_frame_t) : list mcp_ws_frame_t :=
  match fs with
  | [] => []
  | f :: fs => match opcode f with MCP_WS_OP_CLOSE => [] | MCP_WS_OP_PING => f :: pings fs | _ => pings fs end
  end.

Lemma serves_messages fs st line fs' ps c :
  serves fs st line fs' ps c ->
  st = MCP_OK /\ messages fs = line :: messages fs' /\ pings fs = ps ++ pings fs' /\ c = false \/
  st = MCP_ERR_IO /\ messages fs = [] /\ pings fs = ps /\ line = None.
Proof.
  induction 1 as [|f fs Hd|f fs st line fs' ps c Ho _ IH|f fs st line fs' ps c Ho _ IH|f fs Ho]; cbn [messages pings]; rewrite ?Ho.
  - by right.
  - left. unfold is_data in Hd. by destruct Hd as [-> | [-> | -> ] ].
  - destruct IH as [(-> & -> & -> & ->)|(-> & -> & -> & ->)]; [left|right]; done.
  - done.
  - by right.
Qed.

(** Calling recv until it fails: what was given, the last status, the
    backend. *)
Fixpoint recv_all (fuel : nat) (rd : Z) (b : option mcp_ws_backend_t) : M (option (list (option bytes) * mcp_status_t * option mcp_ws_backend_t)) :=
  match fuel with
  | O => ret None
  | S fuel =>
      r <- ws_recv entropy garbage rd b ;;
      let '(st, line, b) := r in
      if negb (bool_decide (st = MCP_OK)) then ret (Some ([], st, b)) else
      xfree (match line with None => true | Some _ => false end) ;;
      r <- recv_all fuel rd b ;; ret ((fun r => (line :: r.1.1, r.1.2, r.2)) <$> r)
  end.

Lemma recv_all_serves fuel rd : forall b fs h r h',
  ample h -> good b -> usable b = true -> frames_wire fs (stream b) -> (length (messages fs) < fuel)%nat ->
  recv_all fuel rd (Some b) h = (r, h') ->
  exists b' bss, r = Some (messages fs, MCP_ERR_IO, Some b') /\ Forall2 (pong_wire (is_server b)) (pings fs) bss /\ tx b' = tx b ++ concat bss.
Proof.
  induction fuel as [|fuel IH]; intros b fs h r h' A G U Hf Hfu H; [lia|]. cbn [recv_all] in H.
  apply bind_inv in H as ([[st line] b'] & h1 & E & H). cbn [ws_recv] in E. rewrite U in E. cbn [negb] in E.
  apply bind_inv in E as (res & h0 & El & E). pose proof El as Eb. apply (ws_loop_serves _ _ fs) in El; [|done|done|done|lia].
  apply ws_loop_contract in Eb as (st' & line' & b0 & -> & _ & _ & _ & Hs & _); [|apply G|apply G|lia].
  destruct El as (st1 & line1 & b1 & fs' & ps & c & bss & [= -> -> ->] & Hsv & Hp & Ht & G' & Hf' & Es' & Ef' & Ec').
  apply ret_inv in E as [[= -> -> ->] ->]. pose proof (ample_cstep _ _ _ Hs A) as A1.
  apply serves_messages in Hsv as [(-> & Hm & Hps & ->)|(-> & Hm & Hps & ->)].
  - rewrite bool_decide_true in H by done. cbn [negb] in H. apply bind_inv in H as (u & h2 & Efr & H). apply xfree_cstep in Efr.
    apply bind_inv in H as (r2 & h3 & E2 & H). apply ret_inv in H as [-> ->].
    apply (IH _ fs') in E2 as (b2 & bss2 & -> & Hp2 & Ht2).
    + exists b2, (bss ++ bss2). rewrite Hm, Hps. split; [done|]. split; [apply Forall2_app; [done|by rewrite Es' in Hp2]|].
      by rewrite Ht2, Ht, concat_app, app_assoc.
    + exact (ample_cstep _ _ _ Efr A1).
    + done.
    + unfold usable in *. by rewrite Ef', Ec', orb_false_r.
    + done.
    + rewrite Hm in Hfu. cbn in Hfu. lia.
  - rewrite bool_decide_false in H by done. cbn [negb] in H. apply ret_inv in H as [-> ->]. exists b1, bss. by rewrite Hm, Hps.
Qed.

(** ** Sending *)

Definition text_frame (srv : bool) (key data : bytes) : mcp_ws_frame_t :=
  Frame true MCP_WS_OP_TEXT (negb srv) key (Z.of_nat (length data)) (if bool_decide (data = []) then None else Some data).

Lemma text_frame_ok srv key data :
  Z.of_nat (length data) < 2 ^ 63 -> (if negb srv then length key = 4%nat else key = no_key) -> frame_ok (text_frame srv key data).
Proof.
  intros Hl Hk. split; cbn; [lia| |done|done]. destruct (bool_decide_reflect (data = [])) as [->|N]; done.
Qed.

Lemma encode_text srv key data h :
  mcp_ws_encode_frame garbage (Some (Frame true MCP_WS_OP_TEXT (negb srv) key (Z.of_nat (length data)) (Some data))) true h
  = mcp_ws_encode_frame garbage (Some (text_frame srv key data)) true h.
Proof. unfold text_frame. destruct (bool_decide_reflect (data = [])) as [->|N]; [|done]. unfold mcp_ws_encode_frame, body_bytes. by destruct srv. Qed.

(** A call that does not fail: it takes some bytes, or is interrupted. *)
Definition willing (e : sending) : Prop := match e with Sent n => (0 < n)%nat | SendIntr => True | _ => False end.

(** However the bytes are taken, all of them go out. *)
Lemma send_loop_all s : Forall willing s -> forall data, exists s', send_loop s data = (true, s', data) /\ Forall willing s'.
Proof.
  induction 1 as [|e s He Hs IH]; intros data; [exists []; by destruct data|].
  destruct data as [|c data]; [exists (e :: s); split; [by destruct e|by constructor]|].
  destruct e as [n| | |]; try done; cbn [send_loop]; [|apply IH].
  destruct (IH (drop n (c :: data))) as (s' & E & Hs'). rewrite E. exists s'. by rewrite take_drop.
Qed.

(** A side that can send: a key for every frame and a socket that fails at
    no call. *)
Record sends (b : mcp_ws_backend_t) : Prop := Sends {
  sends_key : keyed b;
  sends_tx : Forall willing (tx_script b);
  sends_usable : usable b = true;
}.

(** With memory and a socket that does not fail, a message goes out as one
    text frame. *)
Lemma ws_send_spec data b h st o h' :
  ample h -> sends b -> Z.of_nat (length data) + 14 + 4096 <= MAX_CARRY ->
  ws_send entropy garbage data (Some b) h = ((st, o), h') ->
  cstep h h' 0 /\ exists key b' bs, st = MCP_OK /\ o = Some b' /\ sends b' /\ is_server b' = is_server b /\
    tx b' = tx b ++ bs /\ frame_wire (text_frame (is_server b) key data) bs /\ fits bs.
Proof.
  intros A [K W U] Hl H. cbn [ws_send] in H. rewrite U in H. cbn [negb] in H.
  destruct (draw_key_spec b K) as (key & b1 & E & (Ef & Es & Ec & Eca & Ecap & Erx) & Htx & Hsc & Hkey). rewrite E in H.
  apply bind_inv in H as ([st1 out] & h1 & Ee & H). rewrite Es, encode_text in Ee.
  apply encode_wire in Ee as (Hs1 & [(_ & _ & N)|(-> & bs & -> & Hw & Hbs)]); [done| |apply text_frame_ok; [change MAX_CARRY with 4194304 in Hl; lia|done]].
  rewrite Hsc in H. destruct (send_loop_all _ W bs) as (s' & Eloop & W'). rewrite Eloop in H.
  apply bind_inv in H as (u & h2 & E2 & H). apply xfree_cstep in E2. apply ret_inv in H as [[= -> ->] ->].
  split; [eapply cstep_trans; [exact Hs1|exact E2|done]|]. exists key, (set_tx (tx b1 ++ bs) s' b1), bs.
  split; [done|]. split; [done|]. split.
  { split; [unfold keyed in *; cbn; by rewrite Es|done|unfold usable in *; cbn; by rewrite Ef, Ec]. }
  split; [done|]. split; [cbn; by rewrite Htx|]. split; [done|].
  unfold fits. rewrite Hbs. unfold header_size, text_frame. cbn [masked payload_len].
  destruct (Z.of_nat (length data) <=? 125), (Z.of_nat (length data) <=? 0xFFFF), (negb (is_server b)); lia.
Qed.

Fixpoint send_all (ms : list bytes) (b : option mcp_ws_backend_t) : M (list mcp_status_t * option mcp_ws_backend_t) :=
  match ms with
  | [] => ret ([], b)
  | m :: ms => r <- ws_send entropy garbage m b ;; r2 <- send_all ms r.2 ;; ret (r.1 :: r2.1, r2.2)
  end.

(** A message the receiver is ready for: not empty, and with room for the
    header in the carry buffer. *)
Definition sendable (m : bytes) : Prop := m <> [] /\ Z.of_nat (length m) + 14 + 4096 <= MAX_CARRY.

Lemma send_all_spec ms : forall b h sts o h',
  ample h -> sends b -> Forall sendable ms ->
  send_all ms (Some b) h = ((sts, o), h') ->
  ample h' /\ Forall (eq MCP_OK) sts /\ exists b' fs s, o = Some b' /\ tx b' = tx b ++ s /\ frames_wire fs s /\ messages fs = map Some ms /\ pings fs = [].
Proof.
  induction ms as [|m ms IH]; intros b h sts o h' A G Hl H; cbn [send_all] in H.
  - apply ret_inv in H as [[= -> ->] ->]. split; [done|]. split; [constructor|]. exists b, [], []. rewrite app_nil_r. repeat split. apply frames_end; [by left|by vm_compute].
  - apply Forall_cons in Hl as [[Hne Hm] Hl]. apply bind_inv in H as ([st1 o1] & h1 & E & H).
    apply ws_send_spec in E as (Hs & key & b1 & bs & -> & -> & G1 & Es1 & Ht1 & Hw & Hfit); [|done..].
    apply bind_inv in H as ([sts2 o2] & h2 & E2 & H). apply ret_inv in H as [[= -> ->] ->].
    apply IH in E2 as (A2 & F2 & b2 & fs & s & -> & Ht2 & Hf & Hms & Hp); [|exact (ample_cstep _ _ _ Hs A)|done|done].
    split; [done|]. split; [by constructor|]. exists b2, (text_frame (is_server b) key m :: fs), (bs ++ s).
    split; [done|]. split; [cbn; by rewrite Ht2, Ht1, app_assoc|]. split; [by constructor|]. cbn. rewrite bool_decide_false by done. by rewrite Hms, Hp.
Qed.

(** C17: Over a WebSocket connection messages arrive as they were sent: with
    memory, random bytes for the masks of a client and sockets that do not
    fail, what one side sends, however many bytes each call of [send] takes
    and in whatever pieces they arrive, with interruptions anywhere on both
    sides, is received on the other side message by message, in order and
    complete; then the end of the input is reported.  This for messages that
    are not empty and leave room for the header and one more read in the
    4 MiB the receiver is ready to carry. *)
Theorem ws_exchange ms a b h sts o h1 rd fuel r h2 :
  ample h -> sends a -> tx a = [] -> Forall sendable ms ->
  send_all ms (Some a) h = ((sts, o), h1) ->
  good b -> usable b = true -> stream b = from_option tx [] o -> (length ms < fuel)%nat ->
  recv_all fuel rd (Some b) h1 = (r, h2) ->
  Forall (eq MCP_OK) sts /\ exists b', r = Some (map Some ms, MCP_ERR_IO, Some b').
Proof.
  intros A Ga Ta Hl Hs Gb Ub Hst Hfu Hr. apply send_all_spec in Hs as (A1 & F & a' & fs & s & -> & Ht & Hf & Hms & Hp); [|done..].
  cbn in Hst. rewrite Ht, Ta in Hst. cbn in Hst. split; [done|].
  apply (recv_all_serves _ _ _ fs) in Hr as (b' & bss & -> & _ & _); [|done|done|done|by rewrite Hst|by rewrite Hms, length_map].
  exists b'. by rewrite Hms.
Qed.

(** On every stream of frames the calls of [ws_recv] give the payloads
    of the data frames in order, up to a close frame or the end, and answer
    each ping on the way with one pong frame of the same payload, masked
    exactly when this side is the client. *)
Theorem ws_stream fs b h fuel rd r h' :
  ample h -> good b -> usable b = true -> frames_wire fs (stream b) -> (length (messages fs) < fuel)%nat ->
  recv_all fuel rd (Some b) h = (r, h') ->
  exists b' bss, r = Some (messages fs, MCP_ERR_IO, Some b') /\ Forall2 (pong_wire (is_server b)) (pings fs) bss /\ tx b' = tx b ++ concat bss.
Proof. apply recv_all_serves. Qed.

(** A call of [ws_recv] returns, whatever the socket delivers and the
    allocator refuses: every turn of its loop takes a frame off the carried
    bytes or something off the input.  A line is only given with MCP_OK, and
    besides it only the carry buffer, which never exceeds 4 MiB, stays
    allocated. *)
Theorem ws_recv_ends b h :
  cap_ok b -> keyed b ->
  exists st line b' h', ws_loop entropy garbage (S (weight b)) b h = (Some (st, line, b'), h') /\
    cstep h h' (line_size line + (nblocks b' - nblocks b)) /\ (st <> MCP_OK -> line = None) /\
    Z.of_nat (length (carried b')) <= carry_cap b' <= MAX_CARRY.
Proof.
  intros Hc Hk. destruct (ws_loop entropy garbage (S (weight b)) b h) as [r h'] eqn:E.
  apply ws_loop_contract in E as (st & line & b' & -> & Hc' & _ & _ & Hs & Hl); [|done|done|lia].
  exists st, line, b', h'. split; [done|]. split; [done|]. split; [done|]. by apply cap_ok_bound.
Qed.
End Contract.

(** ** Witnesses *)

Definition fixed_key : nat -> option bytes := fun _ => Some [x11; x22; x33; x44].

Lemma fixed_keyed b : keyed fixed_key b.
Proof. right. intros k. by exists [x11; x22; x33; x44]. Qed.

(** A socket that takes three bytes, then two after an interruption. *)
Definition sample_client : mcp_ws_backend_t := Backend true false false None 0 [] [] [Sent 3; SendIntr; Sent 2] 0.

Definition sample_messages : list bytes := [cs "{}"; cs "x"; cs "hello"].

Definition sample_sent := send_all fixed_key zeros sample_messages (Some sample_client) fresh_heap.

Definition sample_tx : bytes := from_option tx [] sample_sent.1.2.

Definition sample_receiver : mcp_ws_backend_t :=
  Backend true true false None 0 [Data (take 9 sample_tx); RecvIntr; Data (drop 9 sample_tx)] [] [] 0.

Lemma fresh_cap fd srv cl evs out s d : cap_ok (Backend fd srv cl None 0 evs out s d).
Proof. by left. Qed.

Lemma ws_exchange_witness :
  Forall (eq MCP_OK) sample_sent.1.1 /\
  exists b', (recv_all fixed_key zeros 4 0 (Some sample_receiver) sample_sent.2).1
    = Some (map Some sample_messages, MCP_ERR_IO, Some b').
Proof.
  assert (stream sample_receiver = sample_tx) as Hst.
  { change (stream sample_receiver) with (take 9 sample_tx ++ drop 9 sample_tx ++ []). by rewrite app_nil_r, take_drop. }
  unfold sample_tx in Hst. unfold sample_sent in *. destruct (send_all fixed_key zeros sample_messages (Some sample_client) fresh_heap) as [[sts o] h1] eqn:Es. cbn [fst snd] in *.
  destruct (recv_all fixed_key zeros 4 0 (Some sample_receiver) h1) as [r h2] eqn:Er. cbn [fst].
  apply (ws_exchange fixed_key zeros sample_messages sample_client sample_receiver fresh_heap sts o h1 0 4 r h2).
  - exact fresh_ample.
  - split; [apply fixed_keyed| |reflexivity]. cbn. repeat constructor.
  - reflexivity.
  - repeat (apply Forall_cons; split; [split; vm_compute; discriminate|]). apply Forall_nil. exact I.
  - exact Es.
  - split; [apply fresh_cap|apply fixed_keyed| |reflexivity].
    apply Forall_cons. split; [vm_compute; discriminate|]. apply Forall_cons. split; [exact I|]. apply Forall_cons. split; [vm_compute; discriminate|]. apply Forall_nil. exact I.
  - reflexivity.
  - exact Hst.
  - cbn. lia.
  - exact Er.
Defined.

(** The payload of a frame: NULL when it is empty. *)
Definition delivered (m : bytes) : option bytes := if bool_decide (m = []) then None else Some m.

(** The frames of [sample_server]. *)
Definition plain (o : mcp_ws_opcode_t) (p : bytes) : mcp_ws_frame_t :=
  Frame true o false no_key (Z.of_nat (length p)) (delivered p).

Definition sample_frames : list mcp_ws_frame_t :=
  [plain MCP_WS_OP_PING (cs "ab"); plain MCP_WS_OP_PING []; plain MCP_WS_OP_TEXT (cs "hi"); plain MCP_WS_OP_CLOSE []].

Lemma plain_wire o p : (length p <= 125)%nat ->
  frame_wire (plain o p) (z2b (128 + op_code o) :: z2b (Z.of_nat (length p)) :: p).
Proof.
  intros Hl. assert (default [] (delivered p) = p) as Ed by (unfold delivered; by destruct (bool_decide_reflect (p = [])) as [-> |]).
  pose proof (frame_wire_intro (plain o p) (Z.of_nat (length p)) []) as H. cbn [fin masked opcode payload payload_len mask_key plain app] in H. rewrite Ed in H.
  apply H; [|constructor; lia|lia].
  split; cbn; [lia| |done|]; [unfold delivered; by destruct (bool_decide_reflect (p = [])) as [-> |]|]. intros _. split; [done|lia].
Qed.

Lemma sample_stream : frames_wire sample_frames (stream sample_server).
Proof.
  change (stream sample_server) with
    ([x89; x02; x61; x62] ++ [x89; x00] ++ [x81; x02; x68; x69] ++ [x88; x00] ++ []).
  apply frames_cons; [apply (plain_wire MCP_WS_OP_PING (cs "ab")); cbn; lia|vm_compute; discriminate|].
  apply frames_cons; [apply (plain_wire MCP_WS_OP_PING []); cbn; lia|vm_compute; discriminate|].
  apply frames_cons; [apply (plain_wire MCP_WS_OP_TEXT (cs "hi")); cbn; lia|vm_compute; discriminate|].
  apply frames_cons; [apply (plain_wire MCP_WS_OP_CLOSE []); cbn; lia|vm_compute; discriminate|].
  apply frames_end; [by left|vm_compute; discriminate].
Qed.

Lemma sample_good : good no_entropy sample_server.
Proof.
  split; [apply fresh_cap|by left| |reflexivity]. unfold sample_server, pieces. cbn [rx]. by repeat constructor.
Qed.

Lemma ws_stream_witness :
  exists b' bss, (recv_all no_entropy zeros 2 0 (Some sample_server) fresh_heap).1 = Some ([Some (cs "hi")], MCP_ERR_IO, Some b') /\
    Forall2 (pong_wire true) (pings sample_frames) bss /\ tx b' = concat bss.
Proof.
  destruct (recv_all no_entropy zeros 2 0 (Some sample_server) fresh_heap) as [r h'] eqn:E.
  apply (ws_stream no_entropy zeros sample_frames sample_server fresh_heap 2 0 r h' fresh_ample sample_good eq_refl sample_stream ltac:(cbn; lia) E).
Defined.

(** An allocator that refuses its second request. *)
Definition second_fails : heap := Heap (fun k => Nat.eqb k 1) 0 0 false.

Lemma ws_recv_ends_witness :
  exists st line b' h', ws_loop no_entropy zeros (S (weight sample_server)) sample_server second_fails = (Some (st, line, b'), h') /\
    cstep second_fails h' (line_size line + (nblocks b' - nblocks sample_server)) /\ (st <> MCP_OK -> line = None) /\
    Z.of_nat (length (carried b')) <= carry_cap b' <= MAX_CARRY.
Proof. apply (ws_recv_ends no_entropy zeros sample_server second_fails); [apply fresh_cap|by left]. Defined.
