(* ===== verification/Client.v ===== *)
(** * The client (src/client/client.c)

    A client sends a request over its transport, waits for the next line,
    and takes it for the answer when it is a response with the same id.  The
    transport is a parameter (see [Transport]); so are the host's callbacks
    for the requests a server sends to the client. *)
From S2P Require Import Prelude Heap Utf8 Double JsonValue JsonParse JsonNumber JsonSerialize JsonApi Schema Message Initialize Validate Builders Mrtr Transport.

Local Open Scope Z_scope.

Record mcp_client_t (T : Type) := Client {
  t : mcp_transport_t T;
  next_id : double;
  version : option bytes;
  roots_fn : option (M (option value));
  sample_fn : option (option value -> M (option value));
  elicitation_fn : option (option value -> M (option value));
  mrtr_elicit_fn : option (option value -> option bytes -> M (option value));
  bearer_token : option bytes;
}.
Arguments Client {T}.
Arguments t {T}.
Arguments next_id {T}.
Arguments version {T}.
Arguments roots_fn {T}.
Arguments sample_fn {T}.
Arguments elicitation_fn {T}.
Arguments mrtr_elicit_fn {T}.
Arguments bearer_token {T}.

Section client.
Context {T : Type}.
Implicit Types c : mcp_client_t T.

(** The value of an [int] after the cast of a double out of its range, which
    C leaves undefined: any. *)
Context (undefined_int : Z).

Definition with_t c (x : mcp_transport_t T) : mcp_client_t T :=
  Client x (next_id c) (version c) (roots_fn c) (sample_fn c) (elicitation_fn c) (mrtr_elicit_fn c) (bearer_token c).

Definition with_next_id c (d : double) : mcp_client_t T :=
  Client (t c) d (version c) (roots_fn c) (sample_fn c) (elicitation_fn c) (mrtr_elicit_fn c) (bearer_token c).

Definition with_version c (v : option bytes) : mcp_client_t T :=
  Client (t c) (next_id c) v (roots_fn c) (sample_fn c) (elicitation_fn c) (mrtr_elicit_fn c) (bearer_token c).

Definition with_token c (v : option bytes) : mcp_client_t T :=
  Client (t c) (next_id c) (version c) (roots_fn c) (sample_fn c) (elicitation_fn c) (mrtr_elicit_fn c) v.

(** ** Life cycle *)

Definition mcp_client_create (transport : option (mcp_transport_t T)) : M (option (mcp_client_t T)) :=
  match transport with
  | None => ret None
  | Some x =>
      ok <- xmalloc ;;
      if negb ok then ret None else ret (Some (Client x (double_of_Z 1) None None None None None None))
  end.

Definition isnull {A} (p : option A) : bool := match p with None => true | Some _ => false end.

Definition mcp_client_destroy (client : option (mcp_client_t T)) : M unit :=
  match client with
  | None => ret tt
  | Some c =>
      (if isnull (version c) then ret tt else xfree false) ;;
      (if isnull (bearer_token c) then ret tt else xfree false) ;;
      xfree false
  end.

Definition mcp_client_connect (client : option (mcp_client_t T)) : M (mcp_status_t * option (mcp_client_t T)) :=
  match client with
  | None => ret (MCP_ERR_INVALID_ARGUMENT, None)
  | Some c => r <- mcp_transport_start (Some (t c)) ;; ret (r.1, Some (with_t c (default (t c) r.2)))
  end.

Definition mcp_client_disconnect (client : option (mcp_client_t T)) : M (mcp_status_t * option (mcp_client_t T)) :=
  match client with
  | None => ret (MCP_ERR_INVALID_ARGUMENT, None)
  | Some c => r <- mcp_transport_stop (Some (t c)) ;; ret (r.1, Some (with_t c (default (t c) r.2)))
  end.

Definition mcp_client_protocol_version (client : option (mcp_client_t T)) : option bytes :=
  match client with None => None | Some c => version c end.

(** ** One exchange *)

(** [next_id += 1.0] on a double with an integral value, rounded. *)
Definition succ_id (d : double) : double := double_of_Z (dtrunc d + 1).

(** Serialize, destroy, send, free: how every message leaves. *)
Definition post (x : mcp_transport_t T) (msg : mcp_message_t) : M (mcp_status_t * mcp_transport_t T) :=
  out <- mcp_message_serialize (Some msg) ;;
  mcp_message_destroy (Some msg) ;;
  match out with
  | None => ret (MCP_ERR_NOMEM, x)
  | Some out =>
      r <- mcp_transport_send (Some x) (Some out) (length (cstr out)) ;;
      xfree false ;;
      ret (r.1, default x r.2)
  end.

Definition send_message c (msg : mcp_message_t) : M (mcp_status_t * mcp_client_t T) :=
  r <- post (t c) msg ;; ret (r.1, with_t c r.2).

(** Receive, parse, free: how every message arrives. *)
Definition recv_message c : M (mcp_status_t * option mcp_message_t * mcp_client_t T) :=
  r <- mcp_transport_recv (Some (t c)) true ;;
  let '(st, line, x) := r in
  let c := with_t c (default (t c) x) in
  match st, line with
  | MCP_OK, Some line =>
      msg <- mcp_message_parse (Some (cstr line)) ;;
      xfree false ;;
      ret (match msg with None => MCP_ERR_PROTOCOL | Some _ => MCP_OK end, msg, c)
  | st, _ => ret (st, None, c)
  end.

Definition roundtrip c (method : bytes) (params : option value)
    : M (mcp_status_t * option mcp_message_t * mcp_client_t T) :=
  let id := next_id c in
  let c := with_next_id c (succ_id id) in
  req <- mcp_request_new_number_id id (Some method) params ;;
  match req with
  | None => builtin_destroy params ;; ret (MCP_ERR_NOMEM, None, c)
  | Some req =>
      r <- send_message c req ;;
      let (st, c) := r in
      match st with
      | MCP_OK =>
          r <- recv_message c ;;
          match r with
          | (MCP_OK, Some resp, c) =>
              if negb (bool_decide (mcp_message_kind (Some resp) = MCP_MSG_RESPONSE))
                 || negb (match mcp_message_id_number (Some resp) with Some got => deqb got id | None => false end)
              then mcp_message_destroy (Some resp) ;; ret (MCP_ERR_PROTOCOL, None, c)
              else ret (MCP_OK, Some resp, c)
          | r => ret r
          end
      | st => ret (st, None, c)
      end
  end.

(** What a call leaves: the status, what was stored through the result
    pointer, the client. *)
Definition outcome : Type := mcp_status_t * option value * option (mcp_client_t T).

(** The status of an error response, when the response is one. *)
Definition error_status (resp : mcp_message_t) : option mcp_status_t :=
  (fun code => mcp_rpc_code_to_status (default undefined_int code)) <$> mcp_message_error_code (Some resp).

(** [result_out] says whether the pointer is given. *)
Definition request c (method : bytes) (params : option value) (result_out : bool) : M outcome :=
  r <- roundtrip c method params ;;
  match r with
  | (MCP_OK, Some resp, c) =>
      match error_status resp with
      | Some st => mcp_message_destroy (Some resp) ;; ret (st, None, Some c)
      | None =>
          if result_out then
            clone <- json_clone (mcp_message_result (Some resp)) ;;
            mcp_message_destroy (Some resp) ;;
            ret (match clone with None => MCP_ERR_NOMEM | Some _ => MCP_OK end, clone, Some c)
          else mcp_message_destroy (Some resp) ;; ret (MCP_OK, None, Some c)
      end
  | (st, _, c) => ret (st, None, Some c)
  end.

Definition mcp_client_request (client : option (mcp_client_t T)) (method : option bytes) (params : option value)
    (result_out : bool) : M outcome :=
  match client, method with
  | Some c, Some method => request c method params result_out
  | _, _ => ret (MCP_ERR_INVALID_ARGUMENT, None, client)
  end.

(** ** The handshake *)

(** After the response was accepted: keep the version, announce
    "notifications/initialized". *)
Definition announce c : M (mcp_status_t * mcp_client_t T) :=
  ntf <- mcp_initialized_notification_new ;;
  match ntf with
  | None => ret (MCP_ERR_NOMEM, c)
  | Some ntf => send_message c ntf
  end.

Definition mcp_client_initialize (client : option (mcp_client_t T)) (client_name client_version : option bytes)
    (server_info_out : bool) : M outcome :=
  match client, client_name, client_version with
  | Some c, Some _, Some _ =>
      params <- mcp_initialize_params_new_v (Some MCP_PROTOCOL_VERSION_LATEST) client_name client_version ;;
      match params with
      | None => ret (MCP_ERR_NOMEM, None, client)
      | Some _ =>
          r <- roundtrip c (cs "initialize") params ;;
          match r with
          | (MCP_OK, Some resp, c) =>
              match error_status resp with
              | Some st => mcp_message_destroy (Some resp) ;; ret (st, None, Some c)
              | None =>
                  let result := mcp_message_result (Some resp) in
                  match builtin_get_string (builtin_object_get result (Some (cs "protocolVersion"))) with
                  | None => mcp_message_destroy (Some resp) ;; ret (MCP_ERR_PROTOCOL, None, Some c)
                  | Some v =>
                      copy <- strdup (Some v) ;;
                      match copy with
                      | None => mcp_message_destroy (Some resp) ;; ret (MCP_ERR_NOMEM, None, Some c)
                      | Some copy =>
                          let finish info :=
                            (if isnull (version c) then ret tt else xfree false) ;;
                            mcp_message_destroy (Some resp) ;;
                            r <- announce (with_version c (Some copy)) ;;
                            ret (r.1, info, Some r.2) in
                          if server_info_out then
                            info <- json_clone (builtin_object_get result (Some (cs "serverInfo"))) ;;
                            match info with
                            | None =>
                                xfree false ;; mcp_message_destroy (Some resp) ;; ret (MCP_ERR_NOMEM, None, Some c)
                            | Some _ => finish info
                            end
                          else finish None
                      end
                  end
              end
          | (st, _, c) => ret (st, None, Some c)
          end
      end
  | _, _, _ => ret (MCP_ERR_INVALID_ARGUMENT, None, client)
  end.

Definition mcp_client_ping (client : option (mcp_client_t T)) : M outcome :=
  match client with
  | None => ret (MCP_ERR_INVALID_ARGUMENT, None, None)
  | Some _ => mcp_client_request client (Some (cs "ping")) None false
  end.

Definition mcp_client_discover (client : option (mcp_client_t T)) (result_out : bool) : M outcome :=
  if isnull client || negb result_out then ret (MCP_ERR_INVALID_ARGUMENT, None, client)
  else mcp_client_request client (Some (cs "server/discover")) None true.

(** ** Parameters

    Every failure path of these returns MCP_ERR_NOMEM before anything is
    sent: [with_params] is the request that follows the building of the
    parameters. *)

Definition with_params c (method : bytes) (mk : M (option value)) (result_out : bool) : M outcome :=
  params <- mk ;;
  match params with
  | None => ret (MCP_ERR_NOMEM, None, Some c)
  | Some _ => request c method params result_out
  end.

(** An object with one string member. *)
Definition one_param (key val : bytes) : M (option value) :=
  params <- builtin_new_object ;;
  match params with
  | None => ret None
  | Some params => put params key (string_new val) discard (fun o => ret (Some o))
  end.

(** "name" and the caller's arguments, which are consumed only by the last
    step. *)
Definition named_params (name : bytes) (args : option value) : M (option value) :=
  params <- builtin_new_object ;;
  match params with
  | None => ret None
  | Some params =>
      put params (cs "name") (string_new name) discard (fun o => take_opt o (cs "arguments") args (fun o => ret (Some o)))
  end.

Definition mcp_client_call_tool (client : option (mcp_client_t T)) (name : option bytes) (args : option value)
    (result_out : bool) : M outcome :=
  match client, name with
  | Some c, Some name => with_params c (cs "tools/call") (named_params name args) result_out
  | _, _ => ret (MCP_ERR_INVALID_ARGUMENT, None, client)
  end.

Definition mcp_client_get_prompt (client : option (mcp_client_t T)) (name : option bytes) (args : option value)
    (result_out : bool) : M outcome :=
  match client, name with
  | Some c, Some name => with_params c (cs "prompts/get") (named_params name args) result_out
  | _, _ => ret (MCP_ERR_INVALID_ARGUMENT, None, client)
  end.

Definition mcp_client_read_resource (client : option (mcp_client_t T)) (uri : option bytes) (result_out : bool) : M outcome :=
  match client, uri with
  | Some c, Some uri => with_params c (cs "resources/read") (one_param (cs "uri") uri) result_out
  | _, _ => ret (MCP_ERR_INVALID_ARGUMENT, None, client)
  end.

Definition mcp_client_tasks_get (client : option (mcp_client_t T)) (task_id : option bytes) (result_out : bool) : M outcome :=
  match client, task_id with
  | Some c, Some id => with_params c (cs "tasks/get") (one_param (cs "taskId") id) result_out
  | _, _ => ret (MCP_ERR_INVALID_ARGUMENT, None, client)
  end.

Definition mcp_client_tasks_cancel (client : option (mcp_client_t T)) (task_id : option bytes) (result_out : bool) : M outcome :=
  match client, task_id with
  | Some c, Some id => with_params c (cs "tasks/cancel") (one_param (cs "taskId") id) result_out
  | _, _ => ret (MCP_ERR_INVALID_ARGUMENT, None, client)
  end.

Definition mcp_client_skills_list (client : option (mcp_client_t T)) (cursor : option bytes) (result_out : bool) : M outcome :=
  match client with
  | None => ret (MCP_ERR_INVALID_ARGUMENT, None, client)
  | Some c =>
      match cursor with
      | None => request c (cs "skills/list") None result_out
      | Some cursor => with_params c (cs "skills/list") (one_param (cs "cursor") cursor) result_out
      end
  end.

(** [strstr(s, "://") != NULL]. *)
Fixpoint has_scheme (s : bytes) : bool :=
  match s with
  | [] => false
  | _ :: s' => bool_decide (take 3 s = cs "://") || has_scheme s'
  end.

Definition mcp_client_skills_get (client : option (mcp_client_t T)) (name_or_uri : option bytes) (result_out : bool) : M outcome :=
  match client, name_or_uri with
  | Some c, Some s =>
      let key := if has_scheme (cstr s) then cs "uri" else cs "name" in
      with_params c (cs "skills/get") (one_param key s) result_out
  | _, _ => ret (MCP_ERR_INVALID_ARGUMENT, None, client)
  end.

(** [{ "ref": { "type": "ref", "value": ref }, "argument": args }]. *)
Definition complete_params (ref : bytes) (args : option value) : M (option value) :=
  params <- builtin_new_object ;;
  ref_obj <- if_some params builtin_new_object ;;
  match params, ref_obj with
  | Some params, Some ref_obj =>
      type_v <- string_new (cs "ref") ;;
      val_v <- string_new ref ;;
      match type_v, val_v with
      | Some _, Some _ =>
          chk (object_set_take (Some ref_obj) (cs "type") type_v)
            (fun o => builtin_destroy val_v ;; builtin_destroy (Some o) ;; builtin_destroy (Some params) ;; ret None) (fun o =>
          chk (object_set_take (Some o) (cs "value") val_v)
            (fun o => builtin_destroy (Some o) ;; builtin_destroy (Some params) ;; ret None) (fun o =>
          chk (object_set_take (Some params) (cs "ref") (Some o)) discard (fun params =>
          take_opt params (cs "argument") args (fun params => ret (Some params)))))
      | _, _ =>
          builtin_destroy type_v ;; builtin_destroy val_v ;; builtin_destroy (Some params) ;; builtin_destroy (Some ref_obj) ;;
          ret None
      end
  | _, _ => builtin_destroy params ;; builtin_destroy ref_obj ;; ret None
  end.

Definition mcp_client_complete (client : option (mcp_client_t T)) (ref : option bytes) (args : option value)
    (result_out : bool) : M outcome :=
  match client, ref with
  | Some c, Some ref => with_params c (cs "completion/complete") (complete_params ref args) result_out
  | _, _ => ret (MCP_ERR_INVALID_ARGUMENT, None, client)
  end.

(** The responses are destroyed on every failure. *)
Definition update_params (task_id : bytes) (input_responses : option value) : M (option value) :=
  params <- builtin_new_object ;;
  match params with
  | None => builtin_destroy input_responses ;; ret None
  | Some params =>
      put params (cs "taskId") (string_new task_id) (fun o => builtin_destroy (Some o) ;; builtin_destroy input_responses ;; ret None)
        (fun o => take_opt o (cs "inputResponses") input_responses (fun o => ret (Some o)))
  end.

Definition mcp_client_tasks_update (client : option (mcp_client_t T)) (task_id : option bytes) (input_responses : option value)
    (result_out : bool) : M outcome :=
  match client, task_id with
  | Some c, Some id => with_params c (cs "tasks/update") (update_params id input_responses) result_out
  | _, _ => builtin_destroy input_responses ;; ret (MCP_ERR_INVALID_ARGUMENT, None, client)
  end.
(** ** Listing the tools *)

(** [{ "cursor": cursor }]; on failure the page and the accumulator go
    too. *)
Definition cursor_params (cursor : bytes) (page : option value) (acc : value) : M (option value) :=
  let fail o := builtin_destroy o ;; builtin_destroy page ;; builtin_destroy (Some acc) ;; ret None in
  next <- builtin_new_object ;;
  match next with
  | None => fail None
  | Some next => put next (cs "cursor") (string_new cursor) (fun o => fail (Some o)) (fun o => ret (Some o))
  end.

(** The copies of the entries of a page are appended to the accumulator. *)
Definition add_page (page : option value) (acc : value) : M (option value) :=
  match builtin_object_get page (Some (cs "tools")) with
  | Some (VArray _ items) =>
      append_all (fun x => json_clone (Some x)) items acc
        (fun acc => builtin_destroy page ;; builtin_destroy (Some acc) ;; ret None) (fun acc => ret (Some acc))
  | _ => ret (Some acc)
  end.

(** The final object; without it the accumulator is not released. *)
Definition finish_tools (acc : value) : M (option value) :=
  result <- builtin_new_object ;;
  match result with
  | None => ret None
  | Some result => chk (object_set_take (Some result) (cs "tools") (Some acc)) discard (fun o => ret (Some o))
  end.

(** The pages, as long as they name a next one; [None]: more than [fuel] of
    them. *)
Fixpoint list_pages (fuel : nat) c (params : option value) (acc : value) : M (option outcome) :=
  match fuel with
  | O => ret None
  | S fuel =>
      r <- request c (cs "tools/list") params true ;;
      match r with
      | (MCP_OK, page, Some c) =>
          acc <- add_page page acc ;;
          match acc with
          | None => ret (Some (MCP_ERR_NOMEM, None, Some c))
          | Some acc =>
              match builtin_get_string (builtin_object_get page (Some (cs "nextCursor"))) with
              | None =>
                  builtin_destroy page ;;
                  result <- finish_tools acc ;;
                  ret (Some (match result with None => MCP_ERR_NOMEM | Some _ => MCP_OK end, result, Some c))
              | Some cursor =>
                  next <- cursor_params cursor page acc ;;
                  match next with
                  | None => ret (Some (MCP_ERR_NOMEM, None, Some c))
                  | Some _ => builtin_destroy page ;; list_pages fuel c next acc
                  end
              end
          end
      | (st, _, c) => builtin_destroy (Some acc) ;; ret (Some (st, None, c))
      end
  end.

Definition mcp_client_list_tools (fuel : nat) (client : option (mcp_client_t T)) (tools_out : bool) : M (option outcome) :=
  match client, tools_out with
  | Some c, true =>
      acc <- builtin_new_array ;;
      match acc with
      | None => ret (Some (MCP_ERR_NOMEM, None, client))
      | Some acc => list_pages fuel c None acc
      end
  | _, _ => ret (Some (MCP_ERR_INVALID_ARGUMENT, None, client))
  end.

(** ** Calling a tool over several round trips *)

Definition MCP_MRTR_MAX_HOPS : nat := 5.

Definition free_state (state : option bytes) : M unit := if isnull state then ret tt else xfree false.

(** The parameters of one hop; what is pending is consumed.  Some failure
    paths destroy a value that [mcp_json_object_set_take] has destroyed. *)
Definition hop_params (name : bytes) (args pending : option value) (state : option bytes) : M (option value) :=
  let fail_all (o : option value) :=
    builtin_destroy o ;; builtin_destroy args ;; builtin_destroy pending ;; free_state state ;; ret None in
  let add_state o :=
    match state with
    | None => ret (Some o)
    | Some s =>
        sv <- string_new s ;;
        xfree false ;;
        match sv with
        | None => builtin_destroy (Some o) ;; ret None
        | Some _ => chk (object_set_take (Some o) (cs "requestState") sv) discard (fun o => ret (Some o))
        end
    end in
  let add_pending o :=
    match pending with
    | None => add_state o
    | Some _ =>
        chk (object_set_take (Some o) (cs "inputResponses") pending)
          (fun o => builtin_destroy (Some o) ;; builtin_destroy pending ;; free_state state ;; ret None) add_state
    end in
  params <- builtin_new_object ;;
  match params with
  | None => fail_all None
  | Some params =>
      put params (cs "name") (string_new name) (fun o => fail_all (Some o)) (fun o =>
      match args with
      | None => add_pending o
      | Some _ => chk (object_set_take (Some o) (cs "arguments") args) (fun o => fail_all (Some o)) add_pending
      end)
  end.

(** The hops from one on, [tries] more allowed. *)
Fixpoint hops (tries : nat) c (name : bytes) (args pending : option value) (state : option bytes) (result_out : bool) : M outcome :=
  let finish st (result : option value) (oc : option (mcp_client_t T)) : M outcome :=
    if result_out then ret (st, result, oc) else builtin_destroy result ;; ret (st, None, oc) in
  params <- hop_params name args pending state ;;
  match params with
  | None => ret (MCP_ERR_NOMEM, None, Some c)
  | Some _ =>
      r <- request c (cs "tools/call") params true ;;
      match r with
      | (MCP_OK, result, Some c) =>
          if negb (mcp_mrtr_is_input_required result) then finish MCP_OK result (Some c) else
          match mrtr_elicit_fn c, tries with
          | None, _ => finish MCP_OK result (Some c)
          | Some _, O => builtin_destroy result ;; finish MCP_ERR_PROTOCOL None (Some c)
          | Some elicit, S tries =>
              let rs := mcp_mrtr_get_request_state result in
              state <- strdup rs ;;
              if negb (isnull rs) && isnull state
              then builtin_destroy result ;; finish MCP_ERR_NOMEM None (Some c) else
              pending <- elicit (mcp_mrtr_get_input_requests result) state ;;
              builtin_destroy result ;;
              match pending with
              | None => free_state state ;; finish MCP_ERR_CANCELLED None (Some c)
              | Some _ => hops tries c name None pending state result_out
              end
          end
      | (st, result, c) => finish st result c
      end
  end.

Definition mcp_client_call_tool_mrtr (client : option (mcp_client_t T)) (name : option bytes) (args : option value)
    (result_out : bool) : M outcome :=
  match client, name with
  | Some c, Some name => hops MCP_MRTR_MAX_HOPS c name args None None result_out
  | _, _ => builtin_destroy args ;; ret (MCP_ERR_INVALID_ARGUMENT, None, client)
  end.

Definition mcp_client_set_mrtr_elicit_handler (client : option (mcp_client_t T))
    (fn : option (option value -> option bytes -> M (option value))) : option (mcp_client_t T) :=
  (fun c => Client (t c) (next_id c) (version c) (roots_fn c) (sample_fn c) (elicitation_fn c) fn (bearer_token c)) <$> client.

(** ** Subscriptions and other messages *)

Definition sub_id_key : bytes := cs "io.modelcontextprotocol/subscriptionId".

(** Whether a notification acknowledges a subscription. *)
Definition is_ack (msg : mcp_message_t) : bool :=
  match mcp_message_method (Some msg) with
  | None => false
  | Some m =>
      streq m (cs "notifications/subscriptions/acknowledged") &&
      match mcp_message_params (Some msg) with
      | None => false
      | Some p =>
          match builtin_object_get (Some p) (Some (cs "_meta")) with
          | None => false
          | Some meta => negb (isnull (builtin_object_get (Some meta) (Some sub_id_key)))
          end
      end
  end.

(** "params" of the listen request; the filter is destroyed twice when it
    cannot be stored. *)
Definition listen_params (filter : option value) : M (option value) :=
  params <- builtin_new_object ;;
  match params with
  | None => builtin_destroy filter ;; ret None
  | Some params =>
      match filter with
      | None => ret (Some params)
      | Some _ =>
          chk (object_set_take (Some params) (cs "notifications") filter)
            (fun o => builtin_destroy filter ;; builtin_destroy (Some o) ;; ret None) (fun o => ret (Some o))
      end
  end.

(** What the first line after the request says. *)
Definition listen_answer (msg : mcp_message_t) : mcp_status_t :=
  match mcp_message_kind (Some msg) with
  | MCP_MSG_RESPONSE => default MCP_ERR_PROTOCOL (error_status msg)
  | MCP_MSG_NOTIFICATION => if is_ack msg then MCP_OK else MCP_ERR_PROTOCOL
  | _ => MCP_ERR_PROTOCOL
  end.

Definition mcp_client_subscriptions_listen (client : option (mcp_client_t T)) (filter : option value) (ack_out : bool)
    : M (mcp_status_t * option mcp_message_t * option (mcp_client_t T)) :=
  match client with
  | None => builtin_destroy filter ;; ret (MCP_ERR_INVALID_ARGUMENT, None, None)
  | Some c =>
      params <- listen_params filter ;;
      match params with
      | None => ret (MCP_ERR_NOMEM, None, client)
      | Some _ =>
          let id := next_id c in
          let c := with_next_id c (succ_id id) in
          req <- mcp_request_new_number_id id (Some (cs "subscriptions/listen")) params ;;
          match req with
          | None => builtin_destroy params ;; ret (MCP_ERR_NOMEM, None, Some c)
          | Some req =>
              r <- send_message c req ;;
              match r with
              | (MCP_OK, c) =>
                  r <- recv_message c ;;
                  match r with
                  | (MCP_OK, Some msg, c) =>
                      let kind := mcp_message_kind (Some msg) in
                      if bool_decide (kind = MCP_MSG_NOTIFICATION) && is_ack msg && ack_out
                      then ret (MCP_OK, Some msg, Some c)
                      else mcp_message_destroy (Some msg) ;; ret (listen_answer msg, None, Some c)
                  | (st, _, c) => ret (st, None, Some c)
                  end
              | (st, c) => ret (st, None, Some c)
              end
          end
      end
  end.

(** "params" of the cancellation: [{ "_meta": { subscriptionId } }]. *)
Definition cancel_params (id : bytes) : M (option value) :=
  params <- builtin_new_object ;;
  meta <- builtin_new_object ;;
  sub_v <- string_new id ;;
  match params, meta, sub_v with
  | Some params, Some meta, Some _ =>
      chk (object_set_take (Some meta) sub_id_key sub_v)
        (fun meta => builtin_destroy sub_v ;; builtin_destroy (Some meta) ;; builtin_destroy (Some params) ;; ret None) (fun meta =>
      chk (object_set_take (Some params) (cs "_meta") (Some meta))
        (fun params => builtin_destroy sub_v ;; builtin_destroy (Some meta) ;; builtin_destroy (Some params) ;; ret None)
        (fun params => ret (Some params)))
  | _, _, _ => builtin_destroy params ;; builtin_destroy meta ;; builtin_destroy sub_v ;; ret None
  end.

(** A notification with these parameters; they are destroyed when it cannot
    be built. *)
Definition notify c (method : bytes) (params : option value) : M (mcp_status_t * option (mcp_client_t T)) :=
  ntf <- mcp_notification_new (Some method) params ;;
  match ntf with
  | None => builtin_destroy params ;; ret (MCP_ERR_NOMEM, Some c)
  | Some ntf => r <- send_message c ntf ;; ret (r.1, Some r.2)
  end.

Definition mcp_client_cancel_subscription (client : option (mcp_client_t T)) (subscription_id : option bytes)
    : M (mcp_status_t * option (mcp_client_t T)) :=
  match client with
  | None => ret (MCP_ERR_INVALID_ARGUMENT, None)
  | Some c =>
      match subscription_id with
      | None => notify c (cs "notifications/cancelled") None
      | Some id =>
          params <- cancel_params id ;;
          match params with
          | None => ret (MCP_ERR_NOMEM, client)
          | Some _ => notify c (cs "notifications/cancelled") params
          end
      end
  end.

Definition mcp_client_recv_message (client : option (mcp_client_t T)) (msg_out : bool)
    : M (mcp_status_t * option mcp_message_t * option (mcp_client_t T)) :=
  match client, msg_out with
  | Some c, true => r <- recv_message c ;; let '(st, msg, c) := r in ret (st, msg, Some c)
  | _, _ => ret (MCP_ERR_INVALID_ARGUMENT, None, client)
  end.

Definition mcp_client_notify_roots_list_changed (client : option (mcp_client_t T)) : M (mcp_status_t * option (mcp_client_t T)) :=
  match client with
  | None => ret (MCP_ERR_INVALID_ARGUMENT, None)
  | Some c => notify c (cs "notifications/roots/list_changed") None
  end.

(** ** Requests of the server *)

Definition mcp_client_set_roots_provider (client : option (mcp_client_t T)) (fn : option (M (option value)))
    : option (mcp_client_t T) :=
  (fun c => Client (t c) (next_id c) (version c) fn (sample_fn c) (elicitation_fn c) (mrtr_elicit_fn c) (bearer_token c)) <$> client.

Definition mcp_client_set_sample_provider (client : option (mcp_client_t T)) (fn : option (option value -> M (option value)))
    : option (mcp_client_t T) :=
  (fun c => Client (t c) (next_id c) (version c) (roots_fn c) fn (elicitation_fn c) (mrtr_elicit_fn c) (bearer_token c)) <$> client.

Definition mcp_client_set_elicitation_provider (client : option (mcp_client_t T)) (fn : option (option value -> M (option value)))
    : option (mcp_client_t T) :=
  (fun c => Client (t c) (next_id c) (version c) (roots_fn c) (sample_fn c) fn (mrtr_elicit_fn c) (bearer_token c)) <$> client.

(** The response of a provider, or -32601 when there is none or it
    declines. *)
Definition provide (req : mcp_message_t) (fn : option (M (option value))) (text : bytes)
    : M (mcp_status_t * option mcp_message_t) :=
  let refuse :=
    resp <- mcp_response_err_new (Some req) MCP_RPC_METHOD_NOT_FOUND (Some text) None ;;
    ret (match resp with None => MCP_ERR_NOMEM | Some _ => MCP_OK end, resp) in
  match fn with
  | None => refuse
  | Some fn =>
      result <- fn ;;
      match result with
      | None => refuse
      | Some _ =>
          resp <- mcp_response_ok_new (Some req) result ;;
          match resp with
          | None => builtin_destroy result ;; ret (MCP_ERR_NOMEM, None)
          | Some _ => ret (MCP_OK, resp)
          end
      end
  end.

Definition mcp_client_handle_server_request (client : option (mcp_client_t T)) (req : option mcp_message_t)
    : M (mcp_status_t * option mcp_message_t) :=
  match client, req with
  | Some c, Some req =>
      match mcp_message_method (Some req) with
      | None => ret (MCP_ERR_INVALID_ARGUMENT, None)
      | Some method =>
          let params := mcp_message_params (Some req) in
          if streq method (cs "roots/list") then provide req (roots_fn c) (cs "roots not supported")
          else if streq method (cs "sampling/createMessage")
          then provide req ((fun f => f params) <$> sample_fn c) (cs "sampling not supported")
          else if streq method (cs "elicitation/create")
          then provide req ((fun f => f params) <$> elicitation_fn c) (cs "elicitation not supported")
          else provide req None (cs "unknown method")
      end
  | _, _ => ret (MCP_ERR_INVALID_ARGUMENT, None)
  end.

(** ** The stored token *)

Definition mcp_client_set_bearer_token (client : option (mcp_client_t T)) (token : option bytes)
    : M (mcp_status_t * option (mcp_client_t T)) :=
  match client with
  | None => ret (MCP_ERR_INVALID_ARGUMENT, None)
  | Some c =>
      (if isnull (bearer_token c) then ret tt else xfree false) ;;
      copy <- strdup token ;;
      ret (if negb (isnull token) && isnull copy then MCP_ERR_NOMEM else MCP_OK, Some (with_token c copy))
  end.

Definition mcp_client_get_bearer_token (client : option (mcp_client_t T)) : option bytes :=
  match client with None => None | Some c => bearer_token c end.
End client.
