(* ===== verification/Stdio.v ===== *)
(** * The line transport (src/transport/stdio.c, lines 40-321)

    [stdio_recv] turns the byte stream that [read] delivers in arbitrary
    pieces into lines, keeping what it read past a newline in a stash.  The
    descriptors are the environment: the input is the list of what the next
    calls of [wait_readable] and [read] will give, the output is what was
    written with a script of failures. *)
From S2P Require Import Prelude Heap JsonValue JsonApi Schema Message Transport.

Local Open Scope Z_scope.

Definition newline : byte := x0a.
Definition carriage_return : byte := x0d.

(** What a turn of the reading loop meets: [wait_readable] failing with a
    status (only when there is a deadline), [read] giving bytes, or failing
    with EINTR or with another error.  After the last event [read] gives 0. *)
Inductive event :=
| Waited (st : mcp_status_t)
| Bytes_ (b : bytes)
| Interrupted
| Failed.

(** [written] so far, and for each write to come whether it fails, and then
    after how many bytes. *)
Record output := Output { written : bytes; out_script : list (option nat) }.

Record stdio_backend_t := Backend {
  in_ : option (list event);
  out_ : option output;
  stash : bytes;
}.

(** [in] is NULL only for a backend without an input; [fileno] of an open
    stream does not fail. *)
Definition stash_size (b : stdio_backend_t) : Z := match stash b with [] => 0 | _ => 1 end.

(** ** Sending *)

(** One library call that writes [data]. *)
Definition write (data : bytes) (o : output) : bool * output :=
  match out_script o with
  | [] => (true, Output (written o ++ data) [])
  | None :: s => (true, Output (written o ++ data) s)
  | Some k :: s => (false, Output (written o ++ take k data) s)
  end.

Definition stdio_start (b : option stdio_backend_t) : M (mcp_status_t * option stdio_backend_t) := ret (MCP_OK, b).

(** [fwrite], [fputc] and [fflush]; the last one writes nothing of its own. *)
Definition stdio_send (data : bytes) (b : option stdio_backend_t) : M (mcp_status_t * option stdio_backend_t) :=
  match b with
  | Some (Backend i (Some o) s) =>
      let finish ok o := ret (if ok : bool then MCP_OK else MCP_ERR_IO, Some (Backend i (Some o) s)) in
      let (ok, o) := if Nat.ltb 0 (length data) then write data o else (true, o) in
      if negb ok then finish false o else
      let (ok, o) := write [newline] o in
      if negb ok then finish false o else
      let (ok, o) := write [] o in finish ok o
  | _ => ret (MCP_ERR_INVALID_ARGUMENT, b)
  end.

(** ** Receiving *)

Definition isnil {A} (l : list A) : bool := match l with [] => true | _ => false end.

Definition stash_store (b : stdio_backend_t) (data : bytes) : M (mcp_status_t * stdio_backend_t) :=
  xfree (isnil (stash b)) ;;
  if isnil data then ret (MCP_OK, Backend (in_ b) (out_ b) []) else
  ok <- xmalloc ;;
  if negb ok then ret (MCP_ERR_NOMEM, Backend (in_ b) (out_ b) [])
  else ret (MCP_OK, Backend (in_ b) (out_ b) data).

(** [memchr(buf, '\n', len)]: the bytes before and after the newline. *)
Definition memchr_nl : bytes -> option (bytes * bytes) := cut newline.

(** [if (len > 0 && buf[len - 1] == '\r') len--;] *)
Definition strip_cr (s : bytes) : bytes :=
  match rev s with c :: s' => if Byte.eqb c carriage_return then rev s' else s | [] => [] end.

Definition result : Type := mcp_status_t * option bytes * stdio_backend_t.

Definition with_input (b : stdio_backend_t) (evs : list event) : stdio_backend_t := Backend (Some evs) (out_ b) (stash b).

(** The loop that throws an oversized line away; [buf] is freed already. *)
Fixpoint discard_loop (evs : list event) (timed : bool) (b : stdio_backend_t) : M result :=
  match evs with
  | [] => ret (MCP_ERR_PROTOCOL, None, with_input b [])
  | Waited st :: evs => if timed then ret (st, None, with_input b evs) else discard_loop evs timed b
  | Interrupted :: evs => discard_loop evs timed b
  | Failed :: evs => ret (MCP_ERR_PROTOCOL, None, with_input b evs)
  | Bytes_ tmp :: evs =>
      match memchr_nl tmp with
      | None => discard_loop evs timed b
      | Some (_, rest) =>
          r <- stash_store b rest ;;
          match r with
          | (MCP_OK, b) => ret (MCP_ERR_PROTOCOL, None, with_input b evs)
          | (_, b) => ret (MCP_ERR_NOMEM, None, with_input b evs)
          end
      end
  end.

(** The reading loop, with [len = length buf].  Where the C loop tests for a
    newline at the top of each turn, [k] is the test that follows the
    reading of a piece. *)
Definition last_line (buf : bytes) (b : stdio_backend_t) (evs : list event) : M result :=
  if isnil buf then xfree false ;; ret (MCP_ERR_IO, None, with_input b evs)
  else ret (MCP_OK, Some (strip_cr buf), with_input b evs).

(** The newline was found: [rest] goes to the stash. *)
Definition found_line (line rest : bytes) (b : stdio_backend_t) (evs : list event) : M result :=
  r <- stash_store b rest ;;
  match r with
  | (MCP_OK, b) => ret (MCP_OK, Some (strip_cr line), with_input b evs)
  | (_, b) => xfree false ;; ret (MCP_ERR_NOMEM, None, with_input b evs)
  end.

Fixpoint recv_loop (evs : list event) (timed : bool) (buf : bytes) (cap : Z) (b : stdio_backend_t) : M result :=
  match memchr_nl buf with
  | Some (line, rest) => found_line line rest b evs
  | None =>
      match evs with
      | [] => last_line buf b []
      | Waited st :: evs =>
          if timed then xfree false ;; ret (st, None, with_input b evs) else recv_loop evs timed buf cap b
      | Interrupted :: evs => recv_loop evs timed buf cap b
      | Failed :: evs => last_line buf b evs
      | Bytes_ tmp :: evs =>
          let need := Z.of_nat (length buf) + Z.of_nat (length tmp) + 1 in
          if MCP_PROTOCOL_MAX_MESSAGE_BYTES <? need then xfree false ;; discard_loop evs timed b
          else if cap <? need then
            ok <- xrealloc false ;;
            if negb ok then xfree false ;; ret (MCP_ERR_NOMEM, None, with_input b evs)
            else recv_loop evs timed (buf ++ tmp) (Z.max (cap * 2) need) b
          else recv_loop evs timed (buf ++ tmp) cap b
      end
  end.

Definition stdio_recv (read_ms : Z) (b : option stdio_backend_t) : M (mcp_status_t * option bytes * option stdio_backend_t) :=
  match b with
  | Some (Backend (Some evs) o s as b) =>
      ok <- xmalloc ;;
      if negb ok then ret (MCP_ERR_NOMEM, None, Some b) else
      let timed := negb (read_ms =? 0) in
      let go buf cap b := r <- recv_loop evs timed buf cap b ;; let '(st, line, b) := r in ret (st, line, Some b) in
      if isnil s then go [] 256 b else
      let take_stash cap := xfree false ;; go s cap (Backend (Some evs) o []) in
      if 256 <? Z.of_nat (length s) + 1 then
        ok <- xrealloc false ;;
        if negb ok then xfree false ;; ret (MCP_ERR_NOMEM, None, Some b)
        else take_stash (Z.of_nat (length s) + 1)
      else take_stash 256
  | _ => ret (MCP_ERR_INVALID_ARGUMENT, None, b)
  end.

Definition stdio_stop (b : option stdio_backend_t) : M (mcp_status_t * option stdio_backend_t) :=
  match b with
  | None => ret (MCP_OK, None)
  | Some b => xfree (isnil (stash b)) ;; xfree false ;; ret (MCP_OK, None)
  end.

Definition kStdioOps : mcp_transport_ops_t stdio_backend_t :=
  Ops (Some stdio_start) (Some stdio_send) (Some stdio_recv) (Some stdio_stop).

Definition mcp_stdio_transport_create (i : list event) (o : output) : M (option (mcp_transport_t stdio_backend_t)) :=
  ok <- xmalloc ;;
  if negb ok then ret None else
  t <- mcp_transport_create (Some kStdioOps) (Some (Backend (Some i) (Some o) [])) ;;
  match t with
  | None => xfree false ;; ret None
  | Some t => ret (Some t)
  end.

(** Two lines in three pieces, the first with CRLF; then the end. *)
Example recv_pieces :
  let b0 := Some (Backend (Some [Bytes_ (cs "one"); Bytes_ ([x0d; x0a] ++ cs "t"); Interrupted; Bytes_ (cs "wo")]) None []) in
  let '((st1, l1, b1), h1) := stdio_recv 0 b0 fresh_heap in
  let '((st2, l2, b2), h2) := stdio_recv 0 b1 h1 in
  let '((st3, l3, b3), h3) := stdio_recv 0 b2 h2 in
  (st1, l1) = (MCP_OK, Some (cs "one")) /\ (st2, l2) = (MCP_OK, Some (cs "two")) /\ (st3, l3) = (MCP_ERR_IO, None).
Proof. by vm_compute. Qed.

(** ** Blocks *)

(** What the system calls can give: a wait that is reported failed, and
    pieces of 1 to 4096 bytes. *)
Definition event_ok (e : event) : Prop :=
  match e with
  | Waited st => st <> MCP_OK
  | Bytes_ b => 0 < Z.of_nat (length b) <= 4096
  | _ => True
  end.

Definition input_ok (b : stdio_backend_t) : Prop := Forall event_ok (default [] (in_ b)).

Lemma isnil_size b : (if isnil (stash b) then 0 else -1) = - stash_size b.
Proof. unfold stash_size. by destruct (stash b). Qed.

Lemma stash_store_spec b data h st b' h' :
  stash_store b data h = ((st, b'), h') ->
  hstep h h' (stash_size b' - stash_size b) /\ in_ b' = in_ b /\ out_ b' = out_ b /\
  ((st = MCP_OK /\ stash b' = data) \/ (st = MCP_ERR_NOMEM /\ ~ ample h)).
Proof.
  intros H. unfold stash_store in H. apply bind_inv in H as ([] & h1 & E & H). apply xfree_hstep in E. rewrite isnil_size in E.
  destruct data as [|c data]; cbn [isnil] in H.
  - apply ret_inv in H as [[= -> ->] ->]. split; [|by auto]. eapply hstep_eq; [exact E|]. cbn. lia.
  - apply bind_inv in H as (ok & h2 & E2 & H). destruct ok; cbn [negb] in H; apply ret_inv in H as [[= -> ->] ->].
    + split; [|by auto]. apply xmalloc_hstep in E2. eapply hstep_trans; [exact E|exact E2|cbn; lia].
    + split; [|split; [done|split; [done|right; split; [done|]]]].
      * apply xmalloc_hstep in E2. eapply hstep_trans; [exact E|exact E2|cbn; lia].
      * intros A. apply (ample_hstep _ _ _ E) in A. by apply (xmalloc_ample_inv _ _ _ A) in E2.
Qed.

Definition line_size (line : option bytes) : Z := if line then 1 else 0.

(** The contract of the loops: [given] blocks of the caller are consumed. *)
Definition reads (m : M result) (b : stdio_backend_t) (given : Z) : Prop :=
  forall h st line b' h', m h = ((st, line, b'), h') ->
  hstep h h' (line_size line - given + (stash_size b' - stash_size b)) /\ (line <> None <-> st = MCP_OK) /\ input_ok b'.

Lemma ret_reads st line b b' evs given :
  stash_size b' = stash_size b -> line_size line = given -> (line <> None <-> st = MCP_OK) -> Forall event_ok evs ->
  reads (ret (st, line, with_input b' evs)) b given.
Proof.
  intros Hb Hl Hst He h st1 line1 b1 h' H. apply ret_inv in H as [[= -> -> ->] ->].
  split; [|done]. eapply hstep_eq; [apply hstep_refl|]. change (stash_size (with_input b' evs)) with (stash_size b'). lia.
Qed.

Lemma free_reads (m : M result) b given : reads m b given -> reads (xfree false ;; m) b (given + 1).
Proof.
  intros Hm h st line b' h' H. apply bind_inv in H as ([] & h1 & E & H). apply xfree_hstep in E.
  destruct (Hm _ _ _ _ _ H) as (Hs & Hl & Hi). split; [|done]. eapply hstep_trans; [exact E|exact Hs|lia].
Qed.

Lemma with_stash_reads b data evs given (k : mcp_status_t * stdio_backend_t -> M result) :
  (forall b1, in_ b1 = in_ b -> reads (k (MCP_OK, b1)) b1 given) ->
  (forall b1, in_ b1 = in_ b -> reads (k (MCP_ERR_NOMEM, b1)) b1 given) ->
  Forall event_ok evs -> reads (r <- stash_store b data ;; k r) b given.
Proof.
  intros Hok Hno He h st line b' h' H. apply bind_inv in H as ([st1 b1] & h1 & E & H).
  apply stash_store_spec in E as (Hs & Hin & _ & Hst).
  assert (reads (k (st1, b1)) b1 given) as Hk by (destruct Hst as [[-> _]|[-> _]]; auto).
  destruct (Hk _ _ _ _ _ H) as (Hs2 & Hl & Hi). split; [|done]. eapply hstep_trans; [exact Hs|exact Hs2|lia].
Qed.

Lemma discard_reads evs timed b : Forall event_ok evs -> reads (discard_loop evs timed b) b 0.
Proof.
  intros He. induction evs as [|e evs IH]; cbn [discard_loop]; [by apply ret_reads|].
  apply Forall_cons in He as [He1 He]. specialize (IH He). destruct e as [st|tmp| |]; cbn in He1.
  - destruct timed; [|done]. by apply ret_reads.
  - destruct (memchr_nl tmp) as [[? rest]|]; [|done]. eapply with_stash_reads; [| |exact He].
    all: intros b1 _; by apply ret_reads.
  - done.
  - by apply ret_reads.
Qed.

Lemma last_line_reads buf b evs : Forall event_ok evs -> reads (last_line buf b evs) b 1.
Proof.
  intros He. unfold last_line. destruct (isnil buf); [apply (free_reads _ _ 0)|]; by apply ret_reads.
Qed.

Lemma found_line_reads line rest b evs : Forall event_ok evs -> reads (found_line line rest b evs) b 1.
Proof.
  intros He. unfold found_line. eapply with_stash_reads; [| |exact He].
  - intros b1 _. by apply ret_reads.
  - intros b1 _. apply (free_reads _ _ 0). by apply ret_reads.
Qed.

Lemma recv_loop_reads evs timed : Forall event_ok evs -> forall buf cap b, reads (recv_loop evs timed buf cap b) b 1.
Proof.
  intros He. induction evs as [|e evs IH]; intros buf cap b; cbn [recv_loop].
  - destruct (memchr_nl buf) as [[line rest]|]; [by apply found_line_reads|by apply last_line_reads].
  - destruct (memchr_nl buf) as [[line rest]|]; [by apply found_line_reads|].
    apply Forall_cons in He as [He1 He]. specialize (IH He). destruct e as [st|tmp| |]; cbn in He1.
    + destruct timed; [|apply IH]. apply (free_reads _ _ 0). by apply ret_reads.
    + cbv zeta. destruct (_ <? _); [apply (free_reads _ _ 0); by apply discard_reads|]. destruct (_ <? _); [|apply IH].
      intros h st line b' h' H. apply bind_inv in H as (ok & h1 & E & H). apply xrealloc_hstep in E.
      destruct ok; cbn [negb] in H.
      * destruct (IH _ _ _ _ _ _ _ _ H) as (Hs & Hr). split; [|done]. eapply hstep_trans; [exact E|exact Hs|lia].
      * apply (free_reads (ret _) b 0) in H as (Hs & Hr); [|by apply ret_reads]. split; [|done]. eapply hstep_trans; [exact E|exact Hs|lia].
    + apply IH.
    + by apply last_line_reads.
Qed.

(** The blocks of the backend: its structure and the stash. *)
Definition backend_size (b : option stdio_backend_t) : Z := match b with None => 0 | Some b => 1 + stash_size b end.

Lemma lift_reads (m : M result) b given h st line b' h' :
  reads m b given ->
  (r <- m ;; let '(st, line, b) := r in ret (st, line, Some b)) h = ((st, line, b'), h') ->
  exists b1, b' = Some b1 /\ input_ok b1 /\ (line <> None <-> st = MCP_OK) /\
    hstep h h' (line_size line - given + (stash_size b1 - stash_size b)).
Proof.
  intros Hm H. apply bind_inv in H as ([[st1 l1] b1] & h1 & E & H). apply ret_inv in H as [[= -> -> ->] ->].
  destruct (Hm _ _ _ _ _ E) as (Hs & Hl & Hi). by exists b1.
Qed.

Lemma stdio_recv_spec rd b h st line b' h' :
  stdio_recv rd b h = ((st, line, b'), h') -> from_option input_ok True b ->
  from_option input_ok True b' /\ hstep h h' (line_size line + (backend_size b' - backend_size b)) /\
  (line <> None <-> st = MCP_OK).
Proof.
  intros H Hi. destruct b as [[[evs|] o s]|]; cbn [stdio_recv] in H.
  2,3: apply ret_inv in H as [[= -> -> ->] ->]; split; [done|]; split; [eapply hstep_eq; [apply hstep_refl|cbn; lia]|done].
  cbn in Hi. unfold input_ok in Hi. cbn in Hi.
  apply bind_inv in H as (ok & h1 & E & H). pose proof (xmalloc_hstep _ _ _ E) as Hs1. destruct ok; cbn [negb] in H.
  2:{ apply ret_inv in H as [[= -> -> ->] ->]. split; [done|]. split; [eapply hstep_eq; [exact Hs1|cbn; lia]|done]. }
  cbv zeta in H. destruct (isnil s) eqn:Es.
  - destruct s; [|done]. eapply lift_reads in H as (b1 & -> & Hi1 & Hl & Hs); [|by apply recv_loop_reads].
    split; [done|]. split; [|done]. eapply hstep_trans; [exact Hs1|exact Hs|]. cbn [backend_size]. change (stash_size (Backend (Some evs) o [])) with 0. lia.
  - assert (forall cap h2, hstep h1 h2 0 ->
      (xfree false ;; r <- recv_loop evs (negb (rd =? 0)) s cap (Backend (Some evs) o []) ;;
       let '(st, line, b) := r in ret (st, line, Some b)) h2 = ((st, line, b'), h') ->
      from_option input_ok True b' /\
      hstep h h' (line_size line + (backend_size b' - backend_size (Some (Backend (Some evs) o s)))) /\ (line <> None <-> st = MCP_OK)) as Hgo.
    { intros cap h2 Hs2 H2. apply bind_inv in H2 as ([] & h3 & E3 & H2). apply xfree_hstep in E3.
      eapply lift_reads in H2 as (b1 & -> & Hi1 & Hl & Hs); [|by apply recv_loop_reads].
      assert (hstep h h2 1) as Hs12 by (eapply hstep_trans; [exact Hs1|exact Hs2|lia]).
      assert (hstep h h3 0) as Hs13 by (eapply hstep_trans; [exact Hs12|exact E3|lia]).
      split; [done|]. split; [|done]. eapply hstep_trans; [exact Hs13|exact Hs|].
      unfold backend_size, stash_size. cbn [stash]. destruct s; [done|]. lia. }
    destruct (_ <? _); [|by eapply Hgo; [apply hstep_refl|]].
    apply bind_inv in H as (ok & h2 & E2 & H). apply xrealloc_hstep in E2. destruct ok; cbn [negb] in H; [by eapply Hgo|].
    apply bind_inv in H as ([] & h3 & E3 & H). apply xfree_hstep in E3. apply ret_inv in H as [[= -> -> ->] ->].
    assert (hstep h h2 1) as Hs12 by (eapply hstep_trans; [exact Hs1|exact E2|lia]).
    split; [done|]. split; [|done]. eapply hstep_trans; [exact Hs12|exact E3|cbn; lia].
Qed.

Lemma stdio_send_spec data b h st b' h' :
  stdio_send data b h = ((st, b'), h') ->
  h' = h /\ backend_size b' = backend_size b /\ (from_option input_ok True b -> from_option input_ok True b').
Proof.
  intros H. destruct b as [[i [o|] s]|]; cbn [stdio_send] in H; [|by apply ret_inv in H as [[= -> ->] ->]..].
  cbv zeta in H. destruct (if Nat.ltb 0 (length data) then write data o else (true, o)) as [[] o1]; cbn [negb] in H.
  - destruct (write [newline] o1) as [[] o2]; cbn [negb] in H; [destruct (write [] o2) as [ok o3]|];
      by apply ret_inv in H as [[= -> ->] ->].
  - by apply ret_inv in H as [[= -> ->] ->].
Qed.

#[global] Instance stdio_laws : TransportLaws kStdioOps.
Proof.
  refine {| tr_size := backend_size; tr_inv := from_option input_ok True |}.
  - intros f data b h st b' h' [= <-] Hi H. apply stdio_send_spec in H as (-> & Hb & Hi'). split; [auto|].
    eapply hstep_eq; [apply hstep_refl|lia].
  - intros f rd b h st line b' h' [= <-] Hi H. by apply stdio_recv_spec in H.
Defined.

(** ** Lines

    The bytes still to be read are those of the stash and of the input; a
    calm input delivers them without errors or timeouts. *)

Definition calm (e : event) : Prop := match e with Bytes_ _ | Interrupted => True | _ => False end.

Definition content (evs : list event) : bytes := concat (map (fun e => match e with Bytes_ b => b | _ => [] end) evs).

Definition pending (b : stdio_backend_t) : bytes := stash b ++ content (default [] (in_ b)).

Definition ready (b : stdio_backend_t) : Prop :=
  exists evs, in_ b = Some evs /\ Forall calm evs /\ Forall event_ok evs.

(** The next line and what follows it; the last line need not end in a
    newline. *)
Definition next_line (s : bytes) : option (bytes * bytes) :=
  match s with
  | [] => None
  | _ => match cut newline s with Some lr => Some lr | None => Some (s, []) end
  end.

(** A line far enough below the limit that no piece can reach it. *)
Definition short (line : bytes) : Prop := Z.of_nat (length line) + 4097 <= MCP_PROTOCOL_MAX_MESSAGE_BYTES.

(** What a call of recv gives, from the bytes that are pending. *)
Definition gives (b : stdio_backend_t) (s : bytes) (r : result) : Prop :=
  let '(st, line, b') := r in
  ready b' /\ out_ b' = out_ b /\
  match next_line s with
  | Some (l, rest) => st = MCP_OK /\ line = Some (strip_cr l) /\ pending b' = rest
  | None => st = MCP_ERR_IO /\ line = None /\ pending b' = []
  end.

Lemma ample_stash_store b data h : ample h ->
  exists h', stash_store b data h = ((MCP_OK, Backend (in_ b) (out_ b) data), h').
Proof.
  intros A. destruct (stash_store b data h) as [[st b'] h'] eqn:E.
  destruct (stash_store_spec _ _ _ _ _ _ E) as (_ & Hi & Ho & [[-> Hd]|[_ ?]]); [|done].
  exists h'. destruct b'; cbn in *; by subst.
Qed.

Lemma next_line_cut s : next_line s = match cut newline s with
  | Some lr => Some lr | None => match s with [] => None | _ => Some (s, []) end end.
Proof. by destruct s. Qed.

Lemma cut_app c s t l r : cut c s = Some (l, r) -> cut c (s ++ t) = Some (l, r ++ t).
Proof. intros [-> Hn]%cut_some. apply cut_some. split; [|done]. by rewrite <- app_assoc. Qed.

Lemma found_gives line rest b evs buf h r h' :
  ample h -> Forall calm evs -> Forall event_ok evs -> cut newline buf = Some (line, rest) ->
  found_line line rest b evs h = (r, h') -> gives b (buf ++ content evs) r.
Proof.
  intros A Hc He Hcut H. unfold found_line in H.
  destruct (ample_stash_store b rest h A) as [h1 E]. rewrite (bind_run _ _ _ _ _ E) in H. apply ret_inv in H as [-> ->].
  unfold gives. split; [by exists evs|]. split; [done|].
  by rewrite next_line_cut, (cut_app _ _ _ _ _ Hcut).
Qed.

(** While no newline was read, what was read is part of the next line. *)
Lemma unread_short buf evs l rest :
  cut newline buf = None -> next_line (buf ++ content evs) = Some (l, rest) -> (length buf <= length l)%nat.
Proof.
  intros Hb. rewrite next_line_cut. destruct (cut newline (buf ++ content evs)) as [[l' r']|] eqn:E.
  - intros [= -> ->]. apply cut_some in E as [E _].
    destruct (decide (length buf <= length l)%nat) as [|Hlt]; [done|]. exfalso.
    apply cut_none in Hb. apply Hb. assert (buf !! length l = Some newline) as Hl.
    { rewrite <- (lookup_app_l buf (content evs)) by lia. rewrite E. rewrite lookup_app_r, Nat.sub_diag by lia. done. }
    by apply list_elem_of_lookup_2 in Hl.
  - destruct (buf ++ content evs) eqn:Ea; [done|]. intros [= <- <-]. rewrite <- Ea, length_app. lia.
Qed.

Lemma recv_loop_gives evs timed : Forall calm evs -> Forall event_ok evs ->
  forall buf cap b h r h', ample h -> stash b = [] ->
  (forall l rest, next_line (buf ++ content evs) = Some (l, rest) -> short l) ->
  recv_loop evs timed buf cap b h = (r, h') -> gives b (buf ++ content evs) r.
Proof.
  induction evs as [|e evs IH]; intros Hc He buf cap b h r h' A Hst Hsh H; cbn [recv_loop] in H; unfold memchr_nl in H.
  - destruct (cut newline buf) as [[line rest]|] eqn:Hcut; [by eapply found_gives|].
    unfold last_line in H. rewrite next_line_cut in Hsh. unfold gives. rewrite next_line_cut. cbn [content map concat] in *.
    rewrite app_nil_r in *. rewrite Hcut in *. destruct buf as [|c buf]; cbn [isnil] in H.
    + apply bind_inv in H as ([] & h1 & _ & H). apply ret_inv in H as [-> _].
      split; [by exists []|]. split; [done|]. split; [done|]. split; [done|]. unfold pending. cbn. by rewrite Hst.
    + apply ret_inv in H as [-> _]. split; [by exists []|]. split; [done|]. split; [done|]. split; [done|].
      unfold pending. cbn. by rewrite Hst.
  - destruct (cut newline buf) as [[line rest]|] eqn:Hcut; [by eapply found_gives|].
    apply Forall_cons in Hc as [Hc1 Hc], He as [He1 He]. destruct e as [st|tmp| |]; try done; cbn in He1; cbn [content map concat] in *.
    2:{ by eapply IH. }
    change (concat (map _ evs)) with (content evs) in *. rewrite app_assoc in *.
    assert (Z.of_nat (length buf) + Z.of_nat (length tmp) + 1 <= MCP_PROTOCOL_MAX_MESSAGE_BYTES) as Hneed.
    { destruct (next_line ((buf ++ tmp) ++ content evs)) as [[l rest]|] eqn:Hn.
      - specialize (Hsh l rest eq_refl). unfold short in Hsh. rewrite <- app_assoc in Hn.
        apply (unread_short buf (Bytes_ tmp :: evs)) in Hn; [lia|done].
      - exfalso. rewrite next_line_cut in Hn. destruct (cut _ _) as [[]|]; [done|].
        destruct ((buf ++ tmp) ++ content evs) as [|] eqn:E; [|done]. apply app_eq_nil in E as [[_ ->]%app_eq_nil _]. simpl in He1. lia. }
    cbv zeta in H. rewrite (proj2 (Z.ltb_ge _ _) Hneed) in H. destruct (cap <? _); [|by eapply IH].
    apply bind_inv in H as (ok & h1 & E & H). pose proof (xrealloc_ample_inv _ _ _ _ A E) as ->. cbn [negb] in H.
    eapply IH in H; [exact H|done..| | |]; [|done|done]. eapply ample_hstep; [by apply xrealloc_hstep in E|done].
Qed.

(** Receiving refines splitting the pending bytes into lines. *)
Lemma recv_line rd b h st line b' h' :
  ample h -> ready b -> (forall l rest, next_line (pending b) = Some (l, rest) -> short l) ->
  stdio_recv rd (Some b) h = ((st, line, b'), h') ->
  exists b1, b' = Some b1 /\ gives b (pending b) (st, line, b1).
Proof.
  intros A (evs & Hin & Hc & He) Hsh H. destruct b as [i o s]. cbn in Hin. subst i. cbn [stdio_recv] in H.
  unfold pending in *. cbn [stash in_ default from_option id] in *.
  apply bind_inv in H as (ok & h1 & E & H). pose proof (xmalloc_ample_inv _ _ _ A E) as ->. apply xmalloc_hstep in E. cbn [negb] in H.
  apply (ample_hstep _ _ _ E) in A as A1. cbv zeta in H.
  assert (forall cap h2, ample h2 -> 
    (r <- recv_loop evs (negb (rd =? 0)) s cap (Backend (Some evs) o []) ;;
       let '(st, line, b) := r in ret (st, line, Some b)) h2 = ((st, line, b'), h') ->
    exists b1, b' = Some b1 /\ gives (Backend (Some evs) o s) (s ++ content evs) (st, line, b1)) as Hgo.
  { intros cap h2 A2 H2. apply bind_inv in H2 as ([[st1 l1] b1] & h3 & E3 & H2). apply ret_inv in H2 as [[= -> -> ->] ->].
    exists b1. split; [done|]. by eapply (recv_loop_gives evs) in E3. }
  destruct s as [|c s]; cbn [isnil] in H; [by eapply Hgo|].
  assert (forall cap h2, ample h2 -> 
    (xfree false ;; r <- recv_loop evs (negb (rd =? 0)) (c :: s) cap (Backend (Some evs) o []) ;;
       let '(st, line, b) := r in ret (st, line, Some b)) h2 = ((st, line, b'), h') ->
    exists b1, b' = Some b1 /\ gives (Backend (Some evs) o (c :: s)) ((c :: s) ++ content evs) (st, line, b1)) as Hgo2.
  { intros cap h2 A2 H2. apply bind_inv in H2 as ([] & h3 & E3 & H2). apply xfree_hstep in E3. eapply Hgo; [|exact H2]. by eapply ample_hstep. }
  destruct (_ <? _); [|by eapply Hgo2].
  apply bind_inv in H as (ok & h2 & E2 & H). pose proof (xrealloc_ample_inv _ _ _ _ A1 E2) as ->. cbn [negb] in H.
  eapply Hgo2; [|exact H]. eapply ample_hstep; [by apply xrealloc_hstep in E2|done].
Qed.

(** ** A whole stream *)

(** The lines of a text, the last one with or without its newline. *)
Fixpoint split_lines (s : bytes) : list bytes :=
  match s with
  | [] => []
  | c :: s =>
      if Byte.eqb c newline then [] :: split_lines s
      else match split_lines s with [] => [[c]] | l :: ls => (c :: l) :: ls end
  end.

Lemma split_lines_next s : split_lines s = match next_line s with Some (l, rest) => l :: split_lines rest | None => [] end.
Proof.
  rewrite next_line_cut. induction s as [|c s IH]; [done|]. cbn [split_lines cut].
  destruct (Byte.eqb c newline); [done|]. rewrite IH. destruct (cut newline s) as [[l r]|]; [done|]. by destruct s.
Qed.

Lemma next_line_shorter s l rest : next_line s = Some (l, rest) -> (length rest < length s)%nat.
Proof.
  rewrite next_line_cut. destruct (cut newline s) as [[l' r']|] eqn:E.
  - intros [= -> ->]. apply cut_some in E as [-> _]. rewrite length_app. simpl. lia.
  - destruct s; [done|]. intros [= <- <-]. simpl. lia.
Qed.

(** Calling recv until it fails: the lines and the last status. *)
Fixpoint recv_all (fuel : nat) (rd : Z) (b : option stdio_backend_t) : M (option (list bytes * mcp_status_t)) :=
  match fuel with
  | O => ret None
  | S fuel =>
      r <- stdio_recv rd b ;;
      let '(st, line, b) := r in
      match line with
      | None => ret (Some ([], st))
      | Some l => xfree false ;; r <- recv_all fuel rd b ;; ret ((fun r => (l :: r.1, r.2)) <$> r)
      end
  end.

Lemma recv_all_lines fuel rd : forall b h r h',
  ample h -> ready b -> Forall short (split_lines (pending b)) -> (length (pending b) < fuel)%nat ->
  recv_all fuel rd (Some b) h = (r, h') -> r = Some (map strip_cr (split_lines (pending b)), MCP_ERR_IO).
Proof.
  induction fuel as [|fuel IH]; intros b h r h' A Hr Hsh Hf H; [lia|]. cbn [recv_all] in H.
  apply bind_inv in H as ([[st line] b'] & h1 & E & H).
  assert (input_ok b) as Hok by (destruct Hr as (evs & Hin & _ & He); unfold input_ok; by rewrite Hin).
  destruct (stdio_recv_spec _ _ _ _ _ _ _ E Hok) as (_ & Hs & _). apply (ample_hstep _ _ _ Hs) in A as A1.
  rewrite split_lines_next in Hsh. apply recv_line in E as (b1 & -> & Hr1 & _ & Hg); [|done..|].
  2:{ intros l rest Hn. rewrite Hn in Hsh. by apply Forall_cons in Hsh as [? _]. }
  rewrite split_lines_next. destruct (next_line (pending b)) as [[l rest]|] eqn:Hn.
  - destruct Hg as (-> & -> & Hp). apply bind_inv in H as ([] & h2 & E2 & H). apply xfree_hstep in E2.
    apply bind_inv in H as (r1 & h3 & E3 & H). apply ret_inv in H as [-> _].
    apply next_line_shorter in Hn. apply Forall_cons in Hsh as [_ Hsh].
    apply IH in E3 as ->; [|by eapply ample_hstep|done|by rewrite Hp|rewrite Hp; lia]. by rewrite Hp.
  - destruct Hg as (-> & -> & _). apply ret_inv in H as [-> _]. done.
Qed.

(** ** Theorems *)

(** C14: Framing does not depend on how the bytes arrive: with memory and an
    input that delivers without errors or timeouts, in pieces of any size
    and with interruptions anywhere, the calls of [stdio_recv] give exactly
    the lines of the byte stream, in order and without their CR LF, and then
    MCP_ERR_IO; this for lines that stay 4097 bytes below the message
    limit. *)
Theorem stdio_stream rd b h r h' fuel :
  ample h -> ready b -> Forall short (split_lines (pending b)) -> (length (pending b) < fuel)%nat ->
  recv_all fuel rd (Some b) h = (r, h') -> r = Some (map strip_cr (split_lines (pending b)), MCP_ERR_IO).
Proof. apply recv_all_lines. Qed.

(** The ownership contract, for every input, timeout and allocator: a line
    is returned exactly with MCP_OK, and the only blocks a call leaves are
    the line and the stash. *)
Theorem stdio_recv_owned rd b h st line b' h' :
  stdio_recv rd b h = ((st, line, b'), h') -> from_option input_ok True b ->
  from_option input_ok True b' /\ hstep h h' (line_size line + (backend_size b' - backend_size b)) /\
  (line <> None <-> st = MCP_OK).
Proof. apply stdio_recv_spec. Qed.

(** A timeout in the middle of a line loses the part already read: the rest
    of the line is then delivered as if it were one. *)
Theorem timeout_splits_line :
  let b := Some (Backend (Some [Bytes_ (cs "{'id':"); Waited MCP_ERR_TIMEOUT; Bytes_ (cs "1}" ++ [newline])]) None []) in
  let '((st1, l1, b1), h1) := stdio_recv 50 b fresh_heap in
  let '((st2, l2, b2), h2) := stdio_recv 50 b1 h1 in
  (st1, l1) = (MCP_ERR_TIMEOUT, None) /\ (st2, l2) = (MCP_OK, Some (cs "1}")).
Proof. by vm_compute. Qed.

(** A line over the limit takes the next line with it when its newline is in
    the piece that crossed the limit: that piece is dropped whole. *)
Theorem oversized_loses_next buf tmp next rest o h :
  cut newline buf = None -> Z.of_nat (length buf) + Z.of_nat (length tmp) + 1 > MCP_PROTOCOL_MAX_MESSAGE_BYTES ->
  newline ∉ next -> ample h ->
  exists h', recv_loop [Bytes_ tmp; Bytes_ (next ++ newline :: rest)] false buf 0 (Backend None o []) h
    = ((MCP_ERR_PROTOCOL, None, Backend (Some []) o rest), h').
Proof.
  intros Hb Hl Hn A. cbn [recv_loop]. unfold memchr_nl. rewrite Hb. cbv zeta.
  rewrite (proj2 (Z.ltb_lt _ _)) by lia. destruct (xfree false h) as [[] h1] eqn:E. rewrite (bind_run _ _ _ _ _ E).
  cbn [discard_loop]. unfold memchr_nl. rewrite (proj2 (cut_some newline _ next rest)) by done.
  destruct (ample_stash_store (Backend None o []) rest h1) as [h2 E2].
  { apply xfree_hstep in E. by eapply ample_hstep. }
  exists h2. by rewrite (bind_run _ _ _ _ _ E2).
Qed.

(** ** Witnesses *)

Definition sample_backend : stdio_backend_t :=
  Backend (Some [Bytes_ (cs "ping" ++ [x0d; x0a] ++ cs "po"); Interrupted; Bytes_ (cs "ng")]) None [].

Lemma stdio_stream_witness :
  exists r h', recv_all 11 0 (Some sample_backend) fresh_heap = (r, h') /\ r = Some ([cs "ping"; cs "pong"], MCP_ERR_IO).
Proof.
  eexists _, _. split; [apply surjective_pairing|].
  refine (stdio_stream 0 sample_backend fresh_heap _ _ 11 fresh_ample _ _ _ (surjective_pairing _)).
  - eexists. split; [reflexivity|]. split; [repeat constructor|].
    repeat (apply Forall_cons; split; [cbn; lia || exact I|]). apply Forall_nil. exact I.
  - replace (split_lines (pending sample_backend)) with [cs "ping" ++ [x0d]; cs "pong"] by (vm_compute; reflexivity).
    apply Forall_cons. split; [unfold short; cbn [length app]; vm_compute; discriminate|].
    apply Forall_cons. split; [vm_compute; discriminate|apply Forall_nil; exact I].
  - cbn. lia.
Defined.
