(* ===== verification/Exchange.v ===== *)
(** * What the client guarantees

    The laws of [Client]: first over every transport that keeps the contract
    of [Transport], whatever the allocator does; then, with memory, over the
    line transport of [Stdio]. *)
From S2P Require Import Prelude Heap Utf8 Double JsonValue JsonParse JsonGrammar JsonNumber JsonSerialize JsonApi Schema Message Initialize Validate Builders Mrtr Transport Client Stdio.

Local Open Scope Z_scope.

(** ** Messages with the same contents read the same *)

Lemma error_code_meaning m l :
  wf (dom m) -> erase (dom m) = JObject l ->
  mcp_message_error_code (Some m) =
  match jlookup (cs "error") l with
  | Some (JObject le) => match jlookup (cs "code") le with Some (JNumber d) => Some (cast_int d) | _ => None end
  | _ => None
  end.
Proof.
  intros Hw Hl. unfold mcp_message_error_code, error_obj. cbv zeta.
  rewrite <- (get_key_meaning m l (cs "error") Hw Hl) by (by split).
  assert (wf_msg m) as Hm by (split; [done|by eexists]).
  destruct (get_key (Some m) (cs "error")) as [e|] eqn:Eg; [|done]. apply get_key_wf in Eg; [|done|by split].
  destruct e as [| | | | |c ms]; try done. cbn [fmap option_fmap option_map builtin_type_of]. rewrite bool_decide_true by done.
  rewrite erase_object. rewrite <- (member_meaning (VObject c ms) _ (cs "code")) by (done || by split).
  by destruct (builtin_object_get _ _) as [[]|].
Qed.

Lemma id_number_meaning m l :
  wf (dom m) -> erase (dom m) = JObject l ->
  mcp_message_id_number (Some m) = match jlookup (cs "id") l with Some (JNumber d) => Some d | _ => None end.
Proof.
  intros Hw Hl. unfold mcp_message_id_number. rewrite <- (get_key_meaning m l (cs "id") Hw Hl) by (by split).
  by destruct (get_key _ _) as [[]|].
Qed.

(** What is read of a message depends on its contents only. *)
Lemma same_readings m m' :
  wf_msg m -> wf_msg m' -> erase (dom m) = erase (dom m') ->
  mcp_message_kind (Some m) = mcp_message_kind (Some m') /\
  mcp_message_method (Some m) = mcp_message_method (Some m') /\
  mcp_message_id_number (Some m) = mcp_message_id_number (Some m') /\
  mcp_message_error_code (Some m) = mcp_message_error_code (Some m') /\
  erase <$> mcp_message_result (Some m) = erase <$> mcp_message_result (Some m').
Proof.
  intros [Hw [l Hl]] [Hw' _] He. rewrite Hl in He. symmetry in He. unfold mcp_message_result.
  rewrite (kind_meaning m l), (kind_meaning m' l), (method_meaning m l), (method_meaning m' l), (id_number_meaning m l),
    (id_number_meaning m' l), (error_code_meaning m l), (error_code_meaning m' l) by done.
  rewrite (get_key_meaning m l), (get_key_meaning m' l) by (done || by split). done.
Qed.

(** ** Over any transport *)

Section laws.
Context {T : Type} (o : mcp_transport_ops_t T) {L : TransportLaws o} (undefined_int : Z).
Implicit Types c : mcp_client_t T.

(** The blocks of the client's transport. *)
Definition tsize c : Z := tr_size (backend (t c)).

(** Only the transport and the next id of the client may change. *)
Definition moved c c' : Prop := sound o (t c') /\ c' = with_t (with_next_id c (next_id c')) (t c').

(** The transport gave a line that is this message. *)
Definition delivered (m : mcp_message_t) : Prop :=
  exists (x : mcp_transport_t T) line x' h h',
    sound o x /\ mcp_transport_recv (Some x) true h = ((MCP_OK, Some line, x'), h') /\ denotes (cstr line) m.

Lemma moved_refl c : sound o (t c) -> moved c c.
Proof. intros H. split; [done|]. by destruct c. Qed.

Lemma post_sound x m h st x' h' :
  sound o x -> wf_msg m -> post x m h = ((st, x'), h') ->
  sound o x' /\ hstep h h' (tr_size (backend x') - tr_size (backend x) - msg_blocks m).
Proof.
  intros Hx [Hw _] H. unfold post in H. apply bind_inv in H as (out & h1 & E & H). cbn [mcp_message_serialize] in E.
  apply serialize_spec in E; [|done]. apply bind_inv in H as (u & h2 & E2 & H). apply message_destroy_hstep in E2. cbn [omsg_blocks] in E2.
  destruct out as [out|].
  - destruct E as [Hs1 ->]. apply bind_inv in H as ([st1 x1] & h3 & E3 & H). apply (send_sound o) in E3 as (x2 & -> & Hx2 & Hs3); [|done].
    apply bind_inv in H as (u' & h4 & E4 & H). apply xfree_hstep in E4. apply ret_inv in H as [[= -> ->] ->]. split; [done|].
    pose proof (hstep_trans _ _ _ _ _ _ Hs1 E2 eq_refl) as Hs2. pose proof (hstep_trans _ _ _ _ _ _ Hs2 Hs3 eq_refl) as Hs.
    eapply hstep_trans; [exact Hs|exact E4|cbn; lia].
  - destruct E as [Hs1 _]. apply ret_inv in H as [[= -> ->] ->]. split; [done|]. eapply hstep_trans; [exact Hs1|exact E2|lia].
Qed.

Lemma send_message_sound c m h st c' h' :
  sound o (t c) -> wf_msg m -> send_message c m h = ((st, c'), h') ->
  moved c c' /\ next_id c' = next_id c /\ hstep h h' (tsize c' - tsize c - msg_blocks m).
Proof.
  intros Hx Hw H. unfold send_message in H. apply bind_inv in H as ([st1 x1] & h1 & E & H). apply ret_inv in H as [[= -> ->] ->].
  apply post_sound in E as [Hx1 Hs]; [|done..]. split; [split; [done|by destruct c]|]. by split.
Qed.

Lemma recv_message_sound c h st msg c' h' :
  sound o (t c) -> recv_message c h = ((st, msg, c'), h') ->
  moved c c' /\ next_id c' = next_id c /\ hstep h h' (omsg_blocks msg + (tsize c' - tsize c)) /\
  match msg with Some m => st = MCP_OK /\ wf_msg m /\ delivered m | None => st <> MCP_OK end.
Proof.
  intros Hx H. unfold recv_message in H. apply bind_inv in H as ([[st1 line] x1] & h1 & E & H). pose proof E as Erun.
  apply (recv_sound o) in E as (x2 & -> & Hx2 & Hs1 & Hl); [|done]. cbn [default from_option id] in H.
  assert (moved c (with_t c x2)) as Hm by (split; [done|by destruct c]).
  destruct line as [line|].
  - assert (st1 = MCP_OK) as -> by (by apply Hl). apply bind_inv in H as (m & h2 & E2 & H). apply message_parse_spec in E2.
    apply bind_inv in H as (u & h3 & E3 & H). apply xfree_hstep in E3. apply ret_inv in H as [[= -> -> ->] ->].
    split; [done|]. split; [done|]. destruct m as [m|].
    + destruct E2 as (Hs2 & Hden). pose proof (hstep_trans _ _ _ _ _ _ Hs1 Hs2 eq_refl) as Hs.
      split; [eapply hstep_trans; [exact Hs|exact E3|unfold tsize; cbn; lia]|]. split; [done|]. split; [by destruct Hden|].
      by exists (t c), line, (Some x2), h, h1.
    + destruct E2 as [Hs2 _]. pose proof (hstep_trans _ _ _ _ _ _ Hs1 Hs2 eq_refl) as Hs.
      split; [eapply hstep_trans; [exact Hs|exact E3|unfold tsize; cbn; lia]|done].
  - assert (st1 <> MCP_OK) as Hn by (intros ->; by apply Hl). assert (ret (st1, @None mcp_message_t, with_t c x2) h1 = (st, msg, c', h')) as H'
      by (by destruct st1). apply ret_inv in H' as [[= -> -> ->] ->].
    split; [done|]. split; [done|]. split; [|done]. eapply hstep_eq; [exact Hs1|unfold tsize; cbn; lia].
Qed.

(** The client's own state after an exchange: the next id is the only thing
    of it that changed. *)
Definition exchanged c c' : Prop := moved c c' /\ next_id c' = succ_id (next_id c).

(** [m] is taken for the answer to the request with this id. *)
Definition matches (id : double) (m : mcp_message_t) : Prop :=
  mcp_message_kind (Some m) = MCP_MSG_RESPONSE /\
  exists got, mcp_message_id_number (Some m) = Some got /\ deqb got id = true.

Lemma moved_trans c c1 c2 : moved c c1 -> moved c1 c2 -> moved c c2.
Proof. intros [_ H1] [Hx H2]. split; [done|]. rewrite H2, H1. by destruct c. Qed.

Lemma matches_test id m :
  negb (bool_decide (mcp_message_kind (Some m) = MCP_MSG_RESPONSE))
  || negb (match mcp_message_id_number (Some m) with Some got => deqb got id | None => false end) = false <-> matches id m.
Proof.
  rewrite orb_false_iff, !negb_false_iff, bool_decide_eq_true. unfold matches.
  destruct (mcp_message_id_number (Some m)) as [got|]; naive_solver.
Qed.

Lemma roundtrip_sound c method params h st resp c' h' :
  sound o (t c) -> valid_double (next_id c) = true -> owf params -> roundtrip c method params h = ((st, resp, c'), h') ->
  exchanged c c' /\ hstep h h' (omsg_blocks resp + (tsize c' - tsize c) - oblocks params) /\
  match resp with
  | Some m => st = MCP_OK /\ wf_msg m /\ matches (next_id c) m /\ delivered m
  | None => st <> MCP_OK
  end.
Proof.
  intros Hx Hv Hp H. unfold roundtrip in H. cbv zeta in H. apply bind_inv in H as (req & h1 & E & H).
  set (c0 := with_next_id c (succ_id (next_id c))) in *. assert (moved c c0) as Hm0 by done.
  cbn [mcp_request_new_number_id] in E. apply (request_builds _ _ _ _ _ (number_attempt (next_id c) Hv) Hp) in E.
  destruct req as [req|].
  2:{ destruct E as [Hs1 _]. apply bind_inv in H as (u & h2 & E2 & H). apply ret_inv in H as [[= -> -> ->] ->].
      apply builtin_destroy_hstep in E2. split; [done|]. split; [|done].
      eapply hstep_trans; [exact Hs1|exact E2|unfold tsize, c0; cbn; lia]. }
  destruct E as (Hs1 & Hw1 & He1). apply bind_inv in H as ([st1 c1] & h2 & E2 & H).
  apply send_message_sound in E2 as (Hm1 & Hn1 & Hs2); [|done|by split; [|eexists]].
  assert (hstep h h2 (tsize c1 - tsize c - oblocks params)) as Hs by (eapply hstep_trans; [exact Hs1|exact Hs2|unfold tsize, c0; cbn; lia]).
  assert (exchanged c c1) as Hx1 by (split; [by eapply moved_trans|by rewrite Hn1]).
  destruct (decide (st1 = MCP_OK)) as [->|Hn].
  2:{ assert (ret (st1, @None mcp_message_t, c1) h2 = (st, resp, c', h')) as H' by (by destruct st1).
      apply ret_inv in H' as [[= -> -> ->] ->]. split; [done|]. split; [|done]. eapply hstep_eq; [exact Hs|cbn; lia]. }
  apply bind_inv in H as ([[st2 msg] c2] & h3 & E3 & H). apply recv_message_sound in E3 as (Hm2 & Hn2 & Hs3 & Hr); [|by destruct Hm1].
  assert (exchanged c c2) as Hx2 by (split; [by eapply moved_trans; [apply Hx1|]|rewrite Hn2; apply Hx1]).
  pose proof (hstep_trans _ _ _ _ _ _ Hs Hs3 eq_refl) as Hs4.
  destruct msg as [m|].
  - destruct Hr as (-> & Hw & Hd). destruct (_ || _) eqn:Et.
    + apply bind_inv in H as (u & h4 & E4 & H). apply message_destroy_hstep in E4. apply ret_inv in H as [[= -> -> ->] ->].
      split; [done|]. split; [|done]. eapply hstep_trans; [exact Hs4|exact E4|cbn; lia].
    + apply ret_inv in H as [[= -> -> ->] ->]. apply matches_test in Et. split; [done|]. split; [|done].
      eapply hstep_eq; [exact Hs4|cbn; lia].
  - assert (ret (st2, @None mcp_message_t, c2) h3 = (st, resp, c', h')) as H' by (by destruct st2).
    apply ret_inv in H' as [[= -> -> ->] ->]. split; [done|]. split; [|done]. eapply hstep_eq; [exact Hs4|cbn; lia].
Qed.

(** What the caller is told about an accepted response. *)
Definition told (result_out : bool) (m : mcp_message_t) (st : mcp_status_t) (res : option value) : Prop :=
  match error_status undefined_int m with
  | Some e => st = e /\ res = None
  | None =>
      if result_out then
        match res with
        | Some v => st = MCP_OK /\ wf v /\ erase <$> mcp_message_result (Some m) = Some (erase v)
        | None => st = MCP_ERR_NOMEM
        end
      else st = MCP_OK /\ res = None
  end.

Lemma told_none (result_out : bool) m st res : told result_out m st res -> st <> MCP_OK -> res = None.
Proof. unfold told. destruct (error_status _ _); [by intros [-> ->]|]. destruct result_out, res; naive_solver. Qed.

Lemma result_wf m v : wf_msg m -> mcp_message_result (Some m) = Some v -> wf v.
Proof. intros Hm H. by eapply get_key_wf; [| |exact H]. Qed.

Lemma clone_result m h res h' :
  wf_msg m -> json_clone (mcp_message_result (Some m)) h = (res, h') ->
  hstep h h' (oblocks res) /\
  match res with
  | Some v => wf v /\ erase <$> mcp_message_result (Some m) = Some (erase v)
  | None => ~ (ample h /\ is_Some (mcp_message_result (Some m)))
  end.
Proof.
  intros Hm H. destruct (mcp_message_result (Some m)) as [r|] eqn:Er.
  - apply clone_attempt in H as [Hs Hr]; [|by eapply result_wf]. split; [done|]. destruct res as [v|].
    + destruct Hr as [Hw He]. split; [done|]. cbn. by rewrite He.
    + intros [A _]. by apply Hr.
  - apply ret_inv in H as [-> ->]. split; [apply hstep_refl|]. by intros [_ [? ?]].
Qed.

Lemma request_sound c method params result_out h r h' :
  sound o (t c) -> valid_double (next_id c) = true -> owf params -> request undefined_int c method params result_out h = (r, h') ->
  exists st res c', r = (st, res, Some c') /\ exchanged c c' /\ hstep h h' (oblocks res + (tsize c' - tsize c) - oblocks params) /\
    ((exists m, wf_msg m /\ matches (next_id c) m /\ delivered m /\ told result_out m st res) \/ (st <> MCP_OK /\ res = None)).
Proof.
  intros Hx Hv Hp H. unfold request in H. apply bind_inv in H as ([[st1 resp] c1] & h1 & E & H).
  apply roundtrip_sound in E as (Hex & Hs1 & Hr); [|done..]. destruct resp as [m|].
  2:{ assert (ret (st1, @None value, Some c1) h1 = (r, h')) as H' by (by destruct st1). apply ret_inv in H' as [-> ->].
      exists st1, None, c1. split; [done|]. split; [done|]. split; [exact Hs1|]. by right. }
  destruct Hr as (-> & Hw & Hm & Hd). assert (forall st res, told result_out m st res ->
    (exists m, wf_msg m /\ matches (next_id c) m /\ delivered m /\ told result_out m st res) \/ (st <> MCP_OK /\ res = None)) as Hl by (intros; left; by exists m).
  destruct (error_status undefined_int m) as [e|] eqn:Ee.
  { apply bind_inv in H as (u & h2 & E2 & H). apply message_destroy_hstep in E2. apply ret_inv in H as [-> ->].
    exists e, None, c1. split; [done|]. split; [done|]. split; [eapply hstep_trans; [exact Hs1|exact E2|cbn; lia]|]. apply Hl. unfold told. by rewrite Ee. }
  destruct result_out.
  - apply bind_inv in H as (res & h2 & E2 & H). apply clone_result in E2 as [Hs2 Hc]; [|done].
    apply bind_inv in H as (u & h3 & E3 & H). apply message_destroy_hstep in E3. apply ret_inv in H as [-> ->].
    eexists _, res, c1. split; [done|]. split; [done|]. pose proof (hstep_trans _ _ _ _ _ _ Hs1 Hs2 eq_refl) as Hs.
    split; [eapply hstep_trans; [exact Hs|exact E3|cbn; lia]|]. apply Hl. unfold told. rewrite Ee. by destruct res.
  - apply bind_inv in H as (u & h2 & E2 & H). apply message_destroy_hstep in E2. apply ret_inv in H as [-> ->].
    exists MCP_OK, None, c1. split; [done|]. split; [done|]. split; [eapply hstep_trans; [exact Hs1|exact E2|cbn; lia]|]. apply Hl. unfold told. by rewrite Ee.
Qed.

(** ** A tool call over several round trips *)

Definition state_blocks (s : option bytes) : Z := if s then 1 else 0.

Lemma free_state_hstep s h u h' : free_state s h = (u, h') -> hstep h h' (- state_blocks s).
Proof.
  intros H. unfold free_state, isnull in H. destruct s; cbn [state_blocks]; [by apply xfree_hstep in H|].
  apply ret_inv in H as [-> ->]. apply hstep_refl.
Qed.

(** What one hop sends. *)
Definition hop_members (name : bytes) (args pending : option value) (state : option bytes) : list (bytes * json) :=
  joset (cs "requestState") (JString ∘ cstr <$> state)
    (joset (cs "inputResponses") (erase <$> pending)
       (joset (cs "arguments") (erase <$> args) [(cs "name", JString (cstr name))])).

Lemma add_state_ample (v : value) l state h r h' :
  wf v -> erase v = JObject l -> ample h ->
  match state with
  | None => ret (Some v)
  | Some s =>
      sv <- string_new s ;; xfree false ;;
      match sv with
      | None => builtin_destroy (Some v) ;; ret None
      | Some _ => chk (object_set_take (Some v) (cs "requestState") sv) discard (fun o => ret (Some o))
      end
  end h = (r, h') ->
  hstep h h' (oblocks r - blocks v - state_blocks state) /\ owf r /\
  match r with
  | Some p => erase p = JObject (joset (cs "requestState") (JString ∘ cstr <$> state) l)
  | None => ~ from_option (fun s => utf8_valid (cstr s) = true) True state
  end.
Proof.
  intros Hw Hl A H. destruct state as [s|].
  2:{ apply ret_inv in H as [-> ->]. cbn. split; [eapply hstep_eq; [apply hstep_refl|lia]|done]. }
  apply bind_inv in H as (sv & h1 & E & H). apply string_new_attempt in E as [Hs1 Hr].
  apply bind_inv in H as (u & h2 & E2 & H). apply xfree_hstep in E2. assert (ample h2) as A2 by (by eapply ample_hstep, ample_hstep).
  destruct sv as [sv|].
  - destruct Hr as [Hws Hes]. eapply chk_ample in H as (p & h3 & Hwp & Hep & Hs3 & _ & H); [|by apply take_updates; [..|lit]|done|done].
    apply ret_inv in H as [-> ->]. pose proof (hstep_trans _ _ _ _ _ _ Hs1 E2 eq_refl) as Hs2.
    split; [eapply hstep_trans; [exact Hs2|exact Hs3|cbn; lia]|]. split; [done|]. by rewrite Hep, Hes.
  - apply bind_inv in H as (u2 & h3 & E3 & H). apply builtin_destroy_hstep in E3. apply ret_inv in H as [-> ->].
    pose proof (hstep_trans _ _ _ _ _ _ Hs1 E2 eq_refl) as Hs2. split; [eapply hstep_trans; [exact Hs2|exact E3|cbn; lia]|].
    split; [done|]. cbn. intros Hu. by apply Hr.
Qed.

Lemma hop_params_ample name args pending state h r h' :
  ample h -> owf args -> owf pending -> hop_params name args pending state h = (r, h') ->
  hstep h h' (oblocks r - oblocks args - oblocks pending - state_blocks state) /\ owf r /\
  match r with
  | Some p => erase p = JObject (hop_members name args pending state)
  | None => ~ (utf8_valid (cstr name) = true /\ from_option (fun s => utf8_valid (cstr s) = true) True state)
  end.
Proof.
  intros A Ha Hp H. unfold hop_params in H. cbv zeta in H. apply bind_inv in H as (p0 & h1 & E & H).
  apply object_new_attempt in E as [Hs1 Hr]. assert (ample h1) as A1 by (by eapply ample_hstep).
  destruct p0 as [p0|]; [|by destruct Hr]. destruct Hr as [Hw0 He0]. unfold put in H.
  apply bind_inv in H as (nv & h2 & E2 & H). apply string_new_attempt in E2 as [Hs2 Hn].
  pose proof (hstep_trans _ _ _ _ _ _ Hs1 Hs2 eq_refl) as Hs12. assert (ample h2) as A2 by (by eapply ample_hstep).
  destruct nv as [nv|].
  2:{ apply bind_inv in H as (u1 & h3 & E3 & H). apply bind_inv in H as (u2 & h4 & E4 & H). apply bind_inv in H as (u3 & h5 & E5 & H).
      apply bind_inv in H as (u4 & h6 & E6 & H). apply ret_inv in H as [-> ->]. apply builtin_destroy_hstep in E3, E4, E5. apply free_state_hstep in E6.
      pose proof (hstep_trans _ _ _ _ _ _ Hs12 E3 eq_refl) as K3. pose proof (hstep_trans _ _ _ _ _ _ K3 E4 eq_refl) as K4.
      pose proof (hstep_trans _ _ _ _ _ _ K4 E5 eq_refl) as K5. split; [eapply hstep_trans; [exact K5|exact E6|cbn; lia]|].
      split; [done|]. intros [Hu _]. by apply Hn. }
  destruct Hn as [Hwn Hen].
  eapply chk_ample in H as (p1 & h3 & Hw1 & He1 & Hs3 & A3 & H); [|by apply take_updates; [..|lit]|done|done]. rewrite Hen in He1.
  pose proof (hstep_trans _ _ _ _ _ _ Hs12 Hs3 eq_refl) as Hs13.
  match type of H with match _ with Some _ => chk _ ?f ?k | None => _ end _ = _ =>
    apply (opt_ample p1 _ (cs "arguments") args f k _ _ _ Hw1 He1 Ha ltac:(lit) A3) in H end. destruct H as (p2 & h4 & Hw2 & He2 & Hs4 & A4 & H).
  match type of H with (match _ with Some _ => chk _ ?f ?k | None => _ end) _ = _ =>
    apply (opt_ample p2 _ (cs "inputResponses") pending f k _ _ _ Hw2 He2 Hp ltac:(lit) A4) in H end. destruct H as (p3 & h5 & Hw3 & He3 & Hs5 & A5 & H).
  apply (add_state_ample p3 _ _ _ _ _ Hw3 He3 A5) in H as (Hs6 & Hwr & Hr).
  pose proof (hstep_trans _ _ _ _ _ _ Hs13 Hs4 eq_refl) as K4. pose proof (hstep_trans _ _ _ _ _ _ K4 Hs5 eq_refl) as K5.
  split; [eapply hstep_trans; [exact K5|exact Hs6|cbn; lia]|]. split; [done|]. destruct r as [r|]; [exact Hr|]. by intros [_ Hu].
Qed.

Lemma double_of_Z_valid z : valid_double (double_of_Z z) = true.
Proof. destruct z; [done|apply round_pos_valid; lia..]. Qed.

Lemma exchanged_valid c c' : exchanged c c' -> valid_double (next_id c') = true.
Proof. intros [_ ->]. apply double_of_Z_valid. Qed.

(** The callback only borrows what it is given; what it returns is owned. *)
Definition elicit_ok (fn : option value -> option bytes -> M (option value)) : Prop :=
  forall reqs state h r h', fn reqs state h = (r, h') -> hstep h h' (oblocks r) /\ owf r.

Definition mrtr_ok c : Prop := from_option elicit_ok True (mrtr_elicit_fn c).

Lemma moved_elicit c c' : moved c c' -> mrtr_elicit_fn c' = mrtr_elicit_fn c.
Proof. by intros [_ ->]. Qed.

(** How a call that took [n] exchanges and was given [given] blocks ends:
    what is returned is the caller's, and with a callback it is not a
    request for input. *)
Definition called c (n : nat) (given : Z) (result_out : bool) (h : heap) (r : outcome) (h' : heap) : Prop :=
  exists st res c', r = (st, res, Some c') /\ moved c c' /\ next_id c' = Nat.iter n succ_id (next_id c) /\
    hstep h h' (oblocks res + (tsize c' - tsize c) - given) /\
    (result_out = false -> res = None) /\
    (res <> None -> st = MCP_OK) /\
    (mcp_mrtr_is_input_required res = true -> mrtr_elicit_fn c = None).

Lemma called_finish c c' n given (result_out : bool) st (res : option value) h h1 r h' :
  (if result_out then ret (st, res, Some c') else builtin_destroy res ;; ret (st, None, Some c')) h1 = (r, h') ->
  moved c c' -> next_id c' = Nat.iter n succ_id (next_id c) -> hstep h h1 (oblocks res + (tsize c' - tsize c) - given) ->
  (res <> None -> st = MCP_OK) -> (mcp_mrtr_is_input_required res = true -> mrtr_elicit_fn c = None) ->
  called c n given result_out h r h'.
Proof.
  intros H Hm Hn Hs Hst Hi. destruct result_out.
  - apply ret_inv in H as [-> ->]. by exists st, res, c'.
  - apply bind_inv in H as (u & h2 & E & H). apply builtin_destroy_hstep in E. apply ret_inv in H as [-> ->].
    exists st, None, c'. do 3 (split; [done|]). split; [eapply hstep_trans; [exact Hs|exact E|cbn; lia]|done].
Qed.

(** The body of [hops], whatever tries are left. *)
Lemma hops_eq tries c name args pending state result_out :
  hops undefined_int tries c name args pending state result_out =
  (params <- hop_params name args pending state ;;
   match params with
   | None => ret (MCP_ERR_NOMEM, None, Some c)
   | Some _ =>
       r <- request undefined_int c (cs "tools/call") params true ;;
       let finish st (result : option value) (oc : option (mcp_client_t T)) : M outcome :=
         if result_out then ret (st, result, oc) else builtin_destroy result ;; ret (st, None, oc) in
       match r with
       | (MCP_OK, result, Some c) =>
           if negb (mcp_mrtr_is_input_required result) then finish MCP_OK result (Some c) else
           match mrtr_elicit_fn c, tries with
           | None, _ => finish MCP_OK result (Some c)
           | Some _, O => builtin_destroy result ;; finish MCP_ERR_PROTOCOL None (Some c)
           | Some elicit, S tries =>
               let rs := mcp_mrtr_get_request_state result in
               state <- strdup rs ;;
               if negb (isnull rs) && isnull state
               then builtin_destroy result ;; finish MCP_ERR_NOMEM None (Some c) else
               pending <- elicit (mcp_mrtr_get_input_requests result) state ;;
               builtin_destroy result ;;
               match pending with
               | None => free_state state ;; finish MCP_ERR_CANCELLED None (Some c)
               | Some _ => hops undefined_int tries c name None pending state result_out
               end
           end
       | (st, result, c) => finish st result c
       end
   end).
Proof. by destruct tries. Qed.

Lemma called_later c c1 n given given1 (result_out : bool) h h1 r h' :
  exchanged c c1 -> hstep h h1 (given1 + (tsize c1 - tsize c) - given) ->
  called c1 n given1 result_out h1 r h' -> called c (S n) given result_out h r h'.
Proof.
  intros [Hm Hn] Hs (st & res & c' & -> & Hm' & Hn' & Hs' & Hr & Hst & Hi). exists st, res, c'. split; [done|].
  split; [by eapply moved_trans|]. split; [by rewrite Hn', Hn, Nat.iter_succ_r|]. split; [eapply hstep_trans; [exact Hs|exact Hs'|lia]|].
  rewrite (moved_elicit _ _ Hm) in Hi. done.
Qed.

Lemma hops_ample tries : forall c name args pending state result_out h r h',
  ample h -> sound o (t c) -> valid_double (next_id c) = true -> owf args -> owf pending -> mrtr_ok c ->
  hops undefined_int tries c name args pending state result_out h = (r, h') ->
  exists n, (n <= S tries)%nat /\ called c n (oblocks args + oblocks pending + state_blocks state) result_out h r h'.
Proof.
  induction tries as [tries IH] using (well_founded_induction lt_wf).
  intros c name args pending state result_out h r h' A Hx Hv Ha Hp Hc H. rewrite hops_eq in H.
  apply bind_inv in H as (params & h1 & E & H). apply hop_params_ample in E as (Hs1 & Hwp & _); [|done..].
  assert (ample h1) as A1 by (by eapply ample_hstep). destruct params as [params|].
  2:{ apply ret_inv in H as [-> ->]. exists O. split; [lia|]. exists MCP_ERR_NOMEM, None, c. split; [done|]. split; [by apply moved_refl|].
      split; [done|]. split; [eapply hstep_eq; [exact Hs1|cbn; lia]|done]. }
  apply bind_inv in H as (r1 & h2 & E2 & H). apply request_sound in E2 as (st & res & c1 & -> & Hex & Hs2 & Ho); [|done..].
  pose proof (hstep_trans _ _ _ _ _ _ Hs1 Hs2 eq_refl) as Hs12. assert (ample h2) as A2 by (by eapply ample_hstep).
  cbv zeta in H. pose proof (proj1 Hex) as Hm. pose proof (moved_elicit _ _ Hm) as Hel.
  assert (hstep h h2 (oblocks res + (tsize c1 - tsize c) - (oblocks args + oblocks pending + state_blocks state))) as Hs
    by (eapply hstep_eq; [exact Hs12|cbn; lia]). clear Hs1 Hs2 Hs12.
  assert (forall st res h3, (if result_out then ret (st, res, Some c1) else builtin_destroy res ;; ret (st, None, Some c1)) h3 = (r, h') ->
    hstep h h3 (oblocks res + (tsize c1 - tsize c) - (oblocks args + oblocks pending + state_blocks state)) ->
    (res <> None -> st = MCP_OK) -> (mcp_mrtr_is_input_required res = true -> mrtr_elicit_fn c = None) ->
    exists n, (n <= S tries)%nat /\ called c n (oblocks args + oblocks pending + state_blocks state) result_out h r h') as Hfin.
  { intros st0 res0 h3 H0 Hs0 Hst0 Hi0. exists 1%nat. split; [lia|]. eapply called_finish; [exact H0|done|apply Hex|done..]. }
  destruct (decide (st = MCP_OK)) as [->|Hst].
  2:{ assert ((if result_out then ret (st, res, Some c1) else builtin_destroy res ;; ret (st, None, Some c1)) h2 = (r, h')) as H' by (by destruct st).
      assert (res = None) as -> by (by destruct Ho as [(m & _ & _ & _ & Ht)|[_ ->]]; [apply told_none in Ht|]).
      by eapply Hfin. }
  destruct (mcp_mrtr_is_input_required res) eqn:Ei; cbn [negb] in H; [|eapply Hfin; [exact H|exact Hs|done|by rewrite Ei]].
  rewrite Hel in H. destruct (mrtr_elicit_fn c) as [elicit|] eqn:Ee; [|by eapply Hfin].
  destruct tries as [|tries].
  { apply bind_inv in H as (u & h3 & E3 & H). apply builtin_destroy_hstep in E3. eapply Hfin; [exact H|eapply hstep_trans; [exact Hs|exact E3|cbn; lia]|done|done]. }
  apply bind_inv in H as (state1 & h3 & E3 & H). apply strdup_spec in E3 as (Hs3 & _ & Hsome).
  pose proof (hstep_trans _ _ _ _ _ _ Hs Hs3 eq_refl) as K3.
  destruct (negb _ && _) eqn:En.
  { exfalso. apply andb_true_iff in En as [E1 E4]. destruct state1; [done|]. destruct (Hsome A2) as [? ?]; [|done].
    by destruct (mcp_mrtr_get_request_state res). }
  apply bind_inv in H as (p1 & h4 & E4 & H). assert (elicit_ok elicit) as Hok by (unfold mrtr_ok in Hc; by rewrite Ee in Hc).
  apply Hok in E4 as [Hs4 Hw4]. pose proof (hstep_trans _ _ _ _ _ _ K3 Hs4 eq_refl) as K4.
  apply bind_inv in H as (u & h5 & E5 & H). apply builtin_destroy_hstep in E5. pose proof (hstep_trans _ _ _ _ _ _ K4 E5 eq_refl) as K5.
  destruct p1 as [p1|].
  - apply IH in H as (n & Hn & Hcalled); [|lia|by eapply ample_hstep, (ample_hstep _ _ _ K4)|apply Hm|by eapply exchanged_valid|done|done|unfold mrtr_ok; by rewrite Hel, ?Ee].
    exists (S n). split; [lia|]. eapply called_later; [exact Hex| |exact Hcalled]. eapply hstep_eq; [exact K5|].
    unfold state_blocks. destruct state1; cbn; lia.
  - apply bind_inv in H as (u' & h6 & E6 & H). apply free_state_hstep in E6. eapply Hfin; [exact H| |done|done].
    eapply hstep_trans; [exact K5|exact E6|]. unfold state_blocks. destruct state1; cbn; lia.
Qed.
End laws.

(** ** Over the line transport *)

(** A message on the wire. *)
Definition wire (j : json) : bytes := render j ++ [newline].

(** A line transport that has written [w], whose writes succeed and that
    still has [p] to read. *)
Definition line_at (x : mcp_transport_t stdio_backend_t) (w p : bytes) : Prop :=
  ops x = kStdioOps /\
  exists b, backend x = Some b /\ ready b /\ pending b = p /\ out_ b = Some (Output w []).

Lemma stdio_send_ok data b w h :
  data <> [] -> out_ b = Some (Output w []) ->
  stdio_send data (Some b) h = ((MCP_OK, Some (Backend (in_ b) (Some (Output (w ++ data ++ [newline]) [])) (stash b))), h).
Proof.
  intros Hd Ho. destruct b as [i o s]. cbn in Ho. subst o. destruct data as [|c data]; [done|]. cbn.
  unfold ret. by rewrite app_nil_r, <- app_assoc.
Qed.

Lemma post_line x w p m h st x' h' :
  line_at x w p -> wf_msg m -> ample h -> post x m h = ((st, x'), h') ->
  st = MCP_OK /\ line_at x' (w ++ wire (erase (dom m))) p /\ backend_size (backend x') = backend_size (backend x) /\
  hstep h h' (- msg_blocks m).
Proof.
  intros (Ho & b & Hb & Hr & Hp & Hout) [Hw Hl] A H. unfold post in H. apply bind_inv in H as (out & h1 & E & H).
  cbn [mcp_message_serialize] in E. apply serialize_spec in E; [|done].
  destruct out as [out|]; [|by destruct E]. destruct E as [Hs1 ->].
  apply bind_inv in H as ([] & h2 & E2 & H). apply message_destroy_hstep in E2. cbn [omsg_blocks] in E2.
  rewrite (cstr_no_nul _ (render_no_nul _ Hw)) in H.
  apply bind_inv in H as ([st1 x1] & h3 & E3 & H). apply bind_inv in H as ([] & h4 & E4 & H). apply ret_inv in H as [[= -> ->] ->].
  unfold mcp_transport_send in E3. rewrite bool_decide_false in E3 by done. cbn [andb] in E3. rewrite Ho in E3. cbn [op_send kStdioOps] in E3.
  cbn [default from_option id] in E3. rewrite take_ge, Hb in E3 by lia.
  rewrite (bind_run _ _ _ _ _ (stdio_send_ok _ b w h2 (render_nonempty _ Hw) Hout)) in E3. apply ret_inv in E3 as [[= -> ->] ->].
  cbn [default from_option id backend with_backend]. rewrite Hb. split; [done|]. split; [|split; [done|]].
  - split; [done|]. exists (Backend (in_ b) (Some (Output (w ++ render (erase (dom m)) ++ [newline]) [])) (stash b)). by split_and!.
  - apply xfree_hstep in E4. assert (hstep h h2 (1 - msg_blocks m)) as Hs2 by (eapply hstep_trans; [exact Hs1|exact E2|lia]).
    eapply hstep_trans; [exact Hs2|exact E4|lia].
Qed.

Lemma recv_stdio x w p h st line x' h' :
  line_at x w p -> ample h -> (forall l rest, next_line p = Some (l, rest) -> short l) ->
  mcp_transport_recv (Some x) true h = ((st, line, x'), h') ->
  exists x1, x' = Some x1 /\
    hstep h h' (line_size line + (backend_size (backend x1) - backend_size (backend x))) /\
    match next_line p with
    | Some (l, rest) => st = MCP_OK /\ line = Some (strip_cr l) /\ line_at x1 w rest
    | None => st = MCP_ERR_IO /\ line = None /\ line_at x1 w []
    end.
Proof.
  intros (Ho & b & Hb & Hr & Hp & Hout) A Hsh H. unfold mcp_transport_recv in H. rewrite Ho, Hb in H. cbn [op_recv kStdioOps] in H.
  apply bind_inv in H as ([[st1 l1] b1] & h1 & E & H). apply ret_inv in H as [[= -> -> ->] ->].
  assert (input_ok b) as Hok by (destruct Hr as (evs & Hin & _ & He); unfold input_ok; by rewrite Hin).
  destruct (stdio_recv_spec _ _ _ _ _ _ _ E Hok) as (_ & Hs & _). subst p.
  apply recv_line in E as (b2 & -> & Hr2 & Ho2 & Hg); [|done..]. eexists. split; [done|]. rewrite Hb. split; [exact Hs|].
  rewrite Hout in Ho2. destruct (next_line (pending b)) as [[l rest]|]; destruct Hg as (-> & -> & Hp2); (split; [done|]; split; [done|]);
    (split; [done|]); by exists b2.
Qed.

(** The request on the wire. *)
Definition request_json (id : double) (method : bytes) (params : option value) : json :=
  JObject (jset (cs "params") params (jinsert (cs "method") (JString (cstr method)) (jinsert (cs "id") (JNumber id) envelope))).

Section lines.
Context (undefined_int : Z).
Implicit Types c : mcp_client_t stdio_backend_t.

(** One exchange with memory: the client writes its request and takes the
    next line, when that is a response with its id. *)
Lemma roundtrip_line c method params w p l rest m h st resp c' h' :
  ample h -> line_at (t c) w p -> valid_double (next_id c) = true -> isfinite (next_id c) = true ->
  utf8_valid (cstr method) = true -> owf params ->
  next_line p = Some (l, rest) -> short l -> denotes (cstr (strip_cr l)) m -> matches (next_id c) m ->
  roundtrip c method params h = ((st, resp, c'), h') ->
  st = MCP_OK /\ line_at (t c') (w ++ wire (request_json (next_id c) method params)) rest /\ ample h' /\
  exists m', resp = Some m' /\ wf_msg m' /\ erase (dom m') = erase (dom m).
Proof.
  intros A Hx Hv Hf Hu Hp Hn Hsh Hden Hma H. unfold roundtrip in H. cbv zeta in H.
  apply bind_inv in H as (req & h1 & E & H). cbn [mcp_request_new_number_id] in E.
  apply (request_builds _ _ _ _ _ (number_attempt (next_id c) Hv) Hp) in E.
  destruct req as [req|]; [|by destruct E as [_ Hna]; destruct Hna]. destruct E as (Hs1 & Hw1 & He1).
  assert (ample h1) as A1 by (by eapply ample_hstep).
  apply bind_inv in H as ([st1 c1] & h2 & E2 & H). unfold send_message in E2. apply bind_inv in E2 as ([st2 x2] & h3 & E3 & E2).
  apply ret_inv in E2 as [[= -> ->] ->]. cbn [t with_next_id] in E3.
  apply (post_line _ w p) in E3 as (-> & Hx2 & _ & Hs3); [|done|by split; [|eexists]|done]. rewrite He1 in Hx2. cbn [fst snd] in H.
  assert (ample h3) as A3 by (by eapply ample_hstep).
  apply bind_inv in H as ([[st4 msg] c4] & h4 & E4 & H). unfold recv_message in E4. cbn [t with_t] in E4.
  apply bind_inv in E4 as ([[st5 line] x5] & h5 & E5 & E4).
  apply (recv_stdio _ _ _ _ _ _ _ _ Hx2 A3) in E5 as (x6 & -> & Hs5 & Hr); [|intros ? ? Hn'; by rewrite Hn in Hn'; simplify_eq].
  rewrite Hn in Hr. destruct Hr as (-> & -> & Hx6). cbn [default from_option id] in E4.
  assert (ample h5) as A5 by (by eapply ample_hstep).
  apply bind_inv in E4 as (msg' & h6 & E6 & E4). apply message_parse_spec in E6. apply bind_inv in E4 as (u & h7 & E7 & E4).
  apply xfree_hstep in E7. apply ret_inv in E4 as [[= -> -> ->] ->].
  destruct msg' as [m'|]; [|exfalso; destruct E6 as [_ Hno]; apply Hno; split; [done|by eapply denotes_message]].
  destruct E6 as (Hs6 & Hden'). assert (denotes (cstr (strip_cr l)) m') as Hd' by done.
  assert (erase (dom m') = erase (dom m)) as He by (by eapply denotes_det).
  destruct (same_readings m' m) as (Hk & _ & Hid & _); [by destruct Hd'|by destruct Hden|done|].
  assert (matches (next_id c) m') as Hma' by (unfold matches; rewrite Hk, Hid; exact Hma). apply matches_test in Hma'. rewrite Hma' in H.
  apply ret_inv in H as [[= -> -> ->] ->]. split; [done|]. split; [done|]. split; [by eapply ample_hstep, ample_hstep|].
  exists m'. by destruct Hd'.
Qed.

Lemma request_line c method params w p l rest m h r h' :
  ample h -> line_at (t c) w p -> valid_double (next_id c) = true -> isfinite (next_id c) = true ->
  utf8_valid (cstr method) = true -> owf params ->
  next_line p = Some (l, rest) -> short l -> denotes (cstr (strip_cr l)) m -> matches (next_id c) m ->
  request undefined_int c method params true h = (r, h') ->
  exists st res c', r = (st, res, Some c') /\ line_at (t c') (w ++ wire (request_json (next_id c) method params)) rest /\
    told undefined_int true m st res /\ (error_status undefined_int m = None -> is_Some (mcp_message_result (Some m)) -> is_Some res).
Proof.
  intros A Hx Hv Hf Hu Hp Hn Hsh Hden Hma H. unfold request in H. apply bind_inv in H as ([[st1 resp] c1] & h1 & E & H).
  eapply roundtrip_line in E as (-> & Hx1 & A1 & m' & -> & Hw' & He); [|done..].
  destruct (same_readings m' m) as (_ & _ & _ & Hec & Hres); [done|by destruct Hden|done|].
  assert (error_status undefined_int m' = error_status undefined_int m) as Hes by (unfold error_status; by rewrite Hec).
  rewrite Hes in H. unfold told. destruct (error_status undefined_int m) as [e|].
  - apply bind_inv in H as (u & h2 & _ & H). apply ret_inv in H as [-> ->]. by exists e, None, c1.
  - apply bind_inv in H as (res & h2 & E2 & H). apply clone_result in E2 as [_ Hc]; [|done].
    apply bind_inv in H as (u & h3 & _ & H). apply ret_inv in H as [-> ->]. rewrite Hres in Hc.
    eexists _, res, c1. split; [done|]. split; [done|]. destruct res as [v|]; [by split; [|eexists]|]. split; [done|].
    intros _ [r Hr]. destruct Hc. split; [done|]. rewrite Hr in Hres. destruct (mcp_message_result (Some m')); [by eexists|done].
Qed.
End lines.

(** ** Ids *)

(** The id of the request after [k] others on a new client. *)
Definition nth_id (k : nat) : double := Nat.iter k succ_id (double_of_Z 1).

Lemma succ_id_exact n : 0 <= n < 2 ^ 53 -> succ_id (double_of_Z n) = double_of_Z (n + 1).
Proof.
  intros Hn. destruct (double_of_Z_exact n) as [_ Hs]; [lia|]. unfold succ_id, dtrunc.
  by rewrite Hs, Z.quot_mul by (apply Z.pow_nonzero; lia).
Qed.

Lemma nth_id_exact k : Z.of_nat k < 2 ^ 53 -> nth_id k = double_of_Z (Z.of_nat k + 1).
Proof.
  induction k as [|k IH]; intros Hk; [done|]. unfold nth_id in *. rewrite Nat.iter_succ, IH by lia.
  rewrite succ_id_exact by lia. f_equal. lia.
Qed.

Lemma deqb_scaled a b : isfinite b = true -> deqb a b = true -> isfinite a = true /\ dscaled a = dscaled b.
Proof. by destruct a, b; try done; cbn [deqb]; rewrite Z.eqb_eq. Qed.

Lemma deqb_refl a : isfinite a = true -> deqb a a = true.
Proof. by destruct a; try done; cbn [deqb]; rewrite Z.eqb_eq. Qed.

Lemma ids_distinct i j m :
  Z.of_nat i < 2 ^ 53 - 1 -> Z.of_nat j < 2 ^ 53 - 1 -> matches (nth_id i) m -> matches (nth_id j) m -> i = j.
Proof.
  intros Hi Hj [_ (a & Ea & Ha)] [_ (b & Eb & Hb)]. rewrite Ea in Eb. injection Eb as <-.
  rewrite nth_id_exact in Ha, Hb by lia.
  destruct (double_of_Z_exact (Z.of_nat i + 1)) as [Fi Si]; [lia|]. destruct (double_of_Z_exact (Z.of_nat j + 1)) as [Fj Sj]; [lia|].
  apply deqb_scaled in Ha as [_ Ha]; [|done]. apply deqb_scaled in Hb as [_ Hb]; [|done].
  assert (Z.of_nat i + 1 = Z.of_nat j + 1); [|lia]. apply (Z.mul_reg_r _ _ (2 ^ 1074)); [apply Z.pow_nonzero; lia|]. congruence.
Qed.

(** One request after another on the same client, with what each returned. *)
Fixpoint request_all {T} undefined_int (calls : list (bytes * option value)) (c : mcp_client_t T)
    : M (list (mcp_status_t * option value) * option (mcp_client_t T)) :=
  match calls with
  | [] => ret ([], Some c)
  | (method, params) :: calls =>
      r <- mcp_client_request undefined_int (Some c) (Some method) params true ;;
      match r.2 with
      | None => ret ([r.1], None)
      | Some c => rs <- request_all undefined_int calls c ;; ret (r.1 :: rs.1, rs.2)
      end
  end.

Section runs.
Context {T : Type} (o : mcp_transport_ops_t T) {L : TransportLaws o} (undefined_int : Z).

Lemma request_all_ids calls : forall k (c : mcp_client_t T) h outs c' h',
  sound o (t c) -> valid_double (next_id c) = true -> next_id c = nth_id k -> Forall (fun call => owf call.2) calls ->
  request_all undefined_int calls c h = ((outs, c'), h') ->
  length outs = length calls /\ (exists cl, c' = Some cl /\ sound o (t cl) /\ next_id cl = nth_id (k + length calls)) /\
  forall i st res, outs !! i = Some (st, res) ->
    (exists m, wf_msg m /\ matches (nth_id (k + i)) m /\ delivered o m /\ told undefined_int true m st res) \/ (st <> MCP_OK /\ res = None).
Proof.
  induction calls as [|[method params] calls IH]; intros k c h outs c' h' Hx Hv Hk Hw H; cbn [request_all] in H.
  { apply ret_inv in H as [[= -> ->] ->]. split; [done|]. split; [|done]. exists c. by rewrite Nat.add_0_r. }
  apply Forall_cons in Hw as [Hp Hw]. apply bind_inv in H as (r & h1 & E & H).
  apply (request_sound o) in E as (st & res & c1 & -> & Hex & _ & Ho); [|done..]. cbn [fst snd] in H.
  apply bind_inv in H as ([outs1 c2] & h2 & E2 & H). apply ret_inv in H as [[= -> ->] ->].
  apply (IH (S k)) in E2 as (Hlen & (cl & -> & Hs & Hid) & Hall);
    [|apply Hex|by eapply exchanged_valid|by rewrite (proj2 Hex), Hk; unfold nth_id; rewrite Nat.iter_succ|done].
  split; [by cbn; rewrite Hlen|]. split; [exists cl; split; [done|]; split; [done|]; cbn [length]; by rewrite Hid, Nat.add_succ_r|].
  intros [|i] st1 res1 Hi; cbn in Hi.
  - injection Hi as <- <-. by rewrite Nat.add_0_r, <- Hk.
  - rewrite Nat.add_succ_r. by apply Hall.
Qed.
End runs.

(** ** Requests of the server *)

(** The callback that serves a method. *)
Definition provider {T} (c : mcp_client_t T) (method : bytes) (params : option value) : option (M (option value)) :=
  if streq method (cs "roots/list") then roots_fn c
  else if streq method (cs "sampling/createMessage") then (fun f => f params) <$> sample_fn c
  else if streq method (cs "elicitation/create") then (fun f => f params) <$> elicitation_fn c
  else None.

Definition provider_ok (fn : M (option value)) : Prop := forall h r h', fn h = (r, h') -> hstep h h' (oblocks r) /\ owf r.

(** [m] is the refusal of [req]. *)
Definition refuses (m : mcp_message_t) : Prop := mcp_message_error_code (Some m) = Some (Some MCP_RPC_METHOD_NOT_FOUND).

(** [m] carries what the provider said, or refuses. *)
Definition provides (fn : option (M (option value))) (m : mcp_message_t) : Prop :=
  match fn with
  | None => refuses m
  | Some fn => exists h r h', fn h = (r, h') /\
      match r with Some v => erase <$> mcp_message_result (Some m) = Some (erase v) | None => refuses m end
  end.

Lemma refuse_spec req text h resp h' :
  wf_msg req -> utf8_valid (cstr text) = true ->
  mcp_response_err_new (Some req) MCP_RPC_METHOD_NOT_FOUND (Some text) None h = (resp, h') ->
  hstep h h' (omsg_blocks resp) /\
  match resp with
  | Some m => wf_msg m /\ mcp_message_kind (Some m) = MCP_MSG_RESPONSE /\ reply_id (Some m) = reply_id (Some req) /\ refuses m
  | None => ~ ample h
  end.
Proof.
  intros Hq Hu H. destruct resp as [m|].
  - apply response_err_reads in H as (Hs & Hw & Hk & Hi & He & _); [by split|done|done].
  - apply response_err_builds in H as [Hs Hn]; [|done..]. split; [by destruct Hs|]. intros A. by apply Hn.
Qed.

Lemma provide_spec req fn text h st resp h' :
  wf_msg req -> from_option provider_ok True fn -> utf8_valid (cstr text) = true -> provide req fn text h = ((st, resp), h') ->
  hstep h h' (omsg_blocks resp) /\
  match resp with
  | Some m => st = MCP_OK /\ wf_msg m /\ mcp_message_kind (Some m) = MCP_MSG_RESPONSE /\
      reply_id (Some m) = reply_id (Some req) /\ provides fn m
  | None => st = MCP_ERR_NOMEM /\ ~ ample h
  end.
Proof.
  intros Hq Hfn Hu H. unfold provide in H. cbv zeta in H. destruct fn as [fn|].
  2:{ apply bind_inv in H as (r1 & h1 & E & H). apply refuse_spec in E as [Hs Hr]; [|done..]. apply ret_inv in H as [[= -> ->] ->].
      split; [done|]. destruct r1 as [m|]; [|done]. by destruct Hr as (? & ? & ? & ?). }
  apply bind_inv in H as (res & h1 & E & H). pose proof E as Erun. apply Hfn in E as [Hs1 Hw1]. destruct res as [v|].
  - apply bind_inv in H as (r2 & h2 & E2 & H). apply response_ok_contract in E2; [|done..]. destruct r2 as [m|].
    + destruct E2 as (Hs2 & Hw & Hk & Hi & Hres). apply ret_inv in H as [[= -> ->] ->].
      split; [eapply hstep_trans; [exact Hs1|exact Hs2|cbn; lia]|]. do 4 (split; [done|]). by exists h, (Some v), h1.
    + destruct E2 as [Hs2 Hna]. apply bind_inv in H as (u & h3 & E3 & H). apply builtin_destroy_hstep in E3.
      apply ret_inv in H as [[= -> ->] ->]. pose proof (hstep_trans _ _ _ _ _ _ Hs1 Hs2 eq_refl) as Hs.
      split; [eapply hstep_trans; [exact Hs|exact E3|cbn; lia]|]. split; [done|]. intros A. apply Hna. by eapply ample_hstep.
  - apply bind_inv in H as (r2 & h2 & E2 & H). apply refuse_spec in E2 as [Hs2 Hr]; [|done..]. apply ret_inv in H as [[= -> ->] ->].
    split; [eapply hstep_trans; [exact Hs1|exact Hs2|cbn; lia]|]. destruct r2 as [m|].
    + destruct Hr as (Hw & Hk & Hi & Href). do 4 (split; [done|]). by exists h, None, h1.
    + split; [done|]. intros A. apply Hr. by eapply ample_hstep.
Qed.

Lemma handle_spec {T} (c : mcp_client_t T) req method h st resp h' :
  wf_msg req -> mcp_message_method (Some req) = Some method ->
  from_option provider_ok True (provider c method (mcp_message_params (Some req))) ->
  mcp_client_handle_server_request (Some c) (Some req) h = ((st, resp), h') ->
  hstep h h' (omsg_blocks resp) /\
  match resp with
  | Some m => st = MCP_OK /\ wf_msg m /\ mcp_message_kind (Some m) = MCP_MSG_RESPONSE /\
      reply_id (Some m) = reply_id (Some req) /\ provides (provider c method (mcp_message_params (Some req))) m
  | None => st = MCP_ERR_NOMEM /\ ~ ample h
  end.
Proof.
  intros Hq Hm Hp H. cbn [mcp_client_handle_server_request] in H. rewrite Hm in H. cbv zeta in H. unfold provider in *.
  destruct (streq method (cs "roots/list")); [by apply provide_spec in H|].
  destruct (streq method (cs "sampling/createMessage")); [by apply provide_spec in H|].
  destruct (streq method (cs "elicitation/create")); by apply provide_spec in H.
Qed.

(** ** Theorems *)

(** C11: The exchange contract, over any transport that keeps its laws and
    whatever the allocator does: [mcp_client_request] uses the id up, changes
    nothing else of the client, leaks nothing and owns nothing of what it
    returns; a status other than an error is reported only when the
    transport delivered a response that carries the id of this request, and
    then the caller gets a copy of its result, or the status of its error
    code; everything else that arrives is refused. *)
Theorem client_request_contract {T} (o : mcp_transport_ops_t T) {L : TransportLaws o} undefined_int
    (c : mcp_client_t T) method params result_out h r h' :
  sound o (t c) -> valid_double (next_id c) = true -> owf params ->
  mcp_client_request undefined_int (Some c) (Some method) params result_out h = (r, h') ->
  exists st res c', r = (st, res, Some c') /\ exchanged o c c' /\
    hstep h h' (oblocks res + (tsize o c' - tsize o c) - oblocks params) /\
    ((exists m, wf_msg m /\ matches (next_id c) m /\ delivered o m /\ told undefined_int result_out m st res) \/
     (st <> MCP_OK /\ res = None)).
Proof. apply request_sound. Qed.

(** C35: The answers to the requests of a client are not mixed up.  A client
    fresh from [mcp_client_create], over any transport that keeps its laws and
    whatever the allocator does, makes fewer than 2^53 - 1 requests with
    well-formed parameters, one after another: afterwards its next id is their number plus one, and every one
    of them, the i-th say, either failed without a result or got what a
    delivered response with the id i says; that response is accepted for the
    i-th request only, for no earlier and no later one. *)
Theorem client_ids_distinct {T} (o : mcp_transport_ops_t T) {L : TransportLaws o} undefined_int (x : mcp_transport_t T) c calls h0 h outs c' h' :
  sound o x -> mcp_client_create (Some x) h0 = (Some c, h) ->
  Forall (fun call => owf call.2) calls -> Z.of_nat (length calls) < 2 ^ 53 - 1 ->
  request_all undefined_int calls c h = ((outs, c'), h') ->
  length outs = length calls /\
  (exists cl, c' = Some cl /\ sound o (t cl) /\ next_id cl = double_of_Z (Z.of_nat (length calls) + 1)) /\
  forall i st res, outs !! i = Some (st, res) ->
    (exists m, wf_msg m /\ delivered o m /\ matches (double_of_Z (Z.of_nat i + 1)) m /\ told undefined_int true m st res /\
       forall j, (j < length calls)%nat -> matches (double_of_Z (Z.of_nat j + 1)) m -> j = i) \/
    (st <> MCP_OK /\ res = None).
Proof.
  intros Hx Hc Hw Hn H. cbn [mcp_client_create] in Hc. apply bind_inv in Hc as (ok & h1 & _ & Hc).
  destruct ok; cbn [negb] in Hc; apply ret_inv in Hc as [[=] _]; subst c.
  apply (request_all_ids o undefined_int calls 0) in H as (Hlen & (cl & -> & Hs & Hid) & Hall); [|done..].
  split; [done|]. split; [exists cl; by rewrite Hid, nth_id_exact by lia|]. intros i st res Hi.
  assert (i < length calls)%nat as Hlt by (rewrite <- Hlen; by eapply lookup_lt_Some).
  destruct (Hall i st res Hi) as [(m & Hm & Hma & Hd & Ht)|?]; [left|by right]. exists m.
  rewrite <- nth_id_exact by lia. do 4 (split; [done|]). intros j Hj. rewrite <- nth_id_exact by lia. intros Hmj.
  eapply (ids_distinct j i m); [lia|lia|done|done].
Qed.

(** From 2^53 on the ids repeat. *)
Theorem client_ids_stop : succ_id (double_of_Z (2 ^ 53)) = double_of_Z (2 ^ 53).
Proof. vm_compute. reflexivity. Qed.

(** C21: A tool call over several round trips ends: with memory, whatever the
    server answers and the callback returns, [mcp_client_call_tool_mrtr]
    sends at most six requests; with a callback the caller never gets a
    request for input, and the arguments, the answers and the request states
    are all released. *)
Theorem mrtr_call_bounded {T} (o : mcp_transport_ops_t T) {L : TransportLaws o} undefined_int
    (c : mcp_client_t T) name args result_out h r h' :
  ample h -> sound o (t c) -> valid_double (next_id c) = true -> owf args -> mrtr_ok c ->
  mcp_client_call_tool_mrtr undefined_int (Some c) (Some name) args result_out h = (r, h') ->
  exists n, (n <= 6)%nat /\ called o c n (oblocks args) result_out h r h'.
Proof.
  intros A Hx Hv Ha Hm H. apply (hops_ample o) in H as (n & Hn & Hc); [|done..]. exists n. split; [exact Hn|].
  replace (oblocks args) with (oblocks args + oblocks None + state_blocks None); [done|cbn; lia].
Qed.

(** Requests of the server are answered: for a request with a method the
    client builds one response with the id of the request, which carries what
    the callback for that method returned, or the code -32601 when there is
    no such callback or it declines; it fails only without memory, and leaks
    nothing. *)
Theorem server_request_answered {T} (c : mcp_client_t T) req method h st resp h' :
  wf_msg req -> mcp_message_method (Some req) = Some method ->
  from_option provider_ok True (provider c method (mcp_message_params (Some req))) ->
  mcp_client_handle_server_request (Some c) (Some req) h = ((st, resp), h') ->
  hstep h h' (omsg_blocks resp) /\
  match resp with
  | Some m => st = MCP_OK /\ wf_msg m /\ mcp_message_kind (Some m) = MCP_MSG_RESPONSE /\
      reply_id (Some m) = reply_id (Some req) /\ provides (provider c method (mcp_message_params (Some req))) m
  | None => st = MCP_ERR_NOMEM /\ ~ ample h
  end.
Proof. apply handle_spec. Qed.

(** An error response with the code 0 is reported as a success without a
    result. *)
Theorem code_zero_is_ok :
  let x := Transport kStdioOps (Some (Backend (Some [Bytes_ (js "{'jsonrpc':'2.0','id':1,'error':{'code':0,'message':'no'}}" ++ [newline])])
    (Some (Output [] [])) [])) 0 0 in
  (mcp_client_request 0 (Some (Client x (double_of_Z 1) None None None None None None)) (Some (cs "ping")) None true fresh_heap).1.1
  = (MCP_OK, None).
Proof. vm_compute. reflexivity. Qed.

(** ** Witnesses *)

(** A client over a line transport with this input. *)
Definition line_client (input : bytes) (fn : option (option value -> option bytes -> M (option value))) : mcp_client_t stdio_backend_t :=
  Client (Transport kStdioOps (Some (Backend (Some [Bytes_ input]) (Some (Output [] [])) [])) 0 0) (double_of_Z 1)
    None (Some (builtin_new_bool true)) None None fn None.

Lemma line_client_sound input fn : 0 < Z.of_nat (length input) <= 4096 -> sound kStdioOps (t (line_client input fn)).
Proof. intros H. split; [done|]. change (Forall event_ok [Bytes_ input]). by rewrite Forall_singleton. Qed.

Definition pong : bytes := js "{'jsonrpc':'2.0','id':1,'result':{'ok':true}}" ++ [newline].

Lemma pong_small : 0 < Z.of_nat (length pong) <= 4096.
Proof. vm_compute. split; [reflexivity|discriminate]. Qed.

Example pong_received :
  match (mcp_client_request 0 (Some (line_client pong None)) (Some (cs "ping")) None true fresh_heap).1 with
  | (st, Some v, Some c) => st = MCP_OK /\ erase v = JObject [(cs "ok", JBool true)] /\ next_id c = double_of_Z 2
  | _ => False
  end.
Proof. vm_compute. done. Qed.

Lemma client_request_contract_witness :
  exists r h', mcp_client_request 0 (Some (line_client pong None)) (Some (cs "ping")) None true fresh_heap = (r, h') /\
  exists st res c', r = (st, res, Some c') /\ exchanged kStdioOps (line_client pong None) c' /\
    hstep fresh_heap h' (oblocks res + (tsize kStdioOps c' - tsize kStdioOps (line_client pong None)) - 0) /\
    ((exists m, wf_msg m /\ matches (double_of_Z 1) m /\ delivered kStdioOps m /\ told 0 true m st res) \/ (st <> MCP_OK /\ res = None)).
Proof.
  eexists _, _. split; [apply surjective_pairing|].
  apply (client_request_contract kStdioOps 0 (line_client pong None) (cs "ping") None true fresh_heap);
    [apply line_client_sound, pong_small|vm_compute; reflexivity|exact I|apply surjective_pairing].
Defined.

(** Three requests; the answers to the last two come in the wrong order. *)
Definition pongs : bytes :=
  pong ++ js "{'jsonrpc':'2.0','id':3,'result':{}}" ++ [newline] ++ js "{'jsonrpc':'2.0','id':2,'result':{}}" ++ [newline].

Definition pings : list (bytes * option value) := [(cs "ping", None); (cs "ping", None); (cs "ping", None)].

Example pings_answered :
  match mcp_client_create (Some (t (line_client pongs None))) fresh_heap with
  | (Some c, h) => map fst (request_all 0 pings c h).1.1 = [MCP_OK; MCP_ERR_PROTOCOL; MCP_ERR_PROTOCOL]
  | _ => False
  end.
Proof. vm_compute. reflexivity. Qed.

Lemma client_ids_distinct_witness :
  exists c h outs c' h', mcp_client_create (Some (t (line_client pongs None))) fresh_heap = (Some c, h) /\
  request_all 0 pings c h = ((outs, c'), h') /\
  length outs = length pings /\
  (exists cl, c' = Some cl /\ sound kStdioOps (t cl) /\ next_id cl = double_of_Z (Z.of_nat (length pings) + 1)) /\
  forall i st res, outs !! i = Some (st, res) ->
    (exists m, wf_msg m /\ delivered kStdioOps m /\ matches (double_of_Z (Z.of_nat i + 1)) m /\ told 0 true m st res /\
       forall j, (j < length pings)%nat -> matches (double_of_Z (Z.of_nat j + 1)) m -> j = i) \/
    (st <> MCP_OK /\ res = None).
Proof.
  eexists _, _, _, _, _. split; [reflexivity|]. split; [rewrite <- !surjective_pairing; reflexivity|].
  eapply (client_ids_distinct kStdioOps 0 (t (line_client pongs None)) _ pings fresh_heap);
    [apply line_client_sound; vm_compute; split; [reflexivity|discriminate]|reflexivity|repeat constructor|cbn; lia
    |rewrite <- !surjective_pairing; reflexivity].
Defined.

(** The server asks for input, then answers. *)
Definition asks : bytes :=
  js "{'jsonrpc':'2.0','id':1,'result':{'resultType':'input_required','requestState':'s'}}" ++ [newline] ++
  js "{'jsonrpc':'2.0','id':2,'result':{'ok':true}}" ++ [newline].

Lemma bool_provided : provider_ok (builtin_new_bool true).
Proof. intros h r h' H. apply bool_new_attempt in H as [Hs Hr]. split; [done|]. destruct r; [by destruct Hr|done]. Qed.

Definition says_yes (reqs : option value) (state : option bytes) : M (option value) := builtin_new_bool true.

Example asked_twice :
  match (mcp_client_call_tool_mrtr 0 (Some (line_client asks (Some says_yes))) (Some (cs "echo")) None true fresh_heap).1 with
  | (st, Some v, Some c) => st = MCP_OK /\ erase v = JObject [(cs "ok", JBool true)] /\ next_id c = double_of_Z 3
  | _ => False
  end.
Proof. vm_compute. done. Qed.

Lemma mrtr_call_bounded_witness :
  exists r h', mcp_client_call_tool_mrtr 0 (Some (line_client asks (Some says_yes))) (Some (cs "echo")) None true fresh_heap = (r, h') /\
  exists n, (n <= 6)%nat /\ called kStdioOps (line_client asks (Some says_yes)) n 0 true fresh_heap r h'.
Proof.
  eexists _, _. split; [apply surjective_pairing|].
  apply (mrtr_call_bounded kStdioOps 0 (line_client asks (Some says_yes)) (cs "echo") None true fresh_heap);
    [exact fresh_ample|apply line_client_sound; vm_compute; split; [reflexivity|discriminate]|vm_compute; reflexivity|exact I| |apply surjective_pairing].
  intros reqs state. exact bool_provided.
Defined.

Lemma server_request_answered_witness :
  exists st resp h', mcp_client_handle_server_request (Some (line_client pong None))
    (Some (Message (doc "{'jsonrpc':'2.0','id':7,'method':'roots/list'}"))) fresh_heap = ((st, resp), h') /\
  hstep fresh_heap h' (omsg_blocks resp) /\
  match resp with
  | Some m => st = MCP_OK /\ wf_msg m /\ mcp_message_kind (Some m) = MCP_MSG_RESPONSE /\
      reply_id (Some m) = reply_id (Some (Message (doc "{'jsonrpc':'2.0','id':7,'method':'roots/list'}"))) /\
      provides (Some (builtin_new_bool true)) m
  | None => st = MCP_ERR_NOMEM /\ ~ ample fresh_heap
  end.
Proof.
  eexists _, _, _. split; [rewrite <- !surjective_pairing; reflexivity|].
  apply (server_request_answered (line_client pong None) (Message (doc "{'jsonrpc':'2.0','id':7,'method':'roots/list'}")) (cs "roots/list") fresh_heap);
    [split; [apply doc_wf|eexists; vm_compute; reflexivity]|vm_compute; reflexivity| |rewrite <- !surjective_pairing; reflexivity].
  exact bool_provided.
Defined.
