(* ===== verification/Paging.v ===== *)
(** * Listing the tools page by page (src/client/client.c, lines 248-309)

    The loop of [mcp_client_list_tools]: what it returns is what the pages
    held, and it goes on exactly as long as the server names a next page. *)
From S2P Require Import Prelude Heap Utf8 Double JsonValue JsonParse JsonGrammar JsonNumber JsonSerialize JsonApi Schema Message Initialize Validate Builders Mrtr Transport Client Stdio Exchange.

Local Open Scope Z_scope.

(** What a page adds, and whether it names a next one. *)
Definition page_tools (page : option value) : list json :=
  match builtin_object_get page (Some (cs "tools")) with Some (VArray _ items) => map erase items | _ => [] end.

Definition next_cursor (page : option value) : option bytes :=
  builtin_get_string (builtin_object_get page (Some (cs "nextCursor"))).

Section pages.
Context {T : Type} (o : mcp_transport_ops_t T) {L : TransportLaws o} (undefined_int : Z).
Implicit Types c : mcp_client_t T.

(** A page the server sent. *)
Definition page_sent (page : option value) : Prop :=
  exists m, wf_msg m /\ delivered o m /\ told undefined_int true m MCP_OK page.

(** A request for a page with these parameters, and what came of it. *)
Definition fetches c params (st : mcp_status_t) page c' : Prop :=
  exists h h', mcp_client_request undefined_int (Some c) (Some (cs "tools/list")) params true h = ((st, page, Some c'), h').

(** [pages] have been asked for, each with the cursor that the one before it
    named, and the last of them named the cursor of [params']. *)
Inductive asked : mcp_client_t T -> option value -> list (option value) -> mcp_client_t T -> option value -> Prop :=
| asked_none c params : asked c params [] c params
| asked_next c params page c1 cursor next pages c' params' :
    fetches c params MCP_OK page c1 -> page_sent page -> next_cursor page = Some cursor ->
    wf next -> erase next = JObject [(cs "cursor", JString cursor)] ->
    asked c1 (Some next) pages c' params' -> asked c params (page :: pages) c' params'.

Lemma told_wf m st page : told undefined_int true m st page -> owf page.
Proof. unfold told. destruct (error_status _ _); [by intros [_ ->]|]. destruct page; naive_solver. Qed.

Lemma page_member_wf page key v : owf page -> good_string key -> builtin_object_get page (Some key) = Some v -> wf v.
Proof.
  intros Hw Hk H. destruct page as [page|]; [|done]. destruct page as [| | | | |c ms]; try done.
  pose proof (object_get_cases c ms key Hw Hk) as Hg. rewrite H in Hg. naive_solver.
Qed.

Lemma items_wf cap items x : wf (VArray cap items) -> x ∈ items -> wf x.
Proof. intros Hw Hx. rewrite wf_array in Hw. destruct Hw as [_ Hw]. rewrite Forall_forall in Hw. by apply Hw. Qed.

Lemma add_page_ample page acc l h r h' :
  ample h -> owf page -> wf acc -> erase acc = JArray l -> add_page page acc h = (r, h') ->
  exists v, r = Some v /\ wf v /\ erase v = JArray (l ++ page_tools page) /\ hstep h h' (blocks v - blocks acc).
Proof.
  intros A Hp Hw Hl H. unfold add_page, page_tools in *. destruct (builtin_object_get page (Some (cs "tools"))) as [tv|] eqn:Eg.
  2:{ apply ret_inv in H as [-> ->]. exists acc. rewrite app_nil_r. do 3 (split; [done|]). eapply hstep_eq; [apply hstep_refl|lia]. }
  assert (wf tv) as Hwt by (by eapply (page_member_wf _ (cs "tools")); [exact Hp|lit|]).
  destruct tv as [| | | |cap items|]; try (apply ret_inv in H as [-> ->]; exists acc; rewrite app_nil_r; do 3 (split; [done|]);
    eapply hstep_eq; [apply hstep_refl|lia]).
  assert (yields any_policy (fun v => blocks v + oblocks page) (fun v => wf v /\ erase v = JArray (l ++ map erase items)) True
    (blocks acc + oblocks page) True (append_all (fun x => json_clone (Some x)) items acc
        (fun acc => builtin_destroy page ;; builtin_destroy (Some acc) ;; ret None) (fun acc => ret (Some acc)))) as Hy.
  { eapply (append_all_yields _ _ _ _ (fun x v => erase v = erase x)) with (ok1 := fun _ => True);
      [intros x Hx; by apply attempt_yields, clone_attempt; eapply items_wf|done|done|exact Hl| |].
    - intros arr' Hw' h0 r0 h1 H0. apply bind_inv in H0 as (u & h2 & E2 & H0). apply bind_inv in H0 as (u' & h3 & E3 & H0).
      apply ret_inv in H0 as [-> ->]. apply builtin_destroy_hstep in E2, E3. split; [done|]. eapply hstep_trans; [exact E2|exact E3|cbn; lia].
    - intros arr' vs Hw' He HQ h0 r0 h1 _ H0. apply ret_inv in H0 as [-> ->]. split; [intros _; eapply hstep_eq; [apply hstep_refl|cbn; lia]|].
      split; [done|]. split; [done|]. rewrite He. do 2 f_equal. clear -HQ. induction HQ; cbn; congruence. }
  destruct (Hy h r h' I H) as (Hs & _ & Hr). destruct r as [v|]; [|by destruct Hr]. destruct Hr as [Hwv Hev]. exists v.
  do 3 (split; [done|]). eapply hstep_eq; [by apply Hs; left|cbn; lia].
Qed.

Lemma one_member_ample key val h r h' :
  ample h -> wf val -> good_string key ->
  (o <- builtin_new_object ;;
   match o with
   | None => ret None
   | Some o => chk (object_set_take (Some o) key (Some val)) discard (fun o => ret (Some o))
   end) h = (r, h') ->
  exists v, r = Some v /\ wf v /\ erase v = JObject [(key, erase val)] /\ hstep h h' (blocks v - blocks val).
Proof.
  intros A Hw Hk H. apply bind_inv in H as (p & h1 & E & H). apply object_new_attempt in E as [Hs1 Hr].
  destruct p as [p|]; [|by destruct Hr]. destruct Hr as [Hwp Hep].
  eapply chk_ample in H as (v & h2 & Hwv & Hev & Hs2 & _ & H); [|by apply take_updates|done|by eapply ample_hstep].
  apply ret_inv in H as [-> ->]. exists v. split; [done|]. split; [done|]. split; [exact Hev|].
  eapply hstep_trans; [exact Hs1|exact Hs2|cbn; lia].
Qed.

Lemma cursor_params_ample cursor page acc h r h' :
  ample h -> utf8_valid (cstr cursor) = true -> cursor_params cursor page acc h = (r, h') ->
  exists v, r = Some v /\ wf v /\ erase v = JObject [(cs "cursor", JString (cstr cursor))] /\ hstep h h' (blocks v).
Proof.
  intros A Hu H. unfold cursor_params in H. cbv zeta in H. apply bind_inv in H as (p & h1 & E & H).
  apply object_new_attempt in E as [Hs1 Hr]. destruct p as [p|]; [|by destruct Hr]. destruct Hr as [Hwp Hep].
  assert (ample h1) as A1 by (by eapply ample_hstep). unfold put in H. apply bind_inv in H as (sv & h2 & E2 & H).
  apply string_new_attempt in E2 as [Hs2 Hv]. destruct sv as [sv|]; [|by destruct Hv]. destruct Hv as [Hwv Hev].
  pose proof (hstep_trans _ _ _ _ _ _ Hs1 Hs2 eq_refl) as Hs.
  eapply chk_ample in H as (v & h3 & Hw & He & Hs3 & _ & H); [|by apply take_updates; [..|lit]|done|by eapply ample_hstep].
  apply ret_inv in H as [-> ->]. exists v. split; [done|]. split; [done|]. split; [by rewrite He, Hev|]. eapply hstep_trans; [exact Hs|exact Hs3|cbn; lia].
Qed.

Lemma cursor_text page cursor : owf page -> next_cursor page = Some cursor -> utf8_valid (cstr cursor) = true /\ cstr cursor = cursor.
Proof.
  intros Hp H. unfold next_cursor in H. destruct (builtin_object_get page (Some (cs "nextCursor"))) as [v|] eqn:Eg; [|done].
  assert (wf v) as Hw by (by eapply (page_member_wf _ (cs "nextCursor")); [exact Hp|lit|]). destruct v as [| | |s| |]; try done.
  injection H as <-. destruct Hw as [Hn Hu]. rewrite (cstr_no_nul _ Hn). by split.
Qed.

(** How a listing that sends [n] requests, the first with [params], ends for
    the caller. *)
Definition listed c params n given (l : list json) (h : heap) (r : outcome) (h' : heap) : Prop :=
  exists st res c', r = (st, res, Some c') /\ moved o c c' /\ next_id c' = Nat.iter n succ_id (next_id c) /\
    hstep h h' (oblocks res + (tsize o c' - tsize o c) - given) /\
    exists pages c1 params1 last, n = S (length pages) /\ asked c params pages c1 params1 /\ fetches c1 params1 st last c' /\
    (if decide (st = MCP_OK) then
       page_sent last /\ next_cursor last = None /\ exists v, res = Some v /\ wf v /\
         erase v = JObject [(cs "tools", JArray (l ++ concat (map page_tools (pages ++ [last]))))]
     else res = None).

Lemma told_page m st page : wf_msg m -> delivered o m -> told undefined_int true m st page -> st = MCP_OK -> page_sent page.
Proof. intros Hw Hd Ht ->. by exists m. Qed.

Lemma listed_later c c1 params n given given1 page cursor next l h h1 r h' :
  exchanged o c c1 -> fetches c params MCP_OK page c1 -> page_sent page -> next_cursor page = Some cursor ->
  wf next -> erase next = JObject [(cs "cursor", JString cursor)] -> hstep h h1 (given1 + (tsize o c1 - tsize o c) - given) ->
  listed c1 (Some next) n given1 (l ++ page_tools page) h1 r h' -> listed c params (S n) given l h r h'.
Proof.
  intros Hex Hf Hps Hc Hw He Hs (st & res & c' & -> & Hm & Hid & Hs' & pages & c2 & params2 & last & -> & Has & Hl & Hr).
  exists st, res, c'. split; [done|]. split; [by eapply moved_trans; [apply Hex|]|].
  split; [rewrite Nat.iter_succ_r, <- (proj2 Hex); exact Hid|]. split; [eapply hstep_trans; [exact Hs|exact Hs'|lia]|].
  exists (page :: pages), c2, params2, last. split; [done|]. split; [by eapply asked_next|]. split; [done|].
  destruct (decide (st = MCP_OK)); [|done]. destruct Hr as (Hps' & Hn & v & -> & Hwv & Hev). do 2 (split; [done|]).
  exists v. split; [done|]. split; [done|]. cbn [app map concat]. by rewrite Hev, <- app_assoc.
Qed.

Lemma list_pages_ample fuel : forall c params acc l h r h',
  ample h -> sound o (t c) -> valid_double (next_id c) = true -> owf params -> wf acc -> erase acc = JArray l ->
  list_pages undefined_int fuel c params acc h = (r, h') ->
  match r with
  | Some r => exists n, (n <= fuel)%nat /\ listed c params n (oblocks params + blocks acc) l h r h'
  | None => exists pages c' params', length pages = fuel /\ asked c params pages c' params'
  end.
Proof.
  induction fuel as [|fuel IH]; intros c params acc l h r h' A Hx Hv Hp Hw Hl H; cbn [list_pages] in H.
  { apply ret_inv in H as [-> ->]. exists [], c, params. split; [done|constructor]. }
  apply bind_inv in H as (r1 & h1 & E & H). pose proof E as Ef. apply (request_sound o) in E as (st & page & c1 & -> & Hex & Hs1 & Ho); [|done..].
  assert (fetches c params st page c1) as Hft by (by exists h, h1). clear Ef.
  assert (ample h1) as A1 by (by eapply ample_hstep). destruct (decide (st = MCP_OK)) as [->|Hst].
  2:{ assert ((builtin_destroy (Some acc) ;; ret (Some (st, @None value, Some c1))) h1 = (r, h')) as H' by (by destruct st).
      apply bind_inv in H' as (u & h2 & E2 & H'). apply builtin_destroy_hstep in E2. apply ret_inv in H' as [-> ->].
      exists 1%nat. split; [lia|]. exists st, None, c1. split; [done|]. split; [apply Hex|]. split; [apply Hex|].
      assert (page = None) as -> by (by destruct Ho as [(m & _ & _ & _ & Ht)|[_ ->]]; [apply told_none in Ht|]).
      split; [eapply hstep_trans; [exact Hs1|exact E2|cbn; lia]|]. exists [], c, params, None. split; [done|].
      split; [constructor|]. split; [done|]. by rewrite decide_False. }
  destruct Ho as [(m & Hwm & Hma & Hde & Ht)|[? _]]; [|done]. pose proof (told_wf _ _ _ Ht) as Hwp.
  pose proof (told_page _ _ _ Hwm Hde Ht eq_refl) as Hps.
  apply bind_inv in H as (acc1 & h2 & E2 & H). apply (add_page_ample _ _ l) in E2 as (acc2 & -> & Hw2 & He2 & Hs2); [|done..].
  assert (ample h2) as A2 by (by eapply ample_hstep). pose proof (hstep_trans _ _ _ _ _ _ Hs1 Hs2 eq_refl) as Hs.
  change (builtin_get_string (builtin_object_get page (Some (cs "nextCursor")))) with (next_cursor page) in H.
  destruct (next_cursor page) as [cursor|] eqn:Ec.
  - destruct (cursor_text _ _ Hwp Ec) as [Hu Hcs]. apply bind_inv in H as (nx & h3 & E3 & H).
    apply cursor_params_ample in E3 as (v & -> & Hwv & Hev & Hs3); [|done..]. rewrite Hcs in Hev. apply bind_inv in H as (u & h4 & E4 & H).
    apply builtin_destroy_hstep in E4. pose proof (hstep_trans _ _ _ _ _ _ Hs Hs3 eq_refl) as K3.
    pose proof (hstep_trans _ _ _ _ _ _ K3 E4 eq_refl) as K4. pose proof (ample_hstep _ _ _ E4 (ample_hstep _ _ _ Hs3 A2)) as A4.
    apply IH with (l := l ++ page_tools page) in H; [|done|apply Hex|by eapply exchanged_valid|done..].
    destruct r as [r|].
    + destruct H as (n & Hn & Hli). exists (S n). split; [lia|].
      eapply listed_later; [exact Hex|done|done|done|done|done| |exact Hli]. eapply hstep_eq; [exact K4|cbn; lia].
    + destruct H as (pages & c2 & params2 & Hlen & Has). exists (page :: pages), c2, params2. split; [by cbn; rewrite Hlen|]. by eapply asked_next.
  - apply bind_inv in H as (u & h3 & E3 & H). apply builtin_destroy_hstep in E3. apply bind_inv in H as (res & h4 & E4 & H).
    apply one_member_ample in E4 as (v & -> & Hwv & Hev & Hs4); [|by eapply ample_hstep|done|lit]. apply ret_inv in H as [-> ->].
    pose proof (hstep_trans _ _ _ _ _ _ Hs E3 eq_refl) as K3.
    exists 1%nat. split; [lia|]. exists MCP_OK, (Some v), c1. split; [done|]. split; [apply Hex|]. split; [apply Hex|].
    split; [eapply hstep_trans; [exact K3|exact Hs4|cbn; lia]|]. exists [], c, params, page. split; [done|]. split; [constructor|].
    split; [done|]. rewrite decide_True by done. do 2 (split; [done|]). exists v. split; [done|]. split; [done|].
    rewrite Hev, He2. cbn. by rewrite app_nil_r.
Qed.
End pages.

(** ** Theorems *)

(** C22: Listing the tools collects every page: over any transport that keeps
    its laws and with an allocator that refuses nothing,
    [mcp_client_list_tools] first asks for a page without parameters and then,
    as long as the answer names a next cursor and not longer, with exactly
    that cursor.  With MCP_OK it returns an object (the callers and the tests
    read its member "tools") whose "tools" array holds the entries of the
    "tools" of all the pages in the order they came, each page the result of
    a response the transport delivered; otherwise it ends with the status of
    the request that failed and returns nothing; either way what it allocated
    on the way is released.  It is still running after [fuel] pages only if
    each of them named a next one. *)
Theorem list_tools_collects {T} (o : mcp_transport_ops_t T) {L : TransportLaws o} undefined_int fuel (c : mcp_client_t T) h r h' :
  ample h -> sound o (t c) -> valid_double (next_id c) = true ->
  mcp_client_list_tools undefined_int fuel (Some c) true h = (r, h') ->
  match r with
  | Some r => exists n, (n <= fuel)%nat /\ listed o undefined_int c None n 0 [] h r h'
  | None => exists pages c' params', length pages = fuel /\ asked o undefined_int c None pages c' params'
  end.
Proof.
  intros A Hx Hv H. cbn [mcp_client_list_tools] in H. apply bind_inv in H as (acc & h1 & E & H).
  apply array_new_attempt in E as [Hs1 Hr]. destruct acc as [acc|]; [|by destruct Hr]. destruct Hr as [Hw He].
  apply (list_pages_ample o undefined_int) with (l := []) in H; [|by eapply ample_hstep|done..]. destruct r as [r|]; [|done].
  destruct H as (n & Hn & st & res & c' & Hli & Hm & Hid & Hs2 & Hrest). exists n. split; [done|]. exists st, res, c'.
  do 3 (split; [done|]). split; [eapply hstep_trans; [exact Hs1|exact Hs2|cbn; lia]|exact Hrest].
Qed.

(** ** Witnesses *)

Definition two_pages : bytes :=
  js "{'jsonrpc':'2.0','id':1,'result':{'tools':[1,2],'nextCursor':'64'}}" ++ [newline] ++
  js "{'jsonrpc':'2.0','id':2,'result':{'tools':[3]}}" ++ [newline].

(** What comes back, and what was sent: the second request carries the cursor
    of the first page. *)
Example two_pages_listed :
  match (mcp_client_list_tools 0 2 (Some (line_client two_pages None)) true fresh_heap).1 with
  | Some (st, Some v, Some c) =>
      st = MCP_OK /\ erase v = JObject [(cs "tools", JArray (map (fun z => JNumber (double_of_Z z)) [1; 2; 3]))] /\
      (match backend (t c) with Some b => written <$> out_ b | None => None end) =
        Some (js "{'jsonrpc':'2.0','id':1,'method':'tools/list'}" ++ [newline] ++
              js "{'jsonrpc':'2.0','id':2,'method':'tools/list','params':{'cursor':'64'}}" ++ [newline])
  | _ => False
  end.
Proof. vm_compute. done. Qed.

Lemma list_tools_collects_witness :
  exists r h', mcp_client_list_tools 0 2 (Some (line_client two_pages None)) true fresh_heap = (r, h') /\
  match r with
  | Some r => exists n, (n <= 2)%nat /\ listed kStdioOps 0 (line_client two_pages None) None n 0 [] fresh_heap r h'
  | None => exists pages c' params', length pages = 2%nat /\ asked kStdioOps 0 (line_client two_pages None) None pages c' params'
  end.
Proof.
  eexists _, _. split; [apply surjective_pairing|].
  apply (list_tools_collects kStdioOps 0 2 (line_client two_pages None) fresh_heap);
    [exact fresh_ample|apply line_client_sound; vm_compute; split; [reflexivity|discriminate]|vm_compute; reflexivity|apply surjective_pairing].
Defined.
