(* ===== verification/Serve.v ===== *)
(** * The serve loop (src/transport/stdio.c, lines 323-457)

    One session over one transport: flush the outbox, read a line, answer
    it, until the input ends.  The transport is any that keeps the contract
    of [Transport]; the second half is about the line transport of [Stdio].
    The messages of the loop to the host's logger are left out. *)
From S2P Require Import Prelude Heap Utf8 Double JsonValue JsonParse JsonGrammar JsonNumber JsonSerialize JsonApi Schema Message Initialize Validate Builders Tasks Skills Mrtr Session Dispatcher Lifecycle Registry Server Routes RouteLaws Routing Serving Transport Client Stdio Exchange.

Local Open Scope Z_scope.

Section serve.
Context {T U : Type} (logger : option mcp_log_level_t).

(** The server, the session of the loop and the transport. *)
Record loop := Loop { l_srv : server; l_sess : mcp_session_t; l_t : mcp_transport_t T }.

Definition with_transport (l : loop) (x : mcp_transport_t T) : loop := Loop (l_srv l) (l_sess l) x.

(** How a turn of the loop ends. *)
Inductive turn := Continue (l : loop) | Stop (status : mcp_status_t) (l : loop).

Definition send_notification (x : mcp_transport_t T) (msg : mcp_message_t) : M (mcp_status_t * mcp_transport_t T) := post x msg.

Definition send_error (x : mcp_transport_t T) (code : Z) (text : bytes) : M (mcp_status_t * mcp_transport_t T) :=
  err <- mcp_response_err_new None code (Some text) None ;;
  match err with
  | None => ret (MCP_ERR_NOMEM, x)
  | Some err => post x err
  end.

(** The inner loop over the outbox. *)
Fixpoint flush (fuel : nat) (l : loop) : M turn :=
  match fuel with
  | O => ret (Continue l)
  | S fuel =>
      match mcp_server_outbox_pop (Some (rest (l_srv l))) true with
      | (MCP_OK, Some m, Some r) =>
          x <- send_notification (l_t l) m ;;
          let l := Loop (with_rest (l_srv l) r) (l_sess l) x.2 in
          match x.1 with MCP_OK => flush fuel l | st => ret (Stop st l) end
      | _ => ret (Continue l)
      end
  end.

Definition is_server_to_client (client : option (mcp_client_t U)) (method : option bytes) : bool :=
  match client, method with
  | Some _, Some m => streq m (cs "roots/list") || streq m (cs "sampling/createMessage") || streq m (cs "elicitation/create")
  | _, _ => false
  end.

(** The response to a request; [None] as for [mcp_server_dispatch]. *)
Definition respond (client : option (mcp_client_t U)) (l : loop) (msg : mcp_message_t)
    : M (option (mcp_status_t * option mcp_message_t * loop)) :=
  if is_server_to_client client (mcp_message_method (Some msg)) then
    r <- mcp_client_handle_server_request client (Some msg) ;; ret (Some (r.1, r.2, l))
  else
    r <- mcp_server_dispatch logger (Some (l_srv l)) (Some (l_sess l)) (Some msg) true ;;
    match r with
    | None => ret None
    | Some (inl st) => ret (Some (st, None, l))
    | Some (inr o) => ret (Some (o_status o, o_resp o, Loop (o_srv o) (o_session o) (l_t l)))
    end.

(** What is done with a line. *)
Definition serve_line (client : option (mcp_client_t U)) (l : loop) (line : bytes) : M (option turn) :=
  msg <- mcp_message_parse (Some (cstr line)) ;;
  xfree false ;;
  match msg with
  | None =>
      r <- send_error (l_t l) MCP_RPC_PARSE_ERROR (cs "Parse error") ;;
      let l := with_transport l r.2 in
      ret (Some (match r.1 with MCP_OK => Continue l | _ => Stop MCP_ERR_NOMEM l end))
  | Some msg =>
      match mcp_message_kind (Some msg) with
      | MCP_MSG_NOTIFICATION =>
          let '(_, srv, sess) := notify_checked logger (l_srv l) (l_sess l) msg in
          mcp_message_destroy (Some msg) ;; ret (Some (Continue (Loop srv sess (l_t l))))
      | MCP_MSG_REQUEST =>
          r <- respond client l msg ;;
          match r with
          | None => ret None
          | Some (st, resp, l) =>
              mcp_message_destroy (Some msg) ;;
              match st, resp with
              | MCP_OK, None => ret (Some (Continue l))
              | MCP_OK, Some resp =>
                  r <- post (l_t l) resp ;;
                  let l := with_transport l r.2 in
                  ret (Some (match r.1 with MCP_OK => Continue l | st => Stop st l end))
              | st, _ => ret (Some (Stop st l))
              end
          end
      | _ => mcp_message_destroy (Some msg) ;; ret (Some (Continue l))
      end
  end.

(** One turn; [shut] is what the two calls of [mcp_shutdown_requested]
    return.  A transport gives a line exactly with MCP_OK ([TransportLaws]),
    so the case of MCP_OK without one does not arise. *)
Definition serve_turn (shut : bool * bool) (client : option (mcp_client_t U)) (l : loop) : M (option turn) :=
  if shut.1 then ret (Some (Stop MCP_ERR_CANCELLED l)) else
  f <- flush (S (length (outbox (rest (l_srv l))))) l ;;
  match f with
  | Stop st l => ret (Some (Stop st l))
  | Continue l =>
      r <- mcp_transport_recv (Some (l_t l)) true ;;
      let '(st, line, x) := r in
      let l := with_transport l (default (l_t l) x) in
      match st, line with
      | MCP_OK, Some line => serve_line client l line
      | MCP_OK, None | MCP_ERR_IO, _ => ret (Some (Stop MCP_OK l))
      | MCP_ERR_TIMEOUT, _ => ret (Some (Stop (if shut.2 then MCP_ERR_CANCELLED else MCP_ERR_TIMEOUT) l))
      | st, _ => ret (Some (Stop st l))
      end
  end.

(** The loop, at most [fuel] turns. *)
Fixpoint serve_loop (fuel : nat) (shut : nat -> bool * bool) (client : option (mcp_client_t U)) (l : loop)
    : M (option (mcp_status_t * loop)) :=
  match fuel with
  | O => ret None
  | S fuel =>
      r <- serve_turn (shut O) client l ;;
      match r with
      | None => ret None
      | Some (Stop st l) => ret (Some (st, l))
      | Some (Continue l) => serve_loop fuel (fun k => shut (S k)) client l
      end
  end.

Definition set_sessions (ls : session_list) (s : server_rest) : server_rest :=
  Rest (srv_name s) (srv_version s) (tools s) (cap_tools s) (resources s) (cap_resources s) (prompts s) (cap_prompts s)
    (completions s) (cap_completions s) ls (c_tools_called s) (outbox s) (cap_outbox s) (next_server_id s)
    (subscribed_uris s) (cap_subscribed s) (list_ttl_ms s) (list_cache_scope s) (response_meta s) (task_mgr s) (skill_reg s).

(** With the session created before and destroyed after; [addr] is the
    address the allocator gives it. *)
Definition stdio_serve_impl (fuel : nat) (shut : nat -> bool * bool) (addr : nat) (srv : option server)
    (client : option (mcp_client_t U)) (x : option (mcp_transport_t T))
    : M (option (mcp_status_t * option server * option (mcp_transport_t T))) :=
  match srv, x with
  | Some srv, Some x =>
      s <- mcp_server_create_session (srv_sessions (rest srv)) addr ;;
      match s with
      | (None, ls) => ret (Some (MCP_ERR_NOMEM, Some (with_rest srv (set_sessions ls (rest srv))), Some x))
      | (Some sess, ls) =>
          r <- serve_loop fuel shut client (Loop (with_rest srv (set_sessions ls (rest srv))) sess x) ;;
          match r with
          | None => ret None
          | Some (st, l) =>
              let srv := l_srv l in
              ls <- mcp_server_destroy_session (srv_sessions (rest srv)) addr (l_sess l) ;;
              ret (Some (st, Some (with_rest srv (set_sessions ls (rest srv))), Some (l_t l)))
          end
      end
  | _, _ => ret (Some (MCP_ERR_INVALID_ARGUMENT, srv, x))
  end.

Definition mcp_stdio_serve fuel shut addr srv x := stdio_serve_impl fuel shut addr srv None x.

Definition mcp_stdio_serve_with_client fuel shut addr srv client x := stdio_serve_impl fuel shut addr srv client x.
End serve.
Arguments Loop {T}.
Arguments l_srv {T}.
Arguments l_sess {T}.
Arguments l_t {T}.
Arguments Continue {T}.
Arguments Stop {T}.

(** ** Over the line transport *)

Notation stdio_loop := (@loop stdio_backend_t).

Definition loop_ok (l : stdio_loop) : Prop := routes_inv (rest (l_srv l)) /\ IdSet.inv (ids (l_sess l)).

(** The blocks of the server, the session and the transport. *)
Definition loop_size (l : stdio_loop) : Z :=
  server_size (l_srv l) + session_blocks (l_sess l) + backend_size (backend (l_t l)).

(** The messages of the outbox, in the order they are sent. *)
Definition notes (srv : server) : bytes := concat (map (fun m => wire (erase (dom m))) (rev (outbox (rest srv)))).

(** The server with its outbox sent. *)
Definition drained (srv : server) : server := with_rest srv (set_outbox [] (cap_outbox (rest srv)) (rest srv)).

Lemma drained_empty srv : outbox (rest srv) = [] -> drained srv = srv.
Proof. intros E. destruct srv as [? ? ? ? ? ? ? r]. destruct r. cbn in E. subst. reflexivity. Qed.

Lemma set_outbox_inv l c s : routes_inv s -> Forall wf_msg l -> routes_inv (set_outbox l c s).
Proof. intros [] Hl. by split. Qed.

Lemma flush_line fuel : forall (l : stdio_loop) w p h f h',
  (length (outbox (rest (l_srv l))) < fuel)%nat -> loop_ok l -> line_at (l_t l) w p -> ample h -> flush fuel l h = (f, h') ->
  exists l', f = Continue l' /\ l_srv l' = drained (l_srv l) /\ l_sess l' = l_sess l /\ loop_ok l' /\
    line_at (l_t l') (w ++ notes (l_srv l)) p /\ hstep h h' (loop_size l' - loop_size l).
Proof.
  induction fuel as [|fuel IH]; intros l w p h f h' Hf [Hinv Hids] Hx A H; [lia|]. cbn [flush mcp_server_outbox_pop] in H.
  unfold notes. destruct (outbox (rest (l_srv l))) as [|m ob _] eqn:Eo using rev_ind; cbn [last] in H.
  { apply ret_inv in H as [-> ->]. exists l. split; [done|]. split; [by rewrite drained_empty|]. do 2 (split; [done|]). rewrite app_nil_r. split; [done|].
    eapply hstep_eq; [apply hstep_refl|lia]. }
  rewrite last_snoc in H. rewrite length_app in *. cbn [length] in *. replace (length ob + 1 - 1)%nat with (length ob) in H by lia.
  rewrite take_app_length in H. pose proof (outbox_ok _ Hinv) as Hob. rewrite Eo in Hob. apply Forall_app in Hob as [Hob Hm].
  rewrite Forall_singleton in Hm. unfold send_notification in H.
  apply bind_inv in H as ([st x] & h1 & E & H). apply (post_line _ w p) in E as (-> & Hx1 & Hb & Hs1); [|done..]. cbn [fst snd] in H.
  set (l1 := Loop _ _ x) in H. destruct (IH l1 (w ++ wire (erase (dom m))) p h1 f h') as (l' & -> & Hsrv & Hss & Hok & Hx' & Hs); try done.
  - cbn. lia.
  - split; [|done]. by apply set_outbox_inv.
  - by eapply ample_hstep.
  - exists l'. split; [done|]. split; [by rewrite Hsrv|]. do 2 (split; [done|]). split.
    + rewrite rev_app_distr. cbn [rev app map concat]. rewrite app_assoc. exact Hx'.
    + eapply hstep_trans; [exact Hs1|exact Hs|]. unfold loop_size, l1, server_size. cbn [l_srv l_sess l_t rest with_rest].
      rewrite Hb, size_set_outbox, Eo, sum_blocks_app. cbn. lia.
Qed.

(** ** What a line is answered with *)

Definition parse_error : json :=
  JObject (jinsert (cs "error") (JObject (error_members MCP_RPC_PARSE_ERROR (cs "Parse error") None))
             (jinsert (cs "id") JNull envelope)).

Section turns.
Context (logger : option mcp_log_level_t).
Notation serve_line := (serve_line (U := unit) logger None).
Notation serve_turn := (fun shut => serve_turn (U := unit) logger shut None).

Lemma send_error_line x w p h st x' h' :
  line_at x w p -> ample h -> send_error x MCP_RPC_PARSE_ERROR (cs "Parse error") h = ((st, x'), h') ->
  st = MCP_OK /\ line_at x' (w ++ wire parse_error) p /\ backend_size (backend x') = backend_size (backend x) /\ hstep h h' 0.
Proof.
  intros Hx A H. unfold send_error in H. apply bind_inv in H as (err & h1 & E & H).
  apply response_err_builds in E; [|done|done|done]. destruct err as [err|].
  - destruct E as (Hs & Hw & He). apply (post_line _ w p) in H as (-> & Hx' & Hb & Hs2); [|done|split; [done|by eexists]|by eapply ample_hstep].
    rewrite He in Hx'. split; [done|]. split; [exact Hx'|]. split; [done|]. eapply hstep_trans; [exact Hs|exact Hs2|cbn; lia].
  - destruct E as [_ Hna]. by destruct Hna.
Qed.

Lemma notify_loop (l : stdio_loop) m st srv sess :
  loop_ok l -> mcp_message_kind (Some m) = MCP_MSG_NOTIFICATION ->
  notify_checked logger (l_srv l) (l_sess l) m = (st, srv, sess) ->
  loop_ok (Loop srv sess (l_t l)) /\ loop_size (Loop srv sess (l_t l)) = loop_size l.
Proof.
  intros [Hinv Hids] Hk E. destruct (notify_keeps logger _ _ _ _ _ _ Hk E) as (_ & Hi & Hb).
  pose proof (notify_rest logger _ _ _ _ _ _ E) as Hr. split.
  - unfold loop_ok. cbn [l_srv l_sess]. by rewrite Hr, Hi.
  - unfold loop_size, server_size. cbn [l_srv l_sess l_t]. unfold dispatch_balance in Hb. rewrite Hr in *. cbn in Hb. lia.
Qed.

(** What a line makes of the server and the session, and what is sent for
    it: an error for a line that is no message, nothing for a notification
    or a response, and for a request the response of the dispatcher, which
    answers that request. *)
Inductive line_step (line : bytes) : server * mcp_session_t -> server * mcp_session_t -> bytes -> Prop :=
| step_malformed s : ~ is_message line -> line_step line s s (wire parse_error)
| step_notification srv sess m srv' sess' st :
    denotes line m -> mcp_message_kind (Some m) = MCP_MSG_NOTIFICATION ->
    notify_checked logger srv sess m = (st, srv', sess') -> line_step line (srv, sess) (srv', sess') []
| step_ignored s m :
    denotes line m -> mcp_message_kind (Some m) <> MCP_MSG_REQUEST ->
    mcp_message_kind (Some m) <> MCP_MSG_NOTIFICATION -> line_step line s s []
| step_request srv sess m o resp h h' :
    denotes line m -> mcp_message_kind (Some m) = MCP_MSG_REQUEST ->
    mcp_server_dispatch logger (Some srv) (Some sess) (Some m) true h = (Some (inr o), h') ->
    o_resp o = Some resp -> answers m resp ->
    line_step line (srv, sess) (o_srv o, o_session o) (wire (erase (dom resp))).

(** What a line leaves, in a loop that had one block for it. *)
Definition answered (l : stdio_loop) (line w p : bytes) (h : heap) (r : option turn) (h' : heap) : Prop :=
  exists l' reply, r = Some (Continue l') /\
    line_step (cstr line) (l_srv l, l_sess l) (l_srv l', l_sess l') reply /\ loop_ok l' /\
    line_at (l_t l') (w ++ reply) p /\ hstep h h' (loop_size l' - loop_size l - 1).

Lemma silent_ok (l l' : stdio_loop) line w p msg h h2 r h' :
  loop_ok l' -> loop_size l' = loop_size l -> line_at (l_t l') w p ->
  line_step (cstr line) (l_srv l, l_sess l) (l_srv l', l_sess l') [] -> hstep h h2 (msg_blocks msg - 1) ->
  (mcp_message_destroy (Some msg) ;; ret (Some (Continue l'))) h2 = (r, h') -> answered l line w p h r h'.
Proof.
  intros Hok Hsz Hx Hst Hs2 H. apply bind_inv in H as (u & h3 & E3 & H). apply ret_inv in H as [-> ->].
  apply message_destroy_hstep in E3. exists l', []. split; [done|]. split; [done|]. split; [done|].
  rewrite app_nil_r. split; [done|]. eapply hstep_trans; [exact Hs2|exact E3|cbn; lia].
Qed.

Lemma request_ok (l : stdio_loop) line w p msg h h2 r h' :
  loop_ok l -> line_at (l_t l) w p -> denotes (cstr line) msg -> mcp_message_kind (Some msg) = MCP_MSG_REQUEST ->
  hstep h h2 (msg_blocks msg - 1) -> ample h2 ->
  (r <- respond (U := unit) logger None l msg ;;
   match r with
   | None => ret None
   | Some (st, resp, l) =>
       mcp_message_destroy (Some msg) ;;
       match st, resp with
       | MCP_OK, None => ret (Some (Continue l))
       | MCP_OK, Some resp =>
           r <- post (l_t l) resp ;;
           let l := with_transport l r.2 in
           ret (Some (match r.1 with MCP_OK => Continue l | st => Stop st l end))
       | st, _ => ret (Some (Stop st l))
       end
   end) h2 = (r, h') -> answered l line w p h r h'.
Proof.
  intros [Hinv Hids] Hx Hden Hk Hs2 A2 H.
  apply bind_inv in H as (r1 & h3 & E3 & H). unfold respond in E3. cbn [is_server_to_client] in E3.
  apply bind_inv in E3 as (d & h4 & E4 & E3).
  assert (wf_msg msg) as Hw by (by destruct Hden). pose proof E4 as Ed.
  apply (dispatch_full (R := server_rest)) in E4 as (o & -> & Hst & _ & _ & _ & Hids' & Hinv' & Hbal); [|done..].
  specialize (Hbal A2). unfold status_of in Hst. destruct (o_resp o) as [resp|] eqn:Er; [|by destruct Hst]. destruct Hst as [Hst Hans].
  apply ret_inv in E3 as [-> ->]. rewrite Hst in H. apply bind_inv in H as (u & h5 & E5 & H). apply message_destroy_hstep in E5.
  apply bind_inv in H as ([st x] & h6 & E6 & H). cbn [l_t] in E6. unfold dispatch_balance in Hbal.
  pose proof (hstep_trans _ _ _ _ _ _ Hs2 Hbal eq_refl) as Hs4. pose proof (hstep_trans _ _ _ _ _ _ Hs4 E5 eq_refl) as Hs5.
  pose proof (ample_hstep _ _ _ E5 (ample_hstep _ _ _ Hbal A2)) as A5.
  apply (post_line _ w p) in E6 as (-> & Hx' & Hb & Hs6); [|done|by destruct Hans|done].
  apply ret_inv in H as [-> ->]. exists (with_transport (Loop (o_srv o) (o_session o) (l_t l)) x), (wire (erase (dom resp))).
  split; [done|]. split; [by eapply (step_request _ _ _ msg)|]. split; [done|]. split; [done|].
  eapply hstep_trans; [exact Hs5|exact Hs6|]. unfold loop_size, server_size. cbn [l_srv l_sess l_t with_transport omsg_blocks].
  rewrite Hb. cbn. lia.
Qed.

Lemma serve_line_ok (l : stdio_loop) w p line h r h' :
  loop_ok l -> line_at (l_t l) w p -> ample h -> serve_line l line h = (r, h') -> answered l line w p h r h'.
Proof.
  intros Hok Hx A H. unfold Serve.serve_line in H.
  apply bind_inv in H as (msg & h1 & E & H). apply message_parse_spec in E.
  apply bind_inv in H as ([] & h2 & E2 & H). apply xfree_hstep in E2. destruct msg as [msg|].
  - destruct E as (Hs & Hw & Hu & Hj & Hlen). assert (denotes (cstr line) msg) as Hden by done.
    assert (hstep h h2 (msg_blocks msg - 1)) as Hs2 by (eapply hstep_trans; [exact Hs|exact E2|lia]).
    assert (ample h2) as A2 by (by eapply ample_hstep).
    destruct (mcp_message_kind (Some msg)) eqn:Hk.
    2:{ by eapply request_ok. }
    2:{ destruct (notify_checked logger (l_srv l) (l_sess l) msg) as [[st srv] sess] eqn:En.
        destruct (notify_loop _ _ _ _ _ Hok Hk En) as [Hok' Hsz]. eapply silent_ok; [exact Hok'|exact Hsz|exact Hx|by eapply step_notification|exact Hs2|exact H]. }
    all: eapply silent_ok; [exact Hok|done|exact Hx|by apply (step_ignored _ _ msg); [|rewrite Hk..]|exact Hs2|exact H].
  - destruct E as [Hs Hn]. assert (hstep h h2 (-1)) as Hs2 by (eapply hstep_trans; [exact Hs|exact E2|lia]).
    apply bind_inv in H as ([st x] & h3 & E3 & H). apply (send_error_line _ w p) in E3 as (-> & Hx' & Hb & Hs3); [|done|by eapply ample_hstep].
    apply ret_inv in H as [-> ->]. exists (with_transport l x), (wire parse_error). split; [done|].
    split; [apply step_malformed; intros Hm; by apply Hn|]. split; [done|]. split; [done|].
    eapply hstep_trans; [exact Hs2|exact Hs3|]. unfold loop_size. cbn [l_srv l_sess l_t with_transport]. rewrite Hb. lia.
Qed.

(** ** Turns *)

Lemma serve_turn_ok shut (l : stdio_loop) w p h r h' :
  shut.1 = false -> loop_ok l -> line_at (l_t l) w p -> ample h ->
  (forall l rest, next_line p = Some (l, rest) -> short l) -> serve_turn shut l h = (r, h') ->
  match next_line p with
  | Some (ln, rest) =>
      exists l' reply, r = Some (Continue l') /\
        line_step (cstr (strip_cr ln)) (drained (l_srv l), l_sess l) (l_srv l', l_sess l') reply /\ loop_ok l' /\
        line_at (l_t l') (w ++ notes (l_srv l) ++ reply) rest /\ hstep h h' (loop_size l' - loop_size l)
  | None =>
      exists l', r = Some (Stop MCP_OK l') /\ l_srv l' = drained (l_srv l) /\ l_sess l' = l_sess l /\ loop_ok l' /\
        line_at (l_t l') (w ++ notes (l_srv l)) [] /\
        hstep h h' (loop_size l' - loop_size l)
  end.
Proof.
  intros Hsh Hok Hx A Hshort H. unfold Serve.serve_turn in H. rewrite Hsh in H. apply bind_inv in H as (f & h1 & E & H).
  apply (flush_line _ _ w p) in E as (l1 & -> & Hsrv & Hss & Hok1 & Hx1 & Hs1); [|lia|done..]. assert (ample h1) as A1 by (by eapply ample_hstep).
  apply bind_inv in H as ([[st line] x] & h2 & E2 & H). apply (recv_stdio _ _ _ _ _ _ _ _ Hx1 A1 Hshort) in E2 as (x1 & -> & Hs2 & Hr).
  cbn [default from_option id] in H. set (l2 := with_transport l1 x1) in H. assert (loop_ok l2) as Hok2 by done.
  assert (hstep h h2 (line_size line + (loop_size l2 - loop_size l))) as Hs.
  { eapply hstep_trans; [exact Hs1|exact Hs2|]. unfold l2, loop_size. cbn [l_srv l_sess l_t with_transport]. lia. }
  destruct (next_line p) as [[ln rest]|]; destruct Hr as (-> & -> & Hx2).
  - apply (serve_line_ok l2 (w ++ notes (l_srv l)) rest) in H as (l3 & reply & -> & Hrep & Hok3 & Hx3 & Hs3); [|done|done|by eapply ample_hstep].
    exists l3, reply. split; [done|]. split; [by rewrite <- Hsrv, <- Hss|]. split; [done|]. rewrite app_assoc. split; [done|].
    eapply hstep_trans; [exact Hs|exact Hs3|cbn; lia].
  - apply ret_inv in H as [-> ->]. exists l2. do 5 (split; [done|]). eapply hstep_eq; [exact Hs|cbn; lia].
Qed.

(** A whole conversation, on the server and the session alone: before each
    line the notes of the outbox are sent, then what the line is answered
    with; at the end the notes that are left. *)
Inductive transcript : server * mcp_session_t -> list bytes -> server * mcp_session_t -> bytes -> Prop :=
| transcript_end srv sess : transcript (srv, sess) [] (drained srv, sess) (notes srv)
| transcript_line srv sess line reply s1 lines s2 out :
    line_step line (drained srv, sess) s1 reply -> transcript s1 lines s2 out ->
    transcript (srv, sess) (line :: lines) s2 (notes srv ++ reply ++ out).

(** The lines of the input as [strlen] measures them. *)
Definition input_lines (p : bytes) : list bytes := map (fun l => cstr (strip_cr l)) (split_lines p).

Lemma serve_loop_ok fuel : forall shut (l : stdio_loop) w p h r h',
  (forall k, (shut k).1 = false) -> loop_ok l -> line_at (l_t l) w p -> ample h ->
  Forall short (split_lines p) -> (length p < fuel)%nat -> serve_loop (U := unit) logger fuel shut None l h = (r, h') ->
  exists l' out, r = Some (MCP_OK, l') /\
    transcript (l_srv l, l_sess l) (input_lines p) (l_srv l', l_sess l') out /\ loop_ok l' /\
    line_at (l_t l') (w ++ out) [] /\ hstep h h' (loop_size l' - loop_size l).
Proof.
  induction fuel as [|fuel IH]; intros shut l w p h r h' Hsh Hok Hx A Hshort Hf H; [lia|]. cbn [serve_loop] in H.
  apply bind_inv in H as (r1 & h1 & E & H). unfold input_lines. rewrite split_lines_next in *.
  apply (serve_turn_ok _ l w p) in E; [|done..|].
  2:{ intros ln rest Hn. rewrite Hn in Hshort. by apply Forall_cons in Hshort as [? _]. }
  destruct (next_line p) as [[ln rest]|] eqn:Hn.
  - destruct E as (l1 & reply & -> & Hrep & Hok1 & Hx1 & Hs1). apply Forall_cons in Hshort as [_ Hshort].
    apply next_line_shorter in Hn. apply (IH _ l1 (w ++ notes (l_srv l) ++ reply) rest) in H as (l' & out & -> & Htr & Hok' & Hx' & Hs); [|done..|by eapply ample_hstep|done|lia].
    exists l', (notes (l_srv l) ++ reply ++ out). split; [done|]. split; [by eapply transcript_line|]. split; [done|].
    rewrite <- !app_assoc in Hx'. split; [exact Hx'|]. eapply hstep_trans; [exact Hs1|exact Hs|lia].
  - destruct E as (l1 & -> & Hsrv & Hss & Hok1 & Hx1 & Hs1). apply ret_inv in H as [-> ->]. exists l1, (notes (l_srv l)).
    split; [done|]. rewrite Hsrv, Hss. split; [constructor|]. done.
Qed.
End turns.

(** ** The session list

    Handlers do not create or destroy sessions: a request leaves
    [srv->sessions] as it was, so the session of the loop is still listed
    when it ends. *)

(** The list of the server is the same. *)
Definition same_list (srv srv' : server) : Prop := srv_sessions (rest srv') = srv_sessions (rest srv).

Lemma same_rest srv srv' : rest srv' = rest srv -> same_list srv srv'.
Proof. unfold same_list. by intros ->. Qed.

Lemma dlogf_rest logger level text (srv : server) : rest (dlogf_srv logger level text srv) = rest srv.
Proof. by destruct (dlogf_core logger level text srv) as (_ & _ & _ & _ & _ & ->). Qed.

Lemma trace_rest e (srv : server) : rest (trace e srv) = rest srv.
Proof. unfold trace. by destruct (tracer srv). Qed.

Section keeps.
Context (logger : option mcp_log_level_t).

Lemma tools_call_list srv s req h r srv' s' h' : route_tools_call logger srv s req h = ((r, srv', s'), h') -> same_list srv srv'.
Proof.
  intros H. unfold route_tools_call in H. apply bind_inv in H as (c & h1 & _ & H). destruct c as [[code text]|[tool name]].
  - apply bind_inv in H as (? & ? & _ & H). apply ret_inv in H as [[= _ -> _] _]. done.
  - apply bind_inv in H as ([[st result] s1] & h2 & _ & H). cbv zeta in H.
    destruct st; [destruct result|..]; apply bind_inv in H as (? & ? & _ & H); apply ret_inv in H as [[= _ -> _] _];
      first [done|unfold same_list; by rewrite dlogf_rest].
Qed.

Lemma subscribe_list srv uri h r h' : subscribe srv uri h = (r, h') ->
  match r with inl srv' | inr srv' => srv_sessions srv' = srv_sessions srv end.
Proof.
  intros H. unfold subscribe in H. destruct (find_by _ _ _); [by apply ret_inv in H as [-> _]|]. cbv zeta in H.
  assert (forall cap k x k', (copy <- srv_strdup (Some uri) ;;
    match copy with None => ret (inl (set_subscribed (subscribed_uris srv) cap srv)) | Some copy => ret (inr (set_subscribed (subscribed_uris srv ++ [copy]) cap srv)) end) k = (x, k') ->
    match x with inl srv' | inr srv' => srv_sessions srv' = srv_sessions srv end) as Hstore.
  { intros cap k x k' E. apply bind_inv in E as (c & ? & _ & E). destruct c; by apply ret_inv in E as [-> _]. }
  destruct (Nat.eqb _ _); [|by eapply Hstore]. apply bind_inv in H as (ok & ? & _ & H). destruct ok; cbn [negb] in H; [by eapply Hstore|by apply ret_inv in H as [-> _]].
Qed.

Lemma unsubscribe_list srv uri h r h' : unsubscribe srv uri h = (r, h') -> srv_sessions r = srv_sessions srv.
Proof.
  intros H. unfold unsubscribe in H. destruct (find_by _ _ _); [|by apply ret_inv in H as [-> _]].
  apply bind_inv in H as (? & ? & _ & H). by apply ret_inv in H as [-> _].
Qed.

Lemma advanced_list srv req method h r srv' h' : route_advanced srv req method h = ((r, srv'), h') -> same_list srv srv'.
Proof.
  intros H. unfold route_advanced in H. destruct (streq _ (cs "logging/setLevel")).
  { unfold route_set_level in H. destruct (get_string _ _); [destruct (level_of_name _); cbv zeta in H|]; apply bind_inv in H as (? & ? & _ & H); by apply ret_inv in H as [[= _ ->] _]. }
  destruct (_ || _).
  - unfold route_subscription in H. destruct (get_string _ _) as [uri|]; [|apply bind_inv in H as (? & ? & _ & H); by apply ret_inv in H as [[= _ ->] _]].
    apply bind_inv in H as (u & h1 & E & H).
    assert (match u with inl r | inr r => srv_sessions r = srv_sessions (rest srv) end) as Hu.
    { destruct (streq _ _); [by eapply subscribe_list|]. apply bind_inv in E as (? & ? & E1 & E). apply ret_inv in E as [-> _]. by eapply unsubscribe_list. }
    destruct u as [u|u]; [by apply ret_inv in H as [[= _ ->] _]|]. apply bind_inv in H as (? & ? & _ & H). by apply ret_inv in H as [[= _ ->] _].
  - destruct (streq _ _); [apply bind_inv in H as (? & ? & _ & H)|]; by apply ret_inv in H as [[= _ ->] _].
Qed.

(** A handler of the tasks: it may change the manager. *)
Lemma tasks_update_list srv req h r srv' h' : route_tasks_update srv req h = ((r, srv'), h') -> same_list srv srv'.
Proof.
  intros H. unfold route_tasks_update in H. cbv zeta in H.
  repeat case_match; apply bind_inv in H as (? & ? & _ & H); by apply ret_inv in H as [[= _ ->] _].
Qed.

Lemma tasks_cancel_list srv req h r srv' h' : route_tasks_cancel srv req h = ((r, srv'), h') -> same_list srv srv'.
Proof.
  intros H. unfold route_tasks_cancel in H. cbv zeta in H.
  repeat case_match; apply bind_inv in H as (? & ? & _ & H); by apply ret_inv in H as [[= _ ->] _].
Qed.

Lemma reading_list srv0 srv s m h r srv' s' h' : same_list srv0 srv -> reading srv s m h = ((r, srv', s'), h') -> same_list srv0 srv'.
Proof. intros Hs H. unfold reading in H. apply bind_inv in H as (? & ? & _ & H). by apply ret_inv in H as [[= _ -> _] _]. Qed.

Lemma with_session_list srv m h r srv' s' h' : with_session srv m h = ((r, srv', s'), h') -> same_list srv srv'.
Proof. intros H. unfold with_session in H. apply bind_inv in H as (? & ? & _ & H). by apply ret_inv in H as [[= _ -> _] _]. Qed.

Lemma late_list srv s req method h r srv' s' h' : route_late logger srv s req method h = ((r, srv', s'), h') -> same_list srv srv'.
Proof.
  intros H. unfold route_late in H.
  repeat match type of H with (if ?b then _ else _) _ = _ => destruct b end; try by (eapply reading_list; [|exact H]; done).
  - by eapply with_session_list.
  - unfold with_server in H. apply bind_inv in H as ([r1 srv1] & ? & E & H). apply ret_inv in H as [[= _ -> _] _]. by eapply tasks_update_list.
  - unfold with_server in H. apply bind_inv in H as ([r1 srv1] & ? & E & H). apply ret_inv in H as [[= _ -> _] _]. by eapply tasks_cancel_list.
  - eapply reading_list; [|exact H]. by apply same_rest, dlogf_rest.
Qed.

Lemma route_list srv s req method h r srv' s' h' : route_request logger srv s req method h = ((r, srv', s'), h') -> same_list srv srv'.
Proof.
  intros H. unfold route_request in H.
  repeat match type of H with (if ?b then _ else _) _ = _ => destruct b end;
    try by first [eapply with_session_list, H|eapply tools_call_list, H|eapply reading_list; [|exact H]].
  apply bind_inv in H as ([adv srv1] & h1 & E & H). apply advanced_list in E. destruct adv as [m|].
  - by apply ret_inv in H as [[= _ -> _] _].
  - apply late_list in H. unfold same_list in *. congruence.
Qed.

Lemma dispatch_list srv s req h o h' :
  wf_msg req -> mcp_message_kind (Some req) = MCP_MSG_REQUEST -> IdSet.inv (ids s) -> routes_inv (rest srv) ->
  mcp_server_dispatch logger (Some srv) (Some s) (Some req) true h = (Some (inr o), h') -> same_list srv (o_srv o).
Proof.
  intros Hw Hk Hi HR H. destruct (dispatch_cases logger _ _ _ _ _ _ H Hw Hk Hi HR) as (o' & [= <-] & [Hc|Hc]).
  - destruct Hc as (ids' & code & text & _ & _ & _ & (_ & _ & _ & _ & _ & C6) & _). by apply same_rest.
  - destruct Hc as (srv1 & s1 & method & h1 & (ids' & x & _ & _ & _ & _ & _ & _ & _ & (_ & _ & _ & _ & _ & C6) & _) & Hrt).
    unfold dispatch_route in Hrt. apply bind_inv in Hrt as ([[resp srv2] s2] & h2 & E & Hrt). apply route_list in E.
    assert (same_list srv srv2) as H2 by (unfold same_list, trace_begin in *; by rewrite E, trace_rest, C6). clear E.
    destruct resp as [resp|].
    + destruct (mcp_message_error_code (Some resp)) as [[ec|]|]; apply ret_inv in Hrt as [Ho _]; [|done|]; injection Ho as ->; cbn [o_srv];
        unfold same_list, trace_end; rewrite trace_rest; [by destruct (ec =? 0)|done].
    + apply bind_inv in Hrt as (o1 & h3 & E3 & Hrt). apply ret_inv in Hrt as [[= ->] _]. unfold respond_err in E3.
      apply bind_inv in E3 as (? & ? & _ & E3). apply ret_inv in E3 as [-> _]. cbn [o_srv]. unfold same_list, trace_end. rewrite trace_rest.
      cbn [add_error rest]. by rewrite dlogf_rest.
Qed.
End keeps.

(** Through a conversation. *)
Lemma line_step_list logger line s s1 reply :
  line_step logger line s s1 reply -> routes_inv (rest s.1) -> IdSet.inv (ids s.2) ->
  same_list s.1 s1.1 /\ routes_inv (rest s1.1) /\ IdSet.inv (ids s1.2).
Proof.
  intros H Hinv Hids. destruct H as [s _|srv sess m srv' sess' st _ Hk E|s m _ _ _|srv sess m o resp h h' Hden Hk E Er _]; cbn [fst snd] in *; try done.
  - destruct (notify_keeps logger _ _ _ _ _ _ Hk E) as (_ & Hi & _). pose proof (notify_rest logger _ _ _ _ _ _ E) as Hr.
    split; [by apply same_rest|]. by rewrite Hr, Hi.
  - assert (wf_msg m) as Hw by (by destruct Hden). pose proof (dispatch_list logger _ _ _ _ _ _ Hw Hk Hids Hinv E) as Hl.
    apply (dispatch_full (R := server_rest)) in E as (o' & [= <-] & _ & _ & _ & _ & Hids' & Hinv' & _); done.
Qed.

Lemma transcript_list logger s ls s' out :
  transcript logger s ls s' out -> routes_inv (rest s.1) -> IdSet.inv (ids s.2) -> same_list s.1 s'.1.
Proof.
  induction 1 as [srv sess|srv sess line reply s1 ls s2 out Hst _ IH]; intros Hinv Hids; [done|].
  apply line_step_list in Hst as (Hl & Hinv1 & Hids1); [|by apply set_outbox_inv|done]. cbn [fst] in *. unfold same_list in *. by rewrite (IH Hinv1 Hids1), Hl.
Qed.

(** ** The whole call *)

Lemma set_sessions_inv ls s : routes_inv s -> routes_inv (set_sessions ls s).
Proof. intros []. by split. Qed.

Lemma size_set_sessions ls s :
  rest_size (set_sessions ls s) = rest_size s + (buffer (cap_sessions ls) - buffer (cap_sessions (srv_sessions s))).
Proof. destruct s. unfold rest_size, set_sessions. cbn [Server.tools Server.cap_tools Server.resources Server.cap_resources Server.prompts Server.cap_prompts Server.completions Server.cap_completions Server.srv_sessions Server.outbox Server.cap_outbox Server.subscribed_uris Server.cap_subscribed Server.list_cache_scope Server.response_meta Server.task_mgr Server.skill_reg]. lia. Qed.

(** With the session added to the list; [realloc] may move the array. *)
Definition attached (addr : nat) (srv srv' : server) : Prop :=
  exists c, srv' = with_rest srv (set_sessions (Sessions (sessions (srv_sessions (rest srv)) ++ [addr]) c) (rest srv)).

Lemma create_session_ample ls addr h r h' :
  ample h -> mcp_server_create_session ls addr h = (r, h') ->
  exists c, r = (Some (fresh_session (IdSet.Set_ [] 0)), Sessions (sessions ls ++ [addr]) c) /\
    hstep h h' (session_blocks (fresh_session (IdSet.Set_ [] 0)) + (buffer c - buffer (cap_sessions ls))).
Proof.
  intros A H. unfold mcp_server_create_session in H. apply bind_inv in H as (s & h1 & E & H). apply session_new_spec in E.
  destruct s as [s|]; [|by destruct E]. destruct E as (Hs & _ & ->). assert (ample h1) as A1 by (by eapply ample_hstep).
  destruct (Nat.eqb_spec (length (sessions ls)) (cap_sessions ls)) as [Heq|Hne].
  - apply bind_inv in H as (ok & h2 & E2 & H). pose proof (xrealloc_ample_inv _ _ _ _ A1 E2) as ->. apply ret_inv in H as [-> ->].
    eexists. split; [done|]. apply xrealloc_hstep in E2. eapply hstep_trans; [exact Hs|exact E2|].
    pose proof (grow_cap_buffer (cap_sessions ls)). lia.
  - apply ret_inv in H as [-> ->]. eexists. split; [done|]. eapply hstep_eq; [exact Hs|lia].
Qed.

Section whole.
Context (logger : option mcp_log_level_t).

Lemma serve_whole fuel shut addr srv x w p h r h' :
  ample h -> (forall k, (shut k).1 = false) -> routes_inv (rest srv) -> line_at x w p ->
  Forall short (split_lines p) -> (length p < fuel)%nat ->
  mcp_stdio_serve (U := unit) logger fuel shut addr (Some srv) (Some x) h = (r, h') ->
  exists srv0 srv1 sess1 out srv' x',
    r = Some (MCP_OK, Some srv', Some x') /\ attached addr srv srv0 /\
    transcript logger (srv0, fresh_session (IdSet.Set_ [] 0)) (input_lines p) (srv1, sess1) out /\
    line_at x' (w ++ out) [] /\ routes_inv (rest srv') /\
    hstep h h' (server_size srv' - server_size srv + (backend_size (backend x') - backend_size (backend x))).
Proof.
  intros A Hsh Hinv Hx Hshort Hf H. cbn [mcp_stdio_serve stdio_serve_impl] in H.
  apply bind_inv in H as (s & h1 & E & H). apply create_session_ample in E as (c & -> & Hs1); [|done].
  set (srv0 := with_rest srv _) in H. assert (ample h1) as A1 by (by eapply ample_hstep).
  apply bind_inv in H as (r1 & h2 & E2 & H). assert (line_at (l_t (Loop srv0 (fresh_session (IdSet.Set_ [] 0)) x)) w p) as Hx0 by done.
  apply (serve_loop_ok logger _ _ _ w p) in E2 as (l & out & -> & Htr & [Hinv' Hids'] & Hx' & Hs2); [|done| |done..].
  2:{ split; [by apply set_sessions_inv|]. split; cbn; [constructor|constructor|lia]. }
  apply bind_inv in H as (ls & h3 & E3 & H). apply ret_inv in H as [-> ->].
  exists srv0, (l_srv l), (l_sess l), out, (with_rest (l_srv l) (set_sessions ls (rest (l_srv l)))), (l_t l).
  split; [done|]. split; [by exists c|]. split; [done|]. split; [done|]. split; [by apply set_sessions_inv|].
  assert (addr ∈ sessions (srv_sessions (rest (l_srv l)))) as Hin.
  { apply transcript_list in Htr; [|by apply set_sessions_inv|split; cbn; [constructor|constructor|lia]]. cbn [fst] in Htr.
    rewrite Htr. apply elem_of_app. right. by left. }
  apply destroy_session_blocks in E3 as [Hcap Hs3]; [|done].
  assert (hstep h h2 (loop_size l - server_size srv - backend_size (backend x))) as Hs.
  { eapply hstep_trans; [exact Hs1|exact Hs2|]. unfold loop_size, server_size, srv0. cbn [l_srv l_sess l_t rest with_rest].
    rewrite size_set_sessions. cbn [cap_sessions]. lia. }
  eapply hstep_trans; [exact Hs|exact Hs3|]. unfold loop_size, server_size. cbn [rest with_rest]. rewrite size_set_sessions, Hcap. lia.
Qed.
End whole.

Lemma serving_guards {T U} logger fuel shut addr srv client x h :
  srv = None \/ x = None ->
  stdio_serve_impl (T := T) (U := U) logger fuel shut addr srv client x h = (Some (MCP_ERR_INVALID_ARGUMENT, srv, x), h).
Proof. by intros [-> | ->]; [|destruct srv]. Qed.

(** ** Theorems *)

(** C5: Serving a stream.  Let the allocator refuse nothing, no shutdown be
    asked for, the registries keep their invariant, the output take what is
    written, and the input be read without errors or timeouts (interrupted
    reads apart), each of its lines at least 4097 bytes shorter than the
    limit of a message (input is read in pieces of 4096 bytes, and a line over
    the limit ends the serving with MCP_ERR_PROTOCOL).  Then [mcp_stdio_serve], in at most one turn per byte
    and one more, however the input is cut into pieces, reads to the end and
    returns MCP_OK, and what it has written is the transcript of the
    conversation with a new session: for every line in order first the
    pending notifications, then a parse error if the line is no message,
    nothing for a notification or a response, and for a request the one
    response of the dispatcher, which answers that request.  The registries
    keep their invariant, and nothing is left allocated but what the server
    and the stash own. *)
Theorem stdio_serve_answers logger fuel shut addr srv x w p h r h' :
  ample h -> (forall k, (shut k).1 = false) -> routes_inv (rest srv) -> line_at x w p ->
  Forall short (split_lines p) -> (length p < fuel)%nat ->
  mcp_stdio_serve (U := unit) logger fuel shut addr (Some srv) (Some x) h = (r, h') ->
  exists srv0 srv1 sess1 out srv' x',
    r = Some (MCP_OK, Some srv', Some x') /\ attached addr srv srv0 /\
    transcript logger (srv0, fresh_session (IdSet.Set_ [] 0)) (input_lines p) (srv1, sess1) out /\
    line_at x' (w ++ out) [] /\ routes_inv (rest srv') /\
    hstep h h' (server_size srv' - server_size srv + (backend_size (backend x') - backend_size (backend x))).
Proof. apply serve_whole. Qed.

(** ** Witnesses *)

(** A notification, garbage and a request, in two pieces. *)
Definition sample_input : bytes :=
  js "{'jsonrpc':'2.0','method':'notifications/initialized'}" ++ [newline] ++ cs "{" ++ [carriage_return; newline] ++
  js "{'jsonrpc':'2.0','id':1,'method':'ping'}" ++ [newline].

Definition sample_line_transport : mcp_transport_t stdio_backend_t :=
  Transport kStdioOps (Some (Backend (Some [Bytes_ (take 40 sample_input); Interrupted; Bytes_ (drop 40 sample_input)])
    (Some (Output [] [])) [])) 0 0.

Lemma sample_line_at : line_at sample_line_transport [] sample_input.
Proof.
  split; [done|]. eexists. split; [reflexivity|]. split; [|split; [vm_compute; reflexivity|reflexivity]].
  eexists. split; [reflexivity|]. split; [repeat constructor|].
  repeat (apply Forall_cons; split; [vm_compute; (split; [reflexivity|discriminate]) || exact I|]). apply Forall_nil. exact I.
Qed.

Definition never (k : nat) : bool * bool := (false, false).

(** What was written, for the sample. *)
Example sample_served :
  match (mcp_stdio_serve (U := unit) None 200 never 5 (Some sample_full_server) (Some sample_line_transport) fresh_heap).1 with
  | Some (st, _, Some x) =>
      (st, match backend x with Some b => written <$> out_ b | None => None end) =
      (MCP_OK, Some (js "{'jsonrpc':'2.0','id':null,'error':{'code':-32700,'message':'Parse error'}}" ++ [newline] ++
                     js "{'jsonrpc':'2.0','id':1,'result':{'resultType':'complete'}}" ++ [newline]))
  | _ => False
  end.
Proof. vm_compute. reflexivity. Qed.

Lemma stdio_serve_answers_witness :
  exists r h', mcp_stdio_serve (U := unit) None 200 never 5 (Some sample_full_server) (Some sample_line_transport) fresh_heap = (r, h') /\
  exists srv0 srv1 sess1 out srv' x',
    r = Some (MCP_OK, Some srv', Some x') /\ attached 5 sample_full_server srv0 /\
    transcript None (srv0, fresh_session (IdSet.Set_ [] 0)) (input_lines sample_input) (srv1, sess1) out /\
    line_at x' ([] ++ out) [] /\ routes_inv (rest srv') /\
    hstep fresh_heap h' (server_size srv' - server_size sample_full_server +
      (backend_size (backend x') - backend_size (backend sample_line_transport))).
Proof.
  eexists _, _. split; [apply surjective_pairing|].
  apply (stdio_serve_answers None 200 never 5 sample_full_server sample_line_transport [] sample_input fresh_heap);
    [exact fresh_ample|done|exact sample_routes_inv|exact sample_line_at| |apply Nat.ltb_lt; vm_compute; reflexivity|apply surjective_pairing].
  apply Forall_forall. intros l Hl. vm_compute in Hl. repeat (apply elem_of_cons in Hl as [->|Hl]; [vm_compute; discriminate|]).
  by apply elem_of_nil in Hl.
Defined.
