(* ===== verification/EndToEnd.v ===== *)
(** * A client and a server over one connection

    What [mcp_client_request] writes is a line the serve loop answers, and
    what the serve loop writes for it is a line the client accepts: the
    caller on one side gets what the dispatcher answered on the other. *)
From S2P Require Import Prelude Heap Utf8 Double JsonValue JsonParse JsonGrammar JsonNumber JsonSerialize JsonApi Schema Message Initialize Validate Builders Tasks Skills Mrtr Session Dispatcher Lifecycle Registry Server Routes RouteLaws Routing Serving Transport Client Stdio Exchange Serve.

Local Open Scope Z_scope.

(** A text the other side can read. *)
Definition fits (j : json) : Prop :=
  jdepth j <= MCP_JSON_MAX_DEPTH /\ Z.of_nat (length (render j)) + 4097 <= MCP_PROTOCOL_MAX_MESSAGE_BYTES.

(** ** A message is one line *)

Lemma wire_line v rest : wf v -> next_line (wire (erase v) ++ rest) = Some (render (erase v), rest).
Proof.
  intros Hw. unfold wire. rewrite <- app_assoc. cbn [app]. rewrite next_line_cut.
  rewrite (proj2 (cut_some newline _ (render (erase v)) rest)); [done|]. split; [done|]. apply printable_not_in; [done|]. by apply render_printable.
Qed.

Lemma wire_text v : wf v -> cstr (strip_cr (render (erase v))) = render (erase v).
Proof.
  intros Hw. pose proof (render_printable v Hw) as Hp. assert (strip_cr (render (erase v)) = render (erase v)) as ->.
  { unfold strip_cr. destruct (rev (render (erase v))) as [|b s] eqn:Er; [by destruct (render (erase v)) using rev_ind; [|rewrite rev_app_distr in Er]|].
    destruct (Byte.eqb b carriage_return) eqn:Eb; [|done]. apply byte_eqb_eq in Eb as ->. exfalso.
    apply (printable_not_in carriage_return (render (erase v))); [done|done|]. apply list_elem_of_In, in_rev. rewrite Er. by left. }
  by apply cstr_no_nul, printable_no_nul.
Qed.

(** ** The two sides *)

Lemma request_reads m id method params :
  wf_msg m -> erase (dom m) = request_json id method params ->
  mcp_message_kind (Some m) = MCP_MSG_REQUEST /\ reply_id (Some m) = JNumber id /\ mcp_message_method (Some m) = Some (cstr method).
Proof.
  intros [Hw _] He. rewrite (kind_meaning m _ Hw He), (reply_id_meaning m _ Hw He), (method_meaning m _ Hw He).
  destruct params; cbn [jset]; jlook; by rewrite bool_decide_true by eauto.
Qed.

(** The answer to a request with a number for an id is one the client
    accepts. *)
Lemma answer_matches req resp id :
  answers req resp -> reply_id (Some req) = JNumber id -> isfinite id = true ->
  mcp_message_method (Some req) <> Some (cs "subscriptions/listen") -> matches id resp.
Proof.
  intros ([Hw [l Hl]] & _ & [[Hk Hi]|Hack]) Hr Hf Hm.
  - split; [done|]. rewrite Hr in Hi. exists id. split; [|by apply deqb_refl].
    rewrite (reply_id_meaning resp l Hw Hl) in Hi. rewrite (id_number_meaning resp l Hw Hl).
    destruct (jlookup (cs "id") l) as [[]|]; congruence.
  - by destruct Hack as [? _].
Qed.

Section connection.
Context (logger : option mcp_log_level_t) (undefined_int : Z).
Implicit Types c : mcp_client_t stdio_backend_t.

(** The server's side: the request is dispatched and its answer is what the
    serve loop sends for the client's line. *)
Lemma request_step id method params req srv sess h r h' :
  ample h -> routes_inv (rest srv) -> IdSet.inv (ids sess) ->
  wf_msg req -> erase (dom req) = request_json id method params -> fits (request_json id method params) ->
  mcp_server_dispatch logger (Some srv) (Some sess) (Some req) true h = (r, h') ->
  exists o resp, r = Some (inr o) /\ o_resp o = Some resp /\ answers req resp /\
    line_step logger (render (request_json id method params)) (srv, sess) (o_srv o, o_session o) (wire (erase (dom resp))).
Proof.
  intros A Hinv Hids Hw He [Hd Hl] H. pose proof H as Hrun. destruct (request_reads req id method params Hw He) as (Hk & _ & _).
  apply (dispatch_full (R := server_rest)) in H as (o & -> & Hst & _); [|done..]. unfold status_of in Hst.
  destruct (o_resp o) as [resp|] eqn:Er; [|by destruct Hst]. destruct Hst as [_ Hans]. exists o, resp.
  do 3 (split; [done|]). eapply step_request; [|done|exact Hrun|done|done]. rewrite <- He in *. apply denotes_render; [done|done|lia].
Qed.

(** The client's side: it accepts that answer. *)
Lemma request_served c w rest method params req resp h r h' :
  ample h -> valid_double (next_id c) = true -> isfinite (next_id c) = true ->
  utf8_valid (cstr method) = true -> cstr method <> cs "subscriptions/listen" -> owf params ->
  wf_msg req -> erase (dom req) = request_json (next_id c) method params -> answers req resp -> fits (erase (dom resp)) ->
  line_at (t c) w (wire (erase (dom resp)) ++ rest) -> request undefined_int c method params true h = (r, h') ->
  exists st res c',
    r = (st, res, Some c') /\ line_at (t c') (w ++ wire (request_json (next_id c) method params)) rest /\
    told undefined_int true resp st res /\
    (error_status undefined_int resp = None -> is_Some (mcp_message_result (Some resp)) -> is_Some res).
Proof.
  intros A Hv Hf Hu Hm Hp Hwq Heq Hans [Hd Hl] Hx H.
  destruct (request_reads req _ _ _ Hwq Heq) as (_ & Hid & Hme). assert (wf_msg resp) as Hw by apply Hans.
  assert (wf (dom resp)) as Hwd by apply Hw.
  assert (denotes (render (erase (dom resp))) resp) as Hden by (apply denotes_render; [done|done|lia]).
  eapply (request_line undefined_int c method params w _ _ _ resp) in H;
    [exact H|done|exact Hx|done|done|done|done|by apply wire_line|done|by rewrite wire_text|
     eapply answer_matches; [exact Hans|exact Hid|done|rewrite Hme; congruence]].
Qed.
End connection.

(** ** Theorem *)

(** C4: The two ends agree, for every method but subscriptions/listen (the
    server acknowledges that one by a notification, which
    [mcp_client_subscriptions_listen] reads and [mcp_client_request] refuses).
    Let the client's next id be finite, the method UTF-8, the parameters
    well formed, and let the request nest at most 128 deep and be at least
    4097 bytes below the limit of a message; let the server's registries
    keep their invariant and the allocators refuse nothing.  Then the
    dispatcher answers the request, and the answer is what the serve loop
    sends for the line that the client writes.  A client whose writes
    succeed and that reads that line, if it keeps the same limits, in
    whatever pieces it arrives, returns to its caller exactly what the
    dispatcher answered: the result of the response, with the same contents,
    or the status of its error code.  The client has then written its request
    and nothing else, and read the answer and nothing else. *)
Theorem client_meets_server logger undefined_int (c : mcp_client_t stdio_backend_t) method params req srv sess hs ro hs' :
  ample hs -> routes_inv (rest srv) -> IdSet.inv (ids sess) ->
  valid_double (next_id c) = true -> isfinite (next_id c) = true ->
  utf8_valid (cstr method) = true -> cstr method <> cs "subscriptions/listen" -> owf params ->
  wf_msg req -> erase (dom req) = request_json (next_id c) method params -> fits (erase (dom req)) ->
  mcp_server_dispatch logger (Some srv) (Some sess) (Some req) true hs = (ro, hs') ->
  exists o resp, ro = Some (inr o) /\ o_resp o = Some resp /\ answers req resp /\
    line_step logger (render (request_json (next_id c) method params)) (srv, sess) (o_srv o, o_session o) (wire (erase (dom resp))) /\
    (forall w rest h r h',
      ample h -> fits (erase (dom resp)) -> line_at (t c) w (wire (erase (dom resp)) ++ rest) ->
      mcp_client_request undefined_int (Some c) (Some method) params true h = (r, h') ->
      exists st res c', r = (st, res, Some c') /\
        line_at (t c') (w ++ wire (request_json (next_id c) method params)) rest /\
        told undefined_int true resp st res /\
        (error_status undefined_int resp = None -> is_Some (mcp_message_result (Some resp)) -> is_Some res)).
Proof.
  intros A Hinv Hids Hv Hf Hu Hm Hp Hw He Hfit H. rewrite He in Hfit.
  destruct (request_step logger _ _ _ _ _ _ _ _ _ A Hinv Hids Hw He Hfit H) as (o & resp & -> & Hres & Hans & Hstep).
  exists o, resp. do 4 (split; [done|]). intros w rest h r h' A' Hfr Hx Hr. by eapply request_served.
Qed.

(** ** Witness *)

Definition ping_request : mcp_message_t := Message (doc "{'jsonrpc':'2.0','id':1,'method':'ping'}").

Lemma client_meets_server_witness :
  exists ro hs', mcp_server_dispatch None (Some sample_full_server) (Some ready_session) (Some ping_request) true fresh_heap = (ro, hs') /\
  exists o resp, ro = Some (inr o) /\ o_resp o = Some resp /\ answers ping_request resp /\
    line_step None (render (request_json (double_of_Z 1) (cs "ping") None)) (sample_full_server, ready_session)
      (o_srv o, o_session o) (wire (erase (dom resp))) /\
    (forall w rest h r h',
      ample h -> fits (erase (dom resp)) -> line_at (t (line_client pong None)) w (wire (erase (dom resp)) ++ rest) ->
      mcp_client_request 0 (Some (line_client pong None)) (Some (cs "ping")) None true h = (r, h') ->
      exists st res c', r = (st, res, Some c') /\
        line_at (t c') (w ++ wire (request_json (double_of_Z 1) (cs "ping") None)) rest /\
        told 0 true resp st res /\
        (error_status 0 resp = None -> is_Some (mcp_message_result (Some resp)) -> is_Some res)).
Proof.
  eexists _, _. split; [apply surjective_pairing|].
  eapply (client_meets_server None 0 (line_client pong None) (cs "ping") None ping_request sample_full_server ready_session fresh_heap);
    [exact fresh_ample|exact sample_routes_inv|exact ready_inv|vm_compute; reflexivity..|discriminate|exact I
    |split; [apply doc_wf|eexists; vm_compute; reflexivity]|vm_compute; reflexivity|split; vm_compute; discriminate|apply surjective_pairing].
Defined.

(** The whole way with concrete data: the line the server writes, read by
    the client. *)
Example ping_pong :
  let reply := js "{'jsonrpc':'2.0','id':1,'result':{'resultType':'complete'}}" ++ [newline] in
  match (mcp_client_request 0 (Some (line_client reply None)) (Some (cs "ping")) None true fresh_heap).1 with
  | (st, Some v, Some c) =>
      st = MCP_OK /\ erase v = JObject [(cs "resultType", JString (cs "complete"))] /\
      (match backend (t c) with Some b => written <$> out_ b | None => None end) = Some (wire (request_json (double_of_Z 1) (cs "ping") None))
  | _ => False
  end.
Proof. vm_compute. done. Qed.
