(* ===== verification/Content.v ===== *)
(** * Content annotations (src/protocol/content.c)

    The annotations of a content item (audience, priority, time stamp), their
    JSON form and its reader, and the builders of annotated text, image and
    resource items.  Several failure paths of the builders destroy a value
    that [mcp_json_object_set_take] has already destroyed; the model marks
    the heap corrupt there. *)
From S2P Require Import Prelude Heap Utf8 Double JsonValue JsonParse JsonSerialize JsonApi Schema Message Builders RouteLaws.

Local Open Scope Z_scope.

(** ** Data (include/mcpkit/protocol/content.h) *)

Definition MCP_AUDIENCE_NONE : Z := 0.
Definition MCP_AUDIENCE_USER : Z := 1.
Definition MCP_AUDIENCE_ASSISTANT : Z := 2.

(** [audience] is a [uint32_t] mask, [last_modified] the 64 bytes of the
    buffer. *)
Record mcp_content_annotations_t := Annotations {
  audience : Z;
  priority : double;
  last_modified : bytes;
}.

(** [a >= b] and [a <= b] on doubles: false when either is not a number. *)
Definition dgeb (a b : double) : bool := dgtb a b || deqb a b.
Definition dleb (a b : double) : bool := dltb a b || deqb a b.

(** [d >= 0.0 && d <= 1.0]. *)
Definition priority_given (d : double) : bool :=
  dgeb d (double_of_Z 0) && dleb d (double_of_Z 1).

(** The names of the audience that the mask has, in the order of the tests. *)
Definition audience_names (mask : Z) : list bytes :=
  (if Z.land mask MCP_AUDIENCE_USER =? 0 then [] else [cs "user"]) ++
  (if Z.land mask MCP_AUDIENCE_ASSISTANT =? 0 then [] else [cs "assistant"]).

(** ** Building *)

(** [if (v == NULL || mcp_json_object_set_take(obj, key, v) != MCP_OK) {
    mcp_json_destroy(v); fail } k], for a [v] just created: when the store
    fails, [v] has been destroyed by it and is destroyed again. *)
Definition put_again {B} (obj : value) (key : bytes) (mk : M (option value)) (fail k : value -> M (option B))
    : M (option B) :=
  v <- mk ;;
  match v with
  | None => fail obj
  | Some v => chk (object_set_take (Some obj) key (Some v)) (fun obj => mark_corrupt ;; fail obj) k
  end.

(** The [audience] member. *)
Definition put_audience (a : mcp_content_annotations_t) (ann : value) (k : value -> M (option value)) : M (option value) :=
  if audience a =? MCP_AUDIENCE_NONE then k ann else
  aud <- builtin_new_array ;;
  match aud with
  | None => discard ann
  | Some aud =>
      append_all string_new (audience_names (audience a)) aud
        (fun aud => builtin_destroy (Some aud) ;; discard ann)
        (fun aud => chk (object_set_take (Some ann) (cs "audience") (Some aud)) discard k)
  end.

(** The [priority] member. *)
Definition put_priority (a : mcp_content_annotations_t) (ann : value) (k : value -> M (option value)) : M (option value) :=
  if priority_given (priority a)
  then put_again ann (cs "priority") (builtin_new_number (priority a)) discard k
  else k ann.

(** The [lastModified] member. *)
Definition put_modified (a : mcp_content_annotations_t) (ann : value) (k : value -> M (option value)) : M (option value) :=
  if bool_decide (cstr (last_modified a) = []) then k ann
  else put_again ann (cs "lastModified") (string_new (last_modified a)) discard k.

Definition mcp_annotations_to_json (annotations : option mcp_content_annotations_t) : M (option value) :=
  match annotations with
  | None => ret None
  | Some a =>
      ann <- builtin_new_object ;;
      match ann with
      | None => ret None
      | Some ann =>
          put_audience a ann (fun ann => put_priority a ann (fun ann => put_modified a ann (fun ann => ret (Some ann))))
      end
  end.

(** The [annotations] member of an item; an item whose annotations could not
    be built goes without. *)
Definition put_annotations (annotations : option mcp_content_annotations_t) (obj : value) : M (option value) :=
  match annotations with
  | None => ret (Some obj)
  | Some _ =>
      ann_json <- mcp_annotations_to_json annotations ;;
      match ann_json with
      | None => ret (Some obj)
      | Some ann_json => chk (object_set_take (Some obj) (cs "annotations") (Some ann_json)) discard (fun obj => ret (Some obj))
      end
  end.

Definition mcp_content_text_new_annotated (text : option bytes) (annotations : option mcp_content_annotations_t)
    : M (option value) :=
  match text with
  | None => ret None
  | Some text =>
      obj <- builtin_new_object ;;
      match obj with
      | None => ret None
      | Some obj =>
          type_v <- string_new (cs "text") ;;
          text_v <- string_new text ;;
          match type_v, text_v with
          | Some t, Some x =>
              chk (object_set_take (Some obj) (cs "type") (Some t))
                (fun obj => builtin_destroy (Some x) ;; discard obj)
                (fun obj => chk (object_set_take (Some obj) (cs "text") (Some x))
                              (fun obj => mark_corrupt ;; discard obj)
                              (put_annotations annotations))
          | _, _ => builtin_destroy type_v ;; builtin_destroy text_v ;; discard obj
          end
      end
  end.

(** When the [type] of an image cannot be stored, the data is left behind. *)
Definition mcp_content_image_new_annotated (data_base64 mime_type : option bytes)
    (annotations : option mcp_content_annotations_t) : M (option value) :=
  match data_base64, mime_type with
  | Some data_base64, Some mime_type =>
      obj <- builtin_new_object ;;
      match obj with
      | None => ret None
      | Some obj =>
          type_v <- string_new (cs "image") ;;
          data_v <- string_new data_base64 ;;
          mime_v <- string_new mime_type ;;
          match type_v, data_v, mime_v with
          | Some t, Some d, Some m =>
              chk (object_set_take (Some obj) (cs "type") (Some t))
                (fun obj => builtin_destroy (Some m) ;; discard obj)
                (fun obj => chk (object_set_take (Some obj) (cs "data") (Some d))
                   (fun obj => builtin_destroy (Some m) ;; discard obj)
                   (fun obj => chk (object_set_take (Some obj) (cs "mimeType") (Some m))
                      (fun obj => mark_corrupt ;; discard obj)
                      (put_annotations annotations)))
          | _, _, _ =>
              builtin_destroy type_v ;; builtin_destroy data_v ;; builtin_destroy mime_v ;; discard obj
          end
      end
  | _, _ => ret None
  end.

(** The members of the embedded resource; [fail] is what follows a failure. *)
Definition fill_resource (uri payload : bytes) (mime_type : option bytes) (is_binary : bool) (inner : value)
    (fail : value -> M (option value)) (k : value -> M (option value)) : M (option value) :=
  let payload_key := if is_binary then cs "blob" else cs "text" in
  uri_v <- string_new uri ;;
  payload_v <- string_new payload ;;
  match uri_v, payload_v with
  | Some u, Some p =>
      chk (object_set_take (Some inner) (cs "uri") (Some u))
        (fun inner => builtin_destroy (Some p) ;; fail inner)
        (fun inner => chk (object_set_take (Some inner) payload_key (Some p))
           (fun inner => mark_corrupt ;; fail inner)
           (fun inner =>
              match mime_type with
              | None => k inner
              | Some mime => put_again inner (cs "mimeType") (string_new mime) fail k
              end))
  | _, _ => builtin_destroy payload_v ;; fail inner
  end.

(** When the payload of a resource cannot be created the URI string is left
    behind. *)
Definition mcp_content_resource_new_annotated (uri mime_type text_or_blob : option bytes) (is_binary : bool)
    (annotations : option mcp_content_annotations_t) : M (option value) :=
  match uri, text_or_blob with
  | Some uri, Some text_or_blob =>
      obj <- builtin_new_object ;;
      match obj with
      | None => ret None
      | Some obj =>
          type_v <- string_new (cs "resource") ;;
          res_inner <- builtin_new_object ;;
          match type_v, res_inner with
          | Some t, Some inner =>
              chk (object_set_take (Some obj) (cs "type") (Some t))
                (fun obj => builtin_destroy (Some inner) ;; discard obj)
                (fun obj =>
                   fill_resource uri text_or_blob mime_type is_binary inner
                     (fun inner => builtin_destroy (Some inner) ;; discard obj)
                     (fun inner => chk (object_set_take (Some obj) (cs "resource") (Some inner)) discard
                                     (put_annotations annotations)))
          | _, _ => builtin_destroy type_v ;; builtin_destroy res_inner ;; discard obj
          end
      end
  | _, _ => ret None
  end.

(** ** Reading *)

(** [strncpy(buf, s, 63); buf[63] = 0] on a buffer of zeros. *)
Definition stamp (s : bytes) : bytes :=
  take 63 (cstr s) ++ replicate (64 - length (take 63 (cstr s))) x00.

(** The structure all zero, then [priority] set to [-1.0]. *)
Definition cleared : mcp_content_annotations_t := Annotations 0 (double_of_Z (-1)) (stamp []).

(** One item of the [audience] array. *)
Definition add_audience (mask : Z) (item : option value) : Z :=
  match builtin_get_string item with
  | Some s =>
      if streq s (cs "user") then Z.lor mask MCP_AUDIENCE_USER
      else if streq s (cs "assistant") then Z.lor mask MCP_AUDIENCE_ASSISTANT
      else mask
  | None => mask
  end.

Definition read_audience (aud : option value) (mask : Z) : Z :=
  match builtin_type_of aud with
  | MCP_JSON_ARRAY =>
      fold_left (fun mask i => add_audience mask (builtin_array_get aud i)) (seq 0 (builtin_array_size aud)) mask
  | _ => mask
  end.

Definition read_priority (prio : option value) (d : double) : double :=
  match builtin_get_number prio with Some d' => d' | None => d end.

Definition read_modified (lm : option value) (buf : bytes) : bytes :=
  match builtin_get_string lm with Some s => stamp s | None => buf end.

(** The status and [*out_annotations] afterwards. *)
Definition mcp_annotations_from_json (ann_obj : option value) (out_annotations : option mcp_content_annotations_t)
    : mcp_status_t * option mcp_content_annotations_t :=
  match ann_obj, out_annotations with
  | Some _, Some _ =>
      (MCP_OK, Some (Annotations
        (read_audience (builtin_object_get ann_obj (Some (cs "audience"))) (audience cleared))
        (read_priority (builtin_object_get ann_obj (Some (cs "priority"))) (priority cleared))
        (read_modified (builtin_object_get ann_obj (Some (cs "lastModified"))) (last_modified cleared))))
  | _, _ => (MCP_ERR_INVALID_ARGUMENT, out_annotations)
  end.

Definition mcp_content_extract_annotations (content_obj : option value) (out_annotations : option mcp_content_annotations_t)
    : mcp_status_t * option mcp_content_annotations_t :=
  match content_obj, out_annotations with
  | Some _, Some _ =>
      match builtin_object_get content_obj (Some (cs "annotations")) with
      | None => (MCP_OK, Some cleared)
      | ann_v => mcp_annotations_from_json ann_v (Some cleared)
      end
  | _, _ => (MCP_ERR_INVALID_ARGUMENT, out_annotations)
  end.

(** ** What the builders make *)

(** The members of the annotations object. *)
Definition annotation_members (a : mcp_content_annotations_t) : list (bytes * json) :=
  joset (cs "lastModified") (if bool_decide (cstr (last_modified a) = []) then None else Some (JString (cstr (last_modified a))))
    (joset (cs "priority") (if priority_given (priority a) then Some (JNumber (priority a)) else None)
      (joset (cs "audience")
         (if audience a =? MCP_AUDIENCE_NONE then None else Some (JArray (map JString (audience_names (audience a))))) [])).

(** The three kinds of item. *)
Inductive item :=
| TextItem (text : bytes)
| ImageItem (data mime : bytes)
| ResourceItem (uri : bytes) (mime : option bytes) (payload : bytes) (is_binary : bool).

Definition new_item (it : item) (annotations : option mcp_content_annotations_t) : M (option value) :=
  match it with
  | TextItem text => mcp_content_text_new_annotated (Some text) annotations
  | ImageItem data mime => mcp_content_image_new_annotated (Some data) (Some mime) annotations
  | ResourceItem uri mime payload b => mcp_content_resource_new_annotated (Some uri) mime (Some payload) b annotations
  end.

Definition text_ok (s : bytes) : Prop := utf8_valid (cstr s) = true.

Definition item_ok (it : item) : Prop :=
  match it with
  | TextItem text => text_ok text
  | ImageItem data mime => text_ok data /\ text_ok mime
  | ResourceItem uri mime payload _ => text_ok uri /\ from_option text_ok True mime /\ text_ok payload
  end.

(** The shape the header promises. *)
Definition item_members (it : item) : list (bytes * json) :=
  let str s := JString (cstr s) in
  match it with
  | TextItem text => [(cs "type", str (cs "text")); (cs "text", str text)]
  | ImageItem data mime => [(cs "type", str (cs "image")); (cs "data", str data); (cs "mimeType", str mime)]
  | ResourceItem uri mime payload b =>
      [(cs "type", str (cs "resource"));
       (cs "resource", JObject ([(cs "uri", str uri); (if b then cs "blob" else cs "text", str payload)] ++
                                from_option (fun m => [(cs "mimeType", str m)]) [] mime))]
  end.

(** Annotations a program may hand over: a number that is one, a buffer of
    64 bytes with a terminator and UTF-8 before it. *)
Record annotations_ok (a : mcp_content_annotations_t) : Prop := AnnotationsOk {
  ok_priority : valid_double (priority a) = true;
  ok_length : length (last_modified a) = 64%nat;
  ok_terminated : has_nul (last_modified a) = true;
  ok_stamp : text_ok (last_modified a);
}.

(** What of the annotations reaches the reader. *)
Definition normal (a : mcp_content_annotations_t) : mcp_content_annotations_t :=
  Annotations (Z.land (audience a) 3) (if priority_given (priority a) then priority a else double_of_Z (-1))
    (stamp (last_modified a)).

(** With memory every step succeeds. *)
Lemma made_ample mk j (ok : Prop) h r h' :
  attempt mk j ok -> ok -> ample h -> mk h = (r, h') ->
  exists v, r = Some v /\ wf v /\ erase v = j /\ hstep h h' (blocks v) /\ ample h'.
Proof.
  intros Hm Hok A H. destruct (Hm _ _ _ H) as [Hs Hr]. destruct r as [v|]; [|by destruct Hr].
  exists v. destruct Hr. do 3 (split; [done|]). split; [done|]. by eapply ample_hstep.
Qed.

Lemma put_again_ample {B} mk j (ok : Prop) obj l key fail (k : value -> M (option B)) h r h' :
  attempt mk j ok -> ok -> wf obj -> erase obj = JObject l -> good_string key -> ample h ->
  put_again obj key mk fail k h = (r, h') ->
  exists o h1, wf o /\ erase o = JObject (jinsert key j l) /\ hstep h h1 (blocks o - blocks obj) /\ ample h1 /\ k o h1 = (r, h').
Proof.
  intros Hm Hok Hw Hl Hk A H. unfold put_again in H. apply bind_inv in H as (v0 & h1 & E & H).
  eapply made_ample in E as (v & -> & Hv & He & Hs & A1); [|done..].
  eapply chk_ample in H; [|by apply take_updates|done|done]. destruct H as (o & h2 & Hwo & Heo & Hs2 & A2 & H).
  exists o, h2. rewrite He in Heo. do 2 (split; [done|]). split; [hsolve|done].
Qed.

Lemma append_all_ample {A B} (mk : A -> M (option value)) (j : A -> json) (ok : A -> Prop) fail (k : value -> M (option B)) l :
  (forall x, attempt (mk x) (j x) (ok x)) -> Forall ok l -> forall arr js h r h',
  wf arr -> erase arr = JArray js -> ample h -> append_all mk l arr fail k h = (r, h') ->
  exists a h1, wf a /\ erase a = JArray (js ++ map j l) /\ hstep h h1 (blocks a - blocks arr) /\ ample h1 /\ k a h1 = (r, h').
Proof.
  intros Hm. induction 1 as [|x l Hx Hl IH]; intros arr js h r h' Hw Ha A1 H; cbn [append_all] in H.
  { exists arr, h. rewrite app_nil_r. do 2 (split; [done|]). split; [hsolve|done]. }
  apply bind_inv in H as (v0 & h1 & E & H). eapply made_ample in E as (v & -> & Hv & He & Hs & A2); [|done..].
  apply bind_inv in H as ([st r1] & h2 & E2 & H). destruct arr as [| | | |c vs0|]; try discriminate Ha. injection Ha as Ha.
  apply array_append_spec in E2 as (c' & l' & -> & Hw' & Hs2 & -> & Hamp); [|done..]. rewrite (Hamp A2) in *. cbn [decide] in *.
  destruct (decide _) as [_|]; [|done].
  destruct (IH (VArray c' (vs0 ++ [v])) (js ++ [erase v]) h2 r h') as (a & h3 & Hwa & Hea & Hs3 & A3 & H3);
    [done|simpl; by rewrite map_app, Ha|by eapply ample_hstep|done|].
  exists a, h3. split; [done|]. split; [by rewrite Hea, He, <- app_assoc|]. split; [|done]. hsolve.
Qed.

Lemma put_audience_ample a ann l k h r h' :
  wf ann -> erase ann = JObject l -> ample h -> put_audience a ann k h = (r, h') ->
  exists o h1, wf o /\ erase o = JObject (joset (cs "audience")
      (if audience a =? MCP_AUDIENCE_NONE then None else Some (JArray (map JString (audience_names (audience a))))) l) /\
    hstep h h1 (blocks o - blocks ann) /\ ample h1 /\ k o h1 = (r, h').
Proof.
  intros Hw Hl A H. unfold put_audience in H. destruct (audience a =? _).
  { exists ann, h. do 2 (split; [done|]). split; [hsolve|done]. }
  apply bind_inv in H as (v0 & h1 & E & H). eapply made_ample in E as (v & -> & Hv & He & Hs & A2); [|apply array_new_attempt|done..].
  eapply (append_all_ample _ (fun s => JString (cstr s))) in H; [|intros x; apply string_new_attempt| |done|done|done].
  2: { unfold audience_names. destruct (_ =? 0), (_ =? 0); repeat constructor; vm_compute; reflexivity. }
  destruct H as (arr & h2 & Hwa & Hea & Hs2 & A3 & H).
  eapply chk_ample in H; [|apply take_updates; [done|done|done|lit]|done|done].
  destruct H as (o & h3 & Hwo & Heo & Hs3 & A4 & H). exists o, h3. split; [done|]. split.
  - rewrite Heo, Hea. cbn. do 3 f_equal. unfold audience_names. by destruct (_ =? 0), (_ =? 0).
  - split; [hsolve|done].
Qed.

Lemma put_priority_ample a ann l k h r h' :
  valid_double (priority a) = true -> wf ann -> erase ann = JObject l -> ample h -> put_priority a ann k h = (r, h') ->
  exists o h1, wf o /\ erase o = JObject (joset (cs "priority")
      (if priority_given (priority a) then Some (JNumber (priority a)) else None) l) /\
    hstep h h1 (blocks o - blocks ann) /\ ample h1 /\ k o h1 = (r, h').
Proof.
  intros Hv Hw Hl A H. unfold put_priority in H. destruct (priority_given (priority a)) eqn:G.
  - eapply put_again_ample in H; [exact H|by apply number_attempt| |done|done|lit|done].
    destruct (priority a) as [| |[]|]; done.
  - exists ann, h. do 2 (split; [done|]). split; [hsolve|done].
Qed.

Lemma put_modified_ample a ann l k h r h' :
  text_ok (last_modified a) -> wf ann -> erase ann = JObject l -> ample h -> put_modified a ann k h = (r, h') ->
  exists o h1, wf o /\ erase o = JObject (joset (cs "lastModified")
      (if bool_decide (cstr (last_modified a) = []) then None else Some (JString (cstr (last_modified a)))) l) /\
    hstep h h1 (blocks o - blocks ann) /\ ample h1 /\ k o h1 = (r, h').
Proof.
  intros Hv Hw Hl A H. unfold put_modified in H. destruct (bool_decide _).
  - exists ann, h. do 2 (split; [done|]). split; [hsolve|done].
  - eapply put_again_ample in H; [exact H|by apply string_new_attempt|done|done|done|lit|done].
Qed.

Lemma to_json_ample a h r h' :
  annotations_ok a -> ample h -> mcp_annotations_to_json (Some a) h = (r, h') ->
  exists v, r = Some v /\ wf v /\ erase v = JObject (annotation_members a) /\ hstep h h' (blocks v) /\ ample h'.
Proof.
  intros [Hp _ _ Hm] A H. cbn [mcp_annotations_to_json] in H. apply bind_inv in H as (v0 & h1 & E & H).
  eapply made_ample in E as (v & -> & Hv & He & Hs & A2); [|apply object_new_attempt|done..].
  eapply put_audience_ample in H as (o1 & h2 & W1 & E1 & S1 & A3 & H); [|done..].
  eapply put_priority_ample in H as (o2 & h3 & W2 & E2 & S2 & A4 & H); [|done..].
  eapply put_modified_ample in H as (o3 & h4 & W3 & E3 & S3 & A5 & H); [|done..].
  apply ret_inv in H as [-> ->]. exists o3. do 3 (split; [done|]). split; [hsolve|done].
Qed.

Lemma put_annotations_ample ann obj l h r h' :
  from_option annotations_ok True ann -> wf obj -> erase obj = JObject l -> ample h ->
  put_annotations ann obj h = (r, h') ->
  exists v, r = Some v /\ wf v /\ hstep h h' (blocks v - blocks obj) /\
    erase v = JObject (joset (cs "annotations") ((fun a => JObject (annotation_members a)) <$> ann) l).
Proof.
  intros Ho Hw Hl A H. destruct ann as [a|]; cbn [put_annotations] in H.
  - apply bind_inv in H as (v0 & h1 & E & H). apply to_json_ample in E as (v & -> & Hv & He & Hs & A2); [|done..].
    eapply chk_ample in H; [|apply take_updates; [done|done|done|lit]|done|done].
    destruct H as (o & h2 & Hwo & Heo & Hs3 & A4 & H). apply ret_inv in H as [-> ->]. exists o. do 2 (split; [done|]).
    split; [hsolve|]. by rewrite Heo, He.
  - apply ret_inv in H as [-> ->]. exists obj. do 2 (split; [done|]). split; [hsolve|done].
Qed.

(** One allocation, and one store, of a run with memory. *)
Ltac made_step H :=
  let v0 := fresh "v0" in let h1 := fresh "h" in let E := fresh "E" in
  let v := fresh "v" in let W := fresh "W" in let He := fresh "He" in let S := fresh "S" in let A := fresh "A" in
  apply bind_inv in H as (v0 & h1 & E & H);
  eapply made_ample in E as (v & -> & W & He & S & A);
  [|first [apply string_new_attempt|apply object_new_attempt]|first [assumption|exact I|vm_compute; reflexivity]|eassumption].

Ltac store_step H :=
  let o := fresh "o" in let h1 := fresh "h" in
  let W := fresh "W" in let He := fresh "He" in let S := fresh "S" in let A := fresh "A" in
  eapply chk_ample in H; [|apply take_updates; [eassumption|eassumption|eassumption|lit]|exact I|eassumption];
  destruct H as (o & h1 & W & He & S & A & H).

Lemma fill_resource_ample uri payload mime b inner fail k h r h' :
  text_ok uri -> text_ok payload -> from_option text_ok True mime -> wf inner -> erase inner = JObject [] -> ample h ->
  fill_resource uri payload mime b inner fail k h = (r, h') ->
  exists o h1, wf o /\ ample h1 /\ hstep h h1 (blocks o - blocks inner) /\ k o h1 = (r, h') /\
    erase o = JObject ([(cs "uri", JString (cstr uri)); (if b then cs "blob" else cs "text", JString (cstr payload))] ++
                       from_option (fun m => [(cs "mimeType", JString (cstr m))]) [] mime).
Proof.
  intros Hu Hp Hm Hw He A H. unfold fill_resource in H. do 2 made_step H. store_step H.
  assert (good_string (if b then cs "blob" else cs "text")) as Hk by (destruct b; lit).
  eapply chk_ample in H; [|by apply take_updates|done|done]. destruct H as (o2 & h3 & W2 & E2 & S4 & A3 & H).
  destruct mime as [m|]; cbn [from_option] in *.
  - eapply put_again_ample in H as (o3 & h4 & W3 & E3 & S5 & A4 & H); [|apply string_new_attempt|done|done|done|lit|done].
    exists o3, h4. do 2 (split; [done|]). split; [hsolve|]. split; [done|]. rewrite E3, He0, He1. by destruct b.
  - exists o2, h3. do 2 (split; [done|]). split; [hsolve|]. split; [done|]. rewrite E2, He0, He1. by destruct b.
Qed.

Lemma new_item_ample it ann h r h' :
  ample h -> item_ok it -> from_option annotations_ok True ann -> new_item it ann h = (r, h') ->
  exists v, r = Some v /\ wf v /\ hstep h h' (blocks v) /\
    erase v = JObject (joset (cs "annotations") ((fun a => JObject (annotation_members a)) <$> ann) (item_members it)).
Proof.
  intros A Hit Ha H. destruct it as [text|data mime|uri mime payload b]; cbn [new_item item_ok] in *.
  - cbn [mcp_content_text_new_annotated] in H. do 3 made_step H. do 2 store_step H.
    eapply put_annotations_ample in H as (w & -> & Ww & Sw & Ew); [|done..]. exists w. do 2 (split; [done|]).
    split; [hsolve|]. by rewrite Ew, He0, He1.
  - destruct Hit as [Hd Hm]. cbn [mcp_content_image_new_annotated] in H. do 4 made_step H. do 3 store_step H.
    eapply put_annotations_ample in H as (w & -> & Ww & Sw & Ew); [|done..]. exists w. do 2 (split; [done|]).
    split; [hsolve|]. by rewrite Ew, He0, He1, He2.
  - destruct Hit as (Hu & Hm & Hp). cbn [mcp_content_resource_new_annotated] in H. do 3 made_step H. store_step H.
    eapply fill_resource_ample in H as (i & h5 & Wi & Ai & Si & H & Ei); [|done..]. store_step H.
    eapply put_annotations_ample in H as (w & -> & Ww & Sw & Ew); [|done..]. exists w. do 2 (split; [done|]).
    split; [hsolve|]. by rewrite Ew, Ei, He0.
Qed.

(** ** What the reader sees *)

Lemma array_fold {A} (f : A -> option value -> A) c (vs : list value) m :
  fold_left (fun m i => f m (builtin_array_get (Some (VArray c vs)) i)) (seq 0 (length vs)) m =
  fold_left (fun m v => f m (Some v)) vs m.
Proof.
  cbn [builtin_array_get]. revert m. induction vs as [|v vs IH]; intros m; [done|]. cbn [length seq fold_left lookup list_lookup].
  rewrite <- IH. change (seq 1 (length vs)) with (seq (S 0) (length vs)). rewrite <- fmap_S_seq.
  generalize (seq 0 (length vs)) as ks. intros ks. generalize (f m (Some v)) as m0.
  induction ks as [|i ks IHi]; intros m0; [done|]. cbn. apply IHi.
Qed.

Lemma erase_strings (vs : list value) (ss : list bytes) : map erase vs = map JString ss -> vs = map VString ss.
Proof.
  revert ss. induction vs as [|v vs IH]; intros [|s ss] H; try done. cbn in H. injection H as H1 H2.
  destruct v; try done. cbn in H1. injection H1 as ->. cbn. f_equal. by apply IH.
Qed.

(** The mask survives, bits the protocol does not know apart. *)
Lemma mask_names mask :
  fold_left (fun m v => add_audience m (Some v)) (map VString (audience_names mask)) 0 = Z.land mask 3.
Proof.
  assert (0 <= Z.land mask 3 < 4) as Hr.
  { change 3 with (Z.ones 2). rewrite Z.land_ones by lia. by apply Z.mod_pos_bound. }
  unfold audience_names, MCP_AUDIENCE_USER, MCP_AUDIENCE_ASSISTANT.
  replace (Z.land mask 1) with (Z.land (Z.land mask 3) 1) by (by rewrite <- Z.land_assoc).
  replace (Z.land mask 2) with (Z.land (Z.land mask 3) 2) by (by rewrite <- Z.land_assoc).
  set (r := Z.land mask 3) in *. clearbody r.
  assert (r = 0 \/ r = 1 \/ r = 2 \/ r = 3) as [-> | [-> | [-> | -> ]]] by lia; vm_compute; reflexivity.
Qed.

Lemma read_audience_erase v ss mask :
  erase <$> v = Some (JArray (map JString ss)) ->
  read_audience v mask = fold_left (fun m v => add_audience m (Some v)) (map VString ss) mask.
Proof.
  intros H. destruct v as [[| | | |c vs|]|]; try done. cbn in H. injection H as H. apply erase_strings in H as ->.
  unfold read_audience. cbn [builtin_type_of builtin_array_size]. apply array_fold.
Qed.

Lemma read_priority_erase v j d :
  erase <$> v = JNumber <$> j -> read_priority v d = default d j.
Proof. destruct v as [[]|], j; cbn; intros H; simplify_eq; done. Qed.

Lemma read_modified_erase v j buf :
  erase <$> v = JString <$> j -> read_modified v buf = default buf (stamp <$> j).
Proof. destruct v as [[]|], j; cbn; intros H; simplify_eq; done. Qed.

Lemma cstr_cstr s : cstr (cstr s) = cstr s.
Proof. apply cstr_no_nul, has_nul_cstr. Qed.

Lemma stamp_cstr s : stamp (cstr s) = stamp s.
Proof. unfold stamp. by rewrite cstr_cstr. Qed.

Lemma member_lookups a :
  jlookup (cs "audience") (annotation_members a) =
    (if audience a =? MCP_AUDIENCE_NONE then None else Some (JArray (map JString (audience_names (audience a))))) /\
  jlookup (cs "priority") (annotation_members a) = JNumber <$> (if priority_given (priority a) then Some (priority a) else None) /\
  jlookup (cs "lastModified") (annotation_members a) =
    JString <$> (if bool_decide (cstr (last_modified a) = []) then None else Some (cstr (last_modified a))).
Proof.
  unfold annotation_members. generalize (map JString (audience_names (audience a))) as ns.
  generalize (cstr (last_modified a)) as c. intros c ns.
  destruct (audience a =? _), (priority_given (priority a)), (bool_decide (c = [])); done.
Qed.

Lemma members_read v a out :
  wf v -> erase v = JObject (annotation_members a) ->
  mcp_annotations_from_json (Some v) (Some out) = (MCP_OK, Some (normal a)).
Proof.
  intros Hw He. pose proof (fun k Hk => member_meaning v _ k Hw He Hk) as G. destruct (member_lookups a) as (L1 & L2 & L3).
  unfold mcp_annotations_from_json, normal. do 3 f_equal.
  - specialize (G (cs "audience") ltac:(lit)). rewrite L1 in G. destruct (audience a =? MCP_AUDIENCE_NONE) eqn:N.
    + apply Z.eqb_eq in N. destruct (builtin_object_get _ _); [done|]. by rewrite N.
    + erewrite read_audience_erase by exact G. apply mask_names.
  - specialize (G (cs "priority") ltac:(lit)). rewrite L2 in G. erewrite read_priority_erase by exact G.
    by destruct (priority_given _).
  - specialize (G (cs "lastModified") ltac:(lit)). rewrite L3 in G. erewrite read_modified_erase by exact G.
    case_bool_decide as Hc; cbn -[stamp]; [|apply stamp_cstr]. by rewrite <- (stamp_cstr (last_modified a)), Hc.
Qed.

(** Annotations that the reader returns as they were given. *)
Definition canonical_annotations (a : mcp_content_annotations_t) : Prop :=
  0 <= audience a < 4 /\ (priority_given (priority a) = true \/ priority a = double_of_Z (-1)) /\
  last_modified a = stamp (last_modified a).

Lemma normal_canonical a : canonical_annotations a -> normal a = a.
Proof.
  intros (Ha & Hp & Hl). destruct a as [m d s]. cbn in *. unfold normal. cbn [audience priority last_modified]. f_equal.
  - change 3 with (Z.ones 2). rewrite Z.land_ones by lia. by apply Z.mod_small.
  - destruct Hp as [-> | -> ]; [done|]. by destruct (priority_given _).
  - done.
Qed.

Lemma item_no_annotations it : jlookup (cs "annotations") (item_members it) = None.
Proof. by destruct it. Qed.

(** ** Claims *)

(** C32: With memory, and strings that are UTF-8, each of the three builders
    returns an item of exactly the documented shape that owns all the
    blocks allocated, and [mcp_content_extract_annotations] reads from it
    the annotations that were given: the audience bits the protocol knows,
    the priority when it lies in [0, 1] and [-1.0] otherwise, and the time
    stamp up to its terminator; annotations in canonical form come back
    unchanged.  An item built without annotations reads as cleared ones. *)
Theorem content_roundtrip it ann out h r h' :
  ample h -> item_ok it -> from_option annotations_ok True ann -> new_item it ann h = (r, h') ->
  exists v, r = Some v /\ wf v /\ hstep h h' (blocks v) /\
    erase v = JObject (item_members it ++ from_option (fun a => [(cs "annotations", JObject (annotation_members a))]) [] ann) /\
    mcp_content_extract_annotations (Some v) (Some out) = (MCP_OK, Some (from_option normal cleared ann)) /\
    (forall a, ann = Some a -> canonical_annotations a ->
       mcp_content_extract_annotations (Some v) (Some out) = (MCP_OK, Some a)).
Proof.
  intros A Hit Ha H. apply new_item_ample in H as (v & -> & Hw & Hs & He); [|done..].
  exists v. do 2 (split; [done|]). split; [done|].
  assert (mcp_content_extract_annotations (Some v) (Some out) = (MCP_OK, Some (from_option normal cleared ann))) as Hx.
  { unfold mcp_content_extract_annotations. pose proof (member_meaning v _ (cs "annotations") Hw He ltac:(lit)) as G.
    rewrite jlookup_joset, bool_decide_true, item_no_annotations in G by done.
    destruct (builtin_object_get _ _) as [w|] eqn:Eg, ann as [a|]; try done. cbn in G. apply members_read; [|congruence].
    destruct v as [| | | | |c ms]; try discriminate He. pose proof (object_get_cases c ms (cs "annotations") Hw ltac:(lit)) as Hc.
    rewrite Eg in Hc. by destruct Hc. }
  split; [|split; [done|]].
  - rewrite He. f_equal. destruct ann as [a|]; [|by rewrite app_nil_r]. cbn. by destruct it.
  - intros a -> Hc. rewrite Hx. cbn. by rewrite normal_canonical.
Qed.

(** ** Witnesses and findings *)

Definition sample_annotations : mcp_content_annotations_t :=
  Annotations 3 (double_of_Z 1) (stamp (cs "2026-09-24T00:00:00Z")).

Lemma sample_annotations_ok : annotations_ok sample_annotations.
Proof. by split; vm_compute. Qed.

Lemma content_roundtrip_witness :
  exists r h', new_item (ResourceItem (cs "file:///a") None (cs "hi") false) (Some sample_annotations) fresh_heap = (r, h') /\
  exists v, r = Some v /\ mcp_content_extract_annotations (Some v) (Some cleared) = (MCP_OK, Some sample_annotations).
Proof.
  destruct (new_item (ResourceItem (cs "file:///a") None (cs "hi") false) (Some sample_annotations) fresh_heap) as [r h'] eqn:E.
  exists r, h'. split; [reflexivity|].
  destruct (content_roundtrip (ResourceItem (cs "file:///a") None (cs "hi") false) (Some sample_annotations) cleared fresh_heap r h')
    as (v & Hr & _ & _ & _ & _ & Hx).
  - exact fresh_ample.
  - split; [vm_compute; reflexivity|split; [exact I|vm_compute; reflexivity]].
  - exact sample_annotations_ok.
  - exact E.
  - exists v. split; [exact Hr|]. apply (Hx sample_annotations eq_refl).
    split; [split; vm_compute; congruence|split; [left; vm_compute; reflexivity|vm_compute; reflexivity]].
Defined.

(** A heap whose [n]-th request alone is refused. *)
Definition refuse_at (n : nat) : heap := Heap (Nat.eqb n) 0 0 false.

(** When the [text] member cannot be stored its value is destroyed twice. *)
Lemma text_freed_twice :
  exists h', mcp_content_text_new_annotated (Some (cs "hi")) None (refuse_at 8) = (None, h') /\ corrupt h' = true.
Proof. eexists. split; vm_compute; reflexivity. Qed.

(** When the [type] of an image cannot be stored the data is never freed. *)
Lemma image_data_leaks :
  exists h', mcp_content_image_new_annotated (Some (cs "AA")) (Some (cs "image/png")) None (refuse_at 7) = (None, h') /\
  corrupt h' = false /\ live h' = 2.
Proof. eexists. split; [|split]; vm_compute; reflexivity. Qed.

(** When the payload of a resource cannot be created the URI is never
    freed. *)
Lemma resource_uri_leaks :
  exists h', mcp_content_resource_new_annotated (Some (cs "a:b")) None (Some (cs "hi")) false None (refuse_at 9) = (None, h') /\
  corrupt h' = false /\ live h' = 2.
Proof. eexists. split; [|split]; vm_compute; reflexivity. Qed.

(** An item whose annotations run out of memory is returned as if none had
    been asked for. *)
Lemma annotations_dropped :
  exists v h', mcp_content_text_new_annotated (Some (cs "hi")) (Some sample_annotations) (refuse_at 9) = (Some v, h') /\
  builtin_object_get (Some v) (Some (cs "annotations")) = None.
Proof. eexists _, _. split; vm_compute; reflexivity. Qed.

(** A stamp that is too long is cut in the middle of a character: what was
    read can no longer be written. *)
Definition long_stamp : value := VObject 4 [(cs "lastModified", VString (replicate 62 "a"%byte ++ [xc3; xa9]))].

Lemma long_stamp_cut :
  wf long_stamp /\
  exists a, mcp_annotations_from_json (Some long_stamp) (Some cleared) = (MCP_OK, Some a) /\
  (mcp_annotations_to_json (Some a) fresh_heap).1 = None.
Proof.
  split.
  - split; [simpl; lia|]. split; [apply NoDup_singleton|]. split; [lit|]. split; [lit|done].
  - eexists. split; [vm_compute; reflexivity|vm_compute; reflexivity].
Qed.

(** An [annotations] value that is not an object is read as cleared
    annotations, with [MCP_OK]. *)
Lemma malformed_accepted :
  mcp_annotations_from_json (Some (VString (cs "x"))) (Some sample_annotations) = (MCP_OK, Some cleared).
Proof. reflexivity. Qed.
