(* ===== verification/Loose.v ===== *)
(** * Stores that ignore their status, and JSON documents

    Some of the code (src/protocol/sampling.c, src/protocol/registry.c,
    src/core/auth.c) fills an object without looking at the result of
    [mcp_json_object_set_take], and turns a JSON text into a structure of
    strings copied out of it and back.  This file has those patterns and one
    rule for each: the object stays sound whatever the allocator refuses, and
    with memory the member is there. *)
From S2P Require Import Prelude Heap Utf8 Double JsonValue JsonParse JsonGrammar JsonSerialize JsonApi Schema Message Builders.

Local Open Scope Z_scope.

(** ** Stores *)

(** [mcp_json_object_set_take(obj, key, mk())] with the status ignored: the
    object afterwards. *)
Definition put_loose (obj : option value) (key : bytes) (mk : M (option value)) : M (option value) :=
  v <- mk ;;
  r <- object_set_take obj key v ;;
  ret r.2.

(** [if ((v = mk()) != NULL) mcp_json_object_set_take(obj, key, v)]. *)
Definition put_made (obj : option value) (key : bytes) (mk : M (option value)) : M (option value) :=
  v <- mk ;;
  match v with
  | None => ret obj
  | Some _ => r <- object_set_take obj key v ;; ret r.2
  end.

(** [if (s != NULL) mcp_json_object_set_take(obj, key,
    mcp_json_string_new(s))]. *)
Definition put_text (obj : option value) (key : bytes) (s : option bytes) : M (option value) :=
  match s with None => ret obj | Some s => put_loose obj key (string_new s) end.

(** ** Documents *)

(** A copy of the string under [key], NULL when there is none. *)
Definition dup_member (obj : option value) (key : bytes) : M (option bytes) :=
  strdup (builtin_get_string (builtin_object_get obj (Some key))).

(** [if (s != NULL) free(s)]. *)
Definition free_text (s : option bytes) : M unit := xfree (match s with None => true | Some _ => false end).

(** [mcp_json_parse] and the test for an object: the root, or NULL with
    everything freed. *)
Definition parse_object_root (text : option bytes) : M (option value) :=
  r <- builtin_parse text ;;
  match parsed r with
  | None => ret None
  | Some root =>
      match builtin_type_of (Some root) with
      | MCP_JSON_OBJECT => ret (Some root)
      | _ => builtin_destroy (Some root) ;; ret None
      end
  end.

(** [out = mcp_json_serialize(root); mcp_json_destroy(root); return out]. *)
Definition print_root (root : option value) : M (option bytes) :=
  out <- builtin_serialize root ;;
  builtin_destroy root ;;
  ret out.

(** ** Rules *)

(** A constructor that may lose parts of its value when memory is refused:
    what it returns is sound, and with memory means [j]. *)
Definition loosely (mk : M (option value)) (j : json) (ok : Prop) : Prop :=
  forall h r h', mk h = (r, h') -> hstep h h' (oblocks r) /\ owf r /\ (ample h /\ ok -> erase <$> r = Some j).

Lemma attempt_loosely mk j ok : attempt mk j ok -> loosely mk j ok.
Proof.
  intros Hm h r h' H. destruct (Hm _ _ _ H) as [Hs Hr]. split; [done|]. destruct r as [v|]; [|by split; [|intros ?%Hr]].
  destruct Hr as [Hw <-]. done.
Qed.

(** What a store leaves of the object [obj]: an object that owns its
    blocks, with the members [l'] when [ok]. *)
Definition stored (obj : value) (r : option value) (h h' : heap) (l' : list (bytes * json)) (ok : Prop) : Prop :=
  exists o l, r = Some o /\ wf o /\ erase o = JObject l /\ hstep h h' (blocks o - blocks obj) /\ (ample h /\ ok -> l = l').

(** Stores whose status is ignored: the object is sound whatever happens, and
    with memory the member is there. *)
Lemma put_loosely obj l key mk j (ok : Prop) h r h' :
  wf obj -> erase obj = JObject l -> good_string key -> loosely mk j ok -> put_loose (Some obj) key mk h = (r, h') ->
  stored obj r h h' (jinsert key j l) ok.
Proof.
  intros Hw Hl Hk Hm H. unfold put_loose in H. apply bind_inv in H as (v & h1 & E & H).
  destruct (Hm _ _ _ E) as (Hs & Hwv & Hv). apply bind_inv in H as ([st r1] & h2 & E2 & H). apply ret_inv in H as [-> ->]. cbn [snd].
  destruct v as [v|].
  - destruct (take_updates obj l key v Hw Hl Hwv Hk _ _ _ _ E2) as (o & -> & Hwo & Hs2 & Hc).
    destruct Hc as [[-> Heo]|(_ & [l' Hl'] & Hna)].
    + exists o, (jinsert key (erase v) l). do 3 (split; [done|]). split; [cbn in Hs; hsolve|]. intros Hok.
      specialize (Hv Hok). cbn in Hv. by simplify_eq.
    + exists o, l'. do 3 (split; [done|]). split; [cbn in Hs; hsolve|]. intros [A _]. destruct Hna. split; [by eapply ample_hstep|done].
  - unfold object_set_take, mcp_json_object_set_take in E2.
    assert (r1 = Some obj /\ h2 = h1) as [-> ->] by (destruct obj; try discriminate Hl; unfold bind, ret in E2; cbn in E2; by simplify_eq).
    exists obj, l. do 3 (split; [done|]). split; [cbn in Hs; hsolve|]. intros Hok. by specialize (Hv Hok).
Qed.

Lemma put_made_loosely obj l key mk j (ok : Prop) h r h' :
  wf obj -> erase obj = JObject l -> good_string key -> loosely mk j ok -> put_made (Some obj) key mk h = (r, h') ->
  stored obj r h h' (jinsert key j l) ok.
Proof.
  intros Hw Hl Hk Hm H. eapply put_loosely; [done|done|done|done|]. unfold put_loose, put_made in *.
  apply bind_inv in H as (v & h1 & E & H). unfold bind. rewrite E. destruct v as [v|]; [done|].
  apply ret_inv in H as [-> ->]. destruct obj; try done.
Qed.

Lemma put_loose_spec obj l key mk j (ok : Prop) h r h' :
  wf obj -> erase obj = JObject l -> good_string key -> attempt mk j ok -> put_loose (Some obj) key mk h = (r, h') ->
  exists o l', r = Some o /\ wf o /\ erase o = JObject l' /\ hstep h h' (blocks o - blocks obj) /\
    (ample h /\ ok -> l' = jinsert key j l).
Proof. intros Hw Hl Hk Hm H. by eapply put_loosely; [| | |by apply attempt_loosely|]. Qed.

Lemma put_made_spec obj l key mk j (ok : Prop) h r h' :
  wf obj -> erase obj = JObject l -> good_string key -> attempt mk j ok -> put_made (Some obj) key mk h = (r, h') ->
  exists o l', r = Some o /\ wf o /\ erase o = JObject l' /\ hstep h h' (blocks o - blocks obj) /\
    (ample h /\ ok -> l' = jinsert key j l).
Proof. intros Hw Hl Hk Hm H. by eapply put_made_loosely; [| | |by apply attempt_loosely|]. Qed.

(** A text, or NULL. *)
Definition otext_ok (s : option bytes) : Prop := from_option (fun s => utf8_valid (cstr s) = true) True s.
Definition otext_json (s : option bytes) : option json := (fun s => JString (cstr s)) <$> s.

Lemma put_text_spec obj l key s h r h' :
  wf obj -> erase obj = JObject l -> good_string key -> put_text (Some obj) key s h = (r, h') ->
  exists o l', r = Some o /\ wf o /\ erase o = JObject l' /\ hstep h h' (blocks o - blocks obj) /\
    (ample h /\ otext_ok s -> l' = joset key (otext_json s) l).
Proof.
  intros Hw Hl Hk H. destruct s as [s|]; cbn [put_text] in H.
  - eapply put_loose_spec in H; [exact H|done|done|done|apply string_new_attempt].
  - apply ret_inv in H as [-> ->]. exists obj, l. do 3 (split; [done|]). split; [hsolve|done].
Qed.

(** The string under a key, on the abstract object. *)
Definition jtext_of (key : bytes) (l : list (bytes * json)) : option bytes :=
  match jlookup key l with Some (JString s) => Some s | _ => None end.

Definition tblocks (s : option bytes) : Z := match s with Some _ => 1 | None => 0 end.

Lemma get_text obj l key :
  wf obj -> erase obj = JObject l -> good_string key ->
  builtin_get_string (builtin_object_get (Some obj) (Some key)) = jtext_of key l.
Proof.
  intros Hw Hl Hk. unfold jtext_of. rewrite <- (member_meaning obj l key Hw Hl Hk).
  by destruct (builtin_object_get _ _) as [[]|].
Qed.

Lemma jtext_good obj l key s : wf obj -> erase obj = JObject l -> good_string key -> jtext_of key l = Some s -> good_string s.
Proof.
  intros Hw Hl Hk Hs. rewrite <- (get_text obj l key Hw Hl Hk) in Hs. destruct obj as [| | | | |c m]; try discriminate Hl.
  pose proof (object_get_cases c m key Hw Hk) as Hc. destruct (builtin_object_get _ _) as [[]|]; try done.
  cbn in Hs. simplify_eq. by destruct Hc.
Qed.

Lemma dup_member_spec obj l key h r h' :
  wf obj -> erase obj = JObject l -> good_string key -> dup_member (Some obj) key h = (r, h') ->
  hstep h h' (tblocks r) /\ (r = None \/ r = jtext_of key l) /\ (ample h -> r = jtext_of key l).
Proof.
  intros Hw Hl Hk H. unfold dup_member in H. rewrite (get_text obj l key Hw Hl Hk) in H.
  apply strdup_spec in H as (Hs & Hr & Ha). split; [by destruct r|].
  destruct (jtext_of key l) as [s|] eqn:Ej.
  - pose proof (jtext_good obj l key s Hw Hl Hk Ej) as [Hn _]. destruct r as [s'|].
    + destruct (Hr s' eq_refl) as (s0 & Hs0 & Hs'). simplify_eq. rewrite (cstr_no_nul _ Hn). auto.
    + split; [by left|]. intros A. destruct (Ha A) as [? ?]; [by eexists|done].
  - destruct r as [s'|]; [|auto]. by destruct (Hr s' eq_refl) as (s0 & Hs0 & _).
Qed.

Lemma free_text_hstep s h u h' : free_text s h = (u, h') -> hstep h h' (- tblocks s).
Proof. intros H. unfold free_text in H. apply xfree_hstep in H. by destruct s. Qed.

(** The text is a JSON object with the members [l]. *)
Definition object_text (text : bytes) (l : list (bytes * json)) : Prop :=
  utf8_valid text = true /\ jtext MCP_JSON_MAX_DEPTH text (JObject l).

Lemma object_text_det text l l' : object_text text l -> object_text text l' -> l = l'.
Proof.
  intros [Hu Hj] [_ Hj']. pose proof fresh_ample as A.
  destruct (builtin_parse_complete text _ _ A Hu Hj) as (v & h1 & E & Hv).
  destruct (builtin_parse_complete text _ _ A Hu Hj') as (v' & h2 & E' & Hv'). congruence.
Qed.

Lemma parse_object_root_spec text h r h' :
  parse_object_root (Some text) h = (r, h') ->
  match r with
  | Some root => wf root /\ hstep h h' (blocks root) /\ exists l, erase root = JObject l /\ object_text text l
  | None => hstep h h' 0 /\ ~ (ample h /\ exists l, object_text text l)
  end.
Proof.
  intros H. unfold parse_object_root in H. apply bind_inv in H as (p & h1 & E & H).
  pose proof (builtin_parse_spec _ _ _ _ E) as Hp.
  assert (forall l, ample h -> object_text text l -> exists v, p = Got v /\ erase v = JObject l) as Hc.
  { intros l A [Hu Hj]. destruct (builtin_parse_complete text _ h A Hu Hj) as (v & h2 & E2 & Hv). exists v. split; [congruence|done]. }
  destruct p as [| |v]; cbn [parsed] in H; [done| |].
  - apply ret_inv in H as [-> ->]. split; [done|]. intros (A & l & Hl). by destruct (Hc l A Hl) as (v & ? & _).
  - destruct Hp as [Hs Hw]. pose proof (builtin_parse_sound _ _ _ _ E) as [Hu Hj].
    destruct v as [| | | | |c m]; cbn [builtin_type_of] in H.
    6: { apply ret_inv in H as [-> ->]. split; [done|]. split; [done|]. eexists. split; [done|]. by split. }
    all: apply bind_inv in H as (u & h2 & E2 & H); apply builtin_destroy_hstep in E2; apply ret_inv in H as [-> ->].
    all: split; [simpl in *; hsolve|]; intros (A & l & Hl); destruct (Hc l A Hl) as (w & Hw' & He); simplify_eq; discriminate He.
Qed.

(** The printed text of an object is its text. *)
Lemma print_root_spec root l h r h' :
  wf root -> erase root = JObject l -> jdepth (JObject l) <= MCP_JSON_MAX_DEPTH -> print_root (Some root) h = (r, h') ->
  hstep h h' (tblocks r - blocks root) /\
  match r with Some text => object_text text l | None => ~ ample h end.
Proof.
  intros Hw Hl Hd H. unfold print_root in H. apply bind_inv in H as (out & h1 & E & H).
  apply serialize_spec in E; [|done]. apply bind_inv in H as (u & h2 & E2 & H). apply builtin_destroy_hstep in E2.
  apply ret_inv in H as [-> ->]. destruct out as [text|].
  - destruct E as [Hs Ht]. split; [cbn in *; hsolve|]. rewrite Ht, Hl. split; [rewrite <- Hl; by apply render_utf8|].
    exists [], (render (JObject l)), []. split; [constructor|]. split; [constructor|]. rewrite app_nil_r. split; [done|].
    rewrite <- Hl. apply render_jvalue; [done|by rewrite Hl].
  - destruct E as [Hs Hna]. split; [cbn in *; hsolve|done].
Qed.

(** One store of a chain. *)
Ltac text_step H :=
  let o0 := fresh "o0" in let h1 := fresh "h" in let E := fresh "E" in
  let o := fresh "o" in let l := fresh "l" in let W := fresh "W" in let He := fresh "He" in
  let S := fresh "S" in let J := fresh "J" in
  apply bind_inv in H as (o0 & h1 & E & H);
  eapply put_text_spec in E as (o & l & -> & W & He & S & J); [|eassumption|eassumption|lit].

Ltac loose_step H mk :=
  let o0 := fresh "o0" in let h1 := fresh "h" in let E := fresh "E" in
  let o := fresh "o" in let l := fresh "l" in let W := fresh "W" in let He := fresh "He" in
  let S := fresh "S" in let J := fresh "J" in
  apply bind_inv in H as (o0 & h1 & E & H);
  eapply put_loose_spec in E as (o & l & -> & W & He & S & J); [|eassumption|eassumption|lit|apply mk].
