(* ===== verification/Sampling.v ===== *)
(** * Sampling with tools (src/protocol/sampling.c)

    The parameters of a [sampling/createMessage] request: creation, tool
    definitions, tool choice, their readers, and the two content blocks of a
    tool call.  Most stores of this file ignore their status; where one is
    checked, the value is destroyed a second time after a failure. *)
From S2P Require Import Prelude Heap Utf8 Double JsonValue JsonParse JsonSerialize JsonApi Schema Message Builders Initialize RouteLaws Content Loose.

Local Open Scope Z_scope.

(** ** Data (include/mcpkit/protocol/sampling.h) *)

Inductive mcp_sampling_tool_choice_t :=
| MCP_TOOL_CHOICE_AUTO | MCP_TOOL_CHOICE_NONE | MCP_TOOL_CHOICE_REQUIRED | MCP_TOOL_CHOICE_SPECIFIC.

#[export] Instance tool_choice_eq_dec : EqDecision mcp_sampling_tool_choice_t.
Proof. solve_decision. Defined.

Record mcp_sampling_tool_def_t := ToolDef {
  def_name : option bytes;
  def_description : option bytes;
  def_input_schema : option value;
}.

(** ** Operations *)

(** [uint32_t] to [double]. *)
Definition mcp_sampling_params_new (max_tokens : Z) : M (option value) :=
  obj <- builtin_new_object ;;
  match obj with
  | None => ret None
  | Some _ =>
      obj <- put_loose obj (cs "maxTokens") (builtin_new_number (double_of_Z max_tokens)) ;;
      put_made obj (cs "messages") builtin_new_array
  end.

(** A write through the pointer [mcp_json_object_get(obj, key)]. *)
Definition write_member (obj : option value) (key : bytes) (v : option value) : option value :=
  match obj, v with
  | Some (VObject cap members), Some v =>
      match find_key key members with
      | Some i => Some (VObject cap (alter (fun kv => (kv.1, v)) i members))
      | None => obj
      end
  | _, _ => obj
  end.

(** The object of one tool definition. *)
Definition tool_object (tool : mcp_sampling_tool_def_t) (name : bytes) (tobj : option value) : M (option value) :=
  tobj <- put_loose tobj (cs "name") (string_new name) ;;
  tobj <- match def_description tool with
          | None => ret tobj
          | Some d => put_loose tobj (cs "description") (string_new d)
          end ;;
  match def_input_schema tool with
  | None => ret tobj
  | Some s => put_made tobj (cs "inputSchema") (json_clone (Some s))
  end.

(** The second half: [tools] is the member of [params]. *)
Definition append_tool (params tools : option value) (tool : mcp_sampling_tool_def_t) (name : bytes)
    : M (mcp_status_t * option value) :=
  tobj <- builtin_new_object ;;
  match tobj with
  | None => ret (MCP_ERR_NOMEM, params)
  | Some _ =>
      tobj <- tool_object tool name tobj ;;
      r <- builtin_array_append tools tobj ;;
      match r with
      | (MCP_OK, tools') => ret (MCP_OK, write_member params (cs "tools") tools')
      | _ => builtin_destroy tobj ;; ret (MCP_ERR_NOMEM, params)
      end
  end.

(** The status and [params] afterwards. *)
Definition mcp_sampling_params_add_tool (params : option value) (tool : option mcp_sampling_tool_def_t)
    : M (mcp_status_t * option value) :=
  match params, tool with
  | Some _, Some tool =>
      match def_name tool with
      | None => ret (MCP_ERR_INVALID_ARGUMENT, params)
      | Some name =>
          match builtin_object_get params (Some (cs "tools")) with
          | None =>
              tools <- builtin_new_array ;;
              match tools with
              | None => ret (MCP_ERR_NOMEM, params)
              | Some _ =>
                  r <- object_set_take params (cs "tools") tools ;;
                  match r with
                  | (MCP_OK, params) => append_tool params tools tool name
                  | (_, params) => mark_corrupt ;; ret (MCP_ERR_NOMEM, params)
                  end
              end
          | tools => append_tool params tools tool name
          end
      end
  | _, _ => ret (MCP_ERR_INVALID_ARGUMENT, params)
  end.

Definition mode_str (mode : mcp_sampling_tool_choice_t) : bytes :=
  match mode with
  | MCP_TOOL_CHOICE_AUTO => cs "auto"
  | MCP_TOOL_CHOICE_NONE => cs "none"
  | MCP_TOOL_CHOICE_REQUIRED => cs "required"
  | MCP_TOOL_CHOICE_SPECIFIC => cs "tool"
  end.

(** [mode == MCP_TOOL_CHOICE_SPECIFIC && (name == NULL || name[0] == 0)]. *)
Definition name_missing (mode : mcp_sampling_tool_choice_t) (name : option bytes) : bool :=
  match mode with
  | MCP_TOOL_CHOICE_SPECIFIC => bool_decide (cstr (default [] name) = [])
  | _ => false
  end.

Definition mcp_sampling_params_set_tool_choice (params : option value) (mode : mcp_sampling_tool_choice_t)
    (specific_tool_name : option bytes) : M (mcp_status_t * option value) :=
  match params with
  | None => ret (MCP_ERR_INVALID_ARGUMENT, params)
  | Some _ =>
      if name_missing mode specific_tool_name then ret (MCP_ERR_INVALID_ARGUMENT, params) else
      tc <- builtin_new_object ;;
      match tc with
      | None => ret (MCP_ERR_NOMEM, params)
      | Some _ =>
          tc <- put_loose tc (cs "mode") (string_new (mode_str mode)) ;;
          tc <- match mode, specific_tool_name with
                | MCP_TOOL_CHOICE_SPECIFIC, Some name => put_loose tc (cs "name") (string_new name)
                | _, _ => ret tc
                end ;;
          r <- object_set_take params (cs "toolChoice") tc ;;
          match r with
          | (MCP_OK, params) => ret (MCP_OK, params)
          | (_, params) => mark_corrupt ;; ret (MCP_ERR_NOMEM, params)
          end
      end
  end.

Definition mcp_sampling_params_get_tool_count (params : option value) : nat :=
  match params with
  | None => O
  | Some _ =>
      let tools := builtin_object_get params (Some (cs "tools")) in
      match builtin_type_of tools with MCP_JSON_ARRAY => builtin_array_size tools | _ => O end
  end.

Definition mcp_sampling_params_get_tool_at (params : option value) (index : nat) : option value :=
  match params with
  | None => None
  | Some _ =>
      let tools := builtin_object_get params (Some (cs "tools")) in
      match builtin_type_of tools with MCP_JSON_ARRAY => builtin_array_get tools index | _ => None end
  end.

(** The mode of a [toolChoice] that is a string. *)
Definition plain_mode (s : bytes) : option mcp_sampling_tool_choice_t :=
  if streq s (cs "auto") then Some MCP_TOOL_CHOICE_AUTO
  else if streq s (cs "none") then Some MCP_TOOL_CHOICE_NONE
  else if streq s (cs "required") then Some MCP_TOOL_CHOICE_REQUIRED
  else None.

(** The status, [*out_mode] when it is written, and [*out_specific_tool_name]
    ([want_name]: that pointer is not NULL; [out_mode] is not NULL when
    [want_mode]). *)
Definition mcp_sampling_params_get_tool_choice (params : option value) (want_mode want_name : bool)
    : mcp_status_t * option mcp_sampling_tool_choice_t * option bytes :=
  match params with
  | Some _ =>
      if negb want_mode then (MCP_ERR_INVALID_ARGUMENT, None, None) else
      match builtin_object_get params (Some (cs "toolChoice")) with
      | None => (MCP_ERR_NOT_FOUND, None, None)
      | Some (VString s) =>
          match plain_mode s with
          | Some m => (MCP_OK, Some m, None)
          | None => (MCP_ERR_INVALID_ARGUMENT, None, None)
          end
      | Some (VObject c ms) =>
          let tc := Some (VObject c ms) in
          match builtin_get_string (builtin_object_get tc (Some (cs "mode"))) with
          | None => (MCP_ERR_INVALID_ARGUMENT, None, None)
          | Some mstr =>
              match plain_mode mstr with
              | Some m => (MCP_OK, Some m, None)
              | None =>
                  if streq mstr (cs "tool")
                  then (MCP_OK, Some MCP_TOOL_CHOICE_SPECIFIC,
                        if want_name then builtin_get_string (builtin_object_get tc (Some (cs "name"))) else None)
                  else (MCP_ERR_INVALID_ARGUMENT, None, None)
              end
          end
      | Some _ => (MCP_ERR_INVALID_ARGUMENT, None, None)
      end
  | None => (MCP_ERR_INVALID_ARGUMENT, None, None)
  end.

Definition mcp_sampling_content_tool_use_new (id name : option bytes) (input : option value) : M (option value) :=
  match id, name with
  | Some id, Some name =>
      obj <- builtin_new_object ;;
      match obj with
      | None => builtin_destroy input ;; ret None
      | Some _ =>
          obj <- put_loose obj (cs "type") (string_new (cs "tool_use")) ;;
          obj <- put_loose obj (cs "id") (string_new id) ;;
          obj <- put_loose obj (cs "name") (string_new name) ;;
          put_made obj (cs "input") (match input with None => builtin_new_object | Some _ => ret input end)
      end
  | _, _ => builtin_destroy input ;; ret None
  end.

Definition mcp_sampling_content_tool_result_new (tool_use_id content : option bytes) (is_error : bool)
    : M (option value) :=
  match tool_use_id with
  | None => ret None
  | Some tool_use_id =>
      obj <- builtin_new_object ;;
      match obj with
      | None => ret None
      | Some _ =>
          obj <- put_loose obj (cs "type") (string_new (cs "tool_result")) ;;
          obj <- put_loose obj (cs "toolUseId") (string_new tool_use_id) ;;
          obj <- put_loose obj (cs "content") (string_new (default [] content)) ;;
          put_loose obj (cs "isError") (builtin_new_bool is_error)
      end
  end.

(** ** Stores and writes through a member *)

(** A member by its position. *)
Lemma get_node c l i key x :
  wf (VObject c l) -> good_string key -> l !! i = Some (key, x) ->
  find_key key l = Some i /\ builtin_object_get (Some (VObject c l)) (Some key) = Some x.
Proof.
  intros Hw [Hn Hu] Hi. pose proof Hw as (_ & Hnd & Hl)%wf_object. pose proof (find_key_spec key l Hn Hl) as Hf.
  assert (find_key key l = Some i) as Hk.
  { destruct (find_key key l) as [j|].
    - destruct Hf as ((y & Hj) & _). f_equal. eapply (NoDup_lookup (map fst l)); [done| |].
      + change (map fst l) with (fst <$> l). by rewrite list_lookup_fmap, Hj.
      + change (map fst l) with (fst <$> l). by rewrite list_lookup_fmap, Hi.
    - destruct Hf as (Hnot & _). destruct Hnot. apply list_elem_of_fmap. exists (key, x). split; [done|].
      by eapply list_elem_of_lookup_2. }
  split; [done|]. cbn [builtin_object_get]. by rewrite (cstr_no_nul key Hn), Hu, Hk, Hi.
Qed.

Lemma get_position c l key x :
  wf (VObject c l) -> good_string key -> builtin_object_get (Some (VObject c l)) (Some key) = Some x ->
  exists i, l !! i = Some (key, x).
Proof.
  intros Hw [Hn Hu] H. pose proof Hw as (_ & _ & Hl)%wf_object. pose proof (find_key_spec key l Hn Hl) as Hf.
  cbn [builtin_object_get] in H. rewrite (cstr_no_nul key Hn), Hu in H. cbn [negb] in H.
  destruct (find_key key l) as [i|]; [|done]. destruct Hf as ((y & Hi) & _). rewrite Hi in H. exists i. cbn in H. congruence.
Qed.

Lemma write_member_spec obj l key old v :
  wf obj -> erase obj = JObject l -> good_string key -> builtin_object_get (Some obj) (Some key) = Some old -> wf v ->
  exists o, write_member (Some obj) key (Some v) = Some o /\ wf o /\ erase o = JObject (jinsert key (erase v) l) /\
    blocks o = blocks obj - blocks old + blocks v.
Proof.
  intros Hw Hl Hk Hg Hv. destruct obj as [| | | | |c m]; try discriminate Hl.
  pose proof (get_position c m key old Hw Hk Hg) as [i Hi]. destruct (get_node c m i key old Hw Hk Hi) as [Hf _].
  unfold write_member. rewrite Hf. eexists. split; [done|]. split; [by eapply wf_alter|].
  pose proof (find_key_spec key m (proj1 Hk) ltac:(by apply wf_object in Hw as (_ & _ & ?))) as Hspec.
  rewrite Hf in Hspec. destruct Hspec as (_ & _ & Hins). rewrite erase_object in Hl. simplify_eq.
  split; [rewrite erase_object; by rewrite Hins|]. cbn [blocks].
  fold (mblocks (alter (fun kv => (kv.1, v)) i m)). fold (mblocks m). rewrite (mblocks_alter _ _ _ _ Hi). cbn [snd]. lia.
Qed.

(** The node stored is the node found. *)
Lemma set_take_node obj l key v h o h' :
  wf obj -> erase obj = JObject l -> wf v -> good_string key ->
  object_set_take (Some obj) key (Some v) h = ((MCP_OK, Some o), h') ->
  builtin_object_get (Some o) (Some key) = Some v.
Proof.
  intros Hw Hl Hv Hk H. assert (wf o) as Hwo.
  { destruct (take_updates obj l key v Hw Hl Hv Hk _ _ _ _ H) as (o' & Ho & Hwo & _). by simplify_eq. }
  unfold object_set_take, mcp_json_object_set_take in H. apply bind_inv in H as ([st r] & h1 & E & H). cbn [fst] in H.
  assert (st = MCP_OK /\ r = Some o) as [-> ->].
  { destruct st; [by apply ret_inv in H as [[= ->] _]|..].
    all: apply bind_inv in H as (u & h2 & _ & H); apply ret_inv in H as [? _]; simplify_eq. }
  clear H.
  unfold mcp_json_object_set, builtin_object_set in E. destruct obj as [| | | | |c m]; try discriminate Hl. destruct Hk as [Hn Hu].
  cbn [resolve ops_object_set mcp_json_builtin_backend] in E. unfold builtin_object_set in E.
  rewrite (cstr_no_nul key Hn), Hu in E. cbn [negb] in E.
  pose proof (find_key_spec key m Hn ltac:(by apply wf_object in Hw as (_ & _ & ?))) as Hf.
  destruct (find_key key m) as [i|].
  - destruct Hf as ((x & Hi) & _). apply bind_inv in E as (u & h2 & _ & E). apply ret_inv in E as [[= ->] _].
    eapply get_node; [exact Hwo|done|]. rewrite list_lookup_alter, decide_True by done. by rewrite Hi.
  - apply bind_inv in E as ([st1 c1] & h2 & _ & E). destruct st1; try (apply ret_inv in E as [? _]; simplify_eq; fail).
    apply bind_inv in E as (ok & h3 & _ & E). destruct ok; cbn [negb] in E; [|apply ret_inv in E as [? _]; simplify_eq].
    apply ret_inv in E as [[= ->] _]. eapply (get_node c1 _ (length m)); [exact Hwo|done|].
    by rewrite lookup_app_r, Nat.sub_diag.
Qed.

(** ** Tools *)

(** A definition a program may add. *)
Definition tool_def_ok (t : mcp_sampling_tool_def_t) : Prop :=
  (exists n, def_name t = Some n /\ text_ok n) /\ from_option text_ok True (def_description t) /\ owf (def_input_schema t).

Definition tool_def_json (t : mcp_sampling_tool_def_t) : json :=
  JObject (joset (cs "inputSchema") (erase <$> def_input_schema t)
    (joset (cs "description") ((fun d => JString (cstr d)) <$> def_description t)
      [(cs "name", JString (cstr (default [] (def_name t))))])).

Lemma tool_object_spec t name obj h r h' :
  wf obj -> erase obj = JObject [] -> def_name t = Some name -> owf (def_input_schema t) ->
  tool_object t name (Some obj) h = (r, h') ->
  exists o l', r = Some o /\ wf o /\ erase o = JObject l' /\ hstep h h' (blocks o - blocks obj) /\
    (ample h /\ tool_def_ok t -> JObject l' = tool_def_json t).
Proof.
  intros Hw Hl Hn Hs H. unfold tool_object in H. apply bind_inv in H as (o0 & h1 & E & H).
  eapply put_loose_spec in E as (o1 & l1 & -> & W1 & E1 & S1 & J1); [|done|done|lit|apply string_new_attempt].
  apply bind_inv in H as (o0 & h2 & E & H).
  assert (exists o2 l2, o0 = Some o2 /\ wf o2 /\ erase o2 = JObject l2 /\ hstep h1 h2 (blocks o2 - blocks o1) /\
    (ample h1 /\ tool_def_ok t -> l2 = joset (cs "description") ((fun d => JString (cstr d)) <$> def_description t) l1))
    as (o2 & l2 & -> & W2 & E2 & S2 & J2).
  { destruct (def_description t) as [d|] eqn:Hd.
    - eapply put_loose_spec in E as (o2 & l2 & ? & W2 & E2 & S2 & J2); [|done|done|lit|apply string_new_attempt].
      exists o2, l2. do 4 (split; [done|]). intros [A (_ & Ht & _)]. apply J2. rewrite Hd in Ht. done.
    - apply ret_inv in E as [-> ->]. exists o1, l1. do 3 (split; [done|]). split; [hsolve|done]. }
  assert (exists o3 l3, r = Some o3 /\ wf o3 /\ erase o3 = JObject l3 /\ hstep h2 h' (blocks o3 - blocks o2) /\
    (ample h2 -> l3 = joset (cs "inputSchema") (erase <$> def_input_schema t) l2))
    as (o3 & l3 & -> & W3 & E3 & S3 & J3).
  { destruct (def_input_schema t) as [s|] eqn:Hd.
    - eapply put_made_spec in H as (o3 & l3 & ? & W3 & E3 & S3 & J3); [|done|done|lit|by apply clone_attempt].
      exists o3, l3. do 4 (split; [done|]). intros A. by apply J3.
    - apply ret_inv in H as [-> ->]. exists o2, l2. do 3 (split; [done|]). split; [hsolve|done]. }
  exists o3, l3. do 3 (split; [done|]). split; [hsolve|]. intros [A Hok].
  assert (ample h1) as A1 by (by eapply ample_hstep). assert (ample h2) as A2 by (by eapply ample_hstep).
  rewrite (J3 A2), (J2 (conj A1 Hok)), J1; [by unfold tool_def_json; rewrite Hn|]. split; [done|].
  destruct Hok as ((n & Hn' & Hok) & _). by simplify_eq.
Qed.

(** The tools of a request, when the member is absent or an array. *)
Definition tools_of (l : list (bytes * json)) (js : list json) : Prop :=
  match jlookup (cs "tools") l with None => js = [] | Some j => j = JArray js end.

Lemma mark_corrupt_hstep h u h' d : ~ ample h -> mark_corrupt h = (u, h') -> hstep h h' d.
Proof. intros Hn H. unfold mark_corrupt in H. simplify_eq. split; [done|done|]. by intros A%Hn. Qed.

(** A refused append leaves the array as it was. *)
Lemma append_refused arr v h st r h' : builtin_array_append arr v h = ((st, r), h') -> st <> MCP_OK -> r = arr.
Proof.
  intros H Hn. unfold builtin_array_append in H. destruct arr as [[| | | |c l|]|], v; try (by apply ret_inv in H as [[= -> ->] _]).
  destruct (Nat.eqb _ _); [|by apply ret_inv in H as [[= -> ->] _]].
  apply bind_inv in H as (ok & h1 & _ & H). by destruct ok; apply ret_inv in H as [[= -> ->] _].
Qed.

Lemma append_tool_spec p l c vs t name h st r h' :
  wf p -> erase p = JObject l -> builtin_object_get (Some p) (Some (cs "tools")) = Some (VArray c vs) ->
  def_name t = Some name -> owf (def_input_schema t) ->
  append_tool (Some p) (Some (VArray c vs)) t name h = ((st, r), h') ->
  exists p' l', r = Some p' /\ wf p' /\ erase p' = JObject l' /\ hstep h h' (blocks p' - blocks p) /\
    (ample h /\ tool_def_ok t -> st = MCP_OK /\ l' = jinsert (cs "tools") (JArray (map erase vs ++ [tool_def_json t])) l).
Proof.
  intros Hw Hl Hg Hn Hs H. unfold append_tool in H. apply bind_inv in H as (o0 & h1 & E & H).
  destruct (object_new_attempt _ _ _ E) as [S1 Ho0]. clear E. destruct o0 as [obj|].
  2: { apply ret_inv in H as [[= -> ->] ->]. exists p, l. do 3 (split; [done|]). split; [cbn in S1; hsolve|].
       intros [A _]. by destruct Ho0. }
  destruct Ho0 as [W1 E1]. apply bind_inv in H as (o0 & h2 & E & H).
  eapply tool_object_spec in E as (o & lo & -> & W2 & E2 & S2 & J2); [|done..].
  apply bind_inv in H as ([st1 r1] & h3 & E & H).
  assert (wf (VArray c vs)) as Hwa.
  { destruct p as [| | | | |cp mp]; try discriminate Hl. pose proof (object_get_cases cp mp (cs "tools") Hw ltac:(lit)) as Hc.
    rewrite Hg in Hc. by destruct Hc. }
  pose proof (append_refused _ _ _ _ _ _ E) as Href.
  apply array_append_spec in E as (c' & l' & -> & Hw' & S3 & -> & Hamp); [|done..].
  destruct (decide (st1 = MCP_OK)) as [->|Hne]; [clear Href|specialize (Href Hne); assert (c' = c) as -> by congruence].
  - apply ret_inv in H as [Hr ->]. apply pair_equal_spec in Hr as [-> ->].
    destruct (write_member_spec p l (cs "tools") (VArray c vs) (VArray c' (vs ++ [o])) Hw Hl ltac:(lit) Hg Hw') as (p' & -> & Wp & Ep & Bp).
    exists p'. eexists. do 3 (split; [done|]). split.
    { cbn [oblocks] in S1. clear - S1 S2 S3 Bp. set (B1 := blocks (VArray c vs)) in *. set (B2 := blocks (VArray c' (vs ++ [o]))) in *.
      clearbody B1 B2. hsolve. }
    intros [A Hok]. split; [done|].
    assert (ample h1) as A1 by (by eapply ample_hstep). simpl. rewrite map_app. cbn [map]. rewrite E2, J2 by done. done.
  - assert ((builtin_destroy (Some o) ;; ret (MCP_ERR_NOMEM, Some p)) h3 = ((st, r), h')) as H' by (by destruct st1). clear H.
    apply bind_inv in H' as (u & h4 & E4 & H). apply builtin_destroy_hstep in E4. apply ret_inv in H as [[= -> ->] ->].
    exists p, l. do 3 (split; [done|]). split; [cbn in S1, E4; hsolve|]. intros [A _]. destruct Hne. apply Hamp.
    by eapply ample_hstep, ample_hstep.
Qed.

Lemma add_tool_spec p l js t h st r h' :
  wf p -> erase p = JObject l -> tools_of l js -> owf (def_input_schema t) ->
  mcp_sampling_params_add_tool (Some p) (Some t) h = ((st, r), h') ->
  exists p' l', r = Some p' /\ wf p' /\ erase p' = JObject l' /\ hstep h h' (blocks p' - blocks p) /\
    (ample h /\ tool_def_ok t -> st = MCP_OK /\ l' = jinsert (cs "tools") (JArray (js ++ [tool_def_json t])) l).
Proof.
  intros Hw Hl Ht Hs H. unfold mcp_sampling_params_add_tool in H. destruct (def_name t) as [name|] eqn:Hn.
  2: { apply ret_inv in H as [[= -> ->] ->]. exists p, l. do 3 (split; [done|]). split; [hsolve|].
       intros [_ ((n & ? & _) & _)]. congruence. }
  pose proof (member_meaning p l (cs "tools") Hw Hl ltac:(lit)) as Hm. unfold tools_of in Ht.
  destruct (builtin_object_get (Some p) (Some (cs "tools"))) as [tools|] eqn:Hg.
  - cbn [fmap option_fmap option_map] in Hm. rewrite <- Hm in Ht. destruct tools as [| | | |c vs|]; try discriminate Ht.
    injection Ht as <-. by eapply append_tool_spec.
  - cbn [fmap option_fmap option_map] in Hm. rewrite <- Hm in Ht. subst js.
    apply bind_inv in H as (a0 & h1 & E & H). destruct (array_new_attempt _ _ _ E) as [S1 Ha]. destruct a0 as [a|].
    2: { apply ret_inv in H as [[= -> ->] ->]. exists p, l. do 3 (split; [done|]). split; [cbn in S1; hsolve|].
         intros [A _]. by destruct Ha. }
    destruct Ha as [Wa Ea]. destruct a as [| | | |c vs|]; try discriminate Ea. destruct vs; [|discriminate Ea].
    apply bind_inv in H as ([st1 r1] & h2 & E2 & H).
    destruct (take_updates p l (cs "tools") (VArray c []) Hw Hl Wa ltac:(lit) _ _ _ _ E2) as (o & -> & Wo & S2 & Hc).
    destruct Hc as [[-> Eo]|(Hne & (l' & El') & Hna)].
    + pose proof (set_take_node p l (cs "tools") _ _ _ _ Hw Hl Wa ltac:(lit) E2) as Hgo.
      eapply append_tool_spec in H as (p' & l' & -> & Wp & Ep & S3 & J); [|done..].
      exists p', l'. do 3 (split; [done|]). split; [hsolve|]. intros [A Hok]. destruct J as [-> ->].
      { split; [by eapply ample_hstep, ample_hstep|done]. }
      split; [done|]. by rewrite jinsert_twice.
    + assert ((mark_corrupt ;; ret (MCP_ERR_NOMEM, Some o)) h2 = ((st, r), h')) as H' by (by destruct st1). clear H.
      apply bind_inv in H' as (u & h4 & E4 & H). apply ret_inv in H as [[= -> ->] ->].
      assert (~ ample h2) as Hna2.
      { intros A. apply Hna. split; [|done]. intros k. specialize (A k). by rewrite (hstep_fails _ _ _ S2) in A. }
      apply (mark_corrupt_hstep _ _ _ 0 Hna2) in E4. exists o, l'. do 3 (split; [done|]).
      split; [hsolve|]. intros [A _]. destruct Hna. split; [by eapply ample_hstep|done].
Qed.

(** ** Tool choice *)

Definition choice_ok (mode : mcp_sampling_tool_choice_t) (name : option bytes) : Prop :=
  name_missing mode name = false /\ (mode = MCP_TOOL_CHOICE_SPECIFIC -> from_option text_ok True name).

(** The name that goes with the mode. *)
Definition choice_name (mode : mcp_sampling_tool_choice_t) (name : option bytes) : option bytes :=
  match mode with MCP_TOOL_CHOICE_SPECIFIC => cstr <$> name | _ => None end.

Definition choice_json (mode : mcp_sampling_tool_choice_t) (name : option bytes) : json :=
  JObject (joset (cs "name") (JString <$> choice_name mode name) [(cs "mode", JString (mode_str mode))]).

Lemma set_tool_choice_spec p l mode name h st r h' :
  wf p -> erase p = JObject l -> mcp_sampling_params_set_tool_choice (Some p) mode name h = ((st, r), h') ->
  exists p' l', r = Some p' /\ wf p' /\ erase p' = JObject l' /\ hstep h h' (blocks p' - blocks p) /\
    (ample h /\ choice_ok mode name -> st = MCP_OK /\ l' = jinsert (cs "toolChoice") (choice_json mode name) l).
Proof.
  intros Hw Hl H. unfold mcp_sampling_params_set_tool_choice in H. destruct (name_missing mode name) eqn:Hn.
  { apply ret_inv in H as [[= -> ->] ->]. exists p, l. do 3 (split; [done|]). split; [hsolve|]. intros [_ [? _]]. congruence. }
  apply bind_inv in H as (o0 & h1 & E & H). destruct (object_new_attempt _ _ _ E) as [S1 Ho]. clear E. destruct o0 as [tc|].
  2: { apply ret_inv in H as [[= -> ->] ->]. exists p, l. do 3 (split; [done|]). split; [cbn in S1; hsolve|].
       intros [A _]. by destruct Ho. }
  destruct Ho as [W1 E1]. apply bind_inv in H as (o0 & h2 & E & H).
  eapply put_loose_spec in E as (o1 & l1 & -> & W2 & E2 & S2 & J2); [|done|done|lit|apply string_new_attempt].
  apply bind_inv in H as (o0 & h3 & E & H).
  assert (exists o2 l2, o0 = Some o2 /\ wf o2 /\ erase o2 = JObject l2 /\ hstep h2 h3 (blocks o2 - blocks o1) /\
    (ample h2 /\ choice_ok mode name -> l2 = joset (cs "name") (JString <$> choice_name mode name) l1))
    as (o2 & l2 & -> & W3 & E3 & S3 & J3).
  { assert (forall o2 : option value, ret (Some o1) h2 = (o2, h3) -> choice_name mode name = None ->
      exists o l2, o2 = Some o /\ wf o /\ erase o = JObject l2 /\ hstep h2 h3 (blocks o - blocks o1) /\
        (ample h2 /\ choice_ok mode name -> l2 = joset (cs "name") (JString <$> choice_name mode name) l1)) as Hskip.
    { intros o2 H2 Hc. apply ret_inv in H2 as [-> ->]. exists o1, l1. do 3 (split; [done|]). split; [hsolve|]. by rewrite Hc. }
    destruct mode; try (by apply Hskip). destruct name as [n|]; [|by apply Hskip].
    eapply put_loose_spec in E as (o2 & l2 & ? & W3 & E3 & S3 & J3); [|done|done|lit|apply string_new_attempt].
    exists o2, l2. do 4 (split; [done|]). intros [A [_ Hc]]. apply J3. split; [done|]. by apply Hc. }
  apply bind_inv in H as ([st1 r1] & h4 & E4 & H).
  destruct (take_updates p l (cs "toolChoice") o2 Hw Hl W3 ltac:(lit) _ _ _ _ E4) as (o & -> & Wo & S4 & Hc).
  assert (ample h -> ample h1 /\ ample h2 /\ ample h3) as Hamp.
  { intros A. assert (ample h1) as A1 by (by eapply ample_hstep). assert (ample h2) as A2 by (by eapply ample_hstep).
    split; [done|]. split; [done|]. by eapply ample_hstep. }
  destruct Hc as [[-> Eo]|(Hne & (l' & El') & Hna)].
  - apply ret_inv in H as [Hr ->]. apply pair_equal_spec in Hr as [-> ->]. exists o. eexists. do 3 (split; [done|]).
    split; [cbn in S1; hsolve|]. intros [A Hok]. destruct (Hamp A) as (A1 & A2 & A3). split; [done|].
    rewrite E3, J3, J2 by (split; [done|by destruct mode]). f_equal. unfold choice_json. by destruct mode.
  - assert ((mark_corrupt ;; ret (MCP_ERR_NOMEM, Some o)) h4 = ((st, r), h')) as H' by (by destruct st1). clear H.
    apply bind_inv in H' as (u & h5 & E5 & H). apply ret_inv in H as [[= -> ->] ->].
    assert (~ ample h4) as Hna2.
    { intros A. apply Hna. split; [|done]. intros k. specialize (A k). by rewrite (hstep_fails _ _ _ S4) in A. }
    apply (mark_corrupt_hstep _ _ _ 0 Hna2) in E5. exists o, l'. do 3 (split; [done|]).
    split; [cbn in S1; hsolve|]. intros [A _]. destruct Hna. split; [by apply Hamp|done].
Qed.

(** ** Readers *)

Lemma choice_read p l mode name :
  wf p -> erase p = JObject l -> choice_ok mode name -> jlookup (cs "toolChoice") l = Some (choice_json mode name) ->
  mcp_sampling_params_get_tool_choice (Some p) true true = (MCP_OK, Some mode, choice_name mode name).
Proof.
  intros Hw Hl Hok Hj. destruct (member_object_get p l (cs "toolChoice") _ Hw Hl ltac:(lit) Hj) as (tc & Hg & Wt & Et).
  destruct tc as [| | | | |c ms]; try discriminate Et. unfold mcp_sampling_params_get_tool_choice. cbn [negb]. rewrite Hg.
  pose proof (member_meaning _ _ (cs "mode") Wt Et ltac:(lit)) as Hmode.
  pose proof (member_meaning _ _ (cs "name") Wt Et ltac:(lit)) as Hname.
  rewrite jlookup_joset in Hmode, Hname. rewrite bool_decide_false in Hmode by done. rewrite bool_decide_true in Hname by done.
  set (tc := Some (VObject c ms)) in *. clearbody tc. change (jlookup (cs "mode") [(cs "mode", JString (mode_str mode))]) with
    (Some (JString (mode_str mode))) in Hmode.
  destruct (builtin_object_get tc (Some (cs "mode"))) as [[]|]; try discriminate Hmode. injection Hmode as ->.
  cbn [builtin_get_string]. destruct mode; try reflexivity.
  change (plain_mode (mode_str MCP_TOOL_CHOICE_SPECIFIC)) with (@None mcp_sampling_tool_choice_t).
  change (streq (mode_str MCP_TOOL_CHOICE_SPECIFIC) (cs "tool")) with true. cbn iota.
  destruct name as [n|]; [|by destruct Hok]. cbn [choice_name fmap option_fmap option_map] in Hname.
  destruct (builtin_object_get tc (Some (cs "name"))) as [[]|]; try discriminate Hname. injection Hname as ->. done.
Qed.

Lemma tools_read p l js :
  wf p -> erase p = JObject l -> tools_of l js ->
  mcp_sampling_params_get_tool_count (Some p) = length js /\
  forall i, erase <$> mcp_sampling_params_get_tool_at (Some p) i = js !! i.
Proof.
  intros Hw Hl Ht. unfold mcp_sampling_params_get_tool_count, mcp_sampling_params_get_tool_at, tools_of in *.
  rewrite <- (member_meaning p l (cs "tools") Hw Hl ltac:(lit)) in Ht.
  destruct (builtin_object_get (Some p) (Some (cs "tools"))) as [tools|]; cbn [fmap option_fmap option_map] in Ht.
  - destruct tools as [| | | |c vs|]; try discriminate Ht. injection Ht as <-. cbn [builtin_type_of builtin_array_size builtin_array_get].
    split; [by rewrite length_map|]. intros i. change (map erase vs) with (erase <$> vs). by rewrite list_lookup_fmap.
  - subst js. split; [done|]. intros i. by rewrite lookup_nil.
Qed.

(** ** A whole request *)

Fixpoint add_tools (params : option value) (ts : list mcp_sampling_tool_def_t) : M (mcp_status_t * option value) :=
  match ts with
  | [] => ret (MCP_OK, params)
  | t :: ts =>
      r <- mcp_sampling_params_add_tool params (Some t) ;;
      match r with
      | (MCP_OK, params) => add_tools params ts
      | _ => ret r
      end
  end.

(** What a server does to ask for a completion with tools. *)
Definition sampling_request (max_tokens : Z) (ts : list mcp_sampling_tool_def_t) (mode : mcp_sampling_tool_choice_t)
    (name : option bytes) : M (mcp_status_t * option value) :=
  params <- mcp_sampling_params_new max_tokens ;;
  match params with
  | None => ret (MCP_ERR_NOMEM, None)
  | Some _ =>
      r <- add_tools params ts ;;
      match r with
      | (MCP_OK, params) => mcp_sampling_params_set_tool_choice params mode name
      | _ => ret r
      end
  end.

Lemma params_new_spec max_tokens h r h' :
  u64 max_tokens -> mcp_sampling_params_new max_tokens h = (r, h') ->
  hstep h h' (oblocks r) /\
  match r with
  | Some p => wf p /\ exists l, erase p = JObject l /\ (ample h -> l = [(cs "maxTokens", JNumber (double_of_Z max_tokens)); (cs "messages", JArray [])])
  | None => ~ ample h
  end.
Proof.
  intros Hu H. unfold mcp_sampling_params_new in H. apply bind_inv in H as (o0 & h1 & E & H).
  destruct (object_new_attempt _ _ _ E) as [S1 Ho]. clear E. destruct o0 as [obj|].
  2: { apply ret_inv in H as [-> ->]. split; [done|]. intros A. by apply Ho. }
  destruct Ho as [W1 E1]. apply bind_inv in H as (o0 & h2 & E & H).
  eapply put_loose_spec in E as (o1 & l1 & -> & W2 & E2 & S2 & J2); [|done|done|lit|by apply u64_attempt].
  eapply put_made_spec in H as (o2 & l2 & -> & W3 & E3 & S3 & J3); [|done|done|lit|apply array_new_attempt].
  split; [cbn in S1 |- *; hsolve|]. split; [done|]. exists l2. split; [done|]. intros A.
  assert (ample h1) as A1 by (by eapply ample_hstep). assert (ample h2) as A2 by (by eapply ample_hstep).
  by rewrite J3, J2.
Qed.

Lemma tools_of_insert js l : tools_of (jinsert (cs "tools") (JArray js) l) js.
Proof. unfold tools_of. by rewrite jlookup_jinsert, bool_decide_true. Qed.

(** Members other than the tools are left alone. *)
Lemma add_tools_ample ts : forall p l js h st r h',
  ample h -> wf p -> erase p = JObject l -> tools_of l js -> Forall tool_def_ok ts -> add_tools (Some p) ts h = ((st, r), h') ->
  exists p' l', st = MCP_OK /\ r = Some p' /\ wf p' /\ erase p' = JObject l' /\ hstep h h' (blocks p' - blocks p) /\
    tools_of l' (js ++ map tool_def_json ts) /\ forall k, k <> cs "tools" -> jlookup k l' = jlookup k l.
Proof.
  induction ts as [|t ts IH]; intros p l js h st r h' A Hw Hl Ht Hok H; cbn [add_tools] in H.
  { apply ret_inv in H as [[= -> ->] ->]. exists p, l. do 4 (split; [done|]). split; [hsolve|]. by rewrite app_nil_r. }
  apply Forall_cons in Hok as [Hok1 Hok]. apply bind_inv in H as ([st1 r1] & h1 & E & H).
  eapply add_tool_spec in E as (p1 & l1 & -> & W1 & E1 & S1 & J1); [|done|done|exact Ht|apply Hok1].
  destruct (J1 (conj A Hok1)) as [-> ->].
  eapply (IH p1 _ (js ++ [tool_def_json t])) in H as (p' & l' & -> & -> & W2 & E2 & S2 & T2 & K2);
    [|by eapply ample_hstep|done|done|apply tools_of_insert|done].
  exists p', l'. do 4 (split; [done|]). split; [hsolve|]. split; [by rewrite <- app_assoc in T2|].
  intros k Hk. rewrite (K2 k Hk), jlookup_jinsert. by rewrite bool_decide_false.
Qed.

(** ** The content blocks of a tool call *)

Definition tool_use_members (id name : bytes) (input : option value) : list (bytes * json) :=
  [(cs "type", JString (cs "tool_use")); (cs "id", JString (cstr id)); (cs "name", JString (cstr name));
   (cs "input", from_option erase (JObject []) input)].

Definition tool_result_members (id : bytes) (content : option bytes) (is_error : bool) : list (bytes * json) :=
  [(cs "type", JString (cs "tool_result")); (cs "toolUseId", JString (cstr id));
   (cs "content", JString (cstr (default [] content))); (cs "isError", JBool is_error)].

(** A [tool_use] block consumes its input whatever happens, and with memory
    has every member. *)
Lemma tool_use_spec id name input h r h' :
  owf input -> mcp_sampling_content_tool_use_new (Some id) (Some name) input h = (r, h') ->
  hstep h h' (oblocks r - oblocks input) /\ owf r /\
  (ample h -> text_ok id -> text_ok name -> erase <$> r = Some (JObject (tool_use_members id name input))).
Proof.
  intros Hi H. unfold mcp_sampling_content_tool_use_new in H. apply bind_inv in H as (o0 & h1 & E & H).
  destruct (object_new_attempt _ _ _ E) as [S1 Ho]. clear E. destruct o0 as [obj|].
  2: { apply bind_inv in H as (u & h2 & E2 & H). apply builtin_destroy_hstep in E2. apply ret_inv in H as [-> ->].
       split; [cbn [oblocks] in S1; hsolve|]. split; [done|]. intros A. by destruct Ho. }
  destruct Ho as [W1 E1].
  apply bind_inv in H as (o0 & h2 & E & H).
  eapply put_loose_spec in E as (o1 & l1 & -> & W2 & E2 & S2 & J2); [|done|done|lit|apply string_new_attempt].
  apply bind_inv in H as (o0 & h3 & E & H).
  eapply put_loose_spec in E as (o2 & l2 & -> & W3 & E3 & S3 & J3); [|done|done|lit|apply string_new_attempt].
  apply bind_inv in H as (o0 & h4 & E & H).
  eapply put_loose_spec in E as (o3 & l3 & -> & W4 & E4 & S4 & J4); [|done|done|lit|apply string_new_attempt].
  assert (exists o l', r = Some o /\ wf o /\ erase o = JObject l' /\ hstep h4 h' (blocks o - blocks o3 - oblocks input) /\
    (ample h4 -> l' = jinsert (cs "input") (from_option erase (JObject []) input) l3)) as (o & l' & -> & W5 & E5 & S5 & J5).
  { destruct input as [v|].
    - unfold put_made in H. apply bind_inv in H as (v0 & h5 & E & H). apply ret_inv in E as [-> ->].
      apply bind_inv in H as ([st r1] & h5 & E & H). apply ret_inv in H as [-> ->].
      destruct (take_updates o3 l3 (cs "input") v W4 E4 Hi ltac:(lit) _ _ _ _ E) as (o & -> & Wo & So & [[-> Eo]|(_ & [l' El] & Hna)]).
      + by exists o, (jinsert (cs "input") (erase v) l3).
      + exists o, l'. do 4 (split; [done|]). intros A. by destruct Hna.
    - eapply put_made_spec in H as (o & l' & -> & Wo & Eo & So & Jo); [|done|done|lit|apply object_new_attempt].
      exists o, l'. do 3 (split; [done|]). split; [eapply hstep_eq; [exact So|cbn; lia]|]. intros A. by apply Jo. }
  split; [cbn [oblocks] in *; hsolve|]. split; [done|]. intros A Hid Hname.
  assert (ample h1) as A1 by (by eapply ample_hstep). assert (ample h2) as A2 by (by eapply ample_hstep).
  assert (ample h3) as A3 by (by eapply ample_hstep). assert (ample h4) as A4 by (by eapply ample_hstep).
  cbn. rewrite E5, (J5 A4), J4, J3, J2 by done. done.
Qed.

Lemma tool_result_spec id content is_error h r h' :
  mcp_sampling_content_tool_result_new (Some id) content is_error h = (r, h') ->
  hstep h h' (oblocks r) /\ owf r /\
  (ample h -> text_ok id -> text_ok (default [] content) ->
   erase <$> r = Some (JObject (tool_result_members id content is_error))).
Proof.
  intros H. unfold mcp_sampling_content_tool_result_new in H. apply bind_inv in H as (o0 & h1 & E & H).
  destruct (object_new_attempt _ _ _ E) as [S1 Ho]. clear E. destruct o0 as [obj|].
  2: { apply ret_inv in H as [-> ->]. split; [done|]. split; [done|]. intros A. by destruct Ho. }
  destruct Ho as [W1 E1].
  apply bind_inv in H as (o0 & h2 & E & H).
  eapply put_loose_spec in E as (o1 & l1 & -> & W2 & E2 & S2 & J2); [|done|done|lit|apply string_new_attempt].
  apply bind_inv in H as (o0 & h3 & E & H).
  eapply put_loose_spec in E as (o2 & l2 & -> & W3 & E3 & S3 & J3); [|done|done|lit|apply string_new_attempt].
  apply bind_inv in H as (o0 & h4 & E & H).
  eapply put_loose_spec in E as (o3 & l3 & -> & W4 & E4 & S4 & J4); [|done|done|lit|apply string_new_attempt].
  eapply put_loose_spec in H as (o & l' & -> & W5 & E5 & S5 & J5); [|done|done|lit|apply bool_new_attempt].
  split; [cbn [oblocks] in *; hsolve|]. split; [done|]. intros A Hid Hc.
  assert (ample h1) as A1 by (by eapply ample_hstep). assert (ample h2) as A2 by (by eapply ample_hstep).
  assert (ample h3) as A3 by (by eapply ample_hstep). assert (ample h4) as A4 by (by eapply ample_hstep).
  cbn. rewrite E5, J5, J4, J3, J2 by done. done.
Qed.

(** ** Claims *)

(** With memory, a request for a completion (parameters, any number of
    tools, a tool choice) is built without an error and owns exactly the
    blocks allocated; its readers give back the number of tools, each tool
    at its position (name, description and a deep copy of the schema), the
    mode, and the name of the tool when one was demanded. *)
Theorem sampling_request_reads max_tokens ts mode name h st r h' :
  ample h -> 0 <= max_tokens < 2 ^ 32 -> Forall tool_def_ok ts -> choice_ok mode name ->
  sampling_request max_tokens ts mode name h = ((st, r), h') ->
  exists p, st = MCP_OK /\ r = Some p /\ wf p /\ hstep h h' (blocks p) /\
    builtin_get_number (builtin_object_get (Some p) (Some (cs "maxTokens"))) = Some (double_of_Z max_tokens) /\
    mcp_sampling_params_get_tool_count (Some p) = length ts /\
    (forall i, erase <$> mcp_sampling_params_get_tool_at (Some p) i = tool_def_json <$> ts !! i) /\
    mcp_sampling_params_get_tool_choice (Some p) true true = (MCP_OK, Some mode, choice_name mode name).
Proof.
  intros A Hm Hts Hc H. unfold sampling_request in H. apply bind_inv in H as (p0 & h1 & E & H).
  apply params_new_spec in E as [S1 Hp]; [|unfold u64; lia]. destruct p0 as [p0|]; [|done].
  destruct Hp as (W0 & l0 & E0 & J0). specialize (J0 A). subst l0. assert (ample h1) as A1 by (by eapply ample_hstep).
  apply bind_inv in H as ([st1 r1] & h2 & E & H).
  eapply (add_tools_ample ts p0 _ []) in E as (p1 & l1 & -> & -> & W1 & E1 & S2 & T1 & K1); [|done|done|done|done|done].
  assert (ample h2) as A2 by (by eapply ample_hstep).
  eapply set_tool_choice_spec in H as (p & l & -> & W2 & E2 & S3 & J2); [|done..]. destruct (J2 (conj A2 Hc)) as [-> ->].
  exists p. do 3 (split; [done|]). split; [cbn [oblocks] in S1; hsolve|].
  assert (tools_of (jinsert (cs "toolChoice") (choice_json mode name) l1) (map tool_def_json ts)) as T2.
  { unfold tools_of in *. by rewrite jlookup_jinsert, bool_decide_false. }
  split; [|split; [|split]].
  - pose proof (member_meaning p _ (cs "maxTokens") W2 E2 ltac:(lit)) as G.
    rewrite jlookup_jinsert, bool_decide_false, K1 in G by done. cbn [jlookup] in G. rewrite bool_decide_true in G by done.
    destruct (builtin_object_get _ _) as [[]|]; try discriminate G. cbn in *. congruence.
  - destruct (tools_read p _ _ W2 E2 T2) as [-> _]. apply length_map.
  - intros i. destruct (tools_read p _ _ W2 E2 T2) as [_ ->]. change (map tool_def_json ts) with (tool_def_json <$> ts).
    by rewrite list_lookup_fmap.
  - eapply choice_read; [done|done|done|]. by rewrite jlookup_jinsert, bool_decide_true.
Qed.

(** ** Witnesses and findings *)

Definition sample_tools : list mcp_sampling_tool_def_t :=
  [ToolDef (Some (cs "add")) (Some (cs "adds")) (Some (VObject 0 [])); ToolDef (Some (cs "sub")) None None].

Lemma sampling_request_reads_witness :
  exists st r h', sampling_request 100 sample_tools MCP_TOOL_CHOICE_SPECIFIC (Some (cs "sub")) fresh_heap = ((st, r), h') /\
  exists p, r = Some p /\ mcp_sampling_params_get_tool_choice (Some p) true true = (MCP_OK, Some MCP_TOOL_CHOICE_SPECIFIC, Some (cs "sub")).
Proof.
  destruct (sampling_request 100 sample_tools MCP_TOOL_CHOICE_SPECIFIC (Some (cs "sub")) fresh_heap) as [[st r] h'] eqn:E.
  exists st, r, h'. split; [reflexivity|].
  destruct (sampling_request_reads 100 sample_tools MCP_TOOL_CHOICE_SPECIFIC (Some (cs "sub")) fresh_heap st r h')
    as (p & _ & Hr & _ & _ & _ & _ & _ & Hx).
  - exact fresh_ample.
  - lia.
  - constructor; [|constructor; [|constructor]].
    + split; [exists (cs "add"); split; [reflexivity|vm_compute; reflexivity]|]. split; [vm_compute; reflexivity|].
      split; [simpl; lia|split; [constructor|exact I]].
    + split; [exists (cs "sub"); split; [reflexivity|vm_compute; reflexivity]|]. split; [exact I|exact I].
  - split; [vm_compute; reflexivity|]. intros _. vm_compute. reflexivity.
  - exact E.
  - exists p. split; [exact Hr|exact Hx].
Defined.

(** Parameters that are not an object: the new tool list is freed twice,
    even when no allocation is refused, and so is the tool choice. *)
Lemma params_not_object :
  (exists h', mcp_sampling_params_add_tool (Some (VArray 0 [])) (head sample_tools) fresh_heap = ((MCP_ERR_NOMEM, Some (VArray 0 [])), h') /\
     corrupt h' = true) /\
  (exists h', mcp_sampling_params_set_tool_choice (Some (VArray 0 [])) MCP_TOOL_CHOICE_AUTO None fresh_heap = ((MCP_ERR_NOMEM, Some (VArray 0 [])), h') /\
     corrupt h' = true).
Proof. split; eexists; split; vm_compute; reflexivity. Qed.

(** A tool whose name could not be stored is added without one, and the
    call reports success. *)
Lemma nameless_tool :
  exists p h', mcp_sampling_params_add_tool (Some (VObject 0 [])) (Some (ToolDef (Some (cs "a")) None None)) (refuse_at 5) = ((MCP_OK, Some p), h') /\
  erase <$> mcp_sampling_params_get_tool_at (Some p) 0 = Some (JObject []).
Proof. eexists _, _. split; vm_compute; reflexivity. Qed.

(** A choice of mode [tool] without a name is accepted. *)
Lemma choice_without_name :
  mcp_sampling_params_get_tool_choice
    (Some (VObject 4 [(cs "toolChoice", VObject 4 [(cs "mode", VString (cs "tool"))])])) true true =
  (MCP_OK, Some MCP_TOOL_CHOICE_SPECIFIC, None).
Proof. reflexivity. Qed.
