(* ===== verification/Manifest.v ===== *)
(** * Server manifests (src/protocol/registry.c)

    The [mcp.json] document of a server registry: reading it into a
    structure of strings, checking it, and printing it. *)
From S2P Require Import Prelude Heap Utf8 Double JsonValue JsonParse JsonGrammar JsonSerialize JsonApi Schema Message Builders Initialize RouteLaws Loose.

Local Open Scope Z_scope.

(** ** Data (include/mcpkit/protocol/registry.h) *)

Inductive mcp_registry_transport_kind_t :=
| MCP_TRANSPORT_KIND_UNKNOWN | MCP_TRANSPORT_KIND_STDIO | MCP_TRANSPORT_KIND_STREAMABLE_HTTP | MCP_TRANSPORT_KIND_SOCKET.

#[export] Instance transport_kind_eq_dec : EqDecision mcp_registry_transport_kind_t.
Proof. solve_decision. Defined.

Record mcp_registry_manifest_t := Manifest {
  name : option bytes;
  version : option bytes;
  description : option bytes;
  author : option bytes;
  license : option bytes;
  repository : option bytes;
  transport : mcp_registry_transport_kind_t;
  has_tools : bool;
  has_resources : bool;
  has_prompts : bool;
}.

(** The structure all zero. *)
Definition empty_manifest : mcp_registry_manifest_t :=
  Manifest None None None None None None MCP_TRANSPORT_KIND_UNKNOWN false false false.

(** ** Reading *)

(** The transport a name stands for. *)
Definition transport_named (ts : bytes) : mcp_registry_transport_kind_t :=
  if streq ts (cs "stdio") then MCP_TRANSPORT_KIND_STDIO
  else if streq ts (cs "streamable_http") || streq ts (cs "streamable-http") || streq ts (cs "http")
  then MCP_TRANSPORT_KIND_STREAMABLE_HTTP
  else if streq ts (cs "socket") then MCP_TRANSPORT_KIND_SOCKET
  else MCP_TRANSPORT_KIND_UNKNOWN.

Definition read_transport (root : option value) : mcp_registry_transport_kind_t :=
  match builtin_get_string (builtin_object_get root (Some (cs "transport"))) with
  | Some ts => transport_named ts
  | None => MCP_TRANSPORT_KIND_UNKNOWN
  end.

(** One flag of the [capabilities] object. *)
Definition read_cap (root : option value) (key : bytes) : bool :=
  let caps := builtin_object_get root (Some (cs "capabilities")) in
  match builtin_type_of caps with
  | MCP_JSON_OBJECT => default false (builtin_get_bool (builtin_object_get caps (Some key)))
  | _ => false
  end.

(** The status and [*m_out]; the text is the [len] bytes of the buffer. *)
Definition mcp_registry_manifest_parse (json_str : option bytes) : M (mcp_status_t * mcp_registry_manifest_t) :=
  match json_str with
  | None => ret (MCP_ERR_INVALID_ARGUMENT, empty_manifest)
  | Some _ =>
      root <- parse_object_root json_str ;;
      match root with
      | None => ret (MCP_ERR_PROTOCOL, empty_manifest)
      | Some _ =>
          n <- dup_member root (cs "name") ;;
          v <- dup_member root (cs "version") ;;
          d <- dup_member root (cs "description") ;;
          a <- dup_member root (cs "author") ;;
          l <- dup_member root (cs "license") ;;
          r <- dup_member root (cs "repository") ;;
          let m := Manifest n v d a l r (read_transport root)
                     (read_cap root (cs "tools")) (read_cap root (cs "resources")) (read_cap root (cs "prompts")) in
          builtin_destroy root ;;
          ret (MCP_OK, m)
      end
  end.

(** ** Checking *)

(** [isalnum] in the C locale. *)
Definition isalnum (b : byte) : bool :=
  let c := b2z b in
  ((48 <=? c) && (c <=? 57)) || ((65 <=? c) && (c <=? 90)) || ((97 <=? c) && (c <=? 122)).

Definition name_char (b : byte) : bool :=
  isalnum b || Byte.eqb b "-" || Byte.eqb b "_" || Byte.eqb b ".".

Definition is_valid_name (s : option bytes) : bool :=
  match cstr (default [] s) with [] => false | t => forallb name_char t end.

Definition is_valid_version (s : option bytes) : bool :=
  match cstr (default [] s) with
  | [] => false
  | b :: t => isdigit b && existsb (fun c => Byte.eqb c ".") (b :: t)
  end.

(** The status and the text written to [err_msg_out]. *)
Definition mcp_registry_manifest_validate (m : option mcp_registry_manifest_t) : mcp_status_t * bytes :=
  match m with
  | None => (MCP_ERR_INVALID_ARGUMENT, cs "Manifest is NULL")
  | Some m =>
      if negb (is_valid_name (name m)) then (MCP_ERR_INVALID_ARGUMENT, cs "Missing or invalid required field 'name'")
      else if negb (is_valid_version (version m)) then (MCP_ERR_INVALID_ARGUMENT, cs "Missing or invalid required field 'version'")
      else match transport m with
           | MCP_TRANSPORT_KIND_UNKNOWN => (MCP_ERR_INVALID_ARGUMENT, cs "Missing or invalid 'transport' kind")
           | _ => (MCP_OK, [])
           end
  end.

(** ** Printing *)

Definition transport_str (t : mcp_registry_transport_kind_t) : bytes :=
  match t with
  | MCP_TRANSPORT_KIND_STREAMABLE_HTTP => cs "streamable_http"
  | MCP_TRANSPORT_KIND_SOCKET => cs "socket"
  | MCP_TRANSPORT_KIND_UNKNOWN => cs "unknown"
  | MCP_TRANSPORT_KIND_STDIO => cs "stdio"
  end.

(** The [capabilities] object. *)
Definition manifest_caps (m : mcp_registry_manifest_t) : M (option value) :=
  caps <- builtin_new_object ;;
  match caps with
  | None => ret None
  | Some _ =>
      caps <- put_loose caps (cs "tools") (builtin_new_bool (has_tools m)) ;;
      caps <- put_loose caps (cs "resources") (builtin_new_bool (has_resources m)) ;;
      put_loose caps (cs "prompts") (builtin_new_bool (has_prompts m))
  end.

(** The root object. *)
Definition manifest_object (m : mcp_registry_manifest_t) (root : option value) : M (option value) :=
  root <- put_text root (cs "name") (name m) ;;
  root <- put_text root (cs "version") (version m) ;;
  root <- put_text root (cs "description") (description m) ;;
  root <- put_text root (cs "author") (author m) ;;
  root <- put_text root (cs "license") (license m) ;;
  root <- put_text root (cs "repository") (repository m) ;;
  root <- put_loose root (cs "transport") (string_new (transport_str (transport m))) ;;
  put_made root (cs "capabilities") (manifest_caps m).

Definition mcp_registry_manifest_serialize (m : option mcp_registry_manifest_t) : M (option bytes) :=
  match m with
  | None => ret None
  | Some m =>
      root <- builtin_new_object ;;
      match root with
      | None => ret None
      | Some _ =>
          root <- manifest_object m root ;;
          print_root root
      end
  end.

Definition mcp_registry_free_string (s : option bytes) : M unit := builtin_free_string s.

Definition mcp_registry_manifest_cleanup (m : mcp_registry_manifest_t) : M mcp_registry_manifest_t :=
  free_text (name m) ;;
  free_text (version m) ;;
  free_text (description m) ;;
  free_text (author m) ;;
  free_text (license m) ;;
  free_text (repository m) ;;
  ret empty_manifest.

(** ** What a document says *)

Definition jbool_of (key : bytes) (l : list (bytes * json)) : bool :=
  match jlookup key l with Some (JBool b) => b | _ => false end.

Definition jcaps_of (l : list (bytes * json)) : list (bytes * json) :=
  match jlookup (cs "capabilities") l with Some (JObject c) => c | _ => [] end.

(** The manifest of an object with the members [l]. *)
Definition manifest_of (l : list (bytes * json)) : mcp_registry_manifest_t :=
  Manifest (jtext_of (cs "name") l) (jtext_of (cs "version") l) (jtext_of (cs "description") l)
    (jtext_of (cs "author") l) (jtext_of (cs "license") l) (jtext_of (cs "repository") l)
    (from_option transport_named MCP_TRANSPORT_KIND_UNKNOWN (jtext_of (cs "transport") l))
    (jbool_of (cs "tools") (jcaps_of l)) (jbool_of (cs "resources") (jcaps_of l)) (jbool_of (cs "prompts") (jcaps_of l)).

Definition manifest_blocks (m : mcp_registry_manifest_t) : Z :=
  tblocks (name m) + tblocks (version m) + tblocks (description m) + tblocks (author m) + tblocks (license m)
  + tblocks (repository m).

Lemma read_transport_meaning root l :
  wf root -> erase root = JObject l ->
  read_transport (Some root) = from_option transport_named MCP_TRANSPORT_KIND_UNKNOWN (jtext_of (cs "transport") l).
Proof. intros Hw Hl. unfold read_transport. rewrite (get_text root l (cs "transport") Hw Hl ltac:(lit)). by destruct (jtext_of _ _). Qed.

Lemma read_cap_meaning root l key :
  wf root -> erase root = JObject l -> good_string key -> read_cap (Some root) key = jbool_of key (jcaps_of l).
Proof.
  intros Hw Hl Hk. unfold read_cap, jcaps_of. pose proof (member_meaning root l (cs "capabilities") Hw Hl ltac:(lit)) as G.
  destruct (jlookup (cs "capabilities") l) as [[| | | | |c]|] eqn:Ej.
  6: { destruct (member_object_get root l (cs "capabilities") c Hw Hl ltac:(lit) Ej) as (w & -> & Ww & Ew).
       destruct w as [| | | | |cw mw]; try discriminate Ew. cbn [builtin_type_of]. unfold jbool_of.
       rewrite <- (member_meaning _ _ key Ww Ew Hk). by destruct (builtin_object_get _ (Some key)) as [[]|]. }
  all: by destruct (builtin_object_get (Some root) (Some (cs "capabilities"))) as [[]|].
Qed.

(** A dropped copy is the only way a field can differ. *)
Lemma manifest_parse_spec text h st m h' :
  mcp_registry_manifest_parse (Some text) h = ((st, m), h') ->
  hstep h h' (manifest_blocks m) /\
  (ample h -> (st = MCP_OK /\ exists l, object_text text l /\ m = manifest_of l) \/
              (st = MCP_ERR_PROTOCOL /\ m = empty_manifest /\ forall l, ~ object_text text l)).
Proof.
  intros H. unfold mcp_registry_manifest_parse in H. apply bind_inv in H as (r0 & h0 & E & H).
  apply parse_object_root_spec in E. destruct r0 as [root|].
  2: { apply ret_inv in H as [[= -> ->] ->]. destruct E as [Hs Hn]. split; [exact Hs|]. intros A. right. do 2 (split; [done|]).
       intros l Hl. apply Hn. split; [done|by exists l]. }
  destruct E as (Hw & Hs & l & Hl & Ht).
  rewrite !(read_cap_meaning root l), (read_transport_meaning root l) in H by (done || lit).
  apply bind_inv in H as (n & h1 & E1 & H). apply (dup_member_spec root l) in E1 as (S1 & _ & J1); [|done|done|lit].
  apply bind_inv in H as (v & h2 & E2 & H). apply (dup_member_spec root l) in E2 as (S2 & _ & J2); [|done|done|lit].
  apply bind_inv in H as (d & h3 & E3 & H). apply (dup_member_spec root l) in E3 as (S3 & _ & J3); [|done|done|lit].
  apply bind_inv in H as (a & h4 & E4 & H). apply (dup_member_spec root l) in E4 as (S4 & _ & J4); [|done|done|lit].
  apply bind_inv in H as (li & h5 & E5 & H). apply (dup_member_spec root l) in E5 as (S5 & _ & J5); [|done|done|lit].
  apply bind_inv in H as (r & h6 & E6 & H). apply (dup_member_spec root l) in E6 as (S6 & _ & J6); [|done|done|lit].
  apply bind_inv in H as (u & h7 & E7 & H). apply builtin_destroy_hstep in E7. apply ret_inv in H as [[= -> ->] ->].
  split; [unfold manifest_blocks; cbn [name version description author license repository oblocks] in *; hsolve|].
  intros A. left. split; [done|]. exists l. split; [done|]. unfold manifest_of.
  assert (ample h1) as A1 by (by eapply ample_hstep, ample_hstep). assert (ample h2) as A2 by (by eapply ample_hstep).
  assert (ample h3) as A3 by (by eapply ample_hstep). assert (ample h4) as A4 by (by eapply ample_hstep).
  assert (ample h5) as A5 by (by eapply ample_hstep). rewrite J1, J2, J3, J4, J5, J6 by (done || by eapply ample_hstep). done.
Qed.

(** ** What is printed *)

Definition caps_members (m : mcp_registry_manifest_t) : list (bytes * json) :=
  [(cs "tools", JBool (has_tools m)); (cs "resources", JBool (has_resources m)); (cs "prompts", JBool (has_prompts m))].

Definition manifest_members (m : mcp_registry_manifest_t) : list (bytes * json) :=
  jinsert (cs "capabilities") (JObject (caps_members m))
    (jinsert (cs "transport") (JString (transport_str (transport m)))
      (joset (cs "repository") (otext_json (repository m)) (joset (cs "license") (otext_json (license m))
        (joset (cs "author") (otext_json (author m)) (joset (cs "description") (otext_json (description m))
          (joset (cs "version") (otext_json (version m)) (joset (cs "name") (otext_json (name m)) []))))))).

Record manifest_ok (m : mcp_registry_manifest_t) : Prop := ManifestOk {
  ok_name : otext_ok (name m);
  ok_version : otext_ok (version m);
  ok_description : otext_ok (description m);
  ok_author : otext_ok (author m);
  ok_license : otext_ok (license m);
  ok_repository : otext_ok (repository m);
}.

Lemma manifest_caps_loosely m : loosely (manifest_caps m) (JObject (caps_members m)) True.
Proof.
  intros h r h' H. unfold manifest_caps in H. apply bind_inv in H as (o0 & h1 & E & H).
  destruct (object_new_attempt _ _ _ E) as [S1 Ho]. clear E. destruct o0 as [obj|].
  2: { apply ret_inv in H as [-> ->]. split; [done|]. split; [done|]. intros ?. by destruct Ho. }
  destruct Ho as [W E]. do 2 loose_step H bool_new_attempt.
  eapply put_loose_spec in H as (oz & lz & -> & Wz & Ez & Sz & Jz); [|done|done|lit|apply bool_new_attempt].
  split; [cbn [oblocks] in *; hsolve|]. split; [done|]. intros [A _]. ample_fwd. cbn. rewrite Ez, Jz, J0, J by done. done.
Qed.

Lemma manifest_object_spec m obj h r h' :
  wf obj -> erase obj = JObject [] -> manifest_object m (Some obj) h = (r, h') ->
  stored obj r h h' (manifest_members m) (manifest_ok m).
Proof.
  intros Hw He H. unfold manifest_object in H. do 6 text_step H. loose_step H string_new_attempt.
  eapply put_made_loosely in H as (oz & lz & -> & Wz & Ez & Sz & Jz); [|done|done|lit|apply manifest_caps_loosely].
  exists oz, lz. do 3 (split; [done|]). split; [hsolve|]. intros [A [H1 H2 H3 H4 H5 H6]]. ample_fwd.
  rewrite Jz, J5, J4, J3, J2, J1, J0, J by first [split; [done|by destruct (transport m)]|done].
  unfold manifest_members. by destruct (transport m).
Qed.

Lemma manifest_depth m : jdepth (JObject (manifest_members m)) <= MCP_JSON_MAX_DEPTH.
Proof.
  unfold manifest_members, caps_members.
  destruct (name m), (version m), (description m), (author m), (license m), (repository m); done.
Qed.

(** The strings up to their terminator. *)
Definition trimmed (m : mcp_registry_manifest_t) : mcp_registry_manifest_t :=
  Manifest (cstr <$> name m) (cstr <$> version m) (cstr <$> description m) (cstr <$> author m) (cstr <$> license m)
    (cstr <$> repository m) (transport m) (has_tools m) (has_resources m) (has_prompts m).

Lemma manifest_of_members m : manifest_of (manifest_members m) = trimmed m.
Proof.
  unfold manifest_of, jtext_of, jcaps_of, manifest_members. rewrite !jlookup_jinsert, !jlookup_joset.
  destruct m as [n v d a l r t h1 h2 h3]. cbn [name version description author license repository transport].
  unfold trimmed, otext_json. cbn [name version description author license repository transport].
  repeat (rewrite bool_decide_false by done || rewrite bool_decide_true by done).
  destruct n, v, d, a, l, r, t; reflexivity.
Qed.

Lemma cleanup_spec m h r h' :
  mcp_registry_manifest_cleanup m h = (r, h') -> r = empty_manifest /\ hstep h h' (- manifest_blocks m).
Proof.
  intros H. unfold mcp_registry_manifest_cleanup in H.
  apply bind_inv in H as (u1 & h1 & E1 & H). apply bind_inv in H as (u2 & h2 & E2 & H).
  apply bind_inv in H as (u3 & h3 & E3 & H). apply bind_inv in H as (u4 & h4 & E4 & H).
  apply bind_inv in H as (u5 & h5 & E5 & H). apply bind_inv in H as (u6 & h6 & E6 & H).
  apply ret_inv in H as [-> ->]. apply free_text_hstep in E1, E2, E3, E4, E5, E6. split; [done|]. unfold manifest_blocks. hsolve.
Qed.

(** ** Claims *)

(** A manifest survives the text: with memory, a manifest whose strings
    are UTF-8 is printed, the text parses to the same manifest (strings up
    to their terminator, the transport and the three capability flags
    included), and cleaning up what was parsed leaves exactly the printed
    text allocated. *)
Theorem manifest_roundtrip m h :
  ample h -> manifest_ok m ->
  exists text h1 h2 h3,
    mcp_registry_manifest_serialize (Some m) h = (Some text, h1) /\ hstep h h1 1 /\
    mcp_registry_manifest_parse (Some text) h1 = ((MCP_OK, trimmed m), h2) /\
    mcp_registry_manifest_cleanup (trimmed m) h2 = (empty_manifest, h3) /\ hstep h h3 1.
Proof.
  intros A Hok. destruct (mcp_registry_manifest_serialize (Some m) h) as [out h1] eqn:E.
  cbn [mcp_registry_manifest_serialize] in E. apply bind_inv in E as (o0 & k1 & E0 & E).
  destruct (object_new_attempt _ _ _ E0) as [S0 Ho]. clear E0. destruct o0 as [obj|]; [|by destruct Ho].
  destruct Ho as [W0 E0]. apply bind_inv in E as (o0 & k2 & E1 & E).
  apply manifest_object_spec in E1 as (o & l & -> & W & El & S1 & J); [|done..]. ample_fwd. rewrite J in El by done.
  eapply print_root_spec in E as [S2 Hout]; [|done|done|apply manifest_depth]. destruct out as [text|]; [|done].
  exists text, h1. destruct (mcp_registry_manifest_parse (Some text) h1) as [[st m'] h2] eqn:E2.
  apply manifest_parse_spec in E2 as [S3 Hp]. ample_fwd. destruct Hp as [(-> & l' & Hl' & ->)|(_ & _ & Hno)];
    [done| |by destruct (Hno _ Hout)].
  rewrite <- (object_text_det _ _ _ Hout Hl'), manifest_of_members in *.
  destruct (mcp_registry_manifest_cleanup (trimmed m) h2) as [e h3] eqn:E4. exists h2, h3.
  destruct (cleanup_spec _ _ _ _ E4) as [-> S4]. split; [done|]. cbn [oblocks tblocks] in *. split; [hsolve|]. split; [done|]. split; [done|]. hsolve.
Qed.

(** ** Witnesses and findings *)

Definition sample_manifest : mcp_registry_manifest_t :=
  Manifest (Some (cs "files")) (Some (cs "1.2.3")) None (Some (cs "me")) None None MCP_TRANSPORT_KIND_SOCKET true false true.

Lemma manifest_roundtrip_witness :
  exists text h1 h2, mcp_registry_manifest_serialize (Some sample_manifest) fresh_heap = (Some text, h1) /\
    mcp_registry_manifest_parse (Some text) h1 = ((MCP_OK, sample_manifest), h2).
Proof.
  destruct (manifest_roundtrip sample_manifest fresh_heap) as (text & h1 & h2 & h3 & E1 & _ & E2 & _).
  - exact fresh_ample.
  - split; vm_compute; first [reflexivity|exact I].
  - exists text, h1, h2. split; [exact E1|exact E2].
Defined.

(** A manifest whose name could not be copied is reported as parsed. *)
Lemma name_lost_ok :
  exists m h', mcp_registry_manifest_parse (Some (js "{'name':'a'}")) (Heap (Nat.eqb 8) 0 0 false) = ((MCP_OK, m), h') /\ name m = None.
Proof. eexists _, _. split; vm_compute; reflexivity. Qed.

(** The version check asks for a digit and a dot, not for X.Y.Z. *)
Lemma loose_version : is_valid_version (Some (cs "1 is not a version.")) = true.
Proof. reflexivity. Qed.
