(* ===== verification/Pkce.v ===== *)
(** * Proof keys for code exchange (src/core/auth.c, lines 22-248)

    The code challenge of RFC 7636: SHA-256 of the verifier, base64url
    without padding, and the generator of verifiers.  The SHA-256 of auth.c
    (lines 22-151) is the text of src/protocol/mrtr_state.c again, so the
    definitions of Sha256.v stand for both. *)
From S2P Require Import Prelude Heap JsonValue Sha256 Base64.

Local Open Scope Z_scope.

Definition MCP_PKCE_VERIFIER_MIN_LEN : nat := 43.
Definition MCP_PKCE_VERIFIER_MAX_LEN : nat := 128.

(** [sha256_hash] of auth.c. *)
Definition auth_sha256_hash (data : bytes) : bytes :=
  sha256_final (sha256_update (sha256_init local_ctx) data).

(** Four characters of the 24 bits at [i]. *)
Definition quad (data : bytes) (i : nat) : bytes :=
  let at_ k := b2z (nth (i + k) data x00) in
  let v := Z.lor (Z.lor (Z.shiftl (at_ 0%nat) 16) (Z.shiftl (at_ 1%nat) 8)) (at_ 2%nat) in
  [b64char (Z.land (Z.shiftr v 18) 0x3F); b64char (Z.land (Z.shiftr v 12) 0x3F);
   b64char (Z.land (Z.shiftr v 6) 0x3F); b64char (Z.land v 0x3F)].

(** The loop [while (i + 2 < 32)]. *)
Fixpoint quads (fuel : nat) (data : bytes) (i : nat) : bytes :=
  match fuel with
  | O => []
  | S fuel => if Nat.ltb (i + 2) 32 then quad data i ++ quads fuel data (i + 3) else []
  end.

(** The characters before the terminator. *)
Definition b64url_encode_32 (data : bytes) : bytes :=
  let v := Z.lor (Z.shiftl (b2z (nth 30 data x00)) 16) (Z.shiftl (b2z (nth 31 data x00)) 8) in
  quads 11 data 0 ++
  [b64char (Z.land (Z.shiftr v 18) 0x3F); b64char (Z.land (Z.shiftr v 12) 0x3F); b64char (Z.land (Z.shiftr v 6) 0x3F)].

Definition is_pkce_unreserved (b : byte) : bool :=
  let c := b2z b in
  ((65 <=? c) && (c <=? 90)) || ((97 <=? c) && (c <=? 122)) || ((48 <=? c) && (c <=? 57)) ||
  Byte.eqb b "-" || Byte.eqb b "." || Byte.eqb b "_" || Byte.eqb b "~".

(** The status and the challenge written. *)
Definition mcp_pkce_compute_challenge (code_verifier : option bytes) : mcp_status_t * option bytes :=
  match code_verifier with
  | None => (MCP_ERR_INVALID_ARGUMENT, None)
  | Some s =>
      let s := cstr s in
      let len := length s in
      if Nat.ltb len MCP_PKCE_VERIFIER_MIN_LEN || Nat.ltb MCP_PKCE_VERIFIER_MAX_LEN len then (MCP_ERR_INVALID_ARGUMENT, None)
      else if negb (forallb is_pkce_unreserved s) then (MCP_ERR_INVALID_ARGUMENT, None)
      else (MCP_OK, Some (b64url_encode_32 (auth_sha256_hash s)))
  end.

Definition verifier_charset : bytes := cs "ABCDEFGHIJKLMNOPQRSTUVWXYZabcdefghijklmnopqrstuvwxyz0123456789-._~".

(** The generator used when the random device cannot be read; [n] bytes. *)
Fixpoint weak_bytes (n : nat) (seed : Z) : bytes :=
  match n with
  | O => []
  | S n =>
      let seed := w32 (seed * 1103515245 + 12345) in
      z2b (Z.land (Z.shiftr seed 16) 0xFF) :: weak_bytes n seed
  end.

(** [device] is the 64 bytes read from /dev/urandom, [None] when that fails;
    [seed] is the time mixed with an address.  The status, the verifier and
    the challenge. *)
Definition mcp_pkce_generate (device : option bytes) (seed : Z) : mcp_status_t * bytes * option bytes :=
  let rand_bytes := match device with Some b => b | None => weak_bytes 64 seed end in
  let verifier := map (fun b => nth (Z.to_nat (b2z b mod Z.of_nat (length verifier_charset))) verifier_charset x00) rand_bytes in
  let r := mcp_pkce_compute_challenge (Some verifier) in
  (r.1, verifier, r.2).

(** ** Laws *)

Lemma auth_hash_ref data : auth_sha256_hash data = sha256_ref data.
Proof. unfold auth_sha256_hash. pose proof (digest_of local_ctx [data] eq_refl) as H. cbn [fold_left concat] in H. by rewrite app_nil_r in H. Qed.

Lemma encode_32_from data : length data = 32%nat -> b64url_encode_32 data = encode_from data.
Proof. intros H. do 32 (destruct data as [|? data]; [discriminate H|]). destruct data; [reflexivity|discriminate H]. Qed.

Lemma encoded_decodes data : decode_vals (map b64url_char_val (encode_from data)) = Some data.
Proof.
  rewrite encode_from_sextets, map_map. assert (map (fun v => b64url_char_val (b64char v)) (sextets data) = sextets data) as ->.
  { rewrite <- (map_id (sextets data)) at 2. apply Forall_fmap_ext_1. eapply Forall_impl; [apply sextets_range|].
    intros v Hv. by destruct (char_of_sextet v Hv). }
  apply decode_sextets.
Qed.

Lemma charset_unreserved b :
  is_pkce_unreserved (nth (Z.to_nat (b2z b mod Z.of_nat (length verifier_charset))) verifier_charset x00) = true.
Proof. by destruct b. Qed.

Lemma unreserved_no_nul s : forallb is_pkce_unreserved s = true -> has_nul s = false.
Proof.
  induction s as [|b s IH]; [done|]. cbn [forallb has_nul existsb]. intros [Hb Hs]%andb_true_iff.
  apply orb_false_iff. split; [by destruct b|by apply IH].
Qed.

Lemma length_weak n seed : length (weak_bytes n seed) = n.
Proof. revert seed. induction n as [|n IH]; intros seed; [done|]. cbn [weak_bytes length]. by rewrite IH. Qed.

(** What RFC 7636 asks of a verifier. *)
Definition verifier_ok (s : bytes) : Prop :=
  (43 <= length s <= 128)%nat /\ forallb is_pkce_unreserved s = true.

Lemma challenge_ok s :
  verifier_ok s -> mcp_pkce_compute_challenge (Some s) = (MCP_OK, Some (encode_from (sha256_ref s))).
Proof.
  intros [Hl Hu]. unfold mcp_pkce_compute_challenge. rewrite (cstr_no_nul _ (unreserved_no_nul _ Hu)), Hu. cbv zeta.
  rewrite (proj2 (Nat.ltb_ge _ _)), (proj2 (Nat.ltb_ge _ _)) by (unfold MCP_PKCE_VERIFIER_MIN_LEN, MCP_PKCE_VERIFIER_MAX_LEN; lia).
  cbn [orb negb]. by rewrite auth_hash_ref, encode_32_from by apply length_sha256_ref.
Qed.

(** ** Claims *)

(** C34: The code challenge: [mcp_pkce_compute_challenge] accepts exactly the
    verifiers of 43 to 128 unreserved characters, and gives the 43
    characters of the unpadded base64url form of the SHA-256 digest of the
    verifier (FIPS 180-4), which decode to that digest.
    [mcp_pkce_generate] always succeeds, whatever the device yields and
    whatever the seed is when it cannot be read: its verifier has 64
    unreserved characters and its challenge is the one
    [mcp_pkce_compute_challenge] gives. *)
Theorem pkce_challenge_reference s device seed :
  match mcp_pkce_compute_challenge (Some s) with
  | (MCP_OK, Some c) =>
      verifier_ok (cstr s) /\ c = encode_from (sha256_ref (cstr s)) /\ length c = 43%nat /\
      decode_vals (map b64url_char_val c) = Some (sha256_ref (cstr s))
  | (st, c) => st = MCP_ERR_INVALID_ARGUMENT /\ c = None /\ ~ verifier_ok (cstr s)
  end /\
  (from_option (fun b => length b = 64%nat) True device ->
   let '(st, v, c) := mcp_pkce_generate device seed in
   st = MCP_OK /\ length v = 64%nat /\ verifier_ok v /\ mcp_pkce_compute_challenge (Some v) = (MCP_OK, c)).
Proof.
  split.
  - destruct (decide (verifier_ok (cstr s))) as [Hv|Hv].
    + assert (mcp_pkce_compute_challenge (Some s) = mcp_pkce_compute_challenge (Some (cstr s))) as ->
        by (unfold mcp_pkce_compute_challenge; by rewrite cstr_idem).
      rewrite challenge_ok by done. do 2 (split; [done|]). split; [|apply encoded_decodes].
      rewrite length_encode, length_sha256_ref. done.
    + unfold mcp_pkce_compute_challenge. cbv zeta. destruct (Nat.ltb _ _ || Nat.ltb _ _) eqn:El; [done|].
      destruct (negb _) eqn:En; [done|]. exfalso. apply Hv. bool_props. unfold MCP_PKCE_VERIFIER_MIN_LEN, MCP_PKCE_VERIFIER_MAX_LEN in *.
      split; [lia|done].
  - intros Hd. unfold mcp_pkce_generate. cbv zeta.
    set (rb := match device with Some b => b | None => weak_bytes 64 seed end).
    assert (length rb = 64%nat) as Hl by (subst rb; destruct device; [done|apply length_weak]). clearbody rb.
    set (v := map _ rb).
    assert (verifier_ok v) as Hv.
    { split; [subst v; rewrite length_map; lia|]. apply forallb_forall. intros c Hc. apply in_map_iff in Hc as (b & <- & _).
      apply charset_unreserved. }
    rewrite (challenge_ok v Hv). cbn [fst snd]. split; [done|]. split; [subst v; by rewrite length_map|]. done.
Qed.

(** ** Witness (RFC 7636, appendix B) *)

Definition rfc_verifier : bytes := cs "dBjftJeZ4CVP-mB92K27uhbUJU1p1r_wW1gFWFOEjXk".

Lemma pkce_challenge_reference_witness :
  mcp_pkce_compute_challenge (Some rfc_verifier) = (MCP_OK, Some (cs "E9Melhoa2OwvFrEMTJguCHaoeK1t8URWbuGJSstw-cM")) /\
  (mcp_pkce_generate None 7).1.1 = MCP_OK.
Proof.
  split; [vm_compute; reflexivity|].
  pose proof (proj2 (pkce_challenge_reference rfc_verifier None 7) I) as H.
  destruct (mcp_pkce_generate None 7) as [[st v] c]. exact (proj1 H).
Defined.

(** When the device cannot be read the verifier is a function of a seed of
    32 bits, taken from the time and an address. *)
Lemma weak_fallback seed seed' :
  w32 seed = w32 seed' -> mcp_pkce_generate None seed = mcp_pkce_generate None seed'.
Proof.
  intros H. assert (weak_bytes 64 seed = weak_bytes 64 seed') as Hw; [|unfold mcp_pkce_generate; by rewrite Hw].
  remember 64%nat as n eqn:Hn. destruct n as [|n]; [done|]. cbn [weak_bytes]. clear Hn.
  replace (w32 (seed * 1103515245 + 12345)) with (w32 (seed' * 1103515245 + 12345)); [done|].
  unfold w32 in *. rewrite Z.add_mod, (Z.mul_mod seed'), <- H, <- Z.mul_mod, <- Z.add_mod by lia. done.
Qed.
