(* ===== verification/Forms.v ===== *)
(** * Token requests (src/core/auth.c: url_encode and the request builders)

    The bodies of the four OAuth token requests: authorization code with a
    proof key, refresh, client credentials, and token exchange (RFC 8693).
    Each builder encodes its parameters into fresh buffers, computes the size
    of the body, prints it with [snprintf] and frees the buffers. *)
From S2P Require Import Prelude Heap Utf8 JsonValue UriTemplate UriExpand Loose.

Local Open Scope Z_scope.

(** ** Operations *)

Definition form_char (b : byte) : bytes :=
  let c := b2z b in
  if ((97 <=? c) && (c <=? 122)) || ((65 <=? c) && (c <=? 90)) || ((48 <=? c) && (c <=? 57)) ||
     Byte.eqb b "-" || Byte.eqb b "_" || Byte.eqb b "." || Byte.eqb b "~"
  then [b]
  else ["%"%byte; hex_char (Z.land (Z.shiftr c 4) 0x0F); hex_char (Z.land c 0x0F)].

Definition url_text (s : bytes) : bytes := flat_map form_char (cstr s).

(** [auth.c]'s [url_encode]: a fresh buffer of [3 * strlen + 1] bytes. *)
Definition form_encode (str : option bytes) : M (option bytes) :=
  match str with
  | None => ret None
  | Some s => ok <- xmalloc ;; ret (if ok : bool then Some (url_text s) else None)
  end.

Definition mcp_oauth_free_string (s : option bytes) : M unit :=
  match s with None => ret tt | Some _ => xfree false end.

Fixpoint encode_all (srcs : list (option bytes)) : M (list (option bytes)) :=
  match srcs with
  | [] => ret []
  | s :: srcs =>
      e <- form_encode s ;;
      es <- encode_all srcs ;;
      ret (e :: es)
  end.

Fixpoint free_all (es : list (option bytes)) : M unit :=
  match es with [] => ret tt | e :: es => mcp_oauth_free_string e ;; free_all es end.

(** A parameter that is there and whose encoding is not. *)
Fixpoint missing (srcs es : list (option bytes)) : bool :=
  match srcs, es with
  | Some _ :: _, None :: _ => true
  | _ :: srcs, _ :: es => missing srcs es
  | _, _ => false
  end.

Definition INT_MAX : Z := 2 ^ 31 - 1.

(** The body of a builder.  [needed] is the size of the buffer, [text] what
    [snprintf] is asked to print, of which it stores all but the terminator
    that fits; it returns a negative number when the length is no [int], and
    [checked] builders look at that. *)
Definition build_form (checked : bool) (srcs : list (option bytes)) (needed : list (option bytes) -> nat)
    (text : list (option bytes) -> bytes) : M (mcp_status_t * option bytes) :=
  es <- encode_all srcs ;;
  if missing srcs es then free_all es ;; ret (MCP_ERR_NOMEM, None) else
  buf <- xmalloc ;;
  if negb buf then free_all es ;; ret (MCP_ERR_NOMEM, None) else
  free_all es ;;
  if checked && (INT_MAX <? Z.of_nat (length (text es))) then xfree false ;; ret (MCP_ERR_NOMEM, None) else
  ret (MCP_OK, Some (take (needed es - 1) (text es))).

(** [e ? key : "", e ? e : ""]. *)
Definition opt_part (key : bytes) (e : option bytes) : bytes :=
  match e with Some e => key ++ e | None => [] end.

(** [strlen(e)], and [e ? strlen(e) + n : 0]. *)
Definition elen (e : option bytes) : nat := match e with Some e => length e | None => 0 end.
Definition opt_len (e : option bytes) (n : nat) : nat := match e with Some e => length e + n | None => 0 end.

Definition estr (e : option bytes) : bytes := default [] e.

Definition mcp_oauth_build_token_request_pkce (code code_verifier redirect_uri client_id : option bytes)
    : M (mcp_status_t * option bytes) :=
  match code, code_verifier with
  | Some _, Some _ =>
      build_form true [code; code_verifier; redirect_uri; client_id]
        (fun es => let e i := nth i es None in
                   64 + elen (e 0) + elen (e 1) + opt_len (e 2) 16 + opt_len (e 3) 12)%nat
        (fun es => let e i := nth i es None in
                   cs "grant_type=authorization_code&code=" ++ estr (e 0%nat) ++ cs "&code_verifier=" ++ estr (e 1%nat)
                   ++ opt_part (cs "&redirect_uri=") (e 2%nat) ++ opt_part (cs "&client_id=") (e 3%nat))
  | _, _ => ret (MCP_ERR_INVALID_ARGUMENT, None)
  end.

Definition mcp_oauth_build_refresh_request (refresh_token client_id scope : option bytes)
    : M (mcp_status_t * option bytes) :=
  match refresh_token with
  | Some _ =>
      build_form true [refresh_token; client_id; scope]
        (fun es => let e i := nth i es None in 64 + elen (e 0) + opt_len (e 1) 12 + opt_len (e 2) 8)%nat
        (fun es => let e i := nth i es None in
                   cs "grant_type=refresh_token&refresh_token=" ++ estr (e 0%nat)
                   ++ opt_part (cs "&client_id=") (e 1%nat) ++ opt_part (cs "&scope=") (e 2%nat))
  | None => ret (MCP_ERR_INVALID_ARGUMENT, None)
  end.

Definition mcp_oauth_build_client_credentials_request (client_id client_secret scope : option bytes)
    : M (mcp_status_t * option bytes) :=
  match client_id with
  | Some _ =>
      build_form true [client_id; client_secret; scope]
        (fun es => let e i := nth i es None in 64 + elen (e 0) + opt_len (e 1) 16 + opt_len (e 2) 8)%nat
        (fun es => let e i := nth i es None in
                   cs "grant_type=client_credentials&client_id=" ++ estr (e 0%nat)
                   ++ opt_part (cs "&client_secret=") (e 1%nat) ++ opt_part (cs "&scope=") (e 2%nat))
  | None => ret (MCP_ERR_INVALID_ARGUMENT, None)
  end.

Record mcp_oauth_token_exchange_req_t := ExchangeReq {
  subject_token : option bytes;
  subject_token_type : option bytes;
  actor_token : option bytes;
  actor_token_type : option bytes;
  resource : option bytes;
  audience : option bytes;
  scope : option bytes;
  requested_token_type : option bytes;
}.

(** [s != NULL && s[0] != 0]. *)
Definition filled (s : option bytes) : bool := negb (bool_decide (cstr (default [] s) = [])).

(** [filled(s) ? s : NULL]. *)
Definition if_filled (s : option bytes) : option bytes := if filled s then s else None.

Definition exchange_refused (req : mcp_oauth_token_exchange_req_t) : bool :=
  negb (filled (subject_token req)) || negb (filled (subject_token_type req)) ||
  (filled (actor_token req) && negb (filled (actor_token_type req))).

Definition mcp_oauth_build_token_exchange_request (req : option mcp_oauth_token_exchange_req_t)
    : M (mcp_status_t * option bytes) :=
  match req with
  | None => ret (MCP_ERR_INVALID_ARGUMENT, None)
  | Some req =>
      if exchange_refused req then ret (MCP_ERR_INVALID_ARGUMENT, None) else
      build_form false
        [subject_token req; subject_token_type req; if_filled (actor_token req); if_filled (actor_token_type req);
         if_filled (resource req); if_filled (audience req); if_filled (scope req); if_filled (requested_token_type req)]
        (fun es => let e i := nth i es None in
                   128 + elen (e 0) + elen (e 1) + opt_len (e 2) 16 + opt_len (e 3) 20 + opt_len (e 4) 12
                   + opt_len (e 5) 12 + opt_len (e 6) 10 + opt_len (e 7) 24)%nat
        (fun es => let e i := nth i es None in
                   cs "grant_type=urn%3Aietf%3Aparams%3Aoauth%3Agrant-type%3Atoken-exchange" ++
                   cs "&subject_token=" ++ estr (e 0%nat) ++ cs "&subject_token_type=" ++ estr (e 1%nat)
                   ++ opt_part (cs "&actor_token=") (e 2%nat) ++ opt_part (cs "&actor_token_type=") (e 3%nat)
                   ++ opt_part (cs "&resource=") (e 4%nat) ++ opt_part (cs "&audience=") (e 5%nat)
                   ++ opt_part (cs "&scope=") (e 6%nat) ++ opt_part (cs "&requested_token_type=") (e 7%nat))
  end.

(** ** The reference reader of application/x-www-form-urlencoded *)

Fixpoint split_amp (s : bytes) : list bytes :=
  match s with
  | [] => [[]]
  | c :: s =>
      if Byte.eqb c "&" then [] :: split_amp s
      else match split_amp s with [] => [[c]] | f :: fs => (c :: f) :: fs end
  end.

Fixpoint split_eq (s : bytes) : bytes * bytes :=
  match s with
  | [] => ([], [])
  | c :: s => if Byte.eqb c "=" then ([], s) else let '(k, v) := split_eq s in (c :: k, v)
  end.

Definition form_pairs (s : bytes) : list (bytes * bytes) :=
  map (fun f => let '(k, v) := split_eq f in (k, decode_chars v)) (split_amp s).

(** ** Encoding *)

Lemma form_char_encode b : form_char b = encode_char false b.
Proof. by destruct b. Qed.

Lemma url_text_decodes s : decode_chars (url_text s) = cstr s.
Proof.
  unfold url_text. rewrite (flat_map_ext _ (encode_char false)) by apply form_char_encode. apply decode_encode.
Qed.

Lemma url_text_safe s b : b ∈ url_text s -> b <> "&"%byte.
Proof.
  unfold url_text. rewrite (flat_map_ext _ (encode_char false)) by apply form_char_encode. intros H.
  by destruct (encoded_safe _ _ H) as (_ & ? & _).
Qed.

(** A key and its value, as the builders print it. *)
Definition pair_text (kv : bytes * bytes) : bytes := kv.1 ++ "="%byte :: url_text kv.2.

Definition form_text (kvs : list (bytes * bytes)) : bytes :=
  match kvs with
  | [] => []
  | kv :: kvs => pair_text kv ++ flat_map (fun kv => "&"%byte :: pair_text kv) kvs
  end.

Definition plain_key (k : bytes) : Prop := ("&"%byte ∉ k) /\ ("="%byte ∉ k).

Lemma split_amp_field f s : "&"%byte ∉ f -> split_amp (f ++ ("&"%byte :: s)) = f :: split_amp s.
Proof.
  induction f as [|c f IH]; intros Hf; [done|]. cbn [app split_amp].
  assert (c <> "&"%byte) as Hc by set_solver. apply byte_eqb_neq in Hc. rewrite Hc, IH by set_solver. done.
Qed.

Lemma split_amp_last f : "&"%byte ∉ f -> split_amp f = [f].
Proof.
  induction f as [|c f IH]; intros Hf; [done|]. cbn [split_amp].
  assert (c <> "&"%byte) as Hc by set_solver. apply byte_eqb_neq in Hc. rewrite Hc, IH by set_solver. done.
Qed.

Lemma split_eq_pair k v : "="%byte ∉ k -> split_eq (k ++ ("="%byte :: v)) = (k, v).
Proof.
  induction k as [|c k IH]; intros Hk; [done|]. cbn [app split_eq].
  assert (c <> "="%byte) as Hc by set_solver. apply byte_eqb_neq in Hc. rewrite Hc, IH by set_solver. done.
Qed.

Lemma pair_text_amp kv : plain_key kv.1 -> "&"%byte ∉ pair_text kv.
Proof.
  intros [Hk _] H. unfold pair_text in H. apply elem_of_app in H as [H|H]; [done|]. apply elem_of_cons in H as [H|H]; [done|].
  by apply url_text_safe in H.
Qed.

Lemma split_form kv kvs :
  plain_key kv.1 -> Forall (fun kv => plain_key kv.1) kvs -> split_amp (form_text (kv :: kvs)) = map pair_text (kv :: kvs).
Proof.
  intros Hk Hks. cbn [form_text]. revert kv Hk. induction Hks as [|kv' kvs Hk' Hks IH]; intros kv Hk; cbn [flat_map map].
  - rewrite app_nil_r. apply split_amp_last, pair_text_amp, Hk.
  - cbn [app]. rewrite split_amp_field by (by apply pair_text_amp). f_equal. by apply IH.
Qed.

(** The reader inverts the printer. *)
Lemma form_roundtrip kv kvs :
  plain_key kv.1 -> Forall (fun kv => plain_key kv.1) kvs -> form_pairs (form_text (kv :: kvs)) = map (fun kv => (kv.1, cstr kv.2)) (kv :: kvs).
Proof.
  intros Hk Hks. unfold form_pairs. rewrite split_form, map_map by done. apply Forall_fmap_ext_1.
  constructor; [|eapply Forall_impl; [exact Hks|]]; [|intros kv' [_ Hk']].
  - destruct Hk as [_ Hk]. unfold pair_text. by rewrite split_eq_pair, url_text_decodes.
  - unfold pair_text. by rewrite split_eq_pair, url_text_decodes.
Qed.

(** ** Building *)

Definition encoded_all (srcs : list (option bytes)) : list (option bytes) := map (fmap url_text) srcs.

Definition eblocks (es : list (option bytes)) : Z := foldr (fun e n => tblocks e + n) 0 es.

Lemma form_encode_spec s h e h' :
  form_encode s h = (e, h') -> hstep h h' (tblocks e) /\ (e = url_text <$> s \/ (is_Some s /\ e = None /\ ~ ample h)).
Proof.
  intros H. destruct s as [s|]; cbn [form_encode] in H.
  - apply bind_inv in H as (ok & h1 & E & H). apply ret_inv in H as [-> ->]. pose proof E as E'. apply xmalloc_hstep in E.
    destruct ok; (split; [done|]); [by left|right]. split; [by eexists|]. split; [done|]. intros A. by apply xmalloc_ample_inv in E'.
  - apply ret_inv in H as [-> ->]. split; [apply hstep_refl|by left].
Qed.

(** Either every encoding is there, or one is missing for want of memory. *)
Lemma encode_all_spec srcs : forall h es h',
  encode_all srcs h = (es, h') ->
  hstep h h' (eblocks es) /\
  ((es = encoded_all srcs /\ missing srcs es = false) \/ (missing srcs es = true /\ ~ ample h)).
Proof.
  induction srcs as [|s srcs IH]; intros h es h' H; cbn [encode_all] in H.
  { apply ret_inv in H as [-> ->]. split; [apply hstep_refl|by left]. }
  apply bind_inv in H as (e & h1 & E & H). apply form_encode_spec in E as [S1 He].
  apply bind_inv in H as (es' & h2 & E2 & H). apply IH in E2 as [S2 Hes]. apply ret_inv in H as [-> ->].
  split; [cbn [eblocks foldr]; fold (eblocks es'); hsolve|].
  destruct He as [-> |([s' ->] & -> & Hna)]; [|by right].
  destruct Hes as [[-> Hm]|[Hm Hna]].
  - left. split; [done|]. by destruct s.
  - right. split; [by destruct s|]. intros A. apply Hna. by eapply ample_hstep.
Qed.

Lemma free_string_hstep s h u h' : mcp_oauth_free_string s h = (u, h') -> hstep h h' (- tblocks s).
Proof. intros H. destruct s; cbn [mcp_oauth_free_string] in H; [by apply xfree_hstep in H|apply ret_inv in H as [_ ->]; apply hstep_refl]. Qed.

Lemma free_all_hstep es : forall h u h', free_all es h = (u, h') -> hstep h h' (- eblocks es).
Proof.
  induction es as [|e es IH]; intros h u h' H; cbn [free_all] in H.
  { apply ret_inv in H as [_ ->]. apply hstep_refl. }
  apply bind_inv in H as (u1 & h1 & E & H). apply free_string_hstep in E. apply IH in H. cbn [eblocks foldr]. fold (eblocks es). hsolve.
Qed.

(** For every allocator: the body, the only block left, or NULL. *)
Lemma build_form_spec checked srcs needed text h st body h' :
  Z.of_nat (length (text (encoded_all srcs))) <= INT_MAX ->
  build_form checked srcs needed text h = ((st, body), h') ->
  hstep h h' (tblocks body) /\
  ((st = MCP_OK /\ body = Some (take (needed (encoded_all srcs) - 1) (text (encoded_all srcs)))) \/
   (st = MCP_ERR_NOMEM /\ body = None /\ ~ ample h)).
Proof.
  intros Hlen H. unfold build_form in H. apply bind_inv in H as (es & h1 & E & H). apply encode_all_spec in E as [S1 Hes].
  destruct (missing srcs es) eqn:Hm.
  { apply bind_inv in H as (u & h2 & E2 & H). apply free_all_hstep in E2. apply ret_inv in H as [[= -> ->] ->].
    split; [cbn; hsolve|]. right. destruct Hes as [[_ ?]|[_ ?]]; done. }
  destruct Hes as [[-> _]|[? _]]; [|done]. apply bind_inv in H as (ok & h2 & E2 & H). pose proof E2 as E2'. apply xmalloc_hstep in E2.
  destruct ok; cbn [negb] in H.
  - apply bind_inv in H as (u & h3 & E3 & H). apply free_all_hstep in E3.
    rewrite (proj2 (Z.ltb_ge _ _) Hlen), andb_false_r in H. apply ret_inv in H as [[= -> ->] ->]. split; [cbn; hsolve|by left].
  - apply bind_inv in H as (u & h3 & E3 & H). apply free_all_hstep in E3. apply ret_inv in H as [[= -> ->] ->].
    split; [cbn; hsolve|]. right. do 2 (split; [done|]). intros A. apply xmalloc_ample_inv in E2'; [done|]. by eapply ample_hstep.
Qed.

(** ** The four requests *)

Inductive token_request :=
| CodeExchange (code code_verifier : bytes) (redirect_uri client_id : option bytes)
| Refresh (refresh_token : bytes) (client_id scope : option bytes)
| ClientCredentials (client_id : bytes) (client_secret scope : option bytes)
| TokenExchange (req : mcp_oauth_token_exchange_req_t).

Definition build_request (r : token_request) : M (mcp_status_t * option bytes) :=
  match r with
  | CodeExchange code ver uri cid => mcp_oauth_build_token_request_pkce (Some code) (Some ver) uri cid
  | Refresh tok cid scp => mcp_oauth_build_refresh_request (Some tok) cid scp
  | ClientCredentials cid sec scp => mcp_oauth_build_client_credentials_request (Some cid) sec scp
  | TokenExchange req => mcp_oauth_build_token_exchange_request (Some req)
  end.

Definition opt_pair (key : bytes) (v : option bytes) : list (bytes * bytes) :=
  match v with Some v => [(key, v)] | None => [] end.

(** The parameters of a request, the grant type first. *)
Definition grant_type (r : token_request) : bytes :=
  match r with
  | CodeExchange _ _ _ _ => cs "authorization_code"
  | Refresh _ _ _ => cs "refresh_token"
  | ClientCredentials _ _ _ => cs "client_credentials"
  | TokenExchange _ => cs "urn:ietf:params:oauth:grant-type:token-exchange"
  end.

Definition request_params (r : token_request) : list (bytes * bytes) :=
  match r with
  | CodeExchange code ver uri cid =>
      [(cs "code", code); (cs "code_verifier", ver)] ++ opt_pair (cs "redirect_uri") uri ++ opt_pair (cs "client_id") cid
  | Refresh tok cid scp => [(cs "refresh_token", tok)] ++ opt_pair (cs "client_id") cid ++ opt_pair (cs "scope") scp
  | ClientCredentials cid sec scp => [(cs "client_id", cid)] ++ opt_pair (cs "client_secret") sec ++ opt_pair (cs "scope") scp
  | TokenExchange req =>
      [(cs "subject_token", estr (subject_token req)); (cs "subject_token_type", estr (subject_token_type req))] ++
      opt_pair (cs "actor_token") (if_filled (actor_token req)) ++
      opt_pair (cs "actor_token_type") (if_filled (actor_token_type req)) ++
      opt_pair (cs "resource") (if_filled (resource req)) ++ opt_pair (cs "audience") (if_filled (audience req)) ++
      opt_pair (cs "scope") (if_filled (scope req)) ++
      opt_pair (cs "requested_token_type") (if_filled (requested_token_type req))
  end.

Definition request_text (r : token_request) : bytes := form_text ((cs "grant_type", grant_type r) :: request_params r).

(** What the exchange builder accepts; the others accept everything. *)
Definition request_ok (r : token_request) : Prop :=
  match r with TokenExchange req => exchange_refused req = false | _ => True end.

Lemma opt_part_text key v :
  opt_part ("&"%byte :: key ++ ["="%byte]) (url_text <$> v) = flat_map (fun kv => "&"%byte :: pair_text kv) (opt_pair key v).
Proof.
  destruct v as [v|]; [|done]. cbn [opt_part opt_pair flat_map fmap option_fmap option_map]. rewrite app_nil_r. unfold pair_text. cbn [fst snd app].
  by rewrite <- app_assoc.
Qed.

Lemma filled_some s : filled s = true -> s = Some (estr s).
Proof. by destruct s. Qed.

(** The texts the builders print are the texts of their parameters. *)
Ltac form_norm :=
  unfold request_text, form_text, request_params; rewrite ?flat_map_app, <- ?opt_part_text; cbn [flat_map grant_type];
  unfold pair_text; cbn [fst snd].

Ltac form_close := cbn; rewrite ?app_nil_r; repeat (rewrite <- app_assoc; cbn); reflexivity.

Lemma code_text code ver uri cid :
  cs "grant_type=authorization_code&code=" ++ url_text code ++ cs "&code_verifier=" ++ url_text ver
  ++ opt_part (cs "&redirect_uri=") (url_text <$> uri) ++ opt_part (cs "&client_id=") (url_text <$> cid)
  = request_text (CodeExchange code ver uri cid).
Proof.
  form_norm. change (url_text (cs "authorization_code")) with (cs "authorization_code").
  generalize (url_text code), (url_text ver), (url_text <$> uri), (url_text <$> cid). intros a b c d. form_close.
Qed.

Lemma refresh_text tok cid scp :
  cs "grant_type=refresh_token&refresh_token=" ++ url_text tok
  ++ opt_part (cs "&client_id=") (url_text <$> cid) ++ opt_part (cs "&scope=") (url_text <$> scp)
  = request_text (Refresh tok cid scp).
Proof.
  form_norm. change (url_text (cs "refresh_token")) with (cs "refresh_token").
  generalize (url_text tok), (url_text <$> cid), (url_text <$> scp). intros a b c. form_close.
Qed.

Lemma credentials_text cid sec scp :
  cs "grant_type=client_credentials&client_id=" ++ url_text cid
  ++ opt_part (cs "&client_secret=") (url_text <$> sec) ++ opt_part (cs "&scope=") (url_text <$> scp)
  = request_text (ClientCredentials cid sec scp).
Proof.
  form_norm. change (url_text (cs "client_credentials")) with (cs "client_credentials").
  generalize (url_text cid), (url_text <$> sec), (url_text <$> scp). intros a b c. form_close.
Qed.

Lemma exchange_text req :
  cs "grant_type=urn%3Aietf%3Aparams%3Aoauth%3Agrant-type%3Atoken-exchange" ++
  cs "&subject_token=" ++ url_text (estr (subject_token req)) ++ cs "&subject_token_type=" ++ url_text (estr (subject_token_type req))
  ++ opt_part (cs "&actor_token=") (url_text <$> if_filled (actor_token req))
  ++ opt_part (cs "&actor_token_type=") (url_text <$> if_filled (actor_token_type req))
  ++ opt_part (cs "&resource=") (url_text <$> if_filled (resource req)) ++ opt_part (cs "&audience=") (url_text <$> if_filled (audience req))
  ++ opt_part (cs "&scope=") (url_text <$> if_filled (scope req))
  ++ opt_part (cs "&requested_token_type=") (url_text <$> if_filled (requested_token_type req))
  = request_text (TokenExchange req).
Proof.
  form_norm. change (url_text (cs "urn:ietf:params:oauth:grant-type:token-exchange"))
    with (cs "urn%3Aietf%3Aparams%3Aoauth%3Agrant-type%3Atoken-exchange").
  generalize (url_text (estr (subject_token req))), (url_text (estr (subject_token_type req))),
    (url_text <$> if_filled (actor_token req)), (url_text <$> if_filled (actor_token_type req)),
    (url_text <$> if_filled (resource req)), (url_text <$> if_filled (audience req)), (url_text <$> if_filled (scope req)),
    (url_text <$> if_filled (requested_token_type req)). intros a b c d e f g i. form_close.
Qed.

(** The size computed is enough for a key that fits its allowance. *)
Lemma opt_part_len key e n : (length key <= n)%nat -> (length (opt_part key e) <= opt_len e n)%nat.
Proof. intros Hk. destruct e as [e|]; cbn [opt_part opt_len]; [|simpl; lia]. rewrite length_app. lia. Qed.

Lemma plain_lit k : forallb (fun b => negb (Byte.eqb b "&" || Byte.eqb b "=")) k = true -> plain_key k.
Proof.
  intros H. rewrite forallb_forall in H. split; intros Hb%list_elem_of_In%H; discriminate Hb.
Qed.

Lemma opt_pair_plain key v : plain_key key -> Forall (fun kv => plain_key kv.1) (opt_pair key v).
Proof. intros Hk. destruct v; cbn [opt_pair]; [by constructor|constructor]. Qed.

Lemma params_plain r : Forall (fun kv => plain_key kv.1) (request_params r).
Proof.
  destruct r; cbn [request_params]; rewrite ?Forall_app; repeat (apply conj).
  all: first [apply opt_pair_plain|repeat (apply Forall_cons; split); [..|apply Forall_nil_2]].
  all: apply plain_lit; vm_compute; reflexivity.
Qed.

Lemma elen_some s : elen (url_text <$> Some s) = length (url_text s).
Proof. done. Qed.

(** ** Claims *)

(** C30: Token requests: for every allocator a builder leaves its body as the
    only block, or nothing and [MCP_ERR_NOMEM], which it reports only when
    memory was refused.  The buffer it computes is always long enough: the
    body is never cut, and a reader of form data gets from it the grant type
    and then exactly the parameters given, in order and byte for byte, with
    the absent (for the exchange: absent or empty) ones left out.  The
    hypothesis on the length is the range of [int]. *)
Theorem form_body_decodes r h st body h' :
  request_ok r -> Z.of_nat (length (request_text r)) <= INT_MAX -> build_request r h = ((st, body), h') ->
  hstep h h' (tblocks body) /\ (ample h -> st = MCP_OK) /\
  match body with
  | Some b => st = MCP_OK /\
      form_pairs b = map (fun kv => (kv.1, cstr kv.2)) ((cs "grant_type", grant_type r) :: request_params r)
  | None => st = MCP_ERR_NOMEM /\ ~ ample h
  end.
Proof.
  intros Hok Hlen H.
  assert (exists c srcs needed text, build_request r = build_form c srcs needed text /\ text (encoded_all srcs) = request_text r /\
    (length (request_text r) < needed (encoded_all srcs))%nat) as (c & srcs & needed & text & Hb & Ht & Hn).
  { destruct r as [code ver uri cid|tok cid scp|cid sec scp|req]; cbn [build_request].
    - do 4 eexists. split; [reflexivity|]. cbv beta zeta. split; [apply code_text|]. rewrite <- code_text.
      cbn [encoded_all map nth]. rewrite !elen_some, !length_app.
      pose proof (opt_part_len (cs "&redirect_uri=") (url_text <$> uri) 16 ltac:(vm_compute; lia)).
      pose proof (opt_part_len (cs "&client_id=") (url_text <$> cid) 12 ltac:(vm_compute; lia)).
      change (length (cs "grant_type=authorization_code&code=")) with 35%nat. change (length (cs "&code_verifier=")) with 15%nat. lia.
    - do 4 eexists. split; [reflexivity|]. cbv beta zeta. split; [apply refresh_text|]. rewrite <- refresh_text.
      cbn [encoded_all map nth]. rewrite !elen_some, !length_app.
      pose proof (opt_part_len (cs "&client_id=") (url_text <$> cid) 12 ltac:(vm_compute; lia)).
      pose proof (opt_part_len (cs "&scope=") (url_text <$> scp) 8 ltac:(vm_compute; lia)).
      change (length (cs "grant_type=refresh_token&refresh_token=")) with 39%nat. lia.
    - do 4 eexists. split; [reflexivity|]. cbv beta zeta. split; [apply credentials_text|]. rewrite <- credentials_text.
      cbn [encoded_all map nth]. rewrite !elen_some, !length_app.
      pose proof (opt_part_len (cs "&client_secret=") (url_text <$> sec) 16 ltac:(vm_compute; lia)).
      pose proof (opt_part_len (cs "&scope=") (url_text <$> scp) 8 ltac:(vm_compute; lia)).
      change (length (cs "grant_type=client_credentials&client_id=")) with 40%nat. lia.
    - cbn [request_ok] in Hok. unfold mcp_oauth_build_token_exchange_request. rewrite Hok. unfold exchange_refused in Hok.
      do 4 eexists. split; [reflexivity|]. cbv beta zeta. rewrite <- exchange_text.
      apply orb_false_iff in Hok as [Hok _]. apply orb_false_iff in Hok as [H1 H2]. apply negb_false_iff in H1, H2.
      destruct req as [[a|] [b|] ac act rs au sc rt]; cbn [subject_token subject_token_type] in *; [|discriminate..]. clear H1 H2.
      cbn [encoded_all map nth actor_token actor_token_type resource audience scope requested_token_type].
      split; [reflexivity|]. rewrite !elen_some, !length_app. change (estr (Some a)) with a. change (estr (Some b)) with b.
      pose proof (opt_part_len (cs "&actor_token=") (url_text <$> if_filled ac) 16 ltac:(vm_compute; lia)).
      pose proof (opt_part_len (cs "&actor_token_type=") (url_text <$> if_filled act) 20 ltac:(vm_compute; lia)).
      pose proof (opt_part_len (cs "&resource=") (url_text <$> if_filled rs) 12 ltac:(vm_compute; lia)).
      pose proof (opt_part_len (cs "&audience=") (url_text <$> if_filled au) 12 ltac:(vm_compute; lia)).
      pose proof (opt_part_len (cs "&scope=") (url_text <$> if_filled sc) 10 ltac:(vm_compute; lia)).
      pose proof (opt_part_len (cs "&requested_token_type=") (url_text <$> if_filled rt) 24 ltac:(vm_compute; lia)).
      change (length (cs "grant_type=urn%3Aietf%3Aparams%3Aoauth%3Agrant-type%3Atoken-exchange")) with 68%nat.
      change (length (cs "&subject_token=")) with 15%nat. change (length (cs "&subject_token_type=")) with 20%nat. lia. }
  rewrite Hb in H. apply build_form_spec in H as [Hs Hr]; [|by rewrite Ht]. split; [done|].
  destruct Hr as [[-> ->]|(-> & -> & Hna)]; [|done]. split; [done|]. split; [done|].
  rewrite Ht, take_ge by lia. apply form_roundtrip; [apply plain_lit; vm_compute; reflexivity|apply params_plain].
Qed.

(** ** Witnesses *)

Lemma form_body_decodes_witness :
  exists st b h', build_request (CodeExchange (cs "a&b") (cs "v") None (Some (cs "id"))) fresh_heap = ((st, Some b), h') /\
  form_pairs b = [(cs "grant_type", cs "authorization_code"); (cs "code", cs "a&b"); (cs "code_verifier", cs "v"); (cs "client_id", cs "id")].
Proof.
  destruct (build_request (CodeExchange (cs "a&b") (cs "v") None (Some (cs "id"))) fresh_heap) as [[st body] h'] eqn:E.
  destruct (form_body_decodes (CodeExchange (cs "a&b") (cs "v") None (Some (cs "id"))) fresh_heap st body h') as (_ & Hst & Hb).
  - exact I.
  - vm_compute. congruence.
  - exact E.
  - destruct body as [b|].
    + exists st, b, h'. split; [reflexivity|exact (proj2 Hb)].
    + exfalso. exact (proj2 Hb fresh_ample).
Defined.
