(* ===== verification/OAuth.v ===== *)
(** * OAuth documents (src/core/auth.c: server metadata and token responses)

    The reader of the metadata of an authorization server (RFC 8414), the
    check of the issuer, and the readers of token responses (RFC 6749) and
    token exchange responses (RFC 8693).  A [char[256]] of the metadata is
    the string it holds. *)
From S2P Require Import Prelude Heap Utf8 Double JsonValue JsonParse JsonGrammar JsonSerialize JsonApi Schema Message Builders RouteLaws Content Loose Forms.

Local Open Scope Z_scope.

(** ** Server metadata *)

Record mcp_oauth_metadata_t := Metadata {
  issuer : bytes;
  authorization_endpoint : bytes;
  token_endpoint : bytes;
  registration_endpoint : bytes;
  jwks_uri : bytes;
  supports_pkce_s256 : bool;
  client_id_metadata_document_supported : bool;
}.

(** [copy_string_field] into a buffer of [out_cap] bytes. *)
Definition copy_string_field (obj : option value) (key : bytes) (out_cap : nat) : bytes :=
  match builtin_get_string (builtin_object_get obj (Some key)) with
  | Some s => take (out_cap - 1) s
  | None => []
  end.

(** The loop over [code_challenge_methods_supported]. *)
Definition lists_s256 (methods : option value) : bool :=
  match builtin_type_of methods with
  | MCP_JSON_ARRAY =>
      existsb (fun i => match builtin_get_string (builtin_array_get methods i) with
                        | Some m => streq m (cs "S256")
                        | None => false
                        end) (seq 0 (builtin_array_size methods))
  | _ => false
  end.

(** The status and [*out_metadata]; [None] where it is not written. *)
Definition mcp_oauth_metadata_parse (json_metadata : option value) : mcp_status_t * option mcp_oauth_metadata_t :=
  match json_metadata with
  | None => (MCP_ERR_INVALID_ARGUMENT, None)
  | Some _ =>
      match builtin_type_of json_metadata with
      | MCP_JSON_OBJECT =>
          let field key := copy_string_field json_metadata key 256 in
          let m s256 doc := Metadata (field (cs "issuer")) (field (cs "authorization_endpoint")) (field (cs "token_endpoint"))
                              (field (cs "registration_endpoint")) (field (cs "jwks_uri")) s256 doc in
          if bool_decide (field (cs "issuer") = []) || bool_decide (field (cs "authorization_endpoint") = []) ||
             bool_decide (field (cs "token_endpoint") = [])
          then (MCP_ERR_PROTOCOL, Some (m false false))
          else
            (MCP_OK, Some (m (lists_s256 (builtin_object_get json_metadata (Some (cs "code_challenge_methods_supported"))))
                             (default false (builtin_get_bool
                                (builtin_object_get json_metadata (Some (cs "client_id_metadata_document_supported")))))))
      | _ => (MCP_ERR_INVALID_ARGUMENT, None)
      end
  end.

Definition mcp_oauth_validate_issuer (expected_issuer response_issuer : option bytes) : bool :=
  match expected_issuer, response_issuer with
  | None, _ => false
  | Some _, None => true
  | Some e, Some r => streq e r
  end.

(** ** Token responses *)

(** [(uint32_t)d]: undefined when the integer part does not fit. *)
Definition cast_u32 (d : double) : option Z :=
  if isfinite d && (0 <=? dtrunc d) && (dtrunc d <? 2 ^ 32) then Some (dtrunc d) else None.

(** [expires_in], 0 when it is absent or negative; [None] is undefined. *)
Definition read_expires (root : option value) : option Z :=
  match builtin_get_number (builtin_object_get root (Some (cs "expires_in"))) with
  | Some d => if dgeb d (double_of_Z 0) then cast_u32 d else Some 0
  | None => Some 0
  end.

Record mcp_oauth_token_response_t := TokenResponse {
  access_token : option bytes;
  token_type : option bytes;
  expires_in : option Z;
  refresh_token : option bytes;
  token_scope : option bytes;
}.

Definition no_token : mcp_oauth_token_response_t := TokenResponse None None (Some 0) None None.

Definition mcp_oauth_token_response_cleanup (resp : mcp_oauth_token_response_t) : M mcp_oauth_token_response_t :=
  mcp_oauth_free_string (access_token resp) ;;
  mcp_oauth_free_string (token_type resp) ;;
  mcp_oauth_free_string (refresh_token resp) ;;
  mcp_oauth_free_string (token_scope resp) ;;
  ret no_token.

Definition mcp_oauth_token_response_parse (json_str : option bytes) : M (mcp_status_t * mcp_oauth_token_response_t) :=
  match json_str with
  | None => ret (MCP_ERR_INVALID_ARGUMENT, no_token)
  | Some _ =>
      root <- parse_object_root json_str ;;
      match root with
      | None => ret (MCP_ERR_PROTOCOL, no_token)
      | Some _ =>
          let s_acc := builtin_get_string (builtin_object_get root (Some (cs "access_token"))) in
          let s_typ := builtin_get_string (builtin_object_get root (Some (cs "token_type"))) in
          match s_acc, s_typ with
          | Some _, Some _ =>
              acc <- strdup s_acc ;;
              typ <- strdup s_typ ;;
              ref <- dup_member root (cs "refresh_token") ;;
              scp <- dup_member root (cs "scope") ;;
              let resp := TokenResponse acc typ (read_expires root) ref scp in
              builtin_destroy root ;;
              match acc, typ with
              | Some _, Some _ => ret (MCP_OK, resp)
              | _, _ => resp <- mcp_oauth_token_response_cleanup resp ;; ret (MCP_ERR_NOMEM, resp)
              end
          | _, _ => builtin_destroy root ;; ret (MCP_ERR_PROTOCOL, no_token)
          end
      end
  end.

(** ** Token exchange responses *)

Record mcp_oauth_token_exchange_response_t := ExchangeResponse {
  x_access_token : option bytes;
  x_issued_token_type : option bytes;
  x_token_type : option bytes;
  x_expires_in : option Z;
  x_refresh_token : option bytes;
  x_scope : option bytes;
}.

Definition no_exchange : mcp_oauth_token_exchange_response_t := ExchangeResponse None None None (Some 0) None None.

Definition mcp_oauth_token_exchange_response_cleanup (resp : mcp_oauth_token_exchange_response_t)
    : M mcp_oauth_token_exchange_response_t :=
  mcp_oauth_free_string (x_access_token resp) ;;
  mcp_oauth_free_string (x_issued_token_type resp) ;;
  mcp_oauth_free_string (x_token_type resp) ;;
  mcp_oauth_free_string (x_refresh_token resp) ;;
  mcp_oauth_free_string (x_scope resp) ;;
  ret no_exchange.

(** [mcp_json_destroy(root); cleanup(resp); return MCP_ERR_NOMEM]. *)
Definition exchange_nomem (root : option value) (resp : mcp_oauth_token_exchange_response_t)
    : M (mcp_status_t * mcp_oauth_token_exchange_response_t) :=
  builtin_destroy root ;;
  resp <- mcp_oauth_token_exchange_response_cleanup resp ;;
  ret (MCP_ERR_NOMEM, resp).

(** An optional member whose copy must succeed. *)
Definition dup_done (s r : option bytes) : bool := match s, r with Some _, None => false | _, _ => true end.

Definition mcp_oauth_token_exchange_response_parse (json_str : option bytes)
    : M (mcp_status_t * mcp_oauth_token_exchange_response_t) :=
  match json_str with
  | None => ret (MCP_ERR_INVALID_ARGUMENT, no_exchange)
  | Some _ =>
      root <- parse_object_root json_str ;;
      match root with
      | None => ret (MCP_ERR_PROTOCOL, no_exchange)
      | Some _ =>
          let str key := builtin_get_string (builtin_object_get root (Some key)) in
          match str (cs "access_token"), str (cs "issued_token_type"), str (cs "token_type") with
          | Some s_acc, Some s_iss, Some s_typ =>
              acc <- strdup (Some s_acc) ;;
              iss <- strdup (Some s_iss) ;;
              typ <- strdup (Some s_typ) ;;
              match acc, iss, typ with
              | Some _, Some _, Some _ =>
                  ref <- strdup (str (cs "refresh_token")) ;;
                  let resp := ExchangeResponse acc iss typ (read_expires root) ref None in
                  if negb (dup_done (str (cs "refresh_token")) ref) then exchange_nomem root resp else
                  scp <- strdup (str (cs "scope")) ;;
                  let resp := ExchangeResponse acc iss typ (read_expires root) ref scp in
                  if negb (dup_done (str (cs "scope")) scp) then exchange_nomem root resp else
                  builtin_destroy root ;;
                  ret (MCP_OK, resp)
              | _, _, _ => exchange_nomem root (ExchangeResponse acc iss typ (Some 0) None None)
              end
          | _, _, _ => builtin_destroy root ;; ret (MCP_ERR_PROTOCOL, no_exchange)
          end
      end
  end.

(** ** What a response says *)

Lemma strdup_good s h r h' :
  from_option good_string True s -> strdup s h = (r, h') ->
  hstep h h' (tblocks r) /\ (r = s \/ (is_Some s /\ r = None /\ ~ ample h)).
Proof.
  intros Hg H. destruct s as [s|]; cbn [strdup] in H.
  - apply bind_inv in H as (ok & h1 & E & H). apply ret_inv in H as [-> ->]. pose proof E as E'. apply xmalloc_hstep in E.
    destruct ok; (split; [done|]); [left; by rewrite (cstr_no_nul _ (proj1 Hg))|right].
    split; [by eexists|]. split; [done|]. intros A. by apply xmalloc_ample_inv in E'.
  - apply ret_inv in H as [-> ->]. split; [apply hstep_refl|by left].
Qed.

Definition jexpires (l : list (bytes * json)) : option Z :=
  match jlookup (cs "expires_in") l with
  | Some (JNumber d) => if dgeb d (double_of_Z 0) then cast_u32 d else Some 0
  | _ => Some 0
  end.

Lemma read_expires_meaning root l : wf root -> erase root = JObject l -> read_expires (Some root) = jexpires l.
Proof.
  intros Hw Hl. unfold read_expires, jexpires. rewrite <- (member_meaning root l (cs "expires_in") Hw Hl ltac:(lit)).
  by destruct (builtin_object_get _ _) as [[]|].
Qed.

Lemma member_text_good root l key : wf root -> erase root = JObject l -> good_string key -> from_option good_string True (jtext_of key l).
Proof. intros Hw Hl Hk. destruct (jtext_of key l) as [s|] eqn:E; [by eapply jtext_good|done]. Qed.

Definition token_of (l : list (bytes * json)) : mcp_oauth_token_response_t :=
  TokenResponse (jtext_of (cs "access_token") l) (jtext_of (cs "token_type") l) (jexpires l)
    (jtext_of (cs "refresh_token") l) (jtext_of (cs "scope") l).

Definition has_token (l : list (bytes * json)) : Prop :=
  is_Some (jtext_of (cs "access_token") l) /\ is_Some (jtext_of (cs "token_type") l).

Definition token_blocks (r : mcp_oauth_token_response_t) : Z :=
  tblocks (access_token r) + tblocks (token_type r) + tblocks (refresh_token r) + tblocks (token_scope r).

Lemma token_cleanup_spec r h r' h' :
  mcp_oauth_token_response_cleanup r h = (r', h') -> r' = no_token /\ hstep h h' (- token_blocks r).
Proof.
  intros H. unfold mcp_oauth_token_response_cleanup in H.
  apply bind_inv in H as (u1 & h1 & E1 & H). apply bind_inv in H as (u2 & h2 & E2 & H).
  apply bind_inv in H as (u3 & h3 & E3 & H). apply bind_inv in H as (u4 & h4 & E4 & H).
  apply ret_inv in H as [-> ->]. apply free_string_hstep in E1, E2, E3, E4. split; [done|]. unfold token_blocks. hsolve.
Qed.

Definition exchange_of (l : list (bytes * json)) : mcp_oauth_token_exchange_response_t :=
  ExchangeResponse (jtext_of (cs "access_token") l) (jtext_of (cs "issued_token_type") l) (jtext_of (cs "token_type") l)
    (jexpires l) (jtext_of (cs "refresh_token") l) (jtext_of (cs "scope") l).

Definition has_exchange (l : list (bytes * json)) : Prop :=
  is_Some (jtext_of (cs "access_token") l) /\ is_Some (jtext_of (cs "issued_token_type") l) /\
  is_Some (jtext_of (cs "token_type") l).

Definition exchange_blocks (r : mcp_oauth_token_exchange_response_t) : Z :=
  tblocks (x_access_token r) + tblocks (x_issued_token_type r) + tblocks (x_token_type r) + tblocks (x_refresh_token r)
  + tblocks (x_scope r).

Lemma exchange_nomem_spec root r h st r' h' :
  exchange_nomem (Some root) r h = ((st, r'), h') ->
  st = MCP_ERR_NOMEM /\ r' = no_exchange /\ hstep h h' (- blocks root - exchange_blocks r).
Proof.
  intros H. unfold exchange_nomem in H. apply bind_inv in H as (u0 & h0 & E0 & H). apply builtin_destroy_hstep in E0.
  apply bind_inv in H as (r0 & h6 & E6 & H). unfold mcp_oauth_token_exchange_response_cleanup in E6.
  apply bind_inv in E6 as (u1 & h1 & E1 & E6). apply bind_inv in E6 as (u2 & h2 & E2 & E6).
  apply bind_inv in E6 as (u3 & h3 & E3 & E6). apply bind_inv in E6 as (u4 & h4 & E4 & E6).
  apply bind_inv in E6 as (u5 & h5 & E5 & E6). apply ret_inv in E6 as [-> ->].
  apply ret_inv in H as [[= -> ->] ->]. apply free_string_hstep in E1, E2, E3, E4, E5.
  do 2 (split; [done|]). unfold exchange_blocks. cbn [oblocks] in *. hsolve.
Qed.

(** The start both readers share: the root and its members. *)
Lemma token_parse_spec text h st resp h' :
  mcp_oauth_token_response_parse (Some text) h = ((st, resp), h') ->
  hstep h h' (token_blocks resp) /\
  (st = MCP_OK -> exists l, object_text text l /\ has_token l /\
     access_token resp = jtext_of (cs "access_token") l /\ token_type resp = jtext_of (cs "token_type") l /\
     expires_in resp = jexpires l) /\
  (st <> MCP_OK -> resp = no_token) /\
  (ample h -> (st = MCP_OK /\ exists l, object_text text l /\ resp = token_of l) \/
              (st = MCP_ERR_PROTOCOL /\ forall l, object_text text l -> ~ has_token l)).
Proof.
  intros H. unfold mcp_oauth_token_response_parse in H. apply bind_inv in H as (r0 & h0 & E & H).
  apply parse_object_root_spec in E. destruct r0 as [root|].
  2: { apply ret_inv in H as [[= -> ->] ->]. destruct E as [Hs Hn]. split; [exact Hs|]. do 2 (split; [done|]).
       intros A. right. split; [done|]. intros l Hl. destruct Hn. split; [done|by exists l]. }
  destruct E as (Hw & Hs & l & Hl & Ht).
  rewrite (get_text root l (cs "access_token") Hw Hl ltac:(lit)), (get_text root l (cs "token_type") Hw Hl ltac:(lit)),
    (read_expires_meaning root l Hw Hl) in H.
  assert (hstep h h0 (blocks root) -> forall s, (builtin_destroy (Some root) ;; ret (MCP_ERR_PROTOCOL, no_token)) h0 = (s, h') ->
    s = (MCP_ERR_PROTOCOL, no_token) /\ hstep h h' 0) as Hbad.
  { intros _ s H2. apply bind_inv in H2 as (u & h1 & E1 & H2). apply builtin_destroy_hstep in E1.
    apply ret_inv in H2 as [-> ->]. split; [done|]. cbn [oblocks] in E1. hsolve. }
  destruct (jtext_of (cs "access_token") l) as [s_acc|] eqn:Ja.
  2: { apply Hbad in H as [[= -> ->] Hs']; [|done]. split; [exact Hs'|]. do 2 (split; [done|]). intros A. right. split; [done|].
       intros l' Hl' [Ha _]. rewrite <- (object_text_det _ _ _ Ht Hl'), Ja in Ha. by destruct Ha. }
  destruct (jtext_of (cs "token_type") l) as [s_typ|] eqn:Jt.
  2: { apply Hbad in H as [[= -> ->] Hs']; [|done]. split; [exact Hs'|]. do 2 (split; [done|]). intros A. right. split; [done|].
       intros l' Hl' [_ Ha]. rewrite <- (object_text_det _ _ _ Ht Hl'), Jt in Ha. by destruct Ha. }
  clear Hbad.
  apply bind_inv in H as (acc & h1 & E1 & H). apply strdup_good in E1 as [S1 Ha]; [|rewrite <- Ja; by eapply member_text_good].
  apply bind_inv in H as (typ & h2 & E2 & H). apply strdup_good in E2 as [S2 Hy]; [|rewrite <- Jt; by eapply member_text_good].
  apply bind_inv in H as (ref & h3 & E3 & H). apply (dup_member_spec root l) in E3 as (S3 & _ & J3); [|done|done|lit].
  apply bind_inv in H as (scp & h4 & E4 & H). apply (dup_member_spec root l) in E4 as (S4 & _ & J4); [|done|done|lit].
  apply bind_inv in H as (u & h5 & E5 & H). apply builtin_destroy_hstep in E5. cbn [oblocks] in E5.
  assert (acc = None \/ typ = None -> ~ ample h) as Hna.
  { intros Hor A. ample_fwd. destruct Hor as [-> | -> ]; [destruct Ha as [?|(_ & _ & ?)]|destruct Hy as [?|(_ & _ & ?)]]; done. }
  destruct acc as [acc|], typ as [typ|].
  1: { apply ret_inv in H as [[= -> ->] ->]. destruct Ha as [[= ->]|(_ & ? & _)]; [|done]. destruct Hy as [[= ->]|(_ & ? & _)]; [|done].
       split; [unfold token_blocks; cbn [access_token token_type refresh_token token_scope] in *; hsolve|].
       split; [|split; [done|]].
       - intros _. exists l. unfold has_token. rewrite Ja, Jt. split; [done|]. split; [split; by eexists|]. done.
       - intros A. ample_fwd. left. split; [done|]. exists l. split; [done|]. unfold token_of. by rewrite Ja, Jt, J3, J4. }
  all: apply bind_inv in H as (r & h6 & E6 & H); apply token_cleanup_spec in E6 as [-> S6]; apply ret_inv in H as [[= -> ->] ->].
  all: split; [unfold token_blocks in *; cbn [access_token token_type refresh_token token_scope tblocks no_token] in *; hsolve|].
  all: do 2 (split; [done|]); intros A; exfalso; apply Hna in A; auto.
Qed.

Lemma copied_iff s r : (r = s \/ (is_Some s /\ r = None)) -> dup_done s r = true -> r = s.
Proof. intros [->|[[x ->] ->]]; done. Qed.

(** What every run of the second reader satisfies. *)
Definition exchange_post (text : bytes) (h : heap) (st : mcp_status_t) (resp : mcp_oauth_token_exchange_response_t) (h' : heap) : Prop :=
  hstep h h' (exchange_blocks resp) /\
  (st = MCP_OK -> exists l, object_text text l /\ has_exchange l /\ resp = exchange_of l) /\
  (st <> MCP_OK -> resp = no_exchange) /\
  (ample h -> st = MCP_OK \/ (st = MCP_ERR_PROTOCOL /\ forall l, object_text text l -> ~ has_exchange l)).

Lemma exchange_refused text l root h h0 st resp h' :
  object_text text l -> ~ has_exchange l -> hstep h h0 (blocks root) ->
  (builtin_destroy (Some root) ;; ret (MCP_ERR_PROTOCOL, no_exchange)) h0 = ((st, resp), h') -> exchange_post text h st resp h'.
Proof.
  intros Ht Hno Hs H. apply bind_inv in H as (u & h1 & E1 & H). apply builtin_destroy_hstep in E1. apply ret_inv in H as [[= -> ->] ->].
  cbn [oblocks] in E1. split; [unfold exchange_blocks, no_exchange; hsolve|]. do 2 (split; [done|]). intros _. right. split; [done|].
  intros l' Hl'. by rewrite <- (object_text_det _ _ _ Ht Hl').
Qed.

Lemma exchange_unwound text root r h k st resp h' :
  ~ ample h -> hstep h k (blocks root + exchange_blocks r) -> exchange_nomem (Some root) r k = ((st, resp), h') -> exchange_post text h st resp h'.
Proof. intros Hna Sk H. apply exchange_nomem_spec in H as (-> & -> & S'). split; [unfold exchange_blocks in *; hsolve|]. done. Qed.

Ltac exchange_cost :=
  unfold exchange_blocks; cbn [x_access_token x_issued_token_type x_token_type x_refresh_token x_scope oblocks] in *; cbn [tblocks] in *; hsolve.

Lemma exchange_parse_spec text h st resp h' :
  mcp_oauth_token_exchange_response_parse (Some text) h = ((st, resp), h') ->
  exchange_post text h st resp h'.
Proof.
  intros H. unfold mcp_oauth_token_exchange_response_parse in H. apply bind_inv in H as (r0 & h0 & E & H).
  apply parse_object_root_spec in E. destruct r0 as [root|].
  2: { apply ret_inv in H as [[= -> ->] ->]. destruct E as [Hs Hn]. split; [exact Hs|]. do 2 (split; [done|]).
       intros A. right. split; [done|]. intros l Hl. destruct Hn. split; [done|by exists l]. }
  destruct E as (Hw & Hs & l & Hl & Ht). cbv zeta in H.
  rewrite (get_text root l (cs "access_token") Hw Hl ltac:(lit)), (get_text root l (cs "issued_token_type") Hw Hl ltac:(lit)),
    (get_text root l (cs "token_type") Hw Hl ltac:(lit)), (get_text root l (cs "refresh_token") Hw Hl ltac:(lit)),
    (get_text root l (cs "scope") Hw Hl ltac:(lit)), (read_expires_meaning root l Hw Hl) in H.
  destruct (jtext_of (cs "access_token") l) as [s_acc|] eqn:Ja; [|eapply exchange_refused; [done| |done|exact H]; unfold has_exchange; rewrite Ja; by intros [[? ?] _]].
  destruct (jtext_of (cs "issued_token_type") l) as [s_iss|] eqn:Ji; [|eapply exchange_refused; [done| |done|exact H]; unfold has_exchange; rewrite Ji; by intros (_ & [? ?] & _)].
  destruct (jtext_of (cs "token_type") l) as [s_typ|] eqn:Jt; [|eapply exchange_refused; [done| |done|exact H]; unfold has_exchange; rewrite Jt; by intros (_ & _ & [? ?])].
  apply bind_inv in H as (acc & h1 & E1 & H). apply strdup_good in E1 as [S1 Ha]; [|rewrite <- Ja; by eapply member_text_good].
  apply bind_inv in H as (iss & h2 & E2 & H). apply strdup_good in E2 as [S2 Hi]; [|rewrite <- Ji; by eapply member_text_good].
  apply bind_inv in H as (typ & h3 & E3 & H). apply strdup_good in E3 as [S3 Hy]; [|rewrite <- Jt; by eapply member_text_good].
  assert (acc = None \/ iss = None \/ typ = None -> ~ ample h) as Hna.
  { intros Hor A. ample_fwd. destruct Hor as [-> |[-> | -> ]];
      [destruct Ha as [?|(_ & _ & ?)]|destruct Hi as [?|(_ & _ & ?)]|destruct Hy as [?|(_ & _ & ?)]]; done. }
  destruct (decide (acc = None \/ iss = None \/ typ = None)) as [Hor|Hall].
  { assert (exchange_nomem (Some root) (ExchangeResponse acc iss typ (Some 0) None None) h3 = ((st, resp), h')) as H'.
    { destruct acc, iss, typ; try exact H. destruct Hor as [?|[?|?]]; done. }
    eapply exchange_unwound; [by apply Hna| |exact H']. exchange_cost. }
  assert (acc = Some s_acc /\ iss = Some s_iss /\ typ = Some s_typ) as (-> & -> & ->).
  { destruct Ha as [? |(_ & ? & _)]; [|exfalso; auto]. destruct Hi as [?|(_ & ? & _)]; [|exfalso; auto].
    destruct Hy as [?|(_ & ? & _)]; [done|exfalso; auto]. }
  clear Ha Hi Hy Hna Hall.
  apply bind_inv in H as (ref & h4 & E4 & H). apply strdup_good in E4 as [S4 Hr]; [|eapply member_text_good; [done|done|lit]].
  destruct (dup_done (jtext_of (cs "refresh_token") l) ref) eqn:C1; cbn [negb] in H.
  2: { eapply exchange_unwound; [| |exact H].
       - destruct Hr as [-> |(_ & _ & Hna)]; [by destruct (jtext_of (cs "refresh_token") l)|]. intros A. ample_fwd. done.
       - exchange_cost. }
  apply copied_iff in C1; [|destruct Hr as [?|(? & ? & _)]; auto]. subst ref. clear Hr.
  apply bind_inv in H as (scp & h5 & E5 & H). apply strdup_good in E5 as [S5 Hc]; [|eapply member_text_good; [done|done|lit]].
  destruct (dup_done (jtext_of (cs "scope") l) scp) eqn:C2; cbn [negb] in H.
  2: { eapply exchange_unwound; [| |exact H].
       - destruct Hc as [-> |(_ & _ & Hna)]; [by destruct (jtext_of (cs "scope") l)|]. intros A. ample_fwd. done.
       - exchange_cost. }
  apply copied_iff in C2; [|destruct Hc as [?|(? & ? & _)]; auto]. subst scp. clear Hc.
  apply bind_inv in H as (u & h6 & E6 & H). apply builtin_destroy_hstep in E6. apply ret_inv in H as [Hr ->].
  apply pair_equal_spec in Hr as [-> ->].
  split; [exchange_cost|].
  split; [|split; [done|by left]]. intros _. exists l. split; [done|]. unfold has_exchange, exchange_of. rewrite Ja, Ji, Jt.
  split; [|done]. split; [by eexists|]. split; by eexists.
Qed.

(** ** Server metadata *)

Definition jarray_of (key : bytes) (l : list (bytes * json)) : list json :=
  match jlookup key l with Some (JArray js) => js | _ => [] end.

Lemma lists_s256_meaning root l key :
  wf root -> erase root = JObject l -> good_string key ->
  lists_s256 (builtin_object_get (Some root) (Some key)) = true <-> JString (cs "S256") ∈ jarray_of key l.
Proof.
  intros Hw Hl Hk. unfold jarray_of. rewrite <- (member_meaning root l key Hw Hl Hk). unfold lists_s256.
  assert (forall w, builtin_object_get (Some root) (Some key) = Some w -> wf w) as Hww.
  { intros w Hg. destruct root as [| | | | |c m]; try discriminate Hl. pose proof (object_get_cases c m key Hw Hk) as Hc.
    rewrite Hg in Hc. by destruct Hc. }
  destruct (builtin_object_get (Some root) (Some key)) as [[| | | |c vs|]|]; cbn [builtin_type_of fmap option_fmap option_map erase];
    try (split; [done|]; intros H; by apply elem_of_nil in H).
  specialize (Hww _ eq_refl). cbn [builtin_array_size builtin_array_get]. rewrite existsb_exists, list_elem_of_In, in_map_iff.
  apply wf_array in Hww as [_ Hall]. split.
  - intros (i & _ & Hi). destruct (vs !! i) as [v|] eqn:Ei; [|done]. destruct v as [| | |s| |]; try done. cbn [builtin_get_string] in Hi.
    exists (VString s). split; [|apply list_elem_of_In; by eapply list_elem_of_lookup_2].
    eapply Forall_lookup_1 in Hall; [|done]. destruct Hall as [Hn _]. apply bool_decide_eq_true in Hi.
    rewrite (cstr_no_nul _ Hn) in Hi. cbn [erase]. by rewrite Hi.
  - intros (v & He & Hv). apply list_elem_of_In, list_elem_of_lookup_1 in Hv as [i Hi]. exists i.
    split; [apply in_seq; apply lookup_lt_Some in Hi; lia|]. rewrite Hi. destruct v; try done. cbn in He. simplify_eq. reflexivity.
Qed.

(** A field of the metadata: the first 255 bytes of the member. *)
Definition mfield (key : bytes) (l : list (bytes * json)) : bytes := take 255 (default [] (jtext_of key l)).

Lemma copy_field_meaning root l key :
  wf root -> erase root = JObject l -> good_string key -> copy_string_field (Some root) key 256 = mfield key l.
Proof. intros Hw Hl Hk. unfold copy_string_field, mfield. rewrite (get_text root l key Hw Hl Hk). by destruct (jtext_of key l). Qed.

(** The reader succeeds exactly when the three required members are
    non-empty strings, and then says of the proof key method what the
    document says. *)
Lemma metadata_parse_meaning root l :
  wf root -> erase root = JObject l ->
  exists m, (mcp_oauth_metadata_parse (Some root)).2 = Some m /\
    issuer m = mfield (cs "issuer") l /\ authorization_endpoint m = mfield (cs "authorization_endpoint") l /\
    token_endpoint m = mfield (cs "token_endpoint") l /\
    ((mcp_oauth_metadata_parse (Some root)).1 = MCP_OK <->
       issuer m <> [] /\ authorization_endpoint m <> [] /\ token_endpoint m <> []) /\
    ((mcp_oauth_metadata_parse (Some root)).1 = MCP_OK ->
       (supports_pkce_s256 m = true <-> JString (cs "S256") ∈ jarray_of (cs "code_challenge_methods_supported") l)).
Proof.
  intros Hw Hl. unfold mcp_oauth_metadata_parse. destruct root as [| | | | |c ms]; try discriminate Hl. cbn [builtin_type_of]. cbv zeta.
  set (root := VObject c ms) in *.
  rewrite (copy_field_meaning root l (cs "issuer") Hw Hl ltac:(lit)),
    (copy_field_meaning root l (cs "authorization_endpoint") Hw Hl ltac:(lit)),
    (copy_field_meaning root l (cs "token_endpoint") Hw Hl ltac:(lit)).
  destruct (bool_decide_reflect (mfield (cs "issuer") l = [])), (bool_decide_reflect (mfield (cs "authorization_endpoint") l = [])),
    (bool_decide_reflect (mfield (cs "token_endpoint") l = [])); cbn [orb fst snd]; eexists; (split; [reflexivity|]).
  8: { cbn [issuer authorization_endpoint token_endpoint supports_pkce_s256]. do 3 (split; [done|]). split; [done|].
       intros _. apply lists_s256_meaning; [done|done|lit]. }
  all: cbn [issuer authorization_endpoint token_endpoint]; do 3 (split; [done|]); split; [|done]; split; [done|]; by intros (? & ? & ?).
Qed.

(** ** Claims *)

(** C29: Token responses: whatever the allocator refuses, a reader leaves
    exactly the strings of the response it returns, and none on an error;
    [MCP_OK] means that the text is an object with an access token and a
    token type (and an issued token type), and these are what is returned.
    For the token exchange the refresh token and the scope are then also
    what the object says.  With memory a reader fails only on a text that is
    no such object, with [MCP_ERR_PROTOCOL]. *)
Theorem token_responses_correct text h :
  (let '((st, resp), h') := mcp_oauth_token_response_parse (Some text) h in
   hstep h h' (token_blocks resp) /\
   (st = MCP_OK -> exists l, object_text text l /\ has_token l /\
      access_token resp = jtext_of (cs "access_token") l /\ token_type resp = jtext_of (cs "token_type") l /\
      expires_in resp = jexpires l) /\
   (st <> MCP_OK -> resp = no_token) /\
   (ample h -> (st = MCP_OK /\ exists l, object_text text l /\ resp = token_of l) \/
               (st = MCP_ERR_PROTOCOL /\ forall l, object_text text l -> ~ has_token l))) /\
  (let '((st, resp), h') := mcp_oauth_token_exchange_response_parse (Some text) h in
   hstep h h' (exchange_blocks resp) /\
   (st = MCP_OK -> exists l, object_text text l /\ has_exchange l /\ resp = exchange_of l) /\
   (st <> MCP_OK -> resp = no_exchange) /\
   (ample h -> st = MCP_OK \/ (st = MCP_ERR_PROTOCOL /\ forall l, object_text text l -> ~ has_exchange l))).
Proof.
  split.
  - destruct (mcp_oauth_token_response_parse (Some text) h) as [[st resp] h'] eqn:E. by apply token_parse_spec.
  - destruct (mcp_oauth_token_exchange_response_parse (Some text) h) as [[st resp] h'] eqn:E. by apply exchange_parse_spec.
Qed.

(** ** Witnesses and findings *)

Definition sample_response : bytes := js "{'access_token':'t','token_type':'Bearer','expires_in':3600,'refresh_token':'r'}".

Lemma token_responses_correct_witness :
  exists st resp h', mcp_oauth_token_response_parse (Some sample_response) fresh_heap = ((st, resp), h') /\ st = MCP_OK /\
  exists l, object_text sample_response l /\ access_token resp = jtext_of (cs "access_token") l.
Proof.
  assert ((mcp_oauth_token_response_parse (Some sample_response) fresh_heap).1.1 = MCP_OK) as Hst by (vm_compute; reflexivity).
  destruct (mcp_oauth_token_response_parse (Some sample_response) fresh_heap) as [[st resp] h'] eqn:E. exists st, resp, h'.
  cbn [fst] in Hst.
  destruct (token_responses_correct sample_response fresh_heap) as [H _]. rewrite E in H. destruct H as (_ & H & _).
  split; [reflexivity|]. split; [exact Hst|]. destruct (H Hst) as (l & Hl & _ & Ha & _). exists l. split; [exact Hl|exact Ha].
Defined.

(** A refresh token that could not be copied is dropped without a word. *)
Lemma refresh_token_lost :
  exists n resp h', mcp_oauth_token_response_parse (Some sample_response) (Heap (Nat.eqb n) 0 0 false) = ((MCP_OK, resp), h') /\
  refresh_token resp = None.
Proof. exists 24%nat. eexists _, _. split; vm_compute; reflexivity. Qed.

(** Issuers that agree on 255 bytes are recorded as the same one, and the
    issuer that a response names in full is then refused. *)
Definition long_issuer (c : byte) : value :=
  VObject 4 [(cs "issuer", VString (replicate 255 "a"%byte ++ [c])); (cs "authorization_endpoint", VString (cs "https://a/x"));
             (cs "token_endpoint", VString (cs "https://a/t"))].

Lemma issuer_cut :
  mcp_oauth_metadata_parse (Some (long_issuer "b")) = mcp_oauth_metadata_parse (Some (long_issuer "c")) /\
  exists m, mcp_oauth_metadata_parse (Some (long_issuer "b")) = (MCP_OK, Some m) /\
  mcp_oauth_validate_issuer (Some (issuer m)) (Some (replicate 255 "a"%byte ++ ["b"%byte])) = false.
Proof. split; [vm_compute; reflexivity|]. eexists. split; vm_compute; reflexivity. Qed.

(** A lifetime of [2^32] seconds is converted out of range. *)
Lemma expires_undefined : jexpires [(cs "expires_in", JNumber (double_of_Z (2 ^ 32)))] = None.
Proof. vm_compute. reflexivity. Qed.
