(* ===== verification/ClientMeta.v ===== *)
(** * Client ID metadata documents (src/core/auth.c)

    The document a client publishes about itself: reading it into a
    structure of strings and string arrays, checking it, printing it and
    releasing it. *)
From S2P Require Import Prelude Heap Utf8 Double JsonValue JsonParse JsonGrammar JsonSerialize JsonApi Schema Message Builders RouteLaws Loose Forms OAuth.

Local Open Scope Z_scope.

(** ** Data

    A [char **] with its count is NULL or the list of its entries, each NULL
    or a string. *)

Abbreviation strings := (option (list (option bytes))).

Record mcp_oauth_client_metadata_t := ClientMetadata {
  client_id : option bytes;
  client_name : option bytes;
  client_uri : option bytes;
  logo_uri : option bytes;
  redirect_uris : strings;
  grant_types : strings;
  response_types : strings;
  token_endpoint_auth_method : option bytes;
  client_jwks_uri : option bytes;
}.

Definition no_client : mcp_oauth_client_metadata_t := ClientMetadata None None None None None None None None None.

(** ** Release *)

Definition free_array (a : strings) : M unit :=
  match a with None => ret tt | Some l => free_all l ;; xfree false end.

Definition mcp_oauth_client_metadata_cleanup (meta : mcp_oauth_client_metadata_t) : M mcp_oauth_client_metadata_t :=
  mcp_oauth_free_string (client_id meta) ;;
  mcp_oauth_free_string (client_name meta) ;;
  mcp_oauth_free_string (client_uri meta) ;;
  mcp_oauth_free_string (logo_uri meta) ;;
  mcp_oauth_free_string (token_endpoint_auth_method meta) ;;
  mcp_oauth_free_string (client_jwks_uri meta) ;;
  free_array (redirect_uris meta) ;;
  free_array (grant_types meta) ;;
  free_array (response_types meta) ;;
  ret no_client.

(** ** Reading *)

(** The loop over [redirect_uris]: whether every item was a string, and the
    entries written so far. *)
Fixpoint copy_redirects (arr : option value) (js : list nat) (acc : list (option bytes)) : M (bool * list (option bytes)) :=
  match js with
  | [] => ret (true, acc)
  | i :: js =>
      match builtin_get_string (builtin_array_get arr i) with
      | None => ret (false, acc)
      | Some s => u <- strdup (Some s) ;; copy_redirects arr js (acc ++ [u])
      end
  end.

(** The loop over the other arrays: an item that is no string leaves NULL. *)
Fixpoint copy_items (arr : option value) (js : list nat) : M (list (option bytes)) :=
  match js with
  | [] => ret []
  | i :: js =>
      u <- strdup (builtin_get_string (builtin_array_get arr i)) ;;
      us <- copy_items arr js ;;
      ret (u :: us)
  end.

(** An optional array member; NULL when it is absent, empty, no array, or
    when its buffer could not be allocated. *)
Definition copy_array (arr : option value) : M strings :=
  match builtin_type_of arr with
  | MCP_JSON_ARRAY =>
      let n := builtin_array_size arr in
      if Nat.eqb n 0 then ret None else
      ok <- xmalloc ;;
      if negb ok then ret None else
      l <- copy_items arr (seq 0 n) ;;
      ret (Some l)
  | _ => ret None
  end.

(** [mcp_json_destroy(root); cleanup(meta_out); return st]. *)
Definition client_fail (root : option value) (meta : mcp_oauth_client_metadata_t) (st : mcp_status_t)
    : M (mcp_status_t * mcp_oauth_client_metadata_t) :=
  builtin_destroy root ;;
  meta <- mcp_oauth_client_metadata_cleanup meta ;;
  ret (st, meta).

(** The second half of the reader: the redirect URIs and the two optional
    arrays, with the strings of [meta] copied. *)
Definition client_lists (root : option value) (meta : strings -> strings -> strings -> mcp_oauth_client_metadata_t)
    : M (mcp_status_t * mcp_oauth_client_metadata_t) :=
  let v_redirs := builtin_object_get root (Some (cs "redirect_uris")) in
  let r_count := builtin_array_size v_redirs in
  if Nat.eqb r_count 0 then client_fail root (meta None None None) MCP_ERR_PROTOCOL else
  ok <- xmalloc ;;
  if negb ok then client_fail root (meta None None None) MCP_ERR_NOMEM else
  c <- copy_redirects v_redirs (seq 0 r_count) [] ;;
  match c with
  | (false, us) => client_fail root (meta (Some us) None None) MCP_ERR_PROTOCOL
  | (true, us) =>
      g <- copy_array (builtin_object_get root (Some (cs "grant_types"))) ;;
      t <- copy_array (builtin_object_get root (Some (cs "response_types"))) ;;
      builtin_destroy root ;;
      ret (MCP_OK, meta (Some us) g t)
  end.

Definition mcp_oauth_client_metadata_parse (json_str : option bytes) : M (mcp_status_t * mcp_oauth_client_metadata_t) :=
  match json_str with
  | None => ret (MCP_ERR_INVALID_ARGUMENT, no_client)
  | Some _ =>
      root <- parse_object_root json_str ;;
      match root with
      | None => ret (MCP_ERR_PROTOCOL, no_client)
      | Some _ =>
          let v_redirs := builtin_object_get root (Some (cs "redirect_uris")) in
          match builtin_get_string (builtin_object_get root (Some (cs "client_id"))),
                builtin_get_string (builtin_object_get root (Some (cs "client_name"))),
                builtin_type_of v_redirs with
          | Some s_cid, Some s_name, MCP_JSON_ARRAY =>
              cid <- strdup (Some s_cid) ;;
              name <- strdup (Some s_name) ;;
              uri <- dup_member root (cs "client_uri") ;;
              logo <- dup_member root (cs "logo_uri") ;;
              meth <- dup_member root (cs "token_endpoint_auth_method") ;;
              jwks <- dup_member root (cs "jwks_uri") ;;
              client_lists root (fun r g t => ClientMetadata cid name uri logo r g t meth jwks)
          | _, _, _ => builtin_destroy root ;; ret (MCP_ERR_PROTOCOL, no_client)
          end
      end
  end.

(** ** Checking *)

(** [strchr(s, '/')]: the text from the first slash on. *)
Fixpoint from_slash (s : bytes) : option bytes :=
  match s with [] => None | c :: t => if Byte.eqb c "/" then Some s else from_slash t end.

(** [strncmp(cid, "https://", 8) == 0] and a host and a path follow. *)
Definition https_url (cid : bytes) : bool :=
  if negb (bool_decide (take 8 cid = cs "https://")) then false else
  let host := drop 8 cid in
  match from_slash host with
  | None => false
  | Some slash => negb (Nat.eqb (length slash) (length host)) && negb (Nat.leb (length slash) 1)
  end.

Definition mcp_oauth_client_metadata_validate (meta : option mcp_oauth_client_metadata_t) (expected_url : option bytes)
    : mcp_status_t :=
  match meta with
  | None => MCP_ERR_INVALID_ARGUMENT
  | Some m =>
      match client_id m, client_name m with
      | Some cid, Some name =>
          if bool_decide (cstr name = []) then MCP_ERR_PROTOCOL
          else if negb (https_url (cstr cid)) then MCP_ERR_PROTOCOL
          else if negb (match expected_url with None => true | Some url => streq cid url end) then MCP_ERR_PROTOCOL
          else match redirect_uris m with
               | None | Some [] => MCP_ERR_PROTOCOL
               | Some us => if existsb (fun u => bool_decide (cstr (default [] u) = [])) us then MCP_ERR_PROTOCOL else MCP_OK
               end
      | _, _ => MCP_ERR_INVALID_ARGUMENT
      end
  end.

(** ** Printing *)

(** The loop over an array; a failed append loses its string. *)
Fixpoint append_texts (arr : option value) (l : list (option bytes)) : M (option value) :=
  match l with
  | [] => ret arr
  | None :: l => append_texts arr l
  | Some s :: l =>
      v <- string_new s ;;
      r <- builtin_array_append arr v ;;
      append_texts r.2 l
  end.

Definition string_array (l : list (option bytes)) : M (option value) :=
  arr <- builtin_new_array ;;
  match arr with None => ret None | Some _ => append_texts arr l end.

Definition put_array (root : option value) (key : bytes) (a : strings) : M (option value) :=
  match a with
  | None | Some [] => ret root
  | Some l => put_made root key (string_array l)
  end.

Definition client_object (meta : mcp_oauth_client_metadata_t) (root : option value) : M (option value) :=
  root <- put_text root (cs "client_id") (client_id meta) ;;
  root <- put_text root (cs "client_name") (client_name meta) ;;
  root <- put_text root (cs "client_uri") (client_uri meta) ;;
  root <- put_text root (cs "logo_uri") (logo_uri meta) ;;
  root <- put_array root (cs "redirect_uris") (redirect_uris meta) ;;
  root <- put_array root (cs "grant_types") (grant_types meta) ;;
  root <- put_array root (cs "response_types") (response_types meta) ;;
  root <- put_text root (cs "token_endpoint_auth_method") (token_endpoint_auth_method meta) ;;
  put_text root (cs "jwks_uri") (client_jwks_uri meta).

Definition mcp_oauth_client_metadata_serialize (meta : option mcp_oauth_client_metadata_t) : M (option bytes) :=
  match meta with
  | None => ret None
  | Some meta =>
      root <- builtin_new_object ;;
      match root with
      | None => ret None
      | Some _ => root <- client_object meta root ;; print_root root
      end
  end.

(** ** Blocks *)

Definition ablocks_of (a : strings) : Z := match a with None => 0 | Some l => 1 + eblocks l end.

Definition client_blocks (m : mcp_oauth_client_metadata_t) : Z :=
  tblocks (client_id m) + tblocks (client_name m) + tblocks (client_uri m) + tblocks (logo_uri m)
  + tblocks (token_endpoint_auth_method m) + tblocks (client_jwks_uri m)
  + ablocks_of (redirect_uris m) + ablocks_of (grant_types m) + ablocks_of (response_types m).

Lemma strings_free_hstep a h u h' : free_array a h = (u, h') -> hstep h h' (- ablocks_of a).
Proof.
  intros H. destruct a as [l|]; cbn [free_array] in H.
  - apply bind_inv in H as (u1 & h1 & E & H). apply free_all_hstep in E. apply xfree_hstep in H. cbn [ablocks_of]. hsolve.
  - apply ret_inv in H as [_ ->]. apply hstep_refl.
Qed.

Lemma client_cleanup_spec m h r h' :
  mcp_oauth_client_metadata_cleanup m h = (r, h') -> r = no_client /\ hstep h h' (- client_blocks m).
Proof.
  intros H. unfold mcp_oauth_client_metadata_cleanup in H.
  apply bind_inv in H as (u1 & h1 & E1 & H). apply bind_inv in H as (u2 & h2 & E2 & H).
  apply bind_inv in H as (u3 & h3 & E3 & H). apply bind_inv in H as (u4 & h4 & E4 & H).
  apply bind_inv in H as (u5 & h5 & E5 & H). apply bind_inv in H as (u6 & h6 & E6 & H).
  apply bind_inv in H as (u7 & h7 & E7 & H). apply bind_inv in H as (u8 & h8 & E8 & H).
  apply bind_inv in H as (u9 & h9 & E9 & H). apply ret_inv in H as [-> ->].
  apply free_string_hstep in E1, E2, E3, E4, E5, E6. apply strings_free_hstep in E7, E8, E9.
  split; [done|]. unfold client_blocks. hsolve.
Qed.

Lemma client_fail_spec root m st0 h st m' h' :
  client_fail (Some root) m st0 h = ((st, m'), h') -> st = st0 /\ m' = no_client /\ hstep h h' (- blocks root - client_blocks m).
Proof.
  intros H. unfold client_fail in H. apply bind_inv in H as (u & h1 & E & H). apply builtin_destroy_hstep in E.
  apply bind_inv in H as (r & h2 & E2 & H). apply client_cleanup_spec in E2 as [-> S2]. apply ret_inv in H as [[= -> ->] ->].
  do 2 (split; [done|]). cbn [oblocks] in E. hsolve.
Qed.

(** ** Arrays of strings *)

Definition string_of (j : json) : option bytes := match j with JString s => Some s | _ => None end.

Lemma get_string_erase v : builtin_get_string (Some v) = string_of (erase v).
Proof. by destruct v. Qed.

Lemma jstr_good v : wf v -> from_option good_string True (string_of (erase v)).
Proof. by destruct v. Qed.

Lemma eblocks_app l l' : eblocks (l ++ l') = eblocks l + eblocks l'.
Proof. unfold eblocks. induction l as [|e l IH]; cbn [app foldr]; [done|]. rewrite IH. lia. Qed.

Lemma array_get_middle c (pre rest : list value) v :
  builtin_array_get (Some (VArray c (pre ++ v :: rest))) (length pre) = Some v.
Proof. cbn [builtin_array_get]. by rewrite lookup_app_r, Nat.sub_diag by lia. Qed.

Lemma copy_uris_rest c rest : forall pre acc h b us h',
  Forall wf rest -> copy_redirects (Some (VArray c (pre ++ rest))) (seq (length pre) (length rest)) acc h = ((b, us), h') ->
  hstep h h' (eblocks us - eblocks acc) /\
  (b = false -> Exists (fun v => string_of (erase v) = None) rest) /\
  (b = true -> Forall (fun v => is_Some (string_of (erase v))) rest) /\
  (ample h -> b = true -> us = acc ++ map (fun v => string_of (erase v)) rest).
Proof.
  induction rest as [|v rest IH]; intros pre acc h b us h' Hw H; cbn [length seq copy_redirects] in H.
  { apply ret_inv in H as [[= -> ->] ->]. split; [eapply hstep_eq; [apply hstep_refl|lia]|]. split; [done|]. split; [constructor|].
    intros _ _. by rewrite app_nil_r. }
  apply Forall_cons in Hw as [Hv Hw]. rewrite array_get_middle, get_string_erase in H.
  destruct (string_of (erase v)) as [s|] eqn:Ev.
  2: { apply ret_inv in H as [[= -> ->] ->]. split; [eapply hstep_eq; [apply hstep_refl|lia]|]. split; [intros _; by constructor|]. done. }
  apply bind_inv in H as (u & h1 & E & H). apply strdup_good in E as [S1 Hu]; [|rewrite <- Ev; by apply jstr_good].
  replace (pre ++ v :: rest) with ((pre ++ [v]) ++ rest) in H by (by rewrite <- app_assoc).
  replace (S (length pre)) with (length (pre ++ [v])) in H by (rewrite length_app; simpl; lia).
  apply IH in H as (S2 & Hf & Ht & Ha); [|done]. rewrite eblocks_app in S2. cbn [eblocks foldr] in S2.
  split; [hsolve|]. split; [intros Hb; apply Exists_cons_tl; auto|]. split; [intros Hb; constructor; [by eexists|auto]|].
  intros A Hb. destruct Hu as [-> |(_ & _ & Hna)]; [|done]. rewrite Ha by (done || by eapply ample_hstep).
  cbn [map]. by rewrite Ev, <- app_assoc.
Qed.

Lemma copy_items_rest c rest : forall pre h us h',
  Forall wf rest -> copy_items (Some (VArray c (pre ++ rest))) (seq (length pre) (length rest)) h = (us, h') ->
  hstep h h' (eblocks us) /\ (ample h -> us = map (fun v => string_of (erase v)) rest).
Proof.
  induction rest as [|v rest IH]; intros pre h us h' Hw H; cbn [length seq copy_items] in H.
  { apply ret_inv in H as [-> ->]. split; [apply hstep_refl|done]. }
  apply Forall_cons in Hw as [Hv Hw]. rewrite array_get_middle, get_string_erase in H.
  apply bind_inv in H as (u & h1 & E & H). apply strdup_good in E as [S1 Hu]; [|by apply jstr_good].
  replace (pre ++ v :: rest) with ((pre ++ [v]) ++ rest) in H by (by rewrite <- app_assoc).
  replace (S (length pre)) with (length (pre ++ [v])) in H by (rewrite length_app; simpl; lia).
  apply bind_inv in H as (us' & h2 & E2 & H). apply IH in E2 as [S2 Ha]; [|done]. apply ret_inv in H as [-> ->].
  split; [cbn [eblocks foldr]; fold (eblocks us'); hsolve|]. intros A. cbn [map]. destruct Hu as [-> |(_ & _ & Hna)]; [|done].
  by rewrite Ha by (by eapply ample_hstep).
Qed.

(** The strings of an array member. *)
Definition jstrings (key : bytes) (l : list (bytes * json)) : strings :=
  match jlookup key l with Some (JArray (j :: js)) => Some (map string_of (j :: js)) | _ => None end.

Lemma root_member_wf root l key v :
  wf root -> erase root = JObject l -> good_string key -> builtin_object_get (Some root) (Some key) = Some v -> wf v.
Proof.
  intros Hw Hl Hk Hg. destruct root as [| | | | |c m]; try discriminate Hl. pose proof (object_get_cases c m key Hw Hk) as Hc.
  rewrite Hg in Hc. by destruct Hc.
Qed.

Lemma copy_array_spec root l key h a h' :
  wf root -> erase root = JObject l -> good_string key -> copy_array (builtin_object_get (Some root) (Some key)) h = (a, h') ->
  hstep h h' (ablocks_of a) /\ (ample h -> a = jstrings key l).
Proof.
  intros Hw Hl Hk H. unfold jstrings. rewrite <- (member_meaning root l key Hw Hl Hk). unfold copy_array in H.
  pose proof (root_member_wf root l key) as Hm. destruct (builtin_object_get (Some root) (Some key)) as [[| | | |c vs|]|];
    cbn [builtin_type_of builtin_array_size] in H; try (apply ret_inv in H as [-> ->]; split; [apply hstep_refl|done]).
  specialize (Hm _ Hw Hl Hk eq_refl). apply wf_array in Hm as [_ Hall]. cbn [fmap option_fmap option_map erase].
  destruct vs as [|v vs].
  { cbn [length Nat.eqb] in H. apply ret_inv in H as [-> ->]. split; [apply hstep_refl|done]. }
  cbn [length Nat.eqb] in H. apply bind_inv in H as (ok & h1 & E & H). pose proof E as E'. apply xmalloc_hstep in E.
  destruct ok; cbn [negb] in H.
  - apply bind_inv in H as (us & h2 & E2 & H). apply (copy_items_rest c (v :: vs) []) in E2 as [S2 Ha]; [|done].
    apply ret_inv in H as [-> ->]. split; [cbn [ablocks_of]; hsolve|]. intros A. rewrite Ha by (by eapply ample_hstep).
    cbn [map]. by rewrite map_map.
  - apply ret_inv in H as [-> ->]. split; [done|]. intros A. by apply xmalloc_ample_inv in E'.
Qed.

(** ** What a document says *)

(** A document: the required members are there, and the redirect URIs are a
    non-empty array of strings. *)
Definition client_doc (l : list (bytes * json)) : Prop :=
  is_Some (jtext_of (cs "client_id") l) /\ is_Some (jtext_of (cs "client_name") l) /\
  exists us, jstrings (cs "redirect_uris") l = Some us /\ Forall is_Some us.

Definition client_of (l : list (bytes * json)) : mcp_oauth_client_metadata_t :=
  ClientMetadata (jtext_of (cs "client_id") l) (jtext_of (cs "client_name") l) (jtext_of (cs "client_uri") l)
    (jtext_of (cs "logo_uri") l) (jstrings (cs "redirect_uris") l) (jstrings (cs "grant_types") l)
    (jstrings (cs "response_types") l) (jtext_of (cs "token_endpoint_auth_method") l) (jtext_of (cs "jwks_uri") l).

(** What every run of the reader satisfies. *)
Definition client_post (text : bytes) (h : heap) (st : mcp_status_t) (m : mcp_oauth_client_metadata_t) (h' : heap) : Prop :=
  hstep h h' (client_blocks m) /\ (st <> MCP_OK -> m = no_client) /\
  (st = MCP_OK -> exists l, object_text text l /\ client_doc l) /\
  (ample h -> (st = MCP_OK /\ exists l, object_text text l /\ m = client_of l) \/
              (st = MCP_ERR_PROTOCOL /\ forall l, object_text text l -> ~ client_doc l)).

Lemma client_refused text l h st m h' :
  object_text text l -> ~ client_doc l -> st = MCP_ERR_PROTOCOL -> m = no_client -> hstep h h' 0 -> client_post text h st m h'.
Proof.
  intros Ht Hno -> -> Hs. split; [done|]. do 2 (split; [done|]). intros _. right. split; [done|].
  intros l' Hl'. by rewrite <- (object_text_det _ _ _ Ht Hl').
Qed.

Lemma client_nomem text h st m h' :
  ~ ample h -> st = MCP_ERR_NOMEM -> m = no_client -> hstep h h' 0 -> client_post text h st m h'.
Proof. intros Hna -> -> Hs. split; [done|]. by do 2 (split; [done|]). Qed.

(** Redirect URIs of which one is not a string. *)
Lemma redirects_bad l vs :
  jlookup (cs "redirect_uris") l = Some (JArray (map erase vs)) -> Exists (fun v => string_of (erase v) = None) vs -> ~ client_doc l.
Proof.
  intros Gr Hf (_ & _ & us & Hus & Hsome). unfold jstrings in Hus. rewrite Gr in Hus. destruct vs as [|v vs]; [done|].
  cbn [map] in Hus. injection Hus as <-.
  change (string_of (erase v) :: map string_of (map erase vs)) with (map string_of (map erase (v :: vs))) in Hsome.
  apply Exists_exists in Hf as (x & Hx & Hnone). rewrite map_map in Hsome. rewrite Forall_map in Hsome. rewrite Forall_forall in Hsome.
  specialize (Hsome x Hx). cbv beta in Hsome. rewrite Hnone in Hsome. by destruct Hsome.
Qed.

Ltac client_cost :=
  unfold client_blocks in *; cbn [client_id client_name client_uri logo_uri token_endpoint_auth_method client_jwks_uri
    redirect_uris grant_types response_types ablocks_of] in *.

Section reader.
Context (text : bytes) (root : value) (l : list (bytes * json)).
Context (Hw : wf root) (Hl : erase root = JObject l) (Ht : object_text text l).

(** The second half, after [cid] to [jwks] were copied from [h] on. *)
Lemma client_lists_spec cid nm uri logo meth jwks c vs h h6 st m h' :
  builtin_object_get (Some root) (Some (cs "redirect_uris")) = Some (VArray c vs) -> Forall wf vs ->
  jlookup (cs "redirect_uris") l = Some (JArray (map erase vs)) ->
  is_Some (jtext_of (cs "client_id") l) -> is_Some (jtext_of (cs "client_name") l) ->
  hstep h h6 (blocks root + client_blocks (ClientMetadata cid nm uri logo None None None meth jwks)) ->
  (ample h -> forall r g t, r = jstrings (cs "redirect_uris") l -> g = jstrings (cs "grant_types") l -> t = jstrings (cs "response_types") l ->
    ClientMetadata cid nm uri logo r g t meth jwks = client_of l) ->
  client_lists (Some root) (fun r g t => ClientMetadata cid nm uri logo r g t meth jwks) h6 = ((st, m), h') -> client_post text h st m h'.
Proof.
  intros Er Hall Gr Ji Jn S Hc H. unfold client_lists in H. cbv zeta in H. rewrite Er in H. cbn [builtin_array_size] in H.
  destruct vs as [|v vs].
  { cbn [length Nat.eqb] in H. apply client_fail_spec in H as (-> & -> & Sf). eapply (client_refused _ l); [done| |done|done|clear - S Sf; hsolve].
    intros (_ & _ & us & Hus & _). unfold jstrings in Hus. by rewrite Gr in Hus. }
  cbn [length Nat.eqb] in H. apply bind_inv in H as (ok & h7 & E7 & H). pose proof E7 as E7'. apply xmalloc_hstep in E7.
  destruct ok; cbn [negb] in H.
  2: { apply client_fail_spec in H as (-> & -> & Sf). apply client_nomem; [|done|done|clear - S E7 Sf; hsolve].
       intros A. apply xmalloc_ample_inv in E7'; [done|]. by eapply ample_hstep. }
  apply bind_inv in H as ([b us] & h8 & E8 & H). apply (copy_uris_rest c (v :: vs) []) in E8 as (S8 & Hf & Htr & Ha); [|done].
  cbn [eblocks foldr] in S8. destruct b.
  2: { apply client_fail_spec in H as (-> & -> & Sf). eapply (client_refused _ l); [done|by eapply redirects_bad; [|apply Hf]|done|done|].
       client_cost. clear - S E7 S8 Sf. hsolve. }
  clear Hf. specialize (Htr eq_refl).
  apply bind_inv in H as (g & h9 & E9 & H). apply (copy_array_spec root l) in E9 as [S9 Hg]; [|done|done|lit].
  apply bind_inv in H as (t & h10 & E10 & H). apply (copy_array_spec root l) in E10 as [S10 Hty]; [|done|done|lit].
  apply bind_inv in H as (u & h11 & E11 & H). apply builtin_destroy_hstep in E11. cbn [oblocks] in E11.
  apply ret_inv in H as [Hr ->]. apply pair_equal_spec in Hr as [-> ->].
  assert (jstrings (cs "redirect_uris") l = Some (map (fun v => string_of (erase v)) (v :: vs))) as Jr.
  { unfold jstrings. rewrite Gr. cbn [map]. by rewrite map_map. }
  split; [|split; [done|split]].
  - client_cost. clear - S E7 S8 S9 S10 E11. hsolve.
  - intros _. exists l. split; [done|]. do 2 (split; [done|]). eexists. split; [exact Jr|]. by rewrite Forall_map.
  - intros A. left. split; [done|]. exists l. split; [done|]. apply Hc; [done| | |]; ample_fwd; [by rewrite Jr, Ha|auto|auto].
Qed.

Lemma client_destroyed h h0 st m h' :
  ~ client_doc l -> hstep h h0 (blocks root) -> (builtin_destroy (Some root) ;; ret (MCP_ERR_PROTOCOL, no_client)) h0 = ((st, m), h') ->
  client_post text h st m h'.
Proof.
  intros Hno Hs H2. apply bind_inv in H2 as (u & h1 & E1 & H2). apply builtin_destroy_hstep in E1. apply ret_inv in H2 as [[= -> ->] ->].
  cbn [oblocks] in E1. eapply client_refused; [done|done|done|done|hsolve].
Qed.

End reader.

Lemma client_parse_spec text h st m h' :
  mcp_oauth_client_metadata_parse (Some text) h = ((st, m), h') -> client_post text h st m h'.
Proof.
  intros H. unfold mcp_oauth_client_metadata_parse in H. apply bind_inv in H as (r0 & h0 & E & H).
  apply parse_object_root_spec in E. destruct r0 as [root|].
  2: { apply ret_inv in H as [[= -> ->] ->]. destruct E as [Hs Hn]. split; [exact Hs|]. do 2 (split; [done|]).
       intros A. right. split; [done|]. intros l Hl. destruct Hn. split; [done|by exists l]. }
  destruct E as (Hw & Hs & l & Hl & Ht). cbv zeta in H.
  rewrite (get_text root l (cs "client_id") Hw Hl ltac:(lit)), (get_text root l (cs "client_name") Hw Hl ltac:(lit)) in H.
  destruct (jtext_of (cs "client_id") l) as [s_cid|] eqn:Ji.
  2: { eapply client_destroyed; [done| |done|done]. intros ([? ?] & _). congruence. }
  destruct (jtext_of (cs "client_name") l) as [s_name|] eqn:Jn.
  2: { eapply client_destroyed; [done| |done|done]. intros (_ & [? ?] & _). congruence. }
  pose proof (member_meaning root l (cs "redirect_uris") Hw Hl ltac:(lit)) as Gr.
  pose proof (root_member_wf root l (cs "redirect_uris")) as Hrw.
  destruct (builtin_object_get (Some root) (Some (cs "redirect_uris"))) as [[| | | |c vs|]|] eqn:Er; cbn [builtin_type_of] in H;
    try (eapply client_destroyed; [done| |done|done]; intros (_ & _ & us & Hus & _); unfold jstrings in Hus; rewrite <- Gr in Hus; done).
  specialize (Hrw _ Hw Hl ltac:(lit) eq_refl). apply wf_array in Hrw as [_ Hall]. cbn [fmap option_fmap option_map erase] in Gr.
  apply bind_inv in H as (cid & h1 & E1 & H). apply strdup_good in E1 as [S1 Hi]; [|rewrite <- Ji; by eapply member_text_good].
  apply bind_inv in H as (nm & h2 & E2 & H). apply strdup_good in E2 as [S2 Hn]; [|rewrite <- Jn; by eapply member_text_good].
  apply bind_inv in H as (uri & h3 & E3 & H). apply (dup_member_spec root l) in E3 as (S3 & _ & J3); [|done|done|lit].
  apply bind_inv in H as (logo & h4 & E4 & H). apply (dup_member_spec root l) in E4 as (S4 & _ & J4); [|done|done|lit].
  apply bind_inv in H as (meth & h5 & E5 & H). apply (dup_member_spec root l) in E5 as (S5 & _ & J5); [|done|done|lit].
  apply bind_inv in H as (jwks & h6 & E6 & H). apply (dup_member_spec root l) in E6 as (S6 & _ & J6); [|done|done|lit].
  eapply client_lists_spec; [done|done|done|done|done|by symmetry|by rewrite Ji|by rewrite Jn| | |exact H].
  - client_cost. clear - Hs S1 S2 S3 S4 S5 S6. hsolve.
  - intros A r g t -> -> ->. ample_fwd. unfold client_of. rewrite Ji, Jn. destruct Hi as [-> |(_ & _ & ?)]; [|done].
    destruct Hn as [-> |(_ & _ & ?)]; [|done]. by rewrite J3, J4, J5, J6.
Qed.

(** ** What is printed *)

(** The entries that are there. *)
Definition kept_strings (a : strings) : list bytes := omap id (default [] a).

Definition array_json (a : strings) : option json :=
  match a with None | Some [] => None | Some _ => Some (JArray (map (fun s => JString (cstr s)) (kept_strings a))) end.

Definition strings_ok (a : strings) : Prop := Forall otext_ok (default [] a).

Lemma append_texts_ample l : forall arr js h r h',
  ample h -> wf arr -> erase arr = JArray js -> Forall otext_ok l -> append_texts (Some arr) l h = (r, h') ->
  exists a, r = Some a /\ wf a /\ erase a = JArray (js ++ map (fun s => JString (cstr s)) (omap id l)) /\
    hstep h h' (blocks a - blocks arr).
Proof.
  induction l as [|[s|] l IH]; intros arr js h r h' A Hw Ha Hok H; cbn [append_texts] in H.
  { apply ret_inv in H as [-> ->]. exists arr. cbn. rewrite app_nil_r. do 3 (split; [done|]). eapply hstep_eq; [apply hstep_refl|lia]. }
  - apply Forall_cons in Hok as [Hs Hok]. apply bind_inv in H as (v0 & h1 & E & H).
    destruct (string_new_attempt s _ _ _ E) as [S1 Hv]. destruct v0 as [v|]; [|by destruct Hv]. destruct Hv as [Wv Ev]. ample_fwd.
    apply bind_inv in H as ([st r1] & h2 & E2 & H). destruct arr as [| | | |c vs|]; try discriminate Ha. injection Ha as Ha.
    apply array_append_spec in E2 as (c' & l' & -> & Hw' & S2 & -> & Hamp); [|done..]. rewrite (Hamp H0) in *. destruct (decide _) as [_|]; [|done].
    cbn [snd] in H. ample_fwd. eapply (IH _ (js ++ [JString (cstr s)])) in H as (a & -> & Wa & Ea & S3); [|done|done| |done].
    2: { cbn [erase]. rewrite map_app, Ha. cbn [map]. by rewrite Ev. }
    exists a. do 2 (split; [done|]). split; [rewrite Ea; cbn; by rewrite <- app_assoc|]. cbn [oblocks] in S1.
    set (B1 := blocks (VArray c vs)) in *. set (B2 := blocks (VArray c' (vs ++ [v]))) in *. clearbody B1 B2. clear - S1 S2 S3. hsolve.
  - apply Forall_cons in Hok as [_ Hok]. by eapply IH in H.
Qed.

Lemma put_array_ample obj l key a h r h' :
  ample h -> wf obj -> erase obj = JObject l -> good_string key -> strings_ok a -> put_array (Some obj) key a h = (r, h') ->
  exists o, r = Some o /\ wf o /\ erase o = JObject (joset key (array_json a) l) /\ hstep h h' (blocks o - blocks obj).
Proof.
  intros A Hw Hl Hk Hok H.
  assert (forall l0, a = Some l0 -> l0 <> [] -> exists o, r = Some o /\ wf o /\ erase o = JObject (joset key (array_json a) l) /\
    hstep h h' (blocks o - blocks obj)) as Hsome.
  { intros l0 -> Hne. assert (put_made (Some obj) key (string_array l0) h = (r, h')) as H' by (by destruct l0). clear H.
    unfold put_made in H'. apply bind_inv in H' as (v0 & h1 & E & H). unfold string_array in E.
    apply bind_inv in E as (a0 & h2 & E2 & E). destruct (array_new_attempt _ _ _ E2) as [S1 Ha]. destruct a0 as [a0|]; [|by destruct Ha].
    destruct Ha as [Wa Ea]. ample_fwd. eapply append_texts_ample in E as (v & -> & Wv & Ev & S2); [|done..]. ample_fwd.
    apply bind_inv in H as ([st r1] & h3 & E3 & H). apply ret_inv in H as [-> ->]. cbn [snd].
    destruct (take_updates obj l key v Hw Hl Wv Hk _ _ _ _ E3) as (o & -> & Wo & S3 & [[-> Eo]|(_ & _ & Hna)]); [|by destruct Hna].
    exists o. do 2 (split; [done|]). split; [|cbn [oblocks] in S1; clear - S1 S2 S3; hsolve].
    rewrite Eo, Ev. cbn [app]. unfold array_json, kept_strings. by destruct l0. }
  destruct a as [[|x l0]|]; [|by eapply Hsome|].
  all: cbn [put_array] in H; apply ret_inv in H as [-> ->]; exists obj; do 3 (split; [done|]); eapply hstep_eq; [apply hstep_refl|lia].
Qed.

Definition client_members (m : mcp_oauth_client_metadata_t) : list (bytes * json) :=
  joset (cs "jwks_uri") (otext_json (client_jwks_uri m))
    (joset (cs "token_endpoint_auth_method") (otext_json (token_endpoint_auth_method m))
      (joset (cs "response_types") (array_json (response_types m)) (joset (cs "grant_types") (array_json (grant_types m))
        (joset (cs "redirect_uris") (array_json (redirect_uris m)) (joset (cs "logo_uri") (otext_json (logo_uri m))
          (joset (cs "client_uri") (otext_json (client_uri m)) (joset (cs "client_name") (otext_json (client_name m))
            (joset (cs "client_id") (otext_json (client_id m)) [])))))))).

(** Metadata whose document is complete: the required strings and at least
    one redirect URI are there, and every text is UTF-8. *)
Record client_ok (m : mcp_oauth_client_metadata_t) : Prop := ClientOk {
  ok_required : is_Some (client_id m) /\ is_Some (client_name m) /\ kept_strings (redirect_uris m) <> [];
  ok_texts : Forall otext_ok [client_id m; client_name m; client_uri m; logo_uri m; token_endpoint_auth_method m; client_jwks_uri m];
  ok_arrays : Forall strings_ok [redirect_uris m; grant_types m; response_types m];
}.

Lemma put_text_ample obj l key s h r h' :
  ample h -> wf obj -> erase obj = JObject l -> good_string key -> otext_ok s -> put_text (Some obj) key s h = (r, h') ->
  exists o, r = Some o /\ wf o /\ erase o = JObject (joset key (otext_json s) l) /\ hstep h h' (blocks o - blocks obj).
Proof.
  intros A Hw Hl Hk Hs H. eapply put_text_spec in H as (o & l' & -> & W & E & S & J); [|done..].
  exists o. rewrite J in E by done. done.
Qed.

(** One store of a chain, with memory. *)
Ltac chain_step H lem :=
  let o0 := fresh "o0" in let h1 := fresh "h" in let E := fresh "E" in
  let o := fresh "o" in let W := fresh "W" in let He := fresh "He" in let S := fresh "S" in
  apply bind_inv in H as (o0 & h1 & E & H);
  eapply lem in E as (o & -> & W & He & S); [|eassumption|eassumption|eassumption|lit|assumption]; ample_fwd.

Lemma client_object_ample m obj h r h' :
  ample h -> wf obj -> erase obj = JObject [] -> client_ok m -> client_object m (Some obj) h = (r, h') ->
  exists o, r = Some o /\ wf o /\ erase o = JObject (client_members m) /\ hstep h h' (blocks o - blocks obj).
Proof.
  intros A Hw He [_ Ht Ha] H. rewrite !Forall_cons in Ht. rewrite !Forall_cons in Ha. destruct Ht as (T1 & T2 & T3 & T4 & T5 & T6 & _), Ha as (A1 & A2 & A3 & _).
  unfold client_object in H. do 4 chain_step H put_text_ample. do 3 chain_step H put_array_ample. chain_step H put_text_ample.
  eapply put_text_ample in H as (oz & -> & Wz & Ez & Sz); [|done|done|done|lit|done].
  exists oz. split; [done|]. split; [done|]. split; [done|]. clear - Sz S S0 S1 S2 S3 S4 S5 S6. hsolve.
Qed.

Lemma depth_insert k v l : jdepth (JObject (jinsert k v l)) <= Z.max (jdepth (JObject l)) (1 + jdepth v).
Proof.
  cbn [jdepth]. induction l as [|[k' w] l IH]; cbn [jinsert foldr]; [simpl; lia|].
  destruct (bool_decide (k' = k)); cbn [foldr snd] in *; lia.
Qed.

Lemma depth_set k j l n :
  jdepth (JObject l) <= n -> (forall v, j = Some v -> jdepth v < n) -> jdepth (JObject (joset k j l)) <= n.
Proof.
  intros Hl Hj. destruct j as [v|]; [|done]. specialize (Hj v eq_refl). pose proof (depth_insert k v l). cbn [joset from_option]. lia.
Qed.

Lemma text_depth s v : otext_json s = Some v -> jdepth v < 128.
Proof. destruct s; [|done]. cbn. intros [= <-]. done. Qed.

Lemma array_depth a v : array_json a = Some v -> jdepth v < 128.
Proof.
  assert (forall l : list bytes, jdepth (JArray (map (fun s => JString (cstr s)) l)) <= 1) as Hd.
  { intros l. cbn [jdepth]. induction l as [|s l IH]; cbn [map foldr]; [lia|]. cbn [jdepth]. lia. }
  destruct a as [[|x l]|]; cbn [array_json]; [done| |done]. intros [= <-]. specialize (Hd (kept_strings (Some (x :: l)))). lia.
Qed.

Lemma client_depth m : jdepth (JObject (client_members m)) <= MCP_JSON_MAX_DEPTH.
Proof.
  unfold client_members, MCP_JSON_MAX_DEPTH.
  repeat first [apply depth_set; [|intros v; first [apply text_depth|apply array_depth]]]. done.
Qed.

Definition normal_array (a : strings) : strings :=
  match kept_strings a with [] => None | l => Some (map (fun s => Some (cstr s)) l) end.

(** The metadata a reader of the printed document gets. *)
Definition normal_client (m : mcp_oauth_client_metadata_t) : mcp_oauth_client_metadata_t :=
  ClientMetadata (cstr <$> client_id m) (cstr <$> client_name m) (cstr <$> client_uri m) (cstr <$> logo_uri m)
    (normal_array (redirect_uris m)) (normal_array (grant_types m)) (normal_array (response_types m))
    (cstr <$> token_endpoint_auth_method m) (cstr <$> client_jwks_uri m).

Lemma array_read a :
  match array_json a with Some (JArray (j :: js)) => Some (map string_of (j :: js)) | _ => None end = normal_array a.
Proof.
  unfold normal_array. destruct a as [[|x l]|]; [done| |done]. cbn [array_json].
  destruct (kept_strings (Some (x :: l))) as [|s ss]; [done|]. cbn [map]. by rewrite map_map.
Qed.

Lemma text_read s : match otext_json s with Some (JString t) => Some t | _ => None end = cstr <$> s.
Proof. by destruct s. Qed.

Lemma lookup_skip k k' j l : k' <> k -> jlookup k (joset k' j l) = jlookup k l.
Proof. intros Hk. by rewrite jlookup_joset, bool_decide_false. Qed.

Lemma lookup_here k j l : jlookup k l = None -> jlookup k (joset k j l) = j.
Proof. intros Hk. rewrite jlookup_joset, bool_decide_true, Hk by done. by destruct j. Qed.

Ltac find_member := unfold client_members; repeat (rewrite lookup_skip by done); apply lookup_here; repeat (rewrite lookup_skip by done); done.

Lemma client_of_members m : client_of (client_members m) = normal_client m.
Proof.
  unfold client_of, normal_client, jtext_of, jstrings.
  assert (jlookup (cs "client_id") (client_members m) = otext_json (client_id m)) as -> by find_member.
  assert (jlookup (cs "client_name") (client_members m) = otext_json (client_name m)) as -> by find_member.
  assert (jlookup (cs "client_uri") (client_members m) = otext_json (client_uri m)) as -> by find_member.
  assert (jlookup (cs "logo_uri") (client_members m) = otext_json (logo_uri m)) as -> by find_member.
  assert (jlookup (cs "redirect_uris") (client_members m) = array_json (redirect_uris m)) as -> by find_member.
  assert (jlookup (cs "grant_types") (client_members m) = array_json (grant_types m)) as -> by find_member.
  assert (jlookup (cs "response_types") (client_members m) = array_json (response_types m)) as -> by find_member.
  assert (jlookup (cs "token_endpoint_auth_method") (client_members m) = otext_json (token_endpoint_auth_method m)) as -> by find_member.
  assert (jlookup (cs "jwks_uri") (client_members m) = otext_json (client_jwks_uri m)) as -> by find_member.
  by rewrite !text_read, !array_read.
Qed.

Lemma client_doc_members m : client_ok m -> client_doc (client_members m).
Proof.
  intros [(Hi & Hn & Hr) _ _]. pose proof (client_of_members m) as H. unfold client_of, normal_client in H.
  injection H as H1 H2 _ _ H5 _ _ _ _. unfold client_doc. rewrite H1, H2, H5. split; [by apply fmap_is_Some|]. split; [by apply fmap_is_Some|].
  unfold normal_array. destruct (kept_strings (redirect_uris m)) as [|s ss]; [done|]. eexists. split; [done|].
  rewrite Forall_map. apply Forall_forall. intros x _. by eexists.
Qed.

(** ** Checking *)

(** What the validator accepts. *)
Definition client_valid (m : mcp_oauth_client_metadata_t) (expected_url : option bytes) : Prop :=
  exists cid name us, client_id m = Some cid /\ client_name m = Some name /\ redirect_uris m = Some us /\
    cstr name <> [] /\
    (exists host path, cstr cid = cs "https://" ++ host ++ ("/"%byte :: path) /\ host <> [] /\ path <> [] /\ ("/"%byte ∉ host)) /\
    (forall url, expected_url = Some url -> cstr url = cstr cid) /\
    us <> [] /\ Forall (fun u => exists s, u = Some s /\ cstr s <> []) us.

Lemma from_slash_split host path : "/"%byte ∉ host -> from_slash (host ++ ("/"%byte :: path)) = Some ("/"%byte :: path).
Proof.
  induction host as [|c host IH]; intros Hn; [done|]. cbn [app from_slash].
  assert (c <> "/"%byte) as Hc by set_solver. apply byte_eqb_neq in Hc. rewrite Hc. apply IH. set_solver.
Qed.

Lemma from_slash_inv s t : from_slash s = Some t -> exists host path, s = host ++ t /\ t = "/"%byte :: path /\ ("/"%byte ∉ host).
Proof.
  induction s as [|c s IH]; [done|]. cbn [from_slash]. destruct (Byte.eqb c "/") eqn:Ec.
  - intros [= <-]. apply byte_eqb_eq in Ec as ->. exists [], s. split; [done|]. split; [done|]. set_solver.
  - intros (host & path & -> & -> & Hn)%IH. exists (c :: host), path. split; [done|]. split; [done|].
    apply byte_eqb_neq in Ec. set_solver.
Qed.

Lemma https_url_iff s :
  https_url s = true <->
  exists host path, s = cs "https://" ++ host ++ ("/"%byte :: path) /\ host <> [] /\ path <> [] /\ ("/"%byte ∉ host).
Proof.
  unfold https_url. split.
  - destruct (bool_decide_reflect (take 8 s = cs "https://")) as [Hp|]; [|done]. cbn [negb]. cbv zeta.
    destruct (from_slash (drop 8 s)) as [t|] eqn:Ef; [|done]. apply from_slash_inv in Ef as (host & path & Ed & -> & Hn).
    intros [H1 H2]%andb_true_iff. exists host, path. apply negb_true_iff, Nat.eqb_neq in H1. apply negb_true_iff, Nat.leb_gt in H2.
    split; [|split; [|split; [|done]]].
    + rewrite <- (take_drop 8 s). by rewrite Hp, Ed.
    + intros ->. rewrite Ed in H1. done.
    + intros ->. simpl in H2. lia.
  - intros (host & path & -> & Hh & Hp & Hn). rewrite (take_app_length' (cs "https://")) by done. rewrite bool_decide_true by done.
    cbn [negb]. cbv zeta. rewrite (drop_app_length' (cs "https://")) by done. rewrite from_slash_split by done.
    apply andb_true_iff. split; apply negb_true_iff; [apply Nat.eqb_neq|apply Nat.leb_gt].
    + rewrite length_app. destruct host; [done|]. simpl. lia.
    + destruct path; [done|]. simpl. lia.
Qed.

Lemma validate_iff m expected_url :
  mcp_oauth_client_metadata_validate (Some m) expected_url = MCP_OK <-> client_valid m expected_url.
Proof.
  unfold mcp_oauth_client_metadata_validate, client_valid. split.
  - destruct (client_id m) as [cid|] eqn:Ei; [|done]. destruct (client_name m) as [name|] eqn:En; [|done].
    destruct (bool_decide_reflect (cstr name = [])) as [|Hname]; [done|].
    destruct (https_url (cstr cid)) eqn:Eu; cbn [negb]; [|done]. apply https_url_iff in Eu.
    destruct (match expected_url with Some _ => _ | None => _ end) eqn:Ex; cbn [negb]; [|done].
    destruct (redirect_uris m) as [[|u us]|] eqn:Er; [done| |done].
    destruct (existsb _ (u :: us)) eqn:Ee; [done|]. intros _. exists cid, name, (u :: us). do 4 (split; [done|]). split; [exact Eu|].
    split; [|split; [done|]].
    + intros url ->. by apply bool_decide_eq_true in Ex.
    + apply Forall_forall. intros x Hx. destruct (decide (cstr (default [] x) = [])) as [Hc|Hc].
      * exfalso. assert (existsb (fun u => bool_decide (cstr (default [] u) = [])) (u :: us) = true) as Ht; [|congruence].
        apply existsb_exists. exists x. split; [by apply list_elem_of_In|]. by apply bool_decide_eq_true.
      * destruct x as [x|]; [|done]. exists x. done.
  - intros (cid & name & us & -> & -> & -> & Hname & Hu & Hx & Hne & Hall). rewrite bool_decide_false by done.
    apply https_url_iff in Hu. rewrite Hu. cbn [negb].
    assert (match expected_url with Some url => streq cid url | None => true end = true) as ->.
    { destruct expected_url as [url|]; [|done]. unfold streq. by rewrite (Hx url), bool_decide_true. }
    cbn [negb]. destruct us as [|u us]; [done|]. destruct (existsb _ _) eqn:Ee; [|done]. exfalso.
    apply existsb_exists in Ee as (x & Hin & Hb). apply list_elem_of_In in Hin. rewrite Forall_forall in Hall.
    destruct (Hall x Hin) as (s & -> & Hs). by apply bool_decide_eq_true in Hb.
Qed.

(** ** Claims *)

(** C31: Client metadata documents: whatever the allocator refuses, the
    reader leaves exactly the blocks of the metadata it returns and none on
    an error, and succeeds only on a document with the required members.
    With memory, metadata whose texts are all UTF-8 and that has a client id,
    a client name and at least one redirect URI is printed, and the text is
    read back as the same metadata: texts up to their terminator, arrays
    without their NULL entries (none at all when that empties them). *)
Theorem client_metadata_roundtrip m h :
  ample h -> client_ok m ->
  (forall text k st m' k', mcp_oauth_client_metadata_parse (Some text) k = ((st, m'), k') -> client_post text k st m' k') /\
  exists text h1 h2,
    mcp_oauth_client_metadata_serialize (Some m) h = (Some text, h1) /\ hstep h h1 1 /\
    mcp_oauth_client_metadata_parse (Some text) h1 = ((MCP_OK, normal_client m), h2) /\
    hstep h1 h2 (client_blocks (normal_client m)).
Proof.
  intros A Hok. split; [intros; by apply client_parse_spec|].
  destruct (mcp_oauth_client_metadata_serialize (Some m) h) as [out h1] eqn:E.
  cbn [mcp_oauth_client_metadata_serialize] in E. apply bind_inv in E as (o0 & k1 & E0 & E).
  destruct (object_new_attempt _ _ _ E0) as [S0 Ho]. clear E0. destruct o0 as [obj|]; [|by destruct Ho].
  destruct Ho as [W0 E0]. ample_fwd. apply bind_inv in E as (o0 & k2 & E1 & E).
  apply client_object_ample in E1 as (o & -> & W & El & S1); [|done..]. ample_fwd.
  eapply print_root_spec in E as [S2 Hout]; [|done|done|apply client_depth]. destruct out as [text|]; [|done].
  exists text, h1. destruct (mcp_oauth_client_metadata_parse (Some text) h1) as [[st m'] h2] eqn:E2. exists h2.
  pose proof (client_parse_spec _ _ _ _ _ E2) as (S3 & _ & _ & Hp). ample_fwd. split; [done|].
  destruct Hp as [(-> & l' & Hl' & ->)|[_ Hno]]; [done| |by destruct (Hno _ Hout); apply client_doc_members].
  rewrite <- (object_text_det _ _ _ Hout Hl'), client_of_members in *. cbn [oblocks tblocks] in *.
  split; [clear - S0 S1 S2; hsolve|]. done.
Qed.

(** ** Witnesses and findings *)

Definition sample_registration : mcp_oauth_client_metadata_t :=
  ClientMetadata (Some (cs "https://a.b/c")) (Some (cs "app")) None None (Some [Some (cs "http://x/")]) (Some [Some (cs "g"); None]) None
    None None.

Lemma client_metadata_roundtrip_witness :
  exists text h1 h2, mcp_oauth_client_metadata_serialize (Some sample_registration) fresh_heap = (Some text, h1) /\
    mcp_oauth_client_metadata_parse (Some text) h1 = ((MCP_OK, normal_client sample_registration), h2).
Proof.
  destruct (client_metadata_roundtrip sample_registration fresh_heap) as (_ & text & h1 & h2 & E1 & _ & E2 & _).
  - exact fresh_ample.
  - split; [split; [eexists; reflexivity|split; [eexists; reflexivity|discriminate]]| |].
    + repeat (apply Forall_cons; split); [..|apply Forall_nil_2]; first [exact I|vm_compute; reflexivity].
    + repeat (apply Forall_cons; split); [..|apply Forall_nil_2];
        repeat (apply Forall_cons; split); try apply Forall_nil_2; first [exact I|vm_compute; reflexivity].
  - exists text, h1, h2. split; [exact E1|exact E2].
Defined.

(** A document whose [client_id] could not be copied is reported as read. *)
Definition client_text : bytes := js "{'client_id':'https://a/b','client_name':'n','redirect_uris':['u']}".

Lemma client_id_lost :
  exists n m h', mcp_oauth_client_metadata_parse (Some client_text) (Heap (Nat.eqb n) 0 0 false) = ((MCP_OK, m), h') /\ client_id m = None.
Proof. exists 20%nat. eexists _, _. split; vm_compute; reflexivity. Qed.

(** A string that cannot be appended is never freed. *)
Lemma printed_string_leaks :
  exists n text h', mcp_oauth_client_metadata_serialize (Some sample_registration) (Heap (Nat.eqb n) 0 0 false) = (Some text, h') /\
  corrupt h' = false /\ live h' = 3.
Proof. exists 12%nat. eexists _, _. split; [|split]; vm_compute; reflexivity. Qed.

(** A text that is not UTF-8 is left out of the document without a word. *)
Definition odd_registration : mcp_oauth_client_metadata_t :=
  ClientMetadata (Some (cs "https://a.b/c")) (Some (cs "app")) None (Some [xff]) (Some [Some (cs "http://x/")]) None None None None.

Lemma odd_text_dropped :
  match mcp_oauth_client_metadata_serialize (Some odd_registration) fresh_heap with
  | (Some text, h1) => let '((st, m), _) := mcp_oauth_client_metadata_parse (Some text) h1 in (st, client_id m, logo_uri m) = (MCP_OK, Some (cs "https://a.b/c"), None)
  | _ => False
  end.
Proof. vm_compute. reflexivity. Qed.
