(* ===== verification/Apps.v ===== *)
(** * The Apps extension (src/apps/csp.c, src/apps/ui.c)

    Content security policies and HTML resources: the table of directives and
    its text, the [ui://] resource with its reader, the [_meta.ui] stamps on
    results and tools, and the mount handle with its callbacks. *)
From S2P Require Import Prelude Heap Utf8 Double JsonValue JsonParse JsonSerialize JsonApi Schema Message Validate Builders Initialize Session Registry RouteLaws Content Loose.

Local Open Scope Z_scope.

(** ** Content security policies *)

Definition kDirectives : list bytes := [cs "default-src"; cs "script-src"; cs "style-src"; cs "connect-src"].

(** The four slots, NULL or a string. *)
Record mcp_csp_t := Csp { sources : list (option bytes) }.

Definition csp_blocks (c : mcp_csp_t) : Z := 1 + foldr (fun s n => tblocks s + n) 0 (sources c).

Definition mcp_csp_default_deny_new : M (option mcp_csp_t) :=
  ok <- xmalloc ;;
  if negb ok then ret None else
  s <- strdup (Some (cs "'none'")) ;;
  match s with
  | None => xfree false ;; ret None
  | Some _ => ret (Some (Csp [s; None; None; None]))
  end.

Fixpoint free_sources (l : list (option bytes)) : M unit :=
  match l with [] => ret tt | s :: l => free_text s ;; free_sources l end.

Definition mcp_csp_destroy (csp : option mcp_csp_t) : M unit :=
  match csp with None => ret tt | Some c => free_sources (sources c) ;; xfree false end.

(** The loop that looks for the directive. *)
Fixpoint directive_index (directive : bytes) (ds : list bytes) : option nat :=
  match ds with
  | [] => None
  | d :: ds => if streq directive d then Some O else S <$> directive_index directive ds
  end.

(** The status and the table afterwards. *)
Definition mcp_csp_set (csp : option mcp_csp_t) (directive sources_or_null : option bytes) : M (mcp_status_t * option mcp_csp_t) :=
  match csp, directive with
  | Some c, Some directive =>
      match directive_index directive kDirectives with
      | None => ret (MCP_ERR_INVALID_ARGUMENT, csp)
      | Some idx =>
          let old := default None (sources c !! idx) in
          if bool_decide (cstr (default [] sources_or_null) = []) then
            free_text old ;; ret (MCP_OK, Some (Csp (<[idx := None]> (sources c))))
          else
            copy <- strdup sources_or_null ;;
            match copy with
            | None => ret (MCP_ERR_NOMEM, csp)
            | Some _ => free_text old ;; ret (MCP_OK, Some (Csp (<[idx := copy]> (sources c))))
            end
      end
  | _, _ => ret (MCP_ERR_INVALID_ARGUMENT, csp)
  end.

(** The first loop: what it adds to [total], and [count]. *)
Fixpoint csp_total (slots : list (bytes * option bytes)) : Z * Z :=
  match slots with
  | [] => (0, 0)
  | (d, s) :: slots =>
      let '(total, count) := csp_total slots in
      match s with
      | Some s => (Z.of_nat (length d) + 1 + Z.of_nat (length s) + 2 + total, count + 1)
      | None => (total, count)
      end
  end.

(** The second loop: the bytes of the buffer before [pos]. *)
Fixpoint csp_write (slots : list (bytes * option bytes)) (buf : bytes) : bytes :=
  match slots with
  | [] => buf
  | (_, None) :: slots => csp_write slots buf
  | (d, Some s) :: slots =>
      let buf := if Nat.ltb 0 (length buf) then buf ++ cs "; " else buf in
      csp_write slots (buf ++ d ++ cs " " ++ s)
  end.

Definition csp_slots (c : mcp_csp_t) : list (bytes * option bytes) := zip kDirectives (sources c).

(** The status and [*out].  Bytes written past the buffer corrupt the
    heap. *)
Definition mcp_csp_serialize (csp : option mcp_csp_t) : M (mcp_status_t * option bytes) :=
  match csp with
  | None => ret (MCP_ERR_INVALID_ARGUMENT, None)
  | Some c =>
      let '(sum, count) := csp_total (csp_slots c) in
      let total := 1 + sum - (if 0 <? count then 2 else 0) in
      ok <- xmalloc ;;
      if negb ok then ret (MCP_ERR_NOMEM, None) else
      let buf := csp_write (csp_slots c) [] in
      (if Z.of_nat (length buf) + 1 <=? total then ret tt else mark_corrupt) ;;
      ret (MCP_OK, Some buf)
  end.

(** ** HTML resources *)

Definition MCP_APPS_UI_MIME : bytes := cs "text/html;profile=mcp-app".
Definition MCP_APPS_UI_SCHEME : bytes := cs "ui://".

(** [ui_cleanup]: the document and the record that holds it. *)
Definition ui_cleanup : M unit := xfree false ;; xfree false.

(** The second half of [ui_read], after its five values were created. *)
Definition ui_fill (arr item uval mval tval : option value) (session : mcp_session_t) : M handled_by :=
  let nomem := ret (MCP_ERR_NOMEM, None, session) in
  r <- object_set_take item (cs "uri") uval ;;
  match r with
  | (MCP_OK, item) =>
      r <- object_set_take item (cs "mimeType") mval ;;
      match r with
      | (MCP_OK, item) =>
          r <- object_set_take item (cs "text") tval ;;
          match r with
          | (MCP_OK, item) =>
              r <- builtin_array_append arr item ;;
              match r with
              | (MCP_OK, arr) => ret (MCP_OK, arr, session)
              | (_, arr) => builtin_destroy item ;; builtin_destroy arr ;; nomem
              end
          | (_, item) => builtin_destroy item ;; builtin_destroy arr ;; nomem
          end
      | (_, item) => builtin_destroy tval ;; builtin_destroy item ;; builtin_destroy arr ;; nomem
      end
  | (_, item) =>
      builtin_destroy mval ;; builtin_destroy tval ;; builtin_destroy item ;; builtin_destroy arr ;; nomem
  end.

(** [ui_read] of a resource with the document [doc]. *)
Definition ui_read (doc : bytes) (session : mcp_session_t) (uri : bytes) : M handled_by :=
  arr <- builtin_new_array ;;
  item <- builtin_new_object ;;
  uval <- string_new uri ;;
  mval <- string_new MCP_APPS_UI_MIME ;;
  tval <- string_new doc ;;
  match arr, item, uval, mval, tval with
  | Some _, Some _, Some _, Some _, Some _ => ui_fill arr item uval mval tval session
  | _, _, _, _, _ =>
      builtin_destroy uval ;; builtin_destroy mval ;; builtin_destroy tval ;; builtin_destroy item ;;
      builtin_destroy arr ;; ret (MCP_ERR_NOMEM, None, session)
  end.

(** [strstr(s, pat) != NULL]. *)
Fixpoint contains (pat s : bytes) : bool :=
  bool_decide (take (length pat) s = pat) || match s with [] => false | _ :: s => contains pat s end.

(** A double quote. *)
Definition dquote : byte := x22.
Definition kMetaPrefix : bytes := cs "<meta http-equiv=" ++ [dquote] ++ cs "Content-Security-Policy" ++ [dquote] ++ cs " content=" ++ [dquote].
Definition kMetaSuffix : bytes := [dquote] ++ cs ">" ++ [x0a].

(** The document served. *)
Definition ui_document (policy html : bytes) : bytes :=
  if contains (cs "Content-Security-Policy") html then html else kMetaPrefix ++ policy ++ kMetaSuffix ++ html.

(** The policy: of the table given, or of a fresh default one. *)
Definition ui_policy (csp_or_null : option mcp_csp_t) : M (option bytes) :=
  match csp_or_null with
  | Some _ => r <- mcp_csp_serialize csp_or_null ;; ret r.2
  | None =>
      tmp <- mcp_csp_default_deny_new ;;
      match tmp with
      | None => ret None
      | Some _ =>
          r <- mcp_csp_serialize tmp ;;
          mcp_csp_destroy tmp ;;
          ret r.2
      end
  end.

(** [ctx] says whether the context pointer is not NULL. *)
Definition mcp_apps_ui_resource_new (ctx : bool) (uri name html : option bytes) (csp_or_null : option mcp_csp_t)
    : M (option mcp_resource_t) :=
  match uri, name, html with
  | Some u, Some _, Some html =>
      if negb (bool_decide (take 5 (cstr u) = MCP_APPS_UI_SCHEME)) then ret None else
      policy <- ui_policy csp_or_null ;;
      match policy with
      | None => ret None
      | Some p =>
          d <- xmalloc ;;
          if negb d then xfree false ;; ret None else
          doc <- xmalloc ;;
          xfree false ;;
          if negb doc then xfree false ;; ret None else
          let doc := ui_document p (cstr html) in
          res <- mcp_resource_new uri name (Some MCP_APPS_UI_MIME) (Some (ui_read doc)) ;;
          match res with
          | None => ui_cleanup ;; ret None
          | Some _ =>
              match mcp_resource_set_cleanup ctx res (Some ui_cleanup) with
              | (MCP_OK, res) => ret res
              | (_, res) => mcp_resource_destroy res ;; ui_cleanup ;; ret None
              end
          end
      end
  | _, _, _ => ret None
  end.

(** ** Stamps *)

Definition mcp_apps_result_with_ui (result : option value) (resource_uri : option bytes) : M (mcp_status_t * option value) :=
  match result, resource_uri with
  | Some (VObject _ _), Some resource_uri =>
      meta <- builtin_new_object ;;
      mui <- builtin_new_object ;;
      muri <- string_new resource_uri ;;
      match meta, mui, muri with
      | Some _, Some _, Some _ =>
          r <- object_set_take mui (cs "resourceUri") muri ;;
          match r with
          | (MCP_OK, mui) =>
              r <- object_set_take meta (cs "ui") mui ;;
              match r with
              | (MCP_OK, meta) =>
                  r <- object_set_take result (cs "_meta") meta ;;
                  match r with
                  | (MCP_OK, result) => ret (MCP_OK, result)
                  | (_, result) => ret (MCP_ERR_NOMEM, result)
                  end
              | (_, meta) => builtin_destroy meta ;; ret (MCP_ERR_NOMEM, result)
              end
          | (_, mui) => builtin_destroy mui ;; builtin_destroy meta ;; ret (MCP_ERR_NOMEM, result)
          end
      | _, _, _ => builtin_destroy muri ;; builtin_destroy mui ;; builtin_destroy meta ;; ret (MCP_ERR_NOMEM, result)
      end
  | _, _ => ret (MCP_ERR_INVALID_ARGUMENT, result)
  end.

(** The status and [*uri_out]. *)
Definition mcp_apps_result_ui_uri (result : option value) : mcp_status_t * option bytes :=
  let ui := builtin_object_get (builtin_object_get result (Some (cs "_meta"))) (Some (cs "ui")) in
  match builtin_get_string (builtin_object_get ui (Some (cs "resourceUri"))) with
  | Some s => (MCP_OK, Some s)
  | None => (MCP_ERR_INVALID_ARGUMENT, None)
  end.

(** When the [ui] object cannot be created the URI string is left behind. *)
Definition mcp_apps_tool_set_ui (tool : option mcp_tool_t) (resource_uri : option bytes) : M (mcp_status_t * option mcp_tool_t) :=
  match tool, resource_uri with
  | Some _, Some resource_uri =>
      meta <- match mcp_tool_meta tool with
              | Some existing => json_clone (Some existing)
              | None => builtin_new_object
              end ;;
      match meta with
      | None => ret (MCP_ERR_NOMEM, tool)
      | Some _ =>
          uri <- string_new resource_uri ;;
          match uri with
          | None => builtin_destroy meta ;; ret (MCP_ERR_NOMEM, tool)
          | Some _ =>
              ui <- builtin_new_object ;;
              match ui with
              | None => builtin_destroy meta ;; ret (MCP_ERR_NOMEM, tool)
              | Some _ =>
                  r <- builtin_object_set ui (Some (cs "resourceUri")) uri ;;
                  match r with
                  | (MCP_OK, ui) =>
                      r <- builtin_object_set meta (Some (cs "ui")) ui ;;
                      match r with
                      | (MCP_OK, meta) => mcp_tool_set_meta tool meta
                      | (st, meta) => builtin_destroy ui ;; builtin_destroy meta ;; ret (st, tool)
                      end
                  | (st, ui) => builtin_destroy uri ;; builtin_destroy ui ;; builtin_destroy meta ;; ret (st, tool)
                  end
              end
          end
      end
  | _, _ => ret (MCP_ERR_INVALID_ARGUMENT, tool)
  end.

(** ** Mounting *)

(** A callback of the host: it may change the session it is given. *)
Definition mcp_apps_lifecycle_fn : Type := mcp_session_t -> M mcp_session_t.

Record mcp_apps_mount_t := Mount { on_unmount : option mcp_apps_lifecycle_fn }.

Definition call_hook (f : option mcp_apps_lifecycle_fn) (s : mcp_session_t) : M mcp_session_t :=
  match f with None => ret s | Some f => f s end.

(** The status, the session afterwards and the handle. *)
Definition mcp_apps_mount (session : option mcp_session_t) (on_mount_or_null on_unmount_or_null : option mcp_apps_lifecycle_fn)
    : M (mcp_status_t * option mcp_session_t * option mcp_apps_mount_t) :=
  match session with
  | None => ret (MCP_ERR_INVALID_ARGUMENT, session, None)
  | Some s =>
      ok <- xmalloc ;;
      if negb ok then ret (MCP_ERR_NOMEM, session, None) else
      s <- call_hook on_mount_or_null s ;;
      ret (MCP_OK, Some s, Some (Mount on_unmount_or_null))
  end.

Definition mcp_apps_unmount (handle : option mcp_apps_mount_t) (s : mcp_session_t) : M (mcp_status_t * mcp_session_t) :=
  match handle with
  | None => ret (MCP_ERR_INVALID_ARGUMENT, s)
  | Some m =>
      s <- call_hook (on_unmount m) s ;;
      xfree false ;;
      ret (MCP_OK, s)
  end.

(** ** The text of a policy *)

(** The directives that are set, in the order of the table. *)
Definition set_entries (slots : list (bytes * option bytes)) : list (bytes * bytes) :=
  omap (fun ds => (fun s => (ds.1, s)) <$> ds.2) slots.

Definition entry_text (ds : bytes * bytes) : bytes := ds.1 ++ cs " " ++ ds.2.

(** Joined by a semicolon and a space. *)
Definition policy_text (l : list (bytes * bytes)) : bytes :=
  match l with [] => [] | e :: l => entry_text e ++ flat_map (fun e => cs "; " ++ entry_text e) l end.

Lemma csp_write_more slots : forall buf, buf <> [] ->
  csp_write slots buf = buf ++ flat_map (fun e => cs "; " ++ entry_text e) (set_entries slots).
Proof.
  induction slots as [|[d [s|]] slots IH]; intros buf Hb; cbn [csp_write].
  - by rewrite app_nil_r.
  - assert (Nat.ltb 0 (length buf) = true) as -> by (apply Nat.ltb_lt; destruct buf; [done|simpl; lia]).
    rewrite IH by (intros [E _]%app_nil; apply app_nil in E as [E _]; done).
    change (set_entries ((d, Some s) :: slots)) with ((d, s) :: set_entries slots). cbn [flat_map]. unfold entry_text at 2. cbn [fst snd].
    by rewrite <- !app_assoc.
  - by rewrite IH.
Qed.

Lemma csp_write_text slots : Forall (fun ds => ds.1 <> []) slots -> csp_write slots [] = policy_text (set_entries slots).
Proof.
  induction 1 as [|[d [s|]] slots Hd Hs IH]; [done| |exact IH]. cbn [csp_write length Nat.ltb Nat.leb app].
  rewrite csp_write_more; [done|]. intros [E _]%app_nil. done.
Qed.

Lemma csp_total_spec slots :
  csp_total slots = (Z.of_nat (length (flat_map (fun e => cs "; " ++ entry_text e) (set_entries slots))), Z.of_nat (length (set_entries slots))).
Proof.
  induction slots as [|[d [s|]] slots IH]; [done| |]; cbn [csp_total]; rewrite IH.
  - change (set_entries ((d, Some s) :: slots)) with ((d, s) :: set_entries slots). cbn [flat_map length]. unfold entry_text at 2. cbn [fst snd].
    rewrite !length_app. change (length (cs "; ")) with 2%nat. change (length (cs " ")) with 1%nat. f_equal; lia.
  - done.
Qed.

(** The table the operations keep. *)
Definition csp_ok (c : mcp_csp_t) : Prop := length (sources c) = 4%nat.

Lemma slots_named c : Forall (fun ds : bytes * option bytes => ds.1 <> []) (csp_slots c).
Proof.
  unfold csp_slots, kDirectives. destruct (sources c) as [|a [|b [|d [|e l]]]]; cbn [zip zip_with]; repeat constructor; done.
Qed.

Definition csp_entries (c : mcp_csp_t) : list (bytes * bytes) := set_entries (csp_slots c).

(** The buffer is exactly as long as the text and its terminator. *)
Lemma csp_serialize_spec c h st r h' :
  mcp_csp_serialize (Some c) h = ((st, r), h') ->
  hstep h h' (tblocks r) /\ corrupt h' = corrupt h /\
  ((st = MCP_OK /\ r = Some (policy_text (csp_entries c))) \/ (st = MCP_ERR_NOMEM /\ r = None /\ ~ ample h)).
Proof.
  intros H. unfold mcp_csp_serialize in H. rewrite csp_total_spec in H. cbv zeta in H.
  apply bind_inv in H as (ok & h1 & E & H). pose proof E as E'. apply xmalloc_hstep in E.
  assert (corrupt h1 = corrupt h) as Hc by (unfold xmalloc in E'; destruct (fails h _); simplify_eq; done).
  destruct ok; cbn [negb] in H.
  2: { apply ret_inv in H as [[= -> ->] ->]. split; [done|]. split; [done|]. right. do 2 (split; [done|]).
       intros A. by apply xmalloc_ample_inv in E'. }
  rewrite (csp_write_text _ (slots_named c)) in H. fold (csp_entries c) in H.
  assert ((Z.of_nat (length (policy_text (csp_entries c))) + 1 <=?
    1 + Z.of_nat (length (flat_map (fun e => cs "; " ++ entry_text e) (csp_entries c))) -
    (if 0 <? Z.of_nat (length (csp_entries c)) then 2 else 0)) = true) as Hfit.
  { apply Z.leb_le. destruct (csp_entries c) as [|e l]; [done|]. cbn [policy_text flat_map length]. rewrite !length_app.
    change (length (cs "; ")) with 2%nat. rewrite (proj2 (Z.ltb_lt 0 _)) by lia. lia. }
  rewrite Hfit in H. apply bind_inv in H as (u & h2 & E2 & H). apply ret_inv in E2 as [_ ->]. apply ret_inv in H as [Hr ->].
  apply pair_equal_spec in Hr as [-> ->]. split; [done|]. split; [done|]. by left.
Qed.

(** ** The table *)

Lemma index_lookup d ds :
  NoDup ds -> Forall (fun x => has_nul x = false) ds -> forall i, directive_index d ds = Some i <-> ds !! i = Some (cstr d).
Proof.
  induction ds as [|x ds IH]; intros Hnd Hn i; [done|]. apply NoDup_cons in Hnd as [Hx Hnd]. apply Forall_cons in Hn as [Hxn Hn].
  cbn [directive_index]. unfold streq. rewrite (cstr_no_nul x Hxn). destruct (bool_decide_reflect (cstr d = x)) as [->|Hne].
  - split; [by intros [= <-]|]. destruct i as [|i]; [done|]. cbn. intros H. destruct Hx. by eapply list_elem_of_lookup_2.
  - rewrite fmap_Some. split.
    + intros (j & Hj & ->). cbn. by apply IH.
    + destruct i as [|i]; cbn; [congruence|]. intros H. exists i. split; [by apply IH|done].
Qed.

Lemma directive_index_iff d i : directive_index d kDirectives = Some i <-> kDirectives !! i = Some (cstr d).
Proof. apply index_lookup; [by apply (bool_decide_unpack _); vm_compute|repeat constructor]. Qed.

(** The value of a directive. *)
Definition csp_get (c : mcp_csp_t) (d : bytes) : option bytes :=
  i ← directive_index d kDirectives; default None (sources c !! i).

(** What [mcp_csp_set] stores: NULL for an absent or empty value. *)
Definition csp_value (s : option bytes) : option bytes :=
  if bool_decide (cstr (default [] s) = []) then None else cstr <$> s.

Lemma csp_blocks_insert c i v :
  (i < length (sources c))%nat ->
  csp_blocks (Csp (<[i := v]> (sources c))) = csp_blocks c - tblocks (default None (sources c !! i)) + tblocks v.
Proof.
  unfold csp_blocks. cbn [sources]. generalize (sources c) as l. clear c. intros l Hi.
  enough (foldr (fun s n => tblocks s + n) 0 (<[i := v]> l) = foldr (fun s n => tblocks s + n) 0 l - tblocks (default None (l !! i)) + tblocks v); [lia|].
  revert i Hi. induction l as [|x l IH]; intros i Hi; [simpl in Hi; lia|]. destruct i as [|i].
  - change (<[0%nat := v]> (x :: l)) with (v :: l). change (default None ((x :: l) !! 0%nat)) with x. cbn [foldr]. lia.
  - change (<[S i := v]> (x :: l)) with (x :: <[i := v]> l). change ((x :: l) !! S i) with (l !! i). cbn [foldr length] in *.
    rewrite IH by lia. lia.
Qed.

Lemma csp_set_spec c d s h st r h' :
  csp_ok c -> mcp_csp_set (Some c) (Some d) s h = ((st, r), h') ->
  exists c', r = Some c' /\ csp_ok c' /\ hstep h h' (csp_blocks c' - csp_blocks c) /\
  match directive_index d kDirectives with
  | None => st = MCP_ERR_INVALID_ARGUMENT /\ c' = c
  | Some _ =>
      (st = MCP_OK /\ forall d', csp_get c' d' = if bool_decide (cstr d' = cstr d) then csp_value s else csp_get c d') \/
      (st = MCP_ERR_NOMEM /\ c' = c /\ ~ ample h)
  end.
Proof.
  intros Hok H. unfold mcp_csp_set in H. destruct (directive_index d kDirectives) as [i|] eqn:Ei.
  2: { apply ret_inv in H as [[= -> ->] ->]. exists c. do 2 (split; [done|]). split; [eapply hstep_eq; [apply hstep_refl|lia]|done]. }
  pose proof (proj1 (directive_index_iff d i) Ei) as Hi. pose proof (lookup_lt_Some _ _ _ Hi) as Hlt.
  assert (i < length (sources c))%nat as Hl by (rewrite Hok; exact Hlt).
  assert (forall v d', csp_get (Csp (<[i := v]> (sources c))) d' = if bool_decide (cstr d' = cstr d) then v else csp_get c d') as Hget.
  { intros v d'. unfold csp_get. cbn [sources]. destruct (directive_index d' kDirectives) as [j|] eqn:Ej; cbn.
    - pose proof (proj1 (directive_index_iff d' j) Ej) as Hj. destruct (bool_decide_reflect (cstr d' = cstr d)) as [Hd|Hd].
      + assert (j = i) as ->; [|by rewrite list_lookup_insert_eq by done]. rewrite <- Hd in Hi. apply directive_index_iff in Hi. congruence.
      + rewrite list_lookup_insert_ne; [done|]. intros ->. apply Hd. congruence.
    - destruct (bool_decide_reflect (cstr d' = cstr d)) as [Hd|Hd]; [|done]. rewrite <- Hd in Hi. apply directive_index_iff in Hi. congruence. }
  assert (forall v, csp_ok (Csp (<[i := v]> (sources c)))) as Hok' by (intros v; unfold csp_ok; cbn; by rewrite length_insert).
  cbv zeta in H. unfold csp_value. destruct (bool_decide (cstr (default [] s) = [])) eqn:Es.
  - apply bind_inv in H as (u & h1 & E & H). apply free_text_hstep in E. apply ret_inv in H as [[= -> ->] ->].
    eexists. split; [done|]. split; [apply Hok'|]. rewrite csp_blocks_insert by done. split; [cbn [tblocks]; hsolve|]. left. auto.
  - apply bind_inv in H as (copy & h1 & E & H). apply strdup_spec in E as (S1 & Hr & Ha). destruct copy as [x|].
    + destruct (Hr x eq_refl) as (s0 & -> & ->). apply bind_inv in H as (u & h2 & E & H). apply free_text_hstep in E.
      apply ret_inv in H as [[= -> ->] ->]. eexists. split; [done|]. split; [apply Hok'|]. rewrite csp_blocks_insert by done.
      split; [cbn [tblocks] in *; hsolve|]. left. split; [done|]. intros d'. rewrite Hget. done.
    + apply ret_inv in H as [[= -> ->] ->]. exists c. do 2 (split; [done|]). split; [cbn in S1; hsolve|]. right. do 2 (split; [done|]).
      intros A. destruct s as [s|]; [|done]. destruct (Ha A) as [? ?]; [by eexists|done].
Qed.

(** ** Reading a document *)

Definition ui_contents (uri doc : bytes) : json :=
  JArray [JObject [(cs "uri", JString (cstr uri)); (cs "mimeType", JString MCP_APPS_UI_MIME); (cs "text", JString (cstr doc))]].

(** The value and the blocks of a read: none unless it succeeds. *)
Definition read_post (doc uri : bytes) (s : mcp_session_t) (h : heap) (r : handled_by) (h' : heap) : Prop :=
  let '(st, v, s') := r in
  s' = s /\ owf v /\ hstep h h' (oblocks v) /\ (st <> MCP_OK -> v = None) /\
  (ample h -> utf8_valid (cstr doc) = true -> utf8_valid (cstr uri) = true -> st = MCP_OK /\ erase <$> v = Some (ui_contents uri doc)).

Lemma read_nomem doc uri s h h' :
  ~ (ample h /\ utf8_valid (cstr doc) = true /\ utf8_valid (cstr uri) = true) -> hstep h h' 0 ->
  read_post doc uri s h (MCP_ERR_NOMEM, None, s) h'.
Proof. intros Hna Hs. split; [done|]. split; [done|]. split; [done|]. split; [done|]. intros A Hd Hu. by destruct Hna. Qed.

(** Closes a path that destroys everything: [H] is the rest of the run. *)
Ltac drop_all H :=
  repeat (let u := fresh "u" in let k := fresh "k" in let E := fresh "D" in
          apply bind_inv in H as (u & k & E & H); apply builtin_destroy_hstep in E);
  first [apply ret_inv in H as [-> ->] | apply ret_inv in H as [[= -> ->] ->]]; cbn [oblocks] in *.

Lemma ui_fill_spec arr item uval mval tval uri doc s h r h' :
  wf arr -> erase arr = JArray [] -> wf item -> erase item = JObject [] ->
  wf uval -> erase uval = JString (cstr uri) -> wf mval -> erase mval = JString MCP_APPS_UI_MIME ->
  wf tval -> erase tval = JString (cstr doc) ->
  ui_fill (Some arr) (Some item) (Some uval) (Some mval) (Some tval) s h = (r, h') ->
  let given := blocks arr + blocks item + blocks uval + blocks mval + blocks tval in
  (r = (MCP_ERR_NOMEM, None, s) /\ ~ ample h /\ hstep h h' (- given)) \/
  exists v, r = (MCP_OK, Some v, s) /\ wf v /\ erase v = ui_contents uri doc /\ hstep h h' (blocks v - given).
Proof.
  intros Wa Ea Wi Ei Wu Eu Wm Em Wt Et H. unfold ui_fill in H. cbv zeta.
  apply bind_inv in H as ([st1 r1] & h1 & E1 & H).
  destruct (take_updates item [] (cs "uri") uval Wi Ei Wu ltac:(lit) _ _ _ _ E1) as (o1 & -> & W1 & S1 & C1). clear E1.
  destruct C1 as [[-> Eo1]|(Hne & _ & Hna)].
  2: { assert ((builtin_destroy (Some mval) ;; builtin_destroy (Some tval) ;; builtin_destroy (Some o1) ;; builtin_destroy (Some arr) ;;
         ret (MCP_ERR_NOMEM, None, s)) h1 = (r, h')) as H' by (by destruct st1). clear H. drop_all H'. left. split; [done|].
       split; [by intros A; apply Hna|]. hsolve. }
  apply bind_inv in H as ([st2 r2] & h2 & E2 & H).
  destruct (take_updates o1 _ (cs "mimeType") mval W1 Eo1 Wm ltac:(lit) _ _ _ _ E2) as (o2 & -> & W2 & S2 & C2). clear E2.
  destruct C2 as [[-> Eo2]|(Hne & _ & Hna)].
  2: { assert ((builtin_destroy (Some tval) ;; builtin_destroy (Some o2) ;; builtin_destroy (Some arr) ;;
         ret (MCP_ERR_NOMEM, None, s)) h2 = (r, h')) as H' by (by destruct st2). clear H. drop_all H'. left. split; [done|].
       split; [intros A; apply Hna; split; [by eapply ample_hstep|done]|]. hsolve. }
  apply bind_inv in H as ([st3 r3] & h3 & E3 & H).
  destruct (take_updates o2 _ (cs "text") tval W2 Eo2 Wt ltac:(lit) _ _ _ _ E3) as (o3 & -> & W3 & S3 & C3). clear E3.
  destruct C3 as [[-> Eo3]|(Hne & _ & Hna)].
  2: { assert ((builtin_destroy (Some o3) ;; builtin_destroy (Some arr) ;;
         ret (MCP_ERR_NOMEM, None, s)) h3 = (r, h')) as H' by (by destruct st3). clear H. drop_all H'. left. split; [done|].
       split; [intros A; apply Hna; split; [by eapply ample_hstep, ample_hstep|done]|]. hsolve. }
  apply bind_inv in H as ([st4 r4] & h4 & E4 & H). destruct arr as [| | | |c vs|]; try discriminate Ea. destruct vs; [|discriminate Ea].
  apply array_append_spec in E4 as (c' & l' & -> & Hw' & S4 & -> & Hamp); [|done..].
  destruct (decide (st4 = MCP_OK)) as [->|Hne].
  - apply ret_inv in H as [-> ->]. right. eexists. split; [done|]. split; [done|]. split.
    { cbn [erase map app]. rewrite Eo3. unfold ui_contents. rewrite Eu, Em, Et. done. }
    set (B1 := blocks (VArray c [])) in *. set (B2 := blocks (VArray c' ([] ++ [o3]))) in *. clearbody B1 B2. clear - S1 S2 S3 S4. hsolve.
  - assert ((builtin_destroy (Some o3) ;; builtin_destroy (Some (VArray c' [])) ;;
      ret (MCP_ERR_NOMEM, None, s)) h4 = (r, h')) as H' by (by destruct st4). clear H. drop_all H'. left. split; [done|]. split.
    + intros A. apply Hne, Hamp. by eapply ample_hstep, ample_hstep, ample_hstep.
    + set (B1 := blocks (VArray c [])) in *. set (B2 := blocks (VArray c' [])) in *. clearbody B1 B2. clear - S1 S2 S3 S4 D D0. hsolve.
Qed.

Lemma ui_read_spec doc s uri h r h' : ui_read doc s uri h = (r, h') -> read_post doc uri s h r h'.
Proof.
  intros H. unfold ui_read in H. apply bind_inv in H as (arr & h1 & E1 & H). destruct (array_new_attempt _ _ _ E1) as [S1 P1].
  apply bind_inv in H as (item & h2 & E2 & H). destruct (object_new_attempt _ _ _ E2) as [S2 P2].
  apply bind_inv in H as (uval & h3 & E3 & H). destruct (string_new_attempt _ _ _ _ E3) as [S3 P3].
  apply bind_inv in H as (mval & h4 & E4 & H). destruct (string_new_attempt _ _ _ _ E4) as [S4 P4].
  apply bind_inv in H as (tval & h5 & E5 & H). destruct (string_new_attempt _ _ _ _ E5) as [S5 P5]. clear E1 E2 E3 E4 E5.
  destruct (decide (is_Some arr /\ is_Some item /\ is_Some uval /\ is_Some mval /\ is_Some tval)) as [Hall|Hno].
  - destruct Hall as ([a ->] & [i ->] & [u ->] & [m ->] & [t ->]).
    destruct P1 as [Wa Ea], P2 as [Wi Ei], P3 as [Wu Eu], P4 as [Wm Em], P5 as [Wt Et].
    change (cstr MCP_APPS_UI_MIME) with MCP_APPS_UI_MIME in Em. cbn [oblocks] in *.
    eapply ui_fill_spec in H; [|done..]. destruct H as [(-> & Hna & Hs)|(v & -> & Wv & Ev & Hs)].
    + apply read_nomem; [|clear - S1 S2 S3 S4 S5 Hs; hsolve]. intros (A & _). ample_fwd. done.
    + split; [done|]. split; [done|]. split; [cbn [oblocks]; clear - S1 S2 S3 S4 S5 Hs; hsolve|]. split; [done|].
      intros _ _ _. split; [done|]. cbn. by rewrite Ev.
  - assert ((builtin_destroy uval ;; builtin_destroy mval ;; builtin_destroy tval ;; builtin_destroy item ;; builtin_destroy arr ;;
      ret (MCP_ERR_NOMEM, None, s)) h5 = (r, h')) as H'.
    { destruct arr, item, uval, mval, tval; try exact H. destruct Hno. repeat split; by eexists. }
    clear H. repeat (apply bind_inv in H' as (? & ? & ?D & H')). apply builtin_destroy_hstep in D, D0, D1, D2, D3.
    apply ret_inv in H' as [-> ->]. apply read_nomem; [|clear - S1 S2 S3 S4 S5 D D0 D1 D2 D3; hsolve].
    intros (A & Hd & Hu). ample_fwd. apply Hno.
    destruct arr; [|by destruct P1]. destruct item; [|by destruct P2]. destruct uval; [|by destruct P3]. destruct mval; [|by destruct P4].
    destruct tval; [|by destruct P5]. repeat split; by eexists.
Qed.

(** ** The resource *)

Definition default_csp : mcp_csp_t := Csp [Some (cs "'none'"); None; None; None].

Lemma csp_new_spec h r h' :
  mcp_csp_default_deny_new h = (r, h') ->
  (r = Some default_csp /\ hstep h h' (csp_blocks default_csp)) \/ (r = None /\ hstep h h' 0 /\ ~ ample h).
Proof.
  intros H. unfold mcp_csp_default_deny_new in H. apply bind_inv in H as (ok & h1 & E & H). pose proof E as E'. apply xmalloc_hstep in E.
  destruct ok; cbn [negb] in H.
  2: { apply ret_inv in H as [-> ->]. right. split; [done|]. split; [done|]. intros A. by apply xmalloc_ample_inv in E'. }
  apply bind_inv in H as (s & h2 & E2 & H). apply strdup_spec in E2 as (S2 & Hr & Ha). destruct s as [s|].
  - apply ret_inv in H as [-> ->]. destruct (Hr s eq_refl) as (s0 & [= <-] & ->). left. split; [done|]. cbn. hsolve.
  - apply bind_inv in H as (u & h3 & E3 & H). apply xfree_hstep in E3. apply ret_inv in H as [-> ->]. right. split; [done|].
    split; [hsolve|]. intros A. destruct (Ha (ample_hstep _ _ _ E A)) as [? ?]; [by eexists|done].
Qed.

Lemma free_sources_hstep l : forall h u h', free_sources l h = (u, h') -> hstep h h' (- foldr (fun s n => tblocks s + n) 0 l).
Proof.
  induction l as [|s l IH]; intros h u h' H; cbn [free_sources] in H; [apply ret_inv in H as [_ ->]; apply hstep_refl|].
  apply bind_inv in H as (u1 & h1 & E & H). apply free_text_hstep in E. apply IH in H. cbn [foldr]. hsolve.
Qed.

Lemma csp_destroy_hstep c h u h' : mcp_csp_destroy (Some c) h = (u, h') -> hstep h h' (- csp_blocks c).
Proof.
  intros H. cbn [mcp_csp_destroy] in H. apply bind_inv in H as (u1 & h1 & E & H). apply free_sources_hstep in E. apply xfree_hstep in H.
  unfold csp_blocks. hsolve.
Qed.

(** The policy in force: of the table given, or the default one. *)
Definition policy_of (csp_or_null : option mcp_csp_t) : bytes := policy_text (csp_entries (default default_csp csp_or_null)).

Lemma ui_policy_spec c h r h' :
  ui_policy c h = (r, h') -> hstep h h' (tblocks r) /\ (r = Some (policy_of c) \/ (r = None /\ ~ ample h)).
Proof.
  intros H. destruct c as [c|]; cbn [ui_policy] in H.
  - apply bind_inv in H as ([st r1] & h1 & E & H). apply csp_serialize_spec in E as (S1 & _ & Hr). apply ret_inv in H as [-> ->].
    cbn [snd]. split; [done|]. destruct Hr as [[_ -> ]|(_ & -> & ?)]; [by left|by right].
  - apply bind_inv in H as (tmp & h1 & E & H). apply csp_new_spec in E as [[-> S1]|(-> & S1 & Hna)].
    2: { apply ret_inv in H as [-> ->]. split; [done|by right]. }
    apply bind_inv in H as ([st r1] & h2 & E & H). apply csp_serialize_spec in E as (S2 & _ & Hr).
    apply bind_inv in H as (u & h3 & E & H). apply csp_destroy_hstep in E. apply ret_inv in H as [-> ->]. cbn [snd].
    split; [hsolve|]. destruct Hr as [[_ -> ]|(_ & -> & Hna)]; [by left|]. right. split; [done|]. intros A. ample_fwd. done.
Qed.

Lemma ui_cleanup_hstep h u h' : ui_cleanup h = (u, h') -> hstep h h' (-2).
Proof. intros H. unfold ui_cleanup in H. apply bind_inv in H as (u1 & h1 & E & H). apply xfree_hstep in E, H. hsolve. Qed.

Lemma resource_new_spec uri name mime f h r h' :
  mcp_resource_new (Some uri) (Some name) (Some mime) f h = (r, h') ->
  (r = Some (Resource (cstr uri) (cstr name) (Some (cstr mime)) f None) /\ hstep h h' 4) \/ (r = None /\ ~ ample h /\ hstep h h' 0).
Proof.
  intros H. unfold mcp_resource_new in H. apply bind_inv in H as (ok & h1 & E & H). pose proof E as E'. apply xmalloc_hstep in E.
  destruct ok; cbn [negb] in H.
  2: { apply ret_inv in H as [-> ->]. right. split; [done|]. split; [intros A; by apply xmalloc_ample_inv in E'|done]. }
  apply bind_inv in H as (u & h2 & E2 & H). apply bind_inv in H as (n & h3 & E3 & H). apply bind_inv in H as (m & h4 & E4 & H).
  apply strdup_cases in E2 as [S2 Hu], E3 as [S3 Hn], E4 as [S4 Hm]. unfold copied in *.
  destruct (decide (is_Some u /\ is_Some n /\ is_Some m)) as [([u' ->] & [n' ->] & [m' ->])|Hno].
  - apply ret_inv in H as [-> ->]. left. destruct Hu as [[= ->]|(_ & ? & _)]; [|done]. destruct Hn as [[= ->]|(_ & ? & _)]; [|done].
    destruct Hm as [[= ->]|(_ & ? & _)]; [|done]. split; [done|]. cbn in S2, S3, S4. hsolve.
  - assert ((srv_free u ;; srv_free n ;; srv_free m ;; xfree false ;; ret None) h4 = (r, h')) as H'.
    { destruct u, n, m; try exact H. destruct Hno. repeat split; by eexists. }
    clear H. apply bind_inv in H' as (? & k1 & F1 & H'). apply bind_inv in H' as (? & k2 & F2 & H').
    apply bind_inv in H' as (? & k3 & F3 & H'). apply bind_inv in H' as (? & k4 & F4 & H'). apply ret_inv in H' as [-> ->].
    apply srv_free_hstep in F1, F2, F3. apply xfree_hstep in F4. right. split; [done|]. split; [|clear - E S2 S3 S4 F1 F2 F3 F4; hsolve].
    intros A. ample_fwd. apply Hno. destruct Hu as [->|(_ & _ & ?)]; [|done]. destruct Hn as [->|(_ & _ & ?)]; [|done].
    destruct Hm as [->|(_ & _ & ?)]; [|done]. repeat split; by eexists.
Qed.

(** The resource [mcp_apps_ui_resource_new] hands out. *)
Definition ui_resource (uri name html : bytes) (csp : option mcp_csp_t) : mcp_resource_t :=
  Resource (cstr uri) (cstr name) (Some MCP_APPS_UI_MIME) (Some (ui_read (ui_document (policy_of csp) (cstr html)))) (Some ui_cleanup).

Lemma ui_resource_destroy uri name html csp h u h' :
  mcp_resource_destroy (Some (ui_resource uri name html csp)) h = (u, h') -> hstep h h' (-6).
Proof.
  intros H. cbn [mcp_resource_destroy ui_resource cleanup res_mime_type] in H. apply bind_inv in H as (? & h1 & E1 & H). apply ui_cleanup_hstep in E1.
  apply bind_inv in H as (? & h2 & E2 & H). apply bind_inv in H as (? & h3 & E3 & H). apply bind_inv in H as (? & h4 & E4 & H).
  apply srv_free_hstep in E4. apply xfree_hstep in E2, E3, H. cbn in E4. hsolve.
Qed.

Lemma ui_resource_reads uri name html csp : resource_ok (ui_resource uri name html csp).
Proof.
  intros f s u [= <-] h st res s' h' H. apply ui_read_spec in H as (-> & Hw & Hs & Hn & _). do 4 (split; [done|]).
  eapply hstep_eq; [exact Hs|lia].
Qed.

Lemma ui_resource_new_spec uri name html csp h r h' :
  take 5 (cstr uri) = MCP_APPS_UI_SCHEME ->
  mcp_apps_ui_resource_new true (Some uri) (Some name) (Some html) csp h = (r, h') ->
  (r = Some (ui_resource uri name html csp) /\ hstep h h' 6) \/ (r = None /\ ~ ample h /\ hstep h h' 0).
Proof.
  intros Hu H. unfold mcp_apps_ui_resource_new in H. rewrite bool_decide_true in H by done. cbn [negb] in H.
  apply bind_inv in H as (p & h1 & E1 & H). apply ui_policy_spec in E1 as [S1 Hp].
  destruct Hp as [->|[-> Hna]]. 2: { apply ret_inv in H as [-> ->]. right. done. }
  apply bind_inv in H as (d & h2 & E2 & H). pose proof E2 as A2. apply xmalloc_hstep in E2. cbn [tblocks] in S1.
  destruct d; cbn [negb] in H.
  2: { apply bind_inv in H as (? & h3 & E3 & H). apply xfree_hstep in E3. apply ret_inv in H as [-> ->]. right. split; [done|].
       split; [intros A; ample_fwd; by apply xmalloc_ample_inv in A2|hsolve]. }
  apply bind_inv in H as (ok & h3 & E3 & H). pose proof E3 as A3. apply xmalloc_hstep in E3.
  apply bind_inv in H as (? & h4 & E4 & H). apply xfree_hstep in E4. destruct ok; cbn [negb] in H.
  2: { apply bind_inv in H as (? & h5 & E5 & H). apply xfree_hstep in E5. apply ret_inv in H as [-> ->]. right. split; [done|].
       split; [intros A; ample_fwd; by apply xmalloc_ample_inv in A3|hsolve]. }
  cbv zeta in H. apply bind_inv in H as (res & h5 & E5 & H). apply resource_new_spec in E5 as [[-> S5]|(-> & Hna & S5)].
  - apply ret_inv in H as [-> ->]. left. split; [done|]. hsolve.
  - apply bind_inv in H as (? & h6 & E6 & H). apply ui_cleanup_hstep in E6. apply ret_inv in H as [-> ->]. right. split; [done|].
    split; [intros A; ample_fwd; done|hsolve].
Qed.

(** ** Stamps *)

Definition ui_stamp (uri : bytes) : json := JObject [(cs "resourceUri", JString (cstr uri))].

(** The three new values, or NULL and what was created given back. *)
Lemma result_with_ui_spec result l uri h st r h' :
  wf result -> erase result = JObject l -> mcp_apps_result_with_ui (Some result) (Some uri) h = ((st, r), h') ->
  exists o, r = Some o /\ wf o /\ hstep h h' (blocks o - blocks result) /\
  ((st = MCP_OK /\ erase o = JObject (jinsert (cs "_meta") (JObject [(cs "ui", ui_stamp uri)]) l)) \/
   (st = MCP_ERR_NOMEM /\ ~ (ample h /\ utf8_valid (cstr uri) = true))).
Proof.
  intros Hw He H. unfold mcp_apps_result_with_ui in H. destruct result as [| | | | |c ms]; try discriminate He.
  set (result := VObject c ms) in *. clearbody result.
  apply bind_inv in H as (meta & h1 & E1 & H). destruct (object_new_attempt _ _ _ E1) as [S1 P1].
  apply bind_inv in H as (mui & h2 & E2 & H). destruct (object_new_attempt _ _ _ E2) as [S2 P2].
  apply bind_inv in H as (muri & h3 & E3 & H). destruct (string_new_attempt _ _ _ _ E3) as [S3 P3]. clear E1 E2 E3.
  destruct (decide (is_Some meta /\ is_Some mui /\ is_Some muri)) as [([m ->] & [i ->] & [u ->])|Hno].
  2: { assert ((builtin_destroy muri ;; builtin_destroy mui ;; builtin_destroy meta ;; ret (MCP_ERR_NOMEM, Some result)) h3 = ((st, r), h')) as H'.
       { destruct meta, mui, muri; try exact H. destruct Hno. repeat split; by eexists. }
       clear H. repeat (apply bind_inv in H' as (? & ? & ?D & H')). apply builtin_destroy_hstep in D, D0, D1.
       apply ret_inv in H' as [[= -> ->] ->]. exists result. do 2 (split; [done|]). split; [clear - S1 S2 S3 D D0 D1; hsolve|]. right. split; [done|].
       intros [A Hu]. ample_fwd. apply Hno. destruct meta; [|by destruct P1]. destruct mui; [|by destruct P2]. destruct muri; [|by destruct P3].
       repeat split; by eexists. }
  destruct P1 as [Wm Em], P2 as [Wi Ei], P3 as [Wu Eu]. cbn [oblocks] in *.
  apply bind_inv in H as ([st1 r1] & h4 & E4 & H).
  destruct (take_updates i [] (cs "resourceUri") u Wi Ei Wu ltac:(lit) _ _ _ _ E4) as (o1 & -> & W1 & S4 & C1). clear E4.
  destruct C1 as [[-> Eo1]|(Hne & _ & Hna)].
  2: { assert ((builtin_destroy (Some o1) ;; builtin_destroy (Some m) ;; ret (MCP_ERR_NOMEM, Some result)) h4 = ((st, r), h')) as H' by (by destruct st1).
       clear H. drop_all H'. exists result. do 2 (split; [done|]). split; [clear - S1 S2 S3 S4 D D0; hsolve|]. right. split; [done|].
       intros [A _]. ample_fwd. by apply Hna. }
  apply bind_inv in H as ([st2 r2] & h5 & E5 & H).
  destruct (take_updates m [] (cs "ui") o1 Wm Em W1 ltac:(lit) _ _ _ _ E5) as (o2 & -> & W2 & S5 & C2). clear E5.
  destruct C2 as [[-> Eo2]|(Hne & _ & Hna)].
  2: { assert ((builtin_destroy (Some o2) ;; ret (MCP_ERR_NOMEM, Some result)) h5 = ((st, r), h')) as H' by (by destruct st2).
       clear H. drop_all H'. exists result. do 2 (split; [done|]). split; [clear - S1 S2 S3 S4 S5 D; hsolve|]. right. split; [done|].
       intros [A _]. ample_fwd. by apply Hna. }
  apply bind_inv in H as ([st3 r3] & h6 & E6 & H).
  destruct (take_updates result l (cs "_meta") o2 Hw He W2 ltac:(lit) _ _ _ _ E6) as (o3 & -> & W3 & S6 & C3). clear E6.
  exists o3. destruct C3 as [[-> Eo3]|(Hne & _ & Hna)].
  - apply ret_inv in H as [[= -> ->] ->]. do 2 (split; [done|]). split; [clear - S1 S2 S3 S4 S5 S6; hsolve|]. left. split; [done|].
    rewrite Eo3, Eo2, Eo1, Eu. done.
  - assert (ret (MCP_ERR_NOMEM, Some o3) h6 = ((st, r), h')) as H' by (by destruct st3). apply ret_inv in H' as [[= -> ->] ->].
    do 2 (split; [done|]). split; [clear - S1 S2 S3 S4 S5 S6; hsolve|]. right. split; [done|]. intros [A _]. ample_fwd. by apply Hna.
Qed.

(** A stamp is read back. *)
Lemma stamp_read o l uri :
  wf o -> erase o = JObject (jinsert (cs "_meta") (JObject [(cs "ui", ui_stamp uri)]) l) ->
  mcp_apps_result_ui_uri (Some o) = (MCP_OK, Some (cstr uri)).
Proof.
  intros Hw He. unfold mcp_apps_result_ui_uri.
  destruct (member_object_get o _ (cs "_meta") [(cs "ui", ui_stamp uri)] Hw He ltac:(lit)) as (m & -> & Wm & Em); [by rewrite jlookup_jinsert, bool_decide_true|].
  destruct (member_object_get m _ (cs "ui") [(cs "resourceUri", JString (cstr uri))] Wm Em ltac:(lit)) as (i & -> & Wi & Ei); [done|].
  rewrite (get_text i _ (cs "resourceUri") Wi Ei ltac:(lit)). done.
Qed.

(** The members of a tool's [_meta] object. *)
Definition meta_members (t : mcp_tool_t) (l : list (bytes * json)) : Prop :=
  match tool_meta t with Some m => wf m /\ erase m = JObject l | None => l = [] end.

(** With memory a tool's [_meta] gets the stamp and keeps its other
    members. *)
Lemma tool_set_ui_ample t l uri h st r h' :
  ample h -> utf8_valid (cstr uri) = true -> meta_members t l -> mcp_apps_tool_set_ui (Some t) (Some uri) h = ((st, r), h') ->
  st = MCP_OK /\ exists t' m, r = Some t' /\ tool_name t' = tool_name t /\ tool_meta t' = Some m /\ wf m /\
  erase m = JObject (jinsert (cs "ui") (ui_stamp uri) l) /\ hstep h h' (tool_blocks t' - tool_blocks t).
Proof.
  intros A Hu Hm H. unfold mcp_apps_tool_set_ui in H. apply bind_inv in H as (meta & h1 & E1 & H).
  assert (hstep h h1 (oblocks meta) /\ exists m, meta = Some m /\ wf m /\ erase m = JObject l) as (S1 & m & -> & Wm & Em).
  { unfold meta_members in Hm. cbn [mcp_tool_meta] in E1. destruct (tool_meta t) as [m0|].
    - destruct Hm as [W0 E0]. destruct (clone_attempt m0 W0 _ _ _ E1) as [S P]. split; [done|]. destruct meta as [m|]; [|by destruct P].
      exists m. rewrite <- E0. by destruct P.
    - subst l. destruct (object_new_attempt _ _ _ E1) as [S P]. split; [done|]. destruct meta as [m|]; [|by destruct P]. by exists m. }
  clear E1. apply bind_inv in H as (muri & h2 & E2 & H). destruct (string_new_attempt _ _ _ _ E2) as [S2 P2].
  cbn [oblocks] in S1. ample_fwd. destruct muri as [u|]; [|by destruct P2].
  apply bind_inv in H as (ui & h3 & E3 & H). destruct (object_new_attempt _ _ _ E3) as [S3 P3].
  cbn [oblocks] in S2. ample_fwd. destruct ui as [i|]; [|by destruct P3]. destruct P2 as [Wu Eu], P3 as [Wi Ei]. cbn [oblocks] in S3.
  apply bind_inv in H as ([st4 r4] & h4 & E4 & H).
  eapply (set_cases i []) in E4 as (o1 & -> & W1 & [(-> & S4 & Eo1)|(_ & _ & _ & Hna)]); [|by ample_fwd|done|done|done|lit].
  apply bind_inv in H as ([st5 r5] & h5 & E5 & H).
  eapply (set_cases m l) in E5 as (o2 & -> & W2 & [(-> & S5 & Eo2)|(_ & _ & _ & Hna)]); [|by ample_fwd|done|done|done|lit].
  unfold mcp_tool_set_meta in H. assert (builtin_type_of (Some o2) = MCP_JSON_OBJECT) as Ht by (by destruct o2).
  rewrite bool_decide_true in H by done. rewrite andb_false_r in H. apply bind_inv in H as (? & h6 & E6 & H). apply builtin_destroy_hstep in E6.
  apply ret_inv in H as [[= -> ->] ->]. split; [done|]. eexists _, o2. do 4 (split; [done|]). split.
  - rewrite Eo2, Eo1, Eu. done.
  - unfold tool_blocks. cbn [tool_description tool_schema tool_output_schema tool_meta oblocks]. clear - S1 S2 S3 S4 S5 E6. hsolve.
Qed.

(** ** Mounting *)

(** With memory a mount runs its hook once and the matching unmount the other
    one, on the session as it is then; the handle's block is given back. *)
Lemma mount_unmount s f g h st s1 m h1 s2 st' s3 h2 :
  ample h -> mcp_apps_mount (Some s) f g h = ((st, s1, m), h1) -> mcp_apps_unmount m s2 h1 = ((st', s3), h2) ->
  st = MCP_OK /\ st' = MCP_OK /\ m = Some (Mount g) /\
  exists k s1' k', s1 = Some s1' /\ hstep h k 1 /\ call_hook f s k = (s1', h1) /\ call_hook g s2 h1 = (s3, k') /\ hstep k' h2 (-1).
Proof.
  intros A Hm Hu. unfold mcp_apps_mount in Hm. apply bind_inv in Hm as (ok & k & E & Hm). pose proof E as E'. apply xmalloc_hstep in E.
  apply xmalloc_ample_inv in E'; [|done]. subst ok. cbn [negb] in Hm. apply bind_inv in Hm as (s1' & k1 & Ef & Hm).
  apply ret_inv in Hm as [[= -> -> ->] ->]. cbn [mcp_apps_unmount on_unmount] in Hu. apply bind_inv in Hu as (s4 & k' & Eg & Hu).
  apply bind_inv in Hu as (? & k2 & Ex & Hu). apply xfree_hstep in Ex. apply ret_inv in Hu as [[= -> ->] ->].
  do 3 (split; [done|]). exists k, s1', k'. done.
Qed.

(** ** Claims *)

(** The document as it is served: the policy in a meta element, then the
    HTML. *)
Definition with_policy (c : mcp_csp_t) (html : bytes) : bytes :=
  kMetaPrefix ++ policy_text (csp_entries c) ++ kMetaSuffix ++ cstr html.

(** C33: UI resources: for a context, a name, a ui:// URI, a policy whose
    sources hold no double quote and HTML that does not mention
    Content-Security-Policy, creating the resource either fails for lack of
    memory with everything given back, or hands out a resource that owns six
    blocks, all returned by its destruction, and whose reader fits what the
    server asks of a callback: with memory, and when the URI asked for and
    the document are UTF-8, every read is answered by one contents entry with
    the URI, the MCP Apps media type and the document, which is the HTML
    behind a meta element with the policy. *)
Theorem ui_resource_serves uri name html c h r h' :
  take 5 (cstr uri) = MCP_APPS_UI_SCHEME -> contains (cs "Content-Security-Policy") (cstr html) = false ->
  dquote ∉ policy_text (csp_entries c) ->
  mcp_apps_ui_resource_new true (Some uri) (Some name) (Some html) (Some c) h = (r, h') ->
  match r with
  | None => ~ ample h /\ hstep h h' 0
  | Some res =>
      resource_blocks res = 4 /\ hstep h h' 6 /\ resource_ok res /\
      (forall k u k', mcp_resource_destroy (Some res) k = (u, k') -> hstep k k' (- 6)) /\
      exists f, on_read res = Some f /\
        forall s u k st v s' k', ample k -> utf8_valid (cstr u) = true -> utf8_valid (cstr (with_policy c html)) = true ->
          f s u k = ((st, v, s'), k') -> st = MCP_OK /\ s' = s /\ erase <$> v = Some (ui_contents u (with_policy c html))
  end.
Proof.
  intros Hu Hc _ H. assert (ui_document (policy_of (Some c)) (cstr html) = with_policy c html) as Hdoc.
  { unfold ui_document. by rewrite Hc. }
  destruct (ui_resource_new_spec _ _ _ _ _ _ _ Hu H) as [[-> Hs]|(-> & Hna & Hs)]; [|done].
  split; [done|]. split; [exact Hs|]. split; [apply ui_resource_reads|]. split; [intros k u k'; apply ui_resource_destroy|].
  eexists. split; [done|]. intros s u k st v s' k' A Hcu Hcd Hf. rewrite <- Hdoc in Hcd |- *.
  apply ui_read_spec in Hf as (-> & _ & _ & _ & Hok). destruct (Hok A Hcd Hcu) as [-> Hv]. done.
Qed.

Definition page_uri : bytes := cs "ui://page".

Lemma ui_resource_serves_witness :
  exists res h', mcp_apps_ui_resource_new true (Some page_uri) (Some (cs "Page")) (Some (cs "<p>hi</p>")) (Some default_csp) fresh_heap = (Some res, h') /\
  live h' = 6 /\ resource_ok res.
Proof.
  destruct (mcp_apps_ui_resource_new true (Some page_uri) (Some (cs "Page")) (Some (cs "<p>hi</p>")) (Some default_csp) fresh_heap) as [r h'] eqn:E.
  pose proof (ui_resource_serves page_uri (cs "Page") (cs "<p>hi</p>") default_csp fresh_heap r h' eq_refl eq_refl) as Hs.
  destruct r as [res|].
  - exists res, h'. split; [done|]. destruct Hs as (_ & _ & Hok & _); [by apply (bool_decide_unpack _); vm_compute|exact E|].
    split; [|done]. vm_compute in E. injection E as _ <-. done.
  - exfalso. destruct Hs as [Hna _]; [by apply (bool_decide_unpack _); vm_compute|exact E|]. by apply Hna.
Defined.

(** ** Behaviour the documentation does not tell *)

(** The default table sets one directive of the four. *)
Example default_sets_one :
  (mcp_csp_default_deny_new fresh_heap).1 = Some default_csp /\
  policy_text (csp_entries default_csp) = cs "default-src 'none'".
Proof. done. Qed.

(** A NULL value removes a directive, so that the default one can go and no
    policy is left. *)
Example null_removes :
  exists c, (mcp_csp_set (Some default_csp) (Some (cs "default-src")) None fresh_heap).1 = (MCP_OK, Some c) /\
  policy_text (csp_entries c) = [].
Proof. by eexists. Qed.

(** Without a context no resource is ever created. *)
Lemma no_context_no_resource uri name html csp h : (mcp_apps_ui_resource_new false uri name html csp h).1 = None.
Proof.
  destruct (mcp_apps_ui_resource_new false uri name html csp h) as [r h'] eqn:H. cbn [fst]. unfold mcp_apps_ui_resource_new in H.
  by minv H.
Qed.

(** The name is required. *)
Example name_required h : (mcp_apps_ui_resource_new true (Some page_uri) None (Some []) None h).1 = None.
Proof. done. Qed.

(** A mention of the header anywhere in the document keeps the policy out. *)
Example mention_disables :
  ui_document (cs "default-src 'none'") (cs "<p>About Content-Security-Policy</p>") = cs "<p>About Content-Security-Policy</p>".
Proof. by vm_compute. Qed.

(** A double quote among the sources ends the attribute. *)
Example sources_not_escaped :
  exists c, (mcp_csp_set (Some default_csp) (Some (cs "default-src")) (Some ([dquote] ++ cs "><script>")) fresh_heap).1 = (MCP_OK, Some c) /\
  ui_document (policy_of (Some c)) [] = kMetaPrefix ++ cs "default-src " ++ [dquote] ++ cs "><script>" ++ kMetaSuffix.
Proof. eexists. split; by vm_compute. Qed.

(** The stamp replaces the whole [_meta] of a result. *)
Lemma stamp_replaces result l uri h st r h' :
  ample h -> utf8_valid (cstr uri) = true -> wf result -> erase result = JObject l ->
  mcp_apps_result_with_ui (Some result) (Some uri) h = ((st, r), h') ->
  st = MCP_OK /\ exists o l', r = Some o /\ erase o = JObject l' /\ jlookup (cs "_meta") l' = Some (JObject [(cs "ui", ui_stamp uri)]) /\
  mcp_apps_result_ui_uri r = (MCP_OK, Some (cstr uri)).
Proof.
  intros A Hu Hw He H. destruct (result_with_ui_spec _ _ _ _ _ _ _ Hw He H) as (o & -> & Wo & _ & [[-> Eo]|[_ Hna]]); [|by destruct Hna].
  split; [done|]. eexists o, _. split; [done|]. split; [exact Eo|]. split; [by rewrite jlookup_jinsert, bool_decide_true|].
  by eapply stamp_read.
Qed.

Definition plain_tool (f : mcp_tool_handler_fn) : mcp_tool_t := Tool (cs "t") None None None None (HandlerV1 f) MCP_TOOL_VIS_BOTH 0.

(** When the allocation of the [ui] object fails the URI string stays
    allocated: two blocks nobody refers to. *)
Lemma stamp_leaks f : exists h',
  mcp_apps_tool_set_ui (Some (plain_tool f)) (Some page_uri) (refuse_at 3) = ((MCP_ERR_NOMEM, Some (plain_tool f)), h') /\ live h' = 2.
Proof. eexists. split; by vm_compute. Qed.
