(* ===== verification/Http.v ===== *)
(** * HTTP/1.1 messages (src/transport/http.c)

    The buffer-level parser of requests, the request and response builders
    and their serializers.  A string the code owns is the list of bytes it
    copied; what its string functions see of it is [cstr].  A body is
    borrowed: the bytes [body, body + body_len). *)
From S2P Require Import Prelude Heap Steps Double JsonValue Message Loose Forms.

Local Open Scope Z_scope.

Definition MCP_HTTP_MAX_HEADERS : nat := 64.
Definition MCP_HTTP_MAX_LINE : nat := Z.to_nat 8192.
Definition MCP_HTTP_MAX_BODY : Z := Z.shiftl 4 20.
Definition HTTP_MAX_RESP_HEADERS : nat := 16.

Inductive mcp_http_method_t := MCP_HTTP_GET | MCP_HTTP_POST | MCP_HTTP_DELETE | MCP_HTTP_UNKNOWN.

#[global] Instance http_method_eq_dec : EqDecision mcp_http_method_t.
Proof. solve_decision. Defined.

Definition http_header_t : Type := bytes * bytes.

Record mcp_http_request_t := Request {
  http_method : mcp_http_method_t;
  target : bytes;
  headers : list http_header_t;
  http_body : option bytes;
  owned_serialized : option bytes;
}.

Record mcp_http_response_t := Response {
  resp_status : Z;
  reason : bytes;
  resp_headers : list http_header_t;
  resp_body : option bytes;
  resp_serialized : option bytes;
}.

Definition set_headers (hs : list http_header_t) (r : mcp_http_request_t) : mcp_http_request_t :=
  Request (http_method r) (target r) hs (http_body r) (owned_serialized r).

Definition body_len (b : option bytes) : Z := Z.of_nat (length (default [] b)).

(** ** Text *)

Definition CR : byte := x0d.
Definition LF : byte := x0a.
Definition CRLF : bytes := [CR; LF].

(** [dup_n(ctx, s, n)] with [s] the [n] bytes. *)
Definition dup_n (s : bytes) : M (option bytes) :=
  ok <- xmalloc ;; ret (if ok : bool then Some s else None).

(** The offset of the first CRLF of the slice. *)
Fixpoint find_crlf (s : bytes) : option nat :=
  match s with
  | [] => None
  | b :: t => if Byte.eqb b CR && match t with c :: _ => Byte.eqb c LF | [] => false end then Some O else S <$> find_crlf t
  end.

Fixpoint find_headers_end (s : bytes) : option nat :=
  match s with
  | [] => None
  | b :: t => if bool_decide (take 4 s = CRLF ++ CRLF) then Some O else S <$> find_headers_end t
  end.

Definition tolower (b : byte) : byte := if (65 <=? b2z b) && (b2z b <=? 90) then z2b (b2z b + 32) else b.

Fixpoint eq_nocase (a b : bytes) : bool :=
  match a, b with
  | x :: a, y :: b => Byte.eqb (tolower x) (tolower y) && eq_nocase a b
  | [], [] => true
  | _, _ => false
  end.

Definition header_name_eq (a b : bytes) : bool := eq_nocase (cstr a) (cstr b).

Definition is_blank (b : byte) : bool := Byte.eqb b " " || Byte.eqb b x09.

Fixpoint trim_l (s : bytes) : bytes :=
  match s with b :: t => if is_blank b then trim_l t else s | [] => [] end.

Definition trim_r (s : bytes) : bytes := rev (trim_l (rev s)).

(** [strtoul(s, &endp, 10)]: the value and the text from [endp] on; [None]
    when there is no number ([endp == s]). *)
Definition isspace (b : byte) : bool := Byte.eqb b " " || ((9 <=? b2z b) && (b2z b <=? 13)).

Fixpoint skip_space (s : bytes) : bytes :=
  match s with b :: t => if isspace b then skip_space t else s | [] => [] end.

Definition ULONG_MAX : Z := 2 ^ 64 - 1.

Definition strtoul (s : bytes) : option (Z * bytes) :=
  let (neg, s1) := strtod_sign (skip_space (cstr s)) in
  let (ds, rest) := span_digits s1 in
  match ds with
  | [] => None
  | _ =>
      let n := dval ds in
      Some ((if ULONG_MAX <? n then ULONG_MAX else if neg : bool then (- n) mod 2 ^ 64 else n), rest)
  end.

(** ** Requests *)

(** [for (i < n) { free(name); free(value); }]. *)
Fixpoint free_headers (hs : list http_header_t) : M unit :=
  match hs with [] => ret tt | _ :: hs => xfree false ;; xfree false ;; free_headers hs end.

Definition mcp_http_request_destroy (req : option mcp_http_request_t) : M unit :=
  match req with
  | None => ret tt
  | Some r =>
      xfree false ;;
      free_headers (headers r) ;;
      free_text (owned_serialized r) ;;
      xfree false
  end.

Fixpoint find_header (name : bytes) (hs : list http_header_t) : option bytes :=
  match hs with
  | [] => None
  | (n, v) :: hs => if header_name_eq n name then Some v else find_header name hs
  end.

Definition method_named (m : bytes) : mcp_http_method_t :=
  if bool_decide (m = cs "GET") then MCP_HTTP_GET
  else if bool_decide (m = cs "POST") then MCP_HTTP_POST
  else if bool_decide (m = cs "DELETE") then MCP_HTTP_DELETE
  else MCP_HTTP_UNKNOWN.

(** The request line without its CRLF: method, target and version. *)
Definition request_line (line : bytes) : option (mcp_http_method_t * bytes) :=
  match cut " " line with
  | None => None
  | Some (m, rest) =>
      match cut " " rest with
      | None => None
      | Some (t, ver) =>
          if Nat.eqb (length m) 0 || Nat.eqb (length t) 0 || negb (bool_decide (ver = cs "HTTP/1.1")) then None
          else Some (method_named m, t)
      end
  end.

(** One header line: name and value. *)
Definition header_line (line : bytes) : option http_header_t :=
  if Nat.ltb MCP_HTTP_MAX_LINE (length line) then None else
  match cut ":" line with
  | None => None
  | Some (n, v) =>
      let n := trim_r (trim_l n) in
      if Nat.eqb (length n) 0 then None else Some (n, trim_r (trim_l v))
  end.

(** The loop over the header lines.  [s] is the text from [p] to
    [hs_end + 2]; the result says whether to go on, with the request as it
    is then.  When the name cannot be copied the copy of the value is left
    behind. *)
Fixpoint header_loop (fuel : nat) (s : bytes) (req : mcp_http_request_t) : M (bool * mcp_http_request_t) :=
  match fuel with
  | O => ret (false, req)
  | S fuel =>
      if Nat.leb (length s) 2 then ret (true, req) else
      match find_crlf s with
      | None => ret (false, req)
      | Some eol =>
          match header_line (take eol s) with
          | None => ret (false, req)
          | Some (n, v) =>
              if Nat.leb MCP_HTTP_MAX_HEADERS (length (headers req)) then ret (false, req) else
              name <- dup_n n ;;
              value <- dup_n v ;;
              match name, value with
              | Some n, Some v => header_loop fuel (drop (eol + 2) s) (set_headers (headers req ++ [(n, v)]) req)
              | _, _ => free_text name ;; ret (false, req)
              end
          end
      end
  end.

(** The body of a request with these headers, of the text after the empty
    line; [None] when the length is refused. *)
Definition body_of (hs : list http_header_t) (rest : bytes) : option (option bytes) :=
  match find_header (cs "Content-Length") hs with
  | None => Some None
  | Some cl =>
      match strtoul cl with
      | Some (v, []) =>
          if (MCP_HTTP_MAX_BODY <? v) || (Z.of_nat (length rest) <? v) then None
          else Some (if 0 <? v then Some (take (Z.to_nat v) rest) else None)
      | _ => None
      end
  end.

Definition mcp_http_parse_request (data : option bytes) : M (option mcp_http_request_t) :=
  match data with
  | None | Some [] => ret None
  | Some data =>
      match find_headers_end data, find_crlf data with
      | Some hs_end, Some line_end =>
          if Nat.ltb hs_end line_end then ret None else
          match request_line (take line_end data) with
          | None => ret None
          | Some (method, t) =>
              ok <- xmalloc ;;
              if negb ok then ret None else
              t <- dup_n t ;;
              match t with
              | None => xfree false ;; ret None
              | Some t =>
                  let s := drop (line_end + 2) (take (hs_end + 2) data) in
                  r <- header_loop (S (length s)) s (Request method t [] None None) ;;
                  match r with
                  | (false, req) => mcp_http_request_destroy (Some req) ;; ret None
                  | (true, req) =>
                      match body_of (headers req) (drop (hs_end + 4) data) with
                      | None => mcp_http_request_destroy (Some req) ;; ret None
                      | Some b => ret (Some (Request (http_method req) (target req) (headers req) b None))
                      end
                  end
              end
          end
      | _, _ => ret None
      end
  end.

Definition mcp_http_request_method (req : option mcp_http_request_t) : mcp_http_method_t :=
  match req with Some r => http_method r | None => MCP_HTTP_UNKNOWN end.

Definition mcp_http_request_target (req : option mcp_http_request_t) : option bytes := target <$> req.

Definition mcp_http_header (req : option mcp_http_request_t) (name : option bytes) : option bytes :=
  match req, name with Some r, Some name => find_header name (headers r) | _, _ => None end.

(** The pointer and the length. *)
Definition mcp_http_request_body (req : option mcp_http_request_t) : option bytes * Z :=
  match req with Some r => (http_body r, body_len (http_body r)) | None => (None, 0) end.

Definition mcp_http_request_new (method : mcp_http_method_t) (t : option bytes) : M (option mcp_http_request_t) :=
  match t with
  | None => ret None
  | Some t =>
      ok <- xmalloc ;;
      if negb ok then ret None else
      t <- dup_n (cstr t) ;;
      match t with
      | None => xfree false ;; ret None
      | Some t => ret (Some (Request method t [] None None))
      end
  end.

(** The first header of that name gets the value. *)
Fixpoint replace_value (name v : bytes) (hs : list http_header_t) : list http_header_t :=
  match hs with
  | [] => []
  | (n, w) :: hs => if header_name_eq n name then (n, v) :: hs else (n, w) :: replace_value name v hs
  end.

(** The two copies of a new header; the value's copy is left behind when the
    name's fails. *)
Definition dup_header (name value : bytes) : M (option http_header_t) :=
  n <- dup_n (cstr name) ;;
  v <- dup_n (cstr value) ;;
  match n, v with
  | Some n, Some v => ret (Some (n, v))
  | _, _ => free_text n ;; ret None
  end.

Definition mcp_http_request_set_header (req : option mcp_http_request_t) (name value : option bytes)
    : M (mcp_status_t * option mcp_http_request_t) :=
  match req, name, value with
  | Some r, Some name, Some value =>
      match find_header name (headers r) with
      | Some _ =>
          v <- dup_n (cstr value) ;;
          match v with
          | None => ret (MCP_ERR_NOMEM, req)
          | Some v => xfree false ;; ret (MCP_OK, Some (set_headers (replace_value name v (headers r)) r))
          end
      | None =>
          if Nat.leb MCP_HTTP_MAX_HEADERS (length (headers r)) then ret (MCP_ERR_NOMEM, req) else
          nv <- dup_header name value ;;
          match nv with
          | None => ret (MCP_ERR_NOMEM, req)
          | Some nv => ret (MCP_OK, Some (set_headers (headers r ++ [nv]) r))
          end
      end
  | _, _, _ => ret (MCP_ERR_INVALID_ARGUMENT, req)
  end.

(** [body] has at least [len] bytes. *)
Definition mcp_http_request_set_body (req : option mcp_http_request_t) (body : option bytes) (len : nat)
    : mcp_status_t * option mcp_http_request_t :=
  match req with
  | Some r =>
      if bool_decide (body = None) && Nat.ltb 0 len then (MCP_ERR_INVALID_ARGUMENT, req)
      else (MCP_OK, Some (Request (http_method r) (target r) (headers r) (take len <$> body) (owned_serialized r)))
  | None => (MCP_ERR_INVALID_ARGUMENT, req)
  end.

Definition method_str (m : mcp_http_method_t) : bytes :=
  match m with
  | MCP_HTTP_GET => cs "GET"
  | MCP_HTTP_POST => cs "POST"
  | MCP_HTTP_DELETE => cs "DELETE"
  | MCP_HTTP_UNKNOWN => cs "UNKNOWN"
  end.

(** [snprintf] at the end of what is written: NULL when the length is no
    [int], the buffer then freed.  Text that did not fit would be cut and
    the position run past the buffer: the heap counts as corrupt. *)
Definition put_line (cap : Z) (buf : option bytes) (line : bytes) : M (option bytes) :=
  match buf with
  | None => ret None
  | Some buf =>
      if INT_MAX <? Z.of_nat (length line) then xfree false ;; ret None else
      (if Z.of_nat (length buf + length line) <=? cap then ret tt else mark_corrupt) ;;
      ret (Some (buf ++ line))
  end.

Definition header_out (nv : http_header_t) : bytes := cstr nv.1 ++ cs ": " ++ cstr nv.2 ++ CRLF.

Fixpoint put_headers (cap : Z) (buf : option bytes) (hs : list http_header_t) : M (option bytes) :=
  match hs with
  | [] => ret buf
  | nv :: hs => buf <- put_line cap buf (header_out nv) ;; put_headers cap buf hs
  end.

(** The sum of the loop that computes [cap]. *)
Definition headers_size (hs : list http_header_t) : Z :=
  foldr (fun nv n => Z.of_nat (length (cstr nv.1)) + Z.of_nat (length (cstr nv.2)) + 4 + n) 0 hs.

Definition length_line (n : Z) : bytes := cs "Content-Length: " ++ fmt_int n ++ CRLF.

Definition has_length (hs : list http_header_t) : bool := existsb (fun nv => header_name_eq nv.1 (cs "Content-Length")) hs.

(** [memcpy] of the rest, and the terminator. *)
Definition put_rest (cap : Z) (buf rest : bytes) : M bytes :=
  (if Z.of_nat (length buf + length rest) <=? cap then ret tt else mark_corrupt) ;;
  ret (buf ++ rest).

(** The string returned and the request afterwards. *)
Definition mcp_http_request_serialize (req : option mcp_http_request_t) : M (option bytes * option mcp_http_request_t) :=
  match req with
  | None => ret (None, None)
  | Some r =>
      let m := method_str (http_method r) in
      let n := body_len (http_body r) in
      let digits := fmt_int n in
      let cap := 128 + Z.of_nat (length m) + Z.of_nat (length (cstr (target r))) + n + 32 + headers_size (headers r)
                 + Z.of_nat (length digits) in
      ok <- xmalloc ;;
      if negb ok then ret (None, req) else
      out <- put_line cap (Some []) (m ++ cs " " ++ cstr (target r) ++ cs " HTTP/1.1" ++ CRLF) ;;
      out <- put_headers cap out (headers r) ;;
      out <- (if negb (has_length (headers r)) && (bool_decide (http_method r = MCP_HTTP_POST) || (0 <? n))
              then put_line cap out (length_line n) else ret out) ;;
      match out with
      | None => ret (None, req)
      | Some out =>
          if cap <? Z.of_nat (length out + 2) then xfree false ;; ret (None, req) else
          out <- put_rest cap out (CRLF ++ default [] (http_body r)) ;;
          free_text (owned_serialized r) ;;
          ret (Some out, Some (Request (http_method r) (target r) (headers r) (http_body r) (Some out)))
      end
  end.

(** [st = set_header(name, value); if (st != MCP_OK) return st;] when there
    is a value. *)
Definition set_if (req : option mcp_http_request_t) (name : bytes) (value : option bytes)
    (k : option mcp_http_request_t -> M (mcp_status_t * option mcp_http_request_t)) : M (mcp_status_t * option mcp_http_request_t) :=
  match value with
  | None => k req
  | Some _ =>
      r <- mcp_http_request_set_header req (Some name) value ;;
      match r with
      | (MCP_OK, req) => k req
      | r => ret r
      end
  end.

Definition mcp_http_request_set_mcp_metadata (req : option mcp_http_request_t) (protocol_version method name_or_uri : option bytes)
    : M (mcp_status_t * option mcp_http_request_t) :=
  match req with
  | None => ret (MCP_ERR_INVALID_ARGUMENT, None)
  | Some _ =>
      set_if req (cs "MCP-Protocol-Version") (Some (default (cs "2026-07-28") protocol_version)) (fun req =>
      set_if req (cs "Mcp-Method") method (fun req =>
      set_if req (cs "Mcp-Name") name_or_uri (fun req =>
      ret (MCP_OK, req))))
  end.

Definition mcp_http_request_wants_close (req : option mcp_http_request_t) : bool :=
  match mcp_http_header req (Some (cs "Connection")) with
  | None => false
  | Some v =>
      let v := cstr v in
      bool_decide (map tolower (take 5 v) = cs "close") &&
      match drop 5 v with [] => true | c :: _ => Byte.eqb c "," end
  end.

(** ** Responses *)

Definition mcp_http_response_new (status : Z) (reason : option bytes) : M (option mcp_http_response_t) :=
  match reason with
  | None => ret None
  | Some reason =>
      ok <- xmalloc ;;
      if negb ok then ret None else
      r <- dup_n (cstr reason) ;;
      match r with
      | None => xfree false ;; ret None
      | Some r => ret (Some (Response status r [] None None))
      end
  end.

Definition mcp_http_response_set_header (resp : option mcp_http_response_t) (name value : option bytes)
    : M (mcp_status_t * option mcp_http_response_t) :=
  match resp, name, value with
  | Some r, Some name, Some value =>
      if Nat.leb HTTP_MAX_RESP_HEADERS (length (resp_headers r)) then ret (MCP_ERR_NOMEM, resp) else
      nv <- dup_header name value ;;
      match nv with
      | None => ret (MCP_ERR_NOMEM, resp)
      | Some nv => ret (MCP_OK, Some (Response (resp_status r) (reason r) (resp_headers r ++ [nv]) (resp_body r) (resp_serialized r)))
      end
  | _, _, _ => ret (MCP_ERR_INVALID_ARGUMENT, resp)
  end.

Definition mcp_http_response_set_body (resp : option mcp_http_response_t) (body : option bytes) (len : nat)
    : mcp_status_t * option mcp_http_response_t :=
  match resp with
  | Some r =>
      if bool_decide (body = None) && Nat.ltb 0 len then (MCP_ERR_INVALID_ARGUMENT, resp)
      else (MCP_OK, Some (Response (resp_status r) (reason r) (resp_headers r) (take len <$> body) (resp_serialized r)))
  | None => (MCP_ERR_INVALID_ARGUMENT, resp)
  end.

Definition mcp_http_response_serialize (resp : option mcp_http_response_t) : M (option bytes * option mcp_http_response_t) :=
  match resp with
  | None => ret (None, None)
  | Some r =>
      let n := body_len (resp_body r) in
      let digits := fmt_int n in
      let cap := 128 + Z.of_nat (length (cstr (reason r))) + n + 32 + headers_size (resp_headers r) + Z.of_nat (length digits) in
      ok <- xmalloc ;;
      if negb ok then ret (None, resp) else
      out <- put_line cap (Some []) (cs "HTTP/1.1 " ++ fmt_int (resp_status r) ++ cs " " ++ cstr (reason r) ++ CRLF) ;;
      out <- put_headers cap out (resp_headers r) ;;
      out <- put_line cap out (length_line n ++ CRLF) ;;
      match out with
      | None => ret (None, resp)
      | Some out =>
          out <- put_rest cap out (default [] (resp_body r)) ;;
          free_text (resp_serialized r) ;;
          ret (Some out, Some (Response (resp_status r) (reason r) (resp_headers r) (resp_body r) (Some out)))
      end
  end.

Definition mcp_http_response_destroy (resp : option mcp_http_response_t) : M unit :=
  match resp with
  | None => ret tt
  | Some r =>
      xfree false ;;
      free_headers (resp_headers r) ;;
      free_text (resp_serialized r) ;;
      xfree false
  end.
