(* ===== verification/HttpText.v ===== *)
(** * The text of HTTP requests

    What a request is as text, independently of how it is scanned: a request
    line, header lines, an empty line and a body as long as the headers say.
    [mcp_http_parse_request] accepts these texts and, of the buffers without
    NUL bytes, oversized request lines, signed or repeated lengths, no others;
    what the client serializes is read back by it. *)
From S2P Require Import Prelude Heap Steps Double JsonValue JsonParse JsonGrammar JsonNumber JsonSerialize Message Builders RouteLaws MrtrState Loose Forms Http.

Local Open Scope Z_scope.

Lemma notin_app (x : byte) l k : x ∉ l -> x ∉ k -> x ∉ l ++ k.
Proof. intros Hl Hk [?|?]%elem_of_app; done. Qed.

(** ** Lines *)

Definition crlf_free (s : bytes) : Prop := find_crlf s = None.

Lemma find_crlf_cons b t : find_crlf (b :: t) = None -> find_crlf t = None.
Proof. cbn [find_crlf]. destruct (_ && _); [done|]. by destruct (find_crlf t). Qed.

Lemma find_crlf_app l r : crlf_free l -> find_crlf (l ++ CRLF ++ r) = Some (length l).
Proof.
  unfold crlf_free. induction l as [|b l IH]; intros Hl; [done|]. pose proof (find_crlf_cons _ _ Hl) as Hl'. specialize (IH Hl').
  cbn [app find_crlf length]. rewrite IH. cbn [find_crlf] in Hl. destruct (Byte.eqb b CR); cbn [andb] in *; [|done].
  destruct l as [|c l]; [done|]. cbn [app] in *. by destruct (Byte.eqb c LF).
Qed.

Lemma find_crlf_inv s : forall n, find_crlf s = Some n ->
  exists l r, s = l ++ CRLF ++ r /\ length l = n /\ crlf_free l.
Proof.
  induction s as [|b s IH]; intros n H; [done|]. cbn [find_crlf] in H.
  destruct (Byte.eqb b CR && _) eqn:E.
  - injection H as <-. apply andb_true_iff in E as [Eb Ec]. apply byte_eqb_eq in Eb as ->. destruct s as [|c s]; [done|].
    apply byte_eqb_eq in Ec as ->. by exists [], s.
  - apply fmap_Some in H as (m & Hm & ->). destruct (IH m Hm) as (l & r & -> & <- & Hf). exists (b :: l), r.
    split; [done|]. split; [done|]. unfold crlf_free in *. cbn [find_crlf]. rewrite Hf.
    destruct (Byte.eqb b CR); cbn [andb] in *; [|done]. destruct l as [|c l]; [done|]. cbn [app] in E. by rewrite E.
Qed.

Lemma find_crlf_min s : forall n l r, find_crlf s = Some n -> s = l ++ CRLF ++ r -> (n <= length l)%nat.
Proof.
  induction s as [|b s IH]; intros n l r H Hs; [by destruct l|]. cbn [find_crlf] in H.
  destruct (Byte.eqb b CR && _) eqn:E; [injection H as <-; lia|]. apply fmap_Some in H as (m & Hm & ->).
  destruct l as [|c l]; [exfalso|]; injection Hs as -> Hs; [by rewrite Hs in E|]. specialize (IH m l r Hm Hs). cbn [length]. lia.
Qed.

Lemma blank_line_at s : take 4 s = CRLF ++ CRLF <-> exists r, s = CRLF ++ CRLF ++ r.
Proof.
  split; [|by intros [r ->]]. intros H. exists (drop 4 s). rewrite app_assoc, <- H. by rewrite take_drop.
Qed.

(** The first empty line. *)
Lemma find_end_inv s : forall n, find_headers_end s = Some n ->
  (exists l r, s = l ++ CRLF ++ CRLF ++ r /\ length l = n) /\
  forall l r, s = l ++ CRLF ++ CRLF ++ r -> (n <= length l)%nat.
Proof.
  induction s as [|b s IH]; intros n H; [done|]. cbn [find_headers_end] in H.
  destruct (bool_decide_reflect (take 4 (b :: s) = CRLF ++ CRLF)) as [E|E].
  - injection H as <-. split; [|lia]. apply blank_line_at in E as [r Er]. by exists [], r.
  - apply fmap_Some in H as (m & Hm & ->). destruct (IH m Hm) as [(l & r & -> & <-) Hmin]. split; [by exists (b :: l), r|].
    intros l' r' Hs. destruct l' as [|c l']; [exfalso; apply E, blank_line_at; by exists r'|]. injection Hs as -> Hs.
    apply Hmin in Hs. cbn [length]. lia.
Qed.

Lemma find_end_skip l r :
  crlf_free l -> (forall r', r <> CRLF ++ r') ->
  find_headers_end (l ++ CRLF ++ r) = (fun n => (length l + 2 + n)%nat) <$> find_headers_end r.
Proof.
  intros Hl Hr. induction l as [|b l IH].
  - cbn [app find_headers_end CRLF]. rewrite bool_decide_false.
    2: { intros E. change (CR :: LF :: r) with (CRLF ++ r) in E. apply blank_line_at in E as [r' E]. apply app_inv_head in E. by destruct (Hr r'). }
    rewrite bool_decide_false by (cbn; done). by destruct (find_headers_end r).
  - pose proof (find_crlf_cons _ _ Hl) as Hl'. cbn [app find_headers_end]. rewrite bool_decide_false.
    + rewrite (IH Hl'). by destruct (find_headers_end r).
    + intros E. change (b :: l ++ CRLF ++ r) with ((b :: l) ++ CRLF ++ r) in E. apply blank_line_at in E as [r' E].
      unfold crlf_free in Hl. cbn [find_crlf] in Hl. destruct l as [|c l]; cbn [app CRLF] in E; [by injection E|].
      injection E as -> -> _. by rewrite !(proj2 (byte_eqb_eq _ _) eq_refl) in Hl.
Qed.

Lemma find_end_here l r : crlf_free l -> find_headers_end (l ++ CRLF ++ CRLF ++ r) = Some (length l).
Proof.
  intros Hl. induction l as [|b l IH]; [done|]. pose proof (find_crlf_cons _ _ Hl) as Hl'. cbn [app find_headers_end].
  rewrite bool_decide_false; [by rewrite (IH Hl')|].
  intros E. change (b :: l ++ CRLF ++ CRLF ++ r) with ((b :: l) ++ CRLF ++ CRLF ++ r) in E. apply blank_line_at in E as [r' E].
  unfold crlf_free in Hl. cbn [find_crlf] in Hl. destruct l as [|c l]; cbn [app CRLF] in E; [by injection E|].
  injection E as -> -> _. by rewrite !(proj2 (byte_eqb_eq _ _) eq_refl) in Hl.
Qed.

(** ** Header lines *)

Definition blanks (s : bytes) : Prop := Forall (fun b => is_blank b = true) s.

(** No blank at either end. *)
Definition tight (s : bytes) : Prop :=
  (forall b t, s = b :: t -> is_blank b = false) /\ (forall b t, s = t ++ [b] -> is_blank b = false).

Lemma trim_l_blanks a s : blanks a -> (forall b t, s = b :: t -> is_blank b = false) -> trim_l (a ++ s) = s.
Proof.
  intros Ha Hs. induction Ha as [|b a Hb _ IH]; cbn [app trim_l]; [|rewrite Hb; exact IH].
  destruct s as [|b t]; [done|]. cbn [trim_l]. by rewrite (Hs b t eq_refl).
Qed.

Lemma trim_l_inv s : exists a, blanks a /\ s = a ++ trim_l s /\ forall b t, trim_l s = b :: t -> is_blank b = false.
Proof.
  induction s as [|b s IH]; [exists []; split; [constructor|done]|]. cbn [trim_l]. destruct (is_blank b) eqn:E.
  - destruct IH as (a & Ha & Hs & Hb). exists (b :: a). split; [by constructor|]. split; [cbn; by rewrite <- Hs|done].
  - exists []. split; [constructor|]. split; [done|]. by intros ? ? [= -> _].
Qed.

Lemma blanks_rev a : blanks a -> blanks (rev a).
Proof. intros H. apply Forall_forall. intros x Hx%list_elem_of_In%in_rev%list_elem_of_In. by eapply Forall_forall in H. Qed.

Lemma trim_spec s v : trim_r (trim_l s) = v <-> exists a d, blanks a /\ blanks d /\ s = a ++ v ++ d /\ tight v.
Proof.
  split.
  - intros <-. destruct (trim_l_inv s) as (a & Ha & Hs & Hb). unfold trim_r.
    destruct (trim_l_inv (rev (trim_l s))) as (d & Hd & Hr & Hb'). set (w := trim_l (rev (trim_l s))) in *.
    assert (trim_l s = rev w ++ rev d) as E by (rewrite <- rev_app_distr, <- Hr; by rewrite rev_involutive).
    exists a, (rev d). split; [done|]. split; [by apply blanks_rev|]. split; [by rewrite Hs at 1; rewrite E|]. split.
    + intros b t Ht. apply (Hb b (t ++ rev d)). by rewrite E, Ht.
    + intros b t Ht. apply (Hb' b (rev t)). rewrite <- (rev_involutive w), Ht. by rewrite rev_app_distr.
  - intros (a & d & Ha & Hd & -> & Ht). destruct v as [|x v].
    + cbn [app]. assert (trim_l (a ++ d) = []) as ->; [|done]. rewrite <- (app_nil_r (a ++ d)). apply trim_l_blanks; [by apply Forall_app|done].
    + rewrite trim_l_blanks; [|done|]; [|intros b t [= -> _]; by eapply (proj1 Ht)]. unfold trim_r. rewrite rev_app_distr, trim_l_blanks.
      * apply rev_involutive.
      * by apply blanks_rev.
      * intros b t E. apply (proj2 Ht b (rev t)). rewrite <- (rev_involutive (x :: v)), E. done.
Qed.

Definition tightb (s : bytes) : bool :=
  match s with [] => true | b :: _ => negb (is_blank b) && negb (is_blank (List.last s x00)) end.

Lemma tightb_ok s : tightb s = true -> tight s.
Proof.
  intros H. split; intros b t ->; cbn [tightb] in H.
  - apply andb_true_iff in H as [H _]. by apply negb_true_iff.
  - assert (negb (is_blank (List.last (t ++ [b]) x00)) = true) as Hl by (destruct t; by apply andb_true_iff in H as [_ H]).
    rewrite last_last in Hl. by apply negb_true_iff.
Qed.

(** A header line: the name and the value with blanks around them. *)
Definition header_text (line : bytes) (nv : http_header_t) : Prop :=
  exists a b c d, line = a ++ nv.1 ++ b ++ ":"%byte :: c ++ nv.2 ++ d /\ blanks a /\ blanks b /\ blanks c /\ blanks d /\
  nv.1 <> [] /\ (":"%byte ∉ nv.1) /\ tight nv.1 /\ tight nv.2 /\ (length line <= MCP_HTTP_MAX_LINE)%nat.

Lemma blanks_no_colon a : blanks a -> ":"%byte ∉ a.
Proof. intros Ha Hin. eapply Forall_forall in Ha; [|exact Hin]. done. Qed.

Lemma header_line_iff line nv : header_line line = Some nv <-> header_text line nv.
Proof.
  destruct nv as [n v]. unfold header_line, header_text. cbn [fst snd]. split.
  - destruct (Nat.ltb_spec MCP_HTTP_MAX_LINE (length line)); [done|]. destruct (cut ":" line) as [[p q]|] eqn:E; [|done].
    apply cut_some in E as [-> Hp]. destruct (Nat.eqb_spec (length (trim_r (trim_l p))) 0) as [|E0]; [done|]. intros [= Hn Hv].
    apply trim_spec in Hn as (a & b & Ha & Hb & -> & Tn). apply trim_spec in Hv as (c & d & Hc & Hd & -> & Tv).
    exists a, b, c, d. split; [by rewrite <- !app_assoc|]. do 4 (split; [done|]).
    assert (trim_r (trim_l (a ++ n ++ b)) = n) as En by (apply trim_spec; by exists a, b). rewrite En in E0.
    split; [by intros ->|]. split; [set_solver|]. done.
  - intros (a & b & c & d & Hl & Ha & Hb & Hc & Hd & Hn & Hcn & Tn & Tv & Hlen).
    destruct (Nat.ltb_spec MCP_HTTP_MAX_LINE (length line)); [lia|].
    assert (cut ":" line = Some (a ++ n ++ b, c ++ v ++ d)) as ->.
    { apply cut_some. split; [rewrite Hl; by rewrite <- !app_assoc|]. repeat apply notin_app; first [done|by apply blanks_no_colon]. }
    assert (trim_r (trim_l (a ++ n ++ b)) = n) as -> by (apply trim_spec; by exists a, b).
    assert (trim_r (trim_l (c ++ v ++ d)) = v) as -> by (apply trim_spec; by exists c, d).
    by destruct n.
Qed.

(** The lines between the request line and the empty line. *)
Inductive header_block : bytes -> list http_header_t -> Prop :=
| block_nil : header_block [] []
| block_cons line nv s hs :
    crlf_free line -> header_text line nv -> header_block s hs -> header_block (line ++ CRLF ++ s) (nv :: hs).

Lemma header_text_long line nv : header_text line nv -> (2 <= length line)%nat.
Proof.
  intros (a & b & c & d & -> & _ & _ & _ & _ & Hn & _). destruct (nv.1); [done|]. repeat (rewrite ?length_app; cbn [length]). lia.
Qed.

(** The first empty line is the one after the block. *)
Lemma block_end s hs : header_block s hs -> forall line rest, crlf_free line ->
  find_headers_end (line ++ CRLF ++ s ++ CRLF ++ rest) = Some (length line + length s)%nat.
Proof.
  induction 1 as [|l nv s hs Hl Ht _ IH]; intros line rest Hf.
  - cbn [app]. change (length []) with O. rewrite Nat.add_0_r. by apply find_end_here.
  - rewrite find_end_skip; [|done|].
    + rewrite <- !app_assoc. rewrite (IH l rest Hl). cbn [fmap option_fmap option_map]. rewrite !length_app. cbn [length CRLF]. f_equal. lia.
    + intros r' E. apply header_text_long in Ht. rewrite <- !app_assoc in E. destruct l as [|x [|y l]]; [cbn in Ht; lia..|].
      cbn [app CRLF] in E. injection E as -> -> _. unfold crlf_free in Hl. cbn [find_crlf] in Hl.
      by rewrite !(proj2 (byte_eqb_eq _ _) eq_refl) in Hl.
Qed.

(** A block ends its last line. *)
Lemma block_tail s hs : header_block s hs -> forall line, exists y, line ++ CRLF ++ s = y ++ CRLF.
Proof.
  induction 1 as [|l nv s hs Hl Ht _ IH]; intros line; [exists line; by rewrite app_nil_r|].
  destruct (IH (line ++ CRLF ++ l)) as [y Hy]. exists y. by rewrite <- Hy, <- !app_assoc.
Qed.

(** ** Blocks of memory *)

Definition headers_blocks (hs : list http_header_t) : Z := 2 * Z.of_nat (length hs).

(** The request, its target, its headers and the serialized text. *)
Definition request_blocks (r : mcp_http_request_t) : Z := 2 + headers_blocks (headers r) + tblocks (owned_serialized r).

Lemma dup_n_spec s h r h' : dup_n s h = (r, h') -> cstep h h' (tblocks r) /\ ((r = Some s) \/ (r = None /\ ~ ample h)).
Proof.
  intros H. unfold dup_n in H. apply bind_inv in H as (ok & h1 & E & H). apply ret_inv in H as [-> ->]. pose proof E as E'.
  apply xmalloc_cstep in E. destruct ok; (split; [done|]); [by left|]. right. split; [done|]. intros A. by apply xmalloc_ample_inv in E'.
Qed.

Lemma free_text_cstep s h u h' : free_text s h = (u, h') -> cstep h h' (- tblocks s).
Proof. intros H. unfold free_text in H. apply xfree_cstep in H. by destruct s. Qed.

Lemma free_headers_cstep hs : forall h u h', free_headers hs h = (u, h') -> cstep h h' (- headers_blocks hs).
Proof.
  unfold headers_blocks. induction hs as [|nv hs IH]; intros h u h' H; cbn [free_headers] in H.
  - apply ret_inv in H as [_ ->]. cstill.
  - apply bind_inv in H as (? & h1 & E1 & H). apply bind_inv in H as (? & h2 & E2 & H). apply IH in H. cbn [length].
    apply xfree_cstep in E1, E2. clear IH. csolve.
Qed.

Lemma request_destroy_cstep r h u h' : mcp_http_request_destroy (Some r) h = (u, h') -> cstep h h' (- request_blocks r).
Proof.
  intros H. cbn [mcp_http_request_destroy] in H. apply bind_inv in H as (? & h1 & E1 & H). apply bind_inv in H as (? & h2 & E2 & H).
  apply bind_inv in H as (? & h3 & E3 & H). apply free_headers_cstep in E2. apply free_text_cstep in E3. unfold request_blocks. csolve.
Qed.

(** ** The loop over the lines *)

(** What the loop may have left behind: one block, and only when the
    allocator refused. *)
Definition lost (k : Z) (h : heap) : Prop := k = 0 \/ (k = 1 /\ ~ ample h).

Definition loop_post (fuel : nat) (s : bytes) (req : mcp_http_request_t) (h : heap) (b : bool) (req' : mcp_http_request_t) (h' : heap) : Prop :=
  (exists k, cstep h h' (request_blocks req' - request_blocks req + k) /\ lost k h /\ (b = true -> k = 0)) /\
  (exists hs, req' = set_headers (headers req ++ hs) req /\
     (b = true -> exists s0 s1, s = s0 ++ s1 /\ (length s1 <= 2)%nat /\ header_block s0 hs /\
        (hs = [] \/ length (headers req) + length hs <= MCP_HTTP_MAX_HEADERS)%nat)) /\
  (ample h -> forall hs, header_block s hs -> (length s < fuel)%nat -> (length (headers req) + length hs <= MCP_HTTP_MAX_HEADERS)%nat ->
     b = true /\ req' = set_headers (headers req ++ hs) req).

Lemma set_no_headers req : set_headers (headers req ++ []) req = req.
Proof. rewrite app_nil_r. by destruct req. Qed.

Lemma loop_fails fuel s req h k h' :
  cstep h h' k -> lost k h ->
  (ample h -> forall hs, header_block s hs -> (length s < fuel)%nat -> (length (headers req) + length hs <= MCP_HTTP_MAX_HEADERS)%nat -> False) ->
  loop_post fuel s req h false req h'.
Proof.
  intros Hs Hk Hno. split; [exists k; split; [eapply cstep_eq; [exact Hs|lia]|done]|].
  split; [exists []; split; [by rewrite set_no_headers|done]|]. intros A hs Hb Hf Hl. by destruct (Hno A hs Hb Hf Hl).
Qed.

(** What a block that does not start with a line of its own says. *)
Lemma block_first s hs : header_block s hs -> (2 < length s)%nat ->
  exists line nv s' hs', s = line ++ CRLF ++ s' /\ hs = nv :: hs' /\ find_crlf s = Some (length line) /\ header_line line = Some nv /\ header_block s' hs'.
Proof.
  intros Hb Hl. destruct Hb as [|line nv s hs Hf Ht Hb]; [cbn in Hl; lia|]. exists line, nv, s, hs. do 2 (split; [done|]).
  split; [by apply find_crlf_app|]. split; [by apply header_line_iff|done].
Qed.

Lemma drop_line line s : drop (length line + 2) (line ++ CRLF ++ s) = s.
Proof. rewrite app_assoc. rewrite drop_app_length'; [done|]. rewrite length_app. cbn. lia. Qed.

Lemma header_loop_spec fuel : forall s req h b req' h',
  header_loop fuel s req h = ((b, req'), h') -> loop_post fuel s req h b req' h'.
Proof.
  induction fuel as [|fuel IH]; intros s req h b req' h' H; cbn [header_loop] in H.
  { apply ret_inv in H as [[= -> ->] ->]. eapply loop_fails; [apply cstep_refl|by left|]. lia. }
  destruct (Nat.leb_spec (length s) 2) as [Hshort|Hlong].
  { apply ret_inv in H as [[= -> ->] ->]. split; [exists 0; split; [cstill|by split; [left|]]|].
    split; [exists []; split; [by rewrite set_no_headers|]; intros _; exists [], s; do 2 (split; [done|]); split; [constructor|by left]|].
    intros _ hs Hb _ _. destruct Hb as [|l nv s hs Hl Ht Hb]; [by rewrite set_no_headers|].
    apply header_text_long in Ht. rewrite !length_app in Hshort. cbn in Hshort. lia. }
  destruct (find_crlf s) as [eol|] eqn:Ecr.
  2: { apply ret_inv in H as [[= -> ->] ->]. eapply loop_fails; [apply cstep_refl|by left|]. intros _ hs Hb _ _.
       destruct (block_first s hs Hb Hlong) as (? & ? & ? & ? & _ & _ & ? & _). congruence. }
  apply find_crlf_inv in Ecr as Hs. destruct Hs as (line & s' & -> & <- & Hfree).
  rewrite take_app_length in H. rewrite drop_line in H. destruct (header_line line) as [[n v]|] eqn:El.
  2: { apply ret_inv in H as [[= -> ->] ->]. eapply loop_fails; [apply cstep_refl|by left|]. intros _ hs Hb _ _.
       destruct (block_first _ hs Hb Hlong) as (line' & ? & ? & ? & E & _ & Hc & Hh & _). rewrite Ecr in Hc. injection Hc as Hc.
       apply app_inj_1 in E as [<- _]; [congruence|done]. }
  destruct (Nat.leb_spec MCP_HTTP_MAX_HEADERS (length (headers req))) as [Hfull|Hroom].
  { apply ret_inv in H as [[= -> ->] ->]. eapply loop_fails; [apply cstep_refl|by left|]. intros _ hs Hb _ Hl.
    destruct (block_first _ hs Hb Hlong) as (? & ? & ? & ? & _ & -> & _). cbn [length] in Hl. lia. }
  apply bind_inv in H as (nm & h1 & E1 & H). apply dup_n_spec in E1 as [S1 Hn].
  apply bind_inv in H as (val & h2 & E2 & H). apply dup_n_spec in E2 as [S2 Hv].
  destruct Hn as [-> |[-> Hna]].
  2: { assert ((free_text None ;; ret (false, req)) h2 = ((b, req'), h')) as H' by (by destruct val). clear H.
       apply bind_inv in H' as (? & h3 & E3 & H'). apply free_text_cstep in E3. apply ret_inv in H' as [[= -> ->] ->].
       eapply (loop_fails _ _ _ _ (tblocks val)); [cbn [tblocks] in *; csolve| |done]. destruct val; [by right|by left]. }
  destruct Hv as [-> |[-> Hna]].
  2: { apply bind_inv in H as (? & h3 & E3 & H). apply free_text_cstep in E3. apply ret_inv in H as [[= -> ->] ->].
       eapply (loop_fails _ _ _ _ 0); [cbn [tblocks] in *; csolve|by left|]. intros A. destruct Hna. by eapply ample_cstep. }
  apply IH in H as ((k & Sk & Hk & Hk0) & (hs & -> & Hok) & Hc). cbn [tblocks] in S1, S2.
  assert (ample h -> ample h2) as Hamp by (intros A; by eapply ample_cstep, ample_cstep).
  split; [|split].
  - exists k. split; [|split; [|done]].
    + unfold request_blocks, headers_blocks in *. cbn [set_headers headers owned_serialized] in *. rewrite !length_app in *. cbn [length] in *.
      clear - S1 S2 Sk. csolve.
    + destruct Hk as [?|[? Hna]]; [by left|]. right. split; [done|]. auto.
  - exists ((n, v) :: hs). cbn [set_headers headers http_method target http_body owned_serialized]. rewrite <- app_assoc. split; [done|].
    intros Hb. destruct (Hok Hb) as (s0 & s1 & -> & Hs1 & Hblk & Hl). exists (line ++ CRLF ++ s0), s1. split; [by rewrite <- !app_assoc|].
    split; [done|]. split; [constructor; [done|by apply header_line_iff|done]|]. right. cbn [set_headers headers] in Hl. rewrite length_app in Hl. cbn [length] in *.
    destruct Hl as [-> |Hl]; cbn [length]; lia.
  - intros A hs' Hb Hf Hl. destruct (block_first _ hs' Hb Hlong) as (line' & nv & s2 & hs2 & E & -> & Hc' & Hh & Hb2).
    rewrite Ecr in Hc'. injection Hc' as Hc'. apply app_inj_1 in E as [<- E]; [|done]. apply app_inv_head in E as <-.
    rewrite El in Hh. injection Hh as <-. cbn [length] in Hl. rewrite !length_app in Hf. cbn [length CRLF] in Hf.
    destruct (Hc (Hamp A) hs2 Hb2) as [-> Hr]; [lia|cbn [set_headers headers]; rewrite length_app; cbn [length]; lia|]. split; [done|].
    rewrite Hr. cbn [set_headers headers http_method target http_body owned_serialized]. by rewrite <- app_assoc.
Qed.

(** ** Requests *)

(** The request line. *)
Definition line_text (line : bytes) (m : mcp_http_method_t) (t : bytes) : Prop :=
  exists mn, line = mn ++ cs " " ++ t ++ cs " HTTP/1.1" /\ mn <> [] /\ (" "%byte ∉ mn) /\ t <> [] /\ (" "%byte ∉ t) /\ m = method_named mn.

Lemma request_line_iff line m t : request_line line = Some (m, t) <-> line_text line m t.
Proof.
  unfold request_line, line_text. split.
  - destruct (cut " " line) as [[mn rest]|] eqn:E1; [|done]. destruct (cut " " rest) as [[t' ver]|] eqn:E2; [|done].
    apply cut_some in E1 as [-> Hm], E2 as [-> Ht]. destruct (Nat.eqb_spec (length mn) 0) as [|N1]; [done|].
    destruct (Nat.eqb_spec (length t') 0) as [|N2]; [done|]. cbn [orb].
    destruct (bool_decide_reflect (ver = cs "HTTP/1.1")) as [-> |]; [|done]. cbn [negb]. intros [= <- <-]. exists mn.
    split; [done|]. split; [by intros ->|]. split; [done|]. split; [by intros ->|]. done.
  - intros (mn & -> & Hm & Hsm & Ht & Hst & ->).
    assert (cut " " (mn ++ cs " " ++ t ++ cs " HTTP/1.1") = Some (mn, t ++ cs " HTTP/1.1")) as -> by (apply cut_some; done).
    assert (cut " " (t ++ cs " HTTP/1.1") = Some (t, cs "HTTP/1.1")) as -> by (apply cut_some; done).
    destruct mn; [done|]. destruct t; [done|]. cbn [length Nat.eqb orb]. by rewrite bool_decide_true.
Qed.

(** A buffer that holds a request; what follows the body is not looked
    at. *)
Definition http_text (data : bytes) (m : mcp_http_method_t) (t : bytes) (hs : list http_header_t) (b : option bytes) : Prop :=
  exists line s rest, data = line ++ CRLF ++ s ++ CRLF ++ rest /\ crlf_free line /\ line_text line m t /\ header_block s hs /\
  (length hs <= MCP_HTTP_MAX_HEADERS)%nat /\ body_of hs rest = Some b.

Lemma http_text_scan data m t hs b :
  http_text data m t hs b -> exists line s rest, data = line ++ CRLF ++ s ++ CRLF ++ rest /\
  find_headers_end data = Some (length line + length s)%nat /\ find_crlf data = Some (length line) /\
  request_line line = Some (m, t) /\ header_block s hs /\ (length hs <= MCP_HTTP_MAX_HEADERS)%nat /\ body_of hs rest = Some b.
Proof.
  intros (line & s & rest & -> & Hf & Hl & Hb & Hn & Hbody). exists line, s, rest. split; [done|].
  split; [by eapply block_end|]. split; [by apply find_crlf_app|]. split; [by apply request_line_iff|]. done.
Qed.

Lemma eq_nocase_iff a : forall b, eq_nocase a b = true <-> map tolower a = map tolower b.
Proof.
  induction a as [|x a IH]; intros [|y b]; cbn [eq_nocase map]; try done. rewrite andb_true_iff, IH, byte_eqb_eq. split; [by intros [-> ->]|].
  by intros [= -> ->].
Qed.

Lemma name_eq_iff a b : header_name_eq a b = true <-> map tolower (cstr a) = map tolower (cstr b).
Proof. apply eq_nocase_iff. Qed.

(** A number without blanks or a sign. *)
Lemma strtoul_digits d w : isdigit d = true -> has_nul (d :: w) = false ->
  strtoul (d :: w) = let (ds, rest) := span_digits (d :: w) in Some (Z.min (dval ds) ULONG_MAX, rest).
Proof.
  intros Hd H0. unfold strtoul. rewrite (cstr_no_nul _ H0).
  assert (skip_space (d :: w) = d :: w) as -> by (cbn [skip_space]; unfold isdigit in Hd; unfold isspace; bool_props; by destruct d).
  assert (strtod_sign (d :: w) = (false, d :: w)) as -> by (cbn; unfold isdigit in Hd; bool_props; by destruct d).
  cbn [span_digits]. rewrite Hd. destruct (span_digits w) as [ds rest]. cbv zeta. do 2 f_equal. destruct (Z.ltb_spec ULONG_MAX (dval (d :: ds))); lia.
Qed.

Lemma strtoul_all v : v <> [] -> alldigits v -> strtoul v = Some (Z.min (dval v) ULONG_MAX, []).
Proof.
  intros Hv Ha. destruct v as [|d w]; [done|]. rewrite strtoul_digits; [|by apply Forall_cons in Ha as [? _]|by apply digits_no_nul].
  assert (span_digits (d :: w) = (d :: w, [])) as -> by (rewrite <- (app_nil_r (d :: w)) at 1; by apply span_digits_eq). done.
Qed.

Lemma strtoul_fmt n : 0 <= n <= ULONG_MAX -> strtoul (fmt_int n) = Some (n, []).
Proof.
  intros Hn. destruct (fmt_int_digits n) as (Ha & Hd & Hne); [lia|]. rewrite strtoul_all, Hd by done. do 2 f_equal. lia.
Qed.

(** ** What a request is

    The reading of [Content-Length] as the header file describes it: decimal
    digits and nothing else, given once. *)
Definition is_length (nv : http_header_t) : Prop := map tolower nv.1 = map tolower (cs "Content-Length").

Inductive body_text : list http_header_t -> bytes -> option bytes -> Prop :=
| body_absent hs rest : Forall (fun nv => ~ is_length nv) hs -> body_text hs rest None
| body_sized hs1 n v hs2 body more :
    Forall (fun nv => ~ is_length nv) (hs1 ++ hs2) -> is_length (n, v) -> v <> [] -> alldigits v ->
    dval v = Z.of_nat (length body) -> Z.of_nat (length body) <= MCP_HTTP_MAX_BODY ->
    body_text (hs1 ++ (n, v) :: hs2) (body ++ more) (match body with [] => None | _ => Some body end).

(** A buffer without NUL bytes and with a request line of at most 8 KiB. *)
Definition plain_buffer (data : bytes) : Prop :=
  has_nul data = false /\ forall line rest, data = line ++ CRLF ++ rest -> crlf_free line -> (length line <= MCP_HTTP_MAX_LINE)%nat.

Definition request_spelled (data : bytes) (m : mcp_http_method_t) (t : bytes) (hs : list http_header_t) (b : option bytes) : Prop :=
  plain_buffer data /\ exists line s rest, data = line ++ CRLF ++ s ++ CRLF ++ rest /\ crlf_free line /\ line_text line m t /\ header_block s hs /\
  (length hs <= MCP_HTTP_MAX_HEADERS)%nat /\ body_text hs rest b.

(** The length, if there is one, is given once and has no blanks or sign
    before its digits. *)
Definition plain_length (hs : list http_header_t) : Prop :=
  forall hs1 nv hs2, hs = hs1 ++ nv :: hs2 -> is_length nv ->
    Forall (fun nv => ~ is_length nv) (hs1 ++ hs2) /\ exists d w, nv.2 = d :: w /\ isdigit d = true.

Definition nul_free (nv : http_header_t) : Prop := has_nul nv.1 = false /\ has_nul nv.2 = false.

Lemma block_nul_free s hs : header_block s hs -> has_nul s = false -> Forall nul_free hs.
Proof.
  induction 1 as [|line nv s hs _ (a & b & c & d & -> & _) _ IH]; intros H; [constructor|].
  repeat rewrite ?has_nul_app, ?has_nul_cons, ?orb_false_iff in H. destruct_and! H. constructor; [by split|by apply IH].
Qed.

Lemma is_length_iff nv : nul_free nv -> is_length nv <-> header_name_eq nv.1 (cs "Content-Length") = true.
Proof. intros [Hn _]. rewrite name_eq_iff, (cstr_no_nul _ Hn). done. Qed.

Lemma find_length_split hs v : Forall nul_free hs -> find_header (cs "Content-Length") hs = Some v ->
  exists hs1 n hs2, hs = hs1 ++ (n, v) :: hs2 /\ is_length (n, v).
Proof.
  induction 1 as [|[n w] hs Hn _ IH]; cbn [find_header]; [done|]. destruct (header_name_eq n _) eqn:E.
  - intros [= ->]. exists [], n, hs. split; [done|]. by apply is_length_iff.
  - intros (hs1 & n' & hs2 & -> & Hl)%IH. by exists ((n, w) :: hs1), n', hs2.
Qed.

Lemma find_length_none hs : Forall nul_free hs -> find_header (cs "Content-Length") hs = None <-> Forall (fun nv => ~ is_length nv) hs.
Proof.
  induction 1 as [|[n w] hs Hn _ IH]; cbn [find_header]; [by split|]. rewrite Forall_cons, (is_length_iff _ Hn), <- IH. cbn [fst].
  destruct (header_name_eq n _); naive_solver.
Qed.

Lemma find_length_here hs1 n v hs2 : Forall nul_free (hs1 ++ (n, v) :: hs2) -> Forall (fun nv => ~ is_length nv) hs1 -> is_length (n, v) ->
  find_header (cs "Content-Length") (hs1 ++ (n, v) :: hs2) = Some v.
Proof.
  induction hs1 as [|[n' w] hs1 IH]; cbn [app find_header]; intros [Hn Hf]%Forall_cons Hno Hl.
  - apply (is_length_iff _ Hn) in Hl. cbn [fst] in Hl. by rewrite Hl.
  - apply Forall_cons in Hno as [Hn' Hno]. rewrite (is_length_iff _ Hn) in Hn'. cbn [fst] in Hn'. destruct (header_name_eq n' _); [done|by apply IH].
Qed.

(** The code reads such bodies, and only such ones. *)
Lemma body_text_read hs rest b : Forall nul_free hs -> body_text hs rest b -> body_of hs rest = Some b.
Proof.
  intros Hf Hb. unfold body_of. destruct Hb as [hs rest Hno|hs1 n v hs2 body more Hno Hl Hv Ha Hd Hm].
  - by rewrite (proj2 (find_length_none _ Hf) Hno).
  - apply Forall_app in Hno as [Hno _]. rewrite find_length_here, strtoul_all, Hd by done.
    assert (MCP_HTTP_MAX_BODY = 4194304) as Hmax by done. rewrite Z.min_l by (unfold ULONG_MAX; lia).
    rewrite (proj2 (Z.ltb_ge _ _) Hm), (proj2 (Z.ltb_ge _ _)) by (rewrite length_app; lia). cbn [orb].
    rewrite Nat2Z.id, take_app_length. by destruct body.
Qed.

Lemma body_read_text hs rest b : Forall nul_free hs -> plain_length hs -> body_of hs rest = Some b -> body_text hs rest b.
Proof.
  intros Hf Hp. unfold body_of. destruct (find_header _ hs) as [v|] eqn:E.
  2: { intros [= <-]. constructor. by apply find_length_none. }
  apply find_length_split in E as (hs1 & n & hs2 & -> & Hl); [|done]. destruct (Hp hs1 (n, v) hs2 eq_refl Hl) as (Hno & d & w & Ev & Hd). cbn [snd] in Ev.
  assert (has_nul v = false) as Hv by (apply Forall_app in Hf as [_ [[_ ?] _]%Forall_cons]; done). subst v.
  rewrite strtoul_digits by done. destruct (span_digits (d :: w)) as [ds tl] eqn:Es. pose proof (span_digits_app _ _ _ Es) as Ew.
  destruct tl; [|done]. rewrite app_nil_r in Ew. subst ds. pose proof (span_digits_Forall (d :: w)) as Ha. rewrite Es in Ha. cbn [fst] in Ha.
  destruct (Z.ltb_spec MCP_HTTP_MAX_BODY (Z.min (dval (d :: w)) ULONG_MAX)) as [|Hm]; [done|].
  destruct (Z.ltb_spec (Z.of_nat (length rest)) (Z.min (dval (d :: w)) ULONG_MAX)) as [|Hr]; [done|]. cbn [orb]. intros [= <-].
  assert (MCP_HTTP_MAX_BODY = 4194304) as Hmax by done. assert (0 <= dval (d :: w)) as H0.
  { apply dval_nonneg. pose proof (span_digits_isdigit (d :: w)) as Hi. by rewrite Es in Hi. }
  rewrite Z.min_l in * by (unfold ULONG_MAX in *; lia). set (k := Z.to_nat (dval (d :: w))).
  assert (length (take k rest) = k) as Lk by (apply length_take_le; unfold k; lia).
  assert ((if 0 <? dval (d :: w) then Some (take k rest) else None) = match take k rest with [] => None | _ => Some (take k rest) end) as ->.
  { destruct (Z.ltb_spec 0 (dval (d :: w))); destruct (take k rest); try done; cbn in Lk; unfold k in Lk; lia. }
  rewrite <- (take_drop k rest) at 1. apply body_sized; try done; rewrite Lk; unfold k; lia.
Qed.

(** The two descriptions of a request. *)
Lemma reads_text data m t hs b : request_spelled data m t hs b -> http_text data m t hs b.
Proof.
  intros ([H0 _] & line & s & rest & -> & Hf & Hl & Hb & Hn & Hbody). exists line, s, rest. do 5 (split; [done|]).
  apply body_text_read; [|done]. eapply block_nul_free; [exact Hb|]. rewrite !has_nul_app, !orb_false_iff in H0. apply H0.
Qed.

Lemma text_reads data m t hs b : plain_buffer data -> plain_length hs -> http_text data m t hs b -> request_spelled data m t hs b.
Proof.
  intros Hp Hpl (line & s & rest & -> & Hf & Hl & Hb & Hn & Hbody). split; [done|]. exists line, s, rest. do 5 (split; [done|]).
  apply body_read_text; [|done|done]. destruct Hp as [H0 _]. eapply block_nul_free; [exact Hb|]. rewrite !has_nul_app, !orb_false_iff in H0. apply H0.
Qed.

(** The slices of the scan. *)
Lemma scan_slices line s rest :
  let data := line ++ CRLF ++ s ++ CRLF ++ rest in
  take (length line) data = line /\ drop (length line + 2) (take (length line + length s + 2) data) = s /\
  drop (length line + length s + 4) data = rest.
Proof.
  cbv zeta. split; [by rewrite take_app_length|]. split.
  - replace (line ++ CRLF ++ s ++ CRLF ++ rest) with ((line ++ CRLF ++ s) ++ CRLF ++ rest) by (by rewrite <- !app_assoc).
    rewrite take_app_length' by (rewrite !length_app; cbn [length CRLF]; lia). apply drop_line.
  - replace (line ++ CRLF ++ s ++ CRLF ++ rest) with ((line ++ CRLF ++ s ++ CRLF) ++ rest) by (by rewrite <- !app_assoc).
    rewrite drop_app_length'; [done|]. rewrite !length_app. cbn [length CRLF]. lia.
Qed.

(** What the two scans find, and how the block is cut out. *)
Lemma scan_found data hs_end line_end :
  find_headers_end data = Some hs_end -> find_crlf data = Some line_end ->
  exists line s rest, data = line ++ CRLF ++ s ++ CRLF ++ rest /\ crlf_free line /\ length line = line_end /\
  hs_end = (length line + length s)%nat /\ (exists y, line ++ CRLF ++ s = y ++ CRLF) /\
  forall l r, data = l ++ CRLF ++ CRLF ++ r -> (hs_end <= length l)%nat.
Proof.
  intros He Hc. apply find_end_inv in He as [(l & r & Hd & Hl) Hmin]. apply find_crlf_inv in Hc as (line & r0 & Hd0 & Hl0 & Hf).
  assert (length line <= length l)%nat as Hle by (rewrite Hl0; by eapply find_crlf_min; [|exact Hd]; rewrite Hd0, <- Hl0; apply find_crlf_app).
  set (s := drop (length line + 2) (l ++ CRLF)).
  assert (line ++ CRLF ++ s = l ++ CRLF) as Hs.
  { rewrite <- (take_drop (length line + 2) (l ++ CRLF)). fold s. rewrite app_assoc. f_equal.
    assert (take (length line + 2) data = line ++ CRLF) as <-.
    { rewrite Hd0, app_assoc. apply take_app_length'. rewrite length_app. cbn. lia. }
    rewrite Hd, (app_assoc l). apply take_app_le. rewrite length_app. cbn. lia. }
  exists line, s, r. split; [rewrite Hd; by rewrite !app_assoc, <- (app_assoc line), Hs|]. do 2 (split; [done|]). split; [|split; [by exists l|done]].
  apply (f_equal length) in Hs. rewrite !length_app in Hs. cbn [length CRLF] in Hs. lia.
Qed.

(** The block is all of the lines: nothing but an empty line is left of it,
    and the first empty line is the end. *)
Lemma block_whole data line s rest s0 s1 hs :
  data = line ++ CRLF ++ s ++ CRLF ++ rest -> s = s0 ++ s1 -> (length s1 <= 2)%nat -> header_block s0 hs ->
  (exists y, line ++ CRLF ++ s = y ++ CRLF) ->
  (forall l r, data = l ++ CRLF ++ CRLF ++ r -> (length line + length s <= length l)%nat) -> s1 = [].
Proof.
  intros -> -> Hl Hb [y Hy] Hmin. destruct (block_tail s0 hs Hb line) as [z Hz].
  assert (z ++ CRLF ++ s1 = y ++ CRLF) as E by (rewrite <- Hy, app_assoc, <- Hz; by rewrite <- !app_assoc).
  destruct s1 as [|x [|x' [|? ?]]]; [done| | |cbn in Hl; lia]; exfalso.
  - apply (f_equal (@rev byte)) in E. rewrite !rev_app_distr in E. cbn in E. by injection E.
  - assert (x = CR /\ x' = LF) as [-> ->]; [|].
    { apply (f_equal (@rev byte)) in E. rewrite !rev_app_distr in E. cbn in E. by injection E as -> -> _. }
    assert (length line + length (s0 ++ CRLF) <= length z)%nat as Hc.
    { apply (Hmin z (CRLF ++ rest)). rewrite (app_assoc z), <- Hz. by rewrite <- !app_assoc. }
    apply (f_equal length) in Hz. rewrite !length_app in Hc. rewrite (length_app line), (length_app CRLF), (length_app z) in Hz.
    cbn [length CRLF] in Hz, Hc. lia.
Qed.

(** How a run of the parser ends. *)
Definition parse_post (data : bytes) (h : heap) (r : option mcp_http_request_t) (h' : heap) : Prop :=
  (exists k, cstep h h' (from_option request_blocks 0 r + k) /\ lost k h /\ (is_Some r -> k = 0)) /\
  (forall req, r = Some req ->
     http_text data (http_method req) (target req) (headers req) (http_body req) /\ owned_serialized req = None) /\
  (ample h -> forall m t hs b, http_text data m t hs b -> r = Some (Request m t hs b None)).

Lemma parse_refused data h h' k :
  cstep h h' k -> lost k h -> (ample h -> forall m t hs b, ~ http_text data m t hs b) -> parse_post data h None h'.
Proof.
  intros Hs Hk Hno. split; [exists k; split; [eapply cstep_eq; [exact Hs|cbn; lia]|split; [done|by intros [? ?]]]|].
  split; [done|]. intros A m t hs b Ht. by destruct (Hno A m t hs b).
Qed.

Lemma http_parse_spec data h r h' : mcp_http_parse_request (Some data) h = (r, h') -> parse_post data h r h'.
Proof.
  intros H. unfold mcp_http_parse_request in H. destruct data as [|b0 data0].
  { apply ret_inv in H as [-> ->]. eapply parse_refused; [apply cstep_refl|by left|]. intros _ m t hs b (line & s & rest & E & _). by destruct line. }
  set (data := b0 :: data0) in *. clearbody data.
  destruct (find_headers_end data) as [hs_end|] eqn:Ee.
  2: { apply ret_inv in H as [-> ->]. eapply parse_refused; [apply cstep_refl|by left|]. intros _ m t hs b Ht.
       apply http_text_scan in Ht as (? & ? & ? & _ & ? & _). congruence. }
  destruct (find_crlf data) as [line_end|] eqn:Ec.
  2: { apply ret_inv in H as [-> ->]. eapply parse_refused; [apply cstep_refl|by left|]. intros _ m t hs b Ht.
       apply http_text_scan in Ht as (? & ? & ? & _ & _ & ? & _). congruence. }
  destruct (scan_found _ _ _ Ee Ec) as (line & s & rest & Hd & Hfree & <- & -> & Hy & Hmin).
  destruct (Nat.ltb_spec (length line + length s) (length line)) as [?|_]; [lia|].
  destruct (scan_slices line s rest) as (T1 & T2 & T3). rewrite <- Hd in T1, T2, T3. rewrite T1, T2, T3 in H.
  assert (forall m t hs b, http_text data m t hs b ->
    request_line line = Some (m, t) /\ header_block s hs /\ (length hs <= MCP_HTTP_MAX_HEADERS)%nat /\ body_of hs rest = Some b) as Hinv.
  { intros m t hs b Ht. apply http_text_scan in Ht as (line' & s' & rest' & E & He & Hc & Hl & Hb & Hn & Hbody).
    rewrite Ec in Hc. injection Hc as Hc. rewrite Ee in He. injection He as He. rewrite Hd in E.
    apply app_inj_1 in E as [<- E]; [|done]. apply app_inv_head in E. apply app_inj_1 in E as [<- E]; [|lia]. apply app_inv_head in E as <-. done. }
  destruct (request_line line) as [[m t]|] eqn:El.
  2: { apply ret_inv in H as [-> ->]. eapply parse_refused; [apply cstep_refl|by left|]. intros _ m t hs b Ht. by destruct (Hinv _ _ _ _ Ht). }
  apply bind_inv in H as (ok & h1 & E1 & H). pose proof E1 as E1'. apply xmalloc_cstep in E1. destruct ok; cbn [negb] in H.
  2: { apply ret_inv in H as [-> ->]. eapply parse_refused; [exact E1|by left|]. intros A. by apply xmalloc_ample_inv in E1'. }
  apply bind_inv in H as (t' & h2 & E2 & H). apply dup_n_spec in E2 as [S2 Ht]. destruct Ht as [-> |[-> Hna]].
  2: { apply bind_inv in H as (? & h3 & E3 & H). apply xfree_cstep in E3. apply ret_inv in H as [-> ->].
       eapply (parse_refused _ _ _ 0); [cbn [tblocks] in S2; csolve|by left|]. intros A. destruct Hna. by eapply ample_cstep. }
  cbv zeta in H. apply bind_inv in H as ([b req] & h3 & E3 & H). apply header_loop_spec in E3 as ((k & Sk & Hk & Hk0) & (hs & -> & Hok) & Hcomp).
  unfold set_headers in *. cbn [headers app http_method target http_body owned_serialized length] in *. cbn [tblocks] in S2.
  assert (cstep h h2 (request_blocks (Request m t [] None None))) as S by (clear - E1 S2; unfold request_blocks, headers_blocks; cbn; csolve).
  assert (ample h -> ample h2) as Hamp by (intros A; by eapply ample_cstep).
  assert (lost k h) as Hk' by (destruct Hk as [?|[? ?]]; [by left|right; auto]).
  assert (forall b', body_of hs rest = Some b' -> b = true -> http_text data m t hs b') as Hsound.
  { intros b' Hb' Hb. destruct (Hok Hb) as (s0 & s1 & Es & Hs1 & Hblk & Hlen). exists line, s, rest. split; [done|]. split; [done|].
    split; [by apply request_line_iff|]. assert (s1 = []) as -> by (by eapply block_whole). rewrite app_nil_r in Es. subst s0.
    split; [done|]. split; [destruct Hlen as [-> |?]; [cbn; lia|lia]|done]. }
  assert (forall st, cstep h3 st (- request_blocks (Request m t hs None None)) -> cstep h st k) as Hback.
  { intros st Hst. clear - S Sk Hst. set (B := request_blocks (Request m t hs None None)) in *. set (C := request_blocks (Request m t [] None None)) in *.
    clearbody B C. csolve. }
  destruct b.
  2: { apply bind_inv in H as (? & h4 & E4 & H). apply request_destroy_cstep in E4. apply ret_inv in H as [-> ->].
       eapply parse_refused; [by apply Hback|done|]. intros A m' t0 hs' b' Ht. destruct (Hinv _ _ _ _ Ht) as (_ & Hb & Hn & _).
       by destruct (Hcomp (Hamp A) hs' Hb) as [? _]; [lia|done|]. }
  rewrite (Hk0 eq_refl) in *. destruct (body_of hs rest) as [b'|] eqn:Ebody.
  - apply ret_inv in H as [-> ->]. split; [exists 0; split; [|done]; cbn [from_option]; clear - S Sk; unfold request_blocks in *; cbn in *; csolve|].
    split; [intros req [= <-]; cbn; split; [by apply Hsound|done]|]. intros A m' t0 hs' b2 Ht. destruct (Hinv _ _ _ _ Ht) as (Hl & Hb & Hn & Hb2).
    destruct (Hcomp (Hamp A) hs' Hb) as [_ E]; [lia|done|]. injection E as ->. congruence.
  - apply bind_inv in H as (? & h4 & E4 & H). apply request_destroy_cstep in E4. apply ret_inv in H as [-> ->].
    eapply parse_refused; [by apply Hback|done|]. intros A m' t0 hs' b' Ht. destruct (Hinv _ _ _ _ Ht) as (_ & Hb & Hn & Hb').
    destruct (Hcomp (Hamp A) hs' Hb) as [_ E]; [lia|done|]. injection E as ->. congruence.
Qed.

(** ** Serializing *)

Lemma put_line_spec cap b line h r h' :
  put_line cap (Some b) line h = (r, h') -> Z.of_nat (length b + length line) <= cap ->
  (r = Some (b ++ line) /\ cstep h h' 0) \/ (r = None /\ cstep h h' (-1) /\ INT_MAX < Z.of_nat (length line)).
Proof.
  intros H Hc. unfold put_line in H. destruct (Z.ltb_spec INT_MAX (Z.of_nat (length line))).
  - apply bind_inv in H as (? & h1 & E & H). apply xfree_cstep in E. apply ret_inv in H as [-> ->]. by right.
  - rewrite (proj2 (Z.leb_le _ _) Hc) in H. apply bind_inv in H as (? & h1 & E & H). apply ret_inv in E as [_ ->].
    apply ret_inv in H as [-> ->]. left. split; [done|cstill].
Qed.

Lemma put_headers_none cap hs h : put_headers cap None hs h = (None, h).
Proof. induction hs as [|nv hs IH]; [done|]. cbn [put_headers put_line]. exact IH. Qed.

Lemma length_header_out nv : Z.of_nat (length (header_out nv)) = Z.of_nat (length (cstr nv.1)) + Z.of_nat (length (cstr nv.2)) + 4.
Proof. unfold header_out. rewrite !length_app. change (length (cs ": ")) with 2%nat. change (length CRLF) with 2%nat. lia. Qed.

Lemma length_headers_out hs : Z.of_nat (length (flat_map header_out hs)) = headers_size hs.
Proof.
  induction hs as [|nv hs IH]; [done|]. cbn [flat_map headers_size foldr] in *. rewrite length_app, Nat2Z.inj_add, length_header_out.
  unfold headers_size in IH. lia.
Qed.

(** Some line is longer than an [int] can say. *)
Definition huge_line (lines : list bytes) : Prop := Exists (fun l => INT_MAX < Z.of_nat (length l)) lines.

Lemma put_headers_spec cap hs : forall b h r h',
  put_headers cap (Some b) hs h = (r, h') -> Z.of_nat (length b) + headers_size hs <= cap ->
  (r = Some (b ++ flat_map header_out hs) /\ cstep h h' 0) \/ (r = None /\ cstep h h' (-1) /\ huge_line (map header_out hs)).
Proof.
  induction hs as [|nv hs IH]; intros b h r h' H Hc; cbn [put_headers] in H.
  - apply ret_inv in H as [-> ->]. left. split; [by rewrite app_nil_r|cstill].
  - apply bind_inv in H as (r1 & h1 & E & H). cbn [headers_size foldr] in Hc. fold (headers_size hs) in Hc. pose proof (length_header_out nv) as Hnv.
    assert (0 <= headers_size hs) by (rewrite <- length_headers_out; lia).
    apply put_line_spec in E as [[-> S1]|(-> & S1 & Hh)]; [| |rewrite Nat2Z.inj_add; lia].
    + apply IH in H; [|rewrite length_app, Nat2Z.inj_add; lia]. destruct H as [[-> S2]|(-> & S2 & Hh)].
      * left. split; [cbn [flat_map]; by rewrite <- app_assoc|clear - S1 S2; csolve].
      * right. split; [done|]. split; [clear - S1 S2; csolve|by apply Exists_cons_tl].
    + rewrite put_headers_none in H. injection H as <- <-. right. split; [done|]. split; [done|by apply Exists_cons_hd].
Qed.

Definition first_line (r : mcp_http_request_t) : bytes :=
  method_str (http_method r) ++ cs " " ++ cstr (target r) ++ cs " HTTP/1.1" ++ CRLF.

(** The [Content-Length] line the serializer adds. *)
Definition added_length (r : mcp_http_request_t) : bytes :=
  if negb (has_length (headers r)) && (bool_decide (http_method r = MCP_HTTP_POST) || (0 <? body_len (http_body r)))
  then length_line (body_len (http_body r)) else [].

Definition http_request_text (r : mcp_http_request_t) : bytes :=
  first_line r ++ flat_map header_out (headers r) ++ added_length r ++ CRLF ++ default [] (http_body r).

Definition kept (r : mcp_http_request_t) (text : bytes) : mcp_http_request_t :=
  Request (http_method r) (target r) (headers r) (http_body r) (Some text).

Lemma length_length_line n : Z.of_nat (length (length_line n)) = 18 + Z.of_nat (length (fmt_int n)).
Proof. unfold length_line. rewrite !length_app. change (length (cs "Content-Length: ")) with 16%nat. change (length CRLF) with 2%nat. lia. Qed.

Lemma length_first_line r : Z.of_nat (length (first_line r)) = Z.of_nat (length (method_str (http_method r))) + Z.of_nat (length (cstr (target r))) + 12.
Proof.
  unfold first_line. rewrite !length_app. change (length (cs " ")) with 1%nat. change (length (cs " HTTP/1.1")) with 9%nat.
  change (length CRLF) with 2%nat. lia.
Qed.

(** The buffer is large enough for every request: nothing is cut and nothing
    written past it, whatever the allocator refuses. *)
Lemma request_serialize_spec r h out req' h' :
  mcp_http_request_serialize (Some r) h = ((out, req'), h') ->
  (out = Some (http_request_text r) /\ req' = Some (kept r (http_request_text r)) /\ cstep h h' (request_blocks (kept r (http_request_text r)) - request_blocks r)) \/
  (out = None /\ req' = Some r /\ cstep h h' 0 /\ (~ ample h \/ huge_line (first_line r :: length_line (body_len (http_body r)) :: map header_out (headers r)))).
Proof.
  intros H. unfold mcp_http_request_serialize in H. cbv zeta in H. apply bind_inv in H as (ok & h1 & E1 & H). pose proof E1 as E1'.
  apply xmalloc_cstep in E1. destruct ok; cbn [negb] in H.
  2: { apply ret_inv in H as [[= -> ->] ->]. right. do 3 (split; [done|]). left. intros A. by apply xmalloc_ample_inv in E1'. }
  fold (first_line r) in H. pose proof (length_first_line r) as Lf. pose proof (length_headers_out (headers r)) as Lh.
  pose proof (length_length_line (body_len (http_body r))) as Ll. assert (0 <= body_len (http_body r)) as Hn by (unfold body_len; lia).
  assert (length (default [] (http_body r)) = Z.to_nat (body_len (http_body r))) as Lb by (unfold body_len; lia).
  set (cap := 128 + _ + _ + _ + 32 + _ + _) in H. assert (cap = 128 + Z.of_nat (length (method_str (http_method r))) +
    Z.of_nat (length (cstr (target r))) + body_len (http_body r) + 32 + headers_size (headers r) + Z.of_nat (length (fmt_int (body_len (http_body r))))) as Hcap by done.
  clearbody cap.
  assert (forall k, cstep h1 k (-1) -> cstep h k 0) as Hback by (intros k Hk; clear - E1 Hk; csolve).
  apply bind_inv in H as (o1 & h2 & E2 & H). apply bind_inv in H as (o2 & h3 & E3 & H). apply bind_inv in H as (o3 & h4 & E4 & H).
  apply put_line_spec in E2 as [[-> S2]|(-> & S2 & Hh)]; [| |cbn [length]; lia].
  2: { rewrite put_headers_none in E3. injection E3 as <- <-. assert (o3 = None /\ h4 = h2) as [-> ->] by (destruct (_ && _); by injection E4).
       apply ret_inv in H as [[= -> ->] ->]. right. do 2 (split; [done|]). split; [by apply Hback|]. right. by apply Exists_cons_hd. }
  cbn [app] in E3. apply put_headers_spec in E3 as [[-> S3]|(-> & S3 & Hh)]; [| |lia].
  2: { assert (o3 = None /\ h4 = h3) as [-> ->] by (destruct (_ && _); by injection E4). apply ret_inv in H as [[= -> ->] ->]. right.
       do 2 (split; [done|]). split; [apply Hback; clear - S2 S3; csolve|]. right. by apply Exists_cons_tl, Exists_cons_tl. }
  assert ((o3 = Some ((first_line r ++ flat_map header_out (headers r)) ++ added_length r) /\ cstep h3 h4 0) \/
    (o3 = None /\ cstep h3 h4 (-1) /\ INT_MAX < Z.of_nat (length (length_line (body_len (http_body r)))))) as H4.
  { unfold added_length. destruct (_ && _); [apply put_line_spec in E4; [exact E4|rewrite length_app; lia]|]. apply ret_inv in E4 as [-> ->].
    left. rewrite app_nil_r. split; [done|cstill]. }
  clear E4. destruct H4 as [[-> S4]|(-> & S4 & Hh)].
  2: { apply ret_inv in H as [[= -> ->] ->]. right. do 2 (split; [done|]). split; [apply Hback; clear - S2 S3 S4; csolve|].
       right. by apply Exists_cons_tl, Exists_cons_hd. }
  assert (Z.of_nat (length (added_length r)) <= 18 + Z.of_nat (length (fmt_int (body_len (http_body r))))) as La.
  { unfold added_length. destruct (_ && _); [lia|cbn; lia]. }
  set (buf := (first_line r ++ _) ++ _) in H. assert (Z.of_nat (length buf) <= cap - 2 - body_len (http_body r)) as Lbuf.
  { unfold buf. rewrite !length_app. lia. }
  destruct (Z.ltb_spec cap (Z.of_nat (length buf + 2))) as [?|_]; [lia|].
  apply bind_inv in H as (o & h5 & E5 & H). unfold put_rest in E5. rewrite (proj2 (Z.leb_le _ _)) in E5.
  2: { rewrite length_app, Lb. change (length CRLF) with 2%nat. lia. }
  apply bind_inv in E5 as (? & h6 & E6 & E5). apply ret_inv in E6 as [_ ->]. apply ret_inv in E5 as [-> ->].
  apply bind_inv in H as (? & h7 & E7 & H). apply free_text_cstep in E7. apply ret_inv in H as [Hr ->]. apply pair_equal_spec in Hr as [-> ->].
  left. assert (buf ++ CRLF ++ default [] (http_body r) = http_request_text r) as -> by (unfold buf, http_request_text; by rewrite <- !app_assoc).
  do 2 (split; [done|]). unfold request_blocks, kept. cbn [headers owned_serialized tblocks]. clear - E1 S2 S3 S4 E7. csolve.
Qed.

(** ** What is sent is read *)

Lemma no_cr_free s : CR ∉ s -> crlf_free s.
Proof.
  intros H. unfold crlf_free. destruct (find_crlf s) as [n|] eqn:E; [|done]. apply find_crlf_inv in E as (l & r & -> & _). exfalso. apply H.
  unfold CRLF. set_solver.
Qed.

(** A header that survives the text. *)
Record header_ok (nv : http_header_t) : Prop := HeaderOk {
  name_text : nv.1 <> [] /\ has_nul nv.1 = false /\ (":"%byte ∉ nv.1) /\ (CR ∉ nv.1) /\ tight nv.1;
  value_text : has_nul nv.2 = false /\ (CR ∉ nv.2) /\ tight nv.2;
  line_short : (length nv.1 + length nv.2 + 2 <= MCP_HTTP_MAX_LINE)%nat;
}.

(** A request that survives it. *)
Record request_sendable (r : mcp_http_request_t) : Prop := Sendable {
  known_method : http_method r <> MCP_HTTP_UNKNOWN;
  target_text : target r <> [] /\ has_nul (target r) = false /\ (" "%byte ∉ target r) /\ (CR ∉ target r) /\ (length (target r) + 16 <= MCP_HTTP_MAX_LINE)%nat;
  all_headers_ok : Forall header_ok (headers r);
  no_length : find_header (cs "Content-Length") (headers r) = None;
  header_room : (length (headers r) < MCP_HTTP_MAX_HEADERS)%nat;
  body_room : body_len (http_body r) <= MCP_HTTP_MAX_BODY;
}.

(** What the peer sees: the added header, and an empty body as none. *)
Definition seen_headers (r : mcp_http_request_t) : list http_header_t :=
  headers r ++ (if bool_decide (http_method r = MCP_HTTP_POST) || (0 <? body_len (http_body r))
                then [(cs "Content-Length", fmt_int (body_len (http_body r)))] else []).

Definition seen_body (r : mcp_http_request_t) : option bytes :=
  if 0 <? body_len (http_body r) then http_body r else None.

Lemma no_length_absent hs : find_header (cs "Content-Length") hs = None -> has_length hs = false.
Proof. induction hs as [|[n v] hs IH]; [done|]. cbn [find_header has_length existsb fst]. by destruct (header_name_eq n _). Qed.

Lemma find_header_app name hs hs' : find_header name hs = None -> find_header name (hs ++ hs') = find_header name hs'.
Proof. induction hs as [|[n v] hs IH]; [done|]. cbn [app find_header]. by destruct (header_name_eq n name). Qed.

Lemma header_out_text nv : header_ok nv -> exists line, header_out nv = line ++ CRLF /\ crlf_free line /\ header_text line nv.
Proof.
  intros [(Hn & Hn0 & Hc & Hcr & Tn) (Hv0 & Hvr & Tv) Hl]. exists (nv.1 ++ cs ": " ++ nv.2). unfold header_out.
  rewrite !cstr_no_nul by done. split; [by rewrite <- !app_assoc|]. split; [apply no_cr_free; repeat apply notin_app; [done|by apply (bool_decide_unpack _); vm_compute|done]|].
  exists [], [], [" "%byte], []. rewrite app_nil_r. split; [done|]. do 4 (split; [repeat constructor|]). do 4 (split; [done|]).
  rewrite !length_app. change (length (cs ": ")) with 2%nat. lia.
Qed.

Lemma headers_out_block hs : Forall header_ok hs -> header_block (flat_map header_out hs) hs.
Proof.
  induction 1 as [|nv hs Hnv _ IH]; [constructor|]. destruct (header_out_text nv Hnv) as (line & E & Hf & Ht). cbn [flat_map].
  rewrite E, <- app_assoc. by constructor.
Qed.

Lemma fmt_chars n x : 0 <= n -> x ∈ fmt_int n -> isdigit x = true.
Proof. intros Hn Hx. destruct (fmt_int_digits n Hn) as (Ha & _). by eapply Forall_forall in Ha. Qed.

Lemma length_header_ok n : 0 <= n <= MCP_HTTP_MAX_BODY -> header_ok (cs "Content-Length", fmt_int n).
Proof.
  intros Hn. assert (MCP_HTTP_MAX_BODY = 4194304) as Hm by done. destruct (fmt_int_text n) as [H0 _]; [lia|]. split; cbn [fst snd].
  - split; [done|]. split; [done|]. split; [by apply (bool_decide_unpack _); vm_compute|].
    split; [by apply (bool_decide_unpack _); vm_compute|by apply tightb_ok].
  - split; [done|]. split; [intros Hx; by apply fmt_chars in Hx; [|lia]|]. split; intros b t E.
    + assert (isdigit b = true) as Hd by (apply (fmt_chars n); [lia|]; rewrite E; apply elem_of_cons; by left). unfold isdigit in Hd. bool_props. by destruct b.
    + assert (isdigit b = true) as Hd by (apply (fmt_chars n); [lia|]; rewrite E; apply elem_of_app; right; by apply list_elem_of_singleton). unfold isdigit in Hd. bool_props. by destruct b.
  - pose proof (length_fmt_int n ltac:(lia)). change (length (cs "Content-Length")) with 14%nat. unfold MCP_HTTP_MAX_LINE. lia.
Qed.

(** The text of a request that can be sent, with anything after it, is one
    of that request. *)
Lemma http_request_text_reads r more :
  request_sendable r -> http_text (http_request_text r ++ more) (http_method r) (target r) (seen_headers r) (seen_body r).
Proof.
  intros [Hm (Ht & Ht0 & Hts & Htc & _) Hhs Hnl Hroom Hbody]. set (n := body_len (http_body r)) in *.
  assert (0 <= n) as Hn by (unfold n, body_len; lia).
  set (extra := if bool_decide (http_method r = MCP_HTTP_POST) || (0 <? n) then [(cs "Content-Length", fmt_int n)] else []).
  exists (method_str (http_method r) ++ cs " " ++ target r ++ cs " HTTP/1.1"), (flat_map header_out (headers r ++ extra)), (default [] (http_body r) ++ more).
  split; [|split; [|split; [|split; [|split]]]].
  - unfold http_request_text, first_line, added_length. rewrite (no_length_absent _ Hnl), (cstr_no_nul _ Ht0). cbn [negb andb]. fold n.
    rewrite flat_map_app. unfold extra. destruct (_ || _); cbn [flat_map]; rewrite ?app_nil_r; [|by rewrite <- !app_assoc].
    unfold header_out, length_line. cbn [fst snd]. rewrite (cstr_no_nul (fmt_int n)) by (apply fmt_int_text; lia).
    change (cstr (cs "Content-Length")) with (cs "Content-Length"). by rewrite <- !app_assoc.
  - apply no_cr_free. assert (CR ∉ method_str (http_method r)) by (destruct (http_method r); by apply (bool_decide_unpack _); vm_compute).
    assert (CR ∉ cs " ") by (by apply (bool_decide_unpack _); vm_compute). assert (CR ∉ cs " HTTP/1.1") by (by apply (bool_decide_unpack _); vm_compute).
    by repeat apply notin_app.
  - exists (method_str (http_method r)). split; [done|]. split; [by destruct (http_method r)|].
    split; [destruct (http_method r); by apply (bool_decide_unpack _); vm_compute|]. do 2 (split; [done|]). by destruct (http_method r).
  - apply headers_out_block. apply Forall_app. split; [done|]. unfold extra. destruct (_ || _); [|constructor]. constructor; [|constructor]. by apply length_header_ok.
  - unfold seen_headers. rewrite length_app. destruct (_ || _); cbn [length]; lia.
  - unfold body_of, seen_headers, seen_body. fold n extra. rewrite (find_header_app _ _ _ Hnl). unfold extra.
    destruct (bool_decide _ || (0 <? n)) eqn:E.
    + assert (find_header (cs "Content-Length") [(cs "Content-Length", fmt_int n)] = Some (fmt_int n)) as -> by done.
      assert (MCP_HTTP_MAX_BODY = 4194304) as Hmax by done.
      rewrite strtoul_fmt by (unfold ULONG_MAX; lia). rewrite (proj2 (Z.ltb_ge _ _) Hbody).
      rewrite (proj2 (Z.ltb_ge _ _)) by (rewrite length_app; unfold n, body_len; lia). cbn [orb].
      destruct (Z.ltb_spec 0 n) as [Hpos|]; [|done]. unfold n, body_len in *. destruct (http_body r) as [b|]; [|cbn in Hpos; lia].
      cbn [default from_option id]. rewrite Nat2Z.id, take_app_length. done.
    + apply orb_false_iff in E as [_ ->]. done.
Qed.

(** Its lines are short. *)
Lemma sendable_lines r :
  request_sendable r -> ~ huge_line (first_line r :: length_line (body_len (http_body r)) :: map header_out (headers r)).
Proof.
  intros [_ (_ & Ht0 & _ & _ & Htl) Hhs _ _ Hb] Hh. assert (MCP_HTTP_MAX_BODY = 4194304) as Hmax by done. unfold INT_MAX in *.
  apply Exists_cons in Hh as [Hh|Hh]; [|apply Exists_cons in Hh as [Hh|Hh]].
  - rewrite length_first_line, (cstr_no_nul _ Ht0) in Hh. unfold INT_MAX in Hh.
    assert (length (method_str (http_method r)) <= 7)%nat by (destruct (http_method r); vm_compute; lia).
    unfold MCP_HTTP_MAX_LINE in Htl. lia.
  - rewrite length_length_line in Hh. pose proof (length_fmt_int (body_len (http_body r))) as Hl. unfold body_len in *. unfold INT_MAX in Hh. lia.
  - apply Exists_exists in Hh as (l & Hin & Hl). apply list_elem_of_fmap in Hin as (nv & -> & Hin). eapply Forall_forall in Hhs; [|exact Hin].
    destruct Hhs as [(_ & Hn0 & _) (Hv0 & _) Hs]. rewrite length_header_out, !cstr_no_nul in Hl by done. unfold MCP_HTTP_MAX_LINE in Hs. unfold INT_MAX in Hl. lia.
Qed.

(** ** Claims *)

(** C19: The HTTP parser is exact.  What a request is follows http.h: no NUL
    bytes, a request line of at most 8 KiB with a method, a target and
    HTTP/1.1, at most 64 header lines of at most 8 KiB, an empty line, and a
    body as long as the one Content-Length says in decimal digits, within the
    buffer and 4 MiB (no body without one).  When memory is not refused,
    every buffer that holds such a request is accepted and read as it.
    Conversely a request that is returned, for a buffer without NUL bytes
    whose request line keeps the limit, and with no Content-Length or a single
    one that starts with a digit, is what the buffer holds.  (Lengths with a sign
    or given twice, NUL bytes and long request lines are accepted too; see
    the findings.)  For every buffer and every allocator the request owns its
    blocks and the heap is sound, and at most one block is lost, and only
    when the allocator refuses. *)
Theorem http_parse_exact data h r h' :
  mcp_http_parse_request (Some data) h = (r, h') ->
  (exists k, cstep h h' (from_option request_blocks 0 r + k) /\ lost k h /\ (is_Some r -> k = 0)) /\
  (plain_buffer data -> forall req, r = Some req -> plain_length (headers req) ->
     request_spelled data (http_method req) (target req) (headers req) (http_body req) /\ owned_serialized req = None) /\
  (ample h -> forall m t hs b, request_spelled data m t hs b -> r = Some (Request m t hs b None)).
Proof.
  intros (Hs & Hok & Hall)%http_parse_spec. split; [done|]. split.
  - intros Hp req Hr Hl. destruct (Hok req Hr). split; [by apply text_reads|done].
  - intros A m t hs b Hr. by apply Hall, reads_text.
Qed.


Definition lines (l : list string) : bytes := flat_map (fun s => cs s ++ CRLF) l.

Definition sample_http : bytes := lines ["POST /mcp HTTP/1.1"; "Content-Length: 2"; "X-A:  b "; ""]%string ++ cs "{}more".

Definition sample_parsed : mcp_http_request_t :=
  Request MCP_HTTP_POST (cs "/mcp") [(cs "Content-Length", cs "2"); (cs "X-A", cs "b")] (Some (cs "{}")) None.

(** It has no NUL and a short request line, and its length is plain. *)
Lemma sample_plain : plain_buffer sample_http.
Proof.
  split; [reflexivity|]. intros line rest E Hf. pose proof (find_crlf_app line rest Hf) as Hc. rewrite <- E in Hc.
  assert (find_crlf sample_http = Some 18%nat) as H by (vm_compute; reflexivity). rewrite H in Hc. injection Hc as <-. unfold MCP_HTTP_MAX_LINE. lia.
Qed.

Lemma sample_plain_length : plain_length (headers sample_parsed).
Proof.
  intros hs1 nv hs2 E Hl. destruct hs1 as [|x [|y [|? ?]]]; [| |exfalso..].
  - injection E as <- <-. split; [|by exists "2"%byte, []]. apply Forall_singleton. discriminate.
  - injection E as _ <- _. discriminate Hl.
  - injection E as _ _ E. discriminate E.
  - injection E as _ _ E. discriminate E.
Qed.

Lemma http_parse_exact_witness :
  request_spelled sample_http MCP_HTTP_POST (cs "/mcp") [(cs "Content-Length", cs "2"); (cs "X-A", cs "b")] (Some (cs "{}")).
Proof.
  destruct (mcp_http_parse_request (Some sample_http) fresh_heap) as [r h'] eqn:E.
  assert (r = Some sample_parsed) as Hr by (transitivity (mcp_http_parse_request (Some sample_http) fresh_heap).1; [rewrite E; reflexivity|vm_compute; reflexivity]).
  subst r.
  destruct (http_parse_exact sample_http fresh_heap (Some sample_parsed) h' E) as (_ & H & _).
  exact (proj1 (H sample_plain sample_parsed eq_refl sample_plain_length)).
Defined.

Definition plain_request : mcp_http_request_t := Request MCP_HTTP_POST (cs "/mcp") [(cs "Accept", cs "text/html")] (Some (cs "{}")) None.


(** ** Headers as a map *)

Lemma name_eq_swap a b c : header_name_eq a b = true -> header_name_eq a c = header_name_eq b c.
Proof.
  intros H%name_eq_iff. destruct (header_name_eq b c) eqn:E.
  - apply name_eq_iff. apply name_eq_iff in E. congruence.
  - destruct (header_name_eq a c) eqn:E'; [|done]. apply name_eq_iff in E'. rewrite <- E. symmetry. apply name_eq_iff. congruence.
Qed.

Lemma find_replaced name v name' hs :
  is_Some (find_header name hs) ->
  find_header name' (replace_value name v hs) = if header_name_eq name name' then Some v else find_header name' hs.
Proof.
  induction hs as [|[n w] hs IH]; cbn [find_header replace_value]; [by intros [? ?]|]. destruct (header_name_eq n name) eqn:E.
  - intros _. cbn [find_header]. rewrite <- (name_eq_swap n name name' E). by destruct (header_name_eq n name').
  - intros Hs. cbn [find_header]. rewrite (IH Hs). destruct (header_name_eq n name') eqn:E'; [|done].
    destruct (header_name_eq name name') eqn:E2; [|done]. apply name_eq_iff in E', E2.
    exfalso. enough (header_name_eq n name = true) by congruence. apply name_eq_iff. congruence.
Qed.

Lemma find_appended name v name' hs :
  find_header name hs = None -> find_header name' (hs ++ [(cstr name, v)]) =
  if header_name_eq name name' then Some v else find_header name' hs.
Proof.
  induction hs as [|[n w] hs IH]; cbn [find_header app].
  - intros _. unfold header_name_eq. rewrite cstr_idem. by destruct (eq_nocase _ _).
  - destruct (header_name_eq n name) eqn:E; [done|]. intros Hs. rewrite (IH Hs). destruct (header_name_eq n name') eqn:E'; [|done].
    destruct (header_name_eq name name') eqn:E2; [|done]. apply name_eq_iff in E', E2.
    exfalso. enough (header_name_eq n name = true) by congruence. apply name_eq_iff. congruence.
Qed.

(** Setting a header changes what is found under its name, without regard to
    case, and nothing else. *)
Lemma set_header_finds r name value h st r' h' :
  mcp_http_request_set_header (Some r) (Some name) (Some value) h = ((st, r'), h') ->
  (st = MCP_OK /\ exists q, r' = Some q /\ forall name', find_header name' (headers q) =
     if header_name_eq name name' then Some (cstr value) else find_header name' (headers r)) \/
  (st = MCP_ERR_NOMEM /\ r' = Some r /\ (ample h -> find_header name (headers r) = None /\ (MCP_HTTP_MAX_HEADERS <= length (headers r))%nat)).
Proof.
  intros H. cbn [mcp_http_request_set_header] in H. destruct (find_header name (headers r)) as [old|] eqn:E.
  - apply bind_inv in H as (v & h1 & E1 & H). apply dup_n_spec in E1 as [_ [-> |[-> Hna]]].
    + apply bind_inv in H as (? & h2 & _ & H). apply ret_inv in H as [[= -> ->] _]. left. split; [done|]. eexists. split; [done|].
      intros name'. cbn [set_headers headers]. apply find_replaced. by rewrite E.
    + apply ret_inv in H as [[= -> ->] _]. right. done.
  - destruct (Nat.leb_spec MCP_HTTP_MAX_HEADERS (length (headers r))) as [Hf|_].
    { apply ret_inv in H as [[= -> ->] _]. right. done. }
    apply bind_inv in H as (nv & h1 & E1 & H). unfold dup_header in E1. apply bind_inv in E1 as (n & k1 & E2 & E1).
    apply bind_inv in E1 as (v & k2 & E3 & E1). apply dup_n_spec in E2 as [S2 [-> |[-> Hna]]].
    + apply dup_n_spec in E3 as [S3 [-> |[-> Hna]]].
      * apply ret_inv in E1 as [-> ->]. apply ret_inv in H as [[= -> ->] _]. left. split; [done|]. eexists. split; [done|].
        intros name'. cbn [set_headers headers]. by apply find_appended.
      * apply bind_inv in E1 as (? & k3 & _ & E1). apply ret_inv in E1 as [-> ->]. apply ret_inv in H as [[= -> ->] _]. right.
        do 2 (split; [done|]). intros A. destruct Hna. by eapply ample_cstep.
    + assert (nv = None) as -> by (destruct v; apply bind_inv in E1 as (? & k3 & _ & E1); by apply ret_inv in E1 as [-> _]).
      apply ret_inv in H as [[= -> ->] _]. right. done.
Qed.

(** ** Findings *)

(** When the name of a header cannot be copied its value is never freed. *)
Lemma header_value_leaks :
  exists h', mcp_http_parse_request (Some sample_http) (Heap (Nat.eqb 2) 0 0 false) = (None, h') /\ live h' = 1.
Proof. eexists. split; vm_compute; reflexivity. Qed.

(** A NUL byte ends a header value for the reader: the rest of it is
    ignored. *)
Lemma nul_in_length :
  exists r, (mcp_http_parse_request (Some (cs "POST / HTTP/1.1" ++ CRLF ++ cs "Content-Length: 2" ++ [x00] ++ cs "00" ++ CRLF ++ CRLF ++ cs "{}")) fresh_heap).1 = Some r /\
  http_body r = Some (cs "{}").
Proof. eexists. split; vm_compute; reflexivity. Qed.

(** A negative length is read modulo [2^64]. *)
Lemma negative_length :
  exists r, (mcp_http_parse_request (Some (lines ["POST / HTTP/1.1"; "Content-Length: -18446744073709551614"; ""]%string ++ cs "{}")) fresh_heap).1 = Some r /\
  http_body r = Some (cs "{}").
Proof. eexists. split; vm_compute; reflexivity. Qed.

(** The limit of a line is not kept for the request line. *)
Lemma long_request_line :
  exists r, (mcp_http_parse_request (Some (cs "GET " ++ repeat "a"%byte 9000 ++ cs " HTTP/1.1" ++ CRLF ++ CRLF)) fresh_heap).1 = Some r /\
  length (target r) = 9000%nat.
Proof. eexists. split; vm_compute; reflexivity. Qed.

(** A request with 64 headers is sent with one more, which the parser
    refuses. *)
Definition full_request : mcp_http_request_t :=
  Request MCP_HTTP_POST (cs "/mcp") (repeat (cs "X", cs "y") MCP_HTTP_MAX_HEADERS) (Some (cs "{}")) None.

Lemma full_headers_refused :
  match (mcp_http_request_serialize (Some full_request) fresh_heap).1.1 with
  | Some text => (mcp_http_parse_request (Some text) fresh_heap).1 = None
  | None => False
  end.
Proof. vm_compute. reflexivity. Qed.

(** Of two lengths the first one is taken. *)
Lemma two_lengths :
  exists r, (mcp_http_parse_request (Some (lines ["POST / HTTP/1.1"; "Content-Length: 2"; "Content-Length: 20"; ""]%string ++ cs "{}")) fresh_heap).1 = Some r /\
  http_body r = Some (cs "{}").
Proof. eexists. split; vm_compute; reflexivity. Qed.

(** [close] is only seen when it is first in the list. *)
Lemma close_not_first :
  mcp_http_request_wants_close (Some (Request MCP_HTTP_GET (cs "/") [(cs "Connection", cs "keep-alive, close")] None None)) = false.
Proof. reflexivity. Qed.

(** A response needs a reason phrase. *)
Lemma reason_required status h : mcp_http_response_new status None h = (None, h).
Proof. reflexivity. Qed.
